(* ===== verification/_CoqProject ===== *)
-Q . S2P
Prelude.v
PyFloat.v
PyDict.v
PyStr.v
Batcher.v
GrammarCache.v
Memory.v
WorkClassScheduler.v
AdaptiveBatching.v
Oom.v
OomRecovery.v
Handlers.v
WorkerDispatch.v
ModelWorker.v
LoadErrors.v
RegistryIds.v
Registry.v
RegistrySystem.v
RegistryPolicy.v
PyText.v
ToolCallParser.v
Streaming.v
Generation.v
Lifecycle.v
GrammarFlight.v
Lora.v
Metering.v
PyVal.v
ModelConfig.v
RuntimeOptions.v
Inputs.v
TextPrep.v
EncodePipeline.v
Framing.v
QueueExec.v
QueueReady.v
QueueScore.v
SdkRetry.v
SdkGenerate.v
ConfigProfiles.v
ConfigRegistry.v
ConfigTables.v
ConfigRouting.v
BundleHash.v
BundleParity.v
ConfigStore.v
ConfigService.v
ConfigSync.v
ConfigFaults.v
Idempotency.v
ConfigEpochs.v
DiskCache.v
ToolChoice.v
RunBatch.v
