(* ===== verification/Prelude.v ===== *)
(** * A verification development for the serving core and the configuration service of SIE

    SIE (the Superlinked Inference Engine) serves embedding, reranking, extraction and
    generation models.  Its Python server, [src/packages/sie_server], accepts requests,
    forms batches, runs them on a device through model adapters and returns the results.
    This development models the code between an accepted request and its answer: the
    batching path of the embedding operations, the streaming path of generation, the
    registry that decides which models are resident, the executor that serves queued
    batches, the model configuration both depend on, the retry loops of the Python client, and
    the service that distributes model configurations to gateways and workers.  Paths below
    are relative to [src/packages/sie_server/src/sie_server], those that begin with [sie_sdk]
    or [sie_config] to [src/packages/sie_sdk/src] and [src/packages/sie_config/src].

    ** How the program works

    A [ModelWorker] ([core/worker/model_worker.py]) serves one model.  [submit] puts the
    prepared items of a request in the [BatchFormer] ([core/batcher.py]) of its LoRA and
    returns a future.  The worker's loop selects the batcher whose first request is oldest,
    waits until that batcher yields a batch, takes the dispatch lock, runs the batch, and
    drains what arrived in the meantime.  A batch is grouped by inference configuration;
    every group is run by the [BatchExecutor] ([core/worker/oom_recovery.py]), which
    recovers from out-of-memory errors (clear the cache, evict another model, split the
    batch) and isolates requests with invalid input.  Slices of the outputs are stored per
    request and item, and a request whose items all have a result is completed by its
    operation handler ([core/worker/handlers]).  [stop] cancels the loop and fails what is
    left.  The worker-sidecar path ([submit_preformed*]) brings its own batches and shares
    the dispatch lock.  Around it, the adaptive controller ([core/adaptive_batching.py])
    tunes the batch limits from observed latencies, the memory manager ([core/memory.py])
    and [core/residency.py] choose which model to evict, the work-class scheduler
    ([processors/work_class_scheduler.py]) shares slots between generation and embedding
    work, and the grammar cache ([processors/grammar_cache.py]) keeps compiled grammars.

    The [ModelRegistry] ([core/registry.py]) loads models on devices, unloads them, evicts
    the least recently used ones under memory pressure, on idleness or when a worker runs
    out of memory, protects pinned models, remembers failed loads
    ([core/load_errors.py]) and follows configuration changes.  One lock serialises loads
    and unloads; background loads, touches, pins and configuration reads run between its
    awaits.

    A generate work item is handled by the [StreamingProcessor]
    ([processors/streaming.py]): it registers a cancel handle, loads the model, validates
    and renders the request, reserves KV budget, drives the adapter's iterator, coalesces
    its text and publishes numbered envelopes through a bounded queue, then acknowledges
    the queue message or leaves it to be redelivered.  When tools are in play the iterator
    is wrapped in the tool-call parser ([processors/tool_call_parser.py]), which turns
    tagged regions of the text into tool-call deltas.

    Queued batches come from the worker sidecar to the [QueueExecutor]
    ([queue_executor.py]).  It answers whether a model is ready, groups the items of an
    encode batch by what one pipeline call can share, runs each group through the
    [EncodePipeline] ([core/encode_pipeline.py]), isolates the request whose input the
    pipeline rejects within a budget of passes, and returns one outcome per item: publish,
    publish an error, or redeliver.  Score and extract batches go to the worker in one call,
    or one per LoRA.  Every outcome carries the metered units.  What a request may ask for
    is decided by its model's configuration ([config/model.py]) and the merging of its
    options ([core/runtime_options.py]).

    The configuration service ([sie_config]) holds the catalog: which models exist, with
    which profiles, and which bundle of workers serves them.  Its [ModelRegistry]
    ([sie_config/model_registry.py]) starts from the files of the image and keeps tables from
    names to bundles; [config_api.py] appends, replaces and deletes models under a lock: the
    document goes to the store ([config_store.py]) first, then into the registry, then the
    epoch is bumped and the affected bundles are announced over NATS
    ([nats_publisher.py]) with a hash of their configuration.  A worker computes the same hash
    from its own copy ([api/ws.py], after [core/loader.py] has expanded profile variants); a
    worker whose hash differs is not given work.  A restart adds the stored documents to the
    image's ([app_factory.py]).

    The Python client ([sie_sdk/client/sync.py]) wraps each call in a loop that sends the
    request again after signals that are safe to retry, within a time budget.

    ** The files

    - [Prelude.v]: outcomes of fallible calls ([res]), sums over lists, Python's stable
      sort, and the lemmas and tactics all files share.
    - [PyFloat.v]: Python's [float] as IEEE-754 binary64 (the Standard Library's
      [SpecFloat]), comparison of floats and integers, [min], [max] and clamping.
    - [PyDict.v]: Python's insertion-ordered [dict] as an association list.
    - [Batcher.v], module [Batcher]: [core/batcher.py], all of [BatchFormer], and
      [collate_batch].
    - [GrammarCache.v], module [GrammarLRU]: [processors/grammar_cache.py], with an
      abstract timestamped map it refines.
    - [Memory.v], module [Memory]: [core/memory.py] without the parsing of budget strings
      and the choice of a tracker.
    - [WorkClassScheduler.v], module [Scheduler]: [processors/work_class_scheduler.py].
    - [AdaptiveBatching.v], module [Adaptive]: [core/adaptive_batching.py] and the
      controller that [ModelWorker.__init__] creates.
    - [Oom.v], module [Oom]: [core/oom.py] and [core/residency.py].
    - [OomRecovery.v], module [Executor]: the [BatchExecutor] of
      [core/worker/oom_recovery.py].
    - [Handlers.v], module [Handlers]: config keys, [slice_output] and [assemble_output] of
      the three operation handlers, and the output types of [core/inference_output.py].
      The class [OperationHandler] is the interface and [HandlerLaws] what the worker
      relies on; the three handlers are instances of both.
    - [WorkerDispatch.v], module [Dispatch]: [_group_by_inference_config],
      [_dispatch_batch] and [_complete_requests] of the worker, over any handlers that
      satisfy [HandlerLaws].
    - [ModelWorker.v], module [Worker]: the rest of the worker: admission, selection,
      drain, in-flight register, [stop], the sidecar path, and [worker_step], the step
      relation that interleaves them with client cancellations.
    - [PyStr.v]: [strip], [partition] and the order of strings; [PyText.v]: texts as lists of
      characters, [find] and slices, with the lemmas on first occurrences.
    - [LoadErrors.v], module [LoadErrors]: [core/load_errors.py].
    - [RegistryIds.v], module [RegistryIds]: model ids, pins and device names of
      [core/registry.py].
    - [Registry.v], module [Registry]: the state and the operations of [ModelRegistry], with
      what they use of [core/loader.py], [core/model_loader.py] and
      [core/pool_isolation.py].
    - [RegistrySystem.v], module [RegistrySystem]: the operations as steps of a system, the
      program logic (which steps keep, evict or add a model) and the accounting invariant.
    - [RegistryPolicy.v], module [RegistryPolicy]: pins, out-of-memory eviction, failure
      cooldown and configuration snapshots.
    - [ToolCallParser.v], module [ToolCalls]: [processors/tool_call_parser.py], and the
      reference scanner that sees the whole text.
    - [Streaming.v], module [Streaming]: [_stream_generate], [_publisher_loop] and
      [_encode_chunk] of [processors/streaming.py].
    - [Generation.v], module [Generation]: the rest of the life of a generate work item:
      admission ([processors/admission.py], [core/text_tokens.py]), reservations, cancel
      handles, tombstones, the pipeline of an attempt, and [sys_step], which interleaves
      attempts and cancels.
    - [Lifecycle.v], modules [Shutdown] and [Saturation]: [core/shutdown.py] and
      [health/saturation.py].
    - [GrammarFlight.v], module [GrammarFlight]: the grammar preflight of
      [processors/streaming.py] with [types/grammar.py] and
      [processors/grammar_compile.py], over the cache of [GrammarCache.v].
    - [Lora.v], module [Lora]: LoRA management of [core/registry.py] with the adapters'
      [load_lora] and [unload_lora].
    - [Metering.v], module [Metering]: the unit counts of [queue_executor.py] and its checks of
      prepared audio.
    - [PyVal.v]: Python values as JSON and msgpack have them, truthiness and equality;
      [dict_update] and the iterators over fallible functions.
    - [ModelConfig.v], module [ModelConfig]: [config/model.py] and
      [config/package_artifacts.py]: validators, profile resolution, revisions.
    - [RuntimeOptions.v], module [RuntimeOptions]: [core/runtime_options.py].
    - [Inputs.v], module [Inputs]: items and media of [types/inputs.py]; [TextPrep.v], module
      [TextPrep]: [core/preprocessor/text.py], with the sidecar's tokens of [ipc_types.py].
    - [EncodePipeline.v], module [EncodePipeline]: [core/encode_pipeline.py]; the class
      [EncodeServices] is what it asks of the registry, the preprocessors and the worker.
    - [Framing.v], module [Framing]: the raw outputs of [queue_executor.py] and
      [_wrap_encode_output].
    - [QueueExec.v], module [QueueExec]: [process_encode_batch] with its isolation;
      [QueueScore.v], module [QueueScore]: [process_score_batch] and
      [process_extract_batch], over the classes [ScoreServices] and [ExtractServices];
      [QueueReady.v], module [QueueReady]: readiness, model descriptors and configuration
      changes, over the registry of [Registry.v].
    - [SdkRetry.v], module [SdkRetry]: [sie_sdk/client/_shared.py] and the loops of [encode],
      [score] and [extract]; [SdkGenerate.v], module [SdkGenerate]: those of [generate], the
      chat and Responses calls and the streams, with [sie_sdk/client/_sse.py].
    - [ConfigProfiles.v], module [ConfigProfiles]: the functions of
      [sie_config/model_registry.py] on one model's profiles (adapter modules, inheritance,
      what is hashed, pools, LoRA pins); [ConfigRegistry.v], module [ConfigRegistry]: its
      [ModelRegistry]; [ConfigTables.v]: the tables a registry must have for its documents
      ([coherent]) and that every write keeps them; [ConfigRouting.v]: routing, appends and
      announcements.
    - [BundleHash.v], module [BundleHash]: what a worker hashes; [BundleParity.v]: both sides
      agree.
    - [ConfigStore.v], module [ConfigStore]: [sie_config/config_store.py];
      [ConfigService.v], module [ConfigService]: the handlers of [sie_config/config_api.py],
      the notification and the restore; [Idempotency.v], module [Idempotency]: idempotency
      keys and the interleaving of requests; [ConfigSync.v], [ConfigEpochs.v]: registry, store
      and wire along a run; [ConfigFaults.v]: runs that end badly.
    - [DiskCache.v], module [DiskCache]: [core/disk_cache.py], over the class [Disk] of the file
      system and huggingface_hub.
    - [ToolChoice.v], module [ToolChoice]: [processors/tool_call_grammar.py], with the language
      of the patterns it builds.
    - [RunBatch.v], module [RunBatch]: [adapter_call_loop.py], over the class
      [RunBatchExecutor]; the executors of [QueueExec.v] and [QueueScore.v] are an instance.

    ** How state and effects are modelled

    Every definition is executable except the step relations and the specifications.
    State is passed explicitly.  A future is [Pending], [Resolved], [Failed] or
    [Cancelled]; a request is named by a number that stands for the identity of its
    metadata object, and the heap [nat → Meta] holds its future and its partial results,
    so that a request with items in several batches is one shared object.  Exceptions
    are values of [res]; [asyncio.CancelledError], which is not an [Exception], is kept
    apart where the code depends on it.  The code runs on one event loop, so a section
    without an await is atomic: a function models such a section, and a relation
    interleaves them ([Batcher.wait_step], [Scheduler.sched_step], [Worker.worker_step],
    [Generation.sys_step], [GrammarFlight.flight_step], [Lora.step],
    [Shutdown.server_step]).  The registry is a state monad with
    exceptions: at each of its awaits it consults an environment ([Registry.Env]) for what
    the loader, the worker or the adapter answers and for the actions other coroutines take
    meanwhile ([aside]s: touches, pins, background loads, configuration reads).  In
    [Streaming] the publisher task takes items from the queue at the driver's awaits, as
    many as the environment says, each publish may fail, and the processing task may be
    cancelled at every await; [with _suppress()] swallows that.  A LoRA load stands before or
    inside its call of PEFT while the event loop evicts LoRAs.  The synchronous [load],
    [unload] and [unload_all] of the registry are operations of [RegistrySystem] too; what
    they do when an adapter raises breaks the accounting, so the invariant excludes it.
    Code outside the repository and the adapters are parameters: [Executor.environment]
    and [Dispatch.device] hold the forward pass, the registry, the garbage collector, the
    CUDA allocator and the event loop (which may cancel requests at every await);
    [fpow] is the power function of the adaptive controller; clock readings and memory
    readings are arguments; [json.loads], [json.dumps] and the random call ids are
    parameters of the tool-call parser, and the contents of profile variants
    ([VariantMaker]) of the registry.  What the generation pipeline awaits (validator, chat
    template, tokenizer, transport) is the argument of its steps; so are Outlines and PEFT for
    the grammar preflight and the LoRA loads, whose [json.dumps] and digest are parameters.
    Integers of Python are unbounded and are [Z]; floats are
    binary64 with their rounding, but for the durations of the client, which are exact
    rationals.  A client's call is a function of the list of its attempts (clock readings,
    jitter draws and what the transport did), so that a theorem about all lists covers all
    servers and networks.  A handler of the configuration service is a state and exception
    monad over registry, store and wire; a request says which storage operations fail, at
    which unshielded awaits it is cancelled and which publishes are lost, and the state
    survives an exception.  PyYAML is the class [Yaml] with [YamlLaws] (what is dumped loads
    as itself), the digest of a hash, the JSON texts and SHA-256 are parameters.  Idempotency
    markers are shared objects in a heap, and [Idempotency.step] interleaves the requests.
    Mappings that Python calls equal are related by [ConfigSync.alike], with [Proper]
    instances for what reads them.  Arrays are shape, dtype label and data, and the data is opaque.

    ** What the theorems show

    - No request is lost and no answer is mixed up: [no_request_lost] (an invariant of
      every reachable state), [stop_answers_everyone], [fail_queued_settles],
      [dispatch_batch_settles], [dispatch_batch_resolves], [group_partition],
      [group_fast_path_equiv], [run_settles], [run_routes_slices], and the round trips
      [encode_assemble_slices], [score_assemble_slices], [extract_assemble_slices].
    - Queued batches: [encode_batch_answers], [score_batch_exact] and [extract_batch_exact]
      (one outcome per item, its own), [isolation_saves_healthy] (one tenant's bad input
      fails nobody else), [readiness_exact], [raw_frames_agree] (the two framings agree),
      [run_batch_answers] (the same for the batches of the sidecar, through
      [queue_executor_laws]), [batch_lora_reaches_items], [extract_units_exact], [fast_path_equivalent] (tokens of the sidecar give the batch
      the tokenizer would), [output_types_resolved], [encode_counts_attributed].
    - Configuration: [validated_profiles_resolve] (the profiles of a configuration that loads resolve),
      [revisions_exact], [merge_runtime_options_spec], [generation_options_governed].
    - The configuration service, as long as the ids of models and profile variants stay apart:
      [registry_follows_documents] (after any writes the tables
      are those a reload of the documents would build, and cached hashes are current),
      [append_only], [unannounced_bundles_unchanged] (a bundle whose hash changes is
      announced), [hash_parity] (service and worker compute one hash),
      [restart_serves_alike] (a restart routes every name as before, on conditions the theorem
      lists), [epochs_order_writes] (epochs number the writes and order the wire, as long as
      the epoch can be read),
      [idempotent_writes] (a key runs once, and answers are those of the write that ran),
      [keyed_requests_finish], [load_all_models_total].
    - The client: [idempotent_ladder], [generation_sent_once] (one call never starts two
      generations), [stream_restarts_in_silence], [retry_loops_end],
      [missing_result_ids_spec].
    - Recovery: [run_settles] (the recursion of [run] terminates and settles every item),
      [run_split_recovers_all], [run_isolates_invalid_input],
      [run_reports_one_outcome_per_attempt].
    - Batching and fairness: [extract_batch_conserves], [extract_batch_limits],
      [extract_batch_maximal], [extract_batch_fifo], [get_batch_no_lost_wakeup],
      [submit_bounded], [select_fcfs_oldest], [drain_takes_backlog], [config_key_separates].
    - Scheduling: [scheduler_capacity], [scheduler_work_conserving],
      [scheduler_idle_exact], [pump_terminates].
    - Control and memory: [apply_step_in_range], [starvation_recovery_escapes],
      [percentile_exact], [get_lru_model_victim], [get_idle_models_lru_order],
      [select_eviction_candidate_spec], [grammar_lru_refines].
    - Grammars: [single_flight] (one compile per grammar, nobody waits in vain, whatever is
      cancelled), [ready_means_compiled], [calm_preflight_settles].
    - Disk: [scan_oldest_first], [ensure_space_evicts_oldest] (the shortest run of the oldest
      models that relieves the disk), [pinned_weights_stay].
    - LoRAs: [lora_tracking_exact] (what the registry reports is what the model holds, in
      runs in which loads and evictions keep out of each other's way), [lora_bounded].
    - The registry: [registry_accounting] (the memory managers track exactly the loaded
      models, no mark is left behind), [load_async_outcome], [pinned_never_evicted],
      [evict_lru_excluding_spec] (the contract OOM recovery relies on),
      [failed_load_cools_down], [replace_configs_unloads], [pinned_ids_canonical].
    - Generation: [tool_stream_end_to_end] composes the parser with the stream;
      [stream_is_scanner], [turn_roundtrip], [xml_roundtrip] and
      [candidate_agrees_with_stream] are about the parser; [wire_well_formed],
      [ack_means_delivered] and [healthy_stream_acked] about the stream; [forced_text_calls] shows that whatever a forced
      tool choice lets a model write begins with a call the request allows;
      [kv_reserved_exact], [kv_within_budget], [cancel_handles_exact], [cancel_never_lost]
      and [acked_means_answered] about every reachable state of a worker.
    - Shutdown and saturation: [drain_is_exact], [saturation_is_last_decisive].
    - Where the code does not do what it means to: [cancelled_request_loses_siblings],
      [stop_loses_waiting_batch], [refused_lora_loses_batch], [cancelled_waiter_leaks_slot],
      [swallowed_cancellation], [unwrap_loses_load], [first_loads_collide],
      [late_failure_leaks], [output_caps_unchecked], [clashing_append_unannounced],
      [clashing_ids_break_parity],
      [retry_invalid_input_unreported], [run_split_double_counts], [config_key_collision],
      [idle_evictor_ignores_new_pin], [direct_load_keeps_failure],
      [sync_unload_leaves_ghost], [short_first_delta_unmarked], [tool_call_logprobs_lost],
      [follower_timeout_poisons], [evicted_placeholder_leaks], [second_load_starts],
      [engine_lora_fails], [cancelled_load_sticks], [immutable_revision_newline],
      [profile_error_spends_budget], [oom_phrase_is_redelivered],
      [cached_descriptor_sticks], [safe_path_dotdot], [model_loading_masked],
      [lora_sleep_unbounded], [variant_id_overwrites], [case_variant_hijacks],
      [baked_pool_conflicts], [split_pins_accepted], [filename_collides],
      [replaced_baked_model_lost], [replay_of_baked_profile_refused],
      [unreadable_document_overwritten], [cancelled_deletion_sticks], [epoch_goes_back],
      [replay_changes_fields_silently], [retry_after_epoch_failure_is_silent],
      [newline_id_accepted], [empty_token_opens_writes], [later_call_not_pinned].

    ** Fuel

    [Executor.run] recurses through the isolation of invalid input; every recursive call
    has fewer distinct requests, so one more than the number of items is enough
    ([run_settles] proves it returns).  [run_split] needs one more than
    [max_split_depth].  [Scheduler.pump] resolves one waiter per iteration and gets one
    more than the number of waiters ([pump_terminates]).  [Worker.drain_active_batcher]
    gets one more than the backlog ([drain_takes_backlog]).  The eviction loops of the
    registry get one more than the models of the device, since every round removes one
    ([load_async_outcome] excludes the outcome [OutOfFuel]).  The loops of the tool-call
    parser and of the scanner consume a tag per round and get one more than the length of
    the text ([stream_is_scanner] proves they agree, [scan_fuel] that more changes nothing).
    The LoRA eviction loop removes an entry per round and gets as many rounds as there are
    entries ([evict_spec]); that of the disk cache passes a model per round and gets one more
    than there are models ([ensure_space_evicts_oldest]).  The bisection of [QueueExec] halves the distinct requests of a
    group; [run_encode_group] gets one more than the group's items
    ([encode_batch_answers] proves that it answers).  The walks along [extends] of
    [ConfigProfiles] and [BundleHash] meet a profile at most once and get one or two rounds
    more than there are profiles ([effective_adapter_path_declares] and
    [resolved_profile_resolves] prove that this finds whatever there is).

    ** What is not modelled

    Logging, telemetry and request timing; the executor join of [stop]; the postprocessors;
    adapters, tokenizers and image preprocessors; of the registry, hot reload and the
    internals of [ModelLoader]; of the generation path, the bodies of request validation,
    chat-template rendering, context check, and the redelivery heartbeat; the HTTP,
    WebSocket and IPC front ends; of the client, building requests, parsing results, pools,
    jobs and the asynchronous twin of its loops; the Rust gateway and sidecar; the
    TypeScript SDK, integrations and deployment files; of the
    configuration service, its command line, probes, metrics, audit log and the life cycle
    of the NATS connection.  Text is ASCII. *)

From Stdlib Require Export ZArith Lia ZifyBool.
From stdpp Require Export base gmap sorting strings numbers.
From stdpp Require Export list.

#[global] Set Default Goal Selector "!".

(** ** Results of fallible calls

    A Python call either returns a value or raises.  [res E A] is the type of
    such an outcome; the notation [x ← c ;; k] below sequences two calls the
    way an exception unwinds: the first [Raise] wins. *)
Inductive res (E A : Type) : Type :=
| Ret (a : A)
| Raise (e : E).
Arguments Ret {E A} a.
Arguments Raise {E A} e.

Definition res_bind {E A B} (c : res E A) (k : A → res E B) : res E B :=
  match c with
  | Ret a => k a
  | Raise e => Raise e
  end.

Definition res_ok {E A} (c : res E A) : bool :=
  match c with Ret _ => true | Raise _ => false end.

Declare Scope py_scope.
Delimit Scope py_scope with py.
Notation "'let*' x ':=' c 'in' k" := (res_bind c (λ x, k))
  (at level 10, x name, c at level 100, k at level 200) : py_scope.

Create HintDb sie.
Create Rewrite HintDb sie.

(** ** Tactics of the development *)

(** Split every [if]/[match] on a boolean or comparison in the goal, keep the
    equations, and try arithmetic. *)
Ltac split_ifs :=
  repeat match goal with
  | |- context [if ?b then _ else _] =>
      lazymatch b with
      | context [if _ then _ else _] => fail
      | _ => destruct b eqn:?
      end
  end.

Ltac split_ifs_in H :=
  repeat match type of H with
  | context [if ?b then _ else _] =>
      lazymatch b with
      | context [if _ then _ else _] => fail
      | _ => destruct b eqn:?
      end
  end.

(** Close a goal with the hint database of the development. *)
Ltac sie := eauto with sie.

(** ** Sums *)

Definition sumZ {A} (f : A → Z) (l : list A) : Z := foldr (λ x acc, (f x + acc)%Z) 0%Z l.

Section sumZ.
Context {A : Type}.
Implicit Types (f g : A → Z) (l : list A).
Local Open Scope Z_scope.

Lemma sumZ_nil f : sumZ f [] = 0.
Proof. done. Qed.
Lemma sumZ_cons f x l : sumZ f (x :: l) = f x + sumZ f l.
Proof. done. Qed.

Lemma sumZ_app f l1 l2 : sumZ f (l1 ++ l2) = sumZ f l1 + sumZ f l2.
Proof. induction l1 as [|x l1 IH]; simpl; [done|]. rewrite IH. lia. Qed.

Lemma sumZ_perm f l1 l2 : l1 ≡ₚ l2 → sumZ f l1 = sumZ f l2.
Proof. induction 1; simpl; lia. Qed.

Lemma sumZ_nonneg f l : (∀ x, x ∈ l → 0 <= f x) → 0 <= sumZ f l.
Proof.
  induction l as [|x l IH]; simpl; intros H; [lia|].
  pose proof (H x (list_elem_of_here _ _)).
  assert (0 <= sumZ f l) by (apply IH; intros; apply H; by right). lia.
Qed.

Lemma sumZ_ext f g l : (∀ x, x ∈ l → f x = g x) → sumZ f l = sumZ g l.
Proof.
  induction l as [|x l IH]; simpl; intros H; [done|].
  rewrite (H x) by by left. rewrite IH; [done|]. intros; apply H; by right.
Qed.

Lemma sumZ_le f g l : (∀ x, x ∈ l → f x <= g x) → sumZ f l <= sumZ g l.
Proof.
  induction l as [|x l IH]; simpl; intros H; [lia|].
  pose proof (H x (list_elem_of_here _ _)).
  assert (sumZ f l <= sumZ g l) by (apply IH; intros; apply H; by right). lia.
Qed.

Lemma sumZ_add f g l : sumZ (λ x, f x + g x) l = sumZ f l + sumZ g l.
Proof. induction l as [|x l IH]; simpl; lia. Qed.

Lemma sumZ_fmap {B} (h : B → A) f (l : list B) : sumZ f (h <$> l) = sumZ (f ∘ h) l.
Proof. induction l as [|x l IH]; [done|]. by rewrite fmap_cons, !sumZ_cons, IH. Qed.
End sumZ.

#[global] Arguments sumZ : simpl never.

#[export] Instance sumZ_Permutation_proper {A} (f : A → Z) :
  Proper ((≡ₚ) ==> (=)) (sumZ f).
Proof. intros l1 l2. apply sumZ_perm. Qed.

Lemma StronglySorted_weaken {A} (R R' : A → A → Prop) l :
  (∀ x y, R x y → R' x y) → StronglySorted R l → StronglySorted R' l.
Proof.
  intros HR. induction 1 as [|x l Hs IH Hx]; constructor; [done|].
  eapply Forall_impl; [exact Hx|]. auto.
Qed.

Lemma filter_ext_elem {A} (P Q : A → Prop) `{!∀ x, Decision (P x), !∀ x, Decision (Q x)} (l : list A) :
  (∀ x, x ∈ l → (P x ↔ Q x)) → filter P l = filter Q l.
Proof.
  induction l as [|x l IH]; intros Hiff; [done|].
  rewrite !filter_cons, IH by (intros; apply Hiff; by right).
  assert (P x ↔ Q x) as Hx by (apply Hiff; by left).
  destruct (decide (P x)), (decide (Q x)); naive_solver.
Qed.

(** The same, when only the elements of the list are comparable. *)
Lemma StronglySorted_weaken_in {A} (R R' : A → A → Prop) l :
  (∀ x y, x ∈ l → y ∈ l → R x y → R' x y) → StronglySorted R l → StronglySorted R' l.
Proof.
  intros HR. induction 1 as [|x l Hs IH Hx]; constructor.
  - apply IH. intros; apply HR; [by right..|done].
  - rewrite Forall_forall in *. intros y Hy. apply HR; [by left|by right|auto].
Qed.

(** ** Python's [list.sort]

    [list.sort(key=...)] is stable: equal keys keep their relative order.  The
    reference definition is insertion sort, parameterised by the comparison
    of the keys. *)
Section stable_sort.
Context {A : Type} (leb : A → A → bool).

Fixpoint sort_insert (x : A) (l : list A) : list A :=
  match l with
  | [] => [x]
  | y :: l' => if leb x y then x :: y :: l' else y :: sort_insert x l'
  end.

Definition stable_sort (l : list A) : list A := foldr sort_insert [] l.

Lemma sort_insert_perm x l : sort_insert x l ≡ₚ x :: l.
Proof.
  induction l as [|y l IH]; simpl; [done|].
  destruct (leb x y); [done|]. rewrite IH. apply Permutation_swap.
Qed.

Lemma stable_sort_perm l : stable_sort l ≡ₚ l.
Proof.
  induction l as [|x l IH]; simpl; [done|]. by rewrite sort_insert_perm, IH.
Qed.

Lemma length_stable_sort l : length (stable_sort l) = length l.
Proof. apply Permutation_length, stable_sort_perm. Qed.

Lemma elem_of_stable_sort x l : x ∈ stable_sort l ↔ x ∈ l.
Proof. by rewrite stable_sort_perm. Qed.

(** A list that is already in order is left as it is; no law needed. *)
Lemma stable_sort_sorted_id l :
  StronglySorted (λ x y, leb x y = true) l → stable_sort l = l.
Proof.
  induction 1 as [|x l Hs IH Hx]; simpl; [done|]. rewrite IH.
  destruct l as [|y l]; simpl; [done|]. inversion Hx as [|?? Hxy]; subst. by rewrite Hxy.
Qed.

(** The head is a least element for any preorder the comparison refines; no
    transitivity of the comparison itself is needed. *)
Lemma stable_sort_head (R : A → A → Prop) l : ∀ h t,
  (∀ x y z, R x y → R y z → R x z) →
  (∀ x, x ∈ l → R x x) →
  (∀ x y, x ∈ l → y ∈ l → leb x y = true → R x y) →
  (∀ x y, x ∈ l → y ∈ l → leb x y = false → R y x) →
  stable_sort l = h :: t → ∀ q, q ∈ l → R h q.
Proof.
  induction l as [|x l IH]; [done|]. intros h t Htr Hrf Ht Hf. simpl.
  destruct (stable_sort l) as [|h' t'] eqn:E.
  - assert (l = []) as -> by (apply (f_equal length) in E; rewrite length_stable_sort in E; by destruct l).
    simpl. intros [= -> _] q ->%list_elem_of_singleton. apply Hrf. by left.
  - assert (h' ∈ l) as Hh' by (apply elem_of_stable_sort; rewrite E; by left).
    assert (∀ q, q ∈ l → R h' q) as Hmin.
    { apply (IH h' t'); auto; intros; [apply Hrf|apply Ht|apply Hf]; auto; by right. }
    simpl. destruct (leb x h') eqn:El; intros [= <- _] q [->|Hq]%elem_of_cons.
    + apply Hrf. by left.
    + apply (Htr _ h'); [apply Ht; [by left|by right|done]|auto].
    + apply Hf; [by left|by right|done].
    + auto.
Qed.

(** The laws are needed only on the elements that are sorted: [P] is the
    set of comparable elements (for floats: not NaN). *)
Context (P : A → Prop).
Hypothesis leb_total : ∀ x y, P x → P y → leb x y = true ∨ leb y x = true.
Hypothesis leb_trans : ∀ x y z, P x → P y → P z →
  leb x y = true → leb y z = true → leb x z = true.

Lemma sort_insert_sorted x l :
  P x → Forall P l →
  StronglySorted (λ x y, leb x y = true) l →
  StronglySorted (λ x y, leb x y = true) (sort_insert x l).
Proof.
  intros Hx HP. induction 1 as [|y l Hs IH Hy]; simpl.
  - repeat constructor.
  - inversion HP as [|?? HPy HPl]; subst.
    destruct (leb x y) eqn:E.
    + constructor; [by constructor|]. constructor; [done|].
      rewrite Forall_forall in *. intros z Hz. eauto.
    + assert (leb y x = true) by (destruct (leb_total x y); auto; congruence).
      constructor; [by apply IH|].
      rewrite Forall_forall in *. intros z Hz.
      rewrite sort_insert_perm in Hz. apply elem_of_cons in Hz as [->|Hz]; auto.
Qed.

Lemma stable_sort_sorted l :
  Forall P l → StronglySorted (λ x y, leb x y = true) (stable_sort l).
Proof.
  induction 1 as [|x l Hx Hl IH]; simpl; [constructor|].
  apply sort_insert_sorted; [done| |done]. by rewrite stable_sort_perm.
Qed.

(** Stability: restricted to one class of a predicate that does not separate
    tied elements, sorting changes nothing. *)
Lemma sort_insert_filter (Q : A → bool) x l :
  (∀ y, y ∈ l → Q x = true → Q y = true → leb x y = true) →
  List.filter Q (sort_insert x l) = List.filter Q (x :: l).
Proof.
  induction l as [|y l IH]; intros HQ; simpl; [done|].
  destruct (leb x y) eqn:E; [done|]. simpl.
  rewrite IH by (intros; apply HQ; [by right|done..]). simpl.
  destruct (Q x) eqn:Qx, (Q y) eqn:Qy; try done.
  rewrite (HQ y) in E by (done || by left). done.
Qed.

Lemma stable_sort_stable (Q : A → bool) l :
  (∀ x y, x ∈ l → y ∈ l → Q x = true → Q y = true → leb x y = true) →
  List.filter Q (stable_sort l) = List.filter Q l.
Proof.
  induction l as [|x l IH]; intros HQ; simpl; [done|].
  rewrite sort_insert_filter.
  - simpl. rewrite IH; [done|]. intros; apply HQ; by (done || by right).
  - intros y Hy. rewrite elem_of_stable_sort in Hy. apply HQ; [by left|by right].
Qed.
End stable_sort.

#[export] Hint Resolve stable_sort_perm : sie.

(** ** Strings: [str.lower], [sub in s], [str.startswith] on ASCII text *)

Definition lower_ascii (a : Ascii.ascii) : Ascii.ascii :=
  let n := Ascii.nat_of_ascii a in
  if (65 <=? n)%nat && (n <=? 90)%nat then Ascii.ascii_of_nat (n + 32) else a.

Fixpoint lower (s : string) : string :=
  match s with
  | EmptyString => EmptyString
  | String a s' => String (lower_ascii a) (lower s')
  end.

(** [sub in s] *)
Fixpoint str_in (sub s : string) : bool :=
  String.prefix sub s ||
  match s with
  | EmptyString => false
  | String _ s' => str_in sub s'
  end.

Lemma lower_ascii_idem a : lower_ascii (lower_ascii a) = lower_ascii a.
Proof.
  destruct a as [b0 b1 b2 b3 b4 b5 b6 b7].
  destruct b0, b1, b2, b3, b4, b5, b6, b7; reflexivity.
Qed.

Lemma lower_idem s : lower (lower s) = lower s.
Proof. induction s as [|a s IH]; simpl; [done|]. by rewrite lower_ascii_idem, IH. Qed.
