(* ===== verification/PyFloat.v ===== *)
(** Python's [float] and its mixed comparisons with [int].

    CPython floats are IEEE-754 binary64 numbers.  They are modelled by the
    [spec_float] type of the Standard Library at precision 53 and maximal
    exponent 1024: rounding, infinities and NaN are those of the hardware, and
    every operation computes.  The file proves the order laws the components
    rely on (on numbers that are not NaN), the behaviour of Python's two-argument
    [min] and [max], of the clamping idiom [max(lo, min(hi, v))], and of [int()]
    on a float that lies between two integers. *)

From S2P Require Import Prelude.
From Stdlib Require Import SpecFloat.

Local Open Scope Z_scope.

Abbreviation float := spec_float.
Definition prec := 53.
Definition emax := 1024.

Definition fadd : float → float → float := SFadd prec emax.
Definition fsub : float → float → float := SFsub prec emax.
Definition fmul : float → float → float := SFmul prec emax.
Definition fdiv : float → float → float := SFdiv prec emax.
Definition fopp : float → float := SFopp.
Definition flt (x y : float) : bool := SFltb x y.
Definition fle (x y : float) : bool := SFleb x y.
Definition feq (x y : float) : bool := SFeqb x y.

(** [float(z)], round to nearest even. *)
Definition f_of_Z (z : Z) : float := binary_normalize prec emax z 0 false.

(** The float nearest to the decimal literal [n / d]. *)
Definition flit (n d : Z) : float := fdiv (f_of_Z n) (f_of_Z d).

Definition f0 : float := S754_zero false.
Definition f1 : float := f_of_Z 1.
Definition f2 : float := f_of_Z 2.

(** [float("inf")] *)
Definition finf : float := S754_infinity false.

Definition is_nan (x : float) : bool :=
  match x with S754_nan => true | _ => false end.

(** ** The order of floats, as a lexicographic order on triples of integers *)

Definition fkey (x : float) : Z * Z * Z :=
  match x with
  | S754_infinity true => (-2, 0, 0)
  | S754_finite true m e => (-1, - e, - Zpos m)
  | S754_zero _ => (0, 0, 0)
  | S754_finite false m e => (1, e, Zpos m)
  | S754_infinity false => (2, 0, 0)
  | S754_nan => (3, 0, 0)
  end.

Definition key_lt (a b : Z * Z * Z) : Prop :=
  let '(a1, a2, a3) := a in let '(b1, b2, b3) := b in
  a1 < b1 ∨ (a1 = b1 ∧ (a2 < b2 ∨ (a2 = b2 ∧ a3 < b3))).

Lemma flt_key x y :
  is_nan x = false → is_nan y = false → flt x y = true ↔ key_lt (fkey x) (fkey y).
Proof.
  unfold flt, SFltb.
  destruct x as [|[]| |[] m e], y as [|[]| |[] m' e']; simpl; intros Hx Hy; try done;
    try (split; [discriminate || lia| lia || discriminate]); try (split; [lia|done]).
  all: change (Pos.compare_cont Eq m m') with (Pos.compare m m').
  all: destruct (Z.compare_spec e e'); subst; simpl;
    try (destruct (Pos.compare_spec m m'); subst; simpl); split; intros; try done; lia.
Qed.

Lemma fle_key x y :
  is_nan x = false → is_nan y = false → fle x y = true ↔ ¬ key_lt (fkey y) (fkey x).
Proof.
  unfold fle, SFleb.
  destruct x as [|[]| |[] m e], y as [|[]| |[] m' e']; simpl; intros Hx Hy; try done;
    try (split; [discriminate || lia| lia || discriminate]); try (split; [lia|done]).
  all: change (Pos.compare_cont Eq m m') with (Pos.compare m m').
  all: destruct (Z.compare_spec e e'); subst; simpl;
    try (destruct (Pos.compare_spec m m'); subst; simpl); split; intros; try done; lia.
Qed.

Lemma flt_not_nan x y : flt x y = true → is_nan x = false ∧ is_nan y = false.
Proof. by destruct x, y. Qed.
Lemma fle_not_nan x y : fle x y = true → is_nan x = false ∧ is_nan y = false.
Proof. by destruct x, y. Qed.

Ltac fkeys :=
  repeat match goal with
  | H : flt ?x ?y = true |- _ =>
      let H1 := fresh in let H2 := fresh in
      destruct (flt_not_nan _ _ H) as [H1 H2]; apply flt_key in H; [|done|done]
  | H : fle ?x ?y = true |- _ =>
      let H1 := fresh in let H2 := fresh in
      destruct (fle_not_nan _ _ H) as [H1 H2]; apply fle_key in H; [|done|done]
  end;
  repeat match goal with
  | x : float |- _ =>
      lazymatch goal with
      | |- context [fkey x] => destruct (fkey x) as [[? ?] ?]
      | H : context [fkey x] |- _ => destruct (fkey x) as [[? ?] ?]
      end
  end; unfold key_lt in *.

Lemma fle_refl x : is_nan x = false → fle x x = true.
Proof. intros. apply fle_key; [done..|]. fkeys. lia. Qed.

Lemma fle_trans x y z : fle x y = true → fle y z = true → fle x z = true.
Proof.
  intros H1 H2. destruct (fle_not_nan _ _ H1), (fle_not_nan _ _ H2).
  apply fle_key; [done..|]. fkeys. lia.
Qed.

Lemma fle_total x y : is_nan x = false → is_nan y = false → fle x y = true ∨ fle y x = true.
Proof.
  intros Hx Hy. rewrite !fle_key by done. fkeys. lia.
Qed.

Lemma flt_fle x y : flt x y = true → fle x y = true.
Proof.
  intros H. destruct (flt_not_nan _ _ H). apply fle_key; [done..|]. fkeys. lia.
Qed.

(** For comparable numbers [<] is the negation of [>=]. *)
Lemma flt_false_fle x y :
  is_nan x = false → is_nan y = false → flt x y = false ↔ fle y x = true.
Proof.
  intros Hx Hy. rewrite fle_key by done. rewrite <- flt_key by done.
  destruct (flt x y); split; done.
Qed.

Lemma feq_fle x y : feq x y = true → fle x y = true ∧ fle y x = true.
Proof.
  intros H. assert (fle x y = true) as Hle.
  { revert H. unfold feq, SFeqb, fle, SFleb. destruct (SFcompare x y) as [[]|]; done. }
  split; [done|]. destruct (fle_not_nan _ _ Hle). apply flt_false_fle; [done..|].
  revert H. unfold feq, SFeqb, flt, SFltb. destruct (SFcompare x y) as [[]|]; done.
Qed.

Lemma flt_fle_trans x y z : flt x y = true → fle y z = true → flt x z = true.
Proof.
  intros H1 H2. destruct (flt_not_nan _ _ H1), (fle_not_nan _ _ H2).
  apply flt_key; [done..|]. fkeys. lia.
Qed.

Lemma fle_flt_trans x y z : fle x y = true → flt y z = true → flt x z = true.
Proof.
  intros H1 H2. destruct (fle_not_nan _ _ H1), (flt_not_nan _ _ H2).
  apply flt_key; [done..|]. fkeys. lia.
Qed.

#[export] Hint Resolve fle_refl fle_trans flt_fle : sie.

(** ** Python numbers: an [int] or a [float] *)

Inductive num := NInt (z : Z) | NFlt (x : float).

(** CPython compares an [int] with a [float] exactly, without converting. *)
Definition signed (s : bool) (m : positive) : Z := if s then Zneg m else Zpos m.

Definition fcmpZ (x : float) (z : Z) : option comparison :=
  match x with
  | S754_nan => None
  | S754_infinity s => Some (if s then Lt else Gt)
  | S754_zero _ => Some (0 ?= z)
  | S754_finite s m e =>
      Some (if 0 <=? e then signed s m * 2 ^ e ?= z else signed s m ?= z * 2 ^ (- e))
  end.

Definition num_cmp (a b : num) : option comparison :=
  match a, b with
  | NInt x, NInt y => Some (x ?= y)
  | NFlt x, NFlt y => SFcompare x y
  | NFlt x, NInt y => fcmpZ x y
  | NInt x, NFlt y => option_map CompOpp (fcmpZ y x)
  end.

Definition num_lt (a b : num) : bool :=
  match num_cmp a b with Some Lt => true | _ => false end.
Definition num_le (a b : num) : bool :=
  match num_cmp a b with Some Lt | Some Eq => true | _ => false end.

(** [int(x)]: truncation toward zero; infinities and NaN raise. *)
Definition ftrunc (x : float) : option Z :=
  match x with
  | S754_zero _ => Some 0
  | S754_finite s m e =>
      Some (if 0 <=? e then signed s m * 2 ^ e else Z.quot (signed s m) (2 ^ (- e)))
  | _ => None
  end.

Definition num_int (a : num) : option Z :=
  match a with NInt z => Some z | NFlt x => ftrunc x end.

Lemma quot_lower a p z : 0 < p → z * p <= a → z <= Z.quot a p.
Proof.
  intros Hp H. pose proof (Z.quot_rem a p ltac:(lia)) as E.
  destruct (Z.le_gt_cases 0 a).
  - pose proof (Z.rem_bound_pos a p ltac:(lia) Hp). nia.
  - pose proof (Z.rem_bound_pos (- a) p ltac:(lia) Hp) as B.
    rewrite Z.rem_opp_l in B by lia. nia.
Qed.

Lemma quot_upper a p z : 0 < p → a <= z * p → Z.quot a p <= z.
Proof.
  intros Hp H. pose proof (quot_lower (- a) p (- z) Hp ltac:(lia)) as B.
  rewrite Z.quot_opp_l in B by lia. lia.
Qed.

Ltac zcmp :=
  repeat match goal with
  | H : (_ ?= _) = Gt |- _ => rewrite Z.compare_gt_iff in H
  | H : (_ ?= _) = Lt |- _ => rewrite Z.compare_lt_iff in H
  | H : (_ ?= _) = Eq |- _ => rewrite Z.compare_eq_iff in H
  end.

(** [int()] keeps a float between the integers it lies between. *)
Lemma ftrunc_lower x z t :
  ftrunc x = Some t → (fcmpZ x z = Some Gt ∨ fcmpZ x z = Some Eq) → z <= t.
Proof.
  destruct x as [s|s| |s m e]; cbn [ftrunc fcmpZ]; intros Ht Hc; try discriminate.
  - injection Ht as <-. destruct z, Hc; simpl in *; (discriminate || lia).
  - destruct (0 <=? e) eqn:E; injection Ht as <-; destruct Hc as [[=Hc]|[=Hc]];
      zcmp; try lia; apply quot_lower; lia.
Qed.

Lemma ftrunc_upper x z t :
  ftrunc x = Some t → (fcmpZ x z = Some Lt ∨ fcmpZ x z = Some Eq) → t <= z.
Proof.
  destruct x as [s|s| |s m e]; cbn [ftrunc fcmpZ]; intros Ht Hc; try discriminate.
  - injection Ht as <-. destruct z, Hc; simpl in *; (discriminate || lia).
  - destruct (0 <=? e) eqn:E; injection Ht as <-; destruct Hc as [[=Hc]|[=Hc]];
      zcmp; try lia; apply quot_upper; lia.
Qed.

(** ** Two-argument [min] and [max], and the clamp

    Python's [min(a, b)] returns [b] only when [b < a]; [max(a, b)] returns [b]
    only when [b > a].  The order of the arguments matters for NaN. *)
Section clamp.
Context {A : Type} (lt : A → A → bool).
Definition py_min (a b : A) : A := if lt b a then b else a.
Definition py_max (a b : A) : A := if lt a b then b else a.
(** [_clamp(value, lo, hi) = max(lo, min(hi, value))] *)
Definition py_clamp (v lo hi : A) : A := py_max lo (py_min hi v).
End clamp.

Abbreviation fmin := (py_min flt).
Abbreviation fmax := (py_max flt).
Abbreviation fclamp := (py_clamp flt).
Abbreviation nclamp := (py_clamp num_lt).

(** Whatever the value is, NaN included, the clamp lies in the interval. *)
Lemma fclamp_bounds v lo hi :
  fle lo hi = true → fle lo (fclamp v lo hi) = true ∧ fle (fclamp v lo hi) hi = true.
Proof.
  intros H. destruct (fle_not_nan _ _ H). unfold py_clamp, py_max, py_min.
  destruct (flt v hi) eqn:E1.
  - destruct (flt lo v) eqn:E2; split; auto with sie.
  - destruct (flt lo hi) eqn:E2; split; auto with sie.
Qed.

(** Inside the interval the clamp is the identity on the value. *)
Lemma fclamp_id v lo hi : flt lo v = true → flt v hi = true → fclamp v lo hi = v.
Proof. unfold py_clamp, py_max, py_min. intros H1 H2. by rewrite H2, H1. Qed.

(** [int(_clamp(v, lo, hi))] with integer bounds is an integer between them,
    whatever [v] is: the clamp never produces an infinity or a NaN. *)
Lemma nclamp_int_bounds v lo hi :
  lo <= hi → ∃ c, num_int (nclamp v (NInt lo) (NInt hi)) = Some c ∧ lo <= c <= hi.
Proof.
  intros H. unfold py_clamp, py_max, py_min, num_lt.
  destruct v as [z|x]; simpl.
  - destruct (Z.compare_spec z hi); simpl.
    2: destruct (Z.compare_spec lo z); simpl.
    all: try (destruct (Z.compare_spec lo hi); simpl); eexists; (split; [done|lia]).
  - assert ((lo ?= hi) = Lt ∨ lo = hi) as Hlh
      by (destruct (Z.compare_spec lo hi); auto; lia).
    destruct (fcmpZ x hi) as [[]|] eqn:E1; simpl.
    2: destruct (fcmpZ x lo) as [[]|] eqn:E2; simpl.
    all: try (destruct Hlh as [->| ->]; simpl; rewrite ?Z.compare_refl; eexists;
              (split; [done|lia])).
    all: try (eexists; (split; [done|lia])).
    destruct (ftrunc x) as [t|] eqn:E3.
    + exists t. split; [done|].
      split; [eapply ftrunc_lower|eapply ftrunc_upper]; eauto.
    + destruct x as [|[]| |]; simpl in *; discriminate.
Qed.

(** ** [int / int]

    CPython's true division of two integers is correctly rounded even when they
    do not fit a float; the divisor is not zero. *)
Definition f_raw (z : Z) : float :=
  match z with
  | Z0 => S754_zero false
  | Zpos m => S754_finite false m 0
  | Zneg m => S754_finite true m 0
  end.

Definition int_truediv (a b : Z) : float := fdiv (f_raw a) (f_raw b).
