(* ===== verification/PyDict.v ===== *)
(** Python's insertion-ordered [dict] and [collections.OrderedDict].

    The order of the entries is observable in this program (LRU eviction walks
    it, the fair scheduler breaks ties by it), so a dictionary is an association
    list in iteration order with distinct keys ([dict_wf]).  Assignment to a
    present key keeps its position, assignment to an absent key appends, as
    CPython does.  [dict_map] forgets the order; the lemmas relate each
    operation to the operation of [gmap] it implements. *)

From S2P Require Import Prelude.

Section dict.
Context {K V : Type} `{EqDecision K}.
Implicit Types (d : list (K * V)) (k : K) (v : V).

Definition dict_keys d : list K := fst <$> d.
Definition dict_values d : list V := snd <$> d.
Definition dict_wf d : Prop := NoDup (dict_keys d).

(** [d.get(k)] *)
Fixpoint dict_get k d : option V :=
  match d with
  | [] => None
  | (k', v) :: d' => if decide (k = k') then Some v else dict_get k d'
  end.

(** [k in d] *)
Definition dict_mem k d : bool :=
  match dict_get k d with Some _ => true | None => false end.

(** [d[k] = v] *)
Fixpoint dict_set k v d : list (K * V) :=
  match d with
  | [] => [(k, v)]
  | (k', v') :: d' => if decide (k = k') then (k, v) :: d' else (k', v') :: dict_set k v d'
  end.

(** [del d[k]] (the caller has checked membership), [d.pop(k, None)] *)
Fixpoint dict_del k d : list (K * V) :=
  match d with
  | [] => []
  | (k', v') :: d' => if decide (k = k') then d' else (k', v') :: dict_del k d'
  end.

(** [d.move_to_end(k)]; raises [KeyError] on an absent key, which no caller
    reaches: the model leaves the dictionary as it is there. *)
Definition dict_move_to_end k d : list (K * V) :=
  match dict_get k d with
  | Some v => dict_del k d ++ [(k, v)]
  | None => d
  end.

(** [d.popitem(last=False)] *)
Definition dict_popitem_first d : list (K * V) := tail d.

Lemma dict_keys_cons k v d : dict_keys ((k, v) :: d) = k :: dict_keys d.
Proof. done. Qed.

Lemma dict_get_Some_elem k v d : dict_get k d = Some v → (k, v) ∈ d.
Proof.
  induction d as [|[k' v'] d IH]; simpl; [done|].
  case_decide; intros; simplify_eq; [by left|right; auto].
Qed.

Lemma dict_get_None k d : dict_get k d = None ↔ k ∉ dict_keys d.
Proof.
  induction d as [|[k' v'] d IH]; unfold dict_keys in *; simpl; [set_solver|].
  rewrite not_elem_of_cons. case_decide; naive_solver.
Qed.

Lemma dict_get_is_Some k d : is_Some (dict_get k d) ↔ k ∈ dict_keys d.
Proof.
  rewrite <- not_eq_None_Some, dict_get_None.
  destruct (decide (k ∈ dict_keys d)); naive_solver.
Qed.

Lemma dict_mem_true k d : dict_mem k d = true ↔ k ∈ dict_keys d.
Proof.
  rewrite <- dict_get_is_Some. unfold dict_mem.
  destruct (dict_get k d); split; [eauto|done|done|by intros [? ?]].
Qed.

Lemma dict_mem_false k d : dict_mem k d = false ↔ k ∉ dict_keys d.
Proof.
  rewrite <- dict_get_None. unfold dict_mem. by destruct (dict_get k d).
Qed.

Lemma dict_elem_get k v d : dict_wf d → (k, v) ∈ d → dict_get k d = Some v.
Proof.
  unfold dict_wf, dict_keys. induction d as [|[k' v'] d IH]; simpl; [set_solver|].
  rewrite NoDup_cons. intros [Hk Hd] [?|Hin]%elem_of_cons; simplify_eq/=.
  - by rewrite decide_True.
  - rewrite decide_False; [auto|]. intros ->. apply Hk.
    apply list_elem_of_fmap. by exists (k', v).
Qed.

Lemma dict_get_set k k' v d :
  dict_get k' (dict_set k v d) = if decide (k = k') then Some v else dict_get k' d.
Proof.
  induction d as [|[k2 v2] d IH]; simpl; [by repeat case_decide; simplify_eq|].
  by repeat (case_decide; simplify_eq/=).
Qed.

Lemma dict_keys_set k v d :
  dict_keys (dict_set k v d) = if decide (k ∈ dict_keys d) then dict_keys d else dict_keys d ++ [k].
Proof.
  induction d as [|[k2 v2] d IH]; [done|]. cbn [dict_set].
  destruct (decide (k = k2)) as [->|Hne]; rewrite !dict_keys_cons.
  - by rewrite decide_True by by left.
  - rewrite IH. destruct (decide (k ∈ dict_keys d)) as [Hk|Hk].
    + by rewrite decide_True by by right.
    + by rewrite decide_False by (rewrite not_elem_of_cons; done).
Qed.

Lemma dict_set_fresh k v d : k ∉ dict_keys d → dict_set k v d = d ++ [(k, v)].
Proof.
  unfold dict_keys. induction d as [|[k2 v2] d IH]; simpl; [done|].
  rewrite not_elem_of_cons. intros [? ?]. rewrite decide_False by done. by rewrite IH.
Qed.

Lemma dict_set_wf k v d : dict_wf d → dict_wf (dict_set k v d).
Proof.
  unfold dict_wf. rewrite dict_keys_set. case_decide as Hk; [done|]. intros Hd.
  apply NoDup_app. repeat split; [done| |apply NoDup_singleton]. set_solver.
Qed.

Lemma dict_del_absent k d : k ∉ dict_keys d → dict_del k d = d.
Proof.
  unfold dict_keys. induction d as [|[k2 v2] d IH]; simpl; [done|].
  rewrite not_elem_of_cons. intros [? ?]. rewrite decide_False by done. by rewrite IH.
Qed.

Lemma dict_del_filter k d :
  dict_wf d → dict_del k d = filter (λ kv, kv.1 ≠ k) d.
Proof.
  unfold dict_wf, dict_keys. induction d as [|[k2 v2] d IH]; simpl; [done|].
  rewrite NoDup_cons. intros [Hk Hd].
  destruct (decide (k = k2)) as [->|Hne].
  - rewrite filter_cons_False by (simpl; congruence).
    rewrite <- IH by done. symmetry. by apply dict_del_absent.
  - rewrite filter_cons_True by (simpl; congruence). by rewrite IH.
Qed.

Lemma dict_get_del k k' d :
  dict_wf d → dict_get k' (dict_del k d) = if decide (k = k') then None else dict_get k' d.
Proof.
  unfold dict_wf, dict_keys. induction d as [|[k2 v2] d IH]; simpl; [by case_decide|].
  rewrite NoDup_cons. intros [Hk Hd].
  destruct (decide (k = k2)) as [->|Hne]; simpl.
  - case_decide as E; [subst; by apply dict_get_None|]. by rewrite decide_False.
  - rewrite IH by done. repeat case_decide; congruence.
Qed.

Lemma dict_keys_del_sub k k' d : k' ∈ dict_keys (dict_del k d) → k' ∈ dict_keys d.
Proof.
  unfold dict_keys. induction d as [|[k2 v2] d IH]; simpl; [done|].
  case_decide; simpl; set_solver.
Qed.

Lemma dict_del_wf k d : dict_wf d → dict_wf (dict_del k d).
Proof.
  unfold dict_wf, dict_keys. induction d as [|[k2 v2] d IH]; simpl; [done|].
  rewrite NoDup_cons. intros [Hk Hd]. case_decide; simpl; [done|].
  apply NoDup_cons. split; [|auto]. intros Hin. apply Hk. eapply dict_keys_del_sub, Hin.
Qed.

Lemma dict_keys_del_self k d : dict_wf d → k ∉ dict_keys (dict_del k d).
Proof. intros Hd. rewrite <- dict_get_None, dict_get_del by done. by rewrite decide_True. Qed.

Lemma dict_move_to_end_wf k d : dict_wf d → dict_wf (dict_move_to_end k d).
Proof.
  intros Hd. unfold dict_move_to_end. destruct (dict_get k d) as [v|] eqn:E; [|done].
  rewrite <- dict_set_fresh by by apply dict_keys_del_self.
  by apply dict_set_wf, dict_del_wf.
Qed.

(** Moving an entry changes the order, not the mapping. *)
Lemma dict_get_move_to_end k k' d :
  dict_wf d → dict_get k' (dict_move_to_end k d) = dict_get k' d.
Proof.
  intros Hd. unfold dict_move_to_end. destruct (dict_get k d) as [v|] eqn:E; [|done].
  rewrite <- dict_set_fresh by by apply dict_keys_del_self.
  rewrite dict_get_set, dict_get_del by done. repeat case_decide; congruence.
Qed.

Lemma dict_del_perm k v d : dict_get k d = Some v → d ≡ₚ (k, v) :: dict_del k d.
Proof.
  induction d as [|[k2 v2] d IH]; simpl; [done|].
  destruct (decide (k = k2)) as [->|Hne]; [by intros [= ->]|].
  intros H. rewrite (IH H) at 1. apply Permutation_swap.
Qed.

Lemma dict_move_to_end_perm k d : dict_move_to_end k d ≡ₚ d.
Proof.
  unfold dict_move_to_end. destruct (dict_get k d) as [v|] eqn:E; [|done].
  rewrite (dict_del_perm k v d E) at 2. rewrite Permutation_app_comm. done.
Qed.

Lemma dict_keys_del k d :
  dict_wf d → dict_keys (dict_del k d) = filter (λ k', k' ≠ k) (dict_keys d).
Proof.
  intros Hd. rewrite dict_del_filter by done.
  clear Hd. unfold dict_keys. induction d as [|[k2 v2] d IH]; [done|].
  rewrite filter_cons, fmap_cons, filter_cons. cbn [fst].
  case_decide; rewrite ?fmap_cons; by rewrite IH.
Qed.

Lemma dict_keys_move_to_end k d :
  dict_wf d → k ∈ dict_keys d →
  dict_keys (dict_move_to_end k d) = filter (λ k', k' ≠ k) (dict_keys d) ++ [k].
Proof.
  intros Hd Hk. apply dict_get_is_Some in Hk as [v Hv]. unfold dict_move_to_end. rewrite Hv.
  rewrite <- dict_keys_del by done. unfold dict_keys. by rewrite fmap_app.
Qed.

Lemma filter_ne_id k (l : list K) : k ∉ l → filter (λ k', k' ≠ k) l = l.
Proof.
  induction l as [|x l IH]; [done|]. intros [? ?]%not_elem_of_cons.
  rewrite filter_cons_True by congruence. by rewrite IH.
Qed.

(** [d[k] = v; d.move_to_end(k)]: the key goes last, the others keep their order. *)
Lemma dict_keys_set_move k v d :
  dict_wf d →
  dict_keys (dict_move_to_end k (dict_set k v d)) = filter (λ k', k' ≠ k) (dict_keys d) ++ [k].
Proof.
  intros Hd. rewrite dict_keys_move_to_end; [|by apply dict_set_wf|].
  - f_equal. rewrite dict_keys_set. case_decide as Hk; [done|].
    rewrite filter_app, filter_cons_False by (intros ?; done). rewrite filter_nil.
    by rewrite app_nil_r.
  - rewrite dict_keys_set. case_decide; [done|]. set_solver.
Qed.

Lemma dict_get_set_move k v k' d :
  dict_wf d →
  dict_get k' (dict_move_to_end k (dict_set k v d)) = if decide (k = k') then Some v else dict_get k' d.
Proof. intros Hd. rewrite dict_get_move_to_end by by apply dict_set_wf. apply dict_get_set. Qed.

(** The entries themselves: the other entries in their order, then the new one. *)
Lemma dict_set_move_entries k v d :
  dict_wf d →
  dict_move_to_end k (dict_set k v d) = dict_del k d ++ [(k, v)].
Proof.
  intros Hd. unfold dict_move_to_end. rewrite dict_get_set, decide_True by done. f_equal.
  clear Hd. induction d as [|[k2 v2] d IH]; simpl; [by rewrite decide_True|].
  destruct (decide (k = k2)) as [->|Hne]; simpl; [by rewrite decide_True|].
  rewrite decide_False by done. by rewrite IH.
Qed.

Lemma length_dict_set k v d :
  length (dict_set k v d) = if decide (k ∈ dict_keys d) then length d else S (length d).
Proof.
  rewrite <- (length_fmap fst), <- (length_fmap fst d).
  change (fst <$> dict_set k v d) with (dict_keys (dict_set k v d)).
  rewrite dict_keys_set. case_decide; [done|].
  rewrite length_app. simpl. unfold dict_keys. lia.
Qed.

(** Replacing the value of a present key changes a sum over the entries by the
    difference of the two values. *)
Lemma sumZ_dict_set (f : K * V → Z) k v v' d :
  dict_get k d = Some v →
  sumZ f (dict_set k v' d) = (sumZ f d - f (k, v) + f (k, v'))%Z.
Proof.
  induction d as [|[k2 v2] d IH]; cbn [dict_get dict_set]; [done|].
  destruct (decide (k = k2)) as [->|Hne]; intros H; rewrite !sumZ_cons.
  - simplify_eq. lia.
  - rewrite IH by done. lia.
Qed.

Lemma sumZ_dict_values (f : V → Z) d : sumZ f (dict_values d) = sumZ (λ e, f e.2) d.
Proof. unfold dict_values. by rewrite sumZ_fmap. Qed.

Lemma length_dict_move_to_end k d : length (dict_move_to_end k d) = length d.
Proof. apply Permutation_length, dict_move_to_end_perm. Qed.

Lemma dict_set_set k v w d : dict_set k v (dict_set k w d) = dict_set k v d.
Proof.
  induction d as [|[k' x] d IH]; cbn; [by rewrite decide_True|]. case_decide; cbn; [by rewrite decide_True|].
  rewrite decide_False by done. by rewrite IH.
Qed.
End dict.

(** ** Comprehensions over dictionaries *)
Section comprehensions.
Context {K V : Type} `{EqDecision K}.
Implicit Types (d : list (K * V)) (k : K).

Lemma dict_keys_filter_sub (P : K * V → Prop) `{!∀ e, Decision (P e)} k d : k ∈ dict_keys (filter P d) → k ∈ dict_keys d.
Proof. intros ([] & -> & [_ He]%list_elem_of_filter)%list_elem_of_fmap. apply list_elem_of_fmap. eauto. Qed.

Lemma dict_filter_wf (P : K * V → Prop) `{!∀ e, Decision (P e)} d : dict_wf d → dict_wf (filter P d).
Proof.
  unfold dict_wf. induction d as [|[k v] d IH]; [done|]. rewrite dict_keys_cons, NoDup_cons. intros [Hk Hd].
  rewrite filter_cons. case_decide; [|auto]. rewrite dict_keys_cons. apply NoDup_cons. split; [|auto].
  intros Hin. by apply dict_keys_filter_sub in Hin.
Qed.

(** [{k: v for k, v in d.items() if ...}] *)
Lemma dict_get_filter (P : K * V → Prop) `{!∀ e, Decision (P e)} k d :
  dict_wf d →
  dict_get k (filter P d) = match dict_get k d with Some v => if decide (P (k, v)) then Some v else None | None => None end.
Proof.
  unfold dict_wf. induction d as [|[k' v] d IH]; [done|]. rewrite dict_keys_cons, NoDup_cons. intros [Hk Hd].
  rewrite filter_cons. cbn [dict_get]. destruct (decide (k = k')) as [->|Hne].
  - destruct (decide (P (k', v))); cbn [dict_get]; [by rewrite decide_True|].
    apply dict_get_None. intros Hin. by apply dict_keys_filter_sub in Hin.
  - destruct (decide (P (k', v))); cbn [dict_get]; [rewrite decide_False by done|]; auto.
Qed.

(** [{k: f(k, v) for k, v in d.items()}] *)
Lemma dict_keys_fmap {W} (f : K → V → W) d : dict_keys ((λ e, (e.1, f e.1 e.2)) <$> d) = dict_keys d.
Proof. unfold dict_keys. by rewrite <- list_fmap_compose. Qed.

Lemma dict_get_fmap {W} (f : K → V → W) k d : dict_get k ((λ e, (e.1, f e.1 e.2)) <$> d) = f k <$> dict_get k d.
Proof. induction d as [|[k' v] d IH]; [done|]. cbn. case_decide; [by subst|done]. Qed.

(** [{kf(x): vf(x) for x in l}], the keys being distinct *)
Lemma dict_get_index {A} (kf : A → K) (vf : A → V) k v (l : list A) :
  NoDup (kf <$> l) → dict_get k ((λ x, (kf x, vf x)) <$> l) = Some v ↔ ∃ x, x ∈ l ∧ k = kf x ∧ v = vf x.
Proof.
  induction l as [|x l IH]; cbn.
  - intros _. split; [done|]. intros (x & Hx & _). by apply elem_of_nil in Hx.
  - rewrite NoDup_cons. intros [Hx Hl]. case_decide as Hk.
    + split; [intros [= <-]; exists x; split; [by left|done]|].
      intros (y & Hy & Hky & ->). apply elem_of_cons in Hy as [->|Hy]; [done|].
      exfalso. apply Hx. apply list_elem_of_fmap. exists y. split; [congruence|done].
    + rewrite IH by done. split.
      * intros (y & Hy & ? & ?). exists y. split; [by right|done].
      * intros (y & [->|Hy]%elem_of_cons & ? & ?); [done|]. eauto.
Qed.

Lemma dict_wf_index {A} (kf : A → K) (vf : A → V) (l : list A) :
  NoDup (kf <$> l) → dict_wf ((λ x, (kf x, vf x)) <$> l).
Proof. unfold dict_wf, dict_keys. by rewrite <- list_fmap_compose. Qed.
End comprehensions.

(** ** The mapping a dictionary denotes *)
Section dict_map.
Context {K V : Type} `{Countable K}.
Implicit Types (d : list (K * V)).

Definition dict_map d : gmap K V := list_to_map d.

Lemma dict_map_lookup k d : dict_map d !! k = dict_get k d.
Proof.
  induction d as [|[k' v] d IH]; simpl; [done|].
  rewrite lookup_insert. repeat case_decide; congruence.
Qed.

Lemma dict_map_set k v d : dict_map (dict_set k v d) = <[k:=v]> (dict_map d).
Proof.
  apply map_eq. intros k'. rewrite lookup_insert, !dict_map_lookup, dict_get_set. done.
Qed.

Lemma dict_map_del k d : dict_wf d → dict_map (dict_del k d) = delete k (dict_map d).
Proof.
  intros Hd. apply map_eq. intros k'.
  rewrite lookup_delete, !dict_map_lookup, dict_get_del by done. done.
Qed.

Lemma dict_map_move_to_end k d :
  dict_wf d → dict_map (dict_move_to_end k d) = dict_map d.
Proof.
  intros Hd. apply map_eq. intros k'. by rewrite !dict_map_lookup, dict_get_move_to_end.
Qed.
End dict_map.

#[export] Hint Resolve dict_set_wf dict_del_wf dict_move_to_end_wf : sie.
#[export] Hint Rewrite @dict_get_set @length_dict_set @length_dict_move_to_end
  @dict_keys_set : sie.
