(* ===== verification/PyStr.v ===== *)
(** Python string methods on ASCII text: [str.strip], [str.partition], the order of
    strings, with the lemmas that let a normalisation be composed of them.

    [lower] and [in] are in [Prelude]. *)

From Stdlib Require Import Ascii.
From S2P Require Import Prelude.

(** [str.isspace] on an ASCII character: tab to carriage return, the four
    separators 0x1c-0x1f, and the blank. *)
Definition is_space (a : Ascii.ascii) : bool :=
  let n := Ascii.nat_of_ascii a in
  ((9 <=? n)%nat && (n <=? 13)%nat) || ((28 <=? n)%nat && (n <=? 32)%nat).

Fixpoint lstrip (s : string) : string :=
  match s with
  | EmptyString => EmptyString
  | String a s' => if is_space a then lstrip s' else s
  end.

Fixpoint rstrip (s : string) : string :=
  match s with
  | EmptyString => EmptyString
  | String a s' =>
      match rstrip s' with
      | EmptyString => if is_space a then EmptyString else String a EmptyString
      | t => String a t
      end
  end.

(** [s.strip()] *)
Definition strip (s : string) : string := rstrip (lstrip s).

(** [s.partition(c)] for a one-character separator: (head, separator found, tail). *)
Fixpoint partition (c : Ascii.ascii) (s : string) : string * bool * string :=
  match s with
  | EmptyString => (EmptyString, false, EmptyString)
  | String a s' =>
      if bool_decide (a = c) then (EmptyString, true, s')
      else let '(h, found, t) := partition c s' in (String a h, found, t)
  end.

(** [c in s] for a character *)
Fixpoint char_in (c : Ascii.ascii) (s : string) : bool :=
  match s with
  | EmptyString => false
  | String a s' => bool_decide (a = c) || char_in c s'
  end.

(** [sorted(...)] of a collection of strings: by code point. *)
Definition sorted_strings (l : list string) : list string := stable_sort String.leb l.

Definition colon : Ascii.ascii := ":"%char.

(** ** Lemmas *)

Definition is_lower (s : string) : Prop := lower s = s.

Lemma is_space_lower a : is_space (lower_ascii a) = is_space a.
Proof.
  destruct a as [b0 b1 b2 b3 b4 b5 b6 b7].
  destruct b0, b1, b2, b3, b4, b5, b6, b7; reflexivity.
Qed.

Lemma lower_ascii_colon a : lower_ascii a = colon ↔ a = colon.
Proof.
  split; [|by intros ->].
  destruct a as [b0 b1 b2 b3 b4 b5 b6 b7].
  destruct b0, b1, b2, b3, b4, b5, b6, b7; cbv; congruence.
Qed.

Lemma is_lower_cons a s : is_lower (String a s) ↔ lower_ascii a = a ∧ is_lower s.
Proof.
  unfold is_lower. cbn. split; [intros H; injection H; auto|intros [-> ->]; done].
Qed.

Lemma is_lower_append s t : is_lower (s +:+ t) ↔ is_lower s ∧ is_lower t.
Proof.
  induction s as [|a s IH].
  - split; [intros H; split; [done|exact H]|by intros [_ H]].
  - change (String a s +:+ t) with (String a (s +:+ t)). rewrite !is_lower_cons, IH. tauto.
Qed.

Lemma is_lower_lstrip s : is_lower s → is_lower (lstrip s).
Proof.
  induction s as [|a s IH]; [done|]. intros H. cbn. destruct (is_space a); [|done].
  apply is_lower_cons in H as [_ H]. auto.
Qed.

Lemma is_lower_rstrip s : is_lower s → is_lower (rstrip s).
Proof.
  induction s as [|a s IH]; [done|]. intros [Ha Hs]%is_lower_cons. specialize (IH Hs). cbn.
  destruct (rstrip s) eqn:E; [destruct (is_space a); [done|]|]; apply is_lower_cons; auto.
Qed.

Lemma is_lower_strip s : is_lower s → is_lower (strip s).
Proof. intros. by apply is_lower_rstrip, is_lower_lstrip. Qed.

Lemma rstrip_idem s : rstrip (rstrip s) = rstrip s.
Proof.
  induction s as [|a s IH]; [done|]. cbn. destruct (rstrip s) as [|b t] eqn:E.
  - destruct (is_space a) eqn:Ea; [done|]. cbn. by rewrite Ea.
  - change (rstrip (String a (String b t))) with
      (match rstrip (String b t) with
       | EmptyString => if is_space a then EmptyString else String a EmptyString
       | t0 => String a t0 end). by rewrite IH.
Qed.

(** Text without leading blanks. *)
Definition no_lead (s : string) : Prop :=
  match s with EmptyString => True | String a _ => is_space a = false end.

Lemma lstrip_no_lead s : no_lead (lstrip s).
Proof. induction s as [|a s IH]; [done|]. cbn. destruct (is_space a) eqn:E; done. Qed.

Lemma no_lead_lstrip s : no_lead s → lstrip s = s.
Proof. destruct s as [|a s]; [done|]. cbn. by intros ->. Qed.

Lemma rstrip_no_lead s : no_lead s → no_lead (rstrip s).
Proof.
  destruct s as [|a s]; [done|]. cbn. intros H. destruct (rstrip s); cbn; by rewrite ?H.
Qed.

Lemma strip_no_lead s : no_lead (strip s).
Proof. apply rstrip_no_lead, lstrip_no_lead. Qed.

Lemma strip_idem s : strip (strip s) = strip s.
Proof.
  unfold strip at 1. rewrite (no_lead_lstrip (strip s)) by apply strip_no_lead.
  apply rstrip_idem.
Qed.

(** A text is stripped when [strip] leaves it alone. *)
Lemma strip_fixed s : no_lead s → rstrip s = s → strip s = s.
Proof. intros Hl Hr. unfold strip. by rewrite no_lead_lstrip. Qed.

Lemma rstrip_append s t : t ≠ EmptyString → rstrip t = t → rstrip (s +:+ t) = s +:+ t.
Proof.
  intros Hne Ht. induction s as [|a s IH]; [done|].
  change (rstrip (String a (s +:+ t)) = String a (s +:+ t)). cbn. rewrite IH.
  destruct (s +:+ t) as [|b u] eqn:E; [|done].
  destruct s; [|done]. by destruct Hne.
Qed.

Lemma rstrip_strip s : rstrip (strip s) = strip s.
Proof. apply rstrip_idem. Qed.

Lemma partition_spec c s h found t :
  partition c s = (h, found, t) →
  char_in c h = false ∧
  (if found then s = h +:+ String c t else s = h ∧ t = EmptyString).
Proof.
  revert h found t. induction s as [|a s IH]; intros h found t; cbn.
  - by intros [= <- <- <-].
  - case_bool_decide as Ha.
    + subst. by intros [= <- <- <-].
    + destruct (partition c s) as [[h' f'] t'] eqn:E. intros [= <- <- <-].
      destruct (IH _ _ _ eq_refl) as [Hc Hs]. cbn. rewrite bool_decide_false by done.
      split; [done|]. destruct f'; [by rewrite Hs|]. destruct Hs as [-> ->]. done.
Qed.

Lemma partition_absent c s : char_in c s = false → partition c s = (s, false, EmptyString).
Proof.
  induction s as [|a s IH]; [done|]. cbn. intros [Ha Hs]%orb_false_iff.
  rewrite Ha, IH by done. done.
Qed.

Lemma partition_found c h t :
  char_in c h = false → partition c (h +:+ String c t) = (h, true, t).
Proof.
  induction h as [|a h IH]; intros Hc.
  - change (EmptyString +:+ String c t) with (String c t). cbn [partition].
    by rewrite bool_decide_true.
  - change (String a h +:+ String c t) with (String a (h +:+ String c t)). cbn in *.
    apply orb_false_iff in Hc as [Ha Hc]. by rewrite Ha, IH.
Qed.

Lemma char_in_lstrip c s : char_in c s = false → char_in c (lstrip s) = false.
Proof.
  induction s as [|a s IH]; [done|]. cbn. intros H. destruct (is_space a); [|done].
  apply orb_false_iff in H as [_ H]. auto.
Qed.

Lemma char_in_rstrip c s : char_in c s = false → char_in c (rstrip s) = false.
Proof.
  induction s as [|a s IH]; [done|]. cbn. intros [Ha Hs]%orb_false_iff. specialize (IH Hs).
  destruct (rstrip s) eqn:E; [destruct (is_space a)|]; cbn; rewrite ?Ha; try done.
Qed.

Lemma char_in_strip c s : char_in c s = false → char_in c (strip s) = false.
Proof. intros. by apply char_in_rstrip, char_in_lstrip. Qed.
