(* ===== verification/Batcher.v ===== *)
(** Batch formation: [packages/sie_server/src/sie_server/core/batcher.py].

    [BatchFormer] accumulates requests and hands out cost-sorted sub-batches.
    Every critical section of the class is free of [await], so each method is
    one atomic state transition; [get_batch]'s wait loop is the step relation of
    Section [waiting].  The [BatchConfig] object is shared between all batchers
    of a worker and mutated in place by the adaptive controller, hence the
    operations take its current contents as an argument instead of owning a
    copy.  [time.monotonic()] is read at several places of one call: each reading
    is an argument of the definition that performs it. *)

From S2P Require Import Prelude PyFloat.
Local Open Scope Z_scope.

(** The [HasCost] protocol of [batcher.py]. *)
Class HasCost (I : Type) := { cost : I → Z; original_index : I → nat }.

Module Batcher.

Record PendingRequest (I T : Type) := mkPending {
  pr_item : I;
  pr_metadata : T;
  arrival_time : float;
}.
Arguments mkPending {I T}.
Arguments pr_item {I T}.
Arguments pr_metadata {I T}.
Arguments arrival_time {I T}.

Record FormattedBatch (I T : Type) := mkBatch {
  fb_items : list I;
  fb_metadata : list T;
  fb_total_cost : Z;
}.
Arguments mkBatch {I T}.
Arguments fb_items {I T}.
Arguments fb_metadata {I T}.
Arguments fb_total_cost {I T}.

Record BatchConfig := mkConfig {
  max_batch_cost : Z;
  max_batch_requests : Z;
  max_batch_wait_ms : float;
  coalesce_ms : float;
  coalesce_ratio : float;
}.

(** [BatchConfig.__init__] with its keyword defaults; [max_batch_tokens] is the
    backward-compatibility alias of [max_batch_cost]. *)
Definition BatchConfig_init (cost_ requests : Z) (wait : float)
    (tokens : option Z) (coalesce ratio : float) : BatchConfig :=
  {| max_batch_cost := match tokens with Some t => t | None => cost_ end;
     max_batch_requests := requests;
     max_batch_wait_ms := wait;
     coalesce_ms := coalesce;
     coalesce_ratio := ratio |}.

Definition default_config : BatchConfig :=
  BatchConfig_init 16384 64 (f_of_Z 15) None (f_of_Z 15) (flit 1 2).

(** [BatchConfig.effective_coalesce_ms] *)
Definition effective_coalesce_ms (cfg : BatchConfig) : float :=
  fmin (coalesce_ms cfg) (fmul (max_batch_wait_ms cfg) (coalesce_ratio cfg)).

Section former.
Context {I T : Type} `{HasCost I}.
Abbreviation request := (PendingRequest I T).
Abbreviation batch := (FormattedBatch I T).

Record BatchFormer := mkFormer {
  pending : list request;
  total_cost : Z;
  batch_ready : bool;                     (* the asyncio.Event *)
  first_request_time : option float;
  last_submit_time : option float;
}.

(** [BatchFormer.__init__] *)
Definition init_former : BatchFormer := mkFormer [] 0 false None None.

Definition req_cost (r : request) : Z := cost (pr_item r).
Definition req_pair (r : request) : I * T := (pr_item r, pr_metadata r).
Definition pending_count (b : BatchFormer) : Z := Z.of_nat (length (pending b)).

(** [FormattedBatch.size] *)
Definition batch_size (fb : batch) : Z := Z.of_nat (length (fb_items fb)).
Definition batch_pairs (fb : batch) : list (I * T) := zip (fb_items fb) (fb_metadata fb).

(** [FormattedBatch.sorted_by_cost]: sorts the (item, metadata) pairs. *)
Definition sorted_by_cost (fb : batch) : batch :=
  let pairs := stable_sort (λ p q : I * T, cost p.1 <=? cost q.1) (batch_pairs fb) in
  mkBatch (fst <$> pairs) (snd <$> pairs) (fb_total_cost fb).

(** [_batch_is_full] *)
Definition batch_is_full (cfg : BatchConfig) (b : BatchFormer) : bool :=
  (max_batch_cost cfg <=? total_cost b) || (max_batch_requests cfg <=? pending_count b).

Definition elapsed_ms (now since : float) : float := fmul (fsub now since) (f_of_Z 1000).

(** [_batch_timeout_expired], at clock reading [now] *)
Definition batch_timeout_expired (cfg : BatchConfig) (b : BatchFormer) (now : float) : bool :=
  match first_request_time b with
  | None => false
  | Some t => fle (max_batch_wait_ms cfg) (elapsed_ms now t)
  end.

(** [_effective_coalesce_ms] *)
Definition capped_coalesce_ms (cfg : BatchConfig) (cap : option float) : float :=
  match cap with
  | None => effective_coalesce_ms cfg
  | Some c => fmin (effective_coalesce_ms cfg) c
  end.

(** [_coalesce_expired] *)
Definition coalesce_expired (cfg : BatchConfig) (b : BatchFormer) (cap : option float)
    (now : float) : bool :=
  match last_submit_time b, pending b with
  | Some t, _ :: _ => fle (capped_coalesce_ms cfg cap) (elapsed_ms now t)
  | _, _ => false
  end.

(** The clock readings of one evaluation of [_should_yield_batch]: the one of the
    timeout test and the one of the coalesce test. *)
Record readings := { t_timeout : float; t_coalesce : float }.

(** [_should_yield_batch] *)
Definition should_yield_batch (cfg : BatchConfig) (b : BatchFormer) (cap : option float)
    (ts : readings) : bool :=
  match pending b with
  | [] => false
  | _ => batch_is_full cfg b || batch_timeout_expired cfg b (t_timeout ts)
         || coalesce_expired cfg b cap (t_coalesce ts)
  end.

(** [_append_item]: [arrival] is the reading of [PendingRequest]'s default
    factory, [now] the method's own. *)
Definition append_item (cfg : BatchConfig) (b : BatchFormer) (i : I) (m : T)
    (arrival now : float) (ts : readings) : BatchFormer :=
  let is_first := match first_request_time b with None => true | Some _ => false end in
  let b' := {| pending := pending b ++ [mkPending i m arrival];
               total_cost := total_cost b + cost i;
               batch_ready := batch_ready b;
               first_request_time :=
                 match first_request_time b with None => Some now | t => t end;
               last_submit_time := Some now |} in
  if should_yield_batch cfg b' None ts || is_first
  then {| pending := pending b'; total_cost := total_cost b'; batch_ready := true;
          first_request_time := first_request_time b';
          last_submit_time := last_submit_time b' |}
  else b'.

(** [submit_many]: one lock acquisition, one [_append_item] per entry with its
    own clock readings. [submit] is the one-entry case. *)
Definition submit_many (cfg : BatchConfig) (b : BatchFormer)
    (l : list (I * T * (float * float * readings))) : BatchFormer :=
  foldl (λ b '(i, m, (a, n, ts)), append_item cfg b i m a n ts) b l.

Definition submit (cfg : BatchConfig) (b : BatchFormer) (i : I) (m : T)
    (arrival now : float) (ts : readings) : BatchFormer :=
  submit_many cfg b [(i, m, (arrival, now, ts))].

(** Why the greedy loop of [_extract_batch] stopped. *)
Inductive limit_hit := cost_limit | request_limit | no_limit.

(** The [for request in self._pending] loop of [_extract_batch]. *)
Fixpoint extract_loop (cfg : BatchConfig) (max_items : option Z) (l : list request)
    (items : list I) (metadata : list T) (batch_cost take_count : Z)
    : list I * list T * Z * Z * limit_hit :=
  match l with
  | [] => (items, metadata, batch_cost, take_count, no_limit)
  | r :: l' =>
      if match max_items with Some m => m <=? take_count | None => false end
      then (items, metadata, batch_cost, take_count, no_limit)
      else if (max_batch_cost cfg <? batch_cost + req_cost r) && (0 <? take_count)
      then (items, metadata, batch_cost, take_count, cost_limit)
      else
        let items' := items ++ [pr_item r] in
        let metadata' := metadata ++ [pr_metadata r] in
        let batch_cost' := batch_cost + req_cost r in
        let take_count' := take_count + 1 in
        if max_batch_requests cfg <=? take_count'
        then (items', metadata', batch_cost', take_count', request_limit)
        else extract_loop cfg max_items l' items' metadata' batch_cost' take_count'
  end.

Definition sort_pending (l : list request) : list request :=
  stable_sort (λ r s, req_cost r <=? req_cost s) l.

(** [_extract_batch] *)
Definition extract_batch (cfg : BatchConfig) (b : BatchFormer) (max_items : option Z)
    : BatchFormer * batch :=
  let sorted := sort_pending (pending b) in
  let '(items, metadata, batch_cost, take_count, _) :=
    extract_loop cfg max_items sorted [] [] 0 0 in
  let rest := drop (Z.to_nat take_count) sorted in
  let timers := match rest with [] => (None, None)
                | _ => (first_request_time b, last_submit_time b) end in
  ({| pending := rest;
      total_cost := total_cost b - batch_cost;
      batch_ready := batch_ready b;
      first_request_time := timers.1;
      last_submit_time := timers.2 |},
   mkBatch items metadata batch_cost).

(** [try_get_batch] *)
Definition try_get_batch (cfg : BatchConfig) (b : BatchFormer) (ts : readings)
    : BatchFormer * option batch :=
  if should_yield_batch cfg b None ts
  then let '(b', fb) := extract_batch cfg b None in (b', Some fb)
  else (b, None).

(** [drain_pending] *)
Definition drain_pending (b : BatchFormer) : BatchFormer * list T :=
  (mkFormer [] 0 (batch_ready b) None None, pr_metadata <$> pending b).

(** [try_drain] *)
Definition try_drain (cfg : BatchConfig) (b : BatchFormer) (max_items : option Z)
    : BatchFormer * option batch :=
  match pending b with
  | [] => (b, None)
  | _ => let '(b', fb) := extract_batch cfg b max_items in (b', Some fb)
  end.

(** The locked part of one iteration of [get_batch]'s loop. *)
Definition get_batch_poll (cfg : BatchConfig) (b : BatchFormer) (immediate : bool)
    (cap : option float) (ts : readings) : BatchFormer * option batch :=
  if should_yield_batch cfg b cap ts || (immediate && (0 <? pending_count b))
  then let '(b', fb) := extract_batch cfg b None in (b', Some fb)
  else (b, None).

(** [_get_wait_timeout], in seconds; [None] waits without a deadline. *)
Definition get_wait_timeout (cfg : BatchConfig) (b : BatchFormer) (cap : option float)
    (now : float) : option float :=
  match first_request_time b with
  | None => None
  | Some t =>
      let batch_remaining_ms :=
        fmax f0 (fsub (max_batch_wait_ms cfg) (elapsed_ms now t)) in
      let coalesce := capped_coalesce_ms cfg cap in
      let coalesce_remaining_ms :=
        match last_submit_time b with
        | Some u => fmax f0 (fsub coalesce (elapsed_ms now u))
        | None => coalesce
        end in
      Some (fdiv (fmin batch_remaining_ms coalesce_remaining_ms) (f_of_Z 1000))
  end.

(** [self._batch_ready.clear()] *)
Definition clear_ready (b : BatchFormer) : BatchFormer :=
  {| pending := pending b; total_cost := total_cost b; batch_ready := false;
     first_request_time := first_request_time b; last_submit_time := last_submit_time b |}.

(** ** The greedy loop *)

(** What the loop takes is a prefix of the list it walks; [n] is its length. *)
Record loop_result (cfg : BatchConfig) (max_items : option Z) (l : list request)
    (p0 : list request) (n : nat) : Prop := {
  lr_len : (n <= length l)%nat;
  lr_items : ∀ m, max_items = Some m → Z.of_nat (length p0 + n) <= Z.max m (Z.of_nat (length p0));
  lr_requests : Z.of_nat n = 0 ∨
    Z.of_nat (length p0 + n) <= Z.max (max_batch_requests cfg) (Z.of_nat (length p0) + 1);
  lr_cost : n = 0%nat ∨ (length p0 + n = 1)%nat ∨
    sumZ req_cost (p0 ++ take n l) <= max_batch_cost cfg;
  lr_stop : n = length l
    ∨ (∃ m, max_items = Some m ∧ m <= Z.of_nat (length p0 + n))
    ∨ (0 < n)%nat ∧ max_batch_requests cfg <= Z.of_nat (length p0 + n)
    ∨ (0 < length p0 + n)%nat ∧ ∃ r, l !! n = Some r ∧
        max_batch_cost cfg < sumZ req_cost (p0 ++ take n l) + req_cost r;
}.

Lemma sumZ_snoc {A} (f : A → Z) l x : sumZ f (l ++ [x]) = sumZ f l + f x.
Proof. rewrite sumZ_app, sumZ_cons, sumZ_nil. lia. Qed.

Lemma extract_loop_spec cfg mi l : ∀ p0,
  ∃ n lim, extract_loop cfg mi l (pr_item <$> p0) (pr_metadata <$> p0)
             (sumZ req_cost p0) (Z.of_nat (length p0))
         = (pr_item <$> p0 ++ take n l, pr_metadata <$> p0 ++ take n l,
            sumZ req_cost (p0 ++ take n l), Z.of_nat (length p0 + n), lim)
       ∧ loop_result cfg mi l p0 n.
Proof.
  induction l as [|r l IH]; intros p0; cbn [extract_loop].
  { exists 0%nat, no_limit. rewrite app_nil_r, Nat.add_0_r. split; [done|].
    constructor; simpl; auto. intros; lia. }
  destruct (match mi with Some m => m <=? Z.of_nat (length p0) | None => false end) eqn:Emi.
  { exists 0%nat, no_limit. simpl. rewrite app_nil_r, Nat.add_0_r. split; [done|].
    destruct mi as [m|]; [|done].
    constructor; simpl; auto; [lia|intros; lia|]. right; left. exists m. split; [done|lia]. }
  destruct ((max_batch_cost cfg <? sumZ req_cost p0 + req_cost r)
            && (0 <? Z.of_nat (length p0))) eqn:Ec.
  { exists 0%nat, cost_limit. simpl. rewrite app_nil_r, Nat.add_0_r. split; [done|].
    constructor; simpl; auto; [lia|intros; lia|].
    right; right; right. split; [lia|]. exists r. rewrite app_nil_r. split; [done|lia]. }
  destruct (max_batch_requests cfg <=? Z.of_nat (length p0) + 1) eqn:Er.
  { exists 1%nat, request_limit. simpl. rewrite take_0, !fmap_app, sumZ_snoc.
    split; [repeat f_equal; lia|].
    constructor; simpl; rewrite ?take_0, ?sumZ_snoc; [lia| |lia|lia|right; right; left; lia].
    intros m ->. lia. }
  destruct (IH (p0 ++ [r])) as (n & lim & E & [Hlen Hit Hreq Hcost Hstop]).
  exists (S n), lim. rewrite fmap_app, sumZ_snoc, length_app in E. cbn [length fmap list_fmap] in E.
  rewrite fmap_app in E. cbn [fmap list_fmap] in E.
  replace (Z.of_nat (length p0) + 1) with (Z.of_nat (length p0 + 1)) by lia.
  rewrite E. rewrite <- !app_assoc. cbn [take app].
  replace (length p0 + 1 + n)%nat with (length p0 + S n)%nat by lia.
  split; [done|].
  rewrite length_app in Hit, Hreq, Hcost, Hstop. cbn [length] in *.
  constructor; cbn [take length lookup list_lookup].
  - lia.
  - intros m ->. specialize (Hit m eq_refl). lia.
  - right. destruct Hreq as [Hreq|Hreq]; lia.
  - right. destruct Hcost as [->|[Hcost|Hcost]].
    + rewrite take_0, sumZ_snoc. lia.
    + lia.
    + right. by rewrite <- app_assoc in Hcost.
  - destruct Hstop as [->|[(m & -> & Hm)|[[Hn Hm]|(Hp & r' & Hr & Hm)]]].
    + by left.
    + right; left. exists m. split; [done|lia].
    + right; right; left. lia.
    + right; right; right. split; [lia|]. exists r'. rewrite <- app_assoc in Hm. done.
Qed.

Definition requests_batch (l : list request) : batch :=
  mkBatch (pr_item <$> l) (pr_metadata <$> l) (sumZ req_cost l).

(** [_extract_batch] splits the cost-sorted queue at some position [n]. *)
Lemma extract_batch_split cfg b mi :
  ∃ n, loop_result cfg mi (sort_pending (pending b)) [] n ∧
    (extract_batch cfg b mi).2 = requests_batch (take n (sort_pending (pending b))) ∧
    pending (extract_batch cfg b mi).1 = drop n (sort_pending (pending b)) ∧
    total_cost (extract_batch cfg b mi).1
      = total_cost b - sumZ req_cost (take n (sort_pending (pending b))).
Proof.
  destruct (extract_loop_spec cfg mi (sort_pending (pending b)) []) as (n & lim & E & Hl).
  exists n. split; [done|]. unfold extract_batch. cbn in E.
  change (sumZ req_cost []) with 0 in E. change (Z.of_nat 0) with 0 in E. rewrite E. cbn. by rewrite Nat2Z.id.
Qed.

(** The clock and the event are read from the old state. *)
Lemma extract_batch_timers cfg b mi :
  let b' := (extract_batch cfg b mi).1 in
  batch_ready b' = batch_ready b ∧
  first_request_time b' = match pending b' with [] => None | _ => first_request_time b end ∧
  last_submit_time b' = match pending b' with [] => None | _ => last_submit_time b end.
Proof.
  unfold extract_batch.
  destruct (extract_loop _ _ _ _ _ _ _) as [[[[items metadata] bc] tc] lim]. cbn.
  by destruct (drop _ _).
Qed.

Lemma sort_pending_perm l : sort_pending l ≡ₚ l.
Proof. apply stable_sort_perm. Qed.

Lemma length_sort_pending l : length (sort_pending l) = length l.
Proof. apply length_stable_sort. Qed.

Lemma sort_pending_sorted l :
  StronglySorted (λ r s, req_cost r <= req_cost s) (sort_pending l).
Proof.
  eapply StronglySorted_weaken; [|apply (stable_sort_sorted _ (λ _, True))].
  - intros; simpl in *; lia.
  - intros; lia.
  - intros; lia.
  - by apply Forall_true.
Qed.

Lemma requests_batch_pairs l : batch_pairs (requests_batch l) = req_pair <$> l.
Proof.
  unfold batch_pairs, requests_batch; simpl. induction l as [|r l IH]; [done|].
  cbn. by f_equal.
Qed.

(** ** The invariant of a former *)

Record former_wf (b : BatchFormer) : Prop := {
  wf_cost : total_cost b = sumZ req_cost (pending b);
  wf_first : first_request_time b = None ↔ pending b = [];
  wf_last : last_submit_time b = None ↔ pending b = [];
}.

Lemma init_former_wf : former_wf init_former.
Proof. by constructor. Qed.

Lemma append_item_pending cfg b i m a n ts :
  pending (append_item cfg b i m a n ts) = pending b ++ [mkPending i m a].
Proof. unfold append_item. by destruct (_ || _). Qed.

Lemma append_item_wf cfg b i m a n ts : former_wf b → former_wf (append_item cfg b i m a n ts).
Proof.
  intros [Hc Hf Hl].
  assert (∀ l : list request, ∀ r, l ++ [r] = [] ↔ False) as Hne by (intros []; done).
  unfold append_item. destruct (should_yield_batch _ _ _ _ || _);
    constructor; cbn; rewrite ?Hne, ?sumZ_snoc, ?Hc; try done;
    destruct (first_request_time b); by split.
Qed.

Lemma submit_many_wf cfg l : ∀ b, former_wf b → former_wf (submit_many cfg b l).
Proof.
  induction l as [|[[i m] [[a n] ts]] l IH]; intros b Hb; simpl; [done|].
  by apply IH, append_item_wf.
Qed.

Lemma extract_batch_wf cfg b mi : former_wf b → former_wf (extract_batch cfg b mi).1.
Proof.
  intros [Hc Hf Hl]. destruct (extract_batch_split cfg b mi) as (n & _ & _ & Hp & Ht).
  destruct (extract_batch_timers cfg b mi) as (_ & Htf & Htl).
  assert (pending (extract_batch cfg b mi).1 ≠ [] → pending b ≠ []) as Hne.
  { rewrite Hp. intros Hd Hb. apply Hd. rewrite Hb. by destruct n. }
  constructor.
  - rewrite Ht, Hp, Hc. rewrite <- (sort_pending_perm (pending b)) at 1.
    rewrite <- (take_drop n (sort_pending (pending b))) at 1. rewrite sumZ_app. lia.
  - rewrite Htf. destruct (pending (extract_batch cfg b mi).1); naive_solver.
  - rewrite Htl. destruct (pending (extract_batch cfg b mi).1); naive_solver.
Qed.

Lemma drain_pending_wf b : former_wf (drain_pending b).1.
Proof. by constructor. Qed.

Lemma clear_ready_wf b : former_wf b → former_wf (clear_ready b).
Proof. by intros []. Qed.

Lemma try_drain_wf cfg b mi : former_wf b → former_wf (try_drain cfg b mi).1.
Proof.
  intros Hb. unfold try_drain. destruct (pending b) eqn:E; [done|].
  pose proof (extract_batch_wf cfg b mi Hb). by destruct (extract_batch _ _ _).
Qed.

Lemma try_get_batch_wf cfg b ts : former_wf b → former_wf (try_get_batch cfg b ts).1.
Proof.
  intros Hb. unfold try_get_batch. destruct (should_yield_batch _ _ _ _); [|done].
  pose proof (extract_batch_wf cfg b None Hb). by destruct (extract_batch _ _ _).
Qed.

Lemma get_batch_poll_wf cfg b im cap ts :
  former_wf b → former_wf (get_batch_poll cfg b im cap ts).1.
Proof.
  intros Hb. unfold get_batch_poll. destruct (_ || _); [|done].
  pose proof (extract_batch_wf cfg b None Hb). by destruct (extract_batch _ _ _).
Qed.

(** ** The [k] cheapest requests *)

Lemma sorted_prefix_min (l s : list request) :
  StronglySorted (λ r s, req_cost r <= req_cost s) l → s ⊆+ l →
  sumZ req_cost (take (length s) l) <= sumZ req_cost s.
Proof.
  intros Hl. revert s. induction Hl as [|x l Hs IH Hx]; intros s Hsub.
  { apply submseteq_nil_r in Hsub as ->. done. }
  apply submseteq_cons_r in Hsub as [Hsub|(s' & Hperm & Hsub)].
  - destruct s as [|y s']; [simpl; lia|]. cbn [length take].
    specialize (IH _ Hsub). cbn [length] in IH.
    apply submseteq_length in Hsub. cbn [length] in Hsub.
    destruct (lookup_lt_is_Some_2 l (length s') ltac:(lia)) as [z Hz].
    rewrite (take_S_r _ _ z Hz), sumZ_snoc in IH.
    rewrite Forall_forall in Hx. specialize (Hx z (list_elem_of_lookup_2 _ _ _ Hz)).
    rewrite sumZ_cons. lia.
  - rewrite (sumZ_perm _ _ _ Hperm), (Permutation_length Hperm).
    cbn [length take]. rewrite !sumZ_cons. specialize (IH _ Hsub). lia.
Qed.

Lemma sumZ_take_mono (l : list request) (n k : nat) :
  (∀ r, r ∈ l → 0 <= req_cost r) → (n <= k)%nat →
  sumZ req_cost (take n l) <= sumZ req_cost (take k l).
Proof.
  intros Hpos Hnk. replace k with (n + (k - n))%nat by lia.
  rewrite <- (take_take_drop l n (k - n)), sumZ_app.
  assert (0 <= sumZ req_cost (take (k - n) (drop n l))); [|lia].
  apply sumZ_nonneg. intros x Hx. apply Hpos.
  eapply elem_of_submseteq; [exact Hx|].
  etrans; [apply sublist_submseteq, sublist_take|apply sublist_submseteq, sublist_drop].
Qed.

(** ** Properties of one extraction *)

(** Conservation and order.  Extracting a sub-batch neither loses, duplicates
    nor mis-pairs a request: the batch and the remaining queue are together a
    permutation of the old queue, the two cost counters agree with the costs of
    the requests they describe, the batch is sorted by cost, and nothing left
    behind is cheaper than anything taken. *)
Theorem extract_batch_conserves cfg b mi :
  former_wf b →
  let b' := (extract_batch cfg b mi).1 in
  let fb := (extract_batch cfg b mi).2 in
  batch_pairs fb ++ (req_pair <$> pending b') ≡ₚ req_pair <$> pending b ∧
  fb_total_cost fb = sumZ cost (fb_items fb) ∧
  total_cost b' = sumZ req_cost (pending b') ∧
  StronglySorted (λ i j, cost i <= cost j) (fb_items fb) ∧
  ∀ i r, i ∈ fb_items fb → r ∈ pending b' → cost i <= req_cost r.
Proof.
  intros Hwf b' fb. destruct (extract_batch_split cfg b mi) as (n & _ & Hfb & Hp & _).
  pose proof (sort_pending_sorted (pending b)) as Hs.
  rewrite <- (take_drop n (sort_pending (pending b))) in Hs.
  apply StronglySorted_app in Hs as (Hle & Hs & _).
  subst b' fb. rewrite Hfb, requests_batch_pairs. split; [|split; [|split; [|split]]].
  - rewrite Hp, <- fmap_app, take_drop. by rewrite sort_pending_perm.
  - cbn. by rewrite sumZ_fmap.
  - apply wf_cost, extract_batch_wf, Hwf.
  - cbn. eapply StronglySorted_fmap; [|exact Hs]. done.
  - cbn. intros i r (r' & -> & Hr')%list_elem_of_fmap Hr. rewrite Hp in Hr. by apply Hle.
Qed.

(** Limits and progress.  A batch never exceeds [max_batch_requests] items nor
    a caller's [max_items] budget, its cost respects [max_batch_cost] unless it is
    the single-item batch of an oversized request, and a non-empty queue always
    yields a non-empty batch (unless the caller's budget is not positive). *)
Theorem extract_batch_limits cfg b mi :
  let fb := (extract_batch cfg b mi).2 in
  batch_size fb <= Z.max 1 (max_batch_requests cfg) ∧
  (∀ m, mi = Some m → batch_size fb <= Z.max 0 m) ∧
  (batch_size fb <= 1 ∨ fb_total_cost fb <= max_batch_cost cfg) ∧
  (pending b ≠ [] → (∀ m, mi = Some m → 0 < m) → 1 <= batch_size fb).
Proof.
  intros fb. destruct (extract_batch_split cfg b mi) as (n & [Hlen Hit Hreq Hc Hst] & Hfb & _).
  assert (batch_size fb = Z.of_nat n) as Hsz.
  { subst fb. rewrite Hfb. unfold batch_size. cbn. rewrite length_fmap, length_take. lia. }
  cbn in Hreq, Hc, Hit. split; [lia|]. split; [intros m Hm; specialize (Hit m Hm); lia|].
  split.
  - destruct Hc as [Hc|[Hc|Hc]]; [left; lia|left; lia|right].
    subst fb. by rewrite Hfb.
  - intros Hne Hm. rewrite length_sort_pending in Hst.
    assert (0 < length (pending b))%nat by (destruct (pending b); simpl; [done|lia]).
    destruct Hst as [->|[(m & Hmi & Hle)|[[? ?]|[? ?]]]]; [lia| |lia|cbn in *; lia].
    specialize (Hm m Hmi). cbn in Hle. lia.
Qed.

(** Optimality of the greedy cut.  No set of pending requests that respects the
    cost limit, the request limit and the caller's budget has more requests than
    the batch the loop forms: sorting by cost and cutting greedily maximises the
    number of requests served by one forward pass. *)
Theorem extract_batch_maximal cfg b mi (s : list request) :
  (∀ r, r ∈ pending b → 0 <= req_cost r) →
  s ⊆+ pending b →
  sumZ req_cost s <= max_batch_cost cfg →
  Z.of_nat (length s) <= max_batch_requests cfg →
  (∀ m, mi = Some m → Z.of_nat (length s) <= m) →
  Z.of_nat (length s) <= batch_size (extract_batch cfg b mi).2.
Proof.
  intros Hpos Hsub Hcost Hreq Hit.
  destruct (extract_batch_split cfg b mi) as (n & [Hlen _ _ _ Hst] & Hfb & _).
  rewrite Hfb. unfold batch_size. cbn. rewrite length_fmap, length_take.
  rewrite <- (sort_pending_perm (pending b)) in Hsub.
  pose proof (submseteq_length _ _ Hsub) as Hls.
  pose proof (sorted_prefix_min _ _ (sort_pending_sorted _) Hsub) as Hmin.
  cbn in Hst. destruct Hst as [->|[(m & Hm & Hle)|[[_ Hle]|(_ & r & Hr & Hgt)]]];
    [lia|specialize (Hit m Hm); lia|lia|].
  destruct (decide (length s <= n)%nat) as [|Hlt]; [lia|exfalso].
  pose proof (sumZ_take_mono (sort_pending (pending b)) (S n) (length s)) as Hmono.
  rewrite (take_S_r _ _ _ Hr), sumZ_snoc in Hmono.
  assert (∀ r, r ∈ sort_pending (pending b) → 0 <= req_cost r) as Hpos'.
  { intros r' Hr'. apply Hpos. by rewrite sort_pending_perm in Hr'. }
  specialize (Hmono Hpos' ltac:(lia)). lia.
Qed.

(** FIFO among equals.  Requests of the same cost leave the queue in the order
    they arrived: reading the batch and then the remaining queue, the requests of
    any given cost appear exactly as they did in the queue before. *)
Theorem extract_batch_fifo cfg b mi (c : Z) :
  List.filter (λ p : I * T, cost p.1 =? c)
    (batch_pairs (extract_batch cfg b mi).2 ++ (req_pair <$> pending (extract_batch cfg b mi).1))
  = List.filter (λ p : I * T, cost p.1 =? c) (req_pair <$> pending b).
Proof.
  destruct (extract_batch_split cfg b mi) as (n & _ & Hfb & Hp & _).
  rewrite Hfb, Hp, requests_batch_pairs, <- fmap_app, take_drop.
  assert (∀ l : list request, List.filter (λ p : I * T, cost p.1 =? c) (req_pair <$> l)
          = req_pair <$> List.filter (λ r, req_cost r =? c) l) as Hf.
  { induction l as [|r l IH]; [done|]. rewrite fmap_cons. cbn [List.filter].
    change (cost (req_pair r).1) with (req_cost r).
    destruct (req_cost r =? c); rewrite ?fmap_cons, IH; done. }
  rewrite !Hf. f_equal. apply stable_sort_stable. intros; lia.
Qed.

(** ** The wait loop of [get_batch]

    One coroutine runs [get_batch]; others submit or drain concurrently.  The
    coroutine is [Checking] while it holds the lock and evaluates the yield
    condition, and [Waiting] while it sleeps in [asyncio.wait_for] on the event
    with the deadline [_get_wait_timeout] computed. *)
Inductive waiter := Idle | Checking | Waiting (timeout : option float).

Inductive wait_step (cfg : BatchConfig) (immediate : bool) (cap : option float)
    : BatchFormer * waiter → BatchFormer * waiter → Prop :=
(* other coroutines *)
| ws_submit b w i m a n ts :
    wait_step cfg immediate cap (b, w) (append_item cfg b i m a n ts, w)
| ws_try_get b w ts :
    wait_step cfg immediate cap (b, w) ((try_get_batch cfg b ts).1, w)
| ws_try_drain b w mi :
    wait_step cfg immediate cap (b, w) ((try_drain cfg b mi).1, w)
| ws_drain_pending b w :
    wait_step cfg immediate cap (b, w) ((drain_pending b).1, w)
(* the coroutine of [get_batch] *)
| ws_call b :
    wait_step cfg immediate cap (b, Idle) (b, Checking)
| ws_yield b ts fb :
    (get_batch_poll cfg b immediate cap ts).2 = Some fb →
    wait_step cfg immediate cap (b, Checking) ((get_batch_poll cfg b immediate cap ts).1, Idle)
| ws_sleep b ts now :
    (get_batch_poll cfg b immediate cap ts).2 = None →
    wait_step cfg immediate cap (b, Checking) (b, Waiting (get_wait_timeout cfg b cap now))
| ws_wake b tmo :
    batch_ready b = true →
    wait_step cfg immediate cap (b, Waiting tmo) (clear_ready b, Checking)
| ws_timeout b t :
    wait_step cfg immediate cap (b, Waiting (Some t)) (clear_ready b, Checking).

Abbreviation wait_reachable cfg im cap := (rtc (wait_step cfg im cap) (init_former, Idle)).

(** What the sleeper relies on: while the event is unset, an unset deadline means
    there is nothing to batch, and what is pending does not fill a batch. *)
Definition sleeper_ok (cfg : BatchConfig) (b : BatchFormer) (w : waiter) : Prop :=
  match w with
  | Waiting tmo => batch_ready b = false →
      (tmo = None → pending b = []) ∧ (pending b ≠ [] → batch_is_full cfg b = false)
  | _ => True
  end.

Definition pending_nonneg (b : BatchFormer) : Prop :=
  ∀ r, r ∈ pending b → 0 <= req_cost r.

Section no_lost_wakeup.
Hypothesis cost_nonneg : ∀ i : I, 0 <= cost i.

Lemma extract_batch_not_full cfg b mi :
  pending b ≠ [] → batch_is_full cfg b = false → batch_is_full cfg (extract_batch cfg b mi).1 = false.
Proof.
  intros _. unfold batch_is_full, pending_count.
  destruct (extract_batch_split cfg b mi) as (n & _ & _ & -> & ->).
  rewrite length_drop, length_sort_pending.
  assert (0 <= sumZ req_cost (take n (sort_pending (pending b)))).
  { apply sumZ_nonneg. intros r _. apply cost_nonneg. }
  lia.
Qed.

Lemma append_item_sleeper cfg b i m a n ts w :
  former_wf b → sleeper_ok cfg b w → sleeper_ok cfg (append_item cfg b i m a n ts) w.
Proof.
  intros [_ Hf _] Hs. destruct w as [| |tmo]; [done..|]. cbn in *. unfold append_item.
  set (b' := mkFormer _ _ (batch_ready b) _ _).
  destruct (should_yield_batch cfg b' None ts || _) eqn:E; [done|].
  apply orb_false_elim in E as [Ey Ef]. intros Hr. destruct (Hs Hr) as [Ht Hfull].
  split.
  - intros ->. specialize (Ht eq_refl). apply Hf in Ht. by rewrite Ht in Ef.
  - intros _. unfold should_yield_batch in Ey. subst b'. cbn in Ey.
    destruct (pending b ++ _) eqn:Ea; [by destruct (pending b)|].
    apply orb_false_elim in Ey as [[Hfull' _]%orb_false_elim _].
    exact Hfull'.
Qed.

Lemma extract_batch_sleeper cfg b mi w :
  pending b ≠ [] → sleeper_ok cfg b w → sleeper_ok cfg (extract_batch cfg b mi).1 w.
Proof.
  intros Hne Hs. destruct w as [| |tmo]; [done..|]. cbn in *.
  destruct (extract_batch_timers cfg b mi) as (-> & _ & _). intros Hr.
  destruct (Hs Hr) as [Ht Hfull]. split; [naive_solver|]. intros _.
  by apply extract_batch_not_full, Hfull.
Qed.

Lemma should_yield_nonempty cfg b cap ts : should_yield_batch cfg b cap ts = true → pending b ≠ [].
Proof. unfold should_yield_batch. by destruct (pending b). Qed.

Lemma wait_step_inv cfg im cap s s' :
  wait_step cfg im cap s s' →
  former_wf s.1 ∧ sleeper_ok cfg s.1 s.2 → former_wf s'.1 ∧ sleeper_ok cfg s'.1 s'.2.
Proof.
  destruct 1 as [b w i m a n ts|b w ts|b w mi|b w|b|b ts fb Hy|b ts now Hy|b tmo Hr|b t];
    cbn [fst snd]; intros [Hwf Hs]; (split;
    [auto using append_item_wf, try_get_batch_wf, try_drain_wf, drain_pending_wf,
       get_batch_poll_wf, clear_ready_wf|]); try done.
  - by apply append_item_sleeper.
  - unfold try_get_batch. destruct (should_yield_batch cfg b None ts) eqn:E; [|done].
    pose proof (extract_batch_sleeper cfg b None w (should_yield_nonempty _ _ _ _ E) Hs).
    by destruct (extract_batch _ _ _).
  - unfold try_drain. destruct (pending b) as [|r l] eqn:E; [done|].
    pose proof (extract_batch_sleeper cfg b mi w ltac:(by rewrite E) Hs).
    by destruct (extract_batch _ _ _).
  - destruct w as [| |tmo]; [done..|]. by split.
  - cbn. intros _. split.
    + unfold get_wait_timeout. destruct (first_request_time b) eqn:E; [done|].
      intros _. by apply (wf_first _ Hwf).
    + intros Hne. unfold get_batch_poll in Hy.
      destruct (should_yield_batch cfg b cap ts || _) eqn:E.
      * by destruct (extract_batch _ _ _).
      * apply orb_false_elim in E as [E _]. unfold should_yield_batch in E.
        destruct (pending b); [done|]. by apply orb_false_elim in E as [[? _]%orb_false_elim _].
Qed.

(** No lost wake-up.  Whatever submissions and drains interleave with
    [get_batch], when it sleeps without a deadline and the event is not set the
    queue is empty, and when it sleeps at all with the event not set the queue
    does not hold a full batch: the coroutine never sleeps on work it could
    dispatch. *)
Theorem get_batch_no_lost_wakeup cfg im cap b tmo :
  wait_reachable cfg im cap (b, Waiting tmo) →
  batch_ready b = false →
  (tmo = None → pending b = []) ∧ (pending b ≠ [] → batch_is_full cfg b = false).
Proof.
  intros Hr. revert Hr.
  assert (∀ s, wait_reachable cfg im cap s → former_wf s.1 ∧ sleeper_ok cfg s.1 s.2) as Hinv.
  { intros s. apply (rtc_ind_r (λ s, former_wf s.1 ∧ sleeper_ok cfg s.1 s.2)).
    - split; [apply init_former_wf|done].
    - intros y z _ Hstep IH. eapply wait_step_inv; eauto. }
  intros Hr. exact (proj2 (Hinv _ Hr)).
Qed.
End no_lost_wakeup.

End former.

(** ** Collation of tokenised text *)

(** [core/prepared.py: TextPayload] *)
Record TextPayload := { input_ids : list Z; attention_mask : list Z }.
Definition token_count (p : TextPayload) : nat := length (input_ids p).

(** [max(p.token_count for p in payloads)]; the caller has excluded [[]]. *)
Definition max_length (ps : list TextPayload) : nat :=
  foldr (λ p acc, Nat.max (token_count p) acc) 0%nat ps.

(** [collate_batch]: rows of [input_ids] and of [attention_mask]. *)
Definition collate_batch (ps : list TextPayload) (pad_token_id : Z) : list (list Z) * list (list Z) :=
  match ps with
  | [] => ([], [])
  | _ =>
      let ml := max_length ps in
      ((λ p, input_ids p ++ replicate (ml - token_count p) pad_token_id) <$> ps,
       (λ p, attention_mask p ++ replicate (ml - token_count p) 0) <$> ps)
  end.

Lemma max_length_ge ps p : p ∈ ps → (token_count p <= max_length ps)%nat.
Proof.
  induction ps as [|q ps IH]; [set_solver|].
  intros [->|Hp]%elem_of_cons; simpl; [lia|]. specialize (IH Hp). lia.
Qed.

(** Collation is rectangular and lossless.  When each payload's mask is as long
    as its ids, every row of both matrices has the length of the longest payload,
    there is one row per payload in order, and the attention mask selects exactly
    the payload's own ids: zipping a row with its mask and keeping the positions
    below the payload's length gives the payload back, while all padding is masked
    out by zeros. *)
Theorem collate_batch_rectangular ps pad k p :
  (∀ q, q ∈ ps → length (attention_mask q) = token_count q) →
  ps !! k = Some p →
  ∃ row mask, (collate_batch ps pad).1 !! k = Some row ∧ (collate_batch ps pad).2 !! k = Some mask ∧
    length row = max_length ps ∧ length mask = max_length ps ∧
    take (token_count p) row = input_ids p ∧ take (token_count p) mask = attention_mask p ∧
    Forall (λ x, x = pad) (drop (token_count p) row) ∧ Forall (λ x, x = 0) (drop (token_count p) mask).
Proof.
  intros Hm Hk. pose proof (list_elem_of_lookup_2 _ _ _ Hk) as Hp.
  specialize (Hm p Hp). pose proof (max_length_ge ps p Hp) as Hml.
  exists (input_ids p ++ replicate (max_length ps - token_count p) pad),
         (attention_mask p ++ replicate (max_length ps - token_count p) 0).
  destruct ps as [|q ps]; [done|]. cbn [collate_batch fst snd].
  rewrite !list_lookup_fmap, Hk. unfold token_count in *.
  split; [done|]. split; [done|].
  rewrite !length_app, !length_replicate, Hm.
  split; [lia|]. split; [lia|]. rewrite take_app_length, drop_app_length.
  rewrite <- Hm at 1. rewrite take_app_length. rewrite <- Hm at 2. rewrite drop_app_length.
  repeat split; apply Forall_replicate; done.
Qed.

(** ** Concrete runs *)

#[export] Instance nat_HasCost : HasCost nat := {| cost := Z.of_nat; original_index := id |}.

Definition demo_config : BatchConfig :=
  BatchConfig_init 10 3 (f_of_Z 15) None (f_of_Z 15) (flit 1 2).
Definition demo_readings : readings := {| t_timeout := f0; t_coalesce := f0 |}.
Definition demo_former : BatchFormer (I := nat) (T := nat) :=
  submit_many demo_config init_former
    [(7, 100, (f0, f0, demo_readings)); (2, 101, (f0, f0, demo_readings));
     (2, 102, (f0, f0, demo_readings)); (5, 103, (f0, f0, demo_readings))]%nat.

(** The greedy cut takes the two cheapest requests and the five, in FIFO order
    among the two equal ones, and leaves the expensive one queued. *)
Example demo_extract :
  fb_metadata (extract_batch demo_config demo_former None).2 = [101; 102; 103]%nat ∧
  fb_total_cost (extract_batch demo_config demo_former None).2 = 9 ∧
  pr_metadata <$> pending (extract_batch demo_config demo_former None).1 = [100]%nat.
Proof. vm_compute. done. Qed.

Lemma extract_batch_conserves_witness :
  former_wf demo_former ∧
  total_cost (extract_batch demo_config demo_former None).1
  = sumZ req_cost (pending (extract_batch demo_config demo_former None).1).
Proof.
  assert (former_wf demo_former) as Hwf by apply submit_many_wf, init_former_wf.
  split; [exact Hwf|]. apply (extract_batch_conserves demo_config demo_former None Hwf).
Defined.

Lemma extract_batch_maximal_witness :
  Z.of_nat (length (take 2 (pending demo_former)))
  <= batch_size (extract_batch demo_config demo_former None).2.
Proof.
  apply (extract_batch_maximal demo_config demo_former None (take 2 (pending demo_former))).
  - intros r _. unfold req_cost, cost. simpl. lia.
  - apply sublist_submseteq, sublist_take.
  - vm_compute. discriminate.
  - vm_compute. discriminate.
  - intros m [=].
Defined.

Lemma get_batch_no_lost_wakeup_witness :
  pending (T := nat) (I := nat) init_former = [].
Proof.
  refine (proj1 (get_batch_no_lost_wakeup (I := nat) (T := nat) _ demo_config false None
            init_former None _ _) _).
  - intros i. unfold cost. simpl. lia.
  - eapply rtc_l; [apply ws_call|].
    eapply rtc_l; [apply (ws_sleep _ _ _ _ demo_readings f0); reflexivity|]. apply rtc_refl.
  - reflexivity.
  - reflexivity.
Defined.

Definition demo_payloads : list TextPayload :=
  [ {| input_ids := [5; 6]; attention_mask := [1; 1] |};
    {| input_ids := [7]; attention_mask := [1] |} ].

Lemma collate_batch_rectangular_witness :
  ∃ row mask, (collate_batch demo_payloads 9).1 !! 1%nat = Some row ∧
    (collate_batch demo_payloads 9).2 !! 1%nat = Some mask ∧ length row = 2%nat.
Proof.
  destruct (collate_batch_rectangular demo_payloads 9 1
              {| input_ids := [7]; attention_mask := [1] |}) as (row & mask & H1 & H2 & H3 & _).
  - intros q Hq. repeat (apply elem_of_cons in Hq as [->|Hq]; [reflexivity|]).
    by apply elem_of_nil in Hq.
  - reflexivity.
  - exists row, mask. done.
Defined.

End Batcher.
