(* ===== verification/GrammarCache.v ===== *)
(** The grammar compile cache: [processors/grammar_cache.py], class [GrammarLRU].

    The implementation keeps an [OrderedDict] whose order is the recency order.
    The specification ([LruSpec]) knows nothing of that order: it stamps every
    entry with the time of its last access and evicts an entry whose stamp is
    minimal.  [grammar_lru_refines] is the simulation between the two.  Each
    method runs under the cache's lock, so calls are atomic. *)

From S2P Require Import Prelude PyDict.

Module GrammarLRU.
Section lru.
Context {K V : Type} `{Countable K}.

Record lru := mkLru { maxsize : nat; data : list (K * V) }.

Inductive error := ValueError.

(** [GrammarLRU.__init__] *)
Definition init (maxsize : Z) : res error lru :=
  if (maxsize <=? 0)%Z then Raise ValueError else Ret (mkLru (Z.to_nat maxsize) []).

(** [GrammarLRU.get] *)
Definition get (c : lru) (k : K) : lru * option V :=
  match dict_get k (data c) with
  | None => (c, None)
  | Some v => (mkLru (maxsize c) (dict_move_to_end k (data c)), Some v)
  end.

(** [GrammarLRU.put] *)
Definition put (c : lru) (k : K) (v : V) : lru :=
  if dict_mem k (data c)
  then mkLru (maxsize c) (dict_move_to_end k (dict_set k v (data c)))
  else
    let d := dict_set k v (data c) in
    mkLru (maxsize c) (if decide (maxsize c < length d) then dict_popitem_first d else d).

(** [GrammarLRU.__len__], [GrammarLRU.clear] *)
Definition size (c : lru) : nat := length (data c).
Definition clear (c : lru) : lru := mkLru (maxsize c) [].

(** ** The specification *)

Record LruSpec := mkSpec { store : gmap K (V * nat); clock : nat }.

(** An access stamps the entry with the current time and advances the clock. *)
Definition spec_access (s : LruSpec) (k : K) (v : V) : LruSpec :=
  mkSpec (<[k := (v, clock s)]> (store s)) (S (clock s)).

Inductive spec_get (k : K) (s : LruSpec) : LruSpec → option V → Prop :=
| spec_get_miss : store s !! k = None → spec_get k s s None
| spec_get_hit v t : store s !! k = Some (v, t) → spec_get k s (spec_access s k v) (Some v).

(** [victim s k]: no entry was used longer ago than [k]. *)
Definition victim (s : LruSpec) (k : K) : Prop :=
  ∃ v t, store s !! k = Some (v, t) ∧
    ∀ k' v' t', store s !! k' = Some (v', t') → t <= t'.

Inductive spec_put (bound : nat) (k : K) (v : V) (s : LruSpec) : LruSpec → Prop :=
| spec_put_room :
    base.size (store (spec_access s k v)) <= bound →
    spec_put bound k v s (spec_access s k v)
| spec_put_evict k0 :
    bound < base.size (store (spec_access s k v)) →
    victim (spec_access s k v) k0 →
    spec_put bound k v s
      (mkSpec (delete k0 (store (spec_access s k v))) (clock (spec_access s k v))).

(** ** The simulation relation *)

Definition stamp (s : LruSpec) (k : K) : nat :=
  match store s !! k with Some (_, t) => t | None => 0 end.

Record sim (c : lru) (s : LruSpec) : Prop := {
  sim_wf : dict_wf (data c);
  sim_get : ∀ k, dict_get k (data c) = fst <$> store s !! k;
  sim_order : StronglySorted (λ k k', stamp s k < stamp s k') (dict_keys (data c));
  sim_clock : ∀ k v t, store s !! k = Some (v, t) → t < clock s;
}.

Lemma sim_size c s : sim c s → base.size (store s) = length (data c).
Proof.
  intros [Hwf Hget _ _]. rewrite <- (map_size_fmap fst).
  replace (fst <$> store s) with (dict_map (data c)).
  - unfold dict_map. rewrite map_size_list_to_map; [done|exact Hwf].
  - apply map_eq. intros k. by rewrite dict_map_lookup, Hget, lookup_fmap.
Qed.

Lemma sim_init m : sim (mkLru m []) (mkSpec ∅ 0).
Proof.
  constructor; simpl.
  - apply NoDup_nil_2.
  - intros k. by rewrite lookup_empty.
  - constructor.
  - intros k v t. by rewrite lookup_empty.
Qed.

Lemma stamp_access_eq s k v : stamp (spec_access s k v) k = clock s.
Proof. unfold stamp, spec_access; simpl. by rewrite lookup_insert_eq. Qed.

Lemma stamp_access_ne s k k' v : k ≠ k' → stamp (spec_access s k v) k' = stamp s k'.
Proof. intros. unfold stamp, spec_access; simpl. by rewrite lookup_insert_ne. Qed.

(** An access, as both [get] and [put] perform it on the dictionary: the key goes
    to the end with the value [v]. *)
Lemma sim_access m d s k v d' :
  sim (mkLru m d) s →
  dict_wf d' →
  (∀ k', dict_get k' d' = if decide (k = k') then Some v else dict_get k' d) →
  dict_keys d' = filter (λ k', k' ≠ k) (dict_keys d) ++ [k] →
  sim (mkLru m d') (spec_access s k v).
Proof.
  intros [Hwf Hget Hord Hclk] Hwf' Hget' Hkeys. simpl in *. constructor; simpl.
  - done.
  - intros k'. rewrite Hget', lookup_insert. case_decide; [done|apply Hget].
  - rewrite Hkeys. apply StronglySorted_app. split; [|split].
    + intros k1 k2 [Hne Hk1]%list_elem_of_filter Hk2%list_elem_of_singleton. subst k2.
      rewrite stamp_access_eq, stamp_access_ne by congruence.
      apply dict_get_is_Some in Hk1 as [v1 Hv1]. rewrite Hget in Hv1. unfold stamp.
      destruct (store s !! k1) as [[v2 t2]|] eqn:E; [|done]. by eapply Hclk.
    + clear Hkeys. induction Hord as [|k1 l Hl IH Hall]; [constructor|].
      rewrite filter_cons. case_decide as Hne; [|done]. constructor; [done|].
      rewrite Forall_forall in *. intros k2 [Hne2 Hk2]%list_elem_of_filter.
      rewrite !stamp_access_ne by congruence. auto.
    + repeat constructor.
  - intros k1 v1 t1. rewrite lookup_insert. case_decide; intros ?; simplify_eq; [lia|].
    assert (t1 < clock s) by by eapply Hclk. lia.
Qed.

(** Dropping the head of the dictionary evicts a least recently used entry. *)
Lemma sim_evict m k0 v0 d s :
  sim (mkLru m ((k0, v0) :: d)) s →
  victim s k0 ∧ sim (mkLru m d) (mkSpec (delete k0 (store s)) (clock s)).
Proof.
  intros [Hwf Hget Hord Hclk]. simpl in *. unfold dict_wf in *. simpl in *.
  apply NoDup_cons in Hwf as [Hk0 Hwf]. inversion Hord as [|? ? Hs Hall]; subst.
  assert (∀ k', k' ≠ k0 → stamp (mkSpec (delete k0 (store s)) (clock s)) k' = stamp s k') as Hst.
  { intros k' Hne. unfold stamp; simpl. by rewrite lookup_delete_ne. }
  split.
  - pose proof (Hget k0) as Hg. rewrite decide_True in Hg by done.
    destruct (store s !! k0) as [[v t]|] eqn:E; [|done]. exists v, t. split; [done|].
    intros k' v' t' E'. destruct (decide (k' = k0)) as [->|Hne]; [simplify_eq; lia|].
    pose proof (Hget k') as Hg'. rewrite decide_False, E' in Hg' by done.
    assert (k' ∈ dict_keys d) as Hin by (apply dict_get_is_Some; eauto).
    rewrite Forall_forall in Hall. specialize (Hall k' Hin). unfold stamp in Hall.
    rewrite E, E' in Hall. lia.
  - constructor; simpl.
    + done.
    + intros k'. destruct (decide (k' = k0)) as [->|Hne].
      * rewrite lookup_delete_eq. by apply dict_get_None.
      * rewrite lookup_delete_ne by done. rewrite <- Hget. by rewrite decide_False.
    + clear Hall Hwf Hget Hord. induction Hs as [|k1 l Hl IH Hf]; [constructor|].
      apply not_elem_of_cons in Hk0 as [? ?]. constructor; [auto|].
      rewrite Forall_forall in *. intros k2 Hk2. rewrite !Hst; [auto|set_solver|done].
    + intros k v t [_ ?]%lookup_delete_Some. eauto.
Qed.

Lemma get_sim c s k :
  sim c s → ∃ s', spec_get k s s' (get c k).2 ∧ sim (get c k).1 s'.
Proof.
  intros Hsim. destruct c as [m d]. pose proof (sim_get _ _ Hsim k) as Hg. unfold get. simpl in *.
  destruct (store s !! k) as [[v t]|] eqn:E; rewrite Hg; simpl.
  - exists (spec_access s k v). split; [by econstructor|].
    pose proof (sim_wf _ _ Hsim) as Hwf. simpl in Hwf.
    eapply sim_access; [done|by apply dict_move_to_end_wf| |].
    + intros k'. rewrite dict_get_move_to_end by done. case_decide; [by subst|done].
    + apply dict_keys_move_to_end; [done|]. apply dict_get_is_Some. eauto.
  - exists s. split; [by constructor|done].
Qed.

Lemma put_sim c s k v :
  0 < maxsize c → sim c s → size c <= maxsize c →
  ∃ s', spec_put (maxsize c) k v s s' ∧ sim (put c k v) s' ∧ size (put c k v) <= maxsize c.
Proof.
  intros Hm Hsim Hle. destruct c as [m d]. simpl in *. pose proof (sim_wf _ _ Hsim) as Hwf.
  simpl in Hwf. unfold put, size in *. simpl in *.
  destruct (dict_mem k d) eqn:Ek; simpl.
  - apply dict_mem_true in Ek.
    assert (sim (mkLru m (dict_move_to_end k (dict_set k v d))) (spec_access s k v)) as Hsim'.
    { eapply sim_access; [done|by apply dict_move_to_end_wf, dict_set_wf| |].
      - intros k'. rewrite dict_get_move_to_end by by apply dict_set_wf. apply dict_get_set.
      - rewrite dict_keys_move_to_end, dict_keys_set; [by rewrite decide_True by done|
          by apply dict_set_wf|]. rewrite dict_keys_set. by case_decide. }
    assert (length (dict_move_to_end k (dict_set k v d)) <= m) as Hlen.
    { rewrite length_dict_move_to_end, length_dict_set. by rewrite decide_True. }
    exists (spec_access s k v). split; [|done]. constructor. by rewrite (sim_size _ _ Hsim').
  - apply dict_mem_false in Ek.
    assert (sim (mkLru m (dict_set k v d)) (spec_access s k v)) as Hsim'.
    { eapply sim_access; [done|by apply dict_set_wf|intros; apply dict_get_set|].
      rewrite dict_keys_set, decide_False, filter_ne_id by done. done. }
    pose proof (sim_size _ _ Hsim') as Hsz. simpl in Hsz.
    assert (length (dict_set k v d) = S (length d)) as Hl
      by (rewrite length_dict_set; by rewrite decide_False).
    destruct (decide (m < length (dict_set k v d))) as [Hlt|Hge].
    + destruct (dict_set k v d) as [|[k0 v0] d'] eqn:Ed; [simpl in *; lia|].
      apply sim_evict in Hsim' as [Hv Hs']. simpl in *. eexists.
      split; [|split; [exact Hs'|lia]]. eapply spec_put_evict; [simpl in *; lia|done].
    + exists (spec_access s k v). split; [apply spec_put_room; simpl; lia|]. split; [done|lia].
Qed.

(** ** Runs of the cache *)

Inductive op := Get (k : K) | Put (k : K) (v : V) | Clear.

(** What a call returns; [put] and [clear] return nothing. *)
Definition run_op (c : lru) (o : op) : lru * option V :=
  match o with
  | Get k => get c k
  | Put k v => (put c k v, None)
  | Clear => (clear c, None)
  end.

Fixpoint run (c : lru) (ops : list op) : lru * list (option V) :=
  match ops with
  | [] => (c, [])
  | o :: ops => let '(c, r) := run_op c o in let '(c, rs) := run c ops in (c, r :: rs)
  end.

Inductive spec_op (bound : nat) : op → LruSpec → LruSpec → option V → Prop :=
| so_get k s s' r : spec_get k s s' r → spec_op bound (Get k) s s' r
| so_put k v s s' : spec_put bound k v s s' → spec_op bound (Put k v) s s' None
| so_clear s : spec_op bound Clear s (mkSpec ∅ (clock s)) None.

Inductive spec_run (bound : nat) : list op → LruSpec → LruSpec → list (option V) → Prop :=
| sr_nil s : spec_run bound [] s s []
| sr_cons o ops s s' s'' r rs :
    spec_op bound o s s' r → spec_run bound ops s' s'' rs → spec_run bound (o :: ops) s s'' (r :: rs).

Lemma run_op_sim c s o :
  0 < maxsize c → sim c s → size c <= maxsize c →
  ∃ s', spec_op (maxsize c) o s s' (run_op c o).2 ∧ sim (run_op c o).1 s' ∧ size (run_op c o).1 <= maxsize c ∧
    maxsize (run_op c o).1 = maxsize c.
Proof.
  intros Hm Hsim Hle. destruct o as [k|k v|]; simpl.
  - destruct (get_sim c s k Hsim) as (s' & Hs & Hsim').
    exists s'. split; [by econstructor|]. split; [done|].
    unfold get, size in *. destruct (dict_get k (data c)); simpl; [|done].
    by rewrite length_dict_move_to_end.
  - destruct (put_sim c s k v Hm Hsim Hle) as (s' & Hs & Hsim' & Hle').
    exists s'. split; [by constructor|]. split; [done|]. split; [done|].
    unfold put. by destruct (dict_mem _ _).
  - exists (mkSpec ∅ (clock s)). split; [constructor|].
    split; [|split; [unfold size; simpl; lia|done]].
    destruct (sim_init (maxsize c)) as [H1 H2 H3 H4]. constructor; try done.
Qed.

(** C36 — the cache implements its specification.  Every sequence of [get], [put] and
    [clear] calls on a fresh cache of positive size is matched by a run of the
    timestamp specification that returns the same results: a lookup returns the value
    stored under its key, or nothing when there is none; each eviction removes a least
    recently used entry, a lookup that finds its key counting as a use, and the number of
    entries never exceeds [maxsize]. *)
Theorem grammar_lru_refines (m : Z) (c0 : lru) (ops : list op) :
  init m = Ret c0 →
  ∃ s, spec_run (Z.to_nat m) ops (mkSpec ∅ 0) s (run c0 ops).2 ∧
    sim (run c0 ops).1 s ∧ size (run c0 ops).1 <= Z.to_nat m.
Proof.
  unfold init. destruct (m <=? 0)%Z eqn:E; [done|]. intros [= <-].
  assert (∀ c s, maxsize c = Z.to_nat m → sim c s → size c <= maxsize c →
    ∃ s', spec_run (Z.to_nat m) ops s s' (run c ops).2 ∧ sim (run c ops).1 s' ∧
      size (run c ops).1 <= Z.to_nat m) as Hgen.
  { induction ops as [|o ops IH]; intros c s Hmax Hsim Hle; simpl.
    - exists s. split; [constructor|]. split; [done|lia].
    - destruct (run_op_sim c s o) as (s1 & Ho & Hsim1 & Hle1 & Hm1); [lia|done..|].
      destruct (run_op c o) as [c1 r]. simpl in *.
      destruct (IH c1 s1) as (s2 & Hr & Hsim2 & Hle2); [lia|done|lia|]. destruct (run c1 ops) as [c2 rs].
      exists s2. split; [|done]. rewrite <- Hmax in *. econstructor; eauto. }
  apply Hgen; [done|apply sim_init|simpl; unfold size; simpl; lia].
Qed.

(** Insert/lookup.  A value just inserted is found, and a lookup does not change
    what any other lookup returns. *)
Theorem grammar_lru_get_put (c : lru) (k k' : K) (v : V) :
  dict_wf (data c) → 0 < maxsize c → size c <= maxsize c →
  (get (put c k v) k).2 = Some v ∧ (get (get c k').1 k).2 = (get c k).2.
Proof.
  intros Hwf Hm Hle. split.
  - assert (dict_get k (data (put c k v)) = Some v) as Hg.
    { unfold put, size in *. destruct (dict_mem k (data c)) eqn:E; simpl.
      - rewrite dict_get_move_to_end by by apply dict_set_wf.
        by rewrite dict_get_set, decide_True.
      - apply dict_mem_false in E. case_decide as Hlen; [|by rewrite dict_get_set, decide_True].
        rewrite dict_set_fresh in * by done. rewrite length_app in Hlen.
        destruct (data c) as [|[k0 v0] d] eqn:Ed; simpl in *; [lia|].
        apply not_elem_of_cons in E as [_ E].
        rewrite <- dict_set_fresh by done. by rewrite dict_get_set, decide_True. }
    unfold get. by rewrite Hg.
  - assert (dict_get k (data (get c k').1) = dict_get k (data c)) as Hg.
    { unfold get. destruct (dict_get k' (data c)); simpl; [|done]. by apply dict_get_move_to_end. }
    unfold get at 1 3. rewrite Hg. by destruct (dict_get k (data c)).
Qed.

End lru.

(** ** Concrete runs *)

Definition demo_cache : lru (K := string) (V := nat) := mkLru 2 [].
Definition demo_ops : list (op (K := string) (V := nat)) :=
  [Put "a" 1; Put "b" 2; Get "a"; Put "c" 3; Get "b"].

(** ["b"] is the least recently used key when the third is inserted. *)
Example demo_run :
  dict_keys (data (run demo_cache demo_ops).1) = ["a"; "c"]%string ∧ (run demo_cache demo_ops).2 = [None; None; Some 1; None; None].
Proof. split; reflexivity. Qed.

Lemma grammar_lru_refines_witness :
  ∃ s, spec_run 2 demo_ops (mkSpec ∅ 0) s [None; None; Some 1; None; None] ∧ sim (run demo_cache demo_ops).1 s.
Proof.
  destruct (grammar_lru_refines 2 demo_cache demo_ops eq_refl) as (s & H1 & H2 & _).
  exists s. exact (conj H1 H2).
Defined.

Lemma grammar_lru_get_put_witness :
  (get (put demo_cache "k" 5) "k").2 = Some 5.
Proof.
  apply (grammar_lru_get_put demo_cache "k" "k" 5).
  - apply NoDup_nil_2.
  - simpl. lia.
  - unfold size. simpl. lia.
Defined.

End GrammarLRU.
