(* ===== verification/Memory.v ===== *)
(** Memory management: [core/memory.py].

    [MemoryManager] keeps the loaded models in an [OrderedDict] whose order is the
    LRU order, and decides about eviction from device statistics.  The device
    query of the CUDA, MPS and CPU trackers (torch, psutil) is outside the source:
    its reading is an argument.  The synthetic tracker of the fake engine is a
    function of the registered models and is modelled as it is. *)

From S2P Require Import Prelude PyFloat PyDict.
Local Open Scope Z_scope.

Module Memory.

Inductive device_kind := cuda | mps | cpu | synthetic.

Record MemoryStats := mkStats {
  used_bytes : Z;
  total_bytes : Z;
  device_type : device_kind;
}.

(** [MemoryStats.usage_ratio] *)
Definition usage_ratio (s : MemoryStats) : float :=
  if total_bytes s =? 0 then f0 else int_truediv (used_bytes s) (total_bytes s).

(** [MemoryStats.available_bytes] *)
Definition available_bytes (s : MemoryStats) : Z := Z.max 0 (total_bytes s - used_bytes s).

(** ** Device trackers *)

(** [CUDAMemoryTracker.get_stats]: [mem_get_info] returns (free, total). *)
Definition cuda_get_stats (is_available : bool) (mem_get_info : Z * Z) : MemoryStats :=
  if is_available
  then mkStats (mem_get_info.2 - mem_get_info.1) mem_get_info.2 cuda
  else mkStats 0 0 cuda.

(** [MPSMemoryTracker.get_stats]: [recommended] is [None] when torch has no callable
    [recommended_max_memory], [Some None] when the call raises; [psutil_total] is
    [None] when psutil is not installed. *)
Definition mps_get_stats (is_available : bool) (allocated : Z)
    (recommended : option (option Z)) (psutil_total : option Z) : MemoryStats :=
  if is_available then
    let total := match recommended with
                 | Some (Some r) => r
                 | Some None => 0
                 | None => 0
                 end in
    let total' := if total =? 0
                  then match psutil_total with Some t => t | None => 32 * 1024 ^ 3 end
                  else total in
    mkStats allocated total' mps
  else mkStats 0 0 mps.

(** [CPUMemoryTracker.get_stats]: [virtual_memory] is (used, total). *)
Definition cpu_get_stats (virtual_memory : option (Z * Z)) : MemoryStats :=
  match virtual_memory with
  | Some (u, t) => mkStats u t cpu
  | None => mkStats 0 0 cpu
  end.

(** The tracker a manager holds: the synthetic one with its budget, or a device. *)
Inductive tracker := Synthetic (budget : Z) | Device.

Inductive error := ValueError.

(** [SyntheticMemoryTracker.__init__] *)
Definition synthetic_init (budget : Z) : res error tracker :=
  if budget <=? 0 then Raise ValueError else Ret (Synthetic budget).

(** ** The manager *)

Record ModelMemoryInfo := mkInfo {
  model_name : string;
  info_device : string;
  loaded_at : float;
  last_used_at : float;
  estimated_bytes : option Z;
}.

Record MemoryConfig := mkMemConfig {
  pressure_threshold : float;
  min_free_bytes : option Z;
  memory_check_interval_s : float;
}.

Definition default_memory_config : MemoryConfig := mkMemConfig (flit 95 100) None f1.

Record MemoryManager := mkManager {
  mm_device : string;
  mm_config : MemoryConfig;
  models : list (string * ModelMemoryInfo);    (* the OrderedDict, oldest first *)
  mm_tracker : tracker;
}.

Definition with_models (mm : MemoryManager) (d : list (string * ModelMemoryInfo)) : MemoryManager :=
  mkManager (mm_device mm) (mm_config mm) d (mm_tracker mm).

(** [loaded_models] *)
Definition loaded_models (mm : MemoryManager) : list string := dict_keys (models mm).

(** [_declared_used_bytes] *)
Definition declared_used_bytes (mm : MemoryManager) : Z :=
  sumZ (λ info, match estimated_bytes info with Some n => n | None => 0 end)
       (dict_values (models mm)).

(** [MemoryManager.get_stats]; [reading] is what the device tracker reports. *)
Definition get_stats (mm : MemoryManager) (reading : MemoryStats) : MemoryStats :=
  match mm_tracker mm with
  | Synthetic budget => mkStats (declared_used_bytes mm) budget synthetic
  | Device => reading
  end.

(** [register_model]; [t1] and [t2] are the readings of the two default factories. *)
Definition register_model (mm : MemoryManager) (name : string) (est : option Z)
    (t1 t2 : float) : MemoryManager :=
  let info := mkInfo name (mm_device mm) t1 t2 est in
  with_models mm (dict_move_to_end name (dict_set name info (models mm))).

(** [unregister_model] *)
Definition unregister_model (mm : MemoryManager) (name : string) : MemoryManager :=
  if dict_mem name (models mm) then with_models mm (dict_del name (models mm)) else mm.

(** [ModelMemoryInfo.touch] *)
Definition touch_info (info : ModelMemoryInfo) (now : float) : ModelMemoryInfo :=
  mkInfo (model_name info) (info_device info) (loaded_at info) now (estimated_bytes info).

(** [MemoryManager.touch] *)
Definition touch (mm : MemoryManager) (name : string) (now : float) : MemoryManager :=
  match dict_get name (models mm) with
  | Some info => with_models mm
      (dict_move_to_end name (dict_set name (touch_info info now) (models mm)))
  | None => mm
  end.

(** [check_pressure] *)
Definition check_pressure (mm : MemoryManager) (reading : MemoryStats) : bool :=
  let stats := get_stats mm reading in
  if flt (pressure_threshold (mm_config mm)) (usage_ratio stats) then true
  else match min_free_bytes (mm_config mm) with
       | Some m => available_bytes stats <? m
       | None => false
       end.

Definition excluded (exclude : list string) (name : string) : bool :=
  bool_decide (lower name ∈ exclude).

(** [get_lru_model] *)
Fixpoint first_not_excluded (exclude : list string) (names : list string) : option string :=
  match names with
  | [] => None
  | n :: ns => if excluded exclude n then first_not_excluded exclude ns else Some n
  end.

Definition get_lru_model (mm : MemoryManager) (exclude : list string) : option string :=
  first_not_excluded exclude (loaded_models mm).

(** [get_idle_models]; [ref] is [now] or the clock reading. *)
Definition get_idle_models (mm : MemoryManager) (idle_threshold_s ref : float)
    (exclude : list string) : res error (list string) :=
  if flt idle_threshold_s f0 then Raise ValueError
  else
    let idle := omap (λ '(name, info),
        if excluded exclude name then None
        else if fle idle_threshold_s (fsub ref (last_used_at info))
        then Some (last_used_at info, name) else None) (models mm) in
    Ret (snd <$> stable_sort (λ p q : float * string, negb (flt q.1 p.1)) idle).

(** [should_evict_for_load] *)
Definition should_evict_for_load (mm : MemoryManager) (reading reading' : MemoryStats)
    (required_bytes : option Z) : bool :=
  let stats := get_stats mm reading in
  if check_pressure mm reading' then true
  else match required_bytes with
       | Some r => available_bytes stats <? r
       | None => false
       end.

(** ** The LRU order against the history of calls *)

Definition init_manager (device : string) (cfg : MemoryConfig) (t : tracker) : MemoryManager :=
  mkManager device cfg [] t.

(** The calls that change a manager, with the clock readings they make. *)
Inductive event :=
| Register (name : string) (est : option Z) (t1 t2 : float)
| Unregister (name : string)
| Touch (name : string) (now : float).

Definition run_event (e : event) (mm : MemoryManager) : MemoryManager :=
  match e with
  | Register n est t1 t2 => register_model mm n est t1 t2
  | Unregister n => unregister_model mm n
  | Touch n now => touch mm n now
  end.

(** A history is a list of calls, the latest first. *)
Definition run_history (mm0 : MemoryManager) (h : list event) : MemoryManager :=
  foldr run_event mm0 h.

(** A model is live when it was registered after it was last unregistered. *)
Fixpoint live (h : list event) (k : string) : bool :=
  match h with
  | [] => false
  | Register n _ _ _ :: h' => bool_decide (n = k) || live h' k
  | Unregister n :: h' => negb (bool_decide (n = k)) && live h' k
  | Touch _ _ :: h' => live h' k
  end.

(** The position in the history of the last registration or use of a model. *)
Fixpoint last_access (h : list event) (k : string) : nat :=
  match h with
  | [] => 0
  | Register n _ _ _ :: h' | Touch n _ :: h' =>
      if bool_decide (n = k) then length h else last_access h' k
  | Unregister _ :: h' => last_access h' k
  end.

Lemma last_access_le h k : (last_access h k <= length h)%nat.
Proof.
  induction h as [|[n est t1 t2|n|n now] h IH]; simpl; [lia| | |];
    try case_bool_decide; lia.
Qed.

Record lru_inv (h : list event) (mm : MemoryManager) : Prop := {
  li_wf : dict_wf (models mm);
  li_live : ∀ k, k ∈ loaded_models mm ↔ live h k = true;
  li_order : StronglySorted (λ a b, (last_access h a < last_access h b)%nat) (loaded_models mm);
}.

Lemma sorted_filter {A} (R : A → A → Prop) (P : A → Prop) `{∀ x, Decision (P x)} l :
  StronglySorted R l → StronglySorted R (filter P l).
Proof.
  induction 1 as [|x l Hs IH Hx]; [constructor|]. rewrite filter_cons.
  case_decide; [|done]. constructor; [done|]. rewrite Forall_forall in *.
  intros y [_ Hy]%list_elem_of_filter. auto.
Qed.

Lemma sorted_ext {A} (R R' : A → A → Prop) l :
  (∀ x y, x ∈ l → y ∈ l → R x y → R' x y) → StronglySorted R l → StronglySorted R' l.
Proof.
  intros HR Hs. induction Hs as [|x l Hs IH Hx]; constructor.
  - apply IH. intros; apply HR; auto; by right.
  - rewrite Forall_forall in *. intros y Hy. apply HR; [by left|by right|auto].
Qed.

(** Moving a live model to the end records an access to it. *)
Lemma lru_access_order h k e (l : list string) :
  StronglySorted (λ a b, (last_access h a < last_access h b)%nat) l →
  (∀ k', last_access (e :: h) k' = if bool_decide (k = k') then S (length h) else last_access h k') →
  StronglySorted (λ a b, (last_access (e :: h) a < last_access (e :: h) b)%nat)
    (filter (λ k' : string, k' ≠ k) l ++ [k]).
Proof.
  intros Hs Hla. apply StronglySorted_app. split; [|split].
  - intros a b [Ha _]%list_elem_of_filter ->%list_elem_of_singleton. rewrite !Hla.
    rewrite bool_decide_false, bool_decide_true by congruence.
    pose proof (last_access_le h a). lia.
  - eapply sorted_ext; [|apply sorted_filter, Hs].
    intros a b [Ha _]%list_elem_of_filter [Hb _]%list_elem_of_filter Hlt. simpl in Hlt.
    rewrite !Hla, !bool_decide_false by congruence. done.
  - repeat constructor.
Qed.

Lemma lru_inv_register h mm n est t1 t2 :
  lru_inv h mm → lru_inv (Register n est t1 t2 :: h) (register_model mm n est t1 t2).
Proof.
  intros [Hwf Hlive Hord]. unfold register_model.
  constructor; unfold loaded_models in *; cbn [models with_models].
  - auto with sie.
  - intros k. rewrite dict_keys_set_move by done. cbn [live].
    rewrite elem_of_app, list_elem_of_filter, list_elem_of_singleton, Hlive.
    case_bool_decide; naive_solver.
  - rewrite dict_keys_set_move by done. by apply lru_access_order.
Qed.

Lemma lru_inv_unregister h mm n :
  lru_inv h mm → lru_inv (Unregister n :: h) (unregister_model mm n).
Proof.
  intros [Hwf Hlive Hord]. unfold unregister_model.
  destruct (dict_mem n (models mm)) eqn:E.
  - assert (∀ k, k ∈ dict_keys (dict_del n (models mm)) ↔ k ≠ n ∧ k ∈ dict_keys (models mm)) as Hk.
    { intros k. rewrite <- !dict_get_is_Some, dict_get_del by done. case_decide; naive_solver. }
    constructor; unfold loaded_models in *; cbn [models with_models].
    + auto with sie.
    + intros k. rewrite Hk, Hlive. cbn [live]. case_bool_decide; naive_solver.
    + rewrite dict_keys_del by done. by apply sorted_filter.
  - apply dict_mem_false in E. constructor; [done| |done].
    intros k. cbn [live]. rewrite Hlive. unfold loaded_models in *. case_bool_decide; [|done].
    subst. split; [|done]. intros Hl. apply Hlive in Hl. done.
Qed.

Lemma lru_inv_touch h mm n now :
  lru_inv h mm → lru_inv (Touch n now :: h) (touch mm n now).
Proof.
  intros [Hwf Hlive Hord]. unfold touch.
  destruct (dict_get n (models mm)) as [info|] eqn:E.
  - assert (n ∈ dict_keys (models mm)) by (apply dict_get_is_Some; eauto).
    constructor; unfold loaded_models in *; cbn [models with_models].
    + auto with sie.
    + intros k. rewrite dict_keys_set_move by done. cbn [live].
      rewrite <- Hlive, elem_of_app, list_elem_of_filter, list_elem_of_singleton.
      destruct (decide (k = n)); naive_solver.
    + rewrite dict_keys_set_move by done. by apply lru_access_order.
  - apply dict_get_None in E. constructor; [done|done|].
    eapply sorted_ext; [|exact Hord]. intros a b Ha Hb Hlt. simpl in *.
    unfold loaded_models in *. rewrite !bool_decide_false by (intros ->; done). done.
Qed.

Lemma lru_inv_history device cfg t h : lru_inv h (run_history (init_manager device cfg t) h).
Proof.
  induction h as [|e h IH]; simpl.
  - constructor; simpl; [apply NoDup_nil_2| |constructor].
    intros k. unfold loaded_models. simpl. set_solver.
  - destruct e; simpl; auto using lru_inv_register, lru_inv_unregister, lru_inv_touch.
Qed.

Lemma first_not_excluded_Some ex l k :
  first_not_excluded ex l = Some k →
  ∃ l1 l2, l = l1 ++ k :: l2 ∧ excluded ex k = false ∧ Forall (λ n, excluded ex n = true) l1.
Proof.
  induction l as [|n l IH]; simpl; [done|]. destruct (excluded ex n) eqn:E.
  - intros H. destruct (IH H) as (l1 & l2 & -> & ? & ?). exists (n :: l1), l2.
    split; [done|]. split; [done|]. by constructor.
  - intros [= ->]. exists [], l. split; [done|]. split; [done|constructor].
Qed.

Lemma first_not_excluded_None ex l k :
  first_not_excluded ex l = None → k ∈ l → excluded ex k = true.
Proof.
  induction l as [|n l IH]; simpl; [set_solver|]. destruct (excluded ex n) eqn:E; [|done].
  intros H [->|Hk]%elem_of_cons; auto.
Qed.

(** The eviction victim.  After any history of registrations, uses and
    unregistrations, [get_lru_model] names a model that is live and not excluded
    and that was registered or used no later than any other live model that is
    not excluded; it returns [None] exactly when every live model is excluded. *)
Theorem get_lru_model_victim device cfg t h exclude :
  let mm := run_history (init_manager device cfg t) h in
  match get_lru_model mm exclude with
  | Some k => live h k = true ∧ excluded exclude k = false ∧
      ∀ k', live h k' = true → excluded exclude k' = false →
        (last_access h k <= last_access h k')%nat
  | None => ∀ k', live h k' = true → excluded exclude k' = true
  end.
Proof.
  intros mm. destruct (lru_inv_history device cfg t h) as [Hwf Hlive Hord]. fold mm in Hwf, Hlive, Hord.
  unfold get_lru_model. destruct (first_not_excluded exclude (loaded_models mm)) as [k|] eqn:E.
  - apply first_not_excluded_Some in E as (l1 & l2 & El & Hk & Hl1).
    split; [apply Hlive; rewrite El; set_solver|]. split; [done|].
    intros k' Hk'%Hlive Hex. rewrite El in Hk', Hord.
    apply elem_of_app in Hk' as [Hk'|[->|Hk']%elem_of_cons]; [|done|].
    + rewrite Forall_forall in Hl1. specialize (Hl1 _ Hk'). congruence.
    + apply StronglySorted_app in Hord as (_ & _ & Hord).
      inversion Hord as [|? ? _ Hall]; subst. rewrite Forall_forall in Hall.
      specialize (Hall _ Hk'). simpl in Hall. lia.
  - intros k' Hk'%Hlive. by eapply first_not_excluded_None.
Qed.

(** ** Idle models under a monotonic clock *)

(** The reading a call stores in [last_used_at], if it stores one. *)
Definition event_time (e : event) : option float :=
  match e with
  | Register _ _ _ t2 => Some t2
  | Touch _ now => Some now
  | Unregister _ => None
  end.

(** The readings of a history never decrease ([time.monotonic]) and are numbers. *)
Definition clock_monotonic (h : list event) : Prop :=
  StronglySorted (λ newer older, fle older newer = true) (omap event_time h) ∧
  Forall (λ t, is_nan t = false) (omap event_time h).

Record idle_inv (times : list float) (mm : MemoryManager) : Prop := {
  ii_sorted : StronglySorted (λ i j, fle (last_used_at i) (last_used_at j) = true)
                (dict_values (models mm));
  ii_known : ∀ i, i ∈ dict_values (models mm) → last_used_at i ∈ times;
}.

Lemma dict_values_del_sub (n : string) (d : list (string * ModelMemoryInfo)) :
  dict_values (dict_del n d) `sublist_of` dict_values d.
Proof.
  induction d as [|[k v] d IH]; simpl; [constructor|].
  case_decide; [by constructor|]. simpl. by constructor.
Qed.

Lemma elem_of_sublist {A} (x : A) l l' : x ∈ l → sublist l l' → x ∈ l'.
Proof. intros Hx Hsub. eapply elem_of_submseteq; [exact Hx|]. by apply sublist_submseteq. Qed.

Lemma sublist_sorted {A} (R : A → A → Prop) l l' :
  sublist l l' → StronglySorted R l' → StronglySorted R l.
Proof.
  induction 1 as [|x l l' Hsub IH|x l l' Hsub IH]; inversion 1; subst; [constructor| |auto].
  constructor; [auto|]. rewrite Forall_forall in *. intros y Hy.
  eauto using elem_of_sublist.
Qed.

(** Storing a reading that is not older than any known one, at the end. *)
Lemma idle_inv_access times mm n info now :
  dict_wf (models mm) → idle_inv times mm → last_used_at info = now →
  is_nan now = false → (∀ t, t ∈ times → fle t now = true) →
  idle_inv (now :: times) (with_models mm (dict_move_to_end n (dict_set n info (models mm)))).
Proof.
  intros Hwf [Hs Hk] Hinfo Hnan Hle. pose proof (dict_values_del_sub n (models mm)) as Hsub.
  constructor; cbn [models with_models]; rewrite dict_set_move_entries by done;
    unfold dict_values in *; rewrite fmap_app.
  - apply StronglySorted_app. split; [|split; [by eapply sublist_sorted|repeat constructor]].
    intros i j Hi ->%list_elem_of_singleton. cbn. rewrite Hinfo. apply Hle, Hk.
    by eapply elem_of_sublist.
  - intros i [Hi| ->%list_elem_of_singleton]%elem_of_app; [right|cbn; rewrite Hinfo; by left].
    apply Hk. by eapply elem_of_sublist.
Qed.

Lemma idle_inv_history device cfg t h :
  clock_monotonic h → idle_inv (omap event_time h) (run_history (init_manager device cfg t) h).
Proof.
  induction h as [|e h IH]; intros [Hs Hn].
  { constructor; simpl; [constructor|set_solver]. }
  pose proof (li_wf _ _ (lru_inv_history device cfg t h)) as Hwf.
  destruct e as [n est t1 t2|n|n now]; cbn [omap list_omap event_time run_history foldr run_event] in *.
  - inversion Hs as [|? ? Hs' Hall]; subst. inversion Hn as [|? ? Hn1 Hn']; subst.
    rewrite Forall_forall in Hall. apply idle_inv_access; auto. by apply IH.
  - specialize (IH (conj Hs Hn)). unfold unregister_model. fold (run_history (init_manager device cfg t) h).
    destruct (dict_mem _ _); [|done]. destruct IH as [Hs1 Hk1].
    pose proof (dict_values_del_sub n (models (run_history (init_manager device cfg t) h))).
    constructor; cbn [models with_models]; [by eapply sublist_sorted|].
    intros i Hi. apply Hk1. by eapply elem_of_sublist.
  - inversion Hs as [|? ? Hs' Hall]; subst. inversion Hn as [|? ? Hn1 Hn']; subst.
    specialize (IH (conj Hs' Hn')). rewrite Forall_forall in Hall. unfold touch.
    fold (run_history (init_manager device cfg t) h).
    destruct (dict_get n (models (run_history (init_manager device cfg t) h))) as [info|].
    + by apply idle_inv_access.
    + destruct IH as [Hs1 Hk1]. constructor; [done|]. intros i Hi. right. auto.
Qed.

(** The test [get_idle_models] applies to one entry. *)
Definition is_idle (thr ref : float) (exclude : list string) (e : string * ModelMemoryInfo) : bool :=
  negb (excluded exclude e.1) && fle thr (fsub ref (last_used_at e.2)).

(** Idle models come out in eviction order.  Under a monotonic clock the sort by
    [last_used_at] of [get_idle_models] never reorders: the result is exactly the
    LRU order of the loaded models restricted to those that are idle and not
    excluded, so the longest idle model leads and the idle evictor and the pressure
    evictor agree on who goes first. *)
Theorem get_idle_models_lru_order device cfg t h thr ref exclude :
  clock_monotonic h → flt thr f0 = false →
  let mm := run_history (init_manager device cfg t) h in
  get_idle_models mm thr ref exclude
  = Ret (fst <$> List.filter (is_idle thr ref exclude) (models mm)).
Proof.
  intros Hclk Hthr mm. unfold get_idle_models. rewrite Hthr. f_equal.
  destruct (idle_inv_history device cfg t h Hclk) as [Hs _]. fold mm in Hs.
  assert (∀ d : list (string * ModelMemoryInfo), omap (λ '(name, info),
      if excluded exclude name then None
      else if fle thr (fsub ref (last_used_at info)) then Some (last_used_at info, name) else None) d
    = (λ e, (last_used_at e.2, e.1)) <$> List.filter (is_idle thr ref exclude) d) as Hom.
  { induction d as [|[n i] d IH]; [done|]. cbn [omap list_omap List.filter]. unfold is_idle at 1. simpl.
    destruct (excluded exclude n); simpl; [exact IH|].
    destruct (fle thr _); simpl; [by f_equal|exact IH]. }
  rewrite Hom, stable_sort_sorted_id.
  - rewrite <- list_fmap_compose. done.
  - apply (StronglySorted_fmap _ (λ e e', fle (last_used_at e.2) (last_used_at e'.2) = true)).
    + intros [n i] [n' i'] Hle. simpl in *. apply negb_true_iff.
      destruct (fle_not_nan _ _ Hle). by apply flt_false_fle.
    + assert (StronglySorted (λ e e' : string * ModelMemoryInfo,
        fle (last_used_at e.2) (last_used_at e'.2) = true) (models mm)) as Hs'.
      { clear -Hs. unfold dict_values in Hs. induction (models mm) as [|[n i] d IH]; [constructor|].
        inversion Hs as [|? ? Hs1 Hall]; subst. constructor; [by apply IH|].
        apply Forall_forall. intros [n' i'] He. rewrite Forall_forall in Hall. apply (Hall i').
        apply (list_elem_of_fmap snd). by exists (n', i'). }
      eapply sublist_sorted; [|exact Hs']. clear. induction (models mm) as [|e d IH]; [constructor|].
      simpl. destruct (is_idle _ _ _ _); by constructor.
Qed.

(** ** Admission against the synthetic budget *)

Lemma declared_used_register mm name est t1 t2 :
  dict_wf (models mm) → name ∉ loaded_models mm →
  declared_used_bytes (register_model mm name est t1 t2)
  = declared_used_bytes mm + match est with Some n => n | None => 0 end.
Proof.
  intros Hwf Hn. unfold declared_used_bytes, register_model. cbn [models with_models].
  rewrite dict_set_move_entries, dict_del_absent by done.
  unfold dict_values. rewrite fmap_app, sumZ_app. cbn. rewrite sumZ_cons, sumZ_nil. cbn. lia.
Qed.

(** No over-commitment.  On the synthetic tracker, when [should_evict_for_load]
    says that no eviction is needed for a load of [r] bytes, registering the new
    model with that footprint keeps the sum of the declared footprints of all
    registered models within the budget. *)
Theorem should_evict_for_load_sound mm budget name r reading reading' t1 t2 :
  dict_wf (models mm) → name ∉ loaded_models mm →
  mm_tracker mm = Synthetic budget → 0 < r →
  should_evict_for_load mm reading reading' (Some r) = false →
  declared_used_bytes (register_model mm name (Some r) t1 t2) <= budget.
Proof.
  intros Hwf Hn Ht Hr. rewrite declared_used_register by done.
  unfold should_evict_for_load, get_stats, available_bytes. rewrite Ht. cbn.
  destruct (check_pressure _ _); [done|]. intros H. lia.
Qed.

(** ** Concrete runs *)

Definition demo_history : list event :=
  [Touch "Org/A" (f_of_Z 30); Register "Org/C" None (f_of_Z 20) (f_of_Z 20);
   Register "Org/B" (Some 5) (f_of_Z 10) (f_of_Z 10); Register "Org/A" (Some 7) f0 f0].
Definition demo_manager : MemoryManager :=
  run_history (init_manager "cpu" default_memory_config (Synthetic 100)) demo_history.

Example demo_lru :
  get_lru_model demo_manager [] = Some "Org/B"%string ∧
  get_lru_model demo_manager ["org/b"%string] = Some "Org/C"%string ∧
  get_idle_models demo_manager (f_of_Z 15) (f_of_Z 35) [] = Ret ["Org/B"%string; "Org/C"%string].
Proof. vm_compute. done. Qed.

Lemma get_idle_models_lru_order_witness :
  get_idle_models demo_manager (f_of_Z 15) (f_of_Z 35) []
  = Ret (fst <$> List.filter (is_idle (f_of_Z 15) (f_of_Z 35) []) (models demo_manager)).
Proof.
  apply (get_idle_models_lru_order "cpu" default_memory_config (Synthetic 100) demo_history).
  - split; repeat constructor.
  - reflexivity.
Defined.

Lemma should_evict_for_load_sound_witness :
  declared_used_bytes (register_model demo_manager "Org/D" (Some 60) f0 f0) <= 100.
Proof.
  apply (should_evict_for_load_sound demo_manager 100 "Org/D" 60 (mkStats 0 0 cpu) (mkStats 0 0 cpu)).
  - exact (li_wf _ _ (lru_inv_history "cpu" default_memory_config (Synthetic 100) demo_history)).
  - intros H. vm_compute in H. repeat (inversion H as [|? ? ? H']; subst; clear H; rename H' into H).
  - reflexivity.
  - lia.
  - vm_compute. reflexivity.
Defined.

End Memory.
