(* ===== verification/WorkClassScheduler.v ===== *)
(** The weighted-fair slot scheduler: [processors/work_class_scheduler.py].

    A pool of [total_slots] slots is shared between work classes.  Each class owns
    a floor of [min_slots] slots no other class can use and competes for the rest
    by weight.  Futures are identified by numbers; [futs] is the shared store of
    their states, which a cancelled [acquire] changes behind the scheduler's back.
    Every method body up to its only [await] (the last statement of [acquire]) runs
    without interleaving, so each call is one transition. *)

From S2P Require Import Prelude PyFloat PyDict.
Local Open Scope Z_scope.

Module Scheduler.

Definition GENERATION_CLASS : string := "generation".
Definition EMBEDDING_CLASS : string := "embedding".

(** [classify_work_class] *)
Definition classify_work_class (op : string) : string :=
  if bool_decide (op = "generate"%string) then GENERATION_CLASS else EMBEDDING_CLASS.

Record WorkClassConfig := mkClassConfig { weight : float; min_slots : Z }.

Record FairnessConfig := mkFairness {
  cfg_total_slots : Z;
  cfg_classes : list (string * WorkClassConfig);
}.

Inductive error := ValueError | RuntimeError.

(** The loop of [FairnessConfig.validate]; [floor_sum] is the accumulator. *)
Fixpoint validate_classes (l : list (string * WorkClassConfig)) (floor_sum : Z) : res error Z :=
  match l with
  | [] => Ret floor_sum
  | (_, c) :: l' =>
      if fle (weight c) f0 then Raise ValueError
      else if min_slots c <? 0 then Raise ValueError
      else validate_classes l' (floor_sum + min_slots c)
  end.

(** [FairnessConfig.validate] *)
Definition validate (c : FairnessConfig) : res error unit :=
  if cfg_total_slots c <? 1 then Raise ValueError
  else match cfg_classes c with
       | [] => Raise ValueError
       | _ => match validate_classes (cfg_classes c) 0 with
              | Raise e => Raise e
              | Ret floor_sum =>
                  if cfg_total_slots c <? floor_sum then Raise ValueError else Ret tt
              end
       end.

Record ClassState := mkState {
  cfg : WorkClassConfig;
  leased : Z;
  virtual_time : float;
  waiters : list nat;                       (* the deque of futures *)
}.

Inductive fut_state := Pending | Resolved | Cancelled.

Record scheduler := mkSched {
  total_slots : Z;
  classes : list (string * ClassState);
  futs : gmap nat fut_state;
  idle : bool;                              (* the asyncio.Event [_idle] *)
}.

(** [WorkClassScheduler.__init__] *)
Definition init (c : FairnessConfig) : res error scheduler :=
  match validate c with
  | Raise e => Raise e
  | Ret _ => Ret (mkSched (cfg_total_slots c)
                    ((λ '(n, k), (n, mkState k 0 f0 [])) <$> cfg_classes c) ∅ true)
  end.

Abbreviation table := (list (string * ClassState)).

Definition set_class (s : scheduler) (name : string) (st : ClassState) : scheduler :=
  mkSched (total_slots s) (dict_set name st (classes s)) (futs s) (idle s).
Definition set_idle (s : scheduler) (b : bool) : scheduler :=
  mkSched (total_slots s) (classes s) (futs s) b.

(** [_total_leased] *)
Definition total_leased (t : table) : Z := sumZ (λ e, leased e.2) t.

(** The unfilled part of a class's floor. *)
Definition unfilled (st : ClassState) : Z := Z.max 0 (min_slots (cfg st) - leased st).

(** [_reserved_for_others] *)
Definition reserved_for_others (t : table) (name : string) : Z :=
  sumZ (λ e, if bool_decide (e.1 = name) then 0 else unfilled e.2) t.

Inductive grant := Floor | Shared.
#[export] Instance grant_eq_dec : EqDecision grant.
Proof. solve_decision. Defined.

(** [_grant_kind] on a class of the table *)
Definition grant_kind (s : scheduler) (name : string) (st : ClassState) : option grant :=
  if leased st <? min_slots (cfg st) then Some Floor
  else
    let free := total_slots s - total_leased (classes s) in
    if 0 <? free - reserved_for_others (classes s) name then Some Shared else None.

(** [_grant] *)
Definition do_grant (s : scheduler) (name : string) (st : ClassState) : scheduler :=
  let kind := grant_kind s name st in
  let vt := match kind with
            | Some Shared => fadd (virtual_time st) (fdiv f1 (weight (cfg st)))
            | _ => virtual_time st
            end in
  set_class s name (mkState (cfg st) (leased st + 1) vt (waiters st)).

(** [_resolve_one]: pop the first waiter, account the grant, wake the future unless
    it is already done. *)
Definition resolve_one (s : scheduler) (name : string) : scheduler :=
  match dict_get name (classes s) with
  | Some st =>
      match waiters st with
      | f :: ws =>
          let s1 := set_class s name (mkState (cfg st) (leased st) (virtual_time st) ws) in
          let s2 := do_grant s1 name (mkState (cfg st) (leased st) (virtual_time st) ws) in
          match futs s2 !! f with
          | Some Pending => mkSched (total_slots s2) (classes s2) (<[f := Resolved]> (futs s2)) (idle s2)
          | _ => s2
          end
      | [] => s
      end
  | None => s
  end.

(** [(virtual_time, name)] tuples in Python's order *)
Definition tuple_lt (p q : float * string) : bool :=
  if feq p.1 q.1 then String.ltb p.2 q.2 else flt p.1 q.1.

Definition has_waiters (st : ClassState) : bool :=
  match waiters st with [] => false | _ => true end.

(** [next((name for ... if st.waiters and st.leased < min_slots), None)] *)
Fixpoint floor_class (t : table) : option string :=
  match t with
  | [] => None
  | (n, st) :: t' =>
      if has_waiters st && (leased st <? min_slots (cfg st)) then Some n else floor_class t'
  end.

(** The list comprehension [eligible] of [_pump] *)
Definition eligible (s : scheduler) : list (float * string) :=
  omap (λ '(n, st), if has_waiters st && bool_decide (grant_kind s n st = Some Shared)
                    then Some (virtual_time st, n) else None) (classes s).

(** The class the next iteration of [_pump] serves, if any. *)
Definition pump_choice (s : scheduler) : option string :=
  match floor_class (classes s) with
  | Some n => Some n
  | None => snd <$> head (stable_sort (λ p q, negb (tuple_lt q p)) (eligible s))
  end.

(** [_refresh_idle] *)
Definition refresh_idle (s : scheduler) : scheduler :=
  set_idle s ((total_leased (classes s) =? 0)
              && forallb (λ e, negb (has_waiters e.2)) (classes s)).

(** The [while True] loop of [_pump]; [None] when the fuel runs out. *)
Fixpoint pump_loop (fuel : nat) (s : scheduler) : option scheduler :=
  match fuel with
  | O => None
  | S fuel' =>
      match pump_choice s with
      | Some n => pump_loop fuel' (resolve_one s n)
      | None => Some s
      end
  end.

Definition total_queued (t : table) : nat :=
  foldr (λ e acc, (length (waiters e.2) + acc)%nat) 0%nat t.

(** [_pump]: one iteration per waiting request, and the last one that stops. *)
Definition pump (s : scheduler) : scheduler :=
  match pump_loop (S (total_queued (classes s))) s with
  | Some s' => refresh_idle s'
  | None => s
  end.

(** What a call of [acquire] does before it awaits: it returns holding a slot, or it
    awaits the future it queued (which may already be resolved). *)
Inductive acquired := Granted | Awaiting (f : nat).

(** [acquire]; [f] is the identity of the future it would create *)
Definition acquire (s : scheduler) (work_class : string) (f : nat)
    : res error (scheduler * acquired) :=
  match dict_get work_class (classes s) with
  | None => Raise ValueError
  | Some st =>
      if negb (has_waiters st) && match grant_kind s work_class st with Some _ => true | None => false end
      then Ret (refresh_idle (do_grant s work_class st), Granted)
      else
        let s1 := mkSched (total_slots s)
                    (dict_set work_class
                       (mkState (cfg st) (leased st) (virtual_time st) (waiters st ++ [f]))
                       (classes s))
                    (<[f := Pending]> (futs s)) false in
        Ret (pump s1, Awaiting f)
  end.

(** [release] *)
Definition release (s : scheduler) (work_class : string) : res error scheduler :=
  match dict_get work_class (classes s) with
  | None => Raise ValueError
  | Some st =>
      if leased st <=? 0 then Raise RuntimeError
      else Ret (refresh_idle (pump (set_class s work_class
                  (mkState (cfg st) (leased st - 1) (virtual_time st) (waiters st)))))
  end.

(** The task awaiting future [f] is cancelled: asyncio cancels the future; the
    scheduler is not told. *)
Definition cancel (s : scheduler) (f : nat) : scheduler :=
  match futs s !! f with
  | Some Pending => mkSched (total_slots s) (classes s) (<[f := Cancelled]> (futs s)) (idle s)
  | _ => s
  end.

(** [saturation_snapshot]: per-class and aggregate occupancy *)
Record class_snapshot := mkClassSnap { cs_leased : Z; cs_queued : Z; cs_min_slots : Z; cs_weight : float }.
Record snapshot := mkSnap {
  sn_total_slots : Z;
  sn_total_leased : Z;
  sn_total_queued : Z;
  sn_classes : list (string * class_snapshot);
}.

Definition saturation_snapshot (s : scheduler) : snapshot :=
  mkSnap (total_slots s) (total_leased (classes s)) (Z.of_nat (total_queued (classes s)))
    ((λ '(name, st), (name, mkClassSnap (leased st) (Z.of_nat (length (waiters st)))
                              (min_slots (cfg st)) (weight (cfg st)))) <$> classes s).

(** ** Capacity accounting *)

(** The slots the table commits: what is leased plus what floors still reserve. *)
Definition commitment (t : table) : Z := sumZ (λ e, Z.max (leased e.2) (min_slots (cfg e.2))) t.

Lemma commitment_split t : commitment t = total_leased t + sumZ (λ e, unfilled e.2) t.
Proof.
  unfold commitment, total_leased. rewrite <- sumZ_add. apply sumZ_ext.
  intros e _. unfold unfilled. lia.
Qed.

Lemma reserved_absent t n :
  n ∉ dict_keys t → reserved_for_others t n = sumZ (λ e, unfilled e.2) t.
Proof.
  intros Hn. apply sumZ_ext. intros [k st] He. simpl.
  rewrite bool_decide_false; [done|]. intros ->. apply Hn.
  apply list_elem_of_fmap. by exists (n, st).
Qed.

Lemma reserved_for_others_eq t n st :
  dict_wf t → dict_get n t = Some st →
  reserved_for_others t n = sumZ (λ e, unfilled e.2) t - unfilled st.
Proof.
  unfold dict_wf. induction t as [|[k st'] t IH]; [done|]. rewrite dict_keys_cons, NoDup_cons.
  intros [Hk Hwf]. cbn [dict_get]. unfold reserved_for_others. rewrite !sumZ_cons. cbn [fst snd].
  destruct (decide (n = k)) as [->|Hne].
  - intros [= ->]. rewrite bool_decide_true by done.
    change (sumZ _ t) with (reserved_for_others t k) at 1. rewrite reserved_absent by done. lia.
  - intros Hg. rewrite bool_decide_false by congruence.
    change (sumZ _ t) with (reserved_for_others t n) at 1. rewrite (IH Hwf Hg). lia.
Qed.

(** [_grant_kind] in one comparison: beyond its floor a class gets a slot exactly when
    the table does not commit all of them. *)
Lemma grant_kind_spec s n st :
  dict_wf (classes s) → dict_get n (classes s) = Some st →
  grant_kind s n st =
    if leased st <? min_slots (cfg st) then Some Floor
    else if commitment (classes s) <? total_slots s then Some Shared else None.
Proof.
  intros Hwf Hg. unfold grant_kind. destruct (leased st <? min_slots (cfg st)) eqn:E; [done|].
  rewrite (reserved_for_others_eq _ _ _ Hwf Hg), commitment_split.
  assert (unfilled st = 0) as -> by (unfold unfilled; lia).
  destruct (0 <? _) eqn:E1, (_ <? total_slots s) eqn:E2; done || lia.
Qed.

(** ** The invariant *)

Record cap_inv (s : scheduler) : Prop := {
  ci_wf : dict_wf (classes s);
  ci_leased : ∀ n st, dict_get n (classes s) = Some st → 0 <= leased st;
  ci_cap : commitment (classes s) <= total_slots s;
}.

(** Nobody waits who could be served. *)
Definition settled (s : scheduler) : Prop :=
  ∀ n st, dict_get n (classes s) = Some st → has_waiters st = true → grant_kind s n st = None.

Definition idle_exact (s : scheduler) : Prop :=
  idle s = (total_leased (classes s) =? 0) && forallb (λ e, negb (has_waiters e.2)) (classes s).

Definition sched_inv (s : scheduler) : Prop := cap_inv s ∧ settled s ∧ idle_exact s.

Lemma cap_inv_set s n st st' :
  cap_inv s → dict_get n (classes s) = Some st → 0 <= leased st' →
  commitment (classes s) - Z.max (leased st) (min_slots (cfg st))
    + Z.max (leased st') (min_slots (cfg st')) <= total_slots s →
  cap_inv (set_class s n st').
Proof.
  intros [Hwf Hl Hc] Hg Hl' Hc'. constructor; cbn [classes set_class total_slots].
  - auto with sie.
  - intros k x. rewrite dict_get_set. case_decide; [intros [= <-]; done|eauto].
  - unfold commitment. rewrite (sumZ_dict_set _ _ _ _ _ Hg). exact Hc'.
Qed.

Lemma do_grant_cap s n st k :
  cap_inv s → dict_get n (classes s) = Some st → grant_kind s n st = Some k →
  cap_inv (do_grant s n st).
Proof.
  intros Hinv Hg Hk. pose proof (ci_leased _ Hinv _ _ Hg).
  rewrite grant_kind_spec in Hk; [|apply Hinv|done]. pose proof (ci_cap _ Hinv).
  eapply cap_inv_set; [done..| |]; simpl; [lia|].
  destruct (_ <? min_slots _) eqn:E in Hk; [lia|]. destruct (_ <? total_slots s) eqn:E2 in Hk; [lia|done].
Qed.

Lemma init_cap c s : dict_wf (cfg_classes c) → init c = Ret s → cap_inv s.
Proof.
  unfold init. intros Hwf. destruct (validate c) as [[]|] eqn:V; [|done]. intros [= <-].
  unfold validate in V. destruct (cfg_total_slots c <? 1) eqn:E1; [done|].
  assert (∃ z, validate_classes (cfg_classes c) 0 = Ret z ∧ z <= cfg_total_slots c) as (z & Ev & Hz).
  { destruct (cfg_classes c) as [|e l]; [done|].
    destruct (validate_classes (e :: l) 0) as [z|]; [|done].
    exists z. split; [done|]. destruct (cfg_total_slots c <? z) eqn:E; [done|lia]. }
  clear V. set (t := (λ '(n, k), (n, mkState k 0 f0 [])) <$> cfg_classes c).
  assert (dict_keys t = dict_keys (cfg_classes c)) as Hkeys.
  { unfold dict_keys, t. rewrite <- list_fmap_compose. apply list_fmap_ext. intros i [n k] _. done. }
  assert (∀ l acc z, validate_classes l acc = Ret z →
    commitment ((λ '(n, k), (n, mkState k 0 f0 [])) <$> l) = z - acc) as Hval.
  { clear z Ev Hz. induction l as [|[n k] l IH]; intros acc z; cbn [validate_classes]; [intros [= ->]; unfold commitment; cbn; rewrite sumZ_nil; lia|].
    destruct (fle _ _); [done|]. destruct (min_slots k <? 0) eqn:E; [done|]. intros H%IH.
    rewrite fmap_cons. unfold commitment in *. rewrite sumZ_cons, H. cbn. lia. }
  constructor; cbn [classes total_slots].
  - unfold dict_wf. by rewrite Hkeys.
  - intros n st (e & E & _)%dict_get_Some_elem%list_elem_of_fmap. destruct e as [n' k].
    injection E as _ E. by rewrite E.
  - apply Hval in Ev. fold t in Ev. lia.
Qed.

(** ** The pump *)

Lemma floor_class_Some t n :
  floor_class t = Some n →
  ∃ st, (n, st) ∈ t ∧ has_waiters st = true ∧ leased st < min_slots (cfg st).
Proof.
  induction t as [|[k st] t IH]; cbn [floor_class]; [done|].
  destruct (has_waiters st && _) eqn:E.
  - intros [= <-]. exists st. split; [by left|lia].
  - intros H. destruct (IH H) as (st' & ? & ?). exists st'. split; [by right|done].
Qed.

Lemma floor_class_None t n st :
  floor_class t = None → (n, st) ∈ t → has_waiters st = true → min_slots (cfg st) <= leased st.
Proof.
  induction t as [|[k st'] t IH]; cbn [floor_class]; [set_solver|].
  destruct (has_waiters st' && _) eqn:E; [done|]. intros H [Heq|Hin]%elem_of_cons; [|auto].
  injection Heq as _ ->. intros Hw. rewrite Hw in E. lia.
Qed.

Lemma elem_of_eligible s v n :
  (v, n) ∈ eligible s ↔ ∃ st, (n, st) ∈ classes s ∧ has_waiters st = true ∧
    grant_kind s n st = Some Shared ∧ v = virtual_time st.
Proof.
  unfold eligible. rewrite list_elem_of_omap. split.
  - intros ([k st] & Hin & H). destruct (has_waiters st) eqn:Hw; [|done]. cbn in H.
    case_bool_decide; [|done]. simplify_eq. by exists st.
  - intros (st & Hin & Hw & Hk & ->). exists (n, st). split; [done|].
    by rewrite Hw, bool_decide_true.
Qed.

Lemma pump_choice_Some s n :
  cap_inv s → pump_choice s = Some n →
  ∃ st k, dict_get n (classes s) = Some st ∧ has_waiters st = true ∧ grant_kind s n st = Some k.
Proof.
  intros Hinv. unfold pump_choice. destruct (floor_class (classes s)) as [m|] eqn:E.
  - intros [= ->]. apply floor_class_Some in E as (st & Hin & Hw & Hl).
    exists st, Floor. split; [apply dict_elem_get; [apply Hinv|done]|]. split; [done|].
    unfold grant_kind. rewrite (proj2 (Z.ltb_lt _ _)) by done. done.
  - destruct (stable_sort _ (eligible s)) as [|[v m] l] eqn:Es; [done|]. intros [= ->].
    assert ((v, n) ∈ eligible s) as He.
    { apply (elem_of_stable_sort (λ p q, negb (tuple_lt q p))). rewrite Es. by left. }
    apply elem_of_eligible in He as (st & Hin & Hw & Hk & _).
    exists st, Shared. split; [apply dict_elem_get; [apply Hinv|done]|done].
Qed.

Lemma pump_choice_None s : cap_inv s → pump_choice s = None → settled s.
Proof.
  intros Hinv. unfold pump_choice. destruct (floor_class (classes s)) as [m|] eqn:E; [done|].
  destruct (stable_sort _ (eligible s)) as [|[v m] l] eqn:Es; [|done]. intros _ n st Hg Hw.
  pose proof (dict_get_Some_elem _ _ _ Hg) as Hin.
  pose proof (floor_class_None _ _ _ E Hin Hw).
  assert (∀ p, p ∉ eligible s) as Hno.
  { intros p Hp. apply (elem_of_stable_sort (λ p q, negb (tuple_lt q p))) in Hp.
    rewrite Es in Hp. by apply elem_of_nil in Hp. }
  destruct (grant_kind s n st) as [[]|] eqn:Ek; [| |done].
  - unfold grant_kind in Ek. destruct (_ <? min_slots _) eqn:E2 in Ek; [lia|].
    by destruct (0 <? _) in Ek.
  - destruct (Hno (virtual_time st, n)). apply elem_of_eligible. by exists st.
Qed.

Definition queue_lengths (t : table) : Z := sumZ (λ e, Z.of_nat (length (waiters e.2))) t.

Lemma total_queued_sum t : Z.of_nat (total_queued t) = queue_lengths t.
Proof.
  unfold queue_lengths. induction t as [|[n st] t IH]; [done|]. rewrite sumZ_cons, <- IH. simpl. lia.
Qed.

(** Serving a chosen class keeps the capacity invariant and removes one waiter. *)
Lemma resolve_one_cap s n st k :
  cap_inv s → dict_get n (classes s) = Some st → has_waiters st = true →
  grant_kind s n st = Some k →
  cap_inv (resolve_one s n) ∧ total_slots (resolve_one s n) = total_slots s ∧
  S (total_queued (classes (resolve_one s n))) = total_queued (classes s).
Proof.
  intros Hinv Hg Hw Hk. unfold resolve_one. rewrite Hg. unfold has_waiters in Hw.
  destruct (waiters st) as [|f ws] eqn:Ew; [done|].
  set (st1 := mkState (cfg st) (leased st) (virtual_time st) ws).
  set (s1 := set_class s n st1).
  assert (cap_inv s1) as Hinv1.
  { eapply cap_inv_set; [done..| |]; simpl; [by eapply ci_leased|].
    pose proof (ci_cap _ Hinv). lia. }
  assert (dict_get n (classes s1) = Some st1) as Hg1.
  { cbn. by rewrite dict_get_set, decide_True. }
  assert (grant_kind s1 n st1 = Some k) as Hk1.
  { rewrite grant_kind_spec in Hk |- *; [|apply Hinv|done|apply Hinv1|done].
    unfold s1, commitment in *. cbn in *. rewrite (sumZ_dict_set _ _ _ _ _ Hg). cbn.
    replace (sumZ _ (classes s) - _ + _) with
      (sumZ (λ e : string * ClassState, Z.max (leased e.2) (min_slots (cfg e.2))) (classes s)) by lia.
    done. }
  assert (cap_inv (do_grant s1 n st1)) as Hinv2 by by eapply do_grant_cap.
  assert (total_slots (do_grant s1 n st1) = total_slots s) as Hts by done.
  assert (S (total_queued (classes (do_grant s1 n st1))) = total_queued (classes s)) as Hq.
  { apply Nat2Z.inj. rewrite Nat2Z.inj_succ, !total_queued_sum. unfold queue_lengths.
    unfold do_grant. cbn [classes set_class]. rewrite (sumZ_dict_set _ _ _ _ _ Hg1).
    unfold s1. cbn [classes set_class]. rewrite (sumZ_dict_set _ _ _ _ _ Hg).
    cbn. rewrite Ew. cbn. lia. }
  destruct Hinv2 as [H1 H2 H3].
  destruct (futs (do_grant s1 n st1) !! f) as [[]|];
    (split; [by constructor|]; split; [exact Hts|exact Hq]).
Qed.

(** The loop stops, within one iteration per waiting request, in a settled state. *)
Lemma pump_loop_total fuel : ∀ s,
  cap_inv s → (total_queued (classes s) < fuel)%nat →
  ∃ s', pump_loop fuel s = Some s' ∧ cap_inv s' ∧ settled s' ∧ total_slots s' = total_slots s ∧
    (∀ n, n ∈ dict_keys (classes s') ↔ n ∈ dict_keys (classes s)).
Proof.
  induction fuel as [|fuel IH]; intros s Hinv Hf; [lia|]. cbn [pump_loop].
  destruct (pump_choice s) as [n|] eqn:E.
  - destruct (pump_choice_Some s n Hinv E) as (st & k & Hg & Hw & Hk).
    destruct (resolve_one_cap s n st k Hinv Hg Hw Hk) as (Hinv' & Hts & Hq).
    destruct (IH (resolve_one s n) Hinv' ltac:(lia)) as (s' & -> & Hc & Hs & Hts' & Hkeys).
    exists s'. split; [done|]. split; [done|]. split; [done|]. split; [congruence|].
    intros m. rewrite Hkeys. unfold resolve_one. rewrite Hg. destruct (waiters st) as [|f ws]; [done|].
    assert (n ∈ dict_keys (classes s)) as Hn by (apply dict_get_is_Some; eauto).
    destruct (futs _ !! f) as [[]|]; cbn [classes do_grant set_class];
      rewrite !dict_keys_set; repeat case_decide; set_solver.
  - exists s. split; [done|]. split; [done|]. split; [by apply pump_choice_None|done].
Qed.

Lemma refresh_idle_inv s : cap_inv s → settled s → sched_inv (refresh_idle s).
Proof. intros [H1 H2 H3] Hs. split; [by constructor|]. split; [exact Hs|done]. Qed.

Lemma pump_inv s : cap_inv s → sched_inv (pump s) ∧ total_slots (pump s) = total_slots s.
Proof.
  intros Hinv. unfold pump.
  destruct (pump_loop_total (S (total_queued (classes s))) s Hinv ltac:(lia))
    as (s' & -> & Hc & Hs & Hts & _).
  split; [by apply refresh_idle_inv|done].
Qed.

(** ** Reachable schedulers *)

Inductive sched_step : scheduler → scheduler → Prop :=
| ss_acquire s c f s' r : acquire s c f = Ret (s', r) → sched_step s s'
| ss_release s c s' : release s c = Ret s' → sched_step s s'
| ss_cancel s f : sched_step s (cancel s f).

Definition reachable (c : FairnessConfig) (s : scheduler) : Prop :=
  ∃ s0, init c = Ret s0 ∧ rtc sched_step s0 s.

Lemma init_inv c s : dict_wf (cfg_classes c) → init c = Ret s → sched_inv s.
Proof.
  intros Hwf Hi. split; [by eapply init_cap|].
  unfold init in Hi. destruct (validate c); [|done]. injection Hi as <-.
  assert (∀ l : list (string * WorkClassConfig), ∀ e,
    e ∈ ((λ '(n, k), (n, mkState k 0 f0 [])) <$> l) → leased e.2 = 0 ∧ has_waiters e.2 = false) as He.
  { intros l e ([n k] & -> & _)%list_elem_of_fmap. done. }
  split.
  - intros n st Hg%dict_get_Some_elem Hw. destruct (He _ _ Hg) as [_ Hw']. cbn in Hw'. congruence.
  - unfold idle_exact. cbn [idle classes]. symmetry. apply andb_true_intro. split.
    + apply Z.eqb_eq. unfold total_leased.
      rewrite (sumZ_ext _ (λ _, 0)); [|intros e H; by apply (He _ _ H)].
      clear. induction (_ <$> _) as [|e l IH]; [done|]. rewrite sumZ_cons. lia.
    + apply forallb_forall. intros e Hin. apply list_elem_of_In in Hin.
      by rewrite (proj2 (He _ _ Hin)).
Qed.

Lemma acquire_inv s c f s' r :
  sched_inv s → acquire s c f = Ret (s', r) → sched_inv s' ∧ total_slots s' = total_slots s.
Proof.
  intros [Hc [Hs Hi]]. unfold acquire. destruct (dict_get c (classes s)) as [st|] eqn:Hg; [|done].
  destruct (negb (has_waiters st) && _) eqn:E; intros [= <- <-].
  - apply andb_prop in E as [Ew Ek]. destruct (grant_kind s c st) as [k|] eqn:Hk; [|done].
    split; [|done]. apply refresh_idle_inv; [by eapply do_grant_cap|].
    pose proof (do_grant_cap _ _ _ _ Hc Hg Hk) as Hc'.
    intros n st' Hg' Hw'. cbn [classes do_grant set_class] in Hg'. rewrite dict_get_set in Hg'.
    destruct (decide (c = n)) as [->|Hne]; [injection Hg' as <-; cbn in Hw'; unfold has_waiters in *; simpl in *; by rewrite Hw' in Ew|].
    pose proof (Hs n st' Hg' Hw') as Hk'. rewrite grant_kind_spec in Hk'; [|apply Hc|done].
    rewrite grant_kind_spec; [|apply Hc'|cbn; by rewrite dict_get_set, decide_False].
    destruct (_ <? min_slots (cfg st')); [done|].
    destruct (commitment (classes s) <? total_slots s) eqn:E1; [done|].
    destruct (commitment (classes (do_grant s c st)) <? _) eqn:E2; [|done]. exfalso.
    cbn [classes do_grant set_class total_slots] in E2. unfold commitment in *.
    rewrite (sumZ_dict_set _ _ _ _ _ Hg) in E2. cbn in E2. lia.
  - assert (cap_inv (set_class s c
      (mkState (cfg st) (leased st) (virtual_time st) (waiters st ++ [f])))) as Hc'.
    { apply (cap_inv_set s c st _ Hc Hg); simpl; [by eapply ci_leased|].
      pose proof (ci_cap _ Hc). lia. }
    match goal with |- sched_inv (pump ?x) ∧ _ => assert (cap_inv x) as Hx end.
    { destruct Hc' as [H1 H2 H3]. by constructor. }
    apply (pump_inv _ Hx).
Qed.

Lemma release_inv s c s' :
  sched_inv s → release s c = Ret s' → sched_inv s' ∧ total_slots s' = total_slots s.
Proof.
  intros [Hc _]. unfold release. destruct (dict_get c (classes s)) as [st|] eqn:Hg; [|done].
  destruct (leased st <=? 0) eqn:E; intros [= <-].
  assert (cap_inv (set_class s c (mkState (cfg st) (leased st - 1) (virtual_time st) (waiters st)))) as Hc'.
  { apply (cap_inv_set s c st _ Hc Hg); simpl; [lia|]. pose proof (ci_cap _ Hc). lia. }
  destruct (pump_inv _ Hc') as [[H1 [H2 _]] Ht]. split; [by apply refresh_idle_inv|exact Ht].
Qed.

Lemma cancel_inv s f : sched_inv s → sched_inv (cancel s f) ∧ total_slots (cancel s f) = total_slots s.
Proof.
  intros [[H1 H2 H3] [Hs Hi]]. unfold cancel.
  destruct (futs s !! f) as [[]|]; (split; [|done]); repeat split; done.
Qed.

Lemma reachable_inv c s :
  dict_wf (cfg_classes c) → reachable c s → sched_inv s ∧ total_slots s = cfg_total_slots c.
Proof.
  intros Hwf (s0 & Hi & Hr). revert s Hr.
  apply (rtc_ind_r (λ s, sched_inv s ∧ total_slots s = cfg_total_slots c)).
  - split; [by eapply init_inv|]. unfold init in Hi. destruct (validate c); [|done]. by injection Hi as <-.
  - intros s1 s2 _ Hstep [Hinv <-]. destruct Hstep;
      [eapply acquire_inv|eapply release_inv|eapply cancel_inv]; eauto.
Qed.

(** C35 — capacity and floors.  In every reachable state the slots leased and the slots
    the floors of the classes still reserve fit in the pool together: no
    interleaving of acquisitions, releases and cancellations over-commits it, and a
    class below its floor is granted a slot immediately. *)
Theorem scheduler_capacity c s :
  dict_wf (cfg_classes c) → reachable c s →
  0 <= total_leased (classes s) ∧
  total_leased (classes s) + sumZ (λ e, unfilled e.2) (classes s) <= cfg_total_slots c ∧
  ∀ n st f, dict_get n (classes s) = Some st → leased st < min_slots (cfg st) →
    ∃ s', acquire s n f = Ret (s', Granted).
Proof.
  intros Hwf Hr. destruct (reachable_inv c s Hwf Hr) as [[Hc [Hs _]] <-].
  split; [|split].
  - apply sumZ_nonneg. intros [n st] Hin. eapply (ci_leased _ Hc n).
    by apply dict_elem_get; [apply Hc|].
  - rewrite <- commitment_split. apply Hc.
  - intros n st f Hg Hl. unfold acquire. rewrite Hg.
    assert (grant_kind s n st = Some Floor) as Hk
      by (unfold grant_kind; by rewrite (proj2 (Z.ltb_lt _ _)) by done).
    destruct (has_waiters st) eqn:Hw; [specialize (Hs n st Hg Hw); congruence|].
    rewrite Hk. by eexists.
Qed.

(** Work conservation.  Between calls, when a class has a waiter, that class has at
    least its floor and the pool is fully committed: no slot that could serve a
    waiting request is ever left unused. *)
Theorem scheduler_work_conserving c s n st :
  dict_wf (cfg_classes c) → reachable c s →
  dict_get n (classes s) = Some st → has_waiters st = true →
  min_slots (cfg st) <= leased st ∧ commitment (classes s) = total_slots s.
Proof.
  intros Hwf Hr Hg Hw. destruct (reachable_inv c s Hwf Hr) as [[Hc [Hs _]] _].
  pose proof (Hs n st Hg Hw) as Hk. rewrite grant_kind_spec in Hk; [|apply Hc|done].
  pose proof (ci_cap _ Hc).
  destruct (leased st <? _) eqn:E1; [done|]. destruct (_ <? total_slots s) eqn:E2; [done|]. lia.
Qed.

(** No overtaking on contended slots.  The fast path of [acquire] hands out a
    shared slot only when no request of any class is waiting; while something
    waits, a newcomer can only take a slot of its own floor. *)
Theorem acquire_no_overtaking c s n st f s' :
  dict_wf (cfg_classes c) → reachable c s →
  dict_get n (classes s) = Some st → acquire s n f = Ret (s', Granted) →
  grant_kind s n st = Some Floor ∨
  ∀ m st', dict_get m (classes s) = Some st' → has_waiters st' = false.
Proof.
  intros Hwf Hr Hg Ha. destruct (reachable_inv c s Hwf Hr) as [[Hc [Hs _]] _].
  unfold acquire in Ha. rewrite Hg in Ha.
  destruct (negb (has_waiters st) && _) eqn:E in Ha; [|done].
  apply andb_prop in E as [_ Ek]. destruct (grant_kind s n st) as [[]|] eqn:Hk; [by left| |done].
  right. intros m st' Hm. destruct (has_waiters st') eqn:Hw; [|done]. exfalso.
  pose proof (Hs m st' Hm Hw) as Hk'. rewrite grant_kind_spec in Hk, Hk' by (done || apply Hc).
  destruct (leased st <? _); [done|]. destruct (leased st' <? _); [done|].
  destruct (_ <? total_slots s); done.
Qed.

(** The pump terminates.  From any state that respects the capacity, the
    [while True] loop of [_pump] stops after at most one iteration per waiting
    request, and it stops because nobody who waits can be served. *)
Theorem pump_terminates s fuel :
  cap_inv s → (total_queued (classes s) < fuel)%nat →
  ∃ s', pump_loop fuel s = Some s' ∧ pump_choice s' = None ∧ settled s'.
Proof.
  intros Hinv Hf.
  assert (∀ fuel s s', pump_loop fuel s = Some s' → pump_choice s' = None) as Hstop.
  { clear. induction fuel as [|fuel IH]; intros s s'; cbn [pump_loop]; [done|].
    destruct (pump_choice s) eqn:E; [apply IH|]. by intros [= <-]. }
  destruct (pump_loop_total fuel s Hinv Hf) as (s' & Hp & _ & Hs & _). eauto.
Qed.

(** [drain].  The event [drain] waits on is set exactly when nothing is leased and
    nobody waits, in every reachable state. *)
Theorem scheduler_idle_exact c s :
  dict_wf (cfg_classes c) → reachable c s →
  idle s = true ↔ total_leased (classes s) = 0 ∧
    ∀ n st, dict_get n (classes s) = Some st → waiters st = [].
Proof.
  intros Hwf Hr. destruct (reachable_inv c s Hwf Hr) as [[Hc [_ Hi]] _].
  unfold idle_exact in Hi. rewrite Hi, andb_true_iff, Z.eqb_eq, forallb_forall.
  split; intros [Ht Hw]; (split; [done|]).
  - intros n st Hg%dict_get_Some_elem%list_elem_of_In%Hw. unfold has_waiters in Hg.
    simpl in Hg. by destruct (waiters st).
  - intros [n st] Hin%list_elem_of_In. simpl. unfold has_waiters.
    rewrite (Hw n st); [done|]. by apply dict_elem_get; [apply Hc|].
Qed.

(** The most owed class is served.  When no class is below its floor, the class
    the pump serves next has a virtual time no larger than that of any class that
    could be served, provided the virtual times are numbers. *)
Theorem pump_choice_most_owed s n st m st' :
  cap_inv s → floor_class (classes s) = None →
  (∀ k x, dict_get k (classes s) = Some x → is_nan (virtual_time x) = false) →
  pump_choice s = Some n → dict_get n (classes s) = Some st →
  dict_get m (classes s) = Some st' → has_waiters st' = true → grant_kind s m st' = Some Shared →
  fle (virtual_time st) (virtual_time st') = true.
Proof.
  intros Hc Hf Hnan Hp Hg Hg' Hw' Hk'. unfold pump_choice in Hp. rewrite Hf in Hp.
  set (leb := λ p q, negb (tuple_lt q p)) in Hp.
  destruct (stable_sort leb (eligible s)) as [|[v n'] l] eqn:Es; [done|]. injection Hp as ->.
  assert (∀ p, p ∈ eligible s → is_nan p.1 = false) as Hnn.
  { intros [v' k] (x & Hin & _ & _ & ->)%elem_of_eligible. eapply Hnan.
    by apply dict_elem_get; [apply Hc|]. }
  assert ((v, n) ∈ eligible s) as (x & Hin & _ & _ & ->)%elem_of_eligible.
  { apply (elem_of_stable_sort leb). rewrite Es. by left. }
  apply dict_elem_get in Hin; [|apply Hc]. rewrite Hg in Hin. injection Hin as <-.
  assert ((virtual_time st', m) ∈ eligible s) as Hm.
  { apply elem_of_eligible. exists st'. split; [by apply dict_get_Some_elem|done]. }
  refine (stable_sort_head leb (λ p q, fle p.1 q.1 = true) _ _ _ _ _ _ _ Es _ Hm).
  - intros p q r. apply fle_trans.
  - intros p Hp. by apply fle_refl, Hnn.
  - intros p q Hp Hq Hl. unfold leb, tuple_lt in Hl. destruct (feq q.1 p.1) eqn:Eq.
    + by destruct (feq_fle _ _ Eq).
    + apply negb_true_iff in Hl. by apply flt_false_fle; auto.
  - intros p q Hp Hq Hl. unfold leb, tuple_lt in Hl. destruct (feq q.1 p.1) eqn:Eq.
    + by destruct (feq_fle _ _ Eq).
    + apply negb_false_iff in Hl. by apply flt_fle.
Qed.

(** ** Concrete runs *)

Definition demo_fairness : FairnessConfig :=
  mkFairness 2 [(GENERATION_CLASS, mkClassConfig f1 1); (EMBEDDING_CLASS, mkClassConfig f2 0)].

Definition demo_init : scheduler :=
  match init demo_fairness with Ret s => s | Raise _ => mkSched 0 [] ∅ true end.

Definition after_acquire (s : scheduler) (c : string) (f : nat) : scheduler :=
  match acquire s c f with Ret (s', _) => s' | Raise _ => s end.
Definition after_release (s : scheduler) (c : string) : scheduler :=
  match release s c with Ret s' => s' | Raise _ => s end.

(** Embedding takes the shared slot and then has to wait; the generation floor is
    untouched and is granted at once. *)
Definition demo_busy : scheduler :=
  after_acquire (after_acquire demo_init EMBEDDING_CLASS 0) EMBEDDING_CLASS 1.

Example demo_floor_kept :
  total_leased (classes demo_busy) = 1 ∧ total_queued (classes demo_busy) = 1%nat ∧
  total_leased (classes (after_acquire demo_busy GENERATION_CLASS 2)) = 2.
Proof. vm_compute. done. Qed.

Lemma demo_wf : dict_wf (cfg_classes demo_fairness).
Proof. unfold dict_wf. cbn. apply NoDup_cons. split; [|apply NoDup_singleton]. set_solver. Qed.

Lemma after_acquire_step s c f : res_ok (acquire s c f) = true → sched_step s (after_acquire s c f).
Proof.
  unfold after_acquire. destruct (acquire s c f) as [[s' r]|] eqn:E; [|done].
  intros _. by eapply ss_acquire.
Qed.

Lemma demo_busy_reachable : reachable demo_fairness demo_busy.
Proof.
  exists demo_init. split; [reflexivity|].
  eapply rtc_l; [apply (after_acquire_step _ EMBEDDING_CLASS 0); vm_compute; reflexivity|].
  eapply rtc_l; [apply (after_acquire_step _ EMBEDDING_CLASS 1); vm_compute; reflexivity|].
  apply rtc_refl.
Qed.

Lemma scheduler_capacity_witness :
  total_leased (classes demo_busy) + sumZ (λ e, unfilled e.2) (classes demo_busy) <= 2.
Proof. exact (proj1 (proj2 (scheduler_capacity demo_fairness demo_busy demo_wf demo_busy_reachable))). Defined.

Definition demo_waiting : ClassState := mkState (mkClassConfig f2 0) 1 (fdiv f1 f2) [1%nat].

Lemma scheduler_work_conserving_witness :
  commitment (classes demo_busy) = total_slots demo_busy.
Proof.
  refine (proj2 (scheduler_work_conserving demo_fairness demo_busy EMBEDDING_CLASS demo_waiting
                   demo_wf demo_busy_reachable _ _)); vm_compute; reflexivity.
Defined.

Lemma acquire_no_overtaking_witness :
  grant_kind demo_busy GENERATION_CLASS (mkState (mkClassConfig f1 1) 0 f0 []) = Some Floor ∨
  ∀ m st', dict_get m (classes demo_busy) = Some st' → has_waiters st' = false.
Proof.
  refine (acquire_no_overtaking demo_fairness demo_busy GENERATION_CLASS _ 2
    (after_acquire demo_busy GENERATION_CLASS 2) demo_wf demo_busy_reachable _ _); reflexivity.
Defined.

Lemma pump_terminates_witness : ∃ s', pump_loop 2 demo_busy = Some s' ∧ pump_choice s' = None.
Proof.
  destruct (pump_terminates demo_busy 2) as (s' & H1 & H2 & _).
  - exact (proj1 (proj1 (reachable_inv _ _ demo_wf demo_busy_reachable))).
  - vm_compute. lia.
  - exists s'. exact (conj H1 H2).
Defined.

Lemma scheduler_idle_exact_witness :
  idle demo_busy = true ↔ total_leased (classes demo_busy) = 0 ∧
    ∀ n st, dict_get n (classes demo_busy) = Some st → waiters st = [].
Proof. exact (scheduler_idle_exact demo_fairness demo_busy demo_wf demo_busy_reachable). Defined.

(** Two classes compete for one shared slot; the class with the smaller virtual time
    is chosen. *)
Definition demo_contended : scheduler :=
  mkSched 1 [("a"%string, mkState (mkClassConfig f1 0) 0 f2 [0%nat]);
             ("b"%string, mkState (mkClassConfig f1 0) 0 f1 [1%nat])] ∅ false.

Lemma pump_choice_most_owed_witness : fle f1 f2 = true.
Proof.
  refine (pump_choice_most_owed demo_contended "b"
            (mkState (mkClassConfig f1 0) 0 f1 [1%nat]) "a"
            (mkState (mkClassConfig f1 0) 0 f2 [0%nat]) _ _ _ _ _ _ _ _); try (vm_compute; reflexivity).
  - constructor.
    + unfold dict_wf. cbn. apply NoDup_cons. split; [|apply NoDup_singleton].
      intros H%list_elem_of_singleton. discriminate H.
    + intros n st H%dict_get_Some_elem. cbn in H.
      apply elem_of_cons in H as [[= _ ->]|[[= _ ->]|H%elem_of_nil]%elem_of_cons]; done || (simpl; lia).
    + vm_compute. discriminate.
  - intros k x H%dict_get_Some_elem. cbn in H.
    apply elem_of_cons in H as [[= _ ->]|[[= _ ->]|H%elem_of_nil]%elem_of_cons]; done.
Defined.

(** A cancelled waiter leaks its slot.  One slot, one class: a request holds the
    slot, a second one queues and its task is cancelled, the first one releases.
    The release grants the slot to the cancelled future, so although every request
    is finished the slot stays leased: the pool never becomes idle and the next
    request waits for a release that nobody will make. *)
Theorem cancelled_waiter_leaks_slot :
  let c := mkFairness 1 [(EMBEDDING_CLASS, mkClassConfig f1 0)] in
  ∃ s0 s1 s2 s3 s4,
    init c = Ret s0 ∧
    acquire s0 EMBEDDING_CLASS 0 = Ret (s1, Granted) ∧
    acquire s1 EMBEDDING_CLASS 1 = Ret (s2, Awaiting 1) ∧
    futs s2 !! 1%nat = Some Pending ∧
    release (cancel s2 1) EMBEDDING_CLASS = Ret s3 ∧
    futs s3 !! 1%nat = Some Cancelled ∧ total_leased (classes s3) = 1 ∧ idle s3 = false ∧
    acquire s3 EMBEDDING_CLASS 2 = Ret (s4, Awaiting 2) ∧ futs s4 !! 2%nat = Some Pending.
Proof. cbn zeta. do 5 eexists. repeat split; reflexivity. Qed.

End Scheduler.
