(* ===== verification/AdaptiveBatching.v ===== *)
(** The adaptive batching controller: [core/adaptive_batching.py].

    A PI controller drives [max_batch_wait_ms], a gated proportional controller
    drives [max_batch_cost], and a starvation detector resets both when they are
    pinned at their floors.  The dataclass's tuning fields are the record [params],
    its mutable fields the record [ctl].  [0.5 ** y] is libm's [pow]: it is the
    parameter [fpow] of the step, and no theorem assumes anything about it.
    [time.monotonic()] is read once per step, the argument [now]. *)

From S2P Require Import Prelude PyFloat Batcher.
Local Open Scope Z_scope.

Module Adaptive.

Inductive error := IndexError | ZeroDivisionError.

(** ** Rolling windows *)

(** [deque(maxlen=m).append(x)] *)
Definition deque_append {A} (m : nat) (l : list A) (x : A) : list A :=
  drop (length (l ++ [x]) - m) (l ++ [x]).

Record LatencyTracker := mkTracker {
  window_size : nat;
  min_samples : nat;
  samples : list float;
}.

Definition new_tracker (w m : nat) : LatencyTracker := mkTracker w m [].

(** [LatencyTracker.record] *)
Definition record_latency (t : LatencyTracker) (total_ms : float) : LatencyTracker :=
  mkTracker (window_size t) (min_samples t) (deque_append (window_size t) (samples t) total_ms).

(** [sorted(self._samples)] *)
Definition sort_floats (l : list float) : list float := stable_sort (λ x y, negb (flt y x)) l.

(** [int(p / 100.0 * (n - 1))] *)
Definition percentile_index (p n : Z) : option Z :=
  ftrunc (fmul (fdiv (f_of_Z p) (f_of_Z 100)) (f_of_Z (n - 1))).

(** [LatencyTracker.percentile]; a Python index may be negative. *)
Definition percentile (t : LatencyTracker) (p : Z) : res error (option float) :=
  let n := length (samples t) in
  if (n <? min_samples t)%nat then Ret None
  else
    match percentile_index p (Z.of_nat n) with
    | None => Raise IndexError
    | Some i =>
        let i' := if i <? 0 then i + Z.of_nat n else i in
        if i' <? 0 then Raise IndexError
        else match sort_floats (samples t) !! Z.to_nat i' with
             | Some x => Ret (Some x)
             | None => Raise IndexError
             end
    end.

Definition p50 (t : LatencyTracker) := percentile t 50.
Definition p90 (t : LatencyTracker) := percentile t 90.
Definition p99 (t : LatencyTracker) := percentile t 99.

(** [LatencyTracker.reset] *)
Definition reset_latency (t : LatencyTracker) : LatencyTracker :=
  mkTracker (window_size t) (min_samples t) [].

Record BatchEfficiencyTracker := mkEff { eff_window : nat; fill_ratios : list float }.

(** [BatchEfficiencyTracker.record] *)
Definition record_fill (t : BatchEfficiencyTracker) (actual_cost max_cost : Z) : BatchEfficiencyTracker :=
  if 0 <? max_cost
  then mkEff (eff_window t) (deque_append (eff_window t) (fill_ratios t) (int_truediv actual_cost max_cost))
  else t.

Definition fabs (x : float) : float := SpecFloat.SFabs x.
Definition is_finite (x : float) : bool :=
  match x with SpecFloat.S754_zero _ | SpecFloat.S754_finite _ _ _ => true | _ => false end.

(** [sum()] over floats: CPython 3.12 accumulates with Neumaier's compensation. *)
Fixpoint sum_loop (l : list float) (acc c : float) : float :=
  match l with
  | [] => if negb (feq c f0) && is_finite c then fadd acc c else acc
  | x :: l' =>
      let t := fadd acc x in
      let c' := if fle (fabs x) (fabs acc)
                then fadd c (fadd (fsub acc t) x)
                else fadd c (fadd (fsub x t) acc) in
      sum_loop l' t c'
  end.

Definition py_sum (l : list float) : float :=
  match l with [] => f0 | x :: l' => sum_loop l' (fadd f0 x) f0 end.

(** [BatchEfficiencyTracker.mean_fill_ratio] *)
Definition mean_fill_ratio (t : BatchEfficiencyTracker) : option float :=
  match fill_ratios t with
  | [] => None
  | l => Some (fdiv (py_sum l) (f_of_Z (Z.of_nat (length l))))
  end.

(** ** The controller *)

Record params := mkParams {
  calibration_multiplier : float;
  min_target_p50_ms : float;
  max_target_p50_ms : float;
  min_wait_ms : float;
  max_wait_ms : float;
  min_batch_cost : Z;
  max_batch_cost : Z;
  gain : float;
  integral_gain : float;
  cost_gain : float;
  update_interval : Z;
  fill_ratio_threshold : float;
  starvation_recovery_enabled : bool;
  starvation_window : Z;
  starvation_batch_size : Z;
  integral_max : float;
  initial_wait_ms : float;      (* captured by __post_init__ *)
  initial_batch_cost : Z;
  auto_calibrate : bool;
}.

Record ctl := mkCtl {
  target_p50_ms : option float;
  current_wait_ms : float;
  current_batch_cost : Z;
  steps_since_update : Z;
  calibrated : bool;
  inference_tracker : LatencyTracker;
  integral : float;
  last_step_time : option float;
  starvation_streak : Z;
  starvation_resets : Z;
}.

(** The default field values of the dataclass, with [__post_init__] applied to a
    given target and to start values for the two knobs. *)
Definition default_params (target : option float) (wait : float) (cost_ : Z) : params :=
  mkParams (flit 15 10) (f_of_Z 5) (f_of_Z 500) f1 (f_of_Z 50) 256 65536
    (flit 3 10) (flit 5 100) (flit 15 100) 10 (flit 7 10) true 20 1 (f_of_Z 20) wait cost_
    (match target with None => true | Some _ => false end).

(** [__post_init__]: the rest of the initial state *)
Definition post_init (target : option float) (wait : float) (cost_ : Z) : ctl :=
  mkCtl target wait cost_ 0 (match target with None => false | Some _ => true end)
    (new_tracker 50 10) f0 None 0 0.

(** [record_inference_sample] *)
Definition record_inference_sample (s : ctl) (inference_ms : float) : ctl :=
  if calibrated s then s
  else mkCtl (target_p50_ms s) (current_wait_ms s) (current_batch_cost s) (steps_since_update s)
         (calibrated s) (record_latency (inference_tracker s) inference_ms) (integral s)
         (last_step_time s) (starvation_streak s) (starvation_resets s).

Definition set_streak (s : ctl) (k : Z) : ctl :=
  mkCtl (target_p50_ms s) (current_wait_ms s) (current_batch_cost s) (steps_since_update s)
    (calibrated s) (inference_tracker s) (integral s) (last_step_time s) k (starvation_resets s).
Definition set_steps (s : ctl) (k : Z) : ctl :=
  mkCtl (target_p50_ms s) (current_wait_ms s) (current_batch_cost s) k
    (calibrated s) (inference_tracker s) (integral s) (last_step_time s)
    (starvation_streak s) (starvation_resets s).
Definition set_pi (s : ctl) (i : float) (t : option float) : ctl :=
  mkCtl (target_p50_ms s) (current_wait_ms s) (current_batch_cost s) (steps_since_update s)
    (calibrated s) (inference_tracker s) i t (starvation_streak s) (starvation_resets s).
Definition set_wait (s : ctl) (w : float) : ctl :=
  mkCtl (target_p50_ms s) w (current_batch_cost s) (steps_since_update s)
    (calibrated s) (inference_tracker s) (integral s) (last_step_time s)
    (starvation_streak s) (starvation_resets s).
Definition set_cost (s : ctl) (c : Z) : ctl :=
  mkCtl (target_p50_ms s) (current_wait_ms s) c (steps_since_update s)
    (calibrated s) (inference_tracker s) (integral s) (last_step_time s)
    (starvation_streak s) (starvation_resets s).

(** [_is_pinned_at_floor] *)
Definition is_pinned_at_floor (p : params) (s : ctl) : bool :=
  fle (current_wait_ms s) (min_wait_ms p) && (current_batch_cost s <=? min_batch_cost p).

(** [_update_starvation_tracker] *)
Definition update_starvation_tracker (p : params) (s : ctl) (batch_size : option Z)
    (pinned_at_floor : bool) : ctl :=
  match batch_size with
  | None => set_streak s 0
  | Some n =>
      if negb pinned_at_floor then set_streak s 0
      else if starvation_batch_size p <? n then set_streak s 0
      else set_streak s (starvation_streak s + 1)
  end.

(** [int(_clamp(v, lo, hi))] with integer bounds; the clamp is always a finite number
    (see [nclamp_int_bounds]), so the default is never used. *)
Definition clamp_int (v : num) (lo hi : Z) : Z :=
  default lo (num_int (nclamp v (NInt lo) (NInt hi))).

(** [_maybe_recover_from_starvation] *)
Definition maybe_recover_from_starvation (p : params) (s : ctl) : ctl * bool :=
  if negb (starvation_recovery_enabled p) then (s, false)
  else if starvation_streak s <? starvation_window p then (s, false)
  else if negb (is_pinned_at_floor p s) then (s, false)
  else
    let recovery_wait := fclamp (fdiv (fadd (min_wait_ms p) (initial_wait_ms p)) f2)
                           (min_wait_ms p) (max_wait_ms p) in
    let recovery_cost := clamp_int (NInt (Z.max (initial_batch_cost p / 2) (min_batch_cost p * 4)))
                           (min_batch_cost p) (max_batch_cost p) in
    (mkCtl (target_p50_ms s) recovery_wait recovery_cost (steps_since_update s) (calibrated s)
       (inference_tracker s) f0 None 0 (starvation_resets s + 1), true).

(** The auto-calibration phase of [step]. *)
Definition calibrate (p : params) (s : ctl) : ctl * option error :=
  match p50 (inference_tracker s) with
  | Raise e => (s, Some e)
  | Ret None => (s, None)
  | Ret (Some inference_p50) =>
      (mkCtl (Some (fclamp (fmul inference_p50 (calibration_multiplier p))
                      (min_target_p50_ms p) (max_target_p50_ms p)))
         (current_wait_ms s) (current_batch_cost s) (steps_since_update s) true
         (inference_tracker s) f0 None (starvation_streak s) (starvation_resets s), None)
  end.

Section step.
Context (fpow : float → float → float).

(** Time since the last update, idle decay and the integral term of [step]. *)
Definition integrate (p : params) (s : ctl) (headroom_ms now : float) : ctl :=
  let dt_s := match last_step_time s with
              | Some t => fmin (fsub now t) (f_of_Z 5)
              | None => f0
              end in
  let i1 := if flt f2 dt_s
            then fmul (integral s) (fpow (flit 1 2) (fsub dt_s f2))
            else integral s in
  let output_at_max := fle (max_wait_ms p) (current_wait_ms s) in
  let output_at_min := fle (current_wait_ms s) (min_wait_ms p) in
  let can_integrate := negb (output_at_max && flt f0 headroom_ms)
                       && negb (output_at_min && flt headroom_ms f0) in
  let i2 := if can_integrate && flt f0 (integral_gain p)
            then fclamp (fadd i1 (fmul headroom_ms dt_s)) (fopp (integral_max p)) (integral_max p)
            else i1 in
  set_pi s i2 (Some now).

(** Knob 1: the PI update of the wait. *)
Definition update_wait (p : params) (s : ctl) (headroom_ms : float) : ctl :=
  let wait_adjustment := fadd (fmul headroom_ms (gain p)) (fmul (integral s) (integral_gain p)) in
  set_wait s (fclamp (fadd (current_wait_ms s) wait_adjustment) (min_wait_ms p) (max_wait_ms p)).

(** Knob 2: the gated proportional update of the cost. *)
Definition update_cost (p : params) (s : ctl) (headroom_ms headroom_frac : float)
    (fill_ratio : option float) : ctl :=
  match fill_ratio with
  | None => s
  | Some r =>
      if fle (fill_ratio_threshold p) r then
        let cost_at_max := max_batch_cost p <=? current_batch_cost s in
        let cost_at_min := current_batch_cost s <=? min_batch_cost p in
        if (cost_at_max && flt f0 headroom_ms) || (cost_at_min && flt headroom_ms f0) then s
        else
          let c := f_of_Z (current_batch_cost s) in
          let new_cost := fadd c (fmul (fmul c headroom_frac) (cost_gain p)) in
          set_cost s (clamp_int (NFlt new_cost) (min_batch_cost p) (max_batch_cost p))
      else s
  end.

(** [step]: the state after the call and what it returns or raises. *)
Definition step (p : params) (s : ctl) (observed_p50_ms fill_ratio : option float)
    (batch_size : option Z) (now : float) : ctl * res error (float * Z) :=
  let ret s := (s, Ret (current_wait_ms s, current_batch_cost s)) in
  let s1 := update_starvation_tracker p s batch_size (is_pinned_at_floor p s) in
  let s2 := set_steps s1 (steps_since_update s1 + 1) in
  if steps_since_update s2 <? update_interval p then ret s2
  else
    let s3 := set_steps s2 0 in
    if negb (calibrated s3) then
      match calibrate p s3 with
      | (s4, None) => ret s4
      | (s4, Some e) => (s4, Raise e)
      end
    else
      match observed_p50_ms, target_p50_ms s3 with
      | Some observed, Some target =>
          match maybe_recover_from_starvation p s3 with
          | (s4, true) => ret s4
          | (s4, false) =>
              let headroom_ms := fsub target observed in
              if feq target f0 then (s4, Raise ZeroDivisionError)
              else
                let headroom_frac := fdiv headroom_ms target in
                let s5 := integrate p s4 headroom_ms now in
                let s6 := update_wait p s5 headroom_ms in
                ret (update_cost p s6 headroom_ms headroom_frac fill_ratio)
          end
      | _, _ => ret s3
      end.

(** [apply_step]: write the returned limits into the shared [BatchConfig]. *)
Definition apply_step (p : params) (s : ctl) (target : Batcher.BatchConfig)
    (observed_p50_ms fill_ratio : option float) (batch_size : option Z) (now : float)
    : ctl * Batcher.BatchConfig * res error (float * Z) :=
  match step p s observed_p50_ms fill_ratio batch_size now with
  | (s', Ret (w, c)) =>
      (s', Batcher.mkConfig c (Batcher.max_batch_requests target) w
             (Batcher.coalesce_ms target) (Batcher.coalesce_ratio target), Ret (w, c))
  | (s', Raise e) => (s', target, Raise e)
  end.
End step.

(** [reset] *)
Definition reset (p : params) (s : ctl) : ctl :=
  mkCtl (if auto_calibrate p then None else target_p50_ms s)
    (fclamp (initial_wait_ms p) (min_wait_ms p) (max_wait_ms p))
    (clamp_int (NInt (initial_batch_cost p)) (min_batch_cost p) (max_batch_cost p))
    0 (if auto_calibrate p then false else calibrated s)
    (if auto_calibrate p then reset_latency (inference_tracker s) else inference_tracker s)
    f0 None 0 (starvation_resets s).

(** [AdaptiveBatchingParams] of [core/worker/types.py] *)
Record AdaptiveBatchingParams := mkAbParams {
  ab_enabled : bool;
  ab_target_p50_ms : option float;
  ab_calibration_multiplier : float;
  ab_min_target_p50_ms : float;
  ab_max_target_p50_ms : float;
  ab_min_wait_ms : float;
  ab_max_wait_ms : float;
  ab_gain : float;
  ab_integral_gain : float;
  ab_window_size : nat;
  ab_update_interval : Z;
  ab_starvation_recovery_enabled : bool;
  ab_starvation_window : Z;
  ab_starvation_batch_size : Z;
}.

(** The floor of the cost knob that [ModelWorker.__init__] computes. *)
Definition cost_floor (max_batch_tokens : Z) : Z :=
  Z.min (Z.max 256 (max_batch_tokens / 4)) max_batch_tokens.

(** The controller [ModelWorker.__init__] creates, with its parameters. *)
Definition worker_controller (ab : AdaptiveBatchingParams) (max_batch_tokens : Z) (max_batch_wait_ms : float)
    : option (params * ctl) :=
  if ab_enabled ab then
    let fl := cost_floor max_batch_tokens in
    Some (mkParams (ab_calibration_multiplier ab) (ab_min_target_p50_ms ab) (ab_max_target_p50_ms ab)
            (ab_min_wait_ms ab) (ab_max_wait_ms ab) fl (Z.max fl (max_batch_tokens * 4))
            (ab_gain ab) (ab_integral_gain ab) (fmul (ab_gain ab) (flit 5 10)) (ab_update_interval ab)
            (flit 7 10) (ab_starvation_recovery_enabled ab) (ab_starvation_window ab)
            (ab_starvation_batch_size ab) (f_of_Z 20) max_batch_wait_ms max_batch_tokens
            (match ab_target_p50_ms ab with None => true | Some _ => false end),
          post_init (ab_target_p50_ms ab) max_batch_wait_ms max_batch_tokens)
  else None.

(** ** The knobs stay in their ranges *)

Record params_ok (p : params) : Prop := {
  po_wait : fle (min_wait_ms p) (max_wait_ms p) = true;
  po_cost : min_batch_cost p <= max_batch_cost p;
}.

Record in_range (p : params) (s : ctl) : Prop := {
  ir_wait_lo : fle (min_wait_ms p) (current_wait_ms s) = true;
  ir_wait_hi : fle (current_wait_ms s) (max_wait_ms p) = true;
  ir_cost : min_batch_cost p <= current_batch_cost s <= max_batch_cost p;
}.

(** The worker's controller starts with sound parameters, a positive floor strictly below
    the ceiling, and the cost knob in range, for every positive token budget. *)
Lemma worker_controller_ok ab mt wait p s :
  worker_controller ab mt wait = Some (p, s) → 0 < mt → fle (ab_min_wait_ms ab) (ab_max_wait_ms ab) = true →
  params_ok p ∧ 0 < min_batch_cost p < max_batch_cost p ∧
  min_batch_cost p <= current_batch_cost s <= max_batch_cost p ∧ starvation_streak s = 0.
Proof.
  unfold worker_controller, cost_floor. destruct (ab_enabled ab); [|done]. intros [= <- <-] Hm Hw. cbn.
  assert (0 <= mt / 4 <= mt) by (split; [apply Z.div_pos; lia|apply Z.div_le_upper_bound; lia]).
  split; [constructor; cbn; [done|lia]|]. repeat split; lia.
Qed.

Lemma clamp_int_bounds v lo hi : lo <= hi → lo <= clamp_int v lo hi <= hi.
Proof.
  intros H. unfold clamp_int. by destruct (nclamp_int_bounds v lo hi H) as (c & -> & ?).
Qed.

Lemma in_range_knobs p s s' :
  current_wait_ms s' = current_wait_ms s → current_batch_cost s' = current_batch_cost s →
  in_range p s → in_range p s'.
Proof. intros E1 E2 [H1 H2 H3]. constructor; rewrite ?E1, ?E2; done. Qed.

Lemma update_starvation_knobs p s n b :
  let s' := update_starvation_tracker p s n b in
  current_wait_ms s' = current_wait_ms s ∧ current_batch_cost s' = current_batch_cost s ∧
  calibrated s' = calibrated s ∧ target_p50_ms s' = target_p50_ms s ∧
  steps_since_update s' = steps_since_update s ∧ starvation_resets s' = starvation_resets s ∧
  inference_tracker s' = inference_tracker s.
Proof. destruct n as [n|]; cbn; [destruct b; cbn; [destruct (_ <? n)|]|]; done. Qed.

Lemma recover_in_range p s :
  params_ok p → in_range p s → in_range p (maybe_recover_from_starvation p s).1.
Proof.
  intros [Hw Hc] Hr. unfold maybe_recover_from_starvation. split_ifs; try done.
  pose proof (fclamp_bounds (fdiv (fadd (min_wait_ms p) (initial_wait_ms p)) f2) _ _ Hw) as [? ?].
  constructor; cbn; [done|done|]. by apply clamp_int_bounds.
Qed.

Lemma update_wait_in_range p s h : params_ok p → in_range p s → in_range p (update_wait p s h).
Proof.
  intros [Hw Hc] [_ _ Hr]. constructor; cbn; [..|done]; by apply fclamp_bounds.
Qed.

Lemma update_cost_in_range p s h hf r : params_ok p → in_range p s → in_range p (update_cost p s h hf r).
Proof.
  intros [Hw Hc] Hr. destruct r as [r|]; [|done]. unfold update_cost. split_ifs; try done.
  destruct Hr. constructor; cbn; [done..|]. by apply clamp_int_bounds.
Qed.

Lemma step_in_range fpow p s o r n now :
  params_ok p → in_range p s → in_range p (step fpow p s o r n now).1.
Proof.
  intros Hp Hr. unfold step.
  set (s1 := update_starvation_tracker p s n (is_pinned_at_floor p s)).
  assert (in_range p s1) as Hr1.
  { eapply in_range_knobs; [..|exact Hr]; apply update_starvation_knobs. }
  assert (∀ k, in_range p (set_steps (set_steps s1 (steps_since_update s1 + 1)) k)) as Hr3.
  { intros k. eapply in_range_knobs; [..|exact Hr1]; done. }
  destruct (_ <? update_interval p); [by eapply in_range_knobs; [..|exact Hr1]|].
  destruct (negb _).
  - unfold calibrate. destruct (p50 _) as [[x|]|]; cbn [fst]; try apply Hr3.
    eapply in_range_knobs; [..|apply (Hr3 0)]; done.
  - destruct o as [ob|]; [|apply Hr3]. destruct (target_p50_ms _) as [tg|]; [|apply Hr3].
    pose proof (recover_in_range p _ Hp (Hr3 0)) as Hr4.
    destruct (maybe_recover_from_starvation p _) as [s4 []]; [exact Hr4|].
    destruct (feq tg f0); [exact Hr4|].
    apply update_cost_in_range, update_wait_in_range; [done..|].
    eapply in_range_knobs; [..|exact Hr4]; done.
Qed.

(** The controller never leaves its operating range, and the batcher never sees
    anything else.  Once the two knobs are within the configured bounds, every
    [apply_step], whatever latencies (NaN and infinities included), fill ratios,
    clock readings and libm results it is fed, leaves them within the bounds; the
    limits it writes into the shared batch configuration are exactly the
    controller's knobs, and the other fields of the configuration are untouched. *)
Theorem apply_step_in_range fpow p s cfg o r n now :
  params_ok p → in_range p s →
  let '(s', cfg', out) := apply_step fpow p s cfg o r n now in
  in_range p s' ∧
  Batcher.max_batch_requests cfg' = Batcher.max_batch_requests cfg ∧
  Batcher.coalesce_ms cfg' = Batcher.coalesce_ms cfg ∧
  match out with
  | Ret (w, c) => Batcher.max_batch_wait_ms cfg' = w ∧ Batcher.max_batch_cost cfg' = c ∧
      w = current_wait_ms s' ∧ c = current_batch_cost s'
  | Raise _ => cfg' = cfg
  end.
Proof.
  intros Hp Hr. pose proof (step_in_range fpow p s o r n now Hp Hr) as Hs.
  assert (∀ w c, (step fpow p s o r n now).2 = Ret (w, c) →
    w = current_wait_ms (step fpow p s o r n now).1 ∧ c = current_batch_cost (step fpow p s o r n now).1) as Hret.
  { clear. intros w c. unfold step. destruct (_ <? update_interval p); [by intros [= <- <-]|].
    destruct (negb _).
    - unfold calibrate. destruct (p50 _) as [[x|]|]; cbn; by intros [= <- <-].
    - destruct o as [ob|]; [|by intros [= <- <-]].
      destruct (target_p50_ms _) as [tg|]; [|by intros [= <- <-]].
      destruct (maybe_recover_from_starvation p _) as [s4 []]; [by intros [= <- <-]|].
      destruct (feq tg f0); [done|]. by intros [= <- <-]. }
  unfold apply_step. destruct (step fpow p s o r n now) as [s' [[w c]|e]]; cbn in *.
  - by destruct (Hret w c eq_refl).
  - done.
Qed.

(** [reset] returns to the start values, clamped to the range, from any state; an
    auto-calibrating controller goes back to calibrating with no samples, one with an
    explicit target keeps it, and the reset counter is not cleared. *)
Theorem reset_in_range p s :
  params_ok p →
  in_range p (reset p s) ∧ starvation_resets (reset p s) = starvation_resets s ∧
  starvation_streak (reset p s) = 0 ∧ integral (reset p s) = f0 ∧
  (auto_calibrate p = true → calibrated (reset p s) = false ∧ target_p50_ms (reset p s) = None ∧
     samples (inference_tracker (reset p s)) = []) ∧
  (auto_calibrate p = false → calibrated (reset p s) = calibrated s ∧
     target_p50_ms (reset p s) = target_p50_ms s).
Proof.
  intros [Hw Hc].
  split; [constructor; cbn; [by apply fclamp_bounds..|by apply clamp_int_bounds]|].
  do 3 (split; [done|]). unfold reset. cbn. by split; intros ->.
Qed.

(** ** Starvation recovery *)

(** Recovery escapes the deadlock.  When the controller has been pinned at both
    floors for [starvation_window] consecutive tiny batches, the next update resets
    it: the cost knob ends strictly above its floor, so the controller is no longer
    pinned; the streak and the integrator are cleared and the event is counted. *)
Theorem starvation_recovery_escapes fpow p s o r n now tg :
  params_ok p → 0 < min_batch_cost p < max_batch_cost p →
  starvation_recovery_enabled p = true →
  calibrated s = true → target_p50_ms s = Some tg →
  is_pinned_at_floor p s = true →
  update_interval p <= steps_since_update s + 1 →
  n <= starvation_batch_size p → starvation_window p <= starvation_streak s + 1 →
  let s' := (step fpow p s (Some o) r (Some n) now).1 in
  is_pinned_at_floor p s' = false ∧ min_batch_cost p < current_batch_cost s' ∧
  in_range p s' ∧
  starvation_streak s' = 0 ∧ integral s' = f0 ∧ starvation_resets s' = starvation_resets s + 1.
Proof.
  intros Hp Hmin Hen Hcal Htg Hpin Hint Hn Hwin. unfold step. rewrite Hpin.
  unfold update_starvation_tracker. cbn [negb].
  destruct (Z.ltb_spec (starvation_batch_size p) n); [lia|].
  cbn [set_streak set_steps steps_since_update calibrated target_p50_ms].
  destruct (Z.ltb_spec (steps_since_update s + 1) (update_interval p)); [lia|].
  rewrite Hcal, Htg. cbn [negb].
  unfold maybe_recover_from_starvation. rewrite Hen. cbn [negb starvation_streak set_steps set_streak].
  destruct (Z.ltb_spec (starvation_streak s + 1) (starvation_window p)); [lia|].
  match goal with |- context [negb (is_pinned_at_floor p ?x)] =>
    change (is_pinned_at_floor p x) with (is_pinned_at_floor p s) end.
  rewrite Hpin. unfold is_pinned_at_floor.
  cbn [negb fst current_wait_ms current_batch_cost starvation_streak integral starvation_resets].
  destruct Hp as [Hw Hc].
  assert (min_batch_cost p < clamp_int (NInt (Z.max (initial_batch_cost p / 2) (min_batch_cost p * 4)))
            (min_batch_cost p) (max_batch_cost p)) as Hgt.
  { unfold clamp_int, py_clamp, py_max, py_min, num_lt. cbn.
    set (v := Z.max _ _). assert (min_batch_cost p < v) by (unfold v; lia).
    destruct (Z.compare_spec v (max_batch_cost p)); cbn.
    all: match goal with |- context [?a ?= ?b] => destruct (Z.compare_spec a b) end; cbn; lia. }
  split; [apply andb_false_iff; right; apply Z.leb_gt; exact Hgt|]. split; [done|].
  split; [|done]. constructor; cbn; [by apply fclamp_bounds..|]. by apply clamp_int_bounds.
Qed.

(** ** Calibration *)

(** Knobs are held until the target is known.  An uncalibrated controller never
    moves its knobs; it calibrates exactly at the first update at which the
    inference window has [min_samples] samples, and then the target lies between the
    configured bounds. *)
Theorem calibration_holds_knobs fpow p s o r n now :
  calibrated s = false →
  fle (min_target_p50_ms p) (max_target_p50_ms p) = true →
  let s' := (step fpow p s o r n now).1 in
  current_wait_ms s' = current_wait_ms s ∧ current_batch_cost s' = current_batch_cost s ∧
  (calibrated s' = true ↔
     update_interval p <= steps_since_update s + 1 ∧ ∃ x, p50 (inference_tracker s) = Ret (Some x)) ∧
  (calibrated s' = true → ∃ t, target_p50_ms s' = Some t ∧
     fle (min_target_p50_ms p) t = true ∧ fle t (max_target_p50_ms p) = true).
Proof.
  intros Hcal Ht. unfold step.
  destruct (update_starvation_knobs p s n (is_pinned_at_floor p s)) as (E1 & E2 & E3 & E4 & E5 & _ & E7).
  set (s1 := update_starvation_tracker p s n (is_pinned_at_floor p s)) in *.
  cbn [set_steps steps_since_update calibrated]. rewrite E5, E3, Hcal.
  destruct (_ <? update_interval p) eqn:Eu; cbn [fst negb].
  - cbn. rewrite E1, E2, E3, Hcal. repeat split; try done. intros [? _]. lia.
  - unfold calibrate. cbn [inference_tracker set_steps]. rewrite E7.
    destruct (p50 (inference_tracker s)) as [[x|]|]; cbn; rewrite E1, E2, ?E3, ?Hcal.
    + repeat split; [lia|eauto|]. intros _. eexists. split; [done|]. by apply fclamp_bounds.
    + repeat split; try done. by intros (_ & x & ?).
    + repeat split; try done. by intros (_ & x & ?).
Qed.

(** ** The rolling percentiles are exact *)

Lemma sort_floats_sorted l :
  Forall (λ x, is_nan x = false) l → StronglySorted (λ x y, fle x y = true) (sort_floats l).
Proof.
  intros Hl. assert (∀ x y, is_nan x = false → is_nan y = false → negb (flt y x) = true → fle x y = true) as Hle.
  { intros x y Hx Hy ?%negb_true_iff. by apply flt_false_fle. }
  assert (Forall (λ x, is_nan x = false) (sort_floats l)) as Hl'.
  { unfold sort_floats. by rewrite stable_sort_perm. }
  pose proof (stable_sort_sorted (λ x y, negb (flt y x)) (λ x, is_nan x = false)) as Hsort.
  eapply StronglySorted_weaken_in; [|apply Hsort; [..|exact Hl]].
  - intros x y Hx Hy. rewrite Forall_forall in Hl'. apply Hle; by apply Hl'.
  - intros x y Hx Hy. destruct (fle_total x y Hx Hy) as [H|H]; [left|right];
      apply negb_true_iff, not_true_is_false; intros Hlt;
      pose proof (flt_fle_trans _ _ _ Hlt H) as Hc; fkeys; lia.
  - intros x y z Hx Hy Hz H1 H2. apply negb_true_iff, not_true_is_false. intros Hlt.
    pose proof (flt_fle_trans _ _ _ Hlt (fle_trans _ _ _ (Hle _ _ Hx Hy H1) (Hle _ _ Hy Hz H2))) as Hc.
    fkeys; lia.
Qed.

Lemma deque_append_spec {A} (m : nat) (l : list A) x :
  length (deque_append m l x) = min m (length l + 1).
Proof. unfold deque_append. rewrite length_drop, length_app. simpl. lia. Qed.

Lemma deque_append_last {A} (m : nat) (xs : list A) x :
  deque_append m (drop (length xs - m) xs) x = drop (length (xs ++ [x]) - m) (xs ++ [x]).
Proof.
  unfold deque_append. rewrite !length_app, length_drop. simpl.
  destruct (decide (length xs <= m)%nat).
  - replace (length xs - m)%nat with 0%nat by lia. simpl. f_equal; lia.
  - rewrite <- (drop_app_le xs [x]) by lia. rewrite drop_drop. f_equal; lia.
Qed.

Lemma record_latency_window w m xs :
  foldl record_latency (new_tracker w m) xs = mkTracker w m (drop (length xs - w) xs).
Proof.
  induction xs as [|x xs IH] using rev_ind; [done|].
  rewrite foldl_app, IH. simpl. unfold record_latency. simpl. by rewrite deque_append_last.
Qed.

(** The index arithmetic in binary64 is the exact floor, for every window length a
    tracker of the program can have. *)
Lemma percentile_index_exact p n :
  p ∈ [50; 90; 99] → 1 <= n <= 200 → percentile_index p n = Some (p * (n - 1) / 100).
Proof.
  intros Hp Hn.
  assert (forallb (λ p, forallb (λ n, bool_decide (percentile_index p n = Some (p * (n - 1) / 100)))
            (seqZ 1 200)) [50; 90; 99] = true) as H by (vm_compute; reflexivity).
  rewrite forallb_forall in H. specialize (H p (proj1 (list_elem_of_In _ _) Hp)).
  rewrite forallb_forall in H.
  assert (n ∈ seqZ 1 200) as Hin by (apply elem_of_seqZ; lia).
  specialize (H n (proj1 (list_elem_of_In _ _) Hin)). by apply bool_decide_eq_true in H.
Qed.

(** The latency percentiles are exact order statistics of the last [w] samples.
    After any sequence of recordings into a tracker of the program's sizes, the window
    holds exactly the most recent [w] samples; [p50]/[p90]/[p99] are [None] below
    [min_samples] and otherwise the sample of rank [p * (n - 1) / 100] of the sorted
    window: the index computed in floating point is never off by one and never out
    of range, so no call raises. *)
Theorem percentile_exact w m xs p :
  p ∈ [50; 90; 99] → (1 <= m)%nat → (w <= 200)%nat → Forall (λ x, is_nan x = false) xs →
  let t := foldl record_latency (new_tracker w m) xs in
  let n := length (samples t) in
  samples t = drop (length xs - w) xs ∧ n = min w (length xs) ∧
  sort_floats (samples t) ≡ₚ samples t ∧
  StronglySorted (λ x y, fle x y = true) (sort_floats (samples t)) ∧
  if decide (n < m)%nat then percentile t p = Ret None
  else ∃ x, percentile t p = Ret (Some x) ∧
    sort_floats (samples t) !! Z.to_nat (p * (Z.of_nat n - 1) / 100) = Some x.
Proof.
  intros Hp Hm Hw Hnan. cbv zeta. rewrite record_latency_window. cbn [samples].
  set (l := drop (length xs - w) xs).
  assert (length l = min w (length xs)) as Hlen by (unfold l; rewrite length_drop; lia).
  split; [done|]. split; [done|]. split; [apply stable_sort_perm|].
  split; [apply sort_floats_sorted; by apply Forall_drop|].
  unfold percentile. cbn [samples min_samples].
  destruct (decide _) as [Hlt|Hge]; [by rewrite (proj2 (Nat.ltb_lt _ _))|].
  rewrite (proj2 (Nat.ltb_ge _ _)) by lia.
  rewrite percentile_index_exact by (done || lia).
  set (i := p * _ / 100).
  assert (0 <= i <= Z.of_nat (length l) - 1) as Hi.
  { assert (0 <= p <= 100) by (repeat (apply elem_of_cons in Hp as [->|Hp]; [lia|]); by apply elem_of_nil in Hp).
    unfold i. split; [apply Z.div_pos; nia|]. apply Z.div_le_upper_bound; nia. }
  rewrite (proj2 (Z.ltb_ge i 0)) by lia. rewrite (proj2 (Z.ltb_ge i 0)) by lia.
  destruct (lookup_lt_is_Some_2 (sort_floats l) (Z.to_nat i)) as [x Hx].
  { unfold sort_floats. rewrite length_stable_sort. lia. }
  rewrite Hx. eauto.
Qed.

(** ** Witnesses *)

Definition demo_params : params := default_params (Some (f_of_Z 50)) (f_of_Z 10) 16384.
Definition demo_ctl : ctl := post_init (Some (f_of_Z 50)) (f_of_Z 10) 16384.
Definition demo_cfg : Batcher.BatchConfig := Batcher.mkConfig 16384 64 (f_of_Z 10) f0 f0.

(** A controller at its floors after 19 tiny batches, one short of an update. *)
Definition starved_ctl : ctl :=
  mkCtl (Some (f_of_Z 50)) f1 256 9 true (new_tracker 50 10) f0 None 19 0.

Lemma apply_step_in_range_witness :
  let '(s', cfg', out) := apply_step (λ _ y, y) demo_params demo_ctl demo_cfg
       (Some (f_of_Z 80)) (Some f1) (Some 4) f0 in
  in_range demo_params s' ∧
  Batcher.max_batch_requests cfg' = Batcher.max_batch_requests demo_cfg ∧
  Batcher.coalesce_ms cfg' = Batcher.coalesce_ms demo_cfg ∧
  match out with
  | Ret (w, c) => Batcher.max_batch_wait_ms cfg' = w ∧ Batcher.max_batch_cost cfg' = c ∧
      w = current_wait_ms s' ∧ c = current_batch_cost s'
  | Raise _ => cfg' = demo_cfg
  end.
Proof.
  apply (apply_step_in_range (λ _ y, y) demo_params demo_ctl demo_cfg).
  - constructor; [vm_compute; reflexivity|vm_compute; intros [=]].
  - constructor; [vm_compute; reflexivity..|vm_compute; split; intros [=]].
Defined.

Lemma reset_in_range_witness :
  in_range demo_params (reset demo_params starved_ctl) ∧
  starvation_streak (reset demo_params starved_ctl) = 0.
Proof.
  destruct (reset_in_range demo_params starved_ctl) as (? & _ & ? & _).
  - constructor; [vm_compute; reflexivity|vm_compute; intros [=]].
  - split; assumption.
Defined.

Lemma starvation_recovery_escapes_witness :
  let s' := (step (λ _ y, y) demo_params starved_ctl (Some (f_of_Z 80)) None (Some 1) f0).1 in
  is_pinned_at_floor demo_params s' = false ∧ min_batch_cost demo_params < current_batch_cost s' ∧
  in_range demo_params s' ∧
  starvation_streak s' = 0 ∧ integral s' = f0 ∧ starvation_resets s' = starvation_resets starved_ctl + 1.
Proof.
  apply (starvation_recovery_escapes _ demo_params starved_ctl (f_of_Z 80) None 1 f0 (f_of_Z 50)).
  - constructor; [vm_compute; reflexivity|vm_compute; intros [=]].
  - cbn. lia.
  - reflexivity.
  - reflexivity.
  - reflexivity.
  - vm_compute. reflexivity.
  - cbn. lia.
  - cbn. lia.
  - cbn. lia.
Defined.

Definition calibrating_ctl : ctl :=
  mkCtl None (f_of_Z 10) 16384 9 false
    (foldl record_latency (new_tracker 50 10) (f_of_Z <$> seqZ 1 12)) f0 None 0 0.

Lemma calibration_holds_knobs_witness :
  let s' := (step (λ _ y, y) (default_params None (f_of_Z 10) 16384) calibrating_ctl None None None f0).1 in
  current_wait_ms s' = f_of_Z 10 ∧ current_batch_cost s' = 16384 ∧ calibrated s' = true.
Proof.
  destruct (calibration_holds_knobs (λ _ y, y) (default_params None (f_of_Z 10) 16384) calibrating_ctl
    None None None f0) as (H1 & H2 & H3 & _).
  - reflexivity.
  - vm_compute. reflexivity.
  - split; [exact H1|]. split; [exact H2|]. apply H3. split; [cbn; lia|].
    exists (f_of_Z 6). vm_compute. reflexivity.
Defined.

Lemma percentile_exact_witness :
  let t := foldl record_latency (new_tracker 50 10) (f_of_Z <$> seqZ 1 60) in
  length (samples t) = 50%nat ∧ percentile t 90 = Ret (Some (f_of_Z 55)).
Proof.
  destruct (percentile_exact 50 10 (f_of_Z <$> seqZ 1 60) 90) as (_ & Hn & _).
  - right. left.
  - lia.
  - lia.
  - apply Forall_forall. intros x Hx. apply list_elem_of_In in Hx.
    assert (forallb (λ x, negb (is_nan x)) (f_of_Z <$> seqZ 1 60) = true) as H by (vm_compute; reflexivity).
    rewrite forallb_forall in H. apply negb_true_iff. by apply H.
  - split; [|vm_compute; reflexivity]. rewrite Hn. vm_compute. reflexivity.
Defined.

End Adaptive.
