(* ===== verification/Oom.v ===== *)
(** Out-of-memory classification and the eviction decision: [core/oom.py] and
    [core/residency.py].

    [exn] is the part of an exception the recovery code looks at: whether it is an
    [InvalidInputError], whether it is the typed [ResourceExhaustedError] (with its
    marker), and its message.  Messages are ASCII text. *)

From stdpp Require Import pretty strings.
From S2P Require Import Prelude PyFloat.
Local Open Scope Z_scope.

Module Oom.

(** [ResourceExhausted] *)
Record Marker := mkMarker {
  operation : string;
  attempts : Z;
  original_message : string;
}.

Inductive exn :=
  | InvalidInputError (msg : string)
  | ResourceExhaustedError (msg : string) (marker : Marker)
  | OtherError (msg : string).

(** [str(error)] *)
Definition str (e : exn) : string :=
  match e with
  | InvalidInputError m => m
  | ResourceExhaustedError m _ => m
  | OtherError m => m
  end.

(** [_OOM_INDICATORS] *)
Definition OOM_INDICATORS : list string :=
  ["out of memory"; "cannot allocate memory"; "failed to allocate"]%string.

Definition is_oom_error (error : exn) : bool :=
  match error with
  | ResourceExhaustedError _ _ => true
  | _ =>
      let error_str := lower (str error) in
      existsb (λ indicator, str_in indicator error_str) OOM_INDICATORS
  end.

Inductive OomRecoveryAction := CACHE_CLEAR | EVICT_LRU | SPLIT_BATCH.

(** The [StrEnum] value. *)
Definition action_value (a : OomRecoveryAction) : string :=
  match a with
  | CACHE_CLEAR => "cache_clear"
  | EVICT_LRU => "evict_lru"
  | SPLIT_BATCH => "split_batch"
  end.

#[export] Instance action_eq_dec : EqDecision OomRecoveryAction.
Proof. solve_decision. Defined.
#[export] Instance marker_eq_dec : EqDecision Marker.
Proof. solve_decision. Defined.
#[export] Instance exn_eq_dec : EqDecision exn.
Proof. solve_decision. Defined.

(** [_DEFAULT_STRATEGY] *)
Definition DEFAULT_STRATEGY : list OomRecoveryAction := [CACHE_CLEAR; EVICT_LRU; SPLIT_BATCH].

Record OomRecoveryConfig := mkOomConfig {
  enabled : bool;
  strategy : list OomRecoveryAction;
  max_split_depth : Z;
  eviction_lock_timeout_s : float;
  retry_after_s : Z;
}.

Definition default_config : OomRecoveryConfig := mkOomConfig true DEFAULT_STRATEGY 4 (f_of_Z 5) 5.

Record OomRecoveryStats := mkOomStats {
  cache_clears : Z;
  evictions_triggered : Z;
  batch_splits : Z;
  terminal_failures : Z;
  recoveries_attempted : Z;
  recoveries_succeeded : Z;
}.

Definition zero_stats : OomRecoveryStats := mkOomStats 0 0 0 0 0 0.

(** [BatchExecutor._wrap_oom] *)
Definition wrap_oom (error : exn) (att : Z) : exn :=
  ResourceExhaustedError
    ("Resource exhausted after " +:+ pretty att +:+ " recovery attempts: " +:+ str error)
    (mkMarker "inference" att (str error)).

(** ** The eviction decision *)

Inductive EvictionResult := EVICTED | NO_CANDIDATE | LOCK_TIMEOUT | UNLOAD_FAILED.

(** [select_eviction_candidate]; the predicate and the two containers are injected. *)
Fixpoint select_eviction_candidate (lru_order : list string) (exclude_name : string)
    (is_pinned loaded unloading : string → bool) : option string :=
  match lru_order with
  | [] => None
  | candidate :: rest =>
      let continue := select_eviction_candidate rest exclude_name is_pinned loaded unloading in
      if bool_decide (candidate = exclude_name) then continue
      else if is_pinned candidate then continue
      else if negb (loaded candidate) then continue
      else if unloading candidate then continue
      else Some candidate
  end.

(** Who may be evicted, as the docstring lists it. *)
Definition eligible (exclude_name : string) (is_pinned loaded unloading : string → bool)
    (c : string) : Prop :=
  c ≠ exclude_name ∧ is_pinned c = false ∧ loaded c = true ∧ unloading c = false.

#[export] Instance eligible_dec x p l u c : Decision (eligible x p l u c).
Proof. unfold eligible. apply _. Defined.

Lemma select_eviction_candidate_eligible order x p l u :
  select_eviction_candidate order x p l u = head (filter (eligible x p l u) order).
Proof.
  induction order as [|c rest IH]; [done|]. cbn [select_eviction_candidate]. rewrite filter_cons, IH.
  destruct (decide (eligible x p l u c)) as [He|He].
  - destruct He as (Hn & -> & -> & ->). by rewrite bool_decide_false.
  - case_bool_decide; [done|]. destruct (p c) eqn:?; [done|]. destruct (l c) eqn:?; [|done].
    destruct (u c) eqn:?; [done|]. cbn. by destruct He.
Qed.

(** The eviction decision is the least recently used eligible model.  It answers
    [None] exactly when no model of the order is eligible, and otherwise a model that
    is eligible and before which, in LRU order, there is no eligible one: never the
    caller itself, never a pinned model, never one that is not loaded or is already
    being unloaded. *)
Theorem select_eviction_candidate_spec order x p l u :
  match select_eviction_candidate order x p l u with
  | None => Forall (λ c, ¬ eligible x p l u c) order
  | Some c => ∃ before after, order = before ++ c :: after ∧ eligible x p l u c ∧
      Forall (λ c', ¬ eligible x p l u c') before
  end.
Proof.
  rewrite select_eviction_candidate_eligible.
  induction order as [|c rest IH]; [constructor|].
  rewrite filter_cons. destruct (decide (eligible x p l u c)) as [He|He]; cbn [head].
  - by exists [], rest.
  - destruct (head _) as [c'|].
    + destruct IH as (b & a & -> & ? & ?). exists (c :: b), a.
      split; [done|]. split; [done|]. by constructor.
    + by constructor.
Qed.

(** ** Classification *)

Lemma lower_app s t : lower (s +:+ t) = lower s +:+ lower t.
Proof.
  induction s as [|a s IH]; [done|].
  change (lower (String a s +:+ t)) with (String (lower_ascii a) (lower (s +:+ t))). by rewrite IH.
Qed.

Lemma str_in_prefix sub t : str_in sub (sub +:+ t) = true.
Proof.
  assert (String.prefix sub (sub +:+ t) = true) as H.
  { induction sub as [|a s IH]; [by destruct t|].
    change (String.prefix (String a s) (String a (s +:+ t)) = true). cbn.
    by destruct (Ascii.ascii_dec a a). }
  destruct (sub +:+ t); cbn in *; by rewrite H.
Qed.

Lemma str_in_app_r sub s t : str_in sub t = true → str_in sub (s +:+ t) = true.
Proof.
  intros H. induction s as [|a s IH]; [done|].
  change (str_in sub (String a (s +:+ t)) = true). cbn. by rewrite IH, orb_true_r.
Qed.

(** Detection is by type or by phrase, whatever the case of the message and the
    text around the phrase: every message that contains an indicator is an OOM, the
    terminal error [_wrap_oom] builds is one whatever it wraps, and a message
    without an indicator is not. *)
Theorem is_oom_error_spec e ind pre phrase post att :
  ind ∈ OOM_INDICATORS → lower phrase = ind →
  is_oom_error (OtherError (pre +:+ phrase +:+ post)) = true ∧
  is_oom_error (wrap_oom e att) = true ∧
  (∀ msg, Forall (λ i, str_in i (lower msg) = false) OOM_INDICATORS →
     is_oom_error (OtherError msg) = false ∧ is_oom_error (InvalidInputError msg) = false).
Proof.
  intros Hi Hl. split; [|split; [done|]].
  - cbn [is_oom_error str]. apply existsb_exists. exists ind.
    split; [by apply list_elem_of_In|]. rewrite !lower_app, Hl. apply str_in_app_r, str_in_prefix.
  - intros msg HF. assert (existsb (λ i, str_in i (lower msg)) OOM_INDICATORS = false) as H; [|done].
    apply not_true_is_false. intros (i & Hin & Hs)%existsb_exists.
    rewrite Forall_forall in HF. apply list_elem_of_In in Hin. rewrite (HF i Hin) in Hs. done.
Qed.

Lemma is_oom_error_spec_witness :
  is_oom_error (OtherError "CUDA Out of Memory. Tried to allocate 20 MiB") = true ∧
  is_oom_error (OtherError "failed to load oom-classifier") = false.
Proof.
  split.
  - apply (is_oom_error_spec (OtherError "") "out of memory" "CUDA " "Out of Memory"
             ". Tried to allocate 20 MiB" 1); [left|reflexivity].
  - apply (is_oom_error_spec (OtherError "") "out of memory" "" "out of memory" "" 1);
      [left|reflexivity|]. repeat constructor.
Defined.

End Oom.
