(* ===== verification/OomRecovery.v ===== *)
(** Reactive OOM recovery around one batch: [core/worker/oom_recovery.py].

    [RequestMetadata] objects are shared: one request contributes several entries to a
    group, a group is split and its halves run again, and the worker and the client hold
    the same futures.  They live in a heap indexed by object identity.  A [ConfigGroup]
    is four parallel lists of one length; it is modelled as one list of quadruples.

    The adapter, the device, the registry and the event loop are parameters over an
    abstract world [W].  Every [await] may let other tasks run; what they can do to this
    executor's heap is cancel pending futures, so each awaiting parameter also returns
    the requests that were cancelled meanwhile.  Cancellation of the running task itself
    is not modelled here. *)

From stdpp Require Import functions gmap.
From S2P Require Import Prelude PyFloat PyDict Oom.
Import Oom.
Local Open Scope Z_scope.

Module Executor.

(** ** Futures and the metadata heap *)

Inductive future (R : Type) := Pending | Resolved (r : R) | Failed (e : exn) | Cancelled.
Arguments Pending {R}.
Arguments Resolved {R}.
Arguments Failed {R}.
Arguments Cancelled {R}.

Definition done {R} (f : future R) : bool := match f with Pending => false | _ => true end.

(** The mutable part of [RequestMetadata] that the executor touches. *)
Record Meta (R Slice : Type) := mkMeta {
  m_future : future R;
  partial_results : option (list (Z * Slice));   (* an insertion-ordered dict *)
}.
Arguments mkMeta {R Slice}.
Arguments m_future {R Slice}.
Arguments partial_results {R Slice}.

Section executor.
Context {Item Prepared Output Slice R W : Type}.

(** One position of the four parallel lists. *)
Record entry := mkEntry {
  e_item : Item;
  e_req : nat;          (* id(metadata) *)
  e_index : Z;
  e_prepared : Prepared;
}.

Notation group := (list entry).
Notation heap := (nat → Meta R Slice).

Record state := mkState {
  world : W;
  metas : heap;
  stats : OomRecoveryStats;
  telemetry : list (string * string);
}.

(** What the executor calls: [dispatch], [handler.slice_output],
    [registry.evict_lru_excluding] ([None] for a worker without a registry),
    [gc.collect], [torch.cuda.empty_cache] and [asyncio.sleep(0)]. *)
Record environment := mkEnv {
  dispatch : W → group → W * list nat * res exn Output;
  slice_output : Output → nat → res exn Slice;
  registry : option (W → string → float → W * list nat * res unit EvictionResult);
  gc_collect : W → W;
  empty_cache : W → W;
  sleep0 : W → W * list nat;
}.

Context (env : environment) (model_name : string) (config : OomRecoveryConfig).

Definition set_world (s : state) (w : W) : state := mkState w (metas s) (stats s) (telemetry s).
Definition set_metas (s : state) (m : heap) : state := mkState (world s) m (stats s) (telemetry s).
Definition set_stats (s : state) (x : OomRecoveryStats) : state :=
  mkState (world s) (metas s) x (telemetry s).

(** Another task cancels a request: only a pending future can be cancelled. *)
Definition cancel_one (m : heap) (r : nat) : heap :=
  if done (m_future (m r)) then m else <[r := mkMeta Cancelled (partial_results (m r))]> m.

(** The state after an [await]: the world's next state and the cancellations it saw. *)
Definition after_await (s : state) (w : W) (cancelled : list nat) : state :=
  mkState w (foldl cancel_one (metas s) cancelled) (stats s) (telemetry s).

(** ** Fan-out and failure helpers *)

(** [metadata.future.set_exception(error)] under its guard *)
Definition fail_one (m : heap) (r : nat) (error : exn) : heap :=
  if done (m_future (m r)) then m else <[r := mkMeta (Failed error) (partial_results (m r))]> m.

Fixpoint fail_loop (l : list nat) (seen : gset nat) (error : exn) (m : heap) : heap :=
  match l with
  | [] => m
  | mid :: l' =>
      if decide (mid ∈ seen) then fail_loop l' seen error m
      else fail_loop l' ({[mid]} ∪ seen) error (fail_one m mid error)
  end.

(** [_fail_group] *)
Definition fail_group (g : group) (error : exn) (s : state) : state :=
  set_metas s (fail_loop (e_req <$> g) ∅ error (metas s)).

(** [if metadata._partial_results is None: metadata._partial_results = {}] *)
Definition ensure_partial (m : heap) (r : nat) : heap :=
  match partial_results (m r) with
  | None => <[r := mkMeta (m_future (m r)) (Some [])]> m
  | Some _ => m
  end.

(** [metadata._partial_results[original_idx] = x] *)
Definition write_partial (m : heap) (r : nat) (i : Z) (x : Slice) : heap :=
  <[r := mkMeta (m_future (m r)) (Some (dict_set i x (default [] (partial_results (m r)))))]> m.

Fixpoint fan_out (output : Output) (batch_idx : nat) (g : group) (m : heap) : heap * res exn unit :=
  match g with
  | [] => (m, Ret tt)
  | e :: g' =>
      let m1 := ensure_partial m (e_req e) in
      match slice_output env output batch_idx with
      | Raise x => (m1, Raise x)
      | Ret x => fan_out output (S batch_idx) g' (write_partial m1 (e_req e) (e_index e) x)
      end
  end.

(** [_dispatch_and_fan_out] *)
Definition dispatch_and_fan_out (g : group) (s : state) : state * res exn unit :=
  let '(w, cancelled, out) := dispatch env (world s) g in
  let s1 := after_await s w cancelled in
  match out with
  | Raise e => (s1, Raise e)
  | Ret output => let '(m, r) := fan_out output 0 g (metas s1) in (set_metas s1 m, r)
  end.

(** ** Mitigations *)

(** [_empty_cuda_cache] and [_cache_clear]: exceptions of the two calls are swallowed. *)
Definition empty_cuda_cache (s : state) : state := set_world s (empty_cache env (world s)).
Definition cache_clear (s : state) : state :=
  empty_cuda_cache (set_world s (gc_collect env (world s))).

(** [_try_evict_lru] *)
Definition try_evict_lru (s : state) : state * bool :=
  match registry env with
  | None => (s, false)
  | Some evict =>
      let '(w, cancelled, out) := evict (world s) model_name (eviction_lock_timeout_s config) in
      (after_await s w cancelled,
       match out with
       | Ret EVICTED => true
       | Ret _ => false
       | Raise _ => false
       end)
  end.

(** [_record_recovery] *)
Definition record_recovery (strategy_ outcome : string) (s : state) : state :=
  mkState (world s) (metas s) (stats s) (telemetry s ++ [(strategy_, outcome)]).

Definition add_stats (s : state) (clears evictions splits terminal attempted succeeded : Z) : state :=
  let x := stats s in
  set_stats s (mkOomStats (cache_clears x + clears) (evictions_triggered x + evictions)
    (batch_splits x + splits) (terminal_failures x + terminal)
    (recoveries_attempted x + attempted) (recoveries_succeeded x + succeeded)).

(** ** Splitting *)

(** [list(dict.fromkeys(...))]: first occurrences, in order *)
Fixpoint fromkeys_from (seen : gset nat) (l : list nat) : list nat :=
  match l with
  | [] => []
  | x :: l' => if decide (x ∈ seen) then fromkeys_from seen l' else x :: fromkeys_from ({[x]} ∪ seen) l'
  end.
Definition fromkeys (l : list nat) : list nat := fromkeys_from ∅ l.

(** [len({id(m) for m in metadata_list})] *)
Definition distinct_count (g : group) : Z := Z.of_nat (size (list_to_set (e_req <$> g) : gset nat)).

(** The two halves of [_isolate_invalid_input], by request identity. *)
Definition left_ids (g : group) : list nat :=
  let request_ids := fromkeys (e_req <$> g) in take (length request_ids / 2) request_ids.
Definition left_part (g : group) : group := filter (λ e, e_req e ∈ left_ids g) g.
Definition right_part (g : group) : group := filter (λ e, e_req e ∉ left_ids g) g.

(** [_isolate_invalid_input], given the recursive [run] *)
Definition isolate_invalid_input (rec : group → state → option state)
    (g : group) (error : exn) (s : state) : option state :=
  if (length (fromkeys (e_req <$> g)) <=? 1)%nat then Some (fail_group g error s)
  else
    match rec (left_part g) s with
    | None => None
    | Some s1 => rec (right_part g) s1
    end.

Definition is_invalid (e : exn) : bool :=
  match e with InvalidInputError _ => true | _ => false end.

(** [len({id(m) for m in metadata_list if not m.future.done()})] *)
Definition undone_count (g : group) (s : state) : Z :=
  Z.of_nat (size (list_to_set (filter (λ r, done (m_future (metas s r)) = false) (e_req <$> g)) : gset nat)).

(** [_run_split]; [k] bounds the recursion depth, [iso] is [_isolate_invalid_input]. *)
Fixpoint run_split (iso : group → exn → state → option state) (k : nat)
    (g : group) (depth : Z) (s : state) : option (state * (Z * Z)) :=
  match k with
  | O => None
  | S k' =>
      let s0 := if depth =? 0 then cache_clear s else s in
      let '(w, cancelled) := sleep0 env (world s0) in
      let '(s1, r) := dispatch_and_fan_out g (after_await s0 w cancelled) in
      match r with
      | Ret _ => Some (s1, (distinct_count g, 0))
      | Raise e =>
          if is_invalid e then
            match iso g e s1 with
            | None => None
            | Some s2 => Some (s2, (undone_count g s2, 0))
            end
          else if negb (is_oom_error e) then Some (fail_group g e s1, (0, 0))
          else if (length g <=? 1)%nat || (max_split_depth config <=? depth) then
            Some (fail_group g (wrap_oom e (depth + 1)) s1, (0, distinct_count g))
          else
            let mid := (length g / 2)%nat in
            match run_split iso k' (take mid g) (depth + 1) (empty_cuda_cache s1) with
            | None => None
            | Some (s2, (left_ok, left_oom_fail)) =>
                match run_split iso k' (drop mid g) (depth + 1) (empty_cuda_cache s2) with
                | None => None
                | Some (s3, (right_ok, right_oom_fail)) =>
                    Some (s3, (left_ok + right_ok, left_oom_fail + right_oom_fail))
                end
            end
      end
  end.

(** The recursion depth is at most [max_split_depth]; one more level is the first call. *)
Definition split_fuel : nat := S (Z.to_nat (max_split_depth config)).

(** ** The strategy loop *)

Definition record_pending (pending : option string) (s : state) : state :=
  match pending with None => s | Some a => record_recovery a "failed" s end.

(** Re-dispatch after a non-split mitigation; [next] goes on with the next strategy. *)
Definition redispatch (iso : group → exn → state → option state) (g : group)
    (action : OomRecoveryAction) (next : exn → state → option state) (s1 : state) : option state :=
  let '(s2, r) := dispatch_and_fan_out g s1 in
  match r with
  | Ret _ => Some (record_recovery (action_value action) "success" (add_stats s2 0 0 0 0 0 1))
  | Raise e =>
      if is_invalid e then iso g e s2
      else if negb (is_oom_error e) then
        Some (fail_group g e (record_recovery (action_value action) "failed" s2))
      else next e s2
  end.

Fixpoint strategy_loop (iso : group → exn → state → option state) (g : group)
    (actions : list OomRecoveryAction) (pending : option string) (last_error : exn)
    (s : state) : option state :=
  match actions with
  | [] =>
      let s1 := add_stats s 0 0 0 1 0 0 in
      let s2 := record_recovery (default "other"%string pending) "terminal" s1 in
      Some (fail_group g (wrap_oom last_error (Z.of_nat (length (strategy config)))) s2)
  | action :: rest =>
      let again := redispatch iso g action (strategy_loop iso g rest (Some (action_value action))) in
      match action with
      | CACHE_CLEAR => again (add_stats (cache_clear (record_pending pending s)) 1 0 0 0 0 0)
      | EVICT_LRU =>
          let '(s1, evicted) := try_evict_lru s in
          if negb evicted then strategy_loop iso g rest pending last_error s1
          else again (add_stats (record_pending pending s1) 0 1 0 0 0 0)
      | SPLIT_BATCH =>
          let s1 := add_stats (record_pending pending s) 0 0 1 0 0 0 in
          match run_split iso split_fuel g 0 s1 with
          | None => None
          | Some (s2, (succeeded_count, oom_failed_count)) =>
              let s3 := if 0 <? succeeded_count then add_stats s2 0 0 0 0 0 1 else s2 in
              let s4 := if 0 <? oom_failed_count then add_stats s3 0 0 0 1 0 0 else s3 in
              let managed_outcome :=
                if 0 <? oom_failed_count then "terminal"%string
                else if 0 <? succeeded_count then "success"%string else "failed"%string in
              Some (record_recovery (action_value action) managed_outcome s4)
          end
      end
  end.

(** One call of [run]. *)
Definition run_body (rec : group → state → option state) (g : group) (s : state) : option state :=
  let iso := isolate_invalid_input rec in
  let '(s1, r) := dispatch_and_fan_out g s in
  match r with
  | Ret _ => Some s1
  | Raise e =>
      if is_invalid e then iso g e s1
      else if negb (enabled config) then Some (fail_group g e s1)
      else if negb (is_oom_error e) then Some (fail_group g e s1)
      else strategy_loop iso g (strategy config) None e (add_stats s1 0 0 0 0 1 0)
  end.

(** [run] calls itself through [_isolate_invalid_input] only, on groups with fewer
    distinct requests. *)
Fixpoint run_fuel (fuel : nat) (g : group) (s : state) : option state :=
  match fuel with
  | O => None
  | S f => run_body (run_fuel f) g s
  end.

Definition run (g : group) (s : state) : option state := run_fuel (S (length g)) g s.

(** ** What a run may do to the heap *)

Definition partial_at (a : Meta R Slice) (i : Z) : option Slice :=
  match partial_results a with Some p => dict_get i p | None => None end.

(** The requests of a group. *)
Definition mine (g : group) (r : nat) : Prop := r ∈ e_req <$> g.

#[local] Instance mine_dec g r : Decision (mine g r).
Proof. unfold mine. apply _. Defined.

Lemma mine_of g e : e ∈ g → mine g (e_req e).
Proof. intros. by apply list_elem_of_fmap_2. Qed.

(** Some other task may cancel a request during an [await] of the executor. *)
Definition may_cancel : Prop :=
  (∃ w g, (dispatch env w g).1.2 ≠ []) ∨
  (∃ evict w n t, registry env = Some evict ∧ (evict w n t).1.2 ≠ []) ∨
  (∃ w, (sleep0 env w).2 ≠ []).

(** A value a forward pass over entries of [gr] produced for item [i] of request [r]: the
    slice of its output at the position the item had in the batch it was given. *)
Definition produced (gr : group) (r : nat) (i : Z) (v : Slice) : Prop :=
  ∃ w g k e output, g ⊆ gr ∧ (dispatch env w g).2 = Ret output ∧ g !! k = Some e ∧
    e_req e = r ∧ e_index e = i ∧ slice_output env output k = Ret v.

(** A dict has no duplicate keys. *)
Definition partials_wf (a : Meta R Slice) : Prop := ∀ ps, partial_results a = Some ps → dict_wf ps.

(** One object's evolution while the group [gr] runs. *)
Record meta_evolves (gr : group) (r : nat) (a b : Meta R Slice) : Prop := {
  me_done : done (m_future a) = true → m_future b = m_future a;
  me_future : m_future b = m_future a ∨ (may_cancel ∧ m_future b = Cancelled) ∨
    (mine gr r ∧ ∃ e, m_future b = Failed e);
  me_frame : ¬ mine gr r → partial_results b = partial_results a;
  me_keys : ∀ i, is_Some (partial_at a i) → is_Some (partial_at b i);
  me_vals : ∀ i v, partial_at b i = Some v → partial_at a i = Some v ∨ produced gr r i v;
  me_wf : partials_wf a → partials_wf b;
}.

Definition hevolves (gr : group) (m m' : heap) : Prop := ∀ r, meta_evolves gr r (m r) (m' r).
Definition evolves (gr : group) (s s' : state) : Prop := hevolves gr (metas s) (metas s').

Lemma meta_evolves_refl gr r a : meta_evolves gr r a a.
Proof. constructor; auto. Qed.

Lemma meta_evolves_trans gr r a b c :
  meta_evolves gr r a b → meta_evolves gr r b c → meta_evolves gr r a c.
Proof.
  intros [D1 F1 R1 K1 V1 W1] [D2 F2 R2 K2 V2 W2]. constructor.
  - intros H. rewrite <- (D1 H). apply D2. by rewrite D1.
  - destruct F2 as [->|F2]; auto.
  - intros H. by rewrite R2, R1.
  - auto.
  - intros i v [H|H]%V2; [by apply V1|by right].
  - auto.
Qed.

Lemma mine_mono (g g' : group) r : g ⊆ g' → mine g r → mine g' r.
Proof.
  unfold mine. rewrite !list_elem_of_fmap. intros H (e & -> & He). exists e. split; [done|]. by apply H.
Qed.

Lemma meta_evolves_mono (g g' : group) r a b : g ⊆ g' → meta_evolves g r a b → meta_evolves g' r a b.
Proof.
  intros Hg [D F Fr K V Wf]. constructor; [done| |eauto using mine_mono|done| |done].
  - destruct F as [?|[?|[? ?]]]; eauto using mine_mono.
  - intros i v [?|(w & h & k & e & o & Hh & ?)]%V; [by left|right]. exists w, h, k, e, o.
    split; [by etrans|done].
Qed.

#[local] Instance hevolves_preorder P : PreOrder (hevolves P).
Proof.
  split; [intros m r; apply meta_evolves_refl|].
  intros m1 m2 m3 H12 H23 r. eapply meta_evolves_trans; [apply H12|apply H23].
Qed.

#[local] Instance evolves_preorder P : PreOrder (evolves P).
Proof. split; [intros s; apply hevolves_preorder|]. intros ???. apply (hevolves_preorder P). Qed.

Lemma evolves_same P s s' : metas s = metas s' → evolves P s s'.
Proof. intros E r. rewrite E. apply meta_evolves_refl. Qed.

Lemma evolves_mono (g g' : group) s s' : g ⊆ g' → evolves g s s' → evolves g' s s'.
Proof. intros H E r. eapply meta_evolves_mono; [apply H|apply E]. Qed.

(** A change of one object. *)
Lemma hevolves_insert P m r a : meta_evolves P r (m r) a → hevolves P m (<[r := a]> m).
Proof.
  intros H r'. destruct (decide (r' = r)) as [->|Hne].
  - by rewrite fn_lookup_insert.
  - rewrite fn_lookup_insert_ne by done. apply meta_evolves_refl.
Qed.

Lemma cancel_one_evolves P m r : may_cancel → hevolves P m (cancel_one m r).
Proof.
  intros Hc. unfold cancel_one. destruct (done _) eqn:Hd; [reflexivity|]. apply hevolves_insert.
  constructor; cbn; auto. by rewrite Hd.
Qed.

Lemma cancel_all_evolves P l m : (l ≠ [] → may_cancel) → hevolves P m (foldl cancel_one m l).
Proof.
  revert m. induction l as [|r l IH]; intros m Hc; [reflexivity|].
  etrans; [apply (cancel_one_evolves P m r); auto|apply IH; auto].
Qed.

Lemma after_await_evolves P s w l : (l ≠ [] → may_cancel) → evolves P s (after_await s w l).
Proof. apply cancel_all_evolves. Qed.

(** The three awaits of the executor. *)
Lemma dispatch_may_cancel w g w' l r : dispatch env w g = (w', l, r) → l ≠ [] → may_cancel.
Proof. intros E Hl. left. exists w, g. by rewrite E. Qed.

Lemma evict_may_cancel ev w n t w' l r :
  registry env = Some ev → ev w n t = (w', l, r) → l ≠ [] → may_cancel.
Proof. intros He E Hl. right. left. exists ev, w, n, t. by rewrite E. Qed.

Lemma sleep_may_cancel w w' l : sleep0 env w = (w', l) → l ≠ [] → may_cancel.
Proof. intros E Hl. right. right. exists w. by rewrite E. Qed.

Lemma fail_one_evolves (P : group) m r e : mine P r → hevolves P m (fail_one m r e).
Proof.
  intros HP. unfold fail_one. destruct (done _) eqn:Hd; [reflexivity|]. apply hevolves_insert.
  constructor; cbn; eauto. by rewrite Hd.
Qed.

Lemma fail_loop_evolves (P : group) l seen e m :
  (∀ r, r ∈ l → mine P r) → hevolves P m (fail_loop l seen e m).
Proof.
  revert seen m. induction l as [|r l IH]; intros seen m HP; [reflexivity|]. cbn [fail_loop].
  assert (∀ r', r' ∈ l → mine P r') as HP' by (intros; apply HP; by right).
  destruct (decide _); [by apply IH|]. etrans; [|by apply IH]. apply fail_one_evolves, HP. by left.
Qed.

Lemma ensure_partial_evolves (P : group) m r : mine P r → hevolves P m (ensure_partial m r).
Proof.
  intros HP. unfold ensure_partial. destruct (partial_results (m r)) eqn:E; [reflexivity|].
  apply hevolves_insert. constructor; cbn; auto; [done| |done|].
  - intros i. unfold partial_at. rewrite E. by intros [? [=]].
  - intros _ ps [= <-]. constructor.
Qed.

Lemma write_partial_keys m r i x q j :
  is_Some (partial_at (m q) j) → is_Some (partial_at (write_partial m r i x q) j).
Proof.
  intros Hj. unfold write_partial. destruct (decide (q = r)) as [->|]; [|by rewrite fn_lookup_insert_ne].
  rewrite fn_lookup_insert. unfold partial_at in *. cbn.
  destruct (partial_results (m r)) as [p|]; [|by destruct Hj as [? [=]]].
  cbn. rewrite dict_get_set. destruct (decide _); [eauto|done].
Qed.

Lemma write_partial_evolves (P : group) m r i x :
  mine P r → produced P r i x → hevolves P m (write_partial m r i x).
Proof.
  intros HP Hx. apply hevolves_insert. constructor; cbn; auto; [done| | |].
  - intros j Hj. apply (write_partial_keys m r i x) in Hj. unfold write_partial in Hj.
    by rewrite fn_lookup_insert in Hj.
  - intros j v. unfold partial_at. cbn. rewrite dict_get_set. destruct (decide (i = j)) as [->|].
    + intros [= <-]. by right.
    + destruct (partial_results (m r)); [by left|done].
  - intros Hwf ps [= <-]. apply dict_set_wf. destruct (partial_results (m r)) as [p|] eqn:Ep; [|constructor].
    by apply Hwf.
Qed.

Lemma fan_out_evolves w g0 output n g m :
  (dispatch env w g0).2 = Ret output → drop n g0 = g → hevolves g0 m (fan_out output n g m).1.
Proof.
  intros Hd. revert n m. induction g as [|e g IH]; intros n m Hg; [reflexivity|]. cbn [fan_out].
  assert (g0 !! n = Some e) as Hn by (rewrite <- (Nat.add_0_r n), <- lookup_drop, Hg; done).
  assert (mine g0 (e_req e)) as He by by apply mine_of, (list_elem_of_lookup_2 _ n).
  destruct (slice_output env output n) as [x|x] eqn:Ex; cbn [fst].
  - etrans; [by apply ensure_partial_evolves|].
    etrans; [apply write_partial_evolves; [done|]; exists w, g0, n, e, output; done|].
    apply IH. rewrite <- Nat.add_1_r, <- drop_drop. by rewrite Hg.
  - by apply ensure_partial_evolves.
Qed.

Lemma dispatch_evolves g s : evolves g s (dispatch_and_fan_out g s).1.
Proof.
  unfold dispatch_and_fan_out. destruct (dispatch _ _ _) as [[w l] [out|e]] eqn:Ed; cbn [fst].
  - etrans; [apply (after_await_evolves g s w l); by eapply dispatch_may_cancel|].
    pose proof (fan_out_evolves (world s) g out 0 g (metas (after_await s w l))
      ltac:(by rewrite Ed) eq_refl) as H.
    destruct (fan_out _ _ _ _). exact H.
  - apply after_await_evolves. by eapply dispatch_may_cancel.
Qed.

(** ** Every request is settled *)

(** An entry is settled when its request is finished (failed, cancelled) or the
    entry's own partial result is there for the worker to assemble. *)
Definition settled (s : state) (e : entry) : Prop :=
  done (m_future (metas s (e_req e))) = true ∨
  is_Some (partial_at (metas s (e_req e)) (e_index e)).

Lemma settled_evolves P s s' e : evolves P s s' → settled s e → settled s' e.
Proof.
  intros H [Hd|Hk]; destruct (H (e_req e)) as [D _ _ K _]; [left; by rewrite D|right; auto].
Qed.

(** What one run of a group guarantees. *)
Definition post (g : group) (s s' : state) : Prop :=
  evolves g s s' ∧ Forall (settled s') g.

Lemma post_after (g : group) s1 s2 s3 : evolves g s1 s2 → post g s2 s3 → post g s1 s3.
Proof. intros H12 [H23 Hs]. split; [by etrans|done]. Qed.

(** Later work keeps what a part of the group has reached. *)
Lemma post_app g1 g2 g s1 s2 s3 :
  g1 ⊆ g → g2 ⊆ g →
  (∀ e, e ∈ g → e ∈ g1 ∨ e ∈ g2) →
  post g1 s1 s2 → post g2 s2 s3 → post g s1 s3.
Proof.
  intros H1 H2 Hg [E1 S1] [E2 S2]. split.
  - etrans; [exact (evolves_mono _ _ _ _ H1 E1)|exact (evolves_mono _ _ _ _ H2 E2)].
  - rewrite Forall_forall in *. intros e [He|He]%Hg; [|auto]. eapply settled_evolves; eauto.
Qed.

Lemma fail_one_done m r e : done (m_future (fail_one m r e r)) = true.
Proof.
  unfold fail_one. destruct (done (m_future (m r))) eqn:Hd; [done|]. by rewrite fn_lookup_insert.
Qed.

Lemma fail_loop_done l seen e m r :
  (r ∈ l ∧ r ∉ seen) ∨ done (m_future (m r)) = true → done (m_future (fail_loop l seen e m r)) = true.
Proof.
  revert seen m. induction l as [|r' l IH]; intros seen m H; cbn [fail_loop].
  - destruct H as [[H _]|H]; [by apply elem_of_nil in H|done].
  - assert (done (m_future (m r)) = true → done (m_future (fail_one m r' e r)) = true) as Hk.
    { intros Hd. unfold fail_one. destruct (done (m_future (m r'))) eqn:Hd'; [done|].
      destruct (decide (r = r')) as [->|]; [congruence|]. by rewrite fn_lookup_insert_ne. }
    destruct (decide (r' ∈ seen)); apply IH.
    + destruct H as [[[->|?]%elem_of_cons ?]|?]; auto.
    + destruct H as [[[->|?]%elem_of_cons ?]|?]; [right; apply fail_one_done| |auto].
      destruct (decide (r = r')) as [->|]; [right; apply fail_one_done|left; set_solver].
Qed.

Lemma fail_group_post g e s : post g s (fail_group g e s).
Proof.
  split; [by apply fail_loop_evolves|]. apply Forall_forall. intros x Hx. left. cbn.
  apply fail_loop_done. left. split; [by apply list_elem_of_fmap_2|set_solver].
Qed.

Lemma fan_out_keys output n g m q j :
  is_Some (partial_at (m q) j) → is_Some (partial_at ((fan_out output n g m).1 q) j).
Proof.
  revert n m. induction g as [|e g IH]; intros n m Hj; [done|]. cbn [fan_out].
  pose proof (me_keys _ _ _ _ (ensure_partial_evolves [e] m (e_req e) (mine_of [e] e ltac:(by left)) q) j Hj) as Hj'.
  destruct (slice_output env output n) as [x|x]; [|done]. by apply IH, write_partial_keys.
Qed.

Lemma fan_out_settled output n g m :
  (fan_out output n g m).2 = Ret tt →
  ∀ e, e ∈ g → is_Some (partial_at ((fan_out output n g m).1 (e_req e)) (e_index e)).
Proof.
  revert n m. induction g as [|e g IH]; intros n m; [by intros _ ? ?%elem_of_nil|]. cbn [fan_out].
  destruct (slice_output env output n) as [x|x]; [|done].
  intros Hr e' [->|He']%elem_of_cons; [|by apply IH].
  apply fan_out_keys.
  unfold write_partial, partial_at. rewrite fn_lookup_insert. cbn. rewrite dict_get_set, decide_True by done. eauto.
Qed.

Lemma dispatch_settled g s :
  (dispatch_and_fan_out g s).2 = Ret tt → Forall (settled (dispatch_and_fan_out g s).1) g.
Proof.
  unfold dispatch_and_fan_out. destruct (dispatch _ _ _) as [[w l] [out|e]]; [|done].
  pose proof (fan_out_settled out 0 g (metas (after_await s w l))) as H.
  destruct (fan_out _ _ _ _) as [m r]. cbn in *. intros Hr. apply Forall_forall. intros e He. right. auto.
Qed.

Lemma dispatch_post g s s1 r :
  dispatch_and_fan_out g s = (s1, r) →
  evolves g s s1 ∧ (r = Ret tt → post g s s1).
Proof.
  intros H. pose proof (dispatch_evolves g s) as E.
  pose proof (dispatch_settled g s) as Hs. rewrite H in E, Hs. split; [done|]. split; auto.
Qed.

Lemma left_right_cover g e : e ∈ g → e ∈ left_part g ∨ e ∈ right_part g.
Proof.
  intros He. unfold left_part, right_part. rewrite !list_elem_of_filter.
  destruct (decide (e_req e ∈ left_ids g)); auto.
Qed.

Lemma isolate_post rec g e s s' :
  (∀ g s s', rec g s = Some s' → post g s s') →
  isolate_invalid_input rec g e s = Some s' → post g s s'.
Proof.
  intros Hrec. unfold isolate_invalid_input. destruct (_ <=? 1)%nat; [intros [= <-]; apply fail_group_post|].
  destruct (rec (left_part g) s) as [s1|] eqn:E1; [|done]. intros E2.
  eapply (post_app (left_part g) (right_part g)); eauto using left_right_cover.
  - intros x [_ Hx]%list_elem_of_filter. done.
  - intros x [_ Hx]%list_elem_of_filter. done.
Qed.

Lemma take_drop_elem {A} n (l : list A) x : x ∈ l ↔ x ∈ take n l ∨ x ∈ drop n l.
Proof. rewrite <- (take_drop n l) at 1. apply elem_of_app. Qed.

Lemma take_sub {A} n (l : list A) : take n l ⊆ l.
Proof. intros x Hx. apply (take_drop_elem n). auto. Qed.

Lemma drop_sub {A} n (l : list A) : drop n l ⊆ l.
Proof. intros x Hx. apply (take_drop_elem n). auto. Qed.

(** The bookkeeping steps do not touch the heap. *)
Lemma run_split_post iso k g depth s s' c :
  (∀ g e s s', iso g e s = Some s' → post g s s') →
  run_split iso k g depth s = Some (s', c) → post g s s'.
Proof.
  intros Hiso. revert g depth s s' c. induction k as [|k IH]; intros g depth s s' c; [done|].
  cbn [run_split].
  set (s0 := if depth =? 0 then cache_clear s else s).
  assert (evolves g s s0) as E0 by (apply evolves_same; unfold s0; by destruct (depth =? 0)).
  destruct (sleep0 env (world s0)) as [w l] eqn:Esl.
  pose proof (after_await_evolves g s0 w l (sleep_may_cancel _ _ _ Esl)) as E1.
  destruct (dispatch_and_fan_out g _) as [s1 r] eqn:Ed. apply dispatch_post in Ed as [E2 Hok].
  assert (evolves g s s1) as E by (etrans; [exact E0|]; etrans; [exact E1|exact E2]).
  destruct r as [[]|e]; [intros [= <- _]; eapply post_after; [etrans; [exact E0|exact E1]|by apply Hok]|].
  destruct (is_invalid e).
  { destruct (iso g e s1) as [s2|] eqn:Ei; [|done]. intros [= <- _]. eapply post_after; eauto. }
  destruct (negb _); [intros [= <- _]; eapply post_after; [done|apply fail_group_post]|].
  destruct (_ || _); [intros [= <- _]; eapply post_after; [done|apply fail_group_post]|].
  destruct (run_split iso k (take _ g) _ _) as [[s2 [a b]]|] eqn:El; [|done].
  destruct (run_split iso k (drop _ g) _ _) as [[s3 [a' b']]|] eqn:Er; [|done].
  intros [= <- _]. apply IH in El, Er. eapply post_after; [exact E|].
  eapply post_app; [apply take_sub|apply drop_sub|apply take_drop_elem|exact El|exact Er].
Qed.

Lemma redispatch_post iso g a next s s1 s' :
  (∀ g e s s', iso g e s = Some s' → post g s s') →
  (∀ e s s', next e s = Some s' → post g s s') →
  evolves g s s1 → redispatch iso g a next s1 = Some s' → post g s s'.
Proof.
  intros Hiso Hnext E1. unfold redispatch.
  destruct (dispatch_and_fan_out g s1) as [s2 r] eqn:Ed. apply dispatch_post in Ed as [E2 Hok].
  destruct r as [[]|e]; [intros [= <-]; eapply post_after; [exact E1|by apply Hok]|].
  assert (evolves g s s2) as E by by etrans.
  split_ifs; intros H.
  - eapply post_after; eauto.
  - apply (inj Some) in H. rewrite <- H. eapply post_after; [|apply fail_group_post]. exact E.
  - eapply post_after; eauto.
Qed.

Lemma strategy_loop_post iso g acts pending last s s' :
  (∀ g e s s', iso g e s = Some s' → post g s s') →
  strategy_loop iso g acts pending last s = Some s' → post g s s'.
Proof.
  intros Hiso. revert pending last s s'. induction acts as [|a acts IH]; intros pending last s s'.
  { cbn [strategy_loop]. cbv zeta. intros H. apply (inj Some) in H. rewrite <- H.
    eapply post_after; [|apply fail_group_post]. by apply evolves_same. }
  cbn [strategy_loop]. cbv zeta.
  assert (∀ s1, evolves g s s1 → evolves g s (record_pending pending s1)) as Hrp
    by (intros; by destruct pending).
  destruct a.
  - eapply redispatch_post; [done|exact (IH _)|]. by apply (Hrp s).
  - unfold try_evict_lru. destruct (registry env) as [ev|] eqn:Erg; [|apply IH].
    destruct (ev _ _ _) as [[w l] out] eqn:Eev.
    pose proof (after_await_evolves g s w l (evict_may_cancel _ _ _ _ _ _ _ Erg Eev)) as E1.
    destruct (negb _); [intros H; eapply post_after; [exact E1|by eapply IH]|].
    eapply redispatch_post; [done|exact (IH _)|]. by apply Hrp.
  - destruct (run_split _ _ _ _ _) as [[s2 [x y]]|] eqn:Es; [|done].
    apply run_split_post in Es; [|done]. intros [= <-].
    assert (evolves g s (record_pending pending s)) as E by by apply Hrp.
    eapply post_after in Es; [|exact E]. destruct Es as [E' S']. by split_ifs.
Qed.

Lemma run_fuel_post f g s s' : run_fuel f g s = Some s' → post g s s'.
Proof.
  revert g s s'. induction f as [|f IH]; intros g s s'; [done|]. cbn [run_fuel]. unfold run_body.
  assert (∀ g e s s', isolate_invalid_input (run_fuel f) g e s = Some s' → post g s s') as Hiso
    by (intros; by eapply isolate_post).
  destruct (dispatch_and_fan_out g s) as [s1 r] eqn:Ed. apply dispatch_post in Ed as [E Hok].
  destruct r as [[]|e]; [intros [= <-]; by apply Hok|].
  split_ifs; intros H; eapply post_after; try exact E; eauto.
  - injection H as <-. apply fail_group_post.
  - injection H as <-. apply fail_group_post.
  - by apply strategy_loop_post in H.
Qed.

(** ** Termination *)

Lemma elem_of_fromkeys_from x seen l : x ∈ fromkeys_from seen l ↔ x ∈ l ∧ x ∉ seen.
Proof.
  revert seen. induction l as [|y l IH]; intros seen; cbn [fromkeys_from].
  - rewrite elem_of_nil. naive_solver.
  - destruct (decide (y ∈ seen)); rewrite ?elem_of_cons, IH; [set_solver|].
    destruct (decide (x = y)) as [->|]; set_solver.
Qed.

Lemma elem_of_fromkeys x l : x ∈ fromkeys l ↔ x ∈ l.
Proof. unfold fromkeys. rewrite elem_of_fromkeys_from. set_solver. Qed.

Lemma NoDup_fromkeys_from seen l : NoDup (fromkeys_from seen l).
Proof.
  revert seen. induction l as [|y l IH]; intros seen; cbn [fromkeys_from]; [constructor|].
  destruct (decide _); [apply IH|]. constructor; [|apply IH]. rewrite elem_of_fromkeys_from. set_solver.
Qed.

(** The number of distinct requests of a group. *)
Definition nreqs (g : group) : nat := length (fromkeys (e_req <$> g)).

Lemma nreqs_le g l : (∀ r, mine g r → r ∈ l) → (nreqs g <= length l)%nat.
Proof.
  intros H. apply submseteq_length, NoDup_submseteq; [apply NoDup_fromkeys_from|].
  intros r Hr. apply H, elem_of_fromkeys, Hr.
Qed.

Lemma nreqs_mono g g' : (∀ r, mine g r → mine g' r) → (nreqs g <= nreqs g')%nat.
Proof. intros H. apply nreqs_le. intros r Hr. apply elem_of_fromkeys. apply H, Hr. Qed.

Lemma nreqs_length g : (nreqs g <= length g)%nat.
Proof. etrans; [apply (nreqs_le g (e_req <$> g)); auto|]. by rewrite length_fmap. Qed.

Lemma nreqs_left g : (1 < nreqs g)%nat → (1 <= nreqs g / 2)%nat ∧ (nreqs (left_part g) < nreqs g)%nat.
Proof.
  intros Hn. assert (1 <= nreqs g / 2 < nreqs g)%nat as Hd.
  { split; [apply (Nat.div_le_lower_bound _ 2 1); lia|apply Nat.div_lt; lia]. }
  split; [lia|]. eapply Nat.le_lt_trans; [apply (nreqs_le _ (left_ids g))|].
  - intros r (e & -> & [He _]%list_elem_of_filter)%list_elem_of_fmap. done.
  - unfold left_ids. rewrite length_take. fold (nreqs g). lia.
Qed.

Lemma nreqs_right g : (1 < nreqs g)%nat → (nreqs (right_part g) < nreqs g)%nat.
Proof.
  intros Hn. destruct (nreqs_left g Hn) as [Hd _].
  eapply Nat.le_lt_trans; [apply (nreqs_le _ (drop (nreqs g / 2) (fromkeys (e_req <$> g))))|].
  - intros r (e & -> & [He Hg]%list_elem_of_filter)%list_elem_of_fmap.
    assert (e_req e ∈ fromkeys (e_req <$> g)) as Hin by by apply elem_of_fromkeys, mine_of.
    apply (take_drop_elem (nreqs g / 2)) in Hin as [?|?]; [by destruct He|done].
  - rewrite length_drop. fold (nreqs g). lia.
Qed.

Lemma isolate_total rec f g e s :
  (∀ g s, (1 <= f)%nat → (nreqs g <= f)%nat → is_Some (rec g s)) →
  (nreqs g <= S f)%nat → is_Some (isolate_invalid_input rec g e s).
Proof.
  intros Hrec Hn. unfold isolate_invalid_input. fold (nreqs g).
  destruct (Nat.leb_spec (nreqs g) 1); [eauto|].
  destruct (nreqs_left g) as [_ Hl]; [done|]. pose proof (nreqs_right g) as Hr.
  destruct (Hrec (left_part g) s) as [s1 ->]; [lia..|]. apply Hrec; lia.
Qed.

Lemma run_split_total iso k g depth s n :
  (∀ g e s, (nreqs g <= n)%nat → is_Some (iso g e s)) → (nreqs g <= n)%nat →
  max_split_depth config < depth + Z.of_nat k → (0 < k)%nat →
  is_Some (run_split iso k g depth s).
Proof.
  intros Hiso. revert g depth s. induction k as [|k IH]; intros g depth s Hn Hd Hk; [lia|].
  cbn [run_split]. destruct (sleep0 env _) as [w l]. destruct (dispatch_and_fan_out g _) as [s1 [[]|e]]; [eauto|].
  destruct (is_invalid e); [destruct (Hiso g e s1 Hn) as [s2 ->]; eauto|].
  destruct (negb _); [eauto|].
  destruct (_ || _) eqn:Eo; [eauto|]. apply orb_false_elim in Eo as [_ Eo%Z.leb_gt].
  assert (∀ g', g' ⊆ g → (nreqs g' <= n)%nat) as Hsub.
  { intros g' H. pose proof (nreqs_mono g' g (λ r, mine_mono g' g r H)). lia. }
  destruct (IH (take (length g / 2) g) (depth + 1) (empty_cuda_cache s1)) as [[s2 [a b]] ->];
    [apply Hsub, take_sub|lia|lia|].
  destruct (IH (drop (length g / 2) g) (depth + 1) (empty_cuda_cache s2)) as [[s3 [a' b']] ->];
    [apply Hsub, drop_sub|lia|lia|eauto].
Qed.

Lemma strategy_loop_total iso g acts pending last s n :
  (∀ g e s, (nreqs g <= n)%nat → is_Some (iso g e s)) → (nreqs g <= n)%nat →
  is_Some (strategy_loop iso g acts pending last s).
Proof.
  intros Hiso Hn. revert pending last s. induction acts as [|a acts IH]; intros pending last s;
    [cbn; eauto|]. cbn [strategy_loop]. cbv zeta.
  assert (∀ s1, is_Some (redispatch iso g a (strategy_loop iso g acts (Some (action_value a))) s1)) as Hre.
  { intros s1. unfold redispatch. destruct (dispatch_and_fan_out g s1) as [s2 [[]|e]]; [eauto|].
    split_ifs; eauto. }
  destruct a; [apply Hre| |].
  - destruct (try_evict_lru s) as [s1 ev]. destruct (negb ev); [apply IH|apply Hre].
  - destruct (run_split_total iso split_fuel g 0 (add_stats (record_pending pending s) 0 0 1 0 0 0) n)
      as [[s2 [x y]] ->]; [done|done|unfold split_fuel; lia|unfold split_fuel; lia|eauto].
Qed.

Lemma run_fuel_total f g s : (1 <= f)%nat → (nreqs g <= f)%nat → is_Some (run_fuel f g s).
Proof.
  revert g s. induction f as [|f IH]; intros g s H1 Hn; [lia|]. cbn [run_fuel]. unfold run_body.
  assert (∀ g e s, (nreqs g <= S f)%nat → is_Some (isolate_invalid_input (run_fuel f) g e s)) as Hiso.
  { intros. by eapply isolate_total. }
  destruct (dispatch_and_fan_out g s) as [s1 [[]|e]]; [eauto|]. split_ifs; eauto.
  by eapply strategy_loop_total.
Qed.

(** Totality and the guarantees of one run, for the worker. *)
Lemma run_total_post g s : ∃ s', run g s = Some s' ∧ post g s s'.
Proof.
  destruct (run_fuel_total (S (length g)) g s) as [s' Hs']; [lia|pose proof (nreqs_length g); lia|].
  exists s'. split; [done|]. by eapply run_fuel_post.
Qed.

(** C32 — no request of a batch is left hanging.  Whatever the adapter raises and however
    often (invalid input, out-of-memory, anything else, also while slicing an output),
    whatever the registry and the other tasks do, [run] terminates, and afterwards every
    entry of the group has either a finished future or its own partial result.  A future
    that was already finished keeps its value, a future is only ever failed or cancelled
    here, and requests outside the group keep their partial results and are not failed. *)
Theorem run_settles g s :
  ∃ s', run g s = Some s' ∧ Forall (settled s') g ∧
    (∀ r, done (m_future (metas s r)) = true → m_future (metas s' r) = m_future (metas s r)) ∧
    (∀ r, r ∉ e_req <$> g → partial_results (metas s' r) = partial_results (metas s r) ∧
       (m_future (metas s' r) = m_future (metas s r) ∨ m_future (metas s' r) = Cancelled)) ∧
    (∀ r x, m_future (metas s' r) = Resolved x → m_future (metas s r) = Resolved x).
Proof.
  destruct (run_total_post g s) as (s' & Hs' & E & Hs). exists s'. split; [done|]. split; [done|].
  split; [intros r; apply (E r)|]. split.
  - intros r Hr. destruct (E r) as [_ F Fr _]. split; [by apply Fr|].
    destruct F as [?|[[_ ?]|[? _]]]; auto. by destruct Hr.
  - intros r x Hx. destruct (E r) as [_ [F|[[_ F]|[_ [e F]]]] _ _]; congruence.
Qed.

(** Every partial result is the right slice.  After a run, whatever was retried,
    split or isolated on the way, a partial result of item [i] of request [r] either was
    there before, or is the slice of the output of a successful forward pass over entries
    of this group, at the position that very item had in the batch of that pass. *)
Theorem run_routes_slices g s :
  ∃ s', run g s = Some s' ∧
    ∀ r i v, partial_at (metas s' r) i = Some v → partial_at (metas s r) i = Some v ∨ produced g r i v.
Proof.
  destruct (run_total_post g s) as (s' & Hs' & E & _). exists s'. split; [done|].
  intros r i v. apply (me_vals _ _ _ _ (E r)).
Qed.

(** ** One malformed request does not poison its siblings *)

Lemma fail_loop_lookup l seen e m r :
  fail_loop l seen e m r =
    if bool_decide (r ∈ l ∧ r ∉ seen) && negb (done (m_future (m r)))
    then mkMeta (Failed e) (partial_results (m r)) else m r.
Proof.
  revert seen m. induction l as [|r' l IH]; intros seen m; cbn [fail_loop].
  { rewrite bool_decide_false; [done|]. set_solver. }
  assert (∀ P Q : Prop, (P ↔ Q) → ∀ `{!Decision P, !Decision Q}, bool_decide P = bool_decide Q) as Hbd
    by (intros; by apply bool_decide_ext).
  destruct (decide (r' ∈ seen)) as [Hs|Hs]; rewrite IH.
  - erewrite Hbd; [done|]. set_solver.
  - unfold fail_one. destruct (decide (r = r')) as [->|Hne].
    + rewrite (bool_decide_true (_ ∧ r' ∉ seen)) by set_solver.
      destruct (done (m_future (m r'))) eqn:Hd; [rewrite Hd, andb_false_r; done|].
      rewrite fn_lookup_insert. cbn. by rewrite andb_false_r.
    + assert ((if done (m_future (m r')) then m
               else <[r' := mkMeta (Failed e) (partial_results (m r'))]> m) r = m r) as ->.
      { destruct (done _); [done|]. by rewrite fn_lookup_insert_ne. }
      erewrite Hbd; [done|]. set_solver.
Qed.

(** The entries of one request, in batch order. *)
Definition entries_of (r : nat) (g : group) : group := filter (λ e, e_req e = r) g.

Lemma entries_of_left r g : r ∈ left_ids g → entries_of r (left_part g) = entries_of r g.
Proof.
  intros Hr. unfold entries_of, left_part. rewrite list_filter_filter. apply list_filter_iff.
  intros e. naive_solver.
Qed.

Lemma entries_of_right r g : r ∉ left_ids g → entries_of r (right_part g) = entries_of r g.
Proof.
  intros Hr. unfold entries_of, right_part. rewrite list_filter_filter. apply list_filter_iff.
  intros e. naive_solver.
Qed.

Lemma mine_left r g : mine (left_part g) r ↔ mine g r ∧ r ∈ left_ids g.
Proof.
  unfold mine, left_part. rewrite !list_elem_of_fmap. setoid_rewrite list_elem_of_filter. naive_solver.
Qed.

Lemma mine_right r g : mine (right_part g) r ↔ mine g r ∧ r ∉ left_ids g.
Proof.
  unfold mine, right_part. rewrite !list_elem_of_fmap. setoid_rewrite list_elem_of_filter. naive_solver.
Qed.

Lemma nreqs_one g e r : (nreqs g <= 1)%nat → e ∈ g → mine g r → r = e_req e.
Proof.
  intros Hn He Hr. assert (r ∈ fromkeys (e_req <$> g)) as H1 by by apply elem_of_fromkeys.
  assert (e_req e ∈ fromkeys (e_req <$> g)) as H2 by by apply elem_of_fromkeys, mine_of.
  unfold nreqs in Hn. destruct (fromkeys _) as [|a [|b l]]; cbn in Hn; [by apply elem_of_nil in H1| |lia].
  apply list_elem_of_singleton in H1, H2. congruence.
Qed.

Lemma entries_of_all g r : (∀ r', mine g r' → r' = r) → entries_of r g = g.
Proof.
  intros H. unfold entries_of. induction g as [|e g IH]; [done|]. rewrite filter_cons_True.
  - f_equal. apply IH. intros r' Hr'. apply H. by right.
  - apply H. left.
Qed.

Lemma fan_out_futures output n g m r :
  m_future ((fan_out output n g m).1 r) = m_future (m r).
Proof.
  assert (∀ m q, m_future (ensure_partial m q r) = m_future (m r)) as Hen.
  { intros m' q. unfold ensure_partial. destruct (partial_results (m' q)); [done|].
    destruct (decide (r = q)) as [->|]; [by rewrite fn_lookup_insert|by rewrite fn_lookup_insert_ne]. }
  revert n m. induction g as [|e g IH]; intros n m; [done|]. cbn [fan_out].
  destruct (slice_output env output n) as [x|x]; cbn [fst]; [|apply Hen].
  rewrite IH, <- (Hen m (e_req e)). unfold write_partial.
  destruct (decide (r = e_req e)) as [->|]; [by rewrite fn_lookup_insert|by rewrite fn_lookup_insert_ne].
Qed.

Lemma fan_out_ok output n g m :
  (∀ i, (i < length g)%nat → ∃ x, slice_output env output (n + i) = Ret x) →
  (fan_out output n g m).2 = Ret tt.
Proof.
  revert n m. induction g as [|e g IH]; intros n m Hok; [done|]. cbn [fan_out].
  destruct (Hok 0%nat) as [x Hx]; [cbn; lia|]. rewrite Nat.add_0_r in Hx. rewrite Hx.
  apply IH. intros i Hi. rewrite Nat.add_succ_comm. apply Hok. cbn. lia.
Qed.

Section isolation.
(** The adapter validates its inputs: a call raises [InvalidInputError] exactly when the
    batch it is given contains an entry of a malformed request, and otherwise succeeds. *)
Context (bad : nat → bool) (msg : group → string) (out : group → Output).
Hypothesis dispatch_validates : ∀ w g, ∃ w',
  dispatch env w g =
    (w', [], if existsb (λ e, bad (e_req e)) g then Raise (InvalidInputError (msg g)) else Ret (out g)).
Hypothesis slices_ok : ∀ g i, (i < length g)%nat → ∃ x, slice_output env (out g) i = Ret x.

(** One attempt: it changes no future, and it succeeds exactly on well-formed batches. *)
Lemma dispatch_isolation g s :
  let '(s1, r) := dispatch_and_fan_out g s in
  (∀ q, m_future (metas s1 q) = m_future (metas s q)) ∧
  (∀ q, existsb (λ e, bad (e_req e)) g = true → metas s1 q = metas s q) ∧
  stats s1 = stats s ∧ telemetry s1 = telemetry s ∧
  r = if existsb (λ e, bad (e_req e)) g then Raise (InvalidInputError (msg g)) else Ret tt.
Proof.
  unfold dispatch_and_fan_out. destruct (dispatch_validates (world s) g) as [w' ->].
  destruct (existsb _ g) eqn:Eb; [done|].
  pose proof (fan_out_ok (out g) 0 g (metas (after_await s w' [])) (slices_ok g)) as Hr.
  pose proof (fan_out_futures (out g) 0 g (metas (after_await s w' []))) as Hm.
  destruct (fan_out _ _ _ _) as [m r]. cbn in *. by rewrite Hr.
Qed.

(** The future of request [r] after the run. *)
Definition isolated_future (g : group) (s : state) (r : nat) : future R :=
  if bool_decide (mine g r) && bad r && negb (done (m_future (metas s r)))
  then Failed (InvalidInputError (msg (entries_of r g))) else m_future (metas s r).

Lemma existsb_bad g : existsb (λ e, bad (e_req e)) g = true ↔ ∃ e, e ∈ g ∧ bad (e_req e) = true.
Proof. rewrite existsb_exists. by setoid_rewrite list_elem_of_In. Qed.

Lemma run_fuel_isolates f g s :
  (1 <= f)%nat → (nreqs g <= f)%nat →
  ∃ s', run_fuel f g s = Some s' ∧ stats s' = stats s ∧ telemetry s' = telemetry s ∧
    ∀ r, m_future (metas s' r) = isolated_future g s r.
Proof.
  revert g s. induction f as [|f IH]; intros g s H1 Hn; [lia|]. cbn [run_fuel]. unfold run_body.
  pose proof (dispatch_isolation g s) as Hd. destruct (dispatch_and_fan_out g s) as [s1 r].
  destruct Hd as (Hf & Hm & Hst & Htl & ->). destruct (existsb _ g) eqn:Eb; cbn [is_invalid].
  2:{ exists s1. do 3 (split; [done|]). intros r. rewrite Hf. unfold isolated_future.
    case_bool_decide as Hr; [|done]. destruct (bad r) eqn:Hb; [|done].
    apply list_elem_of_fmap in Hr as (e & -> & He).
    exfalso. apply not_true_iff_false in Eb. apply Eb. rewrite existsb_bad. eauto. }
  unfold isolate_invalid_input. fold (nreqs g). destruct (Nat.leb_spec (nreqs g) 1) as [Hle|Hgt].
  - exists (fail_group g (InvalidInputError (msg g)) s1). do 3 (split; [done|]). intros r. cbn.
    rewrite fail_loop_lookup, Hf. unfold isolated_future. rewrite (Hm r eq_refl).
    apply existsb_bad in Eb as (e & He & Hb).
    destruct (decide (mine g r)) as [Hr|Hr].
    + pose proof (nreqs_one g e r Hle He Hr) as ->.
      rewrite bool_decide_true by (split; [done|set_solver]). rewrite bool_decide_true by done.
      rewrite Hb. cbn. destruct (negb _); [|done]. cbn. rewrite entries_of_all; [done|].
      intros r' Hr'. by apply (nreqs_one g).
    + rewrite bool_decide_false by (intros [? _]; done). rewrite bool_decide_false by done. done.
  - destruct (nreqs_left g Hgt) as [_ Hl]. pose proof (nreqs_right g Hgt) as Hr'.
    destruct (IH (left_part g) s1) as (s2 & -> & Hs2 & Ht2 & Hm2); [lia..|].
    destruct (IH (right_part g) s2) as (s3 & -> & Hs3 & Ht3 & Hm3); [lia..|].
    exists s3. split; [done|]. split; [congruence|]. split; [congruence|]. intros r.
    rewrite Hm3. unfold isolated_future at 1. rewrite Hm2.
    unfold isolated_future. rewrite Hf.
    rewrite (bool_decide_ext _ _ (mine_right r g)), (bool_decide_ext _ _ (mine_left r g)).
    destruct (decide (r ∈ left_ids g)) as [Hin|Hin].
    + rewrite (bool_decide_false (_ ∧ r ∉ _)) by naive_solver. cbn.
      rewrite entries_of_left by done.
      by rewrite (bool_decide_ext (mine g r ∧ _) (mine g r)) by naive_solver.
    + rewrite (bool_decide_false (_ ∧ r ∈ _)) by naive_solver. cbn.
      rewrite entries_of_right by done.
      by rewrite (bool_decide_ext (mine g r ∧ _) (mine g r)) by naive_solver.
Qed.

(** A malformed request is isolated.  When the adapter rejects exactly the batches
    that contain a malformed request, [run] fails exactly the malformed requests that
    were still pending, each with the error the adapter raises for that request's own
    entries alone, and every entry of every other request gets its partial result while
    its future is left as it was; no OOM counter moves and no recovery is reported. *)
Theorem run_isolates_invalid_input g s :
  (∀ e, e ∈ g → m_future (metas s (e_req e)) = Pending) →
  ∃ s', run g s = Some s' ∧ stats s' = stats s ∧ telemetry s' = telemetry s ∧
    ∀ e, e ∈ g →
      if bad (e_req e)
      then m_future (metas s' (e_req e)) = Failed (InvalidInputError (msg (entries_of (e_req e) g)))
      else m_future (metas s' (e_req e)) = Pending ∧
           is_Some (partial_at (metas s' (e_req e)) (e_index e)).
Proof.
  intros Hp. destruct (run_fuel_isolates (S (length g)) g s) as (s' & Hs' & Hst & Htl & Hf);
    [lia|pose proof (nreqs_length g); lia|].
  exists s'. do 3 (split; [done|]). intros e He. specialize (Hf (e_req e)). unfold isolated_future in Hf.
  rewrite bool_decide_true in Hf by by apply mine_of. rewrite (Hp e He) in Hf.
  apply run_fuel_post in Hs' as [_ Hset]. rewrite Forall_forall in Hset. specialize (Hset e He).
  destruct (bad (e_req e)); cbn in Hf; [done|]. split; [done|].
  destruct Hset as [Hd|Hk]; [by rewrite Hf in Hd|done].
Qed.
End isolation.

(** ** Splitting recovers whatever fits in pieces *)

(** No future is failed; other tasks may still cancel. *)
Definition nofail (s s' : state) : Prop :=
  ∀ r, m_future (metas s' r) = m_future (metas s r) ∨ m_future (metas s' r) = Cancelled.

#[local] Instance nofail_preorder : PreOrder nofail.
Proof.
  split; [by left|]. intros s1 s2 s3 H12 H23 r.
  destruct (H23 r) as [->|?]; [apply H12|by right].
Qed.

Lemma after_await_nofail s w l : nofail s (after_await s w l).
Proof.
  intros r. cbn. generalize (metas s). induction l as [|q l IH]; intros m; [by left|]. cbn.
  destruct (IH (cancel_one m q)) as [->|?]; [|by right]. unfold cancel_one.
  destruct (done (m_future (m q))); [by left|].
  destruct (decide (r = q)) as [->|]; [right; by rewrite fn_lookup_insert|left; by rewrite fn_lookup_insert_ne].
Qed.

Lemma dispatch_nofail g s s1 r : dispatch_and_fan_out g s = (s1, r) →
  nofail s s1 ∧ stats s1 = stats s ∧ telemetry s1 = telemetry s.
Proof.
  unfold dispatch_and_fan_out. destruct (dispatch _ _ _) as [[w l] [out|e]].
  - destruct (fan_out _ _ _ _) as [m r'] eqn:Ef. intros [= <- <-]. split; [|done].
    intros q. cbn. pose proof (fan_out_futures out 0 g (metas (after_await s w l)) q) as H.
    rewrite Ef in H. cbn in H. rewrite H. apply (after_await_nofail s w l q).
  - intros [= <- <-]. split; [apply after_await_nofail|done].
Qed.

Lemma distinct_count_pos g : g ≠ [] → 0 < distinct_count g.
Proof.
  intros Hg. unfold distinct_count. apply Nat2Z.inj_lt with (n := 0%nat).
  apply Nat.neq_0_lt_0. intros ?%size_empty_inv%leibniz_equiv.
  destruct g as [|e g]; [done|]. cbn in *. set_solver.
Qed.

Section capacity.
(** The device takes any batch of up to [cap] entries; a larger one may succeed or run
    out of memory, depending on the state of the world. *)
Context (cap : nat).
Hypothesis dispatch_capacity : ∀ w g, ∃ w' l,
  (∃ output, dispatch env w g = (w', l, Ret output) ∧
     ∀ i, (i < length g)%nat → ∃ x, slice_output env output i = Ret x) ∨
  (cap < length g)%nat ∧
    (∃ m, dispatch env w g = (w', l, Raise (OtherError m)) ∧ is_oom_error (OtherError m) = true).

Lemma dispatch_fits g s :
  (∃ s1, dispatch_and_fan_out g s = (s1, Ret tt)) ∨
  (cap < length g)%nat ∧ ∃ s1 m, dispatch_and_fan_out g s = (s1, Raise (OtherError m)) ∧
    is_oom_error (OtherError m) = true.
Proof.
  unfold dispatch_and_fan_out.
  destruct (dispatch_capacity (world s) g) as (w' & l & [(out & -> & Hok)|(Hlt & m & -> & Hm)]).
  - left. pose proof (fan_out_ok out 0 g (metas (after_await s w' l)) Hok) as Hr.
    destruct (fan_out _ _ _ _) as [m r]. cbn in Hr. subst r. eauto.
  - right. eauto 6.
Qed.

Lemma run_split_recovers iso j k g depth s :
  max_split_depth config = depth + Z.of_nat j → (j < k)%nat → (length g <= cap * 2 ^ j)%nat →
  ∃ s' n, run_split iso k g depth s = Some (s', (n, 0)) ∧ nofail s s' ∧
    stats s' = stats s ∧ telemetry s' = telemetry s ∧ 0 <= n ∧ (g ≠ [] → 0 < n).
Proof.
  revert k g depth s. induction j as [|j IH]; intros k g depth s Hmax Hk Hlen;
    (destruct k as [|k]; [lia|]); cbn [run_split].
  all: set (s0 := if depth =? 0 then cache_clear s else s).
  all: assert (nofail s s0 ∧ stats s0 = stats s ∧ telemetry s0 = telemetry s) as (N0 & St0 & T0)
    by (unfold s0; destruct (depth =? 0); (split; [by left|done])).
  all: destruct (sleep0 env (world s0)) as [w l].
  all: pose proof (after_await_nofail s0 w l) as N1; set (sw := after_await s0 w l) in *.
  all: assert (0 <= distinct_count g) by (unfold distinct_count; lia).
  all: destruct (dispatch_fits g sw) as [[s1 E]|(Hlt & s1 & m & E & Hm)];
    destruct (dispatch_nofail _ _ _ _ E) as (N2 & St2 & T2); rewrite E;
    [exists s1, (distinct_count g);
     split; [done|]; split; [etrans; [exact N0|]; etrans; [exact N1|exact N2]|];
     split; [by rewrite St2|]; split; [by rewrite T2|]; split; [done|apply distinct_count_pos]|].
  - cbn in Hlen. lia.
  - cbn [is_invalid]. rewrite Hm. cbn [negb]. cbn in Hlen.
    assert ((length g <=? 1)%nat || (max_split_depth config <=? depth) = false) as ->.
    { apply orb_false_iff. split; [apply Nat.leb_gt|apply Z.leb_gt; lia].
      destruct (decide (cap = 0)%nat); nia. }
    pose proof (Nat.div_mod_eq (length g) 2) as Hdm.
    pose proof (Nat.mod_upper_bound (length g) 2). set (mid := (length g / 2)%nat) in *.
    destruct (IH k (take mid g) (depth + 1) (empty_cuda_cache s1)) as (s2 & n2 & -> & N3 & St3 & T3 & P3 & _);
      [lia|lia|rewrite length_take; nia|].
    destruct (IH k (drop mid g) (depth + 1) (empty_cuda_cache s2)) as (s3 & n3 & -> & N4 & St4 & T4 & P4 & Q4);
      [lia|lia|rewrite length_drop; nia|].
    exists s3, (n2 + n3). split; [done|]. split.
    { etrans; [exact N0|]. etrans; [exact N1|]. etrans; [exact N2|]. etrans; [exact N3|exact N4]. }
    split; [rewrite St4; cbn; rewrite St3; cbn; by rewrite St2|].
    split; [rewrite T4; cbn; rewrite T3; cbn; by rewrite T2|].
    split; [lia|]. intros _. enough (0 < n3) by lia. apply Q4. intros Hnil.
    apply (f_equal length) in Hnil. rewrite length_drop in Hnil. cbn [length] in Hnil. lia.
Qed.

(** What a successful recovery leaves in the counters. *)
Definition recovered (s s' : state) : Prop :=
  nofail s s' ∧ terminal_failures (stats s') = terminal_failures (stats s) ∧
  recoveries_attempted (stats s') = recoveries_attempted (stats s) ∧
  recoveries_succeeded (stats s') = recoveries_succeeded (stats s) + 1.

(** Steps that leave the futures alone and those three counters too. *)
Definition quiet (s s' : state) : Prop :=
  nofail s s' ∧ terminal_failures (stats s') = terminal_failures (stats s) ∧
  recoveries_attempted (stats s') = recoveries_attempted (stats s) ∧
  recoveries_succeeded (stats s') = recoveries_succeeded (stats s).

Lemma quiet_recovered s1 s2 s3 : quiet s1 s2 → recovered s2 s3 → recovered s1 s3.
Proof. intros (N & A & B & C) (N' & A' & B' & C'). split; [by etrans|]. rewrite A', B', C'. auto with lia. Qed.

Lemma quiet_trans s1 s2 s3 : quiet s1 s2 → quiet s2 s3 → quiet s1 s3.
Proof. intros (N & A & B & C) (N' & A' & B' & C'). split; [by etrans|]. by rewrite A', B', C'. Qed.

Lemma quiet_pending pending s s1 : quiet s s1 → quiet s (record_pending pending s1).
Proof. by destruct pending. Qed.

Lemma quiet_add s s1 a b c : quiet s s1 → quiet s (add_stats s1 a b c 0 0 0).
Proof. intros (N & A & B & C). split; [done|]. cbn. lia. Qed.

Lemma quiet_dispatch g s s1 r : dispatch_and_fan_out g s = (s1, r) → quiet s s1.
Proof. intros (N & St & _)%dispatch_nofail. split; [done|]. by rewrite St. Qed.

Lemma quiet_evict s s1 b : try_evict_lru s = (s1, b) → quiet s s1.
Proof.
  unfold try_evict_lru. destruct (registry env) as [ev|]; [|intros [= <- _]; split; [by left|done]].
  destruct (ev _ _ _) as [[w l] r]. intros [= <- _]. split; [apply after_await_nofail|done].
Qed.

Lemma strategy_loop_recovers iso g acts pending last s :
  SPLIT_BATCH ∈ acts → 0 <= max_split_depth config → g ≠ [] →
  (length g <= cap * 2 ^ Z.to_nat (max_split_depth config))%nat →
  ∃ s', strategy_loop iso g acts pending last s = Some s' ∧ recovered s s'.
Proof.
  intros Hin Hmax Hg Hlen. revert pending last s Hin.
  induction acts as [|a acts IH]; intros pending last s Hin; [by apply elem_of_nil in Hin|].
  assert (quiet s s) as Hrefl by (split; [by left|done]).
  assert (∀ s1, quiet s s1 → a ≠ SPLIT_BATCH → ∃ s',
    redispatch iso g a (strategy_loop iso g acts (Some (action_value a))) s1 = Some s' ∧
    recovered s s') as Hre.
  { intros s1 Q1 Ha. unfold redispatch. apply elem_of_cons in Hin as [Hin|Hin]; [by destruct Ha|].
    destruct (dispatch_fits g s1) as [[s2 E]|(_ & s2 & m & E & Hm)]; rewrite E;
      pose proof (quiet_trans _ _ _ Q1 (quiet_dispatch _ _ _ _ E)) as Q2.
    - eexists. split; [done|]. destruct Q2 as (N & A & B & C). split; [done|]. cbn. lia.
    - cbn [is_invalid]. rewrite Hm. cbn [negb].
      destruct (IH (Some (action_value a)) (OtherError m) s2 Hin) as (s' & -> & Hr).
      exists s'. split; [done|]. by eapply quiet_recovered. }
  cbn [strategy_loop]. cbv zeta. destruct a.
  - apply Hre; [|done]. by apply quiet_add, (quiet_pending pending).
  - destruct (try_evict_lru s) as [s1 ev] eqn:Ev. apply quiet_evict in Ev.
    apply elem_of_cons in Hin as Hin'. destruct Hin' as [[=]|Hin']. destruct ev; cbn [negb].
    + apply Hre; [|done]. by apply quiet_add, quiet_pending.
    + destruct (IH pending last s1 Hin') as (s' & -> & Hr). exists s'. split; [done|]. by eapply quiet_recovered.
  - set (s1 := add_stats (record_pending pending s) 0 0 1 0 0 0).
    assert (quiet s s1) as Q1 by by apply quiet_add, quiet_pending.
    destruct (run_split_recovers iso (Z.to_nat (max_split_depth config)) split_fuel g 0 s1)
      as (s2 & n & -> & N & St & T & _ & Hn); [lia|unfold split_fuel; lia|done|].
    rewrite (proj2 (Z.ltb_lt 0 n)) by auto. cbn [Z.ltb]. eexists. split; [done|].
    eapply quiet_recovered; [exact Q1|]. split; [exact N|]. cbn -[s1]. rewrite St. lia.
Qed.

(** Splitting recovers every batch that fits in pieces.  When the device takes any
    batch of up to [cap] entries and may run out of memory on larger ones, and the
    strategy ends in [SPLIT_BATCH], a batch of up to [cap * 2 ^ max_split_depth] entries
    loses nothing: no request fails, every entry of a request that was not cancelled has
    its partial result, no terminal failure is counted, and an OOM that was counted as
    attempted is counted as recovered. *)
Theorem run_split_recovers_all g s :
  enabled config = true → SPLIT_BATCH ∈ strategy config → 0 <= max_split_depth config →
  (length g <= cap * 2 ^ Z.to_nat (max_split_depth config))%nat →
  (∀ e, e ∈ g → m_future (metas s (e_req e)) = Pending) →
  ∃ s', run g s = Some s' ∧
    (∀ e, e ∈ g → m_future (metas s' (e_req e)) = Cancelled ∨
       m_future (metas s' (e_req e)) = Pending ∧ is_Some (partial_at (metas s' (e_req e)) (e_index e))) ∧
    terminal_failures (stats s') = terminal_failures (stats s) ∧
    recoveries_attempted (stats s') - recoveries_attempted (stats s) =
    recoveries_succeeded (stats s') - recoveries_succeeded (stats s).
Proof.
  intros Hen Hst Hmax Hlen Hp.
  assert (∃ s', run g s = Some s' ∧ nofail s s' ∧
    terminal_failures (stats s') = terminal_failures (stats s) ∧
    recoveries_attempted (stats s') - recoveries_attempted (stats s) =
    recoveries_succeeded (stats s') - recoveries_succeeded (stats s)) as (s' & Hrun & N & Hc).
  { unfold run. cbn [run_fuel]. unfold run_body.
    destruct (dispatch_fits g s) as [[s1 E]|(Hlt & s1 & m & E & Hm)]; rewrite E;
      destruct (quiet_dispatch _ _ _ _ E) as (N & A & B & C).
    - exists s1. repeat split; [done|done|]. rewrite B, C. lia.
    - cbn [is_invalid]. rewrite Hen, Hm. cbn [negb].
      destruct (strategy_loop_recovers (isolate_invalid_input (run_fuel (length g))) g (strategy config)
        None (OtherError m) (add_stats s1 0 0 0 0 1 0)) as (s' & -> & N' & A' & B' & C'); try done.
      { intros ->. cbn in Hlt. lia. }
      exists s'. split; [done|]. split; [etrans; [exact N|exact N']|]. cbn in A', B', C'. lia. }
  exists s'. split; [done|]. split; [|done]. intros e He.
  apply run_fuel_post in Hrun as [_ Hset]. rewrite Forall_forall in Hset. specialize (Hset e He).
  destruct (N (e_req e)) as [Hf|Hf]; [right|by left]. rewrite (Hp e He) in Hf. split; [done|].
  destruct Hset as [Hd|Hk]; [by rewrite Hf in Hd|done].
Qed.
End capacity.

(** ** One managed outcome per strategy attempt *)

(** Strategy attempts counted, and outcomes reported. *)
Definition strategy_attempts (s : state) : Z :=
  cache_clears (stats s) + evictions_triggered (stats s) + batch_splits (stats s).
Definition outcomes (s : state) : Z := Z.of_nat (length (telemetry s)).

Section outcomes.
(** The adapter rejects no input. *)
Hypothesis no_invalid : ∀ w g e, (dispatch env w g).2 = Raise e → is_invalid e = false.
Hypothesis no_invalid_slice : ∀ o i e, slice_output env o i = Raise e → is_invalid e = false.

Lemma dispatch_valid g s s1 e : dispatch_and_fan_out g s = (s1, Raise e) → is_invalid e = false.
Proof.
  assert (∀ o n g m e, (fan_out o n g m).2 = Raise e → is_invalid e = false) as Hfan.
  { intros o n g'. revert n. induction g' as [|x g' IH]; intros n m e'; [done|]. cbn [fan_out].
    destruct (slice_output env o n) as [y|y] eqn:E; [apply IH|]. intros [= <-]. eauto. }
  unfold dispatch_and_fan_out. pose proof (no_invalid (world s) g) as Hd.
  destruct (dispatch env (world s) g) as [[w l] [o|e']]; cbn in Hd.
  - destruct (fan_out _ _ _ _) as [m r] eqn:Ef. intros [= _ ->].
    apply (Hfan o 0%nat g (metas (after_await s w l))). by rewrite Ef.
  - intros [= _ ->]. by apply Hd.
Qed.

Lemma run_split_unreported iso k g depth s s' c :
  run_split iso k g depth s = Some (s', c) → stats s' = stats s ∧ telemetry s' = telemetry s.
Proof.
  revert g depth s s' c. induction k as [|k IH]; intros g depth s s' c; [done|]. cbn [run_split].
  set (s0 := if depth =? 0 then cache_clear s else s).
  assert (stats s0 = stats s ∧ telemetry s0 = telemetry s) as [St0 T0] by (unfold s0; by destruct (depth =? 0)).
  destruct (sleep0 env (world s0)) as [w l].
  destruct (dispatch_and_fan_out g _) as [s1 r] eqn:Ed.
  destruct (dispatch_nofail _ _ _ _ Ed) as (_ & St1 & T1). cbn in St1, T1.
  destruct r as [[]|e]; [intros [= <- _]; by rewrite St1, T1|].
  rewrite (dispatch_valid _ _ _ _ Ed).
  destruct (negb _); [intros [= <- _]; cbn; by rewrite St1, T1|].
  destruct (_ || _); [intros [= <- _]; cbn; by rewrite St1, T1|].
  destruct (run_split iso k (take _ g) _ _) as [[s2 [a b]]|] eqn:El; [|done].
  destruct (run_split iso k (drop _ g) _ _) as [[s3 [a' b']]|] eqn:Er; [|done].
  intros [= <- _]. apply IH in El as [Sl Tl], Er as [Sr Tr]. cbn in *. split; congruence.
Qed.

Definition pending_count (pending : option string) : Z := match pending with None => 0 | Some _ => 1 end.

Lemma outcomes_pending pending s : outcomes (record_pending pending s) = outcomes s + pending_count pending.
Proof. destruct pending; cbn; [|lia]. unfold outcomes. cbn. rewrite length_app. cbn. lia. Qed.

Lemma outcomes_record a o s : outcomes (record_recovery a o s) = outcomes s + 1.
Proof. unfold outcomes. cbn. rewrite length_app. cbn. lia. Qed.

Lemma outcomes_dispatch g s s1 r : dispatch_and_fan_out g s = (s1, r) →
  outcomes s1 = outcomes s ∧ stats s1 = stats s.
Proof. intros (_ & St & T)%dispatch_nofail. unfold outcomes. by rewrite T. Qed.

Lemma outcomes_fail g e s : outcomes (fail_group g e s) = outcomes s.
Proof. done. Qed.

Lemma outcomes_add s a b c d e f : outcomes (add_stats s a b c d e f) = outcomes s.
Proof. done. Qed.

Lemma attempts_add s a b c d e f : strategy_attempts (add_stats s a b c d e f) = strategy_attempts s + a + b + c.
Proof. unfold strategy_attempts. cbn. lia. Qed.

Lemma attempts_record a o s : strategy_attempts (record_recovery a o s) = strategy_attempts s.
Proof. done. Qed.

Lemma attempts_pending pending s : strategy_attempts (record_pending pending s) = strategy_attempts s.
Proof. by destruct pending. Qed.

Lemma attempts_fail g e s : strategy_attempts (fail_group g e s) = strategy_attempts s.
Proof. done. Qed.

#[local] Hint Rewrite outcomes_pending outcomes_record outcomes_fail outcomes_add
  attempts_add attempts_record attempts_pending attempts_fail : oom_counts.

(** What the loop adds to the counters, [owed] outcomes being owed when it starts. *)
Definition accounts (owed : Z) (s s' : state) : Prop :=
  recoveries_attempted (stats s') = recoveries_attempted (stats s) ∧
  strategy_attempts s <= strategy_attempts s' ∧
  outcomes s' - outcomes s = Z.max 1 (strategy_attempts s' - strategy_attempts s + owed).

Lemma redispatch_accounts iso g a next s s1 s' owed :
  0 <= owed → (∀ e s s', next e s = Some s' → accounts 1 s s') →
  recoveries_attempted (stats s1) = recoveries_attempted (stats s) →
  strategy_attempts s1 = strategy_attempts s + 1 → outcomes s1 = outcomes s + owed →
  redispatch iso g a next s1 = Some s' → accounts owed s s'.
Proof.
  intros Hw Hnext Ha Hsa Ho. unfold redispatch.
  destruct (dispatch_and_fan_out g s1) as [s2 r] eqn:Ed.
  destruct (outcomes_dispatch _ _ _ _ Ed) as [O2 St2].
  assert (strategy_attempts s2 = strategy_attempts s1) as A2 by (unfold strategy_attempts; by rewrite St2).
  unfold accounts.
  destruct r as [u|e]; [|rewrite (dispatch_valid _ _ _ _ Ed); destruct (negb _)]; intros H'.
  - apply (inj Some) in H'. rewrite <- H'. autorewrite with oom_counts.
    cbn -[outcomes strategy_attempts]. rewrite St2. lia.
  - apply (inj Some) in H'. rewrite <- H'. autorewrite with oom_counts.
    cbn -[outcomes strategy_attempts]. rewrite St2. lia.
  - apply Hnext in H' as (H1 & H2 & H3). rewrite St2 in H1. lia.
Qed.

Lemma strategy_loop_accounts iso g acts pending last s s' :
  strategy_loop iso g acts pending last s = Some s' → accounts (pending_count pending) s s'.
Proof.
  assert (∀ p, 0 <= pending_count p) as Hpc by (intros []; cbn; lia).
  assert (∀ p s, stats (record_pending p s) = stats s) as Sp by (intros [] ?; done).
  revert pending last s s'. induction acts as [|a acts IH]; intros pending last s s';
    cbn [strategy_loop]; cbv zeta.
  { intros H. apply (inj Some) in H. rewrite <- H. unfold accounts. autorewrite with oom_counts.
    split; [cbn; lia|]. destruct pending; cbn; lia. }
  destruct a.
  - eapply redispatch_accounts; [done|exact (IH (Some _))|..]; autorewrite with oom_counts.
    + cbn. rewrite Sp. cbn. lia.
    + transitivity (strategy_attempts (record_pending pending s) + 1 + 0 + 0); [done|].
      rewrite attempts_pending. lia.
    + exact (outcomes_pending pending s).
  - unfold try_evict_lru. destruct (registry env) as [ev|]; [|apply IH].
    destruct (ev _ _ _) as [[w l] out]. destruct (negb _); [exact (IH pending last (after_await s w l) s')|].
    eapply redispatch_accounts; [done|exact (IH (Some _))|..]; autorewrite with oom_counts.
    + cbn. rewrite Sp. cbn. lia.
    + change (strategy_attempts (after_await s w l)) with (strategy_attempts s). lia.
    + done.
  - destruct (run_split _ _ _ _ _) as [[s2 [x y]]|] eqn:Es; [|done].
    apply run_split_unreported in Es as [St T]. intros H. apply (inj Some) in H. rewrite <- H.
    assert (outcomes s2 = outcomes s + pending_count pending) as O2.
    { unfold outcomes. rewrite T. exact (outcomes_pending pending s). }
    assert (strategy_attempts s2 = strategy_attempts s + 1) as A2.
    { unfold strategy_attempts. rewrite St. cbn. rewrite Sp. lia. }
    specialize (Hpc pending). unfold accounts.
    destruct (0 <? x), (0 <? y); autorewrite with oom_counts; cbn -[outcomes strategy_attempts];
      rewrite St; cbn -[outcomes strategy_attempts]; rewrite Sp; lia.
Qed.

(** One managed outcome per strategy attempt.  When the adapter rejects no input,
    a run that meets no OOM reports nothing, and a run that does counts one recovery
    attempt and reports exactly as many outcomes as it tried mitigations (cache
    clears, evictions that happened, the split), or a single one when no mitigation
    applied. *)
Theorem run_reports_one_outcome_per_attempt g s s' :
  run g s = Some s' →
  (recoveries_attempted (stats s') = recoveries_attempted (stats s) ∧
   strategy_attempts s' = strategy_attempts s ∧ outcomes s' = outcomes s) ∨
  (recoveries_attempted (stats s') = recoveries_attempted (stats s) + 1 ∧
   strategy_attempts s <= strategy_attempts s' ∧
   outcomes s' - outcomes s = Z.max 1 (strategy_attempts s' - strategy_attempts s)).
Proof.
  unfold run. cbn [run_fuel]. unfold run_body.
  destruct (dispatch_and_fan_out g s) as [s1 r] eqn:Ed.
  destruct (outcomes_dispatch _ _ _ _ Ed) as [O1 St1].
  assert (strategy_attempts s1 = strategy_attempts s) as A1 by (unfold strategy_attempts; by rewrite St1).
  destruct r as [u|e]; [intros H; left; apply (inj Some) in H; rewrite <- H; by rewrite St1|].
  rewrite (dispatch_valid _ _ _ _ Ed).
  destruct (negb (enabled config)); [|destruct (negb (is_oom_error e))].
  1,2: intros H; left; apply (inj Some) in H; rewrite <- H; autorewrite with oom_counts; cbn -[outcomes strategy_attempts]; by rewrite St1.
  intros (H1 & H2 & H3)%strategy_loop_accounts. right. autorewrite with oom_counts in H2, H3.
  cbn -[outcomes strategy_attempts] in H1, H2, H3. rewrite St1 in H1. lia.
Qed.
End outcomes.
End executor.

(** ** Concrete runs *)

Definition demo_entry (r : nat) (i : Z) : entry (Item := unit) (Prepared := unit) := mkEntry tt r i tt.

(** A device whose answer depends on how many calls it has served. *)
Definition demo_env (f : nat → list (entry (Item := unit) (Prepared := unit)) → res exn nat)
    : environment (Item := unit) (Prepared := unit) (Output := nat) (Slice := nat) (W := nat) :=
  mkEnv (λ w g, (S w, [], f w g)) (λ o i, Ret i) None (λ w, w) (λ w, w) (λ w, (w, [])).

Definition demo_state : state (Slice := nat) (R := unit) (W := nat) :=
  mkState 0%nat (λ _, mkMeta Pending None) zero_stats [].

Definition cuda_oom : exn := OtherError "CUDA out of memory".

(** Requests 1 and 2 with two entries each, request 3 malformed. *)
Definition demo_group := [demo_entry 1 0; demo_entry 1 1; demo_entry 2 0; demo_entry 3 0; demo_entry 2 1].
Definition validating_env : environment :=
  demo_env (λ _ g, if existsb (λ e, (e_req e =? 3)%nat) g then Raise (InvalidInputError "bad") else Ret 0%nat).

Lemma run_isolates_invalid_input_witness :
  ∃ s', run validating_env "m" default_config demo_group demo_state = Some s' ∧
    m_future (metas s' 3%nat) = Failed (InvalidInputError "bad") ∧
    m_future (metas s' 1%nat) = Pending ∧ is_Some (partial_at (metas s' 2%nat) 1).
Proof.
  destruct (run_isolates_invalid_input (R := unit) validating_env "m" default_config (λ r, (r =? 3)%nat) (λ _, "bad"%string)
    (λ _, 0%nat)) with (g := demo_group) (s := demo_state) as (s' & Hs' & _ & _ & He).
  - intros w g. exists (S w). reflexivity.
  - intros g i _. exists i. reflexivity.
  - intros e _. reflexivity.
  - exists s'. split; [exact Hs'|]. split; [|split].
    + apply (He (demo_entry 3 0)). unfold demo_group. set_solver.
    + apply (He (demo_entry 1 0)). unfold demo_group. set_solver.
    + apply (He (demo_entry 2 1)). unfold demo_group. set_solver.
Defined.

(** A device that takes two entries at a time. *)
Definition small_env : environment :=
  demo_env (λ _ g, if (length g <=? 2)%nat then Ret 0%nat else Raise cuda_oom).

Lemma run_split_recovers_all_witness :
  ∃ s', run small_env "m" default_config demo_group demo_state = Some s' ∧
    (∀ e, e ∈ demo_group → m_future (metas s' (e_req e)) = Cancelled ∨
       m_future (metas s' (e_req e)) = Pending ∧ is_Some (partial_at (metas s' (e_req e)) (e_index e))) ∧
    terminal_failures (stats s') = terminal_failures (stats demo_state) ∧
    recoveries_attempted (stats s') - recoveries_attempted (stats demo_state) =
    recoveries_succeeded (stats s') - recoveries_succeeded (stats demo_state).
Proof.
  apply (run_split_recovers_all (R := unit) small_env "m" default_config 2).
  - intros w g. exists (S w), []. unfold small_env, demo_env. cbn.
    destruct (Nat.leb_spec (length g) 2); [left|right]; eauto.
  - reflexivity.
  - right. right. left.
  - cbn. lia.
  - apply Nat.leb_le. vm_compute. reflexivity.
  - reflexivity.
Defined.

Lemma run_reports_one_outcome_per_attempt_witness :
  ∃ s', run small_env "m" default_config demo_group demo_state = Some s' ∧
    outcomes s' - outcomes demo_state = 2.
Proof.
  destruct (run small_env "m" default_config demo_group demo_state) as [s'|] eqn:E; [|vm_compute in E; discriminate E].
  exists s'. split; [reflexivity|].
  destruct (run_reports_one_outcome_per_attempt (R := unit) small_env "m" default_config) with (3 := E) as [(H & _)|(_ & _ & H)].
  - intros w g e. cbn. destruct (_ <=? 2)%nat; [intros [=]|intros [= <-]; reflexivity].
  - intros o i e. intros [=].
  - exfalso. revert H. vm_compute in E. injection E as <-. vm_compute. intros [=].
  - rewrite H. vm_compute in E. injection E as <-. vm_compute. reflexivity.
Defined.

(** The adapter runs out of memory once and then finds the input malformed. *)
Definition oom_then_invalid_env : environment :=
  demo_env (λ w _, if (w =? 0)%nat then Raise cuda_oom else Raise (InvalidInputError "bad")).

(** A mitigation whose retry finds malformed input goes unreported.  The strategy
    loop says that every attempt gets exactly one managed outcome, but when the
    re-dispatch after a cache clear raises [InvalidInputError] the run returns through
    the isolation path: the clear and the recovery attempt are counted, and no outcome is
    reported for them. *)
Theorem retry_invalid_input_unreported :
  ∃ s', run oom_then_invalid_env "m" default_config [demo_entry 1 0] demo_state = Some s' ∧
    recoveries_attempted (stats s') = 1 ∧ cache_clears (stats s') = 1 ∧
    strategy_attempts s' - strategy_attempts demo_state = 1 ∧ telemetry s' = [] ∧
    m_future (metas s' 1%nat) = Failed (InvalidInputError "bad").
Proof. eexists. split; [vm_compute; reflexivity|]. vm_compute. repeat split. Qed.

(** A device that takes one entry at a time. *)
Definition tiny_env : environment :=
  demo_env (λ _ g, if (length g <=? 1)%nat then Ret 0%nat else Raise cuda_oom).

(** The counts of [_run_split] are not counts of distinct requests.  A request whose
    entries fall on both sides of the midpoint is counted once in each half: one request
    of two entries is reported as two successes. *)
Theorem run_split_double_counts :
  ∃ s', run_split tiny_env default_config (λ _ _ _, None) (split_fuel default_config)
          [demo_entry 1 0; demo_entry 1 1] 0 demo_state = Some (s', (2, 0)) ∧
    distinct_count [demo_entry 1 0; demo_entry 1 1] = 1.
Proof. eexists. split; vm_compute; reflexivity. Qed.

End Executor.
