(* ===== verification/Handlers.v ===== *)
(** The operation handlers of a model worker: [core/worker/handlers/] and the output
    types of [core/inference_output.py].

    A handler makes the key under which requests may share a forward pass, slices a
    batched output into single-item outputs, and assembles the single-item outputs of a
    request again.  [OperationHandler] is the interface the worker uses; its laws are
    what the worker relies on, and the three handlers are its instances.  Array payloads
    (rows of a dense matrix, sparse vectors, scores, entities) are abstract types:
    the handlers only move them.  Exceptions are the [exn] of [Oom.v]. *)

From stdpp Require Import pretty strings.
From Stdlib Require Import String.
From stdpp Require Import list.
From S2P Require Import Prelude PyFloat PyDict Oom.
Import Oom.
Local Open Scope Z_scope.

Module Handlers.

(** ** Python values and [make_hashable] *)

Inductive pyval :=
  | VNone
  | VBool (b : bool)
  | VInt (z : Z)
  | VFloat (x : float)
  | VStr (s : string)
  | VList (l : list pyval)
  | VTuple (l : list pyval)
  | VDict (d : list (string * pyval)).

#[export] Instance float_eq_dec : EqDecision float.
Proof. solve_decision. Defined.

#[export] Instance pyval_eq_dec : EqDecision pyval.
Proof.
  refine (fix go v w := let _ : EqDecision pyval := go in
    match v, w with
    | VNone, VNone => left eq_refl
    | VBool a, VBool b => cast_if (decide (a = b))
    | VInt a, VInt b => cast_if (decide (a = b))
    | VFloat a, VFloat b => cast_if (decide (a = b))
    | VStr a, VStr b => cast_if (decide (a = b))
    | VList a, VList b => cast_if (decide (a = b))
    | VTuple a, VTuple b => cast_if (decide (a = b))
    | VDict a, VDict b => cast_if (decide (a = b))
    | _, _ => right _
    end); abstract congruence.
Defined.

(** Python's [==] (and [hash]) identify [True], [1] and [1.0]: a representative of each
    class of equal keys.  NaN, which is not even equal to itself, is left alone. *)
Fixpoint key_norm (v : pyval) : pyval :=
  match v with
  | VBool b => VInt (if b then 1 else 0)
  | VFloat x =>
      match ftrunc x with
      | Some z => match fcmpZ x z with Some Eq => VInt z | _ => VFloat x end
      | None => VFloat x
      end
  | VList l => VList (List.map key_norm l)
  | VTuple l => VTuple (List.map key_norm l)
  | VDict d => VDict (List.map (λ '(k, w), (k, key_norm w)) d)
  | _ => v
  end.

Definition key_leb (p q : string * pyval) : bool := String.leb p.1 q.1.
Definition pair_tuple (p : string * pyval) : pyval := VTuple [VStr p.1; p.2].

(** [make_hashable]; the entries of a dict have distinct string keys, so [sorted] on the
    (key, value) tuples never compares two values. *)
Fixpoint make_hashable (v : pyval) : pyval :=
  match v with
  | VList l => VTuple (List.map make_hashable l)
  | VDict d =>
      VTuple (List.map pair_tuple (stable_sort key_leb (List.map (λ '(k, w), (k, make_hashable w)) d)))
  | _ => v
  end.

(** ** The fields of [RequestMetadata] that decide the key *)

Inductive Op := OpEncode | OpExtract | OpScore.

#[export] Instance Op_eq_dec : EqDecision Op.
Proof. solve_decision. Defined.

Record ReqParams := mkParams {
  operation : Op;
  instruction : option string;
  options : option (list (string * pyval));
  output_types : list string;
  is_query : bool;
  labels : option (list string);
  output_schema : option (list (string * pyval));
}.

Definition opt_str (o : option string) : pyval := match o with Some s => VStr s | None => VNone end.

(** A dict used as a truth value. *)
Definition truthy_dict (o : option (list (string * pyval))) : option (list (string * pyval)) :=
  match o with Some (e :: d) => Some (e :: d) | _ => None end.

(** [make_hashable(metadata.options) if metadata.options else None] *)
Definition options_key (m : ReqParams) : pyval :=
  match truthy_dict (options m) with Some d => make_hashable (VDict d) | None => VNone end.

(** [options.get("lora") if options else None] *)
Definition lora_value (m : ReqParams) : pyval :=
  match truthy_dict (options m) with
  | Some d => default VNone (dict_get "lora"%string d)
  | None => VNone
  end.

(** [EncodeHandler.make_config_key] *)
Definition encode_config_key (m : ReqParams) : list pyval :=
  [VTuple (List.map VStr (stable_sort String.leb (output_types m))); opt_str (instruction m);
   VBool (is_query m); lora_value m; options_key m].

(** [ExtractHandler.make_config_key] *)
Definition extract_config_key (m : ReqParams) : list pyval :=
  [match labels m with
   | Some (l :: ls) => VTuple (List.map VStr (l :: ls))
   | _ => VNone
   end;
   match output_schema m with Some d => make_hashable (VDict d) | None => VNone end;
   opt_str (instruction m); options_key m].

(** [ScoreHandler.make_config_key] *)
Definition score_config_key (m : ReqParams) : list pyval := [opt_str (instruction m); options_key m].

Definition op_str (o : Op) : pyval :=
  VStr (match o with OpEncode => "encode" | OpExtract => "extract" | OpScore => "score" end).

(** [(metadata.operation, *handler.make_config_key(metadata))] *)
Definition config_key (m : ReqParams) : list pyval :=
  op_str (operation m) ::
  match operation m with
  | OpEncode => encode_config_key m
  | OpExtract => extract_config_key m
  | OpScore => score_config_key m
  end.

(** ** Evaluation helpers *)

Definition index_error : exn := OtherError "list index out of range".
Definition key_error (i : Z) : exn := OtherError (pretty i).
Definition type_error : exn := OtherError "'NoneType' object is not subscriptable".
Definition concat_error : exn := OtherError "zero-dimensional arrays cannot be concatenated".

(** [l[i]] for a non-negative index *)
Definition at_ {A} (l : list A) (i : nat) : res exn A :=
  match l !! i with Some x => Ret x | None => Raise index_error end.

(** [[f(i) for i in range(n)]], left to right, stopping at the first exception *)
Fixpoint collect {A} (f : nat → res exn A) (i n : nat) : res exn (list A) :=
  match n with
  | O => Ret []
  | S n' =>
      match f i with
      | Raise e => Raise e
      | Ret x => match collect f (S i) n' with Raise e => Raise e | Ret l => Ret (x :: l) end
      end
  end.

(** [partials[i]] *)
Definition partial {O} (ps : list (Z * O)) (i : nat) : res exn O :=
  match dict_get (Z.of_nat i) ps with Some o => Ret o | None => Raise (key_error (Z.of_nat i)) end.

(** [l[i : i + 1]] *)
Definition slice1 {A} (l : list A) (i : nat) : list A := take 1 (drop i l).

(** [[l[index]] if l is not None else None] *)
Definition pick {A} (l : option (list A)) (i : nat) : res exn (option (list A)) :=
  match l with
  | None => Ret None
  | Some l => match at_ l i with Ret x => Ret (Some [x]) | Raise e => Raise e end
  end.

(** [[counts[index]] if counts is not None and 0 <= index < len(counts) else None] *)
Definition pick_count {A} (l : option (list A)) (i : nat) : option (list A) :=
  match l with
  | Some l => match l !! i with Some x => Some [x] | None => None end
  | None => None
  end.

(** A list of length one. *)
Definition single {A} (l : option (list A)) : option A :=
  match l with Some [x] => Some x | _ => None end.

(** ** The interface the worker uses *)

Class OperationHandler (O : Type) := {
  slice_output : O → nat → res exn O;
  assemble_output : list (Z * O) → Z → res exn O;
  (** A single-item output as [slice_output] makes them. *)
  single_item : O → Prop;
  (** Outputs of forward passes of one configuration: the same fields are present. *)
  alike : O → O → Prop;
}.

(** What the handler promises: assembling the single-item outputs of a request succeeds,
    and the result holds exactly those outputs, in the request's item order. *)
Class HandlerLaws (O : Type) `{OperationHandler O} : Prop := {
  assemble_slices : ∀ (ps : list (Z * O)) (n : nat) (s : nat → O),
    (0 < n)%nat → length ps = n → (∀ i, (i < n)%nat → dict_get (Z.of_nat i) ps = Some (s i)) →
    (∀ i, (i < n)%nat → single_item (s i)) →
    (∀ i j, (i < n)%nat → (j < n)%nat → alike (s i) (s j)) →
    ∃ o, assemble_output ps (Z.of_nat n) = Ret o ∧
      ∀ i, (i < n)%nat → slice_output o i = Ret (s i);
  slice_single : ∀ o i s, slice_output o i = Ret s → single_item s;
}.

(** ** Encode *)

Section encode.
Context {Row SV MV : Type} (token_dim : MV → Z).   (* mv.shape[-1] *)

(** A [batch, dim] array: its second dimension and its rows. *)
Record ndarray2 := mkArr { shape1 : Z; rows : list Row }.

Record EncodeOutput := mkEncode {
  dense : option ndarray2;
  sparse : option (list SV);
  multivector : option (list MV);
  enc_batch_size : Z;
  enc_is_query : bool;
  dense_dim : option Z;
  multivector_token_dim : option Z;
  extra : list (string * pyval);
}.

Definition size_error (what ref : string) (n m : Z) : exn :=
  OtherError (what +:+ pretty n +:+ " != " +:+ ref +:+ pretty m).

(** One field of [EncodeOutput.__post_init__]: the batch size is taken from the field
    when it is 0, and has to agree with it otherwise. *)
Definition check_size {A} (what ref : string) (l : option (list A)) (bs : Z) : res exn Z :=
  match l with
  | None => Ret bs
  | Some l =>
      let n := Z.of_nat (length l) in
      if bs =? 0 then Ret n else if n =? bs then Ret bs else Raise (size_error what ref n bs)
  end.

(** [EncodeOutput(...)] with [__post_init__] *)
Definition EncodeOutput_init (d : option ndarray2) (sp : option (list SV)) (mv : option (list MV))
    (bs : Z) (q : bool) (dd md : option Z) (ex : list (string * pyval)) : res exn EncodeOutput :=
  match check_size "dense batch size " "" (rows <$> d) bs with
  | Raise e => Raise e
  | Ret bs1 =>
      let dd' := match d with
                 | Some a => match dd with None => Some (shape1 a) | Some _ => dd end
                 | None => dd
                 end in
      match check_size "sparse list length " "batch_size " sp bs1 with
      | Raise e => Raise e
      | Ret bs2 =>
          match check_size "multivector list length " "batch_size " mv bs2 with
          | Raise e => Raise e
          | Ret bs3 =>
              let md' := match mv with
                         | Some (m :: _) => match md with None => Some (token_dim m) | Some _ => md end
                         | _ => md
                         end in
              Ret (mkEncode d sp mv bs3 q dd' md' ex)
          end
      end
  end.

Definition PER_ITEM_EXTRA_KEYS : list string :=
  ["input_token_counts"; "input_image_counts"; "text_tower_skipped"]%string.

(** [output.extra.get(key)] when it is a list *)
Definition extra_list (ex : list (string * pyval)) (key : string) : option (list pyval) :=
  match dict_get key ex with Some (VList l) => Some l | _ => None end.

(** The [extra] loop of [slice_output]. *)
Fixpoint slice_extra (keys : list string) (ex : list (string * pyval)) (i : nat) : list (string * pyval) :=
  match keys with
  | [] => []
  | key :: keys' =>
      match pick_count (extra_list ex key) i with
      | Some l => (key, VList l) :: slice_extra keys' ex i
      | None => slice_extra keys' ex i
      end
  end.

(** [EncodeHandler.slice_output] *)
Definition encode_slice (o : EncodeOutput) (index : nat) : res exn EncodeOutput :=
  let ex := slice_extra PER_ITEM_EXTRA_KEYS (extra o) index in
  let d := (λ a, mkArr (shape1 a) (slice1 (rows a) index)) <$> dense o in
  match pick (sparse o) index with
  | Raise e => Raise e
  | Ret sp =>
      match pick (multivector o) index with
      | Raise e => Raise e
      | Ret mv => EncodeOutput_init d sp mv 1 (enc_is_query o) (dense_dim o) (multivector_token_dim o) ex
      end
  end.

(** [np.concatenate(list, axis=0)] of a list of optional 2-D arrays *)
Definition concatenate (l : list (option ndarray2)) : res exn (option ndarray2) :=
  match mapM id l with
  | None => Raise concat_error
  | Some [] => Raise (OtherError "need at least one array to concatenate")
  | Some (a :: l') =>
      if forallb (λ b, shape1 b =? shape1 a) l'
      then Ret (Some (mkArr (shape1 a) (mjoin (rows <$> a :: l'))))
      else Raise (OtherError "all the input array dimensions except for the concatenation axis must match exactly")
  end.

(** [partials[i].field[0]] *)
Definition first_of {O A} (ps : list (Z * O)) (f : O → option (list A)) (i : nat) : res exn A :=
  match partial ps i with
  | Raise e => Raise e
  | Ret o => match f o with None => Raise type_error | Some l => at_ l 0 end
  end.

(** One key of the [extra] loop of [assemble_output]: all the counts or none. *)
Fixpoint assemble_count {O A} (ps : list (Z * O)) (f : O → option (list A)) (i n : nat) (acc : list A)
    : res exn (list A) :=
  match n with
  | O => Ret acc
  | S n' =>
      match partial ps i with
      | Raise e => Raise e
      | Ret o =>
          match single (f o) with
          | None => Ret []
          | Some x => assemble_count ps f (S i) n' (acc ++ [x])
          end
      end
  end.

Fixpoint assemble_extra (keys : list string) (ps : list (Z * EncodeOutput)) (n : nat)
    : res exn (list (string * pyval)) :=
  match keys with
  | [] => Ret []
  | key :: keys' =>
      match assemble_count ps (λ o, extra_list (extra o) key) 0 n [] with
      | Raise e => Raise e
      | Ret counts =>
          match assemble_extra keys' ps n with
          | Raise e => Raise e
          | Ret ex => Ret (match counts with [] => ex | _ => (key, VList counts) :: ex end)
          end
      end
  end.

Definition collect_field {A} (ps : list (Z * EncodeOutput)) (f : EncodeOutput → option (list A))
    (present : bool) (n : nat) : res exn (option (list A)) :=
  if present then match collect (first_of ps f) 0 n with Raise e => Raise e | Ret l => Ret (Some l) end
  else Ret None.

Definition is_some {A} (o : option A) : bool := match o with Some _ => true | None => false end.

(** The assembly proper, past the fast paths. *)
Definition encode_assemble_all (ps : list (Z * EncodeOutput)) (first : EncodeOutput) (batch_size : Z)
    : res exn EncodeOutput :=
  let n := Z.to_nat batch_size in
  match (if is_some (dense first)
         then match collect (λ i, match partial ps i with Ret o => Ret (dense o) | Raise e => Raise e end) 0 n with
              | Raise e => Raise e
              | Ret l => concatenate l
              end
         else Ret None) with
  | Raise e => Raise e
  | Ret d =>
      match collect_field ps sparse (is_some (sparse first)) n with
      | Raise e => Raise e
      | Ret sp =>
          match collect_field ps multivector (is_some (multivector first)) n with
          | Raise e => Raise e
          | Ret mv =>
              match assemble_extra PER_ITEM_EXTRA_KEYS ps n with
              | Raise e => Raise e
              | Ret ex =>
                  EncodeOutput_init d sp mv batch_size (enc_is_query first) (dense_dim first)
                    (multivector_token_dim first) ex
              end
          end
      end
  end.

(** [EncodeHandler.assemble_output] *)
Definition encode_assemble (ps : list (Z * EncodeOutput)) (batch_size : Z) : res exn EncodeOutput :=
  match ps with
  | [] => EncodeOutput_init None None None 0 false None None []
  | (_, first) :: rest =>
      if batch_size =? 1 then partial ps 0
      else
        match rest with
        | [] => if enc_batch_size first =? batch_size then Ret first
                else encode_assemble_all ps first batch_size
        | _ => encode_assemble_all ps first batch_size
        end
  end.

(** Generic facts about the comprehension loops. *)
Lemma collect_ok {A} (f : nat → res exn A) n : ∀ i0,
  (∀ j, (j < n)%nat → ∃ x, f (i0 + j)%nat = Ret x) →
  ∃ l, collect f i0 n = Ret l ∧ length l = n ∧
    ∀ j x, (j < n)%nat → f (i0 + j)%nat = Ret x → l !! j = Some x.
Proof.
  induction n as [|n IH]; intros i0 Hf; cbn [collect].
  { exists []. split; [done|]. split; [done|]. intros; lia. }
  destruct (Hf 0%nat) as [x Hx]; [lia|]. rewrite Nat.add_0_r in Hx. rewrite Hx.
  destruct (IH (S i0)) as (l & -> & Hl & Hlk).
  { intros j Hj. rewrite Nat.add_succ_comm. apply Hf. lia. }
  exists (x :: l). split; [done|]. split; [cbn; lia|]. intros [|j] y Hj Hy.
  - rewrite Nat.add_0_r, Hx in Hy. injection Hy as ->. done.
  - cbn. apply Hlk; [lia|]. by rewrite Nat.add_succ_comm.
Qed.

(** The dict of a complete request holds the given outputs and nothing else. *)
Lemma partials_complete {O} (ps : list (Z * O)) n (s : nat → O) k o :
  length ps = n → (∀ i, (i < n)%nat → dict_get (Z.of_nat i) ps = Some (s i)) →
  (k, o) ∈ ps → ∃ i, (i < n)%nat ∧ o = s i.
Proof.
  intros Hlen Hget Hin.
  assert (Z.of_nat <$> seq 0 n ≡ₚ dict_keys ps) as Hperm.
  { apply submseteq_length_Permutation.
    - apply NoDup_submseteq; [apply (NoDup_fmap_2 _), NoDup_seq|].
      intros x (i & -> & Hi%elem_of_seq)%list_elem_of_fmap. apply dict_get_is_Some.
      rewrite Hget by lia. eauto.
    - unfold dict_keys. rewrite !length_fmap, length_seq. lia. }
  assert (dict_wf ps) as Hwf.
  { unfold dict_wf. rewrite <- Hperm. apply (NoDup_fmap_2 _), NoDup_seq. }
  assert (k ∈ dict_keys ps) as Hk by (apply (list_elem_of_fmap_2 fst) in Hin; done).
  rewrite <- Hperm in Hk. apply list_elem_of_fmap in Hk as (i & -> & Hi%elem_of_seq).
  exists i. split; [lia|]. apply dict_elem_get in Hin; [|done]. rewrite Hget in Hin by lia. congruence.
Qed.

Lemma mjoin_singles {A} (ls : list (list A)) j x :
  Forall (λ l, length l = 1%nat) ls → ls !! j = Some [x] → mjoin ls !! j = Some x.
Proof.
  intros HF. revert j. induction HF as [|l ls Hl _ IH]; intros j; [done|].
  destruct l as [|y [|]]; try done. destruct j as [|j]; cbn; [by intros [= ->]|apply IH].
Qed.

Lemma length_mjoin_singles {A} (ls : list (list A)) :
  Forall (λ l, length l = 1%nat) ls → length (mjoin ls) = length ls.
Proof.
  induction 1 as [|r ls Hr _ IH]; [done|]. change (mjoin (r :: ls)) with (r ++ mjoin ls).
  rewrite length_app, IH. cbn. lia.
Qed.

Lemma mapM_id_lookup {A} (l : list (option A)) n (f : nat → option A) :
  length l = n → (∀ i, (i < n)%nat → l !! i = Some (f i)) → (∀ i, (i < n)%nat → is_Some (f i)) →
  ∃ xs, mapM id l = Some xs ∧ length xs = n ∧ ∀ i x, (i < n)%nat → f i = Some x → xs !! i = Some x.
Proof.
  intros Hl Hli Hs. destruct (mapM id l) as [xs|] eqn:Em.
  - exists xs. split; [done|]. apply mapM_Some in Em. split; [by rewrite <- (Forall2_length _ _ _ Em)|].
    intros i x Hi Hx. destruct (Forall2_lookup_l _ _ _ _ _ Em (Hli i Hi)) as (x' & Hx' & E).
    cbn in E. congruence.
  - apply mapM_None, list.Exists_exists in Em as (x & Hx & Hn).
    apply list_elem_of_lookup in Hx as [i Hi]. cbn in Hn. subst x.
    assert (i < n)%nat as Hin by (rewrite <- Hl; by eapply lookup_lt_Some).
    rewrite (Hli i Hin) in Hi. destruct (Hs i Hin) as [? E]. congruence.
Qed.

Lemma slice1_lookup {A} (l : list A) i x : l !! i = Some x → slice1 l i = [x].
Proof. intros H. unfold slice1. by rewrite (drop_S l x i H). Qed.

Lemma assemble_count_spec {O A} (ps : list (Z * O)) (f : O → option (list A)) n (s : nat → O) : ∀ i0 acc,
  (∀ j, (j < n)%nat → dict_get (Z.of_nat (i0 + j)) ps = Some (s (i0 + j)%nat)) →
  (∀ j, (j < n)%nat → ∃ x, f (s (i0 + j)%nat) = Some [x]) →
  ∃ l, assemble_count ps f i0 n acc = Ret (acc ++ l) ∧ length l = n ∧
    ∀ j x, (j < n)%nat → f (s (i0 + j)%nat) = Some [x] → l !! j = Some x.
Proof.
  induction n as [|n IH]; intros i0 acc Hget Hf; cbn [assemble_count].
  { exists []. rewrite app_nil_r. split; [done|]. split; [done|]. intros; lia. }
  destruct (Hf 0%nat) as [x Hx]; [lia|]. rewrite Nat.add_0_r in Hx.
  unfold partial. pose proof (Hget 0%nat) as Hg. rewrite Nat.add_0_r in Hg. rewrite Hg, Hx by lia.
  cbn [single]. destruct (IH (S i0) (acc ++ [x])) as (l & -> & Hl & Hlk).
  { intros j Hj. rewrite !Nat.add_succ_comm. apply Hget. lia. }
  { intros j Hj. rewrite !Nat.add_succ_comm. apply Hf. lia. }
  exists (x :: l). rewrite <- app_assoc. split; [done|]. split; [cbn; lia|].
  intros [|j] y Hj Hy.
  - rewrite Nat.add_0_r, Hx in Hy. injection Hy as ->. done.
  - cbn. apply Hlk; [lia|]. by rewrite Nat.add_succ_comm.
Qed.

(** A missing count suppresses the whole list. *)
Lemma assemble_count_missing {O A} (ps : list (Z * O)) (f : O → option (list A)) n (s : nat → O) :
  (0 < n)%nat → (∀ j, (j < n)%nat → dict_get (Z.of_nat j) ps = Some (s j)) →
  f (s 0%nat) = None → assemble_count ps f 0 n [] = Ret [].
Proof.
  intros Hn Hget Hf. destruct n as [|n]; [lia|]. cbn [assemble_count]. unfold partial.
  rewrite (Hget 0%nat) by lia. by rewrite Hf.
Qed.

(** ** The encode handler keeps the interface *)

Fixpoint mk_extra (keys : list string) (f : string → option pyval) : list (string * pyval) :=
  match keys with
  | [] => []
  | key :: keys' =>
      match f key with
      | Some v => (key, VList [v]) :: mk_extra keys' f
      | None => mk_extra keys' f
      end
  end.

Record encode_single (s : EncodeOutput) : Prop := {
  es_size : enc_batch_size s = 1;
  es_dense : ∀ a, dense s = Some a → (∃ r, rows a = [r]) ∧ is_Some (dense_dim s);
  es_sparse : ∀ l, sparse s = Some l → ∃ x, l = [x];
  es_multivector : ∀ l, multivector s = Some l → (∃ x, l = [x]) ∧ is_Some (multivector_token_dim s);
  es_extra : ∃ f, extra s = mk_extra PER_ITEM_EXTRA_KEYS f;
}.

Record encode_alike (s t : EncodeOutput) : Prop := {
  ea_dense : shape1 <$> dense s = shape1 <$> dense t;
  ea_sparse : is_some (sparse s) = is_some (sparse t);
  ea_multivector : is_some (multivector s) = is_some (multivector t);
  ea_query : enc_is_query s = enc_is_query t;
  ea_dim : dense_dim s = dense_dim t;
  ea_token_dim : multivector_token_dim s = multivector_token_dim t;
  ea_extra : ∀ key, is_some (dict_get key (extra s)) = is_some (dict_get key (extra t));
}.

#[export] Instance encode_handler : OperationHandler EncodeOutput := {|
  slice_output := encode_slice;
  assemble_output := encode_assemble;
  single_item := encode_single;
  alike := encode_alike;
|}.

Lemma slice_extra_mk keys ex i :
  slice_extra keys ex i =
  mk_extra keys (λ key, match extra_list ex key with Some l => l !! i | None => None end).
Proof.
  induction keys as [|key keys IH]; [done|]. cbn. rewrite IH.
  destruct (extra_list ex key) as [l|]; [|done]. cbn. by destruct (l !! i).
Qed.

Lemma mk_extra_get keys f key :
  NoDup keys → dict_get key (mk_extra keys f) =
  if decide (key ∈ keys) then (λ v, VList [v]) <$> f key else None.
Proof.
  induction 1 as [|k keys Hk Hnd IH]; [done|]. cbn [mk_extra].
  destruct (f k) as [v|] eqn:Ef; cbn [dict_get]; rewrite ?IH.
  - destruct (decide (key = k)) as [->|];
      [destruct (decide (k ∈ k :: keys)) as [_|[]]; [by rewrite Ef|by left]|].
    destruct (decide (key ∈ keys)); [by rewrite decide_True by by right|].
    rewrite decide_False; [done|]. intros [?|?]%elem_of_cons; congruence.
  - destruct (decide (key ∈ keys)); [by rewrite decide_True by by right|].
    destruct (decide (key ∈ k :: keys)) as [[->|?]%elem_of_cons|]; [by rewrite Ef|done|done].
Qed.

Lemma mk_extra_ext keys f g : (∀ key, key ∈ keys → f key = g key) → mk_extra keys f = mk_extra keys g.
Proof.
  induction keys as [|k keys IH]; intros H; [done|]. cbn. rewrite (H k) by by left.
  rewrite IH; [done|]. intros; apply H; by right.
Qed.

Lemma per_item_keys_nodup : NoDup PER_ITEM_EXTRA_KEYS.
Proof. apply (bool_decide_unpack _). vm_compute. done. Qed.

(** A well-formed constructor call with single-item fields. *)
Lemma encode_init_single d sp mv q dd md ex :
  (∀ a, d = Some a → ∃ r, rows a = [r]) → (∀ l, sp = Some l → ∃ x, l = [x]) →
  (∀ l, mv = Some l → ∃ x, l = [x]) →
  (d ≠ None → is_Some dd) → (mv ≠ None → is_Some md) →
  EncodeOutput_init d sp mv 1 q dd md ex = Ret (mkEncode d sp mv 1 q dd md ex).
Proof.
  intros Hd Hsp Hmv Hdd Hmd. unfold EncodeOutput_init, check_size.
  destruct d as [a|].
  - destruct (Hd a eq_refl) as [r Hr]. destruct (Hdd ltac:(done)) as [x ->]. cbn. rewrite Hr. cbn.
    destruct sp as [l|]; [destruct (Hsp l eq_refl) as [y ->]|]; cbn;
      (destruct mv as [m|]; [destruct (Hmv m eq_refl) as [z ->]; destruct (Hmd ltac:(done)) as [w ->]|]); done.
  - cbn. destruct sp as [l|]; [destruct (Hsp l eq_refl) as [y ->]|]; cbn;
      (destruct mv as [m|]; [destruct (Hmv m eq_refl) as [z ->]; destruct (Hmd ltac:(done)) as [w ->]|]); done.
Qed.

Lemma encode_single_eta s : encode_single s →
  EncodeOutput_init (dense s) (sparse s) (multivector s) 1 (enc_is_query s) (dense_dim s)
    (multivector_token_dim s) (extra s) = Ret s.
Proof.
  intros [Hs Hd Hsp Hmv _]. rewrite encode_init_single.
  - destruct s; cbn in *. by rewrite Hs.
  - intros a Ha. by apply (Hd a).
  - done.
  - intros l Hl. by apply (Hmv l).
  - destruct (dense s) as [a|]; [|done]. intros _. by apply (Hd a).
  - destruct (multivector s) as [l|]; [|done]. intros _. by apply (Hmv l).
Qed.

(** [slice_output] of an output whose fields, at position [i], are those of [s]. *)
Lemma encode_slice_at o i s :
  encode_single s →
  (dense o = None ∧ dense s = None ∨ ∃ a b, dense o = Some a ∧ dense s = Some b ∧
     shape1 a = shape1 b ∧ slice1 (rows a) i = rows b) →
  pick (sparse o) i = Ret (sparse s) → pick (multivector o) i = Ret (multivector s) →
  enc_is_query o = enc_is_query s → dense_dim o = dense_dim s →
  multivector_token_dim o = multivector_token_dim s →
  slice_extra PER_ITEM_EXTRA_KEYS (extra o) i = extra s →
  encode_slice o i = Ret s.
Proof.
  intros Hs Hd Hsp Hmv Hq Hdd Hmd Hex. unfold encode_slice. rewrite Hsp, Hmv, Hq, Hdd, Hmd, Hex.
  etrans; [|apply (encode_single_eta s Hs)]. f_equal.
  destruct Hd as [[-> ->]|(a & b & -> & -> & Hsh & Hr)]; [done|]. cbn. rewrite Hsh, Hr. by destruct b.
Qed.

Lemma check_size_one {A} w v (l : option (list A)) b :
  check_size w v l 1 = Ret b → b = 1 ∧ ∀ x, l = Some x → ∃ y, x = [y].
Proof.
  unfold check_size. destruct l as [l|]; [|by intros [= <-]]. cbn.
  destruct (Z.eqb_spec (Z.of_nat (length l)) 1) as [H|]; [|done]. intros [= <-]. split; [done|].
  intros x [= <-]. destruct l as [|y [|]]; cbn in H; [lia|eauto|lia].
Qed.

Lemma encode_slice_is_single o i s : encode_slice o i = Ret s → encode_single s.
Proof.
  unfold encode_slice. pose proof (slice_extra_mk PER_ITEM_EXTRA_KEYS (extra o) i) as Hex. revert Hex.
  generalize (slice_extra PER_ITEM_EXTRA_KEYS (extra o) i). intros ex Hex.
  destruct (pick (sparse o) i) as [sp|]; [|done].
  destruct (pick (multivector o) i) as [mv|]; [|done]. unfold EncodeOutput_init.
  destruct (check_size _ _ _ 1) as [b1|] eqn:E1; [|done]. apply check_size_one in E1 as [-> Hd].
  destruct (check_size _ _ sp 1) as [b2|] eqn:E2; [|done]. apply check_size_one in E2 as [-> Hsp].
  destruct (check_size _ _ mv 1) as [b3|] eqn:E3; [|done]. apply check_size_one in E3 as [-> Hmv].
  intros [= <-]. constructor;
    cbn [enc_batch_size dense sparse multivector dense_dim multivector_token_dim extra].
  - done.
  - intros a Ha. rewrite Ha in *. cbn in Hd. split; [by apply Hd|]. destruct (dense_dim o); eauto.
  - done.
  - intros l ->. destruct (Hmv l eq_refl) as [y ->]. split; [eauto|].
    destruct (multivector_token_dim o); eauto.
  - eauto.
Qed.

Section assemble.
Context (ps : list (Z * EncodeOutput)) (n : nat) (s : nat → EncodeOutput).
Hypothesis Hget : ∀ i, (i < n)%nat → dict_get (Z.of_nat i) ps = Some (s i).
Hypothesis Hsingle : ∀ i, (i < n)%nat → encode_single (s i).
Hypothesis Halike : ∀ i j, (i < n)%nat → (j < n)%nat → encode_alike (s i) (s j).

Lemma partial_get i : (i < n)%nat → partial ps i = Ret (s i).
Proof. intros Hi. unfold partial. by rewrite Hget. Qed.

Lemma assemble_dense k : (k < n)%nat →
  ∃ d, (if is_some (dense (s k))
        then match collect (λ i, match partial ps i with Ret o => Ret (dense o) | Raise e => Raise e end) 0 n with
             | Raise e => Raise e
             | Ret l => concatenate l
             end
        else Ret None) = Ret d ∧
    (d = None ∧ (∀ i, (i < n)%nat → dense (s i) = None) ∨
     ∃ a, d = Some a ∧ length (rows a) = n ∧ ∀ i, (i < n)%nat → ∃ b, dense (s i) = Some b ∧
       shape1 a = shape1 b ∧ slice1 (rows a) i = rows b).
Proof.
  intros Hk. destruct (dense (s k)) as [ak|] eqn:Ek; cbn [is_some].
  2:{ exists None. split; [done|]. left. split; [done|]. intros i Hi.
    pose proof (ea_dense _ _ (Halike k i Hk Hi)) as H. rewrite Ek in H. by destruct (dense (s i)). }
  destruct (collect_ok (λ i, match partial ps i with Ret o => Ret (dense o) | Raise e => Raise e end) n 0)
    as (l & -> & Hl & Hlk).
  { intros j Hj. cbn. rewrite partial_get by done. eauto. }
  assert (∀ i, (i < n)%nat → l !! i = Some (dense (s i))) as Hli.
  { intros i Hi. apply Hlk; [done|]. cbn. by rewrite partial_get. }
  assert (∀ i, (i < n)%nat → ∃ b, dense (s i) = Some b ∧ shape1 b = shape1 ak ∧ length (rows b) = 1%nat) as Hb.
  { intros i Hi. pose proof (ea_dense _ _ (Halike i k Hi Hk)) as H. rewrite Ek in H.
    destruct (dense (s i)) as [b|] eqn:Eb; [|done]. injection H as H. exists b. split; [done|]. split; [done|].
    destruct (es_dense _ (Hsingle i Hi) b Eb) as [[r ->] _]. done. }
  destruct (mapM_id_lookup l n (λ i, dense (s i))) as (arrs & Hm & Hla & Har); [done|done| |].
  { intros i Hi. destruct (Hb i Hi) as (b & -> & _). eauto. }
  unfold concatenate. rewrite Hm.
  assert (Forall (λ a, shape1 a = shape1 ak ∧ length (rows a) = 1%nat) arrs) as HF.
  { apply Forall_lookup. intros i a Ha. assert (i < n)%nat as Hi by (rewrite <- Hla; by eapply lookup_lt_Some).
    destruct (Hb i Hi) as (b & Eb & Hs & Hr). rewrite (Har i b Hi Eb) in Ha. injection Ha as <-. done. }
  destruct arrs as [|a0 arrs']; [cbn in Hla; lia|].
  assert (shape1 a0 = shape1 ak) as H0 by by inversion HF as [|?? [? _]].
  assert (forallb (λ b, shape1 b =? shape1 a0) arrs' = true) as ->.
  { apply forallb_forall. intros b Hb'. apply list_elem_of_In in Hb'. apply Z.eqb_eq. rewrite H0.
    inversion HF as [|?? _ HF']; subst. rewrite Forall_forall in HF'. by apply HF'. }
  eexists. split; [done|]. right. eexists. split; [done|].
  assert (Forall (λ r, length r = 1%nat) (rows <$> a0 :: arrs')) as HFr.
  { apply Forall_fmap. eapply Forall_impl; [exact HF|]. by intros ? [_ ?]. }
  cbn [rows shape1]. split; [by rewrite length_mjoin_singles, length_fmap|].
  intros i Hi. destruct (Hb i Hi) as (b & Eb & Hs & Hr). exists b. split; [done|]. split; [congruence|].
  destruct (rows b) as [|r [|]] eqn:Er; try done. apply slice1_lookup, mjoin_singles; [done|].
  rewrite list_lookup_fmap, (Har i b Hi Eb). cbn. by rewrite Er.
Qed.

Lemma assemble_field {A} (f : EncodeOutput → option (list A)) k :
  (k < n)%nat →
  (∀ i l, (i < n)%nat → f (s i) = Some l → ∃ x, l = [x]) →
  (∀ i j, (i < n)%nat → (j < n)%nat → is_some (f (s i)) = is_some (f (s j))) →
  ∃ r, collect_field ps f (is_some (f (s k))) n = Ret r ∧
    (∀ l, r = Some l → length l = n) ∧ ∀ i, (i < n)%nat → pick r i = Ret (f (s i)).
Proof.
  intros Hk H1 Hal. unfold collect_field. destruct (f (s k)) as [lk|] eqn:Ek; cbn [is_some].
  2:{ exists None. split; [done|]. split; [done|]. intros i Hi. cbn. specialize (Hal i k Hi Hk).
    rewrite Ek in Hal. by destruct (f (s i)). }
  assert (∀ i, (i < n)%nat → ∃ x, f (s i) = Some [x]) as Hx.
  { intros i Hi. specialize (Hal i k Hi Hk). rewrite Ek in Hal. destruct (f (s i)) as [l|] eqn:E; [|done].
    destruct (H1 i l Hi E) as [x ->]. eauto. }
  assert (∀ i x, (i < n)%nat → f (s i) = Some [x] → first_of ps f i = Ret x) as Hfo.
  { intros i x Hi E. unfold first_of. rewrite partial_get by done. by rewrite E. }
  destruct (collect_ok (first_of ps f) n 0) as (l & -> & Hl & Hlk).
  { intros j Hj. destruct (Hx j Hj) as [x E]. exists x. by apply Hfo. }
  exists (Some l). split; [done|]. split; [by intros ? [= <-]|].
  intros i Hi. destruct (Hx i Hi) as [x E]. cbn. unfold at_.
  rewrite (Hlk i x Hi) by by apply Hfo. by rewrite E.
Qed.

Lemma single_extra i key : (i < n)%nat → key ∈ PER_ITEM_EXTRA_KEYS →
  (∃ v, extra_list (extra (s i)) key = Some [v]) ∨ dict_get key (extra (s i)) = None.
Proof.
  intros Hi Hkey. destruct (es_extra _ (Hsingle i Hi)) as [f Hf]. unfold extra_list. rewrite Hf.
  rewrite mk_extra_get by apply per_item_keys_nodup. rewrite decide_True by done.
  destruct (f key); cbn; eauto.
Qed.

Lemma assemble_extra_spec keys : (0 < n)%nat → NoDup keys → keys ⊆ PER_ITEM_EXTRA_KEYS →
  ∃ ex, assemble_extra keys ps n = Ret ex ∧ (∀ key, key ∉ keys → dict_get key ex = None) ∧
    ∀ key i, key ∈ keys → (i < n)%nat →
      match extra_list ex key with Some l => l !! i | None => None end = single (extra_list (extra (s i)) key).
Proof.
  intros Hn Hnd. induction Hnd as [|key keys Hkey Hnd IH]; intros Hsub; cbn [assemble_extra].
  { exists []. split; [done|]. split; [done|]. by intros key i ?%elem_of_nil. }
  assert (key ∈ PER_ITEM_EXTRA_KEYS) as Hin by (apply Hsub; by left).
  destruct IH as (ex & -> & Hnone & Hex); [intros ? ?; apply Hsub; by right|].
  assert (∀ k', k' ∈ keys → k' ≠ key) as Hne by (intros k' Hk' ->; done).
  assert (∀ i, (i < n)%nat → is_some (dict_get key (extra (s i))) = is_some (dict_get key (extra (s 0%nat)))) as Hal
    by (intros i Hi; apply Halike; lia).
  destruct (single_extra 0 key Hn Hin) as [[v0 E0]|E0].
  - destruct (assemble_count_spec ps (λ o, extra_list (extra o) key) n s 0 []) as (l & -> & Hl & Hlk); [done| |].
    { intros j Hj. destruct (single_extra j key Hj Hin) as [?|E]; [done|]. exfalso. specialize (Hal j Hj).
      rewrite E in Hal. unfold extra_list in E0. by destruct (dict_get key (extra (s 0%nat))). }
    cbn [app]. exists ((key, VList l) :: ex). split; [destruct l; [cbn in Hl; lia|done]|]. split.
    { intros k' Hk'. apply not_elem_of_cons in Hk' as [? ?]. cbn. rewrite decide_False by done. by apply Hnone. }
    intros k' i [->|Hk']%elem_of_cons Hi; unfold extra_list at 1; cbn [dict_get].
    + rewrite decide_True by done. destruct (single_extra i key Hi Hin) as [[v Ev]|Ev].
      * rewrite Ev. cbn. by apply Hlk.
      * exfalso. specialize (Hal i Hi). rewrite Ev in Hal. unfold extra_list in E0.
        by destruct (dict_get key (extra (s 0%nat))).
    + rewrite decide_False by by apply Hne. by apply Hex.
  - rewrite (assemble_count_missing ps _ n s) by (done || by (unfold extra_list; rewrite E0)).
    exists ex. split; [done|]. split; [intros k' Hk'; apply Hnone; set_solver|].
    intros k' i [->|Hk']%elem_of_cons Hi; [|by apply Hex].
    unfold extra_list at 1. rewrite Hnone by done. specialize (Hal i Hi). rewrite E0 in Hal.
    unfold extra_list. by destruct (dict_get key (extra (s i))).
Qed.

Lemma encode_assemble_all_ok k : (k < n)%nat → (1 < n)%nat →
  ∃ o, encode_assemble_all ps (s k) (Z.of_nat n) = Ret o ∧ ∀ i, (i < n)%nat → encode_slice o i = Ret (s i).
Proof.
  intros Hk Hn. unfold encode_assemble_all. rewrite Nat2Z.id.
  destruct (assemble_dense k Hk) as (d & -> & Hd).
  destruct (assemble_field sparse k Hk) as (sp & -> & Hspl & Hsp);
    [intros i l Hi; by apply es_sparse, Hsingle|intros; by apply ea_sparse, Halike|].
  destruct (assemble_field multivector k Hk) as (mv & -> & Hmvl & Hmv);
    [intros i l Hi Hl; by apply (es_multivector _ (Hsingle i Hi))|intros; by apply ea_multivector, Halike|].
  destruct (assemble_extra_spec PER_ITEM_EXTRA_KEYS) as (ex & -> & _ & Hex);
    [lia|apply per_item_keys_nodup|done|].
  assert (∃ dd md, EncodeOutput_init d sp mv (Z.of_nat n) (enc_is_query (s k)) (dense_dim (s k))
     (multivector_token_dim (s k)) ex = Ret (mkEncode d sp mv (Z.of_nat n) (enc_is_query (s k)) dd md ex) ∧
     dd = dense_dim (s k) ∧ md = multivector_token_dim (s k)) as (dd & md & -> & -> & ->).
  { unfold EncodeOutput_init.
    assert (∀ B w v (l : option (list B)), (∀ x, l = Some x → length x = n) → check_size w v l (Z.of_nat n) = Ret (Z.of_nat n)) as Hcs.
    { intros B w v [l|] Hl; [|done]. cbn. rewrite (Hl l eq_refl).
      rewrite (proj2 (Z.eqb_neq (Z.of_nat n) 0)) by lia. by rewrite Z.eqb_refl. }
    rewrite Hcs; [|intros x; destruct Hd as [[-> _]|(a & -> & Hla & _)]; [done|by intros [= <-]]].
    rewrite !Hcs by done. eexists _, _. split; [done|]. split.
    - destruct Hd as [[-> _]|(a & -> & _ & Hd)]; [done|]. destruct (Hd k Hk) as (b & Eb & _).
      destruct (es_dense _ (Hsingle k Hk) b Eb) as [_ [x ->]]. done.
    - specialize (Hmv k Hk). destruct mv as [[|m l]|]; [done| |done]. cbn in Hmv.
      destruct (multivector (s k)) as [lk|] eqn:Emk.
      + destruct (es_multivector _ (Hsingle k Hk) lk Emk) as [_ [x ->]]. done.
      + unfold pick in Hmv. by destruct (at_ _ k). }
  eexists. split; [done|]. intros i Hi.
  pose proof (Halike k i Hk Hi) as [_ _ _ Hq Hdd Hmd _].
  apply encode_slice_at; cbn [dense sparse multivector enc_is_query dense_dim multivector_token_dim extra];
    [by apply Hsingle| |by apply Hsp|by apply Hmv|done|done|done|].
  - destruct Hd as [[-> Hd]|(a & -> & _ & Hd)]; [left; auto|right].
    destruct (Hd i Hi) as (b & Eb & Hs & Hr). eauto 8.
  - destruct (es_extra _ (Hsingle i Hi)) as [f Hf]. rewrite Hf, slice_extra_mk. apply mk_extra_ext.
    intros key Hkey. rewrite (Hex key i Hkey Hi), Hf. unfold extra_list.
    rewrite mk_extra_get by apply per_item_keys_nodup. rewrite decide_True by done. by destruct (f key).
Qed.
End assemble.

Lemma encode_slice_zero t : encode_single t → encode_slice t 0 = Ret t.
Proof.
  intros Hs. destruct (Hs) as [Hb Hd Hsp Hmv [f Hf]]. apply encode_slice_at; try done.
  - destruct (dense t) as [a|]; [right|by left]. exists a, a. split; [done|]. split; [done|].
    split; [done|]. destruct (Hd a eq_refl) as [[r ->] _]. done.
  - destruct (sparse t) as [l|]; [|done]. destruct (Hsp l eq_refl) as [x ->]. done.
  - destruct (multivector t) as [l|]; [|done]. destruct (Hmv l eq_refl) as [[x ->] _]. done.
  - rewrite Hf, slice_extra_mk. apply mk_extra_ext. intros key Hkey.
    unfold extra_list. rewrite mk_extra_get by apply per_item_keys_nodup.
    rewrite decide_True by done. by destruct (f key).
Qed.

#[export] Instance encode_laws : HandlerLaws EncodeOutput.
Proof.
  split; [|intros o i s; apply encode_slice_is_single].
  intros ps n s Hn Hlen Hget Hsi Hal. cbn [assemble_output slice_output encode_handler].
  destruct ps as [|[k0 first] rest] eqn:Eps; [cbn in Hlen; lia|]. cbn [encode_assemble].
  destruct (decide (n = 1%nat)) as [->|Hn1].
  { exists (s 0%nat). cbn [Z.of_nat Pos.of_succ_nat Z.eqb Pos.eqb].
    unfold partial. rewrite (Hget 0%nat) by lia. split; [done|]. intros i Hi.
    assert (i = 0)%nat as -> by lia. by apply encode_slice_zero, Hsi. }
  rewrite (proj2 (Z.eqb_neq (Z.of_nat n) 1)) by lia.
  destruct (partials_complete ((k0, first) :: rest) n s k0 first Hlen Hget ltac:(by left)) as (k & Hk & ->).
  destruct rest as [|e rest]; [cbn in Hlen; lia|].
  apply encode_assemble_all_ok; try done. lia.
Qed.
End encode.

(** ** Score *)

Section score.
Context {Sc : Type}.

Record ScoreOutput := mkScore {
  scores : list Sc;
  sc_batch_size : Z;
  sc_token_counts : option (list Z);
  sc_image_counts : option (list Z);
}.

(** One of the two count fields of [ScoreOutput.__post_init__]. *)
Definition check_counts (what : string) (l : option (list Z)) (bs : Z) : res exn unit :=
  match l with
  | None => Ret tt
  | Some l =>
      if negb (Z.of_nat (length l) =? bs) then Raise (size_error (what +:+ " length ") "batch_size " (Z.of_nat (length l)) bs)
      else if forallb (λ c, 0 <=? c) l then Ret tt
      else Raise (OtherError (what +:+ " must contain only non-negative integers"))
  end.

(** [ScoreOutput(...)] with [__post_init__] *)
Definition ScoreOutput_init (l : list Sc) (bs : Z) (tc ic : option (list Z)) : res exn ScoreOutput :=
  let n := Z.of_nat (length l) in
  if negb (bs =? 0) && negb (n =? bs) then Raise (size_error "scores batch size " "" n bs)
  else
    let bs' := if bs =? 0 then n else bs in
    match check_counts "input_token_counts" tc bs' with
    | Raise e => Raise e
    | Ret _ =>
        match check_counts "input_image_counts" ic bs' with
        | Raise e => Raise e
        | Ret _ => Ret (mkScore l bs' tc ic)
        end
    end.

(** [ScoreHandler.slice_output] *)
Definition score_slice (o : ScoreOutput) (index : nat) : res exn ScoreOutput :=
  ScoreOutput_init (slice1 (scores o) index) 1
    (pick_count (sc_token_counts o) index) (pick_count (sc_image_counts o) index).

(** The counting loop of [assemble_output]: a partial without its count restarts the
    list, so its length tells whether every partial had one. *)
Fixpoint score_counts (ps : list (Z * ScoreOutput)) (i n : nat) (tc ic : list Z)
    : res exn (list Z * list Z) :=
  match n with
  | O => Ret (tc, ic)
  | S n' =>
      match partial ps i with
      | Raise e => Raise e
      | Ret o =>
          score_counts ps (S i) n'
            (match single (sc_token_counts o) with None => [] | Some c => tc ++ [c] end)
            (match single (sc_image_counts o) with None => [] | Some c => ic ++ [c] end)
      end
  end.

Definition if_complete (l : list Z) (bs : Z) : option (list Z) :=
  if Z.of_nat (length l) =? bs then Some l else None.

(** [ScoreHandler.assemble_output] *)
Definition score_assemble (ps : list (Z * ScoreOutput)) (batch_size : Z) : res exn ScoreOutput :=
  match ps with
  | [] => ScoreOutput_init [] 0 None None
  | _ =>
      let n := Z.to_nat batch_size in
      match collect (λ i, match partial ps i with Ret o => Ret (scores o) | Raise e => Raise e end) 0 n with
      | Raise e => Raise e
      | Ret [] => Raise (OtherError "need at least one array to concatenate")
      | Ret ls =>
          match score_counts ps 0 n [] [] with
          | Raise e => Raise e
          | Ret (tc, ic) =>
              ScoreOutput_init (mjoin ls) batch_size (if_complete tc batch_size) (if_complete ic batch_size)
          end
      end
  end.

Definition count_ok (c : option (list Z)) : Prop := ∀ l, c = Some l → ∃ x, l = [x] ∧ 0 <= x.

Record score_single (s : ScoreOutput) : Prop := {
  ss_size : sc_batch_size s = 1;
  ss_scores : ∃ x, scores s = [x];
  ss_tokens : count_ok (sc_token_counts s);
  ss_images : count_ok (sc_image_counts s);
}.

Record score_alike (s t : ScoreOutput) : Prop := {
  sa_tokens : is_some (sc_token_counts s) = is_some (sc_token_counts t);
  sa_images : is_some (sc_image_counts s) = is_some (sc_image_counts t);
}.

#[export] Instance score_handler : OperationHandler ScoreOutput := {|
  slice_output := score_slice;
  assemble_output := score_assemble;
  single_item := score_single;
  alike := score_alike;
|}.

Lemma check_counts_one w c u : check_counts w c 1 = Ret u → count_ok c.
Proof.
  unfold check_counts, count_ok. destruct c as [l|]; [|done].
  destruct (Z.eqb_spec (Z.of_nat (length l)) 1) as [Hl|]; [|done]. cbn [negb].
  destruct (forallb _ l) eqn:Hf; [|done]. intros _ ? [= <-].
  destruct l as [|x [|]]; cbn in Hl; [lia| |lia]. exists x. split; [done|].
  cbn in Hf. apply andb_prop in Hf as [Hf _]. lia.
Qed.

Lemma score_slice_is_single o i s : score_slice o i = Ret s → score_single s.
Proof.
  unfold score_slice, ScoreOutput_init. cbn [Z.eqb negb andb].
  destruct (Z.eqb_spec (Z.of_nat (length (slice1 (scores o) i))) 1) as [Hl|]; [|done]. cbn [negb].
  destruct (check_counts _ (pick_count (sc_token_counts o) i) 1) as [u|] eqn:E1; [|done].
  destruct (check_counts _ (pick_count (sc_image_counts o) i) 1) as [u'|] eqn:E2; [|done].
  intros [= <-]. constructor; cbn; [done| |by eapply check_counts_one..].
  destruct (slice1 (scores o) i) as [|x [|]]; cbn in Hl; [lia|eauto|lia].
Qed.

(** A count list of the assembled output, whose entries are those of the partials. *)
Definition counts_of (n : nat) (f : nat → option (list Z)) (r : option (list Z)) : Prop :=
  (r = None ∧ ∀ i, (i < n)%nat → f i = None) ∨
  (∃ l, r = Some l ∧ length l = n ∧ Forall (λ c, 0 <= c) l ∧
     ∀ i, (i < n)%nat → ∃ x, f i = Some [x] ∧ l !! i = Some x).

Lemma counts_of_check n f r w bs :
  counts_of n f r → bs = Z.of_nat n → check_counts w r bs = Ret tt.
Proof.
  intros [[-> _]|(l & -> & Hl & HF & _)] ->; [done|]. cbn. rewrite Hl, Z.eqb_refl. cbn [negb].
  rewrite (proj2 (forallb_forall _ l)); [done|]. intros c Hc. rewrite Forall_forall in HF.
  apply Z.leb_le, HF. by apply list_elem_of_In.
Qed.

Lemma counts_of_pick n f r i : counts_of n f r → (i < n)%nat → pick_count r i = f i.
Proof.
  intros [[-> H]|(l & -> & _ & _ & H)] Hi; [by rewrite (H i Hi)|].
  destruct (H i Hi) as (x & -> & Hx). cbn. by rewrite Hx.
Qed.

Lemma score_counts_spec ps (s : nat → ScoreOutput) n : ∀ i0 tc ic,
  (∀ j, (j < n)%nat → dict_get (Z.of_nat (i0 + j)) ps = Some (s (i0 + j)%nat)) →
  score_counts ps i0 n tc ic =
    Ret (foldl (λ acc i, match single (sc_token_counts (s i)) with None => [] | Some c => acc ++ [c] end)
           tc (seq i0 n),
         foldl (λ acc i, match single (sc_image_counts (s i)) with None => [] | Some c => acc ++ [c] end)
           ic (seq i0 n)).
Proof.
  induction n as [|n IH]; intros i0 tc ic Hget; [done|]. cbn [score_counts seq foldl]. unfold partial.
  pose proof (Hget 0%nat) as H0. rewrite Nat.add_0_r in H0. rewrite H0 by lia.
  apply IH. intros j Hj. rewrite !Nat.add_succ_comm. apply Hget. lia.
Qed.

(** The restarting loop computes all the counts or, after the length test, none. *)
Lemma counting_loop (f : nat → option (list Z)) n :
  (0 < n)%nat → (∀ i, (i < n)%nat → count_ok (f i)) →
  (∀ i j, (i < n)%nat → (j < n)%nat → is_some (f i) = is_some (f j)) →
  counts_of n f (if_complete
    (foldl (λ acc i, match single (f i) with None => [] | Some c => acc ++ [c] end) [] (seq 0 n)) (Z.of_nat n)).
Proof.
  intros Hn Hok Hal. destruct (f 0%nat) as [l0|] eqn:E0.
  - assert (∀ m, (m <= n)%nat → ∃ l,
      foldl (λ acc i, match single (f i) with None => [] | Some c => acc ++ [c] end) [] (seq 0 m) = l ∧
      length l = m ∧ Forall (λ c, 0 <= c) l ∧ ∀ i, (i < m)%nat → ∃ x, f i = Some [x] ∧ l !! i = Some x) as H.
    { induction m as [|m IH]; intros Hm; [exists []; repeat split; [constructor|intros; lia]|].
      destruct IH as (l & El & Hl & HF & Hlk); [lia|]. rewrite seq_S, foldl_app, El. cbn.
      assert (is_some (f m) = true) as Hs by (rewrite (Hal m 0%nat) by lia; by rewrite E0).
      destruct (f m) as [lm|] eqn:Em; [|done]. destruct (Hok m ltac:(lia) lm Em) as (x & -> & Hx).
      exists (l ++ [x]). split; [done|]. split; [rewrite length_app; cbn; lia|].
      split; [apply Forall_app; split; [done|by repeat constructor]|].
      intros i Hi. destruct (decide (i = m)) as [->|].
      - exists x. split; [done|]. rewrite lookup_app_r by lia. by rewrite Hl, Nat.sub_diag.
      - destruct (Hlk i) as (y & Ey & Hy); [lia|]. exists y. split; [done|]. by apply lookup_app_l_Some. }
    destruct (H n) as (l & -> & Hl & HF & Hlk); [lia|]. right. exists l. split; [|done].
    unfold if_complete. by rewrite Hl, Z.eqb_refl.
  - assert (∀ i, (i < n)%nat → f i = None) as HN.
    { intros i Hi. specialize (Hal i 0%nat Hi Hn). rewrite E0 in Hal. by destruct (f i). }
    left. split; [|done].
    assert (foldl (λ acc i, match single (f i) with None => [] | Some c => acc ++ [c] end) [] (seq 0 n) = []) as ->.
    { clear Hn. assert (∀ m, (m <= n)%nat → foldl (λ acc i, match single (f i) with None => [] | Some c => acc ++ [c] end)
        [] (seq 0 m) = []) as H; [|by apply H].
      induction m as [|m IH]; intros Hm; [done|]. rewrite seq_S, foldl_app, IH by lia. cbn. by rewrite HN by lia. }
    unfold if_complete. cbn [length]. rewrite (proj2 (Z.eqb_neq (Z.of_nat 0) (Z.of_nat n))) by lia. done.
Qed.

#[export] Instance score_laws : HandlerLaws ScoreOutput.
Proof.
  split; [|intros o i s; apply score_slice_is_single].
  intros ps n s Hn Hlen Hget Hsi Hal. cbn [assemble_output slice_output score_handler].
  unfold score_assemble. destruct ps as [|e ps'] eqn:Eps; [cbn in Hlen; lia|]. rewrite <- Eps in *.
  rewrite Nat2Z.id.
  destruct (collect_ok (λ i, match partial ps i with Ret o => Ret (scores o) | Raise e => Raise e end) n 0)
    as (ls & -> & Hls & Hlk).
  { intros j Hj. cbn. unfold partial. rewrite Hget by done. eauto. }
  assert (∀ i, (i < n)%nat → ls !! i = Some (scores (s i))) as Hsc.
  { intros i Hi. apply Hlk; [done|]. cbn. unfold partial. by rewrite Hget. }
  assert (Forall (λ l, length l = 1%nat) ls) as HF.
  { apply Forall_lookup. intros i l Hl. assert (i < n)%nat as Hi by (rewrite <- Hls; by eapply lookup_lt_Some).
    rewrite (Hsc i Hi) in Hl. injection Hl as <-. by destruct (ss_scores _ (Hsi i Hi)) as [x ->]. }
  rewrite (score_counts_spec ps s n 0) by done.
  pose proof (counting_loop (λ i, sc_token_counts (s i)) n Hn (λ i Hi, ss_tokens _ (Hsi i Hi))
    (λ i j Hi Hj, sa_tokens _ _ (Hal i j Hi Hj))) as Ht.
  pose proof (counting_loop (λ i, sc_image_counts (s i)) n Hn (λ i Hi, ss_images _ (Hsi i Hi))
    (λ i j Hi Hj, sa_images _ _ (Hal i j Hi Hj))) as Hi'.
  cbv beta in Ht, Hi'. destruct ls as [|l0 ls'] eqn:Els; [cbn in Hls; lia|]. rewrite <- Els in *.
  unfold ScoreOutput_init. rewrite length_mjoin_singles, Hls, Z.eqb_refl, andb_false_r by done.
  rewrite (proj2 (Z.eqb_neq (Z.of_nat n) 0)) by lia.
  rewrite (counts_of_check _ _ _ _ _ Ht eq_refl), (counts_of_check _ _ _ _ _ Hi' eq_refl).
  eexists. split; [done|]. intros i Hi. unfold score_slice. cbn [scores sc_token_counts sc_image_counts].
  rewrite (counts_of_pick _ _ _ _ Ht Hi), (counts_of_pick _ _ _ _ Hi' Hi).
  destruct (Hsi i Hi) as [Hb [x Hx] Htok Himg].
  rewrite (slice1_lookup _ _ x) by (apply mjoin_singles; [done|]; rewrite Hsc by done; by rewrite Hx).
  assert (∀ w c, count_ok c → check_counts w c 1 = Ret tt) as Hc.
  { intros w [l|] Hl; [|done]. destruct (Hl l eq_refl) as (y & -> & Hy). cbn. by rewrite (proj2 (Z.leb_le 0 y)). }
  unfold ScoreOutput_init. cbn. rewrite !Hc by done. destruct (s i); cbn in *. by rewrite Hb, Hx.
Qed.
End score.

(** ** Extract *)

Section extract.
Context {En Cl Rel Obj Er : Type}.
Abbreviation payload := (list (string * pyval)).   (* dict[str, Any] *)

Record ExtractOutput := mkExtract {
  entities : list (list En);
  classifications : option (list (list Cl));
  relations : option (list (list Rel));
  objects : option (list (list Obj));
  data : option (list payload);
  errors : option (list (option Er));
  ex_batch_size : Z;
  ex_token_counts : option (list Z);
  pages : option (list Z);
}.

(** [field is not None and len(field) != self.batch_size] *)
Definition check_len {A} (what : string) (l : option (list A)) (bs : Z) : res exn unit :=
  match l with
  | Some l => if Z.of_nat (length l) =? bs then Ret tt else Raise (size_error what "batch_size " (Z.of_nat (length l)) bs)
  | None => Ret tt
  end.

(** [ExtractOutput(...)] with [__post_init__] *)
Definition ExtractOutput_init (en : list (list En)) (cl : option (list (list Cl)))
    (rel : option (list (list Rel))) (obj : option (list (list Obj))) (dat : option (list payload))
    (err : option (list (option Er))) (bs : Z) (tc pg : option (list Z)) : res exn ExtractOutput :=
  let n := Z.of_nat (length en) in
  if negb (bs =? 0) && negb (n =? bs) then Raise (size_error "entities list length " "batch_size " n bs)
  else
    let bs' := if bs =? 0 then n else bs in
    let checks := [check_len "classifications list length " cl bs'; check_len "relations list length " rel bs';
                   check_len "objects list length " obj bs'; check_len "data list length " dat bs';
                   check_len "errors list length " err bs'; check_len "pages list length " pg bs';
                   check_len "input_token_counts length " tc bs'] in
    match foldr (λ c acc, match c with Raise e => Raise e | Ret _ => acc end) (Ret tt) checks with
    | Raise e => Raise e
    | Ret _ => Ret (mkExtract en cl rel obj dat err bs' tc pg)
    end.

(** [ExtractHandler.slice_output] *)
Definition extract_slice (o : ExtractOutput) (index : nat) : res exn ExtractOutput :=
  match pick (classifications o) index with Raise e => Raise e | Ret cl =>
  match pick (relations o) index with Raise e => Raise e | Ret rel =>
  match pick (objects o) index with Raise e => Raise e | Ret obj =>
  match pick (data o) index with Raise e => Raise e | Ret dat =>
  match pick (errors o) index with Raise e => Raise e | Ret err =>
  match at_ (entities o) index with Raise e => Raise e | Ret en =>
    ExtractOutput_init [en] cl rel obj dat err 1
      (pick_count (ex_token_counts o) index) (pick_count (pages o) index)
  end end end end end end.

(** An optional field, present when any partial has it, missing entries filled in. *)
Definition fill_field {A} (ps : list (Z * ExtractOutput)) (f : ExtractOutput → option (list A))
    (dflt : A) (n : nat) : res exn (option (list A)) :=
  if existsb (λ p, is_some (f p.2)) ps then
    match collect (λ i, match partial ps i with
                        | Raise e => Raise e
                        | Ret o => match f o with Some l => at_ l 0 | None => Ret dflt end
                        end) 0 n with
    | Raise e => Raise e
    | Ret l => Ret (Some l)
    end
  else Ret None.

(** [assembled or None] *)
Definition or_none {A} (l : list A) : option (list A) := match l with [] => None | _ => Some l end.

(** [ExtractHandler.assemble_output] *)
Definition extract_assemble (ps : list (Z * ExtractOutput)) (batch_size : Z) : res exn ExtractOutput :=
  match ps with
  | [] => ExtractOutput_init [] None None None None None 0 None None
  | _ =>
      let n := Z.to_nat batch_size in
      match collect (λ i, match partial ps i with Ret o => at_ (entities o) 0 | Raise e => Raise e end) 0 n with
      | Raise e => Raise e
      | Ret en =>
      match fill_field ps classifications [] n with Raise e => Raise e | Ret cl =>
      match fill_field ps relations [] n with Raise e => Raise e | Ret rel =>
      match fill_field ps objects [] n with Raise e => Raise e | Ret obj =>
      match fill_field ps data [] n with Raise e => Raise e | Ret dat =>
      match fill_field ps errors None n with Raise e => Raise e | Ret err =>
      match assemble_count ps ex_token_counts 0 n [] with Raise e => Raise e | Ret tc =>
      match assemble_count ps pages 0 n [] with Raise e => Raise e | Ret pg =>
        ExtractOutput_init en cl rel obj dat err batch_size (or_none tc) (or_none pg)
      end end end end end end end
      end
  end.

Definition one {A} (l : option (list A)) : Prop := ∀ x, l = Some x → ∃ y, x = [y].

Record extract_single (s : ExtractOutput) : Prop := {
  xs_size : ex_batch_size s = 1;
  xs_entities : ∃ x, entities s = [x];
  xs_classifications : one (classifications s);
  xs_relations : one (relations s);
  xs_objects : one (objects s);
  xs_data : one (data s);
  xs_errors : one (errors s);
  xs_tokens : one (ex_token_counts s);
  xs_pages : one (pages s);
}.

Record extract_alike (s t : ExtractOutput) : Prop := {
  xa_classifications : is_some (classifications s) = is_some (classifications t);
  xa_relations : is_some (relations s) = is_some (relations t);
  xa_objects : is_some (objects s) = is_some (objects t);
  xa_data : is_some (data s) = is_some (data t);
  xa_errors : is_some (errors s) = is_some (errors t);
  xa_tokens : is_some (ex_token_counts s) = is_some (ex_token_counts t);
  xa_pages : is_some (pages s) = is_some (pages t);
}.

#[export] Instance extract_handler : OperationHandler ExtractOutput := {|
  slice_output := extract_slice;
  assemble_output := extract_assemble;
  single_item := extract_single;
  alike := extract_alike;
|}.

Lemma check_len_one {A} w (l : option (list A)) u : check_len w l 1 = Ret u → one l.
Proof.
  unfold check_len, one. destruct l as [l|]; [|done].
  destruct (Z.eqb_spec (Z.of_nat (length l)) 1) as [H|]; [|done]. intros _ x [= <-].
  destruct l as [|y [|]]; cbn in H; [lia|eauto|lia].
Qed.

Lemma check_len_ok {A} w (l : option (list A)) bs :
  (∀ x, l = Some x → Z.of_nat (length x) = bs) → check_len w l bs = Ret tt.
Proof. intros H. destruct l as [l|]; [|done]. cbn. by rewrite (H l eq_refl), Z.eqb_refl. Qed.

Lemma extract_init_ok en cl rel obj dat err bs tc pg :
  0 < bs → Z.of_nat (length en) = bs →
  (∀ x, cl = Some x → Z.of_nat (length x) = bs) → (∀ x, rel = Some x → Z.of_nat (length x) = bs) →
  (∀ x, obj = Some x → Z.of_nat (length x) = bs) → (∀ x, dat = Some x → Z.of_nat (length x) = bs) →
  (∀ x, err = Some x → Z.of_nat (length x) = bs) → (∀ x, tc = Some x → Z.of_nat (length x) = bs) →
  (∀ x, pg = Some x → Z.of_nat (length x) = bs) →
  ExtractOutput_init en cl rel obj dat err bs tc pg = Ret (mkExtract en cl rel obj dat err bs tc pg).
Proof.
  intros Hbs Hen ? ? ? ? ? ? ?. unfold ExtractOutput_init. rewrite Hen, Z.eqb_refl, andb_false_r.
  rewrite (proj2 (Z.eqb_neq bs 0)) by lia. cbv zeta. by rewrite !check_len_ok.
Qed.

Lemma extract_slice_is_single o i s : extract_slice o i = Ret s → extract_single s.
Proof.
  unfold extract_slice.
  destruct (pick (classifications o) i) as [cl|]; [|done]. destruct (pick (relations o) i) as [rel|]; [|done].
  destruct (pick (objects o) i) as [obj|]; [|done]. destruct (pick (data o) i) as [dat|]; [|done].
  destruct (pick (errors o) i) as [err|]; [|done]. destruct (at_ (entities o) i) as [en|]; [|done].
  unfold ExtractOutput_init. cbn [length Z.of_nat Pos.of_succ_nat Z.eqb Pos.eqb negb andb foldr].
  destruct (check_len _ cl 1) as [u1|] eqn:E1; [|done]. destruct (check_len _ rel 1) as [u2|] eqn:E2; [|done].
  destruct (check_len _ obj 1) as [u3|] eqn:E3; [|done]. destruct (check_len _ dat 1) as [u4|] eqn:E4; [|done].
  destruct (check_len _ err 1) as [u5|] eqn:E5; [|done].
  destruct (check_len _ (pick_count (pages o) i) 1) as [u6|] eqn:E6; [|done].
  destruct (check_len _ (pick_count (ex_token_counts o) i) 1) as [u7|] eqn:E7; [|done].
  intros [= <-]. constructor; cbn; [done|eauto|by eapply check_len_one..].
Qed.

Section assemble_extract.
Context (ps : list (Z * ExtractOutput)) (n : nat) (s : nat → ExtractOutput).
Hypothesis Hn : (0 < n)%nat.
Hypothesis Hlen : length ps = n.
Hypothesis Hget : ∀ i, (i < n)%nat → dict_get (Z.of_nat i) ps = Some (s i).

(** Every entry of the result is the one of the partial. *)
Definition field_of {A} (f : ExtractOutput → option (list A)) (r : option (list A)) : Prop :=
  (∀ l, r = Some l → Z.of_nat (length l) = Z.of_nat n) ∧ ∀ i, (i < n)%nat → pick r i = Ret (f (s i)).

Lemma partial_some {A} (f : ExtractOutput → option (list A)) :
  (∀ i j, (i < n)%nat → (j < n)%nat → is_some (f (s i)) = is_some (f (s j))) →
  existsb (λ p, is_some (f p.2)) ps = is_some (f (s 0%nat)).
Proof.
  intros Hal. destruct (f (s 0%nat)) as [l|] eqn:E0; cbn [is_some].
  - apply existsb_exists. exists (0, s 0%nat). cbn. rewrite E0. split; [|done].
    apply list_elem_of_In, dict_get_Some_elem, (Hget 0%nat Hn).
  - apply not_true_is_false. intros ([k o] & Hin & Hs)%existsb_exists. apply list_elem_of_In in Hin.
    destruct (partials_complete ps n s k o Hlen Hget Hin) as (i & Hi & ->). cbn in Hs.
    rewrite (Hal i 0%nat Hi Hn), E0 in Hs. done.
Qed.

Lemma fill_field_ok {A} (f : ExtractOutput → option (list A)) dflt :
  (∀ i, (i < n)%nat → one (f (s i))) →
  (∀ i j, (i < n)%nat → (j < n)%nat → is_some (f (s i)) = is_some (f (s j))) →
  ∃ r, fill_field ps f dflt n = Ret r ∧ field_of f r.
Proof.
  intros H1 Hal. unfold fill_field. rewrite partial_some by done.
  destruct (f (s 0%nat)) as [l0|] eqn:E0; cbn [is_some].
  - assert (∀ i, (i < n)%nat → ∃ x, f (s i) = Some [x]) as Hx.
    { intros i Hi. specialize (Hal i 0%nat Hi Hn). rewrite E0 in Hal. destruct (f (s i)) as [l|] eqn:E; [|done].
      destruct (H1 i Hi l E) as [x ->]. eauto. }
    set (g := λ i, match partial ps i with Raise e => Raise e
      | Ret o => match f o with Some l => at_ l 0 | None => Ret dflt end end).
    assert (∀ i x, (i < n)%nat → f (s i) = Some [x] → g i = Ret x) as Hg.
    { intros i x Hi E. unfold g, partial. rewrite Hget by done. by rewrite E. }
    destruct (collect_ok g n 0) as (l & -> & Hl & Hlk).
    { intros j Hj. destruct (Hx j Hj) as [x E]. exists x. by apply Hg. }
    exists (Some l). split; [done|]. split; [intros ? [= <-]; lia|].
    intros i Hi. destruct (Hx i Hi) as [x E]. cbn. unfold at_. rewrite (Hlk i x Hi) by by apply Hg. by rewrite E.
  - exists None. split; [done|]. split; [done|]. intros i Hi. cbn. specialize (Hal i 0%nat Hi Hn).
    rewrite E0 in Hal. by destruct (f (s i)).
Qed.

Lemma count_field_ok (f : ExtractOutput → option (list Z)) :
  (∀ i, (i < n)%nat → one (f (s i))) →
  (∀ i j, (i < n)%nat → (j < n)%nat → is_some (f (s i)) = is_some (f (s j))) →
  ∃ l, assemble_count ps f 0 n [] = Ret l ∧ (∀ x, or_none l = Some x → Z.of_nat (length x) = Z.of_nat n) ∧
    ∀ i, (i < n)%nat → pick_count (or_none l) i = f (s i).
Proof.
  intros H1 Hal. destruct (f (s 0%nat)) as [l0|] eqn:E0.
  - assert (∀ i, (i < n)%nat → ∃ x, f (s i) = Some [x]) as Hx.
    { intros i Hi. specialize (Hal i 0%nat Hi Hn). rewrite E0 in Hal. destruct (f (s i)) as [l|] eqn:E; [|done].
      destruct (H1 i Hi l E) as [x ->]. eauto. }
    destruct (assemble_count_spec ps f n s 0 []) as (l & -> & Hl & Hlk); [done|done|].
    exists l. split; [done|]. destruct l as [|c l'] eqn:El; [cbn in Hl; lia|]. rewrite <- El in *.
    assert (or_none l = Some l) as -> by (by rewrite El). split; [intros x [= <-]; lia|].
    intros i Hi. destruct (Hx i Hi) as [x E]. cbn. rewrite (Hlk i x Hi E). by rewrite E.
  - rewrite (assemble_count_missing ps f n s) by done. exists []. split; [done|]. split; [done|].
    intros i Hi. cbn. specialize (Hal i 0%nat Hi Hn). rewrite E0 in Hal. by destruct (f (s i)).
Qed.
End assemble_extract.

#[export] Instance extract_laws : HandlerLaws ExtractOutput.
Proof.
  split; [|intros o i s; apply extract_slice_is_single].
  intros ps n s Hn Hlen Hget Hsi Hal. cbn [assemble_output slice_output extract_handler].
  unfold extract_assemble. destruct ps as [|e ps'] eqn:Eps; [cbn in Hlen; lia|]. rewrite <- Eps in *.
  rewrite Nat2Z.id.
  destruct (collect_ok (λ i, match partial ps i with Ret o => at_ (entities o) 0 | Raise e => Raise e end) n 0)
    as (en & -> & Hen & Henl).
  { intros j Hj. cbn. unfold partial. rewrite Hget by done. destruct (xs_entities _ (Hsi j Hj)) as [x ->]. cbn. eauto. }
  destruct (fill_field_ok ps n s Hn Hlen Hget classifications []) as (cl & -> & Hcl1 & Hcl);
    [intros; by apply xs_classifications, Hsi|intros; by apply xa_classifications, Hal|].
  destruct (fill_field_ok ps n s Hn Hlen Hget relations []) as (rel & -> & Hrel1 & Hrel);
    [intros; by apply xs_relations, Hsi|intros; by apply xa_relations, Hal|].
  destruct (fill_field_ok ps n s Hn Hlen Hget objects []) as (obj & -> & Hobj1 & Hobj);
    [intros; by apply xs_objects, Hsi|intros; by apply xa_objects, Hal|].
  destruct (fill_field_ok ps n s Hn Hlen Hget data []) as (dat & -> & Hdat1 & Hdat);
    [intros; by apply xs_data, Hsi|intros; by apply xa_data, Hal|].
  destruct (fill_field_ok ps n s Hn Hlen Hget errors None) as (err & -> & Herr1 & Herr);
    [intros; by apply xs_errors, Hsi|intros; by apply xa_errors, Hal|].
  destruct (count_field_ok ps n s Hn Hlen Hget ex_token_counts) as (tc & -> & Htc1 & Htc);
    [intros; by apply xs_tokens, Hsi|intros; by apply xa_tokens, Hal|].
  destruct (count_field_ok ps n s Hn Hlen Hget pages) as (pg & -> & Hpg1 & Hpg);
    [intros; by apply xs_pages, Hsi|intros; by apply xa_pages, Hal|].
  rewrite extract_init_ok; [|lia|by rewrite Hen|assumption..].
  eexists. split; [done|]. intros i Hi. unfold extract_slice.
  cbn [classifications relations objects data errors entities ex_token_counts pages].
  rewrite Hcl, Hrel, Hobj, Hdat, Herr, Htc, Hpg by done.
  destruct (Hsi i Hi) as [Hb [x Hx] H1 H2 H3 H4 H5 H6 H7]. unfold at_.
  rewrite (Henl i x Hi) by (cbn; unfold partial; rewrite Hget by done; by rewrite Hx).
  assert (∀ A (l : option (list A)), one l → ∀ y, l = Some y → Z.of_nat (length y) = 1) as Hone.
  { intros A l Hl y Hy. destruct (Hl y Hy) as [z ->]. done. }
  rewrite extract_init_ok; [|done|done|by apply Hone..]. destruct (s i); cbn in *. by rewrite Hb, Hx.
Qed.
End extract.

(** ** Fan-out and fan-in *)

(** Encode results reach the right item.  Take the single-item outputs of all [n]
    items of a request, from forward passes of one configuration, stored in any order in
    the dict of partial results: assembling them succeeds, and item [i] of the result is
    exactly partial [i]: its dense row, sparse vector, token matrix and its per-item
    metering counts. *)
Theorem encode_assemble_slices {Row SV MV} (token_dim : MV → Z) (ps : list (Z * EncodeOutput (Row := Row) (SV := SV)))
    (n : nat) (s : nat → EncodeOutput) :
  (0 < n)%nat → length ps = n → (∀ i, (i < n)%nat → dict_get (Z.of_nat i) ps = Some (s i)) →
  (∀ i, (i < n)%nat → ∃ o b, encode_slice token_dim o b = Ret (s i)) →
  (∀ i j, (i < n)%nat → (j < n)%nat → encode_alike (s i) (s j)) →
  ∃ o, encode_assemble token_dim ps (Z.of_nat n) = Ret o ∧
    ∀ i, (i < n)%nat → encode_slice token_dim o i = Ret (s i).
Proof.
  intros Hn Hl Hg Hs. apply (assemble_slices (HandlerLaws := encode_laws token_dim)); try done.
  intros i Hi. destruct (Hs i Hi) as (o & b & E). by eapply encode_slice_is_single.
Qed.

(** Score results reach the right pair, with the all-or-nothing token and image
    counts: the restarting counting loop and the final length test return every count
    exactly when every partial has one. *)
Theorem score_assemble_slices {Sc} (ps : list (Z * ScoreOutput (Sc := Sc))) (n : nat) (s : nat → ScoreOutput) :
  (0 < n)%nat → length ps = n → (∀ i, (i < n)%nat → dict_get (Z.of_nat i) ps = Some (s i)) →
  (∀ i, (i < n)%nat → ∃ o b, score_slice o b = Ret (s i)) →
  (∀ i j, (i < n)%nat → (j < n)%nat → score_alike (s i) (s j)) →
  ∃ o, score_assemble ps (Z.of_nat n) = Ret o ∧ ∀ i, (i < n)%nat → score_slice o i = Ret (s i).
Proof.
  intros Hn Hl Hg Hs. apply (assemble_slices (HandlerLaws := score_laws)); try done.
  intros i Hi. destruct (Hs i Hi) as (o & b & E). by eapply score_slice_is_single.
Qed.

(** Extract results reach the right document: entities, classifications, relations,
    objects, structured data, per-item errors, token counts and pages. *)
Theorem extract_assemble_slices {En Cl Rel Obj Er}
    (ps : list (Z * ExtractOutput (En := En) (Cl := Cl) (Rel := Rel) (Obj := Obj) (Er := Er)))
    (n : nat) (s : nat → ExtractOutput) :
  (0 < n)%nat → length ps = n → (∀ i, (i < n)%nat → dict_get (Z.of_nat i) ps = Some (s i)) →
  (∀ i, (i < n)%nat → ∃ o b, extract_slice o b = Ret (s i)) →
  (∀ i j, (i < n)%nat → (j < n)%nat → extract_alike (s i) (s j)) →
  ∃ o, extract_assemble ps (Z.of_nat n) = Ret o ∧ ∀ i, (i < n)%nat → extract_slice o i = Ret (s i).
Proof.
  intros Hn Hl Hg Hs. apply (assemble_slices (HandlerLaws := extract_laws)); try done.
  intros i Hi. destruct (Hs i Hi) as (o & b & E). by eapply extract_slice_is_single.
Qed.

(** ** Config keys *)

Lemma pyval_nested_ind (P : pyval → Prop) :
  P VNone → (∀ b, P (VBool b)) → (∀ z, P (VInt z)) → (∀ x, P (VFloat x)) → (∀ s, P (VStr s)) →
  (∀ l, Forall P l → P (VList l)) → (∀ l, Forall P l → P (VTuple l)) →
  (∀ d, Forall (λ p, P p.2) d → P (VDict d)) → ∀ v, P v.
Proof.
  intros H1 H2 H3 H4 H5 HL HT HD.
  fix IH 1. intros [|b|z|x|s|l|l|d]; [done|auto|auto|auto|auto|apply HL|apply HT|apply HD].
  - induction l as [|v l IHl]; constructor; [apply IH|exact IHl].
  - induction l as [|v l IHl]; constructor; [apply IH|exact IHl].
  - induction d as [|[k v] d IHd]; constructor; [apply IH|exact IHd].
Qed.

(** Values of a decoded request body: no tuples. *)
Fixpoint json (v : pyval) : bool :=
  match v with
  | VList l => forallb json l
  | VTuple _ => false
  | VDict d => forallb (λ '(_, w), json w) d
  | _ => true
  end.

(** Values Python can hash: no lists and no dicts inside. *)
Fixpoint hashable (v : pyval) : bool :=
  match v with
  | VList _ | VDict _ => false
  | VTuple l => forallb hashable l
  | _ => true
  end.

Lemma make_hashable_hashable v : json v = true → hashable (make_hashable v) = true.
Proof.
  induction v as [| | | | |l IH|l IH|d IH] using pyval_nested_ind; try done.
  - cbn. rewrite !forallb_forall. intros Hj x (y & <- & Hy)%in_map_iff.
    rewrite Forall_forall in IH. apply IH; [by apply list_elem_of_In|auto].
  - cbn. rewrite !forallb_forall. intros Hj x (p & <- & Hp)%in_map_iff.
    apply list_elem_of_In, elem_of_stable_sort, list_elem_of_In, in_map_iff in Hp as ([k w] & <- & Hw).
    cbn. rewrite Forall_forall in IH.
    pose proof (IH (k, w) (proj2 (list_elem_of_In _ _) Hw) (Hj (k, w) Hw)) as H. cbn in H. by rewrite H.
Qed.

Lemma string_leb_trans s1 s2 s3 : String.leb s1 s2 = true → String.leb s2 s3 = true → String.leb s1 s3 = true.
Proof.
  intros H1 H2. apply Is_true_true.
  apply (transitivity (R := String.le) (y := s2)); by apply Is_true_true.
Qed.

(** Two orders of the same entries sort to the same list. *)
Lemma sort_entries_perm (d1 d2 : list (string * pyval)) :
  d1 ≡ₚ d2 → NoDup (dict_keys d1) → stable_sort key_leb d1 = stable_sort key_leb d2.
Proof.
  intros Hp Hnd.
  assert (∀ d, StronglySorted (λ x y, key_leb x y = true) (stable_sort key_leb d)) as Hs.
  { intros d. apply (stable_sort_sorted key_leb (λ _, True)); [| |by apply Forall_true].
    - intros x y _ _. apply String.leb_total.
    - intros x y z _ _ _. apply string_leb_trans. }
  assert (stable_sort key_leb d1 ≡ₚ stable_sort key_leb d2) as Hpp by by rewrite !stable_sort_perm.
  assert (NoDup (dict_keys (stable_sort key_leb d1))) as Hnd1.
  { unfold dict_keys. by rewrite stable_sort_perm. }
  pose proof (Hs d1) as S1. pose proof (Hs d2) as S2. revert Hpp Hnd1 S1 S2.
  generalize (stable_sort key_leb d1) (stable_sort key_leb d2). clear.
  intros l1. induction l1 as [|x l1 IH]; intros l2 Hp Hnd S1 S2.
  { symmetry in Hp. by apply Permutation_nil_r in Hp as ->. }
  destruct l2 as [|y l2]; [by apply Permutation_nil_r in Hp|].
  inversion S1 as [|?? S1' F1]; inversion S2 as [|?? S2' F2]; subst.
  rewrite Forall_forall in F1, F2. apply NoDup_cons in Hnd as [Hx Hnd'].
  assert (x = y) as ->.
  { assert (x ∈ y :: l2) as Hxin by (rewrite <- Hp; by left).
    assert (y ∈ x :: l1) as Hyin by (rewrite Hp; by left).
    apply elem_of_cons in Hxin as [?|Hxin]; [done|]. apply elem_of_cons in Hyin as [?|Hyin]; [done|].
    assert (x.1 = y.1) as E by (apply String.leb_antisym; [by apply F1|by apply F2]).
    exfalso. apply Hx. rewrite E. by apply list_elem_of_fmap_2. }
  f_equal. apply IH; [by eapply Permutation_cons_inv|done..].
Qed.

(** The key of an options dict does not depend on the order in which the client wrote
    its entries, and it can be hashed: [make_hashable] of a decoded request body contains
    no list and no dict. *)
Theorem make_hashable_key d1 d2 :
  d1 ≡ₚ d2 → NoDup (dict_keys d1) → json (VDict d1) = true →
  make_hashable (VDict d1) = make_hashable (VDict d2) ∧ hashable (make_hashable (VDict d1)) = true.
Proof.
  intros Hp Hnd Hj. split; [|by apply make_hashable_hashable]. cbn. do 2 f_equal.
  apply sort_entries_perm; [by rewrite Hp|].
  assert (dict_keys (List.map (λ '(k, w), (k, make_hashable w)) d1) = dict_keys d1) as ->; [|done].
  clear. unfold dict_keys. induction d1 as [|[k w] d IH]; [done|]. cbn. by f_equal.
Qed.

(** Requests fused into one forward pass agree on what the forward pass uses.  Equal
    config keys imply the same operation and instruction; for encode the same output
    types, query flag and LoRA, for extract the same labels in the same order. *)
Theorem config_key_separates m1 m2 :
  config_key m1 = config_key m2 →
  operation m1 = operation m2 ∧ instruction m1 = instruction m2 ∧
  options_key m1 = options_key m2 ∧
  (operation m1 = OpEncode → output_types m1 ≡ₚ output_types m2 ∧ is_query m1 = is_query m2 ∧
     lora_value m1 = lora_value m2) ∧
  (operation m1 = OpExtract → default [] (labels m1) = default [] (labels m2)).
Proof.
  assert (∀ o1 o2, opt_str o1 = opt_str o2 → o1 = o2) as Hopt by (intros [] [] [=]; congruence).
  assert (∀ l1 l2, List.map VStr l1 = List.map VStr l2 → l1 = l2) as Hmap.
  { induction l1 as [|x l1 IH]; intros [|y l2] [=]; [done|]. subst. f_equal. auto. }
  unfold config_key. destruct (operation m1) eqn:E1, (operation m2) eqn:E2; try done.
  - intros [= Ho Hi Hq Hl Hk]. split; [done|]. split; [by apply Hopt|]. split; [done|]. split; [|done].
    intros _. apply Hmap in Ho. split; [|done].
    rewrite <- (stable_sort_perm String.leb (output_types m1)), Ho. apply stable_sort_perm.
  - intros [= Hl Hs Hi Hk]. split; [done|]. split; [by apply Hopt|]. split; [done|]. split; [done|].
    intros _. destruct (labels m1) as [[|x l1]|], (labels m2) as [[|y l2]|]; try done. cbn.
    injection Hl as Hx Hl. subst. f_equal. by apply Hmap.
  - intros [= Hi Hk]. split; [done|]. split; [by apply Hopt|]. done.
Qed.

(** Options that differ only in a nested value: a dict, and the list of its pairs. *)
Definition opts_dict : list (string * pyval) := [("x"%string, VDict [("a"%string, VInt 1)])].
Definition opts_list : list (string * pyval) := [("x"%string, VList [VList [VStr "a"; VInt 1]])].

(** Config keys are not unique.  The handlers promise a key that uniquely identifies
    the inference configuration, but [make_hashable] maps a dict and the list of its
    pairs to the same tuple: two score requests with different options share one key, and
    the forward pass runs with the options of the first one. *)
Theorem config_key_collision :
  ∃ m1 m2, config_key m1 = config_key m2 ∧ options m1 = Some opts_dict ∧ options m2 = Some opts_list ∧
    opts_dict ≠ opts_list.
Proof.
  exists (mkParams OpScore None (Some opts_dict) [] false None None),
         (mkParams OpScore None (Some opts_list) [] false None None).
  repeat split. intros [=].
Qed.

(** ** Witnesses *)

(** One forward pass over three items; the request's items are at positions 2 and 0, and
    its partial results were stored in the order 1, 0. *)
Definition demo_encode : EncodeOutput (Row := nat) (SV := nat) (MV := nat) :=
  mkEncode (Some (mkArr 4 [10; 11; 12]%nat)) (Some [20; 21; 22]%nat) None 3 false (Some 4) None
    [("input_token_counts"%string, VList [VInt 5; VInt 6; VInt 7]); ("other"%string, VNone)].

Definition demo_encode_item (i : nat) : EncodeOutput :=
  match encode_slice (λ _, 0) demo_encode (if (i =? 0)%nat then 2%nat else 0%nat) with
  | Ret o => o
  | Raise _ => demo_encode
  end.

Lemma encode_assemble_slices_witness :
  ∃ o, encode_assemble (λ _, 0) [(1, demo_encode_item 1); (0, demo_encode_item 0)] 2 = Ret o ∧
    ∀ i, (i < 2)%nat → encode_slice (λ _, 0) o i = Ret (demo_encode_item i).
Proof.
  apply (encode_assemble_slices (λ _, 0) _ 2 demo_encode_item).
  - lia.
  - reflexivity.
  - intros [|[|i]] Hi; [reflexivity..|lia].
  - intros [|[|i]] Hi; [exists demo_encode, 2%nat|exists demo_encode, 0%nat|lia]; reflexivity.
  - intros [|[|i]] [|[|j]] Hi Hj; try lia; constructor; try (vm_compute; reflexivity); intros key;
      change (extra (demo_encode_item 0)) with [("input_token_counts"%string, VList [VInt 7])];
      change (extra (demo_encode_item 1)) with [("input_token_counts"%string, VList [VInt 5])];
      cbn [dict_get]; destruct (decide _); reflexivity.
Defined.

Definition demo_score : ScoreOutput (Sc := nat) := mkScore [7; 8; 9]%nat 3 (Some [3; 4; 5]) None.
Definition demo_score_item (i : nat) : ScoreOutput :=
  match score_slice demo_score (if (i =? 0)%nat then 2%nat else 0%nat) with Ret o => o | Raise _ => demo_score end.

Lemma score_assemble_slices_witness :
  ∃ o, score_assemble [(1, demo_score_item 1); (0, demo_score_item 0)] 2 = Ret o ∧
    ∀ i, (i < 2)%nat → score_slice o i = Ret (demo_score_item i).
Proof.
  apply (score_assemble_slices _ 2 demo_score_item).
  - lia.
  - reflexivity.
  - intros [|[|i]] Hi; [reflexivity..|lia].
  - intros [|[|i]] Hi; [exists demo_score, 2%nat|exists demo_score, 0%nat|lia]; reflexivity.
  - intros [|[|i]] [|[|j]] Hi Hj; try lia; constructor; reflexivity.
Defined.

Definition demo_extract : ExtractOutput (En := nat) (Cl := nat) (Rel := nat) (Obj := nat) (Er := nat) :=
  mkExtract [[1]; []; [2; 3]]%nat (Some [[]; [4]; []]%nat) None None None (Some [None; Some 9%nat; None]) 3
    None (Some [1; 2; 3]).
Definition demo_extract_item (i : nat) : ExtractOutput :=
  match extract_slice demo_extract (if (i =? 0)%nat then 2%nat else 1%nat) with Ret o => o | Raise _ => demo_extract end.

Lemma extract_assemble_slices_witness :
  ∃ o, extract_assemble [(1, demo_extract_item 1); (0, demo_extract_item 0)] 2 = Ret o ∧
    ∀ i, (i < 2)%nat → extract_slice o i = Ret (demo_extract_item i).
Proof.
  apply (extract_assemble_slices _ 2 demo_extract_item).
  - lia.
  - reflexivity.
  - intros [|[|i]] Hi; [reflexivity..|lia].
  - intros [|[|i]] Hi; [exists demo_extract, 2%nat|exists demo_extract, 1%nat|lia]; reflexivity.
  - intros [|[|i]] [|[|j]] Hi Hj; try lia; constructor; reflexivity.
Defined.

Lemma make_hashable_key_witness :
  let d1 := [("b"%string, VList [VInt 1]); ("a"%string, VNone)] in
  let d2 := [("a"%string, VNone); ("b"%string, VList [VInt 1])] in
  make_hashable (VDict d1) = make_hashable (VDict d2) ∧ hashable (make_hashable (VDict d1)) = true.
Proof.
  apply make_hashable_key.
  - constructor.
  - apply (bool_decide_unpack _). vm_compute. exact I.
  - reflexivity.
Defined.

Lemma config_key_separates_witness :
  let m1 := mkParams OpEncode (Some "q"%string) None ["sparse"; "dense"]%string true None None in
  let m2 := mkParams OpEncode (Some "q"%string) (Some []) ["dense"; "sparse"]%string true None None in
  config_key m1 = config_key m2 ∧ output_types m1 ≡ₚ output_types m2 ∧ is_query m1 = is_query m2.
Proof.
  cbv zeta. assert (config_key (mkParams OpEncode (Some "q"%string) None ["sparse"; "dense"]%string true None None) =
    config_key (mkParams OpEncode (Some "q"%string) (Some []) ["dense"; "sparse"]%string true None None)) as E
    by reflexivity.
  destruct (config_key_separates _ _ E) as (_ & _ & _ & H & _). destruct (H eq_refl) as (H1 & H2 & _).
  split; [exact E|]. split; [exact H1|exact H2].
Defined.

End Handlers.
