(* ===== verification/WorkerDispatch.v ===== *)
(** Running one formed batch: the grouping, dispatch and completion part of
    [core/worker/model_worker.py] ([_group_by_inference_config], [_dispatch_batch],
    [_run_handler_inference], [_complete_requests]).

    The worker calls the operation handlers through the interface of [Handlers.v] and the
    OOM recovery of [OomRecovery.v]; the device (adapter and inference thread), the
    registry and the event loop are the record [device].  Request timing, logging and
    telemetry spans are left out.  [asyncio.Future.exception()] raises [CancelledError]
    on a cancelled future, which is not an [Exception]: [escape] keeps the two apart. *)

From stdpp Require Import functions gmap.
From S2P Require Import Prelude PyFloat PyDict Batcher Oom OomRecovery Handlers.
Import Oom.
Local Open Scope Z_scope.

#[local] Existing Instance Handlers.pyval_eq_dec.

Module Dispatch.
Import Executor.

(** What can leave [_dispatch_batch]: an [Exception], or [CancelledError]. *)
Inductive escape := EscError (e : exn) | EscCancelled.

Section dispatch.
Context {Item Prepared O W : Type} `{!HasCost Prepared} (handlers : Handlers.Op → Handlers.OperationHandler O).

(** The immutable part of [RequestMetadata]. *)
Record Request := mkRequest { params : Handlers.ReqParams; req_items : list Item }.

Notation group := (list (entry (Item := Item) (Prepared := Prepared))).
Notation batch := (Batcher.FormattedBatch Prepared nat).
Notation state := (Executor.state (Slice := O) (R := O) (W := W)).

(** The code outside the worker: adapter calls on the inference thread, registry,
    garbage collector, CUDA allocator and event loop. *)
Record device := mkDevice {
  run_inference : W → Handlers.Op → list Handlers.pyval → group → W * list nat * res exn O;
  dev_registry : option (W → string → float → W * list nat * res unit EvictionResult);
  dev_gc : W → W;
  dev_empty_cache : W → W;
  dev_sleep : W → W * list nat;
}.

Context (reqs : nat → Request) (dev : device) (model_name : string) (oom_config : OomRecoveryConfig).

(** ** Grouping *)

Definition req_key (r : nat) : list Handlers.pyval := Handlers.config_key (params (reqs r)).

(** The representative of a key under Python's equality. *)
Definition norm_key (r : nat) : list Handlers.pyval := List.map Handlers.key_norm (req_key r).

(** [item = metadata.items[original_idx]] *)
Definition mk_entry (p : Prepared) (r : nat) : res exn entry :=
  match req_items (reqs r) !! original_index p with
  | Some it => Ret (mkEntry it r (Z.of_nat (original_index p)) p)
  | None => Raise Handlers.index_error
  end.

(** A dict from config key to group; the key object is the one of the first item. *)
Notation groups := (list (list Handlers.pyval * (list Handlers.pyval * group))).

(** The general loop of [_group_by_inference_config]. *)
Fixpoint group_loop (l : list (Prepared * nat)) (gs : groups) : res exn groups :=
  match l with
  | [] => Ret gs
  | (p, r) :: l' =>
      let '(k0, g) := default (req_key r, []) (dict_get (norm_key r) gs) in
      match mk_entry p r with
      | Raise e => Raise e
      | Ret e => group_loop l' (dict_set (norm_key r) (k0, g ++ [e]) gs)
      end
  end.

(** The fast path's loop, when every item belongs to the request [r]. *)
Fixpoint fast_entries (l : list Prepared) (r : nat) : res exn group :=
  match l with
  | [] => Ret []
  | p :: l' =>
      match mk_entry p r with
      | Raise e => Raise e
      | Ret e => match fast_entries l' r with Raise x => Raise x | Ret g => Ret (e :: g) end
      end
  end.

(** [_group_by_inference_config] *)
Definition group_by_inference_config (b : batch) : res exn groups :=
  match Batcher.fb_metadata b with
  | r :: ((_ :: _) as rest) =>
      if forallb (λ r', (r' =? r)%nat) rest then
        match fast_entries (Batcher.fb_items b) r with
        | Raise e => Raise e
        | Ret g => Ret [(norm_key r, (req_key r, g))]
        end
      else group_loop (Batcher.batch_pairs b) []
  | _ => group_loop (Batcher.batch_pairs b) []
  end.

(** ** Running the groups *)

Record worker_stats := mkWStats {
  batches_processed : Z;
  items_processed : Z;
  total_tokens_processed : Z;
  inference_errors : Z;
}.

(** The environment of one group: the dispatch closure captures the config key. *)
Definition group_env (op : Handlers.Op) (key : list Handlers.pyval) : environment :=
  mkEnv (λ w g, run_inference dev w op key g)
    (Handlers.slice_output (OperationHandler := handlers op))
    (dev_registry dev) (dev_gc dev) (dev_empty_cache dev) (dev_sleep dev).

(** [for metadata in metadata_list: ... failed_metadata_ids.add(meta_id)] *)
Fixpoint newly_failed (l : list nat) (done_before : nat → bool) (failed : gset nat) (s : state)
    : res escape (gset nat) :=
  match l with
  | [] => Ret failed
  | r :: l' =>
      if done_before r then newly_failed l' done_before failed s
      else if decide (r ∈ failed) then newly_failed l' done_before failed s
      else
        match m_future (metas s r) with
        | Pending | Resolved _ => newly_failed l' done_before failed s
        | Failed _ => newly_failed l' done_before ({[r]} ∪ failed) s
        | Cancelled => Raise EscCancelled
        end
  end.

Definition items_with_partial (g : group) (s : state) : Z :=
  Z.of_nat (length (List.filter (λ e, match partial_at (metas s (e_req e)) (e_index e) with
                                      | Some _ => true | None => false end) g)).

(** One iteration of the loop over the config groups.  [run] always returns
    ([Executor.run_settles]), so the default is never used. *)
Definition dispatch_group (op : Handlers.Op) (key : list Handlers.pyval) (g : group)
    (s : state) (ws : worker_stats) : state * worker_stats * res escape unit :=
  let done_before r := done (m_future (metas s r)) in
  let s1 := default s (run (group_env op key) model_name oom_config g s) in
  match newly_failed (e_req <$> g) done_before ∅ s1 with
  | Raise x => (s1, ws, Raise x)
  | Ret failed =>
      let recovery_engaged := recoveries_attempted (stats s) <? recoveries_attempted (stats s1) in
      let error := (0 <? Z.of_nat (size failed)) || recovery_engaged in
      (s1, mkWStats (batches_processed ws) (items_processed ws + items_with_partial g s1)
             (total_tokens_processed ws) (inference_errors ws + if error then 1 else 0), Ret tt)
  end.

(** The operation of a group is the first component of its key, which is that of its
    items' metadata. *)
Definition group_op (g : group) : Handlers.Op :=
  match g with e :: _ => Handlers.operation (params (reqs (e_req e))) | [] => Handlers.OpEncode end.

Fixpoint dispatch_groups (gs : groups) (s : state) (ws : worker_stats)
    : state * worker_stats * res escape unit :=
  match gs with
  | [] => (s, ws, Ret tt)
  | (_, (key, g)) :: gs' =>
      match dispatch_group (group_op g) (tail key) g s ws with
      | (s1, ws1, Raise x) => (s1, ws1, Raise x)
      | (s1, ws1, Ret _) => dispatch_groups gs' s1 ws1
      end
  end.

(** ** Completion *)

(** [if not metadata.future.done(): metadata.future.set_result(...)] *)
Definition resolve_one (m : nat → Meta O O) (r : nat) (o : O) : nat → Meta O O :=
  if done (m_future (m r)) then m else <[r := mkMeta (Resolved o) (partial_results (m r))]> m.

(** [_partial_results is not None and len(_partial_results) == len(items)] *)
Definition complete_partials (m : nat → Meta O O) (r : nat) : option (list (Z * O)) :=
  match partial_results (m r) with
  | Some ps => if (length ps =? length (req_items (reqs r)))%nat then Some ps else None
  | None => None
  end.

Definition assemble (r : nat) (ps : list (Z * O)) : res exn O :=
  Handlers.assemble_output (OperationHandler := handlers (Handlers.operation (params (reqs r)))) ps
    (Z.of_nat (length (req_items (reqs r)))).

(** [_complete_requests] *)
Fixpoint complete_loop (l : list nat) (completed : gset nat) (m : nat → Meta O O)
    : (nat → Meta O O) * res escape unit :=
  match l with
  | [] => (m, Ret tt)
  | r :: l' =>
      if decide (r ∈ completed) then complete_loop l' completed m
      else
        match complete_partials m r with
        | None => complete_loop l' ({[r]} ∪ completed) m
        | Some ps =>
            match assemble r ps with
            | Raise e => (m, Raise (EscError e))
            | Ret o => complete_loop l' ({[r]} ∪ completed) (resolve_one m r o)
            end
        end
  end.

(** [_dispatch_batch] *)
Definition dispatch_batch (b : batch) (s : state) (ws : worker_stats)
    : state * worker_stats * res escape unit :=
  match group_by_inference_config b with
  | Raise e => (s, ws, Raise (EscError e))
  | Ret gs =>
      match dispatch_groups gs s ws with
      | (s1, ws1, Raise x) => (s1, ws1, Raise x)
      | (s1, ws1, Ret _) =>
          match complete_loop (Batcher.fb_metadata b) ∅ (metas s1) with
          | (m, Raise x) => (set_metas s1 m, ws1, Raise x)
          | (m, Ret _) =>
              (set_metas s1 m,
               mkWStats (batches_processed ws1 + 1) (items_processed ws1)
                 (total_tokens_processed ws1 + Batcher.fb_total_cost b) (inference_errors ws1), Ret tt)
          end
      end
  end.

(** ** The grouping is a stable partition of the batch *)

(** The entries of a batch, in batch order. *)
Fixpoint batch_entries (l : list (Prepared * nat)) : res exn group :=
  match l with
  | [] => Ret []
  | (p, r) :: l' =>
      match mk_entry p r with
      | Raise e => Raise e
      | Ret e => match batch_entries l' with Raise x => Raise x | Ret g => Ret (e :: g) end
      end
  end.

Definition entry_key (e : entry (Item := Item) (Prepared := Prepared)) : list Handlers.pyval := norm_key (e_req e).

Definition add_entry (gs : groups) (e : entry) : groups :=
  let '(k0, g) := default (req_key (e_req e), []) (dict_get (entry_key e) gs) in
  dict_set (entry_key e) (k0, g ++ [e]) gs.

Lemma mk_entry_req p r e : mk_entry p r = Ret e → e_req e = r ∧ e_prepared e = p.
Proof. unfold mk_entry. destruct (_ !! _); [|done]. by intros [= <-]. Qed.

Lemma group_loop_entries l : ∀ gs,
  group_loop l gs = match batch_entries l with Raise e => Raise e | Ret es => Ret (foldl add_entry gs es) end.
Proof.
  induction l as [|[p r] l IH]; intros gs; [done|]. cbn [group_loop batch_entries].
  destruct (default _ (dict_get (norm_key r) gs)) as [k0 g] eqn:Ed.
  destruct (mk_entry p r) as [e|x] eqn:Ee; [|done]. rewrite IH. destruct (batch_entries l); [|done].
  cbn [foldl]. f_equal. f_equal. unfold add_entry, entry_key.
  destruct (mk_entry_req _ _ _ Ee) as [-> _]. by rewrite Ed.
Qed.

Lemma fast_entries_batch l r : fast_entries l r = batch_entries ((λ p, (p, r)) <$> l).
Proof. induction l as [|p l IH]; [done|]. cbn. destruct (mk_entry p r); [|done]. by rewrite IH. Qed.

(** The group of a key holds exactly the entries with that key, in batch order. *)
Record groups_ok (gs : groups) (es : group) : Prop := {
  go_wf : dict_wf gs;
  go_group : ∀ nk, match dict_get nk gs with
    | None => filter (λ e, entry_key e = nk) es = []
    | Some (k, g) => g = filter (λ e, entry_key e = nk) es ∧
        ∃ e, head g = Some e ∧ k = req_key (e_req e)
    end;
}.

Lemma add_entry_ok gs es e : groups_ok gs es → groups_ok (add_entry gs e) (es ++ [e]).
Proof.
  intros [Hwf Hg]. unfold add_entry. pose proof (Hg (entry_key e)) as He.
  destruct (dict_get (entry_key e) gs) as [[k g]|] eqn:Ed; cbn [default from_option id];
    (constructor; [by apply dict_set_wf|]); intros nk; rewrite dict_get_set, filter_app;
    destruct (decide (entry_key e = nk)) as [<-|Hne].
  - destruct He as [-> (e0 & Hh & Hk)]. rewrite filter_cons_True by done. split; [done|].
    exists e0. split; [|done]. destruct (filter _ es); [done|]. exact Hh.
  - rewrite filter_cons_False, filter_nil, app_nil_r by done. apply Hg.
  - rewrite He, filter_cons_True by done. split; [done|]. exists e. done.
  - rewrite filter_cons_False, filter_nil, app_nil_r by done. apply Hg.
Qed.

Lemma add_entries_ok es : ∀ gs es0, groups_ok gs es0 → groups_ok (foldl add_entry gs es) (es0 ++ es).
Proof.
  induction es as [|e es IH]; intros gs es0 Hok; [by rewrite app_nil_r|]. cbn.
  rewrite (cons_middle e es0 es), app_assoc. by apply IH, add_entry_ok.
Qed.

Lemma groups_ok_nil : groups_ok [] [].
Proof. constructor; [constructor|]. done. Qed.

(** Entries that all have one key form one group. *)
Lemma add_entries_one nk k g es :
  (∀ e, e ∈ es → entry_key e = nk) → foldl add_entry [(nk, (k, g))] es = [(nk, (k, g ++ es))].
Proof.
  revert g. induction es as [|e es IH]; intros g Hes; [by rewrite app_nil_r|]. cbn [foldl].
  unfold add_entry at 2. rewrite (Hes e) by by left. cbn [dict_get dict_set].
  rewrite decide_True by done. cbn [default from_option id dict_set]. rewrite decide_True by done. rewrite IH.
  - by rewrite <- app_assoc.
  - intros; apply Hes; by right.
Qed.

Lemma group_fast_path (b : batch) :
  length (Batcher.fb_items b) = length (Batcher.fb_metadata b) →
  group_by_inference_config b = group_loop (Batcher.batch_pairs b) [].
Proof.
  intros Hlen. unfold group_by_inference_config.
  destruct (Batcher.fb_metadata b) as [|r [|r2 rs]] eqn:Em; [done|done|].
  destruct (forallb _ _) eqn:Eall; [|done].
  assert (∀ x, x ∈ r :: r2 :: rs → x = r) as Hall.
  { intros x [->|Hx]%elem_of_cons; [done|]. rewrite forallb_forall in Eall.
    apply Nat.eqb_eq, Eall, (proj1 (list_elem_of_In _ _) Hx). }
  assert (Batcher.batch_pairs b = (λ p, (p, r)) <$> Batcher.fb_items b) as ->.
  { unfold Batcher.batch_pairs. rewrite Em. revert Hlen Hall. generalize (r :: r2 :: rs).
    generalize (Batcher.fb_items b). clear. induction l as [|p l IH]; intros [|x m] Hl Hx; try done.
    cbn. f_equal; [f_equal; apply Hx; by left|]. apply IH; [by injection Hl|]. intros; apply Hx; by right. }
  rewrite fast_entries_batch, group_loop_entries.
  destruct (Batcher.fb_items b) as [|p ps]; [done|].
  destruct (batch_entries ((λ p, (p, r)) <$> p :: ps)) as [es|] eqn:Ees; [|done].
  assert (∀ l es, batch_entries ((λ p, (p, r)) <$> l) = Ret es → ∀ e, e ∈ es → e_req e = r) as Hreq.
  { clear. induction l as [|p l IH]; intros es; cbn; [intros [= <-] e ?%elem_of_nil; done|].
    destruct (mk_entry p r) as [e|] eqn:Ee; [|done]. destruct (batch_entries _) as [g|] eqn:Eg; [|done].
    intros [= <-] e' [->|He']%elem_of_cons; [by apply mk_entry_req in Ee as [? _]|by eapply IH]. }
  specialize (Hreq _ _ Ees). destruct es as [|e es].
  { cbn in Ees. destruct (mk_entry p r); [|done]. by destruct (batch_entries _). }
  f_equal. cbn [foldl]. unfold add_entry at 2, entry_key. cbn [dict_get default from_option id dict_set].
  rewrite (Hreq e) by by left. rewrite add_entries_one; [done|].
  intros e' He'. unfold entry_key. rewrite (Hreq e'); [done|by right].
Qed.

(** The fast path of the grouping is an optimisation only.  On every batch whose two
    lists have the same length, [_group_by_inference_config] returns (or raises) what its
    general loop does. *)
Theorem group_fast_path_equiv (b : batch) :
  length (Batcher.fb_items b) = length (Batcher.fb_metadata b) →
  group_by_inference_config b = group_loop (Batcher.batch_pairs b) [].
Proof. apply group_fast_path. Qed.

(** The groups are a stable partition of the batch.  Every group holds exactly the
    entries of one config key, in batch order, no key occurs twice, no group is empty,
    every item of the batch is in the group of its request's key, and the group's key
    object is that of its first item. *)
Theorem group_partition (b : batch) gs :
  length (Batcher.fb_items b) = length (Batcher.fb_metadata b) →
  group_by_inference_config b = Ret gs →
  ∃ es, batch_entries (Batcher.batch_pairs b) = Ret es ∧ NoDup (dict_keys gs) ∧
    (∀ nk k g, (nk, (k, g)) ∈ gs → g = filter (λ e, entry_key e = nk) es ∧
       ∃ e, head g = Some e ∧ k = req_key (e_req e)) ∧
    (∀ e, e ∈ es → ∃ k g, (entry_key e, (k, g)) ∈ gs ∧ e ∈ g).
Proof.
  intros Hlen. rewrite (group_fast_path b Hlen), group_loop_entries.
  destruct (batch_entries _) as [es|]; [|done]. intros [= <-]. exists es. split; [done|].
  pose proof (add_entries_ok es [] [] groups_ok_nil) as [Hwf Hg]. cbn [app] in Hg. split; [done|]. split.
  - intros nk k g Hin. apply dict_elem_get in Hin; [|done]. specialize (Hg nk). by rewrite Hin in Hg.
  - intros e He. specialize (Hg (entry_key e)).
    assert (e ∈ filter (λ e', entry_key e' = entry_key e) es) as Hf by by apply list_elem_of_filter.
    destruct (dict_get _ _) as [[k g]|] eqn:Ed; [|rewrite Hg in Hf; by apply elem_of_nil in Hf].
    destruct Hg as [-> _]. exists k, (filter (λ e', entry_key e' = entry_key e) es).
    split; [by apply dict_get_Some_elem|done].
Qed.

(** ** Dispatching *)

(** Other tasks may cancel requests while the batch runs. *)
Definition dev_may_cancel : Prop := ∃ op key, may_cancel (group_env op key).

(** A value that a forward pass over entries of the batch produced for item [i] of [r]. *)
Definition wproduced (es : group) (r : nat) (i : Z) (v : O) : Prop :=
  ∃ key g, g ⊆ es ∧ produced (group_env (Handlers.operation (params (reqs r))) key) g r i v.

(** What a dispatch of the entries [es] may do to a request. *)
Record wevolves (es : group) (s s' : state) : Prop := {
  we_done : ∀ r, done (m_future (metas s r)) = true → m_future (metas s' r) = m_future (metas s r);
  we_future : ∀ r, m_future (metas s' r) = m_future (metas s r) ∨
    (dev_may_cancel ∧ m_future (metas s' r) = Cancelled) ∨ ∃ e, m_future (metas s' r) = Failed e;
  we_keys : ∀ r i, is_Some (partial_at (metas s r) i) → is_Some (partial_at (metas s' r) i);
  we_vals : ∀ r i v, partial_at (metas s' r) i = Some v → partial_at (metas s r) i = Some v ∨ wproduced es r i v;
  we_wf : ∀ r, partials_wf (metas s r) → partials_wf (metas s' r);
}.

#[local] Instance wevolves_preorder es : PreOrder (wevolves es).
Proof.
  split; [constructor; auto|]. intros s1 s2 s3 [D1 F1 K1 V1 W1] [D2 F2 K2 V2 W2]. constructor.
  - intros r H. rewrite <- (D1 r H). apply D2. by rewrite D1.
  - intros r. destruct (F2 r) as [->|[?|?]]; auto.
  - auto.
  - intros r i v [?|?]%V2; auto.
  - auto.
Qed.

(** The operation is part of the key, so a group has one operation. *)
Lemma norm_key_op r r' : norm_key r = norm_key r' →
  Handlers.operation (params (reqs r)) = Handlers.operation (params (reqs r')).
Proof.
  unfold norm_key, req_key, Handlers.config_key. cbn [List.map]. intros [= H _]. revert H.
  destruct (Handlers.operation (params (reqs r))), (Handlers.operation (params (reqs r'))); done.
Qed.

(** A group of the partition. *)
Definition good_group (es g : group) : Prop :=
  g ⊆ es ∧ ∀ e e', e ∈ g → e' ∈ g → norm_key (e_req e) = norm_key (e_req e').

Lemma run_wevolves es key g s :
  good_group es g →
  let s1 := default s (run (group_env (group_op g) key) model_name oom_config g s) in
  wevolves es s s1 ∧ Forall (settled s1) g.
Proof.
  intros [Hsub Hop].
  destruct (run_total_post (group_env (group_op g) key) model_name oom_config g s) as (s' & -> & E & Hs). cbn.
  split; [|done]. constructor; intros r; destruct (E r) as [D F _ K V Wf]; [done| |done| |done].
  - destruct F as [?|[[Hc ?]|[_ ?]]]; auto. right. left. split; [|done]. by exists (group_op g), key.
  - intros i v [?|Hp]%V; [by left|right]. exists key, g. split; [done|].
    assert (group_op g = Handlers.operation (params (reqs r))) as <-; [|done].
    destruct Hp as (w & h & k & e & o & Hh & _ & Hk & Hr & _).
    assert (e ∈ g) as He by (apply Hh; by eapply list_elem_of_lookup_2).
    destruct g as [|e0 g]; [by apply elem_of_nil in He|]. cbn. rewrite <- Hr.
    apply norm_key_op, Hop; [by left|done].
Qed.

Lemma wevolves_settled es s s' (e : entry (Item := Item) (Prepared := Prepared)) :
  wevolves es s s' → settled s e → settled s' e.
Proof. intros [D _ K _ _] [Hd|Hk]; [left; by rewrite D|right; auto]. Qed.

Lemma dispatch_groups_settled es gs : ∀ s ws s' ws' r,
  (∀ nk k g, (nk, (k, g)) ∈ gs → good_group es g) →
  dispatch_groups gs s ws = (s', ws', r) →
  wevolves es s s' ∧ batches_processed ws' = batches_processed ws ∧
  total_tokens_processed ws' = total_tokens_processed ws ∧
  (r = Ret tt → ∀ nk k g e, (nk, (k, g)) ∈ gs → e ∈ g → settled s' e).
Proof.
  induction gs as [|[nk0 [k0 g0]] gs IH]; intros s ws s' ws' r Hgood; cbn [dispatch_groups].
  { intros [= <- <- <-]. split; [reflexivity|]. do 2 (split; [done|]). by intros _ nk k g e ?%elem_of_nil. }
  unfold dispatch_group. destruct (run_wevolves es (tail k0) g0 s) as [E Hs]; [by eapply Hgood; left|].
  set (s1 := default s _) in *. destruct (newly_failed _ _ _ _) as [failed|x].
  - intros H. apply IH in H as (E' & Hb & Ht & Hset); [|intros; eapply Hgood; by right]. cbn in Hb, Ht.
    split; [by etrans|]. do 2 (split; [done|]). intros Hr nk k g e [[= -> -> ->]|Hin]%elem_of_cons He.
    + eapply wevolves_settled; [exact E'|]. rewrite Forall_forall in Hs. auto.
    + by eapply Hset.
  - intros [= <- <- <-]. do 3 (split; [done|]). done.
Qed.

(** Completion resolves every complete request that is still pending, with its assembled
    partial results, and touches nothing else. *)
Lemma complete_loop_spec l : ∀ seen m m',
  complete_loop l seen m = (m', Ret tt) →
  (∀ r, partial_results (m' r) = partial_results (m r)) ∧
  (∀ r, m_future (m' r) = m_future (m r) ∨
     ∃ ps o, complete_partials m r = Some ps ∧ assemble r ps = Ret o ∧
       m_future (m r) = Pending ∧ m_future (m' r) = Resolved o) ∧
  (∀ r, r ∈ l → r ∉ seen → is_Some (complete_partials m r) → done (m_future (m' r)) = true).
Proof.
  induction l as [|r l IH]; intros seen m m'; cbn [complete_loop].
  { intros [= <-]. split; [done|]. split; [auto|]. by intros r ?%elem_of_nil. }
  destruct (decide (r ∈ seen)) as [Hs|Hs].
  { intros H. apply IH in H as (H1 & H2 & H3). do 2 (split; [done|]).
    intros q [->|Hq]%elem_of_cons; [done|]. by apply H3. }
  destruct (complete_partials m r) as [ps|] eqn:Ec.
  2:{ intros H. apply IH in H as (H1 & H2 & H3). do 2 (split; [done|]).
    intros q [->|Hq]%elem_of_cons Hns Hc; [rewrite Ec in Hc; by destruct Hc|].
    destruct (decide (q = r)) as [->|]; [rewrite Ec in Hc; by destruct Hc|]. apply H3; set_solver. }
  destruct (assemble r ps) as [o|] eqn:Ea; [|done]. intros H. apply IH in H as (H1 & H2 & H3).
  assert (∀ q, partial_results (resolve_one m r o q) = partial_results (m q)) as Hp.
  { intros q. unfold resolve_one. destruct (done (m_future (m r))); [done|].
    destruct (decide (q = r)) as [->|]; [by rewrite fn_lookup_insert|by rewrite fn_lookup_insert_ne]. }
  assert (∀ q, complete_partials (resolve_one m r o) q = complete_partials m q) as Hcp.
  { intros q. unfold complete_partials. by rewrite Hp. }
  assert (done (m_future (resolve_one m r o r)) = true) as Hdr.
  { unfold resolve_one. destruct (done (m_future (m r))) eqn:Hd; [done|]. by rewrite fn_lookup_insert. }
  assert (∀ q, m_future (resolve_one m r o q) = m_future (m q) ∨
    q = r ∧ m_future (m r) = Pending ∧ m_future (resolve_one m r o r) = Resolved o) as Hf.
  { intros q. unfold resolve_one. destruct (done (m_future (m r))) eqn:Hd; [by left|].
    destruct (decide (q = r)) as [->|]; [right|left; by rewrite fn_lookup_insert_ne].
    rewrite fn_lookup_insert. by destruct (m_future (m r)). }
  split; [intros q; by rewrite H1|]. split.
  - intros q. destruct (H2 q) as [E|(ps' & o' & Hc & Has & Hpe & Hre)].
    + rewrite E. destruct (Hf q) as [?|(-> & Hpe & Hre)]; [by left|right]. eauto 6.
    + rewrite Hcp in Hc. destruct (Hf q) as [Eq|(-> & _ & Hre')]; [rewrite Eq in Hpe; right; eauto 6|].
      rewrite Hre' in Hpe. done.
  - intros q Hq Hns Hc. destruct (decide (q = r)) as [->|Hne].
    + destruct (H2 r) as [->|(_ & o' & _ & _ & _ & ->)]; [done|done].
    + apply elem_of_cons in Hq as [?|Hq]; [done|]. apply H3; [done|set_solver|by rewrite Hcp].
Qed.

(** The groups of a batch are good, and cover its entries. *)
Lemma groups_good (b : batch) gs :
  length (Batcher.fb_items b) = length (Batcher.fb_metadata b) →
  group_by_inference_config b = Ret gs →
  ∃ es, batch_entries (Batcher.batch_pairs b) = Ret es ∧
    (∀ nk k g, (nk, (k, g)) ∈ gs → good_group es g) ∧
    (∀ e, e ∈ es → ∃ nk k g, (nk, (k, g)) ∈ gs ∧ e ∈ g).
Proof.
  intros Hlen. rewrite (group_fast_path b Hlen), group_loop_entries.
  destruct (batch_entries _) as [es|]; [|done]. intros [= <-]. exists es. split; [done|].
  pose proof (add_entries_ok es [] [] groups_ok_nil) as [Hwf Hg]. cbn [app] in Hg. split.
  - intros nk k g Hin. apply dict_elem_get in Hin; [|done]. specialize (Hg nk). rewrite Hin in Hg.
    destruct Hg as [-> _]. split; [by intros e [_ He]%list_elem_of_filter|].
    intros e e' [He _]%list_elem_of_filter [He' _]%list_elem_of_filter. unfold entry_key in *. congruence.
  - intros e He. specialize (Hg (entry_key e)).
    assert (e ∈ filter (λ e', entry_key e' = entry_key e) es) as Hf by by apply list_elem_of_filter.
    destruct (dict_get _ _) as [[k g]|] eqn:Ed; [|rewrite Hg in Hf; by apply elem_of_nil in Hf].
    destruct Hg as [-> _]. eexists _, _, _. split; [by apply dict_get_Some_elem|done].
Qed.

Lemma batch_entries_in l es p r :
  batch_entries l = Ret es → (p, r) ∈ l → ∃ e, e ∈ es ∧ e_req e = r ∧ e_index e = Z.of_nat (original_index p).
Proof.
  revert es. induction l as [|[p' r'] l IH]; intros es; cbn; [by intros _ ?%elem_of_nil|].
  destruct (mk_entry p' r') as [e|] eqn:Ee; [|done]. destruct (batch_entries l) as [g|] eqn:Eg; [|done].
  intros [= <-] [[= -> ->]|Hin]%elem_of_cons.
  - exists e. unfold mk_entry in Ee. destruct (_ !! _); [|done]. injection Ee as <-. split; [by left|done].
  - destruct (IH g eq_refl Hin) as (e' & He' & ?). exists e'. split; [by right|done].
Qed.

Lemma batch_entries_from l es e :
  batch_entries l = Ret es → e ∈ es → ∃ p, (p, e_req e) ∈ l ∧
    e_index e = Z.of_nat (original_index p) ∧ (original_index p < length (req_items (reqs (e_req e))))%nat.
Proof.
  revert es. induction l as [|[p' r'] l IH]; intros es; cbn; [intros [= <-] ?%elem_of_nil; done|].
  destruct (mk_entry p' r') as [e'|] eqn:Ee; [|done]. destruct (batch_entries l) as [g|] eqn:Eg; [|done].
  intros [= <-] [->|Hin]%elem_of_cons.
  - exists p'. unfold mk_entry in Ee. destruct (_ !! _) eqn:El; [|done]. injection Ee as <-. cbn.
    split; [by left|]. split; [done|]. by eapply lookup_lt_Some.
  - destruct (IH g eq_refl Hin) as (p & Hp & ?). exists p. split; [by right|done].
Qed.

(** The effect of a normal dispatch on every request, and on those of the batch. *)
Lemma dispatch_batch_effect (b : batch) s ws s' ws' :
  length (Batcher.fb_items b) = length (Batcher.fb_metadata b) →
  dispatch_batch b s ws = (s', ws', Ret tt) →
  (∀ r, done (m_future (metas s r)) = true → done (m_future (metas s' r)) = true) ∧
  (∀ r i, is_Some (partial_at (metas s r) i) → is_Some (partial_at (metas s' r) i)) ∧
  (∀ p r, (p, r) ∈ Batcher.batch_pairs b →
     done (m_future (metas s' r)) = true ∨
     is_Some (partial_at (metas s' r) (Z.of_nat (original_index p))) ∧
     ∃ ps, partial_results (metas s' r) = Some ps ∧ length ps ≠ length (req_items (reqs r))) ∧
  batches_processed ws' = batches_processed ws + 1 ∧
  total_tokens_processed ws' = total_tokens_processed ws + Batcher.fb_total_cost b.
Proof.
  intros Hlen. unfold dispatch_batch. destruct (group_by_inference_config b) as [gs|] eqn:Eg; [|done].
  destruct (groups_good b gs Hlen Eg) as (es & Hes & Hgood & Hcov).
  destruct (dispatch_groups gs s ws) as [[s1 ws1] r1] eqn:Ed.
  destruct (dispatch_groups_settled es gs _ _ _ _ _ Hgood Ed) as ([D _ K _ _] & Hb & Ht & Hset).
  destruct r1 as [[]|x]; [|done]. destruct (complete_loop _ _ _) as [m rc] eqn:Ec.
  destruct rc as [[]|x]; [|done]. intros [= <- <-]. cbn [metas batches_processed total_tokens_processed set_metas].
  apply complete_loop_spec in Ec as (Hpr & Hfut & Hdone).
  split; [intros r Hd; destruct (Hfut r) as [->|(_ & o & _ & _ & _ & ->)]; [by rewrite D|done]|].
  split; [intros r i Hk; specialize (K r i Hk); unfold partial_at in *; by rewrite Hpr|]. split; [|lia].
  intros p r Hin. destruct (batch_entries_in _ _ _ _ Hes Hin) as (e & He & Hre & Hie).
  destruct (Hcov e He) as (nk & k & g & Hing & Heg). specialize (Hset eq_refl nk k g e Hing Heg).
  assert (r ∈ Batcher.fb_metadata b) as Hr.
  { unfold Batcher.batch_pairs in Hin. by apply elem_of_zip_r in Hin. }
  destruct (done (m_future (m r))) eqn:Hd; [by left|right].
  destruct Hset as [Hd1|Hk]; rewrite Hre in *.
  { destruct (Hfut r) as [E|(_ & _ & _ & _ & Hpe & _)]; [congruence|by rewrite Hpe in Hd1]. }
  rewrite Hie in Hk. unfold partial_at in *. rewrite Hpr. destruct (partial_results (metas s1 r)) as [ps|] eqn:Ep;
    [|by destruct Hk]. split; [done|]. exists ps. split; [done|]. intros Hl.
  rewrite Hdone in Hd; [done|done|set_solver|]. unfold complete_partials. rewrite Ep, Hl, Nat.eqb_refl. eauto.
Qed.

Lemma complete_loop_done_mono l : ∀ seen m m' out,
  complete_loop l seen m = (m', out) → ∀ r, done (m_future (m r)) = true → done (m_future (m' r)) = true.
Proof.
  induction l as [|q l IH]; intros seen m m' out; cbn [complete_loop]; [by intros [= <- <-]|].
  destruct (decide (q ∈ seen)); [apply IH|]. destruct (complete_partials m q) as [ps|]; [|apply IH].
  destruct (assemble q ps) as [o|]; [|by intros [= <- <-]]. intros H r Hr. apply (IH _ _ _ _ H).
  unfold resolve_one. destruct (done (m_future (m q))) eqn:Hq; [done|].
  rewrite fn_lookup_insert_ne; [done|]. intros ->. congruence.
Qed.

(** However a dispatch ends, finished futures stay finished. *)
Lemma dispatch_batch_done_mono (b : batch) s ws s' ws' out :
  length (Batcher.fb_items b) = length (Batcher.fb_metadata b) →
  dispatch_batch b s ws = (s', ws', out) →
  ∀ r, done (m_future (metas s r)) = true → done (m_future (metas s' r)) = true.
Proof.
  intros Hlen. unfold dispatch_batch. destruct (group_by_inference_config b) as [gs|] eqn:Eg; [|by intros [= <- <- <-]].
  destruct (groups_good b gs Hlen Eg) as (es & Hes & Hgood & _).
  destruct (dispatch_groups gs s ws) as [[s1 ws1] r1] eqn:Ed.
  destruct (dispatch_groups_settled es gs _ _ _ _ _ Hgood Ed) as ([D _ _ _ _] & _).
  destruct r1 as [[]|x]; [|intros [= <- <- <-] r Hr; by rewrite D].
  destruct (complete_loop _ _ _) as [m rc] eqn:Ec.
  destruct rc as [[]|x]; intros [= <- <- <-] r Hr; cbn [metas set_metas];
    (eapply complete_loop_done_mono; [exact Ec|]; by rewrite D).
Qed.

(** A batch that was dispatched settles its requests.  When [_dispatch_batch] returns
    normally, every item of the batch belongs to a request whose future is finished, or
    that item's partial result is stored and other items of the request are still
    missing: no request that has all its results is left pending.  The counters move by
    one batch and by the batch's cost. *)
Theorem dispatch_batch_settles (b : batch) s ws s' ws' :
  length (Batcher.fb_items b) = length (Batcher.fb_metadata b) →
  dispatch_batch b s ws = (s', ws', Ret tt) →
  (∀ p r, (p, r) ∈ Batcher.batch_pairs b →
     done (m_future (metas s' r)) = true ∨
     is_Some (partial_at (metas s' r) (Z.of_nat (original_index p))) ∧
     ∃ ps, partial_results (metas s' r) = Some ps ∧ length ps ≠ length (req_items (reqs r))) ∧
  batches_processed ws' = batches_processed ws + 1 ∧
  total_tokens_processed ws' = total_tokens_processed ws + Batcher.fb_total_cost b.
Proof.
  intros Hlen E. by destruct (dispatch_batch_effect b s ws s' ws' Hlen E) as (_ & _ & ?).
Qed.

Lemma dispatch_groups_returns es gs : ∀ s ws,
  ¬ dev_may_cancel → (∀ nk k g, (nk, (k, g)) ∈ gs → good_group es g) →
  ∃ s' ws', dispatch_groups gs s ws = (s', ws', Ret tt).
Proof.
  intros s ws Hnc. revert s ws. induction gs as [|[nk0 [k0 g0]] gs IH]; intros s ws Hgood; [by eexists _, _|].
  cbn [dispatch_groups]. unfold dispatch_group.
  destruct (run_wevolves es (tail k0) g0 s) as [[_ F _ _ _] _]; [by eapply Hgood; left|].
  set (s1 := default s _) in *.
  assert (∀ l failed, ∃ f, newly_failed l (λ r, done (m_future (metas s r))) failed s1 = Ret f) as Hnf.
  { induction l as [|r l IHl]; intros failed; [by eexists|]. cbn [newly_failed].
    destruct (done (m_future (metas s r))) eqn:Hd; [apply IHl|]. destruct (decide _); [apply IHl|].
    destruct (F r) as [E|[[? _]|[e E]]]; [|done|rewrite E; apply IHl].
    destruct (m_future (metas s1 r)); [apply IHl|apply IHl|apply IHl|]. by rewrite <- E in Hd. }
  destruct (Hnf (e_req <$> g0) ∅) as [f ->]. apply IH. intros; eapply Hgood; by right.
Qed.

Lemma complete_loop_returns l : ∀ seen m,
  (∀ r ps, r ∈ l → complete_partials m r = Some ps → ∃ o, assemble r ps = Ret o) →
  ∃ m', complete_loop l seen m = (m', Ret tt).
Proof.
  induction l as [|r l IH]; intros seen m Has; [by eexists|]. cbn [complete_loop].
  destruct (decide _); [apply IH; intros; eapply Has; [by right|done]|].
  destruct (complete_partials m r) as [ps|] eqn:Ec; [|apply IH; intros; eapply Has; [by right|done]].
  destruct (Has r ps) as [o ->]; [by left|done|]. apply IH. intros q ps' Hq Hc.
  apply (Has q); [by right|]. rewrite <- Hc. unfold complete_partials, resolve_one.
  destruct (done (m_future (m r))); [done|].
  destruct (decide (q = r)) as [->|]; [by rewrite fn_lookup_insert|by rewrite fn_lookup_insert_ne].
Qed.

Section resolves.
Context {laws : ∀ op, Handlers.HandlerLaws O (H := handlers op)}.

(** A stored result that a forward pass produced for a real item of the request. *)
Definition genuine (r : nat) (i : Z) (v : O) : Prop :=
  (∃ j, i = Z.of_nat j ∧ (j < length (req_items (reqs r)))%nat) ∧ ∃ es, wproduced es r i v.

Definition genuine_partials (s : state) (r : nat) : Prop :=
  partials_wf (metas s r) ∧ ∀ i v, partial_at (metas s r) i = Some v → genuine r i v.

(** Forward passes of one request have the same fields. *)
Hypothesis outputs_alike : ∀ r i j v w, genuine r i v → genuine r j w →
  Handlers.alike (OperationHandler := handlers (Handlers.operation (params (reqs r)))) v w.

Lemma genuine_assemble s r ps :
  genuine_partials s r → (0 < length (req_items (reqs r)))%nat → complete_partials (metas s) r = Some ps →
  ∃ o, assemble r ps = Ret o ∧ ∀ i, (i < length (req_items (reqs r)))%nat →
    ∃ v, partial_at (metas s r) (Z.of_nat i) = Some v ∧
      Handlers.slice_output (OperationHandler := handlers (Handlers.operation (params (reqs r)))) o i = Ret v.
Proof.
  intros [Hwf Hgen] Hn. set (n := length (req_items (reqs r))) in *. unfold complete_partials, partials_wf, partial_at in *.
  destruct (partial_results (metas s r)) as [ps'|] eqn:Ep; [|done]. fold n.
  destruct (Nat.eqb_spec (length ps') n) as [Hl|]; [|done]. intros [= ->]. specialize (Hwf ps eq_refl).
  assert (dict_keys ps ≡ₚ Z.of_nat <$> seq 0 n) as Hkeys.
  { apply submseteq_length_Permutation.
    - apply NoDup_submseteq; [done|]. intros k Hk. apply dict_get_is_Some in Hk as [v Hv].
      destruct (Hgen k v Hv) as [(j & -> & Hj) _]. apply list_elem_of_fmap_2, elem_of_seq. lia.
    - unfold dict_keys. rewrite !length_fmap, length_seq. lia. }
  assert (∀ i, (i < n)%nat → is_Some (dict_get (Z.of_nat i) ps)) as Hget.
  { intros i Hi. apply dict_get_is_Some. rewrite Hkeys. apply list_elem_of_fmap_2, elem_of_seq. lia. }
  destruct (Hget 0%nat Hn) as [v0 Hv0].
  set (sl i := default v0 (dict_get (Z.of_nat i) ps)).
  assert (∀ i, (i < n)%nat → dict_get (Z.of_nat i) ps = Some (sl i)) as Hsl.
  { intros i Hi. destruct (Hget i Hi) as [v Hv]. unfold sl. by rewrite Hv. }
  assert (∀ i, (i < n)%nat → genuine r (Z.of_nat i) (sl i)) as Hg by (intros i Hi; by apply Hgen, Hsl).
  destruct (Handlers.assemble_slices (HandlerLaws := laws (Handlers.operation (params (reqs r)))) ps n sl)
    as (o & Ho & Hs); [done|done|done| | |].
  - intros i Hi. destruct (Hg i Hi) as [_ (es & key & g & _ & w & h & k & e & out & _ & _ & _ & _ & _ & Hv)].
    by eapply Handlers.slice_single.
  - intros i j Hi Hj. eapply outputs_alike; by apply Hg.
  - exists o. split; [exact Ho|]. intros i Hi. exists (sl i). auto.
Qed.

Lemma dispatch_batch_ok (b : batch) s ws :
  ¬ dev_may_cancel →
  length (Batcher.fb_items b) = length (Batcher.fb_metadata b) →
  (∀ p r, (p, r) ∈ Batcher.batch_pairs b → (original_index p < length (req_items (reqs r)))%nat) →
  (∀ r, r ∈ Batcher.fb_metadata b → genuine_partials s r) →
  ∃ s' ws', dispatch_batch b s ws = (s', ws', Ret tt) ∧
    (∀ r, genuine_partials s r → genuine_partials s' r) ∧
    ∀ r o, r ∈ Batcher.fb_metadata b → m_future (metas s r) = Pending → m_future (metas s' r) = Resolved o →
      ∀ i, (i < length (req_items (reqs r)))%nat → ∃ v, genuine r (Z.of_nat i) v ∧
        Handlers.slice_output (OperationHandler := handlers (Handlers.operation (params (reqs r)))) o i = Ret v.
Proof.
  intros Hnc Hlen Hidx Hgen. unfold dispatch_batch.
  assert (∃ es, batch_entries (Batcher.batch_pairs b) = Ret es) as [es0 Hes0].
  { revert Hidx. generalize (Batcher.batch_pairs b) as l. induction l as [|[p r] l IH]; intros Hidx; [by eexists|].
    cbn. unfold mk_entry. destruct (lookup_lt_is_Some_2 (req_items (reqs r)) (original_index p)) as [it ->];
      [by apply Hidx; left|]. destruct IH as [es ->]; [intros; apply Hidx; by right|]. by eexists. }
  assert (∃ gs, group_by_inference_config b = Ret gs) as [gs Egs].
  { rewrite (group_fast_path b Hlen), group_loop_entries, Hes0. by eexists. }
  rewrite Egs. destruct (groups_good b gs Hlen Egs) as (es & Hes & Hgood & Hcov).
  destruct (dispatch_groups_returns es gs s ws Hnc Hgood) as (s1 & ws1 & Ed). rewrite Ed.
  destruct (dispatch_groups_settled es gs _ _ _ _ _ Hgood Ed) as ([D F K V Wf] & _).
  assert (∀ r, genuine_partials s r → genuine_partials s1 r) as Hgen1.
  { intros r [Hw Hv]. split; [by apply Wf|]. intros i v [Hp|Hp]%V; [by apply Hv|].
    split; [|by exists es]. destruct Hp as (key & g & Hg & w & h & k & e & out & Hh & _ & Hk & <- & <- & _).
    assert (e ∈ es) as He by (apply Hg, Hh; by eapply list_elem_of_lookup_2).
    destruct (batch_entries_from _ _ _ Hes He) as (p & _ & -> & Hp). eauto. }
  assert (∀ r, r ∈ Batcher.fb_metadata b → (0 < length (req_items (reqs r)))%nat) as Hpos.
  { intros r Hr. apply list_elem_of_lookup in Hr as [k Hk].
    destruct (lookup_lt_is_Some_2 (Batcher.fb_items b) k) as [p Hp]; [rewrite Hlen; by eapply lookup_lt_Some|].
    enough (original_index p < length (req_items (reqs r)))%nat by lia. apply Hidx.
    unfold Batcher.batch_pairs. apply elem_of_lookup_zip_with. by exists k, p, r. }
  destruct (complete_loop_returns (Batcher.fb_metadata b) ∅ (metas s1)) as [m Em].
  { intros r ps Hr Hc. destruct (genuine_assemble s1 r ps) as (o & ? & _); [by apply Hgen1, Hgen|by apply Hpos|done|by exists o]. }
  rewrite Em. eexists _, _. split; [done|]. apply complete_loop_spec in Em as (Hpr & Hfut & _).
  cbn [metas set_metas]. split.
  - intros r Hr. destruct (Hgen1 r Hr) as [Hw Hv]. unfold genuine_partials, partials_wf, partial_at in *.
    cbn [metas set_metas]. by rewrite !Hpr.
  - intros r o Hr Hpe Hre i Hi. destruct (Hfut r) as [E|(ps & o' & Hc & Ha & _ & Hre')].
    + rewrite Hre in E. destruct (F r) as [F'|[[? _]|[e F']]]; congruence.
    + assert (o' = o) as -> by congruence.
      destruct (genuine_assemble s1 r ps) as (o2 & Ho2 & Hsl); [by apply Hgen1, Hgen|by apply Hpos|done|].
      assert (o2 = o) as -> by congruence. destruct (Hsl i Hi) as (v & Hv & Hs). exists v.
      split; [|done]. by apply (proj2 (Hgen1 r (Hgen r Hr))).
Qed.

(** C3 — results come back complete and unmixed.  Assume that no request is cancelled while
    the batch runs, that the batch's slots name items of their requests and the results
    already stored came from forward passes, and that the outputs a forward pass may return
    for the items of one request carry the same fields ([outputs_alike]).  Then
    [_dispatch_batch] returns normally, also when forward passes fail or run out of memory,
    and a pending request it resolves gets an output whose item [i], for every item of the
    request, is a slice that a forward pass produced for that very item: nothing is missing,
    swapped or taken from another request, also when the request's items ran in different
    batches. *)
Theorem dispatch_batch_resolves (b : batch) s ws :
  ¬ dev_may_cancel →
  length (Batcher.fb_items b) = length (Batcher.fb_metadata b) →
  (∀ p r, (p, r) ∈ Batcher.batch_pairs b → (original_index p < length (req_items (reqs r)))%nat) →
  (∀ r, r ∈ Batcher.fb_metadata b → genuine_partials s r) →
  ∃ s' ws', dispatch_batch b s ws = (s', ws', Ret tt) ∧
    (∀ r, r ∈ Batcher.fb_metadata b → genuine_partials s' r) ∧
    ∀ r o, r ∈ Batcher.fb_metadata b → m_future (metas s r) = Pending → m_future (metas s' r) = Resolved o →
      ∀ i, (i < length (req_items (reqs r)))%nat → ∃ v, genuine r (Z.of_nat i) v ∧
        Handlers.slice_output (OperationHandler := handlers (Handlers.operation (params (reqs r)))) o i = Ret v.
Proof.
  intros Hnc Hlen Hidx Hgen. destruct (dispatch_batch_ok b s ws Hnc Hlen Hidx Hgen) as (s' & ws' & E & Hg & H).
  exists s', ws'. split; [done|]. split; [|done]. intros r Hr. by apply Hg, Hgen.
Qed.
End resolves.
End dispatch.

(** ** Concrete batches *)

#[local] Existing Instance Batcher.nat_HasCost.

Abbreviation demo_out := (Handlers.ScoreOutput (Sc := nat)).

Definition demo_handlers (op : Handlers.Op) : Handlers.OperationHandler demo_out := Handlers.score_handler.

Definition demo_laws (op : Handlers.Op) : Handlers.HandlerLaws demo_out (H := demo_handlers op) :=
  Handlers.score_laws.

Definition score_params : Handlers.ReqParams := Handlers.mkParams Handlers.OpScore None None [] false None None.

(** Request 1 has two items, every other request one. *)
Definition demo_reqs (r : nat) : Request (Item := nat) :=
  mkRequest score_params (if (r =? 1)%nat then [0; 1]%nat else [0%nat]).

(** A reranker that scores item [i] of request [r] with [100 * r + i]; [cancelled] are the
    requests other tasks cancel while it runs. *)
Definition demo_device (cancelled : list nat) : device (Item := nat) (Prepared := nat) (O := demo_out) (W := nat) :=
  mkDevice (λ w _ _ g, (S w, cancelled, Ret (Handlers.mkScore
      ((λ e, (100 * e_req e + Z.to_nat (e_index e))%nat) <$> g) (Z.of_nat (length g)) None None)))
    None (λ w, w) (λ w, w) (λ w, (w, [])).

Definition demo_batch : Batcher.FormattedBatch nat nat :=
  Batcher.mkBatch [0; 0; 1]%nat [1; 2; 1]%nat 1.

Definition fresh_state : Executor.state (Slice := demo_out) (R := demo_out) (W := nat) :=
  mkState 0%nat (λ _, mkMeta Pending None) zero_stats [].
Definition zero_wstats : worker_stats := mkWStats 0 0 0 0.

Definition demo_dispatch (cancelled : list nat) :=
  dispatch_batch demo_handlers demo_reqs (demo_device cancelled) "m" Oom.default_config demo_batch
    fresh_state zero_wstats.

Lemma group_fast_path_equiv_witness :
  let b := Batcher.mkBatch [0; 1]%nat [1; 1]%nat 1 in
  group_by_inference_config demo_reqs b = group_loop demo_reqs (Batcher.batch_pairs b) [].
Proof. apply group_fast_path_equiv. reflexivity. Defined.

Lemma group_partition_witness :
  ∃ gs es, group_by_inference_config demo_reqs demo_batch = Ret gs ∧
    batch_entries demo_reqs (Batcher.batch_pairs demo_batch) = Ret es ∧
    (∀ e, e ∈ es → ∃ k g, (entry_key demo_reqs e, (k, g)) ∈ gs ∧ e ∈ g).
Proof.
  destruct (group_by_inference_config demo_reqs demo_batch) as [gs|] eqn:E; [|vm_compute in E; discriminate E].
  destruct (group_partition demo_reqs demo_batch gs) as (es & He & _ & _ & Hc); [reflexivity|exact E|].
  exists gs, es. split; [reflexivity|]. split; [exact He|exact Hc].
Defined.

Lemma dispatch_batch_settles_witness :
  let s' := (demo_dispatch []).1.1 in
  (done (m_future (metas s' 1%nat)) = true ∨
   is_Some (partial_at (metas s' 1%nat) 1) ∧
   ∃ ps, partial_results (metas s' 1%nat) = Some ps ∧ length ps ≠ 2%nat) ∧
  batches_processed (demo_dispatch []).1.2 = 1.
Proof.
  cbv zeta. destruct (demo_dispatch []) as [[s' ws'] out] eqn:E. cbn [fst snd].
  assert (out = Ret tt) as ->.
  { assert ((demo_dispatch []).2 = Ret tt) as H by (vm_compute; reflexivity). rewrite E in H. exact H. }
  destruct (dispatch_batch_settles demo_handlers demo_reqs (demo_device []) "m" Oom.default_config demo_batch
    fresh_state zero_wstats s' ws') as (H & Hb & _); [reflexivity|exact E|].
  split; [|exact Hb]. apply (H 1%nat 1%nat). right. right. left.
Defined.

Lemma demo_outputs_alike r i j v w :
  genuine demo_handlers demo_reqs (demo_device []) r i v →
  genuine demo_handlers demo_reqs (demo_device []) r j w →
  Handlers.alike (OperationHandler := demo_handlers (Handlers.operation (params (demo_reqs r)))) v w.
Proof.
  assert (∀ i v, genuine demo_handlers demo_reqs (demo_device []) r i v →
    Handlers.sc_token_counts v = None ∧ Handlers.sc_image_counts v = None) as Hnone.
  { clear. intros i v [_ (es & key & g & _ & w & h & k & e & out & _ & Ho & _ & _ & _ & Hv)].
    cbn in Ho. injection Ho as <-. revert Hv. cbn. unfold Handlers.score_slice, Handlers.ScoreOutput_init. cbn.
    destruct (negb _); [done|]. by intros [= <-]. }
  intros Hv Hw. destruct (Hnone _ _ Hv) as [E1 E2], (Hnone _ _ Hw) as [E3 E4].
  constructor; by rewrite ?E1, ?E2, ?E3, ?E4.
Qed.

Lemma demo_no_cancel : ¬ dev_may_cancel demo_handlers (demo_device []).
Proof. intros (op & key & [(w & g & H)|[(ev & w & n & t & [=] & _)|(w & H)]]); by apply H. Qed.

Lemma dispatch_batch_resolves_witness :
  ∃ s' ws', demo_dispatch [] = (s', ws', Ret tt) ∧
    ∀ o, m_future (metas s' 1%nat) = Resolved o →
      ∀ i, (i < 2)%nat → ∃ v, genuine demo_handlers demo_reqs (demo_device []) 1 (Z.of_nat i) v ∧
        Handlers.score_slice o i = Ret v.
Proof.
  destruct (dispatch_batch_resolves demo_handlers demo_reqs (demo_device []) "m" Oom.default_config
    (laws := demo_laws) demo_outputs_alike demo_batch fresh_state zero_wstats) as (s' & ws' & E & _ & H).
  - exact demo_no_cancel.
  - reflexivity.
  - intros p r Hin. unfold demo_batch, Batcher.batch_pairs in Hin. cbn in Hin.
    repeat (apply elem_of_cons in Hin as [[= -> ->]|Hin]; [cbn; lia|]). by apply elem_of_nil in Hin.
  - intros r _. split; [intros ps [=]|intros i v [=]].
  - exists s', ws'. split; [exact E|]. intros o Ho. apply (H 1%nat o); [left|reflexivity|exact Ho].
Defined.

(** A cancelled request takes its batch down.  When a client cancels request 2 while
    the forward pass runs, the accounting of [_dispatch_batch] calls
    [future.exception()] on the cancelled future, which raises [CancelledError] past every
    [except Exception]: the dispatch is abandoned before [_complete_requests], and request
    1, whose two results are both there, stays pending for ever. *)
Theorem cancelled_request_loses_siblings :
  let '(s', ws', out) := demo_dispatch [2%nat] in
  out = Raise EscCancelled ∧ m_future (metas s' 2%nat) = Cancelled ∧
  m_future (metas s' 1%nat) = Pending ∧
  length <$> complete_partials demo_reqs (metas s') 1 = Some 2%nat ∧ batches_processed ws' = 0.
Proof. vm_compute. repeat split. Qed.

End Dispatch.
