(* ===== verification/ModelWorker.v ===== *)
(** The life cycle of a model worker: [core/worker/model_worker.py] without the running of
    one batch (see [WorkerDispatch.v]): admission to the per-LoRA batchers, oldest-first
    selection, the bounded drain, the in-flight register and the drain of [stop()].

    One [BatchFormer] per LoRA, the base model under the key [None], all sharing one
    [BatchConfig].  Requests are identified by the identity of their metadata object.
    The sections between two awaits are atomic; a definition models such a section, and
    [worker_step] interleaves them: [loop_state] says where the processing loop is
    suspended, the batch configuration may be another one at every step because the
    adaptive controller changes it, and [stop] takes two steps, the cancellation of the
    loop and [_fail_queued_requests], between which sidecar tasks may run.  The invariant
    is [live] while the worker runs and [stopping] afterwards. *)

From stdpp Require Import functions gmap strings.
From S2P Require Import Prelude PyFloat PyDict Batcher Oom OomRecovery Handlers WorkerDispatch.
Local Open Scope Z_scope.

Module Worker.
Import Executor.

Section worker.
Context {Prepared : Type} `{!HasCost Prepared}.
Abbreviation former := (Batcher.BatchFormer (I := Prepared) (T := nat)).
Abbreviation fbatch := (Batcher.FormattedBatch Prepared nat).

(** [_InFlightBatch]; a task is named by a number *)
Record Registration := mkReg {
  token : nat;
  reg_metadata : list nat;
  owner : option nat;
  orphaned : bool;
}.

(** What [is_abandoned] asks of a task: [done()] and [cancelling()]. *)
Record task_state := mkTask { task_done : bool; cancelling : Z }.

(** [_InFlightBatch.is_abandoned] *)
Definition is_abandoned (tasks : nat → task_state) (reg : Registration) : bool :=
  if orphaned reg then true
  else match owner reg with
       | None => true
       | Some t => task_done (tasks t) || (0 <? cancelling (tasks t))
       end.

(** The part of [WorkerConfig] used here. *)
Record WorkerConfig := mkWorkerConfig { max_queue_size : Z; idle_coalesce_ms : float }.

Record worker := mkWorker {
  running : bool;
  batchers : list (option string * former);
  in_flight : list (nat * Registration);
  in_flight_seq : nat;
  loop_started : bool;        (* self._process_task is not None *)
}.

(** [__init__] and [start] *)
Definition init_worker : worker := mkWorker false [(None, Batcher.init_former)] [] 0 false.
Definition start (w : worker) : worker :=
  mkWorker true (batchers w) (in_flight w) (in_flight_seq w) (loop_started w).

Definition set_batchers (w : worker) (bs : list (option string * former)) : worker :=
  mkWorker (running w) bs (in_flight w) (in_flight_seq w) (loop_started w).
Definition set_in_flight (w : worker) (l : list (nat * Registration)) : worker :=
  mkWorker (running w) (batchers w) l (in_flight_seq w) (loop_started w).

(** [pending_count] *)
Definition pending_count (w : worker) : Z := sumZ Batcher.pending_count (dict_values (batchers w)).

(** ** Admission *)

Inductive submit_error :=
  | NotRunning                                        (* RuntimeError *)
  | QueueFullError (pending requested limit : Z).

(** [_check_queue_capacity] *)
Definition check_queue_capacity (cfg : WorkerConfig) (w : worker) (n_items : Z) : res submit_error unit :=
  if negb (running w) then Raise NotRunning
  else if 0 <? max_queue_size cfg then
    let new_count := pending_count w + n_items in
    if max_queue_size cfg <? new_count
    then Raise (QueueFullError (pending_count w) n_items (max_queue_size cfg))
    else Ret tt
  else Ret tt.

(** [_get_batcher]: the batcher, created when missing *)
Definition get_batcher (w : worker) (lora : option string) : worker * former :=
  match dict_get lora (batchers w) with
  | Some f => (w, f)
  | None => (set_batchers w (dict_set lora Batcher.init_former (batchers w)), Batcher.init_former)
  end.

(** The clock readings of one [_append_item]. *)
Abbreviation clocks := (float * float * Batcher.readings)%type.

(** [_ensure_process_loop_started] *)
Definition ensure_process_loop_started (w : worker) : worker :=
  mkWorker (running w) (batchers w) (in_flight w) (in_flight_seq w) true.

(** [_submit_to_batcher]; [r] is the metadata of the request.  Nothing awaits in between:
    the batcher's lock is never held across an await. *)
Definition submit_to_batcher (bcfg : Batcher.BatchConfig) (w : worker) (r : nat)
    (lora : option string) (prepared : list (Prepared * clocks)) : worker :=
  let '(w1, f) := get_batcher w lora in
  let f' := Batcher.submit_many bcfg f ((λ '(p, c), (p, r, c)) <$> prepared) in
  ensure_process_loop_started (set_batchers w1 (dict_set lora f' (batchers w1))).

(** [submit], [submit_extract] and [submit_score] up to the returned future: the capacity
    check comes before anything is created. *)
Definition submit (cfg : WorkerConfig) (bcfg : Batcher.BatchConfig) (w : worker) (r : nat)
    (lora : option string) (prepared : list (Prepared * clocks)) : worker * res submit_error unit :=
  match check_queue_capacity cfg w (Z.of_nat (length prepared)) with
  | Raise e => (w, Raise e)
  | Ret _ => (submit_to_batcher bcfg w r lora prepared, Ret tt)
  end.

(** [options.get("lora") if options else None]; scoring always uses the base model.  The
    option is a string or absent. *)
Definition submit_lora (m : Handlers.ReqParams) : option string :=
  match Handlers.operation m with
  | Handlers.OpScore => None
  | _ => match Handlers.lora_value m with Handlers.VStr s => Some s | _ => None end
  end.

(** ** Selection *)

(** The [for lora, batcher in self._batchers.items()] loop of [_get_next_batch_fcfs]. *)
Fixpoint fcfs_loop (bs : list (option string * former)) (oldest_lora : option string) (oldest_time : float)
    : option string * float :=
  match bs with
  | [] => (oldest_lora, oldest_time)
  | (lora, f) :: bs' =>
      if 0 <? Batcher.pending_count f then
        match Batcher.first_request_time f with
        | Some t => if flt t oldest_time then fcfs_loop bs' lora t
                    else fcfs_loop bs' oldest_lora oldest_time
        | None => fcfs_loop bs' oldest_lora oldest_time
        end
      else fcfs_loop bs' oldest_lora oldest_time
  end.

(** [oldest_lora is not None or (oldest_lora is None and self._batchers[None].pending_count > 0)] *)
Definition select_fcfs (bs : list (option string * former)) : option (option string) :=
  match (fcfs_loop bs None finf).1 with
  | Some lora => Some (Some lora)
  | None =>
      match dict_get None bs with
      | Some f => if 0 <? Batcher.pending_count f then Some None else None
      | None => None
      end
  end.

(** One poll of the selected batcher by [_get_next_batch_fcfs]. *)
Definition poll_selected (cfg : WorkerConfig) (bcfg : Batcher.BatchConfig) (was_idle : bool)
    (f : former) (ts : Batcher.readings) : former * option fbatch :=
  if was_idle && flt f0 (idle_coalesce_ms cfg)
  then Batcher.get_batch_poll bcfg f false (Some (idle_coalesce_ms cfg)) ts
  else Batcher.get_batch_poll bcfg f was_idle None ts.

(** ** The bounded drain *)

(** [_drain_active_batcher]: [arrivals i] are the requests that other tasks submit to this
    batcher while the [i]-th drained batch runs.  The result lists the drained batches. *)
Fixpoint drain_loop (fuel : nat) (bcfg : Batcher.BatchConfig) (f : former) (drain_budget : Z)
    (arrivals : nat → list (Prepared * nat * clocks)) (i : nat) : option (former * list fbatch) :=
  match fuel with
  | O => None
  | S fuel' =>
      if 0 <? drain_budget then
        match Batcher.try_drain bcfg f (Some drain_budget) with
        | (f1, None) => Some (f1, [])
        | (f1, Some b) =>
            if Batcher.batch_size b =? 0 then Some (f1, [])
            else
              match drain_loop fuel' bcfg (Batcher.submit_many bcfg f1 (arrivals i))
                      (drain_budget - Batcher.batch_size b) arrivals (S i) with
              | None => None
              | Some (f2, bs) => Some (f2, b :: bs)
              end
        end
      else Some (f, [])
  end.

Definition drain_active_batcher (bcfg : Batcher.BatchConfig) (f : former)
    (arrivals : nat → list (Prepared * nat * clocks)) : option (former * list fbatch) :=
  let drain_budget := Batcher.pending_count f in
  drain_loop (S (length (Batcher.pending f))) bcfg f drain_budget arrivals 0.

(** ** In-flight batches *)

(** [_register_in_flight] *)
Definition register_in_flight (w : worker) (b : fbatch) (task : option nat) : worker * Registration :=
  let tok := S (in_flight_seq w) in
  let reg := mkReg tok (Batcher.fb_metadata b) task false in
  (mkWorker (running w) (batchers w) (dict_set tok reg (in_flight w)) tok (loop_started w), reg).

(** [_process_batch] after [_dispatch_batch]: how it ended decides who owns the futures. *)
Inductive dispatch_end := EndNormal | EndError | EndCancelled.

Definition process_batch_exit (w : worker) (tok : nat) (how : dispatch_end) : worker :=
  match how with
  | EndCancelled =>
      if negb (running w) then
        match dict_get tok (in_flight w) with
        | Some reg => set_in_flight w (dict_set tok (mkReg (token reg) (reg_metadata reg) (owner reg) true) (in_flight w))
        | None => w
        end
      else set_in_flight w (dict_del tok (in_flight w))
  | _ => set_in_flight w (dict_del tok (in_flight w))
  end.

(** [_take_abandoned_in_flight] *)
Definition take_abandoned (tasks : nat → task_state) (w : worker) : worker * list Registration :=
  let abandoned := List.filter (is_abandoned tasks) (dict_values (in_flight w)) in
  (set_in_flight w (foldl (λ d reg, dict_del (token reg) d) (in_flight w) abandoned), abandoned).

(** ** Failing what is left *)

Section futures.
Context {R : Type} (drained : Oom.exn).   (* the WorkerDrainedError *)
Abbreviation futures := (nat → future R).

(** [_fail_one] *)
Definition fail_one (fs : futures) (seen : gset nat) (r : nat) : futures * gset nat * Z :=
  if decide (r ∈ seen) then (fs, seen, 0)
  else if done (fs r) then (fs, {[r]} ∪ seen, 0)
  else (<[r := Failed drained]> fs, {[r]} ∪ seen, 1).

Fixpoint fail_each (l : list nat) (fs : futures) (seen : gset nat) (failed : Z) : futures * gset nat * Z :=
  match l with
  | [] => (fs, seen, failed)
  | r :: l' => let '(fs1, seen1, k) := fail_one fs seen r in fail_each l' fs1 seen1 (failed + k)
  end.

(** [_fail_queued_requests] *)
Definition fail_queued_requests (tasks : nat → task_state) (w : worker) (fs : futures)
    : worker * futures * Z :=
  let queued := mjoin ((λ f, (Batcher.drain_pending f).2) <$> dict_values (batchers w)) in
  let w1 := set_batchers w ((λ e, (e.1, (Batcher.drain_pending e.2).1)) <$> batchers w) in
  let '(fs1, seen1, failed1) := fail_each queued fs ∅ 0 in
  let '(w2, abandoned) := take_abandoned tasks w1 in
  let '(fs2, _, failed2) := fail_each (mjoin (reg_metadata <$> abandoned)) fs1 seen1 failed1 in
  (w2, fs2, failed2).
End futures.

(** ** Admission keeps the queue bounded *)

Lemma pending_count_set w lora f g :
  dict_get lora (batchers w) = Some g →
  pending_count (set_batchers w (dict_set lora f (batchers w))) =
  pending_count w + Batcher.pending_count f - Batcher.pending_count g.
Proof.
  intros E. unfold pending_count. cbn [batchers set_batchers]. rewrite !sumZ_dict_values.
  rewrite (sumZ_dict_set _ lora g f) by done. cbn [snd]. lia.
Qed.

Lemma get_batcher_spec w lora w1 f :
  dict_wf (batchers w) → get_batcher w lora = (w1, f) →
  dict_wf (batchers w1) ∧ dict_get lora (batchers w1) = Some f ∧ pending_count w1 = pending_count w ∧
  running w1 = running w ∧ in_flight w1 = in_flight w ∧ in_flight_seq w1 = in_flight_seq w ∧
  (∀ k g, k ≠ lora → dict_get k (batchers w1) = Some g ↔ dict_get k (batchers w) = Some g) ∧
  f = default Batcher.init_former (dict_get lora (batchers w)).
Proof.
  intros Hwf. unfold get_batcher. destruct (dict_get lora (batchers w)) as [g|] eqn:E.
  - by intros [= <- <-].
  - intros [= <- <-]. cbn [batchers set_batchers running in_flight in_flight_seq].
    split; [by apply dict_set_wf|]. split; [by rewrite dict_get_set, decide_True|].
    split; [|split; [done|split; [done|split; [done|split; [|done]]]]].
    + unfold pending_count. cbn [batchers set_batchers]. rewrite !sumZ_dict_values.
      rewrite dict_set_fresh by by apply dict_get_None. rewrite sumZ_app, sumZ_cons, sumZ_nil.
      change (Batcher.pending_count (lora, Batcher.init_former).2) with 0. lia.
    + intros k g Hk. rewrite dict_get_set, decide_False by done. done.
Qed.

Lemma submit_many_count bcfg l : ∀ f : former,
  Batcher.pending_count (Batcher.submit_many bcfg f l) = Batcher.pending_count f + Z.of_nat (length l).
Proof.
  induction l as [|[[p r] [[a n] ts]] l IH]; intros f; [cbn; lia|].
  cbn [Batcher.submit_many foldl]. unfold Batcher.submit_many in IH. rewrite IH.
  unfold Batcher.pending_count. rewrite Batcher.append_item_pending, length_app. cbn. lia.
Qed.

(** The queue bound holds.  A request is accepted exactly when the worker runs and,
    if a limit is configured, its items fit; then the total number of queued items grows by
    the request's items and stays within the limit.  A rejected request changes nothing,
    and the error tells the pressure apart from a request that can never fit. *)
Theorem submit_bounded cfg bcfg w r lora prepared :
  dict_wf (batchers w) →
  let n := Z.of_nat (length prepared) in
  let '(w', out) := submit cfg bcfg w r lora prepared in
  match out with
  | Ret _ => running w = true ∧ dict_wf (batchers w') ∧ loop_started w' = true ∧
      in_flight w' = in_flight w ∧ pending_count w' = pending_count w + n ∧
      (0 < max_queue_size cfg → pending_count w' <= max_queue_size cfg)
  | Raise NotRunning => w' = w ∧ running w = false
  | Raise (QueueFullError p q l) => w' = w ∧ p = pending_count w ∧ q = n ∧ l = max_queue_size cfg ∧
      0 < l < p + q
  end.
Proof.
  intros Hwf. cbv zeta. unfold submit, submit_to_batcher, check_queue_capacity.
  destruct (running w) eqn:Er; cbn [negb]; [|done].
  destruct (Z.ltb_spec 0 (max_queue_size cfg)) as [Hm|Hm].
  1: destruct (Z.ltb_spec (max_queue_size cfg) (pending_count w + Z.of_nat (length prepared))) as [Hf|Hf];
     [repeat split; lia|].
  all: destruct (get_batcher w lora) as [w1 f] eqn:Eg;
    destruct (get_batcher_spec _ _ _ _ Hwf Eg) as (Hwf1 & Hfg & Hpc & Hr & Hif & _).
  all: pose proof (submit_many_count bcfg ((λ '(p, c), (p, r, c)) <$> prepared) f) as Hc; rewrite length_fmap in Hc.
  all: pose proof (pending_count_set w1 lora (Batcher.submit_many bcfg f ((λ '(p, c), (p, r, c)) <$> prepared)) f Hfg) as Hp.
  all: unfold pending_count in Hp, Hpc |- *; cbn [batchers set_batchers loop_started in_flight ensure_process_loop_started] in *.
  all: split; [done|]; split; [by apply dict_set_wf|]; split; [done|]; split; [exact Hif|]; split; [|intros ?].
  all: try unfold pending_count in Hf; lia.
Qed.

(** ** Oldest first *)

(** A batcher as [Batcher.v] keeps it: it has a first-request time exactly when it has
    pending requests, and clock readings are finite. *)
Definition timed (f : former) : Prop :=
  Batcher.pending f ≠ [] → ∃ t, Batcher.first_request_time f = Some t ∧ flt t finf = true.

Lemma pending_pos (f : former) : (0 <? Batcher.pending_count f) = true ↔ Batcher.pending f ≠ [].
Proof.
  unfold Batcher.pending_count. rewrite Z.ltb_lt. destruct (Batcher.pending f); cbn; split; [lia|done|done|lia].
Qed.

(** What the loop has found so far: nothing, or the batcher with the least time. *)
Lemma fcfs_loop_spec bs : ∀ l0 t0,
  Forall (λ e, timed e.2) bs →
  let '(l, t) := fcfs_loop bs l0 t0 in
  ((l, t) = (l0, t0) ∨ ∃ f, (l, f) ∈ bs ∧ Batcher.pending f ≠ [] ∧ Batcher.first_request_time f = Some t ∧
     flt t t0 = true) ∧
  (∀ k g u, (k, g) ∈ bs → Batcher.pending g ≠ [] → Batcher.first_request_time g = Some u → flt u t = false) ∧
  (t = t0 ∨ flt t t0 = true).
Proof.
  assert (∀ x, flt x x = false) as Hirr.
  { intros x. apply not_true_is_false. intros H. pose proof (flt_fle_trans _ _ _ H (flt_fle _ _ H)). fkeys. lia. }
  assert (∀ x y z, flt x y = true → flt y z = true → flt x z = true) as Htr.
  { intros x y z H1 H2. eapply flt_fle_trans; [exact H1|by apply flt_fle]. }
  induction bs as [|[k f] bs IH]; intros l0 t0 HF; cbn [fcfs_loop].
  { split; [by left|]. split; [by intros ??? ?%elem_of_nil|by left]. }
  inversion HF as [|?? Hf HF']; subst. cbn in Hf.
  destruct (0 <? Batcher.pending_count f) eqn:Ep.
  - apply pending_pos in Ep. destruct (Hf Ep) as (t & Et & _). rewrite Et. destruct (flt t t0) eqn:Elt.
    + specialize (IH k t HF'). destruct (fcfs_loop bs k t) as [l u]. destruct IH as (H1 & H2 & H3). split; [|split].
      * right. destruct H1 as [[= -> ->]|(f' & Hin & Hp & Hu & Hlt)].
        { exists f. repeat split; [by left|done..]. }
        { exists f'. repeat split; [by right|done|done|by eapply Htr]. }
      * intros k' g v [[= -> ->]|Hin]%elem_of_cons Hp Hv; [|by eapply H2].
        rewrite Et in Hv. injection Hv as <-. destruct H3 as [->|H3]; [apply Hirr|].
        apply not_true_is_false. intros H. pose proof (Htr _ _ _ H3 H) as Hc. by rewrite Hirr in Hc.
      * right. destruct H3 as [->|H3]; [done|by eapply Htr].
    + specialize (IH l0 t0 HF'). destruct (fcfs_loop bs l0 t0) as [l u]. destruct IH as (H1 & H2 & H3). split; [|split].
      * destruct H1 as [?|(f' & Hin & ?)]; [by left|right]. exists f'. split; [by right|done].
      * intros k' g v [[= -> ->]|Hin]%elem_of_cons Hp Hv; [|by eapply H2].
        rewrite Et in Hv. injection Hv as <-. destruct H3 as [->|H3]; [done|].
        apply not_true_is_false. intros H. pose proof (Htr _ _ _ H H3). congruence.
      * done.
  - specialize (IH l0 t0 HF'). destruct (fcfs_loop bs l0 t0) as [l u]. destruct IH as (H1 & H2 & H3). split; [|split; [|done]].
    + destruct H1 as [?|(f' & Hin & ?)]; [by left|right]. exists f'. split; [by right|done].
    + intros k' g v [[= -> ->]|Hin]%elem_of_cons Hp; [|by eapply H2].
      apply pending_pos in Hp. congruence.
Qed.

(** First come, first served across LoRAs.  A batcher is selected exactly when some
    batcher has pending requests; the selected one has pending requests, and no batcher
    with pending requests has an older first request.  The special case of the base
    model, whose key is [None] like "nothing found", loses no selection. *)
Theorem select_fcfs_oldest bs :
  dict_wf bs → is_Some (dict_get None bs) → Forall (λ e, timed e.2) bs →
  match select_fcfs bs with
  | None => Forall (λ e, Batcher.pending e.2 = []) bs
  | Some lora => ∃ f t, dict_get lora bs = Some f ∧ Batcher.pending f ≠ [] ∧
      Batcher.first_request_time f = Some t ∧
      ∀ k g u, (k, g) ∈ bs → Batcher.pending g ≠ [] → Batcher.first_request_time g = Some u → flt u t = false
  end.
Proof.
  intros Hwf [f0 Hf0] HF. unfold select_fcfs.
  pose proof (fcfs_loop_spec bs None finf HF) as Hspec. destruct (fcfs_loop bs None finf) as [l t].
  destruct Hspec as (H1 & H2 & _). cbn [fst].
  assert (∀ k g, (k, g) ∈ bs → Batcher.pending g ≠ [] → ∃ u, Batcher.first_request_time g = Some u ∧ flt u finf = true) as Ht.
  { intros k g Hin Hp. rewrite Forall_forall in HF. apply (HF _ Hin Hp). }
  destruct H1 as [[= -> ->]|(f & Hin & Hp & Hft & _)].
  - rewrite Hf0. destruct (0 <? Batcher.pending_count f0) eqn:E0.
    + apply pending_pos in E0. apply dict_get_Some_elem in Hf0. destruct (Ht _ _ Hf0 E0) as (u & Hu & Hlt).
      exfalso. specialize (H2 _ _ _ Hf0 E0 Hu). congruence.
    + rewrite Forall_forall. intros [k g] Hin. cbn. destruct (Batcher.pending g) as [|x l] eqn:Eg; [done|].
      exfalso. assert (Batcher.pending g ≠ []) as Hne by (by rewrite Eg). destruct (Ht _ _ Hin Hne) as (u & Hu & Hlt).
      specialize (H2 _ _ _ Hin Hne Hu). congruence.
  - destruct l as [lora|].
    + exists f, t. split; [by apply dict_elem_get|]. done.
    + pose proof (dict_elem_get _ _ _ Hwf Hin) as Hg. rewrite Hg. rewrite (proj2 (pending_pos f) Hp).
      exists f, t. done.
Qed.

(** ** The drain is bounded by the backlog *)

Lemma try_drain_size bcfg (f f1 : former) m b :
  0 < m → Batcher.try_drain bcfg f (Some m) = (f1, Some b) →
  1 <= Batcher.batch_size b <= m ∧
  Batcher.pending_count f1 = Batcher.pending_count f - Batcher.batch_size b.
Proof.
  intros Hm. unfold Batcher.try_drain. destruct (Batcher.pending f) as [|x l] eqn:Ep; [done|].
  destruct (Batcher.extract_batch_split bcfg f (Some m)) as (n & [Hlen Hit _ _ Hst] & Hfb & Hp & _).
  destruct (Batcher.extract_batch bcfg f (Some m)) as [f2 b2]. cbn in Hfb, Hp. intros [= <- <-].
  assert (length (Batcher.sort_pending (Batcher.pending f)) = length (Batcher.pending f)) as Hls
    by apply Batcher.length_sort_pending.
  assert (Batcher.batch_size b2 = Z.of_nat n) as ->.
  { rewrite Hfb. unfold Batcher.batch_size. cbn. rewrite length_fmap, length_take. lia. }
  unfold Batcher.pending_count. rewrite Hp, length_drop, Hls. specialize (Hit m eq_refl). cbn in Hit.
  rewrite Ep in *. cbn [length] in *. split; [|lia]. split; [|lia].
  destruct Hst as [Hst|[(m' & [= <-] & Hst)|[[Hst _]|[Hst _]]]]; cbn [length Nat.add] in Hst; lia.
Qed.

Lemma drain_loop_spec bcfg arrivals : ∀ fuel (f : former) budget i,
  0 <= budget <= Batcher.pending_count f → budget < Z.of_nat fuel →
  ∃ f' bs, drain_loop fuel bcfg f budget arrivals i = Some (f', bs) ∧
    sumZ Batcher.batch_size bs = budget ∧ Forall (λ b, 1 <= Batcher.batch_size b) bs ∧
    Batcher.pending_count f' = Batcher.pending_count f - budget +
      sumZ (λ j, Z.of_nat (length (arrivals j))) (seq i (length bs)).
Proof.
  induction fuel as [|fuel IH]; intros f budget i Hb Hfuel; [lia|]. cbn [drain_loop].
  destruct (Z.ltb_spec 0 budget) as [Hpos|].
  2:{ exists f, []. split; [done|]. cbn [length seq]. rewrite !sumZ_nil. split; [lia|]. split; [constructor|]. lia. }
  destruct (Batcher.try_drain bcfg f (Some budget)) as [f1 [b|]] eqn:Et.
  2:{ unfold Batcher.try_drain in Et. unfold Batcher.pending_count in Hb.
    destruct (Batcher.pending f); [cbn in Hb; lia|]. by destruct (Batcher.extract_batch _ _ _). }
  destruct (try_drain_size _ _ _ _ _ Hpos Et) as [Hsz Hpc].
  destruct (Z.eqb_spec (Batcher.batch_size b) 0); [lia|].
  pose proof (submit_many_count bcfg (arrivals i) f1) as Hsub.
  destruct (IH (Batcher.submit_many bcfg f1 (arrivals i)) (budget - Batcher.batch_size b) (S i))
    as (f' & bs & -> & Hsum & HF & Hpend); [lia|lia|].
  exists f', (b :: bs). split; [done|]. rewrite sumZ_cons. split; [lia|]. split; [constructor; [lia|done]|].
  cbn [length seq]. rewrite sumZ_cons. lia.
Qed.

(** The drain takes exactly the backlog.  Whatever is submitted to the batcher while
    the drained batches run, [_drain_active_batcher] terminates, it processes non-empty
    batches whose sizes add up to the backlog it found at entry, and what arrived in
    between is left for the next selection: a saturated LoRA cannot starve the others. *)
Theorem drain_takes_backlog bcfg (f : former) arrivals :
  ∃ f' bs, drain_active_batcher bcfg f arrivals = Some (f', bs) ∧
    sumZ Batcher.batch_size bs = Batcher.pending_count f ∧ Forall (λ b, 1 <= Batcher.batch_size b) bs ∧
    Batcher.pending_count f' = sumZ (λ j, Z.of_nat (length (arrivals j))) (seq 0 (length bs)).
Proof.
  unfold drain_active_batcher.
  destruct (drain_loop_spec bcfg arrivals (S (length (Batcher.pending f))) f (Batcher.pending_count f) 0)
    as (f' & bs & -> & ? & ? & ?); [unfold Batcher.pending_count; lia..|].
  exists f', bs. split; [done|]. split; [done|]. split; [done|lia].
Qed.

(** ** Failing what is left *)

Section drain_futures.
Context {R : Type} (drained : Oom.exn).

Lemma fail_each_spec l : ∀ (fs : nat → future R) seen n fs' seen' n',
  fail_each drained l fs seen n = (fs', seen', n') →
  seen' = list_to_set l ∪ seen ∧
  (∀ r, fs' r = if bool_decide (r ∈ l ∧ r ∉ seen ∧ done (fs r) = false) then Failed drained else fs r) ∧
  n' = n + Z.of_nat (size (filter (λ r, done (fs r) = false) (list_to_set l ∖ seen))).
Proof.
  induction l as [|r l IH]; intros fs seen n fs' seen' n'; cbn [fail_each].
  { intros [= <- <- <-]. split; [set_solver|]. split.
    - intros r. rewrite bool_decide_false; [done|]. set_solver.
    - cbn. replace (filter (λ r, done (fs r) = false) (∅ ∖ seen)) with (∅ : gset nat) by set_solver.
      rewrite size_empty. lia. }
  unfold fail_one. destruct (decide (r ∈ seen)) as [Hs|Hs]; [|destruct (done (fs r)) eqn:Hd].
  - intros H. apply IH in H as (-> & Hf & ->). split; [set_solver|]. split.
    + intros q. rewrite Hf. erewrite bool_decide_ext; [done|]. set_solver.
    + assert (list_to_set (r :: l) ∖ seen = (list_to_set l ∖ seen : gset nat)) as -> by set_solver. lia.
  - intros H. apply IH in H as (-> & Hf & ->). split; [set_solver|]. split.
    + intros q. rewrite Hf. erewrite bool_decide_ext; [done|].
      destruct (decide (q = r)) as [->|]; [|set_solver]. rewrite Hd. naive_solver.
    + assert (filter (λ q, done (fs q) = false) (list_to_set l ∖ ({[r]} ∪ seen)) =
        filter (λ q, done (fs q) = false) (list_to_set (r :: l) ∖ seen : gset nat)) as ->; [|lia].
      apply set_eq. intros q. rewrite !elem_of_filter, !elem_of_difference.
      destruct (decide (q = r)) as [->|]; [|set_solver]. rewrite Hd. naive_solver.
  - intros H. apply IH in H as (-> & Hf & ->). split; [set_solver|]. split.
    + intros q. rewrite Hf. destruct (decide (q = r)) as [->|Hne].
      * rewrite fn_lookup_insert. rewrite bool_decide_false by set_solver.
        rewrite bool_decide_true; [done|]. split; [by left|done].
      * rewrite fn_lookup_insert_ne by done. erewrite bool_decide_ext; [done|]. set_solver.
    + assert (filter (λ q, done (fs q) = false) (list_to_set (r :: l) ∖ seen) =
        {[r]} ∪ filter (λ q, done ((<[r := Failed drained]> fs) q) = false) (list_to_set l ∖ ({[r]} ∪ seen) : gset nat)) as ->.
      { apply set_eq. intros q. rewrite elem_of_union, !elem_of_filter, !elem_of_difference, elem_of_singleton.
        destruct (decide (q = r)) as [->|Hne]; [set_solver|]. rewrite fn_lookup_insert_ne by done. set_solver. }
      rewrite size_union, size_singleton; [lia|].
      intros q ->%elem_of_singleton (_ & Hq)%elem_of_filter. set_solver.
Qed.

(** The in-flight register: one entry per token. *)
Definition register_wf (w : worker) : Prop :=
  dict_wf (in_flight w) ∧ Forall (λ e, token e.2 = e.1) (in_flight w).

(** The requests queued in any batcher. *)
Definition queued (w : worker) : list nat :=
  mjoin ((λ f, Batcher.pr_metadata <$> Batcher.pending f) <$> dict_values (batchers w)).

(** The requests of registrations that nothing will complete. *)
Definition abandoned (tasks : nat → task_state) (w : worker) : list nat :=
  mjoin (reg_metadata <$> List.filter (is_abandoned tasks) (dict_values (in_flight w))).

Lemma del_tokens (l : list Registration) : ∀ d : list (nat * Registration), dict_wf d →
  foldl (λ d reg, dict_del (token reg) d) d l = filter (λ e, e.1 ∉ token <$> l) d.
Proof.
  induction l as [|reg l IH]; intros d Hwf; cbn [foldl].
  - induction d as [|e d IHd]; [done|]. rewrite filter_cons_True by apply not_elem_of_nil. f_equal.
    apply IHd. by apply NoDup_cons in Hwf as [_ ?].
  - rewrite IH by by apply dict_del_wf. rewrite dict_del_filter by done. rewrite list_filter_filter.
    apply list_filter_iff. intros e. cbn. rewrite not_elem_of_cons. naive_solver.
Qed.

Lemma take_abandoned_spec tasks w : register_wf w →
  in_flight (take_abandoned tasks w).1 = filter (λ e, is_abandoned tasks e.2 = false) (in_flight w).
Proof.
  intros [Hwf Htok]. cbn. rewrite del_tokens by done. apply filter_ext_elem.
  intros [k reg] Hin. cbn. rewrite Forall_forall in Htok. pose proof (Htok _ Hin) as Hk.
  cbn in Hk. subst k. rewrite list_elem_of_fmap. split.
  - intros Hn. apply not_true_is_false. intros Ha. apply Hn. exists reg. split; [done|].
    apply list_elem_of_In, filter_In. split; [|done]. apply list_elem_of_In. by apply (list_elem_of_fmap_2 snd) in Hin.
  - intros Ha (reg' & Ht & Hr). apply list_elem_of_In, filter_In in Hr as [Hr Ha'].
    apply list_elem_of_In in Hr. apply list_elem_of_fmap in Hr as ([k' reg2] & Hr2 & Hin2). cbn in Hr2. subst reg2.
    pose proof (Htok _ Hin2) as Hk'. cbn in Hk'. subst k'. rewrite <- Ht in Hin2.
    apply dict_elem_get in Hin; [|done]. apply dict_elem_get in Hin2; [|done]. congruence.
Qed.

Definition drain_batchers (w : worker) : worker :=
  set_batchers w ((λ e, (e.1, (Batcher.drain_pending e.2).1)) <$> batchers w).

Lemma fail_each_app l1 l2 (fs : nat → future R) seen n :
  fail_each drained (l1 ++ l2) fs seen n =
  let '(fs1, seen1, n1) := fail_each drained l1 fs seen n in fail_each drained l2 fs1 seen1 n1.
Proof.
  revert fs seen n. induction l1 as [|r l1 IH]; intros fs seen n; [done|]. cbn.
  destruct (fail_one drained fs seen r) as [[fs1 seen1] k]. apply IH.
Qed.

Lemma fail_queued_eq tasks w (fs : nat → future R) :
  let owed := queued w ++ abandoned tasks w in
  let '(w', fs', n) := fail_queued_requests drained tasks w fs in
  w' = (take_abandoned tasks (drain_batchers w)).1 ∧
  (∀ r, fs' r = if bool_decide (r ∈ owed ∧ done (fs r) = false) then Failed drained else fs r) ∧
  n = Z.of_nat (size (filter (λ r, done (fs r) = false) (list_to_set owed : gset nat))).
Proof.
  cbv zeta. unfold fail_queued_requests.
  change (mjoin ((λ f, (Batcher.drain_pending f).2) <$> dict_values (batchers w))) with (queued w).
  change (set_batchers w ((λ e, (e.1, (Batcher.drain_pending e.2).1)) <$> batchers w)) with (drain_batchers w).
  assert (mjoin (reg_metadata <$> (take_abandoned tasks (drain_batchers w)).2) = abandoned tasks w) as Hab by done.
  destruct (take_abandoned tasks (drain_batchers w)) as [w2 ab]. cbn [fst snd] in *. rewrite Hab.
  pose proof (fail_each_app (queued w) (abandoned tasks w) fs ∅ 0) as Happ.
  destruct (fail_each drained (queued w) fs ∅ 0) as [[fs1 seen1] n1].
  destruct (fail_each drained (abandoned tasks w) fs1 seen1 n1) as [[fs2 seen2] n2].
  destruct (fail_each_spec _ _ _ _ _ _ _ Happ) as (_ & Hf & ->). split; [done|]. split.
  - intros r. rewrite Hf. erewrite bool_decide_ext; [done|]. set_solver.
  - rewrite difference_empty_L. lia.
Qed.

Lemma queued_drained tasks w : queued (take_abandoned tasks (drain_batchers w)).1 = [].
Proof. unfold queued. cbn. induction (batchers w) as [|[k f] bs IH]; [done|]. exact IH. Qed.

Lemma pending_count_drained w : sumZ Batcher.pending_count (dict_values (batchers (drain_batchers w))) = 0.
Proof.
  cbn. induction (batchers w) as [|[k f] bs IH]; [done|]. cbn [fmap list_fmap dict_values].
  rewrite sumZ_cons. cbn in IH. unfold dict_values in *. rewrite IH. done.
Qed.

(** Stopping breaks no promise silently.  [_fail_queued_requests] leaves every
    request that is queued in any batcher, or whose in-flight batch nothing will
    complete, with a finished future, touches no other future and no finished one, counts
    each failed request once however many items it has and wherever they are, empties
    every batcher, and keeps the registrations of batches that are still running.  Calling
    it again finds nothing to do. *)
Theorem fail_queued_settles tasks w (fs : nat → future R) :
  register_wf w →
  let '(w', fs', n) := fail_queued_requests drained tasks w fs in
  let owed := queued w ++ abandoned tasks w in
  (∀ r, r ∈ owed → done (fs' r) = true) ∧
  (∀ r, fs' r = fs r ∨ r ∈ owed ∧ done (fs r) = false ∧ fs' r = Failed drained) ∧
  n = Z.of_nat (size (filter (λ r, done (fs r) = false) (list_to_set owed : gset nat))) ∧
  pending_count w' = 0 ∧ dict_keys (batchers w') = dict_keys (batchers w) ∧
  in_flight w' = filter (λ e, is_abandoned tasks e.2 = false) (in_flight w) ∧
  (fail_queued_requests drained tasks w' fs').2 = 0.
Proof.
  intros Hreg. pose proof (fail_queued_eq tasks w fs) as Heq. cbv zeta in Heq.
  destruct (fail_queued_requests drained tasks w fs) as [[w' fs'] n].
  destruct Heq as (Hw & Hf & Hn). subst w'.
  set (owed := queued w ++ abandoned tasks w) in *.
  assert (∀ r, r ∈ owed → done (fs' r) = true) as Hdone.
  { intros r Hr. rewrite Hf. case_bool_decide as Hb; [done|]. destruct (done (fs r)) eqn:E; [done|]. by destruct Hb. }
  assert (in_flight (take_abandoned tasks (drain_batchers w)).1 =
    filter (λ e, is_abandoned tasks e.2 = false) (in_flight w)) as Hif by exact (take_abandoned_spec tasks (drain_batchers w) Hreg).
  assert (queued (take_abandoned tasks (drain_batchers w)).1 = []) as Hq by apply queued_drained.
  split; [done|]. split; [|split; [done|split; [|split; [|split; [done|]]]]].
  - intros r. rewrite Hf. case_bool_decide as Hb; [right|by left]. by destruct Hb.
  - apply (pending_count_drained w).
  - cbn. unfold dict_keys. rewrite <- list_fmap_compose. done.
  - pose proof (fail_queued_eq tasks (take_abandoned tasks (drain_batchers w)).1 fs') as Heq. cbv zeta in Heq.
    destruct (fail_queued_requests drained tasks (take_abandoned tasks (drain_batchers w)).1 fs') as [[w2 fs2] n2].
    destruct Heq as (_ & _ & ->). rewrite Hq. unfold abandoned. rewrite Hif. cbn [app].
    assert (List.filter (is_abandoned tasks) (dict_values (filter (λ e, is_abandoned tasks e.2 = false) (in_flight w))) = []) as ->.
    { clear. induction (in_flight w) as [|[k reg] d IH]; [done|]. rewrite filter_cons. case_decide as Ha; [|done].
      cbn in Ha. cbn. by rewrite Ha. }
    done.
Qed.
End drain_futures.

(** ** Outstanding work *)

Definition former_pairs (f : former) : list (Prepared * nat) := Batcher.req_pair <$> Batcher.pending f.

(** The (item, request) pairs waiting in the batchers. *)
Definition queued_pairs (w : worker) : list (Prepared * nat) := mjoin (former_pairs <$> dict_values (batchers w)).

Lemma elem_of_queued_pairs w x : dict_wf (batchers w) →
  x ∈ queued_pairs w ↔ ∃ k f, dict_get k (batchers w) = Some f ∧ x ∈ former_pairs f.
Proof.
  intros Hwf. unfold queued_pairs. rewrite list_elem_of_join. split.
  - intros (l & Hx & (f & -> & Hf)%list_elem_of_fmap).
    apply list_elem_of_fmap in Hf as ([k f'] & -> & Hin). exists k, f'. split; [by apply dict_elem_get|done].
  - intros (k & f & Hg & Hx). exists (former_pairs f). split; [done|]. apply list_elem_of_fmap_2.
    apply dict_get_Some_elem in Hg. by apply (list_elem_of_fmap_2 snd) in Hg.
Qed.

Lemma queued_of_pairs w : queued w = snd <$> queued_pairs w.
Proof.
  unfold queued, queued_pairs. induction (dict_values (batchers w)) as [|f fs IH]; [done|].
  cbn [fmap list_fmap]. change (mjoin (?x :: ?l)) with (x ++ mjoin l). rewrite IH, fmap_app. f_equal.
  unfold former_pairs. rewrite <- list_fmap_compose. done.
Qed.

(** Replacing the batcher of one LoRA. *)
Lemma queued_pairs_set w lora f f' x :
  dict_wf (batchers w) → dict_get lora (batchers w) = Some f →
  x ∈ queued_pairs (set_batchers w (dict_set lora f' (batchers w))) ↔
    x ∈ former_pairs f' ∨ ∃ k g, k ≠ lora ∧ dict_get k (batchers w) = Some g ∧ x ∈ former_pairs g.
Proof.
  intros Hwf Hf. rewrite elem_of_queued_pairs by by apply dict_set_wf. cbn [batchers set_batchers]. split.
  - intros (k & g & Hg & Hx). rewrite dict_get_set in Hg. destruct (decide (lora = k)) as [->|].
    + injection Hg as ->. by left.
    + right. eauto.
  - intros [Hx|(k & g & Hk & Hg & Hx)].
    + exists lora, f'. by rewrite dict_get_set, decide_True.
    + exists k, g. by rewrite dict_get_set, decide_False.
Qed.

Lemma queued_pairs_split w lora f x :
  dict_wf (batchers w) → dict_get lora (batchers w) = Some f →
  x ∈ queued_pairs w ↔
    x ∈ former_pairs f ∨ ∃ k g, k ≠ lora ∧ dict_get k (batchers w) = Some g ∧ x ∈ former_pairs g.
Proof.
  intros Hwf Hf. rewrite elem_of_queued_pairs by done. split.
  - intros (k & g & Hg & Hx). destruct (decide (k = lora)) as [->|]; [left; congruence|right; eauto].
  - intros [?|(k & g & _ & ?)]; eauto.
Qed.

Lemma submit_many_pairs bcfg l : ∀ f : former,
  former_pairs (Batcher.submit_many bcfg f l) = former_pairs f ++ ((λ '(p, r, _), (p, r)) <$> l).
Proof.
  induction l as [|[[p r] [[a n] ts]] l IH]; intros f; [by rewrite app_nil_r|].
  cbn [Batcher.submit_many foldl]. unfold Batcher.submit_many in IH. rewrite IH. unfold former_pairs at 1.
  rewrite Batcher.append_item_pending, fmap_app, <- app_assoc. done.
Qed.

(** Whatever a batcher hands out leaves its queue, and nothing else does. *)
Lemma extract_pairs bcfg (f : former) mi f' b :
  Batcher.extract_batch bcfg f mi = (f', b) →
  (∀ x, x ∈ former_pairs f ↔ x ∈ Batcher.batch_pairs b ∨ x ∈ former_pairs f') ∧
  length (Batcher.fb_items b) = length (Batcher.fb_metadata b).
Proof.
  intros E. destruct (Batcher.extract_batch_split bcfg f mi) as (n & _ & Hfb & Hp & _). rewrite E in Hfb, Hp.
  cbn in Hfb, Hp. subst b. rewrite Batcher.requests_batch_pairs. unfold former_pairs. rewrite Hp.
  split; [|cbn; by rewrite !length_fmap].
  intros x. rewrite <- elem_of_app, <- fmap_app, take_drop. unfold Batcher.sort_pending. by rewrite stable_sort_perm.
Qed.

Lemma poll_pairs cfg bcfg was_idle (f : former) ts f' b :
  poll_selected cfg bcfg was_idle f ts = (f', Some b) →
  (∀ x, x ∈ former_pairs f ↔ x ∈ Batcher.batch_pairs b ∨ x ∈ former_pairs f') ∧
  length (Batcher.fb_items b) = length (Batcher.fb_metadata b).
Proof.
  unfold poll_selected, Batcher.get_batch_poll. intros H.
  destruct (was_idle && flt f0 (idle_coalesce_ms cfg)).
  all: destruct (_ || _); [|done].
  all: destruct (Batcher.extract_batch bcfg f None) as [f1 b1] eqn:E; injection H as <- <-; by eapply extract_pairs.
Qed.

Lemma try_drain_pairs bcfg (f : former) mi f' b :
  Batcher.try_drain bcfg f mi = (f', Some b) →
  (∀ x, x ∈ former_pairs f ↔ x ∈ Batcher.batch_pairs b ∨ x ∈ former_pairs f') ∧
  length (Batcher.fb_items b) = length (Batcher.fb_metadata b).
Proof.
  unfold Batcher.try_drain. destruct (Batcher.pending f); [done|].
  destruct (Batcher.extract_batch bcfg f mi) as [f1 b1] eqn:E. intros [= <- <-]. by eapply extract_pairs.
Qed.

(** ** The running worker *)

Section system.
Context {Item O W : Type} (handlers : Handlers.Op → Handlers.OperationHandler O).
Context (reqs : nat → Dispatch.Request (Item := Item)).
Context (dev : Dispatch.device (Item := Item) (Prepared := Prepared) (O := O) (W := W)).
Context (model_name : string) (oom_config : Oom.OomRecoveryConfig) (drained : Oom.exn).
Abbreviation state := (Executor.state (Slice := O) (R := O) (W := W)).

(** Where [_process_loop] is suspended. *)
Inductive loop_state :=
  | LPoll                                                    (* no batcher selected *)
  | LGather (lora : option string) (was_idle : bool)         (* inside get_batch *)
  | LWaitLock (lora : option string) (b : fbatch)            (* waiting for _adapter_dispatch_lock *)
  | LDispatch (tok : nat) (lora : option string) (b : fbatch) (drain_budget : option Z)
  | LDrain (lora : option string) (drain_budget : Z)         (* between two drained batches *)
  | LEnded (held : option fbatch).                           (* and the batch it still held *)

(** The worker, the requests' futures and the tasks around it.  [direct] is the batch of
    the sidecar task that holds the dispatch lock; [submitted] are the requests whose
    [submit] returned a future, [known] all requests created so far, [refused] those whose
    batch the loop dropped because [set_active_lora] raised. *)
Record sys := mkSys {
  wk : worker;
  exe : state;
  wst : Dispatch.worker_stats;
  loop : loop_state;
  direct : option (nat * fbatch);
  submitted : gset nat;
  known : gset nat;
  refused : gset nat;
  stopped : bool;
}.

Definition set_wk (st : sys) (w : worker) : sys :=
  mkSys w (exe st) (wst st) (loop st) (direct st) (submitted st) (known st) (refused st) (stopped st).
Definition set_loop (st : sys) (l : loop_state) : sys :=
  mkSys (wk st) (exe st) (wst st) l (direct st) (submitted st) (known st) (refused st) (stopped st).
Definition set_direct (st : sys) (d : option (nat * fbatch)) (k : gset nat) : sys :=
  mkSys (wk st) (exe st) (wst st) (loop st) d (submitted st) (k ∪ known st) (refused st) (stopped st).
Definition set_exe (st : sys) (s : state) (ws : Dispatch.worker_stats) : sys :=
  mkSys (wk st) s ws (loop st) (direct st) (submitted st) (known st) (refused st) (stopped st).

(** [_adapter_dispatch_lock] *)
Definition loop_holds_lock (l : loop_state) : bool :=
  match l with LDispatch _ _ _ _ | LDrain _ _ => true | _ => false end.
Definition lock_free (st : sys) : bool :=
  negb (loop_holds_lock (loop st)) && match direct st with None => true | Some _ => false end.

(** [_process_batch(batch)] in the lock, up to the first await; the task of the loop is
    number 0. *)
Definition begin_dispatch (st : sys) (lora : option string) (b : fbatch) (budget : option Z) : sys :=
  let '(w, reg) := register_in_flight (wk st) b (Some 0%nat) in
  set_loop (set_wk st w) (LDispatch (token reg) lora b budget).

(** [set_active_lora] raised: the error is logged, the loop goes on, and the batch, which is
    in no batcher and not yet registered, is dropped. *)
Definition drop_batch (st : sys) (b : fbatch) : sys :=
  mkSys (wk st) (exe st) (wst st) LPoll (direct st) (submitted st) (known st)
    (list_to_set (Batcher.fb_metadata b) ∪ refused st) (stopped st).

(** [async with self._adapter_dispatch_lock: set_active_lora(active_lora); _process_batch(batch)];
    [activated] says whether the adapter took the LoRA. *)
Definition enter_lock (activated : bool) (st : sys) (lora : option string) (b : fbatch) : sys :=
  if activated then begin_dispatch st lora b None else drop_batch st b.

(** The loop body after [_get_next_batch_fcfs] returned a batch. *)
Definition take_batch (activated : bool) (st : sys) (lora : option string) (b : fbatch) : sys :=
  if Batcher.batch_size b =? 0 then set_loop st LPoll
  else if lock_free st then enter_lock activated st lora b
  else set_loop st (LWaitLock lora b).

Definition end_of (out : res Dispatch.escape unit) : dispatch_end :=
  match out with
  | Ret _ => EndNormal
  | Raise (Dispatch.EscError _) => EndError
  | Raise Dispatch.EscCancelled => EndCancelled
  end.

(** The loop after [_process_batch]: the drain budget is read once, after the first batch;
    an [Exception] is logged and the loop goes on, [CancelledError] breaks out of it. *)
Definition loop_after (w : worker) (lora : option string) (budget : option Z)
    (out : res Dispatch.escape unit) : loop_state :=
  match out with
  | Ret _ => LDrain lora (default (from_option Batcher.pending_count 0 (dict_get lora (batchers w))) budget)
  | Raise (Dispatch.EscError _) => LPoll
  | Raise Dispatch.EscCancelled => LEnded None
  end.

(** One iteration of [_drain_active_batcher]. *)
Definition drain_next (bcfg : Batcher.BatchConfig) (st : sys) (lora : option string) (budget : Z) : sys :=
  match dict_get lora (batchers (wk st)) with
  | None => set_loop st LPoll
  | Some f =>
      if 0 <? budget then
        match Batcher.try_drain bcfg f (Some budget) with
        | (f', None) => set_loop (set_wk st (set_batchers (wk st) (dict_set lora f' (batchers (wk st))))) LPoll
        | (f', Some b) =>
            let st' := set_wk st (set_batchers (wk st) (dict_set lora f' (batchers (wk st)))) in
            if Batcher.batch_size b =? 0 then set_loop st' LPoll
            else begin_dispatch st' lora b (Some (budget - Batcher.batch_size b))
        end
      else set_loop st LPoll
  end.

(** What is known of a dispatch of [b] that a cancellation interrupted: other requests are
    untouched and finished futures stay finished. *)
Definition interrupted (b : fbatch) (s s' : state) : Prop :=
  (∀ r, r ∉ Batcher.fb_metadata b → metas s' r = metas s r) ∧
  (∀ r, done (m_future (metas s r)) = true → done (m_future (metas s' r)) = true).

(** The loop's task is cancelled by [stop] while suspended at [l]. *)
Definition cancel_loop (w : worker) (l : loop_state) : worker * loop_state :=
  match l with
  | LDispatch tok _ _ _ => (process_batch_exit w tok EndCancelled, LEnded None)
  | LWaitLock _ b => (w, LEnded (Some b))
  | LEnded h => (w, LEnded h)
  | _ => (w, LEnded None)
  end.

Definition cancel_effect (l : loop_state) (s s' : state) : Prop :=
  match l with LDispatch _ _ b _ => interrupted b s s' | _ => s' = s end.

(** The prepared items of a request: one per item, in order, at least one. *)
Definition well_prepared (r : nat) (prepared : list Prepared) : Prop :=
  original_index <$> prepared = seq 0 (length (Dispatch.req_items (reqs r))) ∧ prepared ≠ [].

(** A batch whose slots name real items. *)
Definition batch_ok (b : fbatch) : Prop :=
  length (Batcher.fb_items b) = length (Batcher.fb_metadata b) ∧
  ∀ p r, (p, r) ∈ Batcher.batch_pairs b → (original_index p < length (Dispatch.req_items (reqs r)))%nat.

Definition cancel_future (s : state) (r : nat) : state :=
  match m_future (metas s r) with
  | Pending => set_metas s (<[r := mkMeta Cancelled (partial_results (metas s r))]> (metas s))
  | _ => s
  end.

Definition set_futures (s : state) (fs : nat → future O) : state :=
  set_metas s (λ r, mkMeta (fs r) (partial_results (metas s r))).

(** The requests whose batch is being dispatched. *)
Definition dispatching (st : sys) : list nat :=
  match loop st with LDispatch _ _ b _ => Batcher.fb_metadata b | _ => [] end ++
  match direct st with Some (_, b) => Batcher.fb_metadata b | None => [] end.

(** [_submit_preformed_metadata_batch] before the lock: requests without items fail, the
    items of the others form one batch in the caller's order. *)
Definition empty_error : Oom.exn := Oom.OtherError "preformed request contains no prepared items".

Definition reject_empty (entries : list (list Prepared * nat)) (s : state) : state :=
  set_metas s (foldl (λ m '(ps, r), match ps with
                                    | [] => <[r := mkMeta (Failed empty_error) (partial_results (m r))]> m
                                    | _ => m
                                    end) (metas s) entries).

Definition preformed_batch (entries : list (list Prepared * nat)) : fbatch :=
  Batcher.mkBatch (mjoin (fst <$> entries)) (mjoin ((λ '(ps, r), replicate (length ps) r) <$> entries))
    (sumZ (λ '(ps, _), sumZ cost ps) entries).

(** The whole of it up to the await inside [_process_batch], in the task [task]; when
    [set_active_lora] raises, the caller gets the error and no future. *)
Definition begin_direct (activated : bool) (st : sys) (entries : list (list Prepared * nat)) (task : option nat) : sys :=
  let st0 := set_direct (set_exe st (reject_empty entries (exe st)) (wst st)) (direct st) (list_to_set (snd <$> entries)) in
  let b := preformed_batch entries in
  match Batcher.fb_items b with
  | [] => st0
  | _ => if activated
         then let '(w, reg) := register_in_flight (wk st0) b task in set_direct (set_wk st0 w) (Some (token reg, b)) ∅
         else st0
  end.

Inductive worker_step : sys → sys → Prop :=
  | step_submit cfg bcfg st r lora prepared w' :
      r ∉ known st → well_prepared r (fst <$> prepared) →
      submit cfg bcfg (wk st) r lora prepared = (w', Ret tt) →
      worker_step st (mkSys w' (exe st) (wst st) (loop st) (direct st) ({[r]} ∪ submitted st)
        ({[r]} ∪ known st) (refused st) (stopped st))
  | step_select st lora was_idle :
      loop st = LPoll → running (wk st) = true → select_fcfs (batchers (wk st)) = Some lora →
      worker_step st (set_loop st (LGather lora was_idle))
  | step_gather cfg bcfg st lora was_idle f ts f' :
      loop st = LGather lora was_idle → dict_get lora (batchers (wk st)) = Some f →
      poll_selected cfg bcfg was_idle f ts = (f', None) →
      worker_step st (set_wk st (set_batchers (wk st) (dict_set lora f' (batchers (wk st)))))
  | step_take cfg bcfg activated st lora was_idle f ts f' b :
      loop st = LGather lora was_idle → dict_get lora (batchers (wk st)) = Some f →
      poll_selected cfg bcfg was_idle f ts = (f', Some b) →
      worker_step st (take_batch activated (set_wk st (set_batchers (wk st) (dict_set lora f' (batchers (wk st))))) lora b)
  | step_acquire activated st lora b :
      loop st = LWaitLock lora b → lock_free st = true →
      worker_step st (enter_lock activated st lora b)
  | step_finish st tok lora b budget s' ws' out :
      loop st = LDispatch tok lora b budget →
      Dispatch.dispatch_batch handlers reqs dev model_name oom_config b (exe st) (wst st) = (s', ws', out) →
      worker_step st (set_loop (set_wk (set_exe st s' ws') (process_batch_exit (wk st) tok (end_of out)))
        (loop_after (wk st) lora budget out))
  | step_drain bcfg st lora budget :
      loop st = LDrain lora budget → worker_step st (drain_next bcfg st lora budget)
  | step_direct activated st entries task :
      lock_free st = true →
      (∀ ps r, (ps, r) ∈ entries → r ∉ known st ∧ ∀ p, p ∈ ps → (original_index p < length (Dispatch.req_items (reqs r)))%nat) →
      worker_step st (begin_direct activated st entries task)
  | step_direct_finish st tok b s' ws' out :
      direct st = Some (tok, b) →
      Dispatch.dispatch_batch handlers reqs dev model_name oom_config b (exe st) (wst st) = (s', ws', out) →
      worker_step st (set_direct (set_wk (set_exe st s' ws') (process_batch_exit (wk st) tok (end_of out))) None ∅)
  | step_direct_cancel st tok b s' ws' :
      direct st = Some (tok, b) → interrupted b (exe st) s' →
      worker_step st (set_direct (set_wk (set_exe st s' ws') (process_batch_exit (wk st) tok EndCancelled)) None ∅)
  | step_cancel st r :
      r ∉ dispatching st → worker_step st (set_exe st (cancel_future (exe st) r) (wst st))
  | step_stop st s' :
      running (wk st) = true → cancel_effect (loop st) (exe st) s' →
      worker_step st (let w0 := mkWorker false (batchers (wk st)) (in_flight (wk st)) (in_flight_seq (wk st)) (loop_started (wk st)) in
        let '(w1, l) := cancel_loop w0 (loop st) in
        set_loop (set_wk (set_exe st s' (wst st)) w1) l)
  | step_fail st tasks w' fs' n :
      running (wk st) = false → stopped st = false →
      fail_queued_requests drained tasks (wk st) (λ r, m_future (metas (exe st) r)) = (w', fs', n) →
      worker_step st (mkSys w' (set_futures (exe st) fs') (wst st) (loop st) (direct st) (submitted st) (known st) (refused st) true).

Definition start_sys (w0 : W) : sys :=
  mkSys (start init_worker) (mkState w0 (λ _, mkMeta Pending None) Oom.zero_stats [])
    (Dispatch.mkWStats 0 0 0 0) LPoll None ∅ ∅ ∅ false.

Definition reachable (w0 : W) (st : sys) : Prop := rtc worker_step (start_sys w0) st.

(** ** No request is lost *)

(** The (item, request) pairs that wait in a batcher or are in the loop's hands. *)
Definition loop_pairs (l : loop_state) : list (Prepared * nat) :=
  match l with LWaitLock _ b | LDispatch _ _ b _ => Batcher.batch_pairs b | _ => [] end.
Definition outstanding (st : sys) : list (Prepared * nat) := queued_pairs (wk st) ++ loop_pairs (loop st).

Context {laws : ∀ op, Handlers.HandlerLaws O (H := handlers op)}.
Hypothesis outputs_alike : ∀ r i j v w,
  Dispatch.genuine handlers reqs dev r i v → Dispatch.genuine handlers reqs dev r j w →
  Handlers.alike (OperationHandler := handlers (Handlers.operation (Dispatch.params (reqs r)))) v w.
Hypothesis no_cancel : ¬ Dispatch.dev_may_cancel handlers dev.

Abbreviation n_items r := (length (Dispatch.req_items (reqs r))).
Abbreviation fut s r := (m_future (metas s r)).
Abbreviation genuine_partials := (Dispatch.genuine_partials handlers reqs dev).

(** The bookkeeping of the submitted requests [sub], but for those dropped [ref], against the
    outstanding pairs [out]. *)
Record work_ok (out : list (Prepared * nat)) (s : state) (sub kn ref : gset nat) : Prop := {
  wo_known : sub ⊆ kn;
  wo_pairs : ∀ p r, (p, r) ∈ out → r ∈ sub ∧ (original_index p < n_items r)%nat;
  wo_pending : ∀ r, r ∈ sub → r ∉ ref → done (fut s r) = false → ∃ p, (p, r) ∈ out;
  wo_cover : ∀ r i, r ∈ sub → r ∉ ref → done (fut s r) = false → (i < n_items r)%nat →
    is_Some (partial_at (metas s r) (Z.of_nat i)) ∨ ∃ p, (p, r) ∈ out ∧ original_index p = i;
  wo_genuine : ∀ r, r ∈ sub ∨ r ∉ kn → genuine_partials s r;
}.

Lemma work_ok_equiv out out' s sub kn ref :
  (∀ x, x ∈ out ↔ x ∈ out') → work_ok out s sub kn ref → work_ok out' s sub kn ref.
Proof.
  intros E [K P Q C G]. constructor; [done| | | |done].
  - intros p r H. apply P. by apply E.
  - intros r Hr Hn Hd. destruct (Q r Hr Hn Hd) as [p Hp]. exists p. by apply E.
  - intros r i Hr Hn Hd Hi. destruct (C r i Hr Hn Hd Hi) as [?|(p & Hp & ?)]; [by left|]. right. exists p. by rewrite <- E.
Qed.

Lemma work_ok_submit out s sub kn ref r prepared out' :
  work_ok out s sub kn ref → r ∉ kn → well_prepared r prepared →
  (∀ x, x ∈ out' ↔ x ∈ out ∨ x ∈ (λ p, (p, r)) <$> prepared) →
  work_ok out' s ({[r]} ∪ sub) ({[r]} ∪ kn) ref.
Proof.
  intros [K P Q C G] Hr [Hidx Hne] Hout.
  assert (∀ p, p ∈ prepared → (original_index p < n_items r)%nat) as Hlt.
  { intros p Hp. apply (list_elem_of_fmap_2 original_index) in Hp. rewrite Hidx in Hp. apply elem_of_seq in Hp. lia. }
  constructor.
  - set_solver.
  - intros p q [H|(p' & [= -> ->] & Hp)%list_elem_of_fmap]%Hout.
    + destruct (P p q H). set_solver.
    + split; [set_solver|by apply Hlt].
  - intros q Hq Hn Hd. destruct (decide (q = r)) as [->|].
    + destruct prepared as [|p l]; [done|]. exists p. apply Hout. right. by left.
    + destruct (Q q) as [p Hp]; [set_solver|done|done|]. exists p. apply Hout. by left.
  - intros q i Hq Hn Hd Hi. destruct (decide (q = r)) as [->|].
    + right. assert (i ∈ original_index <$> prepared) as (p & -> & Hp)%list_elem_of_fmap.
      { rewrite Hidx. apply elem_of_seq. lia. }
      exists p. split; [|done]. apply Hout. right. apply (list_elem_of_fmap_2 (λ p, (p, r))), Hp.
    + destruct (C q i) as [?|(p & Hp & ?)]; [set_solver|done|done|done|by left|].
      right. exists p. split; [|done]. apply Hout. by left.
  - intros q Hq. apply G. destruct (decide (q = r)) as [->|]; [by right|]. set_solver.
Qed.

(** A pending request with a result for every item would have been completed. *)
Lemma full_partials s r ps : genuine_partials s r → partial_results (metas s r) = Some ps →
  (∀ i, (i < n_items r)%nat → is_Some (partial_at (metas s r) (Z.of_nat i))) → length ps = n_items r.
Proof.
  intros [Hwf Hg] Ep Hall. specialize (Hwf ps Ep).
  assert (dict_keys ps ≡ₚ Z.of_nat <$> seq 0 (n_items r)) as Hk.
  { apply NoDup_Permutation; [done|apply NoDup_fmap; [typeclasses eauto|apply NoDup_seq]|].
    intros k. rewrite <- dict_get_is_Some. split.
    - intros [v Hv]. destruct (Hg k v) as [(j & -> & Hj) _]; [unfold partial_at; by rewrite Ep|].
      apply list_elem_of_fmap_2, elem_of_seq. lia.
    - intros (j & -> & Hj%elem_of_seq)%list_elem_of_fmap. specialize (Hall j). unfold partial_at in Hall.
      rewrite Ep in Hall. apply Hall. lia. }
  apply Permutation_length in Hk. unfold dict_keys in Hk. by rewrite !length_fmap, length_seq in Hk.
Qed.

Lemma batch_pairs_metadata (b : fbatch) p r : (p, r) ∈ Batcher.batch_pairs b → r ∈ Batcher.fb_metadata b.
Proof. unfold Batcher.batch_pairs. apply elem_of_zip_r. Qed.

Lemma batch_metadata_pairs (b : fbatch) r :
  length (Batcher.fb_items b) = length (Batcher.fb_metadata b) →
  r ∈ Batcher.fb_metadata b → ∃ p, (p, r) ∈ Batcher.batch_pairs b.
Proof.
  intros Hlen [k Hk]%list_elem_of_lookup.
  destruct (lookup_lt_is_Some_2 (Batcher.fb_items b) k) as [p Hp]; [rewrite Hlen; by eapply lookup_lt_Some|].
  exists p. apply elem_of_lookup_zip_with. by exists k, p, r.
Qed.

Lemma work_ok_dispatch out rest b s ws sub kn ref :
  work_ok out s sub kn ref → length (Batcher.fb_items b) = length (Batcher.fb_metadata b) →
  (∀ x, x ∈ out ↔ x ∈ rest ∨ x ∈ Batcher.batch_pairs b) →
  ∃ s' ws', Dispatch.dispatch_batch handlers reqs dev model_name oom_config b s ws = (s', ws', Ret tt) ∧
    work_ok rest s' sub kn ref.
Proof.
  intros [K P Q C G] Hlen Hout.
  assert (∀ r, r ∈ Batcher.fb_metadata b → r ∈ sub) as Hsub.
  { intros r Hr. destruct (batch_metadata_pairs b r Hlen Hr) as [p Hp]. eapply P, Hout. by right. }
  destruct (Dispatch.dispatch_batch_ok handlers reqs dev model_name oom_config (laws := laws) outputs_alike b s ws)
    as (s' & ws' & E & Hgen & _); [done|done| |auto|].
  { intros p r Hp. eapply P, Hout. by right. }
  exists s', ws'. split; [done|].
  destruct (Dispatch.dispatch_batch_effect _ _ _ _ _ _ _ _ _ _ Hlen E) as (Hd & Hk & Hset & _).
  assert (∀ r, done (fut s' r) = false → done (fut s r) = false) as Hback.
  { intros r Hr. destruct (done (fut s r)) eqn:E'; [|done]. rewrite (Hd r E') in Hr. done. }
  assert (∀ r i, r ∈ sub → r ∉ ref → done (fut s' r) = false → (i < n_items r)%nat →
    is_Some (partial_at (metas s' r) (Z.of_nat i)) ∨ ∃ p, (p, r) ∈ rest ∧ original_index p = i) as Hcover.
  { intros r i Hr Hn Hp Hi. destruct (C r i Hr Hn (Hback r Hp) Hi) as [?|(p & [Hin|Hin]%Hout & <-)]; [left; auto|eauto|].
    left. destruct (Hset p r Hin) as [?|[? _]]; [congruence|done]. }
  constructor; [done| | |done|auto].
  - intros p r Hp. apply P, Hout. by left.
  - intros r Hr Hn Hp. destruct (Q r Hr Hn (Hback r Hp)) as [p [Hin|Hin]%Hout]; [by exists p|].
    destruct (Hset p r Hin) as [?|(_ & ps & Eps & Hlps)]; [congruence|].
    destruct (decide (r ∈ rest.*2)) as [([p' r'] & -> & ?)%list_elem_of_fmap|Hno]; [by exists p'|]. destruct Hlps.
    apply (full_partials s' r ps); [auto|done|]. intros i Hi.
    destruct (Hcover r i Hr Hn Hp Hi) as [?|(p' & Hp' & _)]; [done|]. destruct Hno.
    by apply (list_elem_of_fmap_2 snd) in Hp'.
Qed.

(** Changes made by a batch of other requests. *)
Lemma work_ok_other out s s' sub kn ref :
  work_ok out s sub kn ref →
  (∀ r, r ∈ sub → done (fut s r) = true → done (fut s' r) = true) →
  (∀ r i, r ∈ sub → is_Some (partial_at (metas s r) i) → is_Some (partial_at (metas s' r) i)) →
  (∀ r, r ∈ sub ∨ r ∉ kn → genuine_partials s r → genuine_partials s' r) →
  work_ok out s' sub kn ref.
Proof.
  intros [K P Q C G] Hd Hk Hg.
  assert (∀ r, r ∈ sub → done (fut s' r) = false → done (fut s r) = false) as Hback.
  { intros r Hr Hp. destruct (done (fut s r)) eqn:E; [|done]. rewrite (Hd r Hr E) in Hp. done. }
  constructor; [done|done|auto| |auto].
  intros r i Hr Hn Hp Hi. destruct (C r i Hr Hn (Hback r Hr Hp) Hi) as [?|?]; [left; auto|by right].
Qed.

Lemma work_ok_same out s s' sub kn ref :
  work_ok out s sub kn ref → (∀ r, r ∈ sub ∨ r ∉ kn → metas s' r = metas s r) → work_ok out s' sub kn ref.
Proof.
  intros Hw He. apply (work_ok_other _ _ _ _ _ _ Hw).
  - intros r Hr. by rewrite He by auto.
  - intros r i Hr. by rewrite He by auto.
  - intros r Hr [Hp Hg]. split; rewrite He by done; done.
Qed.

Lemma work_ok_cancel out s sub kn ref r : work_ok out s sub kn ref → work_ok out (cancel_future s r) sub kn ref.
Proof.
  intros Hw. unfold cancel_future. destruct (m_future (metas s r)) eqn:E; try done.
  assert (∀ q, partial_results (metas (set_metas s (<[r:=mkMeta Cancelled (partial_results (metas s r))]> (metas s))) q)
    = partial_results (metas s q)) as Hp.
  { intros q. cbn. destruct (decide (q = r)) as [->|]; [by rewrite fn_lookup_insert|by rewrite fn_lookup_insert_ne]. }
  apply (work_ok_other _ _ _ _ _ _ Hw).
  - intros q _ Hd. cbn. destruct (decide (q = r)) as [->|]; [by rewrite fn_lookup_insert|by rewrite fn_lookup_insert_ne].
  - intros q i _. unfold partial_at. by rewrite Hp.
  - intros q _ [H1 H2]. unfold Dispatch.genuine_partials, partials_wf, partial_at in *.
    rewrite Hp. auto.
Qed.

(** The in-flight register. *)
Definition reg_ok (w : worker) : Prop :=
  register_wf w ∧ Forall (λ e, (e.1 <= in_flight_seq w)%nat) (in_flight w).

Lemma dict_set_Forall {A : Type} (P : nat * A → Prop) k v (d : list (nat * A)) :
  dict_wf d → Forall P d → P (k, v) → Forall P (dict_set k v d).
Proof.
  intros Hwf Hd Hv. apply Forall_forall. intros [k' v'] Hin.
  apply dict_elem_get in Hin; [|by apply dict_set_wf]. rewrite dict_get_set in Hin.
  case_decide as Hk; [by simplify_eq|]. apply dict_get_Some_elem in Hin. rewrite Forall_forall in Hd. by apply Hd.
Qed.

Lemma dict_del_Forall {A : Type} (P : nat * A → Prop) k (d : list (nat * A)) :
  dict_wf d → Forall P d → Forall P (dict_del k d).
Proof.
  intros Hwf Hd. rewrite dict_del_filter by done. rewrite Forall_forall in *.
  intros e [_ He]%list_elem_of_filter. auto.
Qed.

Lemma register_ok w b t : reg_ok w → reg_ok (register_in_flight w b t).1.
Proof.
  intros [[Hwf Htok] Hseq]. cbn. split; [split|]; cbn [in_flight in_flight_seq].
  - by apply dict_set_wf.
  - by apply dict_set_Forall.
  - apply dict_set_Forall; [done| |done]. eapply Forall_impl; [exact Hseq|]. cbn. lia.
Qed.

Lemma exit_ok w tok how : reg_ok w → reg_ok (process_batch_exit w tok how).
Proof.
  intros [[Hwf Htok] Hseq].
  assert (reg_ok (set_in_flight w (dict_del tok (in_flight w)))) as Hdel.
  { split; [split|]; cbn; [by apply dict_del_wf|by apply dict_del_Forall|by apply dict_del_Forall]. }
  destruct how; [done|done|]. cbn [process_batch_exit]. destruct (negb (running w)); [|done].
  destruct (dict_get tok (in_flight w)) as [reg|] eqn:E; [|split; [split|]; done].
  pose proof (dict_get_Some_elem _ _ _ E) as Hin. rewrite Forall_forall in Htok, Hseq.
  split; [split|]; cbn; [by apply dict_set_wf| |]; (apply dict_set_Forall; [done|by apply Forall_forall|]).
  - exact (Htok _ Hin).
  - exact (Hseq _ Hin).
Qed.

Lemma exit_batchers w tok how : batchers (process_batch_exit w tok how) = batchers w.
Proof. destruct how; [done|done|]. cbn. by destruct (negb (running w)), (dict_get tok (in_flight w)). Qed.

Lemma exit_running w tok how : running (process_batch_exit w tok how) = running w.
Proof.
  destruct how; [done|done|]. cbn. destruct (negb (running w)) eqn:E, (dict_get tok (in_flight w)); done.
Qed.

(** What holds while the worker runs, whatever the loop does. *)
Record base (st : sys) : Prop := {
  ba_running : running (wk st) = true;
  ba_stopped : stopped st = false;
  ba_dict : dict_wf (batchers (wk st));
  ba_reg : reg_ok (wk st);
  ba_owned : Forall (λ e, orphaned e.2 = false) (in_flight (wk st));
  ba_direct : ∀ tok b, direct st = Some (tok, b) → batch_ok b ∧
    ∀ r, r ∈ Batcher.fb_metadata b → r ∈ known st ∧ r ∉ submitted st ∧ genuine_partials (exe st) r;
}.

Definition loop_ok (st : sys) : Prop :=
  match loop st with
  | LWaitLock _ b => length (Batcher.fb_items b) = length (Batcher.fb_metadata b)
  | LDispatch tok _ b _ => length (Batcher.fb_items b) = length (Batcher.fb_metadata b) ∧
      direct st = None ∧ ∃ reg, dict_get tok (in_flight (wk st)) = Some reg ∧ reg_metadata reg = Batcher.fb_metadata b
  | LDrain _ _ => direct st = None
  | LEnded _ => False
  | _ => True
  end.

Definition live (st : sys) : Prop :=
  base st ∧ work_ok (outstanding st) (exe st) (submitted st) (known st) (refused st) ∧ loop_ok st.

Lemma base_set_loop st l : base st → base (set_loop st l).
Proof. intros [? ? ? ? ? ?]. by constructor. Qed.

Lemma base_set_batchers st bs : dict_wf bs → base st → base (set_wk st (set_batchers (wk st) bs)).
Proof. intros ? [? ? ? ? ? ?]. by constructor. Qed.

Lemma begin_dispatch_live st lora b budget :
  base st → direct st = None → length (Batcher.fb_items b) = length (Batcher.fb_metadata b) →
  work_ok (queued_pairs (wk st) ++ Batcher.batch_pairs b) (exe st) (submitted st) (known st) (refused st) →
  live (begin_dispatch st lora b budget).
Proof.
  intros [Hr Hs Hd Hreg Ho Hdir] Hdn Hlen Hw. unfold begin_dispatch. cbn [register_in_flight token].
  split; [constructor; cbn; try done|split; [exact Hw|]].
  - exact (register_ok _ b (Some 0%nat) Hreg).
  - apply dict_set_Forall; [apply Hreg|done|done].
  - split; [done|]. split; [done|]. eexists. cbn [set_loop wk set_wk in_flight loop].
    by rewrite dict_get_set, decide_True.
Qed.

Lemma batch_size_pairs (b : fbatch) : Batcher.batch_size b = 0 → Batcher.batch_pairs b = [].
Proof. unfold Batcher.batch_size, Batcher.batch_pairs. destruct (Batcher.fb_items b); [done|]. cbn. lia. Qed.

(** What was dropped is remembered; the rest is as before. *)
Lemma drop_batch_live st b :
  base st → work_ok (queued_pairs (wk st) ++ Batcher.batch_pairs b) (exe st) (submitted st) (known st) (refused st) →
  live (drop_batch st b).
Proof.
  intros [Hr Hs Hd Hreg Ho Hdir] [K P Q C G]. split; [by constructor|]. split; [|done].
  unfold outstanding, drop_batch. cbn [exe submitted known refused wk loop loop_pairs]. rewrite app_nil_r.
  assert (∀ p r, r ∉ (list_to_set (Batcher.fb_metadata b) ∪ refused st : gset nat) →
    (p, r) ∈ queued_pairs (wk st) ++ Batcher.batch_pairs b → (p, r) ∈ queued_pairs (wk st)) as Hq.
  { intros p r Hn [?|Hin%batch_pairs_metadata]%elem_of_app; [done|]. set_solver. }
  constructor; [done| | | |done].
  - intros p r Hin. apply P, elem_of_app. by left.
  - intros r Hr' Hn Hp. destruct (Q r) as [p Hin]; [done|set_solver|done|]. exists p. by apply Hq.
  - intros r i Hr' Hn Hp Hi. destruct (C r i) as [?|(p & Hin & ?)]; [done|set_solver|done|done|by left|].
    right. exists p. split; [by apply Hq|done].
Qed.

Lemma enter_lock_live activated st lora b :
  base st → direct st = None → length (Batcher.fb_items b) = length (Batcher.fb_metadata b) →
  work_ok (queued_pairs (wk st) ++ Batcher.batch_pairs b) (exe st) (submitted st) (known st) (refused st) →
  live (enter_lock activated st lora b).
Proof. intros. destruct activated; [by apply begin_dispatch_live|by apply drop_batch_live]. Qed.

Lemma take_batch_live activated st lora b :
  base st → (loop_holds_lock (loop st) = true → direct st = None) → length (Batcher.fb_items b) = length (Batcher.fb_metadata b) →
  work_ok (queued_pairs (wk st) ++ Batcher.batch_pairs b) (exe st) (submitted st) (known st) (refused st) →
  live (take_batch activated st lora b).
Proof.
  intros Hb Hl Hlen Hw. unfold take_batch. destruct (Z.eqb_spec (Batcher.batch_size b) 0) as [Hz|Hz].
  - split; [by apply base_set_loop|]. split; [|done]. by rewrite (batch_size_pairs b Hz) in Hw.
  - destruct (lock_free st) eqn:Ef.
    + unfold lock_free in Ef. apply andb_true_iff in Ef as [_ Ef]. destruct (direct st) eqn:Ed; [done|].
      by apply enter_lock_live.
    + split; [by apply base_set_loop|]. by split.
Qed.

Lemma queued_pairs_batchers w w' : batchers w = batchers w' → queued_pairs w = queued_pairs w'.
Proof. unfold queued_pairs. by intros ->. Qed.

(** Handing a batch of one LoRA to the loop. *)
Lemma pairs_handed w lora f f' (b : fbatch) :
  dict_wf (batchers w) → dict_get lora (batchers w) = Some f →
  (∀ x, x ∈ former_pairs f ↔ x ∈ Batcher.batch_pairs b ∨ x ∈ former_pairs f') →
  ∀ x, x ∈ queued_pairs w ↔
    x ∈ queued_pairs (set_batchers w (dict_set lora f' (batchers w))) ++ Batcher.batch_pairs b.
Proof.
  intros Hwf Hf Hx x. rewrite elem_of_app, (queued_pairs_set w lora f f' x Hwf Hf), (queued_pairs_split w lora f x Hwf Hf).
  rewrite Hx. tauto.
Qed.

Lemma live_submit cfg bcfg st r lora prepared w' :
  live st → r ∉ known st → well_prepared r (fst <$> prepared) →
  submit cfg bcfg (wk st) r lora prepared = (w', Ret tt) →
  live (mkSys w' (exe st) (wst st) (loop st) (direct st) ({[r]} ∪ submitted st) ({[r]} ∪ known st) (refused st) (stopped st)).
Proof.
  intros ([Hr Hs Hd Hreg Ho Hdir] & Hw & Hl) Hfresh Hwp. unfold submit, submit_to_batcher.
  destruct (check_queue_capacity _ _ _) as [[]|]; [|done].
  destruct (get_batcher (wk st) lora) as [w1 f] eqn:Eg.
  destruct (get_batcher_spec _ _ _ _ Hd Eg) as (Hwf1 & Hf & _ & Hr1 & Hif & Hseq & Hoth & Hfd).
  cbv zeta. set (f' := Batcher.submit_many _ _ _). intros [= <-]. unfold ensure_process_loop_started.
  cbn [batchers set_batchers running in_flight in_flight_seq].
  split; [|split].
  - constructor; cbn; [congruence|done|by apply dict_set_wf|unfold reg_ok, register_wf in *; cbn; by rewrite Hif, Hseq|by rewrite Hif|].
    intros tok b Eb. destruct (Hdir tok b Eb) as [? Hb]. split; [done|]. intros q Hq. destruct (Hb q Hq) as (? & ? & ?).
    split; [set_solver|]. split; [|done]. set_solver.
  - cbn [exe submitted known]. eapply work_ok_submit; [exact Hw|done|exact Hwp|]. intros x. unfold outstanding. cbn [wk loop].
    rewrite !elem_of_app. rewrite (queued_pairs_batchers
      (mkWorker (running w1) (dict_set lora f' (batchers w1)) (in_flight w1) (in_flight_seq w1) true)
      (set_batchers w1 (dict_set lora f' (batchers w1))) eq_refl).
    rewrite (queued_pairs_set w1 lora f f' x Hwf1 Hf), elem_of_queued_pairs by done.
    unfold f'. rewrite submit_many_pairs, elem_of_app.
    assert ((λ '(p, r0, _), (p, r0)) <$> ((λ '(p, c), (p, r, c)) <$> prepared) = (λ p, (p, r)) <$> (fst <$> prepared)) as ->.
    { rewrite <- !list_fmap_compose. apply list_fmap_ext. by intros ? [? ?] _. }
    assert ((∃ k g, dict_get k (batchers (wk st)) = Some g ∧ x ∈ former_pairs g) ↔
      x ∈ former_pairs f ∨ ∃ k g, k ≠ lora ∧ dict_get k (batchers w1) = Some g ∧ x ∈ former_pairs g) as ->; [|tauto].
    split.
    + intros (k & g & Hk & Hx). destruct (decide (k = lora)) as [->|Hne].
      * left. rewrite Hfd, Hk. done.
      * right. exists k, g. split; [done|]. split; [|done]. by apply Hoth.
    + intros [Hx|(k & g & Hne & Hk & Hx)].
      * destruct (dict_get lora (batchers (wk st))) as [g|] eqn:Ek; cbn in Hfd; subst f; [eauto|]. by apply elem_of_nil in Hx.
      * exists k, g. split; [by apply Hoth|done].
  - unfold loop_ok in *. cbn. destruct (loop st); try done. by rewrite Hif.
Qed.

Lemma live_take cfg bcfg activated st lora was_idle f ts f' b :
  live st → loop st = LGather lora was_idle → dict_get lora (batchers (wk st)) = Some f →
  poll_selected cfg bcfg was_idle f ts = (f', Some b) →
  live (take_batch activated (set_wk st (set_batchers (wk st) (dict_set lora f' (batchers (wk st))))) lora b).
Proof.
  intros (Hb & Hw & _) El Ef Ep. destruct (poll_pairs _ _ _ _ _ _ _ Ep) as [Hx Hlen].
  apply take_batch_live; [apply base_set_batchers; [by apply dict_set_wf, Hb|done]|cbn; by rewrite El|done|].
  cbn. eapply work_ok_equiv; [|exact Hw]. unfold outstanding. rewrite El. cbn [loop_pairs]. rewrite app_nil_r.
  apply pairs_handed with f; [apply Hb|done|done].
Qed.

Lemma live_gather cfg bcfg st lora was_idle f ts f' :
  live st → loop st = LGather lora was_idle → dict_get lora (batchers (wk st)) = Some f →
  poll_selected cfg bcfg was_idle f ts = (f', None) →
  live (set_wk st (set_batchers (wk st) (dict_set lora f' (batchers (wk st))))).
Proof.
  intros (Hb & Hw & Hl) El Ef Ep.
  assert (former_pairs f' = former_pairs f) as Hsame.
  { revert Ep. unfold poll_selected, Batcher.get_batch_poll. destruct (was_idle && _).
    all: destruct (_ || _); [by destruct (Batcher.extract_batch _ _ _)|]. all: by intros [= <-]. }
  split; [apply base_set_batchers; [by apply dict_set_wf, Hb|done]|]. split; [|unfold loop_ok in *; cbn; by rewrite El].
  cbn. eapply work_ok_equiv; [|exact Hw]. intros x. unfold outstanding. cbn [wk set_wk loop].
  rewrite !elem_of_app. rewrite (queued_pairs_set (wk st) lora f f' x), (queued_pairs_split (wk st) lora f x) by (done || apply Hb).
  by rewrite Hsame.
Qed.

Lemma live_acquire activated st lora b :
  live st → loop st = LWaitLock lora b → lock_free st = true → live (enter_lock activated st lora b).
Proof.
  intros (Hb & Hw & Hl) El Ef. unfold loop_ok in Hl. rewrite El in Hl.
  unfold lock_free in Ef. apply andb_true_iff in Ef as [_ Ef]. destruct (direct st) eqn:Ed; [done|].
  apply enter_lock_live; [done|done|done|]. unfold outstanding in Hw. by rewrite El in Hw.
Qed.

Lemma live_drain bcfg st lora budget :
  live st → loop st = LDrain lora budget → live (drain_next bcfg st lora budget).
Proof.
  intros (Hb & Hw & Hl) El. unfold loop_ok in Hl. rewrite El in Hl. unfold outstanding in Hw. rewrite El in Hw. cbn in Hw.
  assert (live (set_loop st LPoll)) as Hstay by (split; [by apply base_set_loop|by split]).
  unfold drain_next. destruct (dict_get lora (batchers (wk st))) as [f|] eqn:Ef; [|done].
  destruct (Z.ltb_spec 0 budget); [|done]. destruct (Batcher.try_drain bcfg f (Some budget)) as [f' [b|]] eqn:Et.
  - destruct (try_drain_pairs _ _ _ _ _ Et) as [Hx Hlen].
    assert (base (set_wk st (set_batchers (wk st) (dict_set lora f' (batchers (wk st)))))) as Hb'.
    { apply base_set_batchers; [by apply dict_set_wf, Hb|done]. }
    assert (work_ok (queued_pairs (set_batchers (wk st) (dict_set lora f' (batchers (wk st)))) ++ Batcher.batch_pairs b)
      (exe st) (submitted st) (known st) (refused st)) as Hw'.
    { eapply work_ok_equiv; [|exact Hw]. rewrite app_nil_r. apply pairs_handed with f; [apply Hb|done|done]. }
    destruct (Z.eqb_spec (Batcher.batch_size b) 0) as [Hz|_].
    + split; [by apply base_set_loop|]. split; [|done]. by rewrite (batch_size_pairs b Hz) in Hw'.
    + by apply begin_dispatch_live.
  - assert (f' = f) as ->.
    { revert Et. unfold Batcher.try_drain. destruct (Batcher.pending f); [by intros [= <-]|].
      by destruct (Batcher.extract_batch _ _ _). }
    split; [apply base_set_loop, base_set_batchers; [by apply dict_set_wf, Hb|done]|]. split; [|done].
    cbn. eapply work_ok_equiv; [|exact Hw]. intros x. unfold outstanding. cbn.
    rewrite !app_nil_r, (queued_pairs_set (wk st) lora f f x), (queued_pairs_split (wk st) lora f x) by (done || apply Hb).
    done.
Qed.

Lemma exit_owned w tok how :
  reg_ok w → running w = true → Forall (λ e, orphaned e.2 = false) (in_flight w) →
  Forall (λ e, orphaned e.2 = false) (in_flight (process_batch_exit w tok how)).
Proof.
  intros [[Hwf _] _] Hr Ho. destruct how; cbn; rewrite ?Hr; cbn; by apply dict_del_Forall.
Qed.

Lemma live_finish st tok lora b budget s' ws' out :
  live st → loop st = LDispatch tok lora b budget →
  Dispatch.dispatch_batch handlers reqs dev model_name oom_config b (exe st) (wst st) = (s', ws', out) →
  live (set_loop (set_wk (set_exe st s' ws') (process_batch_exit (wk st) tok (end_of out))) (loop_after (wk st) lora budget out)).
Proof.
  intros ([Hr Hs Hd Hreg Ho Hdir] & Hw & Hl) El E. unfold loop_ok in Hl. rewrite El in Hl.
  destruct Hl as (Hlen & Hdn & _).
  destruct (work_ok_dispatch _ (queued_pairs (wk st)) b (exe st) (wst st) _ _ _ Hw Hlen) as (s1 & ws1 & E1 & Hw1).
  { intros x. unfold outstanding. rewrite El. apply elem_of_app. }
  rewrite E1 in E. injection E as <- <- <-. cbn [end_of loop_after].
  split; [constructor; cbn; try done|split; [|done]].
  - exact (exit_ok (wk st) tok EndNormal Hreg).
  - exact (exit_owned (wk st) tok EndNormal Hreg Hr Ho).
  - intros tok' b'. by rewrite Hdn.
  - unfold outstanding. cbn. by rewrite app_nil_r.
Qed.

Lemma elem_of_preformed entries p r :
  (p, r) ∈ Batcher.batch_pairs (preformed_batch entries) → ∃ ps, (ps, r) ∈ entries ∧ p ∈ ps.
Proof.
  unfold Batcher.batch_pairs, preformed_batch. cbn. induction entries as [|[ps q] entries IH]; cbn; [by intros ?%elem_of_nil|].
  rewrite zip_with_app by by rewrite length_replicate. intros [Hin|Hin]%elem_of_app.
  - exists ps. apply elem_of_lookup_zip_with in Hin as (i & p' & r' & [= <- <-] & Hp & Hr).
    apply lookup_replicate_1 in Hr as [-> _]. split; [by left|]. by eapply list_elem_of_lookup_2.
  - destruct (IH Hin) as (ps' & ? & ?). exists ps'. split; [by right|done].
Qed.

Lemma preformed_length entries :
  length (Batcher.fb_items (preformed_batch entries)) = length (Batcher.fb_metadata (preformed_batch entries)).
Proof.
  cbn [preformed_batch Batcher.fb_items Batcher.fb_metadata].
  induction entries as [|[ps q] entries IH]; [done|]. cbn [fmap list_fmap fst].
  change (mjoin (?x :: ?l)) with (x ++ mjoin l). rewrite !length_app, length_replicate, IH. done.
Qed.

Lemma preformed_ok st entries :
  (∀ ps r, (ps, r) ∈ entries → r ∉ known st ∧ ∀ p, p ∈ ps → (original_index p < n_items r)%nat) →
  batch_ok (preformed_batch entries) ∧ (∀ r, r ∈ Batcher.fb_metadata (preformed_batch entries) → r ∈ snd <$> entries) ∧
  (∀ r, r ∈ snd <$> entries → r ∉ known st).
Proof.
  intros He. split; [split|split].
  - apply preformed_length.
  - intros p r (ps & Hin & Hp)%elem_of_preformed. by eapply He.
  - intros r Hr. destruct (batch_metadata_pairs _ _ (preformed_length entries) Hr) as (p & Hp).
    apply elem_of_preformed in Hp as (ps & Hin & _). by apply (list_elem_of_fmap_2 snd) in Hin.
  - intros r ([ps r'] & -> & Hin)%list_elem_of_fmap. by eapply He.
Qed.

(** Only the rejected requests change. *)
Lemma reject_empty_spec entries s r :
  partial_results (metas (reject_empty entries s) r) = partial_results (metas s r) ∧
  (r ∉ snd <$> entries → metas (reject_empty entries s) r = metas s r) ∧
  (done (fut s r) = true → done (fut (reject_empty entries s) r) = true).
Proof.
  unfold reject_empty. cbn. generalize (metas s) as m. induction entries as [|[ps q] entries IH]; intros m; [done|].
  cbn [foldl fmap list_fmap snd]. destruct (IH (match ps with
    | [] => <[q := mkMeta (Failed empty_error) (partial_results (m q))]> m | _ => m end)) as (H1 & H2 & H3).
  rewrite H1. split; [|split].
  - destruct ps; [|done]. destruct (decide (r = q)) as [->|]; [by rewrite fn_lookup_insert|by rewrite fn_lookup_insert_ne].
  - rewrite not_elem_of_cons. intros [Hne Hn]. rewrite H2 by done. destruct ps; [|done]. by rewrite fn_lookup_insert_ne.
  - intros Hd. apply H3. destruct ps; [|done].
    destruct (decide (r = q)) as [->|]; [by rewrite fn_lookup_insert|by rewrite fn_lookup_insert_ne].
Qed.

Lemma genuine_reject entries s r : genuine_partials s r → genuine_partials (reject_empty entries s) r.
Proof.
  unfold Dispatch.genuine_partials, partials_wf, partial_at. by destruct (reject_empty_spec entries s r) as [-> _].
Qed.

Lemma live_direct activated st entries task :
  live st → lock_free st = true →
  (∀ ps r, (ps, r) ∈ entries → r ∉ known st ∧ ∀ p, p ∈ ps → (original_index p < n_items r)%nat) →
  live (begin_direct activated st entries task).
Proof.
  intros ([Hr Hs Hd Hreg Ho Hdir] & Hw & Hl) Ef He. destruct (preformed_ok st entries He) as (Hb & Hmeta & Hfresh).
  unfold lock_free in Ef. apply andb_true_iff in Ef as [Ef Ed]. destruct (direct st) eqn:Edir; [done|]. clear Ed Hdir.
  assert (work_ok (outstanding st) (reject_empty entries (exe st)) (submitted st) (list_to_set (snd <$> entries) ∪ known st) (refused st)) as Hw'.
  { destruct Hw as [K P Q C G]. apply (work_ok_same _ (exe st)).
    - constructor; [set_solver|done|done|done|]. intros r Hr'. apply G. set_solver.
    - intros r Hr'. apply reject_empty_spec. intros Hin. specialize (Hfresh r Hin). set_solver. }
  unfold begin_direct. cbv zeta. rewrite Edir. set (st0 := set_direct _ None _).
  assert (live st0) as Hst0 by (split; [by constructor|split; [exact Hw'|unfold loop_ok in *; by rewrite Edir in Hl]]).
  destruct (Batcher.fb_items (preformed_batch entries)) eqn:Ei; [done|]. destruct activated; [|done]. unfold st0. clear Hst0 st0.
  - cbn [register_in_flight token]. split; [constructor; cbn; try done|split].
    + exact (register_ok _ (preformed_batch entries) task Hreg).
    + apply dict_set_Forall; [apply Hreg|done|done].
    + intros tok' b' [= <- <-]. split; [done|]. intros r Hb'. apply Hmeta in Hb'. split; [set_solver|].
      specialize (Hfresh r Hb'). destruct Hw as [K _ _ _ G]. split; [set_solver|]. apply genuine_reject, G. by right.
    + unfold outstanding in *. cbn [set_direct set_wk set_exe exe submitted known wk loop]. by rewrite union_empty_l_L.
    + unfold loop_ok in *. cbn. by destruct (loop st).
Qed.

(** The end of a sidecar batch. *)
Lemma direct_end_live st tok b s' ws' how :
  live st → direct st = Some (tok, b) →
  work_ok (outstanding st) s' (submitted st) (known st) (refused st) →
  live (set_direct (set_wk (set_exe st s' ws') (process_batch_exit (wk st) tok how)) None ∅).
Proof.
  intros ([Hr Hs Hd Hreg Ho Hdir] & Hw & Hl) Ed Hw'.
  split; [constructor; cbn; try done|split].
  - by rewrite exit_running.
  - by rewrite exit_batchers.
  - by apply exit_ok.
  - by apply exit_owned.
  - unfold outstanding in *. cbn [set_direct exe submitted known set_wk set_exe wk loop].
    rewrite (queued_pairs_batchers _ (wk st)) by apply exit_batchers. by rewrite union_empty_l_L.
  - unfold loop_ok in *. cbn. destruct (loop st); try done. destruct Hl as (_ & Hdn & _). congruence.
Qed.

Lemma live_direct_finish st tok b s' ws' out :
  live st → direct st = Some (tok, b) →
  Dispatch.dispatch_batch handlers reqs dev model_name oom_config b (exe st) (wst st) = (s', ws', out) →
  live (set_direct (set_wk (set_exe st s' ws') (process_batch_exit (wk st) tok (end_of out))) None ∅).
Proof.
  intros Hl Ed E. apply (direct_end_live _ _ b); [done|done|]. destruct Hl as ([_ _ _ _ _ Hdir] & Hw & _).
  destruct (Hdir _ _ Ed) as [[Hlen Hidx] Hb].
  destruct (Dispatch.dispatch_batch_ok handlers reqs dev model_name oom_config (laws := laws) outputs_alike b (exe st) (wst st))
    as (s1 & ws1 & E1 & Hgen & _); [done|done|done|intros r Hr; by apply Hb|].
  rewrite E1 in E. injection E as <- <- <-.
  destruct (Dispatch.dispatch_batch_effect _ _ _ _ _ _ _ _ _ _ Hlen E1) as (Hd & Hk & _).
  apply (work_ok_other _ (exe st)); [done|auto|auto|auto].
Qed.

Lemma live_direct_cancel st tok b s' ws' :
  live st → direct st = Some (tok, b) → interrupted b (exe st) s' →
  live (set_direct (set_wk (set_exe st s' ws') (process_batch_exit (wk st) tok EndCancelled)) None ∅).
Proof.
  intros Hl Ed [Hsame _]. apply (direct_end_live _ _ b); [done|done|]. destruct Hl as ([_ _ _ _ _ Hdir] & Hw & _).
  destruct (Hdir _ _ Ed) as [_ Hb]. apply (work_ok_same _ (exe st)); [done|].
  intros r Hr. apply Hsame. intros Hin. destruct (Hb r Hin) as (? & ? & _). tauto.
Qed.

Lemma genuine_cancel s q r : genuine_partials s r → genuine_partials (cancel_future s q) r.
Proof.
  intros Hg. unfold cancel_future. destruct (m_future (metas s q)); try done.
  unfold Dispatch.genuine_partials, partials_wf, partial_at in *. cbn.
  destruct (decide (r = q)) as [->|]; [by rewrite fn_lookup_insert|by rewrite fn_lookup_insert_ne].
Qed.

Lemma live_cancel st r : live st → live (set_exe st (cancel_future (exe st) r) (wst st)).
Proof.
  intros ([Hr Hs Hd Hreg Ho Hdir] & Hw & Hl). split; [constructor; cbn; try done|split; [by apply work_ok_cancel|done]].
  intros tok b Eb. destruct (Hdir tok b Eb) as [? Hb]. split; [done|]. intros q Hq. destruct (Hb q Hq) as (? & ? & ?).
  split; [done|]. split; [done|]. by apply genuine_cancel.
Qed.

(** ** Stopping *)

Definition orphan (w : worker) (e : nat * Registration) : Prop := e ∈ in_flight w ∧ orphaned e.2 = true.

(** A request that [_fail_queued_requests] will find. *)
Definition owed (st : sys) (r : nat) : Prop :=
  r ∈ queued (wk st) ∨ ∃ e, orphan (wk st) e ∧ r ∈ reg_metadata e.2.

Record stopping (st : sys) : Prop := {
  sp_running : running (wk st) = false;
  sp_loop : ∃ h, loop st = LEnded h;
  sp_reg : reg_ok (wk st);
  sp_direct : ∀ tok b, direct st = Some (tok, b) →
    length (Batcher.fb_items b) = length (Batcher.fb_metadata b) ∧
    ∀ reg, dict_get tok (in_flight (wk st)) = Some reg → orphaned reg = false;
  sp_owed : stopped st = false → loop st = LEnded None →
    ∀ r, r ∈ submitted st → r ∉ refused st → done (fut (exe st) r) = false → owed st r;
  sp_done : stopped st = true → loop st = LEnded None → ∀ r, r ∈ submitted st → r ∉ refused st → done (fut (exe st) r) = true;
}.

Lemma exit_orphans w tok how e :
  reg_ok w → (∀ reg, dict_get tok (in_flight w) = Some reg → orphaned reg = false) →
  orphan w e → orphan (process_batch_exit w tok how) e.
Proof.
  intros [[Hwf _] _] Ht [Hin Ho]. split; [|done]. destruct e as [k reg]. cbn in Ho.
  apply dict_elem_get in Hin; [|done].
  assert (tok ≠ k) as Hne by (intros ->; rewrite (Ht reg Hin) in Ho; done).
  assert ((k, reg) ∈ dict_del tok (in_flight w)) as Hdel.
  { apply dict_get_Some_elem. rewrite dict_get_del by done. by rewrite decide_False. }
  destruct how; [done|done|]. cbn. destruct (negb (running w)); [|done].
  destruct (dict_get tok (in_flight w)); [|by apply dict_get_Some_elem].
  cbn. apply dict_get_Some_elem. by rewrite dict_get_set, decide_False.
Qed.

Lemma queued_batchers w w' : batchers w = batchers w' → queued w = queued w'.
Proof. unfold queued. by intros ->. Qed.

Lemma live_stop st s' :
  live st → cancel_effect (loop st) (exe st) s' →
  stopping (let w0 := mkWorker false (batchers (wk st)) (in_flight (wk st)) (in_flight_seq (wk st)) (loop_started (wk st)) in
    let '(w1, l) := cancel_loop w0 (loop st) in set_loop (set_wk (set_exe st s' (wst st)) w1) l).
Proof.
  intros ([Hr Hs Hd Hreg Ho Hdir] & Hw & Hl) Hc. cbv zeta. set (w0 := mkWorker false _ _ _ _).
  assert (reg_ok w0) as Hreg0 by exact Hreg.
  assert (∀ tok b, direct st = Some (tok, b) → length (Batcher.fb_items b) = length (Batcher.fb_metadata b) ∧
    ∀ reg, dict_get tok (in_flight w0) = Some reg → orphaned reg = false) as Hdir0.
  { intros tok b Eb. split; [apply (Hdir _ _ Eb)|]. intros reg Hg. apply dict_get_Some_elem in Hg.
    rewrite Forall_forall in Ho. exact (Ho _ Hg). }
  assert (queued w0 = snd <$> queued_pairs (wk st)) as Hq by (rewrite (queued_of_pairs w0); done).
  assert (∀ r p, (p, r) ∈ queued_pairs (wk st) → r ∈ queued w0) as Hqin.
  { intros r p Hin. rewrite Hq. by apply (list_elem_of_fmap_2 snd) in Hin. }
  unfold loop_ok in Hl. unfold outstanding in Hw. destruct Hw as [_ _ Q _ _].
  destruct (loop st) as [|? ?|lora b|tok lora b budget|? ?|?] eqn:El; cbn [cancel_loop cancel_effect loop_pairs] in *.
  1,2,5: subst s'; constructor; cbn; [done|by eexists|done|done| |by rewrite Hs].
  1,2,3: intros _ _ r Hr' Hn Hp; destruct (Q r Hr' Hn Hp) as [p Hin]; rewrite app_nil_r in Hin; left; by eapply Hqin.
  - subst s'. constructor; cbn; [done|by eexists|done|done|done|by rewrite Hs].
  - destruct Hl as (Hlen & Hdn & reg & Hg & Hmeta).
    constructor; cbn [set_loop set_wk set_exe wk loop direct stopped submitted exe].
    + by rewrite exit_running.
    + by eexists.
    + by apply exit_ok.
    + intros tok' b'. by rewrite Hdn.
    + intros _ _ r Hr' Hn Hp. destruct Hc as [Hsame Hmono].
      assert (done (fut (exe st) r) = false) as Hp0.
      { destruct (done (fut (exe st) r)) eqn:E; [|done]. by rewrite (Hmono r E) in Hp. }
      destruct (Q r Hr' Hn Hp0) as [p [Hin|Hin]%elem_of_app].
      * left. cbn [set_loop set_wk wk]. rewrite (queued_batchers _ w0) by apply exit_batchers. by eapply Hqin.
      * right. exists (tok, mkReg (token reg) (reg_metadata reg) (owner reg) true). split.
        -- split; [|done]. cbn [set_loop set_wk wk process_batch_exit negb running w0]. cbn [in_flight w0]. rewrite Hg.
           cbn. apply dict_get_Some_elem. by rewrite dict_get_set, decide_True.
        -- cbn. rewrite Hmeta. by eapply batch_pairs_metadata.
    + by rewrite Hs.
  - done.
Qed.

Lemma submit_running cfg bcfg w r lora prepared w' :
  submit cfg bcfg w r lora prepared = (w', Ret tt) → running w = true.
Proof. unfold submit, check_queue_capacity. by destruct (running w). Qed.

Lemma owed_mono st st' r :
  batchers (wk st') = batchers (wk st) → (∀ e, orphan (wk st) e → orphan (wk st') e) → owed st r → owed st' r.
Proof.
  intros Eb Hor [Hq|(e & He & ?)]; [left|right; eauto]. by rewrite (queued_batchers _ (wk st)).
Qed.

(** The end of a sidecar batch while the worker stops. *)
Lemma direct_end_stopping st tok b s' ws' how :
  stopping st → direct st = Some (tok, b) →
  (∀ r, done (fut (exe st) r) = true → done (fut s' r) = true) →
  stopping (set_direct (set_wk (set_exe st s' ws') (process_batch_exit (wk st) tok how)) None ∅).
Proof.
  intros [Hr [h Hl] Hreg Hdir How Hdn] Ed Hmono. destruct (Hdir _ _ Ed) as [_ Hno].
  constructor; cbn [set_direct set_wk set_exe wk loop direct stopped submitted exe].
  - by rewrite exit_running.
  - by exists h.
  - by apply exit_ok.
  - done.
  - intros Hs Hl' r Hr' Hn Hp.
    assert (done (fut (exe st) r) = false) as Hp0.
    { destruct (done (fut (exe st) r)) eqn:E; [|done]. by rewrite (Hmono r E) in Hp. }
    apply (owed_mono st); [apply exit_batchers| |auto]. intros e He. by apply exit_orphans.
  - auto.
Qed.

Lemma stopping_direct activated st entries task :
  stopping st → lock_free st = true → stopping (begin_direct activated st entries task).
Proof.
  intros [Hr Hl Hreg Hdir How Hdn] Ef. unfold lock_free in Ef. apply andb_true_iff in Ef as [_ Ef].
  destruct (direct st) eqn:Edir; [done|]. clear Ef Hdir.
  assert (∀ r, done (fut (reject_empty entries (exe st)) r) = false → done (fut (exe st) r) = false) as Hback.
  { intros r Hp. destruct (done (fut (exe st) r)) eqn:E; [|done].
    by rewrite (proj2 (proj2 (reject_empty_spec entries (exe st) r)) E) in Hp. }
  unfold begin_direct. cbv zeta. rewrite Edir. set (st0 := set_direct _ None _).
  assert (stopping st0) as Hst0.
  { constructor; cbn [st0 set_direct set_exe wk loop direct stopped submitted exe refused]; [done|done|done|done|intros; apply (owed_mono st); auto|].
    intros Hs Hl' r Hr' Hn. apply (proj2 (proj2 (reject_empty_spec entries (exe st) r))). auto. }
  destruct (Batcher.fb_items (preformed_batch entries)) eqn:Ei; [done|]. destruct activated; [|done]. unfold st0. clear Hst0 st0.
  - cbn [register_in_flight token].
    constructor; cbn [set_direct set_wk set_exe wk loop direct stopped submitted exe running]; [done|done| | | |].
    + exact (register_ok _ (preformed_batch entries) task Hreg).
    + intros tok b' [= <- <-]. split; [apply preformed_length|]. intros reg. cbn [in_flight]. rewrite dict_get_set, decide_True by done.
      by intros [= <-].
    + intros Hs Hl' r Hr' Hn Hp. apply (owed_mono st); [done| |auto]. intros [k reg] [Hin Ho]. split; [|done]. cbn.
      destruct Hreg as [[Hwf _] Hseq]. rewrite Forall_forall in Hseq. pose proof (Hseq _ Hin) as Hk. cbn in Hk.
      apply dict_elem_get in Hin; [|done]. apply dict_get_Some_elem. rewrite dict_get_set, decide_False by lia. done.
    + intros Hs Hl' r Hr' Hn. apply (proj2 (proj2 (reject_empty_spec entries (exe st) r))). auto.
Qed.

Lemma stopping_fail st tasks w' fs' n :
  stopping st → stopped st = false →
  fail_queued_requests drained tasks (wk st) (λ r, fut (exe st) r) = (w', fs', n) →
  stopping (mkSys w' (set_futures (exe st) fs') (wst st) (loop st) (direct st) (submitted st) (known st) (refused st) true).
Proof.
  intros [Hr Hl [Hwf Hseq] Hdir How _] Hs E. pose proof (fail_queued_eq drained tasks (wk st) (λ r, fut (exe st) r)) as Heq.
  cbv zeta in Heq. rewrite E in Heq. destruct Heq as (-> & Hf & _).
  assert (in_flight (take_abandoned tasks (drain_batchers (wk st))).1 =
    filter (λ e, is_abandoned tasks e.2 = false) (in_flight (wk st))) as Hif by exact (take_abandoned_spec tasks (drain_batchers (wk st)) Hwf).
  assert (∀ P : nat * Registration → Prop, Forall P (in_flight (wk st)) →
    Forall P (filter (λ e, is_abandoned tasks e.2 = false) (in_flight (wk st)))) as Hsubl.
  { intros P HP. rewrite Forall_forall in *. intros e [_ He]%list_elem_of_filter. auto. }
  destruct Hwf as [Hwf Htok].
  assert (dict_wf (filter (λ e, is_abandoned tasks e.2 = false) (in_flight (wk st)))) as Hwf'.
  { unfold dict_wf, dict_keys in *. eapply sublist_NoDup; [exact Hwf|]. apply fmap_sublist, sublist_filter. }
  constructor; cbn [wk loop direct stopped submitted exe]; [done|done| | |done|].
  - split; [split|]; rewrite Hif; [done|by apply Hsubl|]. cbn [in_flight_seq]. by apply Hsubl.
  - intros tok b Eb. destruct (Hdir tok b Eb) as [? Hno]. split; [done|]. intros reg. rewrite Hif. intros Hg.
    apply dict_get_Some_elem, list_elem_of_filter in Hg as [_ Hg]. apply dict_elem_get in Hg; [|done]. auto.
  - intros _ Hl' r Hr' Hn. cbn. rewrite Hf. case_bool_decide as Hb; [done|]. destruct (done (fut (exe st) r)) eqn:Ed; [done|].
    destruct Hb. split; [|done]. apply elem_of_app. destruct (How Hs Hl' r Hr' Hn Ed) as [?|(e & [He Ho] & Hm)]; [by left|right].
    unfold abandoned. apply list_elem_of_join. exists (reg_metadata e.2). split; [done|]. apply list_elem_of_fmap_2.
    apply list_elem_of_In, filter_In. split; [apply list_elem_of_In; by apply (list_elem_of_fmap_2 snd) in He|].
    unfold is_abandoned. by rewrite Ho.
Qed.

Lemma cancel_future_mono s q r : done (fut s r) = true → done (fut (cancel_future s q) r) = true.
Proof.
  intros H. unfold cancel_future. destruct (m_future (metas s q)); try done. cbn.
  destruct (decide (r = q)) as [->|]; [by rewrite fn_lookup_insert|by rewrite fn_lookup_insert_ne].
Qed.

Lemma stopping_step st st' : stopping st → worker_step st st' → stopping st'.
Proof.
  intros Hst Hstep. pose proof Hst as [Hr [h Hl] Hreg Hdir How Hdn].
  destruct Hstep as [cfg bcfg st r lora prepared w' _ _ Hsub|st lora wi El|cfg bcfg st lora wi f ts f' El|
    cfg bcfg act st lora wi f ts f' b El|act st lora b El|st tok lora b budget s' ws' out El|bcfg st lora budget El|
    act st entries task Hf _|st tok b s' ws' out Ed E|st tok b s' ws' Ed [_ Hm]|st r _|st s' Hrun|st tasks w' fs' n _ Hs E]; try congruence.
  - apply submit_running in Hsub. congruence.
  - by apply stopping_direct.
  - apply (direct_end_stopping _ _ b); [done|done|]. eapply Dispatch.dispatch_batch_done_mono; [|exact E]. by eapply Hdir.
  - by apply (direct_end_stopping _ _ b).
  - constructor; cbn [set_exe wk loop direct stopped submitted exe]; [done|by exists h|done|done| |].
    + intros Hs Hl' q Hq Hn Hp. apply (owed_mono st); [done|done|]. apply How; [done|done|done|done|].
      destruct (done (fut (exe st) q)) eqn:E; [|done]. by rewrite cancel_future_mono in Hp.
    + intros Hs Hl' q Hq Hn. by apply cancel_future_mono, Hdn.
  - by eapply stopping_fail.
Qed.

Lemma live_step st st' : live st → worker_step st st' → live st' ∨ stopping st'.
Proof.
  intros Hlv Hstep.
  destruct Hstep as [cfg bcfg st r lora prepared w' Hf Hp Hsub|st lora wi El _ _|cfg bcfg st lora wi f ts f' El Ef Ep|
    cfg bcfg act st lora wi f ts f' b El Ef Ep|act st lora b El Ef|st tok lora b budget s' ws' out El E|bcfg st lora budget El|
    act st entries task Hf He|st tok b s' ws' out Ed E|st tok b s' ws' Ed Hi|st r _|st s' Hrun Hc|st tasks w' fs' n Hrun Hs E].
  - left. by eapply live_submit.
  - left. destruct Hlv as (Hb & Hw & _). split; [by apply base_set_loop|]. split; [|done].
    unfold outstanding in *. by rewrite El in Hw.
  - left. by eapply live_gather.
  - left. by eapply live_take.
  - left. by apply live_acquire.
  - left. by eapply live_finish.
  - left. by apply live_drain.
  - left. by apply live_direct.
  - left. by eapply live_direct_finish.
  - left. by eapply live_direct_cancel.
  - left. by apply live_cancel.
  - right. by apply live_stop.
  - destruct Hlv as ([Hr _ _ _ _ _] & _). congruence.
Qed.

Lemma start_live w0 : live (start_sys w0).
Proof.
  split; [constructor; cbn; try done|split; [constructor; cbn|done]].
  - apply NoDup_singleton.
  - split; [split|]; cbn; [apply NoDup_nil_2|constructor..].
  - set_solver.
  - intros p r H. by apply elem_of_nil in H.
  - set_solver.
  - set_solver.
  - intros r _. split; [by intros ps|by intros i v].
Qed.

Lemma sys_reachable_inv w0 st : reachable w0 st → live st ∨ stopping st.
Proof.
  unfold reachable. apply (rtc_ind_r (λ st, live st ∨ stopping st)); [left; apply start_live|].
  intros y z _ Hyz [?|?]; [by eapply live_step|right; by eapply stopping_step].
Qed.

(** C1 — a running worker never loses a request, but for a batch whose LoRA the adapter
    refuses.  In every reachable state of a worker that has not been stopped, whatever the
    interleaving of submissions, selections, drains, sidecar batches, failing forward passes
    and cancellations by clients: a submitted request whose future is pending has an item
    waiting in a batcher or in the batch the loop holds, every one of its items is there or
    has its result stored, and a batch being dispatched is in the in-flight register.  Three
    things are assumed.  The request was not in a batch that the loop dropped because
    [set_active_lora] raised ([r ∉ refused st]; such a batch is lost,
    [refused_lora_loses_batch]).  No client cancels a request while its own batch runs
    ([no_cancel]; see [cancelled_request_loses_siblings]).  The outputs the adapter returns
    for the items of one request carry the same fields ([outputs_alike]), so that they can
    be put together. *)
Theorem no_request_lost w0 st r :
  reachable w0 st → running (wk st) = true → r ∈ submitted st → r ∉ refused st → m_future (metas (exe st) r) = Pending →
  (∃ p, (p, r) ∈ outstanding st) ∧
  (∀ i, (i < length (Dispatch.req_items (reqs r)))%nat →
    is_Some (partial_at (metas (exe st) r) (Z.of_nat i)) ∨ ∃ p, (p, r) ∈ outstanding st ∧ original_index p = i) ∧
  (∀ tok lora b budget, loop st = LDispatch tok lora b budget →
    ∃ reg, dict_get tok (in_flight (wk st)) = Some reg ∧ reg_metadata reg = Batcher.fb_metadata b).
Proof.
  intros Hre Hr Hin Hn Hp. destruct (sys_reachable_inv w0 st Hre) as [(_ & [_ _ Q C _] & Hl)|[Hr' _ _ _ _ _]]; [|congruence].
  assert (done (fut (exe st) r) = false) as Hd by by rewrite Hp.
  split; [by apply Q|]. split; [intros i Hi; by apply C|]. intros tok lora b budget El. unfold loop_ok in Hl. rewrite El in Hl.
  by destruct Hl as (_ & _ & ?).
Qed.

(** C2 — [stop] answers everyone.  Once [stop] has failed what was left, every request
    ever submitted has a finished future, and keeps it, with two exceptions: the loop was
    cancelled while it held a batch and waited for the dispatch lock ([loop st] is not
    [LEnded None]; [stop_loses_waiting_batch]), or the request was in a batch dropped because
    [set_active_lora] raised ([refused]; [refused_lora_loses_batch]).  As for a running worker,
    it is assumed that no client cancels a request while its own batch runs ([no_cancel];
    [cancelled_request_loses_siblings] is what happens otherwise), and that the outputs the
    adapter returns for the items of one request carry the same fields ([outputs_alike]). *)
Theorem stop_answers_everyone w0 st r :
  reachable w0 st → stopped st = true → loop st = LEnded None → r ∈ submitted st → r ∉ refused st →
  done (m_future (metas (exe st) r)) = true.
Proof.
  intros Hre Hs Hl Hr Hn. destruct (sys_reachable_inv w0 st Hre) as [([_ Hs' _ _ _ _] & _)|[_ _ _ _ _ Hdn]]; [congruence|auto].
Qed.
End system.
End worker.

(** ** Concrete runs *)

#[local] Existing Instance Batcher.nat_HasCost.

Definition demo_drained : Oom.exn := Oom.OtherError "WorkerDrainedError".
Abbreviation demo_sys := (sys (Prepared := nat) (O := Dispatch.demo_out) (W := nat)).
Abbreviation demo_step := (worker_step Dispatch.demo_handlers Dispatch.demo_reqs (Dispatch.demo_device []) "m"
  Oom.default_config demo_drained).
Abbreviation demo_reachable := (reachable Dispatch.demo_handlers Dispatch.demo_reqs (Dispatch.demo_device []) "m"
  Oom.default_config demo_drained 0%nat).

(** A bounded queue and dispatch without coalescing. *)
Definition demo_wcfg : WorkerConfig := mkWorkerConfig 3 f0.
Definition demo_clock : float * float * Batcher.readings := (f0, f0, Batcher.demo_readings).

Definition demo_start : demo_sys := start_sys 0%nat.

(** Request 1, with two items, is submitted. *)
Definition demo_prepared : list (nat * (float * float * Batcher.readings)) := [(0%nat, demo_clock); (1%nat, demo_clock)].
Definition demo_w1 : worker (Prepared := nat) :=
  (submit demo_wcfg Batcher.demo_config (start init_worker) 1 None demo_prepared).1.

Definition demo_submit (lora : option string) (st : demo_sys) : demo_sys :=
  mkSys (submit demo_wcfg Batcher.demo_config (wk st) 1 lora demo_prepared).1 (exe st) (wst st) (loop st) (direct st)
    ({[1%nat]} ∪ submitted st) ({[1%nat]} ∪ known st) (refused st) (stopped st).

(** A sidecar batch for request 2 takes the dispatch lock. *)
Definition demo_sidecar : demo_sys := begin_direct true demo_start [([0%nat], 2%nat)] (Some 9%nat).

Definition demo_stop (st : demo_sys) : demo_sys :=
  let w0 := mkWorker false (batchers (wk st)) (in_flight (wk st)) (in_flight_seq (wk st)) (loop_started (wk st)) in
  let '(w1, l) := cancel_loop w0 (loop st) in set_loop (set_wk (set_exe st (exe st) (wst st)) w1) l.

Definition alive (t : nat) : task_state := mkTask false 0.

Definition demo_fail (st : demo_sys) : demo_sys :=
  let '(w', fs', _) := fail_queued_requests demo_drained alive (wk st) (λ r, m_future (metas (exe st) r)) in
  mkSys w' (set_futures (exe st) fs') (wst st) (loop st) (direct st) (submitted st) (known st) (refused st) true.

Definition demo_polled (activated : bool) (lora : option string) (st : demo_sys) : demo_sys :=
  match dict_get lora (batchers (wk st)) with
  | Some f =>
      match poll_selected demo_wcfg Batcher.demo_config true f Batcher.demo_readings with
      | (f', Some b) => take_batch activated (set_wk st (set_batchers (wk st) (dict_set lora f' (batchers (wk st))))) lora b
      | _ => st
      end
  | None => st
  end.

Lemma demo_submit_step lora st :
  1%nat ∉ known st → submit demo_wcfg Batcher.demo_config (wk st) 1 lora demo_prepared =
    ((submit demo_wcfg Batcher.demo_config (wk st) 1 lora demo_prepared).1, Ret tt) →
  demo_step st (demo_submit lora st).
Proof. intros Hk Hs. eapply step_submit; [done| |exact Hs]. by split. Qed.

Lemma demo_fail_step st : running (wk st) = false → stopped st = false → demo_step st (demo_fail st).
Proof.
  intros Hr Hs. unfold demo_fail. destruct (fail_queued_requests _ _ _ _) as [[w' fs'] n] eqn:E. by eapply step_fail.
Qed.

Lemma demo_stop_step st :
  running (wk st) = true → cancel_effect (loop st) (exe st) (exe st) → demo_step st (demo_stop st).
Proof. intros Hr Hc. by apply step_stop. Qed.

Lemma demo_poll_step activated lora st :
  loop st = LGather lora true →
  (∃ f f' b, dict_get lora (batchers (wk st)) = Some f ∧
    poll_selected demo_wcfg Batcher.demo_config true f Batcher.demo_readings = (f', Some b)) →
  demo_step st (demo_polled activated lora st).
Proof. intros Hl (f & f' & b & Hf & Hp). unfold demo_polled. rewrite Hf, Hp. by eapply step_take. Qed.

Lemma submit_bounded_witness :
  pending_count demo_w1 = 2 ∧ pending_count demo_w1 <= max_queue_size demo_wcfg.
Proof.
  pose proof (submit_bounded demo_wcfg Batcher.demo_config (start init_worker) 1 None demo_prepared) as H.
  destruct H as (_ & _ & _ & _ & Hp & Hb); [apply NoDup_singleton|]. split; [exact Hp|]. apply Hb. reflexivity.
Defined.

(** The base model has an older request than the LoRA "a". *)
Definition demo_lora_batchers : list (option string * Batcher.BatchFormer (I := nat) (T := nat)) :=
  [(None, Batcher.submit_many Batcher.demo_config Batcher.init_former [(0%nat, 1%nat, (f1, f1, Batcher.demo_readings))]);
   (Some "a"%string, Batcher.submit_many Batcher.demo_config Batcher.init_former [(0%nat, 2%nat, (f2, f2, Batcher.demo_readings))])].

Lemma select_fcfs_oldest_witness :
  ∃ f t, dict_get None demo_lora_batchers = Some f ∧ Batcher.pending f ≠ [] ∧
    Batcher.first_request_time f = Some t ∧
    ∀ k g u, (k, g) ∈ demo_lora_batchers → Batcher.pending g ≠ [] → Batcher.first_request_time g = Some u → flt u t = false.
Proof.
  pose proof (select_fcfs_oldest demo_lora_batchers) as H.
  assert (select_fcfs demo_lora_batchers = Some None) as E by (vm_compute; reflexivity). rewrite E in H. apply H.
  - unfold dict_wf. apply (bool_decide_eq_true_1 _). vm_compute. reflexivity.
  - eexists. reflexivity.
  - repeat constructor; intros _; eexists; (split; [reflexivity|vm_compute; reflexivity]).
Defined.

Lemma fail_queued_settles_witness :
  (fail_queued_requests demo_drained alive demo_w1 (λ _, Pending (R := nat))).2 = 1.
Proof.
  pose proof (fail_queued_settles demo_drained alive demo_w1 (λ _, Pending (R := nat))) as H.
  destruct (fail_queued_requests demo_drained alive demo_w1 (λ _, Pending (R := nat))) as [[w' fs'] n].
  destruct H as (_ & _ & Hn & _); [split; [apply NoDup_nil_2|constructor]|].
  cbn [snd]. rewrite Hn. vm_compute. reflexivity.
Defined.

Lemma demo_submit_reachable : demo_reachable (demo_submit None demo_start).
Proof. apply rtc_once, demo_submit_step; [apply not_elem_of_empty|reflexivity]. Qed.

Lemma no_request_lost_witness : ∃ p, (p, 1%nat) ∈ outstanding (demo_submit None demo_start).
Proof.
  refine (proj1 (no_request_lost Dispatch.demo_handlers Dispatch.demo_reqs (Dispatch.demo_device []) "m"
    Oom.default_config demo_drained (laws := Dispatch.demo_laws) Dispatch.demo_outputs_alike Dispatch.demo_no_cancel
    0%nat (demo_submit None demo_start) 1%nat demo_submit_reachable _ _ _ _)).
  - reflexivity.
  - apply (bool_decide_eq_true_1 _). vm_compute. reflexivity.
  - apply not_elem_of_empty.
  - reflexivity.
Defined.

Lemma demo_stopped_reachable : demo_reachable (demo_fail (demo_stop (demo_submit None demo_start))).
Proof.
  eapply rtc_r; [|apply demo_fail_step; reflexivity]. eapply rtc_r; [apply demo_submit_reachable|].
  apply demo_stop_step; reflexivity.
Qed.

Lemma stop_answers_everyone_witness :
  done (m_future (metas (exe (demo_fail (demo_stop (demo_submit None demo_start)))) 1%nat)) = true.
Proof.
  apply (stop_answers_everyone Dispatch.demo_handlers Dispatch.demo_reqs (Dispatch.demo_device []) "m"
    Oom.default_config demo_drained (laws := Dispatch.demo_laws) Dispatch.demo_outputs_alike Dispatch.demo_no_cancel
    0%nat (demo_fail (demo_stop (demo_submit None demo_start))) 1%nat demo_stopped_reachable).
  - reflexivity.
  - reflexivity.
  - apply (bool_decide_eq_true_1 _). vm_compute. reflexivity.
  - apply not_elem_of_empty.
Defined.

(** A batch that waits for the dispatch lock is lost by [stop].  While a sidecar
    batch holds [_adapter_dispatch_lock], the loop extracts request 1 from its batcher and
    waits for the lock; [stop] cancels it there, before [_register_in_flight].  The drain
    finds the request neither queued nor in flight: after [stop] its future is pending,
    and nothing in the worker refers to it any more. *)
Theorem stop_loses_waiting_batch :
  ∃ st, demo_reachable st ∧ stopped st = true ∧ running (wk st) = false ∧ 1%nat ∈ submitted st ∧
    m_future (metas (exe st) 1%nat) = Pending ∧ queued (wk st) = [] ∧
    Forall (λ e, 1%nat ∉ reg_metadata e.2) (in_flight (wk st)) ∧
    loop st = LEnded (Some (Batcher.mkBatch [0; 1]%nat [1; 1]%nat 1)).
Proof.
  set (s1 := demo_submit None demo_sidecar). set (s2 := set_loop s1 (LGather None true)).
  assert (loop (demo_polled true None s2) = LWaitLock None (Batcher.mkBatch [0; 1]%nat [1; 1]%nat 1)) as El
    by (vm_compute; reflexivity).
  exists (demo_fail (demo_stop (demo_polled true None s2))). split.
  - eapply rtc_r; [|apply demo_fail_step; vm_compute; reflexivity].
    eapply rtc_r; [|apply demo_stop_step; [vm_compute; reflexivity|by rewrite El]].
    eapply rtc_r; [|apply demo_poll_step; [reflexivity|eexists _, _, _; split; [reflexivity|vm_compute; reflexivity]]].
    eapply rtc_r; [|apply (step_select _ _ _ _ _ _ s1 None true); [reflexivity|vm_compute; reflexivity|vm_compute; reflexivity]].
    eapply rtc_r; [|apply demo_submit_step; [|vm_compute; reflexivity]].
    2:{ apply (bool_decide_eq_true_1 _). vm_compute. reflexivity. }
    apply rtc_once, (step_direct _ _ _ _ _ _ true demo_start [([0%nat], 2%nat)] (Some 9%nat)); [reflexivity|].
    intros ps r H. apply list_elem_of_singleton in H as [= -> ->]. split; [apply not_elem_of_empty|].
    intros p ->%list_elem_of_singleton. cbn. lia.
  - split; [reflexivity|]. split; [reflexivity|]. split; [apply (bool_decide_eq_true_1 _); vm_compute; reflexivity|].
    split; [vm_compute; reflexivity|]. split; [vm_compute; reflexivity|]. split; [|vm_compute; reflexivity].
    apply (bool_decide_eq_true_1 _). vm_compute. reflexivity.
Qed.

(** A batch whose LoRA the adapter refuses is lost.  [PEFTLoRAMixin.set_active_lora] raises for
    a LoRA that was evicted after the request was accepted.  The loop logs the error and goes
    on; the batch has left its batcher and was not registered, so the request's future stays
    pending on a running worker, and a later [stop] does not find it either. *)
Theorem refused_lora_loses_batch :
  ∃ st, demo_reachable st ∧ running (wk st) = true ∧ loop st = LPoll ∧ 1%nat ∈ submitted st ∧
    m_future (metas (exe st) 1%nat) = Pending ∧ outstanding st = [] ∧ in_flight (wk st) = [] ∧
    demo_step (demo_stop st) (demo_fail (demo_stop st)) ∧ m_future (metas (exe (demo_fail (demo_stop st))) 1%nat) = Pending.
Proof.
  set (s1 := demo_submit (Some "a"%string) demo_start). set (s2 := set_loop s1 (LGather (Some "a"%string) true)).
  exists (demo_polled false (Some "a"%string) s2). split.
  - eapply rtc_r; [|apply demo_poll_step; [reflexivity|eexists _, _, _; split; [reflexivity|vm_compute; reflexivity]]].
    eapply rtc_r; [apply rtc_once, demo_submit_step; [apply not_elem_of_empty|reflexivity]|].
    apply (step_select _ _ _ _ _ _ s1 (Some "a"%string) true); [reflexivity|vm_compute; reflexivity|vm_compute; reflexivity].
  - split; [reflexivity|]. split; [vm_compute; reflexivity|]. split; [apply (bool_decide_eq_true_1 _); vm_compute; reflexivity|].
    split; [vm_compute; reflexivity|]. split; [vm_compute; reflexivity|]. split; [vm_compute; reflexivity|].
    split; [apply demo_fail_step; vm_compute; reflexivity|vm_compute; reflexivity].
Qed.

End Worker.
