(* ===== verification/LoadErrors.v ===== *)
(** Classification of model-load failures: [core/load_errors.py].

    An exception is what the code inspects of it: the name of its type, the classes
    of the list below it is an instance of, and its text.  Subclassing is in the
    list: the [ModelLoadTimeoutError] the loader raises is also a [TimeoutError].
    [OOM] detection is [Oom.is_oom_error]. *)

From S2P Require Import Prelude PyFloat Oom.
Local Open Scope Z_scope.

Module LoadErrors.

(** The classes an [isinstance] test of the load path names. *)
Inductive exc_class :=
| BaseOnly                     (* CancelledError, KeyboardInterrupt, SystemExit *)
| ModelLoadTimeoutError | TimeoutError | GatedModelError | RepositoryNotFoundError
| RuntimeError | ResourceExhaustedError | ImportError | ModuleNotFoundError
| ConnectionError | HttpxTransportError | HttpxHTTPError
| RequestsConnectionError | RequestsTimeout | RequestsChunkedEncodingError
| KeyError | ValueError.

#[export] Instance exc_class_eq_dec : EqDecision exc_class.
Proof. solve_decision. Defined.

Record exc := mkExc {
  exc_type : string;              (* [type(exc).__name__] *)
  exc_classes : list exc_class;   (* what it is an instance of *)
  exc_str : string;               (* [str(exc)] *)
  exc_stage : string;             (* [exc.stage] of a ModelLoadTimeoutError *)
}.

#[export] Instance exc_eq_dec : EqDecision exc.
Proof. solve_decision. Defined.

Definition isinstance (e : exc) (c : exc_class) : bool := bool_decide (c ∈ exc_classes e).

(** [except Exception] catches everything but the three base exceptions. *)
Definition is_exception (e : exc) : bool := negb (isinstance e BaseOnly).

(** The exception as [is_oom_error] sees it. *)
Definition as_oom (e : exc) : Oom.exn :=
  if isinstance e ResourceExhaustedError
  then Oom.ResourceExhaustedError (exc_str e) (Oom.mkMarker "" 0 (exc_str e))
  else Oom.OtherError (exc_str e).

Inductive LoadErrorClass := GATED | NOT_FOUND | OOM | NETWORK | DEPENDENCY | TIMEOUT | UNKNOWN.

#[export] Instance LoadErrorClass_eq_dec : EqDecision LoadErrorClass.
Proof. solve_decision. Defined.

(** [_COOLDOWN_BY_CLASS] *)
Definition COOLDOWN_BY_CLASS (c : LoadErrorClass) : option float :=
  match c with
  | GATED | NOT_FOUND | DEPENDENCY | UNKNOWN => None
  | OOM => Some (f_of_Z 60)
  | NETWORK | TIMEOUT => Some (f_of_Z 30)
  end.

Record LoadFailureClassification := mkClassification {
  error_class : LoadErrorClass;
  cooldown_s : option float;
}.

(** Which of the optional packages the classifier can import. *)
Record imports := mkImports {
  has_huggingface_hub : bool;
  has_httpx : bool;
  has_requests : bool;
}.

Definition all_imports : imports := mkImports true true true.

Definition network_excs (i : imports) : list exc_class :=
  [ConnectionError; TimeoutError]
  ++ (if has_httpx i then [HttpxTransportError; HttpxHTTPError] else [])
  ++ (if has_requests i
      then [RequestsConnectionError; RequestsTimeout; RequestsChunkedEncodingError] else []).

Definition classified (c : LoadErrorClass) : LoadFailureClassification :=
  mkClassification c (COOLDOWN_BY_CLASS c).

(** [classify_load_error] *)
Definition classify_load_error (i : imports) (e : exc) : LoadFailureClassification :=
  if isinstance e ModelLoadTimeoutError then classified TIMEOUT
  else if isinstance e GatedModelError then classified GATED
  else if has_huggingface_hub i && isinstance e RepositoryNotFoundError then classified NOT_FOUND
  else if isinstance e RuntimeError && Oom.is_oom_error (as_oom e) then classified OOM
  else if isinstance e ImportError || isinstance e ModuleNotFoundError then classified DEPENDENCY
  else if existsb (isinstance e) (network_excs i) then classified NETWORK
  else classified UNKNOWN.

(** [LoadFailure] *)
Record LoadFailure := mkFailure {
  f_error_class : LoadErrorClass;
  f_message : string;
  f_attempts : Z;
  f_last_attempt_ts : float;
  f_cooldown_s : option float;
}.

(** [LoadFailure.is_permanent] *)
Definition is_permanent (f : LoadFailure) : bool :=
  match f_cooldown_s f with None => true | Some _ => false end.

(** [LoadFailure.in_cooldown] *)
Definition in_cooldown (f : LoadFailure) (now : float) : bool :=
  match f_cooldown_s f with
  | None => true
  | Some c => flt (fsub now (f_last_attempt_ts f)) c
  end.

(** ** Properties *)

(** The cooldown of a classification is the one its class has in the table. *)
Lemma classify_cooldown i e :
  cooldown_s (classify_load_error i e) =
  COOLDOWN_BY_CLASS (error_class (classify_load_error i e)).
Proof. unfold classify_load_error, classified. by split_ifs. Qed.

(** Which classes block a model for good. *)
Definition permanent_class (c : LoadErrorClass) : bool :=
  match c with GATED | NOT_FOUND | DEPENDENCY | UNKNOWN => true | _ => false end.

Lemma permanent_class_cooldown c :
  COOLDOWN_BY_CLASS c = None ↔ permanent_class c = true.
Proof. destruct c; split; done. Qed.

(** An exception is classified as transient only for a reason: it is the loader's own
    timeout, an out-of-memory [RuntimeError], or one of the network classes. *)
Lemma classify_transient i e :
  permanent_class (error_class (classify_load_error i e)) = false →
  isinstance e ModelLoadTimeoutError = true ∨
  (isinstance e RuntimeError = true ∧ Oom.is_oom_error (as_oom e) = true) ∨
  ∃ c, c ∈ network_excs i ∧ isinstance e c = true.
Proof.
  unfold classify_load_error. intros H.
  destruct (isinstance e ModelLoadTimeoutError); [auto|].
  destruct (isinstance e GatedModelError); [done|].
  destruct (has_huggingface_hub i && _); [done|].
  destruct (isinstance e RuntimeError && _) eqn:Ho; [apply andb_true_iff in Ho; auto|].
  destruct (isinstance e ImportError || _); [done|].
  destruct (existsb _ _) eqn:Hn; [|done]. apply existsb_exists in Hn as (c & Hc & Hi).
  right; right. exists c. split; [by apply list_elem_of_In|done].
Qed.

End LoadErrors.
