(* ===== verification/RegistryIds.v ===== *)
(** Model ids and devices of the registry: the helpers of [core/registry.py] that
    normalise pinned ids and device lists.  Ids and devices are ASCII text. *)

From Stdlib Require Import Ascii.
From S2P Require Import Prelude PyStr.

Module RegistryIds.

(** [_base_model_id] *)
Definition base_model_id (raw : string) : string :=
  let '(base, _, _) := partition colon raw in lower (strip base).

(** [_canonical_pinned_id] *)
Definition canonical_pinned_id (raw : string) : string :=
  let '(base, sep, profile) := partition colon (lower (strip raw)) in
  let base := strip base in
  let profile := strip profile in
  if negb sep || bool_decide (profile = ""%string) || bool_decide (profile = "default"%string)
  then base
  else base +:+ String colon profile.

(** [_normalize_pinned] (a [None] list is the empty one) *)
Definition normalize_pinned (pinned : list string) : gset string :=
  list_to_set (filter (λ c, c ≠ ""%string) (canonical_pinned_id <$> pinned)).

(** [_is_pinned] *)
Definition is_pinned (pinned : gset string) (name : string) : bool :=
  bool_decide (lower (strip name) ∈ pinned).

(** [resolve_model_id]; [ids] are the keys of [_configs] in order. *)
Definition resolve_model_id (ids : list string) (raw_id : string) : option string :=
  let canonical := canonical_pinned_id raw_id in
  if bool_decide (canonical = ""%string) then None
  else find (λ sie_id, bool_decide (lower (strip sie_id) = canonical)) ids.

(** [_normalize_devices]: the loop, with what it has seen. *)
Fixpoint dedup_devices (seen : list string) (raw_devices : list string) : list string :=
  match raw_devices with
  | [] => []
  | raw :: rest =>
      let item := strip raw in
      if bool_decide (item = ""%string) || bool_decide (item ∈ seen)
      then dedup_devices seen rest
      else item :: dedup_devices (seen ++ [item]) rest
  end.

Definition normalize_devices (device : string) (devices : list string) : list string :=
  let raw_devices := match devices with [] => [device] | _ => devices end in
  match dedup_devices [] raw_devices with
  | [] => [device]
  | normalized => normalized
  end.

(** [_device_family] *)
Definition device_family (device : string) : string :=
  let '(family, _, _) := partition colon device in lower family.

(** ** Canonical ids *)

Lemma canonical_shape raw :
  let c := canonical_pinned_id raw in
  is_lower c ∧ strip c = c ∧
  (char_in colon c = false ∨
   ∃ base profile, c = base +:+ String colon profile ∧ char_in colon base = false ∧
     strip base = base ∧ strip profile = profile ∧
     profile ≠ ""%string ∧ profile ≠ "default"%string).
Proof.
  unfold canonical_pinned_id.
  destruct (partition colon (lower (strip raw))) as [[b sep] p] eqn:E.
  assert (is_lower (lower (strip raw))) as Hlow by apply lower_idem.
  destruct (partition_spec _ _ _ _ _ E) as [Hcb Hsep].
  assert (is_lower b ∧ is_lower p) as [Hb Hp].
  { destruct sep; [rewrite Hsep in Hlow|destruct Hsep as [<- ->]; done].
    apply is_lower_append in Hlow as [? Hq]. split; [done|].
    by apply is_lower_cons in Hq as [_ ?]. }
  destruct (negb sep || _ || _) eqn:Hif; cbn zeta.
  - split; [by apply is_lower_strip|]. split; [apply strip_idem|]. left. by apply char_in_strip.
  - apply orb_false_iff in Hif as [[_ Hne]%orb_false_iff Hnd].
    apply bool_decide_eq_false in Hne, Hnd.
    split; [|split].
    + apply is_lower_append. split; [by apply is_lower_strip|].
      apply is_lower_cons. split; [done|by apply is_lower_strip].
    + apply strip_fixed.
      * pose proof (strip_no_lead b) as Hl. by destruct (strip b) as [|a s].
      * apply rstrip_append; [done|].
        change (rstrip (String colon (strip p))) with
          (match rstrip (strip p) with
           | EmptyString => if is_space colon then EmptyString else String colon EmptyString
           | t => String colon t end).
        rewrite rstrip_strip. by destruct (strip p).
    + right. exists (strip b), (strip p).
      split; [done|]. split; [by apply char_in_strip|]. by rewrite !strip_idem.
Qed.

Lemma canonical_idem raw : canonical_pinned_id (canonical_pinned_id raw) = canonical_pinned_id raw.
Proof.
  destruct (canonical_shape raw) as (Hlow & Hstrip & Hshape).
  set (c := canonical_pinned_id raw) in *. clearbody c.
  unfold canonical_pinned_id. rewrite Hstrip, Hlow.
  destruct Hshape as [Hc|(b & p & Hcp & Hcb & Hb & Hp & Hne & Hnd)].
  - rewrite partition_absent by done. cbn. done.
  - rewrite Hcp, partition_found, Hb, Hp by done. cbn [negb orb].
    rewrite !bool_decide_false by done. done.
Qed.

Lemma elem_of_normalize_pinned c pinned :
  c ∈ normalize_pinned pinned ↔
  c ≠ ""%string ∧ ∃ raw, raw ∈ pinned ∧ canonical_pinned_id raw = c.
Proof.
  unfold normalize_pinned. rewrite elem_of_list_to_set, list_elem_of_filter, list_elem_of_fmap.
  naive_solver.
Qed.

(** Pinned ids normalise to a canonical form: normalising an already normalised
    set changes nothing, every element is its own canonical form, and an id resolves to
    a configuration only if that configuration is pinned by every set that contains the
    id.  So a pin is recognised under any spelling (case, blanks, [:default] suffix),
    and the runtime pin set can be re-sent without effect. *)
Theorem pinned_ids_canonical (pinned : list string) (ids : list string) :
  normalize_pinned (elements (normalize_pinned pinned)) = normalize_pinned pinned ∧
  (∀ c, c ∈ normalize_pinned pinned → canonical_pinned_id c = c) ∧
  (∀ raw name, raw ∈ pinned → resolve_model_id ids raw = Some name →
     name ∈ ids ∧ is_pinned (normalize_pinned pinned) name = true).
Proof.
  assert (∀ c, c ∈ normalize_pinned pinned → canonical_pinned_id c = c) as Hfix.
  { intros c (_ & raw & _ & <-)%elem_of_normalize_pinned. apply canonical_idem. }
  split; [|split; [done|]].
  - apply set_eq. intros c. rewrite elem_of_normalize_pinned. split.
    + intros (Hne & raw & Hraw & <-). apply elem_of_elements in Hraw. by rewrite Hfix.
    + intros Hc. pose proof Hc as Hc'. apply elem_of_normalize_pinned in Hc' as [Hne _].
      split; [done|]. exists c. rewrite elem_of_elements. auto.
  - intros raw name Hraw Hres. unfold resolve_model_id in Hres.
    case_bool_decide as Hne; [done|]. apply find_some in Hres as [Hin Heq].
    apply bool_decide_eq_true in Heq. split; [by apply list_elem_of_In|].
    unfold is_pinned. apply bool_decide_eq_true. rewrite Heq.
    apply elem_of_normalize_pinned. eauto.
Qed.

Lemma pinned_ids_canonical_examples :
  canonical_pinned_id " Org/Model : FP8 " = "org/model:fp8"%string ∧
  canonical_pinned_id "Org/Model:Default" = "org/model"%string ∧
  canonical_pinned_id "Org/Model: " = "org/model"%string ∧
  resolve_model_id ["Org/Model"; "Org/Model:FP8"]%string "org/model:fp8" = Some "Org/Model:FP8"%string ∧
  normalize_devices "cuda:0" ["cuda:1"; " cuda:0"; ""; "cuda:1"]%string = ["cuda:1"; "cuda:0"]%string.
Proof. vm_compute. auto. Qed.

(** ** Devices *)

Lemma dedup_devices_spec seen l :
  NoDup (dedup_devices seen l) ∧
  (∀ d, d ∈ dedup_devices seen l ↔ d ∉ seen ∧ d ≠ ""%string ∧ ∃ raw, raw ∈ l ∧ strip raw = d).
Proof.
  revert seen. induction l as [|raw l IH]; intros seen; cbn [dedup_devices].
  { split; [constructor|]. intros d. split; [by intros H%elem_of_nil|].
    intros (_ & _ & raw & H%elem_of_nil & _). done. }
  destruct (bool_decide (strip raw = ""%string) || _) eqn:E.
  - destruct (IH seen) as [Hnd Hel]. split; [done|]. intros d. rewrite Hel.
    apply orb_true_iff in E as [E|E]; apply bool_decide_eq_true in E; set_solver.
  - apply orb_false_iff in E as [E1 E2]. apply bool_decide_eq_false in E1, E2.
    destruct (IH (seen ++ [strip raw])) as [Hnd Hel]. split.
    + constructor; [|done]. rewrite Hel. set_solver.
    + intros d. rewrite elem_of_cons, Hel. destruct (decide (d = strip raw)) as [->|]; set_solver.
Qed.

Lemma normalize_devices_nonempty device devices : normalize_devices device devices ≠ [].
Proof. unfold normalize_devices. by destruct (dedup_devices _ _). Qed.

Lemma normalize_devices_nodup device devices : NoDup (normalize_devices device devices).
Proof.
  unfold normalize_devices. destruct (dedup_devices [] _) eqn:E; [repeat constructor; set_solver|].
  rewrite <- E. apply dedup_devices_spec.
Qed.

End RegistryIds.
