(* ===== verification/Registry.v ===== *)
(** The model registry, [core/registry.py]: its state, the environment it runs in, and
    the operations that load, unload and evict models.

    The registry is single-threaded asyncio code.  Everything that loads or unloads runs
    under one [asyncio.Lock] ([_load_lock]); between two [await]s nothing else runs.  An
    operation is therefore a function of the state in a state-and-error monad [M], and
    every [await] in it is a point where other coroutines may run the operations that do
    not take the lock: [asides].  What the program does not decide (clock, device
    readings, the outcome of the loader and of an adapter, what the other coroutines do)
    comes from an environment [Env], indexed by the number of times it was consulted, so
    that a theorem over all [Env] is a theorem over all executions. *)

From Stdlib Require Import Ascii.
From S2P Require Import Prelude PyFloat PyDict PyStr Memory Oom LoadErrors RegistryIds.
Local Open Scope string_scope.
Local Open Scope Z_scope.

Module Registry.
Import LoadErrors RegistryIds.

(** ** Data *)

(** What the registry reads of a [ModelConfig]. *)
Record ModelConfig := mkModelConfig {
  sie_id : string;
  hf_id : option string;
  pool : option string;
  generate : bool;                  (* [tasks.generate is not None] *)
  profile_names : list string;      (* keys of [profiles] *)
  lora_id_profiles : list string;   (* profiles with a non-empty scalar [lora_id] *)
  default_adapter_path : string;    (* [resolve_profile("default").adapter_path] *)
  variant_source : option (string * string);  (* [synthetic_profile_variant_source] *)
  semantic_hash : string;           (* [_model_config_semantic_hash] *)
}.

(** [LoadedModel]: [lm_worker] is [None] for a model without worker, else whether the
    worker is running. *)
Record LoadedModel := mkLoadedModel {
  lm_config : ModelConfig;
  lm_adapter : nat;
  lm_device : string;
  lm_worker : option bool;
  lm_memory_bytes : Z;
}.

(** Background tasks: [_load_model_background] before and after the check that precedes
    the lock, and a scheduled [_eager_load_pinned]. *)
Inductive task :=
| TLoad (name device : string)
| TWaiting (name device : string)
| TEagerPinned.

(** Events of [worker_telemetry()]. *)
Inductive event :=
| ModelEvicted (model reason : string)
| ModelLoadCompleted (model outcome stage : string).

Record Reg := mkReg {
  configs : list (string * ModelConfig);
  model_filter : option (gset string);
  model_dirs : list (string * string);
  config_version : Z;
  pinned_models : gset string;
  loaded : list (string * LoadedModel);
  memory_managers : list (string * Memory.MemoryManager);
  device_order : list (string * Z);
  loading : gset string;
  unloading : gset string;
  failed : list (string * LoadFailure);
  tasks : list task;
  telemetry : list event;          (* latest first *)
  tick : nat;
}.

Definition with_configs f (r : Reg) := mkReg (f (configs r)) (model_filter r) (model_dirs r) (config_version r) (pinned_models r) (loaded r) (memory_managers r) (device_order r) (loading r) (unloading r) (failed r) (tasks r) (telemetry r) (tick r).
Definition with_filter f (r : Reg) := mkReg (configs r) (f (model_filter r)) (model_dirs r) (config_version r) (pinned_models r) (loaded r) (memory_managers r) (device_order r) (loading r) (unloading r) (failed r) (tasks r) (telemetry r) (tick r).
Definition with_dirs f (r : Reg) := mkReg (configs r) (model_filter r) (f (model_dirs r)) (config_version r) (pinned_models r) (loaded r) (memory_managers r) (device_order r) (loading r) (unloading r) (failed r) (tasks r) (telemetry r) (tick r).
Definition with_version f (r : Reg) := mkReg (configs r) (model_filter r) (model_dirs r) (f (config_version r)) (pinned_models r) (loaded r) (memory_managers r) (device_order r) (loading r) (unloading r) (failed r) (tasks r) (telemetry r) (tick r).
Definition with_pinned f (r : Reg) := mkReg (configs r) (model_filter r) (model_dirs r) (config_version r) (f (pinned_models r)) (loaded r) (memory_managers r) (device_order r) (loading r) (unloading r) (failed r) (tasks r) (telemetry r) (tick r).
Definition with_loaded f (r : Reg) := mkReg (configs r) (model_filter r) (model_dirs r) (config_version r) (pinned_models r) (f (loaded r)) (memory_managers r) (device_order r) (loading r) (unloading r) (failed r) (tasks r) (telemetry r) (tick r).
Definition with_managers f (r : Reg) := mkReg (configs r) (model_filter r) (model_dirs r) (config_version r) (pinned_models r) (loaded r) (f (memory_managers r)) (device_order r) (loading r) (unloading r) (failed r) (tasks r) (telemetry r) (tick r).
Definition with_order f (r : Reg) := mkReg (configs r) (model_filter r) (model_dirs r) (config_version r) (pinned_models r) (loaded r) (memory_managers r) (f (device_order r)) (loading r) (unloading r) (failed r) (tasks r) (telemetry r) (tick r).
Definition with_loading f (r : Reg) := mkReg (configs r) (model_filter r) (model_dirs r) (config_version r) (pinned_models r) (loaded r) (memory_managers r) (device_order r) (f (loading r)) (unloading r) (failed r) (tasks r) (telemetry r) (tick r).
Definition with_unloading f (r : Reg) := mkReg (configs r) (model_filter r) (model_dirs r) (config_version r) (pinned_models r) (loaded r) (memory_managers r) (device_order r) (loading r) (f (unloading r)) (failed r) (tasks r) (telemetry r) (tick r).
Definition with_failed f (r : Reg) := mkReg (configs r) (model_filter r) (model_dirs r) (config_version r) (pinned_models r) (loaded r) (memory_managers r) (device_order r) (loading r) (unloading r) (f (failed r)) (tasks r) (telemetry r) (tick r).
Definition with_tasks f (r : Reg) := mkReg (configs r) (model_filter r) (model_dirs r) (config_version r) (pinned_models r) (loaded r) (memory_managers r) (device_order r) (loading r) (unloading r) (failed r) (f (tasks r)) (telemetry r) (tick r).
Definition with_telemetry f (r : Reg) := mkReg (configs r) (model_filter r) (model_dirs r) (config_version r) (pinned_models r) (loaded r) (memory_managers r) (device_order r) (loading r) (unloading r) (failed r) (tasks r) (f (telemetry r)) (tick r).
Definition with_tick f (r : Reg) := mkReg (configs r) (model_filter r) (model_dirs r) (config_version r) (pinned_models r) (loaded r) (memory_managers r) (device_order r) (loading r) (unloading r) (failed r) (tasks r) (telemetry r) (f (tick r)).

(** The constructor arguments that never change. *)
Record Params := mkParams {
  models_dir : option string;
  device : string;
  devices : list string;           (* the normalised list *)
  pool_name : option string;       (* lower-cased *)
  mem_config : Memory.MemoryConfig;
  tracker_of : string → Memory.tracker;   (* what [MemoryManager.__init__] picks *)
  importable : imports;
  config_dir : string;             (* the directory the configs of [models_dir] live in *)
}.

(** The two Pydantic copies [_expand_profile_variants] makes of a config. *)
Class VariantMaker := {
  bare_config : ModelConfig → ModelConfig;          (* default profile merged in *)
  variant_config : ModelConfig → string → ModelConfig;
}.

(** ** The environment *)

(** What another coroutine may do at an [await] while the load lock is held. *)
Inductive aside :=
| ATouchLru (name : string)
| AClearFailure (name : string)
| ASetPinned (raw_ids : list string)
| AStartLoad (name device : string)
| ACheckLoadable (name : string)
| ABeginTask (i : nat)
| AApplyConfig (config : ModelConfig) (model_dir : option string)
| AStopWorker (name : string).

Inductive pyint := PyRaises | PyBool (b : bool) | PyInt (z : Z) | PyOther.

(** Outcome of [_run_adapter_unload]: cancelled, it waits once more and re-raises. *)
Inductive unload_outcome := UnloadOk | UnloadRaises (e : exc) | UnloadCancelled (e : exc).

(** Outcome of [wait_for(worker.stop(), drain_timeout)]. *)
Inductive drain_outcome := Drained | DrainTimeout | DrainRaises (e : exc).

Record Env := mkEnv {
  clock : nat → float;
  asides : nat → list aside;
  reading : nat → string → res exc Memory.MemoryStats;
  scan : nat → res exc (list (string * ModelConfig));     (* [load_model_configs] *)
  cached : nat → string → res exc unit;                   (* [ensure_weights_cached_async] *)
  instantiate : nat → string → res exc nat;               (* [instantiate_adapter_async] *)
  required : nat → nat → Memory.MemoryStats → pyint;      (* [load_required_memory_bytes] *)
  load_result : nat → string → nat → res exc (option bool * Z);  (* worker, memory bytes *)
  drain : nat → string → drain_outcome;
  aclose : nat → string → option (res exc unit);          (* [None]: no [aclose_client] *)
  adapter_unload : nat → string → unload_outcome;
  loader_unregister : nat → string → res exc unit;
  worker_start : nat → string → res exc unit;
}.

(** ** The monad *)

Inductive err := PyExc (e : exc) | OutOfFuel.

Definition M (A : Type) : Type := Reg → res err A * Reg.

Definition ret {A} (a : A) : M A := λ r, (Ret a, r).
Definition throw {A} (e : exc) : M A := λ r, (Raise (PyExc e), r).
Definition out_of_fuel {A} : M A := λ r, (Raise OutOfFuel, r).
Definition get : M Reg := λ r, (Ret r, r).
Definition modify (f : Reg → Reg) : M unit := λ r, (Ret tt, f r).
Definition bind {A B} (m : M A) (k : A → M B) : M B := λ r,
  match m r with
  | (Ret a, r') => k a r'
  | (Raise e, r') => (Raise e, r')
  end.

(** [try: m except: h], the handler sees Python exceptions only. *)
Definition catch {A} (m : M A) (h : exc → M A) : M A := λ r,
  match m r with
  | (Raise (PyExc e), r') => h e r'
  | x => x
  end.

(** [try: m finally: f] *)
Definition finally {A} (m : M A) (f : M unit) : M A := λ r,
  let '(o, r1) := m r in
  match f r1 with
  | (Ret _, r2) => (o, r2)
  | (Raise e, r2) => (Raise e, r2)
  end.

Declare Scope reg_scope.
Delimit Scope reg_scope with reg.
Notation "'let!' x ':=' m 'in' k" := (bind m (λ x, k))
  (at level 10, x name, m at level 100, k at level 200, right associativity) : reg_scope.
Notation "'do!' m 'in' k" := (bind m (λ _, k))
  (at level 10, m at level 100, k at level 200, right associativity) : reg_scope.
Local Open Scope reg_scope.

Definition of_res {A} (o : res exc A) : M A :=
  match o with Ret a => ret a | Raise e => throw e end.

(** Exceptions the registry itself raises. *)
Definition key_error (msg : string) : exc := mkExc "KeyError" [KeyError] msg "".
Definition value_error (msg : string) : exc := mkExc "ValueError" [ValueError] msg "".
Definition runtime_error (msg : string) : exc := mkExc "RuntimeError" [RuntimeError] msg "".

Definition ERR_MODEL_NOT_FOUND (name : string) : exc :=
  key_error ("Model '" +:+ name +:+ "' not found in registry").
Definition ERR_MODEL_NOT_LOADED (name : string) : exc :=
  key_error ("Model '" +:+ name +:+ "' is not loaded").
Definition ERR_BEING_UNLOADED (name : string) : exc :=
  runtime_error ("Model '" +:+ name +:+ "' is currently being unloaded").

Section registry.
Context (P : Params) `{V : VariantMaker} (env : Env).

(** A consultation of the environment. *)
Definition consult {A} (f : nat → A) : M A := λ r, (Ret (f (tick r)), with_tick S r).
Definition now : M float := consult (clock env).

(** ** Memory managers *)

Definition new_manager (d : string) : Memory.MemoryManager :=
  Memory.init_manager d (mem_config P) (tracker_of P d).

(** [_memory_manager_for_device]: creates the manager of an unknown device. *)
Definition ensure_manager (d : string) (r : Reg) : Reg :=
  if dict_mem d (memory_managers r) then r
  else with_order (λ o, dict_set d (Z.of_nat (length o)) o)
         (with_managers (dict_set d (new_manager d)) r).

Definition the_manager (d : string) (r : Reg) : Memory.MemoryManager :=
  default (new_manager d) (dict_get d (memory_managers r)).

Definition update_manager (d : string) (f : Memory.MemoryManager → Memory.MemoryManager)
    (r : Reg) : Reg :=
  let r := ensure_manager d r in with_managers (dict_set d (f (the_manager d r))) r.

(** The device of [_memory_manager_for_model]: the model's own, or the default one. *)
Definition manager_key (name : string) (r : Reg) : string :=
  match dict_get name (loaded r) with
  | Some lm => lm_device lm
  | None => hd (device P) (devices P)
  end.

(** [touch_lru] *)
Definition touch_lru (name : string) : M unit :=
  let! t := now in
  modify (λ r, if dict_mem name (loaded r)
               then update_manager (manager_key name r) (λ m, Memory.touch m name t) r
               else r).

(** What the tracker of a manager reads from its device (the synthetic one reads
    nothing). *)
Definition query (d : string) : M Memory.MemoryStats :=
  let! r := get in
  match Memory.mm_tracker (the_manager d r) with
  | Memory.Synthetic _ => ret (Memory.mkStats 0 0 Memory.synthetic)
  | Memory.Device => let! o := consult (λ n, reading env n d) in of_res o
  end.

Definition check_pressure (d : string) : M bool :=
  let! s := query d in let! r := get in ret (Memory.check_pressure (the_manager d r) s).

Definition should_evict_for_load (d : string) (required_bytes : option Z) : M bool :=
  let! s := query d in let! s' := query d in let! r := get in
  ret (Memory.should_evict_for_load (the_manager d r) s s' required_bytes).

(** [_adapter_load_required_bytes] *)
Definition adapter_load_required_bytes (adapter : nat) (d : string) : M (option Z) :=
  let! s := query d in let! r := get in
  let stats := Memory.get_stats (the_manager d r) s in
  if Memory.total_bytes stats <=? 0 then ret None
  else
    let! req := consult (λ n, required env n adapter stats) in
    ret (match req with
         | PyInt z => if z <=? 0 then None else Some (Z.min z (Memory.total_bytes stats))
         | PyRaises | PyBool _ | PyOther => None
         end).

(** ** Placement *)

Definition lex3 (a b : bool * Z * Z) : bool :=   (* a < b *)
  let '(p, n, i) := a in let '(p', n', i') := b in
  (negb p && p') || (Bool.eqb p p' && ((n <? n') || ((n =? n') && (i <? i')))).

(** [min(candidates, key=score)]: the first of the least. *)
Fixpoint min_by_score (best : string * (bool * Z * Z)) (l : list (string * (bool * Z * Z))) : string :=
  match l with
  | [] => best.1
  | c :: l' => if lex3 c.2 best.2 then min_by_score c l' else min_by_score best l'
  end.

(** [score] of [_select_device_for_model]; an exception of the pressure check keeps the
    device eligible. *)
Definition score (d : string) : M (bool * Z * Z) :=
  do! modify (ensure_manager d) in
  let! under_pressure := catch (check_pressure d) (λ e, if is_exception e then ret false else throw e) in
  let! r := get in
  ret (under_pressure, Z.of_nat (length (Memory.loaded_models (the_manager d r))),
       default 0 (dict_get d (device_order r))).

Fixpoint scores (l : list string) : M (list (string * (bool * Z * Z))) :=
  match l with
  | [] => ret []
  | d :: l' => let! s := score d in let! rest := scores l' in ret ((d, s) :: rest)
  end.

Definition family_ok (requested_family : option string) (d : string) : bool :=
  match requested_family with
  | None => true
  | Some f => bool_decide (device_family d = f)
  end.

(** [_select_device_for_model] *)
Definition select_device_for_model (requested_family : option string) : M string :=
  let candidates := filter (λ d, family_ok requested_family d = true) (devices P) in
  let! ss := scores candidates in
  match ss with
  | [] => throw (value_error "min() iterable argument is empty")
  | b :: rest => ret (min_by_score b rest)
  end.

(** [_resolve_load_device] *)
Definition resolve_load_device (requested : string) : M string :=
  match devices P with
  | [only] =>
      if negb (bool_decide (requested = only))
         && bool_decide (device_family requested = device_family only)
         && char_in colon only && negb (char_in colon requested)
      then ret only else ret requested
  | _ =>
      let! r := get in
      if dict_mem requested (memory_managers r) && negb (bool_decide (requested ∈ devices P))
      then ret requested
      else if bool_decide (requested ∈ devices P) then ret requested
      else if char_in colon requested then ret requested
      else if bool_decide (device_family requested ∈ (device_family <$> devices P))
      then select_device_for_model (Some (device_family requested))
      else ret requested
  end.

(** ** Failures *)

Definition is_loaded (name : string) (r : Reg) : bool := dict_mem name (loaded r).

(** [is_failed]: the clock is read only when there is a record. *)
Definition is_failed (name : string) : M bool :=
  let! r := get in
  match dict_get name (failed r) with
  | None => ret false
  | Some f => let! t := now in ret (in_cooldown f t)
  end.

(** [clear_failure] *)
Definition clear_failure (name : string) : M bool :=
  let! r := get in
  do! modify (with_failed (dict_del name)) in
  ret (dict_mem name (failed r)).

(** [_record_load_failure] *)
Definition record_load_failure (name : string) (e : exc) : M unit :=
  let classification := classify_load_error (importable P) e in
  let! r := get in
  let attempts := match dict_get name (failed r) with
                  | Some previous => f_attempts previous + 1
                  | None => 1
                  end in
  let message := exc_type e +:+ ": " +:+ exc_str e in
  let! t := now in
  modify (with_failed (dict_set name
    (mkFailure (error_class classification) message attempts t (cooldown_s classification)))).

(** [_clear_transient_failures] with its default classes *)
Definition clear_transient_failures (r : Reg) : Reg :=
  with_failed (filter (λ e, f_error_class e.2 ≠ OOM)) r.

(** ** Configurations *)

Definition is_python_runtime_adapter (path : string) : bool :=
  negb (String.prefix "sie_server_rust." path).

(** [accepts_config_pool] *)
Definition accepts_config_pool (config : ModelConfig) : bool :=
  let pool_matches :=
    match pool_name P with
    | None => true
    | Some p =>
        let config_pool := match pool config with
                           | None | Some "" => "default"
                           | Some q => q end in
        bool_decide (lower (strip config_pool) = p)
    end in
  pool_matches && is_python_runtime_adapter (default_adapter_path config).

(** [validate_pool_isolation]: the names of the existing configs of the other task
    class; the call raises when there is one, unless fairness is enabled. *)
Definition isolation_conflicts (candidate_name : string) (candidate : ModelConfig)
    (existing : list (string * ModelConfig)) : list string :=
  omap (λ '(name, c), if bool_decide (name = candidate_name) then None
                      else if Bool.eqb (generate candidate) (generate c) then None
                      else Some name) existing.

Definition isolation_error (candidate_name : string) (candidate : ModelConfig) : exc :=
  mkExc "PoolIsolationError" [ValueError]
    ("cannot register " +:+ (if generate candidate then "generation" else "non-generation") +:+
     " model " +:+ candidate_name) "".

Definition validate_pool_isolation (candidate_name : string) (candidate : ModelConfig)
    (existing : list (string * ModelConfig)) (fairness_enabled : bool) : res exc unit :=
  match isolation_conflicts candidate_name candidate existing with
  | [] => Ret tt
  | _ => if fairness_enabled then Ret tt else Raise (isolation_error candidate_name candidate)
  end.

(** [validate_no_legacy_scalar_lora_id] *)
Definition validate_no_legacy_scalar_lora_id (name : string) (config : ModelConfig) : res exc unit :=
  if negb (generate config) then Ret tt
  else match lora_id_profiles config with
       | [] => Ret tt
       | _ => Raise (mkExc "LegacyScalarLoraIdError" [ValueError]
                       ("cannot register generation model " +:+ name) "")
       end.

Fixpoint validate_loras (l : list (string * ModelConfig)) : res exc unit :=
  match l with
  | [] => Ret tt
  | (name, c) :: l' =>
      res_bind (validate_no_legacy_scalar_lora_id name c) (λ _, validate_loras l')
  end.

(** [_validate_pool_isolation_of_loaded] *)
Definition validate_pool_isolation_of_loaded (cs : list (string * ModelConfig)) : res exc unit :=
  match filter (λ e, generate e.2 = true) cs, filter (λ e, generate e.2 = false) cs with
  | (g, gc) :: _, (n, nc) :: _ => validate_pool_isolation n nc [(g, gc)] false
  | _, _ => Ret tt
  end.

(** [_load_configs_from_dir]: the configuration map is replaced before it is validated. *)
Definition load_configs_from_dir : M unit :=
  let! o := consult (scan env) in
  let! all_configs := of_res o in
  let! r := get in
  let filtered := match model_filter r with
                  | Some f => filter (λ e, e.1 ∈ f) all_configs
                  | None => all_configs
                  end in
  let accepted := filter (λ e, accepts_config_pool e.2 = true) filtered in
  do! modify (with_configs (λ _, accepted)) in
  do! of_res (match pool_name P with
              | Some _ => validate_pool_isolation_of_loaded accepted
              | None => Ret tt end) in
  do! of_res (validate_loras accepted) in
  do! modify (with_version (Z.add 1)) in
  modify (with_dirs (λ d, foldl (λ d name, dict_set name (config_dir P) d) d (dict_keys accepted))).

(** [rescan_configs] *)
Definition rescan_configs : M (list string) :=
  match models_dir P with
  | None => ret []
  | Some _ =>
      let! r := get in
      let old_names := dict_keys (configs r) in
      do! load_configs_from_dir in
      let! r' := get in
      ret (filter (λ n, n ∉ old_names) (dict_keys (configs r')))
  end.

(** [_check_model_loadable] *)
Definition check_model_loadable (name : string) : M unit :=
  let! r := get in
  if dict_mem name (configs r) then ret tt
  else
    do! rescan_configs in
    let! r' := get in
    if dict_mem name (configs r') then ret tt else throw (ERR_MODEL_NOT_FOUND name).

(** [start_load_async]: no [await] on the way. *)
Definition start_load_async (name dev : string) : M bool :=
  let! r := get in
  if dict_mem name (loaded r) then ret false
  else if bool_decide (name ∈ loading r) then ret false
  else
    let! f := is_failed name in
    if f then ret false
    else
      do! check_model_loadable name in
      do! modify (with_loading (λ l, {[name]} ∪ l)) in
      do! modify (with_tasks (λ ts, ts ++ [TLoad name dev])%list) in
      ret true.

(** [_eager_load_pinned] *)
Fixpoint eager_load (pinned : list string) : M unit :=
  match pinned with
  | [] => ret tt
  | pinned_id :: rest =>
      let! r := get in
      do! (match resolve_model_id (dict_keys (configs r)) pinned_id with
           | None => ret tt
           | Some name =>
               if is_loaded name r then ret tt
               else catch (do! start_load_async name (device P) in ret tt)
                          (λ e, if is_exception e then ret tt else throw e)
           end) in
      eager_load rest
  end.

Definition eager_load_pinned : M unit :=
  let! r := get in eager_load (sorted_strings (elements (pinned_models r))).

(** [set_pinned_models] *)
Definition set_pinned_models (raw_ids : list string) : M (gset string) :=
  let new_pinned := normalize_pinned raw_ids in
  let! r := get in
  if bool_decide (new_pinned = pinned_models r) then ret new_pinned
  else
    do! modify (with_pinned (λ _, new_pinned)) in
    do! eager_load_pinned in
    ret new_pinned.

(** [_expand_profile_variants]: non-default profiles become entries of their own, a
    config without a default profile loses its bare entry. *)
Definition variant_id (base profile : string) : string := base +:+ String colon profile.

Definition variants_of (cs : list (string * ModelConfig)) : list (string * ModelConfig) :=
  foldl (λ vs '(base, c),
    foldl (λ vs profile,
      if bool_decide (profile = "default") then vs
      else if dict_mem (variant_id base profile) cs then vs
      else dict_set (variant_id base profile) (variant_config c profile) vs)
      vs (profile_names c)) [] cs.

Definition dict_update {A} (d upd : list (string * A)) : list (string * A) :=
  foldl (λ d '(k, v), dict_set k v d) d upd.

Definition expand_variants (cs : list (string * ModelConfig)) : list (string * ModelConfig) :=
  let bare := (λ '(base, c), (base, bare_config c)) <$>
                filter (λ e, "default" ∈ profile_names e.2) cs in
  dict_update bare (variants_of cs).

(** [expand_profile_variants] of a list of configs *)
Fixpoint collect_configs (acc : list (string * ModelConfig)) (l : list ModelConfig)
    : res exc (list (string * ModelConfig)) :=
  match l with
  | [] => Ret acc
  | c :: l' =>
      if dict_mem (sie_id c) acc
      then Raise (value_error ("duplicate model config: " +:+ sie_id c))
      else collect_configs (dict_set (sie_id c) c acc) l'
  end.

Definition expand_profile_variants (l : list ModelConfig) : res exc (list (string * ModelConfig)) :=
  res_bind (collect_configs [] l) (λ cs, Ret (expand_variants cs)).

(** [expand_profile_variants([config])] *)
Definition expand_one (config : ModelConfig) : list (string * ModelConfig) :=
  expand_variants [(sie_id config, config)].

(** [_synthetic_profile_variant_ids_for_base] *)
Definition variant_ids_for_base (base : string) (r : Reg) : gset string :=
  list_to_set (omap (λ '(name, c),
    match variant_source c with
    | Some (b, _) => if bool_decide (b = base) then Some name else None
    | None => None
    end) (configs r)).

(** [_drop_config_entry] *)
Definition drop_config_entry (model_id : string) (r : Reg) : Reg :=
  with_version (Z.add 1)
    (with_failed (dict_del model_id)
      (with_dirs (dict_del model_id)
        (with_filter (option_map (λ f, f ∖ {[model_id]}))
          (with_configs (dict_del model_id) r)))).

Definition drop_config_entries (ids : list string) (r : Reg) : Reg :=
  foldl (λ r id, drop_config_entry id r) r ids.

(** [_maybe_schedule_pinned_load], on the running loop *)
Definition maybe_schedule_pinned_load (name : string) (r : Reg) : Reg :=
  if is_pinned (pinned_models r) name then with_tasks (λ ts, ts ++ [TEagerPinned])%list r else r.

(** [_apply_config_entry] *)
Definition apply_config_entry (config : ModelConfig) (model_dir : option string) (r : Reg) : Reg :=
  let base_id := match variant_source config with
                 | Some (b, _) => b
                 | None => sie_id config end in
  let expanded := filter (λ e, accepts_config_pool e.2 = true) (expand_one config) in
  let family := {[base_id]} ∪ variant_ids_for_base base_id r in
  match expanded with
  | [] => drop_config_entries (sorted_strings (elements family)) r
  | _ =>
      let stale := family ∖ list_to_set (dict_keys expanded) in
      let r := drop_config_entries (sorted_strings (elements stale)) r in
      let r := with_configs (λ cs, dict_update cs expanded) r in
      let r := with_filter (option_map (λ f, f ∪ list_to_set (dict_keys expanded))) r in
      let r := match model_dir with
               | Some dir => with_dirs (λ d, foldl (λ d n, dict_set n dir d) d (dict_keys expanded)) r
               | None => r end in
      let r := with_failed (λ f, foldl (λ f n, dict_del n f) f (dict_keys expanded)) r in
      let r := with_version (Z.add 1) r in
      foldl (λ r n, maybe_schedule_pinned_load n r) r (dict_keys expanded)
  end.

(** [_prepare_config_update]: the expansion, the updated and the removed ids. *)
Definition prepare_config_update (config : ModelConfig) (r : Reg)
    : list (string * ModelConfig) * gset string * gset string :=
  let expanded := expand_one config in
  let updated_ids := list_to_set (dict_keys expanded) in
  let previously := variant_ids_for_base (sie_id config) r in
  let previously := if dict_mem (sie_id config) (configs r)
                    then {[sie_id config]} ∪ previously else previously in
  (expanded, updated_ids, previously ∖ updated_ids).

(** [_validate_config_entry] *)
Definition validate_config_entry (c : ModelConfig) (existing : list (string * ModelConfig)) : res exc unit :=
  res_bind (match pool_name P with
            | Some _ => validate_pool_isolation (sie_id c) c existing false
            | None => Ret tt end)
    (λ _, validate_no_legacy_scalar_lora_id (sie_id c) c).

(** [_preflight_config_update] *)
Fixpoint preflight (expanded post_update : list (string * ModelConfig)) : res exc unit :=
  match expanded with
  | [] => Ret tt
  | (_, c) :: rest =>
      if negb (accepts_config_pool c) then preflight rest (dict_del (sie_id c) post_update)
      else res_bind (validate_config_entry c post_update)
             (λ _, preflight rest (dict_set (sie_id c) c post_update))
  end.

Definition preflight_config_update (expanded : list (string * ModelConfig))
    (updated_ids removed_ids : gset string) (r : Reg) : res exc unit :=
  preflight expanded (filter (λ e, e.1 ∉ updated_ids ∧ e.1 ∉ removed_ids) (configs r)).

(** [add_config] *)
Definition add_config (config : ModelConfig) (model_dir : option string) : M (gset string) :=
  let! r := get in
  let '(expanded, updated_ids, removed_ids) := prepare_config_update config r in
  do! of_res (preflight_config_update expanded updated_ids removed_ids r) in
  if bool_decide (removed_ids ≠ ∅)
  then throw (runtime_error "cannot synchronously remove model config(s); use add_config_async")
  else
    do! modify (apply_config_entry config model_dir) in
    ret (updated_ids ∪ removed_ids).

(** ** What runs at an [await] *)

(** The end of [_load_model_background]: success clears the record, a failure that is an
    [Exception] is recorded, the model leaves [_loading]. *)
Definition finish_background (name : string) (o : res err unit) : M unit :=
  finally
    (match o with
     | Ret _ => modify (with_failed (dict_del name))
     | Raise (PyExc e) => if is_exception e then record_load_failure name e else throw e
     | Raise OutOfFuel => out_of_fuel
     end)
    (modify (with_loading (λ l, l ∖ {[name]}))).

(** The next step of a background task that needs no lock: the check at the head of
    [load_async], after which the task waits for the lock, or a pinned reconcile. *)
Definition begin_task (i : nat) : M unit :=
  let! r := get in
  match tasks r !! i with
  | Some (TLoad name dev) => λ r,
      match check_model_loadable name r with
      | (Ret _, r') => (Ret tt, with_tasks (λ ts, <[i := TWaiting name dev]> ts) r')
      | (Raise e, r') => finish_background name (Raise e) (with_tasks (delete i) r')
      end
  | Some TEagerPinned => do! modify (with_tasks (delete i)) in eager_load_pinned
  | Some (TWaiting _ _) | None => ret tt
  end.

(** The worker of a model was stopped by [stop_worker] or [stop_all_workers]. *)
Definition worker_stopped (name : string) (r : Reg) : Reg :=
  match dict_get name (loaded r) with
  | Some lm =>
      with_loaded (dict_set name (mkLoadedModel (lm_config lm) (lm_adapter lm) (lm_device lm)
        (option_map (λ _, false) (lm_worker lm)) (lm_memory_bytes lm))) r
  | None => r
  end.

Definition run_aside (a : aside) (r : Reg) : Reg :=
  match a with
  | ATouchLru name => (touch_lru name r).2
  | AClearFailure name => (clear_failure name r).2
  | ASetPinned raw_ids => (set_pinned_models raw_ids r).2
  | AStartLoad name dev => (start_load_async name dev r).2
  | ACheckLoadable name => (check_model_loadable name r).2
  | ABeginTask i => (begin_task i r).2
  | AApplyConfig config dir => apply_config_entry config dir r
  | AStopWorker name => worker_stopped name r
  end.

(** [await]: other coroutines run. *)
Definition await : M unit := λ r,
  (Ret tt, foldl (λ r a, run_aside a r) (with_tick S r) (asides env (tick r))).

(** ** Unloading *)

Definition record_event (e : event) : M unit := modify (with_telemetry (cons e)).

(** [del self._loaded[name]] *)
Definition del_loaded (name : string) : M unit :=
  let! r := get in
  if dict_mem name (loaded r) then modify (with_loaded (dict_del name))
  else throw (key_error name).

(** Swallow what [except Exception] swallows. *)
Definition best_effort (m : M unit) : M unit :=
  catch m (λ e, if is_exception e then ret tt else throw e).

(** Waiting for the worker: the timeout of the drain is logged and passed over. *)
Definition drain_worker (name : string) : M unit :=
  do! await in
  let! o := consult (λ n, drain env n name) in
  match o with
  | Drained | DrainTimeout => ret tt
  | DrainRaises e => throw e
  end.

Definition close_client (name : string) : M unit :=
  let! o := consult (λ n, aclose env n name) in
  match o with
  | None => ret tt
  | Some c => best_effort (do! await in of_res c)
  end.

(** [_run_adapter_unload] *)
Definition run_adapter_unload (name : string) : M unit :=
  do! await in
  let! o := consult (λ n, adapter_unload env n name) in
  match o with
  | UnloadOk => ret tt
  | UnloadRaises e => throw e
  | UnloadCancelled e => do! await in throw e
  end.

(** The inner [finally] of [_do_unload] *)
Definition drop_accounting (name dev : string) : M unit :=
  do! best_effort (let! o := consult (λ n, loader_unregister env n name) in of_res o) in
  modify (update_manager dev (λ m, Memory.unregister_model m name)).

(** The [try] block of [_do_unload] *)
Definition unload_body (name reason : string) (lm : LoadedModel) : M unit :=
  do! (match lm_worker lm with
       | Some true => drain_worker name
       | Some false | None => ret tt
       end) in
  do! del_loaded name in
  do! record_event (ModelEvicted name reason) in
  do! finally (do! close_client name in run_adapter_unload name)
              (drop_accounting name (lm_device lm)) in
  modify clear_transient_failures.

(** [_do_unload] *)
Definition do_unload (name reason : string) : M unit :=
  let! r := get in
  match dict_get name (loaded r) with
  | None => ret tt
  | Some lm =>
      do! modify (with_unloading (λ u, {[name]} ∪ u)) in
      finally (unload_body name reason lm) (modify (with_unloading (λ u, u ∖ {[name]})))
  end.

(** The part of [unload_async] under the lock *)
Definition unload_locked (name : string) : M unit :=
  let! r := get in
  if dict_mem name (loaded r) then do_unload name "manual"
  else throw (ERR_MODEL_NOT_LOADED name).

(** [for name in names: await self._do_unload(name, reason)] *)
Fixpoint do_unload_all (names : list string) (reason : string) : M unit :=
  match names with
  | [] => ret tt
  | name :: rest => do! do_unload name reason in do_unload_all rest reason
  end.

(** [unload_all_async] *)
Definition unload_all_async : M unit :=
  let! r := get in do_unload_all (dict_keys (loaded r)) "shutdown".

(** [unload], the synchronous version: no drain, and nothing protects the accounting
    from an adapter that raises. *)
Definition unload (name reason : string) : M unit :=
  let! r := get in
  if negb (dict_mem name (configs r)) then throw (ERR_MODEL_NOT_FOUND name)
  else match dict_get name (loaded r) with
       | None => throw (ERR_MODEL_NOT_LOADED name)
       | Some lm =>
           do! modify (with_loaded (dict_del name)) in
           do! record_event (ModelEvicted name reason) in
           let! o := consult (λ n, adapter_unload env n name) in
           do! (match o with
                | UnloadOk => ret tt
                | UnloadRaises e | UnloadCancelled e => throw e
                end) in
           do! (let! o := consult (λ n, loader_unregister env n name) in of_res o) in
           modify (update_manager (lm_device lm) (λ m, Memory.unregister_model m name))
       end.

(** [unload_all], the synchronous version *)
Fixpoint unload_each (names : list string) : M unit :=
  match names with
  | [] => ret tt
  | name :: rest => do! unload name "shutdown" in unload_each rest
  end.

Definition unload_all : M unit := let! r := get in unload_each (dict_keys (loaded r)).

(** ** Loading *)

Definition lru_victim (dev : string) (r : Reg) : option string :=
  Memory.get_lru_model (the_manager dev r) (elements (pinned_models r)).

(** The pre-load eviction loop of [load_async]. *)
Fixpoint evict_for_load (fuel : nat) (dev : string) (required_bytes : option Z) : M unit :=
  match fuel with
  | O => out_of_fuel
  | S fuel' =>
      let! evict := should_evict_for_load dev required_bytes in
      if negb evict then ret tt
      else
        let! r := get in
        match lru_victim dev r with
        | None => ret tt
        | Some lru =>
            if negb (dict_mem lru (loaded r)) then
              do! modify (update_manager dev (λ m, Memory.unregister_model m lru)) in
              evict_for_load fuel' dev required_bytes
            else
              do! query dev in
              do! do_unload lru "preload_pressure" in
              evict_for_load fuel' dev required_bytes
        end
  end.

(** One more than the models of the device. *)
Definition device_fuel (dev : string) (r : Reg) : nat :=
  S (length (Memory.models (the_manager dev r))).

(** [load_and_register_async]: the loaded model is on the device it was asked for. *)
Definition load_and_register (name dev : string) (adapter : nat) (config : ModelConfig) : M LoadedModel :=
  do! await in
  let! o := consult (λ n, load_result env n name adapter) in
  let! res := of_res o in
  ret (mkLoadedModel config adapter dev res.1 res.2).

Definition instantiate_adapter (name : string) : M nat :=
  do! await in let! o := consult (λ n, instantiate env n name) in of_res o.

(** Loading with the retry after an out-of-memory error. *)
Definition load_with_retry (name dev : string) (adapter : nat) (config : ModelConfig) : M LoadedModel :=
  catch (load_and_register name dev adapter config)
    (λ e,
      if negb (isinstance e RuntimeError) then throw e
      else if negb (Oom.is_oom_error (as_oom e)) then throw e
      else
        let! r := get in
        match lru_victim dev r with
        | None => throw e
        | Some lru =>
            do! do_unload lru "load_oom" in
            let! adapter' := instantiate_adapter name in
            load_and_register name dev adapter' config
        end).

(** [register_model] of the manager; two clock readings are the default factories. *)
Definition register (name : string) (lm : LoadedModel) : M unit :=
  let! t1 := now in
  let! t2 := now in
  modify (update_manager (lm_device lm)
            (λ m, Memory.register_model m name (Some (lm_memory_bytes lm)) t1 t2)).

Definition load_body (name dev : string) (config : ModelConfig) : M nat :=
  do! (do! await in let! o := consult (λ n, cached env n name) in of_res o) in
  let! adapter := instantiate_adapter name in
  let! required_bytes := adapter_load_required_bytes adapter dev in
  let! r := get in
  do! evict_for_load (device_fuel dev r) dev required_bytes in
  let! lm := load_with_retry name dev adapter config in
  do! modify (with_loaded (dict_set name lm)) in
  do! register name lm in
  do! record_event (ModelLoadCompleted name "success" "total") in
  ret (lm_adapter lm).

(** The telemetry of the [finally] for an attempt that raised. *)
Definition report_failure (name : string) (e : exc) : M nat :=
  do! record_event (if isinstance e ModelLoadTimeoutError
                    then ModelLoadCompleted name "timeout" (exc_stage e)
                    else ModelLoadCompleted name "error" "total") in
  throw e.

(** [load_async] from the acquisition of the lock to its release *)
Definition load_locked (name requested : string) : M nat :=
  let! r := get in
  match dict_get name (loaded r) with
  | Some lm => do! touch_lru name in ret (lm_adapter lm)
  | None =>
      let! dev := resolve_load_device requested in
      do! modify (ensure_manager dev) in
      let! r := get in
      if bool_decide (name ∈ unloading r) then throw (ERR_BEING_UNLOADED name)
      else match dict_get name (configs r) with
           | None => throw (key_error name)
           | Some config =>
               do! modify (with_loading (λ l, {[name]} ∪ l)) in
               finally (catch (load_body name dev config) (report_failure name))
                       (modify (with_loading (λ l, l ∖ {[name]})))
           end
  end.

(** [_load_model_background] of a task that has the lock *)
Definition run_background (name dev : string) : M unit := λ r,
  let '(o, r') := load_locked name dev r in
  finish_background name (match o with Ret _ => Ret tt | Raise e => Raise e end) r'.

Definition run_task (i : nat) : M unit :=
  let! r := get in
  match tasks r !! i with
  | Some (TWaiting name dev) =>
      do! modify (with_tasks (delete i)) in run_background name dev
  | _ => ret tt
  end.

(** ** The synchronous load *)

Fixpoint evict_for_load_sync (fuel : nat) (dev : string) (required_bytes : option Z) : M unit :=
  match fuel with
  | O => out_of_fuel
  | S fuel' =>
      let! evict := should_evict_for_load dev required_bytes in
      if negb evict then ret tt
      else
        let! r := get in
        match lru_victim dev r with
        | None => ret tt
        | Some lru =>
            do! query dev in
            do! unload lru "preload_pressure" in
            evict_for_load_sync fuel' dev required_bytes
        end
  end.

Definition load_and_register_sync (name dev : string) (adapter : nat) (config : ModelConfig) : M LoadedModel :=
  let! o := consult (λ n, load_result env n name adapter) in
  let! res := of_res o in
  ret (mkLoadedModel config adapter dev res.1 res.2).

Definition instantiate_adapter_sync (name : string) : M nat :=
  let! o := consult (λ n, instantiate env n name) in of_res o.

Definition load_body_sync (name dev : string) (config : ModelConfig) : M nat :=
  do! (let! o := consult (λ n, cached env n name) in of_res o) in
  let! adapter := instantiate_adapter_sync name in
  let! required_bytes := adapter_load_required_bytes adapter dev in
  let! r := get in
  do! evict_for_load_sync (device_fuel dev r) dev required_bytes in
  let! lm := catch (load_and_register_sync name dev adapter config) (λ e,
    if negb (isinstance e RuntimeError) then throw e
    else if negb (Oom.is_oom_error (as_oom e)) then throw e
    else
      let! r := get in
      match lru_victim dev r with
      | None => throw e
      | Some lru =>
          do! unload lru "load_oom" in
          let! adapter' := instantiate_adapter_sync name in
          load_and_register_sync name dev adapter' config
      end) in
  do! modify (with_loaded (dict_set name lm)) in
  do! register name lm in
  do! modify (with_failed (dict_del name)) in
  do! record_event (ModelLoadCompleted name "success" "total") in
  ret (lm_adapter lm).

(** [load] *)
Definition load (name requested : string) : M nat :=
  do! check_model_loadable name in
  let! r := get in
  match dict_get name (configs r) with
  | None => throw (key_error name)
  | Some config =>
      if dict_mem name (loaded r)
      then throw (value_error ("Model '" +:+ name +:+ "' is already loaded"))
      else
        let! dev := resolve_load_device requested in
        do! modify (ensure_manager dev) in
        catch (load_body_sync name dev config) (report_failure name)
  end.

(** ** Eviction *)

(** [evict_lru_excluding]; [acquired] tells whether the lock came before the timeout. *)
Definition evict_lru_excluding (exclude_name : string) (acquired : bool) : M Oom.EvictionResult :=
  if negb acquired then ret Oom.LOCK_TIMEOUT
  else
    let! r := get in
    let key := manager_key exclude_name r in
    do! modify (ensure_manager key) in
    match Oom.select_eviction_candidate (Memory.loaded_models (the_manager key r)) exclude_name
            (is_pinned (pinned_models r)) (λ n, dict_mem n (loaded r))
            (λ n, bool_decide (n ∈ unloading r)) with
    | None => ret Oom.NO_CANDIDATE
    | Some candidate =>
        catch (do! do_unload candidate "oom_recovery" in ret Oom.EVICTED)
          (λ e, if is_exception e then ret Oom.UNLOAD_FAILED else throw e)
    end.

(** One tick of [_idle_evict_loop]: the snapshot, taken without the lock; every manager
    reads the clock. *)
Fixpoint idle_models (threshold : float) (managers : list Memory.MemoryManager) : M (list string) :=
  match managers with
  | [] => ret []
  | m :: rest =>
      let! t := now in
      let! r := get in
      match Memory.get_idle_models m threshold t (elements (pinned_models r)) with
      | Raise _ => throw (value_error "idle_threshold_s must be >= 0")
      | Ret l => let! rest' := idle_models threshold rest in ret (l ++ rest')%list
      end
  end.

Definition idle_snapshot (threshold : float) : M (list string) :=
  let! r := get in idle_models threshold (dict_values (memory_managers r)).

(** ... and the walk of the snapshot under the lock: the first stale model is unloaded. *)
Fixpoint idle_evict (threshold : float) (stale : list string) : M unit :=
  match stale with
  | [] => ret tt
  | name :: rest =>
      let! r := get in
      if negb (dict_mem name (loaded r)) then idle_evict threshold rest
      else match dict_get name (Memory.models (the_manager (manager_key name r) r)) with
           | None => idle_evict threshold rest
           | Some info =>
               let! t := now in
               if flt (fsub t (Memory.last_used_at info)) threshold
               then idle_evict threshold rest
               else best_effort (do_unload name "idle")
           end
  end.

(** The loop of [_memory_monitor_loop] over one manager under pressure. *)
Fixpoint relieve (fuel : nat) (dev : string) : M unit :=
  match fuel with
  | O => out_of_fuel
  | S fuel' =>
      let! pressure := check_pressure dev in
      if negb pressure then ret tt
      else
        let! r := get in
        if (length (Memory.loaded_models (the_manager dev r)) <=? 1)%nat then ret tt
        else match lru_victim dev r with
             | None => ret tt
             | Some lru =>
                 if negb (dict_mem lru (loaded r)) then
                   do! modify (update_manager dev (λ m, Memory.unregister_model m lru)) in
                   relieve fuel' dev
                 else
                   do! query dev in
                   do! do_unload lru "memory_pressure" in
                   relieve fuel' dev
             end
  end.

(** The managers under pressure, without the lock *)
Fixpoint pressured_managers (l : list string) : M (list string) :=
  match l with
  | [] => ret []
  | d :: l' =>
      let! b := check_pressure d in
      let! rest := pressured_managers l' in
      ret (if b then d :: rest else rest)
  end.

(** ... and their relief under the lock *)
Fixpoint relieve_all (devs : list string) : M unit :=
  match devs with
  | [] => ret tt
  | d :: rest => let! r := get in do! relieve (device_fuel d r) d in relieve_all rest
  end.

(** One iteration of the monitor; its [except Exception] ends the iteration. *)
Definition monitor_locked (devs : list string) : M unit := best_effort (relieve_all devs).

(** [start_worker] under the lock *)
Definition start_worker (name : string) : M unit :=
  let! r := get in
  match dict_get name (loaded r) with
  | None => throw (ERR_MODEL_NOT_LOADED name)
  | Some lm =>
      if bool_decide (name ∈ unloading r) then throw (ERR_BEING_UNLOADED name)
      else match lm_worker lm with
           | None => throw (runtime_error ("Worker not available for model '" +:+ name +:+ "'"))
           | Some running =>
               do! touch_lru name in
               if running then ret tt
               else
                 do! await in
                 let! o := consult (λ n, worker_start env n name) in
                 do! of_res o in
                 modify (λ r, match dict_get name (loaded r) with
                   | Some lm' => with_loaded (dict_set name (mkLoadedModel (lm_config lm')
                       (lm_adapter lm') (lm_device lm') (Some true) (lm_memory_bytes lm'))) r
                   | None => r end)
           end
  end.

(** ** Configuration changes under the lock *)

(** The locked part of [add_config_async] *)
Definition invalidate_configs (invalidated removed : gset string) : M unit :=
  do! do_unload_all (sorted_strings (elements invalidated)) "config_change" in
  modify (drop_config_entries (sorted_strings (elements removed))).

(** The ids whose config changes *)
Definition changed_ids (expanded : list (string * ModelConfig)) (r : Reg) : gset string :=
  list_to_set (omap (λ '(id, c),
    match dict_get id (configs r) with
    | Some c0 => if bool_decide (semantic_hash c0 = semantic_hash c) then None else Some id
    | None => None
    end) expanded).

(** [add_config_async] *)
Definition add_config_async (config : ModelConfig) (model_dir : option string) : M (gset string) :=
  let! r := get in
  let '(expanded, updated_ids, removed_ids) := prepare_config_update config r in
  do! of_res (preflight_config_update expanded updated_ids removed_ids r) in
  let invalidated := removed_ids ∪ changed_ids expanded r in
  do! (if bool_decide (invalidated = ∅) then ret tt
       else do! await in invalidate_configs invalidated removed_ids) in
  do! modify (apply_config_entry config model_dir) in
  ret (updated_ids ∪ removed_ids).

(** [remove_config_async] *)
Fixpoint remove_entries (ids : list string) : M unit :=
  match ids with
  | [] => ret tt
  | id :: rest =>
      do! do_unload id "config_change" in
      do! modify (drop_config_entry id) in
      remove_entries rest
  end.

Definition remove_config_async (model_id : string) : M (gset string) :=
  let! r := get in
  let removed := ({[model_id]} ∪ variant_ids_for_base model_id r)
                 ∩ list_to_set (dict_keys (configs r)) in
  if bool_decide (removed = ∅) then ret ∅
  else
    do! await in
    do! remove_entries (sorted_strings (elements removed)) in
    ret removed.

(** [replace_configs_async] *)
Fixpoint collect_accepted (acc : list (string * ModelConfig)) (l : list (string * ModelConfig))
    : res exc (list (string * ModelConfig)) :=
  match l with
  | [] => Ret acc
  | (_, c) :: l' =>
      if negb (accepts_config_pool c) then collect_accepted acc l'
      else if dict_mem (sie_id c) acc
      then Raise (value_error ("duplicate model config in authoritative snapshot: " +:+ sie_id c))
      else collect_accepted (dict_set (sie_id c) c acc) l'
  end.

Fixpoint validate_isolation_all (accepted l : list (string * ModelConfig)) : res exc unit :=
  match l with
  | [] => Ret tt
  | (name, c) :: l' =>
      res_bind (validate_pool_isolation name c accepted false)
        (λ _, validate_isolation_all (dict_set name c accepted) l')
  end.

Definition snapshot_configs (l : list ModelConfig) : res exc (list (string * ModelConfig)) :=
  res_bind (expand_profile_variants l) (λ ex,
  res_bind (collect_accepted [] ex) (λ new_configs,
  res_bind (match pool_name P with
            | Some _ => validate_isolation_all [] new_configs
            | None => Ret tt end) (λ _,
  res_bind (validate_loras new_configs) (λ _, Ret new_configs)))).

(** The ids a snapshot invalidates *)
Definition invalidated_by (new_configs : list (string * ModelConfig)) (model_dir : option string)
    (r : Reg) : gset string :=
  let removed := list_to_set (dict_keys (configs r)) ∖ list_to_set (dict_keys new_configs) in
  let changed := list_to_set (omap (λ '(name, c),
    match dict_get name (configs r) with
    | Some c0 => if bool_decide (semantic_hash c0 = semantic_hash c) then None else Some name
    | None => Some name
    end) new_configs) in
  let moved := match model_dir with
    | Some dir => list_to_set (filter (λ n, dict_get n (model_dirs r) ≠ Some dir) (dict_keys new_configs))
    | None => ∅
    end in
  removed ∪ changed ∪ moved.

(** ... its part under the lock *)
Definition replace_locked (new_configs : list (string * ModelConfig)) (model_dir : option string)
    : M (gset string) :=
  let! r := get in
  let invalidated := invalidated_by new_configs model_dir r in
  if bool_decide (invalidated = ∅) then ret ∅
  else
    do! do_unload_all (sorted_strings (elements invalidated)) "config_change" in
    do! modify (with_configs (λ _, new_configs)) in
    do! modify (with_filter (option_map (λ _, list_to_set (dict_keys new_configs)))) in
    do! modify (with_dirs (filter (λ e, e.1 ∈ dict_keys new_configs))) in
    do! (match model_dir with
         | Some dir => modify (with_dirs (λ d, foldl (λ d n, dict_set n dir d) d (dict_keys new_configs)))
         | None => ret tt end) in
    do! modify (with_failed (filter (λ e, e.1 ∉ invalidated))) in
    do! modify (with_version (Z.add 1)) in
    ret invalidated.

Definition replace_configs_async (l : list ModelConfig) (model_dir : option string) : M (gset string) :=
  let! new_configs := of_res (snapshot_configs l) in
  do! await in
  let! invalidated := replace_locked new_configs model_dir in
  if bool_decide (invalidated = ∅) then ret ∅
  else do! eager_load_pinned in ret invalidated.

End registry.
End Registry.
