(* ===== verification/RegistrySystem.v ===== *)
(** Invariants of the model registry over all its executions.

    [same_core] is what an [await] preserves: the coroutines that run without the load
    lock may touch models, start loads, change pins, failures and configurations, but
    the set of loaded models, the accounting of the memory managers and the set of
    models being unloaded are as before.  The operations under the lock are specified
    against it. *)

From S2P Require Import Prelude PyFloat PyDict PyStr Memory Oom LoadErrors RegistryIds Registry.
Local Open Scope Z_scope.

Module RegistrySystem.
Import LoadErrors RegistryIds Registry.
Local Open Scope reg_scope.

(** ** What the registry must keep consistent *)

Definition device_of (r : Reg) (name : string) : option string :=
  lm_device <$> dict_get name (loaded r).

Definition tracked (r : Reg) (d name : string) : Prop :=
  ∃ m, dict_get d (memory_managers r) = Some m ∧ name ∈ Memory.loaded_models m.

Record wf (r : Reg) : Prop := {
  wf_loaded : dict_wf (loaded r);
  wf_managers : dict_wf (memory_managers r);
  wf_manager : ∀ d m, dict_get d (memory_managers r) = Some m → dict_wf (Memory.models m);
}.

(** The accounting: a manager tracks exactly the models loaded on its device.  During an
    unload one model may be tracked although it is no longer loaded ([ghost]). *)
Record accounted (ghost : option (string * string)) (r : Reg) : Prop := {
  acc_wf : wf r;
  acc_tracked : ∀ d n, tracked r d n ↔ device_of r n = Some d ∨ ghost = Some (n, d);
  acc_ghost : ∀ n d, ghost = Some (n, d) → device_of r n = None;
}.

Definition task_name (t : task) : option string :=
  match t with TLoad n _ | TWaiting n _ => Some n | TEagerPinned => None end.

(** Every model marked as loading is one a background task or the holder of the lock
    will take out of [_loading] again. *)
Definition loading_owned (held : gset string) (r : Reg) : Prop :=
  ∀ n, n ∈ loading r → n ∈ held ∨ Some n ∈ task_name <$> tasks r.

Definition device_count (d : string) (r : Reg) : nat :=
  match dict_get d (memory_managers r) with
  | Some m => length (Memory.models m)
  | None => O
  end.

Record weak_core (r r' : Reg) : Prop := {
  sc_device : ∀ n, device_of r' n = device_of r n;
  sc_tracked : ∀ d n, tracked r' d n ↔ tracked r d n;
  sc_count : ∀ d, device_count d r' = device_count d r;
  sc_unloading : unloading r' = unloading r;
  sc_wf : wf r → wf r';
}.

Record same_core (r r' : Reg) : Prop := {
  sc_core : weak_core r r';
  sc_owned : ∀ held, loading_owned held r → loading_owned held r';
}.

#[export] Instance weak_core_preorder : PreOrder weak_core.
Proof.
  split.
  - intros r. by constructor.
  - intros r1 r2 r3 [d1 t1 c1 u1 w1] [d2 t2 c2 u2 w2]. constructor.
    + intros n. by rewrite d2.
    + intros d n. by rewrite t2.
    + intros d. by rewrite c2.
    + by rewrite u2.
    + auto.
Qed.

#[export] Instance same_core_preorder : PreOrder same_core.
Proof.
  split.
  - intros r. by constructor.
  - intros r1 r2 r3 [c1 o1] [c2 o2]. constructor; [by etrans|auto].
Qed.

Lemma weak_core_eq r r' :
  loaded r' = loaded r → memory_managers r' = memory_managers r →
  unloading r' = unloading r → weak_core r r'.
Proof.
  intros Hl Hm Hu.
  constructor; intros; unfold device_of, tracked, device_count; rewrite ?Hl, ?Hm; try done.
  destruct H. constructor; rewrite ?Hl, ?Hm; auto.
Qed.

Lemma same_core_eq r r' :
  loaded r' = loaded r → memory_managers r' = memory_managers r →
  unloading r' = unloading r →
  (∀ held, loading_owned held r → loading_owned held r') → same_core r r'.
Proof. intros. constructor; [by apply weak_core_eq|done]. Qed.

Lemma loading_owned_eq held r r' :
  loading r' = loading r → tasks r' = tasks r → loading_owned held r → loading_owned held r'.
Proof. unfold loading_owned. by intros -> ->. Qed.

(** The fields no part of the core reads *)
Lemma same_core_other r r' :
  loaded r' = loaded r → memory_managers r' = memory_managers r →
  unloading r' = unloading r → loading r' = loading r → tasks r' = tasks r → same_core r r'.
Proof. intros. apply same_core_eq; eauto using loading_owned_eq. Qed.

Lemma accounted_weak_core ghost r r' : weak_core r r' → accounted ghost r → accounted ghost r'.
Proof.
  intros [] []. constructor; [auto|..].
  - intros d n. by rewrite sc_tracked0, acc_tracked0, sc_device0.
  - intros n d Hg. rewrite sc_device0. eauto.
Qed.

(** ** Stepping through a computation

    [steps R m]: whatever the outcome of [m], the state it leaves is related to the one it
    found.  For a preorder [R] the rule of each combinator of the monad is generic. *)

Definition steps (R : relation Reg) {A} (m : M A) : Prop := ∀ r, R r (m r).2.

Notation frames := (steps same_core).
Notation keeps π := (steps (λ r r' : Reg, π r' = π r)).

#[export] Instance keeps_preorder {B} (π : Reg → B) : PreOrder (λ r r' : Reg, π r' = π r).
Proof. split; [done|]. intros r1 r2 r3 H1 H2. by rewrite H2. Qed.

Section steps.
Context {R : relation Reg} `{!PreOrder R}.

Lemma steps_at {A} (m : M A) r o r' : steps R m → m r = (o, r') → R r r'.
Proof. intros Hf E. pose proof (Hf r) as H. by rewrite E in H. Qed.

Lemma steps_ret {A} (a : A) : steps R (ret a).
Proof. intros r. cbn. reflexivity. Qed.
Lemma steps_throw {A} e : steps R (throw (A:=A) e).
Proof. intros r. cbn. reflexivity. Qed.
Lemma steps_out_of_fuel {A} : steps R (out_of_fuel (A:=A)).
Proof. intros r. cbn. reflexivity. Qed.
Lemma steps_get : steps R get.
Proof. intros r. cbn. reflexivity. Qed.
Lemma steps_of_res {A} (o : res exc A) : steps R (of_res o).
Proof. destruct o; intros r; cbn; reflexivity. Qed.
Lemma steps_modify f : (∀ r, R r (f r)) → steps R (modify f).
Proof. intros H r. apply H. Qed.

Lemma steps_bind {A B} (m : M A) (k : A → M B) :
  steps R m → (∀ a, steps R (k a)) → steps R (bind m k).
Proof.
  intros Hm Hk r. unfold bind. specialize (Hm r). destruct (m r) as [[a|e] r']; [|done].
  etrans; [exact Hm|apply Hk].
Qed.

Lemma steps_catch {A} (m : M A) h : steps R m → (∀ e, steps R (h e)) → steps R (catch m h).
Proof.
  intros Hm Hh r. unfold catch. specialize (Hm r). destruct (m r) as [[a|[e|]] r']; [done| |done].
  etrans; [exact Hm|apply Hh].
Qed.

Lemma steps_finally {A} (m : M A) f : steps R m → steps R f → steps R (finally m f).
Proof.
  intros Hm Hf r. unfold finally. specialize (Hm r). destruct (m r) as [o r1].
  specialize (Hf r1). destruct (f r1) as [[u|e] r2]; etrans; eauto.
Qed.
End steps.

Create HintDb steps.
#[export] Hint Extern 1 (steps _ (ret _)) => apply steps_ret : steps.
#[export] Hint Extern 1 (steps _ (throw _)) => apply steps_throw : steps.
#[export] Hint Extern 1 (steps _ out_of_fuel) => apply steps_out_of_fuel : steps.
#[export] Hint Extern 1 (steps _ get) => apply steps_get : steps.
#[export] Hint Extern 1 (steps _ (of_res _)) => apply steps_of_res : steps.

(** Walk a computation down to the operations the database knows; [leaf] closes the
    state changes. *)
Ltac walk leaf :=
  repeat first
    [ progress auto with steps
    | apply steps_bind; [|intros ?]
    | apply steps_catch; [|intros ?]
    | apply steps_finally
    | match goal with
      | |- steps _ (if ?b then _ else _) => destruct b
      | |- steps _ (match ?x with _ => _ end) => destruct x
      | |- steps _ (modify _) => apply steps_modify; intros; leaf
      end ].

Ltac frame := walk ltac:(by apply same_core_other).

Lemma frames_consult {A} (f : nat → A) : frames (consult f).
Proof. intros r. by apply same_core_other. Qed.
#[export] Hint Resolve frames_consult : steps.

Section system.
Context (P : Params) `{V : VariantMaker} (env : Env).

Notation the_manager := (the_manager P).
Notation update_manager := (update_manager P).
Notation ensure_manager := (ensure_manager P).

Lemma ensure_manager_get d r : dict_get d (memory_managers (ensure_manager d r)) = Some (the_manager d r).
Proof.
  unfold Registry.ensure_manager, Registry.the_manager. destruct (dict_mem d _) eqn:E.
  - apply dict_mem_true, dict_get_is_Some in E as [m Hm]. by rewrite Hm.
  - apply dict_mem_false, dict_get_None in E. rewrite E. cbn. rewrite dict_get_set.
    by rewrite decide_True by done.
Qed.

Lemma update_manager_get d f r d' :
  dict_get d' (memory_managers (update_manager d f r)) =
  if decide (d' = d) then Some (f (the_manager d r)) else dict_get d' (memory_managers r).
Proof.
  unfold Registry.update_manager. cbn [memory_managers with_managers].
  rewrite dict_get_set. unfold Registry.the_manager at 1. rewrite ensure_manager_get. cbn [default].
  destruct (decide (d = d')) as [->|Hd]; [by rewrite decide_True|]. rewrite decide_False by done.
  unfold Registry.ensure_manager. destruct (dict_mem d _); [done|]. cbn [memory_managers with_managers with_order].
  rewrite dict_get_set. by rewrite decide_False.
Qed.

Lemma update_manager_fields d f r :
  loaded (update_manager d f r) = loaded r ∧ unloading (update_manager d f r) = unloading r ∧
  loading (update_manager d f r) = loading r ∧ tasks (update_manager d f r) = tasks r ∧
  pinned_models (update_manager d f r) = pinned_models r ∧
  failed (update_manager d f r) = failed r ∧ configs (update_manager d f r) = configs r.
Proof.
  unfold Registry.update_manager, Registry.ensure_manager. by destruct (dict_mem d _).
Qed.

Lemma ensure_manager_update d r : ensure_manager d r = r ∨
  (dict_get d (memory_managers r) = None ∧
   ensure_manager d r = with_order (λ o, dict_set d (Z.of_nat (length o)) o)
         (with_managers (dict_set d (new_manager P d)) r)).
Proof.
  unfold Registry.ensure_manager. destruct (dict_mem d _) eqn:E; [by left|right].
  by apply dict_mem_false, dict_get_None in E.
Qed.

Lemma wf_update d f r :
  (∀ m, dict_wf (Memory.models m) → dict_wf (Memory.models (f m))) → wf r → wf (update_manager d f r).
Proof.
  intros Hf [Hl Hm Hmm]. destruct (update_manager_fields d f r) as [El _].
  constructor.
  - by rewrite El.
  - unfold Registry.update_manager. cbn [memory_managers with_managers]. apply dict_set_wf.
    destruct (ensure_manager_update d r) as [->|[_ ->]]; [done|]. cbn. by apply dict_set_wf.
  - intros d' m. rewrite update_manager_get. case_decide; [|apply Hmm]. intros [= <-].
    apply Hf. unfold Registry.the_manager.
    destruct (dict_get d (memory_managers r)) eqn:E; [by eapply Hmm|apply NoDup_nil_2].
Qed.

Lemma tracked_update d f r d' n :
  tracked (update_manager d f r) d' n ↔
  if decide (d' = d) then n ∈ Memory.loaded_models (f (the_manager d r)) else tracked r d' n.
Proof.
  unfold tracked. setoid_rewrite update_manager_get. case_decide; [|done].
  split; [by intros (m & [= <-] & ?)|eauto].
Qed.

Lemma tracked_the_manager d r n : tracked r d n ↔ n ∈ Memory.loaded_models (the_manager d r).
Proof.
  unfold tracked, Registry.the_manager. destruct (dict_get d (memory_managers r)) as [m|]; cbn.
  - split; [by intros (? & [= ->] & ?)|eauto].
  - split; [by intros (? & ? & ?)|]. by intros H%elem_of_nil.
Qed.

Lemma device_count_update d f r d' :
  device_count d' (update_manager d f r) =
  if decide (d' = d) then length (Memory.models (f (the_manager d r))) else device_count d' r.
Proof. unfold device_count. rewrite update_manager_get. by case_decide. Qed.

Lemma device_count_the_manager d r : device_count d r = length (Memory.models (the_manager d r)).
Proof. unfold device_count, Registry.the_manager. by destruct (dict_get d _). Qed.

(** An update that keeps the models of a manager *)
Lemma same_core_update d f r :
  (∀ m n, n ∈ Memory.loaded_models (f m) ↔ n ∈ Memory.loaded_models m) →
  (∀ m, length (Memory.models (f m)) = length (Memory.models m)) →
  (∀ m, dict_wf (Memory.models m) → dict_wf (Memory.models (f m))) →
  same_core r (update_manager d f r).
Proof.
  intros Hk Hlen Hwf. destruct (update_manager_fields d f r) as (El & Eu & Elo & Et & _).
  constructor; [|intros held; by apply loading_owned_eq]. constructor.
  - intros n. unfold device_of. by rewrite El.
  - intros d' n. rewrite tracked_update. case_decide; [|done]. subst.
    by rewrite Hk, tracked_the_manager.
  - intros d'. rewrite device_count_update. case_decide; [|done]. subst.
    by rewrite Hlen, device_count_the_manager.
  - done.
  - by apply wf_update.
Qed.

Lemma same_core_ensure d r : same_core r (ensure_manager d r).
Proof.
  destruct (ensure_manager_update d r) as [->|[Hd ->]]; [done|].
  constructor; [|done]. constructor; try done; cbn.
  - intros d' n. unfold tracked. cbn. setoid_rewrite dict_get_set. case_decide; [|done]. subst.
    rewrite Hd. split; [|naive_solver]. intros (m & [= <-] & Hm). by apply elem_of_nil in Hm.
  - intros d'. unfold device_count. cbn. rewrite dict_get_set. case_decide; [|done]. subst. by rewrite Hd.
  - intros [Hl Hm Hmm]. constructor; cbn; [done|by apply dict_set_wf|].
    intros d' m. rewrite dict_get_set. case_decide; [|apply Hmm]. intros [= <-]. apply NoDup_nil_2.
Qed.

Lemma touch_models m n t :
  (∀ k, k ∈ Memory.loaded_models (Memory.touch m n t) ↔ k ∈ Memory.loaded_models m) ∧
  length (Memory.models (Memory.touch m n t)) = length (Memory.models m) ∧
  (dict_wf (Memory.models m) → dict_wf (Memory.models (Memory.touch m n t))).
Proof.
  unfold Memory.touch. destruct (dict_get n (Memory.models m)) as [info|] eqn:E; [|done].
  assert (n ∈ dict_keys (Memory.models m)) as Hn by (apply dict_get_is_Some; eauto).
  unfold Memory.loaded_models. cbn [Memory.models Memory.with_models]. split; [|split].
  - intros k. unfold dict_keys at 1. rewrite dict_move_to_end_perm.
    change (fst <$> dict_set n ?v ?d) with (dict_keys (dict_set n v d)).
    rewrite dict_keys_set. by rewrite decide_True.
  - rewrite length_dict_move_to_end, length_dict_set. by rewrite decide_True.
  - auto with sie.
Qed.

Lemma frames_touch_lru n : frames (touch_lru P env n).
Proof.
  apply steps_bind; [apply frames_consult|]. intros t. apply steps_modify. intros r.
  destruct (dict_mem n (loaded r)); [|done]. apply same_core_update; intros; apply touch_models.
  done.
Qed.

Lemma frames_ensure d : frames (modify (ensure_manager d)).
Proof. apply steps_modify, same_core_ensure. Qed.

Lemma frames_now : frames (now env).
Proof. apply frames_consult. Qed.
#[local] Hint Resolve frames_touch_lru frames_ensure frames_now : steps.

Lemma frames_query d : frames (query P env d).
Proof. unfold query. frame. Qed.
#[local] Hint Resolve frames_query : steps.

Lemma frames_check_pressure d : frames (check_pressure P env d).
Proof. unfold check_pressure. frame. Qed.
Lemma frames_should_evict d q : frames (should_evict_for_load P env d q).
Proof. unfold should_evict_for_load. frame. Qed.
Lemma frames_required a d : frames (adapter_load_required_bytes P env a d).
Proof. unfold adapter_load_required_bytes. frame. Qed.
#[local] Hint Resolve frames_check_pressure frames_should_evict frames_required : steps.

Lemma frames_scores l : frames (scores P env l).
Proof. induction l as [|d l IH]; cbn [scores]; unfold score; frame. Qed.
#[local] Hint Resolve frames_scores : steps.

Lemma frames_resolve_load_device d : frames (resolve_load_device P env d).
Proof. unfold resolve_load_device, select_device_for_model. frame. Qed.
#[local] Hint Resolve frames_resolve_load_device : steps.

Lemma frames_is_failed n : frames (is_failed env n).
Proof. unfold is_failed. frame. Qed.
Lemma frames_clear_failure n : frames (clear_failure n).
Proof. unfold clear_failure. frame. Qed.
Lemma frames_record_load_failure n e : frames (record_load_failure P env n e).
Proof. unfold record_load_failure. frame. Qed.
Lemma frames_check_model_loadable n : frames (check_model_loadable P env n).
Proof. unfold check_model_loadable, rescan_configs, load_configs_from_dir. frame. Qed.
#[local] Hint Resolve frames_is_failed frames_clear_failure frames_record_load_failure
  frames_check_model_loadable : steps.

Lemma frames_start_load n d : frames (start_load_async P env n d).
Proof.
  unfold start_load_async. apply steps_bind; [frame|intros r0].
  destruct (dict_mem n (loaded r0)); [frame|]. destruct (bool_decide _); [frame|].
  apply steps_bind; [frame|intros f]. destruct f; [frame|].
  apply steps_bind; [frame|intros _]. intros r.
  apply same_core_eq; try done. intros held Ho k. cbn. unfold loading_owned in Ho.
  rewrite fmap_app, elem_of_app, elem_of_union, elem_of_singleton. cbn.
  intros [->|Hk]; [right; right; by left|]. destruct (Ho _ Hk); auto.
Qed.
#[local] Hint Resolve frames_start_load : steps.

Lemma frames_eager_load l : frames (eager_load P env l).
Proof. induction l as [|i l IH]; cbn [eager_load]; frame. Qed.
Lemma frames_eager_load_pinned : frames (eager_load_pinned P env).
Proof. unfold eager_load_pinned. pose proof frames_eager_load. frame. Qed.
#[local] Hint Resolve frames_eager_load_pinned : steps.

Lemma frames_set_pinned_models l : frames (set_pinned_models P env l).
Proof. unfold set_pinned_models. frame. Qed.

Lemma loading_owned_less held n r :
  loading_owned ({[n]} ∪ held) r → loading_owned held (with_loading (λ l, l ∖ {[n]}) r).
Proof. intros Ho k. cbn. intros Hk. specialize (Ho k). set_solver. Qed.

(** The end of a background load: the model leaves [_loading] whatever happened. *)
Lemma finish_background_core n o r :
  weak_core r (finish_background P env n o r).2 ∧
  ∀ held, loading_owned ({[n]} ∪ held) r → loading_owned held (finish_background P env n o r).2.
Proof.
  unfold finish_background, finally.
  match goal with |- context [let '(_, _) := ?m r in _] =>
    assert (frames m) as Hm by (destruct o as [|[e|]]; frame);
    destruct (m r) as [o1 r1] eqn:E; pose proof (steps_at _ _ _ _ Hm E) as [Hc Ho] end.
  cbn. split; [etrans; [exact Hc|by apply weak_core_eq]|].
  intros held Hh. by apply loading_owned_less, Ho.
Qed.

Lemma keeps_tasks_check n : keeps tasks (check_model_loadable P env n).
Proof.
  unfold check_model_loadable, rescan_configs, load_configs_from_dir.
  walk ltac:(done). all: by intros r.
Qed.

Lemma frames_begin_task i : frames (begin_task P env i).
Proof.
  intros r. unfold begin_task, bind, get.
  destruct (tasks r !! i) as [[n d|n d|]|] eqn:Hi; [|done| |done].
  - destruct (check_model_loadable P env n r) as [[u|e] r'] eqn:E; cbn [snd].
    + etrans; [exact (steps_at _ _ _ _ (frames_check_model_loadable n) E)|].
      pose proof (steps_at _ _ _ _ (keeps_tasks_check n) E) as Ht. cbn in Ht.
      apply same_core_eq; try done. intros held Ho k Hk. destruct (Ho k Hk) as [|Hin]; [by left|].
      right. cbn. rewrite list_fmap_insert, list_insert_id; [done|].
      by rewrite list_lookup_fmap, Ht, Hi.
    + etrans; [exact (steps_at _ _ _ _ (frames_check_model_loadable n) E)|].
      pose proof (steps_at _ _ _ _ (keeps_tasks_check n) E) as Ht. cbn in Ht.
      destruct (finish_background_core n (Raise e) (with_tasks (delete i) r')) as [Hc Ho].
      constructor; [etrans; [|exact Hc]; by apply weak_core_eq|].
      intros held Hh. apply Ho. intros k Hk. cbn. destruct (Hh k Hk) as [|Hin]; [set_solver|].
      rewrite Ht in Hin. apply list_elem_of_fmap in Hin as (t & Hn & Hin).
      rewrite (delete_Permutation _ _ _ Hi) in Hin. apply elem_of_cons in Hin as [->|Hin].
      * injection Hn as ->. set_solver.
      * right. apply list_elem_of_fmap. rewrite Ht. eauto.
  - change (same_core r (eager_load_pinned P env (with_tasks (delete i) r)).2).
    etrans; [|apply frames_eager_load_pinned]. apply same_core_eq; try done.
    intros held Ho k Hk. destruct (Ho k Hk) as [|Hin]; [by left|right]. cbn.
    apply list_elem_of_fmap in Hin as (t & Hn & Hin).
    rewrite (delete_Permutation _ _ _ Hi) in Hin. apply elem_of_cons in Hin as [->|Hin]; [done|].
    apply list_elem_of_fmap. eauto.
Qed.

Lemma foldl_same_core {A} (f : Reg → A → Reg) l r :
  (∀ r a, same_core r (f r a)) → same_core r (foldl f r l).
Proof.
  intros Hf. revert r. induction l as [|a l IH]; intros r; cbn; [done|].
  etrans; [apply Hf|apply IH].
Qed.

Lemma same_core_drop_entries ids r : same_core r (drop_config_entries ids r).
Proof. apply foldl_same_core. intros. by apply same_core_other. Qed.

Lemma same_core_more_tasks r ts : same_core r (with_tasks (λ l, l ++ ts) r).
Proof.
  apply same_core_eq; try done. intros held Ho k Hk. cbn. rewrite fmap_app, elem_of_app.
  destruct (Ho k Hk); auto.
Qed.

Lemma same_core_apply_config c dir r : same_core r (apply_config_entry P c dir r).
Proof.
  unfold apply_config_entry. destruct (filter _ (expand_one c)); [apply same_core_drop_entries|].
  etrans; [apply same_core_drop_entries|]. etrans; [|apply foldl_same_core].
  - destruct dir; by apply same_core_other.
  - intros r' n. unfold maybe_schedule_pinned_load.
    destruct (is_pinned _ _); [apply same_core_more_tasks|done].
Qed.

(** Changing the worker flag of a loaded model *)
Lemma same_core_set_loaded n lm lm' r :
  dict_get n (loaded r) = Some lm → lm_device lm' = lm_device lm →
  same_core r (with_loaded (dict_set n lm') r).
Proof.
  intros Hn Hd. constructor; [|done]. constructor; try done.
  - intros k. unfold device_of. cbn. rewrite dict_get_set. case_decide; [|done]. subst.
    rewrite Hn. cbn. by rewrite Hd.
  - intros [Hl Hm Hmm]. constructor; [by apply dict_set_wf|done|done].
Qed.

Lemma same_core_worker_stopped n r : same_core r (worker_stopped n r).
Proof.
  unfold worker_stopped. destruct (dict_get n (loaded r)) as [lm|] eqn:E; [|done].
  by eapply same_core_set_loaded.
Qed.

Lemma same_core_aside a r : same_core r (run_aside P env a r).
Proof.
  destruct a; cbn [run_aside]; try apply frames_touch_lru; try apply frames_clear_failure;
    try apply frames_set_pinned_models; try apply frames_start_load;
    try apply frames_check_model_loadable; try apply frames_begin_task;
    [apply same_core_apply_config|apply same_core_worker_stopped].
Qed.

Lemma frames_await : frames (await P env).
Proof.
  intros r. cbn. etrans; [|apply foldl_same_core; intros; apply same_core_aside].
  by apply same_core_other.
Qed.
#[local] Hint Resolve frames_await : steps.

Lemma frames_record_event e : frames (record_event e).
Proof. unfold record_event. frame. Qed.
Lemma frames_best_effort m : frames m → frames (best_effort m).
Proof. intros Hm. unfold best_effort. frame. Qed.
Lemma frames_drain n : frames (drain_worker P env n).
Proof. unfold drain_worker. frame. Qed.
Lemma frames_teardown n : frames (do! close_client P env n in run_adapter_unload P env n).
Proof.
  unfold close_client, run_adapter_unload. apply steps_bind; [|intros; frame].
  apply steps_bind; [frame|]. intros [c|]; [|frame]. apply frames_best_effort. frame.
Qed.
Lemma frames_instantiate n : frames (instantiate_adapter P env n).
Proof. unfold instantiate_adapter. frame. Qed.
Lemma frames_load_and_register n d a c : frames (load_and_register P env n d a c).
Proof. unfold load_and_register. frame. Qed.
#[local] Hint Resolve frames_record_event frames_drain frames_instantiate frames_load_and_register : steps.

(** ** Unloading *)

(** The condition on the loader: [unregister] is synchronous bookkeeping and raises no
    [BaseException]. *)
Definition loader_sane : Prop :=
  ∀ t n e, loader_unregister env t n = Raise e → is_exception e = true.

Lemma accounted_del n lm r :
  accounted None r → dict_get n (loaded r) = Some lm →
  accounted (Some (n, lm_device lm)) (with_loaded (dict_del n) r).
Proof.
  intros [[Hl Hm Hmm] Ht _] Hn.
  assert (∀ k, device_of (with_loaded (dict_del n) r) k = if decide (n = k) then None else device_of r k) as Hdev.
  { intros k. unfold device_of. cbn. rewrite dict_get_del by done. by case_decide. }
  constructor.
  - constructor; cbn; auto with sie.
  - intros d k. change (tracked (with_loaded (dict_del n) r) d k) with (tracked r d k).
    rewrite Ht, Hdev. case_decide as Hk; [subst|naive_solver].
    unfold device_of. rewrite Hn. cbn. naive_solver.
  - intros k d [= -> <-]. rewrite Hdev. by rewrite decide_True.
Qed.

Lemma accounted_unregister n d r :
  accounted (Some (n, d)) r → accounted None (update_manager d (λ m, Memory.unregister_model m n) r).
Proof.
  intros [[Hl Hm Hmm] Ht Hg]. pose proof (Hg n d eq_refl) as Hnone.
  assert (∀ m, dict_wf (Memory.models m) → dict_wf (Memory.models (Memory.unregister_model m n))) as Hwf.
  { intros m Hw. unfold Memory.unregister_model. destruct (dict_mem _ _); cbn; auto with sie. }
  assert (dict_wf (Memory.models (the_manager d r))) as Hwd.
  { unfold Registry.the_manager. destruct (dict_get d _) eqn:E; [by eapply Hmm|apply NoDup_nil_2]. }
  destruct (update_manager_fields d (λ m, Memory.unregister_model m n) r) as [El _].
  assert (∀ k, device_of (update_manager d (λ m, Memory.unregister_model m n) r) k = device_of r k) as Hdev.
  { intros k. unfold device_of. by rewrite El. }
  constructor; [by apply wf_update| |done].
  intros d' k. rewrite tracked_update, Hdev. destruct (decide (d' = d)) as [->|Hd].
  - assert (k ∈ Memory.loaded_models (Memory.unregister_model (the_manager d r) n) ↔
            k ≠ n ∧ tracked r d k) as ->; [|rewrite Ht; naive_solver].
    rewrite tracked_the_manager. unfold Memory.unregister_model.
    destruct (dict_mem n _) eqn:E; unfold Memory.loaded_models; cbn [Memory.models Memory.with_models].
    + rewrite dict_keys_del by done. by rewrite list_elem_of_filter.
    + apply dict_mem_false in E. naive_solver.
  - rewrite Ht. naive_solver.
Qed.

Lemma accounted_eq ghost r r' :
  loaded r' = loaded r → memory_managers r' = memory_managers r →
  accounted ghost r → accounted ghost r'.
Proof.
  intros Hl Hm [[H1 H2 H3] Ht Hg].
  constructor; [constructor; rewrite ?Hl, ?Hm; done|..]; unfold tracked, device_of in *; rewrite ?Hl, ?Hm; done.
Qed.

(** What an unload of [name] does to the registry, whatever its outcome. *)
Record unloads (name : string) (r : Reg) (o : res err unit) (r' : Reg) : Prop := {
  ul_accounted : accounted None r';
  ul_unloading : unloading r' = unloading r;
  ul_owned : ∀ held, loading_owned held r → loading_owned held r';
  ul_others : ∀ k, k ≠ name → device_of r' k = device_of r k;
  ul_total : o ≠ Raise OutOfFuel;
  ul_name : device_of r' name = None ∨ (o ≠ Ret tt ∧ device_of r' name = device_of r name);
}.

Lemma drop_accounting_spec n d r :
  loader_sane →
  ∃ t, drop_accounting P env n d r =
       (Ret tt, update_manager d (λ m, Memory.unregister_model m n) (with_tick t r)).
Proof.
  intros Hs. exists S. unfold drop_accounting, best_effort, bind, catch, consult, modify.
  destruct (loader_unregister env (tick r) n) as [u|e] eqn:E; cbn; [done|].
  rewrite (Hs _ _ _ E). done.
Qed.

Lemma frames_drain_if (lm : LoadedModel) n :
  frames (match lm_worker lm with Some true => drain_worker P env n | _ => ret tt end).
Proof. frame. Qed.

(** No operation of an unload runs out of fuel. *)
Definition total {A} (m : M A) : Prop := ∀ r, (m r).1 ≠ Raise OutOfFuel.

Lemma total_bind {A B} (m : M A) (k : A → M B) :
  total m → (∀ a, total (k a)) → total (bind m k).
Proof.
  intros Hm Hk r. unfold bind. specialize (Hm r). destruct (m r) as [[a|e] r']; [apply Hk|].
  cbn in *. congruence.
Qed.
Lemma total_catch {A} (m : M A) h : total m → (∀ e, total (h e)) → total (catch m h).
Proof.
  intros Hm Hh r. unfold catch. specialize (Hm r). destruct (m r) as [[a|[e|]] r']; [done|apply Hh|done].
Qed.
Lemma total_finally {A} (m : M A) f : total m → total f → total (finally m f).
Proof.
  intros Hm Hf r. unfold finally. specialize (Hm r). destruct (m r) as [o r1].
  specialize (Hf r1). destruct (f r1) as [[u|e] r2]; cbn in *; [done|congruence].
Qed.
Lemma total_of_res {A} (o : res exc A) : total (of_res o).
Proof. destruct o; intros r; done. Qed.


Ltac no_fuel :=
  repeat first
    [ apply total_of_res
    | match goal with |- total ?m => intros ?; done end
    | apply total_bind; [|intros ?]
    | apply total_catch; [|intros ?]
    | apply total_finally
    | match goal with
      | |- total (if ?b then _ else _) => destruct b
      | |- total (match ?x with _ => _ end) => destruct x
      end ].

Lemma total_do_unload n reason : total (do_unload P env n reason).
Proof.
  unfold do_unload, unload_body, drain_worker, del_loaded, close_client, run_adapter_unload,
    drop_accounting, best_effort. no_fuel.
Qed.

Lemma unload_body_spec n reason lm r o r' :
  loader_sane → accounted None r → dict_get n (loaded r) = Some lm →
  unload_body P env n reason lm r = (o, r') →
  accounted None r' ∧ unloading r' = unloading r ∧
  (∀ held, loading_owned held r → loading_owned held r') ∧
  (∀ k, k ≠ n → device_of r' k = device_of r k) ∧
  (device_of r' n = None ∨ (o ≠ Ret tt ∧ device_of r' n = device_of r n)).
Proof.
  intros Hs Hacc Hn. unfold unload_body. unfold bind at 1.
  match goal with |- context [match ?m r with _ => _ end] => destruct (m r) as [od ra] eqn:E1 end.
  apply (steps_at _ _ _ _ (frames_drain_if lm n)) in E1 as Ha. pose proof Ha as [Hac Hao].
  destruct od as [u|e].
  2:{ intros [= <- <-]. split; [by eapply accounted_weak_core|]. split; [apply Hac|]. split; [done|].
      split; [intros; apply Hac|]. right. split; [done|apply Hac]. }
  assert (∃ lm', dict_get n (loaded ra) = Some lm' ∧ lm_device lm' = lm_device lm) as (lm' & Hn' & Hd').
  { pose proof (sc_device _ _ Hac n) as Hd. unfold device_of in Hd. rewrite Hn in Hd. cbn in Hd.
    apply fmap_Some in Hd as (lm' & ? & ?). eauto. }
  assert (accounted None ra) as Hacca by by eapply accounted_weak_core.
  unfold bind at 1. unfold del_loaded. unfold bind at 1. cbn [get].
  assert (dict_mem n (loaded ra) = true) as -> by (apply dict_mem_true, dict_get_is_Some; eauto).
  cbn [modify]. set (rb := with_loaded (dict_del n) ra).
  pose proof (accounted_del n lm' ra Hacca Hn') as Hb. fold rb in Hb. rewrite Hd' in Hb.
  unfold bind at 1. unfold record_event. cbn [modify].
  set (rc := with_telemetry (cons (ModelEvicted n reason)) rb).
  assert (accounted (Some (n, lm_device lm)) rc) as Hc by by apply (accounted_eq _ rb).
  unfold bind at 1. unfold finally at 1.
  destruct ((do! close_client P env n in run_adapter_unload P env n) rc) as [ot rd] eqn:E2.
  apply (steps_at _ _ _ _ (frames_teardown n)) in E2 as [Hdc Hdo].
  destruct (drop_accounting_spec n (lm_device lm) rd Hs) as (t & ->).
  set (re := update_manager _ _ _).
  assert (accounted None re) as He.
  { apply accounted_unregister. eapply accounted_eq; [| |by eapply accounted_weak_core]; done. }
  destruct (update_manager_fields (lm_device lm) (λ m, Memory.unregister_model m n) (with_tick t rd))
    as (El & Eu & Elo & Et & _). fold re in El, Eu, Elo, Et.
  assert (∀ k, device_of re k = device_of rb k) as Hdev.
  { intros k. transitivity (device_of rd k); [unfold device_of; by rewrite El|].
    rewrite (sc_device _ _ Hdc). done. }
  assert (unloading re = unloading r ∧ (∀ held, loading_owned held r → loading_owned held re) ∧
    (∀ k, k ≠ n → device_of re k = device_of r k) ∧ device_of re n = None) as (Hu & Ho & Hk & Hnone).
  { split; [|split; [|split]].
    - rewrite Eu. cbn. rewrite (sc_unloading _ _ Hdc). apply Hac.
    - intros held Hh. apply (loading_owned_eq held (with_tick t rd)); [done..|].
      apply (loading_owned_eq held rd); [done..|]. apply Hdo.
      apply (loading_owned_eq held ra); [done..|]. auto.
    - intros k Hk. rewrite Hdev. transitivity (device_of ra k); [|apply Hac].
      unfold device_of, rb. cbn. rewrite dict_get_del by apply Hacca. by rewrite decide_False.
    - rewrite Hdev. by apply (acc_ghost _ _ Hb n (lm_device lm)). }
  destruct ot as [u'|e]; cbn [modify]; intros [= <- <-].
  - split; [by eapply accounted_eq; [..|exact He]|]. split; [done|]. split; [done|]. split; [done|]. by left.
  - split; [done|]. split; [done|]. split; [done|]. split; [done|]. by left.
Qed.

Lemma do_unload_spec n reason r o r' :
  loader_sane → accounted None r → unloading r = ∅ →
  do_unload P env n reason r = (o, r') → unloads n r o r'.
Proof.
  intros Hs Hacc Hu E.
  assert (o ≠ Raise OutOfFuel) as Ht.
  { pose proof (total_do_unload n reason r) as Ht. by rewrite E in Ht. }
  revert E. unfold do_unload. unfold bind at 1. cbn [get].
  destruct (dict_get n (loaded r)) as [lm|] eqn:Hn.
  2:{ intros [= <- <-]. constructor; try done. left. unfold device_of. by rewrite Hn. }
  unfold bind, modify, finally. set (r1 := with_unloading _ r).
  destruct (unload_body P env n reason lm r1) as [o1 r2] eqn:E. intros [= <- <-].
  apply unload_body_spec in E as (H1 & H2 & H3 & H4 & H5); [|done|by eapply accounted_eq; [..|exact Hacc]|done].
  constructor; [by eapply accounted_eq; [..|exact H1]| | | |done|exact H5].
  - cbn. rewrite H2. unfold r1. cbn. rewrite Hu. set_solver.
  - intros held Hh. by apply (H3 held).
  - intros k Hk. by apply (H4 k).
Qed.

(** ** Eviction *)

(** What an operation that only unloads does: from a consistent state with no unload
    under way it leads to one, and it moves no model and adds none. *)
Definition consistent (r : Reg) : Prop := accounted None r ∧ unloading r = ∅.

Definition shrinks (r r' : Reg) : Prop :=
  consistent r →
  consistent r' ∧ (∀ held, loading_owned held r → loading_owned held r') ∧
  (∀ k, device_of r' k = device_of r k ∨ device_of r' k = None).

#[global] Instance shrinks_preorder : PreOrder shrinks.
Proof.
  split.
  - intros r Hc. auto.
  - intros r1 r2 r3 H1 H2 Hc. destruct (H1 Hc) as (Hc2 & Ho2 & Hd2).
    destruct (H2 Hc2) as (Hc3 & Ho3 & Hd3). split; [done|]. split; [auto|]. intros k.
    destruct (Hd3 k) as [->|]; auto.
Qed.

Lemma shrinks_same_core r r' : same_core r r' → shrinks r r'.
Proof.
  intros [Hw Ho] [Hacc Hu]. split; [|split; [done|left; apply Hw]].
  split; [by eapply accounted_weak_core|]. by rewrite (sc_unloading _ _ Hw).
Qed.

Lemma steps_shrinks_frames {A} (m : M A) : frames m → steps shrinks m.
Proof. intros Hm r. apply shrinks_same_core, Hm. Qed.

Lemma shrinks_unloads n r o r' : consistent r → unloads n r o r' → shrinks r r'.
Proof.
  intros [_ Hu] Hul _. split; [|split; [apply Hul|]].
  - split; [apply Hul|]. by rewrite (ul_unloading _ _ _ _ Hul).
  - intros k. destruct (decide (k = n)) as [->|Hk]; [|left; by apply Hul].
    destruct (ul_name _ _ _ _ Hul) as [|[_ ->]]; auto.
Qed.

Context (Hsane : loader_sane).

Lemma steps_do_unload n reason : steps shrinks (do_unload P env n reason).
Proof.
  intros r Hc. destruct (do_unload P env n reason r) as [o r'] eqn:E.
  apply do_unload_spec in E; [|done|apply Hc..]. by apply (shrinks_unloads n r o r').
Qed.

(** The models on a device, counted: an unload of one of them lowers the count. *)
Lemma length_remove (n : string) (l l' : list string) :
  NoDup l → NoDup l' → n ∈ l → (∀ k, k ∈ l' ↔ k ∈ l ∧ k ≠ n) → S (length l') = length l.
Proof.
  intros Hl Hl' Hn Hk. assert (l ≡ₚ n :: l') as ->; [|done]. apply NoDup_Permutation; [done| |].
  - constructor; [rewrite Hk; naive_solver|done].
  - intros k. rewrite elem_of_cons, Hk. destruct (decide (k = n)); naive_solver.
Qed.

Lemma accounted_the_manager d r : wf r → dict_wf (Memory.models (the_manager d r)).
Proof.
  intros [_ _ H]. unfold Registry.the_manager.
  destruct (dict_get d _) eqn:E; [by eapply H|apply NoDup_nil_2].
Qed.

Lemma device_count_drop n d r r' :
  accounted None r → accounted None r' → (∀ k, k ≠ n → device_of r' k = device_of r k) →
  device_of r n = Some d → device_of r' n = None → S (device_count d r') = device_count d r.
Proof.
  intros [Hwf Ht _] [Hwf' Ht' _] Hk Hn Hn'. rewrite !device_count_the_manager.
  rewrite <- (length_fmap fst (Memory.models (the_manager d r'))),
    <- (length_fmap fst (Memory.models (the_manager d r))).
  apply (length_remove n); [by apply accounted_the_manager..| |].
  - apply tracked_the_manager, Ht. auto.
  - intros k. change (fst <$> Memory.models (the_manager d ?x)) with (Memory.loaded_models (the_manager d x)).
    rewrite <- !tracked_the_manager, Ht, Ht'. destruct (decide (k = n)) as [->|Hne].
    + rewrite Hn'. naive_solver.
    + rewrite Hk by done. naive_solver.
Qed.

Lemma victim_tracked d r n : lru_victim P d r = Some n → tracked r d n.
Proof.
  unfold lru_victim, Memory.get_lru_model. intros H.
  apply Memory.first_not_excluded_Some in H as (l1 & l2 & Hl & _).
  apply tracked_the_manager. rewrite Hl. set_solver.
Qed.

Lemma victim_loaded d r n :
  accounted None r → lru_victim P d r = Some n →
  device_of r n = Some d ∧ dict_mem n (loaded r) = true.
Proof.
  intros [_ Ht _] H%victim_tracked. apply Ht in H as [H|]; [|done]. split; [done|].
  unfold device_of in H. apply fmap_Some in H as (lm & H & _).
  apply dict_mem_true, dict_get_is_Some. eauto.
Qed.

(** One round of an eviction loop: the victim of [d] is unloaded and the loop goes on
    with fewer models, or the unload raises. *)
Lemma eviction_round d reason r n o r' :
  consistent r → lru_victim P d r = Some n →
  (do! query P env d in do_unload P env n reason) r = (o, r') →
  consistent r' ∧ shrinks r r' ∧ o ≠ Raise OutOfFuel ∧
  (o = Ret tt → S (device_count d r') = device_count d r).
Proof.
  intros Hc Hv. destruct (victim_loaded d r n (proj1 Hc) Hv) as [Hdev _].
  unfold bind. destruct (query P env d r) as [[s|e] r1] eqn:Eq.
  - intros E. pose proof (steps_at _ _ _ _ (frames_query d) Eq) as Hf.
    destruct (shrinks_same_core _ _ Hf Hc) as (Hc1 & _ & _).
    apply do_unload_spec in E; [|done|apply Hc1..].
    assert (shrinks r r') as Hsh.
    { etrans; [by apply shrinks_same_core|]. by apply (shrinks_unloads n r1 o r'). }
    split; [by apply Hsh|]. split; [done|]. split; [apply E|]. intros ->.
    rewrite <- (sc_count _ _ (sc_core _ _ Hf)). apply (device_count_drop n); [apply Hc1|apply E|apply E| |].
    + by rewrite (sc_device _ _ (sc_core _ _ Hf)).
    + by destruct (ul_name _ _ _ _ E) as [|[? _]].
  - intros [= <- <-]. pose proof (steps_at _ _ _ _ (frames_query d) Eq) as Hf.
    pose proof (shrinks_same_core _ _ Hf) as Hsh. split; [by apply Hsh|]. split; [done|].
    split; [|done]. intros [= ->]. revert Eq. unfold query, bind, get.
    destruct (Memory.mm_tracker _); [done|]. unfold consult. destruct (reading env _ d); done.
Qed.

Lemma total_query d : total (query P env d).
Proof. unfold query. no_fuel. Qed.

Lemma bind_assoc {A B C} (m : M A) (f : A → M B) (k : B → M C) r :
  bind (bind m f) k r = bind m (λ a, bind (f a) k) r.
Proof. unfold bind. by destruct (m r) as [[a|e] r']. Qed.

(** A round followed by the rest of the loop *)
Lemma eviction_round_then d reason r n (k : M unit) o r' :
  consistent r → lru_victim P d r = Some n →
  (∀ r1 o' r'', consistent r1 → S (device_count d r1) = device_count d r →
     k r1 = (o', r'') → shrinks r1 r'' ∧ o' ≠ Raise OutOfFuel) →
  (do! query P env d in do! do_unload P env n reason in k) r = (o, r') →
  shrinks r r' ∧ o ≠ Raise OutOfFuel.
Proof.
  intros Hc Hv Hk. rewrite <- (bind_assoc (query P env d) (λ _, do_unload P env n reason) (λ _, k)).
  unfold bind at 1.
  destruct ((do! query P env d in do_unload P env n reason) r) as [[[]|e] r1] eqn:E;
    apply (eviction_round d reason r n) in E as (Hc1 & Hs & Ht & Hd); try done.
  - intros Ek. destruct (Hk r1 o r' Hc1 (Hd eq_refl) Ek) as [Hs' Ht'].
    split; [by etrans|done].
  - by intros [= <- <-].
Qed.

Lemma total_should_evict d req : total (should_evict_for_load P env d req).
Proof. unfold should_evict_for_load. repeat (apply total_bind; [apply total_query|intros ?]). no_fuel. Qed.
Lemma total_check_pressure d : total (check_pressure P env d).
Proof. unfold check_pressure. apply total_bind; [apply total_query|intros ?]. no_fuel. Qed.

Lemma evict_for_load_spec fuel d req r o r' :
  consistent r → (device_count d r < fuel)%nat → evict_for_load P env fuel d req r = (o, r') →
  shrinks r r' ∧ o ≠ Raise OutOfFuel.
Proof.
  revert r o r'. induction fuel as [|fuel IH]; intros r o r' Hc Hf; [lia|]. cbn [evict_for_load].
  unfold bind at 1. pose proof (total_should_evict d req r) as Ht.
  destruct (should_evict_for_load P env d req r) as [[b|e] r1] eqn:E1;
    pose proof (steps_at _ _ _ _ (frames_should_evict d req) E1) as Hs1; pose proof (shrinks_same_core _ _ Hs1) as Hsh.
  2:{ intros [= <- <-]. split; [done|]. cbn in Ht. congruence. }
  destruct (Hsh Hc) as (Hc1 & _ & _).
  destruct b; cbn [negb]; [|by intros [= <- <-]].
  unfold bind at 1. cbn [get]. destruct (lru_victim P d r1) as [n|] eqn:Hv; [|by intros [= <- <-]].
  destruct (victim_loaded d r1 n (proj1 Hc1) Hv) as [_ ->]. cbn [negb].
  intros E. apply eviction_round_then in E as [Hs2 Ht2]; [split; [by etrans|done]|done..|].
  intros r2 o' r'' Hc2 Hcount. apply IH; [done|].
  rewrite (sc_count _ _ (sc_core _ _ Hs1)) in Hcount. lia.
Qed.

Lemma relieve_spec fuel d r o r' :
  consistent r → (device_count d r < fuel)%nat → relieve P env fuel d r = (o, r') →
  shrinks r r' ∧ o ≠ Raise OutOfFuel.
Proof.
  revert r o r'. induction fuel as [|fuel IH]; intros r o r' Hc Hf; [lia|]. cbn [relieve].
  unfold bind at 1. pose proof (total_check_pressure d r) as Ht.
  destruct (check_pressure P env d r) as [[b|e] r1] eqn:E1;
    pose proof (steps_at _ _ _ _ (frames_check_pressure d) E1) as Hs1; pose proof (shrinks_same_core _ _ Hs1) as Hsh.
  2:{ intros [= <- <-]. split; [done|]. cbn in Ht. congruence. }
  destruct (Hsh Hc) as (Hc1 & _ & _).
  destruct b; cbn [negb]; [|by intros [= <- <-]].
  unfold bind at 1. cbn [get]. destruct (_ <=? 1)%nat; [by intros [= <- <-]|].
  destruct (lru_victim P d r1) as [n|] eqn:Hv; [|by intros [= <- <-]].
  destruct (victim_loaded d r1 n (proj1 Hc1) Hv) as [_ ->]. cbn [negb].
  intros E. apply eviction_round_then in E as [Hs2 Ht2]; [split; [by etrans|done]|done..|].
  intros r2 o' r'' Hc2 Hcount. apply IH; [done|].
  rewrite (sc_count _ _ (sc_core _ _ Hs1)) in Hcount. lia.
Qed.

Lemma device_fuel_enough d r : (device_count d r < device_fuel P d r)%nat.
Proof. unfold device_fuel. rewrite device_count_the_manager. lia. Qed.

Lemma relieve_all_spec devs r o r' :
  consistent r → relieve_all P env devs r = (o, r') → shrinks r r' ∧ o ≠ Raise OutOfFuel.
Proof.
  revert r o r'. induction devs as [|d devs IH]; intros r o r' Hc; cbn [relieve_all].
  - by intros [= <- <-].
  - unfold bind at 1. cbn [get]. unfold bind at 1.
    destruct (relieve P env (device_fuel P d r) d r) as [o1 r1] eqn:E1.
    apply relieve_spec in E1 as [Hs Ht]; [|done|apply device_fuel_enough].
    destruct (Hs Hc) as (Hc1 & _). destruct o1 as [u|e]; [|by intros [= <- <-]].
    intros E. apply IH in E as [Hs' Ht']; [|done]. split; [by etrans|done].
Qed.

Lemma steps_do_unload_all names reason : steps shrinks (do_unload_all P env names reason).
Proof.
  induction names as [|n names IH]; cbn [do_unload_all]; [apply steps_ret|].
  apply steps_bind; [apply steps_do_unload|done].
Qed.

Lemma steps_best_effort m : steps shrinks m → steps shrinks (best_effort m).
Proof. intros Hm. unfold best_effort. apply steps_catch; [done|]. intros e. destruct (is_exception e); [apply steps_ret|apply steps_throw]. Qed.

Lemma steps_idle_evict threshold stale : steps shrinks (idle_evict P env threshold stale).
Proof.
  induction stale as [|n stale IH]; cbn [idle_evict]; [apply steps_ret|].
  apply steps_bind; [apply steps_get|intros r]. destruct (negb _); [done|].
  destruct (dict_get n _) as [info|]; [|done].
  apply steps_bind; [apply steps_shrinks_frames, frames_now|intros t].
  destruct (flt _ _); [done|]. apply steps_best_effort, steps_do_unload.
Qed.

Lemma steps_evict_lru_excluding x acq : steps shrinks (evict_lru_excluding P env x acq).
Proof.
  unfold evict_lru_excluding. destruct acq; cbn [negb]; [|apply steps_ret].
  apply steps_bind; [apply steps_get|intros r].
  apply steps_bind; [apply steps_shrinks_frames, frames_ensure|intros []].
  destruct (Oom.select_eviction_candidate _ _ _ _ _) as [c|]; [|apply steps_ret].
  apply steps_catch; [apply steps_bind; [apply steps_do_unload|intros; apply steps_ret]|].
  intros e. destruct (is_exception e); [apply steps_ret|apply steps_throw].
Qed.

(** ** Loading *)

Lemma accounted_register n lm b t1 t2 r r0 :
  accounted None r → device_of r n = None →
  loaded r0 = dict_set n lm (loaded r) → memory_managers r0 = memory_managers r →
  accounted None (update_manager (lm_device lm) (λ m, Memory.register_model m n b t1 t2) r0).
Proof.
  intros [[Hl Hm Hmm] Ht _] Hn El0 Em0. set (d := lm_device lm). set (f := λ m, Memory.register_model m n b t1 t2).
  assert (wf r0) as Hwf0.
  { constructor; rewrite ?El0, ?Em0; auto with sie. }
  destruct (update_manager_fields d f r0) as [El _].
  assert (∀ k, device_of (update_manager d f r0) k = if decide (n = k) then Some d else device_of r k) as Hdev.
  { intros k. unfold device_of. rewrite El, El0, dict_get_set. by case_decide. }
  constructor; [|intros d' k; rewrite tracked_update, Hdev|done].
  - apply wf_update; [|done]. intros m Hw. unfold f, Memory.register_model. cbn. auto with sie.
  - assert (tracked r0 d' k ↔ tracked r d' k) as Htr by (unfold tracked; by rewrite Em0).
    destruct (decide (d' = d)) as [->|Hd]; [|rewrite Htr, Ht; case_decide; naive_solver].
    assert (k ∈ Memory.loaded_models (f (the_manager d r0)) ↔ k = n ∨ tracked r d k) as ->.
    { rewrite <- Htr, tracked_the_manager. unfold f, Memory.register_model, Memory.loaded_models.
      cbn [Memory.models Memory.with_models].
      rewrite dict_keys_set_move by by apply accounted_the_manager.
      rewrite elem_of_app, list_elem_of_filter, list_elem_of_singleton.
      destruct (decide (k = n)); naive_solver. }
    rewrite Ht. case_decide; naive_solver.
Qed.

Lemma steps_load_with_retry n d a c : steps shrinks (load_with_retry P env n d a c).
Proof.
  unfold load_with_retry. apply steps_catch; [apply steps_shrinks_frames; frame|]. intros e.
  destruct (negb _); [apply steps_throw|]. destruct (negb _); [apply steps_throw|].
  apply steps_bind; [apply steps_get|intros r]. destruct (lru_victim P d r); [|apply steps_throw].
  apply steps_bind; [apply steps_do_unload|intros _]. apply steps_shrinks_frames. frame.
Qed.

Lemma total_load_with_retry n d a c : total (load_with_retry P env n d a c).
Proof.
  unfold load_with_retry, load_and_register, instantiate_adapter.
  repeat first [apply total_do_unload|progress no_fuel].
Qed.

Lemma load_with_retry_device n d a c r lm r' :
  load_with_retry P env n d a c r = (Ret lm, r') → lm_device lm = d.
Proof.
  assert (∀ a r lm r', load_and_register P env n d a c r = (Ret lm, r') → lm_device lm = d) as Hl.
  { intros a0 r0 lm0 r0'. unfold load_and_register, bind, await, consult.
    destruct (load_result _ _ _ _) as [x|e]; cbn; [by intros [= <- <-]|done]. }
  unfold load_with_retry, catch. destruct (load_and_register P env n d a c r) as [[lm1|[e|]] r1] eqn:E.
  - intros [= <- <-]. by eapply Hl.
  - destruct (negb _); [done|]. destruct (negb _); [done|]. unfold bind, get.
    destruct (lru_victim P d r1) as [v|]; [|done].
    destruct (do_unload P env v _ r1) as [[[]|]?]; [|done].
    destruct (instantiate_adapter P env n _) as [[a'|]?]; [|done]. apply Hl.
  - done.
Qed.

(** The state after a load of [name] under the lock. *)
Record loads (name : string) (r : Reg) (o : res err nat) (r' : Reg) : Prop := {
  ld_consistent : consistent r';
  ld_owned : ∀ held, loading_owned held r → loading_owned held r';
  ld_total : o ≠ Raise OutOfFuel;
  ld_others : ∀ k, k ≠ name → device_of r' k = device_of r k ∨ device_of r' k = None;
  ld_name : match o with
            | Ret a => ∃ lm, dict_get name (loaded r') = Some lm ∧ lm_adapter lm = a
            | Raise _ => device_of r' name = None
            end;
}.

Lemma loads_raise n r r' e :
  consistent r → device_of r n = None → shrinks r r' → e ≠ OutOfFuel → loads n r (Raise e) r'.
Proof.
  intros Hc Hn Hs He. destruct (Hs Hc) as (Hc' & Ho & Hd). constructor; [done|done|congruence|auto|].
  destruct (Hd n) as [->|]; auto.
Qed.

(** Once the weights are on the device: the bookkeeping of a successful load. *)
Lemma loads_register n lm r o r' :
  consistent r → device_of r n = None →
  (do! modify (with_loaded (dict_set n lm)) in
   do! register P env n lm in
   do! record_event (ModelLoadCompleted n "success" "total") in
   ret (lm_adapter lm)) r = (o, r') → loads n r o r'.
Proof.
  intros [Hacc Hu] Hn. unfold register, record_event, bind, modify, now, consult. cbn [tick].
  intros [= <- <-].
  match goal with |- context [update_manager ?d ?f ?x] =>
    pose proof (update_manager_fields d f x) as (El & Eu & Elo & Et & _);
    pose proof (accounted_register n lm (Some (lm_memory_bytes lm)) (clock env (tick r))
      (clock env (S (tick r))) r x Hacc Hn eq_refl eq_refl) as Hacc';
    set (r1 := update_manager d f x) in *
  end.
  constructor.
  - split; [by eapply accounted_eq; [..|exact Hacc']|]. change (unloading r1 = ∅). by rewrite Eu.
  - intros held Hh. by apply (loading_owned_eq held r).
  - done.
  - intros k Hk. left. change (device_of r1 k = device_of r k). unfold device_of. rewrite El.
    cbn [loaded with_tick with_loaded]. rewrite dict_get_set. by rewrite decide_False.
  - exists lm. change (dict_get n (loaded r1) = Some lm ∧ lm_adapter lm = lm_adapter lm). rewrite El.
    cbn [loaded with_tick with_loaded]. rewrite dict_get_set. by rewrite decide_True.
Qed.

Lemma loads_after n r r1 o r' :
  consistent r → shrinks r r1 → loads n r1 o r' → loads n r o r'.
Proof.
  intros Hc Hs Hl. destruct (Hs Hc) as (Hc1 & Ho1 & Hd1). destruct Hl as [H1 H2 H3 H4 H5].
  constructor; [done|auto|done| |done]. intros k Hk. destruct (H4 k Hk) as [->|]; auto.
Qed.

(** Peel the first operation off a computation whose raised errors end the load. *)
Lemma loads_bind {A} (m : M A) (k : A → M nat) n r o r' :
  consistent r → device_of r n = None → steps shrinks m → total m →
  (∀ a r1, m r = (Ret a, r1) → consistent r1 → device_of r1 n = None → k a r1 = (o, r') → loads n r1 o r') →
  bind m k r = (o, r') → loads n r o r'.
Proof.
  intros Hc Hn Hs Ht Hk. unfold bind. specialize (Hs r). specialize (Ht r).
  destruct (m r) as [[a|e] r1] eqn:E; cbn in *.
  - intros Ek. apply (loads_after _ _ r1); [done..|]. destruct (Hs Hc) as (Hc1 & _ & Hd).
    eapply Hk; eauto. destruct (Hd n) as [->|]; auto.
  - intros [= <- <-]. apply loads_raise; [done..|congruence].
Qed.

Lemma load_body_spec n d c r o r' :
  consistent r → device_of r n = None → load_body P env n d c r = (o, r') → loads n r o r'.
Proof.
  intros Hc Hn E. unfold load_body in E. revert E. apply loads_bind; [done|done|apply steps_shrinks_frames; frame|no_fuel|].
  intros [] r1 _ Hc1 Hn1. apply loads_bind; [done|done|apply steps_shrinks_frames; frame|unfold instantiate_adapter; no_fuel|].
  intros a r2 _ Hc2 Hn2. apply loads_bind; [done|done|apply steps_shrinks_frames; frame| |].
  { unfold adapter_load_required_bytes. apply total_bind; [apply total_query|intros ?]. no_fuel. }
  intros req r3 _ Hc3 Hn3. unfold bind at 1. cbn [get]. unfold bind at 1.
  destruct (evict_for_load P env (device_fuel P d r3) d req r3) as [oe r4] eqn:Ee.
  apply evict_for_load_spec in Ee as [Hs4 Ht4]; [|done|apply device_fuel_enough].
  destruct oe as [u|e]; [|intros [= <- <-]; apply loads_raise; [done..|congruence]].
  intros E. apply (loads_after _ _ r4); [done..|]. destruct (Hs4 Hc3) as (Hc4 & _ & Hd4).
  assert (device_of r4 n = None) as Hn4 by (destruct (Hd4 n) as [->|]; auto). revert E.
  apply loads_bind; [done|done|apply steps_load_with_retry|apply total_load_with_retry|].
  intros lm r5 _ Hc5 Hn5. by apply loads_register.
Qed.

Lemma loads_catch_report n r o r' c d :
  consistent r → device_of r n = None →
  catch (load_body P env n d c) (report_failure n) r = (o, r') → loads n r o r'.
Proof.
  intros Hc Hn. unfold catch. destruct (load_body P env n d c r) as [o1 r1] eqn:E.
  apply load_body_spec in E; [|done..]. destruct o1 as [a|[e|]].
  - by intros [= <- <-].
  - cbn. intros [= <- <-]. destruct E as [H1 H2 H3 H4 H5]. constructor; try done.
    destruct H1. split; [by eapply accounted_eq; [..|eassumption]|done].
  - by destruct (ld_total _ _ _ _ E).
Qed.

Lemma device_of_touch n r k : device_of (touch_lru P env n r).2 k = device_of r k.
Proof. apply (frames_touch_lru n r). Qed.

Lemma keeps_loaded_touch n : keeps loaded (touch_lru P env n).
Proof.
  unfold touch_lru. apply steps_bind; [intros r; done|intros t]. apply steps_modify. intros r.
  destruct (dict_mem n (loaded r)); [|done]. apply update_manager_fields.
Qed.

Lemma total_scores l : total (scores P env l).
Proof.
  induction l as [|x l IH]; cbn [scores]; unfold score;
    repeat first [assumption|apply total_check_pressure|progress no_fuel].
Qed.

Lemma total_resolve_load_device d : total (resolve_load_device P env d).
Proof.
  unfold resolve_load_device, select_device_for_model. destruct (devices P) as [|? []]; no_fuel.
  all: apply total_scores.
Qed.

Lemma load_locked_spec n req r o r' :
  consistent r → load_locked P env n req r = (o, r') → loads n r o r'.
Proof.
  intros Hc. unfold load_locked. unfold bind at 1. cbn [get].
  destruct (dict_get n (loaded r)) as [lm|] eqn:Hn.
  - unfold bind. pose proof (frames_touch_lru n r) as Hf. pose proof (keeps_loaded_touch n r) as Hk.
    assert (∃ r1, touch_lru P env n r = (Ret tt, r1)) as [r1 E] by (eexists; reflexivity).
    rewrite E in *. cbn [snd] in Hf, Hk.
    intros [= <- <-]. destruct (shrinks_same_core _ _ Hf Hc) as (Hc1 & Ho1 & Hd1).
    constructor; [done|done|done|intros; left; apply Hf|]. exists lm. by rewrite Hk.
  - assert (device_of r n = None) as Hdn by (unfold device_of; by rewrite Hn).
    apply loads_bind; [done|done|apply steps_shrinks_frames, frames_resolve_load_device|apply total_resolve_load_device|].
    intros d r1 _ Hc1 Hn1. apply loads_bind; [done|done|apply steps_shrinks_frames, frames_ensure|intros ?; done|].
    intros [] r2 _ Hc2 Hn2. unfold bind at 1. cbn [get].
    destruct (bool_decide _); [intros [= <- <-]; by apply loads_raise|].
    destruct (dict_get n (configs r2)) as [c|]; [|intros [= <- <-]; by apply loads_raise].
    unfold bind, modify, finally. set (r3 := with_loading _ r2).
    destruct (catch (load_body P env n d c) (report_failure n) r3) as [o4 r4] eqn:E.
    assert (consistent r3) as Hc3 by (destruct Hc2; split; [by eapply accounted_eq; [..|eassumption]|done]).
    apply loads_catch_report in E as [[Hc4 Hu4] Ho4 Ht4 Hd4 Hn4]; [|done|done].
    intros [= <- <-]. constructor; [| |done|done|exact Hn4].
    + split; [by eapply accounted_eq; [..|exact Hc4]|done].
    + intros held Hh. apply loading_owned_less, Ho4. intros k. unfold r3. cbn.
      rewrite !elem_of_union. intros [|Hk]; [auto|]. destruct (Hh k Hk); auto.
Qed.

(** ** The system *)

Lemma finish_background_steps n o : steps shrinks (finish_background P env n o).
Proof.
  intros r. apply shrinks_same_core. destruct (finish_background_core n o r) as [Hw Ho].
  constructor; [done|]. intros held Hh. apply Ho. intros k Hk. destruct (Hh k Hk); set_solver.
Qed.

(** ** The synchronous operations

    [load], [unload] and [unload_all] have no await, and nothing protects the accounting
    from a teardown that raises.  [calm r r']: between the two states no adapter and no
    loader raised in a teardown; [calmly R] relates states by [R] as long as that holds. *)

Definition calm (r r' : Reg) : Prop :=
  ∀ t n, (tick r <= t < tick r')%nat → adapter_unload env t n = UnloadOk ∧ loader_unregister env t n = Ret tt.

Definition ticks (r r' : Reg) : Prop := (tick r <= tick r')%nat.

Definition calmly (R : relation Reg) (r r' : Reg) : Prop := ticks r r' ∧ (calm r r' → R r r').

#[global] Instance ticks_preorder : PreOrder ticks.
Proof. split; [by intros r; unfold ticks|]. intros r1 r2 r3. unfold ticks. lia. Qed.

#[global] Instance calmly_preorder (R : relation Reg) `{!PreOrder R} : PreOrder (calmly R).
Proof.
  split.
  - intros r. split; [done|]. intros _. reflexivity.
  - intros r1 r2 r3 [H1 K1] [H2 K2]. split; [by etrans|]. unfold ticks in *. intros Hc. etrans; [apply K1|apply K2].
    all: intros t n Ht; apply Hc; lia.
Qed.

Lemma steps_calmly (R : relation Reg) {A} (m : M A) : steps R m → steps ticks m → steps (calmly R) m.
Proof. intros HR Ht r. split; [apply Ht|intros _; apply HR]. Qed.

Lemma tick_update d f r : tick (update_manager d f r) = tick r.
Proof. unfold Registry.update_manager, Registry.ensure_manager. by destruct (dict_mem d _). Qed.

Lemma tick_ensure d r : tick (ensure_manager d r) = tick r.
Proof. unfold Registry.ensure_manager. by destruct (dict_mem d _). Qed.

#[local] Hint Extern 1 (steps ticks (consult _)) => (intros ?; unfold ticks; cbn; lia) : steps.
#[local] Hint Extern 1 (steps ticks (now _)) => (intros ?; unfold ticks; cbn; lia) : steps.
Ltac tick_walk := walk ltac:(unfold ticks; rewrite ?tick_update, ?tick_ensure; done).

Lemma ticks_query d : steps ticks (query P env d).
Proof. unfold query. tick_walk. Qed.
#[local] Hint Resolve ticks_query : steps.

Lemma ticks_check_pressure d : steps ticks (check_pressure P env d).
Proof. unfold check_pressure. tick_walk. Qed.
#[local] Hint Resolve ticks_check_pressure : steps.

Lemma ticks_scores l : steps ticks (scores P env l).
Proof. induction l; cbn [scores]; unfold score; tick_walk. Qed.
#[local] Hint Resolve ticks_scores : steps.

Lemma ticks_unload n reason : steps ticks (unload P env n reason).
Proof. unfold unload, record_event. tick_walk. Qed.
#[local] Hint Resolve ticks_unload : steps.

(** A synchronous unload whose teardown does not raise leaves nothing behind. *)
Lemma steps_unload n reason : steps (calmly shrinks) (unload P env n reason).
Proof.
  intros r. split; [apply ticks_unload|]. unfold unload, bind, get.
  destruct (negb _); [done|]. destruct (dict_get n (loaded r)) as [lm|] eqn:Hn; [|done].
  unfold record_event, modify, consult. cbn [tick with_tick with_loaded with_telemetry].
  intros Hcalm [Hacc Hu]. destruct (Hcalm (tick r) n) as [Ha _].
  { split; [done|]. destruct (adapter_unload env (tick r) n); [|simpl; lia..]. simpl.
    destruct (loader_unregister env _ n); simpl; rewrite ?tick_ensure; simpl; lia. }
  rewrite Ha in *. simpl in Hcalm |- *. destruct (Hcalm (S (tick r)) n) as [_ Hl].
  { split; [lia|]. destruct (loader_unregister env _ n); simpl; rewrite ?tick_ensure; simpl; lia. }
  rewrite Hl. simpl. match goal with |- context [update_manager ?d ?f ?x] => set (r1 := x); set (re := update_manager d f r1) end.
  destruct (update_manager_fields (lm_device lm) (λ m, Memory.unregister_model m n) r1) as (El & Eu & Elo & Et & _).
  fold re in El, Eu, Elo, Et.
  assert (accounted None re) as He.
  { apply accounted_unregister. eapply accounted_eq; [| |exact (accounted_del n lm r Hacc Hn)]; done. }
  split; [split; [done|by rewrite Eu]|]. split; [intros held; by apply loading_owned_eq|].
  intros k. unfold device_of. rewrite El. cbn. rewrite dict_get_del by apply Hacc. case_decide; auto.
Qed.

Lemma steps_unload_each names : steps (calmly shrinks) (unload_each P env names).
Proof.
  induction names as [|n names IH]; cbn [unload_each]; [apply steps_ret|].
  apply steps_bind; [apply steps_unload|done].
Qed.

Lemma steps_evict_for_load_sync fuel d req : steps (calmly shrinks) (evict_for_load_sync P env fuel d req).
Proof.
  induction fuel as [|fuel IH]; cbn [evict_for_load_sync]; [apply steps_out_of_fuel|].
  apply steps_bind; [apply steps_calmly; [apply steps_shrinks_frames; frame|unfold should_evict_for_load; tick_walk]|intros b].
  destruct (negb b); [apply steps_ret|]. apply steps_bind; [apply steps_get|intros r].
  destruct (lru_victim P d r) as [v|]; [|apply steps_ret].
  apply steps_bind; [apply steps_calmly; [apply steps_shrinks_frames; frame|tick_walk]|intros _].
  apply steps_bind; [apply steps_unload|done].
Qed.

(** A load of [n] until it is registered: [n] is not loaded. *)
Definition loading_of (R : relation Reg) (n : string) {A} (m : M A) : Prop :=
  ∀ r, consistent r → device_of r n = None → calmly R r (m r).2.

Lemma loading_of_steps (R : relation Reg) n {A} (m : M A) : steps (calmly R) m → loading_of R n m.
Proof. intros Hm r _ _. apply Hm. Qed.

Lemma loading_of_bind (R : relation Reg) `{!PreOrder R} n {A B} (m : M A) (k : A → M B) :
  steps (calmly R) m → steps (calmly shrinks) m → (∀ a, loading_of R n (k a)) → (∀ a, steps ticks (k a)) →
  loading_of R n (bind m k).
Proof.
  intros Hm Hs Hk Ht r Hc Hn. unfold bind. specialize (Hm r). specialize (Hs r).
  destruct (m r) as [[a|e] r1]; cbn in *; [|done]. destruct Hm as [Hm1 Hm2], Hs as [_ Hs]. specialize (Ht a r1).
  split; [by etrans|]. intros Hcalm. unfold ticks in *.
  assert (calm r r1) as Hc1 by (intros t x Hx; apply Hcalm; lia). destruct (Hs Hc1 Hc) as (Hc' & _ & Hd).
  etrans; [by apply Hm2|]. apply Hk; [done|destruct (Hd n) as [->|]; auto|]. intros t x Hx. apply Hcalm. lia.
Qed.

Lemma loading_of_catch (R : relation Reg) `{!PreOrder R} n {A} (m : M A) h :
  loading_of R n m → (∀ e, steps (calmly R) (h e)) → loading_of R n (catch m h).
Proof.
  intros Hm Hh r Hc Hn. unfold catch. specialize (Hm r Hc Hn). destruct (m r) as [[a|[e|]] r1]; [done| |done].
  etrans; [exact Hm|apply Hh].
Qed.

(** An operation keeps the registry consistent and every loading mark owned. *)
Definition sound (r r' : Reg) : Prop :=
  consistent r → loading_owned ∅ r → consistent r' ∧ loading_owned ∅ r'.

#[global] Instance sound_preorder : PreOrder sound.
Proof. split; [by intros r|]. intros r1 r2 r3 H1 H2 Hc Ho. destruct (H1 Hc Ho). auto. Qed.

Lemma sound_shrinks r r' : shrinks r r' → sound r r'.
Proof. intros Hs Hc Ho. destruct (Hs Hc) as (? & Ho' & _). auto. Qed.

Lemma steps_sound {A} (m : M A) : steps shrinks m → steps sound m.
Proof. intros Hm r. apply sound_shrinks, Hm. Qed.

(** What leaves the pins alone *)
#[local] Hint Extern 1 (keeps pinned_models (consult _)) => by intros ? : steps.
#[local] Hint Extern 1 (keeps pinned_models (now _)) => by intros ? : steps.
Ltac pin_walk := walk ltac:(done).

Lemma pins_ensure d : keeps pinned_models (modify (ensure_manager d)).
Proof. apply steps_modify. intros r. destruct (ensure_manager_update d r) as [->|[_ ->]]; done. Qed.
#[local] Hint Resolve pins_ensure : steps.

Lemma pins_query d : keeps pinned_models (query P env d).
Proof. unfold query. pin_walk. Qed.
#[local] Hint Resolve pins_query : steps.
Lemma pins_check_pressure d : keeps pinned_models (check_pressure P env d).
Proof. unfold check_pressure. pin_walk. Qed.
#[local] Hint Resolve pins_check_pressure : steps.
Lemma pins_scores l : keeps pinned_models (scores P env l).
Proof. induction l; cbn [scores]; unfold score; pin_walk. Qed.
#[local] Hint Resolve pins_scores : steps.
Lemma pins_resolve d : keeps pinned_models (resolve_load_device P env d).
Proof. unfold resolve_load_device, select_device_for_model. pin_walk. Qed.
Lemma pins_check_loadable n : keeps pinned_models (check_model_loadable P env n).
Proof. unfold check_model_loadable, rescan_configs, load_configs_from_dir. pin_walk. Qed.
#[local] Hint Resolve pins_resolve pins_check_loadable : steps.

Lemma ticks_resolve d : steps ticks (resolve_load_device P env d).
Proof. unfold resolve_load_device, select_device_for_model. tick_walk. Qed.
Lemma ticks_check_loadable n : steps ticks (check_model_loadable P env n).
Proof. unfold check_model_loadable, rescan_configs, load_configs_from_dir. tick_walk. Qed.
#[local] Hint Resolve ticks_resolve ticks_check_loadable : steps.

(** The parts of a load that move no model, for any relation they keep *)
Section load_sync.
Context (R : relation Reg) `{!PreOrder R} (n : string).
Context (leaf : ∀ A (m : M A), frames m → steps ticks m → keeps pinned_models m → steps (calmly R) m).
Context (evicts : ∀ d r v reason, lru_victim P d r = Some v → calmly R r (unload P env v reason r).2).

Ltac part := apply leaf; [frame|tick_walk|walk ltac:(done)].
Ltac shrinking := apply steps_calmly; [apply steps_shrinks_frames; frame|tick_walk].

Lemma calmly_get {A} (k : Reg → M A) : (∀ r, calmly R r (k r r).2) → steps (calmly R) (bind get k).
Proof. intros Hk r. apply Hk. Qed.

Lemma calmly_victim {A} d r v reason (k : M A) :
  lru_victim P d r = Some v → steps (calmly R) k → calmly R r ((do! unload P env v reason in k) r).2.
Proof.
  intros Hv Hk. unfold bind. pose proof (evicts d r v reason Hv) as He.
  destruct (unload P env v reason r) as [[u|e] r1]; cbn in *; [|done]. etrans; [exact He|apply Hk].
Qed.

Lemma query_victim d d' r : lru_victim P d (query P env d' r).2 = lru_victim P d r.
Proof.
  unfold query, bind, get. destruct (Memory.mm_tracker _); [done|]. unfold consult.
  by destruct (reading env (tick r) d').
Qed.

Lemma calmly_evict_for_load fuel d req : steps (calmly R) (evict_for_load_sync P env fuel d req).
Proof.
  induction fuel as [|fuel IH]; cbn [evict_for_load_sync]; [apply steps_out_of_fuel|].
  apply steps_bind; [unfold should_evict_for_load; part|intros b].
  destruct (negb b); [apply steps_ret|]. apply calmly_get. intros r.
  destruct (lru_victim P d r) as [v|] eqn:Hv; [|reflexivity].
  assert (steps (calmly R) (query P env d)) as Hq by part. specialize (Hq r). unfold bind at 1.
  pose proof (query_victim d d r) as Hv'. destruct (query P env d r) as [[s|e] r1]; cbn in Hq, Hv'; [|done].
  etrans; [exact Hq|]. apply calmly_victim with d; [congruence|done].
Qed.

Lemma ticks_evict_for_load fuel d req : steps ticks (evict_for_load_sync P env fuel d req).
Proof. induction fuel; cbn [evict_for_load_sync]; unfold should_evict_for_load; tick_walk. Qed.

(** The attempt to load, with its eviction after an out-of-memory error *)
Abbreviation attempt d adapter config := (catch (load_and_register_sync env n d adapter config) (λ e,
    if negb (isinstance e RuntimeError) then throw e
    else if negb (Oom.is_oom_error (as_oom e)) then throw e
    else
      let! r := get in
      match lru_victim P d r with
      | None => throw e
      | Some lru =>
          do! unload P env lru "load_oom" in
          let! adapter' := instantiate_adapter_sync env n in
          load_and_register_sync env n d adapter' config
      end)).

Lemma calmly_attempt d a c : steps (calmly R) (attempt d a c).
Proof.
  apply steps_catch; [unfold load_and_register_sync; part|]. intros e.
  destruct (negb _); [apply steps_throw|]. destruct (negb _); [apply steps_throw|].
  apply calmly_get. intros r. destruct (lru_victim P d r) as [v|] eqn:Hv; [|reflexivity].
  apply calmly_victim with d; [done|]. unfold instantiate_adapter_sync, load_and_register_sync. part.
Qed.

Lemma shrinks_attempt d a c : steps (calmly shrinks) (attempt d a c).
Proof.
  apply steps_catch; [unfold load_and_register_sync; shrinking|]. intros e.
  destruct (negb _); [apply steps_throw|]. destruct (negb _); [apply steps_throw|].
  apply steps_bind; [apply steps_get|intros r]. destruct (lru_victim P d r) as [v|]; [|apply steps_throw].
  apply steps_bind; [apply steps_unload|intros _]. unfold instantiate_adapter_sync, load_and_register_sync. shrinking.
Qed.

Lemma ticks_attempt d a c : steps ticks (attempt d a c).
Proof. unfold instantiate_adapter_sync, load_and_register_sync. tick_walk. Qed.

(** The bookkeeping of a successful load *)
Abbreviation book lm := (do! modify (with_loaded (dict_set n lm)) in
  do! register P env n lm in
  do! modify (with_failed (dict_del n)) in
  do! record_event (ModelLoadCompleted n "success" "total") in
  ret (lm_adapter lm)).

Lemma ticks_book lm : steps ticks (book lm).
Proof. unfold register, record_event. tick_walk. Qed.

Lemma loading_of_load_body d c :
  (∀ lm, loading_of R n (book lm)) → loading_of R n (load_body_sync P env n d c).
Proof.
  intros Hbook. unfold load_body_sync.
  pose proof ticks_evict_for_load as Te. pose proof ticks_attempt as Ta. pose proof ticks_book as Tb.
  apply loading_of_bind; [done|part|shrinking| |]; [intros _|intros _; unfold instantiate_adapter_sync, adapter_load_required_bytes; tick_walk].
  apply loading_of_bind; [done|unfold instantiate_adapter_sync; part|unfold instantiate_adapter_sync; shrinking| |];
    [intros a|intros a; unfold adapter_load_required_bytes; tick_walk].
  apply loading_of_bind; [done|unfold adapter_load_required_bytes; part|unfold adapter_load_required_bytes; shrinking| |];
    [intros req|intros req; tick_walk].
  apply loading_of_bind; [done|apply steps_get..| |]; [intros r0|intros r0; tick_walk].
  apply loading_of_bind; [done|apply calmly_evict_for_load|apply steps_evict_for_load_sync| |];
    [intros _|intros _; tick_walk].
  apply loading_of_bind; [done|apply calmly_attempt|apply shrinks_attempt| |]; [intros lm; apply Hbook|apply ticks_book].
Qed.

Lemma ticks_load_body d c : steps ticks (load_body_sync P env n d c).
Proof.
  pose proof ticks_evict_for_load. pose proof ticks_attempt. pose proof ticks_book.
  unfold load_body_sync, instantiate_adapter_sync, adapter_load_required_bytes. tick_walk.
Qed.

Lemma calmly_load d :
  (∀ r r', (consistent r → R r r') → R r r') → (∀ lm, loading_of R n (book lm)) → steps (calmly R) (load P env n d).
Proof.
  intros Hcons Hbook. unfold load.
  apply steps_bind; [part|intros _]. apply calmly_get. intros r.
  destruct (dict_get n (configs r)) as [c|]; [|reflexivity].
  destruct (dict_mem n (loaded r)) eqn:El; [reflexivity|].
  assert (device_of r n = None) as Hn.
  { apply dict_mem_false, dict_get_None in El. unfold device_of. by rewrite El. }
  match goal with |- calmly R r (?m r).2 => assert (loading_of R n m ∧ steps ticks m) as [Hl Ht] end.
  2:{ split; [apply Ht|]. intros Hcalm. apply Hcons. intros Hc. by apply (Hl r Hc Hn). }
  pose proof ticks_load_body as Tl. unfold report_failure, record_event.
  split; [|tick_walk].
  apply loading_of_bind; [done|part|shrinking| |]; [intros dev|intros dev; tick_walk].
  apply loading_of_bind; [done|part|shrinking| |]; [intros _|intros _; tick_walk].
  apply loading_of_catch; [done|by apply loading_of_load_body|]. intros e. part.
Qed.
End load_sync.

(** A registry that was loaded and booked *)
Lemma loads_book n lm r o r' :
  consistent r → device_of r n = None →
  (do! modify (with_loaded (dict_set n lm)) in
   do! register P env n lm in
   do! modify (with_failed (dict_del n)) in
   do! record_event (ModelLoadCompleted n "success" "total") in
   ret (lm_adapter lm)) r = (o, r') → loads n r o r'.
Proof.
  intros Hc Hn E.
  destruct ((do! modify (with_loaded (dict_set n lm)) in do! register P env n lm in
    do! record_event (ModelLoadCompleted n "success" "total") in ret (lm_adapter lm)) r) as [o1 r1] eqn:E1.
  pose proof (loads_register n lm r o1 r1 Hc Hn E1) as [[Ha Hu] H2 H3 H4 H5].
  revert E E1. unfold register, record_event, bind, modify, now, consult. cbn [tick]. intros [= <- <-] [= <- <-].
  constructor; [split; [by eapply accounted_eq; [..|exact Ha]|exact Hu]|exact H2|done|exact H4|exact H5].
Qed.


(** What may happen between two acquisitions of the load lock, or while it is held. *)
Inductive op :=
| OAside (a : aside)
| ORunTask (i : nat)
| OLoad (name dev : string)
| OUnload (name : string)
| OUnloadAll
| OEvictLru (caller : string) (acquired : bool)
| OIdleEvict (threshold : float) (stale : list string)
| OMonitor (devs : list string)
| OStartWorker (name : string)
| OInvalidate (invalidated removed : gset string)
| ORemove (ids : list string)
| OReplace (new_configs : list (string * ModelConfig)) (model_dir : option string)
| OLoadSync (name dev : string)
| OUnloadSync (name reason : string)
| OUnloadAllSync.

Definition run_op (o : op) (r : Reg) : Reg :=
  match o with
  | OAside a => run_aside P env a r
  | ORunTask i => (run_task P env i r).2
  | OLoad n d => (load_locked P env n d r).2
  | OUnload n => (unload_locked P env n r).2
  | OUnloadAll => (unload_all_async P env r).2
  | OEvictLru x acq => (evict_lru_excluding P env x acq r).2
  | OIdleEvict th stale => (idle_evict P env th stale r).2
  | OMonitor devs => (monitor_locked P env devs r).2
  | OStartWorker n => (start_worker P env n r).2
  | OInvalidate inv rem => (invalidate_configs P env inv rem r).2
  | ORemove ids => (remove_entries P env ids r).2
  | OReplace cs dir => (replace_locked P env cs dir r).2
  | OLoadSync n d => (load P env n d r).2
  | OUnloadSync n reason => (unload P env n reason r).2
  | OUnloadAllSync => (unload_all P env r).2
  end.

Definition sync_op (o : op) : bool :=
  match o with OLoadSync _ _ | OUnloadSync _ _ | OUnloadAllSync => true | _ => false end.

(** The teardowns of a synchronous operation do not raise. *)
Definition op_calm (o : op) (r : Reg) : Prop := sync_op o = true → calm r (run_op o r).

(** [ModelRegistry.__init__], the configurations aside *)
Definition init_reg (cs : list (string * ModelConfig)) (flt : option (gset string))
    (pinned : list string) : Reg :=
  mkReg cs flt [] 0 (normalize_pinned pinned) []
    ((λ d, (d, new_manager P d)) <$> devices P)
    (imap (λ i d, (d, Z.of_nat i)) (devices P)) ∅ ∅ [] [] [] 0.

Inductive reg_reachable : Reg → Prop :=
| reach_init cs flt pinned : reg_reachable (init_reg cs flt pinned)
| reach_step r o : reg_reachable r → op_calm o r → reg_reachable (run_op o r).

Lemma dict_get_fmap_new (f : string → Memory.MemoryManager) l d m :
  dict_get d ((λ d, (d, f d)) <$> l) = Some m → m = f d.
Proof.
  induction l as [|x l IH]; [done|]. cbn. case_decide; [intros [= <-]; by subst|done].
Qed.

Lemma init_consistent cs flt pinned : NoDup (devices P) → consistent (init_reg cs flt pinned).
Proof.
  intros Hnd. split; [|done]. constructor; [constructor; cbn| |done].
  - apply NoDup_nil_2.
  - unfold dict_wf, dict_keys. rewrite <- list_fmap_compose. cbn. by rewrite list_fmap_id.
  - intros d m ->%dict_get_fmap_new. apply NoDup_nil_2.
  - intros d n. split; [|by intros []]. intros (m & ->%dict_get_fmap_new & Hm).
    by apply elem_of_nil in Hm.
Qed.

Lemma sound_loads n d : steps sound (load_locked P env n d).
Proof.
  intros r Hc Ho. destruct (load_locked P env n d r) as [o r'] eqn:E.
  apply load_locked_spec in E as [H1 H2 _ _ _]; auto.
Qed.

Lemma sound_run_task i : steps sound (run_task P env i).
Proof.
  intros r Hc Ho. unfold run_task, bind, get.
  destruct (tasks r !! i) as [[n d|n d|]|] eqn:Hi; [done| |done|done].
  unfold modify, run_background. set (r1 := with_tasks (delete i) r).
  destruct (load_locked P env n d r1) as [o r2] eqn:E.
  assert (consistent r1) as Hc1 by (destruct Hc; split; [by eapply accounted_eq; [..|eassumption]|done]).
  apply load_locked_spec in E as [H1 H2 _ _ _]; [|done].
  assert (loading_owned {[n]} r1) as Ho1.
  { intros k Hk. destruct (Ho k Hk) as [|Hin]; [set_solver|].
    apply list_elem_of_fmap in Hin as (t & Hn & Hin). unfold r1. cbn.
    rewrite (delete_Permutation _ _ _ Hi) in Hin. apply elem_of_cons in Hin as [->|Hin].
    - injection Hn as ->. set_solver.
    - right. apply list_elem_of_fmap. eauto. }
  match goal with |- consistent ?x ∧ _ => set (r3 := x) end.
  match goal with r3 := snd (finish_background _ _ _ ?o' _) |- _ =>
    destruct (finish_background_core n o' r2) as [Hw Hf] end. fold r3 in Hw, Hf.
  split; [|apply Hf; rewrite union_empty_r_L; auto].
  destruct H1 as [Ha Hu]. split; [by eapply accounted_weak_core|]. by rewrite (sc_unloading _ _ Hw).
Qed.

Lemma frames_start_worker n : frames (start_worker P env n).
Proof.
  unfold start_worker. frame. apply steps_modify. intros r'.
  destruct (dict_get n (loaded r')) as [lm'|] eqn:E; [by eapply same_core_set_loaded|done].
Qed.

Lemma steps_monitor devs : steps shrinks (monitor_locked P env devs).
Proof.
  apply steps_best_effort. intros r Hc. destruct (relieve_all P env devs r) as [o r'] eqn:E.
  apply relieve_all_spec in E as [Hs _]; auto.
Qed.

Lemma steps_drop_entries ids : steps shrinks (modify (drop_config_entries ids)).
Proof. apply steps_shrinks_frames, steps_modify, same_core_drop_entries. Qed.

Lemma steps_remove_entries ids : steps shrinks (remove_entries P env ids).
Proof.
  induction ids as [|i ids IH]; cbn [remove_entries]; [apply steps_ret|].
  apply steps_bind; [apply steps_do_unload|intros _].
  apply steps_bind; [apply steps_shrinks_frames; frame|done].
Qed.

Lemma steps_replace_locked cs dir : steps shrinks (replace_locked P env cs dir).
Proof.
  unfold replace_locked. apply steps_bind; [apply steps_get|intros r].
  destruct (bool_decide _); [apply steps_ret|].
  apply steps_bind; [apply steps_do_unload_all|intros _]. apply steps_shrinks_frames. frame.
Qed.

Lemma calmly_sound {A} (m : M A) : steps (calmly shrinks) m → steps (calmly sound) m.
Proof. intros Hm r. destruct (Hm r) as [Ht Hs]. split; [done|]. intros Hc. by apply sound_shrinks, Hs. Qed.

Lemma sound_load_sync n d : steps (calmly sound) (load P env n d).
Proof.
  apply calmly_load; [typeclasses eauto| | | |].
  - intros A m Hf Ht _. by apply calmly_sound, steps_calmly; [apply steps_shrinks_frames|].
  - intros d' r v reason _. apply calmly_sound, steps_unload.
  - intros r r' H Hc Ho. by apply H.
  - intros lm r Hc Hn. split; [apply ticks_book|]. intros _ _ Ho.
    match goal with |- consistent (?m r).2 ∧ _ => destruct (m r) as [o r'] eqn:E end.
    apply loads_book in E as [H1 H2 _ _ _]; auto.
Qed.

Lemma sound_op o r : op_calm o r → sound r (run_op o r).
Proof.
  intros Hcalm. destruct o; cbn [run_op].
  - apply sound_shrinks, shrinks_same_core, same_core_aside.
  - apply sound_run_task.
  - apply sound_loads.
  - apply sound_shrinks. unfold unload_locked, bind, get.
    destruct (dict_mem _ _); [apply steps_do_unload|reflexivity].
  - apply sound_shrinks, steps_do_unload_all.
  - apply sound_shrinks, steps_evict_lru_excluding.
  - apply sound_shrinks, steps_idle_evict.
  - apply sound_shrinks, steps_monitor.
  - apply sound_shrinks, steps_shrinks_frames, frames_start_worker.
  - apply sound_shrinks. apply (steps_bind _ (λ _, modify _)); [apply steps_do_unload_all|intros _].
    apply steps_drop_entries.
  - apply sound_shrinks, steps_remove_entries.
  - apply sound_shrinks, steps_replace_locked.
  - by apply (sound_load_sync name dev r), Hcalm.
  - by apply (calmly_sound _ (steps_unload name reason) r), Hcalm.
  - assert (steps (calmly shrinks) (unload_all P env)) as Hu.
    { apply steps_bind; [apply steps_get|intros r0; apply steps_unload_each]. }
    by apply (calmly_sound _ Hu r), Hcalm.
Qed.

End system.

(** ** A concrete registry, for the examples *)

#[export] Instance plain_variants : VariantMaker :=
  {| bare_config := λ c, c;
     variant_config := λ c p, mkModelConfig (variant_id (sie_id c) p) (hf_id c) (pool c) (generate c)
       ["default"%string] [] (default_adapter_path c) (Some (sie_id c, p)) (semantic_hash c) |}.

Definition ex_config (name : string) : ModelConfig :=
  mkModelConfig name None None false ["default"%string] [] "sie_server.adapters.x" None "h".

Definition ex_params (devs : list string) : Params :=
  mkParams None (hd "cpu"%string devs) devs None Memory.default_memory_config
    (λ _, Memory.Device) all_imports "models".

(** Everything succeeds, nobody interferes, memory is not under pressure. *)
Definition quiet_env : Env := mkEnv
  (λ n, f_of_Z (Z.of_nat n)) (λ _, []) (λ _ _, Ret (Memory.mkStats 0 100 Memory.cpu))
  (λ _, Ret []) (λ _ _, Ret tt) (λ n _, Ret n) (λ _ _ _, PyInt 10) (λ _ _ _, Ret (Some true, 1))
  (λ _ _, Drained) (λ _ _, None) (λ _ _, UnloadOk) (λ _ _, Ret tt) (λ _ _, Ret tt).

Definition with_asides (e : Env) (f : nat → list aside) : Env :=
  mkEnv (clock e) f (reading e) (scan e) (cached e) (instantiate e) (required e) (load_result e)
    (drain e) (aclose e) (adapter_unload e) (loader_unregister e) (worker_start e).

Definition with_load_result (e : Env) f : Env :=
  mkEnv (clock e) (asides e) (reading e) (scan e) (cached e) (instantiate e) (required e) f
    (drain e) (aclose e) (adapter_unload e) (loader_unregister e) (worker_start e).

Definition with_adapter_unload (e : Env) f : Env :=
  mkEnv (clock e) (asides e) (reading e) (scan e) (cached e) (instantiate e) (required e) (load_result e)
    (drain e) (aclose e) f (loader_unregister e) (worker_start e).

Lemma quiet_loader_sane : loader_sane quiet_env.
Proof. by intros t n e [=]. Qed.

Definition ex_names : list string := ["a"; "b"]%string.
Definition ex_reg : Reg :=
  init_reg (ex_params ["gpu"%string]) ((λ n, (n, ex_config n)) <$> ex_names) None [].

Lemma reachable_consistent (P : Params) `{VariantMaker} (env : Env) (r : Reg) :
  NoDup (devices P) → loader_sane env → reg_reachable P env r → consistent r ∧ loading_owned ∅ r.
Proof.
  intros Hnd Hs Hr. induction Hr as [cs flt pinned|r o Hr IH Hcalm].
  - split; [by apply init_consistent|]. intros n Hn. by apply elem_of_empty in Hn.
  - destruct IH. by apply (sound_op P env Hs o r Hcalm).
Qed.

Lemma reachable_run (P : Params) `{VariantMaker} (env : Env) r ops :
  Forall (λ o, sync_op o = false) ops → reg_reachable P env r → reg_reachable P env (foldl (λ r o, run_op P env o r) r ops).
Proof. intros Hops. revert r. induction Hops as [|o ops Ho _ IH]; intros r Hr; [done|]. apply IH, reach_step; [done|]. unfold op_calm. by rewrite Ho. Qed.

Lemma ex_params_nodup d : NoDup (devices (ex_params [d])).
Proof. apply NoDup_singleton. Qed.

(** ** Properties *)

(** C6 — the registry never has ghosts, leaks or stuck marks.  In every state reachable by
    loads, unloads, evictions, configuration changes and whatever other coroutines do at
    their awaits, and by the synchronous [load], [unload] and [unload_all] between them: the
    memory manager of a device tracks exactly the models loaded on that device, no model is
    marked as being unloaded when the lock is free, and every model marked as loading belongs
    to a background task that is still going to finish.  The asynchronous operations may fail
    in any way: loader, worker and adapter may raise (but [loader.unregister] no
    [BaseException], [loader_sane]).  During a synchronous operation no teardown raises
    ([op_calm], a premise of [reach_step]); one that does leaves a ghost
    ([sync_unload_leaves_ghost]). *)
Theorem registry_accounting (P : Params) `{VariantMaker} (env : Env) (r : Reg) :
  NoDup (devices P) → loader_sane env → reg_reachable P env r →
  (∀ d n, tracked r d n ↔ device_of r n = Some d) ∧
  unloading r = ∅ ∧
  (∀ n, n ∈ loading r → Some n ∈ task_name <$> tasks r).
Proof.
  intros Hnd Hs Hr. destruct (reachable_consistent P env r) as [[[_ Ht _] Hu] Ho]; [done..|].
  split; [|split; [done|]].
  - intros d n. rewrite Ht. naive_solver.
  - intros n Hn. destruct (Ho n Hn) as [H0|]; [by apply elem_of_empty in H0|done].
Qed.

(** Two models are loaded, one in the background; the teardown of the other one raises. *)
Definition teardown_fails : Env :=
  with_adapter_unload quiet_env (λ _ _, UnloadRaises (runtime_error "CUDA error")).

Lemma registry_accounting_witness :
  let P := ex_params ["gpu"%string] in
  let r := foldl (λ r o, run_op P teardown_fails o r) ex_reg
    [OLoad "a" "gpu"; OAside (AStartLoad "b" "gpu"); OAside (ABeginTask 0); ORunTask 0; OUnload "a"] in
  tracked r "gpu" "b" ∧ ¬ tracked r "gpu" "a".
Proof.
  intros P r.
  destruct (registry_accounting P teardown_fails r) as (Ht & _ & _).
  - apply ex_params_nodup.
  - by intros t n e [=].
  - apply reachable_run; [by repeat constructor|apply reach_init].
  - rewrite !Ht. assert (device_of r "b" = Some "gpu"%string ∧ device_of r "a" = None) as [-> ->].
    { vm_compute. auto. }
    by split.
Defined.

(** C28 — what [load_async] does under its lock.  It always returns: the eviction loop ends
    because every round removes a model of the device.  On success the model is loaded
    with the returned adapter and accounted on its device; on any exception (download,
    instantiation, eviction, out of memory twice, timeout) it is neither loaded nor
    accounted.  No other model changes device or appears; others may have been evicted. *)
Theorem load_async_outcome (P : Params) `{VariantMaker} (env : Env) (name dev : string) (r r' : Reg) o :
  loader_sane env → consistent r → load_locked P env name dev r = (o, r') →
  o ≠ Raise OutOfFuel ∧ consistent r' ∧
  match o with
  | Ret adapter => ∃ lm, dict_get name (loaded r') = Some lm ∧ lm_adapter lm = adapter ∧
                         tracked r' (lm_device lm) name
  | Raise _ => dict_mem name (loaded r') = false ∧ ∀ d, ¬ tracked r' d name
  end ∧
  (∀ k, k ≠ name → device_of r' k = device_of r k ∨ device_of r' k = None).
Proof.
  intros Hs Hc E. apply load_locked_spec in E as [H1 _ H3 H4 H5]; [|done|done].
  split; [done|]. split; [done|]. split; [|done]. destruct H1 as [[_ Ht _] _].
  destruct o as [a|e].
  - destruct H5 as (lm & Hlm & Ha). exists lm. split; [done|]. split; [done|].
    apply Ht. left. unfold device_of. by rewrite Hlm.
  - split.
    + apply dict_mem_false, dict_get_None. unfold device_of in H5. by apply fmap_None in H5.
    + intros d Htr. apply Ht in Htr as [Htr|]; [|done]. congruence.
Qed.

(** Both models are resident when a third load runs out of memory: the least recently
    used one is evicted and the load is retried. *)
Definition oom_once : Env :=
  with_load_result quiet_env (λ n _ _, if (n =? 9)%nat
    then Raise (runtime_error "CUDA out of memory") else Ret (Some true, 1)).

Lemma load_async_outcome_witness :
  let P := ex_params ["gpu"%string] in
  let r := run_op P quiet_env (OLoad "a" "gpu") ex_reg in
  let r' := (load_locked P oom_once "b" "gpu" (with_tick (λ _, 0%nat) r)).2 in
  device_of r "a" = Some "gpu"%string ∧ device_of r' "a" = None ∧ tracked r' "gpu" "b".
Proof.
  intros P r r'. split; [vm_compute; reflexivity|]. split; [vm_compute; reflexivity|].
  destruct (load_async_outcome P oom_once "b" "gpu" (with_tick (λ _, 0%nat) r) r'
              (load_locked P oom_once "b" "gpu" (with_tick (λ _, 0%nat) r)).1) as (_ & _ & Ho & _).
  - by intros t n e [=].
  - destruct (reachable_consistent P quiet_env r) as [[Ha Hu] _].
    + apply ex_params_nodup.
    + apply quiet_loader_sane.
    + apply reach_step; [apply reach_init|by intros [=]].
    + split; [by eapply accounted_eq; [..|exact Ha]|exact Hu].
  - apply surjective_pairing.
  - assert ((load_locked P oom_once "b" "gpu" (with_tick (λ _, 0%nat) r)).1 = Ret 17%nat) as E
      by (vm_compute; reflexivity).
    rewrite E in Ho. destruct Ho as (lm & Hlm & _ & Ht).
    assert (lm_device lm = "gpu"%string) as <-; [|done].
    assert (lm_device <$> dict_get "b"%string (loaded r') = Some "gpu"%string) as Hd by (vm_compute; reflexivity).
    rewrite Hlm in Hd. by injection Hd.
Defined.

End RegistrySystem.
