(* ===== verification/RegistryPolicy.v ===== *)
(** Policies of the model registry: which models eviction may take, what a failed load
    leads to, and what a configuration change unloads. *)

From S2P Require Import Prelude PyFloat PyDict PyStr Memory Oom LoadErrors RegistryIds Registry RegistrySystem.
Local Open Scope Z_scope.

Module RegistryPolicy.
Import LoadErrors RegistryIds Registry RegistrySystem.
Local Open Scope reg_scope.

(** A pin set protects a name when both spellings the code tests are in it: eviction by
    pressure looks up [name.lower()], the others [name.strip().lower()]. *)
Definition protects (pinned : gset string) (name : string) : Prop :=
  lower name ∈ pinned ∧ lower (strip name) ∈ pinned.

(** Every pin set installed meanwhile protects the name. *)
Definition stays_pinned (env : Env) (name : string) : Prop :=
  ∀ t ids, ASetPinned ids ∈ asides env t → protects (normalize_pinned ids) name.

Section pins.
Context (P : Params) `{V : VariantMaker} (env : Env) (name : string).
Context (Hsane : loader_sane env) (Hpin : stays_pinned env name).

Notation keeps_pins := (keeps pinned_models).

Ltac pin_walk := walk ltac:(done).

#[local] Hint Extern 1 (keeps_pins (consult _)) => by intros ? : steps.
#[local] Hint Extern 1 (keeps_pins (now _)) => by intros ? : steps.

Lemma pins_update d f r : pinned_models (update_manager P d f r) = pinned_models r.
Proof. apply update_manager_fields. Qed.

#[local] Hint Resolve pins_ensure : steps.

Lemma pins_touch n : keeps_pins (touch_lru P env n).
Proof.
  unfold touch_lru. apply steps_bind; [pin_walk|intros t]. apply steps_modify. intros r.
  destruct (dict_mem n _); [apply pins_update|done].
Qed.
#[local] Hint Resolve pins_touch pins_query pins_check_pressure pins_scores pins_resolve pins_check_loadable : steps.
Lemma pins_start_load n d : keeps_pins (start_load_async P env n d).
Proof. unfold start_load_async, is_failed. pin_walk. Qed.
#[local] Hint Resolve pins_start_load : steps.
Lemma pins_eager l : keeps_pins (eager_load P env l).
Proof. induction l; cbn [eager_load]; pin_walk. Qed.
#[local] Hint Resolve pins_eager : steps.
Lemma pins_finish n o : keeps_pins (finish_background P env n o).
Proof. unfold finish_background, record_load_failure. pin_walk. Qed.

Lemma pins_begin_task i : keeps_pins (begin_task P env i).
Proof.
  unfold begin_task. apply steps_bind; [pin_walk|intros r0].
  destruct (tasks r0 !! i) as [[n d|n d|]|]; [|pin_walk| |pin_walk].
  - intros r. pose proof (pins_check_loadable P env n r) as Hc.
    destruct (check_model_loadable P env n r) as [[u|e] r']; cbn in *; [done|].
    by rewrite pins_finish.
  - unfold eager_load_pinned. pin_walk.
Qed.

Lemma pins_apply_config c dir r : pinned_models (apply_config_entry P c dir r) = pinned_models r.
Proof.
  assert (∀ {A} (f : Reg → A → Reg) l r, (∀ r a, pinned_models (f r a) = pinned_models r) →
    pinned_models (foldl f r l) = pinned_models r) as Hfold.
  { intros A f l. induction l as [|a l IH]; intros r0 Hf; cbn; [done|]. by rewrite IH, Hf. }
  unfold apply_config_entry. destruct (filter _ (expand_one c)); [by apply Hfold|].
  rewrite Hfold; [|intros r1 n; unfold maybe_schedule_pinned_load; by destruct (is_pinned _ _)].
  destruct dir; cbn [pinned_models with_version with_failed with_dirs with_filter with_configs]; by apply Hfold.
Qed.

(** The pin of [name] survives. *)
Definition pinsafe (r r' : Reg) : Prop :=
  protects (pinned_models r) name → protects (pinned_models r') name.

#[local] Instance pinsafe_preorder : PreOrder pinsafe.
Proof. split; [by intros r Hp|]. intros r1 r2 r3 H1 H2 Hp. apply H2, H1, Hp. Qed.

Lemma pinsafe_keeps {A} (m : M A) : keeps_pins m → steps pinsafe m.
Proof. intros Hk r. unfold pinsafe. by rewrite (Hk r). Qed.

(** An aside that does not take the pin away *)
Definition pin_ok (a : aside) : Prop :=
  match a with ASetPinned ids => protects (normalize_pinned ids) name | _ => True end.

Lemma pinsafe_aside a r : pin_ok a → pinsafe r (run_aside P env a r).
Proof.
  intros Ha Hp. destruct a; cbn [run_aside];
    rewrite ?pins_touch, ?pins_start_load, ?pins_check_loadable, ?pins_begin_task, ?pins_apply_config;
    try done.
  - unfold set_pinned_models, bind, get. destruct (bool_decide _) eqn:Eb; [done|].
    unfold modify. set (r1 := with_pinned _ r).
    assert (pinned_models (eager_load_pinned P env r1).2 = normalize_pinned raw_ids) as He.
    { unfold eager_load_pinned, bind, get. by rewrite pins_eager. }
    destruct (eager_load_pinned P env r1) as [[u|e] r2]; cbn in *; by rewrite He.
  - unfold worker_stopped. by destruct (dict_get _ _).
Qed.

Lemma pinsafe_await : steps pinsafe (await P env).
Proof.
  intros r. cbn. assert (pinsafe r (with_tick S r)) as H0 by by intros Hp.
  assert (∀ a, a ∈ asides env (tick r) → a ∈ asides env (tick r)) as Hin by done.
  revert H0 Hin. generalize (with_tick S r) as r1. generalize (asides env (tick r)) at 1 3 as l.
  induction l as [|a l IH]; intros r1 H0 Hin; cbn; [done|].
  apply IH; [|intros; apply Hin; by right]. etrans; [exact H0|].
  apply pinsafe_aside. destruct a; try done. apply (Hpin (tick r)), Hin. by left.
Qed.
#[local] Hint Resolve pinsafe_await : steps.
#[local] Hint Extern 1 (steps pinsafe (consult _)) => by intros ? ? : steps.
#[local] Hint Extern 1 (steps pinsafe (now _)) => by intros ? ? : steps.
#[local] Hint Extern 2 (steps pinsafe (query _ _ _)) => apply pinsafe_keeps, pins_query : steps.

Ltac safe_walk := walk ltac:(first [by intros ?|unfold pinsafe; by rewrite pins_update]).

Lemma pinsafe_do_unload k reason : steps pinsafe (do_unload P env k reason).
Proof.
  unfold do_unload, unload_body, drain_worker, del_loaded, record_event, close_client,
    run_adapter_unload, drop_accounting, best_effort. safe_walk.
Qed.
#[local] Hint Resolve pinsafe_do_unload : steps.

(** The pin of [name] survives, and so does the model if it is loaded. *)
Definition spares (r r' : Reg) : Prop :=
  consistent r → protects (pinned_models r) name →
  consistent r' ∧ protects (pinned_models r') name ∧
  (∀ d, device_of r name = Some d → device_of r' name = Some d).

#[local] Instance spares_preorder : PreOrder spares.
Proof.
  split; [by intros r|]. intros r1 r2 r3 H1 H2 Hc Hp. destruct (H1 Hc Hp) as (Hc2 & Hp2 & Hd2).
  destruct (H2 Hc2 Hp2) as (? & ? & ?). auto.
Qed.

Lemma spares_frames {A} (m : M A) : frames m → steps pinsafe m → steps spares m.
Proof.
  intros Hf Hk r Hc Hp. destruct (shrinks_same_core _ _ (Hf r) Hc) as (Hc' & _ & _).
  split; [done|]. split; [by apply Hk|]. intros d. by rewrite (sc_device _ _ (sc_core _ _ (Hf r))).
Qed.

Lemma spares_do_unload k reason : k ≠ name → steps spares (do_unload P env k reason).
Proof.
  intros Hk r Hc Hp. pose proof (pinsafe_do_unload k reason r Hp) as Hp'.
  destruct (do_unload P env k reason r) as [o r'] eqn:E. cbn in *.
  apply (do_unload_spec P env k reason r o r' Hsane) in E; [|apply Hc..].
  split; [split; [apply E|rewrite (ul_unloading _ _ _ _ E); apply Hc]|]. split; [done|].
  intros d Hd. by rewrite (ul_others _ _ _ _ E).
Qed.

(** A choice that depends on the state: the state is known where the code reads it. *)
Lemma spares_get {A} (k : Reg → M A) : (∀ r, spares r (k r r).2) → steps spares (bind get k).
Proof. intros Hk r. apply Hk. Qed.

Lemma victim_not_pinned d r v : lru_victim P d r = Some v → protects (pinned_models r) name → v ≠ name.
Proof.
  unfold lru_victim, Memory.get_lru_model. intros H [Hl _] ->.
  apply Memory.first_not_excluded_Some in H as (? & ? & _ & He & _).
  unfold Memory.excluded in He. apply bool_decide_eq_false in He. by rewrite elem_of_elements in He.
Qed.

(** A round of an eviction loop: the victim is not the pinned model. *)
Lemma spares_round d reason r v (ghost k : M unit) :
  lru_victim P d r = Some v → steps spares k →
  spares r ((if negb (dict_mem v (loaded r)) then ghost
             else do! query P env d in do! do_unload P env v reason in k) r).2.
Proof.
  intros Hv Hk Hc Hp. destruct (victim_loaded P env Hsane d r v (proj1 Hc) Hv) as [_ ->]. cbn [negb].
  assert (v ≠ name) as Hne by by eapply victim_not_pinned.
  assert (steps spares (do! query P env d in do! do_unload P env v reason in k)) as Hs; [|by apply Hs].
  apply steps_bind; [apply spares_frames; [apply frames_query|safe_walk]|].
  intros _. apply steps_bind; [by apply spares_do_unload|done].
Qed.

Lemma spares_evict_for_load fuel d req : steps spares (evict_for_load P env fuel d req).
Proof.
  induction fuel as [|fuel IH]; cbn [evict_for_load]; [apply steps_out_of_fuel|].
  apply steps_bind.
  { apply spares_frames; [apply frames_should_evict|]. unfold should_evict_for_load. safe_walk. }
  intros b. destruct (negb b); [apply steps_ret|]. apply spares_get. intros r.
  destruct (lru_victim P d r) as [v|] eqn:Hv; [by apply spares_round|reflexivity].
Qed.

Lemma spares_relieve fuel d : steps spares (relieve P env fuel d).
Proof.
  induction fuel as [|fuel IH]; cbn [relieve]; [apply steps_out_of_fuel|].
  apply steps_bind.
  { apply spares_frames; [apply frames_check_pressure|]. apply pinsafe_keeps, pins_check_pressure. }
  intros b. destruct (negb b); [apply steps_ret|]. apply spares_get. intros r.
  destruct (_ <=? 1)%nat; [reflexivity|].
  destruct (lru_victim P d r) as [v|] eqn:Hv; [by apply spares_round|reflexivity].
Qed.

Lemma spares_relieve_all devs : steps spares (relieve_all P env devs).
Proof.
  induction devs as [|d devs IH]; cbn [relieve_all]; [apply steps_ret|].
  apply spares_get. intros r.
  assert (steps spares (do! relieve P env (device_fuel P d r) d in relieve_all P env devs)) as Hs; [|by apply Hs].
  apply steps_bind; [apply spares_relieve|done].
Qed.

Lemma candidate_not_pinned order x pinned l u c :
  Oom.select_eviction_candidate order x (is_pinned pinned) l u = Some c →
  protects pinned name → c ≠ name ∧ c ≠ x ∧ l c = true ∧ c ∈ order.
Proof.
  rewrite Oom.select_eviction_candidate_eligible. intros H [_ Hp].
  assert (c ∈ filter (Oom.eligible x (is_pinned pinned) l u) order) as Hc.
  { destruct (filter _ _) as [|y ys]; [done|]. injection H as ->. by left. }
  apply list_elem_of_filter in Hc as [(Hx & Hpin' & Hl & _) Hin]. split; [|done].
  intros ->. unfold is_pinned in Hpin'. by apply bool_decide_eq_false in Hpin'.
Qed.

Lemma spares_evict_lru x acq : steps spares (evict_lru_excluding P env x acq).
Proof.
  unfold evict_lru_excluding. destruct acq; cbn [negb]; [|apply steps_ret].
  apply spares_get. intros r Hc Hp. cbn zeta.
  match goal with |- context [bind ?m ?k r] => assert (steps spares (bind m k)) as Hs; [|by apply Hs] end.
  apply steps_bind; [apply spares_frames; [apply frames_ensure|apply pinsafe_keeps, pins_ensure]|intros _].
  destruct (Oom.select_eviction_candidate _ _ _ _ _) as [c|] eqn:E; [|apply steps_ret].
  destruct (candidate_not_pinned _ _ _ _ _ _ E Hp) as (Hne & _).
  apply steps_catch; [apply steps_bind; [by apply spares_do_unload|intros; apply steps_ret]|].
  intros e. destruct (is_exception e); [apply steps_ret|apply steps_throw].
Qed.

Lemma pinsafe_instantiate n : steps pinsafe (instantiate_adapter P env n).
Proof. unfold instantiate_adapter. safe_walk. Qed.
Lemma pinsafe_load_and_register n d a c : steps pinsafe (load_and_register P env n d a c).
Proof. unfold load_and_register. safe_walk. Qed.
#[local] Hint Resolve pinsafe_instantiate pinsafe_load_and_register : steps.

Lemma spares_load_with_retry n d a c : steps spares (load_with_retry P env n d a c).
Proof.
  unfold load_with_retry. apply steps_catch; [apply spares_frames; [apply frames_load_and_register|safe_walk]|].
  intros e. destruct (negb _); [apply steps_throw|]. destruct (negb _); [apply steps_throw|].
  apply spares_get. intros r. destruct (lru_victim P d r) as [v|] eqn:Hv; [|reflexivity].
  intros Hc Hp. assert (v ≠ name) as Hne by by eapply victim_not_pinned.
  match goal with |- context [bind ?m ?k r] => assert (steps spares (bind m k)) as Hs; [|by apply Hs] end.
  apply steps_bind; [by apply spares_do_unload|intros _].
  apply steps_bind; [apply spares_frames; [apply frames_instantiate|safe_walk]|intros a'].
  apply spares_frames; [apply frames_load_and_register|safe_walk].
Qed.

(** A load of [n] that has not been registered yet: [n] stays unloaded until then. *)
Definition spares_load (n : string) {A} (m : M A) : Prop :=
  ∀ r, consistent r → device_of r n = None → spares r (m r).2.

Lemma spares_load_bind n {A B} (m : M A) (k : A → M B) :
  steps spares m → steps shrinks m → (∀ a, spares_load n (k a)) → spares_load n (bind m k).
Proof.
  intros Hm Hs Hk r Hc Hn. unfold bind. specialize (Hm r). specialize (Hs r).
  destruct (m r) as [[a|e] r1]; cbn in *; [|done]. destruct (Hs Hc) as (Hc1 & _ & Hd).
  etrans; [exact Hm|]. apply Hk; [done|]. destruct (Hd n) as [->|]; auto.
Qed.

Lemma spares_load_frames n {A B} (m : M A) (k : A → M B) :
  frames m → steps pinsafe m → (∀ a, spares_load n (k a)) → spares_load n (bind m k).
Proof.
  intros Hf Hp. apply spares_load_bind; [by apply spares_frames|by apply steps_shrinks_frames].
Qed.

Lemma spares_register n lm :
  n ≠ name →
  spares_load n (do! modify (with_loaded (dict_set n lm)) in
    do! register P env n lm in
    do! record_event (ModelLoadCompleted n "success" "total") in ret (lm_adapter lm)).
Proof.
  intros Hne r Hc Hn _ Hp.
  match goal with |- context [bind ?m ?k r] => destruct (bind m k r) as [o r'] eqn:E end.
  pose proof (loads_register _ _ _ _ _ _ _ Hc Hn E) as Hl. split; [apply Hl|]. cbn [snd].
  revert E. unfold register, record_event, bind, modify, now, consult. cbn [tick]. intros [= _ <-].
  unfold device_of. cbn [pinned_models loaded with_telemetry].
  match goal with |- context [update_manager P ?d ?f ?x] =>
    destruct (update_manager_fields P d f x) as (El & _ & _ & _ & Ep & _) end.
  rewrite El, Ep. cbn [loaded with_tick with_loaded pinned_models]. split; [done|].
  rewrite dict_get_set. by rewrite decide_False.
Qed.

Lemma shrinks_evict_for_load fuel d req : steps shrinks (evict_for_load P env fuel d req).
Proof.
  induction fuel as [|fuel IH]; cbn [evict_for_load]; [apply steps_out_of_fuel|].
  apply steps_bind; [apply steps_shrinks_frames, frames_should_evict|intros b].
  destruct (negb b); [apply steps_ret|]. intros r. unfold bind at 1. cbn [get].
  destruct (lru_victim P d r) as [v|] eqn:Hv; [|reflexivity].
  assert (steps shrinks (do! query P env d in
    do! do_unload P env v "preload_pressure" in evict_for_load P env fuel d req)) as Hs.
  { apply steps_bind; [apply steps_shrinks_frames, frames_query|intros _].
    apply steps_bind; [by apply steps_do_unload|done]. }
  intros Hc. destruct (victim_loaded P env Hsane d r v (proj1 Hc) Hv) as [_ ->]. by apply Hs.
Qed.

Lemma spares_load_body n d c : n ≠ name → spares_load n (load_body P env n d c).
Proof.
  intros Hne. unfold load_body.
  apply spares_load_frames; [frame; apply frames_await|safe_walk|intros _].
  apply spares_load_frames; [apply frames_instantiate|safe_walk|intros a].
  apply spares_load_frames; [apply frames_required| |intros req].
  { unfold adapter_load_required_bytes. safe_walk. }
  apply spares_load_bind; [apply steps_get..|intros r0].
  apply spares_load_bind; [apply spares_evict_for_load|apply shrinks_evict_for_load|intros _].
  apply spares_load_bind; [apply spares_load_with_retry|by apply steps_load_with_retry|intros lm].
  by apply spares_register.
Qed.

Lemma pinsafe_load_locked n d : steps pinsafe (load_locked P env n d).
Proof.
  assert (∀ fuel req d, steps pinsafe (evict_for_load P env fuel d req)) as He.
  { intros fuel req d0. induction fuel as [|fuel IH]; cbn [evict_for_load]; [safe_walk|].
    unfold should_evict_for_load. safe_walk. }
  unfold load_locked, load_body, load_with_retry, register, report_failure, record_event,
    adapter_load_required_bytes.
  apply steps_bind; [apply steps_get|intros r0]. destruct (dict_get n (loaded r0)) as [lm|].
  { apply steps_bind; [apply pinsafe_keeps, pins_touch|intros; apply steps_ret]. }
  apply steps_bind; [apply pinsafe_keeps, pins_resolve|intros dev].
  apply steps_bind; [apply pinsafe_keeps, pins_ensure|intros _]. safe_walk.
Qed.

Lemma spares_load_locked n d : steps spares (load_locked P env n d).
Proof.
  intros r Hc Hp. pose proof (pinsafe_load_locked n d r Hp) as Hp'.
  destruct (load_locked P env n d r) as [o r'] eqn:E. cbn [snd] in *.
  pose proof (load_locked_spec P env Hsane n d r o r' Hc E) as Hl.
  split; [apply Hl|]. split; [done|].
  destruct (decide (n = name)) as [->|Hne].
  - (* it is the model itself: loaded, it is only touched *)
    intros d0 Hd. revert E. unfold load_locked. unfold bind at 1. cbn [get].
    unfold device_of in Hd. destruct (dict_get name (loaded r)) as [lm|] eqn:Hlm; [|done].
    unfold bind. destruct (touch_lru P env name r) as [[u|e] r1] eqn:Et; intros [= _ <-];
      pose proof (steps_at _ _ _ _ (keeps_loaded_touch P env name) Et) as Hk; cbn in Hk;
      unfold device_of; by rewrite Hk, Hlm.
  - revert E. unfold load_locked. unfold bind at 1. cbn [get].
    destruct (dict_get n (loaded r)) as [lm|] eqn:Hlm.
    { intros E d0 Hd. unfold bind in E.
      destruct (touch_lru P env n r) as [[u|e] r1] eqn:Et; injection E as _ <-;
        by rewrite (sc_device _ _ (sc_core _ _ (steps_at _ _ _ _ (frames_touch_lru P env n) Et))). }
    assert (device_of r n = None) as Hn by (unfold device_of; by rewrite Hlm).
    intros E.
    match type of E with ?m r = _ => assert (spares_load n m) as Hs end.
    { apply spares_load_frames; [apply frames_resolve_load_device|apply pinsafe_keeps, pins_resolve|intros dev].
      apply spares_load_frames; [apply frames_ensure|apply pinsafe_keeps, pins_ensure|intros _].
      apply spares_load_bind; [apply steps_get..|intros r0].
      destruct (bool_decide _); [intros r1 ? ?; by apply (steps_throw (R:=spares))|].
      destruct (dict_get n (configs r0)) as [c|]; [|intros r1 ? ?; by apply (steps_throw (R:=spares))].
      intros r1 Hc1 Hn1 _ Hp1. unfold bind, modify, finally. set (r2 := with_loading _ r1).
      assert (consistent r2) as Hc2 by (destruct Hc1; split; [by eapply accounted_eq; [..|eassumption]|done]).
      pose proof (spares_load_body n dev c Hne r2 Hc2 Hn1 Hc2 Hp1) as (Hc3 & Hp3 & Hd3).
      unfold catch. destruct (load_body P env n dev c r2) as [[a|[e|]] r3]; cbn in *.
      all: split; [destruct Hc3; split; [by eapply accounted_eq; [..|eassumption]|done]|done]. }
    pose proof (Hs r Hc Hn Hc Hp) as Hsp. rewrite E in Hsp. apply Hsp.
Qed.

Lemma spares_run_task i : steps spares (run_task P env i).
Proof.
  intros r Hc Hp. unfold run_task, bind, get.
  destruct (tasks r !! i) as [[n d|n d|]|]; [done| |done|done].
  unfold modify, run_background. set (r1 := with_tasks (delete i) r).
  assert (consistent r1) as Hc1 by (destruct Hc; split; [by eapply accounted_eq; [..|eassumption]|done]).
  pose proof (spares_load_locked n d r1 Hc1 Hp) as (Hc2 & Hp2 & Hd2).
  destruct (load_locked P env n d r1) as [o r2] eqn:E. cbn [snd] in *.
  match goal with |- context [finish_background P env n ?o' r2] =>
    destruct (finish_background_core P env n o' r2) as [Hw _]; pose proof (pins_finish n o' r2) as Hk end.
  split; [|split; [by rewrite Hk|]].
  - destruct Hc2 as [Ha Hu]. split; [by eapply accounted_weak_core|]. by rewrite (sc_unloading _ _ Hw).
  - intros d0 Hd. rewrite (sc_device _ _ Hw). auto.
Qed.

Lemma spares_idle th stale : name ∉ stale → steps spares (idle_evict P env th stale).
Proof.
  induction stale as [|n stale IH]; cbn [idle_evict]; intros Hn; [apply steps_ret|].
  apply not_elem_of_cons in Hn as [Hne Hn]. specialize (IH Hn).
  apply steps_bind; [apply steps_get|intros r]. destruct (negb _); [done|].
  destruct (dict_get n _) as [info|]; [|done].
  apply steps_bind; [apply spares_frames; [apply frames_now|safe_walk]|intros t].
  destruct (flt _ _); [done|]. unfold best_effort. apply steps_catch; [by apply spares_do_unload|].
  intros e. destruct (is_exception e); [apply steps_ret|apply steps_throw].
Qed.

(** The synchronous load *)

Lemma keeps_name_unload k reason r : k ≠ name → consistent r →
  device_of (unload P env k reason r).2 name = device_of r name ∧ pinned_models (unload P env k reason r).2 = pinned_models r.
Proof.
  intros Hk [[[Hl _ _] _ _] _]. unfold unload, bind, get. destruct (negb _); [done|].
  destruct (dict_get k (loaded r)) as [lm|]; [|done]. unfold record_event, modify, consult.
  assert (device_of (with_loaded (dict_del k) r) name = device_of r name) as Hd.
  { unfold device_of. cbn. rewrite dict_get_del by done. by rewrite decide_False. }
  destruct (adapter_unload env _ k); [|by split..]. cbn [ret tick with_tick].
  destruct (loader_unregister env _ k); [|by split]. cbn [of_res ret snd].
  match goal with |- context [update_manager P ?d ?f ?x] => destruct (update_manager_fields P d f x) as (El & _ & _ & _ & Ep & _) end.
  unfold device_of in *. by rewrite El, Ep.
Qed.

Lemma spares_unload k reason : k ≠ name → steps (calmly env spares) (unload P env k reason).
Proof.
  intros Hk r. destruct (steps_unload P env k reason r) as [Ht Hs]. split; [done|]. intros Hcalm Hc Hp.
  destruct (Hs Hcalm Hc) as [Hc' _]. destruct (keeps_name_unload k reason r Hk Hc) as [-> ->]. auto.
Qed.

Lemma spares_load_sync n d : steps (calmly env spares) (load P env n d).
Proof.
  apply calmly_load; [typeclasses eauto| | |by intros r r' H Hc; apply H|].
  - intros A m Hf Ht Hk. apply steps_calmly; [apply spares_frames; [done|by apply pinsafe_keeps]|done].
  - intros d' r v reason Hv. split; [apply ticks_unload|]. intros Hcalm Hc Hp.
    apply spares_unload; [by eapply victim_not_pinned|done..].
  - intros lm r Hc Hn. split; [apply ticks_book|]. intros _ _ Hp.
    match goal with |- consistent (?m r).2 ∧ _ => destruct (m r) as [o r'] eqn:E end.
    pose proof (loads_book _ _ _ _ _ _ _ Hc Hn E) as [H1 _ _ _ _]. split; [done|].
    revert E. unfold register, record_event, bind, modify, now, consult. cbn [tick]. intros [= _ <-].
    unfold device_of in *. cbn [snd pinned_models loaded with_telemetry with_failed].
    match goal with |- context [update_manager P ?d ?f ?x] =>
      destruct (update_manager_fields P d f x) as (El & _ & _ & _ & Ep & _) end.
    rewrite El, Ep. cbn [loaded with_tick with_loaded pinned_models]. split; [done|]. intros d0 Hd.
    rewrite dict_get_set. case_decide as He; [|done]. subst. by rewrite Hn in Hd.
Qed.

(** The operations that evict by policy: neither a manual unload, nor shutdown, nor a
    configuration change. *)
Definition policy_op (o : op) : Prop :=
  match o with
  | OAside a => pin_ok a
  | ORunTask _ | OLoad _ _ | OEvictLru _ _ | OIdleEvict _ _ | OMonitor _ | OStartWorker _ | OLoadSync _ _ => True
  | OUnload _ | OUnloadAll | OInvalidate _ _ | ORemove _ | OReplace _ _ | OUnloadSync _ _ | OUnloadAllSync => False
  end.

(** A round of the idle evictor over a snapshot that has the model *)
Definition stale_round (o : op) : Prop :=
  match o with OIdleEvict _ stale => name ∈ stale | _ => False end.

#[global] Instance stale_round_dec o : Decision (stale_round o).
Proof. destruct o; apply _. Defined.

Lemma spares_op o r : policy_op o → op_calm P env o r → ¬ stale_round o → spares r (run_op P env o r).
Proof.
  intros Ho Hcalm Hst. destruct o; cbn [policy_op run_op stale_round] in *; try done.
  - intros Hc Hp. destruct (shrinks_same_core _ _ (same_core_aside P env a r) Hc) as (Hc' & _ & _).
    split; [done|]. split; [by apply pinsafe_aside|]. intros d.
    by rewrite (sc_device _ _ (sc_core _ _ (same_core_aside P env a r))).
  - apply spares_run_task.
  - apply spares_load_locked.
  - apply spares_evict_lru.
  - by apply spares_idle.
  - unfold monitor_locked, best_effort. apply steps_catch; [apply spares_relieve_all|].
    intros e. destruct (is_exception e); [apply steps_ret|apply steps_throw].
  - assert (steps spares (start_worker P env name0)) as Hs; [|apply Hs].
    apply spares_frames; [apply frames_start_worker|].
    unfold start_worker. safe_walk; apply steps_modify; intros r' Hp'.
    + destruct (dict_mem _ _); [by rewrite pins_update|done].
    + by destruct (dict_get _ _).
  - by apply spares_load_sync, Hcalm.
Qed.

End pins.

(** The synchronous operations of a run meet no teardown that raises. *)
Fixpoint run_calm (P : Params) `{VariantMaker} (env : Env) (ops : list op) (r : Reg) : Prop :=
  match ops with
  | [] => True
  | o :: ops => op_calm P env o r ∧ run_calm P env ops (run_op P env o r)
  end.

(** An idle snapshot never contains a model pinned when it is taken. *)
Lemma idle_snapshot_not_pinned (env : Env) th name r l r' :
  idle_snapshot env th r = (Ret l, r') → lower name ∈ pinned_models r → name ∉ l.
Proof.
  unfold idle_snapshot, bind at 1. cbn [get]. generalize (dict_values (memory_managers r)) as ms.
  intros ms. revert r l r'. induction ms as [|m ms IH]; intros r l r'; cbn [idle_models].
  - intros [= <- <-] _ H. by apply elem_of_nil in H.
  - unfold bind at 1, now, consult. unfold bind at 1. cbn [get].
    destruct (Memory.get_idle_models m th _ _) as [l0|] eqn:E0; [|done]. unfold bind at 1.
    destruct (idle_models env th ms _) as [[l1|] r1] eqn:E1; [|done].
    intros [= <- <-] Hp. rewrite elem_of_app. intros [Hin|Hin].
    + unfold Memory.get_idle_models in E0. destruct (flt th f0); [done|]. injection E0 as <-.
      apply list_elem_of_fmap in Hin as ([t0 n0] & -> & Hin). rewrite elem_of_stable_sort in Hin.
      apply list_elem_of_omap in Hin as ([k i] & _ & Hk). cbn [pinned_models with_tick] in Hk.
      unfold Memory.excluded in Hk. case_bool_decide as Hex; [done|]. destruct (fle _ _); [|done].
      injection Hk as _ ->. apply Hex. by rewrite elem_of_elements.
    + revert Hin. eapply IH; [exact E1|done].
Qed.

(** C7 — no policy evicts a pinned model, but for an idle round that works on a list made
    before the pin.  As long as every pin set installed meanwhile contains it, a model that
    is loaded stays loaded on its device through any sequence of loads (with their pre-load
    and out-of-memory evictions), background loads, out-of-memory evictions by other workers,
    memory-pressure rounds, idle rounds and other coroutines, whatever fails (a teardown in
    the synchronous [load] excepted, [run_calm]); if it is gone, one of the idle rounds had it
    in its list of stale models.  That list is computed without the lock, and the one computed
    while the model is pinned does not have it; a pin that comes after the list does not help
    ([idle_evictor_ignores_new_pin]).  Manual unloads, shutdown and configuration changes are
    not policy and may unload it. *)
Theorem pinned_never_evicted (P : Params) `{VariantMaker} (env : Env) (name d : string)
    (ops : list op) (r : Reg) :
  loader_sane env → stays_pinned env name → Forall (policy_op name) ops → run_calm P env ops r →
  consistent r → protects (pinned_models r) name → device_of r name = Some d →
  (device_of (foldl (λ r o, run_op P env o r) r ops) name = Some d ∨ Exists (stale_round name) ops) ∧
  (∀ threshold r1 l r2, protects (pinned_models r1) name → idle_snapshot env threshold r1 = (Ret l, r2) → name ∉ l).
Proof.
  intros Hs Hp Hops Hcalm Hc Hpr Hd. split.
  2:{ intros th r1 l r2 [Hpn _] E. by eapply idle_snapshot_not_pinned. }
  revert r Hcalm Hc Hpr Hd. induction Hops as [|o ops Ho Hops IH]; intros r Hcalm Hc Hpr Hd; [by left|].
  destruct Hcalm as [Hco Hcalm]. destruct (decide (stale_round name o)) as [Hst|Hst]; [right; by left|].
  cbn [foldl]. destruct (spares_op P env name Hs Hp o r Ho Hco Hst Hc Hpr) as (Hc' & Hp' & Hd').
  destruct (IH _ Hcalm Hc' Hp' (Hd' d Hd)) as [?|?]; [by left|right; by right].
Qed.

(** A device permanently under pressure. *)
Definition pressured_env : Env := mkEnv
  (λ n, f_of_Z (Z.of_nat n)) (λ _, [ATouchLru "b"%string]) (λ _ _, Ret (Memory.mkStats 99 100 Memory.cpu))
  (λ _, Ret []) (λ _ _, Ret tt) (λ n _, Ret n) (λ _ _ _, PyInt 10) (λ _ _ _, Ret (Some true, 1))
  (λ _ _, Drained) (λ _ _, None) (λ _ _, UnloadOk) (λ _ _, Ret tt) (λ _ _, Ret tt).

Definition pinned_reg : Reg :=
  init_reg (ex_params ["gpu"%string]) ((λ n, (n, ex_config n)) <$> ex_names) None ["A"%string].

Definition two_loads : list op := [OLoad "a" "gpu"; OLoad "b" "gpu"].

Lemma pinned_never_evicted_witness :
  let P := ex_params ["gpu"%string] in
  let r := foldl (λ r o, run_op P quiet_env o r) pinned_reg two_loads in
  let r' := foldl (λ r o, run_op P pressured_env o r) r [OMonitor ["gpu"%string]] in
  device_of r' "a" = Some "gpu"%string ∧ device_of r' "b" = None.
Proof.
  intros P r r'. split; [|vm_compute; reflexivity]. unfold r'.
  destruct (pinned_never_evicted P pressured_env "a" "gpu" [OMonitor ["gpu"%string]] r) as [[H|H] _]; [..|exact H|].
  - by intros t n e [=].
  - intros t ids. cbn. intros [H|H%elem_of_nil]%elem_of_cons; done.
  - repeat constructor.
  - split; [by intros [=]|exact I].
  - apply (reachable_consistent P quiet_env); [apply ex_params_nodup|apply quiet_loader_sane|].
    apply reachable_run; [by repeat constructor|apply reach_init].
  - split; apply (bool_decide_eq_true_1 _); vm_compute; reflexivity.
  - vm_compute. reflexivity.
  - exfalso. by apply Exists_cons in H as [[]|H%Exists_nil].
Defined.

(** ** Out-of-memory eviction *)

(** The models of the caller's device that OOM recovery may take, in LRU order. *)
Definition oom_candidates (P : Params) (caller : string) (r : Reg) : list string :=
  filter (λ n, n ≠ caller ∧ is_pinned (pinned_models r) n = false)
    (Memory.loaded_models (the_manager P (manager_key P caller r) r)).

Lemma oom_candidate_head (P : Params) caller r :
  consistent r →
  Oom.select_eviction_candidate
    (Memory.loaded_models (the_manager P (manager_key P caller r) r)) caller
    (is_pinned (pinned_models r)) (λ n, dict_mem n (loaded r)) (λ n, bool_decide (n ∈ unloading r))
  = head (oom_candidates P caller r).
Proof.
  intros [[_ Ht _] Hu]. rewrite Oom.select_eviction_candidate_eligible. f_equal.
  unfold oom_candidates. apply filter_ext_elem. intros n Hn. unfold Oom.eligible.
  assert (dict_mem n (loaded r) = true) as ->.
  { apply tracked_the_manager, Ht in Hn as [Hn|]; [|done]. unfold device_of in Hn.
    apply fmap_Some in Hn as (lm & Hn & _). apply dict_mem_true, dict_get_is_Some. eauto. }
  rewrite Hu, bool_decide_false by set_solver. tauto.
Qed.

(** What [evict_lru_excluding] promises to OOM recovery.  With the lock, it answers
    [NO_CANDIDATE] exactly when every other model of the caller's device is pinned, and
    then unloads nothing.  Otherwise it goes for the least recently used one: [EVICTED]
    means that this model, and no other, is gone and that its device counts one model
    less; [UNLOAD_FAILED] and a raised error touch no other model either.  The caller's own
    model always stays.  Without the lock it answers [LOCK_TIMEOUT] and changes nothing. *)
Theorem evict_lru_excluding_spec (P : Params) `{VariantMaker} (env : Env) (caller : string)
    (r r' : Reg) o :
  loader_sane env → consistent r → evict_lru_excluding P env caller true r = (o, r') →
  let d := manager_key P caller r in
  consistent r' ∧ device_of r' caller = device_of r caller ∧
  match head (oom_candidates P caller r) with
  | None => o = Ret Oom.NO_CANDIDATE ∧ ∀ k, device_of r' k = device_of r k
  | Some victim =>
      device_of r victim = Some d ∧ (∀ k, k ≠ victim → device_of r' k = device_of r k) ∧
      match o with
      | Ret Oom.EVICTED => device_of r' victim = None ∧ S (device_count d r') = device_count d r
      | Ret Oom.UNLOAD_FAILED => True
      | Ret _ => False
      | Raise e => e ≠ OutOfFuel
      end
  end.
Proof.
  intros Hs Hc E d. revert E. unfold evict_lru_excluding. cbn [negb]. unfold bind at 1. cbn [get].
  fold d. unfold bind at 1. cbn [modify]. unfold d. rewrite oom_candidate_head by done. fold d.
  set (r1 := ensure_manager P d r).
  pose proof (same_core_ensure P d r) as Hsc. fold r1 in Hsc. pose proof (sc_core _ _ Hsc) as Hw.
  destruct (shrinks_same_core _ _ Hsc Hc) as (Hc1 & _ & _).
  destruct (head (oom_candidates P caller r)) as [v|] eqn:Hv.
  2:{ intros [= <- <-]. split; [done|]. split; [apply Hw|]. split; [done|]. apply Hw. }
  assert (v ∈ oom_candidates P caller r) as Hin.
  { destruct (oom_candidates P caller r); [done|]. injection Hv as ->. by left. }
  apply list_elem_of_filter in Hin as [[Hne _] Hin].
  assert (device_of r v = Some d) as Hd.
  { apply tracked_the_manager in Hin. destruct Hc as [[_ Ht _] _]. by apply Ht in Hin as [|]. }
  unfold catch, bind. destruct (do_unload P env v "oom_recovery" r1) as [ou r2] eqn:Eu.
  apply do_unload_spec in Eu as Hul; [|done|apply Hc1..].
  assert (consistent r2) as Hc2.
  { split; [apply Hul|]. rewrite (ul_unloading _ _ _ _ Hul). apply Hc1. }
  assert (∀ k, k ≠ v → device_of r2 k = device_of r k) as Hk.
  { intros k Hkv. rewrite (ul_others _ _ _ _ Hul k Hkv). apply Hw. }
  destruct ou as [[]|[e|]]; [| |by destruct (ul_total _ _ _ _ Hul)].
  - intros [= <- <-]. split; [done|]. split; [by apply Hk|]. split; [done|]. split; [done|].
    assert (device_of r2 v = None) as Hnone by by destruct (ul_name _ _ _ _ Hul) as [|[? _]].
    split; [done|]. rewrite <- (sc_count _ _ Hw). apply (device_count_drop P v); [apply Hc1|apply Hc2| |by rewrite (sc_device _ _ Hw)|done].
    apply Hul.
  - destruct (is_exception e); intros [= <- <-]; (split; [done|]; split; [by apply Hk|]); done.
Qed.

Lemma evict_lru_excluding_spec_witness :
  let P := ex_params ["gpu"%string] in
  let r := foldl (λ r o, run_op P quiet_env o r) ex_reg two_loads in
  let r' := (evict_lru_excluding P quiet_env "b" true r).2 in
  (evict_lru_excluding P quiet_env "b" true r).1 = Ret Oom.EVICTED ∧
  device_of r' "b" = Some "gpu"%string ∧ device_of r' "a" = None.
Proof.
  intros P r r'. assert ((evict_lru_excluding P quiet_env "b" true r).1 = Ret Oom.EVICTED) as E
    by (vm_compute; reflexivity). split; [exact E|].
  destruct (evict_lru_excluding_spec P quiet_env "b" r r'
             (evict_lru_excluding P quiet_env "b" true r).1) as (_ & Hb & Hv).
  - apply quiet_loader_sane.
  - apply (reachable_consistent P quiet_env); [apply ex_params_nodup|apply quiet_loader_sane|].
    apply reachable_run; [by repeat constructor|apply reach_init].
  - apply surjective_pairing.
  - split; [rewrite Hb; vm_compute; reflexivity|]. rewrite E in Hv.
    assert (head (oom_candidates P "b" r) = Some "a"%string) as Eh by (vm_compute; reflexivity).
    rewrite Eh in Hv. apply Hv.
Defined.

(** ** Failures *)

(** The failure record drives the retries.  When a background load fails with an
    exception, the record has the class of the exception, one attempt more than before and
    the time of the failure; the next [start_load_async] is refused without any other
    effect exactly while the cooldown of that class lasts (for ever, for the permanent
    classes), and afterwards starts a background task. *)
Theorem failed_load_cools_down (P : Params) `{VariantMaker} (env : Env) (name dev : string) (e : exc) (r : Reg) :
  dict_mem name (loaded r) = false → name ∉ loading r → dict_mem name (configs r) = true →
  is_exception e = true →
  let r1 := (finish_background P env name (Raise (PyExc e)) r).2 in
  let c := error_class (classify_load_error (importable P) e) in
  let blocked := match COOLDOWN_BY_CLASS c with
                 | None => true
                 | Some s => flt (fsub (clock env (S (tick r))) (clock env (tick r))) s
                 end in
  (∃ f, dict_get name (failed r1) = Some f ∧ f_error_class f = c ∧
        f_attempts f = match dict_get name (failed r) with Some f0 => f_attempts f0 + 1 | None => 1 end) ∧
  start_load_async P env name dev r1 =
    (Ret (negb blocked),
     if blocked then with_tick S r1
     else with_tasks (λ ts, ts ++ [TLoad name dev]) (with_loading (λ l, {[name]} ∪ l) (with_tick S r1))).
Proof.
  intros Hl Hlo Hcf He r1 c blocked.
  set (f := mkFailure c (exc_type e +:+ ": " +:+ exc_str e)
    (match dict_get name (failed r) with Some f0 => f_attempts f0 + 1 | None => 1 end)
    (clock env (tick r)) (COOLDOWN_BY_CLASS c)).
  assert (r1 = with_loading (λ l, l ∖ {[name]})
    (with_failed (dict_set name f) (with_tick S r))) as Hr1.
  { unfold r1, finish_background, finally. rewrite He. cbn. by rewrite classify_cooldown. }
  assert (dict_get name (failed r1) = Some f) as Hf.
  { rewrite Hr1. cbn. rewrite dict_get_set. by rewrite decide_True. }
  split; [by exists f|].
  unfold start_load_async. unfold bind at 1. cbn [get].
  assert (loaded r1 = loaded r ∧ configs r1 = configs r ∧ tick r1 = S (tick r) ∧ name ∉ loading r1)
    as (-> & Ec & Et & Hnl).
  { rewrite Hr1. cbn. set_solver. }
  rewrite Hl, bool_decide_false by done.
  unfold is_failed, bind. cbn [get]. rewrite Hf. unfold now, consult. cbn [ret].
  assert (in_cooldown f (clock env (tick r1)) = blocked) as ->.
  { unfold in_cooldown, blocked. cbn. rewrite Et. by destruct (COOLDOWN_BY_CLASS c). }
  destruct blocked; [done|]. unfold check_model_loadable, bind. cbn [get configs with_tick].
  rewrite Ec, Hcf. done.
Qed.

Lemma failed_load_cools_down_witness :
  let P := ex_params ["gpu"%string] in
  let late := mkEnv (λ n, f_of_Z (100 * Z.of_nat n)) (λ _, []) (reading quiet_env) (scan quiet_env)
    (cached quiet_env) (instantiate quiet_env) (required quiet_env) (load_result quiet_env)
    (drain quiet_env) (aclose quiet_env) (adapter_unload quiet_env) (loader_unregister quiet_env)
    (worker_start quiet_env) in
  let timeout := mkExc "ModelLoadTimeoutError" [ModelLoadTimeoutError; TimeoutError] "slow" "load" in
  let gated := mkExc "GatedModelError" [GatedModelError] "gated" "" in
  let retry e := (start_load_async P late "a" "gpu"
    (finish_background P late "a" (Raise (PyExc e)) ex_reg).2).1 in
  retry timeout = Ret true ∧ retry gated = Ret false.
Proof.
  intros P late timeout gated retry. split.
  - destruct (failed_load_cools_down P late "a" "gpu" timeout ex_reg) as [_ E];
      [reflexivity|apply (bool_decide_eq_true_1 _); vm_compute; reflexivity|reflexivity|reflexivity|].
    unfold retry. rewrite E. vm_compute. reflexivity.
  - destruct (failed_load_cools_down P late "a" "gpu" gated ex_reg) as [_ E];
      [reflexivity|apply (bool_decide_eq_true_1 _); vm_compute; reflexivity|reflexivity|reflexivity|].
    unfold retry. rewrite E. vm_compute. reflexivity.
Defined.

(** ** Configuration changes *)

Lemma do_unload_all_spec (P : Params) `{VariantMaker} (env : Env) names reason r o r' :
  loader_sane env → consistent r → do_unload_all P env names reason r = (o, r') →
  consistent r' ∧ (∀ k, k ∉ names → device_of r' k = device_of r k) ∧
  (o = Ret tt → ∀ k, k ∈ names → device_of r' k = None).
Proof.
  intros Hs. revert r. induction names as [|n names IH]; intros r Hc; cbn [do_unload_all].
  { intros [= <- <-]. split; [done|]. split; [done|]. by intros _ k Hk%elem_of_nil. }
  unfold bind. destruct (do_unload P env n reason r) as [o1 r1] eqn:E1.
  apply do_unload_spec in E1 as Hul; [|done|apply Hc..].
  assert (consistent r1) as Hc1.
  { split; [apply Hul|]. rewrite (ul_unloading _ _ _ _ Hul). apply Hc. }
  destruct o1 as [[]|e].
  - intros E. destruct (IH r1 Hc1 E) as (Hc' & Hk & Hn). split; [done|]. split.
    + intros k [Hkn Hks]%not_elem_of_cons. by rewrite Hk, (ul_others _ _ _ _ Hul).
    + intros Ho k [->|Hin]%elem_of_cons; [|by apply Hn].
      assert (device_of r1 n = None) as Hn1 by by destruct (ul_name _ _ _ _ Hul) as [|[? _]].
      destruct (decide (n ∈ names)); [by apply Hn|by rewrite Hk].
  - intros [= <- <-]. split; [done|]. split; [|done].
    intros k [Hkn _]%not_elem_of_cons. by apply Hul.
Qed.

Lemma elem_of_sorted_elements (s : gset string) k : k ∈ sorted_strings (elements s) ↔ k ∈ s.
Proof. unfold sorted_strings. by rewrite elem_of_stable_sort, elem_of_elements. Qed.

(** An authoritative snapshot takes effect on what is served.  When
    [replace_configs_async] succeeds, every model whose entry was removed or changed by the
    snapshot has been drained and unloaded, no other model was touched, the configuration
    map is the snapshot, and so every model still loaded that had a configuration has an
    entry in the snapshot with the same content. *)
Theorem replace_configs_unloads (P : Params) `{VariantMaker} (env : Env)
    (new_configs : list (string * ModelConfig)) (r r' : Reg) inv :
  loader_sane env → consistent r → replace_locked P env new_configs None r = (Ret inv, r') →
  inv = invalidated_by new_configs None r ∧
  (inv ≠ ∅ → configs r' = new_configs) ∧
  (∀ n, n ∈ inv → device_of r' n = None) ∧
  (∀ n, n ∉ inv → device_of r' n = device_of r n) ∧
  (∀ n c0, is_Some (device_of r' n) → dict_get n (configs r) = Some c0 → dict_wf new_configs →
     ∃ c, dict_get n new_configs = Some c ∧ semantic_hash c = semantic_hash c0).
Proof.
  intros Hs Hc. unfold replace_locked. unfold bind at 1. cbn [get].
  assert (∀ n c0, n ∉ invalidated_by new_configs None r → dict_get n (configs r) = Some c0 → dict_wf new_configs →
    ∃ c, dict_get n new_configs = Some c ∧ semantic_hash c = semantic_hash c0) as Hkeep.
  { intros n c0 Hn Hc0 Hwf. unfold invalidated_by in Hn.
    apply not_elem_of_union in Hn as [[Hrem Hch]%not_elem_of_union _].
    rewrite elem_of_difference, !elem_of_list_to_set in Hrem.
    assert (n ∈ dict_keys (configs r)) as Hin by (apply dict_get_is_Some; eauto).
    assert (n ∈ dict_keys new_configs) as Hin' by (destruct (decide (n ∈ dict_keys new_configs)); tauto).
    apply dict_get_is_Some in Hin' as [c Hcn]. exists c. split; [done|].
    rewrite elem_of_list_to_set, list_elem_of_omap in Hch.
    destruct (decide (semantic_hash c0 = semantic_hash c)) as [->|Hne]; [done|]. destruct Hch.
    exists (n, c). split; [by apply dict_get_Some_elem|]. cbn. rewrite Hc0. by rewrite bool_decide_false. }
  set (inv0 := invalidated_by new_configs None r) in *.
  destruct (bool_decide (inv0 = ∅)) eqn:Eb.
  { apply bool_decide_eq_true in Eb. intros [= <- <-]. split; [done|]. split; [done|].
    split; [by intros n Hn%elem_of_empty|]. split; [done|]. intros n c0 _. apply Hkeep. rewrite Eb. set_solver. }
  unfold bind at 1. destruct (do_unload_all P env _ "config_change" r) as [[[]|e] r1] eqn:Eu; [|done].
  destruct (do_unload_all_spec P env _ _ r _ r1 Hs Hc Eu) as (Hc1 & Hk & Hn).
  unfold bind, modify, ret. intros [= <- <-]. split; [done|]. split; [done|].
  assert (∀ n, n ∈ inv0 → device_of r1 n = None) as Hgone.
  { intros n Hin. apply Hn; [done|]. by apply elem_of_sorted_elements. }
  split; [exact Hgone|]. split.
  - intros n Hin. rewrite <- (Hk n); [done|]. by rewrite elem_of_sorted_elements.
  - intros n c0 [d Hd] Hc0 Hwf. apply Hkeep; [|done..]. intros Hin.
    change (device_of r1 n = Some d) in Hd. by rewrite (Hgone n Hin) in Hd.
Qed.

Definition ex_config2 (name hash : string) : ModelConfig :=
  mkModelConfig name None None false ["default"%string] [] "sie_server.adapters.x" None hash.

Lemma replace_configs_unloads_witness :
  let P := ex_params ["gpu"%string] in
  let r := foldl (λ r o, run_op P quiet_env o r) ex_reg two_loads in
  let new := [("a", ex_config2 "a" "h2"); ("b", ex_config2 "b" "h")]%string in
  let r' := (replace_locked P quiet_env new None r).2 in
  device_of r' "a" = None ∧ device_of r' "b" = Some "gpu"%string ∧ configs r' = new.
Proof.
  intros P r new r'.
  destruct (replace_configs_unloads P quiet_env new r r' {["a"%string]}) as (Hi & Hcf & Hg & Hk & _).
  - apply quiet_loader_sane.
  - apply (reachable_consistent P quiet_env); [apply ex_params_nodup|apply quiet_loader_sane|].
    apply reachable_run; [by repeat constructor|apply reach_init].
  - assert ((replace_locked P quiet_env new None r).1 = Ret {["a"%string]}) as E by (vm_compute; reflexivity).
    rewrite <- E. apply surjective_pairing.
  - split; [apply Hg, elem_of_singleton; reflexivity|]. split; [|apply Hcf, non_empty_singleton_L].
    rewrite (Hk "b"%string); [vm_compute; reflexivity|]. by intros ?%elem_of_singleton.
Defined.

(** ** Where the code and its comments part *)

(** The idle evictor can unload a model that is pinned.  Its snapshot respects the
    pin set, its re-check under the lock does not: a model pinned while the evictor waits
    for the lock is unloaded, and since [set_pinned_models] found it loaded, no load is
    started for it either: it is pinned, not resident and not loading. *)
Theorem idle_evictor_ignores_new_pin :
  let P := ex_params ["gpu"%string] in
  let r0 := run_op P quiet_env (OLoad "a" "gpu") ex_reg in
  let r1 := (idle_snapshot quiet_env f0 r0).2 in
  let r2 := run_op P quiet_env (OAside (ASetPinned ["a"%string])) r1 in
  let r3 := run_op P quiet_env (OIdleEvict f0 ["a"%string]) r2 in
  (idle_snapshot quiet_env f0 r0).1 = Ret ["a"%string] ∧
  protects (pinned_models r2) "a" ∧ device_of r2 "a" = Some "gpu"%string ∧
  device_of r3 "a" = None ∧ is_pinned (pinned_models r3) "a" = true ∧
  "a"%string ∉ loading r3 ∧ tasks r3 = [].
Proof.
  intros P r0 r1 r2 r3. split; [vm_compute; reflexivity|]. split.
  { split; apply (bool_decide_eq_true_1 _); vm_compute; reflexivity. }
  split; [vm_compute; reflexivity|]. split; [vm_compute; reflexivity|].
  split; [vm_compute; reflexivity|]. split; [|vm_compute; reflexivity].
  apply (bool_decide_eq_true_1 _). vm_compute. reflexivity.
Qed.

(** A successful direct [load_async] keeps the record of an earlier failed background
    load: the model is loaded and reported as failed, and once it is unloaded the next
    request is refused although the last load succeeded. *)
Lemma direct_load_keeps_failure :
  let P := ex_params ["gpu"%string] in
  let gated := mkExc "GatedModelError" [GatedModelError] "gated" "" in
  let r0 := (finish_background P quiet_env "a" (Raise (PyExc gated)) ex_reg).2 in
  let r1 := run_op P quiet_env (OLoad "a" "gpu") r0 in
  let r2 := run_op P quiet_env (OUnload "a") r1 in
  device_of r1 "a" = Some "gpu"%string ∧ (is_failed quiet_env "a" r1).1 = Ret true ∧
  (start_load_async P quiet_env "a" "gpu" r2).1 = Ret false.
Proof. vm_compute. auto. Qed.

(** The synchronous [unload] leaves a ghost when the adapter raises, and every later
    synchronous load that has to evict then fails on it. *)
Lemma sync_unload_leaves_ghost :
  let P := ex_params ["gpu"%string] in
  let r0 := run_op P quiet_env (OLoad "a" "gpu") ex_reg in
  let r1 := (unload P teardown_fails "a" "manual" r0).2 in
  device_of r1 "a" = None ∧ "a"%string ∈ Memory.loaded_models (the_manager P "gpu" r1) ∧
  (load P pressured_env "b" "gpu" r1).1 = Raise (PyExc (ERR_MODEL_NOT_LOADED "a")).
Proof.
  intros P r0 r1. split; [vm_compute; reflexivity|]. split; [|vm_compute; reflexivity].
  apply (bool_decide_eq_true_1 _). vm_compute. reflexivity.
Qed.

End RegistryPolicy.
