(* ===== verification/PyText.v ===== *)
(** Python text as a list of characters, for code that cuts it: [str.find] and slices.

    A text is a [list ascii]; [s[:i]] and [s[i:]] are [take] and [drop].  The lemmas say
    where the first occurrence of a pattern is when the text grows at its end, and when a
    part of it that has no occurrence is dropped. *)

From Stdlib Require Import Ascii.
From S2P Require Import Prelude PyStr.

Definition text := list ascii.

Definition to_text (s : string) : text := String.list_ascii_of_string s.
Definition of_text (t : text) : string := String.string_of_list_ascii t.

(** [s.startswith(sub)] *)
Fixpoint startswith (sub s : text) : bool :=
  match sub, s with
  | [], _ => true
  | a :: sub', b :: s' => bool_decide (a = b) && startswith sub' s'
  | _ :: _, [] => false
  end.

(** [s.find(sub)], [None] for -1 *)
Fixpoint find (sub s : text) : option nat :=
  if startswith sub s then Some O
  else match s with
       | [] => None
       | _ :: s' => S <$> find sub s'
       end.

(** [sub in s] *)
Definition contains (sub s : text) : bool :=
  match find sub s with Some _ => true | None => false end.

(** [s.lstrip()], [s.rstrip()], [s.strip()] *)
Fixpoint tlstrip (s : text) : text :=
  match s with
  | [] => []
  | a :: s' => if is_space a then tlstrip s' else s
  end.
Definition tstrip (s : text) : text := reverse (tlstrip (reverse (tlstrip s))).

(** ** Occurrences *)

Lemma startswith_prefix sub s : startswith sub s = true ↔ sub `prefix_of` s.
Proof.
  revert s. induction sub as [|a sub IH]; intros [|b s]; cbn.
  - split; [intros; apply prefix_nil|done].
  - split; [intros; apply prefix_nil|done].
  - split; [done|]. intros H%prefix_length. cbn in H. lia.
  - rewrite andb_true_iff, bool_decide_eq_true, IH. split.
    + intros [-> ?]. by apply prefix_cons.
    + intros H. split; [by eapply prefix_cons_inv_1|by eapply prefix_cons_inv_2].
Qed.

Lemma find_Some sub s i :
  find sub s = Some i → sub `prefix_of` drop i s ∧ ∀ j, (j < i)%nat → ¬ sub `prefix_of` drop j s.
Proof.
  revert i. induction s as [|a s IH]; intros i; cbn.
  - destruct (startswith sub []) eqn:E; [|done]. intros [= <-]. apply startswith_prefix in E.
    split; [done|]. intros; lia.
  - destruct (startswith sub (a :: s)) eqn:E.
    + intros [= <-]. apply startswith_prefix in E. split; [done|]. intros; lia.
    + intros (i' & Hi & ->)%fmap_Some. destruct (IH i' Hi) as [Hp Hn]. split; [done|].
      intros [|j] Hj; cbn; [|apply Hn; lia]. rewrite <- startswith_prefix. by rewrite E.
Qed.

Lemma find_None sub s i : find sub s = None → ¬ sub `prefix_of` drop i s.
Proof.
  revert i. induction s as [|a s IH]; intros i; cbn.
  - destruct (startswith sub []) eqn:E; [done|]. intros _. rewrite drop_nil, <- startswith_prefix. by rewrite E.
  - destruct (startswith sub (a :: s)) eqn:E; [done|]. intros H%fmap_None.
    destruct i as [|i]; cbn; [rewrite <- startswith_prefix; by rewrite E|by apply IH].
Qed.

Lemma find_intro sub s i :
  sub `prefix_of` drop i s → (∀ j, (j < i)%nat → ¬ sub `prefix_of` drop j s) → find sub s = Some i.
Proof.
  intros Hp Hn. destruct (find sub s) as [i'|] eqn:E.
  - apply find_Some in E as [Hp' Hn']. f_equal.
    destruct (Nat.lt_trichotomy i i') as [Hlt|[->|Hlt]]; [|done|].
    + by destruct (Hn' i Hlt).
    + by destruct (Hn i' Hlt).
  - by destruct (find_None _ _ i E).
Qed.

Lemma find_None_intro sub s : (∀ j, ¬ sub `prefix_of` drop j s) → find sub s = None.
Proof. intros Hn. destruct (find sub s) as [i|] eqn:E; [|done]. apply find_Some in E as [? _]. by destruct (Hn i). Qed.

Lemma find_bound sub s i : find sub s = Some i → (i + length sub <= length s)%nat.
Proof.
  revert i. induction s as [|a s IH]; intros i; cbn.
  - destruct (startswith sub []) eqn:E; [|done]. intros [= <-]. apply startswith_prefix, prefix_length in E. cbn in *. lia.
  - destruct (startswith sub (a :: s)) eqn:E.
    + intros [= <-]. apply startswith_prefix, prefix_length in E. cbn in *. lia.
    + intros (i' & Hi & ->)%fmap_Some. apply IH in Hi. lia.
Qed.

(** The text at the first occurrence *)
Lemma find_split sub s i :
  find sub s = Some i → s = take i s ++ sub ++ drop (i + length sub) s.
Proof.
  intros E. pose proof (find_Some _ _ _ E) as [[k Hk] _].
  rewrite <- (take_drop i s) at 1. f_equal. rewrite Hk at 1. f_equal.
  rewrite <- drop_drop, Hk. by rewrite drop_app_length.
Qed.

Lemma prefix_inside (sub s d : text) j :
  (j + length sub <= length s)%nat → sub `prefix_of` drop j (s ++ d) → sub `prefix_of` drop j s.
Proof.
  intros Hl [k Hk]. rewrite drop_app_le in Hk by lia.
  exists (drop (length sub) (drop j s)).
  rewrite <- (take_drop (length sub) (drop j s)) at 1. f_equal.
  transitivity (take (length sub) (drop j s ++ d)).
  - rewrite take_app_le; [done|]. rewrite length_drop. lia.
  - rewrite Hk. by rewrite take_app_length.
Qed.

Lemma prefix_outside (sub s d : text) j :
  (j <= length s)%nat → sub `prefix_of` drop j s → sub `prefix_of` drop j (s ++ d).
Proof. intros Hl Hp. rewrite drop_app_le by lia. by apply prefix_app_r. Qed.

(** Text appended behind an occurrence does not move it. *)
Lemma find_app sub s d i : find sub s = Some i → find sub (s ++ d) = Some i.
Proof.
  intros E. pose proof (find_bound _ _ _ E). apply find_Some in E as [Hp Hn]. apply find_intro.
  - apply prefix_outside; [lia|done].
  - intros j Hj Hp'. apply (Hn j Hj). eapply prefix_inside; [|done]. lia.
Qed.

(** A part without occurrence can be dropped up to its last [length sub - 1] characters. *)
Lemma find_skip sub (a b d : text) :
  find sub (a ++ b) = None → (a = [] ∨ length sub <= S (length b))%nat →
  find sub (a ++ b ++ d) = Nat.add (length a) <$> find sub (b ++ d).
Proof.
  intros Hn [->|Hl]; [rewrite !app_nil_l; by destruct (find sub (b ++ d))|].
  assert (∀ j, (j < length a)%nat → ¬ sub `prefix_of` drop j (a ++ b ++ d)) as Hno.
  { intros j Hj Hp. apply (find_None _ _ j Hn). rewrite app_assoc in Hp.
    eapply prefix_inside; [|done]. rewrite length_app. lia. }
  assert (∀ j, drop (length a + j) (a ++ b ++ d) = drop j (b ++ d)) as Hd.
  { intros j. by rewrite <- drop_drop, drop_app_length. }
  destruct (find sub (b ++ d)) as [i|] eqn:E; cbn.
  - apply find_Some in E as [Hp Hn']. apply find_intro; [by rewrite Hd|].
    intros j Hj. destruct (decide (j < length a)%nat) as [|Hge]; [auto|].
    replace j with (length a + (j - length a))%nat by lia. rewrite Hd. apply Hn'. lia.
  - apply find_None_intro. intros j. destruct (decide (j < length a)%nat) as [|Hge]; [auto|].
    replace j with (length a + (j - length a))%nat by lia. rewrite Hd. by apply find_None.
Qed.

(** No occurrence in a text, none in a part of it. *)
Lemma find_None_app_l sub a b : find sub (a ++ b) = None → find sub a = None.
Proof.
  intros H. destruct (find sub a) as [i|] eqn:E; [|done].
  apply (find_app _ _ b) in E. congruence.
Qed.

(** A tag whose first character does not come back in it occurs first where it is put
    behind a text without it: a cut tag at the end of the text cannot be completed. *)
Lemma find_tag (a : ascii) (t s r : text) :
  a ∉ t → find (a :: t) s = None → find (a :: t) (s ++ (a :: t) ++ r) = Some (length s).
Proof.
  intros Ha Hn. apply find_intro.
  - rewrite drop_app_length. apply prefix_app_r. done.
  - intros j Hj Hp. destruct (decide (j + length (a :: t) <= length s)%nat) as [Hin|Hout].
    + apply (find_None _ _ j Hn). by eapply prefix_inside.
    + destruct Hp as [k Hk].
      assert ((s ++ (a :: t) ++ r) !! length s = Some a) as H1.
      { rewrite lookup_app_r by lia. by rewrite Nat.sub_diag. }
      assert (drop j (s ++ (a :: t) ++ r) !! (length s - j)%nat = Some a) as H2.
      { rewrite lookup_drop. replace (j + (length s - j))%nat with (length s) by lia. done. }
      rewrite Hk, lookup_app_l in H2 by (cbn in *; lia).
      destruct (length s - j)%nat as [|n] eqn:En; [lia|]. cbn in H2.
      apply Ha. by apply list_elem_of_lookup_2 in H2.
Qed.
