(* ===== verification/ToolCallParser.v ===== *)
(** The streaming tool-call parser, [processors/tool_call_parser.py].

    The parser turns the text deltas of a generation into text and tool-call deltas: what
    stands between [<tool_call>] and [</tool_call>] is a call, everything else is prose.  A
    tag may be cut anywhere by the chunking of the stream, so the parser holds back as many
    characters as could be the beginning of one.

    Texts are lists of ASCII characters.  [json.loads], [json.dumps] and the random call
    ids are parameters: nothing proved here depends on what they compute. *)

From Stdlib Require Import Ascii.
From stdpp Require Import pretty.
From S2P Require Import Prelude PyDict PyStr PyText.
Local Open Scope Z_scope.

Module ToolCalls.

Definition OPEN : text := Eval cbv in to_text "<tool_call>".
Definition CLOSE : text := Eval cbv in to_text "</tool_call>".
Definition PARSE_ERROR : string := "MODEL_OUTPUT_PARSE_ERROR".
Definition PARALLEL_TOOL_CALLS_VIOLATED : string := "parallel_tool_calls_violated".

Inductive ToolCallFormat := auto | qwen_xml | hermes_json.

Definition MAX_TOOL_BUFFER_CHARS : Z := 256 * 1024.
Definition MAX_TEXT_BUFFER_CHARS : Z := 256 * 1024.
Definition MAX_TOOL_ARGUMENTS_CHARS : Z := 64 * 1024.
Definition MAX_XML_PARAMS : nat := 256.

Definition len (s : text) : Z := Z.of_nat (length s).

(** ** Data *)

(** JSON values; a number is its lexeme. *)
Inductive json :=
| JNull
| JBool (b : bool)
| JNum (lexeme : text)
| JStr (s : text)
| JArr (l : list json)
| JObj (d : list (text * json)).

Record ToolCallDelta := mkDelta {
  tc_index : Z;
  tc_id : option text;
  tc_function_name : option text;
  tc_arguments_delta : text;
}.

(** A tool call in the non-streaming shape *)
Record ToolCall := mkCall {
  call_id : text;
  call_name : text;
  call_arguments : text;
}.

Record Candidate := mkCandidate {
  cand_text : text;
  cand_finish_reason : option string;
  cand_logprobs : option nat;
  cand_tool_calls : option (list ToolCall);
}.

(** [GenerationChunk]; the entries of the logprobs are opaque *)
Record GenerationChunk := mkChunk {
  text_delta : text;
  done : bool;
  is_first : bool;
  finish_reason : option string;
  prompt_tokens : option Z;
  completion_tokens : option Z;
  tool_call_delta : option ToolCallDelta;
  error_code : option string;
  error_message : option string;
  logprobs : option (list nat);
  candidates : list Candidate;
  choice_index : Z;
}.

Definition text_chunk (t : text) (first : bool) (ci : Z) : GenerationChunk :=
  mkChunk t false first None None None None None None None [] ci.
Definition call_chunk (d : ToolCallDelta) (ci : Z) : GenerationChunk :=
  mkChunk [] false false None None None (Some d) None None None [] ci.

(** [_parse_error_chunk], [_parallel_tool_calls_violation_chunk] *)
Definition parse_error_chunk (message : string) : GenerationChunk :=
  mkChunk [] true false (Some "error"%string) None None None (Some PARSE_ERROR) (Some message) None [] 0.
Definition parallel_violation_chunk : GenerationChunk :=
  mkChunk [] true false (Some "error"%string) None None None (Some PARALLEL_TOOL_CALLS_VIOLATED)
    (Some "model attempted a second tool call but parallel_tool_calls=false was set; refusing to silently drop additional calls"%string)
    None [] 0.

(** [_ChoiceState] *)
Record ChoiceState := mkState {
  text_buffer : text;
  in_tool_call : bool;
  tool_buffer : text;
  tool_index : Z;
  emitted_tool_call : bool;
  first_emitted : bool;
  pending_finish : option string;
  pending_prompt_tokens : option Z;
  pending_completion_tokens : option Z;
  closed : bool;
}.

Definition new_state : ChoiceState := mkState [] false [] 0 false false None None None false.

Definition set_text (t : text) (s : ChoiceState) : ChoiceState :=
  mkState t (in_tool_call s) (tool_buffer s) (tool_index s) (emitted_tool_call s) (first_emitted s)
    (pending_finish s) (pending_prompt_tokens s) (pending_completion_tokens s) (closed s).
Definition set_tool (b : bool) (t : text) (s : ChoiceState) : ChoiceState :=
  mkState (text_buffer s) b t (tool_index s) (emitted_tool_call s) (first_emitted s)
    (pending_finish s) (pending_prompt_tokens s) (pending_completion_tokens s) (closed s).
Definition set_first (b : bool) (s : ChoiceState) : ChoiceState :=
  mkState (text_buffer s) (in_tool_call s) (tool_buffer s) (tool_index s) (emitted_tool_call s) b
    (pending_finish s) (pending_prompt_tokens s) (pending_completion_tokens s) (closed s).
Definition set_pending (f : option string) (p c : option Z) (s : ChoiceState) : ChoiceState :=
  mkState (text_buffer s) (in_tool_call s) (tool_buffer s) (tool_index s) (emitted_tool_call s)
    (first_emitted s) f p c (closed s).
Definition set_closed (b : bool) (s : ChoiceState) : ChoiceState :=
  mkState (text_buffer s) (in_tool_call s) (tool_buffer s) (tool_index s) (emitted_tool_call s)
    (first_emitted s) (pending_finish s) (pending_prompt_tokens s) (pending_completion_tokens s) b.
(** The end of a call: one more call was emitted, the buffer is empty. *)
Definition end_call (s : ChoiceState) : ChoiceState :=
  mkState (text_buffer s) false [] (tool_index s + 1) true (first_emitted s)
    (pending_finish s) (pending_prompt_tokens s) (pending_completion_tokens s) (closed s).

(** [_mark_first]: the marker and the latched state *)
Definition mark_first (s : ChoiceState) (hint : bool) : bool * ChoiceState :=
  if first_emitted s || negb hint then (false, s) else (true, set_first true s).

Section parser.
Context (loads : text → res string json)     (* [json.loads]: error message on failure *)
        (dumps : json → text)                (* [json.dumps], compact *)
        (fresh_id : Z → text).               (* the random part of the id of the n-th call *)

(** ** The body of a call *)

(** [_parse_hermes_tool_call] *)
Definition parse_hermes (raw : text) : res string (json * json) :=
  match loads raw with
  | Raise msg => Raise ("malformed tool-call JSON: " +:+ msg)
  | Ret (JObj d) =>
      Ret (default JNull (dict_get (to_text "name") d), default JNull (dict_get (to_text "arguments") d))
  | Ret _ => Raise "tool-call payload must be a JSON object"%string
  end.

(** [([^>\s]+)\s*>] at the beginning of a text: the group and the rest after [>]. *)
Definition name_char (a : ascii) : bool := negb (bool_decide (a = ">"%char)) && negb (is_space a).

Fixpoint span_name (s : text) : text * text :=
  match s with
  | a :: s' => if name_char a then let '(n, r) := span_name s' in (a :: n, r) else ([], s)
  | [] => ([], [])
  end.

Definition match_opener (pre s : text) : option (text * text) :=
  if startswith pre s then
    match span_name (drop (length pre) s) with
    | ([], _) => None
    | (n, r) => match tlstrip r with
                | a :: r' => if bool_decide (a = ">"%char) then Some (n, r') else None
                | [] => None
                end
    end
  else None.

(** [RE.search(raw, pos)]: the leftmost match *)
Fixpoint search_opener (pre s : text) : option (text * text) :=
  match match_opener pre s with
  | Some m => Some m
  | None => match s with [] => None | _ :: s' => search_opener pre s' end
  end.

Definition FUNC : text := Eval cbv in to_text "<function=".
Definition PARAM : text := Eval cbv in to_text "<parameter=".
Definition PARAM_CLOSE : text := Eval cbv in to_text "</parameter>".

Definition coerce (val : text) : json :=
  match loads val with Ret j => j | Raise _ => JStr val end.

(** The scan for parameters; [fuel] is the cap [_MAX_XML_PARAMS]. *)
Fixpoint xml_params (fuel : nat) (s : text) (args : list (text * json)) : list (text * json) :=
  match fuel with
  | O => args
  | S fuel' =>
      match search_opener PARAM s with
      | None => args
      | Some (key, rest) =>
          match find PARAM_CLOSE rest with
          | None => args
          | Some i =>
              xml_params fuel' (drop (i + length PARAM_CLOSE) rest)
                (dict_set key (coerce (tstrip (take i rest))) args)
          end
      end
  end.

(** [_parse_xml_tool_call] *)
Definition parse_xml (raw : text) : res string (json * json) :=
  match search_opener FUNC raw with
  | None => Raise "malformed XML tool-call: missing <function=...>"%string
  | Some (name, _) => Ret (JStr name, JObj (xml_params MAX_XML_PARAMS raw []))
  end.

(** [_tool_call_deltas] *)
Definition tool_call_deltas (raw : text) (index : Z) (fmt : ToolCallFormat)
    : res string (list ToolCallDelta) :=
  let raw := tstrip raw in
  let parsed := match fmt with
                | qwen_xml => parse_xml raw
                | hermes_json => parse_hermes raw
                | auto => if startswith FUNC raw then parse_xml raw else parse_hermes raw
                end in
  match parsed with
  | Raise msg => Raise msg
  | Ret (JStr (a :: name), arguments) =>
      let arguments := match arguments with JNull => JObj [] | j => j end in
      let arguments_json := dumps arguments in
      if MAX_TOOL_ARGUMENTS_CHARS <? len arguments_json
      then Raise ("tool-call 'arguments' serialised to " +:+ pretty (len arguments_json)
                  +:+ " chars, exceeds 65536")
      else Ret [mkDelta index (Some (to_text "call_" ++ fresh_id index)) (Some (a :: name)) [];
                mkDelta index None None arguments_json]
  | Ret _ => Raise "tool-call payload missing string 'name'"%string
  end.

(** ** One delta of one candidate *)

Section process.
Context (fmt : ToolCallFormat) (parallel_tool_calls : bool) (ci : Z) (hint : bool).

(** The loop of [_process_text]; [rest] is [incoming[cursor:]]. *)
Fixpoint process_loop (fuel : nat) (st : ChoiceState) (rest : text)
    : ChoiceState * list GenerationChunk * bool :=
  match fuel with
  | O => (st, [], false)
  | S fuel' =>
      match rest with
      | [] => (st, [], false)
      | _ =>
          if in_tool_call st then
            match find CLOSE rest with
            | None =>
                let absorb := (length rest - (length CLOSE - 1))%nat in
                let st := set_tool true (tool_buffer st ++ take absorb rest) st in
                if MAX_TOOL_BUFFER_CHARS <? len (tool_buffer st) + (len rest - Z.of_nat absorb)
                then (st, [parse_error_chunk "unterminated <tool_call> block exceeded 262144 chars without a closing tag"], true)
                else (set_text (drop absorb rest) st, [], false)
            | Some i =>
                let st := set_tool true (tool_buffer st ++ take i rest) st in
                match tool_call_deltas (tool_buffer st) (tool_index st) fmt with
                | Raise msg => (st, [parse_error_chunk msg], true)
                | Ret deltas =>
                    let '(st', out, term) :=
                      process_loop fuel' (end_call st) (drop (i + length CLOSE) rest) in
                    (st', ((λ d, call_chunk d ci) <$> deltas) ++ out, term)
                end
            end
          else
            match find OPEN rest with
            | None =>
                let buf := text_buffer st ++ rest in
                let st := set_text buf st in
                if MAX_TEXT_BUFFER_CHARS <? len buf
                then (st, [parse_error_chunk "text buffer exceeded 262144 chars without producing a tool-call boundary"], true)
                else
                  let flush_len := (length buf - (length OPEN - 1))%nat in
                  if (0 <? flush_len)%nat then
                    let '(first, st) := mark_first st hint in
                    (set_text (drop flush_len buf) st, [text_chunk (take flush_len buf) first ci], false)
                  else (st, [], false)
            | Some i =>
                let buf := text_buffer st ++ take i rest in
                let '(st, out) :=
                  match buf with
                  | [] => (set_text [] st, [])
                  | _ => let '(first, st) := mark_first st hint in
                         (set_text [] st, [text_chunk buf first ci])
                  end in
                if negb parallel_tool_calls && emitted_tool_call st
                then (st, out ++ [parallel_violation_chunk], true)
                else
                  let '(st', out', term) :=
                    process_loop fuel' (set_tool true (tool_buffer st) st) (drop (i + length OPEN) rest) in
                  (st', out ++ out', term)
            end
      end
  end.

(** [_process_text] *)
Definition process_text (st : ChoiceState) (incoming : text)
    : ChoiceState * list GenerationChunk * bool :=
  match incoming with
  | [] => (st, [], false)
  | _ =>
      let incoming := text_buffer st ++ incoming in
      process_loop (S (length incoming)) (set_text [] st) incoming
  end.
End process.

(** ** The stream *)

(** [_close_choice] *)
Definition close_choice (st : ChoiceState) (ci : Z) (fallback_finish : option string)
    : ChoiceState * list GenerationChunk :=
  if in_tool_call st then (st, [parse_error_chunk "unterminated <tool_call> block"])
  else
    let '(st, out) :=
      match text_buffer st with
      | [] => (st, [])
      | t => let '(first, st) := mark_first st false in (set_text [] st, [text_chunk t first ci])
      end in
    let or a b := match a with Some x => Some x | None => b end in
    let finish := if emitted_tool_call st then "tool_calls"%string
                  else default "stop"%string (or (pending_finish st) fallback_finish) in
    (set_closed true st,
     out ++ [mkChunk [] false false (Some finish) (pending_prompt_tokens st)
               (pending_completion_tokens st) None None None None [] ci]).

(** [_parse_candidate_text]: the loop, on the rest of the text *)
Fixpoint candidate_loop (fuel : nat) (fmt : ToolCallFormat) (rest : text) (index : Z)
    : text * list ToolCall :=
  match fuel with
  | O => ([], [])
  | S fuel' =>
      match find OPEN rest with
      | None => (rest, [])
      | Some i =>
          let body_rest := drop (i + length OPEN) rest in
          match find CLOSE body_rest with
          | None => (take i rest ++ drop i rest, [])
          | Some j =>
              let after := drop (j + length CLOSE) body_rest in
              match tool_call_deltas (take j body_rest) index fmt with
              | Raise _ =>
                  let '(t, cs) := candidate_loop fuel' fmt after index in (take i rest ++ t, cs)
              | Ret deltas =>
                  let '(t, cs) := candidate_loop fuel' fmt after (index + 1) in
                  (take i rest ++ t,
                   match deltas with
                   | [announce; body_delta] =>
                       [mkCall (default [] (tc_id announce)) (default [] (tc_function_name announce))
                          (tc_arguments_delta body_delta)]
                   | _ => []
                   end ++ cs)
              end
          end
      end
  end.

Definition parse_candidate_text (t : text) (fmt : ToolCallFormat) : text * list ToolCall :=
  if contains OPEN t then candidate_loop (S (length t)) fmt t 0 else (t, []).

Definition parse_candidate (fmt : ToolCallFormat) (c : Candidate) : Candidate :=
  let '(t, calls) := parse_candidate_text (cand_text c) fmt in
  match calls with
  | [] => mkCandidate t (cand_finish_reason c) (cand_logprobs c) (cand_tool_calls c)
  | _ => mkCandidate t (Some "tool_calls"%string) (cand_logprobs c) (Some calls)
  end.

Definition has_calls (fmt : ToolCallFormat) (c : Candidate) : bool :=
  match (parse_candidate_text (cand_text c) fmt).2 with [] => false | _ => true end.

(** The terminal chunk with its candidates parsed *)
Definition parse_terminal (fmt : ToolCallFormat) (c : GenerationChunk) : GenerationChunk :=
  match candidates c with
  | [] => c
  | cs =>
      mkChunk (text_delta c) true (is_first c)
        (if existsb (has_calls fmt) cs then Some "tool_calls"%string else finish_reason c)
        (prompt_tokens c) (completion_tokens c) None None None (logprobs c)
        (parse_candidate fmt <$> cs) 0
  end.

Definition states := list (Z * ChoiceState).
Definition state_of (ss : states) (i : Z) : ChoiceState := default new_state (dict_get i ss).

(** Flushing the choices that are not closed; [None] when one is inside a call. *)
Fixpoint flush_open (hint : bool) (ss : states) : states * list GenerationChunk * bool :=
  match ss with
  | [] => ([], [], false)
  | (ci, st) :: rest =>
      if closed st then
        let '(ss', out, term) := flush_open hint rest in ((ci, st) :: ss', out, term)
      else if in_tool_call st then
        ((ci, st) :: rest, [parse_error_chunk "unterminated <tool_call> block"], true)
      else
        let '(st', out) :=
          match text_buffer st with
          | [] => (st, [])
          | t => let '(first, st) := mark_first st hint in (set_text [] st, [text_chunk t first ci])
          end in
        let '(ss', out', term) := flush_open hint rest in ((ci, st') :: ss', out ++ out', term)
  end.

Definition any_tool_call (ss : states) : bool := existsb (λ e, emitted_tool_call e.2) ss.

(** The handling of a chunk with [done=True] *)
Definition finish_stream (fmt : ToolCallFormat) (ss : states) (chunk : GenerationChunk)
    : list GenerationChunk :=
  let chunk := parse_terminal fmt chunk in
  let ss := match ss with [] => [(0, new_state)] | _ => ss end in
  let '(ss, out, term) := flush_open (is_first chunk) ss in
  if term then out
  else
    let global_finish :=
      match ss with
      | [(0, st)] => if emitted_tool_call st then Some "tool_calls"%string else finish_reason chunk
      | _ => finish_reason chunk
      end in
    let global_finish :=
      match global_finish with
      | Some f => f
      | None => if any_tool_call ss then "tool_calls"%string else "stop"%string
      end in
    let '(first, _) := mark_first (state_of ss 0) (is_first chunk) in
    out ++ [mkChunk [] true first (Some global_finish) (prompt_tokens chunk) (completion_tokens chunk)
              None None None None (candidates chunk) 0].

(** [_parse_tool_call_stream_impl]: the chunks it yields for the chunks it receives *)
Fixpoint parse_stream (fmt : ToolCallFormat) (parallel : bool) (ss : states)
    (chunks : list GenerationChunk) : list GenerationChunk :=
  match chunks with
  | [] =>
      let '(_, out, term) := flush_open false ss in
      if term then out
      else out ++ [mkChunk [] true false
                     (Some (if any_tool_call ss then "tool_calls" else "stop")%string)
                     None None None None None None [] 0]
  | chunk :: rest =>
      let ci := choice_index chunk in
      let st := state_of ss ci in
      let ss := dict_set ci st ss in
      let per_choice_finish := match finish_reason chunk with Some _ => negb (done chunk) | None => false end in
      let '(st, out, term) :=
        match text_delta chunk with
        | [] => (st, [], false)
        | t => process_text fmt parallel ci (is_first chunk) st t
        end in
      if term then out
      else
        let lp := match logprobs chunk with
                  | Some ((_ :: _) as l) => [mkChunk [] false false None None None None None None (Some l) [] ci]
                  | _ => []
                  end in
        let '(st, cl) :=
          if per_choice_finish
          then close_choice (set_pending (finish_reason chunk) (prompt_tokens chunk)
                               (completion_tokens chunk) st) ci (finish_reason chunk)
          else (st, []) in
        let ss := dict_set ci st ss in
        out ++ lp ++ cl ++
        (if done chunk then finish_stream fmt ss chunk else parse_stream fmt parallel ss rest)
  end.

(** ** The reference: a scanner that sees the whole text *)

(** What a client observes of a chunk: characters, tool-call deltas and error codes. *)
Inductive item := Chr (a : ascii) | Call (d : ToolCallDelta) | Err (code : string).

Definition items_of (c : GenerationChunk) : list item :=
  (Chr <$> text_delta c)
  ++ match tool_call_delta c with Some d => [Call d] | None => [] end
  ++ match error_code c with Some e => [Err e] | None => [] end.

Definition items (l : list GenerationChunk) : list item := mbind items_of l.

(** Between two boundaries the scanner is in prose or in a call, has seen so many calls. *)
Record scan_state := mkScan {
  sc_tool : bool;
  sc_index : Z;
  sc_emitted : bool;
}.

Section scan.
Context (fmt : ToolCallFormat) (parallel_tool_calls : bool).

(** The items up to the last boundary, and the state and text behind it; [None] when the
    stream ends with an error. *)
Fixpoint scan_loop (fuel : nat) (a : scan_state) (s : text) : list item * option (scan_state * text) :=
  match fuel with
  | O => ([], None)
  | S fuel' =>
      if sc_tool a then
        match find CLOSE s with
        | None => ([], Some (a, s))
        | Some i =>
            match tool_call_deltas (take i s) (sc_index a) fmt with
            | Raise _ => ([Err PARSE_ERROR], None)
            | Ret deltas =>
                let '(out, r) := scan_loop fuel' (mkScan false (sc_index a + 1) true)
                                   (drop (i + length CLOSE) s) in
                ((Call <$> deltas) ++ out, r)
            end
        end
      else
        match find OPEN s with
        | None => ([], Some (a, s))
        | Some i =>
            if negb parallel_tool_calls && sc_emitted a
            then ((Chr <$> take i s) ++ [Err PARALLEL_TOOL_CALLS_VIOLATED], None)
            else
              let '(out, r) := scan_loop fuel' (mkScan true (sc_index a) (sc_emitted a))
                                 (drop (i + length OPEN) s) in
              ((Chr <$> take i s) ++ out, r)
        end
  end.

Definition scan (a : scan_state) (s : text) : list item * option (scan_state * text) :=
  scan_loop (S (length s)) a s.

Definition scan_start : scan_state := mkScan false 0 false.

(** What a client gets for a complete text. *)
Definition scan_all (s : text) : list item :=
  let '(out, r) := scan scan_start s in
  out ++ match r with
         | Some (a, rest) => if sc_tool a then [Err PARSE_ERROR] else Chr <$> rest
         | None => []
         end.

Lemma length_OPEN : length OPEN = 11%nat.
Proof. reflexivity. Qed.
Lemma length_CLOSE : length CLOSE = 12%nat.
Proof. reflexivity. Qed.

Lemma scan_fuel f g a s :
  (length s < f)%nat → (length s < g)%nat → scan_loop f a s = scan_loop g a s.
Proof.
  revert g a s. induction f as [|f IH]; intros [|g] a s Hf Hg; try lia. cbn [scan_loop].
  destruct (sc_tool a).
  - destruct (find CLOSE s) as [i|] eqn:E; [|done].
    destruct (tool_call_deltas _ _ _) as [ds|]; [|done].
    rewrite (IH g); [done|..]; rewrite length_drop, length_CLOSE; apply find_bound in E; rewrite length_CLOSE in E; lia.
  - destruct (find OPEN s) as [i|] eqn:E; [|done]. destruct (negb _ && _); [done|].
    rewrite (IH g); [done|..]; rewrite length_drop, length_OPEN; apply find_bound in E; rewrite length_OPEN in E; lia.
Qed.

(** What the scanner has decided about a text stays when more text comes. *)
Lemma scan_loop_app f g a s d :
  (length s < f)%nat → (length (s ++ d) < g)%nat →
  scan_loop g a (s ++ d) =
    let '(out, r) := scan_loop f a s in
    match r with
    | None => (out, None)
    | Some (a', rest) => let '(out', r') := scan a' (rest ++ d) in (out ++ out', r')
    end.
Proof.
  revert g a s. induction f as [|f IH]; intros [|g] a s Hf Hg; try lia. cbn [scan_loop].
  destruct (sc_tool a) eqn:Et.
  - destruct (find CLOSE s) as [i|] eqn:E.
    + pose proof (find_bound _ _ _ E) as Hb. rewrite length_CLOSE in Hb.
      rewrite (find_app _ _ d _ E), take_app_le, drop_app_le by (rewrite ?length_CLOSE; lia).
      destruct (tool_call_deltas _ _ _) as [ds|]; [|done].
      rewrite (IH g); [|rewrite length_drop, length_CLOSE; lia|
        rewrite length_app in Hg |- *; rewrite length_drop, length_CLOSE; lia].
      destruct (scan_loop f _ _) as [out [[a' rest]|]]; [|done].
      destruct (scan a' (rest ++ d)) as [out' r']. by rewrite app_assoc.
    + unfold scan. transitivity (scan_loop (S g) a (s ++ d)); [cbn [scan_loop]; by rewrite Et|].
      rewrite (scan_fuel (S g) (S (length (s ++ d)))) by lia.
      by destruct (scan_loop (S (length (s ++ d))) a (s ++ d)).
  - destruct (find OPEN s) as [i|] eqn:E.
    + pose proof (find_bound _ _ _ E) as Hb. rewrite length_OPEN in Hb.
      rewrite (find_app _ _ d _ E), take_app_le, drop_app_le by (rewrite ?length_OPEN; lia).
      destruct (negb _ && _); [done|].
      rewrite (IH g); [|rewrite length_drop, length_OPEN; lia|
        rewrite length_app in Hg |- *; rewrite length_drop, length_OPEN; lia].
      destruct (scan_loop f _ _) as [out [[a' rest]|]]; [|done].
      destruct (scan a' (rest ++ d)) as [out' r']. by rewrite app_assoc.
    + unfold scan. transitivity (scan_loop (S g) a (s ++ d)); [cbn [scan_loop]; by rewrite Et|].
      rewrite (scan_fuel (S g) (S (length (s ++ d)))) by lia.
      by destruct (scan_loop (S (length (s ++ d))) a (s ++ d)).
Qed.

Lemma scan_app a s d :
  scan a (s ++ d) =
    let '(out, r) := scan a s in
    match r with
    | None => (out, None)
    | Some (a', rest) => let '(out', r') := scan a' (rest ++ d) in (out ++ out', r')
    end.
Proof. apply scan_loop_app; lia. Qed.

(** ** The streaming parser follows the scanner *)

(** A parser state stands for a scanner state and the text [seg] behind the last boundary.
    In prose, the part [flushed] of [seg] has been emitted and the rest is held back; in a
    call, [seg] is in the two buffers.  Enough is held back for a cut tag. *)
Definition sim (st : ChoiceState) (a : scan_state) (flushed seg : text) : Prop :=
  in_tool_call st = sc_tool a ∧ tool_index st = sc_index a ∧ emitted_tool_call st = sc_emitted a ∧
  if sc_tool a
  then flushed = [] ∧ seg = tool_buffer st ++ text_buffer st ∧ find CLOSE seg = None ∧
       (tool_buffer st = [] ∨ (11 <= length (text_buffer st))%nat)
  else tool_buffer st = [] ∧ seg = flushed ++ text_buffer st ∧ find OPEN seg = None ∧
       (flushed = [] ∨ (10 <= length (text_buffer st))%nat).

Definition follows (flushed : text) (r : ChoiceState * list GenerationChunk * bool)
    (ref : list item * option (scan_state * text)) : Prop :=
  let '(st', out, term) := r in
  match ref.2 with
  | None => term = true ∧ (Chr <$> flushed) ++ items out = ref.1
  | Some (a', seg') => term = false ∧
      ∃ flushed', sim st' a' flushed' seg' ∧ (Chr <$> flushed) ++ items out = ref.1 ++ (Chr <$> flushed')
  end.

Lemma items_app l1 l2 : items (l1 ++ l2) = items l1 ++ items l2.
Proof. apply bind_app. Qed.

Lemma items_text t b ci : items [text_chunk t b ci] = Chr <$> t.
Proof. unfold items. cbn. by rewrite !app_nil_r. Qed.

Lemma items_calls ds ci : items ((λ d, call_chunk d ci) <$> ds) = Call <$> ds.
Proof. induction ds as [|d ds IH]; [done|]. cbn in *. by f_equal. Qed.

(** A step of the parser that emits [out] before it goes on. *)
Lemma follows_cons flushed pre out0 st' out term (ref : list item * option (scan_state * text)) :
  (Chr <$> flushed) ++ items out0 = pre →
  follows [] (st', out, term) ref →
  follows flushed (st', out0 ++ out, term) (pre ++ ref.1, ref.2).
Proof.
  intros <-. unfold follows. destruct ref as [o [[a' seg']|]]; cbn.
  - intros [-> (f' & Hs & He)]. split; [done|]. exists f'. split; [done|].
    rewrite items_app, app_assoc, He. by rewrite app_assoc.
  - intros [-> He]. split; [done|]. rewrite items_app, app_assoc. by rewrite He.
Qed.

Lemma mark_first_fields st hint :
  let '(_, st') := mark_first st hint in
  text_buffer st' = text_buffer st ∧ in_tool_call st' = in_tool_call st ∧
  tool_buffer st' = tool_buffer st ∧ tool_index st' = tool_index st ∧
  emitted_tool_call st' = emitted_tool_call st.
Proof. unfold mark_first. by destruct (first_emitted st || negb hint). Qed.

(** What is in front of the loop: the text [before] the rest, already in a buffer or
    already emitted, does not contain the tag and leaves no room for a cut one. *)
Definition ready (tag before rest : text) : Prop :=
  find tag (before ++ rest) = Nat.add (length before) <$> find tag rest ∧
  (before = [] ∨ (length tag <= S (length rest))%nat).

Lemma ready_nil tag rest : ready tag [] rest.
Proof. split; [|by left]. rewrite app_nil_l. by destruct (find tag rest). Qed.

Lemma take_drop_before {A} (before rest : list A) i n :
  take (length before + i) (before ++ rest) = before ++ take i rest ∧
  drop (length before + i + n) (before ++ rest) = drop (i + n) rest.
Proof.
  split; [by rewrite take_app_add|]. rewrite <- Nat.add_assoc. by rewrite drop_app_add.
Qed.

(** No closing tag yet: the call absorbs the text but for its last eleven characters. *)
Lemma absorb_sim st a rest :
  in_tool_call st = true → sc_tool a = true → tool_index st = sc_index a →
  emitted_tool_call st = sc_emitted a → ready CLOSE (tool_buffer st) rest → find CLOSE rest = None →
  let n := (length rest - (length CLOSE - 1))%nat in
  sim (set_text (drop n rest) (set_tool true (tool_buffer st ++ take n rest) st)) a []
      (tool_buffer st ++ rest).
Proof.
  intros Hin Ha Hi He [Hr Hb] Hf n. unfold sim. rewrite Ha. cbn [in_tool_call set_text set_tool tool_index
    emitted_tool_call tool_buffer text_buffer]. split; [done|]. split; [done|]. split; [done|].
  split; [done|]. split; [by rewrite <- app_assoc, take_drop|]. split; [by rewrite Hr, Hf|].
  rewrite length_drop. subst n. rewrite length_CLOSE in *.
  destruct (decide (11 <= length rest)%nat) as [|Hlt]; [right; lia|left].
  replace (length rest - (12 - 1))%nat with 0%nat by lia. cbn. rewrite app_nil_r.
  destruct Hb as [->|Hb]; [done|lia].
Qed.

(** No opening tag yet: the prose is emitted but for its last ten characters. *)
Lemma flush_sim st' a flushed rest :
  in_tool_call st' = false → sc_tool a = false → tool_index st' = sc_index a →
  emitted_tool_call st' = sc_emitted a → tool_buffer st' = [] →
  ready OPEN flushed rest → find OPEN rest = None →
  let n := (length rest - (length OPEN - 1))%nat in
  sim (set_text (drop n rest) st') a (flushed ++ take n rest) (flushed ++ rest).
Proof.
  intros Hin Ha Hi He Ht [Hr Hb] Hf n. unfold sim. rewrite Ha. cbn [in_tool_call set_text tool_index
    emitted_tool_call tool_buffer text_buffer]. split; [done|]. split; [done|]. split; [done|].
  split; [done|]. split; [by rewrite <- app_assoc, take_drop|]. split; [by rewrite Hr, Hf|].
  rewrite length_drop. subst n. rewrite length_OPEN in *.
  destruct (decide (10 <= length rest)%nat) as [|Hlt]; [right; lia|left].
  replace (length rest - (11 - 1))%nat with 0%nat by lia. cbn. rewrite app_nil_r.
  destruct Hb as [->|Hb]; [done|lia].
Qed.

(** The loop between two tags *)
Record loop_pre (fuel g : nat) (st : ChoiceState) (a : scan_state) (flushed rest : text) : Prop := {
  lp_fuel : (length rest < fuel)%nat;
  lp_scan : (length (flushed ++ tool_buffer st ++ rest) < g)%nat;
  lp_max : len (flushed ++ tool_buffer st ++ rest) <= MAX_TEXT_BUFFER_CHARS;
  lp_text : text_buffer st = [];
  lp_tool : in_tool_call st = sc_tool a;
  lp_index : tool_index st = sc_index a;
  lp_emitted : emitted_tool_call st = sc_emitted a;
  lp_ready : if sc_tool a then flushed = [] ∧ ready CLOSE (tool_buffer st) rest
             else tool_buffer st = [] ∧ ready OPEN flushed rest;
}.

Definition loop_ok (ci : Z) (hint : bool) (fuel : nat) : Prop :=
  ∀ g st a flushed rest, loop_pre fuel g st a flushed rest →
  follows flushed (process_loop fmt parallel_tool_calls ci hint fuel st rest)
    (scan_loop g a (flushed ++ tool_buffer st ++ rest)).

(** A new segment starts behind a tag. *)
Lemma loop_pre_next fuel g st a rest :
  (length rest < fuel)%nat → (length rest < g)%nat → len rest <= MAX_TEXT_BUFFER_CHARS →
  text_buffer st = [] → tool_buffer st = [] → in_tool_call st = sc_tool a →
  tool_index st = sc_index a → emitted_tool_call st = sc_emitted a →
  loop_pre fuel g st a [] rest.
Proof.
  intros. constructor; rewrite ?app_nil_l; try done; [by rewrite H3..|].
  destruct (sc_tool a); split; try done; rewrite ?H3; apply ready_nil.
Qed.

Lemma loop_tool ci hint fuel g st a flushed rest :
  loop_ok ci hint fuel → sc_tool a = true → loop_pre (S fuel) (S g) st a flushed rest →
  follows flushed (process_loop fmt parallel_tool_calls ci hint (S fuel) st rest)
    (scan_loop (S g) a (flushed ++ tool_buffer st ++ rest)).
Proof.
  intros IH Ha [Hf Hg Hmax Htb Hin Hi He Hr]. rewrite Ha in Hin, Hr. destruct Hr as [-> Hr].
  rewrite app_nil_l in *. destruct rest as [|c rest'].
  { assert (tool_buffer st = []) as Hb by (destruct Hr as [_ [|Hl]]; [done|rewrite length_CLOSE in Hl; cbn in Hl; lia]).
    rewrite Hb. cbn. rewrite Ha. cbn. split; [done|]. exists []. split; [|done].
    unfold sim. rewrite Ha, Hb, Htb. repeat split; auto. }
  cbn [process_loop scan_loop]. set (rest := c :: rest') in *. clearbody rest. rewrite Hin, Ha, (proj1 Hr).
  unfold len in Hmax. rewrite !length_app in *.
  destruct (find CLOSE rest) as [i|] eqn:E; cbn [fmap option_fmap option_map].
  - destruct (take_drop_before (tool_buffer st) rest i (length CLOSE)) as [-> ->].
    cbn [tool_buffer set_tool tool_index]. rewrite Hi.
    destruct (tool_call_deltas _ _ _) as [ds|msg]; [|done].
    pose proof (find_bound _ _ _ E) as Hb. rewrite length_CLOSE in Hb.
    set (st1 := end_call _). set (a1 := mkScan _ _ _). set (rest1 := drop _ rest).
    assert (length rest1 <= length rest - 12)%nat as Hl1 by (unfold rest1; rewrite length_drop, length_CLOSE; lia).
    assert (follows [] (process_loop fmt parallel_tool_calls ci hint fuel st1 rest1) (scan_loop g a1 rest1)) as H1.
    { apply (IH g st1 a1 [] rest1). apply loop_pre_next; try done; unfold len; try lia. cbn. by rewrite Hi. }
    destruct (process_loop fmt _ ci hint fuel st1 rest1) as [[st' out] term].
    destruct (scan_loop g a1 rest1) as [oref rref].
    by apply (follows_cons [] (Call <$> ds) _ _ _ _ (oref, rref)); [apply items_calls|].
  - cbn [tool_buffer set_tool]. unfold len. rewrite !length_app, length_take.
    match goal with |- context [MAX_TOOL_BUFFER_CHARS <? ?x] => destruct (Z.ltb_spec MAX_TOOL_BUFFER_CHARS x) as [Hlt|_] end.
    { unfold MAX_TOOL_BUFFER_CHARS, MAX_TEXT_BUFFER_CHARS in *. lia. }
    cbn. split; [done|]. exists []. split; [|done]. by apply absorb_sim.
Qed.

Lemma loop_text ci hint fuel g st a flushed rest :
  loop_ok ci hint fuel → sc_tool a = false → loop_pre (S fuel) (S g) st a flushed rest →
  follows flushed (process_loop fmt parallel_tool_calls ci hint (S fuel) st rest)
    (scan_loop (S g) a (flushed ++ tool_buffer st ++ rest)).
Proof.
  intros IH Ha [Hf Hg Hmax Htb Hin Hi He Hr]. rewrite Ha in Hin, Hr. destruct Hr as [Hb Hr].
  rewrite Hb, app_nil_l in *. destruct rest as [|c rest'].
  { assert (flushed = []) as -> by (destruct Hr as [_ [|Hl]]; [done|rewrite length_OPEN in Hl; cbn in Hl; lia]).
    cbn. rewrite Ha. cbn. split; [done|]. exists []. split; [|done].
    unfold sim. rewrite Ha, Hb, Htb. repeat split; auto. }
  cbn [process_loop scan_loop]. set (rest := c :: rest') in *. clearbody rest.
  rewrite Hin, Ha, (proj1 Hr), Htb. unfold len in Hmax. rewrite length_app in Hg, Hmax.
  destruct (find OPEN rest) as [i|] eqn:E; cbn [fmap option_fmap option_map].
  - destruct (take_drop_before flushed rest i (length OPEN)) as [-> ->].
    pose proof (find_bound _ _ _ E) as Hbd. rewrite length_OPEN in Hbd. rewrite !app_nil_l.
    assert (∃ st1 out0, (match take i rest with
        | [] => (set_text [] st, [])
        | _ :: _ => let '(first, st0) := mark_first st hint in
                    (set_text [] st0, [text_chunk (take i rest) first ci]) end) = (st1, out0) ∧
      items out0 = Chr <$> take i rest ∧ text_buffer st1 = [] ∧ tool_buffer st1 = [] ∧
      tool_index st1 = sc_index a ∧ emitted_tool_call st1 = sc_emitted a) as (st1 & out0 & -> & Ho & Ht1 & Hb1 & Hi1 & He1).
    { pose proof (mark_first_fields st hint) as Hm. destruct (mark_first st hint) as [first st0].
      destruct Hm as (_ & _ & Hm2 & Hm3 & Hm4). destruct (take i rest) as [|x t] eqn:Et.
      - eexists _, _. repeat split; auto.
      - eexists _, _. split; [done|]. rewrite items_text. cbn. rewrite Hm2, Hm3, Hm4. auto. }
    rewrite He1. destruct (negb parallel_tool_calls && sc_emitted a) eqn:Ev.
    { cbn. split; [done|]. rewrite items_app, app_assoc, Ho, fmap_app. done. }
    set (st2 := set_tool _ _ st1). set (a1 := mkScan _ _ _). set (rest1 := drop _ rest).
    assert (length rest1 <= length rest - 11)%nat as Hl1 by (unfold rest1; rewrite length_drop, length_OPEN; lia).
    assert (follows [] (process_loop fmt parallel_tool_calls ci hint fuel st2 rest1) (scan_loop g a1 rest1)) as H1.
    { replace rest1 with ([] ++ tool_buffer st2 ++ rest1) at 2 by (cbn; by rewrite Hb1).
      apply (IH g st2 a1 [] rest1). apply loop_pre_next; try done; unfold len; lia. }
    destruct (process_loop fmt _ ci hint fuel st2 rest1) as [[st' out] term].
    destruct (scan_loop g a1 rest1) as [oref rref].
    apply (follows_cons flushed (Chr <$> flushed ++ take i rest) _ _ _ _ (oref, rref)); [|done].
    by rewrite Ho, fmap_app.
  - rewrite !app_nil_l. unfold len. destruct (Z.ltb_spec MAX_TEXT_BUFFER_CHARS (Z.of_nat (length rest))) as [Hlt|_]; [lia|].
    pose proof (mark_first_fields (set_text rest st) hint) as Hm.
    destruct (mark_first (set_text rest st) hint) as [first st0]. destruct Hm as (_ & Hm1 & Hm2 & Hm3 & Hm4).
    destruct (Nat.ltb_spec 0 (length rest - (length OPEN - 1))) as [Hn|Hn].
    + split; [done|]. exists (flushed ++ take (length rest - (length OPEN - 1)) rest). split.
      * apply flush_sim; try done; [by rewrite Hm1|by rewrite Hm3|by rewrite Hm4|by rewrite Hm2].
      * rewrite items_text. by rewrite fmap_app.
    + cbn. split; [done|]. exists flushed. split; [|by rewrite app_nil_r].
      pose proof (flush_sim (set_text rest st) a flushed rest) as Hs. cbn zeta in Hs.
      replace (length rest - (length OPEN - 1))%nat with 0%nat in Hs by lia.
      rewrite take_0, drop_0, app_nil_r in Hs. by apply Hs.
Qed.

Lemma process_loop_follows ci hint fuel : loop_ok ci hint fuel.
Proof.
  induction fuel as [|fuel IH]; intros [|g] st a flushed rest Hp.
  - destruct Hp; lia.
  - destruct Hp; lia.
  - destruct Hp; lia.
  - destruct (sc_tool a) eqn:Ha; [by apply loop_tool|by apply loop_text].
Qed.

Lemma process_text_follows ci hint st a flushed seg d :
  sim st a flushed seg → len (seg ++ d) <= MAX_TEXT_BUFFER_CHARS →
  follows flushed (process_text fmt parallel_tool_calls ci hint st d) (scan a (seg ++ d)).
Proof.
  intros Hs Hmax. destruct d as [|c d'].
  - rewrite app_nil_r. pose proof Hs as (_ & _ & _ & Hm). unfold scan. cbn [scan_loop process_text].
    destruct (sc_tool a); destruct Hm as (_ & _ & -> & _); (split; [done|]); exists flushed; cbn;
      by rewrite app_nil_r.
  - cbn [process_text]. set (d := c :: d') in *. clearbody d. destruct Hs as (Hin & Hi & He & Hm).
    assert (flushed ++ tool_buffer (set_text [] st) ++ text_buffer st ++ d = seg ++ d) as Heq.
    { cbn. destruct (sc_tool a); [destruct Hm as (-> & -> & _)|destruct Hm as (-> & -> & _)];
        rewrite ?app_nil_l, <- ?app_assoc; done. }
    rewrite <- Heq. apply process_loop_follows. constructor; rewrite ?Heq; try done; [lia|lia|].
    cbn. destruct (sc_tool a).
    + destruct Hm as (-> & -> & Hf & Hb). split; [done|]. split.
      * apply find_skip; [done|]. rewrite length_CLOSE. destruct Hb; [by left|right; lia].
      * destruct Hb as [|Hb]; [by left|right]. rewrite length_app, length_CLOSE. lia.
    + destruct Hm as (Ht & -> & Hf & Hb). split; [done|]. split.
      * apply find_skip; [done|]. rewrite length_OPEN. destruct Hb; [by left|right; lia].
      * destruct Hb as [|Hb]; [by left|right]. rewrite length_app, length_OPEN. lia.
Qed.

(** ** Whole streams of one candidate *)

(** A chunk of an ordinary single-candidate stream. *)
Definition plain (c : GenerationChunk) : Prop :=
  choice_index c = 0 ∧ logprobs c = None ∧ candidates c = [] ∧
  (done c = false → finish_reason c = None).

(** The text of the stream, up to its terminal. *)
Fixpoint stream_text (chunks : list GenerationChunk) : text :=
  match chunks with
  | [] => []
  | c :: rest => text_delta c ++ (if done c then [] else stream_text rest)
  end.

(** What follows a scan at the end of the stream. *)
Definition scan_end (ref : list item * option (scan_state * text)) : list item :=
  ref.1 ++ match ref.2 with
           | Some (a, rest) => if sc_tool a then [Err PARSE_ERROR] else Chr <$> rest
           | None => []
           end.

Lemma flush_items hint st a flushed seg :
  sim st a flushed seg → closed st = false →
  let '(ss', out, term) := flush_open hint [(0, st)] in
  term = sc_tool a ∧ (∃ st', ss' = [(0, st')]) ∧
  (Chr <$> flushed) ++ items out = (if sc_tool a then [Err PARSE_ERROR] else Chr <$> seg).
Proof.
  intros (Hin & _ & _ & Hm) Hc. cbn [flush_open]. rewrite Hc, Hin. destruct (sc_tool a).
  - destruct Hm as (-> & _). split; [done|]. split; [eauto|done].
  - destruct Hm as (_ & -> & _). pose proof (mark_first_fields st hint) as Hf.
    destruct (mark_first st hint) as [first st0]. destruct (text_buffer st) as [|c t].
    + split; [done|]. split; [eauto|]. by rewrite !app_nil_r.
    + split; [done|]. split; [eauto|]. rewrite app_nil_r, items_text. by rewrite fmap_app.
Qed.

Lemma process_text_closed ci hint st d :
  let '(st', _, _) := process_text fmt parallel_tool_calls ci hint st d in closed st' = closed st.
Proof.
  assert (∀ fuel st rest, let '(st', _, _) := process_loop fmt parallel_tool_calls ci hint fuel st rest in
    closed st' = closed st) as Hl.
  { intros fuel. induction fuel as [|fuel IH]; intros st0 rest; [done|]. cbn [process_loop].
    destruct rest as [|c rest']; [done|]. set (rest := c :: rest'). destruct (in_tool_call st0).
    - destruct (find CLOSE rest) as [i|]; [|by destruct (_ <? _)].
      destruct (tool_call_deltas _ _ _) as [ds|]; [|done].
      match goal with |- context [process_loop _ _ _ _ fuel ?x ?y] => specialize (IH x y);
        destruct (process_loop fmt parallel_tool_calls ci hint fuel x y) as [[? ?] ?] end. done.
    - assert (∀ st1, closed (mark_first st1 hint).2 = closed st1) as Hm.
      { intros st1. unfold mark_first. by destruct (_ || _). }
      destruct (find OPEN rest) as [i|].
      + match goal with |- context [let '(_, _) := ?m in _] => assert (closed m.1 = closed st0) as Hc;
          [|destruct m as [st1 out0]] end.
        { specialize (Hm st0). destruct (_ ++ take i rest); [done|]. by destruct (mark_first st0 hint). }
        cbn in Hc. destruct (negb _ && _); [done|].
        match goal with |- context [process_loop _ _ _ _ fuel ?x ?y] => specialize (IH x y);
          destruct (process_loop fmt parallel_tool_calls ci hint fuel x y) as [[? ?] ?] end.
        rewrite IH. done.
      + destruct (_ <? _); [done|]. destruct (0 <? _)%nat; [|done].
        specialize (Hm (set_text (text_buffer st0 ++ rest) st0)). by destruct (mark_first _ hint). }
  unfold process_text. destruct d; [done|]. apply (Hl _ (set_text [] st)).
Qed.

Lemma finish_stream_items st a flushed seg c :
  sim st a flushed seg → closed st = false → candidates c = [] →
  (Chr <$> flushed) ++ items (finish_stream fmt [(0, st)] c) =
  (if sc_tool a then [Err PARSE_ERROR] else Chr <$> seg).
Proof.
  intros Hs Hc Hcand. unfold finish_stream, parse_terminal. rewrite Hcand.
  pose proof (flush_items (is_first c) st a flushed seg Hs Hc) as Hf.
  destruct (flush_open (is_first c) [(0, st)]) as [[ss' out] term]. destruct Hf as (-> & [st' ->] & He).
  destruct (sc_tool a); [done|]. destruct (mark_first _ _) as [first ?].
  rewrite items_app, app_assoc, He. cbn. by rewrite app_nil_r.
Qed.

Lemma scan_rest_length f a s o a' seg' :
  scan_loop f a s = (o, Some (a', seg')) → (length seg' <= length s)%nat.
Proof.
  revert a s o. induction f as [|f IH]; intros a s o; [done|]. cbn [scan_loop]. destruct (sc_tool a).
  - destruct (find CLOSE s) as [i|]; [|by intros [= <- <- <-]].
    destruct (tool_call_deltas _ _ _); [|done].
    destruct (scan_loop f _ _) as [o' r'] eqn:E. intros [= _ ->]. apply IH in E.
    rewrite length_drop in E. lia.
  - destruct (find OPEN s) as [i|]; [|by intros [= <- <- <-]]. destruct (_ && _); [done|].
    destruct (scan_loop f _ _) as [o' r'] eqn:E. intros [= _ ->]. apply IH in E.
    rewrite length_drop in E. lia.
Qed.

(** A segment without its tag is scanned as it is. *)
Lemma scan_sim st a flushed seg : sim st a flushed seg → scan a seg = ([], Some (a, seg)).
Proof.
  intros (_ & _ & _ & Hm). unfold scan. cbn [scan_loop].
  destruct (sc_tool a); destruct Hm as (_ & _ & -> & _); done.
Qed.

Lemma parse_stream_items chunks ss st a flushed seg :
  Forall plain chunks → (ss = [(0, st)] ∨ (ss = [] ∧ st = new_state)) →
  closed st = false → sim st a flushed seg →
  len (seg ++ stream_text chunks) <= MAX_TEXT_BUFFER_CHARS →
  (Chr <$> flushed) ++ items (parse_stream fmt parallel_tool_calls ss chunks) =
  scan_end (scan a (seg ++ stream_text chunks)).
Proof.
  intros Hp. revert ss st a flushed seg.
  induction Hp as [|c chunks (Hci & Hlp & Hcand & Hfin) Hp IH]; intros ss st a flushed seg Hss Hcl Hs Hmax.
  - cbn [stream_text parse_stream]. rewrite app_nil_r, (scan_sim _ _ _ _ Hs). cbn.
    destruct Hss as [->|[-> ->]].
    + pose proof (flush_items false st a flushed seg Hs Hcl) as Hf.
      destruct (flush_open false [(0, st)]) as [[ss' out] term]. destruct Hf as (-> & _ & He).
      destruct (sc_tool a); [done|]. rewrite items_app, app_assoc, He. cbn. by rewrite app_nil_r.
    + destruct Hs as (Hin & _ & _ & Hm). cbn in Hin. rewrite <- Hin in *.
      destruct Hm as (_ & -> & _ & [->|Hl]); [done|cbn in Hl; lia].
  - cbn [parse_stream stream_text]. rewrite Hci, Hlp.
    assert (state_of ss 0 = st ∧ dict_set 0 st ss = [(0, st)]) as [-> ->]
      by (destruct Hss as [->|[-> ->]]; split; reflexivity).
    assert (match finish_reason c with Some _ => negb (done c) | None => false end = false) as ->.
    { destruct (done c); [by destruct (finish_reason c)|by rewrite Hfin]. }
    assert (match text_delta c with [] => (st, [], false)
      | x :: l => process_text fmt parallel_tool_calls 0 (is_first c) st (x :: l) end
      = process_text fmt parallel_tool_calls 0 (is_first c) st (text_delta c)) as -> by by destruct (text_delta c).
    cbn [stream_text] in Hmax. rewrite app_assoc in Hmax |- *. rewrite (scan_app a (seg ++ text_delta c)).
    unfold len in Hmax. rewrite length_app in Hmax.
    pose proof (process_text_closed 0 (is_first c) st (text_delta c)) as Hcl'.
    pose proof (process_text_follows 0 (is_first c) st a flushed seg (text_delta c) Hs) as Hf.
    destruct (process_text _ _ 0 (is_first c) st (text_delta c)) as [[st' out] term].
    destruct (scan a (seg ++ text_delta c)) as [o [[a' seg']|]] eqn:Esc;
      (destruct Hf as [-> Hf]; [unfold len; lia|]).
    2:{ etrans; [exact Hf|]. unfold scan_end. cbn. by rewrite app_nil_r. }
    destruct Hf as (flushed' & Hs' & He). cbn [app dict_set fst snd].
    change (dict_set 0 st' [(0, st)]) with [(0, st')].
    rewrite items_app, app_assoc, He, <- app_assoc. unfold scan in Esc. apply scan_rest_length in Esc.
    assert (∀ R, scan_end (let '(out', r') := R in (o ++ out', r')) = o ++ scan_end R) as Hend.
    { intros [o' r']. unfold scan_end. cbn. by rewrite app_assoc. }
    rewrite Hend. f_equal. destruct (done c) eqn:Ed.
    + rewrite app_nil_r, (scan_sim _ _ _ _ Hs'). apply finish_stream_items; [done|congruence|done].
    + apply (IH _ st'); [by left|congruence|done|]. unfold len. rewrite length_app. lia.
Qed.

End scan.

End parser.

Lemma parse_stream_scan loads dumps fresh_id fmt parallel (chunks : list GenerationChunk) :
  Forall plain chunks → len (stream_text chunks) <= MAX_TEXT_BUFFER_CHARS →
  items (parse_stream loads dumps fresh_id fmt parallel [] chunks) =
  scan_all loads dumps fresh_id fmt parallel (stream_text chunks).
Proof.
  intros Hp Hmax.
  assert (sim new_state scan_start [] []) as Hs by (repeat split; by left).
  pose proof (parse_stream_items loads dumps fresh_id fmt parallel chunks [] new_state scan_start [] []
    Hp (or_intror (conj eq_refl eq_refl)) eq_refl Hs Hmax) as H.
  cbn [fmap list_fmap app] in H. rewrite H. unfold scan_all, scan_end.
  by destruct (scan _ _ _ _ _ scan_start _) as [o r].
Qed.

(** C14 — within the parser's buffer cap the streaming parser is the one-pass scanner.  Take
    a stream of plain chunks (candidate 0 only, no log-probabilities, no candidates, a finish
    reason only on the last) whose text is at most 262144 characters long, the cap of the
    parser's text and tool-call buffers.  However that text is cut into chunks, for every
    format and both settings of [parallel_tool_calls], the characters, tool-call deltas and
    error codes a client receives, in order, are those a scanner that sees the whole text at
    once produces: no tag is missed because it straddles chunks, no character is lost,
    duplicated or moved across a call, and an unterminated, malformed or forbidden call ends
    the stream with the same error.  (Above the cap the parser ends a stream with an error at
    a place that depends on the chunks.) *)
Theorem stream_is_scanner loads dumps fresh_id fmt parallel (chunks : list GenerationChunk) :
  Forall plain chunks → len (stream_text chunks) <= MAX_TEXT_BUFFER_CHARS →
  items (parse_stream loads dumps fresh_id fmt parallel [] chunks) =
  scan_all loads dumps fresh_id fmt parallel (stream_text chunks).
Proof. apply parse_stream_scan. Qed.

(** A toy JSON reader that knows nothing, so that values stay texts. *)
Definition no_json (t : text) : res string json := Raise "Expecting value"%string.
Fixpoint show_args (d : list (text * json)) : text :=
  match d with
  | (k, JStr v) :: d' => k ++ to_text "=" ++ v ++ to_text ";" ++ show_args d'
  | _ => []
  end.
Definition show (j : json) : text := match j with JObj d => show_args d | _ => [] end.
Definition number (n : Z) : text := if n =? 0 then to_text "0" else to_text "1".

Definition delta (s : string) : GenerationChunk := text_chunk (to_text s) false 0.
Definition last_chunk (s : string) : GenerationChunk :=
  mkChunk (to_text s) true false (Some "stop"%string) None None None None None None [] 0.

Definition cut_stream : list GenerationChunk :=
  [delta "Sure. <to"; delta "ol_call><function=now><para"; delta "meter=tz> UTC </parameter></func";
   delta "tion></tool"; delta "_call"; last_chunk "> Done"].

Lemma stream_is_scanner_witness :
  items (parse_stream no_json show number auto true [] cut_stream) =
  (Chr <$> to_text "Sure. ")
  ++ [Call (mkDelta 0 (Some (to_text "call_0")) (Some (to_text "now")) []);
      Call (mkDelta 0 None None (to_text "tz=UTC;"))]
  ++ (Chr <$> to_text " Done").
Proof.
  rewrite (stream_is_scanner no_json show number auto true cut_stream).
  - vm_compute. reflexivity.
  - repeat constructor; by intros.
  - vm_compute. discriminate.
Defined.

(** ** Round trips *)

Section roundtrip.
Context (loads : text → res string json) (dumps : json → text) (fresh_id : Z → text).

(** A turn: prose and call bodies in alternation, then the last prose. *)
Fixpoint render (calls : list (text * text)) (tail : text) : text :=
  match calls with
  | [] => tail
  | (prose, body) :: rest => prose ++ OPEN ++ body ++ CLOSE ++ render rest tail
  end.

(** What a client must receive for it; [None] when a body is malformed. *)
Fixpoint turn_items (fmt : ToolCallFormat) (index : Z) (calls : list (text * text)) (tail : text)
    : option (list item) :=
  match calls with
  | [] => Some (Chr <$> tail)
  | (prose, body) :: rest =>
      match tool_call_deltas loads dumps fresh_id body index fmt, turn_items fmt (index + 1) rest tail with
      | Ret deltas, Some out => Some ((Chr <$> prose) ++ (Call <$> deltas) ++ out)
      | _, _ => None
      end
  end.

Lemma open_tag : OPEN = "<"%char :: tail OPEN ∧ "<"%char ∉ tail OPEN.
Proof. split; [done|]. apply (bool_decide_eq_true_1 _). vm_compute. reflexivity. Qed.
Lemma close_tag : CLOSE = "<"%char :: tail CLOSE ∧ "<"%char ∉ tail CLOSE.
Proof. split; [done|]. apply (bool_decide_eq_true_1 _). vm_compute. reflexivity. Qed.

Lemma find_open s r : find OPEN s = None → find OPEN (s ++ OPEN ++ r) = Some (length s).
Proof. destruct open_tag as [-> H]. by apply find_tag. Qed.
Lemma find_close s r : find CLOSE s = None → find CLOSE (s ++ CLOSE ++ r) = Some (length s).
Proof. destruct close_tag as [-> H]. by apply find_tag. Qed.

Lemma drop_tag (s tag r : text) : drop (length s + length tag) (s ++ tag ++ r) = r.
Proof. by rewrite <- drop_drop, drop_app_length, drop_app_length. Qed.

Lemma scan_render fmt calls tail index emitted fuel out :
  Forall (λ c, find OPEN c.1 = None ∧ find CLOSE c.2 = None) calls → find OPEN tail = None →
  turn_items fmt index calls tail = Some out → (length (render calls tail) < fuel)%nat →
  scan_end (scan_loop loads dumps fresh_id fmt true fuel (mkScan false index emitted) (render calls tail)) = out.
Proof.
  intros Hc Ht. revert index emitted fuel out.
  induction Hc as [|[p b] calls [Hp Hb] Hc IH]; intros index emitted [|fuel] out; try lia; cbn [render turn_items].
  - intros [= <-] _. cbn. by rewrite Ht.
  - cbn in Hp, Hb. destruct (tool_call_deltas _ _ _ b index fmt) as [ds|] eqn:Ed; [|done].
    destruct (turn_items fmt (index + 1) calls tail) as [out'|] eqn:Eo; [|done]. intros [= <-] Hf.
    cbn [scan_loop sc_tool sc_index sc_emitted negb andb].
    rewrite find_open, take_app_length, drop_tag by done. rewrite !length_app, length_OPEN, length_CLOSE in Hf.
    destruct fuel as [|fuel]; [lia|]. cbn [scan_loop sc_tool sc_index sc_emitted negb andb].
    rewrite find_close, take_app_length, drop_tag, Ed by done.
    specialize (IH (index + 1) true fuel out' Eo ltac:(lia)).
    destruct (scan_loop _ _ _ _ _ fuel _ _) as [o r]. unfold scan_end in *. cbn in *.
    by rewrite <- IH, <- !app_assoc.
Qed.

End roundtrip.

(** C31 — what the model writes is what the client gets.  With [parallel_tool_calls] on, take
    a turn made of prose without an opening tag and of calls whose bodies contain no closing
    tag and parse in the format, printed with its tags, at most 262144 characters long (the
    parser's buffer cap) and cut into any plain chunks (candidate 0 only, no
    log-probabilities, a finish reason only on the last).  It is received as that prose and,
    in its place and with consecutive indices, the two deltas of each call. *)
Theorem turn_roundtrip loads dumps fresh_id fmt (calls : list (text * text)) (tail : text) out chunks :
  Forall (λ c, find OPEN c.1 = None ∧ find CLOSE c.2 = None) calls → find OPEN tail = None →
  turn_items loads dumps fresh_id fmt 0 calls tail = Some out →
  Forall plain chunks → stream_text chunks = render calls tail →
  len (render calls tail) <= MAX_TEXT_BUFFER_CHARS →
  items (parse_stream loads dumps fresh_id fmt true [] chunks) = out.
Proof.
  intros Hc Ht Ho Hp Hst Hmax.
  assert (sim new_state scan_start [] []) as Hs by (repeat split; by left).
  rewrite <- Hst in Hmax.
  pose proof (parse_stream_items loads dumps fresh_id fmt true chunks [] new_state scan_start [] []
    Hp (or_intror (conj eq_refl eq_refl)) eq_refl Hs Hmax) as H.
  cbn [fmap list_fmap app] in H. rewrite H, Hst.
  apply scan_render; [done..|lia].
Qed.

Lemma turn_roundtrip_witness :
  items (parse_stream no_json show number qwen_xml true []
    [delta "a <b><tool_call><function=f></to"; last_chunk "ol_call>z<tool_call><function=g></tool_call>"]) =
  [Chr "a"; Chr " "; Chr "<"; Chr "b"; Chr ">";
   Call (mkDelta 0 (Some (to_text "call_0")) (Some (to_text "f")) []); Call (mkDelta 0 None None []);
   Chr "z"; Call (mkDelta 1 (Some (to_text "call_1")) (Some (to_text "g")) []); Call (mkDelta 1 None None [])]%char.
Proof.
  apply (turn_roundtrip no_json show number qwen_xml
    [(to_text "a <b>", to_text "<function=f>"); (to_text "z", to_text "<function=g>")] []).
  - repeat constructor.
  - reflexivity.
  - vm_compute. reflexivity.
  - repeat constructor; by intros.
  - reflexivity.
  - vm_compute. discriminate.
Defined.

(** ** The non-streaming path *)

Definition chars (l : list item) : text := omap (λ i, match i with Chr a => Some a | _ => None end) l.

Fixpoint calls_of (l : list item) : list ToolCall :=
  match l with
  | Call d1 :: ((Call d2 :: l') as l1) =>
      mkCall (default [] (tc_id d1)) (default [] (tc_function_name d1)) (tc_arguments_delta d2) :: calls_of l'
  | _ :: l' => calls_of l'
  | [] => []
  end.

Lemma chars_text t l : chars ((Chr <$> t) ++ l) = t ++ chars l.
Proof. induction t as [|a t IH]; [done|]. cbn. by f_equal. Qed.

Lemma calls_of_text t l : calls_of ((Chr <$> t) ++ l) = calls_of l.
Proof. by induction t. Qed.

Lemma chars_app l t : chars (l ++ (Chr <$> t)) = chars l ++ t.
Proof. unfold chars. rewrite omap_app. f_equal. induction t as [|a t IH]; [done|]. cbn. by f_equal. Qed.

Lemma calls_of_app l t : calls_of (l ++ (Chr <$> t)) = calls_of l.
Proof.
  remember (length l) as n eqn:Hn. revert l Hn. induction n as [n IH] using lt_wf_ind. intros l ->.
  assert (∀ l0, (length l0 < length l)%nat → calls_of (l0 ++ (Chr <$> t)) = calls_of l0) as IH'.
  { intros l0 Hl0. by apply (IH (length l0)). }
  destruct l as [|[a|d1|e] l].
  - rewrite app_nil_l, <- (app_nil_r (Chr <$> t)). by rewrite calls_of_text.
  - change (calls_of (l ++ (Chr <$> t)) = calls_of l). apply IH'. cbn. lia.
  - destruct l as [|[a|d2|e] l].
    + destruct t as [|x t]; [done|]. change (calls_of (Chr <$> t) = []).
      rewrite <- (app_nil_r (Chr <$> t)). by rewrite calls_of_text.
    + change (calls_of (l ++ (Chr <$> t)) = calls_of l). apply IH'. cbn. lia.
    + change (mkCall (default [] (tc_id d1)) (default [] (tc_function_name d1)) (tc_arguments_delta d2)
        :: calls_of (l ++ (Chr <$> t)) = mkCall (default [] (tc_id d1)) (default [] (tc_function_name d1))
        (tc_arguments_delta d2) :: calls_of l). f_equal. apply IH'. cbn. lia.
    + change (calls_of (l ++ (Chr <$> t)) = calls_of l). apply IH'. cbn. lia.
  - change (calls_of (l ++ (Chr <$> t)) = calls_of l). apply IH'. cbn. lia.
Qed.

(** A scan that ends early ends with an error. *)
Lemma scan_None_error loads dumps fresh_id fmt parallel f a s o :
  (length s < f)%nat → scan_loop loads dumps fresh_id fmt parallel f a s = (o, None) → ∃ code, Err code ∈ o.
Proof.
  revert a s o. induction f as [|f IH]; intros a s o Hf; [lia|]. cbn [scan_loop]. destruct (sc_tool a).
  - destruct (find CLOSE s) as [i|] eqn:E; [|done]. pose proof (find_bound _ _ _ E) as Hb. rewrite length_CLOSE in Hb.
    destruct (tool_call_deltas _ _ _ _ _ _); [|intros [= <-]; exists PARSE_ERROR; by left].
    destruct (scan_loop _ _ _ _ _ f _ _) as [o' r'] eqn:Es. intros [= <- ->].
    apply IH in Es as [code Hc]; [exists code; rewrite elem_of_app; auto|].
    rewrite length_drop, length_CLOSE. lia.
  - destruct (find OPEN s) as [i|] eqn:E; [|done]. pose proof (find_bound _ _ _ E) as Hb. rewrite length_OPEN in Hb.
    destruct (_ && _).
    { intros [= <-]. exists PARALLEL_TOOL_CALLS_VIOLATED. rewrite elem_of_app. right. by left. }
    destruct (scan_loop _ _ _ _ _ f _ _) as [o' r'] eqn:Es. intros [= <- ->].
    apply IH in Es as [code Hc]; [exists code; rewrite elem_of_app; auto|].
    rewrite length_drop, length_OPEN. lia.
Qed.

Lemma tool_call_deltas_pair loads dumps fresh_id raw index fmt ds :
  tool_call_deltas loads dumps fresh_id raw index fmt = Ret ds → ∃ d1 d2, ds = [d1; d2].
Proof.
  unfold tool_call_deltas. destruct (match fmt with auto => _ | _ => _ end) as [[[] args]|]; try done.
  destruct s; [done|]. destruct (_ <? _); [done|]. intros [= <-]. eauto.
Qed.

Lemma candidate_loop_scan loads dumps fresh_id fmt g f t index emitted o a rest :
  (length t < g)%nat → (length t < f)%nat →
  scan_loop loads dumps fresh_id fmt true f (mkScan false index emitted) t = (o, Some (a, rest)) →
  sc_tool a = false →
  candidate_loop loads dumps fresh_id g fmt t index = (chars o ++ rest, calls_of o).
Proof.
  revert f t index emitted o. induction g as [|g IH]; intros f t index emitted o Hg Hf; [lia|].
  destruct f as [|f]; [lia|]. cbn [scan_loop candidate_loop sc_tool sc_index sc_emitted negb andb].
  destruct (find OPEN t) as [i|] eqn:E; [|by intros [= <- <- <-]].
  pose proof (find_bound _ _ _ E) as Hb. rewrite length_OPEN in Hb.
  set (t1 := drop (i + length OPEN) t).
  assert (length t1 + 11 <= length t)%nat as Hl1 by (unfold t1; rewrite length_drop, length_OPEN; lia).
  destruct f as [|f]; [lia|]. cbn [scan_loop sc_tool sc_index sc_emitted].
  destruct (find CLOSE t1) as [j|] eqn:E1; [|intros [= <- <- <-]; done].
  pose proof (find_bound _ _ _ E1) as Hb1. rewrite length_CLOSE in Hb1.
  destruct (tool_call_deltas _ _ _ _ _ _) as [ds|] eqn:Ed; [|done].
  destruct (tool_call_deltas_pair _ _ _ _ _ _ _ Ed) as (d1 & d2 & ->).
  destruct (scan_loop _ _ _ _ _ f _ _) as [o1 r1] eqn:Es. intros [= <- ->] Ha.
  rewrite (IH f (drop (j + length CLOSE) t1) (index + 1) true o1); [|rewrite length_drop; lia..|done|done].
  rewrite chars_text, calls_of_text. cbn. by rewrite <- app_assoc.
Qed.

(** The non-streaming parser agrees with the streaming one.  Whenever the stream of a
    text ends without an error, the text and the tool calls that [_parse_candidate_text]
    puts on the candidate are the concatenated text and the assembled calls of the
    stream. *)
Theorem candidate_agrees_with_stream loads dumps fresh_id fmt (t : text) :
  (∀ code, Err code ∉ scan_all loads dumps fresh_id fmt true t) →
  parse_candidate_text loads dumps fresh_id t fmt =
    (chars (scan_all loads dumps fresh_id fmt true t), calls_of (scan_all loads dumps fresh_id fmt true t)).
Proof.
  unfold scan_all. destruct (scan _ _ _ _ _ scan_start t) as [o r] eqn:E. intros Hne.
  destruct r as [[a rest]|].
  - destruct (sc_tool a) eqn:Ha; [destruct (Hne PARSE_ERROR); set_solver|].
    assert (candidate_loop loads dumps fresh_id (S (length t)) fmt t 0 = (chars o ++ rest, calls_of o)) as Hl.
    { eapply candidate_loop_scan; [lia| |exact E|done]. lia. }
    rewrite chars_app, calls_of_app. etrans; [|exact Hl]. unfold parse_candidate_text, contains.
    destruct (find OPEN t) eqn:Ef; [done|]. cbn [candidate_loop]. by rewrite Ef.
  - unfold scan in E. apply scan_None_error in E as [code Hc]; [|lia]. destruct (Hne code).
    rewrite elem_of_app. auto.
Qed.

Lemma candidate_agrees_with_stream_witness :
  parse_candidate_text no_json show number (to_text "a<tool_call><function=f></tool_call>b") auto =
  (to_text "ab", [mkCall (to_text "call_0") (to_text "f") []]).
Proof.
  rewrite (candidate_agrees_with_stream no_json show number auto).
  - vm_compute. reflexivity.
  - intros code. vm_compute. intros H. repeat (apply elem_of_cons in H as [H|H]; [discriminate|]).
    by apply elem_of_nil in H.
Defined.

(** ** XML bodies *)

Definition print_param (kv : text * text) : text :=
  PARAM ++ kv.1 ++ to_text ">" ++ kv.2 ++ PARAM_CLOSE.

(** The Qwen form of a call *)
Definition print_xml (name : text) (params : list (text * text)) : text :=
  FUNC ++ name ++ to_text ">" ++ mbind print_param params ++ to_text "</function>".

Definition identifier (n : text) : Prop := n ≠ [] ∧ Forall (λ a, name_char a = true ∧ a ≠ "<"%char) n.

Lemma span_name_app n a r :
  Forall (λ a, name_char a = true ∧ a ≠ "<"%char) n → name_char a = false → span_name (n ++ a :: r) = (n, a :: r).
Proof.
  intros Hn Ha. induction Hn as [|x n [Hx _] Hn IH]; cbn; [by rewrite Ha|]. rewrite Hx, IH. done.
Qed.

Lemma startswith_app pre r : startswith pre (pre ++ r) = true.
Proof. apply startswith_prefix, prefix_app_r. done. Qed.

Lemma match_opener_print pre n r :
  identifier n → match_opener pre (pre ++ n ++ to_text ">" ++ r) = Some (n, r).
Proof.
  intros [Hne Hn]. unfold match_opener. rewrite startswith_app, drop_app_length.
  change (to_text ">" ++ r) with (">"%char :: r). rewrite span_name_app by done.
  destruct n; [done|]. cbn. done.
Qed.

Lemma search_opener_here pre s m : match_opener pre s = Some m → search_opener pre s = Some m.
Proof. intros H. destruct s; cbn [search_opener]; by rewrite H. Qed.

(** Text without an angle bracket is skipped. *)
Lemma search_opener_skip t s r :
  "<"%char ∉ s → search_opener ("<"%char :: t) (s ++ r) = search_opener ("<"%char :: t) r.
Proof.
  induction s as [|a s IH]; intros Hs; [done|]. apply not_elem_of_cons in Hs as [Ha Hs].
  cbn [app search_opener]. unfold match_opener. cbn [startswith]. rewrite bool_decide_false by done.
  cbn [andb]. by apply IH.
Qed.

(** The printed parameters come back in order, each trimmed and coerced. *)
Definition read_params (loads : text → res string json) (params : list (text * text))
    (args : list (text * json)) : list (text * json) :=
  foldl (λ acc kv, dict_set kv.1 (coerce loads (tstrip kv.2)) acc) args params.

Definition printable (kv : text * text) : Prop := identifier kv.1 ∧ find PARAM_CLOSE kv.2 = None.

Lemma identifier_no_bracket n : identifier n → "<"%char ∉ n.
Proof. intros [_ Hn] Hin. rewrite Forall_forall in Hn. by destruct (Hn _ Hin). Qed.

(** The loop reads the printed parameters and stops at the closing tag. *)
Lemma xml_params_print loads params fuel args :
  Forall printable params → (length params <= fuel)%nat →
  xml_params loads fuel (mbind print_param params ++ to_text "</function>") args =
    read_params loads params args.
Proof.
  intros Hp. revert fuel args. induction Hp as [|[k v] params [Hk Hv] Hp IH]; intros fuel args Hf.
  { destruct fuel; [done|]. reflexivity. }
  destruct fuel as [|fuel]; [cbn in Hf; lia|]. cbn in Hk, Hv. cbn [xml_params].
  rewrite bind_cons. unfold print_param at 1. cbn [fst snd]. rewrite <- !app_assoc.
  rewrite (search_opener_here _ _ _ (match_opener_print PARAM k _ Hk)).
  change PARAM_CLOSE with ("<"%char :: tail PARAM_CLOSE) at 1.
  rewrite find_tag; [|by apply (bool_decide_eq_true_1 _); vm_compute|exact Hv].
  rewrite take_app_length, <- drop_drop, drop_app_length, drop_app_length, IH; [done|cbn in Hf; lia].
Qed.

(** The name part of the printed call has no parameter opener. *)
Lemma xml_params_header loads name r fuel args :
  identifier name → xml_params loads fuel (FUNC ++ name ++ to_text ">" ++ r) args = xml_params loads fuel r args.
Proof.
  intros Hn. destruct fuel as [|fuel]; [done|]. cbn [xml_params].
  assert (search_opener PARAM (FUNC ++ name ++ to_text ">" ++ r) = search_opener PARAM r) as ->; [|done].
  change (search_opener PARAM (FUNC ++ name ++ to_text ">" ++ r))
    with (search_opener ("<"%char :: tail PARAM) (to_text "function=" ++ name ++ to_text ">" ++ r)).
  rewrite !app_assoc, search_opener_skip; [done|]. rewrite !not_elem_of_app.
  split; [split|]; [by apply (bool_decide_eq_true_1 _); vm_compute|by apply identifier_no_bracket|].
  by apply (bool_decide_eq_true_1 _); vm_compute.
Qed.

(** The XML form round-trips.  A call printed as [<function=name>] with its parameters
    is read back as that name and those parameters in order, each value trimmed and turned
    into the JSON value it spells; a repeated key keeps its last value.  This holds for up
    to 256 parameters, whatever the values contain but their closing tag. *)
Theorem xml_roundtrip loads (name : text) (params : list (text * text)) :
  identifier name → Forall printable params → (length params <= MAX_XML_PARAMS)%nat →
  parse_xml loads (print_xml name params) = Ret (JStr name, JObj (read_params loads params [])).
Proof.
  intros Hn Hp Hl. unfold parse_xml, print_xml.
  rewrite (search_opener_here _ _ _ (match_opener_print FUNC name _ Hn)).
  by rewrite xml_params_header, xml_params_print.
Qed.

Lemma xml_roundtrip_witness :
  parse_xml no_json (print_xml (to_text "f") [(to_text "a", to_text " <b> "); (to_text "c", [])]) =
  Ret (JStr (to_text "f"), JObj [(to_text "a", JStr (to_text "<b>")); (to_text "c", JStr [])]).
Proof.
  rewrite (xml_roundtrip no_json).
  - vm_compute. reflexivity.
  - split; [discriminate|]. repeat constructor; discriminate.
  - repeat constructor; discriminate.
  - unfold MAX_XML_PARAMS. cbn. lia.
Defined.

(** ** The marker of the first chunk *)

(** A short first delta is held back, and the marker that came with it is gone when it is
    flushed: the parser latches [is_first] on what it emits, never on what it keeps. *)
Lemma short_first_delta_unmarked loads dumps fresh_id fmt parallel :
  is_first <$> parse_stream loads dumps fresh_id fmt parallel []
                 [text_chunk (to_text "Hi") true 0; text_chunk (to_text " there, world") false 0] =
  [false; false; false].
Proof. reflexivity. Qed.

End ToolCalls.
