(* ===== verification/Streaming.v ===== *)
(** The streaming core of the generation processor, [_stream_generate] and
    [_publisher_loop] of [processors/streaming.py].

    A driver pulls chunks from the adapter's iterator, coalesces their text and puts
    envelopes on a bounded queue; a publisher task takes them off and sends them to the
    gateway.  When the stream ends the driver closes the queue, waits for the publisher and
    acknowledges the work item, or leaves it to be redelivered.

    The two tasks interleave at the driver's awaits: [served] says how many items the
    publisher takes at the n-th await and which of these publishes succeed.  A put returns
    at once when the queue has room and otherwise waits, bounded, for the publisher.  The
    processing task itself may be cancelled at any await ([aborts], [EvAbort]); the awaits
    inside [with _suppress()] swallow that, the others let it leave the function.
    Payloads are envelopes before msgpack.  Telemetry and the heartbeat that extends the
    redelivery deadline are left out, and so is [_record_failure], whose result no caller
    reads. *)

From Stdlib Require Import Ascii.
From S2P Require Import Prelude PyFloat PyDict PyStr PyText ToolCallParser.
Local Open Scope Z_scope.

Module Streaming.
Import ToolCalls.

Definition FLUSH_INTERVAL_S : float := Eval vm_compute in flit 5 100.
Definition FLUSH_MAX_TOKENS : Z := 32.
Definition CHUNK_QUEUE_MAX : nat := 64.

(** ** Envelopes *)

(** The element of [tool_calls] *)
Record WireCall := mkWireCall {
  w_index : Z;
  w_type : string;
  w_id : option text;
  w_name : option text;
  w_arguments : text;
}.

Record Envelope := mkEnvelope {
  e_kind : string;
  e_request_id : string;
  e_attempt_id : string;
  e_seq : Z;
  e_text : text;
  e_done : bool;
  e_is_first : bool;
  e_finish : option string;
  e_usage : option (Z * Z * Z);
  e_ttft_ms : option float;
  e_error : option (string * string);
  e_logprobs : list nat;
  e_candidates : list Candidate;
  e_choice_index : option Z;
  e_tool_calls : option WireCall;
}.

Definition wire_call (d : ToolCallDelta) : WireCall :=
  mkWireCall (tc_index d) "function" (tc_id d) (tc_function_name d) (tc_arguments_delta d).

(** The arguments of [_encode_chunk] that have defaults. *)
Record Extras := mkExtras {
  x_is_first : bool;
  x_finish : option string;
  x_prompt_tokens : option Z;
  x_completion_tokens : option Z;
  x_ttft_ms : option float;
  x_error_code : option string;
  x_error_message : option string;
  x_tool : option ToolCallDelta;
  x_logprobs : list nat;
  x_candidates : list Candidate;
  x_choice_index : Z;
}.

Definition no_extras : Extras := mkExtras false None None None None None None None [] [] 0.

(** [_encode_chunk] *)
Definition encode_chunk (kind request_id attempt_id : string) (seq : Z) (t : text) (dn : bool)
    (x : Extras) : Envelope :=
  mkEnvelope kind request_id attempt_id seq t dn (x_is_first x) (x_finish x)
    (match x_prompt_tokens x, x_completion_tokens x with
     | None, None => None
     | p, c => let p := default 0 p in let c := default 0 c in Some (p, c, p + c)
     end)
    (x_ttft_ms x)
    (match x_error_code x, x_error_message x with
     | None, None => None
     | c, m => Some (match c with Some (String _ _ as c) => c | _ => "error"%string end, default ""%string m)
     end)
    (x_logprobs x) (x_candidates x)
    (if x_choice_index x =? 0 then None else Some (x_choice_index x))
    (wire_call <$> x_tool x).

(** [_compute_ttft_ms] *)
Definition compute_ttft_ms (publish_at : float) (first_text_at : option float) : option float :=
  match first_text_at with
  | None => None
  | Some t => Some (py_max flt f0 (fmul (fsub t publish_at) (f_of_Z 1000)))
  end.

(** ** The queue and the publisher *)

(** The publisher runs ([saw_terminal] so far) or has returned. *)
Inductive publisher_state := Running (saw_terminal : bool) | Returned (ok : bool).

Record Channel := mkChannel {
  chunk_queue : list (option (Envelope * bool));    (* [None] is the sentinel *)
  wire : list Envelope;                             (* what the gateway has received *)
  publisher : publisher_state;
  awaits : nat;
}.

Record Env := mkEnv {
  clock : nat → float;              (* the n-th reading of the clock *)
  served : nat → list bool;         (* the publishes that finish during the n-th await *)
  slow : nat → bool;                (* whether a put that finds no room at it times out *)
  aborts : nat → bool;              (* whether the task is cancelled during the n-th await *)
}.

Section channel.
Context (env : Env).

(** One iteration of [_publisher_loop]; [ok] is whether the publish succeeds. *)
Definition publisher_loop_step (ch : Channel) (ok : bool) : Channel :=
  match publisher ch, chunk_queue ch with
  | Running saw, None :: q => mkChannel q (wire ch) (Returned saw) (awaits ch)
  | Running saw, Some (e, is_terminal) :: q =>
      if ok then mkChannel q (wire ch ++ [e]) (Running (saw || is_terminal)) (awaits ch)
      else mkChannel q (wire ch) (Returned false) (awaits ch)
  | _, _ => ch
  end.

(** An await of the driver *)
Definition await (ch : Channel) : Channel :=
  let ch' := foldl publisher_loop_step ch (served env (awaits ch)) in
  mkChannel (chunk_queue ch') (wire ch') (publisher ch') (S (awaits ch)).

Definition has_room (ch : Channel) : bool := (length (chunk_queue ch) <? CHUNK_QUEUE_MAX)%nat.

Definition push (x : option (Envelope * bool)) (ch : Channel) : Channel :=
  mkChannel (chunk_queue ch ++ [x]) (wire ch) (publisher ch) (awaits ch).

(** What [wait_for(chunk_queue.put(x), timeout)] ends with: a cancellation while it waits
    leaves the queue as it is and raises. *)
Inductive put_result := Queued | TimedOut | Cancelled.

Definition put (x : option (Envelope * bool)) (ch : Channel) : put_result * Channel :=
  if has_room ch then (Queued, push x ch)
  else
    let late := slow env (awaits ch) in
    let aborted := aborts env (awaits ch) in
    let ch := await ch in
    if aborted then (Cancelled, ch)
    else if negb late && has_room ch then (Queued, push x ch)
    else (TimedOut, ch).

(** ** The driver *)

Record Driver := mkDriver {
  seq : Z;
  pending_text : list text;
  pending_logprobs : list nat;
  pending_count : Z;
  last_flush_ts : float;
  first_text_at : option float;
  terminal_sent : bool;
  transport_failure_published : bool;
  ticks : nat;
  channel : Channel;
}.

Definition with_channel (f : Channel → Channel) (d : Driver) : Driver :=
  mkDriver (seq d) (pending_text d) (pending_logprobs d) (pending_count d) (last_flush_ts d)
    (first_text_at d) (terminal_sent d) (transport_failure_published d) (ticks d) (f (channel d)).
Definition with_flags (sent failed : bool) (d : Driver) : Driver :=
  mkDriver (seq d) (pending_text d) (pending_logprobs d) (pending_count d) (last_flush_ts d)
    (first_text_at d) sent failed (ticks d) (channel d).
Definition next_seq (d : Driver) : Driver :=
  mkDriver (seq d + 1) (pending_text d) (pending_logprobs d) (pending_count d) (last_flush_ts d)
    (first_text_at d) (terminal_sent d) (transport_failure_published d) (ticks d) (channel d).
(** [pending_text.append], [pending_count += ...], [pending_logprobs.extend] *)
Definition accumulate (c : GenerationChunk) (d : Driver) : Driver :=
  mkDriver (seq d)
    (match text_delta c with [] => pending_text d | t => pending_text d ++ [t] end)
    (pending_logprobs d ++ default [] (logprobs c))
    (match text_delta c with [] => pending_count d | t => pending_count d + Z.max 1 (len t) end)
    (last_flush_ts d) (first_text_at d) (terminal_sent d) (transport_failure_published d) (ticks d) (channel d).
(** The reading of the clock for the first text *)
Definition note_first_text (c : GenerationChunk) (d : Driver) : Driver :=
  match text_delta c, first_text_at d with
  | _ :: _, None =>
      mkDriver (seq d) (pending_text d) (pending_logprobs d) (pending_count d) (last_flush_ts d)
        (Some (clock env (ticks d))) (terminal_sent d) (transport_failure_published d) (S (ticks d)) (channel d)
  | _, _ => d
  end.
Definition read_clock (d : Driver) : float * Driver :=
  (clock env (ticks d),
   mkDriver (seq d) (pending_text d) (pending_logprobs d) (pending_count d) (last_flush_ts d)
     (first_text_at d) (terminal_sent d) (transport_failure_published d) (S (ticks d)) (channel d)).
(** After a successful flush *)
Definition flushed (d : Driver) : Driver :=
  mkDriver (seq d + 1) [] [] 0 (clock env (ticks d)) (first_text_at d) (terminal_sent d)
    (transport_failure_published d) (S (ticks d)) (channel d).

Definition put_envelope (e : Envelope) (is_terminal : bool) (d : Driver) : put_result * Driver :=
  let '(r, ch) := put (Some (e, is_terminal)) (channel d) in (r, with_channel (λ _, ch) d).

(** How a handler of the loop leaves it: to the next round, by [break] or by an exception *)
Inductive flow := Go | Stop | Raised.

Section stream.
Context (request_id attempt_id : string) (multi_candidate_stream : bool) (publish_at : float).

Definition chunk (d : Driver) (t : text) (dn : bool) (x : Extras) : Envelope :=
  encode_chunk "chunk" request_id attempt_id (seq d) t dn x.

(** [_flush_pending] *)
Definition flush_pending (d : Driver) : put_result * Driver :=
  match pending_text d with
  | [] => (Queued, d)
  | ts =>
      let e := chunk d (concat ts) false
                 (mkExtras (seq d =? 0) None None None None None None None (pending_logprobs d) [] 0) in
      let '(r, d) := put_envelope e false d in
      (r, match r with Queued => flushed d | _ => d end)
  end.

Definition error_extras (code message : string) : Extras :=
  mkExtras false (Some "error"%string) None None None (Some code) (Some message) None [] [] 0.

(** [_enqueue_transport_failure], and the flags its callers set *)
Definition transport_failure (d : Driver) : Driver * flow :=
  let e := chunk d [] true (error_extras "transport_failure" "sustained chunk publish failure or queue overflow") in
  let '(r, d) := put_envelope e true d in
  match r with
  | Queued => (with_flags true true d, Stop)
  | TimedOut => (with_flags false true d, Stop)
  | Cancelled => (with_flags (terminal_sent d) true d, Raised)
  end.

(** A terminal whose enqueue may fail without another attempt *)
Definition put_terminal (x : Extras) (d : Driver) : Driver * flow :=
  let '(r, d) := put_envelope (chunk d [] true x) true d in
  match r with
  | Queued => (with_flags true (transport_failure_published d) d, Stop)
  | TimedOut => (d, Stop)
  | Cancelled => (d, Raised)
  end.

(** What follows content that could not be queued *)
Definition on_unqueued (r : put_result) (d : Driver) : Driver * flow :=
  match r with Cancelled => (d, Raised) | _ => transport_failure d end.

Definition ttft (d : Driver) : option float := compute_ttft_ms publish_at (first_text_at d).

Definition finish_extras (d : Driver) (reason : string) : Extras :=
  mkExtras false (Some reason) None None (ttft d) None None None [] [] 0.

(** The cancel branch: the pending [__anext__] is awaited, a cancellation swallowed, and the
    iterator closed, first. *)
Definition on_cancel (d : Driver) : Driver * flow :=
  let d := with_channel await d in
  let aborted := aborts env (awaits (channel d)) in
  let d := with_channel await d in
  if aborted then (d, Raised) else
  let '(r, d) := flush_pending d in
  match r with
  | Queued => put_terminal (finish_extras d "cancelled") d
  | TimedOut => (d, Stop)
  | Cancelled => (d, Raised)
  end.

(** [StopAsyncIteration] *)
Definition on_exhausted (d : Driver) : Driver * flow :=
  let '(r, d) := flush_pending d in
  match r with Queued => put_terminal (finish_extras d "stop") d | _ => on_unqueued r d end.

(** The iterator raised: the error terminal is put without a flush. *)
Definition on_error (message : string) (d : Driver) : Driver * flow :=
  put_terminal (error_extras "inference_error" message) d.

(** A chunk of a multi-candidate stream *)
Definition on_candidate_delta (c : GenerationChunk) (d : Driver) : Driver * flow :=
  let e := chunk d (text_delta c) false
             (mkExtras false (finish_reason c) None None None None None (tool_call_delta c)
                (default [] (logprobs c)) [] (choice_index c)) in
  let '(r, d) := put_envelope e false d in
  match r with Queued => (next_seq d, Go) | _ => on_unqueued r d end.

(** [chunk.finish_reason or "stop"] *)
Definition finish_or_stop (c : GenerationChunk) : string :=
  match finish_reason c with Some (String _ _ as f) => f | _ => "stop"%string end.

(** A chunk with [done=True] *)
Definition on_done (c : GenerationChunk) (d : Driver) : Driver * flow :=
  let '(r, d) := flush_pending (accumulate c d) in
  match r with
  | Queued =>
      let e := chunk d [] true
                 (mkExtras false (Some (finish_or_stop c)) (prompt_tokens c) (completion_tokens c) (ttft d)
                    (error_code c) (error_message c) None [] (candidates c) 0) in
      let '(r, d) := put_envelope e true d in
      match r with Queued => (with_flags true (transport_failure_published d) d, Stop) | _ => on_unqueued r d end
  | _ => on_unqueued r d
  end.

(** A tool-call delta *)
Definition on_tool_call (t : ToolCallDelta) (d : Driver) : Driver * flow :=
  let '(r, d) := flush_pending d in
  match r with
  | Queued =>
      let e := chunk d [] false
                 (mkExtras (seq d =? 0) None None None None None None (Some t) [] [] 0) in
      let '(r, d) := put_envelope e false d in
      match r with Queued => (next_seq d, Go) | _ => on_unqueued r d end
  | _ => on_unqueued r d
  end.

(** A text delta: accumulate, flush by size or by time. *)
Definition on_text (c : GenerationChunk) (d : Driver) : Driver * flow :=
  let d := accumulate c d in
  let '(now, d) := read_clock d in
  let due := (FLUSH_MAX_TOKENS <=? pending_count d)
             || (match pending_text d with [] => false | _ => fle FLUSH_INTERVAL_S (fsub now (last_flush_ts d)) end) in
  if due then
    let '(r, d) := flush_pending d in
    match r with Queued => (d, Go) | _ => on_unqueued r d end
  else (d, Go).

(** The driver and how the handler leaves the loop. *)
Definition on_chunk (c : GenerationChunk) (d : Driver) : Driver * flow :=
  let d := note_first_text c d in
  if multi_candidate_stream && negb (done c) then on_candidate_delta c d
  else if done c then on_done c d
  else match tool_call_delta c with
       | Some t => on_tool_call t d
       | None => on_text c d
       end.

(** What one [asyncio.wait] of the loop ends with; the end of the list of events is the end
    of the iterator.  [EvAbort] is the cancellation of the processing task during that wait;
    its cancellation during the other awaits is in [aborts]. *)
Inductive event := EvChunk (c : GenerationChunk) | EvRaise (message : string) | EvCancel | EvAbort.

Definition raises (f : flow) : bool := match f with Raised => true | _ => false end.

(** The loop: the driver at its end, and whether an exception leaves it.  Unless the client
    cancelled, the result of the wait is looked at after [await cancel_task], which swallows
    a cancellation of the task: [aborts] plays no role there. *)
Fixpoint drive (d : Driver) (events : list event) : Driver * bool :=
  let d := with_channel await d in
  match events with
  | EvAbort :: _ => (d, true)
  | EvCancel :: _ => let '(d, f) := on_cancel d in (d, raises f)
  | [] => let '(d, f) := on_exhausted (with_channel await d) in (d, raises f)
  | EvRaise message :: _ => let '(d, f) := on_error message (with_channel await d) in (d, raises f)
  | EvChunk c :: rest =>
      let '(d, f) := on_chunk c (with_channel await d) in
      match f with Go => drive d rest | _ => (d, raises f) end
  end.

(** The [finally] block: wait for the heartbeat, close the queue, wait for the publisher.
    A cancellation is swallowed in the first wait, and in the wait for room, which then
    leaves the queue open; in the last it is raised ([None]). *)
Definition drive_close (ch : Channel) : option bool * Channel :=
  let ch := await ch in
  let ch := if has_room ch then push None ch
            else match publisher ch with
                 | Running _ => (put None ch).2
                 | Returned _ => ch
                 end in
  let aborted := aborts env (awaits ch) in
  let ch := await ch in
  (if aborted then None else Some (match publisher ch with Returned ok => ok | Running _ => false end), ch).

End stream.

Definition start (now : float) : Driver :=
  mkDriver 0 [] [] 0 now None false false 2 (mkChannel [] [] (Running false) 0).

Record Outcome := mkOutcome {
  out_wire : list Envelope;
  out_acked : bool;
  out_raised : bool;
}.

(** [_stream_generate] *)
Definition stream_generate (request_id attempt_id : string) (multi : bool) (events : list event) : Outcome :=
  let '(d, raised) := drive request_id attempt_id multi (clock env 1) (start (clock env 0)) events in
  let '(closed, ch) := drive_close (channel d) in
  let raised := raised || match closed with None => true | Some _ => false end in
  mkOutcome (wire ch)
    (negb raised && terminal_sent d && default false closed && negb (transport_failure_published d)) raised.

End channel.

(** ** What the channel preserves *)

(** [l] is everything that was put, [closed] whether the sentinel was: a running publisher
    has sent a prefix of it and will see the rest; one that returned [true] has sent all of
    it, a terminal included; one that returned [false] has sent a prefix. *)
Definition entries (l : list Envelope) : list (option (Envelope * bool)) := (λ e, Some (e, e_done e)) <$> l.

Definition history (ch : Channel) (l : list Envelope) (closed : bool) : Prop :=
  match publisher ch with
  | Running saw => saw = existsb e_done (wire ch) ∧
      ∃ q, l = wire ch ++ q ∧ chunk_queue ch = entries q ++ (if closed then [None] else [])
  | Returned true => closed = true ∧ l = wire ch ∧ existsb e_done (wire ch) = true
  | Returned false => wire ch `prefix_of` l
  end.

Lemma history_prefix ch l closed : history ch l closed → wire ch `prefix_of` l.
Proof.
  unfold history. destruct (publisher ch) as [saw|[]].
  - intros (_ & q & -> & _). by apply prefix_app_r.
  - intros (_ & -> & _). done.
  - done.
Qed.

Lemma history_step ch l closed ok : history ch l closed → history (publisher_loop_step ch ok) l closed.
Proof.
  unfold history at 1, publisher_loop_step. destruct (publisher ch) as [saw|b] eqn:Ep.
  - intros (-> & q & -> & Eq). destruct q as [|e q]; cbn in Eq; rewrite Eq.
    + destruct closed; cbn; [|by unfold history; rewrite Ep; split; [done|exists []]].
      unfold history. cbn. destruct (existsb e_done (wire ch)) eqn:Ex; rewrite app_nil_r; done.
    + destruct ok; unfold history; cbn.
      * split; [by rewrite existsb_app; cbn; rewrite orb_false_r|]. exists q. by rewrite <- app_assoc.
      * by apply prefix_app_r.
  - intros H. unfold history. rewrite Ep. done.
Qed.

Lemma history_await env ch l closed : history ch l closed → history (await env ch) l closed.
Proof.
  intros H. unfold await. set (ch' := foldl _ _ _).
  assert (history ch' l closed) as H'.
  { subst ch'. generalize (served env (awaits ch)) as oks. intros oks. revert ch H.
    induction oks as [|ok oks IH]; intros ch H; [done|]. cbn. apply IH, history_step, H. }
  unfold history in *. cbn. done.
Qed.

Lemma history_push ch l e :
  history ch l false → history (push (Some (e, e_done e)) ch) (l ++ [e]) false.
Proof.
  unfold history, push. cbn. destruct (publisher ch) as [saw|[]].
  - intros (-> & q & -> & ->). split; [done|]. exists (q ++ [e]). rewrite !app_nil_r, app_assoc.
    split; [done|]. unfold entries. by rewrite fmap_app.
  - by intros (? & _).
  - intros. by apply prefix_app_r.
Qed.

(** What was put after a put of [e] *)
Definition with_put (r : put_result) (l : list Envelope) (e : Envelope) : list Envelope :=
  match r with Queued => l ++ [e] | _ => l end.

Lemma history_put env ch l e r ch' :
  history ch l false → put env (Some (e, e_done e)) ch = (r, ch') → history ch' (with_put r l e) false.
Proof.
  intros H. unfold put. destruct (has_room ch).
  { intros [= <- <-]. by apply history_push. }
  apply (history_await env) in H. destruct (aborts _ _); [by intros [= <- <-]|].
  destruct (_ && _); intros [= <- <-]; [by apply history_push|done].
Qed.

Lemma history_sentinel ch l : history ch l false → history (push None ch) l true.
Proof.
  unfold history, push. cbn. destruct (publisher ch) as [saw|[]]; [|by intros (? & _)|done].
  intros (-> & q & -> & ->). split; [done|]. exists q. by rewrite app_nil_r.
Qed.

(** The publisher answers [true] only when everything that was put is on the wire. *)
Lemma history_close env ch l closed ch' :
  history ch l false → drive_close env ch = (closed, ch') →
  wire ch' `prefix_of` l ∧ (closed = Some true → wire ch' = l ∧ existsb e_done l = true).
Proof.
  intros H. unfold drive_close. apply (history_await env) in H. set (ch1 := await env ch) in *. clearbody ch1.
  set (ch2 := if has_room ch1 then _ else _).
  assert (∃ b, history ch2 l b) as [b H2].
  { subst ch2. destruct (has_room ch1) eqn:Er; [exists true; by apply history_sentinel|].
    destruct (publisher ch1); [|by exists false]. unfold put. rewrite Er. apply (history_await env) in H.
    destruct (aborts _ _); [by exists false|]. destruct (_ && _); [exists true; by apply history_sentinel|by exists false]. }
  apply (history_await env) in H2. set (ch3 := await env ch2) in *. clearbody ch3. clear H.
  intros [= <- <-]. split; [by eapply history_prefix|]. destruct (aborts _ _); [done|].
  unfold history in H2. destruct (publisher ch3) as [saw|[]]; [done| |done].
  intros _. by destruct H2 as (_ & -> & ?).
Qed.

(** ** What the driver preserves *)

(** The content a client sees: characters and tool-call deltas, per candidate. *)
Inductive piece := Txt (ci : Z) (a : ascii) | Tool (ci : Z) (w : WireCall).

Definition pieces (ci : Z) (t : text) (w : option WireCall) : list piece :=
  (Txt ci <$> t) ++ match w with Some w => [Tool ci w] | None => [] end.

Definition envelope_pieces (e : Envelope) : list piece :=
  pieces (default 0 (e_choice_index e)) (e_text e) (e_tool_calls e).
Definition delivered (l : list Envelope) : list piece := mbind envelope_pieces l.

Definition chunk_pieces (multi : bool) (c : GenerationChunk) : list piece :=
  pieces (if multi && negb (done c) then choice_index c else 0) (text_delta c) (wire_call <$> tool_call_delta c).

(** The content of the adapter's chunks up to the end of the stream *)
Fixpoint produced (multi : bool) (events : list event) : list piece :=
  match events with
  | EvChunk c :: rest => chunk_pieces multi c ++ (if done c then [] else produced multi rest)
  | _ => []
  end.

(** How the stream ends: the finish reason a client must see, and whether everything
    produced must come before it. *)
Fixpoint ending (events : list event) : option (string * bool) :=
  match events with
  | [] => Some ("stop"%string, true)
  | EvCancel :: _ => Some ("cancelled"%string, true)
  | EvRaise _ :: _ => Some ("error"%string, false)
  | EvAbort :: _ => None
  | EvChunk c :: rest => if done c then Some (finish_or_stop c, true) else ending rest
  end.

(** Adapters and the tool-call parser put a tool call on a chunk of its own; a terminal
    carries none. *)
Definition tidy_chunk (multi : bool) (c : GenerationChunk) : Prop :=
  tool_call_delta c ≠ None → done c = false ∧ (multi = false → text_delta c = []).
Definition tidy (multi : bool) (ev : event) : Prop :=
  match ev with EvChunk c => tidy_chunk multi c | _ => True end.

Definition numbered (l : list Envelope) : Prop := e_seq <$> l = seqZ 0 (Z.of_nat (length l)).
Definition not_done (e : Envelope) : Prop := e_done e = false.

Lemma numbered_snoc l e : numbered l → e_seq e = Z.of_nat (length l) → numbered (l ++ [e]).
Proof.
  unfold numbered. intros Hl He. rewrite fmap_app, length_app, Hl. cbn. rewrite He.
  replace (Z.of_nat (length l + 1)) with (Z.of_nat (length l) + 1) by lia.
  rewrite seqZ_app by lia. done.
Qed.

Lemma delivered_app l1 l2 : delivered (l1 ++ l2) = delivered l1 ++ delivered l2.
Proof. apply bind_app. Qed.

(** The stream is open: [l] was put, [X] is the content consumed so far. *)
Record open_stream (d : Driver) (X : list piece) (l : list Envelope) : Prop := {
  os_history : history (channel d) l false;
  os_numbered : numbered l;
  os_seq : seq d = Z.of_nat (length l);
  os_open : Forall not_done l;
  os_content : delivered l ++ (Txt 0 <$> concat (pending_text d)) = X;
  os_sent : terminal_sent d = false;
  os_failed : transport_failure_published d = false;
}.

(** The loop is over: [front] was put before the terminal.  A confirmed terminal ends the
    stream as [fin] says: with that reason, and with nothing missing in front of it when
    the ending is exact. *)
Definition over (d : Driver) (X : list piece) (fin : option (string * bool)) (l : list Envelope) : Prop :=
  history (channel d) l false ∧ numbered l ∧ ∃ front,
    Forall not_done front ∧ delivered front `prefix_of` X ∧
    (l = front ∨ ∃ t, l = front ++ [t] ∧ e_done t = true ∧ delivered [t] = []) ∧
    (terminal_sent d = true → transport_failure_published d = false →
     ∃ t reason exact, fin = Some (reason, exact) ∧ l = front ++ [t] ∧ e_done t = true ∧
       e_finish t = Some reason ∧ (exact = true → delivered front = X)).

(** An exception left the loop: no terminal was put. *)
Definition stopped (d : Driver) (X : list piece) (l : list Envelope) : Prop :=
  history (channel d) l false ∧ numbered l ∧ Forall not_done l ∧ delivered l `prefix_of` X.

(** The loop is left, by [break] or by an exception. *)
Definition left_loop (r : Driver * flow) (X : list piece) (fin : option (string * bool)) : Prop :=
  ∃ l, if raises r.2 then stopped r.1 X l else over r.1 X fin l.

Section driver.
Context (env : Env) (rid aid : string) (multi : bool) (publish_at : float).

Lemma open_await d X l : open_stream d X l → open_stream (with_channel (await env) d) X l.
Proof. intros []. constructor; cbn; try done. by apply history_await. Qed.

Lemma open_stopped d X Y l : open_stream d X l → X `prefix_of` Y → stopped d Y l.
Proof. intros [Hh Hn _ Ho Hc _ _] HXY. split_and!; try done. etrans; [|exact HXY]. rewrite <- Hc. by apply prefix_app_r. Qed.

Lemma put_envelope_spec e d r d' l :
  history (channel d) l false → put_envelope env e (e_done e) d = (r, d') →
  d' = with_channel (λ _, channel d') d ∧ history (channel d') (with_put r l e) false.
Proof.
  intros H. unfold put_envelope. destruct (put env _ (channel d)) as [ok0 ch] eqn:E. intros [= <- <-].
  split; [done|]. by eapply history_put.
Qed.

(** Enqueueing content: the envelope carries the content [P], the pending text goes. *)
Lemma open_put d X l e r d' (P : list piece) :
  open_stream d X l → put_envelope env e false d = (r, d') → e_done e = false → e_seq e = seq d →
  match r with
  | Queued => ∀ d2, channel d2 = channel d' → seq d2 = seq d + 1 → terminal_sent d2 = false →
             transport_failure_published d2 = false →
             delivered (l ++ [e]) ++ (Txt 0 <$> concat (pending_text d2)) = P →
             open_stream d2 P (l ++ [e])
  | _ => open_stream d' X l
  end.
Proof.
  intros [Hh Hn Hs Ho Hc Ht Hf] E He Hse. rewrite <- He in E.
  destruct (put_envelope_spec _ _ _ _ _ Hh E) as [Hd Hh']. destruct r.
  - intros d2 Hch Hs2 Ht2 Hf2 HP. constructor; try done.
    + by rewrite Hch.
    + apply numbered_snoc; [done|congruence].
    + rewrite Hs2, Hs, length_app. cbn. lia.
    + apply Forall_app_2; [done|]. by constructor.
  - rewrite Hd. constructor; done.
  - rewrite Hd. constructor; done.
Qed.

Lemma delivered_snoc l e : delivered (l ++ [e]) = delivered l ++ envelope_pieces e.
Proof. rewrite delivered_app. unfold delivered at 2. cbn. by rewrite app_nil_r. Qed.

Lemma flush_pending_spec d X l r d' :
  open_stream d X l → flush_pending env rid aid d = (r, d') →
  ∃ l', open_stream d' X l' ∧ (r = Queued → pending_text d' = []).
Proof.
  intros Ho. unfold flush_pending. destruct (pending_text d) as [|t ts] eqn:Ep.
  { intros [= <- <-]. by exists l. }
  destruct (put_envelope env _ false d) as [r0 d0] eqn:E. intros Heq.
  pose proof (open_put _ _ _ _ _ _ X Ho E eq_refl eq_refl) as Hp.
  pose proof (put_envelope_spec _ _ _ _ _ (os_history _ _ _ Ho) E) as [Hd _].
  destruct r0; injection Heq as <- <-; [|by exists l..].
  eexists. split; [|done]. apply Hp; try (rewrite Hd; cbn; by destruct Ho).
  cbn. rewrite delivered_snoc, <- (os_content _ _ _ Ho), Ep, <- app_assoc. f_equal. unfold envelope_pieces, pieces. cbn.
  by rewrite !app_nil_r.
Qed.

(** Enqueueing a terminal *)
Lemma over_terminal d X l e r d' sent failed fin :
  open_stream d X l → put_envelope env e true d = (r, d') → e_done e = true → e_seq e = seq d →
  e_text e = [] → e_tool_calls e = None →
  (sent = true → failed = false → r = Queued ∧
     ∃ reason exact, fin = Some (reason, exact) ∧ e_finish e = Some reason ∧ (exact = true → pending_text d = [])) →
  ∃ l', over (with_flags sent failed d') X fin l'.
Proof.
  intros [Hh Hn Hs Ho Hc Ht Hf] E He Hse Htx Htc Hfl. rewrite <- He in E.
  destruct (put_envelope_spec _ _ _ _ _ Hh E) as [_ Hh'].
  exists (with_put r l e). split; [done|]. split.
  { destruct r; [|done..]. apply numbered_snoc; [done|congruence]. }
  exists l. split; [done|]. split; [rewrite <- Hc; by apply prefix_app_r|]. split.
  - destruct r; [right|by left..]. exists e. split; [done|]. split; [done|].
    unfold delivered, envelope_pieces, pieces. cbn. by rewrite Htx, Htc.
  - cbn. intros H1 H2. destruct (Hfl H1 H2) as (-> & reason & exact & -> & Hr & Hp).
    exists e, reason, exact. split_and!; try done. intros Hex. rewrite <- Hc, (Hp Hex). cbn. by rewrite app_nil_r.
Qed.

(** A terminal whose put was cancelled was not put. *)
Lemma stopped_terminal d X l e d' sent failed :
  open_stream d X l → put_envelope env e true d = (Cancelled, d') → e_done e = true →
  stopped (with_flags sent failed d') X l.
Proof.
  intros [Hh Hn Hs Ho Hc Ht Hf] E He. rewrite <- He in E. destruct (put_envelope_spec _ _ _ _ _ Hh E) as [_ Hh'].
  split_and!; try done. rewrite <- Hc. by apply prefix_app_r.
Qed.

(** Without a confirmed terminal nothing is claimed but the prefix. *)
Lemma over_unconfirmed d X Y l fin fin' :
  X `prefix_of` Y → (terminal_sent d = true → transport_failure_published d = false → False) →
  over d X fin l → over d Y fin' l.
Proof.
  intros HXY Hno (Hh & Hn & front & Hf & Hd & Hl & _). split; [done|]. split; [done|]. exists front.
  split; [done|]. split; [by etrans|]. split; [done|]. intros H1 H2. by destruct (Hno H1 H2).
Qed.

Lemma over_unsent d X Y l fin : open_stream d X l → X `prefix_of` Y → over d Y fin l.
Proof.
  intros [Hh Hn Hs Ho Hc Ht Hf] HXY. split; [done|]. split; [done|]. exists l. split; [done|].
  split; [etrans; [|exact HXY]; rewrite <- Hc; by apply prefix_app_r|]. split; [by left|]. by rewrite Ht.
Qed.

Lemma stopped_prefix d X Y l : X `prefix_of` Y → stopped d X l → stopped d Y l.
Proof. intros HXY (? & ? & ? & ?). split_and!; try done. by etrans. Qed.

Lemma transport_failure_spec d X Y l fin :
  open_stream d X l → X `prefix_of` Y → left_loop (transport_failure env rid aid d) Y fin.
Proof.
  intros Ho HXY. unfold transport_failure, left_loop. destruct (put_envelope env _ true d) as [r d'] eqn:E.
  destruct r; cbn.
  - destruct (over_terminal d X l _ _ d' true true fin Ho E) as [l' Hl']; try done.
    exists l'. by eapply over_unconfirmed; [exact HXY| |exact Hl'].
  - destruct (over_terminal d X l _ _ d' false true fin Ho E) as [l' Hl']; try done.
    exists l'. by eapply over_unconfirmed; [exact HXY| |exact Hl'].
  - exists l. eapply stopped_prefix; [exact HXY|]. by eapply stopped_terminal.
Qed.

Lemma unqueued_leaves r d : (on_unqueued env rid aid r d).2 ≠ Go.
Proof. destruct r; cbn; unfold transport_failure; try (destruct (put_envelope _ _ _ _) as [[] ?]); done. Qed.

Lemma on_done_leaves c d : (on_done env rid aid publish_at c d).2 ≠ Go.
Proof.
  unfold on_done. destruct (flush_pending _ _ _ _) as [r d1]. destruct r; try apply unqueued_leaves.
  destruct (put_envelope _ _ _ _) as [r d2]. destruct r; [done|apply unqueued_leaves..].
Qed.

Lemma on_unqueued_spec r d X Y l fin :
  open_stream d X l → X `prefix_of` Y → left_loop (on_unqueued env rid aid r d) Y fin.
Proof.
  intros Ho HXY. destruct r; cbn; try by eapply transport_failure_spec.
  exists l. by eapply open_stopped.
Qed.

Lemma unflagged d d' X l : open_stream d X l → d' = with_channel (λ _, channel d') d → d' = with_flags false false d'.
Proof. intros [_ _ _ _ _ Hs Hf] ->. destruct d. cbn in *. by subst. Qed.

Lemma put_terminal_spec d X l x reason exact :
  open_stream d X l → x_finish x = Some reason → x_tool x = None → (exact = true → pending_text d = []) →
  left_loop (put_terminal env rid aid x d) X (Some (reason, exact)).
Proof.
  intros Ho Hx Ht Hp. unfold put_terminal, left_loop. destruct (put_envelope env _ true d) as [r d'] eqn:E.
  pose proof (put_envelope_spec _ _ _ _ _ (os_history _ _ _ Ho) E) as [Hd _].
  destruct r; cbn.
  - eapply over_terminal; [exact Ho|exact E|done|done|done|cbn; by rewrite Ht|].
    intros _ _. split; [done|]. by exists reason, exact.
  - rewrite (unflagged _ _ _ _ Ho Hd).
    eapply over_terminal; [exact Ho|exact E|done|done|done|cbn; by rewrite Ht|by intros [=]].
  - exists l. rewrite (unflagged _ _ _ _ Ho Hd). by eapply stopped_terminal.
Qed.

Lemma on_cancel_spec d X l :
  open_stream d X l → left_loop (on_cancel env rid aid publish_at d) X (Some ("cancelled"%string, true)).
Proof.
  intros Ho. unfold on_cancel. apply open_await in Ho. set (d0 := with_channel (await env) d) in *. clearbody d0.
  destruct (aborts env _); [exists l; by eapply open_stopped; [apply open_await|]|].
  destruct (flush_pending env rid aid _) as [r d1] eqn:E.
  destruct (flush_pending_spec _ X l _ _ (open_await _ _ _ Ho) E) as (l1 & Ho1 & Hp). destruct r.
  - eapply put_terminal_spec; [exact Ho1|done|done|auto].
  - exists l1. by eapply over_unsent.
  - exists l1. by eapply open_stopped.
Qed.

Lemma on_exhausted_spec d X l :
  open_stream d X l → left_loop (on_exhausted env rid aid publish_at d) X (Some ("stop"%string, true)).
Proof.
  intros Ho. unfold on_exhausted. destruct (flush_pending env rid aid _) as [r d1] eqn:E.
  destruct (flush_pending_spec _ X l _ _ Ho E) as (l1 & Ho1 & Hp).
  destruct r; [|by eapply on_unqueued_spec..].
  eapply put_terminal_spec; [exact Ho1|done|done|auto].
Qed.

Lemma open_note c d X l : open_stream d X l → open_stream (note_first_text env c d) X l.
Proof.
  intros Ho. unfold note_first_text. destruct (text_delta c); [done|]. destruct (first_text_at d); [done|].
  destruct Ho. by constructor.
Qed.

Lemma open_accumulate c d X l :
  open_stream d X l → open_stream (accumulate c d) (X ++ (Txt 0 <$> text_delta c)) l.
Proof.
  intros [Hh Hn Hs Ho Hc Ht Hf]. constructor; try done. cbn. rewrite <- Hc, <- app_assoc. f_equal.
  destruct (text_delta c) as [|a t]; [cbn; by rewrite app_nil_r|].
  rewrite concat_app, fmap_app. cbn. by rewrite app_nil_r.
Qed.

(** A put that did not queue leaves the stream as it was. *)
Lemma open_unput d X l e t d' r :
  open_stream d X l → put_envelope env e t d = (r, d') → t = e_done e → r ≠ Queued → open_stream d' X l.
Proof.
  intros Ho E -> Hr. pose proof (put_envelope_spec _ _ _ _ _ (os_history _ _ _ Ho) E) as [Hd Hh].
  rewrite Hd. destruct Ho. constructor; try done. cbn. by destruct r.
Qed.

Lemma on_done_spec c d X l :
  open_stream d X l →
  left_loop (on_done env rid aid publish_at c d) (X ++ (Txt 0 <$> text_delta c)) (Some (finish_or_stop c, true)).
Proof.
  intros Ho. unfold on_done. apply (open_accumulate c) in Ho.
  destruct (flush_pending env rid aid _) as [r d1] eqn:E.
  destruct (flush_pending_spec _ _ l _ _ Ho E) as (l1 & Ho1 & Hp).
  destruct r; [|by eapply on_unqueued_spec..].
  destruct (put_envelope env _ true d1) as [r d2] eqn:E2. destruct r.
  - unfold left_loop. cbn. eapply over_terminal; [exact Ho1|exact E2|done..|]. intros _ _. split; [done|]. eexists _, _. auto.
  - eapply on_unqueued_spec; [by eapply open_unput|done].
  - eapply on_unqueued_spec; [by eapply open_unput|done].
Qed.

(** Chunks after which the loop goes on *)
Definition goes_on (r : Driver * flow) (Y : list piece) : Prop :=
  match r.2 with
  | Go => ∃ l', open_stream r.1 Y l'
  | _ => ∀ Z fin, Y `prefix_of` Z → left_loop r Z fin
  end.

Lemma unqueued_goes_on r d X Y l :
  open_stream d X l → X `prefix_of` Y → goes_on (on_unqueued env rid aid r d) Y.
Proof.
  intros Ho HXY. assert (∀ Z fin, Y `prefix_of` Z → left_loop (on_unqueued env rid aid r d) Z fin) as H.
  { intros Z fin HZ. eapply on_unqueued_spec; [exact Ho|by etrans]. }
  pose proof (unqueued_leaves r d) as Hl. unfold goes_on. by destruct (on_unqueued env rid aid r d) as [d' []].
Qed.

Lemma content_put e d d2 X l r :
  open_stream d X l → pending_text d = [] → put_envelope env e false d = (r, d2) →
  e_done e = false → e_seq e = seq d →
  goes_on (match r with Queued => (next_seq d2, Go) | _ => on_unqueued env rid aid r d2 end) (X ++ envelope_pieces e).
Proof.
  intros Ho Hp E He Hs. pose proof (open_put _ _ _ _ _ _ (X ++ envelope_pieces e) Ho E He Hs) as H.
  pose proof (put_envelope_spec e d r d2 l (os_history _ _ _ Ho)) as Hd. rewrite He in Hd.
  destruct (Hd E) as [Hd2 _]. clear Hd. destruct r; [|by eapply unqueued_goes_on; [exact H|apply prefix_app_r]..].
  unfold goes_on. cbn. eexists. apply H; [done|rewrite Hd2; by destruct Ho..|].
  rewrite Hd2. cbn. rewrite delivered_snoc, Hp, <- (os_content _ _ _ Ho), Hp. cbn. by rewrite !app_nil_r.
Qed.

Lemma on_tool_call_spec t d X l :
  open_stream d X l → goes_on (on_tool_call env rid aid t d) (X ++ [Tool 0 (wire_call t)]).
Proof.
  intros Ho. unfold on_tool_call. destruct (flush_pending env rid aid d) as [r d1] eqn:E.
  destruct (flush_pending_spec _ _ l _ _ Ho E) as (l1 & Ho1 & Hp).
  destruct r; [|by eapply unqueued_goes_on; [exact Ho1|apply prefix_app_r]..].
  destruct (put_envelope env _ false d1) as [r d2] eqn:E2.
  exact (content_put _ _ _ _ _ _ Ho1 (Hp eq_refl) E2 eq_refl eq_refl).
Qed.

Lemma on_text_spec c d X l :
  open_stream d X l → goes_on (on_text env rid aid c d) (X ++ (Txt 0 <$> text_delta c)).
Proof.
  intros Ho. unfold on_text. apply (open_accumulate c) in Ho.
  assert (open_stream (read_clock env (accumulate c d)).2 (X ++ (Txt 0 <$> text_delta c)) l) as Ho'.
  { destruct Ho. by constructor. }
  destruct (read_clock env (accumulate c d)) as [now d1]. cbn in Ho'. destruct (_ || _); [|by exists l].
  destruct (flush_pending env rid aid d1) as [r d2] eqn:E.
  destruct (flush_pending_spec _ _ l _ _ Ho' E) as (l1 & Ho1 & _).
  destruct r; [by exists l1|by eapply unqueued_goes_on..].
Qed.

(** A chunk that is not the last one *)
Lemma on_chunk_spec c d X l :
  tidy_chunk multi c → done c = false → open_stream d X l → (multi = true → pending_text d = []) →
  goes_on (on_chunk env rid aid multi publish_at c d) (X ++ chunk_pieces multi c) ∧
  (multi = true → pending_text (on_chunk env rid aid multi publish_at c d).1 = [] ∨
                  (on_chunk env rid aid multi publish_at c d).2 ≠ Go).
Proof.
  intros Ht Hdn Ho Hm. unfold on_chunk, chunk_pieces. rewrite Hdn. cbn [negb].
  assert (pending_text (note_first_text env c d) = pending_text d) as Hpn.
  { unfold note_first_text. destruct (text_delta c); [done|]. by destruct (first_text_at d). }
  apply (open_note c) in Ho. set (d0 := note_first_text env c d) in *. clearbody d0.
  destruct multi; cbn [andb].
  - specialize (Hm eq_refl). rewrite <- Hpn in Hm. unfold on_candidate_delta.
    destruct (put_envelope env _ false d0) as [r d2] eqn:E. split.
    + pose proof (content_put _ _ _ _ _ _ Ho Hm E eq_refl eq_refl) as H.
      assert (default 0 (if choice_index c =? 0 then None else Some (choice_index c)) = choice_index c) as Hci.
      { destruct (Z.eqb_spec (choice_index c) 0) as [->|]; done. }
      unfold envelope_pieces in H. cbn in H. rewrite Hci in H. exact H.
    + intros _. destruct r; [left|right; apply unqueued_leaves..].
      pose proof (put_envelope_spec _ d0 _ d2 l (os_history _ _ _ Ho) E) as [-> _]. done.
  - split; [|done]. destruct (tool_call_delta c) as [t|] eqn:Etc.
    + destruct Ht as [_ Ht]; [congruence|]. rewrite Ht by done. exact (on_tool_call_spec t _ _ _ Ho).
    + unfold pieces. cbn. rewrite app_nil_r. exact (on_text_spec c _ _ _ Ho).
Qed.

Lemma left_drive r X fin (d' : Driver) raised :
  left_loop r X fin → (let '(d, f) := r in (d, raises f)) = (d', raised) →
  ∃ l', if raised then stopped d' X l' else over d' X fin l'.
Proof. destruct r as [d f]. by intros [l H] [= <- <-]; exists l. Qed.

Lemma drive_spec events d X l d' raised :
  Forall (tidy multi) events → open_stream d X l → (multi = true → pending_text d = []) →
  drive env rid aid multi publish_at d events = (d', raised) →
  ∃ l', if raised then stopped d' (X ++ produced multi events) l'
        else over d' (X ++ produced multi events) (ending events) l'.
Proof.
  intros Ht. revert d X l. induction Ht as [|ev events Ht Hts IH]; intros d X l Ho Hm; cbn [drive].
  { cbn [produced ending]. rewrite app_nil_r. apply left_drive. eapply on_exhausted_spec. by do 2 apply open_await. }
  apply open_await in Ho. assert (multi = true → pending_text (with_channel (await env) d) = []) as Hm' by done.
  clear Hm. set (d0 := with_channel (await env) d) in *. clearbody d0.
  destruct ev as [c|message| |]; cbn [produced ending]; try rewrite app_nil_r.
  - apply open_await in Ho. assert (multi = true → pending_text (with_channel (await env) d0) = []) as Hm by done.
    clear Hm'. set (d1 := with_channel (await env) d0) in *. clearbody d1. destruct (done c) eqn:Edn.
    + assert (chunk_pieces multi c = Txt 0 <$> text_delta c) as ->.
      { unfold chunk_pieces, pieces. rewrite Edn, andb_false_r. destruct (tool_call_delta c) eqn:E; cbn.
        - destruct Ht as [? _]; [congruence|]. congruence.
        - by rewrite app_nil_r. }
      rewrite app_nil_r. unfold on_chunk. rewrite Edn, andb_false_r. apply (open_note c) in Ho.
      destruct (on_done_spec c _ _ _ Ho) as [l' H]. pose proof (on_done_leaves c (note_first_text env c d1)) as Hl.
      destruct (on_done env rid aid publish_at c _) as [d2 f]. destruct f; [done|by intros [= <- <-]; exists l'..].
    + pose proof (on_chunk_spec c _ _ _ Ht Edn Ho Hm) as [Hg Hp].
      destruct (on_chunk env rid aid multi publish_at c d1) as [d2 f]. rewrite app_assoc.
      destruct f; unfold goes_on in Hg; cbn in Hg, Hp.
      * destruct Hg as [l1 Ho1]. apply (IH _ _ _ Ho1). intros Hmt. by destruct (Hp Hmt).
      * intros [= <- <-]. apply Hg. by apply prefix_app_r.
      * intros [= <- <-]. by apply (Hg _ None), prefix_app_r.
  - apply left_drive. eapply put_terminal_spec; [by apply open_await|done|done|done].
  - apply left_drive. by eapply on_cancel_spec.
  - intros [= <- <-]. exists l. by eapply open_stopped.
Qed.

End driver.

(** ** Theorems *)

Lemma open_start now : open_stream (start now) [] [].
Proof. constructor; try done. split; [done|]. by exists []. Qed.

Lemma numbered_prefix l1 l2 : l1 `prefix_of` l2 → numbered l2 → numbered l1.
Proof.
  intros [k ->]. unfold numbered. rewrite fmap_app, length_app, Nat2Z.inj_add, seqZ_app by lia.
  intros H. apply app_inj_1 in H as [? _]; [done|]. by rewrite length_fmap, length_seqZ, Nat2Z.id.
Qed.

Lemma delivered_prefix l1 l2 : l1 `prefix_of` l2 → delivered l1 `prefix_of` delivered l2.
Proof. intros [k ->]. rewrite delivered_app. by apply prefix_app_r. Qed.

(** Everything that was put, at the end of the stream *)
Lemma stream_history env rid aid multi events d raised :
  Forall (tidy multi) events →
  drive env rid aid multi (clock env 1) (start (clock env 0)) events = (d, raised) →
  ∃ l, history (channel d) l false ∧ numbered l ∧ (∀ i e, l !! i = Some e → e_done e = true → S i = length l) ∧
       delivered l `prefix_of` produced multi events ∧
       (raised = false → over d (produced multi events) (ending events) l).
Proof.
  intros Ht E. destruct (drive_spec env rid aid multi _ events _ [] [] _ _ Ht (open_start _) (λ _, eq_refl) E) as [l Hl].
  exists l. assert (∀ front i e, Forall not_done front → front !! i = Some e → e_done e = true → False) as Hnd.
  { intros front i e Hf Hi He. rewrite Forall_lookup in Hf. specialize (Hf i e Hi). unfold not_done in Hf. congruence. }
  destruct raised.
  - destruct Hl as (Hh & Hn & Ho & Hc). split_and!; try done.
    intros i e Hi He. by destruct (Hnd _ _ _ Ho Hi He).
  - pose proof Hl as (Hh & Hn & front & Hf & Hd & Hcases & _). split_and!; try done.
    + intros i e Hi He. destruct Hcases as [->|(t & -> & Ht' & _)]; [by destruct (Hnd _ _ _ Hf Hi He)|].
      destruct (decide (i < length front)%nat) as [Hlt|Hge].
      * rewrite lookup_app_l in Hi by done. by destruct (Hnd _ _ _ Hf Hi He).
      * apply lookup_lt_Some in Hi. rewrite length_app in *. cbn in *. lia.
    + destruct Hcases as [->|(t & -> & _ & Htd)]; [done|]. rewrite delivered_app, Htd, app_nil_r. done.
Qed.

(** C39 — the wire of a generation is well formed, whatever fails.  The envelopes the
    gateway receives are numbered 0, 1, 2, ... without a gap, nothing follows a terminal,
    and their text and tool calls are a prefix of what the adapter produced: content is
    never reordered, duplicated or skipped, whether the publisher stalls, a publish fails,
    the client cancels, the iterator raises or the task itself is cancelled. *)
Theorem wire_well_formed env rid aid multi events :
  Forall (tidy multi) events →
  let w := out_wire (stream_generate env rid aid multi events) in
  e_seq <$> w = seqZ 0 (Z.of_nat (length w)) ∧
  (∀ i e, w !! i = Some e → e_done e = true → S i = length w) ∧
  delivered w `prefix_of` produced multi events.
Proof.
  intros Ht w. subst w. unfold stream_generate. destruct (drive _ _ _ _ _ _ _) as [d raised] eqn:E.
  destruct (stream_history _ _ _ _ _ _ _ Ht E) as (l & Hh & Hn & Hlast & Hp & _).
  destruct (drive_close env (channel d)) as [closed ch] eqn:Ec.
  destruct (history_close _ _ _ _ _ Hh Ec) as [Hw _]. cbn. split; [by eapply numbered_prefix|]. split.
  - intros i e Hi He. pose proof (prefix_length _ _ Hw). pose proof (lookup_lt_Some _ _ _ Hi).
    pose proof (Hlast i e (prefix_lookup_Some _ _ _ _ Hi Hw) He). lia.
  - etrans; [by apply delivered_prefix|done].
Qed.

Lemma acked_over env rid aid multi events :
  Forall (tidy multi) events →
  out_acked (stream_generate env rid aid multi events) = true →
  out_raised (stream_generate env rid aid multi events) = false ∧ ∃ front t reason exact,
    ending events = Some (reason, exact) ∧
    out_wire (stream_generate env rid aid multi events) = front ++ [t] ∧
    Forall not_done front ∧ e_done t = true ∧ e_finish t = Some reason ∧ delivered [t] = [] ∧
    delivered front `prefix_of` produced multi events ∧
    (exact = true → delivered front = produced multi events).
Proof.
  intros Ht. unfold stream_generate. destruct (drive _ _ _ _ _ _ _) as [d raised] eqn:E.
  destruct (stream_history _ _ _ _ _ _ _ Ht E) as (l & Hh & _ & _ & _ & Hover).
  destruct (drive_close env (channel d)) as [closed ch] eqn:Ec. cbn.
  destruct (history_close _ _ _ _ _ Hh Ec) as [_ Hok].
  intros [[[Hr Hs]%andb_true_iff Hk]%andb_true_iff Hf]%andb_true_iff.
  apply negb_true_iff in Hr, Hf. split; [done|]. apply orb_false_iff in Hr as [Hr _].
  destruct closed as [[]|]; [|done..]. destruct (Hok eq_refl) as [-> _]. destruct (Hover Hr) as (_ & _ & front & Hnd & Hp & Hcase & Hc).
  destruct (Hc Hs Hf) as (t & reason & exact & He & -> & Htd & Hfin & Hex). exists front, t, reason, exact.
  split_and!; try done. destruct Hcase as [Hn|(t' & Hn & _ & ?)].
  - apply (f_equal length) in Hn. rewrite length_app in Hn. cbn in Hn. lia.
  - apply app_inj_tail in Hn as [_ ->]. done.
Qed.

Lemma acked_delivers env rid aid multi events reason :
  Forall (tidy multi) events → ending events = Some (reason, true) →
  out_acked (stream_generate env rid aid multi events) = true →
  delivered (out_wire (stream_generate env rid aid multi events)) = produced multi events.
Proof.
  intros Ht He Ha. destruct (acked_over _ _ _ _ _ Ht Ha) as (_ & front & t & r & ex & He' & -> & _ & _ & _ & Htd & _ & Hex).
  rewrite He in He'. injection He' as <- <-. rewrite delivered_app, Htd, app_nil_r. auto.
Qed.

(** C16 — an acknowledged work item was answered in full.  When the processor acknowledges
    a generation, whatever the pace of the publisher, whichever publishes fail and wherever
    the processing task is cancelled, the gateway has received every envelope up to one
    terminal, which is last and carries the finish reason of the stream, and in front of it
    all text and tool calls the adapter produced, in order (only when the adapter itself
    raised may the last, still coalescing text be missing before the error).  An item whose
    content was dropped, whose terminal was not confirmed, or whose task was left by an
    exception, as a cancellation at the wait for a chunk, at [aclose], at a put or at the
    wait for the publisher leaves it, is never acknowledged, so it is redelivered.  A
    cancellation at an await inside [_suppress] is swallowed: that task goes on, and may
    acknowledge an answer that is complete ([swallowed_cancellation]). *)
Theorem ack_means_delivered env rid aid multi events :
  Forall (tidy multi) events →
  out_acked (stream_generate env rid aid multi events) = true →
  out_raised (stream_generate env rid aid multi events) = false ∧ ∃ front t reason exact,
    ending events = Some (reason, exact) ∧
    out_wire (stream_generate env rid aid multi events) = front ++ [t] ∧
    Forall (λ e, e_done e = false) front ∧ e_done t = true ∧ e_finish t = Some reason ∧
    (if exact then delivered front = produced multi events else delivered front `prefix_of` produced multi events).
Proof.
  intros Ht Ha. destruct (acked_over _ _ _ _ _ Ht Ha) as (? & front & t & r & ex & ? & ? & ? & ? & ? & _ & ? & ?).
  split; [done|]. exists front, t, r, ex. split_and!; try done. destruct ex; auto.
Qed.

(** A publisher that keeps up, on a clock that stands still; one whose third publish
    fails. *)
Definition prompt_env : Env := mkEnv (λ _, f0) (λ _, replicate 65 true) (λ _, false) (λ _, false).
Definition broken_env : Env := mkEnv (λ _, f0) (λ n, if (n =? 7)%nat then [false] else [true]) (λ _, false) (λ _, false).

Definition tool_delta : ToolCallDelta := mkDelta 0 (Some (to_text "call_0")) (Some (to_text "f")) [].

Definition some_events : list event :=
  [EvChunk (delta "Hello, "); EvChunk (delta "world"); EvChunk (call_chunk tool_delta 0);
   EvChunk (delta "."); EvChunk (last_chunk " Bye")].

Lemma some_events_tidy : Forall (tidy false) some_events.
Proof. repeat constructor; done. Qed.

Lemma wire_well_formed_witness :
  let w := out_wire (stream_generate broken_env "r" "a" false some_events) in
  w ≠ [] ∧ delivered w `prefix_of` produced false some_events ∧ delivered w ≠ produced false some_events.
Proof.
  intros w. destruct (wire_well_formed broken_env "r" "a" false some_events some_events_tidy) as (_ & _ & H).
  split; [vm_compute; discriminate|]. split; [exact H|vm_compute; discriminate].
Defined.

Lemma ack_means_delivered_witness :
  delivered (out_wire (stream_generate prompt_env "r" "a" false some_events)) =
  (Txt 0 <$> to_text "Hello, world") ++ [Tool 0 (wire_call tool_delta)] ++ (Txt 0 <$> to_text ". Bye").
Proof.
  destruct (ack_means_delivered prompt_env "r" "a" false some_events some_events_tidy)
    as (_ & front & t & reason & exact & He & Hw & _ & _ & _ & Hd); [vm_compute; reflexivity|].
  assert (exact = true) as -> by (vm_compute in He; by injection He).
  rewrite Hw, delivered_app, Hd.
  assert (delivered [t] = []) as ->; [|vm_compute; reflexivity].
  assert (last (out_wire (stream_generate prompt_env "r" "a" false some_events)) = Some t) as Hl
    by (rewrite Hw; apply last_snoc).
  vm_compute in Hl. injection Hl as <-. reflexivity.
Defined.

(** [_Suppress.__exit__] returns [True] for a [CancelledError] too.  A task cancelled while
    it waits for [cancel_task], or for the heartbeat, does not stop: it streams the rest of
    the answer and acknowledges the item.  Cancelled one await earlier or at the wait for the
    publisher it stops without an acknowledgement. *)
Lemma swallowed_cancellation :
  let run n events := stream_generate (mkEnv (λ _, f0) (λ _, replicate 65 true) (λ _, false) (λ k, (k =? n)%nat)) "r" "a" false events in
  let cancelled := [EvChunk (delta "Hello"); EvAbort] in
  let whole := [EvChunk (delta "Hello"); EvChunk (last_chunk " Bye")] in
  (out_raised (run 1%nat whole) = false ∧ out_acked (run 1%nat whole) = true) ∧
  (out_raised (run 4%nat whole) = false ∧ out_acked (run 4%nat whole) = true) ∧
  (out_raised (run 5%nat whole) = true ∧ out_acked (run 5%nat whole) = false) ∧
  (out_raised (run 9%nat cancelled) = true ∧ out_acked (run 9%nat cancelled) = false).
Proof. vm_compute. auto 10. Qed.

(** ** A publisher that keeps up *)

(** The publisher takes everything from the queue at every await, its publishes succeed, and
    the task is not cancelled. *)
Definition healthy (env : Env) : Prop :=
  ∀ n, Forall (λ ok, ok = true) (served env n) ∧ (CHUNK_QUEUE_MAX < length (served env n))%nat ∧ aborts env n = false.

(** The publisher runs, the queue holds at most [n] envelopes and no sentinel. *)
Definition calm (ch : Channel) (n : nat) : Prop :=
  (∃ saw, publisher ch = Running saw) ∧ Forall is_Some (chunk_queue ch) ∧ (length (chunk_queue ch) <= n)%nat.

Lemma drain_all oks ch saw q end_ :
  Forall (λ ok, ok = true) oks → publisher ch = Running saw → chunk_queue ch = q ++ end_ →
  Forall is_Some q → (length q <= length oks)%nat →
  ∃ oks' ch', foldl publisher_loop_step ch oks = foldl publisher_loop_step ch' oks' ∧
    (∃ saw, publisher ch' = Running saw) ∧ chunk_queue ch' = end_ ∧ length oks' = (length oks - length q)%nat.
Proof.
  intros Hoks. revert ch saw q. induction Hoks as [|ok oks -> Hoks IH]; intros ch saw q Hp Hq Hs Hl.
  - destruct q; [|cbn in Hl; lia]. exists [], ch. eauto.
  - destruct Hs as [|x q [[e t] ->] Hs]; [exists (true :: oks), ch; cbn; eauto|].
    set (ch1 := mkChannel (q ++ end_) (wire ch ++ [e]) (Running (saw || t)) (awaits ch)).
    assert (publisher_loop_step ch true = ch1) as E by (unfold publisher_loop_step; by rewrite Hp, Hq).
    cbn [foldl]. rewrite E. apply (IH ch1 (saw || t) q); [done..|cbn in *; lia].
Qed.

Lemma stuck_channel oks ch :
  (∀ ok, publisher_loop_step ch ok = ch) → foldl publisher_loop_step ch oks = ch.
Proof. intros H. induction oks as [|ok oks IH]; [done|]. cbn. by rewrite H. Qed.

Section healthy.
Context (env : Env) (Hh : healthy env).

Lemma calm_await ch n : calm ch n → (n <= CHUNK_QUEUE_MAX)%nat → calm (await env ch) 0.
Proof.
  intros ([saw Hp] & Hs & Hl) Hn. destruct (Hh (awaits ch)) as (Hoks & Hlen & _).
  destruct (drain_all _ ch saw (chunk_queue ch) [] Hoks Hp (eq_sym (app_nil_r _)) Hs) as (oks' & ch' & E & [saw' Hp'] & Hq & _); [lia|].
  unfold await. rewrite E, stuck_channel by (intros; unfold publisher_loop_step; by rewrite Hp', Hq).
  unfold calm. cbn. rewrite Hq. split; [eauto|]. split; [constructor|cbn; lia].
Qed.

(** The sentinel at the end of the queue is reached. *)
Lemma calm_close ch :
  calm ch CHUNK_QUEUE_MAX → ∃ saw, publisher (await env ch) = Running saw ∧
    drive_close env ch = (Some saw, await env (push None (await env ch))).
Proof.
  intros Hc. apply calm_await in Hc as ([saw Hp] & _ & Hl); [|done]. exists saw. split; [done|].
  unfold drive_close. set (ch1 := await env ch) in *. clearbody ch1. destruct (chunk_queue ch1) as [|] eqn:Eq; [|cbn in Hl; lia].
  unfold has_room. rewrite Eq. change ((length [] <? CHUNK_QUEUE_MAX)%nat) with true. cbn [length].
  destruct (Hh (awaits (push None ch1))) as (_ & _ & ->).
  assert (publisher (await env (push None ch1)) = Returned saw) as ->; [|done].
  unfold await, push. cbn. destruct (Hh (awaits ch1)) as (_ & Hlen & _).
  destruct (served env (awaits ch1)) as [|ok oks]; [cbn in Hlen; lia|]. cbn [foldl].
  rewrite stuck_channel; unfold publisher_loop_step; cbn; rewrite Hp, Eq; done.
Qed.

Lemma calm_put ch n e t : calm ch n → (n < CHUNK_QUEUE_MAX)%nat →
  put env (Some (e, t)) ch = (Queued, push (Some (e, t)) ch) ∧ calm (push (Some (e, t)) ch) (S n).
Proof.
  intros ([saw Hp] & Hs & Hl) Hn. unfold put, has_room. rewrite (proj2 (Nat.ltb_lt _ _)) by lia.
  split; [done|]. unfold calm. cbn. split; [eauto|]. split.
  - apply Forall_app_2; [done|]. repeat constructor; eauto.
  - rewrite length_app. cbn. lia.
Qed.

Context (rid aid : string) (multi : bool) (publish_at : float).

Definition quiet (d : Driver) (n : nat) : Prop :=
  calm (channel d) n ∧ transport_failure_published d = false.

Lemma quiet_put d n e t : quiet d n → (n < CHUNK_QUEUE_MAX)%nat →
  ∃ d', put_envelope env e t d = (Queued, d') ∧ quiet d' (S n).
Proof.
  intros [Hc Hf] Hn. destruct (calm_put _ _ e t Hc Hn) as [E Hc']. unfold put_envelope. rewrite E.
  eexists. split; [done|]. by split.
Qed.

Lemma quiet_flush d n : quiet d n → (n < CHUNK_QUEUE_MAX)%nat →
  ∃ d', flush_pending env rid aid d = (Queued, d') ∧ quiet d' (S n).
Proof.
  intros Hq Hn. unfold flush_pending. destruct (pending_text d) eqn:E.
  - exists d. split; [done|]. destruct Hq as [(? & ? & ?) ?]. split; [|done]. split_and!; [done..|lia].
  - destruct (quiet_put d n (chunk rid aid d (concat (t :: l)) false
        (mkExtras (seq d =? 0) None None None None None None None (pending_logprobs d) [] 0)) false Hq Hn)
      as (d' & -> & Hq'). eexists. split; [done|]. exact Hq'.
Qed.

Lemma quiet_terminal d n x : quiet d n → (n < CHUNK_QUEUE_MAX)%nat →
  ∃ d', put_terminal env rid aid x d = (d', Stop) ∧ quiet d' (S n) ∧ terminal_sent d' = true.
Proof.
  intros Hq Hn. unfold put_terminal.
  destruct (quiet_put d n (chunk rid aid d [] true x) true Hq Hn) as (d' & -> & Hq'). eexists. split; [done|]. by split.
Qed.

Lemma quiet_await d n : quiet d n → (n <= CHUNK_QUEUE_MAX)%nat → quiet (with_channel (await env) d) 0.
Proof. intros [Hc Hf] Hn. split; [by eapply calm_await|done]. Qed.

Lemma quiet_mono d n m : quiet d n → (n <= m)%nat → quiet d m.
Proof. intros [(? & ? & ?) ?] ?. split; [|done]. split_and!; [done..|lia]. Qed.

Lemma queue_big n : (n <= 3)%nat → (n < CHUNK_QUEUE_MAX)%nat.
Proof. unfold CHUNK_QUEUE_MAX. lia. Qed.

(** A flush and what is put behind it, with an empty queue *)
Lemma quiet_flush_terminal d x : quiet d 0 →
  ∃ d1, flush_pending env rid aid d = (Queued, d1) ∧
    ∃ d', put_terminal env rid aid (x d1) d1 = (d', Stop) ∧ quiet d' 2 ∧ terminal_sent d' = true.
Proof.
  intros Hq. destruct (quiet_flush d 0 Hq) as (d1 & E & Hq1); [apply queue_big; lia|].
  exists d1. split; [done|]. apply quiet_terminal; [done|]. apply queue_big. lia.
Qed.

Lemma quiet_on_chunk c d : quiet d 0 → done c = false →
  ∃ d', on_chunk env rid aid multi publish_at c d = (d', Go) ∧ quiet d' 2.
Proof.
  intros Hq Hdn. unfold on_chunk. rewrite Hdn.
  assert (quiet (note_first_text env c d) 0) as Hq0.
  { unfold note_first_text. destruct (text_delta c); [done|]. by destruct (first_text_at d). }
  set (d0 := note_first_text env c d) in *. clearbody d0. destruct multi; cbn [andb negb].
  - unfold on_candidate_delta.
    match goal with |- context [put_envelope env ?e false d0] =>
      destruct (quiet_put d0 0 e false Hq0 ltac:(apply queue_big; lia)) as (d1 & -> & Hq1) end.
    eexists. split; [done|]. by apply (quiet_mono _ 1); [|lia].
  - destruct (tool_call_delta c) as [t|].
    + unfold on_tool_call. destruct (quiet_flush d0 0 Hq0) as (d1 & -> & Hq1); [apply queue_big; lia|].
      match goal with |- context [put_envelope env ?e false d1] =>
        destruct (quiet_put d1 1 e false Hq1 ltac:(apply queue_big; lia)) as (d2 & -> & Hq2) end.
      eexists. split; [done|]. exact Hq2.
    + unfold on_text. cbn [read_clock].
      match goal with |- context [flush_pending env rid aid ?d1] => set (d2 := d1) end.
      assert (quiet d2 0) as Hq2 by exact Hq0. clearbody d2. destruct (_ || _).
      * destruct (quiet_flush d2 0 Hq2) as (d3 & -> & Hq3); [apply queue_big; lia|].
        eexists. split; [done|]. by apply (quiet_mono _ 1); [|lia].
      * eexists. split; [done|]. by apply (quiet_mono _ 0); [|lia].
Qed.

Lemma quiet_on_done c d : quiet d 0 →
  ∃ d', on_done env rid aid publish_at c d = (d', Stop) ∧ quiet d' 2 ∧ terminal_sent d' = true.
Proof.
  intros Hq. unfold on_done. destruct (quiet_flush (accumulate c d) 0 Hq) as (d1 & -> & Hq1); [apply queue_big; lia|].
  match goal with |- context [put_envelope env ?e true d1] =>
    destruct (quiet_put d1 1 e true Hq1 ltac:(apply queue_big; lia)) as (d2 & -> & Hq2) end. eexists. split; [done|]. by split.
Qed.

Lemma quiet_drive events d :
  ending events ≠ None → quiet d 2 →
  ∃ d', drive env rid aid multi publish_at d events = (d', false) ∧ quiet d' 2 ∧ terminal_sent d' = true.
Proof.
  revert d. induction events as [|ev events IH]; intros d He Hq; cbn [drive];
    (apply quiet_await in Hq; [|pose proof (queue_big 2 ltac:(lia)); lia]);
    set (d0 := with_channel (await env) d) in *; clearbody d0;
    pose proof (quiet_await _ _ Hq (Nat.le_0_l _)) as Hq1; set (d1 := with_channel (await env) d0) in *; clearbody d1.
  { unfold on_exhausted.
    destruct (quiet_flush_terminal d1 (λ d, finish_extras publish_at d "stop") Hq1) as (d2 & -> & d3 & -> & H). by exists d3. }
  destruct ev as [c|message| |]; [| | |done].
  - destruct (done c) eqn:Edn.
    + unfold on_chunk. rewrite Edn, andb_false_r.
      destruct (quiet_on_done c (note_first_text env c d1)) as (d2 & -> & H); [|by exists d2].
      unfold note_first_text. destruct (text_delta c); [done|]. by destruct (first_text_at d1).
    + destruct (quiet_on_chunk c d1 Hq1 Edn) as (d2 & -> & Hq2). apply IH; [|done]. cbn in He. by rewrite Edn in He.
  - destruct (quiet_terminal d1 0 (error_extras "inference_error" message) Hq1) as (d2 & E & H1 & H2);
      [apply queue_big; lia|]. unfold on_error. rewrite E. exists d2. split; [done|]. split; [by eapply quiet_mono; [exact H1|lia]|done].
  - unfold on_cancel. destruct (Hh (awaits (channel (with_channel (await env) d0)))) as (_ & _ & ->).
    apply quiet_await in Hq; [|lia]. apply quiet_await in Hq; [|lia].
    destruct (quiet_flush_terminal _ (λ d, finish_extras publish_at d "cancelled") Hq) as (d2 & -> & d3 & -> & H). by exists d3.
Qed.
End healthy.

(** A healthy stream is acknowledged.  When the publisher keeps up and its publishes
    succeed, every generation whose task is not cancelled is acknowledged, however it ends:
    by its terminal, by the end of the iterator, by an exception or by a client's cancel.
    (With [ack_means_delivered], the client then has the whole answer.) *)
Theorem healthy_stream_acked env rid aid multi events :
  healthy env → Forall (tidy multi) events → ending events ≠ None →
  out_acked (stream_generate env rid aid multi events) = true.
Proof.
  intros Hh Ht He. unfold stream_generate.
  destruct (quiet_drive env Hh rid aid multi (clock env 1) events (start (clock env 0)) He) as (d & E & [Hc Hf] & Hs).
  { split; [|done]. split; [by eexists|]. split; [constructor|cbn; lia]. }
  rewrite E. destruct (stream_history _ _ _ _ _ _ _ Ht E) as (l & Hl & _ & _ & _ & Hover).
  assert (calm (channel d) CHUNK_QUEUE_MAX) as Hc'.
  { destruct Hc as (? & ? & ?). split_and!; [done..|]. unfold CHUNK_QUEUE_MAX. lia. }
  destruct (calm_close env Hh _ Hc') as (saw & Hp & ->). cbn. rewrite Hs, Hf. cbn. rewrite andb_true_r.
  apply calm_await with (env := env) in Hc' as (_ & _ & Hq); [|done|done].
  apply (history_await env) in Hl. unfold history in Hl. rewrite Hp in Hl. destruct Hl as (-> & q & -> & Hq').
  destruct (Hover eq_refl) as (_ & _ & front & _ & _ & _ & Hcf). destruct (Hcf Hs Hf) as (t & _ & _ & _ & Hw & Htd & _).
  destruct q; [|rewrite Hq' in Hq; cbn in Hq; lia]. rewrite app_nil_r in Hw.
  rewrite Hw, existsb_app. cbn. by rewrite Htd, orb_true_r.
Qed.

Lemma healthy_stream_acked_witness :
  out_acked (stream_generate prompt_env "r" "a" false [EvChunk (delta "Hel"); EvCancel]) = true.
Proof.
  apply (healthy_stream_acked prompt_env "r" "a" false).
  - intros n. split; [apply Forall_replicate; reflexivity|]. split; [vm_compute; lia|reflexivity].
  - repeat constructor. done.
  - discriminate.
Defined.

(** ** The tool-call parser in front of the stream *)

Definition delta_like (c : GenerationChunk) : Prop :=
  done c = false ∧ (tool_call_delta c ≠ None → text_delta c = []).
Definition terminal_like (c : GenerationChunk) : Prop :=
  done c = true ∧ tool_call_delta c = None ∧ text_delta c = [].

(** A complete stream: deltas, then one terminal. *)
Definition complete (l : list GenerationChunk) : Prop :=
  ∃ front t, l = front ++ [t] ∧ Forall delta_like front ∧ terminal_like t.

Lemma complete_app l1 l2 : Forall delta_like l1 → complete l2 → complete (l1 ++ l2).
Proof. intros H1 (f & t & -> & Hf & Ht). exists (l1 ++ f), t. rewrite app_assoc. split_and!; try done. by apply Forall_app_2. Qed.

Lemma complete_one t : terminal_like t → complete [t].
Proof. intros. exists [], t. split_and!; try done. Qed.

(** Deltas so far, or the end of the stream. *)
Definition shaped (out : list GenerationChunk) (term : bool) : Prop :=
  if term then complete out else Forall delta_like out.

Lemma shaped_app l1 l2 term : Forall delta_like l1 → shaped l2 term → shaped (l1 ++ l2) term.
Proof. destruct term; cbn; [apply complete_app|]. intros. by apply Forall_app_2. Qed.

Lemma text_delta_like t b ci : delta_like (text_chunk t b ci).
Proof. by split. Qed.

Lemma shaped_error msg : shaped [parse_error_chunk msg] true.
Proof. apply complete_one. done. Qed.

#[local] Hint Resolve text_delta_like shaped_error : core.

Section parser_shape.
Context (loads : text → res string json) (dumps : json → text) (fresh_id : Z → text).
Context (fmt : ToolCallFormat) (parallel : bool).

Lemma process_loop_shaped ci hint fuel st rest :
  let '(_, out, term) := process_loop loads dumps fresh_id fmt parallel ci hint fuel st rest in shaped out term.
Proof.
  revert st rest. induction fuel as [|fuel IH]; intros st rest; [constructor|]. cbn [process_loop].
  destruct rest as [|a rest']; [constructor|]. set (rest := a :: rest'). destruct (in_tool_call st).
  - destruct (find CLOSE rest) as [i|]; [|destruct (_ <? _); [by auto|constructor]].
    destruct (tool_call_deltas _ _ _ _ _ _) as [ds|]; [|by auto].
    match goal with |- context [process_loop _ _ _ _ _ _ _ fuel ?x ?y] => specialize (IH x y);
      destruct (process_loop loads dumps fresh_id fmt parallel ci hint fuel x y) as [[? out] term] end.
    apply shaped_app; [|done]. apply Forall_fmap, Forall_true. by intros d; split.
  - destruct (find OPEN rest) as [i|].
    + match goal with |- context [let '(_, _) := ?m in _] => assert (Forall delta_like m.2) as Hm; [|destruct m as [st1 out0]] end.
      { destruct (_ ++ take i rest); [constructor|]. destruct (mark_first st hint). constructor; [auto|constructor]. }
      cbn in Hm. destruct (negb _ && _); [by apply (shaped_app _ _ true); [|apply complete_one]|].
      match goal with |- context [process_loop _ _ _ _ _ _ _ fuel ?x ?y] => specialize (IH x y);
        destruct (process_loop loads dumps fresh_id fmt parallel ci hint fuel x y) as [[? out] term] end.
      by apply shaped_app.
    + destruct (_ <? _); [by auto|]. destruct (0 <? _)%nat; [|constructor].
      destruct (mark_first _ hint). by repeat constructor.
Qed.

Lemma process_text_shaped ci hint st t :
  let '(_, out, term) := process_text loads dumps fresh_id fmt parallel ci hint st t in shaped out term.
Proof. unfold process_text. destruct t; [constructor|]. apply process_loop_shaped. Qed.

Lemma flush_open_shaped hint ss :
  let '(_, out, term) := flush_open hint ss in shaped out term.
Proof.
  induction ss as [|[ci st] ss IH]; [constructor|]. cbn [flush_open].
  destruct (closed st); [by destruct (flush_open hint ss) as [[? ?] ?]|]. destruct (in_tool_call st); [by auto|].
  match goal with |- context [let '(_, _) := ?m in _] => assert (Forall delta_like m.2) as Hm; [|destruct m as [st1 out0]] end.
  { destruct (text_buffer st); [constructor|]. destruct (mark_first st hint). constructor; [auto|constructor]. }
  destruct (flush_open hint ss) as [[? ?] ?]. by apply shaped_app.
Qed.

Lemma parse_stream_complete ss chunks :
  Forall plain chunks → complete (parse_stream loads dumps fresh_id fmt parallel ss chunks).
Proof.
  intros Hp. revert ss. induction Hp as [|c chunks (Hci & Hlp & Hcand & Hfin) Hp IH]; intros ss; cbn [parse_stream].
  - pose proof (flush_open_shaped false ss) as Hf. destruct (flush_open false ss) as [[? out] []]; [done|].
    by apply complete_app; [|apply complete_one].
  - assert (match finish_reason c with Some _ => negb (done c) | None => false end = false) as ->.
    { destruct (done c); [by destruct (finish_reason c)|by rewrite Hfin]. }
    set (st := state_of ss (choice_index c)).
    assert (match text_delta c with [] => (st, [], false)
      | x :: l => process_text loads dumps fresh_id fmt parallel (choice_index c) (is_first c) st (x :: l) end
      = process_text loads dumps fresh_id fmt parallel (choice_index c) (is_first c) st (text_delta c)) as ->
      by by destruct (text_delta c).
    pose proof (process_text_shaped (choice_index c) (is_first c) st (text_delta c)) as Hm.
    destruct (process_text _ _ _ _ _ _ _ _ _) as [[st' out] term].
    destruct term; [done|]. rewrite Hlp. cbn [app]. apply complete_app; [done|]. destruct (done c); [|apply IH].
    unfold finish_stream, parse_terminal. rewrite Hcand.
    match goal with |- context [flush_open ?h ?x] => pose proof (flush_open_shaped h x) as Hf;
      destruct (flush_open h x) as [[ss' out'] []] end; [done|].
    destruct (mark_first _ _). by apply complete_app; [|apply complete_one].
Qed.
End parser_shape.

Definition item_pieces (i : item) : list piece :=
  match i with Chr a => [Txt 0 a] | Call d => [Tool 0 (wire_call d)] | Err _ => [] end.

Lemma chunk_items c : chunk_pieces false c = mbind item_pieces (items_of c).
Proof.
  unfold chunk_pieces, pieces, items_of. cbn [andb]. rewrite !bind_app.
  assert (∀ t : text, mbind item_pieces (Chr <$> t) = Txt 0 <$> t) as ->.
  { intros t. induction t as [|a t IH]; [done|]. cbn in *. by rewrite IH. }
  f_equal. destruct (tool_call_delta c), (error_code c); done.
Qed.

Lemma complete_produced l :
  complete l → produced false (EvChunk <$> l) = mbind item_pieces (items l) ∧
               (∃ reason, ending (EvChunk <$> l) = Some (reason, true)) ∧ Forall (tidy false) (EvChunk <$> l).
Proof.
  intros (front & t & -> & Hf & (Htd & Htt & Htx)). induction Hf as [|c front [Hc1 Hc2] Hf IH]; cbn.
  - rewrite Htd, !app_nil_r, chunk_items. split_and!; [done|eauto|]. constructor; [|constructor]. intros Hn. congruence.
  - destruct IH as (IH1 & IH2 & IH3). rewrite Hc1. split_and!; [|done|].
    + rewrite IH1, chunk_items, bind_app. done.
    + constructor; [|done]. intros Hn. auto.
Qed.

(** C15 — what the model writes reaches the gateway.  Take a single-candidate generation of
    plain chunks (no log-probabilities, a finish reason only on the last) whose text is at
    most 262144 characters long, the cap of the tool-call parser's buffers, and that runs
    through the parser, the coalescing driver, the bounded queue and the publisher.  If it is
    acknowledged, it has delivered exactly the text and the tool-call deltas that a scan of
    the whole model output yields, whatever the sizes of its chunks, the pace of the
    publisher, the failures of its publishes and the cancellations of the task. *)
Theorem tool_stream_end_to_end loads dumps fresh_id fmt parallel env rid aid (chunks : list GenerationChunk) :
  Forall plain chunks → len (stream_text chunks) <= MAX_TEXT_BUFFER_CHARS →
  let events := EvChunk <$> parse_stream loads dumps fresh_id fmt parallel [] chunks in
  out_acked (stream_generate env rid aid false events) = true →
  delivered (out_wire (stream_generate env rid aid false events)) =
  mbind item_pieces (scan_all loads dumps fresh_id fmt parallel (stream_text chunks)).
Proof.
  intros Hp Hmax events.
  destruct (complete_produced _ (parse_stream_complete loads dumps fresh_id fmt parallel [] chunks Hp))
    as (Hprod & [reason He] & Ht). fold events in Hprod, He, Ht.
  rewrite parse_stream_scan in Hprod by done. rewrite <- Hprod. intros Hack.
  by apply acked_delivers with reason.
Qed.

Lemma tool_stream_end_to_end_witness :
  delivered (out_wire (stream_generate prompt_env "r" "a" false
    (EvChunk <$> parse_stream no_json show number auto true [] cut_stream))) =
  (Txt 0 <$> to_text "Sure. ")
  ++ [Tool 0 (mkWireCall 0 "function" (Some (to_text "call_0")) (Some (to_text "now")) []);
      Tool 0 (mkWireCall 0 "function" None None (to_text "tz=UTC;"))]
  ++ (Txt 0 <$> to_text " Done").
Proof.
  rewrite (tool_stream_end_to_end no_json show number auto true prompt_env "r" "a" cut_stream).
  - vm_compute. reflexivity.
  - repeat constructor; by intros.
  - vm_compute. discriminate.
  - vm_compute. reflexivity.
Defined.

(** ** Log-probabilities without text *)

(** Log-probabilities wait for text to travel with.  In a turn that is only a tool call,
    the parser forwards them on chunks without text, nothing flushes them, and the
    acknowledged stream carries none. *)
Definition with_logprobs (l : list nat) (c : GenerationChunk) : GenerationChunk :=
  mkChunk (text_delta c) (done c) (is_first c) (finish_reason c) (prompt_tokens c) (completion_tokens c)
    (tool_call_delta c) (error_code c) (error_message c) (Some l) (candidates c) (choice_index c).

Lemma tool_call_logprobs_lost :
  let chunks := [with_logprobs [1%nat; 2%nat] (delta "<tool_call><function=f></tool_call>"); last_chunk ""] in
  let o := stream_generate prompt_env "r" "a" false
             (EvChunk <$> parse_stream no_json show number auto true [] chunks) in
  out_acked o = true ∧ e_logprobs <$> out_wire o = [[]; []; []].
Proof. vm_compute. auto. Qed.

End Streaming.
