(* ===== verification/Generation.v ===== *)
(** The life of a generate work item: [StreamingProcessor] of [processors/streaming.py]
    around its streaming core.

    Many work items are in progress at once, one attempt each.  An attempt registers a
    cancel handle, checks for a tombstone, loads the model, validates and renders the
    request, checks the context length, may compile a grammar, reserves KV budget, streams
    ([Streaming.stream_generate]) and releases.  Every exit settles the queue message.

    [advance] is the code between two awaits of one attempt, as a function of what the
    await returned; [sys_step] interleaves the attempts with cancel signals.  What is
    awaited (the registry, the validator, the chat template, the tokenizer, the grammar
    compiler, the transport) is the argument of the step. *)

From S2P Require Import Prelude PyFloat PyDict PyStr PyText ToolCallParser Streaming.
Local Open Scope Z_scope.

Module Generation.

(** ** Admission: configuration *)

Inductive AdmissionMode := auto | on | off.

(** [parse_admission_env] *)
Definition parse_admission_env (value : option string) : AdmissionMode :=
  match value with
  | None => auto
  | Some value =>
      if bool_decide (strip value = ""%string) then auto
      else
        let normalised := lower (strip value) in
        if bool_decide (normalised = "auto"%string) then auto
        else if bool_decide (normalised = "on"%string) then on
        else if bool_decide (normalised = "off"%string) then off
        else auto
  end.

(** [resolve_admission_enabled]; [environ] is the value of the variable. *)
Definition resolve_admission_enabled (profile_admission : option bool) (env_value environ : option string) : bool :=
  match parse_admission_env (match env_value with Some v => Some v | None => environ end) with
  | on => true
  | off => false
  | auto => default false profile_admission
  end.

Definition CHARS_PER_TOKEN : float := f_of_Z 4.

(** [estimate_tokens_from_chars], of the length of the text *)
Definition estimate_tokens_from_chars (n : Z) : Z :=
  if n =? 0 then 0 else Z.max 1 (default 0 (ftrunc (fdiv (f_of_Z n) CHARS_PER_TOKEN))).

(** ** State of the processor *)

Definition RELEASED_REQUESTS_MAX : nat := 1024.
Definition CANCEL_TOMBSTONE_MAX : nat := 1024.
Definition CANCEL_TOMBSTONE_TTL_S : float := f_of_Z 120.
Definition VISION_TOKENS_PER_IMAGE_ESTIMATE : Z := 1280.

(** The event of an attempt is named by the attempt; [set_events] are those that are set. *)
Record Proc := mkProc {
  reserved : Z;
  generation_inflight : Z;
  released_requests : list (string * unit);
  in_flight_cancels : list (string * list (string * string));
  set_events : gset string;
  cancel_tombstones : list (string * float);
}.

Definition with_kv (res inflight : Z) (released : list (string * unit)) (p : Proc) : Proc :=
  mkProc res inflight released (in_flight_cancels p) (set_events p) (cancel_tombstones p).
Definition with_cancels (c : list (string * list (string * string))) (p : Proc) : Proc :=
  mkProc (reserved p) (generation_inflight p) (released_requests p) c (set_events p) (cancel_tombstones p).
Definition with_events (s : gset string) (p : Proc) : Proc :=
  mkProc (reserved p) (generation_inflight p) (released_requests p) (in_flight_cancels p) s (cancel_tombstones p).
Definition with_tombstones (t : list (string * float)) (p : Proc) : Proc :=
  mkProc (reserved p) (generation_inflight p) (released_requests p) (in_flight_cancels p) (set_events p) t.

Definition init_proc : Proc := mkProc 0 0 [] [] ∅ [].

(** [_release_dedup_key] *)
Definition release_dedup_key (request_id attempt_id : option string) : option string :=
  match attempt_id with Some a => Some a | None => request_id end.

(** The settings of the processor: boot-time budget and flag *)
Record Settings := mkSettings {
  kv_budget_tokens : option Z;
  admission_enabled : bool;
  admission_resolver : option (string → option (option Z * option bool));  (* [None] inside: it raised *)
  profile_budget : string → option Z;       (* the budget of the model's default profile *)
}.

(** [_resolve_budget_for_model] and [_resolve_admission_for_model] *)
Definition positive_budget (b : option Z) : option Z :=
  match b with Some b => if b <=? 0 then None else Some b | None => None end.

Definition resolve_admission_for_model (S : Settings) (model : string) : option Z * option bool :=
  match admission_resolver S with
  | None => (positive_budget (profile_budget S model), None)
  | Some f => match f model with
              | None => (None, None)
              | Some (budget, enabled) => (positive_budget budget, enabled)
              end
  end.

(** [_try_reserve] *)
Definition try_reserve (S : Settings) (tokens : Z) (budget_override : option Z)
    (enabled_override : option bool) (request_id attempt_id : option string) (p : Proc) : bool * Proc :=
  let budget := match budget_override with Some b => Some b | None => kv_budget_tokens S end in
  let enabled := default (admission_enabled S) enabled_override in
  if enabled && (match budget with Some b => b <? reserved p + tokens | None => false end)
  then (false, p)
  else
    (true, with_kv (reserved p + tokens) (generation_inflight p + 1)
             (match release_dedup_key request_id attempt_id with
              | Some k => dict_del k (released_requests p)
              | None => released_requests p
              end) p).

(** [while len(d) > max: d.popitem(last=False)] *)
Definition evict_oldest {V} (max : nat) (d : list (string * V)) : list (string * V) :=
  drop (length d - max) d.

(** [_release_reservation] *)
Definition release_reservation (tokens : Z) (request_id attempt_id : option string) (p : Proc) : Proc :=
  let give_back released :=
    with_kv (Z.max 0 (reserved p - tokens)) (Z.max 0 (generation_inflight p - 1)) released p in
  match release_dedup_key request_id attempt_id with
  | None => give_back (released_requests p)
  | Some k =>
      if dict_mem k (released_requests p) then p
      else give_back (evict_oldest RELEASED_REQUESTS_MAX (dict_set k tt (released_requests p)))
  end.

(** [_register_cancel], [_unregister_cancel] *)
Definition register_cancel (request_id attempt_id : string) (p : Proc) : Proc :=
  with_cancels
    (dict_set request_id
       (dict_set attempt_id attempt_id (default [] (dict_get request_id (in_flight_cancels p))))
       (in_flight_cancels p)) p.

Definition unregister_cancel (request_id attempt_id : string) (p : Proc) : Proc :=
  match dict_get request_id (in_flight_cancels p) with
  | None => p
  | Some attempts =>
      match dict_del attempt_id attempts with
      | [] => with_cancels (dict_del request_id (in_flight_cancels p)) p
      | attempts => with_cancels (dict_set request_id attempts (in_flight_cancels p)) p
      end
  end.

(** [_add_tombstone]; [now] is the reading of the clock *)
Definition add_tombstone (request_id : string) (now : float) (p : Proc) : Proc :=
  let d := cancel_tombstones p in
  let d := if (CANCEL_TOMBSTONE_MAX <=? length d)%nat
           then evict_oldest (CANCEL_TOMBSTONE_MAX - 1) (filter (λ e, fle e.2 now = false) d)
           else d in
  with_tombstones (dict_set request_id (fadd now CANCEL_TOMBSTONE_TTL_S) (dict_del request_id d)) p.

(** [signal_cancel] *)
Definition signal_cancel (request_id : string) (now : float) (p : Proc) : bool * Proc :=
  match dict_get request_id (in_flight_cancels p) with
  | Some ((_ :: _) as attempts) => (true, with_events (list_to_set (dict_values attempts) ∪ set_events p) p)
  | _ => (false, add_tombstone request_id now p)
  end.

(** [_check_and_consume_tombstone] *)
Definition check_and_consume_tombstone (request_id : string) (now : float) (p : Proc) : bool * Proc :=
  match dict_get request_id (cancel_tombstones p) with
  | None => (false, p)
  | Some deadline => (flt now deadline, with_tombstones (dict_del request_id (cancel_tombstones p)) p)
  end.

(** [in_flight_request_ids], [in_flight_count] *)
Definition in_flight_request_ids (p : Proc) : list string := dict_keys (in_flight_cancels p).
Definition in_flight_count (p : Proc) : nat := length (in_flight_cancels p).

(** ** One attempt *)

(** What a settled attempt did with the queue message. *)
Inductive settle := Acked | Naked.

(** The envelope an attempt publishes when it does not stream *)
Inductive plan :=
| TerminalError (code message : string)     (* then ACK, or NAK when the publish fails *)
| Cancelled                                 (* likewise *)
| NakEnvelope (reason : string).            (* then ACK, or nothing *)

(** [_terminal_error_then_settle], [_publish_cancelled_then_settle], and the callers of
    [_publish_nak_envelope]: what happens to the message after the publish *)
Definition settle_of (pl : plan) (ok : bool) : option settle :=
  match pl with
  | TerminalError _ _ | Cancelled => Some (if ok then Acked else Naked)
  | NakEnvelope _ => if ok then Some Acked else None
  end.

(** A validated request, as far as this file looks at it. *)
Record Request := mkRequest {
  r_messages : bool;                 (* the chat shape; otherwise a prompt *)
  r_prompt_chars : Z;                (* of the prompt shape *)
  r_images : Z;
  r_max_new_tokens : Z;
  r_image_model : option bool;       (* whether the model takes images, if its config is known *)
  r_tool_choice : option string;     (* the error of [build_tool_choice_grammar] *)
  r_preflight : bool;                (* whether a grammar is compiled before decoding *)
}.

(** [len(request_images) if request_images else 0]: only messages carry images. *)
Definition request_images (r : Request) : Z := if r_messages r then r_images r else 0.

Inductive phase :=
| Loading                              (* awaits [_ensure_loaded] *)
| Rendering (r : Request)              (* awaits [_render_chat_template] *)
| CheckingContext (r : Request) (prompt_chars : Z)
| Compiling (r : Request) (prompt_chars : Z)
| Publishing (p : plan)
| Decoding (tokens : Z)                (* inside [_stream_generate], with a reservation *)
| Finished (s : option settle).

Record Attempt := mkAttempt {
  at_request : string;
  at_model : string;
  at_phase : phase;
  at_wire : list Streaming.Envelope;   (* the stream the gateway has received from it *)
  at_told : bool;                      (* a terminal error, a cancelled terminal or a NAK envelope was published *)
  at_reply : bool;                     (* the item could be read and names a reply subject *)
}.

(** A work item, as far as [process] looks at it before its first await; the fields default
    to the empty string. *)
Record WorkItem := mkWorkItem {
  wi_reply_subject : string;
  wi_request_id : string;
}.

(** What the await of an attempt returned. *)
Inductive result :=
| LoadKeyError
| LoadFailed
| LoadOk (generation_adapter : bool) (validation : res (string * string) Request)
| RenderResult (r : res (string * string) Z)
| ContextResult (error : option (string * string))
| GrammarResult (error : option (string * string))
| PublishResult (ok : bool)
| StreamResult (env : Streaming.Env) (multi : bool) (events : list Streaming.event)
| TaskCancelled.

Section attempt.
Context (S : Settings).

Definition err (e : string * string) : phase := Publishing (TerminalError e.1 e.2).

(** [if cancel_event.is_set(): publish the cancelled terminal and return] *)
Definition unless_cancelled (id : string) (p : Proc) (k : Proc * phase) : Proc * phase :=
  if bool_decide (id ∈ set_events p) then (p, Publishing Cancelled) else k.

(** From the context-length check to the reservation: no await in between. *)
Definition reserve_and_decode (request id model : string) (r : Request) (prompt_chars : Z) (p : Proc) : Proc * phase :=
  let '(budget_override, enabled_override) := resolve_admission_for_model S model in
  let image_reserve := request_images r * VISION_TOKENS_PER_IMAGE_ESTIMATE in
  let tokens := estimate_tokens_from_chars prompt_chars + r_max_new_tokens r + image_reserve in
  let '(ok, p) := try_reserve S tokens budget_override enabled_override (Some request) (Some id) p in
  (p, if ok then Decoding tokens else Publishing (NakEnvelope "kv_budget")).

(** [_process_inner_guarded], one await after the other *)
Definition inner (request id model : string) (ph : phase) (res : result) (p : Proc) : option (Proc * phase) :=
  match ph, res with
  | Loading, LoadKeyError => Some (p, Publishing (NakEnvelope "model_not_loaded"))
  | Loading, LoadFailed => Some (p, Finished (Some Naked))
  | Loading, LoadOk generation_adapter validation =>
      Some (if negb generation_adapter
            then (p, Publishing (TerminalError "unsupported_field"
                    ("Model '" +:+ model +:+ "' adapter does not support generate (not a GenerationAdapter)")))
            else unless_cancelled id p
              match validation with
              | Raise e => (p, err e)
              | Ret r =>
                  if r_messages r then
                    if (0 <? request_images r) && negb (default true (r_image_model r))
                    then (p, Publishing (TerminalError "invalid_request"
                            ("model '" +:+ model +:+ "' does not support image input")))
                    else (p, Rendering r)
                  else unless_cancelled id p (p, CheckingContext r (r_prompt_chars r))
              end)
  | Rendering r, RenderResult (Raise e) => Some (p, err e)
  | Rendering r, RenderResult (Ret chars) => Some (unless_cancelled id p (p, CheckingContext r chars))
  | CheckingContext r chars, ContextResult (Some e) => Some (p, err e)
  | CheckingContext r chars, ContextResult None =>
      Some (unless_cancelled id p
              match r_tool_choice r with
              | Some e => (p, Publishing (TerminalError "invalid_request" e))
              | None => if r_preflight r then (p, Compiling r chars) else reserve_and_decode request id model r chars p
              end)
  | Compiling r chars, GrammarResult (Some e) => Some (p, err e)
  | Compiling r chars, GrammarResult None =>
      Some (unless_cancelled id p (reserve_and_decode request id model r chars p))
  | Publishing pl, PublishResult ok => Some (p, Finished (settle_of pl ok))
  | Decoding tokens, StreamResult env multi events =>
      let o := Streaming.stream_generate env request id multi events in
      Some (release_reservation tokens (Some request) (Some id) p,
            Finished (if Streaming.out_acked o then Some Acked else None))
  | Decoding tokens, TaskCancelled =>
      Some (release_reservation tokens (Some request) (Some id) p, Finished None)
  | Finished _, _ => None
  | _, TaskCancelled => Some (p, Finished None)
  | _, _ => None
  end.

(** [_process_inner]: the [finally] removes the handle when the body is over. *)
Definition advance (id : string) (a : Attempt) (res : result) (p : Proc) : option (Proc * Attempt) :=
  match inner (at_request a) id (at_model a) (at_phase a) res p with
  | None => None
  | Some (p, ph) =>
      let p := match ph with Finished _ => unregister_cancel (at_request a) id p | _ => p end in
      let wire := match at_phase a, res with
                  | Decoding _, StreamResult env multi events =>
                      Streaming.out_wire (Streaming.stream_generate env (at_request a) id multi events)
                  | _, _ => at_wire a
                  end in
      let told := at_told a || match res with PublishResult ok => ok | _ => false end in
      Some (p, mkAttempt (at_request a) (at_model a) ph wire told (at_reply a))
  end.

(** [_process_inner] up to its first await *)
Definition arrive (request id model : string) (now : float) (p : Proc) : Proc * Attempt :=
  let '(hit, p) := check_and_consume_tombstone request now (register_cancel request id p) in
  (p, mkAttempt request model
        (if hit then Publishing (TerminalError "transport_failure"
           "request cancelled before this worker registered (first-chunk fallback race); another attempt is authoritative")
         else Loading) [] false true).

(** [process]: an item that cannot be decoded ([None]) is given back, one that names no reply
    subject is acknowledged without a reply, and neither reaches [_process_inner]. *)
Definition process (data : option WorkItem) (id model : string) (now : float) (p : Proc) : Proc * Attempt :=
  match data with
  | None => (p, mkAttempt "" model (Finished (Some Naked)) [] false false)
  | Some wi =>
      match wi_reply_subject wi with
      | ""%string => (p, mkAttempt (wi_request_id wi) model (Finished (Some Acked)) [] false false)
      | _ => arrive (wi_request_id wi) id model now p
      end
  end.
End attempt.

(** ** The worker *)

Record Sys := mkSys {
  proc : Proc;
  attempts : list (string * Attempt);
}.

Definition init_sys : Sys := mkSys init_proc [].

(** The validator accepts no request without room for a token
    ([max_new_tokens] is a positive integer) and counts its images. *)
Definition sane_result (res : result) : Prop :=
  match res with
  | LoadOk _ (Ret r) => 0 < r_max_new_tokens r ∧ 0 <= r_images r
  | StreamResult _ multi events => Forall (Streaming.tidy multi) events
  | _ => True
  end.

Inductive sys_step (S : Settings) : Sys → Sys → Prop :=
| step_arrive s data id model now :
    id ∉ dict_keys (attempts s) →          (* a fresh uuid *)
    sys_step S s (let '(p, a) := process data id model now (proc s) in mkSys p (dict_set id a (attempts s)))
| step_advance s id a res p a' :
    dict_get id (attempts s) = Some a → sane_result res →
    advance S id a res (proc s) = Some (p, a') →
    sys_step S s (mkSys p (dict_set id a' (attempts s)))
| step_cancel s request now :
    sys_step S s (mkSys (signal_cancel request now (proc s)).2 (attempts s)).

Definition reachable (S : Settings) : Sys → Prop := rtc (sys_step S) init_sys.

(** ** The reservation ledger *)

Definition tokens_of (a : Attempt) : Z := match at_phase a with Decoding t => t | _ => 0 end.
Definition decoding (a : Attempt) : Z := match at_phase a with Decoding _ => 1 | _ => 0 end.

Definition sane_phase (ph : phase) : Prop :=
  match ph with
  | Rendering r | CheckingContext r _ | Compiling r _ => 0 < r_max_new_tokens r ∧ 0 <= r_images r
  | Decoding t => 0 <= t
  | _ => True
  end.

(** The books of a processor against the attempts: what is reserved is what the decoding
    attempts hold, and none of them has been released. *)
Record ledger (s : Sys) : Prop := {
  lg_reserved : reserved (proc s) = sumZ (λ e, tokens_of e.2) (attempts s);
  lg_inflight : generation_inflight (proc s) = sumZ (λ e, decoding e.2) (attempts s);
  lg_sane : ∀ id a, dict_get id (attempts s) = Some a → sane_phase (at_phase a);
  lg_attempts : dict_wf (attempts s);
  lg_wf : dict_wf (released_requests (proc s));
  lg_released : ∀ id a, dict_get id (attempts s) = Some a → decoding a = 1 →
                dict_mem id (released_requests (proc s)) = false;
}.

(** What the cancel machinery does not touch *)
Definition same_kv (p p' : Proc) : Prop :=
  reserved p' = reserved p ∧ generation_inflight p' = generation_inflight p ∧ released_requests p' = released_requests p.

Lemma same_kv_refl p : same_kv p p.
Proof. done. Qed.
Lemma same_kv_trans p1 p2 p3 : same_kv p1 p2 → same_kv p2 p3 → same_kv p1 p3.
Proof. unfold same_kv. intros (?&?&?) (?&?&?). repeat split; congruence. Qed.
Lemma same_kv_register r i p : same_kv p (register_cancel r i p).
Proof. done. Qed.
Lemma same_kv_unregister r i p : same_kv p (unregister_cancel r i p).
Proof. unfold unregister_cancel. destruct (dict_get r _); [|done]. by destruct (dict_del i l). Qed.
Lemma same_kv_tombstone r now p : same_kv p (check_and_consume_tombstone r now p).2.
Proof. unfold check_and_consume_tombstone. by destruct (dict_get r _). Qed.
Lemma same_kv_signal r now p : same_kv p (signal_cancel r now p).2.
Proof. unfold signal_cancel. by destruct (dict_get r _) as [[|]|]. Qed.
#[local] Hint Resolve same_kv_refl same_kv_register same_kv_unregister same_kv_tombstone same_kv_signal : core.

(** What one step of an attempt does to the books *)
Inductive kv_effect (id : string) (p : Proc) (ph ph' : phase) (p' : Proc) : Prop :=
| kv_none : same_kv p p' → (∀ t, ph ≠ Decoding t) → (∀ t, ph' ≠ Decoding t) → kv_effect id p ph ph' p'
| kv_reserve t :
    (∀ t, ph ≠ Decoding t) → ph' = Decoding t → 0 <= t →
    reserved p' = reserved p + t → generation_inflight p' = generation_inflight p + 1 →
    released_requests p' = dict_del id (released_requests p) → kv_effect id p ph ph' p'
| kv_release t :
    ph = Decoding t → (∀ t, ph' ≠ Decoding t) →
    same_kv (release_reservation t None (Some id) p) p' → kv_effect id p ph ph' p'.

Lemma admit_effect S request id model r chars p p' ph' ph :
  (∀ t, ph ≠ Decoding t) → 0 < r_max_new_tokens r → 0 <= r_images r →
  reserve_and_decode S request id model r chars p = (p', ph') → kv_effect id p ph ph' p' ∧ sane_phase ph'.
Proof.
  intros Hph Hm Hi. unfold reserve_and_decode. destruct (resolve_admission_for_model S model) as [b e]. unfold try_reserve.
  set (t := _ + _ + _).
  assert (0 <= t) as Ht.
  { subst t. unfold estimate_tokens_from_chars, request_images, VISION_TOKENS_PER_IMAGE_ESTIMATE.
    destruct (chars =? 0), (r_messages r); lia. }
  destruct (_ && _); intros [= <- <-].
  - split; [|done]. by apply kv_none.
  - split; [|exact Ht]. by apply (kv_reserve _ _ _ _ _ t).
Qed.

Lemma unless_cancelled_cases id p k :
  (id ∈ set_events p ∧ unless_cancelled id p k = (p, Publishing Cancelled)) ∨
  (id ∉ set_events p ∧ unless_cancelled id p k = k).
Proof. unfold unless_cancelled. case_bool_decide; auto. Qed.

Ltac cancel_cases :=
  match goal with |- context [unless_cancelled ?id ?p ?k] =>
    let H := fresh "Hev" in let E := fresh "E" in
    destruct (unless_cancelled_cases id p k) as [[H E]|[H E]]; rewrite E; clear E
  end.

Definition live_phase (ph : phase) : bool := match ph with Finished _ => false | _ => true end.

(** What a step of an attempt can be: it moves on or gives up without touching the
    processor, it tries to reserve with its event not set, or its stream is over. *)
Inductive inner_case (S : Settings) (request id model : string) (ph : phase) (res : result) (p : Proc)
    : Proc → phase → Prop :=
| ic_stay ph' :
    (∀ t, ph ≠ Decoding t) → (∀ t, ph' ≠ Decoding t) →
    (sane_phase ph → sane_result res → sane_phase ph') → inner_case S request id model ph res p p ph'
| ic_admit r chars p' ph' :
    (∀ t, ph ≠ Decoding t) → (sane_phase ph → 0 < r_max_new_tokens r ∧ 0 <= r_images r) →
    id ∉ set_events p → reserve_and_decode S request id model r chars p = (p', ph') →
    inner_case S request id model ph res p p' ph'
| ic_over t st :
    ph = Decoding t →
    inner_case S request id model ph res p (release_reservation t (Some request) (Some id) p) (Finished st).

Lemma inner_cases S request id model ph res p p' ph' :
  inner S request id model ph res p = Some (p', ph') →
  live_phase ph = true ∧ inner_case S request id model ph res p p' ph'.
Proof.
  destruct ph as [|r|r chars|r chars|[c m| |n]|t|st]; destruct res as [| |ga v|rr|er|er|ok|ev mu evs|]; cbn [inner settle_of]; try done;
    try (by intros [= <- <-]; split; [done|]; apply ic_stay).
  - destruct ga; cbn [negb]; [|by intros [= <- <-]; split; [done|]; apply ic_stay].
    cancel_cases; [by intros [= <- <-]; split; [done|]; apply ic_stay|].
    destruct v as [r|e]; [|by intros [= <- <-]; split; [done|]; apply ic_stay].
    destruct (r_messages r); [destruct (_ && _)|cancel_cases]; by intros [= <- <-]; split; [done|]; apply ic_stay.
  - destruct rr; [cancel_cases|]; by intros [= <- <-]; split; [done|]; apply ic_stay.
  - destruct er; [by intros [= <- <-]; split; [done|]; apply ic_stay|].
    cancel_cases; [by intros [= <- <-]; split; [done|]; apply ic_stay|].
    destruct (r_tool_choice r); [by intros [= <- <-]; split; [done|]; apply ic_stay|].
    destruct (r_preflight r); [by intros [= <- <-]; split; [done|]; apply ic_stay|].
    intros E%(inj Some). split; [done|]. by eapply ic_admit.
  - destruct er; [by intros [= <- <-]; split; [done|]; apply ic_stay|].
    cancel_cases; [by intros [= <- <-]; split; [done|]; apply ic_stay|].
    intros E%(inj Some). split; [done|]. by eapply ic_admit.
  - cbv zeta. intros E%(inj Some). injection E as <- <-. split; [done|]. by apply ic_over.
  - intros E%(inj Some). injection E as <- <-. split; [done|]. by apply ic_over.
Qed.

Lemma inner_effect S request id model ph res p p' ph' :
  sane_phase ph → sane_result res → inner S request id model ph res p = Some (p', ph') →
  kv_effect id p ph ph' p' ∧ sane_phase ph'.
Proof.
  intros Hs Hr [_ [q H1 H2 H3|r chars q1 q2 H1 H2 _ E|t st ->]]%inner_cases.
  - split; [by apply kv_none|auto].
  - destruct (H2 Hs). by eapply admit_effect.
  - split; [|done]. by apply (kv_release _ _ _ _ _ t).
Qed.

Lemma dict_mem_del_other (id k : string) (d : list (string * unit)) :
  dict_mem id d = false → dict_mem id (dict_del k d) = false.
Proof. rewrite !dict_mem_false. intros H Hin. apply H. by eapply dict_keys_del_sub. Qed.

Lemma dict_mem_evict {V} (id : string) n (d : list (string * V)) :
  dict_mem id d = false → dict_mem id (evict_oldest n d) = false.
Proof.
  rewrite !dict_mem_false. unfold evict_oldest, dict_keys. rewrite fmap_drop. intros H Hin. apply H.
  apply list_elem_of_lookup in Hin as [i Hi]. rewrite lookup_drop in Hi. by apply list_elem_of_lookup_2 in Hi.
Qed.

Lemma evict_oldest_wf {V} n (d : list (string * V)) : dict_wf d → dict_wf (evict_oldest n d).
Proof. unfold dict_wf, evict_oldest, dict_keys. rewrite fmap_drop. intros H. eapply sublist_NoDup; [exact H|apply sublist_drop]. Qed.

Lemma tokens_nonneg a : sane_phase (at_phase a) → 0 <= tokens_of a.
Proof. unfold tokens_of. by destruct (at_phase a). Qed.
Lemma decoding_nonneg a : 0 <= decoding a.
Proof. unfold decoding. by destruct (at_phase a). Qed.

Lemma sum_has_part (f : Attempt → Z) (s : Sys) id a :
  dict_wf (attempts s) → dict_get id (attempts s) = Some a → (∀ id b, dict_get id (attempts s) = Some b → 0 <= f b) →
  f a <= sumZ (λ e, f e.2) (attempts s).
Proof.
  intros Hwf Ha Hf. rewrite (sumZ_perm _ _ _ (dict_del_perm _ _ _ Ha)), sumZ_cons. cbn.
  enough (0 <= sumZ (λ e, f e.2) (dict_del id (attempts s))) by lia.
  apply sumZ_nonneg. intros [k b] Hin. apply dict_elem_get in Hin; [|by apply dict_del_wf].
  rewrite dict_get_del in Hin by done. case_decide; [done|]. by eapply Hf.
Qed.

(** Changing one attempt changes the sums by the difference. *)
Lemma ledger_advance S s id a res p a' :
  ledger s → dict_get id (attempts s) = Some a → sane_result res →
  advance S id a res (proc s) = Some (p, a') → ledger (mkSys p (dict_set id a' (attempts s))).
Proof.
  intros [Hres Hinf Hsane Hat Hwf Hrel] Ha Hr. unfold advance.
  destruct (inner S _ _ _ _ _ _) as [[p0 ph']|] eqn:Ei; [|done]. intros [= <- <-].
  destruct (inner_effect _ _ _ _ _ _ _ _ _ (Hsane _ _ Ha) Hr Ei) as [Hk Hs'].
  set (p1 := match ph' with Finished _ => _ | _ => p0 end).
  assert (same_kv p0 p1) as (E1 & E2 & E3) by (subst p1; destruct ph'; auto).
  set (a' := mkAttempt _ _ ph' _ _ _).
  assert (∀ id' b, dict_get id' (dict_set id a' (attempts s)) = Some b → id' ≠ id → dict_get id' (attempts s) = Some b) as Hother.
  { intros id' b. rewrite dict_get_set. by case_decide. }
  assert (∀ id' b, dict_get id' (dict_set id a' (attempts s)) = Some b → sane_phase (at_phase b)) as Hsane'.
  { intros id' b. rewrite dict_get_set. case_decide; [by intros [= <-]|apply Hsane]. }
  destruct Hk as [(K1 & K2 & K3) Hn Hn'|t Hn Hd Ht K1 K2 K3|t Hd Hn (K1 & K2 & K3)].
  - assert (tokens_of a = 0 ∧ tokens_of a' = 0 ∧ decoding a = 0 ∧ decoding a' = 0) as (T1 & T2 & T3 & T4).
    { unfold tokens_of, decoding. cbn. destruct (at_phase a); try done; destruct ph'; try done; naive_solver. }
    constructor; cbn; [| |exact Hsane'|by apply dict_set_wf|by rewrite E3, K3|].
    + rewrite (sumZ_dict_set _ _ _ _ _ Ha). cbn. lia.
    + rewrite (sumZ_dict_set _ _ _ _ _ Ha). cbn. lia.
    + intros id' b Hb Hdb. rewrite E3, K3. destruct (decide (id' = id)) as [->|Hne]; [|by eapply Hrel; [apply Hother|]].
      rewrite dict_get_set, decide_True in Hb by done. injection Hb as <-. lia.
  - assert (tokens_of a = 0 ∧ decoding a = 0) as (T1 & T2).
    { unfold tokens_of, decoding. destruct (at_phase a); try done. naive_solver. }
    assert (tokens_of a' = t ∧ decoding a' = 1) as (T3 & T4) by (unfold tokens_of, decoding; cbn; by rewrite Hd).
    constructor; cbn; [| |exact Hsane'|by apply dict_set_wf|rewrite E3, K3; by apply dict_del_wf|].
    + rewrite (sumZ_dict_set _ _ _ _ _ Ha). cbn. lia.
    + rewrite (sumZ_dict_set _ _ _ _ _ Ha). cbn. lia.
    + intros id' b Hb Hdb. rewrite E3, K3. destruct (decide (id' = id)) as [->|Hne].
      * by apply dict_mem_false, dict_keys_del_self.
      * apply dict_mem_del_other. by eapply Hrel; [apply Hother|].
  - assert (tokens_of a = t ∧ decoding a = 1) as (T1 & T2) by (unfold tokens_of, decoding; by rewrite Hd).
    assert (tokens_of a' = 0 ∧ decoding a' = 0) as (T3 & T4).
    { unfold tokens_of, decoding. cbn. destruct ph'; try done. naive_solver. }
    pose proof (Hrel _ _ Ha T2) as Hnr. unfold release_reservation in K1, K2, K3. cbn [release_dedup_key] in K1, K2, K3.
    rewrite Hnr in K1, K2, K3. cbn in K1, K2, K3.
    pose proof (sum_has_part tokens_of s _ _ Hat Ha (λ _ _ H, tokens_nonneg _ (Hsane _ _ H))) as Hge1.
    pose proof (sum_has_part decoding s _ _ Hat Ha (λ _ b _, decoding_nonneg b)) as Hge2.
    constructor; cbn; [| |exact Hsane'|by apply dict_set_wf|rewrite E3, K3; by apply evict_oldest_wf, dict_set_wf|].
    + rewrite (sumZ_dict_set _ _ _ _ _ Ha). cbn. lia.
    + rewrite (sumZ_dict_set _ _ _ _ _ Ha). cbn. lia.
    + intros id' b Hb Hdb. rewrite E3, K3. destruct (decide (id' = id)) as [->|Hne].
      * rewrite dict_get_set, decide_True in Hb by done. injection Hb as <-. lia.
      * apply dict_mem_evict, dict_mem_false. rewrite dict_keys_set.
        assert (id' ∉ dict_keys (released_requests (proc s))) by (apply dict_mem_false; by eapply Hrel; [apply Hother|]).
        case_decide; [done|]. rewrite not_elem_of_app, list_elem_of_singleton. done.
Qed.

Lemma ledger_same_kv s p : same_kv (proc s) p → ledger s → ledger (mkSys p (attempts s)).
Proof. intros (E1 & E2 & E3) []. constructor; cbn; rewrite ?E1, ?E2, ?E3; done. Qed.

Lemma arrive_spec request id model now p p' a :
  arrive request id model now p = (p', a) →
  same_kv p p' ∧ at_request a = request ∧ at_told a = false ∧ at_reply a = true ∧
  (at_phase a = Loading ∨ ∃ code msg, at_phase a = Publishing (TerminalError code msg)).
Proof.
  unfold arrive. pose proof (same_kv_tombstone request now (register_cancel request id p)) as Hk.
  destruct (check_and_consume_tombstone _ _ _) as [hit p1]. intros [= <- <-].
  split; [by eapply same_kv_trans; [apply same_kv_register|]|]. split_and!; try done. destruct hit; cbn; eauto.
Qed.

(** A pickup that ends before [_process_inner] *)
Definition turned_away (a : Attempt) : Prop :=
  at_told a = false ∧ at_wire a = [] ∧ at_reply a = false ∧ ∃ st, at_phase a = Finished (Some st).

Lemma process_cases data id model now p p' a :
  process data id model now p = (p', a) →
  (∃ wi, data = Some wi ∧ arrive (wi_request_id wi) id model now p = (p', a)) ∨ (p' = p ∧ turned_away a).
Proof.
  unfold process. destruct data as [wi|]; [destruct (wi_reply_subject wi)|]; [|eauto|]; intros [= <- <-]; right; (split; [done|]);
    split_and!; eauto.
Qed.

Lemma ledger_arrive s data id model now p a :
  ledger s → id ∉ dict_keys (attempts s) → process data id model now (proc s) = (p, a) →
  ledger (mkSys p (dict_set id a (attempts s))).
Proof.
  intros Hl Hfresh Ea.
  assert (same_kv (proc s) p ∧ tokens_of a = 0 ∧ decoding a = 0 ∧ sane_phase (at_phase a)) as (Hk & T1 & T2 & T3).
  { unfold tokens_of, decoding. apply process_cases in Ea as [(wi & -> & Ea)|[-> (_ & _ & _ & st & ->)]]; [|done].
    destruct (arrive_spec _ _ _ _ _ _ _ Ea) as (Hk & _ & _ & _ & Hph). by destruct Hph as [->|(? & ? & ->)]. }
  apply (ledger_same_kv _ _ Hk) in Hl. destruct Hl as [H1 H2 H3 H4 H5 H6]. cbn in *.
  constructor; cbn; [| | |by apply dict_set_wf|done|].
  - rewrite dict_set_fresh, sumZ_app, sumZ_cons, sumZ_nil by done. cbn [snd]. lia.
  - rewrite dict_set_fresh, sumZ_app, sumZ_cons, sumZ_nil by done. cbn [snd]. lia.
  - intros id' b. rewrite dict_get_set. case_decide; [by intros [= <-]|apply H3].
  - intros id' b. rewrite dict_get_set. case_decide; [intros [= <-]; lia|apply H6].
Qed.

Lemma ledger_step S s s' : sys_step S s s' → ledger s → ledger s'.
Proof.
  intros [s0 data id model now Hf|s0 id a res p a' Ha Hr Hadv|s0 request now] Hl.
  - destruct (process _ _ _ _ _) as [p a] eqn:E. by eapply ledger_arrive.
  - by eapply ledger_advance.
  - apply ledger_same_kv; [apply same_kv_signal|done].
Qed.

Lemma reachable_invariant (I : Sys → Prop) S s :
  I init_sys → (∀ s s', reachable S s → I s → sys_step S s s' → I s') → reachable S s → I s.
Proof.
  intros H0 Hstep Hr. apply (rtc_ind_r (λ x, reachable S x ∧ I x) init_sys) in Hr as [_ ?]; [done| |].
  - split; [apply rtc_refl|done].
  - intros y z Hy Hyz [Hry HIy]. split; [by eapply rtc_r|]. by eapply Hstep.
Qed.

Lemma reachable_ledger S s : reachable S s → ledger s.
Proof.
  apply reachable_invariant; [|by eauto using ledger_step].
  constructor; cbn; try done; constructor.
Qed.

(** C17 — KV reservations never leak and are never given back twice.  In every reachable
    state, whatever attempts interleave, are cancelled, redelivered or aborted, the
    reserved tokens are exactly the reservations of the attempts that are decoding, and
    the in-flight gauge counts these attempts; so a worker with nothing in decode has
    nothing reserved, and the clamps at zero never act. *)
Theorem kv_reserved_exact S s :
  reachable S s →
  reserved (proc s) = sumZ (λ e, tokens_of e.2) (attempts s) ∧
  generation_inflight (proc s) = sumZ (λ e, decoding e.2) (attempts s) ∧
  (∀ id a, dict_get id (attempts s) = Some a → tokens_of a <= reserved (proc s)).
Proof.
  intros Hr. apply reachable_ledger in Hr as [H1 H2 H3 H4 _ _]. split_and!; [done..|].
  intros id a Ha. rewrite H1. apply (sum_has_part tokens_of s id a H4 Ha). intros id' b Hb.
  by apply tokens_nonneg, (H3 id').
Qed.

(** The gate is on for every model, with a budget of at most [B]. *)
Definition gated (S : Settings) (B : Z) : Prop :=
  ∀ model, default (admission_enabled S) (resolve_admission_for_model S model).2 = true ∧
    ∃ b, match (resolve_admission_for_model S model).1 with Some b => Some b | None => kv_budget_tokens S end = Some b ∧ b <= B.

Lemma admit_bounded S B request id model r chars p p' ph' :
  gated S B → reserved p <= B → reserve_and_decode S request id model r chars p = (p', ph') → reserved p' <= B.
Proof.
  intros Hg Hp. unfold reserve_and_decode. destruct (Hg model) as (He & b & Hb & HbB).
  destruct (resolve_admission_for_model S model) as [bo eo]. cbn in He, Hb. unfold try_reserve.
  rewrite He, Hb. cbn [andb]. destruct (Z.ltb_spec b (reserved p + (estimate_tokens_from_chars chars + r_max_new_tokens r
    + request_images r * VISION_TOKENS_PER_IMAGE_ESTIMATE))); intros [= <- <-]; cbn; lia.
Qed.

Lemma inner_bounded S B request id model ph res p p' ph' :
  gated S B → sane_phase ph → 0 <= B → reserved p <= B →
  inner S request id model ph res p = Some (p', ph') → reserved p' <= B.
Proof.
  intros Hg Hs HB Hp.
  assert (∀ t o, 0 <= t → reserved (release_reservation t (Some request) o p) <= B) as Hrel.
  { intros t o Ht. unfold release_reservation. destruct (release_dedup_key _ _); [destruct (dict_mem _ _)|]; cbn; lia. }
  intros [_ [q H1 H2 H3|r chars q1 q2 H1 H2 _ E|t st ->]]%inner_cases; [done| |by apply Hrel].
  by eapply admit_bounded.
Qed.

(** Admission control keeps its budget.  With the gate on for every model and no
    budget above [B], the tokens reserved by concurrent generations never exceed [B]. *)
Theorem kv_within_budget S B s :
  gated S B → 0 <= B → reachable S s → reserved (proc s) <= B.
Proof.
  intros Hg HB. apply (reachable_invariant (λ s, reserved (proc s) <= B)); [done|]. clear s. intros s0 s1 Hr Hle Hstep.
  pose proof (reachable_ledger _ _ Hr) as Hl.
  destruct Hstep as [s data id model now Hf|s id a res p a' Ha Hsr Hadv|s request now].
  - destruct (process _ _ _ _ _) as [p a] eqn:E. apply process_cases in E as [(wi & _ & E)|[-> _]]; [|done].
    apply arrive_spec in E as [(E & _) _]. cbn. by rewrite E.
  - unfold advance in Hadv. destruct (inner S _ _ _ _ _ _) as [[p0 ph']|] eqn:Ei; [|done]. injection Hadv as <- _.
    cbn. eapply inner_bounded in Ei; [|done|by eapply lg_sane|done|done].
    destruct ph'; try done. by destruct (same_kv_unregister (at_request a) id p0) as (-> & _).
  - cbn. by destruct (same_kv_signal request now (proc s)) as (-> & _).
Qed.

(** ** Cancel handles *)

Definition live (a : Attempt) : bool := live_phase (at_phase a).

(** The handle of an attempt is registered. *)
Definition registered (p : Proc) (request id : string) : Prop :=
  ∃ hs, dict_get request (in_flight_cancels p) = Some hs ∧ id ∈ dict_keys hs.

(** No entry is empty and every handle is filed under its own attempt. *)
Record cancels_ok (p : Proc) : Prop := {
  co_wf : dict_wf (in_flight_cancels p);
  co_inner : ∀ request hs, dict_get request (in_flight_cancels p) = Some hs →
             hs ≠ [] ∧ dict_wf hs ∧ ∀ k v, dict_get k hs = Some v → v = k;
}.

Lemma register_cancel_ok request id p : cancels_ok p → cancels_ok (register_cancel request id p).
Proof.
  intros [Hwf Hin]. constructor; cbn; [by apply dict_set_wf|]. intros r hs. rewrite dict_get_set. case_decide; [|apply Hin].
  intros [= <-]. destruct (dict_get request (in_flight_cancels p)) as [hs|] eqn:E; cbn [default].
  - destruct (Hin _ _ E) as (_ & Hw & Hv). split_and!.
    + destruct hs as [|[k v] hs]; cbn; [done|]. by case_decide.
    + by apply dict_set_wf.
    + intros k v. rewrite dict_get_set. case_decide; [naive_solver|apply Hv].
  - split_and!; [done|by apply (dict_set_wf _ _ []); constructor|]. intros k v. cbn. by case_decide; naive_solver.
Qed.

Lemma registered_register request id p r i :
  registered (register_cancel request id p) r i ↔ registered p r i ∨ (r = request ∧ i = id).
Proof.
  unfold registered, register_cancel. cbn. setoid_rewrite dict_get_set. case_decide as Hr; [subst r|naive_solver].
  split.
  - intros (hs & [= <-] & Hi). rewrite dict_keys_set in Hi.
    destruct (dict_get request (in_flight_cancels p)) as [hs|]; cbn [default] in Hi; [|set_solver].
    case_decide; [naive_solver|]. apply elem_of_app in Hi as [?|?%list_elem_of_singleton]; naive_solver.
  - intros [(hs & E & Hi)|[_ ->]]; eexists; (split; [done|]); rewrite dict_keys_set.
    + rewrite E. cbn. case_decide; [done|]. apply elem_of_app. auto.
    + case_decide; [done|]. apply elem_of_app. right. by apply list_elem_of_singleton.
Qed.

Lemma unregister_cancels request id p :
  cancels_ok p → cancels_ok (unregister_cancel request id p) ∧
  ∀ r i, registered (unregister_cancel request id p) r i ↔ registered p r i ∧ ¬ (r = request ∧ i = id).
Proof.
  intros [Hwf Hin]. unfold unregister_cancel. destruct (dict_get request (in_flight_cancels p)) as [hs|] eqn:E.
  2:{ split; [done|]. intros r i. split; [|naive_solver]. intros H. split; [done|]. intros [-> ->].
      destruct H as (hs & E' & _). congruence. }
  destruct (Hin _ _ E) as (_ & Hw & Hv).
  assert (∀ i, i ∈ dict_keys (dict_del id hs) ↔ i ∈ dict_keys hs ∧ i ≠ id) as Hdel.
  { intros i. rewrite <- !dict_get_is_Some, dict_get_del by done. case_decide; [|naive_solver].
    split; [by intros [? ?]|naive_solver]. }
  destruct (dict_del id hs) as [|h hs'] eqn:Ed.
  - split.
    + constructor; cbn; [by apply dict_del_wf|]. intros r hs0. rewrite dict_get_del by done. case_decide; [done|apply Hin].
    + intros r i. unfold registered. cbn. setoid_rewrite dict_get_del; [|done]. case_decide as Hr; [|naive_solver].
      subst r. split; [naive_solver|]. intros [(hs0 & E0 & Hi) Hne]. rewrite E in E0. injection E0 as <-.
      assert (i ∈ dict_keys ([] : list (string * string))) as []%elem_of_nil. apply Hdel. naive_solver.
  - split.
    + constructor; cbn; [by apply dict_set_wf|]. intros r hs0. rewrite dict_get_set. case_decide; [|apply Hin].
      intros [= <-]. split; [done|]. rewrite <- Ed. split; [by apply dict_del_wf|].
      intros k v. rewrite dict_get_del by done. case_decide; [done|apply Hv].
    + intros r i. unfold registered. cbn. setoid_rewrite dict_get_set. case_decide as Hr; [subst r|naive_solver].
      split.
      * intros (hs0 & [= <-] & Hi%Hdel). split; [naive_solver|]. naive_solver.
      * intros [(hs0 & E0 & Hi) Hne]. rewrite E in E0. injection E0 as <-. eexists. split; [done|]. apply Hdel. naive_solver.
Qed.

Definition same_cancels (p p' : Proc) : Prop :=
  in_flight_cancels p' = in_flight_cancels p ∧ set_events p' = set_events p.

Lemma same_cancels_ok p p' : in_flight_cancels p' = in_flight_cancels p → cancels_ok p → cancels_ok p'.
Proof. intros E []. constructor; by rewrite E. Qed.

Lemma registered_same p p' r i :
  in_flight_cancels p' = in_flight_cancels p → registered p' r i ↔ registered p r i.
Proof. intros E. unfold registered. by rewrite E. Qed.

Lemma inner_cancels S request id model ph res p p' ph' :
  inner S request id model ph res p = Some (p', ph') → same_cancels p p'.
Proof.
  intros [_ [q H1 H2 H3|r chars q1 q2 H1 H2 _ E|t st ->]]%inner_cases; [done| |].
  - revert E. unfold reserve_and_decode. destruct (resolve_admission_for_model S model). unfold try_reserve.
    destruct (_ && _); by intros [= <- <-].
  - unfold release_reservation. cbn. by destruct (dict_mem id _).
Qed.

Lemma same_cancels_tombstone r now p : same_cancels p (check_and_consume_tombstone r now p).2.
Proof. unfold check_and_consume_tombstone. by destruct (dict_get r _). Qed.

Lemma signal_cancels r now p : in_flight_cancels (signal_cancel r now p).2 = in_flight_cancels p.
Proof. unfold signal_cancel. by destruct (dict_get r _) as [[|]|]. Qed.

Definition handles (s : Sys) : Prop :=
  cancels_ok (proc s) ∧
  ∀ r i, registered (proc s) r i ↔ ∃ a, dict_get i (attempts s) = Some a ∧ at_request a = r ∧ live a = true.

(** What is needed of an update of one attempt *)
Lemma handles_set s p id a :
  handles s → cancels_ok p →
  (∀ r i, i ≠ id → registered p r i ↔ registered (proc s) r i) →
  (∀ r, registered p r id ↔ at_request a = r ∧ live a = true) →
  handles (mkSys p (dict_set id a (attempts s))).
Proof.
  intros [_ He] Hok Hother Hself. split; [done|]. intros r i. cbn. rewrite dict_get_set. case_decide as Hi.
  - subst i. rewrite Hself. naive_solver.
  - rewrite Hother by done. apply He.
Qed.

Lemma handles_arrive s request id model now p a :
  handles s → id ∉ dict_keys (attempts s) → arrive request id model now (proc s) = (p, a) →
  handles (mkSys p (dict_set id a (attempts s))).
Proof.
  intros Hh Hf E. pose proof (arrive_spec _ _ _ _ _ _ _ E) as (_ & Hreq & _ & _ & Hph).
  assert (in_flight_cancels p = in_flight_cancels (register_cancel request id (proc s))) as Ep.
  { unfold arrive in E. pose proof (same_cancels_tombstone request now (register_cancel request id (proc s))) as [E1 _].
    destruct (check_and_consume_tombstone _ _ _). by injection E as <- _. }
  destruct Hh as [Hok He]. apply handles_set; [done| | |].
  - eapply same_cancels_ok; [exact Ep|]. by apply register_cancel_ok.
  - intros r i Hi. rewrite (registered_same _ _ _ _ Ep), registered_register. naive_solver.
  - intros r. rewrite (registered_same _ _ _ _ Ep), registered_register.
    assert (¬ registered (proc s) r id) as Hn.
    { rewrite He. intros (b & Hb & _). apply Hf, dict_get_is_Some. eauto. }
    assert (live a = true) by (unfold live; by destruct Hph as [->|(? & ? & ->)]). naive_solver.
Qed.

Lemma handles_turned_away s id a :
  handles s → id ∉ dict_keys (attempts s) → turned_away a → handles (mkSys (proc s) (dict_set id a (attempts s))).
Proof.
  intros Hh Hf (_ & _ & _ & st & Hph). pose proof Hh as [Hok He]. apply handles_set; [done..|]. intros r. rewrite He. unfold live.
  rewrite Hph. split; [|by intros [_ ?]]. intros (b & Hb & _). exfalso. apply Hf, dict_get_is_Some. eauto.
Qed.

Lemma handles_step S s s' : sys_step S s s' → handles s → handles s'.
Proof.
  intros [s0 data id model now Hf|s0 id a res p a' Ha Hr Hadv|s0 request now] Hh.
  - destruct (process _ _ _ _ _) as [p a] eqn:E. apply process_cases in E as [(wi & _ & E)|[-> Ht]];
      [by eapply handles_arrive|by apply handles_turned_away].
  - unfold advance in Hadv. destruct (inner S _ _ _ _ _ _) as [[p0 ph']|] eqn:Ei; [|done]. injection Hadv as <- <-.
    pose proof (inner_cancels _ _ _ _ _ _ _ _ _ Ei) as [Ec _]. apply inner_cases in Ei as [Hlive _].
    destruct Hh as [Hok He]. apply (same_cancels_ok _ p0) in Hok as Hok0; [|done].
    assert (∀ r i, registered p0 r i ↔ registered (proc s0) r i) as Hreg by (intros; by apply registered_same).
    assert (∀ r, registered (proc s0) r id ↔ at_request a = r) as Hself.
    { intros r. rewrite He. unfold live. naive_solver. }
    set (p1 := match ph' with Finished _ => _ | _ => p0 end).
    assert ((live_phase ph' = true ∧ p1 = p0) ∨ (live_phase ph' = false ∧ p1 = unregister_cancel (at_request a) id p0))
      as [[Hl ->]|[Hl ->]] by (subst p1; destruct ph'; auto).
    + apply handles_set; [done|done|auto|]. intros r. rewrite Hreg, Hself. unfold live. cbn. naive_solver.
    + destruct (unregister_cancels (at_request a) id p0 Hok0) as [Hok1 Hun]. apply handles_set; [done|done| |].
      * intros r i Hi. rewrite Hun, Hreg. naive_solver.
      * intros r. rewrite Hun, Hreg, Hself. unfold live. cbn. rewrite Hl. naive_solver.
  - destruct Hh as [Hok He]. split.
    + eapply same_cancels_ok; [apply signal_cancels|done].
    + intros r i. cbn. rewrite <- He. apply registered_same, signal_cancels.
Qed.

Lemma reachable_handles S s : reachable S s → handles s.
Proof.
  apply (reachable_invariant handles); [|by eauto using handles_step]. split.
  - constructor; cbn; [constructor|done].
  - intros r i. split; [by intros (? & ? & _)|by intros (? & ? & _)].
Qed.

(** A cancel handle exists exactly while its attempt is in progress.  In every
    reachable state the processor's table holds, for each request, the handles of its live
    attempts and no others, so an attempt that ends never takes away the handle of a
    concurrent redelivery of the same request, none is left behind, and [in_flight_count]
    counts the requests with a live attempt. *)
Theorem cancel_handles_exact S s :
  reachable S s →
  (∀ r i, registered (proc s) r i ↔ ∃ a, dict_get i (attempts s) = Some a ∧ at_request a = r ∧ live a = true) ∧
  (∀ r, r ∈ in_flight_request_ids (proc s) ↔
        ∃ i a, dict_get i (attempts s) = Some a ∧ at_request a = r ∧ live a = true) ∧
  NoDup (in_flight_request_ids (proc s)) ∧
  in_flight_count (proc s) = length (in_flight_request_ids (proc s)).
Proof.
  intros Hr. apply reachable_handles in Hr as [[Hwf Hin] He]. split_and!; [done| |done|].
  - intros r. unfold in_flight_request_ids. rewrite <- dict_get_is_Some. split.
    + intros [hs Hhs]. destruct (Hin _ _ Hhs) as (Hne & _ & _). destruct hs as [|[i v] hs]; [done|].
      exists i. apply He. exists ((i, v) :: hs). split; [done|]. by left.
    + intros (i & H). apply He in H as (hs & -> & _). eauto.
  - unfold in_flight_count, in_flight_request_ids, dict_keys. by rewrite length_fmap.
Qed.

(** ** Cancels *)

Definition not_decoding (a : Attempt) : Prop := ∀ t, at_phase a ≠ Decoding t.

(** An attempt whose event is set while it is not decoding *)
Definition doomed (id : string) (s : Sys) : Prop :=
  id ∈ set_events (proc s) ∧ ∃ a, dict_get id (attempts s) = Some a ∧ not_decoding a.

Lemma signal_events r now p : set_events p ⊆ set_events (signal_cancel r now p).2.
Proof. unfold signal_cancel. destruct (dict_get r _) as [[|]|]; cbn; set_solver. Qed.

Lemma unregister_events r i p : set_events (unregister_cancel r i p) = set_events p.
Proof. unfold unregister_cancel. destruct (dict_get r _); [|done]. by destruct (dict_del i l). Qed.

Lemma doomed_step S id s s' : sys_step S s s' → doomed id s → doomed id s'.
Proof.
  intros [s0 data id' model now Hf|s0 id' b res p b' Hb Hr Hadv|s0 request now] (Hev & a & Ha & Hnd).
  - destruct (process _ _ _ _ _) as [p b] eqn:E. split; cbn.
    + apply process_cases in E as [(wi & _ & E)|[-> _]]; [|done]. set (request := wi_request_id wi) in *.
      unfold arrive in E. pose proof (same_cancels_tombstone request now (register_cancel request id' (proc s0))) as [_ Es].
      destruct (check_and_consume_tombstone _ _ _). injection E as <- _. cbn in Es. by rewrite Es.
    + exists a. split; [|done]. rewrite dict_get_set, decide_False; [done|]. intros ->. apply Hf, dict_get_is_Some. eauto.
  - unfold advance in Hadv. destruct (inner S _ _ _ _ _ _) as [[p0 ph']|] eqn:Ei; [|done]. injection Hadv as <- <-.
    pose proof (inner_cancels _ _ _ _ _ _ _ _ _ Ei) as [_ Es]. apply inner_cases in Ei as [_ Hcase]. split; cbn.
    + destruct ph'; rewrite ?unregister_events; by rewrite Es.
    + rewrite dict_get_set. case_decide as Hi; [|eauto]. subst id'. eexists. split; [done|]. rewrite Ha in Hb. injection Hb as <-.
      destruct Hcase as [q H1 H2 H3|r chars q1 q2 H1 H2 H3 E|t st Ht]; [exact H2|done|by destruct (Hnd t)].
  - split; cbn; [by apply signal_events|eauto].
Qed.

Lemma signal_sets_events S s r now id a :
  reachable S s → dict_get id (attempts s) = Some a → at_request a = r → live a = true →
  id ∈ set_events (signal_cancel r now (proc s)).2.
Proof.
  intros Hr Ha Hq Hl. apply reachable_handles in Hr as [[_ Hin] He].
  destruct (proj2 (He r id)) as (hs & Eh & Hi); [eauto|]. destruct (Hin _ _ Eh) as (Hne & Hw & Hv).
  assert (id ∈ (list_to_set (dict_values hs) : gset string)) as Hin'.
  { apply elem_of_list_to_set, list_elem_of_fmap. apply dict_get_is_Some in Hi as [v Hk].
    pose proof (Hv _ _ Hk) as ->. apply dict_get_Some_elem in Hk. by exists (id, id). }
  unfold signal_cancel. rewrite Eh. destruct hs as [|h hs]; [done|].
  apply elem_of_union. by left.
Qed.

(** Steps of other requests: at most [n] of them are cancels, before the deadline. *)
Inductive other_steps (S : Settings) (r : string) (deadline : float) : nat → Sys → Sys → Prop :=
| os_refl s : other_steps S r deadline 0 s s
| os_arrive n s s1 data id model now :
    other_steps S r deadline n s s1 → wi_request_id <$> data ≠ Some r → id ∉ dict_keys (attempts s1) →
    other_steps S r deadline n s
      (let '(p, a) := process data id model now (proc s1) in mkSys p (dict_set id a (attempts s1)))
| os_advance n s s1 id a res p a' :
    other_steps S r deadline n s s1 → dict_get id (attempts s1) = Some a →
    advance S id a res (proc s1) = Some (p, a') → other_steps S r deadline n s (mkSys p (dict_set id a' (attempts s1)))
| os_cancel n s s1 request now :
    other_steps S r deadline n s s1 → request ≠ r → fle deadline now = false →
    other_steps S r deadline (1 + n) s (mkSys (signal_cancel request now (proc s1)).2 (attempts s1)).

(** The tombstone of [r] is in the map, with at most [n] younger ones. *)
Definition entombed (r : string) (deadline : float) (n : nat) (d : list (string * float)) : Prop :=
  dict_wf d ∧ ∃ d1 d2, d = d1 ++ (r, deadline) :: d2 ∧ (length d2 <= n)%nat.

Lemma entombed_get r deadline n d : entombed r deadline n d → dict_get r d = Some deadline.
Proof. intros [Hwf (d1 & d2 & -> & _)]. apply dict_elem_get; [done|]. apply elem_of_app. right. by left. Qed.

Lemma dict_del_app {V} (k : string) (d1 d2 : list (string * V)) :
  dict_wf (d1 ++ d2) → dict_del k (d1 ++ d2) = filter (λ e, e.1 ≠ k) d1 ++ filter (λ e, e.1 ≠ k) d2.
Proof. intros Hwf. by rewrite dict_del_filter, filter_app. Qed.

Lemma entombed_del r deadline n d k : k ≠ r → entombed r deadline n d → entombed r deadline n (dict_del k d).
Proof.
  intros Hk [Hwf (d1 & d2 & -> & Hl)]. split; [by apply dict_del_wf|]. rewrite dict_del_app by done.
  rewrite filter_cons_True by done. eexists _, _. split; [done|]. pose proof (length_filter (λ e, e.1 ≠ k) d2). lia.
Qed.

Lemma entombed_sweep r deadline n d now :
  fle deadline now = false → entombed r deadline n d → entombed r deadline n (filter (λ e, fle e.2 now = false) d).
Proof.
  intros Hf [Hwf (d1 & d2 & -> & Hl)]. split.
  - unfold dict_wf, dict_keys in *. eapply sublist_NoDup; [exact Hwf|]. apply fmap_sublist. apply sublist_filter.
  - rewrite filter_app, filter_cons_True by done. eexists _, _. split; [done|].
    pose proof (length_filter (λ e, fle e.2 now = false) d2). lia.
Qed.

Lemma entombed_evict r deadline n d max :
  (n < max)%nat → entombed r deadline n d → entombed r deadline n (evict_oldest max d).
Proof.
  intros Hn [Hwf (d1 & d2 & -> & Hl)]. split; [by apply evict_oldest_wf|]. unfold evict_oldest.
  rewrite drop_app_le by (rewrite length_app; cbn; lia). eexists _, _. split; [done|lia].
Qed.

Lemma entombed_add r deadline n p request now :
  request ≠ r → fle deadline now = false → (n < CANCEL_TOMBSTONE_MAX - 1)%nat →
  entombed r deadline n (cancel_tombstones p) →
  entombed r deadline (1 + n) (cancel_tombstones (add_tombstone request now p)).
Proof.
  intros Hne Hf Hn He. unfold add_tombstone. cbn [cancel_tombstones with_tombstones].
  set (d := if (_ <=? _)%nat then _ else _). assert (entombed r deadline n d) as Hd.
  { subst d. destruct (_ <=? _)%nat; [|done]. apply entombed_evict; [done|]. by apply entombed_sweep. }
  apply (entombed_del _ _ _ _ request Hne) in Hd as [Hwf (d1 & d2 & E & Hl)].
  split; [by apply dict_set_wf|]. assert (request ∉ dict_keys (dict_del request d)) as Hnot.
  { assert (dict_wf d) as Hwd.
    { subst d. destruct He as [Hw _]. destruct (_ <=? _)%nat; [|done]. apply evict_oldest_wf.
      unfold dict_wf, dict_keys in *. eapply sublist_NoDup; [exact Hw|]. apply fmap_sublist. apply sublist_filter. }
    by apply dict_keys_del_self. }
  rewrite dict_set_fresh, E by done. exists d1, (d2 ++ [(request, fadd now CANCEL_TOMBSTONE_TTL_S)]).
  rewrite <- app_assoc. split; [done|]. rewrite length_app. cbn. lia.
Qed.

Lemma entombed_signal r deadline n p request now :
  request ≠ r → fle deadline now = false → (n < CANCEL_TOMBSTONE_MAX - 1)%nat →
  entombed r deadline n (cancel_tombstones p) →
  entombed r deadline (1 + n) (cancel_tombstones (signal_cancel request now p).2).
Proof.
  intros Hne Hf Hn He. unfold signal_cancel.
  destruct (dict_get request _) as [[|h hs]|]; [by apply entombed_add| |by apply entombed_add].
  destruct He as [Hwf (d1 & d2 & E & Hl)]. split; [done|]. exists d1, d2. split; [done|lia].
Qed.

Lemma inner_tombstones S request id model ph res p p' ph' :
  inner S request id model ph res p = Some (p', ph') → cancel_tombstones p' = cancel_tombstones p.
Proof.
  intros [_ [q H1 H2 H3|r chars q1 q2 H1 H2 _ E|t st ->]]%inner_cases; [done| |].
  - revert E. unfold reserve_and_decode. destruct (resolve_admission_for_model S model). unfold try_reserve.
    destruct (_ && _); by intros [= <- <-].
  - unfold release_reservation. cbn. by destruct (dict_mem id _).
Qed.

Lemma unregister_tombstones r i p : cancel_tombstones (unregister_cancel r i p) = cancel_tombstones p.
Proof. unfold unregister_cancel. destruct (dict_get r _); [|done]. by destruct (dict_del i l). Qed.

Lemma entombed_other S r deadline n s s' :
  other_steps S r deadline n s s' → (n < CANCEL_TOMBSTONE_MAX)%nat →
  entombed r deadline 0 (cancel_tombstones (proc s)) → entombed r deadline n (cancel_tombstones (proc s')).
Proof.
  intros Hs Hn He. induction Hs as [|n s s1 data id model now Hs IH Hne Hf|n s s1 id a res p a' Hs IH Ha Hadv|
    n s s1 request now Hs IH Hne Hf]; [done| | |].
  - specialize (IH Hn He). destruct (process _ _ _ _ _) as [p a] eqn:E.
    apply process_cases in E as [(wi & -> & E)|[-> _]]; [|done]. set (request := wi_request_id wi) in *.
    assert (request ≠ r) as Hreq by (intros Heq; apply Hne; cbn; by f_equal). revert E. unfold arrive, check_and_consume_tombstone. cbn.
    destruct (dict_get request (cancel_tombstones (proc s1))); intros [= <- <-]; cbn; [by apply entombed_del|done].
  - specialize (IH Hn He). unfold advance in Hadv. destruct (inner S _ _ _ _ _ _) as [[p0 ph']|] eqn:Ei; [|done].
    injection Hadv as <- _. apply inner_tombstones in Ei. cbn. destruct ph'; rewrite ?unregister_tombstones; by rewrite Ei.
  - apply entombed_signal; [done|done|unfold CANCEL_TOMBSTONE_MAX in *; lia|]. apply IH; [lia|done].
Qed.

Lemma add_tombstone_wf r now p : dict_wf (cancel_tombstones p) → dict_wf (cancel_tombstones (add_tombstone r now p)).
Proof.
  intros Hwf. unfold add_tombstone. cbn [cancel_tombstones with_tombstones]. apply dict_set_wf, dict_del_wf. destruct (_ <=? _)%nat; [|done].
  apply evict_oldest_wf. unfold dict_wf, dict_keys in *. eapply sublist_NoDup; [exact Hwf|]. apply fmap_sublist. apply sublist_filter.
Qed.

Lemma reachable_tombstones_wf S s : reachable S s → dict_wf (cancel_tombstones (proc s)).
Proof.
  apply (reachable_invariant (λ s, dict_wf (cancel_tombstones (proc s)))); [constructor|]. clear s.
  intros s s' _ Hwf Hstep. revert Hwf.
  destruct Hstep as [s0 data id model now Hf|s0 id a res p a' Ha Hr Hadv|s0 request now]; intros Hwf.
  - destruct (process _ _ _ _ _) as [p a] eqn:E. apply process_cases in E as [(wi & _ & E)|[-> _]]; [|done].
    set (request := wi_request_id wi) in *. revert E. unfold arrive, check_and_consume_tombstone. cbn.
    destruct (dict_get request (cancel_tombstones (proc s0))); intros [= <- <-]; cbn; [by apply dict_del_wf|done].
  - unfold advance in Hadv. destruct (inner S _ _ _ _ _ _) as [[p0 ph']|] eqn:Ei; [|done].
    injection Hadv as <- _. apply inner_tombstones in Ei. cbn. destruct ph'; rewrite ?unregister_tombstones; by rewrite Ei.
  - cbn. unfold signal_cancel. destruct (dict_get request _) as [[|]|]; [by apply add_tombstone_wf|done|by apply add_tombstone_wf].
Qed.

(** C18 — a cancel is never lost.  When a cancel arrives, every attempt of the request that
    is in progress but not yet decoding (loading, rendering, checking, compiling) will
    never decode, whatever happens next.  When there is no attempt yet, the first attempt
    that arrives within two minutes is refused before it loads anything, unless as many as
    1023 cancels of other requests without attempts came in between. *)
Theorem cancel_never_lost S s r now :
  reachable S s →
  let s1 := mkSys (signal_cancel r now (proc s)).2 (attempts s) in
  (∀ id a s2 a', dict_get id (attempts s) = Some a → at_request a = r → live a = true → not_decoding a →
     rtc (sys_step S) s1 s2 → dict_get id (attempts s2) = Some a' → not_decoding a') ∧
  ((∀ id a, dict_get id (attempts s) = Some a → at_request a = r → live a = false) →
   ∀ n s2 id model now', (n < CANCEL_TOMBSTONE_MAX - 1)%nat →
     other_steps S r (fadd now CANCEL_TOMBSTONE_TTL_S) n s1 s2 →
     flt now' (fadd now CANCEL_TOMBSTONE_TTL_S) = true →
     ∃ message, at_phase (arrive r id model now' (proc s2)).2 = Publishing (TerminalError "transport_failure" message)).
Proof.
  intros Hr s1. split.
  - intros id a s2 a' Ha Hq Hl Hnd Hsteps Ha'.
    assert (doomed id s1) as Hd.
    { split; [by eapply signal_sets_events|]. eauto. }
    assert (doomed id s2) as (_ & b & Hb & Hnb) by (revert Hd; induction Hsteps; eauto using doomed_step).
    congruence.
  - intros Hno n s2 id model now' Hn Ho Hlt.
    assert (dict_get r (in_flight_cancels (proc s)) = None) as Hg.
    { destruct (dict_get r (in_flight_cancels (proc s))) as [hs|] eqn:E; [|done].
      apply reachable_handles in Hr as [[_ Hin] He]. destruct (Hin _ _ E) as (Hne & _ & _).
      destruct hs as [|[i v] hs]; [done|]. destruct (proj1 (He r i)) as (b & Hb & Hq & Hl).
      - exists ((i, v) :: hs). split; [done|]. by left.
      - by rewrite (Hno _ _ Hb Hq) in Hl. }
    assert (entombed r (fadd now CANCEL_TOMBSTONE_TTL_S) 0 (cancel_tombstones (proc s1))) as He.
    { unfold s1, signal_cancel. rewrite Hg. cbn [proc snd]. split; [by eapply add_tombstone_wf, reachable_tombstones_wf|].
      unfold add_tombstone. cbn [cancel_tombstones with_tombstones].
      set (d := if (_ <=? _)%nat then _ else _). exists (dict_del r d), []. split; [|done].
      apply dict_set_fresh. apply dict_keys_del_self. subst d.
      pose proof (reachable_tombstones_wf _ _ Hr) as Hwf. destruct (_ <=? _)%nat; [|done]. apply evict_oldest_wf.
      unfold dict_wf, dict_keys in *. eapply sublist_NoDup; [exact Hwf|]. apply fmap_sublist. apply sublist_filter. }
    apply entombed_other with (1 := Ho), entombed_get in He; [|lia].
    unfold arrive, check_and_consume_tombstone.
    change (cancel_tombstones (register_cancel r id (proc s2))) with (cancel_tombstones (proc s2)).
    rewrite He, Hlt. eexists. reflexivity.
Qed.

(** ** Settlement *)

(** The gateway has an answer of the attempt: an envelope that ends it, or a stream that
    ends with its terminal. *)
Definition answered (a : Attempt) : Prop :=
  at_told a = true ∨ ∃ front t, at_wire a = front ++ [t] ∧ Streaming.e_done t = true.

Definition settled_ok (s : Sys) : Prop :=
  ∀ id a, dict_get id (attempts s) = Some a →
    (at_reply a = true → at_phase a = Finished (Some Acked) → answered a) ∧
    (at_phase a = Finished (Some Naked) → at_told a = false) ∧
    (live a = true → at_told a = false) ∧ (at_reply a = false → turned_away a).

Lemma admit_phase S request id model r chars p p' ph' :
  reserve_and_decode S request id model r chars p = (p', ph') → live_phase ph' = true.
Proof.
  unfold reserve_and_decode. destruct (resolve_admission_for_model S model). destruct (try_reserve _ _ _ _ _ _ _) as [ok q].
  destruct ok; by intros [= <- <-].
Qed.

(** An attempt ends with a settled message after a publish, after a failed load, or when
    its stream was acknowledged. *)
Lemma inner_settled S request id model ph res p p' st :
  inner S request id model ph res p = Some (p', Finished (Some st)) →
  (∃ ok, res = PublishResult ok ∧ (st = Acked ↔ ok = true)) ∨ (res = LoadFailed ∧ st = Naked) ∨
  (∃ t env multi events, ph = Decoding t ∧ res = StreamResult env multi events ∧ st = Acked ∧
     Streaming.out_acked (Streaming.stream_generate env request id multi events) = true).
Proof.
  assert (∀ k : Proc * phase, live_phase k.2 = true → live_phase (unless_cancelled id p k).2 = true) as Hun.
  { intros k Hk. unfold unless_cancelled. by destruct (bool_decide _). }
  assert (∀ k : Proc * phase, live_phase k.2 = true → Some k ≠ Some (p', Finished (Some st))) as Hno.
  { intros k Hk [= ->]. done. }
  destruct ph as [|r|r chars|r chars|[c m| |n]|t|fin]; destruct res as [| |ga v|rr|er|er|ok|ev mu evs|]; cbn [inner settle_of]; try done.
  - intros [= _ <-]. auto.
  - intros E. exfalso. revert E. apply Hno. destruct ga; [|done]. apply Hun. destruct v as [r|e]; [|done].
    destruct (r_messages r); [by destruct (_ && _)|by apply Hun].
  - intros E. exfalso. revert E. destruct rr; apply Hno; [by apply Hun|done].
  - intros E. exfalso. revert E. destruct er; apply Hno; [done|]. apply Hun. destruct (r_tool_choice r); [done|].
    destruct (r_preflight r); [done|]. destruct (reserve_and_decode _ _ _ _ _ _ _) as [q1 q2] eqn:Ea. by eapply admit_phase.
  - intros E. exfalso. revert E. destruct er; apply Hno; [done|]. apply Hun.
    destruct (reserve_and_decode _ _ _ _ _ _ _) as [q1 q2] eqn:Ea. by eapply admit_phase.
  - intros [= _ <-]. left. exists ok. by destruct ok.
  - intros [= _ <-]. left. exists ok. by destruct ok.
  - destruct ok; [|done]. intros [= _ <-]. left. by exists true.
  - cbv zeta. destruct (Streaming.out_acked _) eqn:Ea; [|done]. intros [= _ <-]. right. right. by exists t, ev, mu, evs.
Qed.

Lemma advance_settles S id a res p p' a' :
  sane_result res → advance S id a res p = Some (p', a') → (live a = true → at_told a = false) →
  (at_phase a' = Finished (Some Acked) → answered a') ∧
  (at_phase a' = Finished (Some Naked) → at_told a' = false) ∧ (live a' = true → at_told a' = false) ∧
  live a = true ∧ at_reply a' = at_reply a.
Proof.
  intros Hr. unfold advance. destruct (inner S _ _ _ _ _ _) as [[p0 ph']|] eqn:Ei; [|done].
  intros [= <- <-] Ht. unfold live, answered in *. cbn [at_phase at_told at_wire].
  pose proof (inner_cases _ _ _ _ _ _ _ _ _ Ei) as [Hl _]. rewrite (Ht Hl). cbn [orb].
  split_and!.
  - intros ->. apply inner_settled in Ei as [(ok & -> & Hok)|[[_ [=]]|(t & env & multi & events & Hd & -> & _ & Hack)]].
    + left. by apply Hok.
    + right. rewrite Hd. destruct (Streaming.acked_over _ _ _ _ _ Hr Hack) as (_ & front & tm & _ & _ & _ & E & _ & Htd & _). eauto.
  - intros ->. apply inner_settled in Ei as [(ok & -> & Hok)|[[-> _]|(t & ? & ? & ? & ? & ? & [=] & _)]]; [|done].
    destruct ok; [|done]. by pose proof (proj2 Hok eq_refl).
  - intros Hl'. destruct res; try done. destruct ok; [|done]. destruct (at_phase a) as [| | | |[]| |]; try done;
      injection Ei as _ <-; done.
  - done.
  - done.
Qed.

Lemma reachable_settled S s : reachable S s → settled_ok s.
Proof.
  apply (reachable_invariant settled_ok); [by intros ? ?|]. clear s. intros s s' _ Hok Hstep. revert Hok.
  destruct Hstep as [s0 data id model now Hf|s0 id a res p a' Ha Hr Hadv|s0 request now]; intros Hok; [| |exact Hok].
  - destruct (process _ _ _ _ _) as [p a] eqn:E. intros i b. cbn.
    rewrite dict_get_set. case_decide; [|apply Hok]. intros [= <-]. apply process_cases in E as [(wi & _ & E)|[-> Ht]].
    + apply arrive_spec in E as (_ & _ & Ht & Hy & Hph). rewrite Hy. split_and!; [|done..]. by destruct Hph as [->|(? & ? & ->)].
    + pose proof Ht as (? & _ & Hy & _). by rewrite Hy.
  - intros i b. cbn. rewrite dict_get_set. case_decide; [|apply Hok]. intros [= <-]. destruct (Hok _ _ Ha) as (_ & _ & Ht & Hy).
    destruct (advance_settles _ _ _ _ _ _ _ Hr Hadv Ht) as (? & ? & ? & Hl & ->). split_and!; auto.
    intros (_ & _ & _ & st & Hph)%Hy. unfold live in Hl. by rewrite Hph in Hl.
Qed.

(** C19 — a work item that names a reply subject is acknowledged only when the gateway has
    its answer.  In every reachable state, an attempt at such an item whose message was
    acknowledged has published a terminal error, a cancelled terminal or a NAK envelope, or
    has streamed up to its terminal; a message given back with a NAK was not answered.  So no
    such request is acknowledged into silence, and none is answered and redelivered by the
    pre-stream error paths.  The items acknowledged without an answer are exactly those
    without a reply subject, which [process] acknowledges at once; one that cannot be decoded
    it gives back. *)
Theorem acked_means_answered S s id a :
  reachable S s → dict_get id (attempts s) = Some a →
  (at_reply a = true → at_phase a = Finished (Some Acked) → answered a) ∧
  (at_phase a = Finished (Some Naked) → at_told a = false) ∧
  (at_reply a = false → live a = false ∧ ¬ answered a).
Proof.
  intros Hr Ha. destruct (reachable_settled _ _ Hr _ _ Ha) as (H1 & H2 & _ & H3). split_and!; [done..|].
  intros (Ht & Hw & _ & st & Hph)%H3. unfold live, answered. rewrite Ht, Hw, Hph. split; [done|].
  intros [[=]|(front & t & E & _)]. by destruct front.
Qed.

(** ** Runs *)

Inductive action :=
| Arrive (data : option WorkItem) (id model : string) (now : float)
| Advance (id : string) (res : result)
| Cancel (request : string) (now : float).

(** A schedule, executed; actions that are not possible are skipped. *)
Definition exec (S : Settings) (s : Sys) (act : action) : Sys :=
  match act with
  | Arrive data id model now =>
      if dict_mem id (attempts s) then s
      else let '(p, a) := process data id model now (proc s) in mkSys p (dict_set id a (attempts s))
  | Advance id res =>
      match dict_get id (attempts s) with
      | None => s
      | Some a => match advance S id a res (proc s) with
                  | None => s
                  | Some (p, a') => mkSys p (dict_set id a' (attempts s))
                  end
      end
  | Cancel request now => mkSys (signal_cancel request now (proc s)).2 (attempts s)
  end.

Definition sane_action (act : action) : Prop := match act with Advance _ res => sane_result res | _ => True end.

Lemma exec_reachable S acts s : Forall sane_action acts → reachable S s → reachable S (foldl (exec S) s acts).
Proof.
  intros Ha. revert s. induction Ha as [|act acts Hact Ha IH]; intros s Hr; [done|]. cbn. apply IH.
  destruct act as [data id model now|id res|request now]; cbn [exec].
  - destruct (dict_mem id (attempts s)) eqn:E; [done|]. eapply rtc_r; [exact Hr|]. apply step_arrive. by apply dict_mem_false.
  - destruct (dict_get id (attempts s)) as [a|] eqn:E; [|done].
    destruct (advance S id a res (proc s)) as [[p a']|] eqn:E2; [|done]. eapply rtc_r; [exact Hr|]. by eapply step_advance.
  - eapply rtc_r; [exact Hr|]. apply step_cancel.
Qed.

(** A decodable item with a reply subject *)
Definition item (request : string) : option WorkItem := Some (mkWorkItem "_INBOX.1" request).

(** A budget of 100 tokens; two requests of 44 and 60 tokens. *)
Definition ex_settings : Settings := mkSettings (Some 100) true None (λ _, None).
Definition ex_request (max_new : Z) : Request := mkRequest false 16 0 max_new None None false.
Definition to_decode (id : string) (max_new : Z) : list action :=
  [Advance id (LoadOk true (Ret (ex_request max_new))); Advance id (ContextResult None)].

Definition ex_schedule : list action :=
  [Arrive (item "r1") "a1" "m" f0; Arrive (item "r2") "a2" "m" f0] ++ to_decode "a1" 40 ++ to_decode "a2" 60 ++
  [Advance "a2" (PublishResult true)].
Definition ex_stream : action :=
  Advance "a1" (StreamResult Streaming.prompt_env false [Streaming.EvChunk (ToolCalls.delta "hi"); Streaming.EvCancel]).

Definition ex_run (acts : list action) : Sys := foldl (exec ex_settings) init_sys acts.

Lemma ex_run_reachable acts : Forall sane_action acts → reachable ex_settings (ex_run acts).
Proof. intros H. apply exec_reachable; [done|apply rtc_refl]. Qed.

Lemma ex_sane : Forall sane_action (ex_schedule ++ [ex_stream]).
Proof. repeat constructor; done. Qed.

Lemma ex_schedule_sane : Forall sane_action ex_schedule.
Proof. repeat constructor; done. Qed.

Lemma kv_reserved_exact_witness :
  let s := ex_run ex_schedule in
  reserved (proc s) = 44 ∧ generation_inflight (proc s) = 1 ∧ reserved (proc (ex_run (ex_schedule ++ [ex_stream]))) = 0.
Proof.
  intros s. destruct (kv_reserved_exact ex_settings s) as (-> & -> & _).
  - apply ex_run_reachable, ex_schedule_sane.
  - destruct (kv_reserved_exact ex_settings (ex_run (ex_schedule ++ [ex_stream]))) as (-> & _ & _).
    + apply ex_run_reachable, ex_sane.
    + vm_compute. auto.
Defined.

Lemma kv_within_budget_witness : reserved (proc (ex_run ex_schedule)) <= 100.
Proof.
  apply (kv_within_budget ex_settings).
  - intros model. split; [reflexivity|]. exists 100. split; [reflexivity|]. lia.
  - lia.
  - apply ex_run_reachable, ex_schedule_sane.
Defined.

(** Two attempts of one request: the end of one leaves the handle of the other. *)
Definition ex_redelivery : list action :=
  [Arrive (item "r") "a1" "m" f0; Arrive (item "r") "a2" "m" f0; Advance "a1" LoadFailed].

Lemma ex_redelivery_sane : Forall sane_action ex_redelivery.
Proof. repeat constructor. Qed.

Lemma cancel_handles_exact_witness :
  registered (proc (ex_run ex_redelivery)) "r" "a2" ∧ ¬ registered (proc (ex_run ex_redelivery)) "r" "a1".
Proof.
  destruct (cancel_handles_exact ex_settings (ex_run ex_redelivery)) as (H & _).
  - apply ex_run_reachable, ex_redelivery_sane.
  - rewrite !H. split.
    + eexists. split; [vm_compute; reflexivity|]. split; reflexivity.
    + intros (a & Ha & _ & Hl). vm_compute in Ha. injection Ha as <-. discriminate Hl.
Defined.

(** A live attempt that loads its model after the cancel, and a cancel that comes before its
    request, with another request arriving in between. *)
Lemma cancel_never_lost_witness :
  (∃ a', dict_get "a2"%string
     (attempts (ex_run (ex_redelivery ++ [Cancel "r" f0; Advance "a2" (LoadOk true (Ret (ex_request 40)))]))) = Some a' ∧
     not_decoding a') ∧
  (∃ message, at_phase (arrive "r" "a1" "m" f0 (proc (ex_run [Cancel "r" f0; Arrive (item "q") "b1" "m" f0]))).2 =
     Publishing (TerminalError "transport_failure" message)).
Proof.
  split.
  - eexists. split; [vm_compute; reflexivity|].
    destruct (cancel_never_lost ex_settings (ex_run ex_redelivery) "r" f0) as [H _].
    + apply ex_run_reachable, ex_redelivery_sane.
    + eapply (H "a2"%string _ (ex_run (ex_redelivery ++ [Cancel "r" f0; Advance "a2" (LoadOk true (Ret (ex_request 40)))])));
        [vm_compute; reflexivity|reflexivity|reflexivity|intros t; discriminate| |vm_compute; reflexivity].
      apply rtc_once. eapply (step_advance ex_settings _ "a2" _ (LoadOk true (Ret (ex_request 40))));
        [vm_compute; reflexivity|cbn; lia|vm_compute; reflexivity].
  - destruct (cancel_never_lost ex_settings init_sys "r" f0) as [_ H]; [apply rtc_refl|].
    eapply (H _ 0%nat (ex_run [Cancel "r" f0; Arrive (item "q") "b1" "m" f0])); [unfold CANCEL_TOMBSTONE_MAX; lia| |reflexivity].
    apply (os_arrive ex_settings "r" _ 0 _ (ex_run [Cancel "r" f0]) (item "q") "b1" "m" f0); [apply os_refl|discriminate|apply not_elem_of_nil].
    Unshelve. intros id a Ha. discriminate Ha.
Defined.

Lemma acked_means_answered_witness :
  (∃ a, dict_get "a1"%string (attempts (ex_run (ex_schedule ++ [ex_stream]))) = Some a ∧ answered a) ∧
  (∃ a, dict_get "b1"%string (attempts (ex_run [Arrive (Some (mkWorkItem "" "q")) "b1" "m" f0])) = Some a ∧
        at_phase a = Finished (Some Acked) ∧ ¬ answered a).
Proof.
  split; eexists; (split; [vm_compute; reflexivity|]).
  - eapply (acked_means_answered ex_settings (ex_run (ex_schedule ++ [ex_stream])) "a1").
    + apply ex_run_reachable, ex_sane.
    + vm_compute. reflexivity.
    + reflexivity.
    + reflexivity.
  - split; [reflexivity|].
    eapply (acked_means_answered ex_settings (ex_run [Arrive (Some (mkWorkItem "" "q")) "b1" "m" f0]) "b1").
    + apply ex_run_reachable. by repeat constructor.
    + vm_compute. reflexivity.
    + reflexivity.
Defined.

End Generation.
