(* ===== verification/Lifecycle.v ===== *)
(** Draining a server and reporting its saturation: [core/shutdown.py] and
    [health/saturation.py].

    [ShutdownState] counts the HTTP requests in progress; SIGTERM closes the door and the
    drain event fires when the count reaches zero.  [SaturationGate] turns a load fraction
    into a flag with two thresholds. *)

From S2P Require Import Prelude PyFloat PyDict.
Local Open Scope Z_scope.

Module Shutdown.

Record ShutdownState := mkState {
  shutting_down : bool;
  in_flight : Z;
  drain_event : bool;
}.

Definition initial : ShutdownState := mkState false 0 false.

(** [start_shutdown] *)
Definition start_shutdown (s : ShutdownState) : ShutdownState :=
  if shutting_down s then s
  else mkState true (in_flight s) (if in_flight s =? 0 then true else drain_event s).

(** [request_started], [request_finished] *)
Definition request_started (s : ShutdownState) : ShutdownState :=
  mkState (shutting_down s) (in_flight s + 1) (drain_event s).
Definition request_finished (s : ShutdownState) : ShutdownState :=
  let n := in_flight s - 1 in
  mkState (shutting_down s) n (if shutting_down s && (n =? 0) then true else drain_event s).

(** [wait_for_drain], with the state it first sees and the state at the end of its wait:
    what the event was when the timeout struck, or that it fired. *)
Definition wait_for_drain (before after : ShutdownState) : bool :=
  if in_flight before =? 0 then true else drain_event after.

(** The middleware on an HTTP request: refused with 503, or counted and passed on. *)
Inductive scope_type := http | other.
Inductive verdict := Rejected503 | Untracked | Accepted.

Definition middleware_enter (scope : scope_type) (s : ShutdownState) : verdict * ShutdownState :=
  match scope with
  | other => (Untracked, s)
  | http => if shutting_down s then (Rejected503, s) else (Accepted, request_started s)
  end.

(** The server: the state and the identities of the requests inside the application. *)
Record Server := mkServer { state : ShutdownState; inside : list nat }.

Inductive server_step : Server → Server → Prop :=
| srv_sigterm v : server_step v (mkServer (start_shutdown (state v)) (inside v))
| srv_enter v scope r : r ∉ inside v →
    server_step v (let '(vd, s) := middleware_enter scope (state v) in
                   mkServer s (match vd with Accepted => r :: inside v | _ => inside v end))
| srv_leave v r l : inside v ≡ₚ r :: l →          (* the [finally]: returned or raised *)
    server_step v (mkServer (request_finished (state v)) l).

Definition reachable : Server → Prop := rtc server_step (mkServer initial []).

Lemma reachable_counts v :
  reachable v →
  in_flight (state v) = Z.of_nat (length (inside v)) ∧
  drain_event (state v) = shutting_down (state v) && (in_flight (state v) =? 0).
Proof.
  intros Hr. apply (rtc_ind_r (λ v, in_flight (state v) = Z.of_nat (length (inside v)) ∧
    drain_event (state v) = shutting_down (state v) && (in_flight (state v) =? 0)) (mkServer initial [])) in Hr; [done|done|].
  clear. intros v v' _ Hstep. revert v' Hstep. intros v' Hstep [Hn He].
  destruct Hstep as [v|v scope r Hr|v r l Hl]; cbn.
  - unfold start_shutdown. destruct (shutting_down (state v)) eqn:Es; cbn; [by rewrite Es, He|].
    split; [done|]. rewrite He. by destruct (in_flight (state v) =? 0).
  - destruct scope; cbn; [|done]. destruct (shutting_down (state v)) eqn:Es; cbn; [by rewrite Es|].
    split; [lia|]. by rewrite He, ?Es.
  - apply Permutation_length in Hl. cbn in Hl. split; [lia|]. rewrite He.
    destruct (shutting_down (state v)); cbn; [|done].
    destruct (Z.eqb_spec (in_flight (state v) - 1) 0); [done|]. apply Z.eqb_neq. lia.
Qed.

Lemma closed_door v v' :
  rtc server_step v v' → shutting_down (state v) = true →
  shutting_down (state v') = true ∧ inside v' ⊆+ inside v.
Proof.
  induction 1 as [|v1 v2 v3 Hstep _ IH]; intros Hs; [done|].
  assert (shutting_down (state v2) = true ∧ inside v2 ⊆+ inside v1) as [Hs2 Hi2].
  { destruct Hstep as [v|v scope r Hr|v r l Hl]; cbn.
    - unfold start_shutdown. by rewrite Hs.
    - destruct scope; cbn; [by rewrite Hs|done].
    - split; [done|]. rewrite Hl. by apply submseteq_cons. }
  destruct (IH Hs2) as [? ?]. split; [done|]. by etrans.
Qed.

(** A drained server has no request left.  In every reachable state the counter is
    the number of HTTP requests inside the application; after SIGTERM no request enters,
    and the drain event is set exactly when the last one has left, for good.  So
    [wait_for_drain] answers [True] only when nothing is in progress, and it answers [True]
    whenever everything has left by its deadline. *)
Theorem drain_is_exact v v' :
  reachable v → rtc server_step v v' → shutting_down (state v) = true →
  in_flight (state v) = Z.of_nat (length (inside v)) ∧ inside v' ⊆+ inside v ∧
  (wait_for_drain (state v) (state v') = true ↔ inside v' = []).
Proof.
  intros Hr Hs Hd. destruct (reachable_counts v Hr) as [Hn _].
  destruct (reachable_counts v') as [Hn' He']; [by unfold reachable in *; etrans|]. destruct (closed_door _ _ Hs Hd) as [Hd' Hsub].
  split; [done|]. split; [done|]. unfold wait_for_drain. rewrite He', Hd'. cbn [andb].
  pose proof (submseteq_length _ _ Hsub) as Hlen.
  destruct (Z.eqb_spec (in_flight (state v)) 0) as [E|E].
  - split; [|done]. intros _. destruct (inside v'); [done|]. cbn in *. lia.
  - rewrite Z.eqb_eq. rewrite Hn'. destruct (inside v'); cbn; [done|]. split; [lia|done].
Qed.

Lemma drain_is_exact_witness :
  let v1 := mkServer (request_started (request_started initial)) [2; 1]%nat in
  let v := mkServer (start_shutdown (state v1)) [2; 1]%nat in
  let v' := mkServer (request_finished (request_finished (state v))) [] in
  wait_for_drain (state v) (state v') = true.
Proof.
  intros v1 v v'.
  assert (reachable v1) as H1.
  { eapply rtc_l; [apply (srv_enter _ http 1%nat), not_elem_of_nil|].
    eapply rtc_l; [apply (srv_enter _ http 2%nat)|apply rtc_refl]. cbn. by intros ?%list_elem_of_singleton. }
  apply (drain_is_exact v v').
  - eapply rtc_r; [exact H1|apply srv_sigterm].
  - eapply rtc_l; [by apply (srv_leave _ 2%nat [1%nat])|].
    eapply rtc_l; [by apply (srv_leave _ 1%nat [])|apply rtc_refl].
  - reflexivity.
  - reflexivity.
Defined.

End Shutdown.

Module Saturation.

Definition DEFAULT_HIGH_WATERMARK : float := Eval vm_compute in flit 9 10.
Definition DEFAULT_LOW_WATERMARK : float := Eval vm_compute in flit 7 10.

Record SaturationGate := mkGate { high : float; low : float; saturated : bool }.

(** [__post_init__]: the gate, or a [ValueError] *)
Definition make_gate (high low : float) : option SaturationGate :=
  if fle f0 low && fle low high && fle high f1 then Some (mkGate high low false) else None.

(** The fraction of a reading *)
Definition fraction (in_flight capacity : Z) : float := int_truediv (Z.max 0 in_flight) capacity.

(** [update] *)
Definition update (g : SaturationGate) (reading : Z * Z) : SaturationGate :=
  let '(in_flight, capacity) := reading in
  if capacity <=? 0 then g
  else
    let frac := fraction in_flight capacity in
    if saturated g then
      if fle frac (low g) then mkGate (high g) (low g) false else g
    else if fle (high g) frac then mkGate (high g) (low g) true else g.

(** What a reading decides by itself: at or above the high mark, at or below the low
    mark; in the band between them nothing. *)
Definition verdict (high low : float) (reading : Z * Z) : option bool :=
  let '(in_flight, capacity) := reading in
  if capacity <=? 0 then None
  else if fle high (fraction in_flight capacity) then Some true
  else if fle (fraction in_flight capacity) low then Some false
  else None.

(** The saturation flag is the last decisive reading.  After any sequence of readings
    the flag of a valid gate (with the low mark below the high one) is what the most recent
    reading outside the band between the marks says, or false when there was none: readings
    inside the band never flip it, so it cannot thrash around a single load. *)
Theorem saturation_is_last_decisive hi lo g readings :
  make_gate hi lo = Some g → flt lo hi = true →
  saturated (foldl update g readings) = default false (last (omap (verdict hi lo) readings)).
Proof.
  unfold make_gate. destruct (_ && _); [|done]. intros [= <-] Hlt.
  assert (∀ readings b, saturated (foldl update (mkGate hi lo b) readings) =
    default b (last (omap (verdict hi lo) readings))) as H; [|apply H].
  clear readings. intros readings. induction readings as [|[n c] readings IH]; intros b; [done|].
  cbn [foldl].
  assert (update (mkGate hi lo b) (n, c) = mkGate hi lo (default b (verdict hi lo (n, c)))) as ->.
  { unfold update, verdict. destruct (c <=? 0); [done|]. cbn [saturated high low].
    destruct (fle hi (fraction n c)) eqn:Eh, (fle (fraction n c) lo) eqn:El, b; try done.
    exfalso. pose proof (fle_trans _ _ _ Eh El) as Hle. destruct (flt_not_nan _ _ Hlt).
    apply flt_false_fle in Hle; [congruence|done|done]. }
  rewrite IH. cbn [omap list_omap].
  destruct (verdict hi lo (n, c)) as [v|]; [|done]. cbn [default].
  rewrite last_cons. by destruct (last (omap (verdict hi lo) readings)).
Qed.

Lemma saturation_is_last_decisive_witness :
  ∃ g, make_gate DEFAULT_HIGH_WATERMARK DEFAULT_LOW_WATERMARK = Some g ∧
    saturated (foldl update g [(9, 10); (8, 10); (71, 100); (5, 0)]) = true ∧
    saturated (foldl update g [(9, 10); (7, 10); (89, 100)]) = false.
Proof.
  eexists. split; [vm_compute; reflexivity|].
  split; rewrite (saturation_is_last_decisive DEFAULT_HIGH_WATERMARK DEFAULT_LOW_WATERMARK); vm_compute; reflexivity.
Defined.

End Saturation.
