(* ===== verification/GrammarFlight.v ===== *)
(** The grammar preflight of [processors/streaming.py]: [_ensure_grammar_ready],
    [_run_leader_compile] and the prewarm, with [types/grammar.py] and
    [processors/grammar_compile.py].

    Requests for one (tokenizer, grammar) pair share a compile: the first becomes its leader
    and registers a future in [_grammar_inflight]; the others wait on that future.  The two
    sections under [_grammar_inflight_lock] contain no await, so the lock is never contended
    and the code from the start of a request to its first await is one step.  A task is the
    await it stands at ([phase]); [resume] is what the code does with what that await
    returned, and [flight_step] interleaves the tasks of a worker.

    The followers await the future itself through [asyncio.wait_for], which cancels what it
    waits for when its time is up or its task is cancelled ([cancel_future]): this is the
    documented behaviour of [wait_for], and [follower_timeout_poisons] what follows from it.
    The compiles that ended are kept in [compiles], as the telemetry of the code reports
    them.  A follower whose future is done already takes its result in a step of its own. *)

From S2P Require Import Prelude PyDict GrammarCache Generation.

Module GrammarFlight.

(** ** Exceptions *)

Inductive exn :=
| TypeError (m : string)
| ValueError (m : string)
| TimeoutError
| ImportError (m : string)
| GrammarValidationError (code m : string)
| RuntimeError (m : string)
| InvalidStateError
| CancelledError
| OtherError (m : string).

(** [str(exc)] *)
Definition str_exn (e : exn) : string :=
  match e with
  | TypeError m | ValueError m | ImportError m | GrammarValidationError _ m | RuntimeError m | OtherError m => m
  | TimeoutError | CancelledError => ""
  | InvalidStateError => "invalid state"
  end.

(** Whether [except Exception] catches it. *)
Definition is_exception (e : exn) : bool := match e with CancelledError => false | _ => true end.

(** [repr] of a string without quotes *)
Definition repr (s : string) : string := "'" +:+ s +:+ "'".

Section preflight.
(** JSON objects and tokenizers; [json.dumps] (with the compact separators or the default
    ones) and the truncated hexadecimal blake2b digest. *)
Context {J Tok : Type}.

Inductive GrammarValue := VDict (j : J) | VStr (s : string).

Context (dumps : bool → GrammarValue → res exn string) (digest : string → string).

Local Open Scope py_scope.

(** ** Grammars: [types/grammar.py] *)

Record GrammarSpec := mkGrammar { g_kind : string; g_value : GrammarValue }.

Definition type_name (v : GrammarValue) : string := match v with VDict _ => "dict" | VStr _ => "str" end.
Definition NUL : string := String (Ascii.Ascii false false false false false false false false) "".

(** [hash_grammar] *)
Definition hash_grammar (g : GrammarSpec) : res exn string :=
  let* value_payload :=
    (if bool_decide (g_kind g ∈ ["regex"; "ebnf"]%string) then
       match g_value g with
       | VStr s => Ret s
       | v => Raise (TypeError ("GrammarSpec.kind=" +:+ repr (g_kind g) +:+ " requires str value, got " +:+ type_name v))
       end
     else
       match g_value g with
       | VDict j => dumps true (VDict j)
       | v => Raise (TypeError ("GrammarSpec.kind=" +:+ repr (g_kind g) +:+ " requires dict value, got " +:+ type_name v))
       end) in
  Ret (digest (g_kind g +:+ NUL +:+ value_payload)).

(** ** The compiler: [processors/grammar_compile.py] *)

(** What the worker bundle provides: the two Outlines factories, or the error of importing
    them, and the adapter of tokenizers that have no vocabulary. *)
Record Outlines := mkOutlines {
  factories : res exn ((GrammarValue → Tok → res exn unit) * (GrammarValue → Tok → res exn unit));
  has_vocabulary : Tok → bool;
  adapter_cls : res exn (Tok → res exn Tok);
}.

(** [_adapt_tokenizer] *)
Definition adapt_tokenizer (ol : Outlines) (tok : Tok) : res exn Tok :=
  if has_vocabulary ol tok then Ret tok
  else let* cls := adapter_cls ol in cls tok.

(** The body of the [try] of [compile_outlines] *)
Definition compile_body (json_factory regex_factory : GrammarValue → Tok → res exn unit)
    (adapted : Tok) (g : GrammarSpec) : res exn unit :=
  if decide (g_kind g = "json_schema"%string) then
    let* schema_text := dumps false (g_value g) in
    match json_factory (VStr schema_text) adapted with
    | Raise (TypeError _) => json_factory (g_value g) adapted
    | r => r
    end
  else if decide (g_kind g = "regex"%string) then regex_factory (g_value g) adapted
  else Raise (GrammarValidationError "grammar_invalid" ("unsupported grammar kind: " +:+ repr (g_kind g))).

(** [compile_outlines] *)
Definition compile_outlines (ol : Outlines) (tok : Tok) (g : GrammarSpec) : res exn bool :=
  if decide (g_kind g = "ebnf"%string) then Ret true
  else
    let* fs := factories ol in
    let* adapted := adapt_tokenizer ol tok in
    match compile_body fs.1 fs.2 adapted g with
    | Ret _ => Ret true
    | Raise (GrammarValidationError code m) => Raise (GrammarValidationError code m)
    | Raise e =>
        Raise (if is_exception e
               then GrammarValidationError "grammar_compile_failed" ("outlines compile failed: " +:+ str_exn e)
               else e)
    end.

(** ** Keys *)

Record Config := mkConfig {
  hf_id : option string;
  weights_path : option string;
  prewarm_grammars : option (list GrammarSpec);     (* [None]: no [tasks.generate] *)
  default_loadtime : res exn (option (list (string * option string)));  (* of [resolve_profile("default")] *)
}.

(** [a or b] on optional strings: the empty string is false. *)
Definition py_or (a : option string) (b : string) : string :=
  match a with Some s => if decide (s = ""%string) then b else s | None => b end.

Definition tokenizer_hash (config : option Config) (model_id : string) : string :=
  match config with
  | Some c => py_or (hf_id c) (py_or (weights_path c) model_id)
  | None => model_id
  end.

Definition key : Type := string * string * string.

Definition key_of (config : option Config) (model_id : string) (g : GrammarSpec) : res exn key :=
  let* h := hash_grammar g in Ret (tokenizer_hash config model_id, h, "outlines"%string).

(** [_grammar_backend_for_model_config] *)
Definition grammar_backend_for_model_config (c : Config) : option string :=
  match default_loadtime c with
  | Raise _ | Ret None => Some "outlines"
  | Ret (Some loadtime) =>
      match dict_get "grammar_backend"%string loadtime with None => Some "outlines" | Some backend => backend end
  end%string.

(** ** The shared state *)

Inductive future := FPending | FResult (v : bool) | FException (e : exn) | FCancelled.
Inductive outcome := Success | Error | Timeout.

Record Flight := mkFlight {
  grammar_cache : GrammarLRU.lru (K := key) (V := bool);
  grammar_inflight : list (key * nat);
  futures : list (key * future);              (* every shared future, with the key it was made for *)
  compiles : list (key * GrammarSpec * outcome);   (* [grammar_compile_completed] *)
}.

Definition with_cache (c : GrammarLRU.lru) (s : Flight) : Flight :=
  mkFlight c (grammar_inflight s) (futures s) (compiles s).
Definition with_inflight (d : list (key * nat)) (s : Flight) : Flight :=
  mkFlight (grammar_cache s) d (futures s) (compiles s).
Definition with_futures (l : list (key * future)) (s : Flight) : Flight :=
  mkFlight (grammar_cache s) (grammar_inflight s) l (compiles s).

Definition pending (f : nat) (s : Flight) : bool :=
  match futures s !! f with Some (_, FPending) => true | _ => false end.

(** [Future.set_result], [Future.set_exception]: they raise unless the future is pending. *)
Definition set_future (f : nat) (v : future) (s : Flight) : res exn Flight :=
  match futures s !! f with
  | Some (k, FPending) => Ret (with_futures (<[f := (k, v)]> (futures s)) s)
  | _ => Raise InvalidStateError
  end.

(** [Future.cancel] *)
Definition cancel_future (f : nat) (s : Flight) : Flight :=
  match set_future f FCancelled s with Ret s' => s' | Raise _ => s end.

Definition record_compile (k : key) (g : GrammarSpec) (o : outcome) (s : Flight) : Flight :=
  mkFlight (grammar_cache s) (grammar_inflight s) (futures s) (compiles s ++ [(k, g, o)]).

Definition cache_put (k : key) (v : bool) (s : Flight) : Flight := with_cache (GrammarLRU.put (grammar_cache s) k v) s.

(** ** Tasks *)

Inductive phase :=
| Tokenizing (g : GrammarSpec) (k : key) (f : nat)   (* leader, awaiting [_get_tokenizer] *)
| Compiling (g : GrammarSpec) (k : key) (f : nat) (tok : Tok)   (* leader, awaiting the compile *)
| LeaderSettling (k : key) (f : nat) (code m : string)
| Waiting (f : nat)                                 (* follower *)
| Settling (code m : string)                        (* awaiting [_terminal_error_then_settle] *)
| Ended (r : res exn bool)
| PreTokenizing (g : GrammarSpec) (k : key) (rest : list GrammarSpec)
| PreCompiling (g : GrammarSpec) (k : key) (tok : Tok) (rest : list GrammarSpec)
| Prewarmed (r : res exn unit).

Record Task := mkTask {
  t_config : option Config;
  t_model : string;
  t_grammar : option GrammarSpec;             (* of a request; [None] for a prewarm *)
  t_phase : phase;
  t_settled : option Generation.settle;
}.

Definition with_phase (t : Task) (ph : phase) : Task :=
  mkTask (t_config t) (t_model t) (t_grammar t) ph (t_settled t).

(** [_ensure_grammar_ready], up to its first await *)
Definition ensure_grammar_ready (config : option Config) (model_id : string) (g : GrammarSpec) (s : Flight) :
    Flight * phase :=
  match key_of config model_id g with
  | Raise (TypeError m) | Raise (ValueError m) => (s, Settling "grammar_invalid" ("invalid grammar: " +:+ m))
  | Raise e => (s, Ended (Raise e))
  | Ret k =>
      match GrammarLRU.get (grammar_cache s) k with
      | (c, Some _) => (with_cache c s, Ended (Ret true))
      | (c, None) =>
          match dict_get k (grammar_inflight s) with
          | Some f => (s, Waiting f)
          | None =>
              let f := length (futures s) in
              (mkFlight (grammar_cache s) (dict_set k f (grammar_inflight s)) (futures s ++ [(k, FPending)]) (compiles s),
               Tokenizing g k f)
          end
      end
  end.

(** The [finally] of the leader *)
Definition leader_finally (k : key) (f : nat) (s : Flight) : Flight :=
  let s := match set_future f (FException (RuntimeError "grammar compile leader cancelled before resolving")) s with
           | Ret s' => s' | Raise _ => s end in
  with_inflight (dict_del k (grammar_inflight s)) s.

(** [return r] or [raise] in [_run_leader_compile] *)
Definition leader_end (k : key) (f : nat) (r : res exn bool) (s : Flight) : Flight * phase :=
  (leader_finally k f s, Ended r).

(** An [except] clause of [_run_leader_compile] *)
Definition leader_fail (g : GrammarSpec) (k : key) (f : nat) (o : outcome) (e : exn) (code m : string) (s : Flight) : Flight * phase :=
  let s := record_compile k g o s in
  match set_future f (FException e) s with
  | Ret s' => (s', LeaderSettling k f code m)
  | Raise e' => leader_end k f (Raise e') s
  end.

(** [_run_leader_compile] after [_get_tokenizer] *)
Definition leader_tokenized (g : GrammarSpec) (k : key) (f : nat) (r : res exn Tok) (s : Flight) : Flight * phase :=
  match r with
  | Ret tok => (s, Compiling g k f tok)
  | Raise e =>
      if is_exception e
      then leader_fail g k f Error e "grammar_compile_failed" ("failed to load tokenizer for grammar compile: " +:+ str_exn e) s
      else leader_end k f (Raise e) s
  end.

(** [_run_leader_compile] after the compile *)
Definition leader_compiled (g : GrammarSpec) (k : key) (f : nat) (r : res exn bool) (s : Flight) : Flight * phase :=
  match r with
  | Ret compiled =>
      let s := cache_put k compiled (record_compile k g Success s) in
      match set_future f (FResult compiled) s with
      | Ret s' => leader_end k f (Ret true) s'
      | Raise e => leader_end k f (Raise e) s
      end
  | Raise TimeoutError => leader_fail g k f Timeout TimeoutError "grammar_compile_failed" "grammar compile exceeded 5s" s
  | Raise (GrammarValidationError code m) => leader_fail g k f Error (GrammarValidationError code m) code m s
  | Raise e =>
      if is_exception e
      then leader_fail g k f Error e "grammar_compile_failed" ("grammar compile raised: " +:+ str_exn e) s
      else leader_end k f (Raise e) s
  end.

(** The wait of a follower *)
Definition follower_woken (v : future) : option phase :=
  match v with
  | FPending => None
  | FResult _ => Some (Ended (Ret true))
  | FException e =>
      Some (if is_exception e then Settling "grammar_compile_failed" ("shared grammar compile failed: " +:+ str_exn e)
            else Ended (Raise e))
  | FCancelled => Some (Ended (Raise CancelledError))
  end.

(** [prewarm_grammars_for_model]: from an entry to the first await of one that is not cached *)
Fixpoint prewarm (config : option Config) (model_id : string) (l : list GrammarSpec) (s : Flight) : Flight * phase :=
  match l with
  | [] => (s, Prewarmed (Ret tt))
  | g :: rest =>
      match key_of config model_id g with
      | Raise e => (s, Prewarmed (Raise e))
      | Ret k =>
          match GrammarLRU.get (grammar_cache s) k with
          | (c, Some _) => prewarm config model_id rest (with_cache c s)
          | (_, None) => (s, PreTokenizing g k rest)
          end
      end
  end.

Definition prewarm_grammars_for_model (config : option Config) (model_id : string) (s : Flight) : Flight * phase :=
  match config with
  | None => (s, Prewarmed (Ret tt))
  | Some c =>
      match prewarm_grammars c with
      | None => (s, Prewarmed (Ret tt))
      | Some l =>
          if decide (grammar_backend_for_model_config c = Some "outlines"%string)
          then prewarm config model_id l s
          else (s, Prewarmed (Ret tt))
      end
  end.

(** What an await returned, or what hit it. *)
Inductive event :=
| TokenizerResult (r : res exn Tok)
| CompileResult (ol : Outlines)
| CompileTimeout
| FutureDone
| FollowerTimeout                       (* the 30 seconds of a follower are over *)
| Published (ok : bool)                 (* of the terminal error *)
| TaskCancel.

(** The error of a prewarm entry: it is recorded, and the next entry is taken. *)
Definition prewarm_fail (t : Task) (g : GrammarSpec) (k : key) (e : exn) (rest : list GrammarSpec) (s : Flight) : Flight * phase :=
  if is_exception e then prewarm (t_config t) (t_model t) rest (record_compile k g Error s)
  else (s, Prewarmed (Raise e)).

Definition settled_by (code m : string) (ok : bool) : option Generation.settle :=
  Generation.settle_of (Generation.TerminalError code m) ok.

(** A task goes on after its await. *)
Definition resume (t : Task) (ev : event) (s : Flight) : option (Flight * Task) :=
  let go (r : Flight * phase) := Some (r.1, with_phase t r.2) in
  let settle (s' : Flight) (code m : string) (ok : bool) :=
    Some (s', mkTask (t_config t) (t_model t) (t_grammar t) (Ended (Ret false)) (settled_by code m ok)) in
  match t_phase t, ev with
  | Tokenizing g k f, TokenizerResult r => go (leader_tokenized g k f r s)
  | Compiling g k f tok, CompileResult ol => go (leader_compiled g k f (compile_outlines ol tok g) s)
  | Compiling g k f _, CompileTimeout => go (leader_compiled g k f (Raise TimeoutError) s)
  | LeaderSettling k f code m, Published ok => settle (leader_finally k f s) code m ok
  | (Tokenizing _ k f | Compiling _ k f _ | LeaderSettling k f _ _), TaskCancel => go (leader_end k f (Raise CancelledError) s)
  | Waiting f, FutureDone =>
      match futures s !! f with
      | Some (_, v) => match follower_woken v with Some ph => go (s, ph) | None => None end
      | None => None
      end
  | Waiting f, FollowerTimeout =>
      go (cancel_future f s, Settling "grammar_compile_failed" ("shared grammar compile failed: " +:+ str_exn TimeoutError))
  | Waiting f, TaskCancel => go (cancel_future f s, Ended (Raise CancelledError))
  | Settling code m, Published ok => settle s code m ok
  | Settling _ _, TaskCancel => go (s, Ended (Raise CancelledError))
  | PreTokenizing g k rest, TokenizerResult (Ret tok) => go (s, PreCompiling g k tok rest)
  | PreTokenizing g k rest, TokenizerResult (Raise e) => go (prewarm_fail t g k e rest s)
  | PreCompiling g k tok rest, CompileResult ol =>
      match compile_outlines ol tok g with
      | Ret v => go (prewarm (t_config t) (t_model t) rest (record_compile k g Success (cache_put k v s)))
      | Raise e => go (prewarm_fail t g k e rest s)
      end
  | (PreTokenizing _ _ _ | PreCompiling _ _ _ _), TaskCancel => go (s, Prewarmed (Raise CancelledError))
  | _, _ => None
  end.

(** ** The worker *)

Record Sys := mkSys { flight : Flight; tasks : list Task }.

Definition arrive (config : option Config) (model_id : string) (g : GrammarSpec) (s : Sys) : Sys :=
  let '(fl, ph) := ensure_grammar_ready config model_id g (flight s) in
  mkSys fl (tasks s ++ [mkTask config model_id (Some g) ph None]).

Definition boot (config : option Config) (model_id : string) (s : Sys) : Sys :=
  let '(fl, ph) := prewarm_grammars_for_model config model_id (flight s) in
  mkSys fl (tasks s ++ [mkTask config model_id None ph None]).

(** A step is labelled by the event of the task that went on, if one did. *)
Inductive flight_step : option event → Sys → Sys → Prop :=
| step_arrive config model_id g s : flight_step None s (arrive config model_id g s)
| step_boot config model_id s : flight_step None s (boot config model_id s)
| step_resume i t ev s fl t' :
    tasks s !! i = Some t → resume t ev (flight s) = Some (fl, t') →
    flight_step (Some ev) s (mkSys fl (<[i := t']> (tasks s))).

Definition any_step (s s' : Sys) : Prop := ∃ l, flight_step l s s'.

Definition init_sys : Sys := mkSys (mkFlight (GrammarLRU.mkLru 64 []) [] [] []) [].

Definition reachable (s : Sys) : Prop := rtc any_step init_sys s.

(** ** Leaders and futures *)

Definition leader_of (ph : phase) : option (key * nat) :=
  match ph with
  | Tokenizing _ k f | Compiling _ k f _ | LeaderSettling k f _ _ => Some (k, f)
  | _ => None
  end.

(** A future may only be resolved, once. *)
Definition resolves (l l' : list (key * future)) : Prop :=
  ∀ f k v, l !! f = Some (k, v) → ∃ v', l' !! f = Some (k, v') ∧ (v' = v ∨ v = FPending ∧ v' ≠ FPending).

(** What a step of a task does to the register and the futures: nothing to the register
    while it leads or does not lead, and when a leader ends, its key is gone and its future
    is resolved. *)
Definition effect (ph : phase) (s : Flight) (ph' : phase) (s' : Flight) : Prop :=
  length (futures s') = length (futures s) ∧ resolves (futures s) (futures s') ∧ (∀ f, ph' ≠ Waiting f) ∧
  (leader_of ph' = leader_of ph ∧ grammar_inflight s' = grammar_inflight s ∨
   ∃ k f, leader_of ph = Some (k, f) ∧ leader_of ph' = None ∧
     grammar_inflight s' = dict_del k (grammar_inflight s) ∧ pending f s' = false).

Definition same_shared (s s' : Flight) : Prop :=
  futures s' = futures s ∧ grammar_inflight s' = grammar_inflight s.

Lemma resolves_refl l : resolves l l.
Proof. intros f k v H. eauto. Qed.

Lemma effect_same ph s ph' s' :
  same_shared s s' → leader_of ph' = leader_of ph → (∀ f, ph' ≠ Waiting f) → effect ph s ph' s'.
Proof. intros [Hf Hi] Hl Hw. unfold effect. rewrite Hf, Hi. auto 6 using resolves_refl. Qed.

Lemma set_future_spec f v s s' :
  set_future f v s = Ret s' → v ≠ FPending →
  length (futures s') = length (futures s) ∧ resolves (futures s) (futures s') ∧
  grammar_inflight s' = grammar_inflight s ∧ pending f s' = false.
Proof.
  unfold set_future. destruct (futures s !! f) as [[k []]|] eqn:E; try done. intros [= <-] Hv.
  cbn [futures with_futures grammar_inflight]. rewrite length_insert. repeat split; [|unfold pending; cbn].
  - intros g k' v' Hg. destruct (decide (f = g)) as [<-|Hne].
    + rewrite E in Hg. injection Hg as <- <-. exists v. rewrite list_lookup_insert_eq by (by eapply lookup_lt_Some). auto.
    + exists v'. rewrite list_lookup_insert_ne by done. auto.
  - rewrite list_lookup_insert_eq by (by eapply lookup_lt_Some). by destruct v.
Qed.

Lemma set_future_raise f v s e : set_future f v s = Raise e → pending f s = false ∧ e = InvalidStateError.
Proof. unfold set_future, pending. destruct (futures s !! f) as [[k []]|]; try done; by intros [= <-]. Qed.

Lemma finally_effect ph k f r s s0 :
  leader_of ph = Some (k, f) → length (futures s) = length (futures s0) → resolves (futures s0) (futures s) →
  grammar_inflight s = grammar_inflight s0 → effect ph s0 (Ended r) (leader_finally k f s).
Proof.
  intros Hl Hn Hr Hi. unfold leader_finally.
  destruct (set_future _ _ s) as [s'|e] eqn:E; cbn [with_inflight].
  - apply set_future_spec in E as (Hn' & Hr' & Hi' & Hp); [|done]. split; [cbn; congruence|]. split; [|split; [done|]].
    + intros g k' v Hg. destruct (Hr _ _ _ Hg) as (v1 & Hv1 & H1). destruct (Hr' _ _ _ Hv1) as (v2 & Hv2 & H2).
      exists v2. split; [exact Hv2|]. destruct H1 as [->|[-> H1]]; [exact H2|]. right.
      destruct H2 as [->|[-> H2]]; done.
    + right. exists k, f. cbn [grammar_inflight with_inflight]. rewrite Hi', Hi. done.
  - apply set_future_raise in E as [Hp _]. split; [done|]. split; [done|]. split; [done|].
    right. exists k, f. cbn [grammar_inflight with_inflight]. rewrite Hi. done.
Qed.

Lemma finally_effect_same ph k f r s s0 :
  leader_of ph = Some (k, f) → same_shared s0 s → effect ph s0 (Ended r) (leader_finally k f s).
Proof. intros Hl [Hf Hi]. apply finally_effect; [done|by rewrite Hf|rewrite Hf; apply resolves_refl|done]. Qed.

Lemma fail_effect ph g k f o e code m s :
  leader_of ph = Some (k, f) → effect ph s (leader_fail g k f o e code m s).2 (leader_fail g k f o e code m s).1.
Proof.
  intros Hl. unfold leader_fail. destruct (set_future _ _ _) as [s'|e'] eqn:E; cbn [fst snd leader_end].
  - apply set_future_spec in E as (Hn & Hr & Hi & _); [|done]. split; [done|]. split; [done|]. split; [done|].
    left. rewrite Hl. done.
  - by apply finally_effect_same.
Qed.

Lemma prewarm_same config model_id l s :
  same_shared s (prewarm config model_id l s).1 ∧ leader_of (prewarm config model_id l s).2 = None ∧
  (∀ f, (prewarm config model_id l s).2 ≠ Waiting f).
Proof.
  revert s. induction l as [|g l IH]; intros s; [done|]. cbn [prewarm]. destruct (key_of config model_id g) as [k|]; [|done].
  destruct (GrammarLRU.get (grammar_cache s) k) as [c [v|]]; [|done]. exact (IH (with_cache c s)).
Qed.

Lemma cancel_future_spec f s :
  length (futures (cancel_future f s)) = length (futures s) ∧ resolves (futures s) (futures (cancel_future f s)) ∧
  grammar_inflight (cancel_future f s) = grammar_inflight s.
Proof.
  unfold cancel_future. destruct (set_future _ _ _) as [s'|] eqn:E; [|by auto using resolves_refl].
  by apply set_future_spec in E as (? & ? & ? & _).
Qed.

Lemma leader_compiled_effect ph g k f r s :
  leader_of ph = Some (k, f) → effect ph s (leader_compiled g k f r s).2 (leader_compiled g k f r s).1.
Proof.
  intros Hl. unfold leader_compiled. destruct r as [v|[]]; try (by apply fail_effect); [|by apply finally_effect_same].
  destruct (set_future _ _ _) as [s'|e'] eqn:E; cbn [fst snd leader_end].
  - apply set_future_spec in E as (Hn & Hr & Hi & _); [|done]. by apply finally_effect.
  - by apply finally_effect_same.
Qed.

Lemma prewarm_effect ph config model_id l s s0 :
  leader_of ph = None → same_shared s0 s →
  effect ph s0 (prewarm config model_id l s).2 (prewarm config model_id l s).1.
Proof.
  intros Hl [Hf Hi]. destruct (prewarm_same config model_id l s) as ([Hf' Hi'] & Hl' & Hw).
  apply effect_same; [split; congruence|congruence|done].
Qed.

Lemma prewarm_fail_effect t g k e rest s ph :
  leader_of ph = None → effect ph s (prewarm_fail t g k e rest s).2 (prewarm_fail t g k e rest s).1.
Proof. intros Hl. unfold prewarm_fail. destruct (is_exception e); [by apply prewarm_effect|by apply effect_same]. Qed.

Lemma resume_effect t ev s s' t' :
  resume t ev s = Some (s', t') → effect (t_phase t) s (t_phase t') s'.
Proof.
  unfold resume. destruct (t_phase t) as [g k f|g k f tok|k f code m|f|code m|r|g k rest|g k tok rest|r] eqn:Eph;
    destruct ev as [r'|ol| | | |ok|]; try done; cbn.
  - intros [= <- <-]. cbn. unfold leader_tokenized. destruct r' as [tok|e]; [by apply effect_same|].
    destruct (is_exception e); [by apply fail_effect|by apply finally_effect_same].
  - intros [= <- <-]. by apply finally_effect_same.
  - intros [= <- <-]. by apply leader_compiled_effect.
  - intros [= <- <-]. by apply fail_effect.
  - intros [= <- <-]. by apply finally_effect_same.
  - intros [= <- <-]. by apply finally_effect_same.
  - intros [= <- <-]. by apply finally_effect_same.
  - destruct (futures s !! f) as [[k v]|]; [|done]. destruct v as [|v|e|]; cbn; [done| | |].
    + intros [= <- <-]. by apply effect_same.
    + intros [= <- <-]. destruct (is_exception e); by apply effect_same.
    + intros [= <- <-]. by apply effect_same.
  - intros [= <- <-]. destruct (cancel_future_spec f s) as (? & ? & ?). split; [done|]. split; [done|]. split; [done|]. by left.
  - intros [= <- <-]. destruct (cancel_future_spec f s) as (? & ? & ?). split; [done|]. split; [done|]. split; [done|]. by left.
  - intros [= <- <-]. by apply effect_same.
  - intros [= <- <-]. by apply effect_same.
  - destruct r' as [tok|e]; intros [= <- <-]; [by apply effect_same|by apply prewarm_fail_effect].
  - intros [= <- <-]. by apply effect_same.
  - destruct (compile_outlines ol tok g) as [v|e]; intros [= <- <-]; [by apply prewarm_effect|by apply prewarm_fail_effect].
  - intros [= <- <-]. by apply effect_same.
Qed.

(** ** The invariant of the register *)

Definition leads (s : Sys) (i : nat) (k : key) (f : nat) : Prop :=
  ∃ t, tasks s !! i = Some t ∧ leader_of (t_phase t) = Some (k, f).

Record flight_ok (s : Sys) : Prop := {
  fo_wf : dict_wf (grammar_inflight (flight s));
  fo_lead : ∀ i k f, leads s i k f → dict_get k (grammar_inflight (flight s)) = Some f;
  fo_uniq : ∀ i j k k' f, leads s i k f → leads s j k' f → i = j;
  fo_reg : ∀ k f, dict_get k (grammar_inflight (flight s)) = Some f →
    (∃ i, leads s i k f) ∧ ∃ v, futures (flight s) !! f = Some (k, v);
  fo_pending : ∀ k f, futures (flight s) !! f = Some (k, FPending) →
    dict_get k (grammar_inflight (flight s)) = Some f;
  fo_wait : ∀ i t f, tasks s !! i = Some t → t_phase t = Waiting f → (f < length (futures (flight s)))%nat;
}.

(** The leaders after a step of task [i] *)
Lemma leads_insert fl l i t t' j k f :
  l !! i = Some t →
  leads (mkSys fl (<[i := t']> l)) j k f ↔
  (i = j ∧ leader_of (t_phase t') = Some (k, f)) ∨ (i ≠ j ∧ ∃ u, l !! j = Some u ∧ leader_of (t_phase u) = Some (k, f)).
Proof.
  intros Hi. apply lookup_lt_Some in Hi. unfold leads. cbn. destruct (decide (i = j)) as [<-|Hne].
  - rewrite list_lookup_insert_eq by done. split.
    + intros (u & [= <-] & Hl). auto.
    + intros [[_ Hl]|[? _]]; [eauto|done].
  - rewrite list_lookup_insert_ne by done. naive_solver.
Qed.

Lemma leads_snoc fl l t j k f :
  leads (mkSys fl (l ++ [t])) j k f ↔
  (j = length l ∧ leader_of (t_phase t) = Some (k, f)) ∨ (∃ u, l !! j = Some u ∧ leader_of (t_phase u) = Some (k, f)).
Proof.
  unfold leads. cbn. setoid_rewrite lookup_app. split.
  - intros (u & Hu & Hl). destruct (l !! j) as [w|] eqn:E; [naive_solver|].
    apply list_lookup_singleton_Some in Hu as [Hj <-]. apply lookup_ge_None in E. left. split; [lia|done].
  - intros [[-> Hl]|(u & Hu & Hl)]; [|rewrite Hu; eauto].
    rewrite (lookup_ge_None_2 l) by lia. rewrite Nat.sub_diag. eauto.
Qed.

Lemma ok_resume s i t fl t' :
  flight_ok s → tasks s !! i = Some t → effect (t_phase t) (flight s) (t_phase t') fl →
  flight_ok (mkSys fl (<[i := t']> (tasks s))).
Proof.
  intros [Hwf Hlead Huniq Hreg Hpend Hwait] Ht (Hn & Hr & Hw & Hcase).
  assert (∀ k f, futures fl !! f = Some (k, FPending) → futures (flight s) !! f = Some (k, FPending)) as Hback.
  { intros k f Hf. assert (is_Some (futures (flight s) !! f)) as [[k' v] Hv].
    { apply lookup_lt_is_Some. rewrite <- Hn. by eapply lookup_lt_Some. }
    destruct (Hr _ _ _ Hv) as (v' & Hv' & Hc). rewrite Hf in Hv'. injection Hv' as <- <-. by destruct Hc as [<-|[_ ?]]. }
  assert (∀ j u f, <[i := t']> (tasks s) !! j = Some u → t_phase u = Waiting f → (f < length (futures fl))%nat) as Hwait'.
  { intros j u f Hu Hp. rewrite Hn. destruct (decide (i = j)) as [<-|Hne].
    - rewrite list_lookup_insert_eq in Hu by (by eapply lookup_lt_Some). injection Hu as ->. by destruct (Hw f).
    - rewrite list_lookup_insert_ne in Hu by done. eauto. }
  assert (∀ j k f, leads (mkSys fl (<[i:=t']> (tasks s))) j k f → leads s j k f) as Hold.
  { intros j k f. rewrite leads_insert by done. intros [[<- Hl]|[_ H]]; [|exact H].
    exists t. split; [done|]. destruct Hcase as [[<- _]|(? & ? & _ & Hl' & _)]; [done|congruence]. }
  destruct Hcase as [[Hl Hi]|(k0 & f0 & Hl0 & Hl' & Hi & Hp0)].
  - split; cbn [flight tasks]; rewrite ?Hi; [done| |naive_solver| | |done]; [naive_solver| |naive_solver].
    intros k f Hk. destruct (Hreg _ _ Hk) as ((j & u & Hu & Hlu) & v & Hv). split.
    + exists j. rewrite leads_insert by done. destruct (decide (i = j)) as [<-|Hne]; [|eauto].
      left. split; [done|]. rewrite Hl. congruence.
    + destruct (Hr _ _ _ Hv) as (v' & Hv' & _). eauto.
  - assert (leads s i k0 f0) as Hi0 by (exists t; done).
    split; cbn [flight tasks]; rewrite ?Hi; [by apply dict_del_wf| |naive_solver| | |done].
    + intros j k f Hj. pose proof (Hold _ _ _ Hj) as Hj'. rewrite dict_get_del by done. case_decide as E; [|eauto].
      subst k. assert (f = f0) as -> by (apply Hlead in Hj', Hi0; congruence).
      pose proof (Huniq _ _ _ _ _ Hj' Hi0) as ->. apply (leads_insert _ _ _ t) in Hj as [[_ Hj]|[? _]]; [congruence|done|done].
    + intros k f. rewrite dict_get_del by done. case_decide as E; [done|]. intros Hk.
      destruct (Hreg _ _ Hk) as ((j & u & Hu & Hlu) & v & Hv). split.
      * exists j. rewrite leads_insert by done. right. split; [|eauto]. intros <-. congruence.
      * destruct (Hr _ _ _ Hv) as (v' & Hv' & _). eauto.
    + intros k f Hf. rewrite dict_get_del by done. pose proof (Hpend _ _ (Hback _ _ Hf)) as Hk.
      case_decide as E; [|done]. subst k. apply Hlead in Hi0.
      assert (f = f0) as -> by congruence. unfold pending in Hp0. by rewrite Hf in Hp0.
Qed.

Lemma ok_arrive_same s fl t :
  flight_ok s → same_shared (flight s) fl → leader_of (t_phase t) = None →
  (∀ f, t_phase t = Waiting f → (f < length (futures fl))%nat) → flight_ok (mkSys fl (tasks s ++ [t])).
Proof.
  intros [Hwf Hlead Huniq Hreg Hpend Hwait] [Hf Hi] Hl Hw.
  assert (∀ j k f, leads (mkSys fl (tasks s ++ [t])) j k f ↔ leads s j k f) as Hleads.
  { intros j k f. rewrite leads_snoc, Hl. unfold leads. naive_solver. }
  split; cbn [flight tasks]; rewrite ?Hi, ?Hf; [done| | | |done|]; [setoid_rewrite Hleads; done..|].
  intros j u f Hu Hp. apply lookup_app_Some in Hu as [Hu|[_ Hu]]; [eauto|].
  apply list_lookup_singleton_Some in Hu as [_ <-]. rewrite <- Hf. auto.
Qed.

Lemma ok_new_leader s t k :
  flight_ok s → dict_get k (grammar_inflight (flight s)) = None →
  leader_of (t_phase t) = Some (k, length (futures (flight s))) →
  flight_ok (mkSys (mkFlight (grammar_cache (flight s)) (dict_set k (length (futures (flight s))) (grammar_inflight (flight s)))
                      (futures (flight s) ++ [(k, FPending)]) (compiles (flight s))) (tasks s ++ [t])).
Proof.
  intros [Hwf Hlead Huniq Hreg Hpend Hwait] Hk Hl.
  assert (∀ j k' f, leads s j k' f → (f < length (futures (flight s)))%nat) as Hlt.
  { intros j k' f Hj. apply Hlead, Hreg in Hj as [_ [v Hv]]. by eapply lookup_lt_Some. }
  assert (∀ j k' f, leads (mkSys (flight s) (tasks s ++ [t])) j k' f ↔
            (j = length (tasks s) ∧ k' = k ∧ f = length (futures (flight s))) ∨ leads s j k' f) as Hleads.
  { intros j k' f. rewrite leads_snoc, Hl. unfold leads. naive_solver. }
  split; cbn [flight tasks grammar_inflight futures].
  - by apply dict_set_wf.
  - intros j k' f [[_ [-> ->]]|Hj]%Hleads; rewrite dict_get_set; [by rewrite decide_True|].
    pose proof (Hlead _ _ _ Hj). case_decide; [congruence|done].
  - intros i j k1 k2 f [[-> [-> ->]]|Hi]%Hleads [[-> [-> ?]]|Hj]%Hleads; subst; try (by eapply Huniq); [done| |];
      exfalso; [apply Hlt in Hj|apply Hlt in Hi]; lia.
  - intros k' f. rewrite dict_get_set. case_decide as E.
    + subst k'. intros [= <-]. split; [|by rewrite list_lookup_middle; eauto].
      exists (length (tasks s)). apply (Hleads (length (tasks s))). auto.
    + intros Hk'. destruct (Hreg _ _ Hk') as [[j Hj] [v Hv]]. split; [exists j; apply (Hleads j); auto|].
      exists v. by apply lookup_app_l_Some.
  - intros k' f Hf. rewrite dict_get_set. apply lookup_app_Some in Hf as [Hf|[Hge Hf]].
    + apply Hpend in Hf. case_decide; [congruence|done].
    + apply list_lookup_singleton_Some in Hf as [Hd [= <-]]. rewrite decide_True by done. f_equal. lia.
  - intros j u f Hu Hp. rewrite length_app. apply lookup_app_Some in Hu as [Hu|[_ Hu]].
    + specialize (Hwait _ _ _ Hu Hp). lia.
    + apply list_lookup_singleton_Some in Hu as [_ <-]. rewrite Hp in Hl. done.
Qed.

Lemma ok_arrive config model_id g s : flight_ok s → flight_ok (arrive config model_id g s).
Proof.
  intros Hok. unfold arrive, ensure_grammar_ready.
  destruct (key_of config model_id g) as [k|[]]; try (by apply ok_arrive_same).
  unfold GrammarLRU.get. destruct (dict_get k (GrammarLRU.data _)) as [v|]; [by apply ok_arrive_same|].
  destruct (dict_get k (grammar_inflight (flight s))) as [f|] eqn:E.
  - apply ok_arrive_same; [done|done|done|]. intros f' [= <-].
    destruct (fo_reg _ Hok _ _ E) as [_ [v Hv]]. by eapply lookup_lt_Some.
  - by apply ok_new_leader.
Qed.

Lemma boot_same config model_id s :
  let r := prewarm_grammars_for_model config model_id s in
  same_shared s r.1 ∧ leader_of r.2 = None ∧ ∀ f, r.2 ≠ Waiting f.
Proof.
  unfold prewarm_grammars_for_model. destruct config as [c|]; [|done]. destruct (prewarm_grammars c); [|done].
  case_decide; [|done]. apply prewarm_same.
Qed.

Lemma ok_boot config model_id s : flight_ok s → flight_ok (boot config model_id s).
Proof.
  intros Hok. unfold boot. destruct (boot_same config model_id (flight s)) as (Hs & Hl & Hw).
  destruct (prewarm_grammars_for_model _ _ _) as [fl ph]. apply ok_arrive_same; [done|done|done|].
  intros f Hf. by destruct (Hw f).
Qed.

Lemma ok_step l s s' : flight_step l s s' → flight_ok s → flight_ok s'.
Proof.
  intros [config model_id g s0|config model_id s0|i t ev s0 fl t' Ht Hr] Hok.
  - by apply ok_arrive.
  - by apply ok_boot.
  - eapply ok_resume; [done|done|]. by eapply resume_effect.
Qed.

Lemma ok_init : flight_ok init_sys.
Proof.
  split; try done; [apply NoDup_nil_2| |]; by intros ? ? ? (? & ? & ?) || by intros ? ? ? ? ? (? & ? & ?).
Qed.

Lemma reachable_ok s : reachable s → flight_ok s.
Proof.
  unfold reachable. revert s. apply rtc_ind_r; [apply ok_init|]. intros s s' _ [l Hs] Hok. by eapply ok_step.
Qed.

(** ** Every task comes to an end *)

Definition over (ph : phase) : bool := match ph with Ended _ | Prewarmed _ => true | _ => false end.

(** How many awaits a task has before it at most *)
Definition rank (ph : phase) : nat :=
  match ph with
  | Tokenizing _ _ _ => 3
  | Compiling _ _ _ _ | Waiting _ => 2
  | LeaderSettling _ _ _ _ | Settling _ _ => 1
  | PreTokenizing _ _ rest => 2 + 2 * length rest
  | PreCompiling _ _ _ rest => 1 + 2 * length rest
  | Ended _ | Prewarmed _ => 0
  end.

(** The events that are the answer to an await *)
Definition answers (ph : phase) (ev : event) (s : Flight) : Prop :=
  match ph, ev with
  | (Tokenizing _ _ _ | PreTokenizing _ _ _), TokenizerResult _ => True
  | (Compiling _ _ _ _ | PreCompiling _ _ _ _), CompileResult _ => True
  | Compiling _ _ _ _, CompileTimeout => True
  | (LeaderSettling _ _ _ _ | Settling _ _), Published _ => True
  | Waiting f, FutureDone => pending f s = false
  | _, _ => False
  end.

(** An await that needs nothing of another task *)
Definition unblocked (ph : phase) (s : Flight) : Prop :=
  over ph = false ∧ ∀ f, ph = Waiting f → pending f s = false.

Lemma prewarm_rank config model_id l s : (rank (prewarm config model_id l s).2 <= 2 * length l)%nat.
Proof.
  revert s. induction l as [|g l IH]; intros s; [done|]. cbn [prewarm]. destruct (key_of config model_id g) as [k|]; cbn; [|lia].
  destruct (GrammarLRU.get (grammar_cache s) k) as [c [v|]]; [specialize (IH (with_cache c s))|cbn]; lia.
Qed.

Lemma prewarm_fail_rank t g k e rest s : (rank (prewarm_fail t g k e rest s).2 <= 2 * length rest)%nat.
Proof. unfold prewarm_fail. destruct (is_exception e); [apply prewarm_rank|cbn; lia]. Qed.

Lemma leader_fail_rank g k f o e code m s : (rank (leader_fail g k f o e code m s).2 <= 1)%nat.
Proof. unfold leader_fail. destruct (set_future _ _ _); cbn; lia. Qed.

Lemma leader_compiled_rank g k f r s : (rank (leader_compiled g k f r s).2 <= 1)%nat.
Proof.
  unfold leader_compiled. destruct r as [v|[]]; try apply leader_fail_rank; [|cbn; lia].
  destruct (set_future _ _ _); cbn; lia.
Qed.

Lemma resume_rank t ev s s' t' : resume t ev s = Some (s', t') → (rank (t_phase t') < rank (t_phase t))%nat.
Proof.
  unfold resume. destruct (t_phase t) as [g k f|g k f tok|k f code m|f|code m|r|g k rest|g k tok rest|r];
    destruct ev as [r'|ol| | | |ok|]; try done; cbn [rank].
  - intros [= <- <-]. cbn. unfold leader_tokenized. destruct r' as [tok|e]; [cbn; lia|].
    destruct (is_exception e); [|cbn; lia].
    pose proof (leader_fail_rank g k f Error e "grammar_compile_failed"
      ("failed to load tokenizer for grammar compile: " +:+ str_exn e) s). lia.
  - intros [= <- <-]. cbn. lia.
  - intros [= <- <-]. pose proof (leader_compiled_rank g k f (compile_outlines ol tok g) s). cbn. lia.
  - intros [= <- <-]. pose proof (leader_compiled_rank g k f (Raise TimeoutError) s). cbn in *. lia.
  - intros [= <- <-]. cbn. lia.
  - intros [= <- <-]. cbn. lia.
  - intros [= <- <-]. cbn. lia.
  - destruct (futures s !! f) as [[k v]|]; [|done]. destruct v as [|v|e|]; cbn; [done| | |]; intros [= <- <-]; cbn; [lia| |lia].
    destruct (is_exception e); cbn; lia.
  - intros [= <- <-]. cbn. lia.
  - intros [= <- <-]. cbn. lia.
  - intros [= <- <-]. cbn. lia.
  - intros [= <- <-]. cbn. lia.
  - destruct r' as [tok|e]; intros [= <- <-]; cbn; [lia|]. pose proof (prewarm_fail_rank t g k e rest s). lia.
  - intros [= <- <-]. cbn. lia.
  - destruct (compile_outlines ol tok g) as [v|e]; intros [= <- <-]; cbn [with_phase t_phase].
    + pose proof (prewarm_rank (t_config t) (t_model t) rest (record_compile k g Success (cache_put k v s))). cbn [snd] in *. lia.
    + pose proof (prewarm_fail_rank t g k e rest s). lia.
  - intros [= <- <-]. cbn. lia.
Qed.

Lemma answered_resumes t ev s :
  answers (t_phase t) ev s → (∀ f, t_phase t = Waiting f → (f < length (futures s))%nat) → is_Some (resume t ev s).
Proof.
  intros Ha Hw. unfold answers in Ha. unfold resume.
  destruct (t_phase t) as [g k f|g k f tok|k f code m|f|code m|r|g k rest|g k tok rest|r];
    destruct ev as [r'|ol| | | |ok|]; try done.
  - unfold pending in Ha. destruct (lookup_lt_is_Some_2 _ _ (Hw f eq_refl)) as [[k v] Hv]. rewrite Hv in *.
    destruct v; [done|eexists; done..].
  - destruct r'; eexists; done.
  - destruct (compile_outlines ol tok g); eexists; done.
Qed.

(** C20 — one compile per grammar among the requests, and nobody waits in vain.  In every
    reachable state of a worker, cancellations and timeouts included (the compiles that
    prewarm a model do not register and are not counted): two leaders never share a key; the register
    holds exactly the futures of the live leaders, so a key is not left behind when its
    leader ends, however it ends; and a task that is not over stands at an await that needs
    nothing of another task, or follows a leader that does.  An await that is answered lets
    its task go on, and every step of a task lowers its rank, so the tasks of a worker come
    to an end once their awaits are answered. *)
Theorem single_flight s :
  reachable s →
  (∀ i j k f f', leads s i k f → leads s j k f' → i = j) ∧
  (∀ k f, dict_get k (grammar_inflight (flight s)) = Some f ↔ ∃ i, leads s i k f) ∧
  (∀ i t, tasks s !! i = Some t → over (t_phase t) = false →
     ∃ j u, tasks s !! j = Some u ∧ unblocked (t_phase u) (flight s) ∧
       (j = i ∨ ∃ k f, t_phase t = Waiting f ∧ leader_of (t_phase u) = Some (k, f))) ∧
  (∀ i t ev, tasks s !! i = Some t → answers (t_phase t) ev (flight s) → is_Some (resume t ev (flight s))) ∧
  (∀ t ev fl' t', resume t ev (flight s) = Some (fl', t') → (rank (t_phase t') < rank (t_phase t))%nat).
Proof.
  intros Hr. apply reachable_ok in Hr as Hok. destruct Hok as [_ Hlead Huniq Hreg Hpend Hwait].
  repeat split.
  - intros i j k f f' Hi Hj. apply Hlead in Hi as Hi', Hj as Hj'. assert (f' = f) as -> by congruence. by eapply Huniq.
  - intros Hk. by apply Hreg.
  - intros [i Hi]. by eapply Hlead.
  - intros i t Ht Ho. destruct (match t_phase t with Waiting f => pending f (flight s) | _ => false end) eqn:Hp.
    + destruct (t_phase t) as [| | |f| | | | |] eqn:Hf; try done.
      unfold pending in Hp. destruct (futures (flight s) !! f) as [[k []]|] eqn:E; try done.
      destruct (Hreg _ _ (Hpend _ _ E)) as [(j & u & Hu & Hl) _]. exists j, u. split; [done|]. split; [|eauto].
      destruct (t_phase u); try done; split; try done; by intros.
    + exists i, t. split; [done|]. split; [|by left]. split; [done|]. intros f Hf. by rewrite Hf in Hp.
  - intros i t ev Ht Ha. apply answered_resumes; [done|]. eauto.
  - intros t ev fl' t'. apply resume_rank.
Qed.

(** ** What is ready was compiled *)

Definition accepted (k : key) (s : Flight) : Prop := ∃ g, (k, g, Success) ∈ compiles s.

Definition t_key (t : Task) : res exn key :=
  match t_grammar t with Some g => key_of (t_config t) (t_model t) g | None => Raise InvalidStateError end.

Record sound (s : Flight) : Prop := {
  sd_cache : ∀ k, k ∈ dict_keys (GrammarLRU.data (grammar_cache s)) → accepted k s;
  sd_futures : ∀ f k v, futures s !! f = Some (k, FResult v) → accepted k s;
  sd_compiles : ∀ k g o, (k, g, o) ∈ compiles s → hash_grammar g = Ret k.1.2;
}.

(** What a task knows of its key *)
Definition keyed (s : Flight) (t : Task) : Prop :=
  match t_phase t with
  | Tokenizing g k _ | Compiling g k _ _ => t_grammar t = Some g ∧ t_key t = Ret k
  | LeaderSettling k _ _ _ => True
  | Waiting f => ∃ k v, futures s !! f = Some (k, v) ∧ t_key t = Ret k
  | Ended (Ret true) => ∃ k, t_key t = Ret k ∧ accepted k s
  | PreTokenizing g k _ | PreCompiling g k _ _ => hash_grammar g = Ret k.1.2
  | _ => True
  end.

Definition reports (s s' : Flight) : Prop := compiles s ⊆ compiles s'.

#[local] Instance reports_refl : Reflexive reports.
Proof. intros s. by unfold reports. Qed.

Lemma accepted_mono k s s' : reports s s' → accepted k s → accepted k s'.
Proof. intros Hr [g Hg]. exists g. by apply Hr. Qed.

Lemma keyed_mono s s' t : reports s s' → resolves (futures s) (futures s') → keyed s t → keyed s' t.
Proof.
  intros Hr Hf. unfold keyed. destruct (t_phase t) as [| | |f| |[[]|]| | |]; try done.
  - intros (k & v & Hv & Hk). destruct (Hf _ _ _ Hv) as (v' & Hv' & _). eauto.
  - intros (k & Hk & Ha). eauto using accepted_mono.
Qed.

Lemma key_of_hash config model_id g k : key_of config model_id g = Ret k → hash_grammar g = Ret k.1.2.
Proof. unfold key_of. destruct (hash_grammar g); [|done]. by intros [= <-]. Qed.

Lemma t_key_hash t g k : t_grammar t = Some g → t_key t = Ret k → hash_grammar g = Ret k.1.2.
Proof. unfold t_key. intros ->. apply key_of_hash. Qed.

Lemma lru_put_keys (c : GrammarLRU.lru (K := key) (V := bool)) k v k' :
  k' ∈ dict_keys (GrammarLRU.data (GrammarLRU.put c k v)) → k' = k ∨ k' ∈ dict_keys (GrammarLRU.data c).
Proof.
  assert (k' ∈ dict_keys (dict_set k v (GrammarLRU.data c)) → k' = k ∨ k' ∈ dict_keys (GrammarLRU.data c)) as Hset.
  { rewrite dict_keys_set. case_decide; set_solver. }
  unfold GrammarLRU.put. destruct (dict_mem k (GrammarLRU.data c)); cbn [GrammarLRU.data].
  - unfold dict_keys at 1. rewrite dict_move_to_end_perm. exact Hset.
  - case_decide; [|exact Hset]. intros Hk. apply Hset. unfold dict_popitem_first, dict_keys in *.
    destruct (dict_set k v (GrammarLRU.data c)); [done|]. by right.
Qed.

Lemma lru_get_keys (c : GrammarLRU.lru (K := key) (V := bool)) k k' :
  k' ∈ dict_keys (GrammarLRU.data (GrammarLRU.get c k).1) → k' ∈ dict_keys (GrammarLRU.data c).
Proof.
  unfold GrammarLRU.get. destruct (dict_get k _); [|done]. cbn. unfold dict_keys at 1. by rewrite dict_move_to_end_perm.
Qed.

Lemma sound_record k g o s : sound s → hash_grammar g = Ret k.1.2 → sound (record_compile k g o s) ∧ reports s (record_compile k g o s).
Proof.
  intros [Hc Hf Hk] Hg. assert (reports s (record_compile k g o s)) as Hr by (unfold reports; cbn; set_solver).
  split; [|done]. split.
  - intros k' ?. eapply accepted_mono; [done|]. by apply Hc.
  - intros f k' v ?. eapply accepted_mono; [done|]. by eapply Hf.
  - intros k' g' o'. cbn. rewrite elem_of_app, list_elem_of_singleton. intros [?|[= -> -> ->]]; eauto.
Qed.

Lemma sound_put k v s : sound s → accepted k s → sound (cache_put k v s).
Proof. intros [Hc Hf Hk] Ha. split; [|done..]. intros k' [->|?]%lru_put_keys; [done|]. by apply Hc. Qed.

Lemma sound_set_future f v s s' :
  set_future f v s = Ret s' → sound s → (∀ k b, futures s !! f = Some (k, FPending) → v = FResult b → accepted k s) →
  sound s' ∧ compiles s' = compiles s.
Proof.
  unfold set_future. destruct (futures s !! f) as [[k []]|] eqn:E; try done. intros [= <-] [Hc Hf Hk] Hv.
  split; [|done]. split; [done| |done]. intros f' k' b. cbn. destruct (decide (f = f')) as [<-|Hne].
  - rewrite list_lookup_insert_eq by (by eapply lookup_lt_Some). intros [= <- ->]. by eapply Hv.
  - rewrite list_lookup_insert_ne by done. apply Hf.
Qed.

Lemma sound_finally k f s : sound s → sound (leader_finally k f s) ∧ compiles (leader_finally k f s) = compiles s.
Proof.
  intros Hs. unfold leader_finally. destruct (set_future _ _ _) as [s'|] eqn:E; [|by destruct Hs].
  apply sound_set_future in E as [[] Hc]; [done|done|]. by intros.
Qed.

Lemma sound_cancel f s : sound s → sound (cancel_future f s) ∧ compiles (cancel_future f s) = compiles s.
Proof.
  intros Hs. unfold cancel_future. destruct (set_future _ _ _) as [s'|] eqn:E; [|done].
  apply sound_set_future in E; [done|done|]. by intros.
Qed.

(** A step keeps the state sound, and the task knows what it needs. *)
Definition steps_sound (t : Task) (s : Flight) (r : Flight * phase) : Prop :=
  sound r.1 ∧ reports s r.1 ∧ keyed r.1 (with_phase t r.2).

Lemma sound_fail t g k f o e code m s :
  sound s → hash_grammar g = Ret k.1.2 → steps_sound t s (leader_fail g k f o e code m s).
Proof.
  intros Hs Hg. unfold leader_fail. destruct (sound_record k g o s Hs Hg) as [Hs1 Hr1].
  destruct (set_future _ _ _) as [s'|] eqn:E.
  - apply sound_set_future in E as [Hs' Hc]; [|done|by intros]. split; [done|]. split; [|done].
    unfold reports in *. cbn [fst]. by rewrite Hc.
  - destruct (sound_finally k f _ Hs1) as [Hs' Hc]. split; [done|]. split; [|done].
    unfold reports in *. cbn [fst leader_end is_exception]. by rewrite Hc.
Qed.

Lemma sound_leader_compiled t g k f r s :
  sound s → t_grammar t = Some g → t_key t = Ret k →
  (∀ k', futures s !! f = Some (k', FPending) → k' = k) → steps_sound t s (leader_compiled g k f r s).
Proof.
  intros Hs Hg Hk Hf. pose proof (t_key_hash _ _ _ Hg Hk) as Hh. unfold leader_compiled.
  destruct r as [v|e].
  2:{ destruct e; try (by apply sound_fail). destruct (sound_finally k f s Hs) as [Hs' Hc]. split; [done|]. split; [|done].
      unfold reports. cbn [fst leader_end is_exception]. by rewrite Hc. }
  destruct (sound_record k g Success s Hs Hh) as [Hs1 Hr1].
  assert (accepted k (record_compile k g Success s)) as Ha by (exists g; cbn; set_solver).
  apply (sound_put k v) in Hs1; [|done].
  destruct (set_future _ _ _) as [s'|] eqn:E.
  - apply sound_set_future in E as [Hs' Hc]; [|done|intros k' b Hk' _; by rewrite (Hf k' Hk')].
    destruct (sound_finally k f _ Hs') as [Hs2 Hc2]. split; [done|].
    assert (compiles (leader_finally k f s') = compiles (record_compile k g Success s)) as Hc3 by by rewrite Hc2, Hc.
    split; [unfold reports in *; cbn [fst leader_end is_exception]; by rewrite Hc3|].
    exists k. split; [done|]. destruct Ha as [g' Hg']. exists g'. cbn [fst leader_end is_exception]. by rewrite Hc3.
  - destruct (sound_finally k f _ Hs1) as [Hs2 Hc2]. split; [done|].
    split; [|done]. unfold reports in *; cbn [fst leader_end is_exception]. by rewrite Hc2.
Qed.

Lemma sound_with_cache k s : sound s → sound (with_cache (GrammarLRU.get (grammar_cache s) k).1 s).
Proof. intros [Hc Hf Hk]. split; [|done..]. intros k' ?%lru_get_keys. by apply Hc. Qed.

Lemma sound_prewarm t config model_id l s : sound s → steps_sound t s (prewarm config model_id l s).
Proof.
  revert s. induction l as [|g l IH]; intros s Hs; [done|]. cbn [prewarm].
  destruct (key_of config model_id g) as [k|] eqn:Ek; [|done]. pose proof (sound_with_cache k s Hs) as Hs'.
  destruct (GrammarLRU.get (grammar_cache s) k) as [c [v|]]; cbn [fst] in Hs'.
  - exact (IH _ Hs').
  - split; [done|]. split; [done|]. by eapply key_of_hash.
Qed.

Lemma steps_sound_trans t s s1 r : reports s s1 → steps_sound t s1 r → steps_sound t s r.
Proof. intros H1 (Hs & H2 & Hk). split; [done|]. split; [|done]. unfold reports in *. set_solver. Qed.

Lemma sound_prewarm_fail t u g k e rest s :
  sound s → hash_grammar g = Ret k.1.2 → steps_sound t s (prewarm_fail u g k e rest s).
Proof.
  intros Hs Hg. unfold prewarm_fail. destruct (is_exception e); [|done].
  destruct (sound_record k g Error s Hs Hg) as [Hs1 Hr1]. eapply steps_sound_trans; [done|]. by apply sound_prewarm.
Qed.

Lemma resume_sound t ev s s' t' :
  sound s → keyed s t → (∀ k f k', leader_of (t_phase t) = Some (k, f) → futures s !! f = Some (k', FPending) → k' = k) →
  resume t ev s = Some (s', t') → sound s' ∧ reports s s' ∧ keyed s' t'.
Proof.
  intros Hs Hk Hf. unfold keyed in Hk. unfold resume.
  destruct (t_phase t) as [g k f|g k f tok|k f code m|f|code m|r|g k rest|g k tok rest|r];
    destruct ev as [r'|ol| | | |ok|]; try done;
    assert (∀ kk ff, sound (leader_finally kk ff s) ∧ reports s (leader_finally kk ff s)) as Hfin
      by (intros kk ff; destruct (sound_finally kk ff s Hs) as [? Hc]; split; [done|]; unfold reports; by rewrite Hc);
    try (intros [= <- <-]; split; [apply Hfin|]; split; [apply Hfin|done]).
  - intros [= <- <-]. destruct Hk as [Hg Hk]. unfold leader_tokenized. destruct r' as [tok|e]; [done|].
    destruct (is_exception e); [apply sound_fail; [done|by eapply t_key_hash]|].
    split; [apply Hfin|]. split; [apply Hfin|done].
  - intros [= <- <-]. destruct Hk as [Hg Hk]. apply sound_leader_compiled; [done..|]. naive_solver.
  - intros [= <- <-]. destruct Hk as [Hg Hk]. apply (sound_leader_compiled t g k f (Raise TimeoutError) s); [done..|]. naive_solver.
  - destruct Hk as (k & v & Hv & Hk). rewrite Hv. destruct v as [|v|e|]; cbn; [done| | |]; intros [= <- <-].
    + split; [done|]. split; [done|]. exists k. split; [done|]. by eapply sd_futures.
    + split; [done|]. split; [done|]. by destruct (is_exception e).
    + done.
  - intros [= <- <-]. destruct (sound_cancel f s Hs) as [? Hc]. split; [done|]. split; [|done]. unfold reports. cbn. by rewrite Hc.
  - intros [= <- <-]. destruct (sound_cancel f s Hs) as [? Hc]. split; [done|]. split; [|done]. unfold reports. cbn. by rewrite Hc.
  - intros [= <- <-]. done.
  - intros [= <- <-]. done.
  - destruct r' as [tok|e]; intros [= <- <-]; [done|]. by apply sound_prewarm_fail.
  - intros [= <- <-]. done.
  - destruct (compile_outlines ol tok g) as [v|e]; intros [= <- <-]; [|by apply sound_prewarm_fail].
    destruct (sound_record k g Success s Hs Hk) as [Hs1 Hr1].
    apply (steps_sound_trans t s (record_compile k g Success (cache_put k v s))); [done|]. apply sound_prewarm.
    apply (sound_put k v) in Hs1; [exact Hs1|]. exists g. cbn. set_solver.
  - intros [= <- <-]. done.
Qed.

Definition sound_sys (s : Sys) : Prop :=
  flight_ok s ∧ sound (flight s) ∧ ∀ i t, tasks s !! i = Some t → keyed (flight s) t.

Lemma sound_snoc s fl t :
  sound_sys s → flight_ok (mkSys fl (tasks s ++ [t])) → sound fl → reports (flight s) fl →
  resolves (futures (flight s)) (futures fl) → keyed fl t → sound_sys (mkSys fl (tasks s ++ [t])).
Proof.
  intros (_ & _ & Hk) Hok Hs Hr Hf Ht. split; [done|]. split; [done|]. intros i u Hu.
  apply lookup_app_Some in Hu as [Hu|[_ Hu]]; [by eapply keyed_mono, Hk|].
  by apply list_lookup_singleton_Some in Hu as [_ <-].
Qed.

Lemma sound_arrive config model_id g s : sound_sys s → sound_sys (arrive config model_id g s).
Proof.
  intros H. pose proof H as (Hok & Hs & Hk). apply (ok_arrive config model_id g) in Hok as Hok'.
  unfold arrive, ensure_grammar_ready in *. destruct (key_of config model_id g) as [k|e] eqn:Ek.
  2:{ destruct e; (apply sound_snoc; [done|exact Hok'|done|done|apply resolves_refl|done]). }
  pose proof (sound_with_cache k _ Hs) as Hs'. unfold GrammarLRU.get in *.
  destruct (dict_get k (GrammarLRU.data (grammar_cache (flight s)))) as [v|] eqn:Ev; cbn [fst] in Hs'.
  - apply sound_snoc; [done|exact Hok'|exact Hs'|exact (reports_refl (flight s))|apply resolves_refl|]. exists k. split; [done|].
    apply (sd_cache _ Hs), dict_get_is_Some. eauto.
  - destruct (dict_get k (grammar_inflight (flight s))) as [f|] eqn:Ef.
    + apply sound_snoc; [done|exact Hok'|done|done|apply resolves_refl|].
      destruct (fo_reg _ Hok _ _ Ef) as [_ [v Hv]]. exists k, v. done.
    + apply sound_snoc; [done|exact Hok'| |exact (reports_refl (flight s))| |done].
      * destruct Hs as [Hc Hf Hg]. split; [done| |done]. cbn. intros f k' v [Hv|[_ Hv]]%lookup_app_Some; [by eapply Hf|].
        by apply list_lookup_singleton_Some in Hv as [_ ?].
      * intros f k' v Hv. exists v. cbn. split; [by apply lookup_app_l_Some|by left].
Qed.

Lemma sound_boot config model_id s : sound_sys s → sound_sys (boot config model_id s).
Proof.
  intros H. pose proof H as (Hok & Hs & Hk). apply (ok_boot config model_id) in Hok as Hok'.
  destruct (boot_same config model_id (flight s)) as ([Hf _] & _).
  assert (steps_sound (mkTask config model_id None (Ended (Ret false)) None) (flight s)
            (prewarm_grammars_for_model config model_id (flight s))) as (H1 & H2 & H3).
  { unfold prewarm_grammars_for_model. destruct config as [c|]; [|done]. destruct (prewarm_grammars c); [|done].
    case_decide; [|done]. by apply sound_prewarm. }
  unfold boot in *. destruct (prewarm_grammars_for_model _ _ _) as [fl ph]. cbn [fst snd] in *.
  apply sound_snoc; [done|done|done|done|rewrite Hf; apply resolves_refl|exact H3].
Qed.

Lemma sound_step l s s' : flight_step l s s' → sound_sys s → sound_sys s'.
Proof.
  intros Hstep H. pose proof Hstep as Hok'. destruct H as (Hok & Hs & Hk). eapply ok_step in Hok'; [|exact Hok].
  destruct Hstep as [config model_id g s0|config model_id s0|i t ev s0 fl t' Ht Hr];
    [by apply sound_arrive|by apply sound_boot|].
  pose proof (resume_effect _ _ _ _ _ Hr) as (_ & Hf & _).
  apply resume_sound in Hr as (H1 & H2 & H3); [|done|by eapply Hk|].
  2:{ intros k f k' Hl Hp. assert (leads s0 i k f) as Hi by (exists t; done).
      apply (fo_lead _ Hok), (fo_reg _ Hok) in Hi as [_ [v Hv]]. congruence. }
  split; [done|]. split; [done|]. cbn. intros j u Hu. destruct (decide (i = j)) as [<-|Hne].
  - rewrite list_lookup_insert_eq in Hu by (by eapply lookup_lt_Some). by injection Hu as <-.
  - rewrite list_lookup_insert_ne in Hu by done. by eapply keyed_mono, Hk.
Qed.

Lemma reachable_sound s : reachable s → sound_sys s.
Proof.
  unfold reachable. revert s. apply rtc_ind_r.
  - split; [apply ok_init|]. split; [|done]. split; cbn; set_solver.
  - intros s s' _ [l Hs] Hok. by eapply sound_step.
Qed.

(** The kinds a grammar may have *)
Definition kinds : list string := ["json_schema"; "regex"; "ebnf"]%string.

(** The part of a grammar that its hash depends on *)
Definition payload (g : GrammarSpec) : res exn string :=
  match g_value g with VStr s => Ret s | VDict j => dumps true (VDict j) end.

(** With a digest without collisions, equal hashes come from equal kinds and payloads. *)
Lemma hash_separates g g' h :
  (∀ x y, digest x = digest y → x = y) → g_kind g ∈ kinds → g_kind g' ∈ kinds →
  hash_grammar g = Ret h → hash_grammar g' = Ret h → g_kind g = g_kind g' ∧ payload g = payload g'.
Proof.
  intros Hinj Hk Hk' H H'.
  assert (∀ g, g_kind g ∈ kinds → hash_grammar g = Ret h → ∃ p, payload g = Ret p ∧ digest (g_kind g +:+ NUL +:+ p) = h) as Hp.
  { clear. intros [kd v] _. unfold hash_grammar, payload. cbn. case_bool_decide; destruct v as [j|x]; cbn; try done.
    - intros [= <-]. eauto.
    - destruct (dumps true (VDict j)) as [p|]; [|done]. intros [= <-]. eauto. }
  destruct (Hp _ Hk H) as (p & Ep & Ed), (Hp _ Hk' H') as (p' & Ep' & Ed').
  rewrite <- Ed' in Ed. apply Hinj in Ed. rewrite Ep, Ep'.
  unfold kinds in *. rewrite !elem_of_cons, elem_of_nil in Hk, Hk'.
  destruct Hk as [Hk|[Hk|[Hk|[]]]], Hk' as [Hk'|[Hk'|[Hk'|[]]]]; rewrite Hk, Hk' in *; cbn in Ed; try done;
    injection Ed as Ed; change (p = p') in Ed; by rewrite Ed.
Qed.

(** C37 — a request passes the preflight only with a grammar that compiled.  In every reachable
    state, a request that was let through has a key, and a compile for that key succeeded,
    of a grammar with the same hash: neither a cache entry nor a shared future nor a
    prewarmed entry lets another grammar through.  With a digest without collisions, that
    grammar has the same kind and the same text, so a regex is never let through because an
    EBNF grammar of the same text was. *)
Theorem ready_means_compiled s i t g :
  reachable s → tasks s !! i = Some t → t_grammar t = Some g → t_phase t = Ended (Ret true) →
  ∃ k g', key_of (t_config t) (t_model t) g = Ret k ∧ (k, g', Success) ∈ compiles (flight s) ∧
    hash_grammar g' = hash_grammar g ∧
    ((∀ x y, digest x = digest y → x = y) → g_kind g ∈ kinds → g_kind g' ∈ kinds →
     g_kind g = g_kind g' ∧ payload g = payload g').
Proof.
  intros Hr Ht Hg Hp. destruct (reachable_sound _ Hr) as (_ & Hs & Hk). specialize (Hk _ _ Ht).
  unfold keyed in Hk. rewrite Hp in Hk. destruct Hk as (k & Hkey & g' & Hg').
  pose proof (sd_compiles _ Hs _ _ _ Hg') as Hh'. pose proof (t_key_hash _ _ _ Hg Hkey) as Hh.
  unfold t_key in Hkey. rewrite Hg in Hkey. exists k, g'. split; [done|]. split; [done|]. split; [congruence|].
  intros Hinj Hk Hk'. by eapply hash_separates.
Qed.

(** ** Runs without cancellations and follower timeouts *)

Definition calm_event (ev : event) : Prop :=
  match ev with
  | FollowerTimeout | TaskCancel => False
  | TokenizerResult (Raise e) => is_exception e = true
  | CompileResult ol => ∀ tok g e, compile_outlines ol tok g = Raise e → is_exception e = true
  | _ => True
  end.

Definition calm_step (s s' : Sys) : Prop :=
  ∃ l, flight_step l s s' ∧ match l with Some ev => calm_event ev | None => True end.

Definition calm_reachable (s : Sys) : Prop := rtc calm_step init_sys s.

(** [json.dumps] raises only what [_ensure_grammar_ready] catches. *)
Definition dumps_sane : Prop :=
  ∀ compact v e, dumps compact v = Raise e → match e with TypeError _ | ValueError _ => True | _ => False end.

Definition futures_calm (s : Flight) : Prop :=
  ∀ f k v, futures s !! f = Some (k, v) →
    match v with FCancelled => False | FException e => is_exception e = true | _ => True end.

Definition task_calm (s : Flight) (t : Task) : Prop :=
  match t_phase t with
  | Tokenizing _ _ f | Compiling _ _ f _ => pending f s = true ∧ t_settled t = None
  | LeaderSettling _ f _ _ => pending f s = false ∧ t_settled t = None
  | Waiting _ | Settling _ _ | Ended (Ret true) => t_settled t = None
  | Ended (Ret false) => is_Some (t_settled t)
  | Ended (Raise _) => False
  | _ => True
  end.

(** Only the future of the leader itself changes. *)
Definition frames (ph : phase) (s s' : Flight) : Prop :=
  ∀ f, (∀ k, leader_of ph ≠ Some (k, f)) → futures s' !! f = futures s !! f.

Definition steps_calm (t : Task) (s : Flight) (r : Flight * phase) : Prop :=
  futures_calm r.1 ∧ task_calm r.1 (with_phase t r.2) ∧ frames (t_phase t) s r.1.

Lemma set_future_calm f v s :
  pending f s = true → futures_calm s →
  match v with FCancelled => False | FException e => is_exception e = true | _ => True end →
  ∃ s', set_future f v s = Ret s' ∧ futures_calm s' ∧ (∀ f', f' ≠ f → futures s' !! f' = futures s !! f') ∧
    (v ≠ FPending → pending f s' = false).
Proof.
  unfold pending, set_future. destruct (futures s !! f) as [[k []]|] eqn:E; try done. intros _ Hc Hv.
  eexists. split; [done|]. cbn. split; [|split].
  - intros f' k' v'. cbn. destruct (decide (f = f')) as [<-|Hne].
    + rewrite list_lookup_insert_eq by (by eapply lookup_lt_Some). by intros [= <- <-].
    + rewrite list_lookup_insert_ne by done. apply Hc.
  - intros f' Hne. by rewrite list_lookup_insert_ne.
  - intros Hp. rewrite list_lookup_insert_eq by (by eapply lookup_lt_Some). by destruct v.
Qed.

Lemma finally_calm k f s : pending f s = false → futures (leader_finally k f s) = futures s.
Proof. unfold leader_finally, set_future, pending. by destruct (futures s !! f) as [[k' []]|]. Qed.

Lemma fail_calm t g k f o e code m s :
  leader_of (t_phase t) = Some (k, f) → pending f s = true → t_settled t = None → futures_calm s →
  is_exception e = true → steps_calm t s (leader_fail g k f o e code m s).
Proof.
  intros Hl Hp Ht Hc He. unfold leader_fail.
  destruct (set_future_calm f (FException e) (record_compile k g o s)) as (s' & -> & Hc' & Hf & Hp'); [done..|].
  split; [done|]. split; [by split; [apply Hp'|]|]. intros f' Hf'. apply Hf. intros ->. by destruct (Hf' k).
Qed.

Lemma leader_compiled_calm t g k f r s :
  leader_of (t_phase t) = Some (k, f) → pending f s = true → t_settled t = None → futures_calm s →
  (∀ e, r = Raise e → is_exception e = true) → steps_calm t s (leader_compiled g k f r s).
Proof.
  intros Hl Hp Ht Hc He. unfold leader_compiled. destruct r as [v|e].
  - destruct (set_future_calm f (FResult v) (cache_put k v (record_compile k g Success s))) as (s' & -> & Hc' & Hf & Hp'); [done..|].
    unfold leader_end, steps_calm, futures_calm, frames, task_calm. cbn [fst snd with_phase t_phase t_settled].
    rewrite finally_calm by (by apply Hp'). split; [done|]. split; [done|].
    intros f' Hf'. apply Hf. intros ->. by destruct (Hf' k).
  - specialize (He e eq_refl). by destruct e; try apply fail_calm.
Qed.

Lemma key_of_calm config model_id g e :
  dumps_sane → key_of config model_id g = Raise e → match e with TypeError _ | ValueError _ => True | _ => False end.
Proof.
  intros Hd. unfold key_of, hash_grammar. case_bool_decide; destruct (g_value g) as [j|x]; cbn; try (by intros [= <-]); try done.
  destruct (dumps true (VDict j)) as [p|e'] eqn:E; cbn; [done|]. intros [= <-]. by eapply Hd.
Qed.

Lemma prewarm_calm_phase config model_id l s t fl : task_calm fl (with_phase t (prewarm config model_id l s).2).
Proof.
  revert s. induction l as [|g l IH]; intros s; [done|]. cbn [prewarm]. destruct (key_of config model_id g) as [k|]; [|done].
  destruct (GrammarLRU.get (grammar_cache s) k) as [c [v|]]; [apply IH|done].
Qed.

Lemma prewarm_calm t config model_id l s s0 :
  futures_calm s0 → same_shared s0 s → steps_calm t s0 (prewarm config model_id l s).
Proof.
  intros Hc [Hf _]. destruct (prewarm_same config model_id l s) as ([Hf' _] & _).
  unfold steps_calm, futures_calm, frames. rewrite Hf', Hf. split; [done|]. split; [apply prewarm_calm_phase|done].
Qed.

Lemma prewarm_fail_calm t u g k e rest s :
  futures_calm s → steps_calm t s (prewarm_fail u g k e rest s).
Proof. intros Hc. unfold prewarm_fail. destruct (is_exception e); [by apply prewarm_calm|done]. Qed.

Lemma resume_calm t ev s s' t' :
  calm_event ev → futures_calm s → task_calm s t → resume t ev s = Some (s', t') →
  futures_calm s' ∧ task_calm s' t' ∧ frames (t_phase t) s s'.
Proof.
  intros Hev Hc Hk Hr.
  assert (∀ r, resume t ev s = Some (r.1, with_phase t r.2) → steps_calm t s r →
            futures_calm s' ∧ task_calm s' t' ∧ frames (t_phase t) s s') as Hgo
    by (intros r E Hr'; rewrite E in Hr; injection Hr as <- <-; exact Hr').
  revert Hr Hgo. unfold task_calm in Hk. unfold resume.
  destruct (t_phase t) as [g k f|g k f tok|k f code m|f|code m|r|g k rest|g k tok rest|r] eqn:Eph;
    destruct ev as [r'|ol| | | |ok|]; try done; intros Hr Hgo.
  - eapply Hgo; [done|]. destruct Hk as [Hp Ht]. unfold leader_tokenized. destruct r' as [tok|e]; [done|].
    cbn in Hev. rewrite Hev. apply fail_calm; try done. by rewrite Eph.
  - eapply Hgo; [done|]. destruct Hk as [Hp Ht]. apply leader_compiled_calm; try done; [by rewrite Eph|].
    intros e. apply Hev.
  - eapply Hgo; [done|]. destruct Hk as [Hp Ht]. apply leader_compiled_calm; try done; [by rewrite Eph|]. by intros e [= <-].
  - injection Hr as <- <-. destruct Hk as [Hp Ht]. unfold futures_calm, frames. rewrite finally_calm by done.
    split; [done|]. split; [|done]. destruct ok; by eexists.
  - destruct (futures s !! f) as [[k v]|] eqn:E; [|done]. specialize (Hc _ _ _ E) as Hv.
    destruct v as [|v|e|]; cbn in *; try done; [by apply (Hgo (s, Ended (Ret true)))|].
    rewrite Hv in *. by injection Hr as <- <-.
  - injection Hr as <- <-. split; [done|]. split; [|done]. destruct ok; by eexists.
  - destruct r' as [tok|e]; (eapply Hgo; [done|]); [done|]. by apply prewarm_fail_calm.
  - destruct (compile_outlines ol tok g) as [v|e]; (eapply Hgo; [done|]); [by apply prewarm_calm|by apply prewarm_fail_calm].
Qed.

Definition calm_sys (s : Sys) : Prop :=
  flight_ok s ∧ futures_calm (flight s) ∧ ∀ i t, tasks s !! i = Some t → task_calm (flight s) t.

Lemma task_calm_keep s s' t :
  (∀ k f, leader_of (t_phase t) = Some (k, f) → futures s' !! f = futures s !! f) → task_calm s t → task_calm s' t.
Proof.
  unfold task_calm, pending. destruct (t_phase t); try done; intros Hf; by rewrite (Hf _ _ eq_refl).
Qed.

Lemma calm_snoc s fl t :
  calm_sys s → flight_ok (mkSys fl (tasks s ++ [t])) → futures_calm fl → task_calm fl t →
  (∀ f, (f < length (futures (flight s)))%nat → futures fl !! f = futures (flight s) !! f) → calm_sys (mkSys fl (tasks s ++ [t])).
Proof.
  intros (Hok & _ & Hk) Hok' Hc Ht Hf. split; [done|]. split; [done|]. cbn. intros i u Hu.
  apply lookup_app_Some in Hu as [Hu|[_ Hu]].
  - eapply task_calm_keep; [|by eapply Hk]. intros k f Hl. apply Hf.
    assert (leads s i k f) as Hi by (exists u; done). apply (fo_lead _ Hok), (fo_reg _ Hok) in Hi as [_ [v Hv]].
    by eapply lookup_lt_Some.
  - by apply list_lookup_singleton_Some in Hu as [_ <-].
Qed.

Lemma calm_arrive config model_id g s : dumps_sane → calm_sys s → calm_sys (arrive config model_id g s).
Proof.
  intros Hd H. pose proof H as (Hok & Hc & _). apply (ok_arrive config model_id g) in Hok as Hok'.
  unfold arrive, ensure_grammar_ready in *. destruct (key_of config model_id g) as [k|e] eqn:Ek.
  2:{ apply key_of_calm in Ek; [|done]. by destruct e; try done; apply calm_snoc. }
  unfold GrammarLRU.get in *. destruct (dict_get k (GrammarLRU.data _)); [by apply calm_snoc|].
  destruct (dict_get k (grammar_inflight (flight s))); [by apply calm_snoc|].
  apply calm_snoc; [done|done| | |].
  - intros f k' v [Hv|[_ Hv]]%lookup_app_Some; [by eapply Hc|]. by apply list_lookup_singleton_Some in Hv as [_ [= <- <-]].
  - cbn. split; [|done]. unfold pending. cbn. by rewrite list_lookup_middle.
  - intros f Hf. cbn. by rewrite lookup_app_l.
Qed.

Lemma calm_boot config model_id s : calm_sys s → calm_sys (boot config model_id s).
Proof.
  intros H. pose proof H as (Hok & Hc & _). apply (ok_boot config model_id) in Hok as Hok'.
  destruct (boot_same config model_id (flight s)) as ([Hf _] & _).
  assert (∀ fl, task_calm fl (mkTask config model_id None (prewarm_grammars_for_model config model_id (flight s)).2 None)) as Ht.
  { intros fl. unfold prewarm_grammars_for_model. destruct config as [c|]; [|done]. destruct (prewarm_grammars c); [|done].
    case_decide; [|done]. apply (prewarm_calm_phase _ _ _ _ (mkTask (Some c) model_id None (Ended (Ret false)) None)). }
  unfold boot in *. destruct (prewarm_grammars_for_model _ _ _) as [fl ph]. cbn [fst snd] in *.
  apply calm_snoc; [done|done|unfold futures_calm; by rewrite Hf|apply Ht|by rewrite Hf].
Qed.

Lemma calm_sys_step s s' : dumps_sane → calm_step s s' → calm_sys s → calm_sys s'.
Proof.
  intros Hd (l & Hstep & Hl) H. pose proof Hstep as Hok'. pose proof H as (Hok & Hc & Hk).
  eapply ok_step in Hok'; [|exact Hok].
  destruct Hstep as [config model_id g s0|config model_id s0|i t ev s0 fl t' Ht Hr];
    [by apply calm_arrive|by apply calm_boot|].
  apply resume_calm in Hr as (H1 & H2 & H3); [|done..|by eapply Hk].
  split; [done|]. split; [done|]. cbn. intros j u Hu. destruct (decide (i = j)) as [<-|Hne].
  - rewrite list_lookup_insert_eq in Hu by (by eapply lookup_lt_Some). by injection Hu as <-.
  - rewrite list_lookup_insert_ne in Hu by done. eapply task_calm_keep; [|by eapply Hk].
    intros k f Hu'. apply H3. intros k' Hk'. apply Hne.
    eapply (fo_uniq _ Hok _ _ k' k f); [exists t|exists u]; done.
Qed.

(** Without cancellations and follower timeouts, every request is let through or answered.
    In every state reached by arrivals, prewarms and awaits that return or raise an
    [Exception], a request whose preflight is over was either let through with its message
    untouched, or refused with its message settled by the terminal error; no exception leaves
    [_ensure_grammar_ready]. *)
Theorem calm_preflight_settles s i t r :
  dumps_sane → calm_reachable s → tasks s !! i = Some t → t_phase t = Ended r →
  (r = Ret true ∧ t_settled t = None) ∨ (r = Ret false ∧ is_Some (t_settled t)).
Proof.
  intros Hd Hr Ht Hp. assert (calm_sys s) as (_ & _ & Hk).
  { revert Hr. unfold calm_reachable. clear Ht Hp. revert s. apply rtc_ind_r.
    - split; [apply ok_init|]. by split; [intros ? ? ?|].
    - intros s s' _ Hs Hok. by eapply calm_sys_step. }
  specialize (Hk _ _ Ht). unfold task_calm in Hk. rewrite Hp in Hk. destruct r as [[]|]; [auto..|done].
Qed.

(** ** Runs *)

Inductive action :=
| Arrive (config : option Config) (model_id : string) (g : GrammarSpec)
| Boot (config : option Config) (model_id : string)
| Resume (i : nat) (ev : event).

(** A schedule, executed; actions that are not possible are skipped. *)
Definition exec (s : Sys) (a : action) : Sys :=
  match a with
  | Arrive config model_id g => arrive config model_id g s
  | Boot config model_id => boot config model_id s
  | Resume i ev =>
      match tasks s !! i with
      | Some t => match resume t ev (flight s) with
                  | Some (fl, t') => mkSys fl (<[i := t']> (tasks s))
                  | None => s
                  end
      | None => s
      end
  end.

Definition run (acts : list action) : Sys := foldl exec init_sys acts.

Definition calm_action (a : action) : Prop := match a with Resume _ ev => calm_event ev | _ => True end.

Lemma exec_step s a : exec s a = s ∨ ∃ l, flight_step l s (exec s a) ∧
  match l with Some ev => ∃ i, a = Resume i ev | None => True end.
Proof.
  destruct a as [config model_id g|config model_id|i ev]; cbn [exec].
  - right. exists None. split; [constructor|done].
  - right. exists None. split; [constructor|done].
  - destruct (tasks s !! i) as [t|] eqn:Et; [|auto]. destruct (resume t ev (flight s)) as [[fl t']|] eqn:Er; [|auto].
    right. exists (Some ev). split; [by econstructor|eauto].
Qed.

Lemma run_reachable acts : reachable (run acts).
Proof.
  unfold run, reachable. induction acts as [|a acts IH] using rev_ind; [apply rtc_refl|]. rewrite foldl_snoc.
  destruct (exec_step (foldl exec init_sys acts) a) as [->|(l & Hs & _)]; [done|].
  eapply rtc_r; [exact IH|]. by exists l.
Qed.

Lemma run_calm acts : Forall calm_action acts → calm_reachable (run acts).
Proof.
  unfold run, calm_reachable. induction acts as [|a acts IH] using rev_ind; [intros _; apply rtc_refl|].
  rewrite foldl_snoc. intros [Ha Hx]%Forall_app.
  destruct (exec_step (foldl exec init_sys acts) a) as [->|(l & Hs & Hl)]; [auto|].
  eapply rtc_r; [by apply IH|]. exists l. split; [done|]. destruct l as [ev|]; [|done].
  destruct Hl as [i ->]. by inversion Hx.
Qed.
End preflight.

(** ** Examples *)

Definition ex_dumps (_ : bool) (v : GrammarValue (J := unit)) : res exn string := Ret "{}"%string.
Definition ex_digest (x : string) : string := x.
Definition ex_regex : GrammarSpec (J := unit) := mkGrammar "regex" (VStr "[a-z]+").
Definition ex_ebnf : GrammarSpec (J := unit) := mkGrammar "ebnf" (VStr "[a-z]+").
Definition ex_outlines : Outlines (J := unit) (Tok := unit) :=
  mkOutlines (Ret (λ _ _, Ret tt, λ _ _, Ret tt)) (λ _, true) (Raise (ImportError "")).
Definition ex_run : list (action (J := unit) (Tok := unit)) → Sys := run ex_dumps ex_digest.

(** Two requests for one regex, and a third when it is cached *)
Definition ex_shared : list (action (J := unit) (Tok := unit)) :=
  [Arrive None "m" ex_regex; Arrive None "m" ex_regex; Resume 0 (TokenizerResult (Ret tt)); Resume 0 (CompileResult ex_outlines);
   Arrive None "m" ex_regex; Resume 1 FutureDone]%string.

(** A leader that is cancelled while it compiles, with a follower *)
Definition ex_cancelled : list (action (J := unit) (Tok := unit)) :=
  [Arrive None "m" ex_regex; Arrive None "m" ex_regex; Resume 0 (TokenizerResult (Ret tt)); Resume 0 TaskCancel]%string.

Lemma single_flight_witness :
  dict_get ("m", ex_digest ("regex" +:+ NUL +:+ "[a-z]+"), "outlines")%string
    (grammar_inflight (flight (ex_run ex_cancelled))) = None ∧
  is_Some (tasks (ex_run ex_cancelled) !! 1%nat ≫= λ t, resume ex_dumps ex_digest t FutureDone (flight (ex_run ex_cancelled))) ∧
  leads (ex_run (take 3 ex_cancelled)) 0 ("m", ex_digest ("regex" +:+ NUL +:+ "[a-z]+"), "outlines")%string 0.
Proof.
  destruct (single_flight ex_dumps ex_digest (ex_run ex_cancelled) (run_reachable _ _ _)) as (_ & _ & _ & H & _).
  destruct (single_flight ex_dumps ex_digest (ex_run (take 3 ex_cancelled)) (run_reachable _ _ _)) as (_ & H' & _).
  split; [reflexivity|]. split.
  - destruct (tasks (ex_run ex_cancelled) !! 1%nat) as [t|] eqn:E; [|discriminate E]. cbn. apply (H 1%nat t); [exact E|].
    vm_compute in E. injection E as <-. reflexivity.
  - destruct (proj1 (H' ("m", ex_digest ("regex" +:+ NUL +:+ "[a-z]+"), "outlines")%string 0%nat) eq_refl) as [[|[|i]] Hi].
    + exact Hi.
    + destruct Hi as (t & Ht & Hl). vm_compute in Ht. injection Ht as <-. discriminate Hl.
    + destruct Hi as (t & Ht & Hl). discriminate Ht.
Defined.

Lemma ready_means_compiled_witness :
  ∃ k g', (k, g', Success) ∈ compiles (flight (ex_run ex_shared)) ∧ g_kind g' = "regex"%string.
Proof.
  destruct (tasks (ex_run ex_shared) !! 1%nat) as [t|] eqn:E; [|discriminate E]. vm_compute in E.
  destruct (ready_means_compiled ex_dumps ex_digest (ex_run ex_shared) 1 t ex_regex) as (k & g' & _ & Hc & _ & _).
  - apply run_reachable.
  - vm_compute. exact E.
  - injection E as <-. reflexivity.
  - injection E as <-. reflexivity.
  - exists k, g'. split; [exact Hc|]. vm_compute in Hc. apply list_elem_of_singleton in Hc. by injection Hc as -> ->.
Defined.

Definition ex_refused : list (action (J := unit) (Tok := unit)) :=
  [Arrive None "m" ex_regex; Resume 0 (TokenizerResult (Raise (OtherError "no tokenizer"))); Resume 0 (Published true)]%string.

Lemma calm_preflight_settles_witness :
  ∃ t, tasks (ex_run ex_refused) !! 0%nat = Some t ∧ is_Some (t_settled t).
Proof.
  destruct (tasks (ex_run ex_refused) !! 0%nat) as [t|] eqn:E; [|discriminate E]. exists t. split; [reflexivity|].
  destruct (calm_preflight_settles ex_dumps ex_digest (ex_run ex_refused) 0 t (Ret false)) as [[H _]|[_ H]].
  - intros c v e H. discriminate H.
  - apply run_calm. repeat constructor.
  - exact E.
  - vm_compute in E. injection E as <-. reflexivity.
  - discriminate H.
  - exact H.
Defined.

(** A follower that gives up takes the others with it: three requests share a compile, the
    second waits longer than its 30 seconds (a slow tokenizer load is enough), and the
    cancellation of its wait cancels the shared future.  The third request ends with a
    [CancelledError] although its task was not cancelled, and the leader, whose compile
    succeeds and is cached, with an [InvalidStateError]; neither is answered nor settled. *)
Theorem follower_timeout_poisons :
  let s := ex_run ([Arrive None "m" ex_regex; Arrive None "m" ex_regex; Arrive None "m" ex_regex;
                    Resume 1 FollowerTimeout; Resume 1 (Published true); Resume 2 FutureDone;
                    Resume 0 (TokenizerResult (Ret tt)); Resume 0 (CompileResult ex_outlines)]%string) in
  (t_phase <$> tasks s) = [Ended (Raise InvalidStateError); Ended (Ret false); Ended (Raise CancelledError)] ∧
  (t_settled <$> tasks s) = [None; Some Generation.Acked; None] ∧
  length (GrammarLRU.data (grammar_cache (flight s))) = 1%nat.
Proof. vm_compute. auto. Qed.
End GrammarFlight.
