(* ===== verification/Lora.v ===== *)
(** LoRA management of the registry: [is_lora_loaded], [is_lora_loading],
    [ensure_lora_loaded_async], [_load_lora_background] and [_load_lora_blocking] of
    [core/registry.py], the LoRA part of [core/model_loader.py], and [load_lora] and
    [unload_lora] of the two kinds of LoRA-capable adapters ([adapters/peft_lora_mixin.py];
    [adapters/base.py], which the SGLang embedding adapter does not override).

    The state is that of one model: the [LoadedModel] objects it has had, which of them is in
    [_loaded], and the load tasks.  The section of [ensure_lora_loaded_async] under the LoRA
    lock contains no await, so it is atomic and the lock is never contended.  A load task
    stands before its first instruction, in the executor, or between the end of the thread
    and its continuation.  A thread of [load_lora] stands before it, or in the call of PEFT
    that loads the weights; the event loop evicts LoRAs meanwhile.  What it does before and
    after that call is one step each. *)

From S2P Require Import Prelude PyDict.

Module Lora.

Inductive exn := KeyError | ValueError | RuntimeError | NotImplementedError | LoadError.

(** ** Adapters *)

(** [PEFTLoRAMixin]: [_loaded_loras], [_peft_model], and the adapters each [PeftModel] that
    was created holds; [_peft_model] names one of them. *)
Record PeftState := mkPeft {
  loaded_loras : list string;
  peft_model : option nat;
  wrappers : list (list string);
}.

(** An adapter with the mixin, an engine-owned adapter ([supports_lora] is
    [bool(_lora_paths)]), or an adapter without LoRA. *)
Inductive Adapter :=
| Peft (p : PeftState)
| Engine (lora_paths : list string)
| Plain.

Definition supports_lora (a : Adapter) : bool :=
  match a with Peft _ => true | Engine paths => negb (bool_decide (paths = [])) | Plain => false end.
Definition supports_hot_lora_reload (a : Adapter) : bool := match a with Peft _ => true | _ => false end.

Definition wrapper (a : Adapter) : option nat := match a with Peft p => peft_model p | _ => None end.

(** The LoRAs of the model that serves: the adapters of the current [PeftModel] *)
Definition resident (a : Adapter) : list string :=
  match a with
  | Peft p => match peft_model p with Some k => default [] (wrappers p !! k) | None => [] end
  | _ => []
  end.

Definition fresh (a : Adapter) : bool :=
  match a with
  | Peft p => bool_decide (loaded_loras p = []) && bool_decide (peft_model p = None) && bool_decide (wrappers p = [])
  | _ => true
  end.

(** The call of PEFT: [PeftModel.from_pretrained], or [load_adapter] of the [PeftModel] that
    was current when the call was made *)
Inductive call := First | Into (k : nat).

(** What PEFT answers: the call raises, [disable_adapter_layers] raises after it, or the LoRA
    is loaded and its memory is estimated. *)
Inductive answer := PeftFails (e : exn) | DisableFails (e : exn) | Loads (memory : Z).

(** [load_lora] up to the call; [refused] if the base model, PEFT or the target modules are
    not there. *)
Definition load_lora_begin (x : string) (refused : option exn) (a : Adapter) : res exn Z + call :=
  match a with
  | Peft p =>
      if bool_decide (x ∈ loaded_loras p) then inl (Ret 0%Z)
      else match refused with
           | Some e => inl (Raise e)
           | None => inr (match peft_model p with None => First | Some k => Into k end)
           end
  | _ => inl (Raise NotImplementedError)
  end.

Definition add_lora (x : string) (l : list string) : list string := if bool_decide (x ∈ l) then l else x :: l.

(** [load_lora] from the call on.  [set_active_lora(None)] and [_estimate_lora_memory] find
    no [PeftModel] when it was unwrapped meanwhile. *)
Definition load_lora_end (x : string) (c : call) (r : answer) (a : Adapter) : Adapter * res exn Z :=
  match a, r with
  | Peft p, PeftFails e => (a, Raise e)
  | Peft p, _ =>
      let p := match c with
               | First => mkPeft (add_lora x (loaded_loras p)) (Some (length (wrappers p))) (wrappers p ++ [[x]])
               | Into k => mkPeft (add_lora x (loaded_loras p)) (peft_model p) (alter (add_lora x) k (wrappers p))
               end in
      (Peft p, match peft_model p, r with
               | None, _ => Ret 0%Z
               | Some _, Loads m => Ret m
               | Some _, (DisableFails e | PeftFails e) => Raise e
               end)
  | _, _ => (a, Raise NotImplementedError)
  end.

(** [load_lora] of a model that is not served yet: nothing else touches the adapter. *)
Definition load_lora (x : string) (r : answer) (a : Adapter) : Adapter * res exn Z :=
  match load_lora_begin x None a with
  | inl res => (a, res)
  | inr c => load_lora_end x c r a
  end.

(** [unload_lora]; [fails] if PEFT fails to switch to the base model or to delete the
    adapter.  With its last LoRA the model is unwrapped. *)
Definition unload_lora (x : string) (fails : bool) (a : Adapter) : Adapter * res exn unit :=
  match a with
  | Peft p =>
      if bool_decide (x ∈ loaded_loras p) then
        match peft_model p with
        | None => (a, Raise RuntimeError)
        | Some k =>
            if fails then (a, Raise LoadError)
            else
              let l := filter (λ y, y ≠ x) (loaded_loras p) in
              (Peft (mkPeft l (match l with [] => None | _ => Some k end)
                       (alter (filter (λ y, y ≠ x)) k (wrappers p))), Ret tt)
        end
      else (a, Raise ValueError)
  | _ => (a, Raise NotImplementedError)
  end.

(** ** Loaded models *)

Record LoadedLora := mkLora { memory_bytes : Z; loading : bool }.
Record LoadedModel := mkModel { loras : list (string * LoadedLora); max_loras : Z; adapter : Adapter }.

Definition with_loras (d : list (string * LoadedLora)) (lm : LoadedModel) : LoadedModel :=
  mkModel d (max_loras lm) (adapter lm).

(** [LoadedModel.total_memory_bytes], less the base model *)
Definition lora_memory (lm : LoadedModel) : Z := sumZ (λ e, memory_bytes e.2) (loras lm).

(** The preload loop of [ModelLoader]; a LoRA that fails to load is left out. *)
Fixpoint preload (l : list (string * answer)) (lm : LoadedModel) : LoadedModel :=
  match l with
  | [] => lm
  | (x, r) :: l =>
      let '(a, r') := load_lora x r (adapter lm) in
      preload l (mkModel (match r' with Ret m => dict_set x (mkLora m false) (loras lm) | Raise _ => loras lm end)
                   (max_loras lm) a)
  end.

(** The eviction loop; [unload_lora] is called under [except Exception].  Every round removes
    an entry, so the number of entries is enough fuel. *)
Fixpoint evict_loras (fuel : nat) (x : string) (fails : string → bool) (lm : LoadedModel) : LoadedModel :=
  match fuel with
  | O => lm
  | S n =>
      if (Z.of_nat (length (loras lm)) <=? max_loras lm)%Z then lm
      else match loras lm with
           | [] => lm
           | (oldest, _) :: _ =>
               if decide (oldest = x) then lm
               else evict_loras n x fails
                      (mkModel (dict_del oldest (loras lm)) (max_loras lm)
                         (unload_lora oldest (fails oldest) (adapter lm)).1)
           end
  end.

(** ** The registry *)

Inductive phase :=
| Created                                 (* a background task that has not run yet *)
| InThread (m : nat)                      (* in the executor, before or at the start of [load_lora] *)
| Calling (m : nat) (c : call)
| ThreadDone (m : nat) (r : res exn Z)
| Done (ret : option (bool * bool)).      (* what the blocking call returned, if it returned *)

Record Task := mkTask { t_lora : string; t_blocking : bool; t_phase : phase }.

Record Reg := mkReg {
  configured : bool;                      (* [model in self._configs] *)
  loaded : option nat;                    (* [self._loaded[model]] *)
  models : list LoadedModel;
  tasks : list Task;
}.

Definition with_models (l : list LoadedModel) (s : Reg) : Reg := mkReg (configured s) (loaded s) l (tasks s).
Definition with_tasks (l : list Task) (s : Reg) : Reg := mkReg (configured s) (loaded s) (models s) l.

(** [self._loaded.get(model)] *)
Definition get_loaded (s : Reg) : option (nat * LoadedModel) :=
  match loaded s with
  | Some m => match models s !! m with Some lm => Some (m, lm) | None => None end
  | None => None
  end.

Definition lora_state (s : Reg) (x : string) : option LoadedLora :=
  match get_loaded s with Some (_, lm) => dict_get x (loras lm) | None => None end.

Definition is_lora_loaded (s : Reg) (x : string) : bool :=
  match lora_state s x with Some st => negb (loading st) | None => false end.
Definition is_lora_loading (s : Reg) (x : string) : bool :=
  match lora_state s x with Some st => loading st | None => false end.

(** [ensure_lora_loaded_async] up to its return or the await of the blocking load: what it
    returns ([None]: it is at the await), and the state. *)
Definition ensure_lora_loaded_async (x : string) (fails : string → bool) (s : Reg) : Reg * res exn (option (bool * bool)) :=
  if negb (configured s) then (s, Raise KeyError)
  else match get_loaded s with
  | None => (s, Raise KeyError)
  | Some (m, lm) =>
      if negb (supports_lora (adapter lm)) then (s, Raise ValueError)
      else match dict_get x (loras lm) with
      | Some st =>
          if loading st then (s, Ret (Some (false, true)))
          else (with_models (<[m := with_loras (dict_move_to_end x (loras lm)) lm]> (models s)) s, Ret (Some (true, false)))
      | None =>
          let lm := with_loras (dict_set x (mkLora 0 true) (loras lm)) lm in
          let lm := evict_loras (length (loras lm)) x fails lm in
          let s := with_models (<[m := lm]> (models s)) s in
          if supports_hot_lora_reload (adapter lm)
          then (with_tasks (tasks s ++ [mkTask x false Created]) s, Ret (Some (false, true)))
          else (with_tasks (tasks s ++ [mkTask x true (InThread m)]) s, Ret None)
      end
  end.

Inductive event :=
| Start                       (* the event loop runs a background task *)
| ThreadCalls (refused : option exn)
| ThreadEnds (r : answer)
| Continue
| Cancel.

Definition finish (t : Task) (s : Reg) : phase :=
  Done (if t_blocking t then Some (is_lora_loaded s (t_lora t), false) else None).

(** [_load_lora_background] and [_load_lora_blocking], from one await to the next *)
Definition resume (t : Task) (ev : event) (s : Reg) : option (Reg * phase) :=
  let x := t_lora t in
  match t_phase t, ev with
  | Created, Start =>
      Some (s, match get_loaded s with Some (m, _) => InThread m | None => finish t s end)
  | InThread m, ThreadCalls refused =>
      match models s !! m with
      | Some lm => Some (s, match load_lora_begin x refused (adapter lm) with inl r => ThreadDone m r | inr c => Calling m c end)
      | None => None
      end
  | Calling m c, ThreadEnds r =>
      match models s !! m with
      | Some lm =>
          let '(a, r') := load_lora_end x c r (adapter lm) in
          Some (with_models (<[m := mkModel (loras lm) (max_loras lm) a]> (models s)) s, ThreadDone m r')
      | None => None
      end
  | ThreadDone m (Ret memory), Continue =>
      match models s !! m with
      | Some lm =>
          let lm := match dict_get x (loras lm) with
                    | Some _ => with_loras (dict_set x (mkLora memory false) (loras lm)) lm
                    | None => lm
                    end in
          let s := with_models (<[m := lm]> (models s)) s in Some (s, finish t s)
      | None => None
      end
  | ThreadDone _ (Raise _), Continue =>
      let s := match get_loaded s with
               | Some (m, lm) => with_models (<[m := with_loras (dict_del x (loras lm)) lm]> (models s)) s
               | None => s
               end in Some (s, finish t s)
  | (Created | InThread _ | Calling _ _ | ThreadDone _ _), Cancel => Some (s, Done None)
  | _, _ => None
  end.

(** A model is loaded, with its profile LoRAs; it is unloaded. *)
Definition load_model (max : Z) (a : Adapter) (profile_loras : list (string * answer)) (s : Reg) : Reg :=
  mkReg true (Some (length (models s))) (models s ++ [preload profile_loras (mkModel [] max a)]) (tasks s).
Definition unload_model (s : Reg) : Reg := mkReg (configured s) None (models s) (tasks s).

Inductive action :=
| Ensure (x : string) (fails : string → bool)
| Resume (i : nat) (ev : event)
| Load (max : Z) (a : Adapter) (profile_loras : list (string * answer))
| Unload.

(** An action, if it is possible *)
Definition exec (s : Reg) (act : action) : option Reg :=
  match act with
  | Ensure x fails => Some (ensure_lora_loaded_async x fails s).1
  | Resume i ev =>
      match tasks s !! i with
      | Some t => match resume t ev s with
                  | Some (s', ph) => Some (with_tasks (<[i := mkTask (t_lora t) (t_blocking t) ph]> (tasks s')) s')
                  | None => None
                  end
      | None => None
      end
  | Load max a l =>      (* of a fresh adapter *)
      if (match loaded s with None => fresh a | Some _ => false end)
      then Some (load_model max a l s) else None
  | Unload => Some (unload_model s)
  end.

Definition init_reg : Reg := mkReg false None [] [].
Definition step (s s' : Reg) : Prop := ∃ act, exec s act = Some s'.
Definition reachable (s : Reg) : Prop := rtc step init_reg s.

Definition run (acts : list action) : Reg := foldl (λ s act, default s (exec s act)) init_reg acts.

(** ** Evictions *)

Definition evicted (d : list (string * LoadedLora)) (fails : string → bool) (a : Adapter) : Adapter :=
  foldl (λ a e, (unload_lora e.1 (fails e.1) a).1) a d.

(** The loop removes the oldest entries until the limit holds or the new entry is alone. *)
Lemma evict_spec fuel x p fails d max a :
  (length d <= fuel)%nat → x ∉ dict_keys d →
  ∃ d1 d2, d = d1 ++ d2 ∧
    evict_loras (S fuel) x fails (mkModel (d ++ [(x, p)]) max a) = mkModel (d2 ++ [(x, p)]) max (evicted d1 fails a) ∧
    (Z.of_nat (length d2 + 1) <= Z.max 1 max)%Z ∧ (d1 ≠ [] → (Z.max 1 max <= Z.of_nat (length d2 + 1))%Z).
Proof.
  revert d a. induction fuel as [|fuel IH]; intros d a Hf Hx.
  - destruct d as [|]; [|cbn in Hf; lia]. exists [], []. split; [done|]. split; [|cbn; split; [lia|done]].
    cbn [evict_loras loras app length evicted foldl max_loras]. case (_ <=? _)%Z; [done|]. by rewrite decide_True.
  - set (n := S fuel) in *. cbn [evict_loras loras max_loras adapter].
    destruct (Z.leb_spec (Z.of_nat (length (d ++ [(x, p)]))) max) as [Hle|Hgt].
    { rewrite length_app in Hle. cbn in Hle. exists [], d. split; [done|]. split; [done|]. split; [lia|done]. }
    rewrite length_app in Hgt. cbn in Hgt. destruct d as [|[o st] d]; cbn [app].
    { rewrite decide_True by done. exists [], []. cbn in *. split; [done|]. split; [done|]. split; [lia|done]. }
    rewrite dict_keys_cons, not_elem_of_cons in Hx. destruct Hx as [Hne Hx]. rewrite decide_False by done.
    cbn [dict_del]. rewrite decide_True by done. cbn in Hf.
    destruct (IH d (unload_lora o (fails o) a).1) as (d1 & d2 & -> & E & Hb & Hm); [lia|done|].
    exists ((o, st) :: d1), d2. split; [done|]. split; [exact E|]. split; [done|]. intros _.
    destruct d1; [|by apply Hm]. cbn in Hgt. lia.
Qed.

Lemma ensure_miss x fails d max a :
  x ∉ dict_keys d →
  let lm := with_loras (dict_set x (mkLora 0 true) d) (mkModel d max a) in
  ∃ d1 d2, d = d1 ++ d2 ∧
    evict_loras (length (loras lm)) x fails lm = mkModel (d2 ++ [(x, mkLora 0 true)]) max (evicted d1 fails a) ∧
    (Z.of_nat (length d2 + 1) <= Z.max 1 max)%Z ∧ (d1 ≠ [] → (Z.max 1 max <= Z.of_nat (length d2 + 1))%Z).
Proof.
  intros Hx lm. subst lm. unfold with_loras. cbn [loras max_loras adapter]. rewrite dict_set_fresh by done.
  rewrite length_app, Nat.add_1_r. by apply evict_spec.
Qed.

(** [_loaded_loras] names the adapters of the current [PeftModel]. *)
Definition consistent (a : Adapter) : Prop :=
  match a with
  | Peft p => (∀ x, x ∈ loaded_loras p ↔ x ∈ resident a) ∧ (∀ k, peft_model p = Some k → is_Some (wrappers p !! k))
  | _ => True
  end.

Lemma elem_of_add x y l : y ∈ add_lora x l ↔ y = x ∨ y ∈ l.
Proof. unfold add_lora. case_bool_decide; set_solver. Qed.

Lemma unload_consistent x fails a :
  consistent a → consistent (unload_lora x fails a).1 ∧
  ∀ y, y ∈ resident (unload_lora x fails a).1 ↔ y ∈ resident a ∧ (fails = false → y ≠ x).
Proof.
  intros Hc. unfold unload_lora. destruct a as [[l [k|] ws]| |]; cbn [fst loaded_loras peft_model wrappers] in *;
    try (by split; [done|intros y; cbn; set_solver]).
  2:{ destruct Hc as [Hc _]. cbn in Hc. case_bool_decide as Hx; [apply Hc in Hx; set_solver|]. split; [|cbn; set_solver]. split; done. }
  destruct Hc as [Hc Hk]. cbn in Hc, Hk. destruct (Hk k eq_refl) as [w Hw]. rewrite Hw in Hc. cbn in Hc.
  case_bool_decide as Hx.
  2:{ split; [split; cbn; [by rewrite Hw|done]|]. cbn. rewrite Hw. cbn. setoid_rewrite <- Hc. naive_solver. }
  destruct fails; [split; [split; cbn; [by rewrite Hw|done]|cbn; naive_solver]|]. cbn [fst].
  set (l' := filter (λ y, y ≠ x) l). assert (∀ y, y ∈ l' ↔ y ∈ w ∧ y ≠ x) as Hl'.
  { intros y. subst l'. rewrite list_elem_of_filter, Hc. naive_solver. }
  clearbody l'. unfold consistent, resident. cbn -[filter]. rewrite Hw. cbn -[filter].
  destruct l' as [|z l'].
  - split; [split; [done|done]|]. intros y. specialize (Hl' y). set_solver.
  - rewrite list_lookup_alter_eq, Hw. cbn -[filter]. split; [split|].
    + intros y. rewrite Hl', list_elem_of_filter. naive_solver.
    + intros k' [= <-]. rewrite list_lookup_alter_eq, Hw. eauto.
    + intros y. rewrite list_elem_of_filter. naive_solver.
Qed.

Lemma evicted_consistent d fails a :
  consistent a → (∀ z, fails z = false) →
  consistent (evicted d fails a) ∧ ∀ y, y ∈ resident (evicted d fails a) ↔ y ∈ resident a ∧ y ∉ dict_keys d.
Proof.
  intros Hc Hf. unfold evicted. revert a Hc. induction d as [|[o st] d IH]; intros a Hc; cbn [foldl fst]; [set_solver|].
  destruct (unload_consistent o (fails o) a Hc) as [Hc' Hr]. destruct (IH _ Hc') as [Hc'' Hr']. split; [done|].
  intros y. rewrite Hr', Hr, dict_keys_cons, not_elem_of_cons. specialize (Hf o). naive_solver.
Qed.

(** The end of a call of the current [PeftModel], or of the only first call *)
Lemma load_end_consistent x c r a a' res :
  consistent a → match c with First => wrapper a = None | Into k => wrapper a = Some k end →
  (∀ e, r ≠ DisableFails e) → load_lora_end x c r a = (a', res) →
  match res with
  | Ret _ => consistent a' ∧ (∀ y, y ∈ resident a' ↔ y = x ∨ y ∈ resident a) ∧ (c ≠ First → wrapper a' = wrapper a)
  | Raise _ => a' = a
  end.
Proof.
  intros Hc Hw Hr. unfold load_lora_end. destruct a as [[l pm ws]| |]; [|by intros [= <- <-]..]. cbn in Hw.
  destruct r as [e|e|mem]; [by intros [= <- <-]|by destruct (Hr e)|]. destruct Hc as [Hc Hk]. cbn in Hc, Hk.
  destruct c as [|k]; cbn [loaded_loras peft_model wrappers]; rewrite Hw in *; intros [= <- <-].
  - split_and!; [split|..]; cbn; rewrite ?list_lookup_middle by done; cbn; try done.
    + intros y. rewrite elem_of_add, Hc. set_solver.
    + intros k [= <-]. rewrite list_lookup_middle by done. eauto.
    + set_solver.
  - destruct (Hk k eq_refl) as [w Hk']. rewrite Hk' in Hc. cbn in Hc.
    split_and!; [split|..]; cbn; rewrite ?list_lookup_alter_eq, ?Hk'; cbn; try done.
    + intros y. by rewrite !elem_of_add, Hc.
    + intros k' [= <-]. rewrite list_lookup_alter_eq, Hk'. eauto.
    + intros y. apply elem_of_add.
Qed.

(** ** The bound *)

(** Within the limit, or as the profiles preloaded it *)
Definition within (lm : LoadedModel) : Prop :=
  dict_wf (loras lm) ∧
  ((Z.of_nat (length (loras lm)) <= Z.max 1 (max_loras lm))%Z ∨ ∀ e, e ∈ loras lm → loading e.2 = false).

Definition bounded (s : Reg) : Prop := ∀ m lm, models s !! m = Some lm → within lm.

Lemma bounded_insert s m lm : bounded s → within lm → bounded (with_models (<[m := lm]> (models s)) s).
Proof.
  intros Hb Hl m' lm'. cbn. destruct (decide (m = m')) as [<-|Hne]; [|rewrite list_lookup_insert_ne by done; apply Hb].
  destruct (decide (m < length (models s))%nat).
  - rewrite list_lookup_insert_eq by done. by intros [= <-].
  - rewrite list_insert_ge by lia. apply Hb.
Qed.

Lemma dict_suffix_wf {V} (d1 d2 : list (string * V)) x p : dict_wf (d1 ++ d2) → x ∉ dict_keys (d1 ++ d2) → dict_wf (d2 ++ [(x, p)]).
Proof.
  unfold dict_wf, dict_keys. rewrite !fmap_app, !NoDup_app, not_elem_of_app. cbn. intros (_ & _ & H2) [_ Hx].
  split; [done|]. split; [set_solver|apply NoDup_singleton].
Qed.

Lemma dict_set_present {V} (d : list (string * V)) x v : is_Some (dict_get x d) →
  length (dict_set x v d) = length d ∧ ∀ e, e ∈ dict_set x v d → e = (x, v) ∨ e ∈ d.
Proof.
  intros [w Hw]. induction d as [|[k u] d IH]; [done|]. cbn in *. case_decide; [set_solver|].
  destruct (IH Hw) as [Hl He]. split; [cbn; lia|]. intros e. rewrite elem_of_cons. set_solver.
Qed.

Lemma dict_del_sub {V} (d : list (string * V)) x :
  (length (dict_del x d) <= length d)%nat ∧ ∀ e, e ∈ dict_del x d → e ∈ d.
Proof.
  induction d as [|[k u] d [IH1 IH2]]; [done|]. cbn. case_decide; cbn; [split; [lia|set_solver]|].
  split; [lia|]. intros e. rewrite !elem_of_cons. naive_solver.
Qed.

Lemma within_preload l lm :
  dict_wf (loras lm) → (∀ e, e ∈ loras lm → loading e.2 = false) → within (preload l lm).
Proof.
  revert lm. induction l as [|[x r] l IH]; intros lm Hwf Hl; [split; auto|]. cbn [preload].
  destruct (load_lora x r (adapter lm)) as [a [m|e]]; apply IH; cbn [loras]; try done.
  - by apply dict_set_wf.
  - intros e He. assert (e = (x, mkLora m false) ∨ e ∈ loras lm) as [->|H]; [|done|by apply Hl].
    destruct (dict_get x (loras lm)) eqn:E; [apply dict_set_present in He; eauto|].
    apply dict_get_None in E. rewrite dict_set_fresh in He by done. set_solver.
Qed.

Lemma bounded_ensure x fails s : bounded s → bounded (ensure_lora_loaded_async x fails s).1.
Proof.
  intros Hb. unfold ensure_lora_loaded_async. destruct (configured s); [|done]. cbn [negb].
  unfold get_loaded. destruct (loaded s) as [m|]; [|done]. destruct (models s !! m) as [[d max a]|] eqn:Em; [|done].
  destruct (Hb _ _ Em) as [Hwf Hl]. cbn [adapter loras] in *. destruct (supports_lora a); [|done]. cbn [negb].
  destruct (dict_get x d) as [st|] eqn:Ex.
  - destruct (loading st); [done|]. cbn [fst]. apply bounded_insert; [done|]. split; cbn [with_loras loras max_loras].
    + by apply dict_move_to_end_wf.
    + rewrite length_dict_move_to_end. destruct Hl as [Hl|Hl]; [by left|right]. intros e. rewrite dict_move_to_end_perm. apply Hl.
  - apply dict_get_None in Ex. destruct (ensure_miss x fails d max a Ex) as (d1 & d2 & -> & E & Hlen & _).
    cbn zeta. rewrite E. cbn [adapter].
    assert (bounded (with_models (<[m := mkModel (d2 ++ [(x, mkLora 0 true)]) max (evicted d1 fails a)]> (models s)) s)) as Hs.
    { apply bounded_insert; [done|]. split; cbn [loras max_loras]; [by eapply dict_suffix_wf|]. left. by rewrite length_app. }
    destruct (supports_hot_lora_reload _); exact Hs.
Qed.

Lemma bounded_resume t ev s s' ph : resume t ev s = Some (s', ph) → bounded s → bounded s'.
Proof.
  intros Hr Hb. revert Hr. unfold resume.
  destruct (t_phase t) as [|m|m c|m [mem|e]|r]; destruct ev as [|rf|r'| |]; try done; try (by intros [= <- _]).
  - destruct (models s !! m) as [lm|] eqn:Em; [|done]. by intros [= <- _].
  - destruct (models s !! m) as [lm|] eqn:Em; [|done]. destruct (load_lora_end _ _ _ _) as [a r1]. intros [= <- _].
    apply bounded_insert; [done|]. exact (Hb _ _ Em).
  - destruct (models s !! m) as [lm|] eqn:Em; [|done]. intros [= <- _]. apply bounded_insert; [done|].
    destruct (Hb _ _ Em) as [Hwf Hl]. destruct (dict_get (t_lora t) (loras lm)) eqn:E; [|done].
    destruct (dict_set_present (loras lm) (t_lora t) (mkLora mem false)) as [Hn He]; [eauto|].
    split; cbn [with_loras loras max_loras]; [by apply dict_set_wf|]. rewrite Hn.
    destruct Hl as [Hl|Hl]; [by left|right]. intros e [->|?]%He; [done|by apply Hl].
  - intros [= <- _]. unfold get_loaded. destruct (loaded s) as [m'|]; [|done].
    destruct (models s !! m') as [lm|] eqn:Em; [|done]. apply bounded_insert; [done|].
    destruct (Hb _ _ Em) as [Hwf Hl]. destruct (dict_del_sub (loras lm) (t_lora t)) as [Hn He].
    split; cbn [with_loras loras max_loras]; [by apply dict_del_wf|].
    destruct Hl as [Hl|Hl]; [left; lia|right; auto].
Qed.

Lemma bounded_exec act s s' : exec s act = Some s' → bounded s → bounded s'.
Proof.
  destruct act as [x fails|i ev|max a l|]; cbn [exec].
  - intros [= <-]. apply bounded_ensure.
  - destruct (tasks s !! i) as [t|]; [|done]. destruct (resume t ev s) as [[s1 ph]|] eqn:E; [|done].
    intros [= <-] Hb. by eapply (bounded_resume _ _ _ _ _ E).
  - destruct (match loaded s with None => _ | _ => _ end); [|done]. intros [= <-] Hb m lm. cbn.
    intros [H|[_ H]]%lookup_app_Some; [by eapply Hb|]. apply list_lookup_singleton_Some in H as [_ <-].
    apply within_preload; cbn; [apply NoDup_nil_2|set_solver].
  - by intros [= <-].
Qed.

(** The number of LoRAs of a model.  In every reachable state, whatever fails, is
    cancelled or is reloaded, every model tracks at most [max_loras] LoRAs (at least one, the
    one being loaded), unless it still has only what its profiles preloaded; a request for
    a LoRA that is not tracked evicts the oldest entries and no more of them than needed. *)
Theorem lora_bounded s :
  reachable s →
  (∀ m lm, models s !! m = Some lm → within lm) ∧
  (∀ x fails m lm, configured s = true → get_loaded s = Some (m, lm) → supports_lora (adapter lm) = true →
     dict_get x (loras lm) = None →
     ∃ gone kept a, loras lm = gone ++ kept ∧
       models (ensure_lora_loaded_async x fails s).1 !! m = Some (mkModel (kept ++ [(x, mkLora 0 true)]) (max_loras lm) a) ∧
       (Z.of_nat (length kept + 1) <= Z.max 1 (max_loras lm))%Z ∧
       (gone ≠ [] → Z.of_nat (length kept + 1) = Z.max 1 (max_loras lm))).
Proof.
  intros Hr. split.
  - revert s Hr. unfold reachable. apply (rtc_ind_r (λ s, bounded s)); [by intros ? ?|].
    intros s s' _ [act Hs] Hb. by eapply bounded_exec.
  - intros x fails m [d max a] Hc Hg Hsup Hx. unfold ensure_lora_loaded_async. rewrite Hc, Hg, Hsup. cbn [negb loras adapter] in *.
    rewrite Hx. apply dict_get_None in Hx. destruct (ensure_miss x fails d max a Hx) as (d1 & d2 & -> & E & Hb & Hm).
    exists d1, d2, (evicted d1 fails a). split; [done|]. cbn zeta. rewrite E. split; [|split; [done|intros H; specialize (Hm H); cbn [max_loras]; lia]].
    assert (m < length (models s))%nat as Hlt.
    { unfold get_loaded in Hg. destruct (loaded s) as [m'|]; [|done]. destruct (models s !! m') eqn:Em; [|done].
      injection Hg as -> _. by eapply lookup_lt_Some. }
    destruct (supports_hot_lora_reload _); cbn; by rewrite list_lookup_insert_eq.
Qed.

(** ** What is tracked is resident *)

Definition live (ph : phase) : bool := match ph with Done _ => false | _ => true end.

(** Task [i] loads [x]. *)
Definition flying (ts : list Task) (i : nat) (x : string) : Prop :=
  ∃ t, ts !! i = Some t ∧ t_lora t = x ∧ live (t_phase t) = true.

Definition is_ready (d : list (string * LoadedLora)) (x : string) : Prop := ∃ st, dict_get x d = Some st ∧ loading st = false.
Definition is_loading (d : list (string * LoadedLora)) (x : string) : Prop := ∃ st, dict_get x d = Some st ∧ loading st = true.

(** The thread of task [i] has loaded [x]. *)
Definition landed (ts : list Task) (i : nat) (x : string) : Prop :=
  ∃ t m mem, ts !! i = Some t ∧ t_lora t = x ∧ t_phase t = ThreadDone m (Ret mem).

(** Task [i] is in the call [c] of PEFT. *)
Definition calling (ts : list Task) (i : nat) (c : call) : Prop := ∃ t m, ts !! i = Some t ∧ t_phase t = Calling m c.

(** The calls at work: a first call alone, or calls of the current [PeftModel] *)
Definition calls_ok (ts : list Task) (a : Adapter) : Prop :=
  ∀ i c, calling ts i c →
    match c with First => wrapper a = None ∧ ∀ j c', calling ts j c' → j = i | Into k => wrapper a = Some k end.

(** The model a thread works on *)
Definition home (ph : phase) : option nat :=
  match ph with InThread m | Calling m _ | ThreadDone m _ => Some m | _ => None end.

Record tracked (ts : list Task) (m : nat) (lm : LoadedModel) : Prop := {
  tr_wf : dict_wf (loras lm);
  tr_home : ∀ i t m', ts !! i = Some t → home (t_phase t) = Some m' → m' = m;
  tr_loading : ∀ x, is_loading (loras lm) x ↔ ∃ i, flying ts i x;
  tr_once : ∀ i j x, flying ts i x → flying ts j x → i = j;
  tr_ready : ∀ x, is_ready (loras lm) x → x ∈ resident (adapter lm);
  tr_resident : ∀ x, x ∈ resident (adapter lm) → is_ready (loras lm) x ∨ ∃ i, landed ts i x;
  tr_landed : ∀ i x, landed ts i x → x ∈ resident (adapter lm);
  tr_consistent : consistent (adapter lm);
  tr_calls : calls_ok ts (adapter lm);
}.

Definition exact (s : Reg) : Prop :=
  match loaded s with
  | Some m => ∃ lm, models s !! m = Some lm ∧ tracked (tasks s) m lm
  | None => ∀ i x, ¬ flying (tasks s) i x
  end.

Definition current_wrapper (s : Reg) : option nat :=
  match get_loaded s with Some (_, lm) => wrapper (adapter lm) | None => None end.

(** Steps that do not evict a LoRA that is loading, or the last one while another is in its
    call of PEFT; in which no load starts while the model is being wrapped, PEFT deletes what
    it is asked to delete and takes no LoRA whose load then fails, no load is cancelled, and
    the model is loaded and unloaded between loads of LoRAs *)
Definition calm (s : Reg) (act : action) : Prop :=
  match act with
  | Ensure x fails =>
      (∀ y, fails y = false) ∧
      (∀ y st, lora_state s y = Some st → lora_state (ensure_lora_loaded_async x fails s).1 y = None → loading st = false) ∧
      (∀ i c, calling (tasks s) i c → current_wrapper (ensure_lora_loaded_async x fails s).1 = current_wrapper s)
  | Resume _ Cancel => False
  | Resume _ (ThreadCalls _) => ∀ i, ¬ calling (tasks s) i First
  | Resume _ (ThreadEnds (DisableFails _)) => False
  | Resume _ _ => True
  | Load _ _ l => (∀ i x, ¬ flying (tasks s) i x) ∧ ∀ x e, (x, DisableFails e) ∉ l
  | Unload => ∀ i x, ¬ flying (tasks s) i x
  end.

Definition calm_step (s s' : Reg) : Prop := ∃ act, exec s act = Some s' ∧ calm s act.
Definition calm_reachable (s : Reg) : Prop := rtc calm_step init_reg s.

Lemma landed_flying ts i x : landed ts i x → flying ts i x.
Proof. intros (t & m & mem & Ht & Hx & Hp). exists t. by rewrite Hp. Qed.

Lemma ready_not_loading d x : is_ready d x → is_loading d x → False.
Proof. intros (st & H1 & H2) (st' & H3 & H4). congruence. Qed.

Lemma not_ready_loading d x : is_Some (dict_get x d) → ¬ is_loading d x → is_ready d x.
Proof. intros [st Hst] Hn. exists st. split; [done|]. destruct (loading st) eqn:E; [|done]. destruct Hn. exists st. done. Qed.

Lemma flying_insert ts i t t' j x :
  ts !! i = Some t → flying (<[i := t']> ts) j x ↔ (i = j ∧ t_lora t' = x ∧ live (t_phase t') = true) ∨ (i ≠ j ∧ flying ts j x).
Proof.
  intros Hi. apply lookup_lt_Some in Hi. unfold flying. destruct (decide (i = j)) as [<-|Hne].
  - rewrite list_lookup_insert_eq by done. naive_solver.
  - rewrite list_lookup_insert_ne by done. naive_solver.
Qed.

Lemma landed_insert ts i t t' j x :
  ts !! i = Some t → landed (<[i := t']> ts) j x ↔
  (i = j ∧ t_lora t' = x ∧ ∃ m mem, t_phase t' = ThreadDone m (Ret mem)) ∨ (i ≠ j ∧ landed ts j x).
Proof.
  intros Hi. apply lookup_lt_Some in Hi. unfold landed. destruct (decide (i = j)) as [<-|Hne].
  - rewrite list_lookup_insert_eq by done. naive_solver.
  - rewrite list_lookup_insert_ne by done. naive_solver.
Qed.

Lemma flying_snoc ts t j x :
  live (t_phase t) = true → flying (ts ++ [t]) j x ↔ (j = length ts ∧ t_lora t = x) ∨ flying ts j x.
Proof.
  intros Hl. unfold flying. split.
  - intros (u & [Hu|[Hge Hu]]%lookup_app_Some & Hx & Hu'); [by right; eauto|]. left.
    apply list_lookup_singleton_Some in Hu as [Hj <-]. split; [lia|done].
  - intros [[-> Hx]|(u & Hu & Hx & Hu')]; [exists t; by rewrite list_lookup_middle|].
    exists u. split; [by apply lookup_app_l_Some|done].
Qed.

Lemma landed_snoc ts t j x :
  (∀ m r, t_phase t ≠ ThreadDone m r) → landed (ts ++ [t]) j x ↔ landed ts j x.
Proof.
  intros Hl. unfold landed. split.
  - intros (u & m & mem & [Hu|[Hge Hu]]%lookup_app_Some & Hx & Hp); [naive_solver|].
    apply list_lookup_singleton_Some in Hu as [_ <-]. by destruct (Hl m (Ret mem)).
  - intros (u & m & mem & Hu & H). exists u, m, mem. split; [by apply lookup_app_l_Some|done].
Qed.

Lemma calling_insert ts i t t' j c :
  ts !! i = Some t → calling (<[i := t']> ts) j c ↔ (i = j ∧ ∃ m, t_phase t' = Calling m c) ∨ (i ≠ j ∧ calling ts j c).
Proof.
  intros Hi. apply lookup_lt_Some in Hi. unfold calling. destruct (decide (i = j)) as [<-|Hne].
  - rewrite list_lookup_insert_eq by done. naive_solver.
  - rewrite list_lookup_insert_ne by done. naive_solver.
Qed.

(** A task that leaves its call, or was not in one *)
Lemma calls_leave ts i t t' a : ts !! i = Some t → (∀ m c, t_phase t' ≠ Calling m c) → calls_ok ts a → calls_ok (<[i := t']> ts) a.
Proof.
  intros Ht Hn Hok j c. rewrite calling_insert by done. intros [[_ [m Hm]]|[_ Hj]]; [by destruct (Hn m c)|].
  specialize (Hok _ _ Hj). destruct c; [|done]. destruct Hok as [Hw Ho]. split; [done|]. intros k c'.
  rewrite calling_insert by done. intros [[_ [m Hm]]|[_ Hk]]; [by destruct (Hn m c')|eauto].
Qed.

Lemma calling_snoc ts t j c : (∀ m c, t_phase t ≠ Calling m c) → calling (ts ++ [t]) j c ↔ calling ts j c.
Proof.
  intros Hl. unfold calling. split.
  - intros (u & m & [Hu|[Hge Hu]]%lookup_app_Some & Hp); [naive_solver|].
    apply list_lookup_singleton_Some in Hu as [_ <-]. by destruct (Hl m c).
  - intros (u & m & Hu & H). exists u, m. split; [by apply lookup_app_l_Some|done].
Qed.

(** A task changes its phase and stays live: nothing else has to hold but for its new phase. *)
Lemma tracked_phase ts m lm i t ph :
  tracked ts m lm → ts !! i = Some t → live (t_phase t) = true →
  live ph = true → home ph = Some m → (∀ m' mem, ph ≠ ThreadDone m' (Ret mem)) →
  (∀ m' mem, t_phase t ≠ ThreadDone m' (Ret mem)) →
  calls_ok (<[i := mkTask (t_lora t) (t_blocking t) ph]> ts) (adapter lm) →
  tracked (<[i := mkTask (t_lora t) (t_blocking t) ph]> ts) m lm.
Proof.
  intros [Hwf Hhome Hload Honce Hready Hres Hland Hcons Hcalls] Ht Hl Hlp Hhp Hnp Hnot Hcok.
  assert (∀ j x, flying (<[i := mkTask (t_lora t) (t_blocking t) ph]> ts) j x ↔ flying ts j x) as Hfly.
  { intros j x. rewrite flying_insert by done. cbn. rewrite Hlp.
    split; [|destruct (decide (i = j)) as [<-|]; [|naive_solver]].
    - intros [(<- & Hx & _)|[_ ?]]; [exists t; done|done].
    - intros (u & Hu & Hx & _). left. rewrite Ht in Hu. by injection Hu as <-. }
  assert (∀ j x, landed (<[i := mkTask (t_lora t) (t_blocking t) ph]> ts) j x ↔ landed ts j x) as Hldd.
  { intros j x. rewrite landed_insert by done. cbn. split.
    - intros [(_ & _ & m' & mem & Hp)|[_ ?]]; [by destruct (Hnp m' mem)|done].
    - intros Hj. right. split; [|done]. intros <-. destruct Hj as (u & m' & mem & Hu & _ & Hp).
      rewrite Ht in Hu. injection Hu as <-. by destruct (Hnot m' mem). }
  split; [done| | | |done| | |done|done]; [|by setoid_rewrite Hfly..|by setoid_rewrite Hldd|by setoid_rewrite Hldd].
  intros j u m' Hu Hp. destruct (decide (i = j)) as [<-|Hne].
  - rewrite list_lookup_insert_eq in Hu by (by eapply lookup_lt_Some). injection Hu as <-. cbn in Hp.
    congruence.
  - rewrite list_lookup_insert_ne in Hu by done. by eapply Hhome.
Qed.

(** The thread has loaded its LoRA. *)
Lemma tracked_landing ts m lm i t mem a :
  tracked ts m lm → ts !! i = Some t → live (t_phase t) = true →
  (∀ y, y ∈ resident a ↔ y = t_lora t ∨ y ∈ resident (adapter lm)) →
  consistent a → calls_ok (<[i := mkTask (t_lora t) (t_blocking t) (ThreadDone m (Ret mem))]> ts) a →
  tracked (<[i := mkTask (t_lora t) (t_blocking t) (ThreadDone m (Ret mem))]> ts) m (mkModel (loras lm) (max_loras lm) a).
Proof.
  intros [Hwf Hhome Hload Honce Hready Hres Hland Hcons Hcalls] Ht Hl Ha Hcon Hcok.
  assert (∀ j x, flying (<[i := mkTask (t_lora t) (t_blocking t) (ThreadDone m (Ret mem))]> ts) j x ↔ flying ts j x) as Hfly.
  { intros j x. rewrite flying_insert by done. cbn. split.
    - intros [(<- & Hx & _)|[_ ?]]; [exists t; done|done].
    - destruct (decide (i = j)) as [<-|]; [|naive_solver]. intros (u & Hu & Hx & _). left.
      rewrite Ht in Hu. by injection Hu as <-. }
  split; cbn [loras adapter max_loras]; [done| |by setoid_rewrite Hfly|by setoid_rewrite Hfly| | | |done|done].
  - intros j u m' Hu Hp. destruct (decide (i = j)) as [<-|Hne].
    + rewrite list_lookup_insert_eq in Hu by (by eapply lookup_lt_Some). injection Hu as <-. cbn in Hp.
      congruence.
    + rewrite list_lookup_insert_ne in Hu by done. by eapply Hhome.
  - intros x Hx. apply Ha. auto.
  - intros x Hx. setoid_rewrite landed_insert; [|done]. cbn. apply Ha in Hx as [->|Hx]; [right; exists i; left; eauto|].
    destruct (Hres _ Hx) as [?|[j Hj]]; [by left|right]. destruct (decide (i = j)) as [<-|Hne]; [|eauto].
    exists i. left. destruct Hj as (u & ? & ? & Hu & Hux & _). rewrite Ht in Hu. injection Hu as <-. eauto.
  - intros j x. rewrite landed_insert by done. cbn. intros [(_ & <- & _)|[_ Hj]]; apply Ha; [by left|right; by eapply Hland].
Qed.

(** The task is over and [d] is what its continuation made of the LoRAs. *)
Lemma tracked_over ts m lm i t d ret :
  tracked ts m lm → ts !! i = Some t → live (t_phase t) = true → dict_wf d →
  (∀ y, y ≠ t_lora t → dict_get y d = dict_get y (loras lm)) → ¬ is_loading d (t_lora t) →
  (is_ready d (t_lora t) ↔ t_lora t ∈ resident (adapter lm)) →
  tracked (<[i := mkTask (t_lora t) (t_blocking t) (Done ret)]> ts) m (with_loras d lm).
Proof.
  intros [Hwf Hhome Hload Honce Hready Hres Hland Hcons Hcalls] Ht Hl Hd Hget Hnl Hx.
  assert (flying ts i (t_lora t)) as Hi by (exists t; done).
  assert (∀ y, y ≠ t_lora t → (is_loading d y ↔ is_loading (loras lm) y) ∧ (is_ready d y ↔ is_ready (loras lm) y)) as Hsame
    by (intros y Hy; unfold is_loading, is_ready; by rewrite Hget).
  split; cbn [with_loras loras adapter max_loras].
  - done.
  - intros j u m' Hu Hp. destruct (decide (i = j)) as [<-|Hne].
    + rewrite list_lookup_insert_eq in Hu by (by eapply lookup_lt_Some). injection Hu as <-. done.
    + rewrite list_lookup_insert_ne in Hu by done. by eapply Hhome.
  - intros y. setoid_rewrite flying_insert; [|done]. cbn. destruct (decide (y = t_lora t)) as [->|Hy].
    + split; [done|]. intros [j [(_ & _ & ?)|[Hne Hj]]]; [done|]. by destruct Hne; eapply Honce.
    + rewrite (proj1 (Hsame y Hy)), Hload. split; [|naive_solver].
      intros [j Hj]. exists j. right. split; [|done]. intros <-. destruct Hj as (u & Hu & Hux & _).
      rewrite Ht in Hu. injection Hu as <-. done.
  - intros j k y. rewrite !flying_insert by done. cbn. intros [(_ & _ & ?)|[_ Hj]] [(_ & _ & ?)|[_ Hk]]; try done. by eapply Honce.
  - intros y Hy. destruct (decide (y = t_lora t)) as [->|Hne]; [by apply Hx|]. apply Hready. by apply Hsame.
  - intros y Hy. setoid_rewrite landed_insert; [|done]. cbn. destruct (decide (y = t_lora t)) as [->|Hne]; [left; by apply Hx|].
    rewrite (proj2 (Hsame y Hne)). destruct (Hres _ Hy) as [?|[j Hj]]; [by left|right]. exists j. right. split; [|done].
    intros <-. destruct Hj as (u & ? & ? & Hu & Hux & _). rewrite Ht in Hu. injection Hu as <-. done.
  - intros j y. rewrite landed_insert by done. cbn. intros [(_ & _ & ? & ? & ?)|[_ Hj]]; [done|]. by eapply Hland.
  - done.
  - by eapply calls_leave.
Qed.

Lemma get_loaded_Some s m lm : loaded s = Some m → models s !! m = Some lm → get_loaded s = Some (m, lm).
Proof. intros Hm Hl. unfold get_loaded. by rewrite Hm, Hl. Qed.

(** A thread reaches its call, or returns or raises before it. *)
Lemma tracked_begin ts m lm i t refused :
  tracked ts m lm → ts !! i = Some t → t_phase t = InThread m → (∀ j, ¬ calling ts j First) →
  tracked (<[i := mkTask (t_lora t) (t_blocking t)
                    (match load_lora_begin (t_lora t) refused (adapter lm) with inl r => ThreadDone m r | inr c => Calling m c end)]> ts) m lm.
Proof.
  intros Htr Ht Hp Hno. pose proof Htr as [_ _ _ _ _ _ _ Hcon Hcalls].
  assert (live (t_phase t) = true) as Hl by (by rewrite Hp). assert (∀ m' mem, t_phase t ≠ ThreadDone m' (Ret mem)) as Hnt by (by rewrite Hp).
  unfold load_lora_begin. destruct (adapter lm) as [pe| |] eqn:Ea.
  2,3: eapply tracked_phase; try done; eapply calls_leave; [done|done|]; by rewrite Ea.
  case_bool_decide as Hin.
  { destruct lm as [d mx ad]. cbn in Ea. subst ad. eapply (tracked_landing _ _ (mkModel d mx (Peft pe))); try done.
    - cbn [adapter]. intros y. destruct Hcon as [Hcon _]. rewrite Hcon in Hin. naive_solver.
    - by eapply calls_leave. }
  destruct refused as [e|]; [eapply tracked_phase; try done; eapply calls_leave; [done|done|]; by rewrite Ea|].
  eapply tracked_phase; try done. rewrite Ea. intros j c. rewrite calling_insert by done. cbn. intros [[<- [m' [= <- <-]]]|[Hne Hj]].
  - destruct (peft_model pe) eqn:Ew; [done|]. split; [done|]. intros j c'. rewrite calling_insert by done. intros [[-> _]|[Hne Hj]]; [done|].
    destruct c' as [|k]; [by destruct (Hno j)|]. specialize (Hcalls _ _ Hj). cbn in Hcalls. congruence.
  - specialize (Hcalls _ _ Hj). destruct c as [|k]; [by destruct (Hno j)|done].
Qed.

(** A call ends. *)
Lemma tracked_end ts m lm i t c r a res :
  tracked ts m lm → ts !! i = Some t → t_phase t = Calling m c → (∀ e, r ≠ DisableFails e) →
  load_lora_end (t_lora t) c r (adapter lm) = (a, res) →
  tracked (<[i := mkTask (t_lora t) (t_blocking t) (ThreadDone m res)]> ts) m (mkModel (loras lm) (max_loras lm) a).
Proof.
  intros Htr Ht Hp Hr E. pose proof Htr as [_ _ _ _ _ _ _ Hcon Hcalls].
  assert (calling ts i c) as Hi by (by exists t, m). specialize (Hcalls _ _ Hi) as Hc.
  apply load_end_consistent in E; [|done| |done]; [|by destruct c as [|k]; [destruct Hc|]].
  destruct res as [mem|e].
  - destruct E as (Hcon' & Hres & Hw). eapply tracked_landing; try done; [by rewrite Hp|]. destruct c as [|k].
    + destruct Hc as [_ Honly]. intros j c'. rewrite calling_insert by done. cbn. intros [[_ [m' ?]]|[Hne Hj]]; [done|].
      by destruct Hne; eapply eq_sym, Honly.
    + eapply calls_leave; [done|done|]. unfold calls_ok in *. by rewrite Hw.
  - subst a. destruct lm as [d mx ad]. eapply tracked_phase; try done; [by rewrite Hp|by rewrite Hp|]. by eapply calls_leave.
Qed.

Lemma exact_resume s i t ev s' ph :
  exact s → tasks s !! i = Some t → calm s (Resume i ev) → resume t ev s = Some (s', ph) →
  exact (with_tasks (<[i := mkTask (t_lora t) (t_blocking t) ph]> (tasks s')) s').
Proof.
  intros He Ht Hcalm Hr. unfold exact in He.
  assert (live (t_phase t) = true) as Hl by (unfold resume in Hr; by destruct (t_phase t)).
  destruct (loaded s) as [m|] eqn:Hm; [|destruct (He i (t_lora t)); exists t; done].
  destruct He as (lm & Hlm & Htr). pose proof (get_loaded_Some _ _ _ Hm Hlm) as Hget.
  assert (flying (tasks s) i (t_lora t)) as Hi by (exists t; done).
  assert (m < length (models s))%nat as Hlt by (by eapply lookup_lt_Some).
  assert (∀ m', home (t_phase t) = Some m' → m' = m) as Hhome by (intros m'; by eapply tr_home).
  revert Hr. unfold resume. destruct (t_phase t) as [|m'|m' c|m' [mem|e]|r] eqn:Hp; destruct ev as [|rf|r'| |]; try done.
  - rewrite Hget. intros [= <- <-]. unfold exact. cbn. rewrite Hm. exists lm. split; [done|].
    eapply tracked_phase; try done; [by rewrite Hp..|]. eapply calls_leave; [done|done|apply Htr].
  - specialize (Hhome _ eq_refl) as ->. rewrite Hlm. intros [= <- <-]. unfold exact. cbn. rewrite Hm. exists lm. split; [done|].
    by eapply tracked_begin.
  - specialize (Hhome _ eq_refl) as ->. rewrite Hlm.
    destruct (load_lora_end (t_lora t) c r' (adapter lm)) as [a r1] eqn:El. intros [= <- <-]. unfold exact. cbn. rewrite Hm.
    eexists. split; [by apply list_lookup_insert_eq|]. eapply tracked_end; try done. intros e ->. done.
  - specialize (Hhome _ eq_refl) as ->. rewrite Hlm.
    assert (is_loading (loras lm) (t_lora t)) as (st & Hst & _) by (eapply tr_loading; eauto).
    rewrite Hst. intros [= <- <-]. unfold exact. cbn. rewrite Hm. eexists. split; [by apply list_lookup_insert_eq|].
    eapply tracked_over; [done..|by rewrite Hp|apply dict_set_wf, Htr| | |].
    + intros y Hy. rewrite dict_get_set. by rewrite decide_False.
    + unfold is_loading. rewrite dict_get_set, decide_True by done. intros (? & [= <-] & ?). done.
    + split; [|intros _; exists (mkLora mem false); by rewrite dict_get_set, decide_True].
      intros _. eapply tr_landed; [done|]. exists t, m, mem. done.
  - rewrite Hget. intros [= <- <-]. unfold exact. cbn. rewrite Hm. eexists. split; [by apply list_lookup_insert_eq|].
    assert (dict_get (t_lora t) (dict_del (t_lora t) (loras lm)) = None) as Hnone
      by (rewrite dict_get_del by apply Htr; by rewrite decide_True).
    eapply tracked_over; [done..|by rewrite Hp|apply dict_del_wf, Htr| | |].
    + intros y Hy. rewrite dict_get_del by apply Htr. by rewrite decide_False.
    + unfold is_loading. rewrite Hnone. by intros (? & ? & _).
    + unfold is_ready. rewrite Hnone. split; [by intros (? & ? & _)|]. intros Hin. exfalso.
      destruct (tr_resident _ _ _ Htr _ Hin) as [Hrd|[j Hj]].
      * eapply ready_not_loading; [done|]. eapply tr_loading; eauto.
      * assert (i = j) as <- by (eapply tr_once; eauto using landed_flying).
        destruct Hj as (u & ? & ? & Hu & _ & Hp'). rewrite Ht in Hu. injection Hu as <-. congruence.
Qed.

Lemma dict_get_suffix (d1 d2 : list (string * LoadedLora)) x p y :
  dict_wf (d1 ++ d2) → x ∉ dict_keys (d1 ++ d2) →
  dict_get y (d2 ++ [(x, p)]) =
    if decide (y = x) then Some p else if decide (y ∈ dict_keys d1) then None else dict_get y (d1 ++ d2).
Proof.
  intros Hwf Hx. pose proof (dict_suffix_wf d1 d2 x p Hwf Hx) as Hwf'. case_decide as Hy.
  - subst y. apply dict_elem_get; [done|]. set_solver.
  - case_decide as H1.
    + apply dict_get_None. unfold dict_wf, dict_keys in *. rewrite fmap_app, NoDup_app in Hwf. rewrite fmap_app.
      destruct Hwf as (_ & Hd & _). specialize (Hd y H1). set_solver.
    + destruct (dict_get y (d1 ++ d2)) as [v|] eqn:E.
      * apply dict_elem_get; [done|]. apply dict_get_Some_elem in E. apply elem_of_app in E as [E|E]; [|set_solver].
        destruct H1. unfold dict_keys. apply list_elem_of_fmap. exists (y, v). done.
      * apply dict_get_None. apply dict_get_None in E. unfold dict_keys in *. rewrite fmap_app in *. set_solver.
Qed.

(** A miss: the placeholder, the evictions and the new task *)
Lemma tracked_miss ts m d1 d2 max a x fails t :
  tracked ts m (mkModel (d1 ++ d2) max a) → x ∉ dict_keys (d1 ++ d2) → (∀ y, fails y = false) →
  (∀ y, y ∈ dict_keys d1 → ¬ is_loading (d1 ++ d2) y) →
  t_lora t = x → t_phase t = Created ∨ t_phase t = InThread m →
  (∀ i c, calling ts i c → wrapper (evicted d1 fails a) = wrapper a) →
  tracked (ts ++ [t]) m (mkModel (d2 ++ [(x, mkLora 0 true)]) max (evicted d1 fails a)).
Proof.
  intros [Hwf Hhome Hload Honce Hready Hres Hland Hcon Hcalls] Hx Hf Hev Htx Htp Hw. cbn [loras adapter] in *.
  destruct (evicted_consistent d1 fails a Hcon Hf) as [Hcon' Hrev].
  assert (live (t_phase t) = true) as Hl by (by destruct Htp as [-> | ->]).
  assert (∀ m r, t_phase t ≠ ThreadDone m r) as Hnd by (by destruct Htp as [-> | ->]).
  pose proof (λ y, dict_get_suffix d1 d2 x (mkLora 0 true) y Hwf Hx) as Hget.
  assert (∀ j, ¬ flying ts j x) as Hnx.
  { intros j Hj. assert (is_loading (d1 ++ d2) x) as (st & Hst & _) by (apply Hload; eauto).
    apply dict_get_None in Hx. congruence. }
  split; cbn [loras adapter max_loras].
  - by eapply dict_suffix_wf.
  - intros j u m' Hu Hp. apply lookup_app_Some in Hu as [Hu|[_ Hu]]; [by eapply Hhome|].
    apply list_lookup_singleton_Some in Hu as [_ <-]. destruct Htp as [Htp|Htp]; rewrite Htp in Hp; cbn in Hp; congruence.
  - intros y. setoid_rewrite flying_snoc; [|done]. unfold is_loading. rewrite Hget.
    destruct (decide (y = x)) as [->|Hy]; [split; [intros _; exists (length ts); auto|eexists; done]|].
    rewrite Htx. destruct (decide (y ∈ dict_keys d1)) as [H1|H1].
    + split; [by intros (? & ? & _)|]. intros [j [[_ ?]|Hj]]; [congruence|]. exfalso.
      apply (Hev y H1). apply Hload. eauto.
    + fold (is_loading (d1 ++ d2) y). rewrite Hload. split; [naive_solver|]. intros [j [[_ ?]|Hj]]; [congruence|eauto].
  - intros j k y. rewrite !flying_snoc, Htx by done. intros [[-> E1]|Hj] [[-> E2]|Hk]; subst; try done;
      [by destruct (Hnx k)|by destruct (Hnx j)|by eapply Honce].
  - intros y. unfold is_ready. rewrite Hget. destruct (decide (y = x)); [by intros (? & [= <-] & ?)|].
    destruct (decide (y ∈ dict_keys d1)); [by intros (? & ? & _)|]. intros Hy. rewrite Hrev.
    split; [|done]. by apply Hready.
  - intros y. rewrite Hrev. intros [Hy H1]. setoid_rewrite landed_snoc; [|done].
    unfold is_ready. rewrite Hget. destruct (Hres _ Hy) as [Hr|?]; [left|by right].
    destruct (decide (y = x)) as [->|]; [|by rewrite decide_False].
    destruct Hr as (st & Hst & _). apply dict_get_None in Hx. congruence.
  - intros j y. rewrite landed_snoc by done. intros Hj. rewrite Hrev. split; [by eapply Hland|].
    intros H1. apply (Hev y H1), Hload. exists j. by apply landed_flying.
  - done.
  - assert (∀ m c, t_phase t ≠ Calling m c) as Hnc by (by destruct Htp as [-> | ->]).
    intros j c. rewrite calling_snoc by done. intros Hj. rewrite (Hw _ _ Hj). specialize (Hcalls _ _ Hj). destruct c; [|done].
    destruct Hcalls as [? Ho]. split; [done|]. intros k c'. rewrite calling_snoc by done. apply Ho.
Qed.

Lemma tracked_touch ts m lm x : tracked ts m lm → tracked ts m (with_loras (dict_move_to_end x (loras lm)) lm).
Proof.
  intros [Hwf Hhome Hload Honce Hready Hres Hland Hcon Hcalls].
  assert (∀ y, dict_get y (dict_move_to_end x (loras lm)) = dict_get y (loras lm)) as Hg by (intros y; by apply dict_get_move_to_end).
  split; cbn [with_loras loras adapter]; unfold is_loading, is_ready in *; try setoid_rewrite Hg; try done.
  by apply dict_move_to_end_wf.
Qed.

Lemma exact_ensure x fails s : calm s (Ensure x fails) → exact s → exact (ensure_lora_loaded_async x fails s).1.
Proof.
  intros (Hf & Hev & Hwr) He. revert Hev Hwr. unfold exact in He. unfold ensure_lora_loaded_async, lora_state.
  destruct (configured s); [|done]. cbn [negb]. destruct (loaded s) as [m|] eqn:Hm.
  2:{ intros _ _. unfold get_loaded. rewrite Hm. unfold exact. cbn [fst]. by rewrite Hm. }
  destruct He as (lm & Hlm & Htr). rewrite (get_loaded_Some _ _ _ Hm Hlm).
  assert (exact s) as He by (unfold exact; rewrite Hm; eauto).
  assert (m < length (models s))%nat as Hlt by (by eapply lookup_lt_Some).
  destruct (supports_lora (adapter lm)); [|done]. cbn [negb]. destruct (dict_get x (loras lm)) as [st|] eqn:Ex.
  { intros _ _. destruct (loading st); [done|]. unfold exact. cbn. rewrite Hm. eexists. split; [by apply list_lookup_insert_eq|].
    by apply tracked_touch. }
  destruct lm as [d max a]. cbn [loras adapter] in *. apply dict_get_None in Ex.
  destruct (ensure_miss x fails d max a Ex) as (d1 & d2 & -> & E & _). cbn zeta. rewrite E. cbn [adapter].
  intros Hev Hwr. assert (∀ y, y ∈ dict_keys d1 → ¬ is_loading (d1 ++ d2) y) as Hgone.
  { intros y Hy (st & Hst & Hld). assert (loading st = false); [|congruence]. apply (Hev y st Hst).
    assert (∀ ts, match get_loaded (with_tasks ts (with_models (<[m := mkModel (d2 ++ [(x, mkLora 0 true)]) max (evicted d1 fails a)]>
              (models s)) s)) with Some (_, lm0) => dict_get y (loras lm0) | None => None end = None) as Hn.
    { intros ts. unfold get_loaded. cbn. rewrite Hm, list_lookup_insert_eq by done. cbn.
      rewrite (dict_get_suffix d1 d2) by (apply Htr || done). case_decide as Hyx; [|by rewrite decide_True].
      subst y. apply dict_get_None in Ex. congruence. }
    destruct (supports_hot_lora_reload (evicted d1 fails a)); apply Hn. }
  assert (∀ i c, calling (tasks s) i c → wrapper (evicted d1 fails a) = wrapper a) as Hsame.
  { intros i c Hi. specialize (Hwr i c Hi). unfold current_wrapper in Hwr. rewrite (get_loaded_Some _ _ _ Hm Hlm) in Hwr.
    destruct (supports_hot_lora_reload (evicted d1 fails a)); unfold get_loaded in Hwr; cbn in Hwr;
      by rewrite Hm, list_lookup_insert_eq in Hwr. }
  destruct (supports_hot_lora_reload (evicted d1 fails a)); unfold exact; cbn; rewrite Hm;
    (eexists; split; [by apply list_lookup_insert_eq|]); apply tracked_miss; auto.
Qed.

(** The profile LoRAs that were loaded are tracked. *)
Lemma preload_exact l lm :
  (∀ x e, (x, DisableFails e) ∉ l) → consistent (adapter lm) →
  dict_wf (loras lm) → (∀ x, ¬ is_loading (loras lm) x) → (∀ x, is_ready (loras lm) x ↔ x ∈ resident (adapter lm)) →
  let lm' := preload l lm in
  consistent (adapter lm') ∧
  dict_wf (loras lm') ∧ (∀ x, ¬ is_loading (loras lm') x) ∧ ∀ x, is_ready (loras lm') x ↔ x ∈ resident (adapter lm').
Proof.
  revert lm. induction l as [|[x r] l IH]; intros lm Hd Hc Hwf Hl Hr; [done|]. cbn [preload].
  assert (∀ x e, (x, DisableFails e) ∉ l) as Hd' by (intros y e Hy; apply (Hd y e); by right).
  assert (∀ e, r ≠ DisableFails e) as Hr' by (intros e ->; apply (Hd x e); by left).
  destruct (load_lora x r (adapter lm)) as [a res] eqn:E.
  assert (match res with
          | Ret _ => consistent a ∧ ∀ y, y ∈ resident a ↔ y = x ∨ y ∈ resident (adapter lm)
          | Raise _ => a = adapter lm end) as Ha.
  { unfold load_lora, load_lora_begin in E. destruct (adapter lm) as [pe| |] eqn:Ead; [|by injection E as <- <-..].
    case_bool_decide as Hin.
    - injection E as <- <-. split; [done|]. destruct Hc as [Hc _]. rewrite Hc in Hin. naive_solver.
    - apply load_end_consistent in E; [|done|by cbn; destruct (peft_model pe)|done]. destruct res; [naive_solver|done]. }
  destruct res as [mem|e].
  - destruct Ha as [Hca Hra]. apply IH; cbn [loras adapter]; [done|done|by apply dict_set_wf| |].
    + intros y (st & Hst & Hld). rewrite dict_get_set in Hst. case_decide; [by injection Hst as <-|]. apply (Hl y). by exists st.
    + intros y. rewrite Hra. unfold is_ready. rewrite dict_get_set. case_decide as Hxy; [subst; split; [by left|intros _; eexists; done]|].
      rewrite <- Hr. unfold is_ready. naive_solver.
  - subst a. by apply IH.
Qed.

Lemma exact_exec s act s' : exec s act = Some s' → calm s act → exact s → exact s'.
Proof.
  destruct act as [x fails|i ev|max a l|]; cbn [exec].
  - intros [= <-]. apply exact_ensure.
  - destruct (tasks s !! i) as [t|] eqn:Ht; [|done]. destruct (resume t ev s) as [[s1 ph]|] eqn:E; [|done].
    intros [= <-] Hc He. by eapply exact_resume.
  - destruct (loaded s); [done|]. destruct (fresh a) eqn:Ha; [|done]. intros [= <-] [Hn Hd] _.
    assert (consistent a ∧ resident a = []) as [Hca Hra].
    { destruct a as [[ll pm ws]| |]; [|done..]. unfold fresh in Ha. cbn in Ha. rewrite !andb_true_iff, !bool_decide_eq_true in Ha.
      destruct Ha as [[-> ->] ->]. split; [|done]. split; [done|]. by intros ? ?. }
    unfold exact. cbn. eexists. split; [by apply list_lookup_middle|].
    destruct (preload_exact l (mkModel [] max a)) as (H0 & H1 & H2 & H3); cbn [loras adapter]; [done|done|..].
    + apply NoDup_nil_2.
    + by intros x (? & ? & _).
    + intros x. rewrite Hra. split; [by intros (? & ? & _)|set_solver].
    + split; try done.
      * intros i t m' Ht Hp. destruct (Hn i (t_lora t)). exists t. by destruct (t_phase t).
      * intros x. split; [intros Hx; by destruct (H2 x)|]. intros [i Hi]. by destruct (Hn i x).
      * intros i j x Hi. by destruct (Hn i x).
      * intros x. apply H3.
      * intros x Hx. left. by apply H3.
      * intros i x Hi%landed_flying. by destruct (Hn i x).
      * intros i c (t & m' & Ht & Hp). destruct (Hn i (t_lora t)). exists t. by rewrite Hp.
  - intros [= <-] Hn _. exact Hn.
Qed.

(** C21 — the registry's view of the LoRAs is the adapter's, as long as loads and evictions
    keep out of each other's way.  Take any state reached by steps in which
    - no LoRA that is still loading is evicted, and the last resident LoRA is not evicted
      while another is in its PEFT call ([evicted_placeholder_leaks], [unwrap_loses_load]);
    - no load starts while a first load is wrapping the model ([first_loads_collide]);
    - PEFT deletes what it is asked to delete, and no load fails after PEFT took the LoRA
      ([late_failure_leaks]);
    - no load is cancelled, and the model is loaded and unloaded between LoRA loads.
    Then a LoRA reported as loaded is an adapter of the [PeftModel] that serves; such an
    adapter is reported as loaded or as loading; a LoRA is reported as loading exactly while
    one task loads it, so no request starts a second load; and when no task is at work, what
    the model holds is what is reported as loaded.  The code enforces none of the
    conditions; the theorems named show what each of them prevents. *)
Theorem lora_tracking_exact s m lm :
  calm_reachable s → get_loaded s = Some (m, lm) →
  (∀ x, is_lora_loaded s x = true → x ∈ resident (adapter lm)) ∧
  (∀ x, x ∈ resident (adapter lm) → is_lora_loaded s x = true ∨ is_lora_loading s x = true) ∧
  (∀ x, is_lora_loading s x = true ↔ ∃ i, flying (tasks s) i x) ∧
  (∀ i j x, flying (tasks s) i x → flying (tasks s) j x → i = j) ∧
  ((∀ i x, ¬ flying (tasks s) i x) → ∀ x, x ∈ resident (adapter lm) ↔ is_lora_loaded s x = true).
Proof.
  intros Hr Hg. assert (exact s) as He.
  { clear Hg. revert s Hr. unfold calm_reachable. apply (rtc_ind_r exact).
    - intros i x (t & Ht & _). done.
    - intros s s' _ (act & Hs & Hc) He. by eapply exact_exec. }
  unfold exact in He. pose proof Hg as Hg'. unfold get_loaded in Hg'. destruct (loaded s) as [m'|]; [|done].
  destruct He as (lm' & Hlm & Htr). rewrite Hlm in Hg'. injection Hg' as -> ->.
  destruct Htr as [_ _ Hload Honce Hready Hres Hland _ _].
  assert (∀ x, is_lora_loaded s x = true ↔ is_ready (loras lm) x) as H1.
  { intros x. unfold is_lora_loaded, lora_state, is_ready. rewrite Hg. destruct (dict_get x (loras lm)) as [st|]; [|naive_solver].
    rewrite negb_true_iff. naive_solver. }
  assert (∀ x, is_lora_loading s x = true ↔ is_loading (loras lm) x) as H2.
  { intros x. unfold is_lora_loading, lora_state, is_loading. rewrite Hg. destruct (dict_get x (loras lm)) as [st|]; naive_solver. }
  setoid_rewrite H1. setoid_rewrite H2. split; [done|]. split; [|split; [done|]; split; [done|]].
  - intros x Hx. destruct (Hres _ Hx) as [?|[i Hi]]; [by left|right]. apply Hload. eauto using landed_flying.
  - intros Hn x. split; [|apply Hready]. intros Hx. destruct (Hres _ Hx) as [?|[i Hi%landed_flying]]; [done|]. by destruct (Hn i x).
Qed.

(** ** Runs *)

Lemma lora_run_reachable acts : reachable (run acts).
Proof.
  unfold run, reachable. induction acts as [|act acts IH] using rev_ind; [apply rtc_refl|]. rewrite foldl_snoc.
  destruct (exec (foldl _ init_reg acts) act) as [s|] eqn:E; [|done]. cbn. eapply rtc_r; [exact IH|]. by exists act.
Qed.

Definition ok (_ : string) : bool := false.

Definition peft : Adapter := Peft (mkPeft [] None []).

(** Task [i] from its start to its end *)
Definition whole_load (i : nat) (memory : Z) : list action :=
  [Resume i Start; Resume i (ThreadCalls None); Resume i (ThreadEnds (Loads memory)); Resume i Continue].

(** A limit of one LoRA: ["a"] is loaded, then ["b"] takes its place. *)
Definition ex_swap : list action :=
  [Load 1 peft []; Ensure "a" ok]%string ++ whole_load 0 5 ++
  [Ensure "b" ok; Resume 1 Start; Resume 1 (ThreadCalls None); Resume 1 (ThreadEnds (Loads 7))]%string.

Lemma calm_take acts k act :
  acts !! k = Some act → is_Some (exec (run (take k acts)) act) → calm (run (take k acts)) act →
  calm_reachable (run (take k acts)) → calm_reachable (run (take (S k) acts)).
Proof.
  intros Hk [s Hs] Hc Hr. rewrite (take_S_r _ _ _ Hk). unfold run in *. rewrite foldl_snoc, Hs. cbn.
  eapply rtc_r; [exact Hr|]. by exists act.
Qed.

(** Take the steps of a schedule one by one; what is left are the [calm] conditions. *)
Ltac calm_run :=
  first [apply rtc_refl
        | eapply calm_take; [reflexivity|vm_compute; by eexists|cbn; try done|calm_run]].

(** No task is in a call, in a concrete state. *)
Ltac no_call := intros [|[|?]] (? & ? & Ht & Hp); vm_compute in Ht; [injection Ht as <-; discriminate Hp|..]; (discriminate Ht || (injection Ht as <-; discriminate Hp)).

Lemma ex_swap_calm : calm_reachable (run ex_swap).
Proof.
  change ex_swap with (take 10 ex_swap). calm_run.
  - no_call.
  - split; [done|]. split.
    + intros y st. vm_compute. destruct y as [|[[] [] [] [] [] [] [] []] [|]]; try done; by intros [= <-].
    + intros i c Hi. exfalso. revert i Hi. no_call.
  - no_call.
  - split; [|set_solver]. by intros i x (t & Ht & _).
Qed.

Lemma lora_bounded_witness :
  ∃ lm, models (run ex_swap) !! 0%nat = Some lm ∧ length (loras lm) = 1%nat ∧ within lm.
Proof.
  destruct (lora_bounded (run ex_swap) (lora_run_reachable _)) as [H _].
  destruct (models (run ex_swap) !! 0%nat) as [lm|] eqn:E; [|discriminate E]. exists lm.
  split; [reflexivity|]. split; [|exact (H _ _ E)]. vm_compute in E. injection E as <-. reflexivity.
Defined.

Lemma lora_tracking_exact_witness :
  ∃ lm, get_loaded (run ex_swap) = Some (0%nat, lm) ∧ resident (adapter lm) = ["b"]%string ∧
    is_lora_loading (run ex_swap) "b" = true ∧ ∃ i, flying (tasks (run ex_swap)) i "b".
Proof.
  destruct (get_loaded (run ex_swap)) as [[m lm]|] eqn:E; [|discriminate E].
  destruct (lora_tracking_exact (run ex_swap) m lm ex_swap_calm E) as (_ & H & Hf & _).
  vm_compute in E. injection E as <- <-. eexists. split; [reflexivity|]. split; [reflexivity|].
  assert (is_lora_loading (run ex_swap) "b" = true) as Hl by reflexivity. split; [exact Hl|]. apply Hf, Hl.
Defined.

(** A LoRA that is evicted while it loads is not unloaded when its load ends: with a limit of
    one, the adapter ends with two LoRAs, one of them unknown to the registry. *)
Theorem evicted_placeholder_leaks :
  let s := run ([Load 1 peft []; Ensure "a" ok; Resume 0 Start; Resume 0 (ThreadCalls None); Ensure "b" ok;
                 Resume 0 (ThreadEnds (Loads 5)); Resume 0 Continue]%string ++ whole_load 1 7) in
  (resident ∘ adapter <$> models s) = [["b"; "a"]]%string ∧ is_lora_loaded s "b" = true ∧ lora_state s "a" = None.
Proof. vm_compute. auto. Qed.

(** A LoRA that is evicted while it loads is loaded a second time by the next request for it,
    while the first load is at work. *)
Theorem second_load_starts :
  let s := run ([Load 1 peft []; Ensure "a" ok; Resume 0 Start; Ensure "b" ok; Ensure "a" ok; Resume 2 Start]%string) in
  flying (tasks s) 0 "a" ∧ flying (tasks s) 2 "a".
Proof. split; eexists; vm_compute; auto. Qed.

(** The last LoRA is evicted while another is in its PEFT call: the model is unwrapped under
    the load, whose LoRA goes to a [PeftModel] nobody serves.  It is reported as loaded, and
    requests for it run on the base model. *)
Theorem unwrap_loses_load :
  let s := run ([Load 2 peft []; Ensure "a" ok]%string ++ whole_load 0 5 ++
                [Ensure "b" ok; Resume 1 Start; Resume 1 (ThreadCalls None); Ensure "c" ok;
                 Resume 1 (ThreadEnds (Loads 7)); Resume 1 Continue]%string) in
  is_lora_loaded s "b" = true ∧ (wrapper ∘ adapter <$> models s) = [None] ∧ (resident ∘ adapter <$> models s) = [[]].
Proof. vm_compute. auto. Qed.

(** Two first loads at once wrap the base model twice, and the second wrapper replaces the
    first: a LoRA is reported as loaded that is not in the model. *)
Theorem first_loads_collide :
  let s := run ([Load 2 peft []; Ensure "a" ok; Ensure "b" ok; Resume 0 Start; Resume 1 Start;
                 Resume 0 (ThreadCalls None); Resume 1 (ThreadCalls None); Resume 0 (ThreadEnds (Loads 5));
                 Resume 1 (ThreadEnds (Loads 7)); Resume 0 Continue; Resume 1 Continue]%string) in
  is_lora_loaded s "a" = true ∧ (resident ∘ adapter <$> models s) = [["b"]]%string.
Proof. vm_compute. auto. Qed.

(** A load that fails when the adapter layers are disabled has already added its LoRA: it is
    in the model and the registry drops its entry. *)
Theorem late_failure_leaks :
  let s := run ([Load 2 peft []; Ensure "a" ok; Resume 0 Start; Resume 0 (ThreadCalls None);
                 Resume 0 (ThreadEnds (DisableFails LoadError)); Resume 0 Continue]%string) in
  lora_state s "a" = None ∧ (resident ∘ adapter <$> models s) = [["a"]]%string.
Proof. vm_compute. auto. Qed.

(** A LoRA of an engine-owned adapter is never ready: the adapter has no [load_lora] of its
    own, and the registry does not know what the engine loaded at launch. *)
Theorem engine_lora_fails r :
  let s := run ([Load 10 (Engine ["a"]) []; Ensure "a" ok; Resume 0 (ThreadCalls r); Resume 0 Continue]%string) in
  (t_phase <$> tasks s) = [Done (Some (false, false))] ∧ lora_state s "a" = None.
Proof. vm_compute. auto. Qed.

(** A blocking load that is cancelled leaves its placeholder: the LoRA is reported as loading
    although no task loads it, and every later request is told to retry. *)
Theorem cancelled_load_sticks :
  let s := run ([Load 10 (Engine ["a"]) []; Ensure "a" ok; Resume 0 Cancel]%string) in
  is_lora_loading s "a" = true ∧ (∀ i, ¬ flying (tasks s) i "a") ∧
  ensure_lora_loaded_async "a" ok s = (s, Ret (Some (false, true))).
Proof.
  split; [reflexivity|]. split; [|reflexivity]. intros [|i] (t & Ht & _ & Hl); vm_compute in Ht; [|done].
  by injection Ht as <-.
Qed.
End Lora.
