(* ===== verification/Metering.v ===== *)
(** Billable units of a work item: the unit helpers of [queue_executor.py], [UnitCounts] of
    [ipc_types.py], and the checks of prepared audio.

    A dimension of [UnitCounts] is set only when there is authoritative evidence for it; the
    helpers fold one dimension at a time into what is known.  Evidence that an adapter
    surfaces is of type [Any]: [evidence] is what the code can tell about it, a list whose
    elements are integers or not. *)

From S2P Require Import Prelude.
Local Open Scope Z_scope.

Module Metering.

Record UnitCounts := mkUnits {
  input_tokens : option Z;
  pages : option Z;
  images : option Z;
  audio_ms : option Z;
  pairs : option Z;
}.

Definition no_units : UnitCounts := mkUnits None None None None None.

(** A Python value looked at as a list of integers: [None] if it is not a list, and [None]
    for an element that is not an [int] or is a [bool]. *)
Definition evidence : Type := option (list (option Z)).

(** [isinstance(x, list) and len(x) == n and all(isinstance(c, int) ... and c >= 0)] *)
Definition counts_of (e : evidence) (expected_len : Z) : option (list Z) :=
  match e with
  | None => None
  | Some l =>
      if negb (Z.of_nat (length l) =? expected_len) then None
      else if forallb (λ c, match c with Some z => 0 <=? z | None => false end) l
      then Some (omap id l) else None
  end.

(** [_units_from_token_counts] *)
Definition units_from_token_counts (counts : evidence) (expected_len : Z) : option UnitCounts :=
  match counts_of counts expected_len with
  | Some l => Some (mkUnits (Some (sumZ id l)) None None None None)
  | None => None
  end.

(** [_page_total] *)
Definition page_total (pgs : evidence) (expected_len : Z) : option Z := sumZ id <$> counts_of pgs expected_len.

(** [_image_total] *)
Definition image_total (imgs : evidence) (expected_len : Z) : option Z :=
  match counts_of imgs expected_len with
  | Some l => if 0 <? sumZ id l then Some (sumZ id l) else None
  | None => None
  end.

(** [_with_images] *)
Definition with_images (units : option UnitCounts) (image_count : option Z) : option UnitCounts :=
  match image_count with
  | None => units
  | Some n =>
      if n <=? 0 then units
      else match units with
           | None => Some (mkUnits None None (Some n) None None)
           | Some u => Some (mkUnits (input_tokens u) (pages u) (Some n) (audio_ms u) (pairs u))
           end
  end.

(** [_with_pages] *)
Definition with_pages (units : option UnitCounts) (page_count : option Z) : option UnitCounts :=
  match page_count with
  | None => units
  | Some n =>
      match units with
      | None => Some (mkUnits None (Some n) None None None)
      | Some u => Some (mkUnits (input_tokens u) (Some n) (images u) (audio_ms u) (pairs u))
      end
  end.

Inductive error := ValueError (msg : string).

(** [_with_audio_ms] of an integer *)
Definition with_audio_ms (units : option UnitCounts) (ms : option Z) : res error (option UnitCounts) :=
  match ms with
  | None => Ret units
  | Some n =>
      if (n <=? 0) || (2 ^ 64 - 1 <? n) then Raise (ValueError "audio_ms must be a positive u64 integer")
      else Ret (Some match units with
                     | None => mkUnits None None None (Some n) None
                     | Some u => mkUnits (input_tokens u) (pages u) (images u) (Some n) (pairs u)
                     end)
  end.

(** [_encode_units] *)
Definition encode_units (token_count image_count : option Z) : option UnitCounts :=
  let imgs := match image_count with Some n => if 0 <? n then Some n else None | None => None end in
  let tokens := match token_count with
                | Some n => if 0 <? n then Some n
                            else if (n =? 0) && (if imgs then true else false) then Some 0 else None
                | None => None
                end in
  match tokens, imgs with
  | None, None => None
  | _, _ => Some (mkUnits tokens None imgs None None)
  end.

(** [_per_item_image_counts]; [None]: no adapter. The hook may raise. *)
Definition per_item_image_counts {E} (hook : option (res E evidence)) (expected_len : Z) : option (list Z) :=
  match hook with
  | Some (Ret counts) => counts_of counts expected_len
  | _ => None
  end.

(** [_encode_image_counts]; [video] says which items carry a video. *)
Definition encode_image_counts {E} (input_image_counts : option (list Z)) (hook : option (res E evidence))
    (video : list bool) (expected_len : Z) : option (list (option Z)) :=
  let wire :=
    match per_item_image_counts hook expected_len with
    | None => None
    | Some wire_counts => Some (zip_with (λ (v : bool) c, if v then None else Some c) video wire_counts)
    end in
  match input_image_counts with
  | Some counts =>
      if Z.of_nat (length counts) =? expected_len
      then Some (zip_with (λ (v : bool) c, if (c =? 0) && v then None else Some c) video counts)
      else wire
  | None => wire
  end.

(** The units of [_score_success_outcome]: tokens and images of the output, the pairs, then
    the images the adapter counts itself. *)
Definition score_units {E} (token_counts image_counts : evidence) (hook : option (res E evidence)) (batch_size : Z) :
    option UnitCounts :=
  let units := units_from_token_counts token_counts batch_size in
  let units := with_images units (image_total image_counts batch_size) in
  let units :=
    match units with
    | None => mkUnits None None None None (Some batch_size)
    | Some u => mkUnits (input_tokens u) (pages u) (images u) (audio_ms u) (Some batch_size)
    end in
  with_images (Some units) (sumZ id <$> per_item_image_counts hook batch_size).

(** The units of [_extract_success_outcome] *)
Definition extract_units {E} (token_counts page_counts : evidence) (hook : option (res E evidence)) (batch_size : Z)
    (prepared_audio_ms : option Z) : res error (option UnitCounts) :=
  let units := units_from_token_counts token_counts batch_size in
  let units := with_pages units (page_total page_counts batch_size) in
  let units := with_images units (match per_item_image_counts hook 1 with Some (n :: _) => Some n | _ => None end) in
  with_audio_ms units prepared_audio_ms.

(** ** Prepared audio *)

Definition CANONICAL_AUDIO_SAMPLE_RATE : Z := 16000.
Definition MAX_AUDIO_CHANNELS : Z := 2.
Definition MIN_AUDIO_SAMPLE_RATE : Z := 8000.
Definition MAX_AUDIO_SAMPLE_RATE : Z := 48000.
Definition MAX_AUDIO_DURATION_MS : Z := 12 * 60 * 1000.
Definition MAX_AUDIO_CANONICAL_SAMPLES : Z := MAX_AUDIO_DURATION_MS * CANONICAL_AUDIO_SAMPLE_RATE / 1000 + 2048.
Definition AUDIO_CONTAINERS : list string := ["wav"; "mp3"; "flac"; "ogg"; "m4a"; "webm"].

Record PreparedAudio := mkAudio {
  pcm_bytes : Z;                 (* [len(pcm_s16le)] *)
  sample_rate : Z;
  sample_count : Z;
  duration_ms : Z;
  source_sample_rate : Z;
  source_sample_count : Z;
  source_channels : Z;
  container : string;
}.

(** [_validate_prepared_audio] *)
Definition validate_prepared_audio (a : PreparedAudio) : res error unit :=
  if negb (sample_rate a =? CANONICAL_AUDIO_SAMPLE_RATE)
  then Raise (ValueError "prepared audio sample_rate must be 16000")
  else if negb ((MIN_AUDIO_SAMPLE_RATE <=? source_sample_rate a) && (source_sample_rate a <=? MAX_AUDIO_SAMPLE_RATE))
  then Raise (ValueError "prepared audio source_sample_rate must be between 8000 and 48000")
  else if negb ((1 <=? source_channels a) && (source_channels a <=? MAX_AUDIO_CHANNELS))
  then Raise (ValueError "prepared audio source_channels must be 1 or 2")
  else if negb (bool_decide (container a ∈ AUDIO_CONTAINERS))
  then Raise (ValueError "prepared audio container is unsupported")
  else if (sample_count a <=? 0) || (source_sample_count a <=? 0) || (duration_ms a <=? 0)
  then Raise (ValueError "prepared audio sample counts and duration_ms must be positive")
  else if MAX_AUDIO_DURATION_MS <? duration_ms a
  then Raise (ValueError "prepared audio duration_ms exceeds 720000")
  else if MAX_AUDIO_CANONICAL_SAMPLES <? sample_count a
  then Raise (ValueError "prepared audio canonical sample_count exceeds the bounded duration")
  else if negb (pcm_bytes a =? sample_count a * 2)
  then Raise (ValueError "prepared audio PCM byte length does not match sample_count")
  else
    let expected_duration_ms := (source_sample_count a * 1000 + source_sample_rate a - 1) / source_sample_rate a in
    if negb (duration_ms a =? expected_duration_ms)
    then Raise (ValueError "prepared audio duration_ms does not match source_sample_count")
    else Ret tt.

(** ** Folds *)

(** The dimensions a fold leaves alone *)
Lemma with_images_other units n u' :
  with_images units n = Some u' →
  let u := default no_units units in
  input_tokens u' = input_tokens u ∧ pages u' = pages u ∧ audio_ms u' = audio_ms u ∧ pairs u' = pairs u ∧
  images u' = match n with Some k => if k <=? 0 then images u else Some k | None => images u end.
Proof. destruct n as [k|], units as [u|]; cbn; try destruct (k <=? 0); by intros [= <-]. Qed.

Lemma with_pages_images units p n :
  with_pages (with_images units n) p = with_images (with_pages units p) n.
Proof. destruct p as [p|], n as [n|], units as [u|]; cbn; try destruct (n <=? 0); done. Qed.

Lemma with_audio_images units a n :
  with_audio_ms (with_images units n) a =
  match with_audio_ms units a with Ret u => Ret (with_images u n) | Raise e => Raise e end.
Proof.
  destruct a as [a|]; cbn; [|done]. destruct ((a <=? 0) || _); [done|].
  destruct n as [n|], units as [u|]; cbn; try destruct (n <=? 0); done.
Qed.

Lemma with_audio_pages units a p :
  with_audio_ms (with_pages units p) a =
  match with_audio_ms units a with Ret u => Ret (with_pages u p) | Raise e => Raise e end.
Proof.
  destruct a as [a|]; cbn; [|done]. destruct ((a <=? 0) || _); [done|]. destruct p as [p|], units as [u|]; done.
Qed.

Lemma counts_of_nonneg e n l : counts_of e n = Some l → Z.of_nat (length l) = n ∧ Forall (λ c, 0 <= c) l.
Proof.
  destruct e as [l'|]; cbn; [|done]. destruct (Z.eqb_spec (Z.of_nat (length l')) n) as [Hn|]; cbn; [|done].
  destruct (forallb _ l') eqn:E; [|done]. intros [= <-]. rewrite <- Hn. clear Hn. induction l' as [|[c|] l' IH]; cbn in *; [by split|..].
  - apply andb_true_iff in E as [Hc E]. destruct (IH E) as [H1 H2]. split; [lia|]. constructor; [lia|done].
  - done.
Qed.

(** Metering of an accepted extract item.  Whatever the adapter surfaced, the units are
    exactly the evidence: tokens and pages are the sums of well-formed lists aligned with the
    outputs and are never negative, images only a positive count of the adapter, audio the
    exact duration of the prepared audio; malformed or misaligned evidence leaves its
    dimension unset, and the order of the folds does not matter.  Audio that passed the
    checks never makes the metering fail, is at most twelve minutes, and its duration is the
    number of source samples, rounded up to a millisecond. *)
Theorem extract_units_exact {E} (tc pc : evidence) (hook : option (res E evidence)) (n : Z) (a : option PreparedAudio) :
  (∀ p, a = Some p → validate_prepared_audio p = Ret tt) →
  ∃ units, extract_units tc pc hook n (duration_ms <$> a) = Ret units ∧
    (let u := default no_units units in
     input_tokens u = sumZ id <$> counts_of tc n ∧ pages u = sumZ id <$> counts_of pc n ∧
     images u = (match per_item_image_counts hook 1 with Some (k :: _) => if 0 <? k then Some k else None | _ => None end) ∧
     audio_ms u = duration_ms <$> a ∧ pairs u = None ∧
     (∀ t, input_tokens u = Some t ∨ pages u = Some t → 0 <= t) ∧
     (∀ p, a = Some p → 0 < duration_ms p <= MAX_AUDIO_DURATION_MS ∧
        (duration_ms p - 1) * source_sample_rate p < source_sample_count p * 1000 <= duration_ms p * source_sample_rate p)) ∧
    (units = None ↔ counts_of tc n = None ∧ counts_of pc n = None ∧ a = None ∧
       images (default no_units units) = None).
Proof.
  intros Ha.
  assert (∀ p, a = Some p → 0 < duration_ms p <= MAX_AUDIO_DURATION_MS ∧
    (duration_ms p - 1) * source_sample_rate p < source_sample_count p * 1000 <= duration_ms p * source_sample_rate p) as Haud.
  { intros p Hp. specialize (Ha p Hp). unfold validate_prepared_audio in Ha. split_ifs_in Ha; try done.
    unfold MIN_AUDIO_SAMPLE_RATE, MAX_AUDIO_SAMPLE_RATE in *.
    split; [lia|]. pose proof (Z.div_mod (source_sample_count p * 1000 + source_sample_rate p - 1) (source_sample_rate p)).
    pose proof (Z.mod_pos_bound (source_sample_count p * 1000 + source_sample_rate p - 1) (source_sample_rate p)). nia. }
  assert (∀ e l, counts_of e n = Some l → 0 <= sumZ id l) as Hnn.
  { intros e l Hl. apply counts_of_nonneg in Hl as [_ Hl]. apply sumZ_nonneg. by rewrite <- Forall_forall. }
  unfold extract_units, units_from_token_counts, page_total.
  set (im := match per_item_image_counts hook 1 with Some (k :: _) => Some k | _ => None end).
  assert (match per_item_image_counts hook 1 with Some (k :: _) => if 0 <? k then Some k else None | _ => None end =
          match im with Some k => if 0 <? k then Some k else None | None => None end) as ->
    by (subst im; by destruct (per_item_image_counts hook 1) as [[|]|]).
  generalize im. clear im. intros im.
  assert (∀ p, a = Some p → (duration_ms p <=? 0) || (2 ^ 64 - 1 <? duration_ms p) = false) as Hok.
  { intros p Hp. destruct (Haud p Hp) as [Hd _]. unfold MAX_AUDIO_DURATION_MS in Hd. lia. }
  destruct a as [p|]; cbn [fmap option_fmap option_map with_audio_ms]; [rewrite (Hok p eq_refl)|].
  all: destruct (counts_of tc n) as [lt|] eqn:Et, (counts_of pc n) as [lp|] eqn:Ep, im as [k|]; cbn;
    try (destruct (Z.leb_spec k 0), (Z.ltb_spec 0 k); try lia); cbn; eexists; (split; [reflexivity|]); cbn;
    (split; [repeat split; try done; try (by apply Haud)|naive_solver]).
  all: try (intros t [Ht|Ht]; simplify_eq; eauto).
Qed.

(** Two seconds of CD audio, with token evidence for one item and two pages. *)
Definition ex_audio : PreparedAudio := mkAudio 64000 16000 32000 2000 44100 88200 2 "mp3".

Lemma extract_units_exact_witness :
  extract_units (E := error) (Some [Some 17]) (Some [Some 2]) None 1 (Some 2000) =
    Ret (Some (mkUnits (Some 17) (Some 2) None (Some 2000) None)) ∧
  (duration_ms ex_audio - 1) * source_sample_rate ex_audio < source_sample_count ex_audio * 1000.
Proof.
  split; [reflexivity|].
  destruct (extract_units_exact (E := error) (Some [Some 17]) (Some [Some 2]) None 1 (Some ex_audio)) as (u & _ & H & _).
  { intros p [= <-]. reflexivity. }
  destruct H as (_ & _ & _ & _ & _ & _ & H). exact (proj1 (proj2 (H ex_audio eq_refl))).
Defined.
End Metering.
