(* ===== verification/PyVal.v ===== *)
(** Python values the configuration and the request options are made of: truth, equality,
    dictionaries laid over each other, and loops that may raise.

    The values are the [pyval] of [Handlers.v].  The equality of Python is coarser than
    equality of the model: numbers compare across [bool], [int] and [float], and a
    dictionary compares without the order of its entries. *)

From S2P Require Import Prelude PyFloat PyDict Handlers.
From stdpp Require Import strings.
Import Handlers.
Local Open Scope Z_scope.

Module PyVal.

Definition dict := list (string * pyval).

(** [bool(v)] *)
Definition truthy (v : pyval) : bool :=
  match v with
  | VNone => false
  | VBool b => b
  | VInt z => negb (z =? 0)
  | VFloat x => negb (feq x f0)
  | VStr s => negb (bool_decide (s = ""%string))
  | VList l | VTuple l => negb (bool_decide (l = []))
  | VDict d => negb (bool_decide (d = []))
  end.

(** [isinstance(v, int) and not isinstance(v, bool)] *)
Definition is_int (v : pyval) : bool := match v with VInt _ => true | _ => false end.
Definition is_str (v : pyval) : bool := match v with VStr _ => true | _ => false end.
Definition is_list (v : pyval) : bool := match v with VList _ => true | _ => false end.

(** The number a value is in an order comparison; comparing anything else with a number
    raises [TypeError]. *)
Definition number (v : pyval) : option num :=
  match v with
  | VBool b => Some (NInt (if b then 1 else 0))
  | VInt z => Some (NInt z)
  | VFloat x => Some (NFlt x)
  | _ => None
  end.

(** [isinstance(v, int | float)] without the booleans *)
Definition real_number (v : pyval) : option num :=
  match v with VBool _ => None | _ => number v end.

(** A representative of the values equal to [v] ([==]); NaN aside. *)
Fixpoint canon (v : pyval) : pyval :=
  match v with
  | VList l => VList (List.map canon l)
  | VTuple l => VTuple (List.map canon l)
  | VDict d => VDict (stable_sort key_leb (List.map (λ '(k, w), (k, canon w)) d))
  | _ => key_norm v
  end.

(** [v == w] *)
Definition py_eq (v w : pyval) : bool := bool_decide (canon v = canon w).

Definition opt_eq (v w : option pyval) : bool :=
  match v, w with
  | None, None => true
  | Some a, Some b => py_eq a b
  | _, _ => false
  end.

(** [d.get(k)], [None] for an absent key and for a stored [None] *)
Definition get_val (k : string) (d : dict) : pyval := default VNone (dict_get k d).

(** [d | upd], [{**d, **upd}] *)
Definition dict_update {A} (d upd : list (string * A)) : list (string * A) :=
  foldl (λ d '(k, v), dict_set k v d) d upd.

(** ** Loops whose body may raise *)

Fixpoint res_iter {E A} (f : A → res E unit) (l : list A) : res E unit :=
  match l with
  | [] => Ret tt
  | x :: l' => match f x with Raise e => Raise e | Ret _ => res_iter f l' end
  end.

Fixpoint res_fold {E A B} (f : B → A → res E B) (acc : B) (l : list A) : res E B :=
  match l with
  | [] => Ret acc
  | x :: l' => match f acc x with Raise e => Raise e | Ret b => res_fold f b l' end
  end.

Fixpoint res_map {E A B} (f : A → res E B) (l : list A) : res E (list B) :=
  match l with
  | [] => Ret []
  | x :: l' => match f x with
               | Raise e => Raise e
               | Ret y => match res_map f l' with Raise e => Raise e | Ret ys => Ret (y :: ys) end
               end
  end.

(** ** Lemmas *)

Lemma res_iter_ok {E A} (f : A → res E unit) l :
  res_iter f l = Ret tt ↔ ∀ x, x ∈ l → f x = Ret tt.
Proof.
  induction l as [|x l IH]; cbn.
  - split; [|done]. intros _ x Hx. by apply elem_of_nil in Hx.
  - destruct (f x) as [[]|e] eqn:Ef.
    + rewrite IH. split; intros H y Hy; [|apply H; by right]. apply elem_of_cons in Hy as [->|Hy]; auto.
    + split; [done|]. intros H. rewrite H in Ef by left. done.
Qed.

Lemma res_map_ok {E A B} (f : A → res E B) l ys :
  res_map f l = Ret ys ↔ Forall2 (λ x y, f x = Ret y) l ys.
Proof.
  revert ys. induction l as [|x l IH]; intros ys; cbn.
  - split; [intros [= <-]; constructor|]. by intros ->%Forall2_nil_inv_l.
  - destruct (f x) as [y|e] eqn:Ef.
    + destruct (res_map f l) as [zs|e] eqn:Em.
      * split.
        -- intros [= <-]. constructor; [done|]. by apply IH.
        -- intros (y' & ys' & Hy & Hys & ->)%Forall2_cons_inv_l. apply IH in Hys. congruence.
      * split; [done|]. intros (y' & ys' & Hy & Hys & ->)%Forall2_cons_inv_l. apply IH in Hys. congruence.
    + split; [done|]. intros (y' & ys' & Hy & Hys & ->)%Forall2_cons_inv_l. congruence.
Qed.

Lemma dict_update_wf {A} (d upd : list (string * A)) : dict_wf d → dict_wf (dict_update d upd).
Proof. revert d. induction upd as [|[k v] upd IH]; intros d Hd; cbn; [done|]. apply IH. by apply dict_set_wf. Qed.

(** What a key holds in [d | upd]: the entry of [upd] if there is one. *)
Lemma dict_get_update {A} (d upd : list (string * A)) k :
  dict_wf upd → dict_get k (dict_update d upd) = match dict_get k upd with Some v => Some v | None => dict_get k d end.
Proof.
  revert d. induction upd as [|[k' v] upd IH]; intros d Hwf; [done|].
  change (dict_update d ((k', v) :: upd)) with (dict_update (dict_set k' v d) upd). cbn [dict_get].
  unfold dict_wf in Hwf. rewrite dict_keys_cons in Hwf. apply NoDup_cons in Hwf as [Hk Hwf].
  rewrite IH by done. rewrite dict_get_set.
  destruct (decide (k = k')) as [E0|Hne], (decide (k' = k)); try congruence; subst.
  destruct (dict_get k' upd) eqn:E; [|done]. exfalso. apply Hk. apply dict_get_is_Some. eauto.
Qed.

Lemma py_eq_refl v : py_eq v v = true.
Proof. unfold py_eq. by apply bool_decide_eq_true. Qed.

Lemma py_eq_true v w : py_eq v w = true ↔ canon v = canon w.
Proof. apply bool_decide_eq_true. Qed.

Lemma py_eq_sym v w : py_eq v w = py_eq w v.
Proof. unfold py_eq. apply bool_decide_ext. split; congruence. Qed.

(** Nothing but the string itself equals a string. *)
Lemma py_eq_str s v : py_eq (VStr s) v = true ↔ v = VStr s.
Proof.
  rewrite py_eq_true. split; [|by intros ->]. destruct v as [| | |x| | | |]; cbn; try congruence.
  destruct (ftrunc x) as [z|]; [destruct (fcmpZ x z) as [[]|]|]; congruence.
Qed.
End PyVal.
