(* ===== verification/ModelConfig.v ===== *)
(** Model configuration: [config/model.py] and the declaration half of
    [config/package_artifacts.py].

    A model declares profiles; a profile may extend one other profile.  Loading a
    configuration runs the field validators and then the validators of the whole model in
    the order the class declares them; [validate_config] is that sequence and stops at the
    first error (Pydantic reports the errors of all fields together, the model the first).
    An error is named after its [raise] and carries the values its message is made of.

    Field types are Pydantic's business: an [int] field is a [Z] here.  Fields no validator
    and no resolution step reads ([hf_tokenizer_dependencies], the capability flags) are
    left out. *)

From Stdlib Require Import Ascii.
From stdpp Require Import strings.
From S2P Require Import Prelude PyFloat PyDict PyStr Handlers PyVal.
Import Handlers PyVal.
Local Open Scope Z_scope.
Local Open Scope py_scope.

Module ModelConfig.

Inductive cfg_error :=
  | UnsupportedTemplateKeys (keys : list string)
  | ThinkingNotBool
  | GuardianNotObject
  | UnsupportedGuardianKeys (keys : list string)
  | BadRiskName
  | BadPrewarmValue (name kind : string)
  | LoraUnknownKeys (served : string) (keys : list string)
  | LoraBadId (served : string) (id : pyval)
  | LoraMovingRevision (served : string) (revision : pyval)
  | LoraMappingInList
  | DraftWithoutModel
  | DraftMovingRevision (revision : pyval)
  | OutputCapNotPositive
  | BadPool
  | PackageBackedWithWeights
  | NoWeightSource
  | LoraTwoRevisions (id : string) (first second : pyval) (profile : string)
  | DraftTwoRevisions (id : string) (first second : pyval) (profile : string)
  | NoProfiles
  | GrammarProfileUndefined (grammar_profile : string)
  | GrammarProfileIsDefault
  | GrammarProfileChained (grammar_profile : string)
  | ProfileGrammarNoTask (name : string)
  | DefaultHasGrammarProfile
  | ProfileGrammarUndefined (name grammar_profile : string)
  | ProfileGrammarNotSibling (name grammar_profile : string)
  | ProfileGrammarChained (name grammar_profile : string)
  | TemplateWithoutGenerate (name : string)
  | OutputCapWithoutGenerate (name : string)
  | ExtendsUnknown (name parent : string)
  | ExtendsChained (name parent grandparent : string)
  | AdapterPathMissing (name : string)
  | BatchTokensMissing (name : string)
  | GrammarTargetSpeculates (grammar_profile : string)
  | GrammarTwinIncompatible (name grammar_profile : string)
  | BudgetMissing (name : string)
  | BudgetNotPositive (name : string) (budget : Z)
  | OutputCapTooLarge (name : string) (cap : Z)
  | ProfileNotFound (name : string) (available : list string)
  | ResolvedBatchTokensMissing (name : string)
  | ResolvedAdapterPathMissing (name : string)
  | ArtifactRootDeclared
  | ArtifactModeRequired
  | ArtifactModeUnknown
  | ArtifactManifestUnexpected (mode : string)
  | ArtifactManifestPathMissing
  | ArtifactManifestPathRelative
  | ArtifactBadSha
  | ArtifactsNotPackageBacked
  | ArtifactsDiffer
  | KeyError (key : string)        (* not a [ValueError]: an index into [profiles] *)
  | TypeError                      (* an order comparison with a value that is no number *)
  | NumberError.                   (* [int()] of an infinity or NaN *)

Definition cfg_res (A : Type) : Type := res cfg_error A.

Definition check (ok : bool) (e : cfg_error) : cfg_res unit := if ok then Ret tt else Raise e.

(** ** Data *)

Record AdapterOptions := mkOptions { loadtime : dict; runtime : dict }.

Record ProfileAdaptiveBatching := mkAdaptive {
  target_p50_ms : option float;
  calibration_multiplier : option float;
  min_target_p50_ms : option float;
  max_target_p50_ms : option float;
  min_wait_ms : option float;
  max_wait_ms : option float;
  gain : option float;
  integral_gain : option float;
}.

Record ProfileConfig := mkProfile {
  extends : option string;
  max_batch_tokens : option Z;
  compute_precision : option string;
  adapter_path : option string;
  adapter_options : AdapterOptions;
  adaptive_batching : option ProfileAdaptiveBatching;
  kv_budget_tokens : option Z;
  admission_enabled : option bool;
  max_output_tokens : option Z;
  chat_template_kwargs : option dict;
  grammar_profile : option string;
}.

Record ResolvedProfile := mkResolved {
  r_max_batch_tokens : Z;
  r_compute_precision : option string;
  r_adapter_path : string;
  r_loadtime : dict;
  r_runtime : dict;
  r_adaptive_batching : option ProfileAdaptiveBatching;
  r_kv_budget_tokens : option Z;
  r_admission_enabled : option bool;
  r_max_output_tokens : option Z;
  r_chat_template_kwargs : option dict;
  r_grammar_profile : option string;
}.

Record PrewarmGrammar := mkPrewarm { pw_name : string; pw_kind : string; pw_value : pyval }.

Record GenerateTask := mkGenerate {
  context_length : Z;
  g_max_output_tokens : Z;
  g_chat_template_kwargs : dict;
  prewarm_grammars : list PrewarmGrammar;
  g_grammar_profile : option string;
}.

(** [dense], [sparse], [multivector]: the dimension of the declared outputs *)
Record EncodeTask := mkEncodeTask { dense_dim : option Z; sparse_dim : option Z; multivector_dim : option Z }.

Record Tasks := mkTasks {
  encode : option EncodeTask;
  score : bool;
  extract : bool;
  generate : option GenerateTask;
}.

Record ModelConfig := mkConfig {
  sie_id : string;
  hf_id : option string;
  hf_revision : option string;
  weights_path : option string;
  package_backed : bool;
  pool : option string;
  input_image : bool;               (* [inputs.image] *)
  tasks : Tasks;
  max_sequence_length : option Z;
  profiles : list (string * ProfileConfig);
}.

(** ** Field validators *)

Definition unsupported_keys (d : dict) (allowed : list string) : list string :=
  filter (λ k, k ∉ allowed) (dict_keys d).

(** [validate_chat_template_kwargs] *)
Definition validate_chat_template_kwargs (value : option dict) : cfg_res (option dict) :=
  match value with
  | None => Ret None
  | Some d =>
      match unsupported_keys d ["enable_thinking"; "guardian_config"]%string with
      | (_ :: _) as ks => Raise (UnsupportedTemplateKeys (sorted_strings ks))
      | [] =>
          let* _ := match dict_get "enable_thinking"%string d with
                    | None | Some (VBool _) => Ret tt
                    | Some _ => Raise ThinkingNotBool
                    end in
          match dict_get "guardian_config"%string d with
          | None => Ret value
          | Some (VDict g) =>
              match unsupported_keys g ["risk_name"]%string with
              | (_ :: _) as ks => Raise (UnsupportedGuardianKeys (sorted_strings ks))
              | [] =>
                  match dict_get "risk_name"%string g with
                  | Some (VStr s) =>
                      if bool_decide (s = ""%string) || (128 <? Z.of_nat (String.length s)) then Raise BadRiskName
                      else Ret value
                  | _ => Raise BadRiskName
                  end
              end
          | Some _ => Raise GuardianNotObject
          end
      end
  end.

(** [PrewarmGrammar.validate_value_shape] *)
Definition validate_value_shape (g : PrewarmGrammar) : cfg_res unit :=
  let is_dict := match pw_value g with VDict _ => true | _ => false end in
  if bool_decide (pw_kind g = "json_schema"%string) && negb is_dict then Raise (BadPrewarmValue (pw_name g) (pw_kind g))
  else if bool_decide (pw_kind g = "regex"%string) && negb (is_str (pw_value g))
  then Raise (BadPrewarmValue (pw_name g) (pw_kind g))
  else if bool_decide (pw_kind g = "ebnf"%string) && negb (is_str (pw_value g))
  then Raise (BadPrewarmValue (pw_name g) (pw_kind g))
  else Ret tt.

(** [[0-9a-f]] *)
Definition hex_digit (c : ascii) : bool :=
  let n := nat_of_ascii c in ((48 <=? n) && (n <=? 57))%nat || ((97 <=? n) && (n <=? 102))%nat.

Definition newline : string := String (ascii_of_nat 10) EmptyString.

(** [is_immutable_revision]: [re.match] with [^[0-9a-f]{40}$].  In Python [$] also matches
    before a newline that ends the string. *)
Definition is_immutable_revision (revision : option string) : bool :=
  match revision with
  | None => false
  | Some s =>
      let rest := String.substring 40 (String.length s - 40) s in
      (40 <=? String.length s)%nat && forallb hex_digit (String.list_ascii_of_string (String.substring 0 40 s)) &&
      (bool_decide (rest = ""%string) || bool_decide (rest = newline))
  end.

(** [AdapterOptions.validate_lora_paths]: one entry of the dict form *)
Definition check_lora_ref (entry : string * pyval) : cfg_res unit :=
  let '(served, value) := entry in
  match value with
  | VDict d =>
      match unsupported_keys d ["id"; "revision"]%string with
      | (_ :: _) as ks => Raise (LoraUnknownKeys served (sorted_strings ks))
      | [] =>
          let* _ := match get_val "id" d with
                    | VStr s => check (negb (bool_decide (s = ""%string))) (LoraBadId served (VStr s))
                    | v => Raise (LoraBadId served v)
                    end in
          match get_val "revision" d with
          | VNone => Ret tt
          | VStr r => check (is_immutable_revision (Some r)) (LoraMovingRevision served (VStr r))
          | v => Raise (LoraMovingRevision served v)
          end
      end
  | _ => Ret tt
  end.

Definition validate_lora_paths (o : AdapterOptions) : cfg_res unit :=
  match get_val "lora_paths" (loadtime o) with
  | VDict d => res_iter check_lora_ref d
  | VList l | VTuple l => res_iter (λ v, match v with VDict _ => Raise LoraMappingInList | _ => Ret tt end) l
  | _ => Ret tt
  end.

(** [AdapterOptions.validate_speculative_draft_model] *)
Definition validate_speculative_draft_model (o : AdapterOptions) : cfg_res unit :=
  match get_val "speculative" (loadtime o) with
  | VDict d =>
      match get_val "draft_model_revision" d with
      | VNone => Ret tt
      | revision =>
          let* _ := match get_val "draft_model" d with
                    | VStr s => check (negb (bool_decide (s = ""%string))) DraftWithoutModel
                    | _ => Raise DraftWithoutModel
                    end in
          match revision with
          | VStr r => check (is_immutable_revision (Some r)) (DraftMovingRevision revision)
          | _ => Raise (DraftMovingRevision revision)
          end
      end
  | _ => Ret tt
  end.

(** The field validators of a profile *)
Definition check_profile_fields (p : ProfileConfig) : cfg_res unit :=
  let* _ := validate_lora_paths (adapter_options p) in
  let* _ := validate_speculative_draft_model (adapter_options p) in
  let* _ := match max_output_tokens p with Some n => check (0 <? n) OutputCapNotPositive | None => Ret tt end in
  let* _ := validate_chat_template_kwargs (chat_template_kwargs p) in
  Ret tt.

Definition check_generate_fields (g : GenerateTask) : cfg_res unit :=
  let* _ := validate_chat_template_kwargs (Some (g_chat_template_kwargs g)) in
  res_iter validate_value_shape (prewarm_grammars g).

(** ** Validators of the model *)

Definition pool_char (c : ascii) : bool :=
  let n := nat_of_ascii c in
  ((48 <=? n) && (n <=? 57))%nat || ((65 <=? n) && (n <=? 90))%nat || ((97 <=? n) && (n <=? 122))%nat ||
  (n =? 95)%nat || (n =? 45)%nat.

(** [validate_pool_name]: what it stores in [pool] *)
Definition validate_pool_name (p : option string) : cfg_res (option string) :=
  match p with
  | None => Ret None
  | Some raw =>
      let pool := lower (strip raw) in
      if bool_decide (pool = ""%string) then Ret None
      else if (128 <? Z.of_nat (String.length pool)) || bool_decide (pool = "_default"%string) ||
              negb (forallb pool_char (String.list_ascii_of_string pool))
      then Raise BadPool
      else Ret (Some pool)
  end.

(** [validate_weight_source] *)
Definition validate_weight_source (c : ModelConfig) : cfg_res unit :=
  let set {A} (o : option A) := bool_decide (is_Some o) in
  if package_backed c then
    check (negb (set (hf_id c) || set (weights_path c) || set (hf_revision c))) PackageBackedWithWeights
  else check (set (hf_id c) || set (weights_path c)) NoWeightSource.

Section lora.
(** Python's [str()] of a value that is not a string *)
Variable repr : pyval → string.

Definition py_str (v : pyval) : string := match v with VStr s => s | _ => repr v end.

(** [lora_entry_ref] *)
Definition lora_entry_ref (value : pyval) : string * pyval :=
  match value with
  | VDict d => (py_str (get_val "id" d), get_val "revision" d)
  | _ => (py_str value, VNone)
  end.

(** The references one profile makes *)
Definition lora_entries (p : ProfileConfig) : list (string * pyval) :=
  match get_val "lora_paths" (loadtime (adapter_options p)) with
  | VDict d => lora_entry_ref <$> filter (λ v, truthy v) (dict_values d)
  | VList l | VTuple l => (λ v, (py_str v, VNone)) <$> filter (λ v, truthy v) l
  | _ => []
  end ++
  (let lora_id := get_val "lora_id" (runtime (adapter_options p)) in
   if truthy lora_id then [(py_str lora_id, VNone)] else []).

(** One turn of the inner loop of [lora_revisions] *)
Definition pin_lora (name : string) (refs : dict) (entry : string * pyval) : cfg_res dict :=
  let '(ref_id, revision) := entry in
  match dict_get ref_id refs with
  | None => Ret (dict_set ref_id revision refs)
  | Some seen =>
      match revision with
      | VNone => Ret refs
      | _ =>
          match seen with
          | VNone => Ret (dict_set ref_id revision refs)
          | _ => if py_eq seen revision then Ret refs else Raise (LoraTwoRevisions ref_id seen revision name)
          end
      end
  end.

(** [lora_revisions] *)
Definition lora_revisions (c : ModelConfig) : cfg_res dict :=
  res_fold (λ refs '(name, p), res_fold (pin_lora name) refs (lora_entries p)) [] (profiles c).

(** One turn of the loop of [speculative_draft_revisions] *)
Definition pin_draft (refs : dict) (entry : string * ProfileConfig) : cfg_res dict :=
  let '(name, p) := entry in
  match get_val "speculative" (loadtime (adapter_options p)) with
  | VDict speculative =>
      if negb (truthy (get_val "enabled" speculative)) then Ret refs
      else match get_val "draft_model" speculative with
           | VStr draft_model =>
               if bool_decide (draft_model = ""%string) then Ret refs
               else
                 let revision := get_val "draft_model_revision" speculative in
                 match dict_get draft_model refs with
                 | None | Some VNone => Ret (dict_set draft_model revision refs)
                 | Some seen =>
                     match revision with
                     | VNone => Ret refs
                     | _ => if py_eq seen revision then Ret refs
                            else Raise (DraftTwoRevisions draft_model seen revision name)
                     end
                 end
           | _ => Ret refs
           end
  | _ => Ret refs
  end.

(** [speculative_draft_revisions] *)
Definition speculative_draft_revisions (c : ModelConfig) : cfg_res dict := res_fold pin_draft [] (profiles c).
End lora.

(** [_merge_profile_adaptive_batching] *)
Definition merge_profile_adaptive_batching (parent child : option ProfileAdaptiveBatching) : option ProfileAdaptiveBatching :=
  match parent, child with
  | None, None => None
  | None, Some _ => child
  | Some _, None => parent
  | Some p, Some c =>
      let pick {A} (f : ProfileAdaptiveBatching → option A) := match f c with Some x => Some x | None => f p end in
      Some (mkAdaptive (pick target_p50_ms) (pick calibration_multiplier) (pick min_target_p50_ms)
              (pick max_target_p50_ms) (pick min_wait_ms) (pick max_wait_ms) (pick gain) (pick integral_gain))
  end.

(** [child if child is not None else parent] *)
Definition over {A} (child parent : option A) : option A := match child with Some _ => child | None => parent end.

(** [_resolve_profile_uncached] *)
Definition resolve_profile_uncached (c : ModelConfig) (name : string) : cfg_res ResolvedProfile :=
  match dict_get name (profiles c) with
  | None => Raise (ProfileNotFound name (dict_keys (profiles c)))
  | Some p =>
      match extends p with
      | None =>
          match adapter_path p, max_batch_tokens p with
          | None, _ => Raise (AdapterPathMissing name)
          | _, None => Raise (BatchTokensMissing name)
          | Some path, Some tokens =>
              Ret (mkResolved tokens (compute_precision p) path (loadtime (adapter_options p)) (runtime (adapter_options p))
                     (adaptive_batching p) (kv_budget_tokens p) (admission_enabled p) (max_output_tokens p)
                     (chat_template_kwargs p) (grammar_profile p))
          end
      | Some parent_name =>
          match dict_get parent_name (profiles c) with
          | None => Raise (KeyError parent_name)
          | Some parent =>
              let loadtime' := if bool_decide (loadtime (adapter_options p) = []) then loadtime (adapter_options parent)
                               else loadtime (adapter_options p) in
              let runtime' := if bool_decide (runtime (adapter_options p) = []) then runtime (adapter_options parent)
                              else runtime (adapter_options p) in
              match over (max_batch_tokens p) (max_batch_tokens parent), over (adapter_path p) (adapter_path parent) with
              | None, _ => Raise (ResolvedBatchTokensMissing name)
              | _, None => Raise (ResolvedAdapterPathMissing name)
              | Some tokens, Some path =>
                  Ret (mkResolved tokens (over (compute_precision p) (compute_precision parent)) path loadtime' runtime'
                         (merge_profile_adaptive_batching (adaptive_batching parent) (adaptive_batching p))
                         (over (kv_budget_tokens p) (kv_budget_tokens parent))
                         (over (admission_enabled p) (admission_enabled parent))
                         (over (max_output_tokens p) (max_output_tokens parent))
                         (over (chat_template_kwargs p) (chat_template_kwargs parent)) (grammar_profile p))
              end
          end
      end
  end.

(** [resolve_profile]: with [_resolved_cache] *)
Definition resolve_profile (c : ModelConfig) (cache : list (string * ResolvedProfile)) (name : string) :
    list (string * ResolvedProfile) * cfg_res ResolvedProfile :=
  match dict_get name cache with
  | Some r => (cache, Ret r)
  | None =>
      match resolve_profile_uncached c name with
      | Ret r => (dict_set name r cache, Ret r)
      | Raise e => (cache, Raise e)
      end
  end.

(** *** [validate_profiles] *)

(** The first block: [tasks.generate.grammar_profile] *)
Definition check_task_grammar (c : ModelConfig) : cfg_res unit :=
  match generate (tasks c) with
  | Some g =>
      match g_grammar_profile g with
      | Some gp =>
          match dict_get gp (profiles c) with
          | None => Raise (GrammarProfileUndefined gp)
          | Some target =>
              if bool_decide (gp = "default"%string) then Raise GrammarProfileIsDefault
              else match grammar_profile target with
                   | Some _ => Raise (GrammarProfileChained gp)
                   | None => Ret tt
                   end
          end
      | None => Ret tt
      end
  | None => Ret tt
  end.

(** A profile's own [grammar_profile] *)
Definition check_profile_grammar (c : ModelConfig) (name : string) (p : ProfileConfig) : cfg_res unit :=
  match grammar_profile p with
  | None => Ret tt
  | Some gp =>
      match generate (tasks c) with
      | None => Raise (ProfileGrammarNoTask name)
      | Some _ =>
          if bool_decide (name = "default"%string) then Raise DefaultHasGrammarProfile
          else match dict_get gp (profiles c) with
               | None => Raise (ProfileGrammarUndefined name gp)
               | Some target =>
                   if bool_decide (gp = "default"%string) || bool_decide (gp = name) then Raise (ProfileGrammarNotSibling name gp)
                   else match grammar_profile target with
                        | Some _ => Raise (ProfileGrammarChained name gp)
                        | None => Ret tt
                        end
               end
      end
  end.

(** The body of the first loop *)
Definition check_profile (c : ModelConfig) (entry : string * ProfileConfig) : cfg_res unit :=
  let '(name, p) := entry in
  let* _ := check_profile_grammar c name p in
  let* _ := match chat_template_kwargs p, generate (tasks c) with
            | Some _, None => Raise (TemplateWithoutGenerate name)
            | _, _ => Ret tt
            end in
  let* _ := match max_output_tokens p, generate (tasks c) with
            | Some _, None => Raise (OutputCapWithoutGenerate name)
            | _, _ => Ret tt
            end in
  match extends p with
  | Some parent_name =>
      match dict_get parent_name (profiles c) with
      | None => Raise (ExtendsUnknown name parent_name)
      | Some parent =>
          match extends parent with
          | Some grandparent => Raise (ExtendsChained name parent_name grandparent)
          | None => Ret tt
          end
      end
  | None =>
      match adapter_path p, max_batch_tokens p with
      | None, _ => Raise (AdapterPathMissing name)
      | _, None => Raise (BatchTokensMissing name)
      | _, _ => Ret tt
      end
  end.

(** The target of [tasks.generate.grammar_profile] must not speculate. *)
Definition check_task_grammar_target (c : ModelConfig) : cfg_res unit :=
  match generate (tasks c) with
  | Some g =>
      match g_grammar_profile g with
      | Some gp =>
          let* target := resolve_profile_uncached c gp in
          match get_val "speculative" (r_loadtime target) with
          | VNone => Ret tt
          | VDict d => check (bool_decide (dict_get "enabled"%string d = Some (VBool false))) (GrammarTargetSpeculates gp)
          | _ => Raise (GrammarTargetSpeculates gp)
          end
      | None => Ret tt
      end
  | None => Ret tt
  end.

Definition speculation_off : pyval := VDict [("enabled"%string, VBool false)].

(** [compatible] of the second loop *)
Definition compatible (source target : ResolvedProfile) : bool :=
  bool_decide (r_adapter_path source = r_adapter_path target) &&
  bool_decide (r_max_batch_tokens source = r_max_batch_tokens target) &&
  bool_decide (r_compute_precision source = r_compute_precision target) &&
  bool_decide (r_kv_budget_tokens source = r_kv_budget_tokens target) &&
  bool_decide (r_max_output_tokens source = r_max_output_tokens target) &&
  opt_eq (VDict <$> r_chat_template_kwargs source) (VDict <$> r_chat_template_kwargs target) &&
  py_eq (get_val "speculative" (r_loadtime target)) speculation_off &&
  py_eq (VDict (dict_del "speculative"%string (r_loadtime source))) (VDict (dict_del "speculative"%string (r_loadtime target))).

(** The body of the second loop *)
Definition check_grammar_twin (c : ModelConfig) (entry : string * ProfileConfig) : cfg_res unit :=
  let '(name, p) := entry in
  match grammar_profile p with
  | None => Ret tt
  | Some gp =>
      let* source := resolve_profile_uncached c name in
      let* target := resolve_profile_uncached c gp in
      check (compatible source target) (GrammarTwinIncompatible name gp)
  end.

(** [_GPU_MEMORY_GB_BY_PROFILE_HINT], [_gpu_memory_gb_for_profile] *)
Definition GPU_MEMORY_HINTS : list (string * Z) :=
  [("h200", 141); ("rtx-pro-6000", 96); ("h100", 80); ("a100-80", 80); ("a100-40", 40); ("a100", 40); ("l40", 48);
   ("a10", 24); ("l4", 24); ("t4", 16)]%string.

Definition gpu_memory_gb_for_profile (profile_name : string) : Z :=
  match find (λ '(hint, _), str_in hint (lower profile_name)) GPU_MEMORY_HINTS with
  | Some (_, gb) => gb
  | None => 24
  end.

(** [_coarse_kv_bytes_per_token_for] *)
Definition coarse_kv_bytes_per_token_for (id : string) : option Z :=
  if str_in "qwen3-4b" (lower id) then Some 160000 else None.

(** [_maybe_warn_oversubscribed_budget]: whether it warns *)
Definition warns_oversubscribed (id profile_name : string) (effective_budget : Z) (p : ProfileConfig)
    (parent : option ProfileConfig) : cfg_res bool :=
  match coarse_kv_bytes_per_token_for id with
  | None => Ret false
  | Some kv_bytes_per_token =>
      let loadtime' := if bool_decide (loadtime (adapter_options p) = [])
                       then match parent with Some q => loadtime (adapter_options q) | None => [] end
                       else loadtime (adapter_options p) in
      match number (get_val "mem_fraction_static" loadtime') with
      | None => Ret false
      | Some n =>
          let fraction := match n with NInt z => f_of_Z z | NFlt x => x end in
          let bytes := fmul (fmul fraction (f_of_Z (gpu_memory_gb_for_profile profile_name))) (f_of_Z (1024 ^ 3)) in
          match ftrunc (fdiv bytes (f_of_Z kv_bytes_per_token)) with
          | None => Raise NumberError
          | Some derivable_tokens => Ret (derivable_tokens <? effective_budget * 4)
          end
      end
  end.

(** The body of the last loop, on a generation model *)
Definition check_budget (c : ModelConfig) (g : GenerateTask) (entry : string * ProfileConfig) : cfg_res unit :=
  let '(name, p) := entry in
  let* parent := match extends p with
                 | None => Ret None
                 | Some q => match dict_get q (profiles c) with Some x => Ret (Some x) | None => Raise (KeyError q) end
                 end in
  match over (kv_budget_tokens p) (parent ≫= kv_budget_tokens) with
  | None => Raise (BudgetMissing name)
  | Some budget =>
      if budget <=? 0 then Raise (BudgetNotPositive name budget)
      else
        let* _ := warns_oversubscribed (sie_id c) name budget p parent in
        match over (max_output_tokens p) (parent ≫= max_output_tokens) with
        | None => Ret tt
        | Some cap =>
            let effective_loadtime := if bool_decide (loadtime (adapter_options p) = [])
                                      then match parent with Some q => loadtime (adapter_options q) | None => [] end
                                      else loadtime (adapter_options p) in
            let effective_context := default (VInt (context_length g)) (dict_get "max_seq_length"%string effective_loadtime) in
            match number effective_context with
            | None => Raise TypeError
            | Some n => check (negb (num_lt n (NInt cap))) (OutputCapTooLarge name cap)
            end
        end
  end.

Definition validate_profiles (c : ModelConfig) : cfg_res unit :=
  match profiles c with
  | [] => Raise NoProfiles
  | _ =>
      let* _ := check_task_grammar c in
      let* _ := res_iter (check_profile c) (profiles c) in
      let* _ := check_task_grammar_target c in
      let* _ := res_iter (check_grammar_twin c) (profiles c) in
      match generate (tasks c) with
      | None => Ret tt
      | Some g => res_iter (check_budget c g) (profiles c)
      end
  end.

(** *** Package artifacts *)

Inductive PackageArtifactMode := BUNDLED | LIVE | STAGED.

Record PackageArtifactDeclaration := mkDeclaration {
  mode : PackageArtifactMode;
  manifest_path : option string;
  manifest_sha256 : option string;
}.

#[export] Instance artifact_mode_eq_dec : EqDecision PackageArtifactMode.
Proof. solve_decision. Defined.
#[export] Instance declaration_eq_dec : EqDecision PackageArtifactDeclaration.
Proof. solve_decision. Defined.

Definition mode_of (s : string) : option PackageArtifactMode :=
  if bool_decide (s = "bundled"%string) then Some BUNDLED
  else if bool_decide (s = "live"%string) then Some LIVE
  else if bool_decide (s = "staged"%string) then Some STAGED else None.

(** [parse_package_artifact_declaration] *)
Definition parse_package_artifact_declaration (lt : dict) : cfg_res PackageArtifactDeclaration :=
  if dict_mem "package_artifact_root"%string lt then Raise ArtifactRootDeclared
  else
    match get_val "package_artifact_mode" lt with
    | VNone =>
        if dict_mem "package_artifact_manifest_path"%string lt || dict_mem "package_artifact_manifest_sha256"%string lt
        then Raise ArtifactModeRequired else Ret (mkDeclaration BUNDLED None None)
    | VStr s =>
        match mode_of s with
        | None => Raise ArtifactModeUnknown
        | Some STAGED =>
            match get_val "package_artifact_manifest_path" lt with
            | VStr path =>
                if bool_decide (path = ""%string) then Raise ArtifactManifestPathMissing
                else if negb (String.prefix "/" path) then Raise ArtifactManifestPathRelative
                else match get_val "package_artifact_manifest_sha256" lt with
                     | VStr sha =>
                         if (String.length sha =? 64)%nat && forallb hex_digit (String.list_ascii_of_string sha)
                         then Ret (mkDeclaration STAGED (Some path) (Some sha)) else Raise ArtifactBadSha
                     | _ => Raise ArtifactBadSha
                     end
            | _ => Raise ArtifactManifestPathMissing
            end
        | Some m =>
            match get_val "package_artifact_manifest_path" lt, get_val "package_artifact_manifest_sha256" lt with
            | VNone, VNone => Ret (mkDeclaration m None None)
            | _, _ => Raise (ArtifactManifestUnexpected s)
            end
        end
    | _ => Raise ArtifactModeUnknown
    end.

(** [has_package_artifact_declaration] *)
Definition has_package_artifact_declaration (lt : dict) : bool :=
  existsb (λ k, dict_mem k lt)
    ["package_artifact_mode"; "package_artifact_manifest_path"; "package_artifact_manifest_sha256"; "package_artifact_root"]%string.

(** [validate_package_artifacts] *)
Definition profile_declaration (c : ModelConfig) (name : string) : cfg_res PackageArtifactDeclaration :=
  let* r := resolve_profile_uncached c name in
  if negb (package_backed c) && has_package_artifact_declaration (r_loadtime r) then Raise ArtifactsNotPackageBacked
  else parse_package_artifact_declaration (r_loadtime r).

Definition validate_package_artifacts (c : ModelConfig) : cfg_res unit :=
  let* declarations := res_map (profile_declaration c) (dict_keys (profiles c)) in
  check (negb (package_backed c && negb (length (remove_dups declarations) =? 1)%nat)) ArtifactsDiffer.

(** *** The whole sequence *)

Definition with_pool (c : ModelConfig) (p : option string) : ModelConfig :=
  mkConfig (sie_id c) (hf_id c) (hf_revision c) (weights_path c) (package_backed c) p (input_image c) (tasks c)
    (max_sequence_length c) (profiles c).

Definition validate_config (repr : pyval → string) (c : ModelConfig) : cfg_res ModelConfig :=
  let* _ := match generate (tasks c) with Some g => check_generate_fields g | None => Ret tt end in
  let* _ := res_iter (λ e, check_profile_fields e.2) (profiles c) in
  let* p := validate_pool_name (pool c) in
  let* _ := validate_weight_source c in
  let* _ := lora_revisions repr c in
  let* _ := speculative_draft_revisions c in
  let* _ := validate_profiles c in
  let* _ := validate_package_artifacts c in
  Ret (with_pool c p).

(** [outputs], [dims] *)
Definition outputs (c : ModelConfig) : list string :=
  match encode (tasks c) with
  | Some e =>
      (if dense_dim e then ["dense"%string] else []) ++ (if sparse_dim e then ["sparse"%string] else []) ++
      (if multivector_dim e then ["multivector"%string] else [])
  | None => []
  end ++ (if score (tasks c) then ["score"%string] else []) ++ (if extract (tasks c) then ["json"%string] else []) ++
  (if generate (tasks c) then ["tokens"%string] else []).

Definition dims (c : ModelConfig) : list (string * Z) :=
  match encode (tasks c) with
  | Some e =>
      match dense_dim e with Some d => [("dense"%string, d)] | None => [] end ++
      match sparse_dim e with Some d => [("sparse"%string, d)] | None => [] end ++
      match multivector_dim e with Some d => [("multivector"%string, d)] | None => [] end
  | None => []
  end.

(** ** Reading the validators backwards *)

Ltac ok_bind H :=
  match type of H with
  | res_bind ?c _ = Ret _ =>
      let a := fresh "a" in let E := fresh "E" in
      destruct c as [a|] eqn:E; cbn [res_bind] in H; [|discriminate H]
  end.

Lemma check_ok b e u : check b e = Ret u → b = true.
Proof. by destruct b. Qed.

Lemma validate_config_ok repr c c' :
  validate_config repr c = Ret c' →
  profiles c' = profiles c ∧ tasks c' = tasks c ∧ package_backed c' = package_backed c ∧ sie_id c' = sie_id c ∧
  (∀ e, e ∈ profiles c → check_profile_fields e.2 = Ret tt) ∧
  validate_pool_name (pool c) = Ret (pool c') ∧
  (∃ refs, lora_revisions repr c = Ret refs) ∧ (∃ refs, speculative_draft_revisions c = Ret refs) ∧
  validate_profiles c = Ret tt ∧ validate_package_artifacts c = Ret tt.
Proof.
  unfold validate_config. intros H. repeat ok_bind H. injection H as <-. destruct a0, a5, a6.
  repeat split; eauto. by apply res_iter_ok.
Qed.

(** Resolution reads the profiles only. *)
Lemma resolve_same c c' name : profiles c' = profiles c → resolve_profile_uncached c' name = resolve_profile_uncached c name.
Proof. unfold resolve_profile_uncached. by intros ->. Qed.

Lemma validate_profiles_ok c :
  validate_profiles c = Ret tt →
  check_task_grammar c = Ret tt ∧ (∀ e, e ∈ profiles c → check_profile c e = Ret tt) ∧
  check_task_grammar_target c = Ret tt ∧ (∀ e, e ∈ profiles c → check_grammar_twin c e = Ret tt) ∧
  (∀ g e, generate (tasks c) = Some g → e ∈ profiles c → check_budget c g e = Ret tt).
Proof.
  unfold validate_profiles. destruct (profiles c) as [|e0 l] eqn:Ep; [done|]. rewrite <- Ep. clear Ep e0 l.
  intros H. repeat ok_bind H. destruct a, a0, a1, a2.
  repeat split; try done; try (by apply res_iter_ok).
  intros g e Hg He. rewrite Hg in H. by eapply res_iter_ok.
Qed.

(** A profile that passed the first loop resolves, and its parent has no parent. *)
Lemma check_profile_resolves c name p :
  dict_get name (profiles c) = Some p → (∀ e, e ∈ profiles c → check_profile c e = Ret tt) →
  ∃ r, resolve_profile_uncached c name = Ret r ∧ r_grammar_profile r = grammar_profile p ∧
    match extends p with
    | None => r_kv_budget_tokens r = kv_budget_tokens p ∧ r_max_output_tokens r = max_output_tokens p ∧
              r_loadtime r = loadtime (adapter_options p)
    | Some q => ∃ parent, dict_get q (profiles c) = Some parent ∧ extends parent = None ∧
        r_kv_budget_tokens r = over (kv_budget_tokens p) (kv_budget_tokens parent) ∧
        r_max_output_tokens r = over (max_output_tokens p) (max_output_tokens parent) ∧
        r_loadtime r = if bool_decide (loadtime (adapter_options p) = []) then loadtime (adapter_options parent)
                       else loadtime (adapter_options p)
    end.
Proof.
  intros Hp Hall. unfold resolve_profile_uncached. rewrite Hp.
  pose proof (Hall _ (dict_get_Some_elem _ _ _ Hp)) as H. unfold check_profile in H. repeat ok_bind H.
  destruct (extends p) as [q|].
  - destruct (dict_get q (profiles c)) as [parent|] eqn:Eq; [|done].
    destruct (extends parent) eqn:Epp; [done|].
    pose proof (Hall _ (dict_get_Some_elem _ _ _ Eq)) as H'. unfold check_profile in H'. repeat ok_bind H'.
    rewrite Epp in H'. destruct (adapter_path parent) eqn:Ea; [|done].
    destruct (max_batch_tokens parent) eqn:Em; [|done].
    destruct (max_batch_tokens p), (adapter_path p); cbn; eauto 12.
  - destruct (adapter_path p); [|done]. destruct (max_batch_tokens p); [|done]. cbn. eauto 8.
Qed.

(** What the budget loop establishes of the resolved profile *)
Lemma check_budget_resolved c g name p r :
  dict_get name (profiles c) = Some p → (∀ e, e ∈ profiles c → check_profile c e = Ret tt) →
  resolve_profile_uncached c name = Ret r → check_budget c g (name, p) = Ret tt →
  ∃ b, r_kv_budget_tokens r = Some b ∧ 0 < b ∧
    ∀ cap, r_max_output_tokens r = Some cap →
      ∃ n, number (default (VInt (context_length g)) (dict_get "max_seq_length"%string (r_loadtime r))) = Some n ∧
           num_lt n (NInt cap) = false.
Proof.
  intros Hp Hall Hr Hb. destruct (check_profile_resolves c name p Hp Hall) as (r' & Hr' & _ & Hx).
  rewrite Hr in Hr'. injection Hr' as <-. unfold check_budget in Hb.
  destruct (extends p) as [q|].
  - destruct Hx as (parent & Hq & _ & Hk & Ho & Hl). rewrite Hq in Hb. cbn [res_bind mbind option_bind] in Hb.
    rewrite <- Hk in Hb. destruct (r_kv_budget_tokens r) as [b|]; [|done]. destruct (b <=? 0) eqn:Eb; [done|].
    ok_bind Hb. exists b. split; [done|]. split; [lia|]. intros cap Hc. rewrite <- Ho, Hc, <- Hl in Hb.
    destruct (number _) as [n|]; [|done]. exists n. split; [done|]. apply check_ok in Hb. by apply negb_true_iff in Hb.
  - destruct Hx as (Hk & Ho & Hl). cbn [res_bind mbind option_bind] in Hb.
    replace (over (kv_budget_tokens p) None) with (kv_budget_tokens p) in Hb by by destruct (kv_budget_tokens p).
    replace (over (max_output_tokens p) None) with (max_output_tokens p) in Hb by by destruct (max_output_tokens p).
    rewrite <- Hk, <- Ho, <- Hl in Hb. destruct (r_kv_budget_tokens r) as [b|]; [|done].
    destruct (b <=? 0) eqn:Eb; [done|]. ok_bind Hb. exists b. split; [done|]. split; [lia|]. intros cap Hc. rewrite Hc in Hb.
    replace (if bool_decide (r_loadtime r = []) then [] else r_loadtime r) with (r_loadtime r) in Hb
      by by case_bool_decide as El; [rewrite El|].
    destruct (number _) as [n|]; [|done]. exists n. split; [done|]. apply check_ok in Hb. by apply negb_true_iff in Hb.
Qed.

(** The context a profile declares, with which its output cap is compared *)
Definition declared_context (g : GenerateTask) (r : ResolvedProfile) : pyval :=
  default (VInt (context_length g)) (dict_get "max_seq_length"%string (r_loadtime r)).

(** [_build_adapter_kwargs(...)["max_seq_length"]]: what the engine is launched with *)
Definition launch_context (c : ModelConfig) (r : ResolvedProfile) : pyval :=
  default (match max_sequence_length c with Some z => VInt z | None => VNone end)
    (dict_get "max_seq_length"%string (r_loadtime r)).

(** The profile a constrained request is rerouted to speculates no more. *)
Definition not_speculating (r : ResolvedProfile) : bool :=
  match get_val "speculative" (r_loadtime r) with
  | VNone => true
  | VDict d => negb (truthy (get_val "enabled" d))
  | _ => false
  end.

Lemma speculation_off_spec v :
  py_eq v speculation_off = true → ∃ x, v = VDict [("enabled"%string, x)] ∧ truthy x = false.
Proof.
  unfold speculation_off. rewrite py_eq_true. destruct v as [|b|z|x|s|l|l|d]; cbn; try congruence.
  { destruct (ftrunc x) as [z|]; [destruct (fcmpZ x z) as [[]|]|]; congruence. }
  intros [= H]. assert (length d = 1%nat) as Hl.
  { apply (f_equal length) in H. rewrite length_stable_sort, length_map in H. done. }
  destruct d as [|[k x] [|]]; try done. cbn in H. injection H as -> Hx. exists x. split; [done|].
  destruct x as [|b|z|x|s|l|l|d]; cbn in *; try congruence.
  - by destruct b.
  - by injection Hx as ->.
  - destruct (ftrunc x) as [z|] eqn:Et; [|congruence]. destruct (fcmpZ x z) as [[]|] eqn:Ec; try congruence.
    injection Hx as ->. destruct x as [s|s| |s m e]; try done. cbn in Ec.
    destruct (0 <=? e) eqn:Ee; injection Ec as Ec; apply Z.compare_eq_iff in Ec; destruct s; cbn in Ec; lia.
Qed.

Lemma output_cap_positive c name p r cap :
  dict_get name (profiles c) = Some p → (∀ e, e ∈ profiles c → check_profile c e = Ret tt) →
  (∀ e, e ∈ profiles c → check_profile_fields e.2 = Ret tt) →
  resolve_profile_uncached c name = Ret r → r_max_output_tokens r = Some cap → 0 < cap.
Proof.
  intros Hp Hall Hf Hr Hc. destruct (check_profile_resolves c name p Hp Hall) as (r' & Hr' & _ & Hx).
  rewrite Hr in Hr'. injection Hr' as <-.
  assert (∀ n q, dict_get n (profiles c) = Some q → max_output_tokens q = Some cap → 0 < cap) as Hpos.
  { intros n q Hq Hm. pose proof (Hf _ (dict_get_Some_elem _ _ _ Hq)) as H. cbn in H. unfold check_profile_fields in H.
    repeat ok_bind H. rewrite Hm in E1. apply check_ok in E1. lia. }
  destruct (extends p) as [q|].
  - destruct Hx as (parent & Hq & _ & _ & Ho & _). rewrite Ho in Hc.
    destruct (max_output_tokens p) eqn:E; cbn in Hc; [injection Hc as ->; by eapply (Hpos name)|by eapply (Hpos q)].
  - destruct Hx as (_ & Ho & _). rewrite Ho in Hc. eauto.
Qed.

Lemma compatible_ok s t :
  compatible s t = true →
  not_speculating t = true ∧ r_adapter_path t = r_adapter_path s ∧ r_kv_budget_tokens t = r_kv_budget_tokens s ∧
  r_compute_precision t = r_compute_precision s ∧ r_max_output_tokens t = r_max_output_tokens s.
Proof.
  unfold compatible. rewrite !andb_true_iff, !bool_decide_eq_true. intros [[[[[[[H1 H2] H3] H4] H5] H6] H7] H8].
  split; [|done]. apply speculation_off_spec in H7 as (x & Hx & Hf). unfold not_speculating. rewrite Hx.
  change (negb (truthy x) = true). by rewrite Hf.
Qed.

(** The fallback of a profile *)
Lemma grammar_twin_ok c name p gp :
  dict_get name (profiles c) = Some p → (∀ e, e ∈ profiles c → check_profile c e = Ret tt) →
  (∀ e, e ∈ profiles c → check_grammar_twin c e = Ret tt) → grammar_profile p = Some gp →
  ∃ s t, resolve_profile_uncached c name = Ret s ∧ resolve_profile_uncached c gp = Ret t ∧ r_grammar_profile t = None ∧
    gp ≠ name ∧ gp ≠ "default"%string ∧ not_speculating t = true ∧ r_adapter_path t = r_adapter_path s ∧
    r_kv_budget_tokens t = r_kv_budget_tokens s ∧ r_compute_precision t = r_compute_precision s ∧
    r_max_output_tokens t = r_max_output_tokens s.
Proof.
  intros Hp Hall Htw Hgp. pose proof (dict_get_Some_elem _ _ _ Hp) as Hin.
  pose proof (Htw _ Hin) as H. unfold check_grammar_twin in H. rewrite Hgp in H. repeat ok_bind H.
  apply check_ok, compatible_ok in H.
  pose proof (Hall _ Hin) as Hc. unfold check_profile in Hc. ok_bind Hc. clear Hc.
  unfold check_profile_grammar in E1. rewrite Hgp in E1. destruct (generate (tasks c)); [|done].
  case_bool_decide; [done|]. destruct (dict_get gp (profiles c)) as [target|] eqn:Eg; [|done].
  destruct (bool_decide (gp = "default"%string)) eqn:Ed; [done|]. destruct (bool_decide (gp = name)) eqn:En; [done|].
  apply bool_decide_eq_false in Ed, En. cbn in E1. destruct (grammar_profile target) eqn:Etg; [done|].
  exists a, a0. split; [done|]. split; [done|]. split; [|by split_and!; try apply H].
  destruct (check_profile_resolves c gp target Eg Hall) as (r' & Hr' & Hg' & _). congruence.
Qed.

(** The fallback of the model *)
Lemma task_grammar_ok c g gp :
  (∀ e, e ∈ profiles c → check_profile c e = Ret tt) → check_task_grammar c = Ret tt →
  check_task_grammar_target c = Ret tt → generate (tasks c) = Some g → g_grammar_profile g = Some gp →
  ∃ t, resolve_profile_uncached c gp = Ret t ∧ r_grammar_profile t = None ∧ gp ≠ "default"%string ∧ not_speculating t = true.
Proof.
  intros Hall Hg1 Hg2 Hg Hgp. unfold check_task_grammar in Hg1. unfold check_task_grammar_target in Hg2.
  rewrite Hg, Hgp in Hg1, Hg2. destruct (dict_get gp (profiles c)) as [target|] eqn:Eg; [|done].
  case_bool_decide; [done|]. destruct (grammar_profile target) eqn:Etg; [done|].
  destruct (check_profile_resolves c gp target Eg Hall) as (t & Ht & Hg' & _). rewrite Ht in Hg2. cbn [res_bind] in Hg2.
  exists t. split; [done|]. split; [congruence|]. split; [done|]. unfold not_speculating.
  destruct (get_val "speculative" (r_loadtime t)); try done. apply check_ok, bool_decide_eq_true in Hg2.
  unfold get_val. by rewrite Hg2.
Qed.

Lemma declaration_ok c c' name p :
  profiles c' = profiles c → package_backed c' = package_backed c → validate_package_artifacts c = Ret tt →
  dict_get name (profiles c) = Some p → ∃ d, profile_declaration c' name = Ret d.
Proof.
  intros Epr Epk Hart Hp. unfold validate_package_artifacts in Hart. ok_bind Hart. apply res_map_ok in E.
  assert (name ∈ dict_keys (profiles c)) as Hn by (apply dict_get_is_Some; eauto).
  apply list_elem_of_lookup in Hn as [i Hi]. destruct (Forall2_lookup_l _ _ _ _ _ E Hi) as (d & _ & Hd).
  exists d. rewrite <- Hd. unfold profile_declaration. by rewrite Epk, (resolve_same c c').
Qed.

(** C25 — the profiles of a configuration that loads resolve.  Every profile of a validated
    model resolves, so neither the loader nor a request finds a profile that raises.  On a
    generation model the resolved budget of the KV cache is positive, and an output cap that
    the profile sets or inherits is positive and not above the context it declares: the
    [max_seq_length] of its load-time options, which then is a number, or the model's
    [context_length] without one; a profile that gives [max_seq_length] is launched with it.
    The profile that a constrained request is rerouted to exists, is not the default one,
    does not reroute again, runs without speculation, and for a profile's own fallback is not
    the profile itself and keeps its adapter, budget, precision and limits.  Two numbers are
    not compared with anything ([output_caps_unchecked]): the model's own output cap, which
    holds when no profile overrides it, and the [max_sequence_length] a profile without
    [max_seq_length] is launched with. *)
Theorem validated_profiles_resolve repr c c' name p :
  validate_config repr c = Ret c' → dict_get name (profiles c') = Some p →
  ∃ r, resolve_profile_uncached c' name = Ret r ∧
    (∀ g, generate (tasks c') = Some g →
       ∃ b, r_kv_budget_tokens r = Some b ∧ 0 < b ∧
         ∀ cap, r_max_output_tokens r = Some cap → 0 < cap ∧
           (∃ n, number (declared_context g r) = Some n ∧ num_lt n (NInt cap) = false) ∧
           (is_Some (dict_get "max_seq_length"%string (r_loadtime r)) → launch_context c' r = declared_context g r)) ∧
    (∀ gp, r_grammar_profile r = Some gp →
       ∃ t, resolve_profile_uncached c' gp = Ret t ∧ r_grammar_profile t = None ∧ gp ≠ name ∧ gp ≠ "default"%string ∧
         not_speculating t = true ∧ r_adapter_path t = r_adapter_path r ∧ r_kv_budget_tokens t = r_kv_budget_tokens r ∧
         r_compute_precision t = r_compute_precision r ∧ r_max_output_tokens t = r_max_output_tokens r) ∧
    (∀ g gp, generate (tasks c') = Some g → g_grammar_profile g = Some gp →
       ∃ t, resolve_profile_uncached c' gp = Ret t ∧ r_grammar_profile t = None ∧ gp ≠ "default"%string ∧
         not_speculating t = true) ∧
    (∃ d, profile_declaration c' name = Ret d).
Proof.
  intros Hv Hp. apply validate_config_ok in Hv as (Epr & Et & Epk & Eid & Hf & _ & _ & _ & Hvp & Hart).
  rewrite Epr in Hp. apply validate_profiles_ok in Hvp as (Htg & Hcp & Htt & Htw & Hbud).
  destruct (check_profile_resolves c name p Hp Hcp) as (r & Hr & Hgp & Hx).
  pose proof (dict_get_Some_elem _ _ _ Hp) as Hin.
  exists r. rewrite (resolve_same c c') by done. split; [done|]. rewrite Et. repeat split.
  - intros g Hg. destruct (check_budget_resolved c g name p r Hp Hcp Hr (Hbud _ _ Hg Hin)) as (b & Hb & Hpos & Hcap).
    exists b. split; [done|]. split; [done|]. intros cap Hc. split.
    + eapply output_cap_positive; eauto.
    + split; [exact (Hcap cap Hc)|]. intros [v Hv]. unfold launch_context, declared_context. by rewrite Hv.
  - intros gp Hg. rewrite Hgp in Hg. destruct (grammar_twin_ok c name p gp Hp Hcp Htw Hg) as (s & t & Hs & Ht & H).
    rewrite Hr in Hs. injection Hs as <-. exists t. by rewrite (resolve_same c c') by done.
  - intros g gp Hg Hgg. destruct (task_grammar_ok c g gp Hcp Htg Htt Hg Hgg) as (t & Ht & H).
    exists t. by rewrite (resolve_same c c') by done.
  - eapply declaration_ok; eauto.
Qed.
(** ** One id, one revision *)

Section pins.
Implicit Types (l : list (string * pyval)) (id : string).

(** The explicit revisions of [id], in order *)
Definition pins l id : list pyval := snd <$> filter (λ e, e.1 = id ∧ e.2 ≠ VNone) l.

(** What the references [l] say of [id]: nothing, a mention without a revision, or its
    first explicit revision *)
Definition pinned_as l id : option pyval :=
  if bool_decide (id ∈ fst <$> l) then Some (default VNone (head (pins l id))) else None.

Definition agree l : Prop := ∀ id v w, v ∈ pins l id → w ∈ pins l id → py_eq v w = true.

Lemma elem_of_pins l id v : v ∈ pins l id ↔ (id, v) ∈ l ∧ v ≠ VNone.
Proof.
  unfold pins. rewrite list_elem_of_fmap. split.
  - intros ([i w] & -> & [[Hi Hn] Hl]%list_elem_of_filter). cbn in *. by subst.
  - intros [Hl Hn]. exists (id, v). split; [done|]. by apply list_elem_of_filter.
Qed.

Lemma pins_snoc l id v id' :
  pins (l ++ [(id, v)]) id' = pins l id' ++ (if bool_decide (id = id' ∧ v ≠ VNone) then [v] else []).
Proof.
  unfold pins. rewrite filter_app, fmap_app. f_equal. rewrite filter_cons, filter_nil. cbn [fst snd].
  case_bool_decide as H; destruct (decide _) as [H'|H']; try done; by destruct H'.
Qed.

Lemma pins_unmentioned l id : id ∉ l.*1 → pins l id = [].
Proof.
  intros Hn. destruct (pins l id) as [|x xs] eqn:E; [done|].
  assert (x ∈ pins l id) as [Hx _]%elem_of_pins by (rewrite E; left). destruct Hn. apply list_elem_of_fmap. by exists (id, x).
Qed.

Lemma head_pin id v : default VNone (head (if bool_decide (id = id ∧ v ≠ VNone) then [v] else [])) = v.
Proof. case_bool_decide as Hv; [done|]. by destruct (decide (v = VNone)) as [->|]; [|destruct Hv]. Qed.

Lemma pinned_as_snoc l id v id' :
  pinned_as (l ++ [(id, v)]) id' =
  if decide (id = id')
  then Some match pinned_as l id with None | Some VNone => v | Some w => w end
  else pinned_as l id'.
Proof.
  unfold pinned_as. rewrite pins_snoc, fmap_app. cbn [fmap list_fmap fst].
  destruct (decide (id = id')) as [<-|Hne].
  - rewrite (bool_decide_eq_true_2 (id ∈ _)) by set_solver. f_equal.
    destruct (bool_decide (id ∈ l.*1)) eqn:Ein.
    + destruct (pins l id) as [|w ws] eqn:Ef; [apply head_pin|]. cbn.
      assert (w ∈ pins l id) as [_ Hw]%elem_of_pins by (rewrite Ef; left). by destruct w.
    + apply bool_decide_eq_false in Ein. rewrite (pins_unmentioned l id) by done. apply head_pin.
  - rewrite (bool_decide_eq_false_2 (id = id' ∧ _)) by naive_solver. rewrite app_nil_r.
    rewrite (bool_decide_ext (id' ∈ l.*1 ++ [id]) (id' ∈ l.*1)); [done|]. set_solver.
Qed.

Lemma pinned_as_pin l id w : pinned_as l id = Some w → w ≠ VNone → w ∈ pins l id.
Proof.
  unfold pinned_as. case_bool_decide; [|done]. destruct (pins l id) as [|x xs] eqn:E; cbn; [by intros [= <-]|].
  intros [= ->] _. left.
Qed.

(** The table after the references [l] *)
Definition pinned l (refs : dict) : Prop := dict_wf refs ∧ agree l ∧ ∀ id, dict_get id refs = pinned_as l id.

Lemma agree_snoc l id v w :
  agree l → pinned_as l id = Some w → (v = VNone ∨ w = VNone ∨ py_eq w v = true) → agree (l ++ [(id, v)]).
Proof.
  intros Ha Hp Hv i a b. rewrite !pins_snoc, !elem_of_app.
  assert (w = VNone → pins l id = []) as Hnil.
  { intros ->. unfold pinned_as in Hp. case_bool_decide; [|done]. destruct (pins l id) as [|x xs] eqn:E; [done|].
    cbn in Hp. injection Hp as ->. assert (VNone ∈ pins l id) as Hx by (rewrite E; left). by apply elem_of_pins in Hx as [_ ?]. }
  assert (∀ x, x ∈ pins l id → v ≠ VNone → py_eq x v = true) as Hx.
  { intros x Hx Hn. destruct Hv as [?|[Hw|Hw]]; [done|rewrite Hnil in Hx by done; by apply elem_of_nil in Hx|].
    destruct (decide (w = VNone)) as [->|Hwn]; [rewrite Hnil in Hx by done; by apply elem_of_nil in Hx|].
    pose proof (Ha id x w Hx (pinned_as_pin _ _ _ Hp Hwn)) as Hxw.
    rewrite py_eq_true in *. congruence. }
  case_bool_decide as Hc; [destruct Hc as [<- Hn]|]; rewrite ?elem_of_nil, ?list_elem_of_singleton.
  - intros [H1 | ->] [H2 | ->]; eauto using py_eq_refl. rewrite py_eq_sym. eauto.
  - intros [H1|[]] [H2|[]]. eauto.
Qed.

Lemma pin_lora_step name refs l id v :
  pinned l refs →
  match pin_lora name refs (id, v) with
  | Ret refs' => pinned (l ++ [(id, v)]) refs'
  | Raise e => ∃ w, w ∈ pins l id ∧ v ≠ VNone ∧ py_eq w v = false
  end.
Proof.
  intros (Hwf & Ha & Hget). unfold pin_lora. rewrite Hget.
  assert (∀ i, dict_get i (dict_set id v refs) = if decide (id = i) then Some v else pinned_as l i) as Hset.
  { intros i. rewrite dict_get_set, Hget. done. }
  destruct (pinned_as l id) as [w|] eqn:Ep.
  - destruct (decide (v = VNone)) as [->|Hv].
    { split; [done|]. split; [by eapply agree_snoc; eauto|]. intros i. rewrite Hget, pinned_as_snoc, Ep.
      destruct (decide (id = i)) as [<-|]; [|done]. rewrite Ep. by destruct w. }
    destruct (decide (w = VNone)) as [->|Hw].
    { replace (match v with VNone => _ | _ => _ end) with (@Ret cfg_error dict (dict_set id v refs)) by by destruct v.
      split; [by apply dict_set_wf|]. split; [by eapply agree_snoc; eauto|]. intros i. by rewrite Hset, pinned_as_snoc, Ep. }
    replace (match v with VNone => _ | _ => _ end) with
      (if py_eq w v then Ret refs else Raise (LoraTwoRevisions id w v name)) by by destruct v; try done; destruct w.
    destruct (py_eq w v) eqn:Eq.
    + split; [done|]. split; [eapply agree_snoc; eauto|]. intros i. rewrite Hget, pinned_as_snoc, Ep.
      destruct (decide (id = i)) as [<-|]; [|done]. rewrite Ep. by destruct w.
    + exists w. by eauto using pinned_as_pin.
  - split; [by apply dict_set_wf|]. split.
    + intros i a b. rewrite !pins_snoc, !elem_of_app.
      assert (pins l id = []) as Hnil.
      { apply pins_unmentioned. unfold pinned_as in Ep. by case_bool_decide. }
      case_bool_decide as Hc; [destruct Hc as [<- Hn]; rewrite Hnil|]; rewrite ?elem_of_nil, ?list_elem_of_singleton.
      * intros [[] | ->] [[] | ->]. apply py_eq_refl.
      * intros [H1|[]] [H2|[]]. eauto.
    + intros i. by rewrite Hset, pinned_as_snoc, Ep.
Qed.

Lemma pin_lora_fold name es l refs :
  pinned l refs →
  match res_fold (pin_lora name) refs es with
  | Ret refs' => pinned (l ++ es) refs'
  | Raise e => ¬ agree (l ++ es)
  end.
Proof.
  revert l refs. induction es as [|[id v] es IH]; intros l refs H; cbn [res_fold]; [by rewrite app_nil_r|].
  pose proof (pin_lora_step name refs l id v H) as Hs. rewrite (cons_middle (id, v)), app_assoc.
  destruct (pin_lora name refs (id, v)) as [refs'|e].
  - by apply IH.
  - destruct Hs as (w & Hw & Hv & Hne). intros Ha. assert (py_eq w v = true); [|congruence]. apply (Ha id).
    + apply elem_of_pins. apply elem_of_pins in Hw as [Hw ?]. split; [|done]. set_solver.
    + apply elem_of_pins. split; [set_solver|done].
Qed.

(** The references of a whole model, in the order the loops meet them *)
Definition lora_refs (repr : pyval → string) (c : ModelConfig) : list (string * pyval) :=
  concat ((λ e : string * ProfileConfig, lora_entries repr e.2) <$> profiles c).

Definition draft_entries (p : ProfileConfig) : list (string * pyval) :=
  match get_val "speculative" (loadtime (adapter_options p)) with
  | VDict speculative =>
      if truthy (get_val "enabled" speculative) then
        match get_val "draft_model" speculative with
        | VStr m => if bool_decide (m = ""%string) then [] else [(m, get_val "draft_model_revision" speculative)]
        | _ => []
        end
      else []
  | _ => []
  end.

Definition draft_refs (c : ModelConfig) : list (string * pyval) :=
  concat ((λ e : string * ProfileConfig, draft_entries e.2) <$> profiles c).

(** The second loop, written differently, pins by the same rule. *)
Lemma pin_draft_step l refs name p :
  pinned l refs →
  match pin_draft refs (name, p) with
  | Ret refs' => pinned (l ++ draft_entries p) refs'
  | Raise e => ¬ agree (l ++ draft_entries p)
  end.
Proof.
  intros H. unfold pin_draft, draft_entries.
  destruct (get_val "speculative" _) as [| | | | | | |sp]; rewrite ?app_nil_r; try done.
  destruct (truthy _); cbn [negb]; rewrite ?app_nil_r; try done.
  destruct (get_val "draft_model" sp) as [| | | |m| | |]; rewrite ?app_nil_r; try done.
  case_bool_decide; rewrite ?app_nil_r; [done|].
  generalize (get_val "draft_model_revision" sp). intros v.
  pose proof (pin_lora_fold name [(m, v)] l refs H) as Hs. cbn [res_fold] in Hs. unfold pin_lora in Hs.
  destruct (dict_get m refs) as [w|] eqn:Em; [|done].
  destruct w, v; try done; try (by destruct (py_eq _ _)).
  destruct H as (Hwf & Ha & Hget). split; [by apply dict_set_wf|]. split; [apply Hs|].
  intros i. destruct Hs as (_ & _ & Hs). rewrite <- Hs, dict_get_set. by destruct (decide (m = i)) as [<-|].
Qed.

Lemma pinned_fold (f : dict → string * ProfileConfig → cfg_res dict) (es : ProfileConfig → list (string * pyval)) ps l refs :
  (∀ l refs name p, pinned l refs →
     match f refs (name, p) with Ret refs' => pinned (l ++ es p) refs' | Raise _ => ¬ agree (l ++ es p) end) →
  pinned l refs →
  match res_fold f refs ps with
  | Ret refs' => pinned (l ++ concat ((λ e, es e.2) <$> ps)) refs'
  | Raise _ => ¬ agree (l ++ concat ((λ e, es e.2) <$> ps))
  end.
Proof.
  intros Hf. revert l refs. induction ps as [|[name p] ps IH]; intros l refs H; cbn [res_fold fmap list_fmap concat].
  { by rewrite app_nil_r. }
  pose proof (Hf l refs name p H) as Hs. rewrite app_assoc. destruct (f refs (name, p)) as [refs'|]; [by apply IH|].
  intros Ha. apply Hs. intros i v w Hv Hw. apply (Ha i); apply elem_of_pins.
  - apply elem_of_pins in Hv as [??]. split; [set_solver|done].
  - apply elem_of_pins in Hw as [??]. split; [set_solver|done].
Qed.

Lemma pinned_nil : pinned [] [].
Proof. split; [constructor|]. split; [|done]. intros i v w Hv. by apply elem_of_nil in Hv. Qed.

(** The rules of both tables depend on the references, not on their order. *)
Lemma pinned_perm l l' refs refs' id :
  l ≡ₚ l' → pinned l refs → pinned l' refs' →
  match dict_get id refs, dict_get id refs' with
  | Some v, Some w => py_eq v w = true
  | None, None => True
  | _, _ => False
  end.
Proof.
  intros Hp (_ & Ha & Hg) (_ & Ha' & Hg'). rewrite Hg, Hg'. unfold pinned_as.
  rewrite (bool_decide_ext (id ∈ l'.*1) (id ∈ l.*1)) by by rewrite Hp. case_bool_decide; [|done].
  assert (∀ v, v ∈ pins l id ↔ v ∈ pins l' id) as Hpin by (intros v; by rewrite !elem_of_pins, Hp).
  destruct (pins l id) as [|v vs] eqn:E, (pins l' id) as [|w ws] eqn:E'; cbn; [done|..].
  - assert (w ∈ @nil pyval) as Hx by (apply Hpin; left). by apply elem_of_nil in Hx.
  - assert (v ∈ @nil pyval) as Hx by (apply Hpin; left). by apply elem_of_nil in Hx.
  - apply (Ha id); rewrite E; [left|]. apply Hpin. left.
Qed.
End pins.

(** One id maps to one revision.  [lora_revisions] and [speculative_draft_revisions]
    succeed exactly when no id has two different explicit revisions anywhere in the
    profiles; then they list every id that is mentioned, with its explicit revision if any
    profile pins it and without one only if none does.  The order of the profiles does not
    matter. *)
Theorem revisions_exact repr (c : ModelConfig) :
  (match lora_revisions repr c with
   | Ret refs => agree (lora_refs repr c) ∧ ∀ id, dict_get id refs = pinned_as (lora_refs repr c) id
   | Raise _ => ¬ agree (lora_refs repr c)
   end) ∧
  (match speculative_draft_revisions c with
   | Ret refs => agree (draft_refs c) ∧ ∀ id, dict_get id refs = pinned_as (draft_refs c) id
   | Raise _ => ¬ agree (draft_refs c)
   end) ∧
  ∀ c', profiles c ≡ₚ profiles c' →
    (res_ok (lora_revisions repr c) = res_ok (lora_revisions repr c')) ∧
    ∀ refs refs' id, lora_revisions repr c = Ret refs → lora_revisions repr c' = Ret refs' →
      match dict_get id refs, dict_get id refs' with
      | Some v, Some w => py_eq v w = true
      | None, None => True
      | _, _ => False
      end.
Proof.
  assert (∀ c, match lora_revisions repr c with
               | Ret refs => pinned (lora_refs repr c) refs
               | Raise _ => ¬ agree (lora_refs repr c)
               end) as Hlora.
  { intros d. apply (pinned_fold _ (lora_entries repr) (profiles d) [] []); [|apply pinned_nil].
    intros l refs name p. apply pin_lora_fold. }
  assert (match speculative_draft_revisions c with
          | Ret refs => pinned (draft_refs c) refs
          | Raise _ => ¬ agree (draft_refs c)
          end) as Hdraft.
  { apply (pinned_fold _ draft_entries (profiles c) [] []); [|apply pinned_nil]. intros. by apply pin_draft_step. }
  split; [|split].
  - specialize (Hlora c). destruct (lora_revisions repr c); [|done]. by destruct Hlora as (_ & ? & ?).
  - destruct (speculative_draft_revisions c); [|done]. by destruct Hdraft as (_ & ? & ?).
  - intros c' Hp. assert (lora_refs repr c ≡ₚ lora_refs repr c') as Hrefs by (unfold lora_refs; by rewrite Hp).
    assert (agree (lora_refs repr c) ↔ agree (lora_refs repr c')) as Hag.
    { unfold agree. split; intros Ha i v w Hv Hw; apply (Ha i);
        apply elem_of_pins; [apply elem_of_pins in Hv|apply elem_of_pins in Hw|apply elem_of_pins in Hv|apply elem_of_pins in Hw];
        by rewrite ?Hrefs in *. }
    pose proof (Hlora c) as H1. pose proof (Hlora c') as H2. split.
    + destruct (lora_revisions repr c), (lora_revisions repr c'); try done.
      * destruct H1 as (_ & ? & _). tauto.
      * destruct H2 as (_ & ? & _). tauto.
    + intros refs refs' id Hr Hr'. rewrite Hr in H1. rewrite Hr' in H2. by eapply pinned_perm.
Qed.
(** ** The cache of resolved profiles *)

Definition cache_ok (c : ModelConfig) (cache : list (string * ResolvedProfile)) : Prop :=
  ∀ n r, dict_get n cache = Some r → resolve_profile_uncached c n = Ret r.

(** Resolving through the cache gives what resolving afresh gives. *)
Lemma resolve_profile_cached c cache name :
  cache_ok c cache →
  (resolve_profile c cache name).2 = resolve_profile_uncached c name ∧ cache_ok c (resolve_profile c cache name).1.
Proof.
  intros Hc. unfold resolve_profile. destruct (dict_get name cache) as [r|] eqn:E.
  - by rewrite (Hc _ _ E).
  - destruct (resolve_profile_uncached c name) as [r|e] eqn:Er; cbn; [|done]. split; [done|].
    intros n r'. rewrite dict_get_set. destruct (decide (name = n)) as [<-|]; [by intros [= <-]|apply Hc].
Qed.

(** ** Examples *)

Definition ex_repr (v : pyval) : string := "?".

Definition ex_options (speculative : bool) : AdapterOptions :=
  mkOptions [("mem_fraction_static", VFloat (flit 3 4)); ("speculative", VDict [("enabled", VBool speculative)])]%string [].

Definition ex_profile (ext : option string) (path : option string) (o : AdapterOptions) (gp : option string) : ProfileConfig :=
  mkProfile ext (if ext then None else Some 8192) None path o None (if ext then None else Some 4096) None None None gp.

(** A model whose fast profile speculates and has a twin for constrained requests *)
Definition ex_config : ModelConfig :=
  mkConfig "Qwen/Qwen3-4B-Instruct" (Some "Qwen/Qwen3-4B-Instruct"%string) None None false (Some " L4-Pool "%string) false
    (mkTasks None false false (Some (mkGenerate 32768 4096 [] [] (Some "no-spec"%string)))) None
    [("default", ex_profile None (Some "sglang:Generation"%string) (ex_options true) None);
     ("fast", ex_profile (Some "default"%string) None (ex_options true) (Some "no-spec"%string));
     ("no-spec", ex_profile (Some "default"%string) None (ex_options false) None)]%string.

Definition ex_validated : ModelConfig := with_pool ex_config (Some "l4-pool"%string).

Lemma validated_profiles_resolve_witness :
  ∃ r t, resolve_profile_uncached ex_validated "fast" = Ret r ∧ resolve_profile_uncached ex_validated "no-spec" = Ret t ∧
    r_kv_budget_tokens r = Some 4096 ∧ not_speculating r = false ∧ not_speculating t = true.
Proof.
  destruct (validated_profiles_resolve ex_repr ex_config ex_validated "fast"
              (ex_profile (Some "default"%string) None (ex_options true) (Some "no-spec"%string)))
    as (r & Hr & _ & Hg & _); [vm_compute; reflexivity..|].
  assert (r_kv_budget_tokens r = Some 4096 ∧ not_speculating r = false ∧ r_grammar_profile r = Some "no-spec"%string) as (Hk & Hn & Hp).
  { revert Hr. vm_compute. intros [= <-]. done. }
  destruct (Hg _ Hp) as (t & Ht & _ & _ & _ & Hs & _). exists r, t. done.
Defined.

(** A model whose own cap is above its context, and whose profile has a cap above the context
    the engine is launched with: both are accepted. *)
Definition ex_unchecked : ModelConfig :=
  mkConfig "m" (Some "m"%string) None None false None false
    (mkTasks None false false (Some (mkGenerate 32768 65536 [] [] None))) (Some 2048)
    [("default", mkProfile None (Some 8192) None (Some "sglang:Generation"%string) (mkOptions [] []) None (Some 4096) None (Some 4096) None None);
     ("plain", mkProfile None (Some 8192) None (Some "sglang:Generation"%string) (mkOptions [] []) None (Some 4096) None None None None)]%string.

Lemma output_caps_unchecked :
  validate_config ex_repr ex_unchecked = Ret ex_unchecked ∧
  (∃ g, generate (tasks ex_unchecked) = Some g ∧ context_length g < g_max_output_tokens g) ∧
  (∃ r, resolve_profile_uncached ex_unchecked "plain" = Ret r ∧ r_max_output_tokens r = None) ∧
  (∃ r, resolve_profile_uncached ex_unchecked "default" = Ret r ∧ r_max_output_tokens r = Some 4096 ∧ launch_context ex_unchecked r = VInt 2048).
Proof.
  split; [vm_compute; reflexivity|]. split; [eexists; split; [reflexivity|reflexivity]|].
  split; eexists; (split; [vm_compute; reflexivity|]); [reflexivity|split; reflexivity].
Qed.

(** Two profiles that disagree about an adapter are refused; either order is. *)
Definition ex_pin (rev : pyval) : AdapterOptions :=
  mkOptions [("lora_paths", VDict [("sql", VDict [("id", VStr "org/sql-lora"); ("revision", rev)])])]%string [].

Definition ex_two_pins (a b : pyval) : ModelConfig :=
  mkConfig "m" (Some "m"%string) None None false None false (mkTasks None true false None) None
    [("default", mkProfile None (Some 1) None (Some "a"%string) (ex_pin a) None None None None None None);
     ("other", mkProfile None (Some 1) None (Some "a"%string) (ex_pin b) None None None None None None)]%string.

Lemma revisions_exact_witness :
  lora_revisions ex_repr (ex_two_pins VNone (VStr "f00")) = Ret [("org/sql-lora"%string, VStr "f00")] ∧
  pinned_as (lora_refs ex_repr (ex_two_pins VNone (VStr "f00"))) "org/sql-lora" = Some (VStr "f00") ∧
  ¬ agree (lora_refs ex_repr (ex_two_pins (VStr "bad") (VStr "f00"))).
Proof.
  split; [vm_compute; reflexivity|]. split.
  - destruct (revisions_exact ex_repr (ex_two_pins VNone (VStr "f00"))) as [H _].
    assert (lora_revisions ex_repr (ex_two_pins VNone (VStr "f00")) = Ret [("org/sql-lora"%string, VStr "f00")]) as E
      by (vm_compute; reflexivity).
    rewrite E in H. destruct H as [_ H]. rewrite <- H. vm_compute. reflexivity.
  - destruct (revisions_exact ex_repr (ex_two_pins (VStr "bad") (VStr "f00"))) as [H _].
    assert (res_ok (lora_revisions ex_repr (ex_two_pins (VStr "bad") (VStr "f00"))) = false) as E by (vm_compute; reflexivity).
    destruct (lora_revisions _ _); [done|]. exact H.
Defined.

(** A revision with a newline at its end counts as an immutable commit id. *)
Lemma immutable_revision_newline :
  is_immutable_revision (Some ("0123456789abcdef0123456789abcdef01234567" +:+ newline)) = true ∧
  is_immutable_revision (Some "0123456789abcdef0123456789abcdef01234567 "%string) = false.
Proof. vm_compute. done. Qed.
End ModelConfig.
