(* ===== verification/RuntimeOptions.v ===== *)
(** Request options laid over the runtime defaults of a profile: [core/runtime_options.py].

    Every ingress sends the raw options of a request through [merge_runtime_options]; the
    generation path translates the governed sampler defaults into the typed parameters of
    the request with [apply_generation_runtime_options].  The profile comes from
    [ModelConfig.v].  Profile names are ASCII text without quotes or backslashes, so that
    [repr] of a list of them puts single quotes around each. *)

From stdpp Require Import strings.
From S2P Require Import Prelude PyFloat PyDict PyStr Handlers PyVal ModelConfig.
Import Handlers PyVal ModelConfig.
Local Open Scope Z_scope.
Local Open Scope py_scope.

Module RuntimeOptions.

Inductive opt_error :=
  | InvalidInputError (msg : string)
  | ProfileError (e : cfg_error)          (* not a [ValueError], or outside the [try] *)
  | OptionsNotObject
  | ProfileNotString
  | NonDefaultProfile (profile : string)
  | UnsupportedOptions (names : list string)
  | SamplingNotObject
  | StopTokensNotArray
  | TimeoutNotPositive (key : string)
  | MinAboveMax (min_tokens max_new_tokens : Z)
  | UnsupportedSampling (names : list string)
  | InvalidSampling (key : string)
  | DefaultMinAboveMax (min_tokens max_new_tokens : Z).

Definition opt_res (A : Type) : Type := res opt_error A.

Fixpoint join (sep : string) (l : list string) : string :=
  match l with
  | [] => ""
  | [s] => s
  | s :: l' => s +:+ sep +:+ join sep l'
  end.

Definition quoted (s : string) : string := "'" +:+ s +:+ "'".

(** [str(exc)] of the [ValueError]s of [resolve_profile]; [None] for what is not one *)
Definition value_error_msg (e : cfg_error) : option string :=
  match e with
  | ProfileNotFound name available =>
      Some ("Profile " +:+ quoted name +:+ " not found. Available: [" +:+ join ", " (quoted <$> available) +:+ "]")
  | AdapterPathMissing name => Some ("Profile " +:+ quoted name +:+ ": adapter_path must be set")
  | BatchTokensMissing name => Some ("Profile " +:+ quoted name +:+ ": max_batch_tokens must be set")
  | ResolvedBatchTokensMissing name => Some ("Resolved profile " +:+ quoted name +:+ ": max_batch_tokens must be set")
  | ResolvedAdapterPathMissing name => Some ("Resolved profile " +:+ quoted name +:+ ": adapter_path must be set")
  | _ => None
  end.

(** [_resolve_profile_or_raise]; [resolve_profile] gives what [resolve_profile_uncached]
    gives ([resolve_profile_cached]). *)
Definition resolve_profile_or_raise (c : ModelConfig) (request_options : option dict) : opt_res ResolvedProfile :=
  let bad := Raise (InvalidInputError "'options.profile' must be a non-empty string or null") in
  let resolve name :=
    match resolve_profile_uncached c name with
    | Ret r => Ret r
    | Raise e => match value_error_msg e with Some m => Raise (InvalidInputError m) | None => Raise (ProfileError e) end
    end in
  match match truthy_dict request_options with Some d => get_val "profile" d | None => VNone end with
  | VNone => resolve "default"%string
  | VStr name => if bool_decide (strip name = ""%string) then bad else resolve name
  | _ => bad
  end.

(** [merge_runtime_options_with_profile] *)
Definition merge_runtime_options_with_profile (c : ModelConfig) (request_options : option dict) :
    opt_res (dict * ResolvedProfile) :=
  let* resolved := resolve_profile_or_raise c request_options in
  let merged := match truthy_dict request_options with
                | Some d => dict_update (r_runtime resolved) (filter (λ e, e.1 ≠ "profile"%string) d)
                | None => r_runtime resolved
                end in
  Ret (merged, resolved).

(** [merge_runtime_options] *)
Definition merge_runtime_options (c : ModelConfig) (request_options : option dict) : opt_res dict :=
  let* p := merge_runtime_options_with_profile c request_options in Ret p.1.

(** ** Generation *)

(** [_GENERATION_RUNTIME_KEYS] *)
Definition TIMEOUT_KEYS : list string := ["first_chunk_timeout_s"; "inter_chunk_timeout_s"; "overall_timeout_s"]%string.
Definition GENERATION_RUNTIME_KEYS : list string := ["default_sampling"%string; "stop_tokens"%string] ++ TIMEOUT_KEYS.

(** [_GENERATION_SAMPLING_KEYS] *)
Definition GENERATION_SAMPLING_KEYS : list (string * string) :=
  [("temperature", "temperature"); ("top_p", "top_p"); ("frequency_penalty", "frequency_penalty");
   ("presence_penalty", "presence_penalty"); ("top_k", "top_k"); ("min_new_tokens", "min_tokens"); ("seed", "seed")]%string.

Definition is_finite (x : float) : bool :=
  match x with SpecFloat.S754_infinity _ | SpecFloat.S754_nan => false | _ => true end.

(** [_is_finite_number]: an [int] beyond the floats rounds to infinity, where Python raises
    [OverflowError] *)
Definition is_finite_number (v : pyval) : bool :=
  match real_number v with
  | Some (NInt z) => is_finite (f_of_Z z)
  | Some (NFlt x) => is_finite x
  | None => false
  end.

(** [lo <= value], [value <= hi], ... of a number *)
Definition num_where (p : num → bool) (v : pyval) : bool := match real_number v with Some n => p n | None => false end.

(** The checks of the request's own options *)
Definition check_request_options (d : dict) : opt_res unit :=
  let* _ := match get_val "profile" d with
            | VNone => Ret tt
            | VStr p => if bool_decide (p = "default"%string) then Ret tt else Raise (NonDefaultProfile p)
            | _ => Raise ProfileNotString
            end in
  match unsupported_keys d (GENERATION_RUNTIME_KEYS ++ ["profile"%string]) with
  | (_ :: _) as ks => Raise (UnsupportedOptions (sorted_strings ks))
  | [] =>
      let* _ := match dict_get "default_sampling"%string d with
                | None | Some (VDict _) => Ret tt
                | Some _ => Raise SamplingNotObject
                end in
      let* _ := match dict_get "stop_tokens"%string d with
                | None | Some (VList _) => Ret tt
                | Some _ => Raise StopTokensNotArray
                end in
      res_iter (λ key, match dict_get key d with
                       | None => Ret tt
                       | Some v => match real_number v with
                                   | None => Raise (TimeoutNotPositive key)
                                   | Some n => if num_le n (NInt 0) then Raise (TimeoutNotPositive key) else Ret tt
                                   end
                       end) TIMEOUT_KEYS
  end.

(** [valid] of the validation loop *)
Definition valid_sampling (key : string) (v : pyval) : bool :=
  if bool_decide (key = "seed"%string) then
    match v with VInt z => (- 2 ^ 63 <=? z) && (z <=? 2 ^ 63 - 1) | _ => false end
  else
    is_finite_number v &&
    (if bool_decide (key = "temperature"%string) then num_where (num_le (NInt 0)) v
     else if bool_decide (key = "top_p"%string) then num_where (λ n, num_lt (NInt 0) n && num_le n (NInt 1)) v
     else if bool_decide (key ∈ ["frequency_penalty"; "presence_penalty"]%string)
     then num_where (λ n, num_le (NInt (-2)) n && num_le n (NInt 2)) v
     else if bool_decide (key = "top_k"%string) then match v with VInt z => 1 <=? z | _ => false end
     else if bool_decide (key = "min_new_tokens"%string) then match v with VInt z => 0 <=? z | _ => false end
     else true).

(** The check of [set(sampling)] and the validation loop *)
Definition check_sampling (sampling : dict) : opt_res unit :=
  match unsupported_keys sampling (fst <$> GENERATION_SAMPLING_KEYS) with
  | (_ :: _) as ks => Raise (UnsupportedSampling (sorted_strings ks))
  | [] => res_iter (λ '(k, v), if valid_sampling k v then Ret tt else Raise (InvalidSampling k)) sampling
  end.

(** One turn of the loop that fills the typed parameters; [from_request]: whether the
    request itself names the key *)
Definition fill_one (sampling : dict) (max_new_tokens : option Z) (from_request : string → bool) (result : dict)
    (entry : string * string) : opt_res dict :=
  let '(source, target) := entry in
  match dict_get source sampling, get_val target result with
  | Some value, VNone =>
      match value, max_new_tokens with
      | VInt z, Some m =>
          if bool_decide (source = "min_new_tokens"%string) && (m <? z) then
            if from_request source then Raise (DefaultMinAboveMax z m) else Ret (dict_set target (VInt m) result)
          else Ret (dict_set target value result)
      | _, _ => Ret (dict_set target value result)
      end
  | _, _ => Ret result
  end.

Definition int_of (v : pyval) : option Z := match v with VInt z => Some z | _ => None end.

(** [stop_tokens] and the request's own [stop] *)
Definition apply_stop (stop_tokens : pyval) (result : dict) : opt_res dict :=
  match stop_tokens with
  | VNone => Ret result
  | VList l =>
      if forallb (λ v, match v with VStr s => negb (bool_decide (s = ""%string)) | _ => false end) l then
        match get_val "stop" result with
        | VNone => Ret (dict_set "stop"%string (VList l) result)
        | VList explicit =>
            Ret (dict_set "stop"%string (VList (explicit ++ filter (λ v, existsb (py_eq v) explicit = false) l)) result)
        | _ => Ret result
        end
      else Raise StopTokensNotArray
  | _ => Raise StopTokensNotArray
  end.

(** [apply_generation_runtime_options] *)
Definition apply_generation_runtime_options (c : ModelConfig) (request_options : pyval) (generate_params : dict) :
    opt_res dict :=
  let* request_options := match request_options with
                          | VNone => Ret None
                          | VDict d => Ret (Some d)
                          | _ => Raise OptionsNotObject
                          end in
  let* _ := match truthy_dict request_options with Some d => check_request_options d | None => Ret tt end in
  let* runtime := merge_runtime_options c request_options in
  let* default_profile := match resolve_profile_uncached c "default" with Ret r => Ret r | Raise e => Raise (ProfileError e) end in
  let profile_sampling := get_val "default_sampling" (r_runtime default_profile) in
  let request_sampling := match truthy_dict request_options with Some d => get_val "default_sampling" d | None => VNone end in
  let runtime := match profile_sampling, request_sampling with
                 | VDict ps, VDict rs => dict_set "default_sampling"%string (VDict (dict_update ps rs)) runtime
                 | _, _ => runtime
                 end in
  let result := generate_params in
  let max_new_tokens := int_of (get_val "max_new_tokens" result) in
  let* _ := match max_new_tokens, int_of (get_val "min_tokens" result) with
            | Some m, Some n => if m <? n then Raise (MinAboveMax n m) else Ret tt
            | _, _ => Ret tt
            end in
  let from_request source := match request_sampling with VDict rs => dict_mem source rs | _ => false end in
  let* result := match get_val "default_sampling" runtime with
                 | VNone => Ret result
                 | VDict sampling =>
                     let* _ := check_sampling sampling in
                     res_fold (fill_one sampling max_new_tokens from_request) result GENERATION_SAMPLING_KEYS
                 | _ => Raise SamplingNotObject
                 end in
  let* result := apply_stop (get_val "stop_tokens" runtime) result in
  let* _ := res_iter (λ key, match get_val key runtime with
                             | VNone => Ret tt
                             | v => if is_finite_number v && num_where (num_lt (NInt 0)) v then Ret tt
                                    else Raise (TimeoutNotPositive key)
                             end) TIMEOUT_KEYS in
  Ret result.

(** ** Merging *)

Definition overlay (base : dict) (request : option dict) : dict :=
  match truthy_dict request with
  | Some d => dict_update base (filter (λ e, e.1 ≠ "profile"%string) d)
  | None => base
  end.

Lemma overlay_get base (request : option dict) k :
  (∀ d, request = Some d → dict_wf d) →
  dict_get k (overlay base request) =
  match request ≫= dict_get k with
  | Some v => if bool_decide (k = "profile"%string) then dict_get k base else Some v
  | None => dict_get k base
  end.
Proof.
  intros Hwf. destruct request as [d|]; [|done]. destruct d as [|e d]; [done|]. cbn [truthy_dict mbind option_bind].
  specialize (Hwf _ eq_refl). unfold overlay. cbn [truthy_dict]. generalize dependent (e :: d). intros l Hwf.
  rewrite <- dict_del_filter by done. rewrite dict_get_update by by apply dict_del_wf.
  rewrite dict_get_del by done. case_decide as Hd; case_bool_decide; subst; try done; by destruct (dict_get _ l).
Qed.

(** What the request says about the profile *)
Definition requested_profile (request : option dict) : pyval := default VNone (request ≫= dict_get "profile"%string).

(** The options an adapter sees.  Merging succeeds exactly when the request names no
    profile and the default one resolves, or names one that resolves with a string that is
    not blank; then a key of the request other than [profile] wins over the profile's
    default, every other key keeps the profile's default, and the [profile] key of the
    request is consumed.  A profile that is not there is reported as invalid input. *)
Theorem merge_runtime_options_spec c (request : option dict) :
  (∀ d, request = Some d → dict_wf d) →
  match merge_runtime_options_with_profile c request with
  | Ret (merged, r) =>
      (∃ name, resolve_profile_uncached c name = Ret r ∧
         match requested_profile request with VNone => name = "default"%string | v => v = VStr name ∧ strip name ≠ ""%string end) ∧
      ∀ k, dict_get k merged =
        match request ≫= dict_get k with
        | Some v => if bool_decide (k = "profile"%string) then dict_get k (r_runtime r) else Some v
        | None => dict_get k (r_runtime r)
        end
  | Raise e =>
      match requested_profile request with
      | VNone => res_ok (resolve_profile_uncached c "default") = false
      | VStr name => strip name = ""%string ∨ res_ok (resolve_profile_uncached c name) = false
      | _ => True
      end ∧
      ∀ name, requested_profile request = VStr name → dict_get name (profiles c) = None → ∃ m, e = InvalidInputError m
  end.
Proof.
  intros Hwf. unfold merge_runtime_options_with_profile, resolve_profile_or_raise.
  replace (match truthy_dict request with Some d => get_val "profile" d | None => VNone end) with (requested_profile request)
    by by destruct request as [[|]|].
  destruct (requested_profile request) as [| | | |s| | |]; cbn [res_bind]; try done.
  - destruct (resolve_profile_uncached c "default") as [r|e] eqn:Er; cbn [res_bind].
    + split; [by exists "default"%string|]. intros k. by apply overlay_get.
    + destruct (value_error_msg e); cbn [res_bind]; done.
  - case_bool_decide; cbn [res_bind]; [split; [by left|eauto]|].
    destruct (resolve_profile_uncached c s) as [r|e] eqn:Er; cbn [res_bind].
    + split; [by exists s|]. intros k. by apply overlay_get.
    + assert (∀ name, VStr s = VStr name → dict_get name (profiles c) = None → ∃ m, value_error_msg e = Some m) as He.
      { intros ? [= <-] Hn. unfold resolve_profile_uncached in Er. rewrite Hn in Er. injection Er as <-. cbn. eauto. }
      destruct (value_error_msg e) as [m|] eqn:Em; cbn [res_bind]; (split; [by right|]); [eauto|].
      intros name Hn Hd. by destruct (He name Hn Hd).
Qed.

(** ** Generation *)

Definition sampling_targets : list string := snd <$> GENERATION_SAMPLING_KEYS.

(** A parameter filled from the defaults: the default, or the request's own limit for a
    default minimum above it *)
Definition filled (sampling : dict) (max_new_tokens : option Z) (source : string) (v : pyval) : Prop :=
  ∃ d, dict_get source sampling = Some d ∧ valid_sampling source d = true ∧
    (v = d ∨ (source = "min_new_tokens"%string ∧ ∃ z m, d = VInt z ∧ max_new_tokens = Some m ∧ m < z ∧ v = VInt m)).

Lemma fill_one_spec sampling mx fr result source target result' :
  (∀ v, dict_get source sampling = Some v → valid_sampling source v = true) →
  fill_one sampling mx fr result (source, target) = Ret result' →
  (∀ k, k ≠ target → dict_get k result' = dict_get k result) ∧
  (get_val target result ≠ VNone → result' = result) ∧
  (get_val target result = VNone → get_val target result' = VNone ∨ filled sampling mx source (get_val target result')) ∧
  (source = "min_new_tokens"%string → ∀ m z, mx = Some m → get_val target result = VNone → get_val target result' = VInt z → z <= m).
Proof.
  intros Hv H. unfold fill_one in H. destruct (dict_get source sampling) as [d|] eqn:Ed.
  2:{ injection H as <-. repeat split; try done; [eauto|]. intros _ m z _ H1 H2. congruence. }
  destruct (decide (get_val target result = VNone)) as [En|En].
  2:{ assert (result' = result) as -> by (destruct (get_val target result); congruence). done. }
  rewrite En in H. specialize (Hv d eq_refl).
  assert (∀ w, result' = dict_set target w result → filled sampling mx source w →
    (source = "min_new_tokens"%string → ∀ m z, mx = Some m → w = VInt z → z <= m) →
    (∀ k, k ≠ target → dict_get k result' = dict_get k result) ∧
    (get_val target result ≠ VNone → result' = result) ∧
    (get_val target result = VNone → get_val target result' = VNone ∨ filled sampling mx source (get_val target result')) ∧
    (source = "min_new_tokens"%string → ∀ m z, mx = Some m → get_val target result = VNone → get_val target result' = VInt z → z <= m))
    as Hset.
  { intros w -> Hw Hm. assert (get_val target (dict_set target w result) = w) as Eg.
    { unfold get_val. rewrite dict_get_set. by rewrite decide_True. }
    rewrite Eg. repeat split; try done; [|by right|].
    - intros k Hk. rewrite dict_get_set. by rewrite decide_False.
    - intros Hs m z Hmx _ ->. eauto. }
  assert (filled sampling mx source d) as Hfd by (exists d; eauto).
  destruct d as [| |z| | | | |]; try (injection H as <-; by apply (Hset _ eq_refl)).
  destruct mx as [m|]; [|injection H as <-; by apply (Hset _ eq_refl)].
  destruct (bool_decide (source = "min_new_tokens"%string)) eqn:Es; cbn in H.
  - apply bool_decide_eq_true in Es. destruct (m <? z) eqn:Ez.
    + destruct (fr source); [done|]. injection H as <-. apply (Hset _ eq_refl).
      * exists (VInt z). split; [done|]. split; [done|]. right. split; [done|]. exists z, m. split_and!; try done. lia.
      * intros _ ? ? [= <-] [= <-]. lia.
    + injection H as <-. apply (Hset _ eq_refl); [done|]. intros _ ? ? [= <-] [= <-]. lia.
  - apply bool_decide_eq_false in Es. injection H as <-. by apply (Hset _ eq_refl).
Qed.

Lemma fill_fold_spec sampling mx fr ks result result' :
  NoDup (snd <$> ks) → (∀ source v, dict_get source sampling = Some v → valid_sampling source v = true) →
  res_fold (fill_one sampling mx fr) result ks = Ret result' →
  (∀ k, k ∉ snd <$> ks → dict_get k result' = dict_get k result) ∧
  ∀ source target, (source, target) ∈ ks →
    (get_val target result ≠ VNone → dict_get target result' = dict_get target result) ∧
    (get_val target result = VNone → get_val target result' = VNone ∨ filled sampling mx source (get_val target result')) ∧
    (source = "min_new_tokens"%string → ∀ m z, mx = Some m → get_val target result = VNone → get_val target result' = VInt z → z <= m).
Proof.
  intros Hnd Hv. revert result. induction ks as [|[s t] ks IH]; intros result H; cbn [res_fold] in H.
  { injection H as <-. split; [done|]. intros ? ? Hx. by apply elem_of_nil in Hx. }
  destruct (fill_one sampling mx fr result (s, t)) as [mid|] eqn:Ef; [|done].
  apply fill_one_spec in Ef as (Ho & Hk & Hf & Hm); [|eauto]. cbn [fmap list_fmap snd] in Hnd. apply NoDup_cons in Hnd as [Hnt Hnd].
  destruct (IH Hnd _ H) as [Ho' Hin']. split.
  - intros k [Hk1 Hk2]%not_elem_of_cons. by rewrite Ho', Ho.
  - intros source target [[= -> ->]|Hin]%elem_of_cons.
    + assert (get_val t result' = get_val t mid) as Eg by (unfold get_val; by rewrite Ho').
      rewrite Eg, Ho' by done. split; [|done]. intros Hne. by rewrite (Hk Hne).
    + assert (target ≠ t) as Hne.
      { intros ->. apply Hnt. apply list_elem_of_fmap. by exists (source, t). }
      assert (get_val target mid = get_val target result) as Eg by (unfold get_val; by rewrite Ho).
      rewrite <- Eg, <- (Ho target) by done. by apply Hin'.
Qed.

Lemma check_sampling_ok sampling :
  check_sampling sampling = Ret tt → ∀ source v, dict_get source sampling = Some v → valid_sampling source v = true.
Proof.
  unfold check_sampling. destruct (unsupported_keys _ _); [|done]. intros H source v Hs.
  pose proof (proj1 (res_iter_ok _ _) H _ (dict_get_Some_elem _ _ _ Hs)) as Hx. cbn in Hx. by destruct (valid_sampling source v).
Qed.

Definition nonempty_str (v : pyval) : Prop := ∃ s, v = VStr s ∧ s ≠ ""%string.

(** [stop'] is [stop] with the sequences of [stop_tokens] added behind it: those it does not
    have yet, in their order. *)
Definition stop_governed (stop_tokens stop stop' : pyval) : Prop :=
  match stop_tokens with
  | VNone => stop' = stop
  | VList l =>
      Forall nonempty_str l ∧
      stop' = match stop with
              | VNone => VList l
              | VList explicit => VList (explicit ++ filter (λ v, v ∉ explicit) l)
              | v => v
              end
  | _ => False
  end.

(** What happens to the request's own stop sequences *)
Lemma apply_stop_spec stop_tokens result result' :
  apply_stop stop_tokens result = Ret result' →
  (∀ k, k ≠ "stop"%string → dict_get k result' = dict_get k result) ∧
  stop_governed stop_tokens (get_val "stop" result) (get_val "stop" result').
Proof.
  unfold apply_stop, stop_governed. intros H.
  assert (∀ w, get_val "stop" (dict_set "stop"%string w result) = w) as Eg.
  { intros w. unfold get_val. by rewrite dict_get_set, decide_True. }
  assert (∀ w k, k ≠ "stop"%string → dict_get k (dict_set "stop"%string w result) = dict_get k result) as Eo.
  { intros w k Hk. by rewrite dict_get_set, decide_False. }
  destruct stop_tokens as [| | | | |l| |]; try done; [by injection H as <-|].
  destruct (forallb _ l) eqn:Efb; [|done].
  assert (Forall nonempty_str l) as Hl.
  { apply Forall_forall. intros v Hv. rewrite forallb_forall in Efb. apply list_elem_of_In, Efb in Hv.
    destruct v as [| | | |s| | |]; try done. exists s. split; [done|]. by apply negb_true_iff, bool_decide_eq_false in Hv. }
  destruct (get_val "stop" result) as [| | | | |ex| |] eqn:E; injection H as <-; rewrite ?Eg; auto.
  split; [eauto|]. split; [done|]. do 2 f_equal. clear Efb E. induction Hl as [|v l (s & -> & _) Hl IH]; [done|].
  assert (existsb (py_eq (VStr s)) ex = false ↔ VStr s ∉ ex) as Hex.
  { rewrite <- not_true_iff_false, existsb_exists. setoid_rewrite <- list_elem_of_In. setoid_rewrite py_eq_str. naive_solver. }
  rewrite !filter_cons. destruct (decide (existsb _ _ = false)), (decide (VStr s ∉ ex)); try tauto. by rewrite IH.
Qed.

(** The stop sequences a profile and a request ask for: the request's, else the profile's *)
Definition stop_tokens_for (r : ResolvedProfile) (request : pyval) : pyval :=
  match request with
  | VDict d => default (get_val "stop_tokens" (r_runtime r)) (dict_get "stop_tokens"%string d)
  | _ => get_val "stop_tokens" (r_runtime r)
  end.

(** The sampler default of [source]: the request's, else the profile's *)
Definition default_for (r : ResolvedProfile) (request : pyval) (source : string) : option pyval :=
  let entry v := match v with VDict d => dict_get source d | _ => None end in
  match entry (match request with VDict d => get_val "default_sampling" d | _ => VNone end) with
  | Some v => Some v
  | None => entry (get_val "default_sampling" (r_runtime r))
  end.

(** What the function has established once it returns *)
Definition request_dict (request : pyval) : option dict := match request with VDict d => Some d | _ => None end.

Lemma check_request_options_ok d :
  check_request_options d = Ret tt →
  (get_val "profile" d = VNone ∨ get_val "profile" d = VStr "default") ∧
  (∀ k, k ∈ dict_keys d → k ∈ GENERATION_RUNTIME_KEYS ∨ k = "profile"%string) ∧
  (∀ v, dict_get "default_sampling"%string d = Some v → ∃ rs, v = VDict rs).
Proof.
  unfold check_request_options. intros H.
  destruct (get_val "profile" d) as [| | | |s| | |] eqn:Ep; cbn [res_bind] in H; try done;
    [|case_bool_decide; [subst|done]; cbn [res_bind] in H].
  all: destruct (unsupported_keys d _) eqn:Eu; [|done]; split; [by eauto|]; split.
  all: try (intros k Hk; destruct (decide (k ∈ GENERATION_RUNTIME_KEYS ++ ["profile"%string])) as [Hin|Hn];
    [set_solver|]; assert (k ∈ unsupported_keys d (GENERATION_RUNTIME_KEYS ++ ["profile"%string])) as Hx
      by (by apply list_elem_of_filter); rewrite Eu in Hx; by apply elem_of_nil in Hx).
  all: intros v Hv; rewrite Hv in H; destruct v; try done; eauto.
Qed.

(** The sampler defaults the function works with *)
Lemma effective_sampling_spec r request merged sampling source :
  (∀ d, request_dict request = Some d → dict_wf d ∧ ∀ rs, dict_get "default_sampling"%string d = Some (VDict rs) → dict_wf rs) →
  (∀ d v, request_dict request = Some d → dict_get "default_sampling"%string d = Some v → ∃ rs, v = VDict rs) →
  merged = overlay (r_runtime r) (request_dict request) →
  get_val "default_sampling" match get_val "default_sampling" (r_runtime r),
      match truthy_dict (request_dict request) with Some d => get_val "default_sampling" d | None => VNone end with
    | VDict ps, VDict rs => dict_set "default_sampling"%string (VDict (dict_update ps rs)) merged
    | _, _ => merged
    end = VDict sampling →
  dict_get source sampling = default_for r request source.
Proof.
  intros Hwf Hty -> H. unfold default_for.
  assert (match request with VDict d => get_val "default_sampling" d | _ => VNone end =
          match truthy_dict (request_dict request) with Some d => get_val "default_sampling" d | None => VNone end) as ->
    by by destruct request as [| | | | | | |[|]].
  assert (get_val "default_sampling" (overlay (r_runtime r) (request_dict request)) =
          match truthy_dict (request_dict request) with Some d => get_val "default_sampling" d | None => VNone end ∨
          get_val "default_sampling" (overlay (r_runtime r) (request_dict request)) = get_val "default_sampling" (r_runtime r) ∧
          match truthy_dict (request_dict request) with Some d => get_val "default_sampling" d | None => VNone end = VNone) as Ho.
  { unfold get_val at 1 3. rewrite overlay_get by (intros d Hd; by destruct (Hwf d Hd)).
    destruct (request_dict request) as [[|e l]|]; cbn [mbind option_bind truthy_dict]; try (by right).
    unfold get_val. destruct (dict_get _ (e :: l)) eqn:E; [by left|by right]. }
  set (rsv := match truthy_dict (request_dict request) with Some d => get_val "default_sampling" d | None => VNone end) in *.
  assert (∀ rs, rsv = VDict rs → dict_wf rs) as Hrs.
  { intros rs Hrs. subst rsv. destruct (request_dict request) as [[|e l]|]; try done. cbn [truthy_dict] in Hrs.
    unfold get_val in Hrs. destruct (dict_get _ (e :: l)) as [v|] eqn:E; [|done]. cbn in Hrs. subst v. by eapply Hwf. }
  assert (rsv = VNone ∨ ∃ rs, rsv = VDict rs) as [Hn|[rs Hr]].
  { subst rsv. destruct (request_dict request) as [[|e l]|]; cbn [truthy_dict]; try (by left). unfold get_val.
    destruct (dict_get _ (e :: l)) as [v|] eqn:E; [|by left]. right. cbn. by eapply Hty. }
  - rewrite Hn in *. destruct Ho as [Ho|[Ho _]].
    + destruct (get_val "default_sampling" (r_runtime r)); congruence.
    + destruct (get_val "default_sampling" (r_runtime r)) as [| | | | | | |ps]; congruence.
  - rewrite Hr in *. destruct Ho as [Ho|[_ ?]]; [|done].
    destruct (get_val "default_sampling" (r_runtime r)) as [| | | | | | |ps]; try (by replace sampling with rs by congruence; destruct (dict_get source rs)).
    unfold get_val in H. rewrite dict_get_set, decide_True in H by done. cbn in H. injection H as <-.
    rewrite dict_get_update by eauto. done.
Qed.
(** What the sampler defaults do to the parameters *)
Definition sampled (r : ResolvedProfile) (request : pyval) (gp result : dict) : Prop :=
  (∀ k, k ∉ sampling_targets → dict_get k result = dict_get k gp) ∧
  ∀ source target, (source, target) ∈ GENERATION_SAMPLING_KEYS →
    (get_val target gp ≠ VNone → dict_get target result = dict_get target gp) ∧
    (get_val target gp = VNone → get_val target result = VNone ∨
       ∃ d, default_for r request source = Some d ∧ valid_sampling source d = true ∧
         (get_val target result = d ∨ source = "min_new_tokens"%string ∧ get_val target result = get_val "max_new_tokens" gp)) ∧
    (source = "min_new_tokens"%string → ∀ m z, get_val "max_new_tokens" gp = VInt m → get_val target gp = VNone →
       get_val target result = VInt z → z <= m).

Lemma sampled_refl r request gp : sampled r request gp gp.
Proof. split; [done|]. intros source target _. split; [done|]. split; [by left|]. intros ? m z _ H1 H2. congruence. Qed.

Lemma fill_sampled r request sampling fr gp result :
  check_sampling sampling = Ret tt → (∀ source, dict_get source sampling = default_for r request source) →
  res_fold (fill_one sampling (int_of (get_val "max_new_tokens" gp)) fr) gp GENERATION_SAMPLING_KEYS = Ret result →
  sampled r request gp result.
Proof.
  intros Ecs Hdef H. pose proof (check_sampling_ok _ Ecs) as Hval.
  apply fill_fold_spec in H as [Ho Hin]; [|by apply (bool_decide_unpack _); vm_compute|done].
  split; [exact Ho|]. intros source target Hst. destruct (Hin source target Hst) as (H1 & H2 & H3).
  split; [done|]. split; [|intros Hs m z Hm; apply H3; [done|by rewrite Hm]].
  intros Hn. destruct (H2 Hn) as [?|(d & Hd & Hv & Hx)]; [by left|right]. exists d. rewrite <- Hdef. split; [done|].
  split; [done|]. destruct Hx as [?|(Hs & z & m & _ & Hm & _ & Hx)]; [by left|right]. split; [done|]. rewrite Hx.
  destruct (get_val "max_new_tokens" gp); try done. cbn in Hm. congruence.
Qed.

Lemma resolve_default c request r r' :
  (∀ d, request = Some d → get_val "profile" d = VNone ∨ get_val "profile" d = VStr "default") →
  resolve_profile_or_raise c request = Ret r → resolve_profile_uncached c "default" = Ret r' → r' = r.
Proof.
  intros Hp Er Er'. unfold resolve_profile_or_raise in Er.
  destruct request as [[|e l]|]; cbn [truthy_dict] in Er; try (rewrite Er' in Er; congruence).
  destruct (Hp _ eq_refl) as [Hq|Hq]; rewrite Hq in Er; [|rewrite bool_decide_eq_false_2 in Er by done];
    rewrite Er' in Er; congruence.
Qed.

(** The stages of a call that returns *)
Lemma apply_generation_stages c request gp result :
  (∀ d, request = VDict d → dict_wf d ∧ ∀ rs, dict_get "default_sampling"%string d = Some (VDict rs) → dict_wf rs) →
  apply_generation_runtime_options c request gp = Ret result →
  (∀ d, request = VDict d → check_request_options d = Ret tt ∨ d = []) ∧
  (∀ m n, get_val "max_new_tokens" gp = VInt m → get_val "min_tokens" gp = VInt n → n <= m) ∧
  ∃ r mid, resolve_profile_uncached c "default" = Ret r ∧ sampled r request gp mid ∧
    apply_stop (stop_tokens_for r request) mid = Ret result.
Proof.
  intros Hwf H. unfold apply_generation_runtime_options in H.
  assert (match request with VNone => Ret None | VDict d => Ret (Some d) | _ => Raise OptionsNotObject end =
          @Ret opt_error _ (request_dict request)) as Hreq by (destruct request; cbn in H; done).
  rewrite Hreq in H. cbn [res_bind] in H. clear Hreq.
  match type of H with res_bind ?b _ = _ => destruct b as [[]|] eqn:Ec; cbn [res_bind] in H; [|done] end.
  assert (∀ d, request = VDict d → check_request_options d = Ret tt ∨ d = []) as Hc.
  { intros d ->. destruct d; [by right|by left]. }
  split; [done|]. unfold merge_runtime_options, merge_runtime_options_with_profile in H.
  destruct (resolve_profile_or_raise c (request_dict request)) as [r|] eqn:Er; cbn [res_bind fst] in H; [|done].
  destruct (resolve_profile_uncached c "default") as [r'|] eqn:Er'; cbn [res_bind] in H; [|done].
  assert (∀ d, request_dict request = Some d → request = VDict d) as Hrd by (intros d Hd; destruct request; cbn in Hd; congruence).
  assert (r' = r) as ->.
  { eapply resolve_default; eauto. intros d Hd. destruct (Hc _ (Hrd _ Hd)) as [Hd'| ->]; [|by left].
    by apply check_request_options_ok in Hd' as [? _]. }
  fold (overlay (r_runtime r) (request_dict request)) in H.
  match type of H with res_bind ?b _ = _ => destruct b as [[]|] eqn:Emm; cbn [res_bind] in H; [|done] end.
  split.
  { intros m n Hm Hn. rewrite Hm, Hn in Emm. cbn in Emm. destruct (m <? n) eqn:E; [done|lia]. }
  match type of H with res_bind (match ?sv with _ => _ end) _ = _ => remember sv as sv' eqn:Esv end.
  match type of H with res_bind ?b _ = _ => destruct b as [mid|] eqn:Emid; cbn [res_bind] in H; [|done] end.
  match type of H with res_bind (apply_stop ?st _) _ = _ => assert (st = stop_tokens_for r request) as Est end.
  { assert (get_val "stop_tokens" (overlay (r_runtime r) (request_dict request)) = stop_tokens_for r request) as Eo.
    { unfold get_val. rewrite overlay_get by (intros d Hd; by apply Hwf, Hrd). unfold stop_tokens_for.
      destruct request as [| | | | | | |d]; try done. cbn. by destruct (dict_get "stop_tokens"%string d). }
    rewrite <- Eo. destruct (get_val "default_sampling" (r_runtime r)); try done.
    destruct (match truthy_dict (request_dict request) with Some d0 => get_val "default_sampling" d0 | None => VNone end); try done.
    unfold get_val. by rewrite dict_get_set, decide_False. }
  rewrite Est in H. exists r, mid.
  match type of H with res_bind ?b _ = _ => destruct b as [fin|] eqn:Efin; cbn [res_bind] in H; [|done] end.
  destruct (res_iter _ TIMEOUT_KEYS) as [[]|]; cbn [res_bind] in H; [|done]. injection H as ->.
  split; [done|]. split; [|done].
  destruct sv' as [| | | | | | |sampling]; try done; [injection Emid as <-; apply sampled_refl|].
  destruct (check_sampling sampling) as [[]|] eqn:Ecs; cbn [res_bind] in Emid; [|done].
  eapply fill_sampled; [done| |exact Emid]. intros source.
  eapply effective_sampling_spec; [| |reflexivity|symmetry; exact Esv].
  - intros d Hd. by apply Hwf, Hrd.
  - intros d v Hd Hv. destruct (Hc _ (Hrd _ Hd)) as [Hd'| ->]; [|done]. by eapply check_request_options_ok.
Qed.

(** C33 — governed generation defaults.  When [apply_generation_runtime_options] returns, the
    request used only governed options and no other profile than the default one; a typed
    parameter the request set is untouched; a sampler parameter it left open is still open or
    holds the default of the request, else of the profile, which is in the range of its
    kind, or, for a minimum the profile alone asks for, the request's own maximum; the
    minimum number of tokens never exceeds the maximum; the request's own [stop] sequences
    are kept in front, and behind them come the [stop_tokens] of the request's options, else
    of the profile, that are not among them, in the order given there; no other parameter
    changes. *)
Theorem generation_options_governed c (request : pyval) (gp result : dict) :
  (∀ d, request = VDict d → dict_wf d ∧ ∀ rs, dict_get "default_sampling"%string d = Some (VDict rs) → dict_wf rs) →
  apply_generation_runtime_options c request gp = Ret result →
  (∀ d, request = VDict d →
     (get_val "profile" d = VNone ∨ get_val "profile" d = VStr "default") ∧
     ∀ k, k ∈ dict_keys d → k ∈ GENERATION_RUNTIME_KEYS ∨ k = "profile"%string) ∧
  (∀ k, k ∉ sampling_targets → k ≠ "stop"%string → dict_get k result = dict_get k gp) ∧
  (∃ r, resolve_profile_uncached c "default" = Ret r ∧
     (∀ source target, (source, target) ∈ GENERATION_SAMPLING_KEYS →
       if decide (get_val target gp = VNone) then
         get_val target result = VNone ∨
         ∃ d, default_for r request source = Some d ∧ valid_sampling source d = true ∧
           (get_val target result = d ∨ source = "min_new_tokens"%string ∧ get_val target result = get_val "max_new_tokens" gp)
       else dict_get target result = dict_get target gp) ∧
     stop_governed (stop_tokens_for r request) (get_val "stop" gp) (get_val "stop" result)) ∧
  (∀ m n, get_val "max_new_tokens" result = VInt m → get_val "min_tokens" result = VInt n → n <= m).
Proof.
  intros Hwf H. apply apply_generation_stages in H as (Hc & Hexpl & r & mid & Hr & [Hmid_o Hmid] & Hst); [|done].
  apply apply_stop_spec in Hst as [Hstop_o Hstop]. split.
  { intros d Hd. destruct (Hc d Hd) as [Hk| ->]; [by apply check_request_options_ok in Hk as (? & ? & _)|].
    split; [by left|]. intros k Hk. by apply elem_of_nil in Hk. }
  assert (∀ k, k ≠ "stop"%string → get_val k result = get_val k mid) as Hg by (intros k Hk; unfold get_val; by rewrite Hstop_o).
  assert (∀ s t, (s, t) ∈ GENERATION_SAMPLING_KEYS → t ≠ "stop"%string) as Hns.
  { intros s t Hst ->. unfold GENERATION_SAMPLING_KEYS in Hst. rewrite !elem_of_cons, elem_of_nil in Hst. naive_solver. }
  split; [|split].
  - intros k Hk Hs. by rewrite Hstop_o, Hmid_o.
  - exists r. split; [done|]. split.
    2:{ assert (get_val "stop" mid = get_val "stop" gp) as <-; [|done].
        unfold get_val. rewrite Hmid_o; [done|]. by apply (bool_decide_unpack _); vm_compute. }
    intros source target Hst. destruct (Hmid source target Hst) as (H1 & H2 & _).
    rewrite Hstop_o, !Hg by eauto. case_decide; eauto.
  - intros m n. rewrite !Hg by done. intros Hm Hn.
    assert (get_val "max_new_tokens" mid = get_val "max_new_tokens" gp) as Em.
    { unfold get_val. rewrite Hmid_o; [done|]. by apply (bool_decide_unpack _); vm_compute. }
    rewrite Em in Hm. destruct (Hmid "min_new_tokens"%string "min_tokens"%string) as (H1 & _ & H3).
    { unfold GENERATION_SAMPLING_KEYS. rewrite !elem_of_cons. naive_solver. }
    destruct (decide (get_val "min_tokens" gp = VNone)) as [En|En].
    + by apply (H3 eq_refl m n).
    + apply (Hexpl m n Hm). rewrite <- Hn. unfold get_val. by rewrite H1.
Qed.

(** ** Examples *)

(** A model whose default profile has sampler defaults and a stop sequence *)
Definition ex_runtime : dict :=
  [("default_sampling", VDict [("temperature", VFloat (flit 3 5)); ("top_k", VInt 40); ("min_new_tokens", VInt 100)]);
   ("stop_tokens", VList [VStr "</s>"; VStr "END"])]%string.

Definition ex_model : ModelConfig :=
  mkConfig "m" (Some "m"%string) None None false None false
    (mkTasks None false false (Some (mkGenerate 4096 1024 [] [] None))) None
    [("default", mkProfile None (Some 1024) None (Some "a"%string) (mkOptions [] ex_runtime) None (Some 4096) None None None None)]%string.

Definition ex_request : dict := [("profile", VStr "default"); ("default_sampling", VDict [("top_k", VInt 20)])]%string.
Definition ex_params : dict :=
  [("max_new_tokens", VInt 50); ("temperature", VFloat (flit 1 5)); ("stop", VList [VStr "END"])]%string.

Lemma merge_runtime_options_spec_witness :
  ∃ merged r, merge_runtime_options_with_profile ex_model (Some ex_request) = Ret (merged, r) ∧
    dict_get "profile"%string merged = None ∧ dict_get "stop_tokens"%string merged = Some (VList [VStr "</s>"; VStr "END"]).
Proof.
  assert (∀ d, Some ex_request = Some d → dict_wf d) as Hwf.
  { intros d [= <-]. by apply (bool_decide_unpack _); vm_compute. }
  pose proof (merge_runtime_options_spec ex_model (Some ex_request) Hwf) as H.
  destruct (merge_runtime_options_with_profile ex_model (Some ex_request)) as [[merged r]|e] eqn:E; [|by vm_compute in E].
  exists merged, r. split; [done|]. destruct H as [_ H]. rewrite !H. revert E. vm_compute. by intros [= <- <-].
Defined.

Lemma generation_options_governed_witness :
  ∃ result, apply_generation_runtime_options ex_model (VDict ex_request) ex_params = Ret result ∧
    get_val "temperature" result = VFloat (flit 1 5) ∧ get_val "top_k" result = VInt 20 ∧ get_val "min_tokens" result = VInt 50 ∧
    50 <= 50 ∧ get_val "stop" result = VList [VStr "END"; VStr "</s>"].
Proof.
  destruct (apply_generation_runtime_options ex_model (VDict ex_request) ex_params) as [result|e] eqn:E; [|by vm_compute in E].
  assert (∀ d, VDict ex_request = VDict d → dict_wf d ∧ ∀ rs, dict_get "default_sampling"%string d = Some (VDict rs) → dict_wf rs) as Hwf.
  { intros d [= <-]. split; [by apply (bool_decide_unpack _); vm_compute|]. intros rs [= <-]. by apply (bool_decide_unpack _); vm_compute. }
  destruct (generation_options_governed ex_model (VDict ex_request) ex_params result Hwf E) as (_ & _ & (r & Hr & _ & Hstop) & Hmin).
  assert (get_val "temperature" result = VFloat (flit 1 5) ∧ get_val "top_k" result = VInt 20 ∧
          get_val "min_tokens" result = VInt 50 ∧ get_val "max_new_tokens" result = VInt 50) as (H1 & H2 & H3 & H4).
  { revert E. vm_compute. by intros [= <-]. }
  exists result. split_and!; [reflexivity|exact H1|exact H2|exact H3|exact (Hmin 50 50 H4 H3)|].
  vm_compute in Hr. injection Hr as <-. exact (proj2 Hstop).
Defined.
End RuntimeOptions.
