(* ===== verification/Inputs.v ===== *)
(** Request items and the exceptions of the inference paths: [types/inputs.py].

    [msgspec.convert], which turns a wire mapping into an [Item], is a parameter of
    [decode_item].  A value of a media mapping is what [media_bytes] can tell apart:
    [bytes], the two types it coerces, and everything else by its type name. *)

From stdpp Require Import strings.
From S2P Require Import Prelude PyDict Oom.
Import Oom.
Local Open Scope Z_scope.

Module Inputs.

(** Exceptions the queue executor tells apart.  [Infer] are those of [Oom.v]:
    [InvalidInputError] (with its subclass [InvalidMediaError]), [ResourceExhaustedError]
    and any other [Exception].  [CancelledError] is not an [Exception]. *)
Inductive exc :=
  | Infer (e : Oom.exn)
  | ValidationError (msg : string)
  | WorkerDrainedError (msg : string)
  | KeyError (msg : string)
  | CancelledError.

#[export] Instance exc_eq_dec : EqDecision exc.
Proof. solve_decision. Defined.

(** [str(exc)] *)
Definition exc_str (e : exc) : string :=
  match e with
  | Infer e => Oom.str e
  | ValidationError m | WorkerDrainedError m | KeyError m => m
  | CancelledError => ""
  end.

(** [is_oom_error] of any exception *)
Definition is_oom (e : exc) : bool :=
  match e with
  | Infer e => Oom.is_oom_error e
  | _ => Oom.is_oom_error (Oom.OtherError (exc_str e))
  end.

(** [isinstance(e, InvalidInputError)] *)
Definition is_invalid_input (e : exc) : bool := match e with Infer (Oom.InvalidInputError _) => true | _ => false end.

(** Caught by [except Exception] *)
Definition is_exception (e : exc) : bool := match e with CancelledError => false | _ => true end.

(** ** Media *)

Inductive mval :=
  | MBytes (b : list Byte.byte)
  | MByteArray (b : list Byte.byte)
  | MMemoryView (b : list Byte.byte)
  | MOther (type_name : string).

Inductive media :=
  | AudioStruct (data : mval)                   (* an [AudioInput] *)
  | MediaDict (d : list (string * mval))
  | NotAMapping.

Definition not_bytes (kind type_name : string) : exc :=
  Infer (Oom.InvalidInputError (kind +:+ " data must be bytes, got " +:+ type_name +:+
    " (base64 JSON strings must be decoded to bytes before inference)")).

Definition no_data (kind : string) : exc :=
  Infer (Oom.InvalidInputError (kind +:+ " input must be a mapping with a 'data' field")).

Definition type_name (v : mval) : string :=
  match v with MBytes _ => "bytes" | MByteArray _ => "bytearray" | MMemoryView _ => "memoryview" | MOther n => n end.

(** [media_bytes] *)
Definition media_bytes (m : media) (kind : string) : res exc (list Byte.byte) :=
  match m with
  | AudioStruct (MBytes b) => Ret b
  | AudioStruct v => Raise (not_bytes kind (type_name v))
  | NotAMapping => Raise (no_data kind)
  | MediaDict d =>
      match dict_get "data"%string d with
      | None => Raise (no_data kind)
      | Some (MBytes b) | Some (MByteArray b) | Some (MMemoryView b) => Ret b
      | Some (MOther n) => Raise (not_bytes kind n)
      end
  end.

(** [is_image_input], [is_video_input], [is_document_input]; [is_audio_input] *)
Definition is_media_dict (m : media) : bool :=
  match m with MediaDict d => match dict_get "data"%string d with Some (MBytes _) => true | _ => false end | _ => false end.
Definition is_audio_input (m : media) : bool :=
  match m with AudioStruct (MBytes _) => true | AudioStruct _ => false | _ => is_media_dict m end.

(** ** Items *)

(** What the server reads of an [Item]: the number of images, whether there is a video or
    audio, and the document. *)
Record Item := mkItem {
  item_id : option string;
  item_text : option string;
  item_images : option nat;
  item_video : bool;
  item_audio : bool;
  item_document : option media;
}.

(** [decode_item] *)
Definition decode_item {V} (convert : list (string * V) → res exc Item) (raw : list (string * V)) : res exc Item :=
  match dict_get "content"%string raw with
  | Some content => if dict_mem "text"%string raw then convert raw else convert (dict_set "text"%string content raw)
  | None => convert raw
  end.

(** A media value the guards accept yields its bytes; every failure is invalid input. *)
Lemma media_bytes_total m kind :
  match media_bytes m kind with
  | Ret _ => True
  | Raise e => is_invalid_input e = true ∧ is_audio_input m = false
  end.
Proof.
  destruct m as [[]|d|]; cbn; try done. destruct (dict_get "data"%string d) as [[]|]; done.
Qed.

(** The alias never overrides a text, and is never looked at when there is one. *)
Lemma decode_item_text {V} (convert : list (string * V) → res exc Item) raw t :
  dict_get "text"%string raw = Some t → decode_item convert raw = convert raw.
Proof. intros H. unfold decode_item, dict_mem. rewrite H. by destruct (dict_get "content"%string raw). Qed.
End Inputs.
