(* ===== verification/TextPrep.v ===== *)
(** Text preprocessing: [core/preprocessor/text.py], the prepared items of
    [core/prepared.py] and the character estimate of [core/text_tokens.py].

    The HuggingFace tokenizer is a parameter ([tokenize]: the texts and the length limit,
    to a pair of token ids and attention mask per text, or an exception), as is the hash
    behind [tokenizer_id].  [try_prepare_from_prepared_tokens] builds a batch from tokens
    the sidecar made, tokenizing only what it left out. *)

From stdpp Require Import strings.
From S2P Require Import Prelude PyFloat PyDict Inputs.
Import Inputs.
Local Open Scope Z_scope.

Module TextPrep.

(** ** Data *)

Record TextPayload := mkPayload { input_ids : list Z; attention_mask : list Z }.

Record PreparedItem := mkPrepared { payload : TextPayload; cost : Z; original_index : Z }.

Record PreparedBatch := mkBatch { items : list PreparedItem; total_cost : Z }.

(** [PreparedBatch.sorted_by_cost] *)
Definition sorted_by_cost (b : PreparedBatch) : PreparedBatch :=
  mkBatch (stable_sort (λ x y, cost x <=? cost y) (items b)) (total_cost b).

(** [PreparedTokens] of [ipc_types.py] *)
Record PreparedTokens := mkTokens {
  pt_tokenizer_id : string;
  pt_input_ids : list (list Z);
  pt_attention_mask : list (list Z);
  pt_token_type_ids : list (list Z);
  pt_max_seq_len : Z;
}.

(** ** [TextPreprocessor] *)

Section text.
Context (tokenize : list string → option Z → res exc (list (list Z * list Z))).

(** [tokenizer_id]: the cached value, and the hash; [None] for a slow tokenizer or when
    hashing fails *)
Definition tokenizer_id (cached hash : option string) : option string * option string :=
  match cached with
  | Some i => (cached, Some i)
  | None => match hash with Some h => (Some h, Some h) | None => (None, None) end
  end.

(** [kwargs["max_length"]] is set when the configured length is truthy *)
Definition max_length (max_sequence_length : option Z) : option Z :=
  match max_sequence_length with Some n => if n =? 0 then None else Some n | None => None end.

(** The loop that numbers the payloads *)
Fixpoint number_items (i : Z) (l : list TextPayload) : list PreparedItem :=
  match l with
  | [] => []
  | p :: l' => mkPrepared p (Z.of_nat (length (input_ids p))) i :: number_items (i + 1) l'
  end.

Definition batch_of (l : list TextPayload) : PreparedBatch :=
  mkBatch (number_items 0 l) (sumZ (λ p, Z.of_nat (length (input_ids p))) l).

(** [prepare] *)
Definition prepare (max_sequence_length : option Z) (its : list Item) : res exc PreparedBatch :=
  match tokenize ((λ it, default ""%string (item_text it)) <$> its) (max_length max_sequence_length) with
  | Raise e => Raise e
  | Ret encoded => Ret (batch_of ((λ '(ids, mask), mkPayload ids mask) <$> encoded))
  end.

(** What the classification loop makes of one item *)
Inductive class := Fast (p : TextPayload) | Slow | Fallback.

Definition classify (my_id : string) (model_max_seq : option Z) (pt : option PreparedTokens) : class :=
  match pt with
  | None => Slow
  | Some pt =>
      if negb (bool_decide (pt_tokenizer_id pt = my_id)) then Fallback
      else match pt_input_ids pt with
           | [ids] =>
               if match model_max_seq with Some m => m <? pt_max_seq_len pt | None => false end then Fallback
               else if existsb (existsb (λ t, negb (t =? 0))) (pt_token_type_ids pt) then Slow
               else match pt_attention_mask pt with
                    | [] => Fast (mkPayload ids (replicate (length ids) 1))
                    | mask :: rest =>
                        if (length rest =? 0)%nat && (length mask =? length ids)%nat then Fast (mkPayload ids mask) else Fallback
                    end
           | _ => Fallback
           end
  end.

(** The classification loop: [fast_payloads] and [slow_indices] *)
Fixpoint classify_all (my_id : string) (model_max_seq : option Z) (i : nat) (pts : list (option PreparedTokens)) :
    option (list (nat * TextPayload) * list nat) :=
  match pts with
  | [] => Some ([], [])
  | pt :: pts' =>
      match classify my_id model_max_seq pt with
      | Fallback => None
      | c =>
          match classify_all my_id model_max_seq (S i) pts' with
          | None => None
          | Some (fast, slow) =>
              match c with Fast p => Some ((i, p) :: fast, slow) | _ => Some (fast, i :: slow) end
          end
      end
  end.

(** [slow_payload_by_original_index]: the prepared subset, by the index of the request *)
Fixpoint splice (slow_indices : list nat) (l : list PreparedItem) : option (list (nat * TextPayload)) :=
  match l with
  | [] => Some []
  | p :: l' =>
      match slow_indices !! Z.to_nat (original_index p), splice slow_indices l' with
      | Some i, Some d => Some ((i, payload p) :: d)
      | _, _ => None
      end
  end.

(** The assembly loop *)
Fixpoint assemble (fast slow : list (nat * TextPayload)) (i n : nat) : option (list TextPayload) :=
  match n with
  | O => Some []
  | S n' =>
      match match dict_get i fast with Some p => Some p | None => dict_get i slow end with
      | None => None
      | Some p => match assemble fast slow (S i) n' with Some l => Some (p :: l) | None => None end
      end
  end.

(** [try_prepare_from_prepared_tokens]; the result [None] sends the caller to [prepare].
    [slow_indices[k]] is in range: [prepare] numbers its items. *)
Definition try_prepare_from_prepared_tokens (my_id : option string) (max_sequence_length : option Z) (its : list Item)
    (pts : list (option PreparedTokens)) : option PreparedBatch :=
  match its with
  | [] => Some (mkBatch [] 0)
  | _ =>
      if negb (length pts =? length its)%nat then None
      else
        match my_id with
        | None => None
        | Some my_id =>
            match classify_all my_id max_sequence_length 0 pts with
            | None | Some ([], _) => None
            | Some (fast, slow_indices) =>
                match slow_indices with
                | [] => batch_of <$> assemble fast [] 0 (length its)
                | _ =>
                    match prepare max_sequence_length (omap (λ i, its !! i) slow_indices) with
                    | Raise _ => None
                    | Ret slow_batch =>
                        match splice slow_indices (items slow_batch) with
                        | None => None
                        | Some slow => batch_of <$> assemble fast slow 0 (length its)
                        end
                    end
                end
            end
        end
  end.
End text.

(** [collate]: the padded rows; torch makes tensors of them *)
Definition collate (pad_token_id : Z) (prepared : list PreparedItem) : list (list Z) * list (list Z) :=
  let width := foldr (λ p m, Nat.max (length (input_ids (payload p))) m) 0%nat prepared in
  let pad l x := l ++ replicate (width - length l) x in
  ((λ p, pad (input_ids (payload p)) pad_token_id) <$> prepared,
   (λ p, attention_mask (payload p) ++ replicate (width - length (input_ids (payload p))) 0) <$> prepared).

(** ** [CharCountPreprocessor] *)

(** [max(1, int(len(text) / chars_per_token))]; a quotient that is no number raises *)
Definition char_estimate (chars_per_token : float) (n : nat) : option Z :=
  Z.max 1 <$> ftrunc (fdiv (f_of_Z (Z.of_nat n)) chars_per_token).

Fixpoint char_items (chars_per_token : float) (i : Z) (its : list Item) : option (list PreparedItem) :=
  match its with
  | [] => Some []
  | it :: its' =>
      match char_estimate chars_per_token (String.length (default ""%string (item_text it))),
            char_items chars_per_token (i + 1) its' with
      | Some c, Some l => Some (mkPrepared (mkPayload [] []) c i :: l)
      | _, _ => None
      end
  end.

Definition char_prepare (chars_per_token : float) (its : list Item) : option PreparedBatch :=
  (λ l, mkBatch l (sumZ cost l)) <$> char_items chars_per_token 0 its.

(** [estimate_tokens_from_chars] *)
Definition estimate_tokens_from_chars (n : nat) (chars_per_token : float) : res string Z :=
  if fle chars_per_token f0 then Raise "chars_per_token must be positive"%string
  else if (n =? 0)%nat then Ret 0
  else match char_estimate chars_per_token n with Some c => Ret c | None => Raise "cannot convert float to integer"%string end.

(** ** The fast path and the tokenizer *)

Lemma classify_all_spec my_id mx i pts fast slow :
  classify_all my_id mx i pts = Some (fast, slow) →
  (∀ k, dict_get k fast = if decide (i ≤ k)%nat then
          match pts !! (k - i)%nat with Some pt => match classify my_id mx pt with Fast p => Some p | _ => None end | None => None end
        else None) ∧
  NoDup slow ∧
  ∀ k, k ∈ slow ↔ (i ≤ k)%nat ∧ ∃ pt, pts !! (k - i)%nat = Some pt ∧ classify my_id mx pt = Slow.
Proof.
  revert i fast slow. induction pts as [|pt pts IH]; intros i fast slow H; cbn [classify_all] in H.
  { injection H as <- <-. split; [|split; [constructor|]].
    - intros k. case_decide; [|done]. by rewrite lookup_nil.
    - intros k. rewrite elem_of_nil. split; [done|]. intros (_ & pt & Hp & _). by rewrite lookup_nil in Hp. }
  destruct (classify my_id mx pt) as [p| |] eqn:Ec; [..|done];
    destruct (classify_all my_id mx (S i) pts) as [[fast' slow']|] eqn:Ea; try done; injection H as <- <-;
    destruct (IH _ _ _ Ea) as (Hf & Hnd & Hs).
  all: assert (∀ k, (i ≤ k)%nat → k ≠ i → (k - i = S (k - S i))%nat ∧ (S i ≤ k)%nat) as Hk by (intros; lia).
  - split; [|split; [done|]].
    + intros k. cbn [dict_get]. destruct (decide (k = i)) as [->|Hne].
      * rewrite decide_True by lia. rewrite Nat.sub_diag. cbn. by rewrite Ec.
      * rewrite Hf. repeat case_decide; try lia; [|done]. destruct (Hk k) as [-> _]; done.
    + intros k. rewrite Hs. split.
      * intros (Hle & pt' & Hp & Hc). split; [lia|]. exists pt'. destruct (Hk k) as [-> _]; [lia..|]. done.
      * intros (Hle & pt' & Hp & Hc). destruct (decide (k = i)) as [->|Hne].
        -- rewrite Nat.sub_diag in Hp. cbn in Hp. congruence.
        -- destruct (Hk k) as [E ?]; [done..|]. rewrite E in Hp. split; [done|]. by exists pt'.
  - split; [|split].
    + intros k. rewrite Hf. destruct (decide (k = i)) as [->|Hne].
      * rewrite decide_False, decide_True by lia. rewrite Nat.sub_diag. cbn. by rewrite Ec.
      * repeat case_decide; try lia; [|done]. destruct (Hk k) as [-> _]; done.
    + constructor; [|done]. rewrite Hs. lia.
    + intros k. rewrite elem_of_cons, Hs. split.
      * intros [->|(Hle & pt' & Hp & Hc)].
        -- split; [lia|]. exists pt. by rewrite Nat.sub_diag.
        -- split; [lia|]. exists pt'. destruct (Hk k) as [-> _]; [lia..|]. done.
      * intros (Hle & pt' & Hp & Hc). destruct (decide (k = i)) as [->|Hne]; [by left|right].
        destruct (Hk k) as [E ?]; [done..|]. rewrite E in Hp. split; [done|]. by exists pt'.
Qed.

Lemma classify_all_ok my_id mx i pts :
  (∀ pt, pt ∈ pts → classify my_id mx pt ≠ Fallback) → ∃ fs, classify_all my_id mx i pts = Some fs.
Proof.
  revert i. induction pts as [|pt pts IH]; intros i H; cbn [classify_all]; [eauto|].
  destruct (IH (S i)) as [[fast slow] ->]; [intros; apply H; by right|].
  destruct (classify my_id mx pt) eqn:E; [eauto..|]. by destruct (H pt (list_elem_of_here _ _)).
Qed.

Lemma classify_all_no_fallback my_id mx i pts fs :
  classify_all my_id mx i pts = Some fs → ∀ pt, pt ∈ pts → classify my_id mx pt ≠ Fallback.
Proof.
  revert i fs. induction pts as [|pt pts IH]; intros i fs H pt' Hin; [by apply elem_of_nil in Hin|]. cbn [classify_all] in H.
  destruct (classify_all my_id mx (S i) pts) as [[fast slow]|] eqn:E; [|by destruct (classify my_id mx pt)].
  apply elem_of_cons in Hin as [->|Hin]; [by destruct (classify my_id mx pt)|by eapply IH].
Qed.

Lemma assemble_seq (f : nat → TextPayload) fast slow i n :
  (∀ k, (i ≤ k < i + n)%nat → match dict_get k fast with Some p => Some p | None => dict_get k slow end = Some (f k)) →
  assemble fast slow i n = Some (f <$> seq i n).
Proof.
  revert i. induction n as [|n IH]; intros i H; cbn [assemble seq fmap list_fmap]; [done|].
  rewrite H by lia. rewrite IH; [done|]. intros k Hk. apply H. lia.
Qed.

(** A numbered batch spliced back: the payloads at the indices they came from *)
Lemma splice_numbered (idx : list nat) (i : nat) (ps : list TextPayload) :
  (i + length ps ≤ length idx)%nat →
  splice idx (number_items (Z.of_nat i) ps) = Some (zip (drop i idx) ps).
Proof.
  revert i. induction ps as [|p ps IH]; intros i Hl; cbn [number_items splice length] in *; [by rewrite zip_with_nil_r|].
  replace (Z.of_nat i + 1) with (Z.of_nat (S i)) by lia. rewrite IH by lia. cbn [original_index payload]. rewrite Nat2Z.id.
  destruct (lookup_lt_is_Some_2 idx i) as [k Hk]; [lia|]. rewrite Hk, (drop_S idx k i) by done. done.
Qed.

Lemma dict_get_zip_fmap (idx : list nat) (f : nat → TextPayload) k :
  dict_get k (zip idx (f <$> idx)) = if decide (k ∈ idx) then Some (f k) else None.
Proof.
  induction idx as [|i idx IH]; cbn; [done|]. destruct (decide (k = i)) as [->|Hne].
  - rewrite decide_True by left. done.
  - rewrite IH. destruct (decide (k ∈ idx)), (decide (k ∈ i :: idx)) as [H|H]; try done.
    + destruct H. by right.
    + apply elem_of_cons in H as [?|?]; done.
Qed.

(** ** Tokens that may be used *)

(** Made by this tokenizer, for one text, within the model's length *)
Definition same_tokenizer (my_id : string) (mx : option Z) (pt : PreparedTokens) (ids : list Z) : Prop :=
  pt_tokenizer_id pt = my_id ∧ (∀ m, mx = Some m → pt_max_seq_len pt <= m) ∧ pt_input_ids pt = [ids].

Definition one_segment (pt : PreparedTokens) : Prop := Forall (Forall (λ t, t = 0)) (pt_token_type_ids pt).

(** The mask the tokens come with, or stand for *)
Definition mask_of (pt : PreparedTokens) (ids mask : list Z) : Prop :=
  (pt_attention_mask pt = [] ∧ mask = replicate (length ids) 1) ∨
  (pt_attention_mask pt = [mask] ∧ length mask = length ids).

(** The tokens stand for the payload [p]. *)
Definition usable (my_id : string) (mx : option Z) (pt : PreparedTokens) (p : TextPayload) : Prop :=
  same_tokenizer my_id mx pt (input_ids p) ∧ one_segment pt ∧ mask_of pt (input_ids p) (attention_mask p).

(** The tokens give no sign that the sidecar and the worker disagree. *)
Definition no_drift (my_id : string) (mx : option Z) (pt : PreparedTokens) : Prop :=
  ∃ ids, same_tokenizer my_id mx pt ids ∧ (one_segment pt → ∃ mask, mask_of pt ids mask).

Lemma one_segment_test pt : existsb (existsb (λ t, negb (t =? 0))) (pt_token_type_ids pt) = false ↔ one_segment pt.
Proof.
  unfold one_segment. induction (pt_token_type_ids pt) as [|row rows IH]; cbn; [done|].
  rewrite orb_false_iff, Forall_cons, IH. apply and_iff_compat_r. clear IH. induction row as [|t row IH]; cbn; [done|].
  rewrite orb_false_iff, Forall_cons, IH, negb_false_iff, Z.eqb_eq. done.
Qed.

Lemma fits_test (mx : option Z) n :
  match mx with Some m => m <? n | None => false end = false ↔ ∀ m, mx = Some m → n <= m.
Proof.
  destruct mx as [m|]; [|done]. rewrite Z.ltb_ge. split; [by intros ? ? [= <-]|auto].
Qed.

(** The guards of the loop find out which. *)
Lemma classify_spec my_id mx pt :
  match classify my_id mx (Some pt) with
  | Fast p => usable my_id mx pt p
  | Slow => no_drift my_id mx pt ∧ ¬ one_segment pt
  | Fallback => ¬ no_drift my_id mx pt
  end.
Proof.
  unfold classify, usable, no_drift, same_tokenizer, mask_of. pose proof (fits_test mx (pt_max_seq_len pt)) as Hfit.
  pose proof (one_segment_test pt) as Hseg. case_bool_decide as Hid; cbn [negb]; [|naive_solver].
  destruct (pt_input_ids pt) as [|ids [|]] eqn:Ei; [naive_solver| |naive_solver].
  destruct (match mx with Some m => m <? pt_max_seq_len pt | None => false end).
  { intros (? & (_ & Hm & _) & _). apply Hfit in Hm. done. }
  destruct (existsb _ (pt_token_type_ids pt)).
  { assert (¬ one_segment pt) as Hn by (by intros ?%Hseg). split; [|done]. exists ids. split; [naive_solver|done]. }
  destruct (pt_attention_mask pt) as [|mask [|m' ms]] eqn:Em; cbn [length Nat.eqb andb].
  - cbn. split; [naive_solver|]. split; [by apply Hseg|]. by left.
  - destruct (Nat.eqb_spec (length mask) (length ids)) as [Hl|Hl]; cbn.
    + split; [naive_solver|]. split; [by apply Hseg|]. by right.
    + intros (? & (_ & _ & [= <-]) & Hm). destruct Hm as [? [[? _]|[[= <-] ?]]]; [by apply Hseg|done|done].
  - intros (? & _ & Hm). destruct Hm as [? [[? _]|[[=] _]]]; [by apply Hseg|done].
Qed.

Lemma usable_unique my_id mx pt p q : usable my_id mx pt p → usable my_id mx pt q → p = q.
Proof.
  destruct p as [i1 m1], q as [i2 m2]. unfold usable, same_tokenizer, mask_of. cbn.
  intros ((_ & _ & E1) & _ & H1) ((_ & _ & E2) & _ & H2). assert (i1 = i2) as <- by congruence. f_equal.
  destruct H1 as [[? ->]|[? _]], H2 as [[? ->]|[? _]]; congruence.
Qed.

Lemma usable_no_drift my_id mx pt p : usable my_id mx pt p → no_drift my_id mx pt.
Proof. intros (H1 & H2 & H3). exists (input_ids p). eauto. Qed.

Lemma classify_fast my_id mx pt p : classify my_id mx (Some pt) = Fast p ↔ usable my_id mx pt p.
Proof.
  pose proof (classify_spec my_id mx pt) as H. split; [by intros E; rewrite E in H|]. intros Hu.
  destruct (classify my_id mx (Some pt)) as [q| |]; [by rewrite (usable_unique _ _ _ _ _ H Hu)| |].
  - by destruct H as [_ []]; destruct Hu as (_ & ? & _).
  - by destruct H; eapply usable_no_drift.
Qed.

Lemma classify_fallback my_id mx pt : classify my_id mx (Some pt) ≠ Fallback ↔ no_drift my_id mx pt.
Proof.
  pose proof (classify_spec my_id mx pt) as H. destruct (classify my_id mx (Some pt)) as [q| |]; [|naive_solver|naive_solver].
  split; [|done]. intros _. by eapply usable_no_drift.
Qed.

Section equivalence.
Context (tokenize : list string → option Z → res exc (list (list Z * list Z))) (tok : string → option Z → list Z * list Z).
Context (Htok : ∀ texts m, tokenize texts m = Ret ((λ t, tok t m) <$> texts)).
Context (mx : option Z) (its : list Item).

Definition text_payload (it : Item) : TextPayload :=
  let '(ids, mask) := tok (default ""%string (item_text it)) (max_length mx) in mkPayload ids mask.

Definition payload_at (k : nat) : TextPayload := match its !! k with Some it => text_payload it | None => mkPayload [] [] end.

Lemma prepare_batch l : prepare tokenize mx l = Ret (batch_of (text_payload <$> l)).
Proof using Htok.
  unfold prepare. rewrite Htok. do 2 f_equal. rewrite <- !list_fmap_compose. apply list_fmap_ext. intros i it _.
  unfold text_payload. cbn. by destruct (tok _ _).
Qed.

Lemma payload_at_seq : payload_at <$> seq 0 (length its) = text_payload <$> its.
Proof using.
  apply list_eq. intros k. rewrite !list_lookup_fmap. destruct (decide (k < length its)%nat) as [Hk|Hk].
  - rewrite lookup_seq_lt by done. unfold payload_at. cbn. destruct (lookup_lt_is_Some_2 its k Hk) as [it Hit]. by rewrite Hit.
  - rewrite (lookup_ge_None_2 its) by lia. rewrite lookup_seq_ge by lia. done.
Qed.

Lemma omap_payloads (idx : list nat) :
  (∀ k, k ∈ idx → (k < length its)%nat) → text_payload <$> omap (λ i, its !! i) idx = payload_at <$> idx.
Proof using.
  intros H. induction idx as [|k idx IH]; [done|]. cbn.
  destruct (lookup_lt_is_Some_2 its k) as [it Hit]; [apply H; left|]. unfold payload_at at 1. rewrite Hit. cbn. f_equal.
  apply IH. intros; apply H; by right.
Qed.

Context (my_id : string) (pts : list (option PreparedTokens)).

(** What a matching tokenizer id stands for: the tokens of an item that carry it, were made
    for one text and within the model's length, are the tokenizer's. *)
Definition trusted : Prop :=
  ∀ i it pt p, its !! i = Some it → pts !! i = Some (Some pt) → usable my_id mx pt p → p = text_payload it.

Lemma assemble_all fast slow d :
  trusted → length pts = length its → classify_all my_id mx 0 pts = Some (fast, slow) →
  (∀ k, dict_get k d = if decide (k ∈ slow) then Some (payload_at k) else None) →
  assemble fast d 0 (length its) = Some (text_payload <$> its).
Proof using.
  intros Htrust Hl Hc Hd. destruct (classify_all_spec _ _ _ _ _ _ Hc) as (Hf & _ & Hs).
  rewrite (assemble_seq payload_at); [by rewrite payload_at_seq|]. intros k Hk.
  rewrite Hf, Hd, Nat.sub_0_r. rewrite decide_True by lia.
  destruct (lookup_lt_is_Some_2 its k) as [it Hit]; [lia|]. destruct (lookup_lt_is_Some_2 pts k) as [pt Hpt]; [lia|].
  rewrite Hpt. destruct (classify my_id mx pt) as [p| |] eqn:Ec.
  - destruct pt as [pt|]; [|done]. rewrite (Htrust k it pt p) by (try done; by apply classify_fast). unfold payload_at. by rewrite Hit.
  - rewrite decide_True; [done|]. apply Hs. rewrite Nat.sub_0_r. split; [lia|]. eauto.
  - by destruct (classify_all_no_fallback _ _ _ _ _ Hc pt (list_elem_of_lookup_2 _ _ _ Hpt)).
Qed.

(** Past the guards the batch is the tokenizer's. *)
Lemma try_prepare_batch fast slow :
  trusted → length pts = length its → classify_all my_id mx 0 pts = Some (fast, slow) → fast ≠ [] → its ≠ [] →
  try_prepare_from_prepared_tokens tokenize (Some my_id) mx its pts = Some (batch_of (text_payload <$> its)).
Proof using Htok.
  intros Htrust Hl Hc Hne Hits. unfold try_prepare_from_prepared_tokens.
  replace (match its with [] => _ | _ => _ end) with
    (if negb (length pts =? length its)%nat then None else
     match classify_all my_id mx 0 pts with
     | None | Some ([], _) => None
     | Some (fast, slow_indices) =>
         match slow_indices with
         | [] => batch_of <$> assemble fast [] 0 (length its)
         | _ => match prepare tokenize mx (omap (λ i, its !! i) slow_indices) with
                | Raise _ => None
                | Ret slow_batch => match splice slow_indices (items slow_batch) with
                                    | None => None
                                    | Some slow => batch_of <$> assemble fast slow 0 (length its)
                                    end
                end
         end
     end) by by destruct its.
  rewrite Hl, Nat.eqb_refl, Hc. cbn [negb]. destruct fast as [|e fast]; [done|].
  destruct (classify_all_spec _ _ _ _ _ _ Hc) as (_ & _ & Hs).
  destruct slow as [|i0 slow].
  - erewrite assemble_all; [done|done|done|exact Hc|]. intros k. cbn. by rewrite decide_False by apply not_elem_of_nil.
  - rewrite prepare_batch. cbn [items batch_of]. rewrite omap_payloads.
    + rewrite (splice_numbered _ 0) by (rewrite length_fmap; lia). erewrite assemble_all; [done|done|done|exact Hc|].
      intros k. rewrite drop_0. apply dict_get_zip_fmap.
    + intros k (_ & pt & Hp & _)%Hs. rewrite Nat.sub_0_r in Hp. rewrite <- Hl. by eapply lookup_lt_Some.
Qed.
End equivalence.

(** Past the guards the fast path answers. *)
Lemma try_prepare_answers tokenize my_id mx its pts b :
  its ≠ [] → try_prepare_from_prepared_tokens tokenize (Some my_id) mx its pts = Some b →
  length pts = length its ∧ ∃ e fast slow, classify_all my_id mx 0 pts = Some (e :: fast, slow).
Proof.
  unfold try_prepare_from_prepared_tokens. destruct its as [|it its]; [done|]. intros _.
  destruct (Nat.eqb_spec (length pts) (length (it :: its))) as [Hl|]; [|done]. cbn [negb].
  destruct (classify_all my_id mx 0 pts) as [[[|e fast] slow]|]; eauto 10; done.
Qed.

(** C34 — the fast path is the tokenizer.  Take a tokenizer that treats each text on its own,
    and items whose tokens are the tokenizer's if they carry its id, were made for one text
    and within the model's length.  Whenever [try_prepare_from_prepared_tokens] answers with
    a batch, it is the batch [prepare] makes of all the items: the same tokens, masks, costs
    and indices, in order, whether an item came with tokens or was tokenized on the side.
    And it answers exactly when there is an entry per item, no item shows drift (another
    tokenizer id, not one row, a longer limit than the model's, a mask that does not fit),
    and one came with usable tokens. *)
Theorem fast_path_equivalent tokenize (tok : string → option Z → list Z * list Z) (my_id : string) mx its pts :
  (∀ texts m, tokenize texts m = Ret ((λ t, tok t m) <$> texts)) → trusted tok mx its my_id pts →
  (∀ b, try_prepare_from_prepared_tokens tokenize (Some my_id) mx its pts = Some b → prepare tokenize mx its = Ret b) ∧
  (its ≠ [] →
   is_Some (try_prepare_from_prepared_tokens tokenize (Some my_id) mx its pts) ↔
   length pts = length its ∧ (∀ pt, Some pt ∈ pts → no_drift my_id mx pt) ∧ ∃ pt p, Some pt ∈ pts ∧ usable my_id mx pt p).
Proof.
  intros Htok Htrust. rewrite (prepare_batch tokenize tok) by done. split.
  - intros b H. destruct (decide (its = [])) as [->|Hits]; [by injection H as <-|].
    destruct (try_prepare_answers _ _ _ _ _ _ Hits H) as (Hl & e & fast & slow & Hc).
    rewrite (try_prepare_batch tokenize tok Htok mx its my_id pts (e :: fast) slow Htrust Hl Hc) in H by done.
    by injection H as <-.
  - intros Hits. split.
    + intros [b Hb]. destruct (try_prepare_answers _ _ _ _ _ _ Hits Hb) as (Hl & [k p] & fast & slow & Hc). split; [done|]. split.
      * intros pt Hin. apply classify_fallback. by eapply classify_all_no_fallback.
      * destruct (classify_all_spec _ _ _ _ _ _ Hc) as (Hf & _). specialize (Hf k). cbn in Hf. rewrite decide_True in Hf by done.
        rewrite decide_True, Nat.sub_0_r in Hf by lia. destruct (pts !! k) as [[pt|]|] eqn:Hk; try done. 
        destruct (classify my_id mx (Some pt)) as [q| |] eqn:Eq; try done. injection Hf as ->.
        exists pt, q. split; [by eapply list_elem_of_lookup_2|by apply classify_fast].
    + intros (Hl & Hnd & pt & p & Hin & Hu%classify_fast).
      destruct (classify_all_ok my_id mx 0 pts) as [[fast slow] Hc].
      { intros [q|] Hq; [by apply classify_fallback, Hnd|done]. }
      eexists. eapply try_prepare_batch; [done|done|done|exact Hc| |done].
      intros ->. destruct (classify_all_spec _ _ _ _ _ _ Hc) as (Hf & _). apply list_elem_of_lookup in Hin as [k Hk].
      specialize (Hf k). rewrite decide_True, Nat.sub_0_r, Hk, Hu in Hf by lia. done.
Qed.

(** Padding makes the rows equally long and keeps the tokens in front. *)
Lemma collate_rows pad prepared i p :
  prepared !! i = Some p → length (attention_mask (payload p)) = length (input_ids (payload p)) →
  ∃ row mask n, (collate pad prepared).1 !! i = Some row ∧ (collate pad prepared).2 !! i = Some mask ∧
    row = input_ids (payload p) ++ replicate n pad ∧ mask = attention_mask (payload p) ++ replicate n 0 ∧
    length row = foldr (λ p m, Nat.max (length (input_ids (payload p))) m) 0%nat prepared ∧ length mask = length row.
Proof.
  intros Hp Hm. unfold collate. cbn [fst snd]. rewrite !list_lookup_fmap, Hp. cbn.
  assert (length (input_ids (payload p)) ≤ foldr (λ p m, Nat.max (length (input_ids (payload p))) m) 0%nat prepared)%nat as Hle.
  { apply list_elem_of_lookup_2 in Hp. clear Hm. induction prepared as [|q l IH]; [by apply elem_of_nil in Hp|].
    cbn. apply elem_of_cons in Hp as [->|Hp]; [lia|]. specialize (IH Hp). lia. }
  eexists _, _, _. repeat split; rewrite !length_app, ?length_replicate; lia.
Qed.

(** ** Example: one text tokenized by the sidecar, one left to Python *)

Definition ex_tok (t : string) (m : option Z) : list Z * list Z := ([101; Z.of_nat (String.length t); 102], [1; 1; 1]).
Definition ex_tokenize (texts : list string) (m : option Z) : res exc (list (list Z * list Z)) := Ret ((λ t, ex_tok t m) <$> texts).
Definition ex_items : list Item := [mkItem None (Some "hello"%string) None false false None; mkItem None (Some "hi"%string) None false false None].
Definition ex_tokens : list (option PreparedTokens) := [Some (mkTokens "id" [[101; 5; 102]] [] [] 512); None].

Lemma fast_path_equivalent_witness :
  ∃ b, try_prepare_from_prepared_tokens ex_tokenize (Some "id"%string) (Some 512) ex_items ex_tokens = Some b ∧
       prepare ex_tokenize (Some 512) ex_items = Ret b ∧ total_cost b = 6.
Proof.
  destruct (fast_path_equivalent ex_tokenize ex_tok "id" (Some 512) ex_items ex_tokens) as [H1 H2]; [done|..].
  { intros i it pt p Hi Hp Hc%classify_fast. destruct i as [|[|i]]; cbn in Hi, Hp; try done. injection Hi as <-. injection Hp as <-.
    vm_compute in Hc. by injection Hc as <-. }
  destruct (proj2 (H2 ltac:(discriminate))) as [b Hb].
  { split; [reflexivity|]. split.
    - intros pt. unfold ex_tokens. rewrite !elem_of_cons, elem_of_nil. intros [[= ->]|[[=]|[]]]. by apply classify_fallback.
    - eexists _, _. split; [left|]. by apply classify_fast. }
  exists b. split; [done|]. split; [by apply H1|]. revert Hb. vm_compute. by intros [= <-].
Defined.
End TextPrep.
