(* ===== verification/EncodePipeline.v ===== *)
(** The encode pipeline: [core/encode_pipeline.py].

    [resolve_encode_output_types] decides what the adapter has to produce and what the
    response shows; [run_encode] prepares the items, runs them through the worker or
    directly through the adapter, settles the unit counts and formats the output.  The
    registry, its preprocessors and the worker are the services of [EncodeServices]: each
    may change the world it is called in and may raise.  Measured times are left out. *)

From stdpp Require Import strings.
From S2P Require Import Prelude PyDict PyStr Oom Handlers PyVal ModelConfig RuntimeOptions Metering Inputs TextPrep.
Import Handlers PyVal ModelConfig RuntimeOptions Inputs.
Local Open Scope Z_scope.
Local Open Scope py_scope.

Module EncodePipeline.

(** ** Output types *)

(** [_ENCODE_OUTPUT_TYPES] *)
Definition ENCODE_OUTPUT_TYPES : list string := ["dense"; "sparse"; "multivector"]%string.

Definition bad_output_type : opt_error :=
  InvalidInputError "'output_types' entries must be one of ['dense', 'multivector', 'sparse']".

(** [_validated_encode_output_types] *)
Definition validated_encode_output_types (value : pyval) : opt_res (list string) :=
  match value with
  | VList ((_ :: _) as l) =>
      res_map (λ v, match v with
                    | VStr s => if bool_decide (s ∈ ENCODE_OUTPUT_TYPES) then Ret s else Raise bad_output_type
                    | _ => Raise bad_output_type
                    end) l
  | _ => Raise (InvalidInputError "'output_types' must be a non-empty array")
  end.

(** The message lists two sets; Python prints their elements in no fixed order. *)
Definition unsupported_outputs (id : string) (unsupported supported : list string) : opt_error :=
  InvalidInputError ("Model " +:+ quoted id +:+ " does not support output types: {" +:+ join ", " (quoted <$> unsupported) +:+
                     "}. Supported: {" +:+ join ", " (quoted <$> supported) +:+ "}").

(** [resolve_encode_output_types]: (adapter output types, response output types) *)
Definition resolve_encode_output_types (c : ModelConfig) (request_output_types : option (list string))
    (selected_profile : ResolvedProfile) (effective_options : dict) : opt_res (list string * list string) :=
  let requested_outputs :=
    match dict_get "output_types"%string effective_options with
    | Some v => v
    | None => match request_output_types with Some l => VList (VStr <$> l) | None => VList [VStr "dense"] end
    end in
  let* response_output_types := validated_encode_output_types requested_outputs in
  let* supported_outputs := match get_val "output_types" (r_runtime selected_profile) with
                            | VNone => Ret (filter (λ o, o ∈ ENCODE_OUTPUT_TYPES) (outputs c))
                            | v => validated_encode_output_types v
                            end in
  match filter (λ o, o ∉ supported_outputs) response_output_types with
  | (_ :: _) as unsupported => Raise (unsupported_outputs (sie_id c) unsupported supported_outputs)
  | [] =>
      let adapter_output_types :=
        match get_val "muvera" effective_options with
        | VNone => response_output_types
        | _ =>
            if bool_decide ("dense"%string ∈ response_output_types) then
              let kept := filter (λ o, o ≠ "dense"%string) response_output_types in
              if bool_decide ("multivector"%string ∈ kept) then kept else kept ++ ["multivector"%string]
            else response_output_types
        end in
      Ret (adapter_output_types, response_output_types)
  end.

(** ** Unit counts *)

(** What [_validated_counts] looks at in a Python value *)
Definition evidence_of (v : pyval) : Metering.evidence := match v with VList l => Some (int_of <$> l) | _ => None end.

(** [_validated_counts] *)
Definition validated_counts (value : Metering.evidence) (expected_len : nat) (non_negative : bool) : option (list Z) :=
  match value with
  | None => None
  | Some l =>
      if negb (length l =? expected_len)%nat then None
      else if forallb (λ c, match c with Some z => negb (non_negative && (z <? 0)) | None => false end) l
      then Some (omap id l) else None
  end.

(** [_wholly_skipped_text_tower_zeros] *)
Definition wholly_skipped_text_tower_zeros (skipped : pyval) (items : list Item) : option (list Z) :=
  match skipped with
  | VList l =>
      if negb (length l =? length items)%nat then None
      else if negb (forallb (λ v, match v with VBool _ => true | _ => false end) l) then None
      else if bool_decide (l = []) || negb (forallb truthy l) then None
      else if negb (existsb (λ it, match item_text it with Some t => negb (bool_decide (t = ""%string)) | None => false end) items)
      then None
      else Some (replicate (length items) 0)
  | _ => None
  end.

(** ** Preparation *)

Inductive Payload := PText (p : TextPrep.TextPayload) | PImage | POther (n : nat).

(** A prepared item; [prep_index] is [None] for an index that is no [int] *)
Record Prep := mkPrep { prep_payload : Payload; prep_cost : Z; prep_index : option Z }.

Definition of_text (p : TextPrep.PreparedItem) : Prep :=
  mkPrep (PText (TextPrep.payload p)) (TextPrep.cost p) (Some (TextPrep.original_index p)).

(** The loop of [_record_input_token_counts]; [None]: a malformed batch *)
Fixpoint fill_counts (counts : list Z) (l : list Prep) : option (list Z) :=
  match l with
  | [] => Some counts
  | p :: l' =>
      match prep_index p with
      | None => None
      | Some i =>
          if (0 <=? i) && (i <? Z.of_nat (length counts)) then fill_counts (<[Z.to_nat i := prep_cost p]> counts) l' else None
      end
  end.

(** [_record_input_token_counts]: the counts it leaves on the timing; [text] is whether the
    model's text preprocessor is a [TextPreprocessor], an exception of the lookup being
    swallowed *)
Definition record_input_token_counts (text : res exc bool) (batch : list Prep) : option (list Z) :=
  match batch with
  | [] => None
  | _ =>
      match text with
      | Ret true => fill_counts (replicate (length batch) 0) batch
      | _ => None
      end
  end.

(** A [TextPreprocessor] *)
Record TextPre := mkTextPre {
  tp_tokenize : list string → option Z → res exc (list (list Z * list Z));
  tp_id : option string;
}.

(** What an encode call passes on *)
Record EncodeCall := mkCall {
  call_items : list Item;
  call_output_types : list string;
  call_instruction : option string;
  call_is_query : bool;
  call_options : dict;
}.

(** The registry and the worker of the model *)
Class EncodeServices (Row SV MV W : Type) := {
  svc_has : W → string → bool;                           (* [has_preprocessor(model, modality)] *)
  svc_text : W → res exc (option TextPre);               (* [get_preprocessor(model, "text")], if a [TextPreprocessor] *)
  svc_prepare : W → list Item → bool → W * res exc (list Prep);
  svc_get : W → bool;                                    (* whether [registry.get(model)] finds the adapter *)
  svc_submit : W → list Prep → EncodeCall → W * res exc (EncodeOutput (Row := Row) (SV := SV) (MV := MV));
  (* [touch_lru], [encode_handler.encode] and [post_process] *)
  svc_direct : W → EncodeCall → W * res exc (EncodeOutput (Row := Row) (SV := SV) (MV := MV));
  svc_count : W → list Item → W * res exc Metering.evidence;   (* [adapter.count_input_tokens] *)
}.

Section pipeline.
Context {Row SV MV W : Type} `{!EncodeServices Row SV MV W}.
Abbreviation Output := (EncodeOutput (Row := Row) (SV := SV) (MV := MV)).

Definition is_text (r : res exc (option TextPre)) : res exc bool :=
  match r with Ret (Some _) => Ret true | Ret None => Ret false | Raise e => Raise e end.

(** [_try_fast_path] *)
Definition try_fast_path (w : W) (max_sequence_length : option Z) (items : list Item)
    (pts : list (option TextPrep.PreparedTokens)) : res exc (option (list Prep)) :=
  match svc_text w with
  | Raise e => Raise e
  | Ret None => Ret None
  | Ret (Some t) =>
      Ret ((λ b, of_text <$> TextPrep.items b) <$>
           TextPrep.try_prepare_from_prepared_tokens (tp_tokenize t) (tp_id t) max_sequence_length items pts)
  end.

(** The passthrough items of the image path *)
Fixpoint passthrough (i : Z) (items : list Item) : list Prep :=
  match items with
  | [] => []
  | it :: items' =>
      let image_count := match item_images it with Some (S n) => Z.of_nat (S n) | _ => 1 end in
      mkPrep PImage image_count (Some i) :: passthrough (i + 1) items'
  end.

Definition has_images (it : Item) : bool := match item_images it with Some (S _) => true | _ => false end.

(** [_prepare_batch]: the prepared items ([None]: no preprocessor) and the token counts *)
Definition prepare_batch (w : W) (c : ModelConfig) (items : list Item) (is_query : bool)
    (pts : option (list (option TextPrep.PreparedTokens))) : W * res exc (option (list Prep) * option (list Z)) :=
  let all_items_have_text := forallb (λ it, bool_decide (is_Some (item_text it))) items in
  let any_items_have_images := existsb has_images items in
  let prepared (r : W * res exc (list Prep)) (k : W → list Prep → option (list Z)) :=
    match r with
    | (w', Raise e) => (w', Raise e)
    | (w', Ret batch) => (w', Ret (Some batch, k w' batch))
    end in
  if svc_has w "text" && all_items_have_text && negb any_items_have_images then
    let slow := prepared (svc_prepare w items is_query) (λ w' batch, record_input_token_counts (is_text (svc_text w')) batch) in
    match pts with
    | None => slow
    | Some pts =>
        match try_fast_path w (max_sequence_length c) items pts with
        | Raise e => (w, Raise e)
        | Ret (Some batch) => (w, Ret (Some batch, record_input_token_counts (is_text (svc_text w)) batch))
        | Ret None => slow
        end
    end
  else if input_image c && any_items_have_images then
    if svc_has w "image" then prepared (svc_prepare w items is_query) (λ _ _, None)
    else (w, Ret (Some (passthrough 0 items), None))
  else (w, Ret (None, None)).

(** ** Output *)

(** [EncodeHandler.format_output] *)
Inductive out := ODense (r : Row) | OSparse (s : SV) | OMulti (m : MV).

Definition entry {A} (f : A → out) (key : string) (l : option (list A)) (i : nat) : list (string * out) :=
  match l with Some l => match l !! i with Some x => [(key, f x)] | None => [] end | None => [] end.

Definition format_output (o : Output) (output_types : list string) : res exc (list (list (string * out))) :=
  let wanted {A} (key : string) (l : option (list A)) := if bool_decide (key ∈ output_types) then l else None in
  let n := Z.to_nat (enc_batch_size o) in
  let d := wanted "dense"%string (rows <$> dense o) in
  let s := wanted "sparse"%string (sparse o) in
  let m := wanted "multivector"%string (multivector o) in
  let len {A} (l : option (list A)) := match l with Some l => length l | None => 0%nat end in
  if (match d with Some l => length l <? n | None => false end)%nat || (n <? len s)%nat || (n <? len m)%nat
  then Raise (Infer index_error)
  else Ret ((λ i, entry ODense "dense" d i ++ entry OSparse "sparse" s i ++ entry OMulti "multivector" m i) <$> seq 0 n).

(** [RequestTiming], without the times *)
Record RequestTiming := mkTiming { input_token_counts : option (list Z); input_image_counts : option (list Z) }.

(** The forward pass: through the worker, or directly *)
Definition forward (w : W) (batch : option (list Prep)) (call : EncodeCall) : W * res exc Output :=
  match batch with
  | Some batch => svc_submit w batch call
  | None => if svc_get w then svc_direct w call else (w, Raise (KeyError ""))
  end.

(** The token counts: what tokenization recorded, else the adapter's evidence, else the
    adapter's own count, else the zeros of a batch that skipped the text tower *)
Definition settle_tokens (w : W) (recorded : option (list Z)) (o : Output) (items : list Item) :
    W * res exc (option (list Z)) :=
  let n := length items in
  match (match recorded with
         | Some _ => recorded
         | None => validated_counts (evidence_of (get_val "input_token_counts" (extra o))) n true
         end) with
  | Some l => (w, Ret (Some l))
  | None =>
      let zeros := wholly_skipped_text_tower_zeros (get_val "text_tower_skipped" (extra o)) items in
      if svc_get w then
        match svc_count w items with
        | (w', Raise e) => (w', Raise e)
        | (w', Ret ev) => (w', Ret match validated_counts ev n true with Some l => Some l | None => zeros end)
        end
      else (w, Ret zeros)
  end.

(** [run_encode] *)
Definition run_encode (w : W) (c : ModelConfig) (call : EncodeCall) (pts : option (list (option TextPrep.PreparedTokens)))
    (response_output_types : option (list string)) : W * res exc (list (list (string * out)) * RequestTiming) :=
  let items := call_items call in
  match prepare_batch w c items (call_is_query call) pts with
  | (w, Raise e) => (w, Raise e)
  | (w, Ret (batch, recorded)) =>
      match forward w batch call with
      | (w, Raise e) => (w, Raise e)
      | (w, Ret o) =>
          let images := validated_counts (evidence_of (get_val "input_image_counts" (extra o))) (length items) true in
          match settle_tokens w recorded o items with
          | (w, Raise e) => (w, Raise e)
          | (w, Ret tokens) =>
              match format_output o (default (call_output_types call) response_output_types) with
              | Raise e => (w, Raise e)
              | Ret formatted => (w, Ret (formatted, mkTiming tokens images))
              end
          end
      end
  end.

(** ** Output types *)

Lemma validated_output_types_ok v l :
  validated_encode_output_types v = Ret l → v = VList (VStr <$> l) ∧ l ≠ [] ∧ ∀ o, o ∈ l → o ∈ ENCODE_OUTPUT_TYPES.
Proof using.
  unfold validated_encode_output_types. destruct v as [| | | | |[|v vs]| |]; try done. intros H%res_map_ok.
  assert (v :: vs = VStr <$> l ∧ ∀ o, o ∈ l → o ∈ ENCODE_OUTPUT_TYPES) as [E Hin].
  { clear -H. revert H. generalize (v :: vs). intros l' H. induction H as [|x o xs os Hx _ IH]; [split; [done|]; intros o Ho; by apply elem_of_nil in Ho|].
    destruct x as [| | | |y| | |]; try done. case_bool_decide as Hs; [|done]. injection Hx as <-. destruct IH as [-> IH]. split; [done|].
    intros z [->|Hz]%elem_of_cons; eauto. }
  rewrite E. split; [done|]. split; [|done]. by intros ->.
Qed.

Lemma validated_output_types_raise v e : validated_encode_output_types v = Raise e → ∃ m, e = InvalidInputError m.
Proof using.
  unfold validated_encode_output_types. destruct v as [| | | | |[|v vs]| |]; try (intros [= <-]; eauto; fail).
  generalize (v :: vs). intros l. induction l as [|x l IH]; cbn; [done|].
  destruct x; try (intros [= <-]; unfold bad_output_type; eauto; fail). case_bool_decide; [|intros [= <-]; unfold bad_output_type; eauto].
  destruct (res_map _ l); [done|]. intros [= <-]. eauto.
Qed.

(** ** Counts *)

Lemma validated_counts_ok e n l :
  validated_counts e n true = Some l → length l = n ∧ Forall (λ z, 0 <= z) l.
Proof using.
  unfold validated_counts. destruct e as [cs|]; [|done]. destruct (Nat.eqb_spec (length cs) n) as [<-|]; [|done]. cbn [negb].
  destruct (forallb _ cs) eqn:E; [|done]. intros [= <-]. induction cs as [|[z|] cs IH]; cbn in *; [done| |done].
  apply andb_true_iff in E as [Hz E]. destruct (IH E) as [H1 H2]. split; [lia|]. constructor; [lia|done].
Qed.

Lemma fill_counts_length counts l r : fill_counts counts l = Some r → length r = length counts.
Proof using.
  revert counts. induction l as [|p l IH]; intros counts; cbn; [by intros [= <-]|]. destruct (prep_index p); [|done].
  destruct (_ && _); [|done]. intros H. rewrite (IH _ H). by rewrite length_insert.
Qed.

Lemma fill_counts_other counts l r k :
  fill_counts counts l = Some r → (∀ p, p ∈ l → prep_index p ≠ Some (Z.of_nat k)) → r !! k = counts !! k.
Proof using.
  revert counts. induction l as [|p l IH]; intros counts H Hk; cbn in H; [by injection H as <-|].
  destruct (prep_index p) as [i|] eqn:Ei; [|done]. destruct (_ && _) eqn:Eb; [|done].
  rewrite (IH _ H) by (intros; apply Hk; by right). rewrite list_lookup_insert_ne; [done|].
  intros Hik. apply (Hk p (list_elem_of_here _ _)). rewrite Ei. f_equal. lia.
Qed.

(** Each prepared item's cost is recorded at its own index. *)
Lemma fill_counts_at counts l r k p :
  fill_counts counts l = Some r → NoDup (prep_index <$> l) → p ∈ l → prep_index p = Some (Z.of_nat k) →
  r !! k = Some (prep_cost p).
Proof using.
  revert counts. induction l as [|q l IH]; intros counts H Hnd Hp Hi; [by apply elem_of_nil in Hp|]. cbn in H.
  rewrite fmap_cons, NoDup_cons in Hnd. destruct Hnd as [Hq Hnd].
  destruct (prep_index q) as [i|] eqn:Ei; [|done]. destruct (_ && _) eqn:Eb; [|done].
  apply elem_of_cons in Hp as [->|Hp]; [|by eapply IH].
  rewrite (fill_counts_other _ _ _ k H).
  - replace k with (Z.to_nat i) by (rewrite ?Ei in Hi; injection Hi; lia). apply list_lookup_insert_eq. lia.
  - intros p' Hp' Hi'. apply Hq. rewrite ?Ei in Hi. rewrite Hi, <- Hi'. by apply list_elem_of_fmap_2.
Qed.

(** What a recorded list of counts is: a count per prepared item, by index. *)
Definition recorded_from (batch : list Prep) (l : list Z) : Prop :=
  batch ≠ [] ∧ length l = length batch ∧
  (NoDup (prep_index <$> batch) → ∀ p k, p ∈ batch → prep_index p = Some (Z.of_nat k) → l !! k = Some (prep_cost p)).

Lemma record_counts_ok t batch l : record_input_token_counts t batch = Some l → t = Ret true ∧ recorded_from batch l.
Proof using.
  unfold record_input_token_counts. destruct batch as [|p batch]; [done|]. destruct t as [[]|]; try done.
  intros H. split; [done|]. split; [done|]. split; [rewrite (fill_counts_length _ _ _ H); by rewrite length_replicate|].
  intros Hnd q k Hq Hi. by eapply fill_counts_at.
Qed.

Lemma skipped_zeros_ok v its l :
  wholly_skipped_text_tower_zeros v its = Some l →
  l = replicate (length its) 0 ∧ (∃ it t, it ∈ its ∧ item_text it = Some t ∧ t ≠ ""%string) ∧
  v = VList (replicate (length its) (VBool true)).
Proof using.
  unfold wholly_skipped_text_tower_zeros. destruct v as [| | | | |vs| |]; try done.
  destruct (Nat.eqb_spec (length vs) (length its)) as [Hl|]; [|done]. cbn [negb].
  destruct (forallb _ vs) eqn:Eb; [|done]. cbn [negb]. destruct (_ || _) eqn:Et; [done|].
  destruct (existsb _ its) eqn:Ex; [|done]. cbn [negb]. intros [= <-]. split; [done|].
  apply orb_false_iff in Et as [_ Et]. apply negb_false_iff in Et. split.
  - apply existsb_exists in Ex as (it & Hin & Hit). destruct (item_text it) as [t|] eqn:E; [|done].
    exists it, t. split; [by apply list_elem_of_In|]. split; [done|]. by apply negb_true_iff, bool_decide_eq_false in Hit.
  - f_equal. rewrite <- Hl. clear -Eb Et. induction vs as [|v vs IH]; [done|]. cbn in *.
    apply andb_true_iff in Eb as [Hb Eb], Et as [Ht Et]. destruct v as [|b| | | | | |]; try done. cbn in Ht. subst b. f_equal. eauto.
Qed.

Lemma prepare_batch_counts w c its q pts w' batch l :
  prepare_batch w c its q pts = (w', Ret (batch, Some l)) →
  (∃ b, batch = Some b ∧ recorded_from b l) ∧ Forall (λ it, is_Some (item_text it) ∧ has_images it = false) its.
Proof using.
  unfold prepare_batch. destruct (svc_has w "text" && _ && _) eqn:Eg.
  2:{ destruct (input_image c && _); [|done]. destruct (svc_has w "image"); [|done].
      destruct (svc_prepare w its q) as [w1 [b|e]]; done. }
  apply andb_true_iff in Eg as [[_ Ht]%andb_true_iff Hi]. intros H. split.
  - assert (∀ w1 b t, record_input_token_counts t b = Some l → (w1, @Ret exc _ (Some b, Some l)) = (w', Ret (batch, Some l)) →
      ∃ b, batch = Some b ∧ recorded_from b l) as Hrec.
    { intros w1 b t Hr [= _ <-]. exists b. split; [done|]. by apply record_counts_ok in Hr as [_ ?]. }
    assert (match svc_prepare w its q with
            | (w', Raise e) => (w', Raise e)
            | (w', Ret b) => (w', Ret (Some b, record_input_token_counts (is_text (svc_text w')) b))
            end = (w', Ret (batch, Some l)) → ∃ b, batch = Some b ∧ recorded_from b l) as Hslow.
    { destruct (svc_prepare w its q) as [w1 [b|e]]; [|done].
      destruct (record_input_token_counts _ b) as [l'|] eqn:Er; [|done]. intros [= <- <- <-]. eapply Hrec; eauto. }
    destruct pts as [pts|]; [|exact (Hslow H)].
    destruct (try_fast_path w _ its pts) as [[b|]|e]; [|exact (Hslow H)|done].
    destruct (record_input_token_counts _ b) as [l'|] eqn:Er; [|done]. injection H as <- <- <-. eapply Hrec; eauto.
  - apply Forall_forall. intros it Hin. rewrite forallb_forall in Ht. apply negb_true_iff in Hi. split.
    + specialize (Ht it (proj1 (list_elem_of_In _ _) Hin)). by apply bool_decide_eq_true in Ht.
    + destruct (has_images it) eqn:E; [|done]. rewrite <- Hi. symmetry. apply existsb_exists. exists it. split; [by apply list_elem_of_In|done].
Qed.

Lemma settle_tokens_ok w recorded o its w' l :
  settle_tokens w recorded o its = (w', Ret (Some l)) →
  recorded = Some l ∨ (length l = length its ∧ Forall (λ z, 0 <= z) l).
Proof using.
  unfold settle_tokens. intros H. destruct recorded as [l'|]; [injection H as _ ->; by left|]. right.
  destruct (validated_counts (evidence_of _) _ true) as [l'|] eqn:E; [injection H as _ <-; by eapply validated_counts_ok|].
  assert (∀ l', wholly_skipped_text_tower_zeros (get_val "text_tower_skipped" (extra o)) its = Some l' →
    length l' = length its ∧ Forall (λ z, 0 <= z) l') as Hz.
  { intros l' (-> & _)%skipped_zeros_ok. rewrite length_replicate. split; [done|]. by apply Forall_replicate. }
  destruct (svc_get w); [|injection H as _ H; by apply Hz].
  destruct (svc_count w its) as [w1 [ev|e]]; [|done]. injection H as _ H.
  destruct (validated_counts ev _ true) as [l'|] eqn:E'; [injection H as <-; by eapply validated_counts_ok|by apply Hz].
Qed.
End pipeline.

(** What an encode request may ask for.  The response types are those requested, at
    least one and each an encode type the model or the selected profile supports; the
    adapter is asked for each of them, except that under a MuVERA postprocessor a dense
    response is computed from multivectors, which are asked for instead.  Every refusal is
    invalid input. *)
Theorem output_types_resolved c request r options :
  match resolve_encode_output_types c request r options with
  | Ret (adapter, response) =>
      response ≠ [] ∧
      default (VList (VStr <$> default ["dense"%string] request)) (dict_get "output_types"%string options) = VList (VStr <$> response) ∧
      (∀ o, o ∈ response → o ∈ ENCODE_OUTPUT_TYPES ∧
         (get_val "output_types" (r_runtime r) = VNone → o ∈ outputs c) ∧
         (∀ l, get_val "output_types" (r_runtime r) = VList l → VStr o ∈ l)) ∧
      (∀ o, o ∈ response → o ∈ adapter ∨ o = "dense"%string ∧ get_val "muvera" options ≠ VNone ∧ "multivector"%string ∈ adapter) ∧
      (∀ o, o ∈ adapter → o ∈ response ∨ o = "multivector"%string ∧ "dense"%string ∈ response) ∧
      (get_val "muvera" options ≠ VNone → "dense"%string ∉ adapter)
  | Raise e => ∃ m, e = InvalidInputError m
  end.
Proof.
  unfold resolve_encode_output_types.
  replace (match dict_get "output_types"%string options with Some v => v | None => _ end) with
    (default (VList (VStr <$> default ["dense"%string] request)) (dict_get "output_types"%string options))
    by by destruct (dict_get _ options), request.
  destruct (validated_encode_output_types _) as [response|e] eqn:Er; cbn [res_bind]; [|by eapply validated_output_types_raise].
  apply validated_output_types_ok in Er as (Hreq & Hne & Henc).
  destruct (match get_val "output_types" (r_runtime r) with VNone => _ | _ => _ end) as [supported|e] eqn:Es; cbn [res_bind].
  2:{ destruct (get_val "output_types" (r_runtime r)); try done; by eapply validated_output_types_raise. }
  assert (∀ o, o ∈ supported → (get_val "output_types" (r_runtime r) = VNone → o ∈ outputs c) ∧
            (∀ l, get_val "output_types" (r_runtime r) = VList l → VStr o ∈ l)) as Hsup.
  { intros o Ho. destruct (get_val "output_types" (r_runtime r)) as [| | | | |vs| |]; split; try done.
    - intros _. injection Es as <-. by apply list_elem_of_filter in Ho as [_ ?].
    - intros l [= <-]. apply validated_output_types_ok in Es as (Evs & _). injection Evs as ->. by apply list_elem_of_fmap_2. }
  destruct (filter (λ o, o ∉ supported) response) as [|x xs] eqn:Ef; [|unfold unsupported_outputs; eauto].
  assert (∀ o, o ∈ response → o ∈ supported) as Hin.
  { intros o Ho. destruct (decide (o ∈ supported)) as [?|Hn]; [done|].
    assert (o ∈ filter (λ o, o ∉ supported) response) as Hx by by apply list_elem_of_filter.
    rewrite Ef in Hx. by apply elem_of_nil in Hx. }
  split; [done|]. split; [done|]. split; [intros o Ho; split; [by apply Henc|by apply Hsup, Hin]|].
  destruct (decide (get_val "muvera" options = VNone)) as [Hm|Hm]; [rewrite Hm; split_and!; try done; by left|].
  replace (match get_val "muvera" options with VNone => response | _ => _ end) with
    (if bool_decide ("dense"%string ∈ response) then
       let kept := filter (λ o, o ≠ "dense"%string) response in
       if bool_decide ("multivector"%string ∈ kept) then kept else kept ++ ["multivector"%string]
     else response) by by destruct (get_val "muvera" options).
  case_bool_decide as Hd; [|split_and!; try done; by left].
  assert (∀ o, o ∈ filter (λ o, o ≠ "dense"%string) response ↔ o ≠ "dense"%string ∧ o ∈ response) as Hf
    by (intros o; by rewrite list_elem_of_filter).
  cbv zeta. case_bool_decide as Hk.
  - split_and!.
    + intros o Ho. destruct (decide (o = "dense"%string)) as [->|]; [by right|left]. by apply Hf.
    + intros o [_ ?]%Hf. by left.
    + intros _ [? _]%Hf. done.
  - split_and!.
    + intros o Ho. destruct (decide (o = "dense"%string)) as [->|].
      * right. split; [done|]. split; [done|]. apply elem_of_app. right. left.
      * left. apply elem_of_app. left. by apply Hf.
    + intros o Ho. apply elem_of_app in Ho as [Ho|Ho]; [apply Hf in Ho as [_ ?]; by left|]. apply list_elem_of_singleton in Ho as ->. by right.
    + intros _ Ho. apply elem_of_app in Ho as [Ho|Ho]; [by apply Hf in Ho as [? _]|]. by apply list_elem_of_singleton in Ho.
Qed.

(** Encode counts are attributable.  The image counts of a returned call are one
    non-negative integer per item.  So are its token counts, unless tokenization recorded
    them; recorded counts exist only for a batch of texts without images that a real
    tokenizer prepared, and give each prepared item's token count at that item's own
    index. *)
Lemma encode_counts_attributed {Row SV MV W : Type} `{!EncodeServices Row SV MV W}
    (w : W) c call pts response w' (outs : list (list (string * out (Row := Row) (SV := SV) (MV := MV)))) t :
  run_encode w c call pts response = (w', Ret (outs, t)) →
  (∀ l, input_image_counts t = Some l → length l = length (call_items call) ∧ Forall (λ z, 0 <= z) l) ∧
  (∀ l, input_token_counts t = Some l →
     (length l = length (call_items call) ∧ Forall (λ z, 0 <= z) l) ∨
     (Forall (λ it, is_Some (item_text it) ∧ has_images it = false) (call_items call) ∧ ∃ batch, recorded_from batch l)).
Proof.
  unfold run_encode. destruct (prepare_batch w c (call_items call) _ pts) as [w1 [[batch recorded]|]] eqn:Ep; [|done].
  destruct (forward w1 batch call) as [w2 [o|]]; [|done].
  destruct (settle_tokens w2 recorded o (call_items call)) as [w3 [tokens|]] eqn:Et; [|done].
  destruct (format_output o _) as [f|]; [|done]. intros [= _ <- <-]. cbn. split.
  - intros l. apply validated_counts_ok.
  - intros l ->. apply settle_tokens_ok in Et as [->|?]; [right|by left].
    apply prepare_batch_counts in Ep as [(b & _ & Hb) Hall]. split; [done|]. by exists b.
Qed.
End EncodePipeline.
