(* ===== verification/Framing.v ===== *)
(** Framing of encode results: the [_maybe_*_raw_output] helpers and [_wrap_encode_output]
    of [queue_executor.py], and the output types of [ipc_types.py].

    An item's formatted output maps [dense], [sparse] and [multivector] to arrays.  A result
    leaves the worker either as a [RawOutput] the sidecar frames, or framed in Python by
    [wrap_encode_output]; clients must not be able to tell which.  An array is its dtype,
    its shape and its data; packing to bytes is a parameter where it is used.  The helpers
    are only called with arrays ([format_output] yields nothing else), so their
    [isinstance] guards are not modelled. *)

From stdpp Require Import strings.
From S2P Require Import Prelude PyDict ModelConfig EncodePipeline.
Import ModelConfig EncodePipeline.
Local Open Scope Z_scope.

Module Framing.

Record nd (D : Type) := mkNd { dtype : string; shape : list Z; data : D }.
Arguments mkNd {D}.
Arguments dtype {D}.
Arguments shape {D}.
Arguments data {D}.

Section framing.
Context {D : Type}.
Abbreviation arr := (nd D).
(** A dense row, the indices and values of a sparse vector, a token matrix *)
Abbreviation item_out := (out (Row := arr) (SV := arr * arr) (MV := arr)).
Abbreviation formatted := (list (string * item_out)).

Inductive RawOutput :=
  | RawDense (values : D) (dim : Z) (normalize : bool)
  | RawSparse (indices values : D) (dims : option Z)
  | RawMultivector (values : D) (num_tokens token_dims : Z) (dt : string)
  | RawScore (scores : D) (item_ids : list string).

(** [encode_task.dense.dim] and the like *)
Definition task_dim (f : EncodeTask → option Z) (c : ModelConfig) : option Z := encode (tasks c) ≫= f.

(** [set(formatted.keys()) - {key}] *)
Definition only_key (key : string) (f : formatted) : bool := forallb (λ e, bool_decide (e.1 = key)) f.

(** [_maybe_dense_raw_output] *)
Definition maybe_dense_raw_output (f : formatted) (c : ModelConfig) (output_types : list string) : option RawOutput :=
  if negb (bool_decide (output_types = ["dense"%string])) then None
  else if negb (only_key "dense" f) then None
  else match dict_get "dense"%string f with
       | Some (ODense a) =>
           if negb (bool_decide (dtype a = "float32"%string)) then None
           else match shape a with
                | [n] =>
                    let dim := default n (task_dim dense_dim c) in
                    if negb (n =? dim) then None else Some (RawDense (data a) dim false)
                | _ => None
                end
       | _ => None
       end.

(** [_maybe_sparse_raw_output] *)
Definition maybe_sparse_raw_output (f : formatted) (c : ModelConfig) (output_types : list string) : option RawOutput :=
  if negb (bool_decide (output_types = ["sparse"%string])) then None
  else if negb (only_key "sparse" f) then None
  else match dict_get "sparse"%string f with
       | Some (OSparse (ix, vs)) =>
           match shape ix, shape vs with
           | [n], [m] =>
               if negb (n =? m) then None
               else if negb (bool_decide (dtype ix = "int32"%string)) then None
               else if negb (bool_decide (dtype vs = "float32"%string)) then None
               else Some (RawSparse (data ix) (data vs) (task_dim sparse_dim c))
           | _, _ => None
           end
       | _ => None
       end.

(** [_maybe_multivector_raw_output] *)
Definition maybe_multivector_raw_output (f : formatted) (c : ModelConfig) (output_types : list string) : option RawOutput :=
  if negb (bool_decide (output_types = ["multivector"%string])) then None
  else if negb (only_key "multivector" f) then None
  else match dict_get "multivector"%string f with
       | Some (OMulti a) =>
           if negb (bool_decide (dtype a = "float32"%string) || bool_decide (dtype a = "float16"%string)) then None
           else match shape a with
                | [n; m] =>
                    match task_dim multivector_dim c with
                    | Some d => if negb (m =? d) then None else Some (RawMultivector (data a) n d (dtype a))
                    | None => Some (RawMultivector (data a) n m (dtype a))
                    end
                | _ => None
                end
       | _ => None
       end.

(** The dispatch in [_run_encode_group] *)
Definition raw_output (f : formatted) (c : ModelConfig) (output_types : list string) : option RawOutput :=
  if bool_decide (output_types = ["dense"%string]) then maybe_dense_raw_output f c output_types
  else if bool_decide (output_types = ["sparse"%string]) then maybe_sparse_raw_output f c output_types
  else if bool_decide (output_types = ["multivector"%string]) then maybe_multivector_raw_output f c output_types
  else None.

(** [_NP_DTYPE_MAP.get(str(dtype), "float32")] *)
Definition np_dtype (s : string) : string :=
  if bool_decide (s ∈ ["float32"; "float16"; "int8"; "uint8"]%string) then s else "float32".

(** The wire form of one output *)
Inductive wire :=
  | WDense (dims : Z) (dt : string) (values : D)
  | WSparse (dims : option Z) (dt : string) (indices values : D)
  | WMultivector (token_dims num_tokens : Z) (dt : string) (values : D).

(** [shape[i]] raises past the last dimension *)
Definition dim_at (l : list Z) (i : nat) : res unit Z := match l !! i with Some n => Ret n | None => Raise tt end.

(** [_wrap_encode_output] of one entry; a shape that is too short raises *)
Definition wrap_one (c : ModelConfig) (o : item_out) : res unit wire :=
  match o with
  | ODense a =>
      let is_uint8 := bool_decide (dtype a = "uint8"%string) in
      match task_dim dense_dim c with
      | Some d =>
          if is_uint8 && negb (d =? 0) then
            match dim_at (shape a) 0 with
            | Raise e => Raise e
            | Ret n => Ret (WDense d (if n <? d then "binary"%string else np_dtype (dtype a)) (data a))
            end
          else Ret (WDense d (np_dtype (dtype a)) (data a))
      | None => match dim_at (shape a) 0 with Raise e => Raise e | Ret n => Ret (WDense n (np_dtype (dtype a)) (data a)) end
      end
  | OSparse (ix, vs) =>
      let dt := np_dtype (dtype vs) in
      Ret (WSparse (task_dim sparse_dim c) (if bool_decide (dt ∈ ["float32"; "float16"]%string) then dt else "float32"%string)
             (data ix) (data vs))
  | OMulti a =>
      match task_dim multivector_dim c with
      | Some d =>
          let label (binary : bool) :=
            match dim_at (shape a) 0 with
            | Raise e => Raise e
            | Ret n => Ret (WMultivector d n (if binary then "binary"%string else np_dtype (dtype a)) (data a))
            end in
          if bool_decide (dtype a = "uint8"%string) then
            match dim_at (shape a) 1 with Raise e => Raise e | Ret m => label (m <? d) end
          else label false
      | None =>
          match dim_at (shape a) 1, dim_at (shape a) 0 with
          | Ret m, Ret n => Ret (WMultivector m n (np_dtype (dtype a)) (data a))
          | _, _ => Raise tt
          end
      end
  end.

Fixpoint wrap_encode_output (f : formatted) (c : ModelConfig) : res unit (list (string * wire)) :=
  match f with
  | [] => Ret []
  | (k, o) :: f' =>
      match wrap_one c o with
      | Raise e => Raise e
      | Ret w => match wrap_encode_output f' c with Raise e => Raise e | Ret l => Ret ((k, w) :: l) end
      end
  end.

(** What the sidecar makes of a raw output *)
Definition frame_raw (r : RawOutput) : list (string * wire) :=
  match r with
  | RawDense values dim _ => [("dense"%string, WDense dim "float32" values)]
  | RawSparse ix vs dims => [("sparse"%string, WSparse dims "float32" ix vs)]
  | RawMultivector values n d dt => [("multivector"%string, WMultivector d n dt values)]
  | RawScore _ _ => []
  end.

Lemma only_key_single key f o :
  only_key key f = true → dict_wf f → dict_get key f = Some o → f = [(key, o)].
Proof using.
  intros Hk Hwf Hg. unfold only_key in Hk. rewrite forallb_forall in Hk.
  assert (∀ e, e ∈ f → e.1 = key) as Hall by (intros e He; by apply list_elem_of_In, Hk, bool_decide_eq_true in He).
  destruct f as [|[k1 o1] [|[k2 o2] f]]; [done|..].
  - pose proof (Hall _ (list_elem_of_here _ _)) as Hh. cbn in Hh. subst k1. cbn in Hg. rewrite decide_True in Hg by done. congruence.
  - exfalso. unfold dict_wf in Hwf. cbn in Hwf. apply NoDup_cons in Hwf as [Hn _]. apply Hn.
    pose proof (Hall (k1, o1) (list_elem_of_here _ _)) as H1. pose proof (Hall (k2, o2) ltac:(right; left)) as H2.
    cbn in H1, H2. subst. left.
Qed.

(** C40 — the two framings agree.  Whenever an item's output is left to the sidecar, framing
    it in Python would have given the same entry: the same key, dimensions, dtype label and
    data, and nothing else. *)
Theorem raw_frames_agree (f : formatted) (c : ModelConfig) (output_types : list string) r :
  dict_wf f → raw_output f c output_types = Some r → wrap_encode_output f c = Ret (frame_raw r).
Proof using.
  intros Hwf H. unfold raw_output in H. repeat case_bool_decide; subst; try done.
  - unfold maybe_dense_raw_output in H. rewrite bool_decide_eq_true_2 in H by done. cbn [negb] in H.
    destruct (only_key "dense" f) eqn:Ek; [|done]. cbn [negb] in H.
    destruct (dict_get _ f) as [[a| |]|] eqn:Eg; try done. rewrite (only_key_single _ _ _ Ek Hwf Eg).
    case_bool_decide as Hd; [|done]. cbn [negb] in H. destruct (shape a) as [|n [|]] eqn:Es; try done.
    destruct (Z.eqb_spec n (default n (task_dim dense_dim c))) as [Hn|]; [|done]. injection H as <-.
    cbn [wrap_encode_output wrap_one]. rewrite Hd, Es. destruct (task_dim dense_dim c) as [d|]; cbn in *; by subst.
  - unfold maybe_sparse_raw_output in H. rewrite bool_decide_eq_true_2 in H by done. cbn [negb] in H.
    destruct (only_key "sparse" f) eqn:Ek; [|done]. cbn [negb] in H.
    destruct (dict_get _ f) as [[|[ix vs]|]|] eqn:Eg; try done. rewrite (only_key_single _ _ _ Ek Hwf Eg).
    destruct (shape ix) as [|n [|]], (shape vs) as [|m [|]]; try done. destruct (n =? m); [|done]. cbn [negb] in H.
    case_bool_decide; [|done]. cbn [negb] in H. case_bool_decide as Hd; [|done]. injection H as <-.
    cbn [wrap_encode_output wrap_one]. by rewrite Hd.
  - unfold maybe_multivector_raw_output in H. rewrite bool_decide_eq_true_2 in H by done. cbn [negb] in H.
    destruct (only_key "multivector" f) eqn:Ek; [|done]. cbn [negb] in H.
    destruct (dict_get _ f) as [[| |a]|] eqn:Eg; try done. rewrite (only_key_single _ _ _ Ek Hwf Eg).
    destruct (bool_decide (dtype a = "float32"%string) || bool_decide (dtype a = "float16"%string)) eqn:Hd; [|done]. cbn [negb] in H.
    destruct (shape a) as [|n [|m [|]]] eqn:Es; try done. cbn [wrap_encode_output wrap_one]. rewrite Es.
    assert (np_dtype (dtype a) = dtype a ∧ bool_decide (dtype a = "uint8"%string) = false) as [Hnp Hu].
    { apply orb_true_iff in Hd as [Hd|Hd]; apply bool_decide_eq_true in Hd; by rewrite Hd. }
    rewrite Hu, Hnp. destruct (task_dim multivector_dim c) as [d|]; [|by injection H as <-].
    destruct (m =? d); [|done]. by injection H as <-.
Qed.
End framing.

Lemma raw_frames_agree_witness :
  let a := mkNd "float16" [5; 128] tt in
  let c := mkConfig "m" (Some "m"%string) None None false None false
             (mkTasks (Some (mkEncodeTask None None (Some 128))) false false None) None [] in
  wrap_encode_output [("multivector"%string, OMulti a)] c = Ret (frame_raw (RawMultivector tt 5 128 "float16")).
Proof.
  intros a c. apply (raw_frames_agree _ c ["multivector"%string]).
  - apply (bool_decide_unpack _). vm_compute. done.
  - vm_compute. reflexivity.
Defined.
End Framing.
