(* ===== verification/QueueExec.v ===== *)
(** The queue executor's encode path: [process_encode_batch], [_run_encode_group],
    [_isolate_encode_invalid_input], the outcome helpers and [_IsolationBudget] of
    [queue_executor.py].

    A batch fuses work items of many API requests.  Items that may share a pipeline call
    form a group; a group whose call rejects its input is split by request and run again,
    within a budget that the groups of the batch share.  The answer has one outcome per
    item, found in a dictionary by work item id.

    The state threads the world of the services, the dictionary, the budget and, as
    instrumentation, the number of pipeline calls.  [None] is a run that ran out of fuel.
    Telemetry, logging and measured times are left out. *)

From stdpp Require Import strings.
From S2P Require Import Prelude PyDict Oom Handlers PyVal ModelConfig RuntimeOptions Metering Inputs TextPrep EncodePipeline Framing.
Import Handlers PyVal ModelConfig RuntimeOptions Inputs EncodePipeline Framing.
Local Open Scope Z_scope.

(** [list(dict.fromkeys(l))]: first occurrences, in order *)
Fixpoint uniq {A} `{EqDecision A} (l : list A) : list A :=
  match l with
  | [] => []
  | x :: l' => x :: filter (λ y, y ≠ x) (uniq l')
  end.

Section uniq.
Context {A : Type} `{EqDecision A}.
Implicit Types l : list A.

Lemma elem_of_uniq x l : x ∈ uniq l ↔ x ∈ l.
Proof.
  induction l as [|y l IH]; cbn; [done|]. rewrite !elem_of_cons, list_elem_of_filter, IH.
  destruct (decide (x = y)); naive_solver.
Qed.

Lemma NoDup_uniq l : NoDup (uniq l).
Proof.
  induction l as [|y l IH]; cbn; [constructor|]. constructor; [|by apply NoDup_filter]. rewrite list_elem_of_filter. naive_solver.
Qed.

Lemma length_uniq_le l k : (∀ x, x ∈ l → x ∈ k) → (length (uniq l) ≤ length k)%nat.
Proof.
  intros H. apply submseteq_length, NoDup_submseteq; [apply NoDup_uniq|]. intros x Hx. by apply H, elem_of_uniq.
Qed.

Lemma uniq_nil_inv l : uniq l = [] → l = [].
Proof. by destruct l. Qed.
End uniq.

Lemma NoDup_fmap_eq {A B} (f : A → B) l x y : NoDup (f <$> l) → x ∈ l → y ∈ l → f x = f y → x = y.
Proof.
  intros Hnd (i & Hi)%list_elem_of_lookup (j & Hj)%list_elem_of_lookup Hf.
  assert (i = j) as ->; [|congruence]. eapply NoDup_lookup; [exact Hnd|..]; rewrite list_lookup_fmap, ?Hi, ?Hj; [done|]. cbn. by f_equal.
Qed.

Module QueueExec.

(** ** Outcomes *)

(** What every batch item carries *)
Record ItemKey := mkKey { work_item_id : string; request_id : string; item_index : Z }.

#[export] Instance ItemKey_eq_dec : EqDecision ItemKey.
Proof. solve_decision. Defined.

Inductive result (D : Type) :=
  | Packed (b : string)                       (* [result_msgpack] *)
  | Raw (r : RawOutput (D := D)).             (* [raw_output] *)
Arguments Packed {D}.
Arguments Raw {D}.

Inductive disposition (R : Type) :=
  | PublishAndAck (r : R) (units : option Metering.UnitCounts)
  | PublishErrorAndAck (code message : string)
  | NakRetry (delay_ms : Z).
Arguments PublishAndAck {R}.
Arguments PublishErrorAndAck {R}.
Arguments NakRetry {R}.

Record ItemOutcome (R : Type) := mkOutcome { o_key : ItemKey; o_disposition : disposition R }.
Arguments mkOutcome {R}.
Arguments o_key {R}.
Arguments o_disposition {R}.

Definition INFERENCE_ERROR_CODE : string := "inference_error".
Definition INVALID_INPUT : string := "INVALID_INPUT".
Definition MAX_ENCODE_ISOLATION_PASSES : Z := 24.

(** The environment: the two NAK delays in milliseconds, and the packers *)
Record Env (D V : Type) := mkEnv {
  nak_delay_ms : Z;
  oom_nak_delay_ms : Z;
  convert : list (string * V) → res exc Item;                                     (* [msgspec.convert] *)
  pack_options : dict → string;                                                   (* [pack_msgpack] of the options *)
  pack_result : option string → list (string * wire (D := D)) → res exc string;   (* of a result with its id *)
}.
Arguments nak_delay_ms {D V}.
Arguments oom_nak_delay_ms {D V}.
Arguments convert {D V}.
Arguments pack_options {D V}.
Arguments pack_result {D V}.

Section outcomes.
Context {D V R : Type} (env : Env D V).

(** [_nak_outcome], [_oom_nak_outcome], [_error_outcome] *)
Definition nak_outcome (bi : ItemKey) : ItemOutcome R := mkOutcome bi (NakRetry (nak_delay_ms env)).
Definition oom_nak_outcome (bi : ItemKey) : ItemOutcome R := mkOutcome bi (NakRetry (oom_nak_delay_ms env)).
Definition error_outcome (bi : ItemKey) (code message : string) : ItemOutcome R :=
  mkOutcome bi (PublishErrorAndAck code message).

(** [_inference_exception_outcome] *)
Definition inference_exception_outcome (bi : ItemKey) (e : exc) : ItemOutcome R :=
  if is_oom e then oom_nak_outcome bi
  else match e with
       | WorkerDrainedError _ => nak_outcome bi
       | Infer (Oom.InvalidInputError _) | ValidationError _ => error_outcome bi INVALID_INPUT (exc_str e)
       | _ => error_outcome bi INFERENCE_ERROR_CODE (exc_str e)
       end.

(** [[outcomes[bi.work_item_id] for bi in items]] *)
Fixpoint collect_outcomes (d : list (string * ItemOutcome R)) (l : list ItemKey) : res exc (list (ItemOutcome R)) :=
  match l with
  | [] => Ret []
  | bi :: l' =>
      match dict_get (work_item_id bi) d with
      | None => Raise (Inputs.KeyError (work_item_id bi))
      | Some o => match collect_outcomes d l' with Ret os => Ret (o :: os) | Raise e => Raise e end
      end
  end.
End outcomes.

(** ** Encode *)

Record EncodeBatchItem (V : Type) := mkEncodeItem {
  e_key : ItemKey;
  e_item : list (string * V);
  e_output_types : option (list string);
  e_instruction : option string;
  e_is_query : bool;
  e_options : option dict;
  e_profile_id : option string;
  e_bundle_config_hash : option string;
  e_prepared_tokens : option TextPrep.PreparedTokens;
}.
Arguments mkEncodeItem {V}.
Arguments e_key {V}.
Arguments e_item {V}.
Arguments e_output_types {V}.
Arguments e_instruction {V}.
Arguments e_is_query {V}.
Arguments e_options {V}.
Arguments e_profile_id {V}.
Arguments e_bundle_config_hash {V}.
Arguments e_prepared_tokens {V}.

(** An exception of the options code as the executor sees it *)
Definition opt_exc (e : opt_error) : exc :=
  match e with
  | InvalidInputError m => Infer (Oom.InvalidInputError m)
  | ProfileError (ModelConfig.KeyError k) => Inputs.KeyError k
  | _ => Infer (Oom.OtherError "")
  end.

Section encode.
Context {D V W : Type} `{!EncodeServices (nd D) (nd D * nd D) (nd D) W} (env : Env D V).
(** [registry.get_config], and the adapter's [count_input_images] hook ([None]: evicted) *)
Context (get_config : W → option ModelConfig) (count_images : W → option (list Item → res exc Metering.evidence)).
Abbreviation bitem := (EncodeBatchItem V).

Record st := mkSt {
  world : W;
  outcomes : list (string * ItemOutcome (result D));
  remaining : Z;              (* [_IsolationBudget.remaining] *)
  passes : nat;               (* calls of [run_encode]; instrumentation *)
}.

(** [outcomes[bi.work_item_id] = o] *)
Definition record (o : ItemOutcome (result D)) (s : st) : st :=
  mkSt (world s) (dict_set (work_item_id (o_key o)) o (outcomes s)) (remaining s) (passes s).

Definition record_all (mk : ItemKey → ItemOutcome (result D)) (l : list bitem) (s : st) : st :=
  foldl (λ s bi, record (mk (e_key bi)) s) s l.

(** [_IsolationBudget.spend] *)
Definition spend (s : st) : option st :=
  if remaining s <=? 0 then None else Some (mkSt (world s) (outcomes s) (remaining s - 1) (passes s)).

(** What a group shares *)
Record group_ctx := mkCtx {
  g_config : ModelConfig;
  g_output_types : list string;
  g_instruction : option string;
  g_is_query : bool;
  g_options : dict;
}.

(** The decode loop: a malformed item is answered, the others go on with their [Item] *)
Fixpoint decode_loop (s : st) (group : list bitem) : st * res exc (list (bitem * Item)) :=
  match group with
  | [] => (s, Ret [])
  | bi :: group' =>
      match decode_item (convert env) (e_item bi) with
      | Ret it => match decode_loop s group' with (s', Ret l) => (s', Ret ((bi, it) :: l)) | (s', Raise e) => (s', Raise e) end
      | Raise e =>
          match e with
          | ValidationError _ | Infer (Oom.InvalidInputError _) =>
              decode_loop (record (inference_exception_outcome env (e_key bi) e) s) group'
          | _ => (s, Raise e)
          end
      end
  end.

(** The success loop: one outcome per item, stopping at an exception of the framing *)
Fixpoint publish_loop (c : ModelConfig) (response_output_types : list string) (token_counts : option (list Z))
    (image_counts : option (list (option Z))) (idx : nat)
    (good : list (bitem * Item)) (outs : list (list (string * out))) (s : st) : st * res exc unit :=
  match good, outs with
  | (bi, it) :: good', f :: outs' =>
      let packed :=
        match raw_output f c response_output_types with
        | Some r => Ret (Raw r)
        | None =>
            match wrap_encode_output f c with
            | Raise _ => Raise (Infer index_error)
            | Ret w => match pack_result env (item_id it) w with Ret b => Ret (Packed b) | Raise e => Raise e end
            end
        end in
      match packed with
      | Raise e => (s, Raise e)
      | Ret r =>
          let units := Metering.encode_units (token_counts ≫= (.!! idx)) (image_counts ≫= (λ l, default None (l !! idx))) in
          publish_loop c response_output_types token_counts image_counts (S idx) good' outs'
            (record (mkOutcome (e_key bi) (PublishAndAck r units)) s)
      end
  | _, _ => (s, Ret tt)
  end.

(** The body of the [try] *)
Definition attempt (s : st) (ctx : group_ctx) (good : list (bitem * Item)) : st * res exc unit :=
  let pts := e_prepared_tokens <$> (fst <$> good) in
  let prepared_tokens_per_item := if existsb (λ p, bool_decide (is_Some p)) pts then Some pts else None in
  match merge_runtime_options_with_profile (g_config ctx) (Some (g_options ctx)) with
  | Raise e => (s, Raise (opt_exc e))
  | Ret (options, selected_profile) =>
      match resolve_encode_output_types (g_config ctx) (Some (g_output_types ctx)) selected_profile options with
      | Raise e => (s, Raise (opt_exc e))
      | Ret (adapter_output_types, response_output_types) =>
          let items := snd <$> good in
          let call := mkCall items adapter_output_types (g_instruction ctx) (g_is_query ctx) options in
          let '(w, r) := run_encode (world s) (g_config ctx) call prepared_tokens_per_item (Some response_output_types) in
          let s := mkSt w (outcomes s) (remaining s) (S (passes s)) in
          match r with
          | Raise e => (s, Raise e)
          | Ret (formatted_outputs, timing) =>
              if negb (length formatted_outputs =? length good)%nat then
                (record_all (λ bi, error_outcome bi INFERENCE_ERROR_CODE "adapter returned fewer outputs than items") (fst <$> good) s,
                 Ret tt)
              else
                let token_counts :=
                  match input_token_counts timing with
                  | Some l => if (length l =? length good)%nat then Some l else None
                  | None => None
                  end in
                let image_counts :=
                  Metering.encode_image_counts (input_image_counts timing) ((λ h, h items) <$> count_images w)
                    (item_video <$> items) (Z.of_nat (length good)) in
                publish_loop (g_config ctx) response_output_types token_counts image_counts 0 good formatted_outputs s
          end
      end
  end.

(** The halves of [_isolate_encode_invalid_input] *)
Definition req_of (bi : bitem) : string := request_id (e_key bi).
Definition left_ids (group : list bitem) : list string :=
  let request_ids := uniq (req_of <$> group) in take (length request_ids / 2) request_ids.
Definition left_half (group : list bitem) : list bitem := filter (λ bi, req_of bi ∈ left_ids group) group.
Definition right_half (group : list bitem) : list bitem := filter (λ bi, req_of bi ∉ left_ids group) group.

(** One half: re-run it while the budget lasts, else fail it with the error *)
Definition run_half (run : st → list bitem → option (st * res exc unit)) (e : exc) (half : list bitem) (s : st) :
    option (st * res exc unit) :=
  match spend s with
  | None => Some (record_all (λ bi, inference_exception_outcome env bi e) half s, Ret tt)
  | Some s => run s half
  end.

(** [_isolate_encode_invalid_input], given [_run_encode_group] *)
Definition isolate (run : st → list bitem → option (st * res exc unit)) (e : exc) (good : list bitem) (s : st) :
    option (st * res exc unit) :=
  if (length (uniq (req_of <$> good)) <=? 1)%nat then
    Some (record_all (λ bi, inference_exception_outcome env bi e) good s, Ret tt)
  else
    match run_half run e (left_half good) s with
    | Some (s, Ret _) => run_half run e (right_half good) s
    | other => other
    end.

(** [_run_encode_group] *)
Fixpoint run_encode_group (fuel : nat) (ctx : group_ctx) (s : st) (group : list bitem) : option (st * res exc unit) :=
  match fuel with
  | O => None
  | S fuel =>
      match decode_loop s group with
      | (s, Raise e) => Some (s, Raise e)
      | (s, Ret []) => Some (s, Ret tt)
      | (s, Ret good) =>
          match attempt s ctx good with
          | (s, Ret _) => Some (s, Ret tt)
          | (s, Raise e) =>
              if is_invalid_input e then isolate (run_encode_group fuel ctx) e (fst <$> good) s
              else if is_exception e then Some (record_all (λ bi, inference_exception_outcome env bi e) (fst <$> good) s, Ret tt)
              else Some (s, Raise e)
          end
      end
  end.

(** The group key and the groups, in order of first appearance *)
Definition group_key : Type := list string * option string * bool * string * option string * option string.

Definition key_of (bi : bitem) : group_key :=
  (default ["dense"%string] (e_output_types bi), e_instruction bi, e_is_query bi,
   match truthy_dict (e_options bi) with Some d => pack_options env d | None => ""%string end,
   e_profile_id bi, e_bundle_config_hash bi).

Definition add_to_groups (gs : list (group_key * list bitem)) (bi : bitem) : list (group_key * list bitem) :=
  dict_set (key_of bi) (default [] (dict_get (key_of bi) gs) ++ [bi]) gs.

Definition groups_of (l : list bitem) : list (group_key * list bitem) := foldl add_to_groups [] l.

Definition ctx_of (c : ModelConfig) (g : group_key * list bitem) : group_ctx :=
  let '((output_types, instruction, is_query, _, _, _), group) := g in
  mkCtx c output_types instruction is_query (match group with bi :: _ => default [] (e_options bi) | [] => [] end).

Fixpoint run_groups (c : ModelConfig) (s : st) (gs : list (group_key * list bitem)) : option (st * res exc unit) :=
  match gs with
  | [] => Some (s, Ret tt)
  | g :: gs' =>
      match run_encode_group (S (length g.2)) (ctx_of c g) s g.2 with
      | Some (s, Ret _) => run_groups c s gs'
      | other => other
      end
  end.

(** [process_encode_batch] *)
Definition process_encode_batch (w : W) (items : list bitem) : option (st * res exc (list (ItemOutcome (result D)))) :=
  match get_config w with
  | None => Some (mkSt w [] 0 0, Ret ((λ bi, nak_outcome env (e_key bi)) <$> items))
  | Some c =>
      match run_groups c (mkSt w [] MAX_ENCODE_ISOLATION_PASSES 0) (groups_of items) with
      | None => None
      | Some (s, Raise e) => Some (s, Raise e)
      | Some (s, Ret _) => Some (s, collect_outcomes (outcomes s) (e_key <$> items))
      end
  end.

(** ** Every item is answered *)

Definition keys (l : list bitem) : list ItemKey := e_key <$> l.
Definition found (s : st) (k : string) : Prop := is_Some (dict_get k (outcomes s)).

(** [s'] answers no other items than [ks] on top of what [s] answers, each under its own
    keys *)
Definition ext (ks : list ItemKey) (s s' : st) : Prop :=
  (∀ k, found s k → found s' k) ∧
  ∀ k o, dict_get k (outcomes s') = Some o →
    dict_get k (outcomes s) = Some o ∨ (o_key o ∈ ks ∧ work_item_id (o_key o) = k).

Definition answers (ks : list ItemKey) (s : st) : Prop := ∀ k, k ∈ ks → found s (work_item_id k).

(** Passes made plus budget left *)
Definition effort (s : st) : Z := Z.of_nat (passes s) + remaining s.

Lemma ext_refl ks s : ext ks s s.
Proof using. split; [done|]. by left. Qed.

Lemma ext_trans ks s1 s2 s3 : ext ks s1 s2 → ext ks s2 s3 → ext ks s1 s3.
Proof using. intros [H1 H2] [H3 H4]. split; [eauto|]. intros k o Ho. destruct (H4 k o Ho) as [Ho'|?]; eauto. Qed.

Lemma ext_mono ks ks' s s' : (∀ k, k ∈ ks → k ∈ ks') → ext ks s s' → ext ks' s s'.
Proof using. intros Hk [H1 H2]. split; [done|]. intros k o Ho. destruct (H2 k o Ho) as [?|[??]]; eauto. Qed.

Lemma answers_ext ks ks' s s' : ext ks' s s' → answers ks s → answers ks s'.
Proof using. intros [H _] Ha k Hk. eauto. Qed.

Lemma ext_same ks s w n p : ext ks s (mkSt w (outcomes s) n p).
Proof using. split; [done|]. by left. Qed.

Lemma record_ext o s : ext [o_key o] s (record o s).
Proof using.
  split.
  - intros k Hk. unfold found, record. cbn. rewrite dict_get_set. case_decide; [eauto|done].
  - intros k o'. unfold record. cbn. rewrite dict_get_set. case_decide as E; [|by left]. intros [= <-]. right. split; [left|done].
Qed.

Lemma record_found o s : found (record o s) (work_item_id (o_key o)).
Proof using. unfold found, record. cbn. rewrite dict_get_set. rewrite decide_True by done. eauto. Qed.

Lemma record_all_spec mk l s :
  (∀ k, o_key (mk k) = k) →
  let s' := record_all mk l s in
  ext (keys l) s s' ∧ answers (keys l) s' ∧ passes s' = passes s ∧ remaining s' = remaining s.
Proof using.
  intros Hmk. revert s. induction l as [|bi l IH]; intros s; cbn.
  { split; [apply ext_refl|]. split; [|done]. intros k Hk. by apply elem_of_nil in Hk. }
  destruct (IH (record (mk (e_key bi)) s)) as (He & Ha & Hp & Hr). split_and!; try done.
  - eapply ext_trans; [|eapply ext_mono; [|exact He]; intros; by right].
    eapply ext_mono; [|apply record_ext]. intros k. rewrite Hmk. intros ->%list_elem_of_singleton. left.
  - intros k Hk. apply elem_of_cons in Hk as [->|Hk]; [|by apply Ha]. apply He. rewrite <- (Hmk (e_key bi)) at 2. apply record_found.
Qed.

Lemma exception_outcome_key {R} bi e : o_key (inference_exception_outcome (R := R) env bi e) = bi.
Proof using. unfold inference_exception_outcome. destruct (is_oom e); [done|]. by destruct e as [[]| | | |]. Qed.

(** [msgspec.convert] raises nothing but [ValidationError]. *)
Definition convert_law : Prop := ∀ raw e, convert env raw = Raise e → ∃ m, e = ValidationError m.

Lemma decode_item_law raw e : convert_law → decode_item (convert env) raw = Raise e → ∃ m, e = ValidationError m.
Proof using. intros Hl. unfold decode_item. destruct (dict_get _ raw); [destruct (dict_mem _ raw)|]; apply Hl. Qed.

Lemma decode_loop_spec s group :
  convert_law →
  ∃ s' good, decode_loop s group = (s', Ret good) ∧ ext (keys group) s s' ∧ passes s' = passes s ∧ remaining s' = remaining s ∧
    sublist (fst <$> good) group ∧
    (∀ bi, bi ∈ group → bi ∈ fst <$> good ∨ found s' (work_item_id (e_key bi))) ∧
    Forall (λ g, decode_item (convert env) (e_item g.1) = Ret g.2) good.
Proof using.
  intros Hl. revert s. induction group as [|bi group IH]; intros s; cbn [decode_loop].
  { exists s, []. split_and!; try done; [apply ext_refl|]. intros bi Hbi. by apply elem_of_nil in Hbi. }
  destruct (decode_item (convert env) (e_item bi)) as [it|e] eqn:Ed.
  - destruct (IH s) as (s' & good & -> & He & Hp & Hr & Hs & Ha & Hf). exists s', ((bi, it) :: good). split_and!; try done.
    + eapply ext_mono; [|done]. intros; by right.
    + by constructor.
    + intros b [->|Hb]%elem_of_cons; [left; left|]. destruct (Ha b Hb); [left; by right|by right].
    + by constructor.
  - destruct (decode_item_law _ _ Hl Ed) as [m ->].
    set (o := inference_exception_outcome env (e_key bi) (ValidationError m)).
    destruct (IH (record o s)) as (s' & good & -> & He & Hp & Hr & Hs & Ha & Hf). exists s', good.
    assert (o_key o = e_key bi) as Hok by apply exception_outcome_key. split_and!; try done.
    + eapply ext_trans; [|eapply ext_mono; [|exact He]; intros; by right].
      eapply ext_mono; [|apply record_ext]. intros k. rewrite Hok. intros ->%list_elem_of_singleton. left.
    + by constructor.
    + intros b [->|Hb]%elem_of_cons; [|by apply Ha]. right. apply He. rewrite <- Hok. apply record_found.
Qed.

Lemma publish_loop_spec c ts tc ic idx good outs s s' r :
  publish_loop c ts tc ic idx good outs s = (s', r) →
  ext (keys (fst <$> good)) s s' ∧ passes s' = passes s ∧ remaining s' = remaining s ∧
  (r = Ret tt → length outs = length good → answers (keys (fst <$> good)) s').
Proof using.
  revert idx outs s. induction good as [|[bi it] good IH]; intros idx outs s H; cbn [publish_loop] in H.
  { injection H as <- <-. split_and!; try done; [apply ext_refl|]. intros _ _ k Hk. by apply elem_of_nil in Hk. }
  destruct outs as [|f outs]; [injection H as <- <-; split_and!; try done; apply ext_refl|].
  match type of H with match ?b with _ => _ end = _ => destruct b as [r0|e0] end.
  2:{ injection H as <- <-. split_and!; try done; apply ext_refl. }
  match type of H with publish_loop _ _ _ _ _ _ _ (record ?o s) = _ => set (o0 := o) in * end.
  destruct (IH _ _ _ H) as (He & Hp & Hr & Ha). split_and!; try done.
  - eapply ext_trans; [|eapply ext_mono; [|exact He]; intros; by right].
    eapply ext_mono; [|apply record_ext]. intros k ->%list_elem_of_singleton. left.
  - intros Hret Hlen k [->|Hk]%elem_of_cons; [|apply Ha; [done|cbn in Hlen; lia|done]].
    apply He. apply (record_found o0 s).
Qed.

Lemma attempt_spec s ctx good s' r :
  attempt s ctx good = (s', r) →
  ext (keys (fst <$> good)) s s' ∧ remaining s' = remaining s ∧ (passes s' ≤ S (passes s))%nat ∧
  (r = Ret tt → answers (keys (fst <$> good)) s').
Proof using.
  unfold attempt. intros H.
  destruct (merge_runtime_options_with_profile _ _) as [[options profile]|e]; [|injection H as <- <-; split_and!; try done; [apply ext_refl|lia]].
  destruct (resolve_encode_output_types _ _ _ _) as [[ao ro]|e]; [|injection H as <- <-; split_and!; try done; [apply ext_refl|lia]].
  destruct (run_encode _ _ _ _ _) as [w [[outs timing]|e]]; [|injection H as <- <-; split_and!; try done; apply ext_same].
  destruct (Nat.eqb_spec (length outs) (length good)) as [Hlen|Hlen]; cbn [negb] in H.
  - apply publish_loop_spec in H as (He & Hp & Hr & Ha). cbn in Hp, Hr. split_and!; [exact He|done|lia|eauto].
  - injection H as <- <-.
    destruct (record_all_spec (λ bi, error_outcome bi INFERENCE_ERROR_CODE "adapter returned fewer outputs than items")
      (fst <$> good) (mkSt w (outcomes s) (remaining s) (S (passes s)))) as (He & Ha & Hp & Hr); [done|].
    cbn in Hp, Hr. split_and!; [exact He|done|lia|done].
Qed.

(** ** Halves *)

Lemma halves_cover group bi : bi ∈ group → bi ∈ left_half group ∨ bi ∈ right_half group.
Proof using.
  intros H. unfold left_half, right_half. rewrite !list_elem_of_filter. destruct (decide (req_of bi ∈ left_ids group)); [by left|by right].
Qed.

Lemma halves_length group : (length (left_half group) + length (right_half group) = length group)%nat.
Proof using.
  unfold left_half, right_half. generalize (left_ids group). intros ids.
  induction group as [|bi group IH]; [done|]. rewrite !filter_cons.
  destruct (decide (req_of bi ∈ ids)), (decide (req_of bi ∉ ids)); cbn [length]; try done; lia.
Qed.

Lemma left_ids_split group :
  ∃ right, uniq (req_of <$> group) = left_ids group ++ right ∧ length (left_ids group) = (length (uniq (req_of <$> group)) / 2)%nat.
Proof using.
  exists (drop (length (uniq (req_of <$> group)) / 2) (uniq (req_of <$> group))). unfold left_ids. rewrite take_drop. split; [done|].
  rewrite length_take. pose proof (Nat.div_le_upper_bound (length (uniq (req_of <$> group))) 2 (length (uniq (req_of <$> group)))). lia.
Qed.

Lemma half_nonempty group r (P : bitem → Prop) `{∀ bi, Decision (P bi)} :
  r ∈ uniq (req_of <$> group) → (∀ bi, req_of bi = r → P bi) → (0 < length (filter P group))%nat.
Proof using.
  intros Hr HP. apply elem_of_uniq, list_elem_of_fmap in Hr as (bi & -> & Hbi).
  assert (bi ∈ filter P group) as Hf by (apply list_elem_of_filter; split; [by apply HP|done]).
  destruct (filter P group); [by apply elem_of_nil in Hf|cbn; lia].
Qed.

Lemma halves_shorter group :
  (2 ≤ length (uniq (req_of <$> group)))%nat →
  (length (left_half group) < length group)%nat ∧ (length (right_half group) < length group)%nat.
Proof using.
  intros Hn. destruct (left_ids_split group) as (right & Hu & Hl).
  assert (0 < length (left_ids group) < length (uniq (req_of <$> group)))%nat as [Hl1 Hl2].
  { rewrite Hl. pose proof (Nat.div_mod_eq (length (uniq (req_of <$> group))) 2).
    pose proof (Nat.mod_upper_bound (length (uniq (req_of <$> group))) 2). lia. }
  pose proof (halves_length group) as Hh. pose proof (NoDup_uniq (req_of <$> group)) as Hnd. rewrite Hu in Hnd.
  apply NoDup_app in Hnd as (_ & Hdis & _).
  assert (0 < length (left_half group))%nat.
  { destruct (left_ids group) as [|r ids] eqn:E; [cbn in Hl1; lia|]. apply (half_nonempty group r).
    - rewrite Hu. left.
    - intros bi ->. rewrite E. left. }
  assert (0 < length (right_half group))%nat; [|lia].
  destruct right as [|r right]; [rewrite Hu, app_nil_r in Hl2; lia|]. apply (half_nonempty group r).
  - rewrite Hu. apply elem_of_app. right. left.
  - intros bi -> Hin. eapply Hdis; [exact Hin|left].
Qed.

(** ** A group is answered *)

(** What a call does for the items [ks], with [free] passes that are not paid from the
    budget *)
Definition settles (free : Z) (ks : list ItemKey) (s : st) (o : option (st * res exc unit)) : Prop :=
  ∃ s' r, o = Some (s', r) ∧ ext ks s s' ∧ effort s' <= effort s + free ∧ (0 <= remaining s → 0 <= remaining s') ∧
    match r with Ret _ => answers ks s' | Raise e => is_exception e = false end.

Lemma record_all_settles e l s :
  settles 0 (keys l) s (Some (record_all (λ bi, inference_exception_outcome env bi e) l s, Ret tt)).
Proof using.
  destruct (record_all_spec (λ bi, inference_exception_outcome env bi e) l s) as (He & Ha & Hp & Hr);
    [intros; apply exception_outcome_key|].
  eexists _, _. split; [done|]. unfold effort. rewrite Hp, Hr. split_and!; try done. lia.
Qed.

Lemma run_half_settles run e half s :
  (∀ s, settles 1 (keys half) s (run s half)) → settles 0 (keys half) s (run_half run e half s).
Proof using.
  intros Hrun. unfold run_half, spend. destruct (Z.leb_spec (remaining s) 0); [apply record_all_settles|].
  destruct (Hrun (mkSt (world s) (outcomes s) (remaining s - 1) (passes s))) as (s' & r & -> & He & Hf & Hr & Ha).
  exists s', r. split; [done|]. split; [exact He|]. unfold effort in *. cbn in Hf, Hr. split; [lia|]. split; [|done]. lia.
Qed.

Lemma isolate_settles run e good s :
  (∀ s half, (length half < length good)%nat → settles 1 (keys half) s (run s half)) →
  settles 0 (keys good) s (isolate run e good s).
Proof using.
  intros Hrun. unfold isolate. destruct (Nat.leb_spec (length (uniq (req_of <$> good))) 1); [apply record_all_settles|].
  destruct (halves_shorter good) as [Hl Hr]; [lia|].
  assert (∀ bi, bi ∈ left_half good → bi ∈ good) as Hsl by (intros bi Hbi; by apply list_elem_of_filter in Hbi as [_ ?]).
  assert (∀ bi, bi ∈ right_half good → bi ∈ good) as Hsr by (intros bi Hbi; by apply list_elem_of_filter in Hbi as [_ ?]).
  assert (∀ half, (∀ bi, bi ∈ half → bi ∈ good) → ∀ k, k ∈ keys half → k ∈ keys good) as Hsub.
  { intros half Hh k (bi & -> & Hbi)%list_elem_of_fmap. apply list_elem_of_fmap_2. eauto. }
  destruct (run_half_settles run e (left_half good) s) as (s1 & r1 & -> & He1 & Hf1 & Hr1 & Ha1); [eauto|].
  destruct r1 as [u|e1].
  - destruct (run_half_settles run e (right_half good) s1) as (s2 & r2 & -> & He2 & Hf2 & Hr2 & Ha2); [eauto|].
    exists s2, r2. split; [done|]. split; [|split; [lia|split; [eauto|]]].
    + eapply ext_trans; eapply ext_mono; [|exact He1| |exact He2]; eauto.
    + destruct r2; [|done]. intros k (bi & -> & Hbi)%list_elem_of_fmap. destruct (halves_cover good bi Hbi) as [Hh|Hh].
      * apply He2, Ha1, list_elem_of_fmap_2, Hh.
      * apply Ha2, list_elem_of_fmap_2, Hh.
  - exists s1, (Raise e1). split; [done|]. split; [|done]. eapply ext_mono; [|exact He1]; eauto.
Qed.

Lemma run_encode_group_settles fuel ctx s group :
  convert_law → (length group < fuel)%nat → settles 1 (keys group) s (run_encode_group fuel ctx s group).
Proof using.
  intros Hl. revert s group. induction fuel as [|fuel IH]; intros s group Hf; [lia|]. cbn [run_encode_group].
  destruct (decode_loop_spec s group Hl) as (s1 & good & -> & He1 & Hp1 & Hr1 & Hsub & Ha1 & _).
  assert (∀ k, k ∈ keys (fst <$> good) → k ∈ keys group) as Hin.
  { intros k (bi & -> & Hbi)%list_elem_of_fmap. apply list_elem_of_fmap_2. eapply elem_of_submseteq; [exact Hbi|]. by apply sublist_submseteq. }
  assert (∀ free o, (0 <= free)%Z → settles free (keys (fst <$> good)) s1 o → settles free (keys group) s o) as Hlift.
  { intros free o Hfree (s2 & r2 & -> & He2 & Hf2 & Hr2 & Ha2). exists s2, r2. split; [done|]. unfold effort in *.
    split; [|split; [lia|split; [lia|]]].
    - eapply ext_trans; [exact He1|]. eapply ext_mono; [|exact He2]; eauto.
    - destruct r2; [|done]. intros k (bi & -> & Hbi)%list_elem_of_fmap. destruct (Ha1 bi Hbi) as [Hg|Hg].
      + apply Ha2, list_elem_of_fmap_2, Hg.
      + by apply He2. }
  assert (length (fst <$> good) ≤ length group)%nat as Hlen by by apply sublist_length.
  destruct good as [|g good]; [apply Hlift; [done|]; exists s1, (Ret tt); split_and!; try done; [apply ext_refl|lia|]; intros k Hk; by apply elem_of_nil in Hk|].
  remember (g :: good) as gl. clear Heqgl g good. destruct (attempt s1 ctx gl) as [s2 r2] eqn:Ea.
  apply attempt_spec in Ea as (He2 & Hr2 & Hp2 & Ha2). apply Hlift; [done|].
  assert (∀ o, settles 0 (keys (fst <$> gl)) s2 o → settles 1 (keys (fst <$> gl)) s1 o) as Hlift2.
  { intros o (s3 & r3 & -> & He3 & Hf3 & Hr3 & Ha3). exists s3, r3. split; [done|]. unfold effort in *.
    split; [by eapply ext_trans|]. split; [lia|]. split; [lia|done]. }
  destruct r2 as [[]|e].
  - apply Hlift2. exists s2, (Ret tt). split_and!; try done; [apply ext_refl|lia|]. by apply Ha2.
  - destruct (is_invalid_input e).
    + apply Hlift2, isolate_settles. intros s' half Hh. apply IH. lia.
    + destruct (is_exception e) eqn:Ex; [apply Hlift2, record_all_settles|].
      apply Hlift2. exists s2, (Raise e). split_and!; try done; [apply ext_refl|lia].
Qed.

(** ** Groups *)

(** A group holds the items of its key, in the order of the batch. *)
Lemma groups_of_get l k :
  dict_wf (groups_of l) ∧
  dict_get k (groups_of l) = match filter (λ bi, key_of bi = k) l with [] => None | g => Some g end.
Proof using.
  unfold groups_of. induction l as [|bi l [Hwf IH]] using rev_ind; [split; [constructor|done]|].
  rewrite foldl_snoc. cbn. unfold add_to_groups at 1 3. split; [by apply dict_set_wf|].
  rewrite dict_get_set, filter_app, filter_cons, filter_nil. destruct (decide (key_of bi = k)) as [->|Hne].
  - rewrite IH. by destruct (filter _ l).
  - rewrite IH, app_nil_r. done.
Qed.

Lemma groups_of_mem l g : g ∈ groups_of l → g.2 ≠ [] ∧ ∀ bi, bi ∈ g.2 → bi ∈ l ∧ key_of bi = g.1.
Proof using.
  destruct g as [k g]. intros Hg. destruct (groups_of_get l k) as [Hwf Hget]. rewrite (dict_elem_get _ _ _ Hwf Hg) in Hget.
  destruct (filter _ l) as [|b bs] eqn:E; [done|]. injection Hget as ->. split; [done|]. intros bi Hbi. rewrite <- E in Hbi.
  apply list_elem_of_filter in Hbi. cbn. tauto.
Qed.

Lemma groups_of_cover l bi : bi ∈ l → ∃ g, g ∈ groups_of l ∧ bi ∈ g.2.
Proof using.
  intros Hbi. destruct (groups_of_get l (key_of bi)) as [Hwf Hget].
  assert (bi ∈ filter (λ b, key_of b = key_of bi) l) as Hf by by apply list_elem_of_filter.
  destruct (filter _ l) as [|b bs]; [by apply elem_of_nil in Hf|]. exists (key_of bi, b :: bs). split; [|done].
  by apply dict_get_Some_elem.
Qed.

Lemma groups_of_single key l : l ≠ [] → (∀ bi, bi ∈ l → key_of bi = key) → groups_of l = [(key, l)].
Proof using.
  unfold groups_of. induction l as [|bi l IH] using rev_ind; [done|]. intros _ Hk. rewrite foldl_snoc.
  unfold add_to_groups at 1. rewrite (Hk bi) by (apply elem_of_app; right; left).
  destruct (decide (l = [])) as [->|Hne]; [done|]. rewrite IH; [|done|intros b Hb; apply Hk; apply elem_of_app; by left].
  cbn. by rewrite !decide_True.
Qed.

Lemma run_groups_settles c gs s :
  convert_law → settles (Z.of_nat (length gs)) (keys (mjoin (snd <$> gs))) s (run_groups c s gs).
Proof using.
  intros Hl. revert s. induction gs as [|g gs IH]; intros s; cbn [run_groups fmap list_fmap mjoin list_join length].
  { exists s, (Ret tt). split_and!; try done; [apply ext_refl|lia|]. intros k Hk. by apply elem_of_nil in Hk. }
  destruct (run_encode_group_settles (S (length g.2)) (ctx_of c g) s g.2 Hl) as (s1 & r1 & -> & He1 & Hf1 & Hr1 & Ha1); [lia|].
  unfold keys in *. rewrite fmap_app. destruct r1 as [u|e].
  - destruct (IH s1) as (s2 & r2 & -> & He2 & Hf2 & Hr2 & Ha2). exists s2, r2. split; [done|]. split; [|split; [lia|split; [eauto|]]].
    + eapply ext_trans; eapply ext_mono; [|exact He1| |exact He2]; intros k Hk; apply elem_of_app; eauto.
    + destruct r2; [|done]. intros k [Hk|Hk]%elem_of_app; [apply He2; by apply Ha1|by apply Ha2].
  - exists s1, (Raise e). split; [done|]. split; [|split; [lia|done]].
    eapply ext_mono; [|exact He1]. intros k Hk. apply elem_of_app. by left.
Qed.

Lemma collect_outcomes_spec {R} (d : list (string * ItemOutcome R)) (l all : list ItemKey) :
  NoDup (work_item_id <$> all) → (∀ k, k ∈ l → k ∈ all) → (∀ k, k ∈ l → is_Some (dict_get (work_item_id k) d)) →
  (∀ k o, dict_get k d = Some o → o_key o ∈ all ∧ work_item_id (o_key o) = k) →
  ∃ os, collect_outcomes d l = Ret os ∧ o_key <$> os = l.
Proof using.
  intros Hnd. induction l as [|k l IH]; intros Hall Hd Ho; cbn; [by exists []|].
  destruct (Hd k (list_elem_of_here _ _)) as [o Hk]. rewrite Hk. destruct IH as (os & -> & Hos); [by intros; apply Hall; right|by intros; apply Hd; right|done|].
  exists (o :: os). split; [done|]. cbn. f_equal; [|done]. destruct (Ho _ _ Hk) as [Hin Hid].
  eapply NoDup_fmap_eq; [exact Hnd|done|by apply Hall; left|done].
Qed.

(** ** One bad request *)

(** The call of a group on some of its items *)
Definition call_of (ctx : group_ctx) (ao : list string) (options : dict) (items : list Item) : EncodeCall :=
  mkCall items ao (g_instruction ctx) (g_is_query ctx) options.

(** A pipeline whose only failures are input-specific: a call with a bad item rejects its
    input, any other call gives an output per item that can be framed. *)
Definition input_specific (ctx : group_ctx) (ao ro : list string) (options : dict) (bad : Item → bool) : Prop :=
  ∀ (w : W) items pts,
    if existsb bad items
    then ∃ w' m, run_encode w (g_config ctx) (call_of ctx ao options items) pts (Some ro) = (w', Raise (Infer (Oom.InvalidInputError m))) ∧
           Oom.is_oom_error (Oom.InvalidInputError m) = false
    else ∃ w' outs t, run_encode w (g_config ctx) (call_of ctx ao options items) pts (Some ro) = (w', Ret (outs, t)) ∧
           length outs = length items ∧
           ∀ f i, f ∈ outs → is_Some (raw_output f (g_config ctx) ro) ∨
             ∃ wr b, wrap_encode_output f (g_config ctx) = Ret wr ∧ pack_result env i wr = Ret b.

Definition published (s : st) (k : ItemKey) : Prop :=
  ∃ r u, dict_get (work_item_id k) (outcomes s) = Some (mkOutcome k (PublishAndAck r u)).

Definition rejected (s : st) (k : ItemKey) : Prop :=
  ∃ m, dict_get (work_item_id k) (outcomes s) = Some (mkOutcome k (PublishErrorAndAck INVALID_INPUT m)).

Lemma ext_keep ks s s' k o :
  ext ks s s' → k ∉ work_item_id <$> ks → dict_get k (outcomes s) = Some o → dict_get k (outcomes s') = Some o.
Proof using.
  intros [Hf Ho] Hk Hg. destruct (Hf k) as [o' Ho']; [unfold found; rewrite Hg; eauto|].
  destruct (Ho _ _ Ho') as [?|[Hin Hid]]; [congruence|]. destruct Hk. rewrite <- Hid. by apply list_elem_of_fmap_2.
Qed.

Lemma publish_loop_ok c ts tc ic idx good outs s :
  length outs = length good → NoDup (work_item_id <$> keys (fst <$> good)) →
  (∀ f i, f ∈ outs → is_Some (raw_output f c ts) ∨ ∃ wr b, wrap_encode_output f c = Ret wr ∧ pack_result env i wr = Ret b) →
  ∃ s', publish_loop c ts tc ic idx good outs s = (s', Ret tt) ∧ ∀ k, k ∈ keys (fst <$> good) → published s' k.
Proof using.
  revert idx outs s. induction good as [|[bi it] good IH]; intros idx outs s Hlen Hnd Hf; cbn [publish_loop].
  { exists s. split; [done|]. intros k Hk. by apply elem_of_nil in Hk. }
  destruct outs as [|f outs]; [done|]. cbn in Hnd. apply NoDup_cons in Hnd as [Hn Hnd].
  match goal with |- context [match ?b with Raise e => (s, Raise e) | _ => _ end] => assert (∃ r, b = Ret r) as [r ->] end.
  { destruct (raw_output f c ts) as [r|] eqn:Er; [eauto|]. destruct (Hf f (item_id it) (list_elem_of_here _ _)) as [[r Hr]|(wr & b & -> & ->)]; [congruence|eauto]. }
  match goal with |- context [publish_loop _ _ _ _ _ _ _ (record ?o s)] => set (o0 := o) end.
  destruct (IH (S idx) outs (record o0 s)) as (s' & Hs' & Hp); [cbn in Hlen; lia|done|intros; apply Hf; by right|].
  exists s'. split; [done|]. intros k [->|Hk]%elem_of_cons; [|by apply Hp].
  apply publish_loop_spec in Hs' as (He & _). eexists _, _. eapply ext_keep; [exact He|done|].
  unfold record. cbn. rewrite dict_get_set. by rewrite decide_True.
Qed.

Lemma record_all_at mk l s k :
  (∀ k, o_key (mk k) = k) → NoDup (work_item_id <$> keys l) → k ∈ keys l →
  dict_get (work_item_id k) (outcomes (record_all mk l s)) = Some (mk k).
Proof using.
  intros Hmk. revert s. induction l as [|bi l IH]; intros s Hnd Hk; [by apply elem_of_nil in Hk|]. cbn in Hnd |- *.
  apply NoDup_cons in Hnd as [Hn Hnd]. apply elem_of_cons in Hk as [->|Hk]; [|by apply IH].
  eapply ext_keep; [by apply (record_all_spec mk l)|done|]. unfold record. cbn. rewrite Hmk, dict_get_set. by rewrite decide_True.
Qed.

Lemma half_reqs_left group : (length (uniq (req_of <$> left_half group)) ≤ length (uniq (req_of <$> group)) / 2)%nat.
Proof using.
  destruct (left_ids_split group) as (right & _ & <-). apply length_uniq_le. intros r (bi & -> & Hbi)%list_elem_of_fmap.
  by apply list_elem_of_filter in Hbi as [? _].
Qed.

Lemma half_reqs_right group :
  (length (uniq (req_of <$> right_half group)) ≤ length (uniq (req_of <$> group)) - length (uniq (req_of <$> group)) / 2)%nat.
Proof using.
  destruct (left_ids_split group) as (right & Hu & Hl). rewrite <- Hl. rewrite Hu at 1. rewrite length_app.
  replace (length (left_ids group) + length right - length (left_ids group))%nat with (length right) by lia.
  apply length_uniq_le. intros r (bi & -> & Hbi)%list_elem_of_fmap. apply list_elem_of_filter in Hbi as [Hn Hbi].
  assert (req_of bi ∈ uniq (req_of <$> group)) as Hx by by apply elem_of_uniq, list_elem_of_fmap_2.
  rewrite Hu in Hx. apply elem_of_app in Hx as [?|?]; done.
Qed.

Lemma filter_keys_nodup (P : bitem → Prop) `{∀ bi, Decision (P bi)} group :
  NoDup (work_item_id <$> keys group) → NoDup (work_item_id <$> keys (filter P group)).
Proof using.
  intros Hnd. eapply sublist_NoDup; [exact Hnd|]. unfold keys. rewrite <- !list_fmap_compose.
  induction group as [|bi group IH]; [done|]. cbn in Hnd. apply NoDup_cons in Hnd as [_ Hnd]. rewrite filter_cons.
  destruct (decide (P bi)); cbn; constructor; by apply IH.
Qed.

(** A group that decodes, of one context *)
Section one_bad.
Context (Hl : convert_law) (ctx : group_ctx) (options : dict) (profile : ResolvedProfile) (ao ro : list string).
Context (Hmerge : merge_runtime_options_with_profile (g_config ctx) (Some (g_options ctx)) = Ret (options, profile)).
Context (Hres : resolve_encode_output_types (g_config ctx) (Some (g_output_types ctx)) profile options = Ret (ao, ro)).
Context (bad : Item → bool) (Hspec : input_specific ctx ao ro options bad) (dec : bitem → Item) (r : string).

(** Every item decodes, and bad items come from the request [r] only *)
Definition blames (group : list bitem) : Prop :=
  ∀ bi, bi ∈ group → decode_item (convert env) (e_item bi) = Ret (dec bi) ∧ (bad (dec bi) = true → req_of bi = r).

Definition has_bad (group : list bitem) : bool := existsb (λ bi, bad (dec bi)) group.

(** The verdict on an item of a group *)
Definition verdict (group : list bitem) (s : st) (bi : bitem) : Prop :=
  if has_bad group && bool_decide (req_of bi = r) then rejected s (e_key bi) else published s (e_key bi).

Lemma decode_all s group : blames group → decode_loop s group = (s, Ret ((λ bi, (bi, dec bi)) <$> group)).
Proof using.
  intros Hb. induction group as [|bi group IH]; [done|]. cbn [decode_loop fmap list_fmap].
  destruct (Hb bi (list_elem_of_here _ _)) as [-> _]. rewrite IH; [done|]. intros b Hbi. apply Hb. by right.
Qed.

Lemma attempt_verdict s group :
  blames group → NoDup (work_item_id <$> keys group) →
  ∃ s', remaining s' = remaining s ∧
    if has_bad group
    then ∃ m, attempt s ctx ((λ bi, (bi, dec bi)) <$> group) = (s', Raise (Infer (Oom.InvalidInputError m))) ∧
           Oom.is_oom_error (Oom.InvalidInputError m) = false
    else attempt s ctx ((λ bi, (bi, dec bi)) <$> group) = (s', Ret tt) ∧ ∀ bi, bi ∈ group → published s' (e_key bi).
Proof using Hmerge Hres Hspec.
  intros Hb Hnd. set (good := (λ bi, (bi, dec bi)) <$> group).
  assert (fst <$> good = group) as Hfst by (unfold good; rewrite <- list_fmap_compose; apply list_fmap_id).
  destruct (attempt s ctx good) as [s' res] eqn:Ea. exists s'. pose proof (attempt_spec _ _ _ _ _ Ea) as (_ & Hr & _). split; [done|].
  unfold attempt in Ea. rewrite Hmerge, Hres in Ea. cbv zeta in Ea. fold (call_of ctx ao options (snd <$> good)) in Ea.
  match type of Ea with context [run_encode ?w ?c ?call ?pts _] => pose proof (Hspec w (snd <$> good) pts) as Hrun end.
  assert (existsb bad (snd <$> good) = has_bad group) as Hbad.
  { unfold has_bad, good. rewrite <- list_fmap_compose. clear. induction group as [|b g IH]; cbn; [done|]. by rewrite IH. }
  rewrite Hbad in Hrun. destruct (has_bad group).
  - destruct Hrun as (w' & m & Hrun & Ho). rewrite Hrun in Ea. injection Ea as <- <-. eauto.
  - destruct Hrun as (w' & outs & t & Hrun & Hlen & Hf). rewrite Hrun in Ea. rewrite length_fmap in Hlen.
    rewrite Hlen, Nat.eqb_refl in Ea. cbn [negb] in Ea.
    match type of Ea with publish_loop ?c ?ts ?tc ?ic ?i ?g ?os ?s0 = _ =>
      destruct (publish_loop_ok c ts tc ic i g os s0) as (s1 & Hs1 & Hp) end; [done|by rewrite Hfst|done|].
    rewrite Hs1 in Ea. injection Ea as <- <-. split; [done|]. intros bi Hbi. apply Hp. rewrite Hfst. by apply list_elem_of_fmap_2.
Qed.

Lemma blames_sub group group' : (∀ bi, bi ∈ group' → bi ∈ group) → blames group → blames group'.
Proof using. intros H Hb bi Hbi. by apply Hb, H. Qed.

(** A half without bad items is published; a half is only as bad as its items. *)
Lemma has_bad_halves group :
  has_bad group = has_bad (left_half group) || has_bad (right_half group).
Proof using.
  apply eq_true_iff_eq. unfold has_bad. rewrite orb_true_iff, !existsb_exists. setoid_rewrite <- list_elem_of_In. split.
  - intros (bi & Hbi & H). destruct (halves_cover group bi Hbi); eauto.
  - intros [(bi & Hbi & H)|(bi & Hbi & H)]; apply list_elem_of_filter in Hbi as [_ ?]; eauto.
Qed.

Lemma blamed_req group : blames group → has_bad group = true → ∃ bi, bi ∈ group ∧ req_of bi = r.
Proof using.
  intros Hb (bi & Hbi & H)%existsb_exists. apply list_elem_of_In in Hbi. exists bi. split; [done|]. by apply (Hb bi Hbi).
Qed.

Lemma one_half_blamed group :
  blames group → has_bad (left_half group) = true → has_bad (right_half group) = true → False.
Proof using.
  intros Hb H1 H2.
  destruct (blamed_req (left_half group)) as (b1 & Hb1 & E1);
    [eapply blames_sub; [|exact Hb]; intros ? ?%list_elem_of_filter; tauto|done|].
  destruct (blamed_req (right_half group)) as (b2 & Hb2 & E2);
    [eapply blames_sub; [|exact Hb]; intros ? ?%list_elem_of_filter; tauto|done|].
  apply list_elem_of_filter in Hb1 as [H3 _], Hb2 as [H4 _]. congruence.
Qed.

Lemma verdict_keep ks group s s' bi :
  ext ks s s' → work_item_id (e_key bi) ∉ work_item_id <$> ks → verdict group s bi → verdict group s' bi.
Proof using.
  intros He Hn. unfold verdict, rejected, published. destruct (_ && _); [intros (m & Hm)|intros (x & u & Hm)]; eauto 6 using ext_keep.
Qed.

(** The verdict of the half an item is in is that of the group. *)
Lemma verdict_left group s bi :
  blames group → bi ∈ left_half group → verdict (left_half group) s bi → verdict group s bi.
Proof using.
  intros Hb Hbi. unfold verdict. rewrite (has_bad_halves group). destruct (has_bad (left_half group)) eqn:E; [done|]. cbn [orb andb].
  destruct (has_bad (right_half group)) eqn:E'; [|done]. cbn [andb].
  destruct (blamed_req (right_half group)) as (b2 & Hb2 & E2);
    [eapply blames_sub; [|exact Hb]; intros ? ?%list_elem_of_filter; tauto|done|].
  apply list_elem_of_filter in Hbi as [H3 _], Hb2 as [H4 _]. rewrite bool_decide_eq_false_2 by congruence. done.
Qed.

Lemma verdict_right group s bi :
  blames group → bi ∈ right_half group → verdict (right_half group) s bi → verdict group s bi.
Proof using.
  intros Hb Hbi. unfold verdict. rewrite (has_bad_halves group), orb_comm. destruct (has_bad (right_half group)) eqn:E; [done|]. cbn [orb andb].
  destruct (has_bad (left_half group)) eqn:E'; [|done]. cbn [andb].
  destruct (blamed_req (left_half group)) as (b2 & Hb2 & E2);
    [eapply blames_sub; [|exact Hb]; intros ? ?%list_elem_of_filter; tauto|done|].
  apply list_elem_of_filter in Hbi as [H3 _], Hb2 as [H4 _]. rewrite bool_decide_eq_false_2 by congruence. done.
Qed.

(** The budget a group needs: two passes per halving, if it holds the bad request *)
Definition affordable (k : nat) (group : list bitem) (s : st) : Prop :=
  has_bad group = true → (length (uniq (req_of <$> group)) ≤ 2 ^ k)%nat ∧ 2 * Z.of_nat k <= remaining s.

Definition judged (k : nat) (group : list bitem) (s : st) (o : option (st * res exc unit)) : Prop :=
  ∃ s', o = Some (s', Ret tt) ∧ ext (keys group) s s' ∧ (∀ bi, bi ∈ group → verdict group s' bi) ∧
    remaining s - (if has_bad group then 2 * Z.of_nat k else 0) <= remaining s'.

Lemma run_half_judged run e half k s :
  0 < remaining s → (∀ s, affordable k half s → judged k half s (run s half)) →
  (has_bad half = true → (length (uniq (req_of <$> half)) ≤ 2 ^ k)%nat ∧ 2 * Z.of_nat k <= remaining s - 1) →
  ∃ s', run_half run e half s = Some (s', Ret tt) ∧ ext (keys half) s s' ∧ (∀ bi, bi ∈ half → verdict half s' bi) ∧
    remaining s - 1 - (if has_bad half then 2 * Z.of_nat k else 0) <= remaining s'.
Proof using.
  intros Hpos Hrun Haf. unfold run_half, spend. destruct (Z.leb_spec (remaining s) 0); [lia|].
  destruct (Hrun (mkSt (world s) (outcomes s) (remaining s - 1) (passes s)) Haf) as (s' & -> & He & Hv & Hr).
  exists s'. split; [done|]. split; [exact He|]. done.
Qed.

Lemma nodup_other (P : bitem → Prop) `{∀ bi, Decision (P bi)} group bi :
  NoDup (work_item_id <$> keys group) → bi ∈ group → ¬ P bi → work_item_id (e_key bi) ∉ work_item_id <$> keys (filter P group).
Proof using.
  intros Hnd Hbi HP (k & Hk & (b & -> & Hb)%list_elem_of_fmap)%list_elem_of_fmap. apply list_elem_of_filter in Hb as [HPb Hb].
  unfold keys in Hnd. rewrite <- list_fmap_compose in Hnd. destruct HP. by rewrite (NoDup_fmap_eq _ _ _ _ Hnd Hbi Hb Hk).
Qed.

(** A group of one request takes the error. *)
Lemma single_request_judged group m k s :
  blames group → NoDup (work_item_id <$> keys group) → has_bad group = true →
  Oom.is_oom_error (Oom.InvalidInputError m) = false → (length (uniq (req_of <$> group)) ≤ 1)%nat →
  judged k group s (Some (record_all (λ bi, inference_exception_outcome env bi (Infer (Oom.InvalidInputError m))) group s, Ret tt)).
Proof using.
  intros Hb Hnd Hbad Hom H1. set (mk := λ bi, inference_exception_outcome env bi (Infer (Oom.InvalidInputError m))).
  eexists. split; [done|]. destruct (record_all_spec mk group s) as (He & _ & _ & Hr); [intros; apply exception_outcome_key|].
  split; [done|]. split; [|rewrite Hbad, Hr; lia]. intros bi Hbi. unfold verdict. rewrite Hbad.
  destruct (blamed_req group Hb Hbad) as (b & Hb' & Hreq).
  assert (req_of bi = r) as Hr'.
  { assert (∀ x, x ∈ group → req_of x ∈ uniq (req_of <$> group)) as Hu by (intros; by apply elem_of_uniq, list_elem_of_fmap_2).
    pose proof (Hu bi Hbi) as Hu1. pose proof (Hu b Hb') as Hu2.
    destruct (uniq (req_of <$> group)) as [|x [|]]; [by apply elem_of_nil in Hu1| |cbn in H1; lia].
    apply list_elem_of_singleton in Hu1, Hu2. congruence. }
  rewrite bool_decide_eq_true_2 by done. exists m.
  rewrite (record_all_at mk); [|intros; apply exception_outcome_key|done|by apply list_elem_of_fmap_2].
  unfold mk, inference_exception_outcome. cbn [is_oom]. by rewrite Hom.
Qed.

Lemma isolate_judged run e group k s :
  blames group → NoDup (work_item_id <$> keys group) → has_bad group = true → affordable k group s →
  (∃ m, e = Infer (Oom.InvalidInputError m) ∧ Oom.is_oom_error (Oom.InvalidInputError m) = false) →
  (∀ k s half, (length half < length group)%nat → blames half → NoDup (work_item_id <$> keys half) → affordable k half s →
     judged k half s (run s half)) →
  judged k group s (isolate run e group s).
Proof using.
  intros Hb Hnd Hbad Haf (m & -> & Hom) Hrun. destruct (Haf Hbad) as [HR Hrem]. unfold isolate.
  destruct (Nat.leb_spec (length (uniq (req_of <$> group))) 1) as [H1|H2].
  - by apply single_request_judged.
  - destruct k as [|k]; [cbn in HR; lia|].
    destruct (halves_shorter group) as [Hll Hlr]; [lia|].
    assert (∀ bi, bi ∈ left_half group → bi ∈ group) as Hsl by (intros ? ?%list_elem_of_filter; tauto).
    assert (∀ bi, bi ∈ right_half group → bi ∈ group) as Hsr by (intros ? ?%list_elem_of_filter; tauto).
    assert (length (uniq (req_of <$> group)) / 2 ≤ 2 ^ k ∧ length (uniq (req_of <$> group)) - length (uniq (req_of <$> group)) / 2 ≤ 2 ^ k)%nat as [HRl HRr].
    { cbn in HR. pose proof (Nat.div_mod_eq (length (uniq (req_of <$> group))) 2).
      pose proof (Nat.mod_upper_bound (length (uniq (req_of <$> group))) 2). lia. }
    pose proof (half_reqs_left group). pose proof (half_reqs_right group).
    destruct (run_half_judged run (Infer (Oom.InvalidInputError m)) (left_half group) k s) as (s1 & -> & He1 & Hv1 & Hr1); [lia| |intros; split; lia|].
    { intros s' Haf'. apply Hrun; [done|by eapply blames_sub|by apply filter_keys_nodup|done]. }
    assert (if has_bad (left_half group) then has_bad (right_half group) = false else True) as Hx.
    { destruct (has_bad (left_half group)) eqn:E; [|done]. destruct (has_bad (right_half group)) eqn:E'; [|done].
      by destruct (one_half_blamed group Hb E E'). }
    destruct (run_half_judged run (Infer (Oom.InvalidInputError m)) (right_half group) k s1) as (s2 & -> & He2 & Hv2 & Hr2).
    { destruct (has_bad (left_half group)); lia. }
    { intros s' Haf'. apply Hrun; [done|by eapply blames_sub|by apply filter_keys_nodup|done]. }
    { intros E. rewrite E in Hx. destruct (has_bad (left_half group)); [done|]. split; lia. }
    exists s2. split; [done|]. split_and!.
    + assert (∀ half, (∀ bi, bi ∈ half → bi ∈ group) → ∀ k0, k0 ∈ keys half → k0 ∈ keys group) as Hsub.
      { intros half Hh k0 (bi & -> & Hbi)%list_elem_of_fmap. apply list_elem_of_fmap_2. eauto. }
      eapply ext_trans; eapply ext_mono; [|exact He1| |exact He2]; eauto.
    + intros bi Hbi. destruct (halves_cover group bi Hbi) as [Hh|Hh].
      * apply verdict_left; [done..|]. eapply verdict_keep; [exact He2| |by apply Hv1]. apply list_elem_of_filter in Hh as [Hh _].
        apply nodup_other; [done|done|]. tauto.
      * apply verdict_right; [done..|]. by apply Hv2.
    + rewrite (has_bad_halves group) in Hbad |- *. destruct (has_bad (left_half group)); [rewrite Hx in *|cbn in Hbad; rewrite Hbad in *]; cbn [orb]; lia.
Qed.

Lemma run_encode_group_judged fuel k s group :
  blames group → NoDup (work_item_id <$> keys group) → (length group < fuel)%nat → affordable k group s →
  judged k group s (run_encode_group fuel ctx s group).
Proof using Hl Hmerge Hres Hspec.
  revert k s group. induction fuel as [|fuel IH]; intros k s group Hb Hnd Hf Haf; [lia|]. cbn [run_encode_group].
  rewrite decode_all by done. destruct ((λ bi, (bi, dec bi)) <$> group) as [|g0 gs] eqn:Eg.
  { apply fmap_nil_inv in Eg as ->. exists s. split_and!; try done; [apply ext_refl| |cbn; lia]. intros bi Hbi. by apply elem_of_nil in Hbi. }
  rewrite <- Eg. clear Eg g0 gs.
  destruct (attempt_verdict s group Hb Hnd) as (s1 & Hr1 & Hatt).
  assert (fst <$> ((λ bi, (bi, dec bi)) <$> group) = group) as Hfst by (rewrite <- list_fmap_compose; apply list_fmap_id).
  destruct (has_bad group) eqn:Ebad.
  - destruct Hatt as (m & Hatt & Hom). rewrite Hatt. cbn [is_invalid_input]. rewrite Hfst.
    apply attempt_spec in Hatt as (He1 & _ & _). rewrite Hfst in He1.
    destruct (isolate_judged (run_encode_group fuel ctx) (Infer (Oom.InvalidInputError m)) group k s1) as (s2 & Hs2 & He2 & Hv2 & Hr2); try done.
    + intros _. rewrite Hr1. by apply Haf.
    + eauto.
    + intros k' s' half Hlen Hb' Hnd' Haf'. apply IH; try done. lia.
    + exists s2. split; [done|]. split; [by eapply ext_trans|]. split; [done|]. lia.
  - destruct Hatt as [Hatt Hpub]. rewrite Hatt. apply attempt_spec in Hatt as (He1 & _ & _). rewrite Hfst in He1.
    exists s1. split; [done|]. split; [done|]. split; [|rewrite Ebad; lia]. intros bi Hbi. unfold verdict. rewrite Ebad. by apply Hpub.
Qed.
End one_bad.
End encode.

Lemma encode_batch_settled {D V W : Type} `{!EncodeServices (nd D) (nd D * nd D) (nd D) W} (env : Env D V)
    get_config count_images (w : W) (items : list (EncodeBatchItem V)) :
  convert_law env → NoDup (work_item_id <$> (e_key <$> items)) →
  ∃ s r, process_encode_batch env get_config count_images w items = Some (s, r) ∧
    match r with Ret os => o_key <$> os = e_key <$> items | Raise e => is_exception e = false end ∧
    Z.of_nat (passes s) <= Z.of_nat (length (groups_of env items)) + MAX_ENCODE_ISOLATION_PASSES.
Proof.
  intros Hl Hnd. unfold process_encode_batch. destruct (get_config w) as [c|].
  2:{ eexists _, _. split; [done|]. split; [|unfold MAX_ENCODE_ISOLATION_PASSES; cbn; lia].
      rewrite <- list_fmap_compose. by apply list_fmap_ext. }
  destruct (run_groups_settles env count_images c (groups_of env items) (mkSt w [] MAX_ENCODE_ISOLATION_PASSES 0) Hl)
    as (s & r & -> & He & Hf & Hr & Ha).
  assert (Z.of_nat (passes s) <= Z.of_nat (length (groups_of env items)) + MAX_ENCODE_ISOLATION_PASSES) as Hp.
  { unfold effort in Hf. cbn in Hf, Hr. unfold MAX_ENCODE_ISOLATION_PASSES in *. lia. }
  destruct r as [u|e]; [|by exists s, (Raise e)].
  destruct (collect_outcomes_spec (outcomes s) (e_key <$> items) (e_key <$> items) Hnd) as (os & -> & Hos); [done|..].
  - intros k (bi & -> & Hbi)%list_elem_of_fmap. destruct (groups_of_cover env items bi Hbi) as (g & Hg & Hbg). apply Ha.
    apply list_elem_of_fmap_2, list_elem_of_join. exists g.2. split; [done|]. by apply list_elem_of_fmap_2.
  - intros k o Ho. apply He in Ho as [Ho|[Hk Hid]]; [done|]. split; [|done].
    apply list_elem_of_fmap in Hk as (bi & -> & Hbi). apply list_elem_of_join in Hbi as (g & Hbg & Hg).
    apply list_elem_of_fmap in Hg as (kg & -> & Hkg). apply list_elem_of_fmap_2. by apply (groups_of_mem env items kg Hkg).
  - exists s, (Ret os). done.
Qed.

(** C4 — a batch is answered item by item.  For work items with distinct ids (and a decoder
    that raises only validation errors), [process_encode_batch] comes back with exactly one
    outcome per item, in the order of the items and under each item's own work item id,
    request id and index, whatever the pipeline does: drops outputs, raises, rejects the
    input of some requests, or cannot frame a result.  Only a cancellation of the call
    escapes.  It makes at most one pipeline call per group plus the isolation budget of the
    whole batch. *)
Theorem encode_batch_answers {D V W : Type} `{!EncodeServices (nd D) (nd D * nd D) (nd D) W} (env : Env D V)
    get_config count_images (w : W) (items : list (EncodeBatchItem V)) :
  convert_law env → NoDup (work_item_id <$> (e_key <$> items)) →
  ∃ s r, process_encode_batch env get_config count_images w items = Some (s, r) ∧
    match r with Ret os => o_key <$> os = e_key <$> items | Raise e => is_exception e = false end ∧
    Z.of_nat (passes s) <= Z.of_nat (length (groups_of env items)) + MAX_ENCODE_ISOLATION_PASSES.
Proof. apply encode_batch_settled. Qed.

(** C5 — one tenant's bad input does not fail the others.  In a batch whose items may share
    one pipeline call, where the pipeline rejects exactly the calls with a bad item, the bad
    items all come from one request and at most 4096 requests are fused, every item of
    every other request is published and exactly the items of the bad request are answered
    with INVALID_INPUT: the budget of 24 passes is enough to find it. *)
Theorem isolation_saves_healthy {D V W : Type} `{!EncodeServices (nd D) (nd D * nd D) (nd D) W} (env : Env D V)
    get_config count_images (w : W) (items : list (EncodeBatchItem V)) c key options profile ao ro
    (bad : Item → bool) (dec : EncodeBatchItem V → Item) (r : string) :
  get_config w = Some c → items ≠ [] → (∀ bi, bi ∈ items → key_of env bi = key) →
  convert_law env →
  merge_runtime_options_with_profile c (Some (g_options (ctx_of c (key, items)))) = Ret (options, profile) →
  resolve_encode_output_types c (Some (g_output_types (ctx_of c (key, items)))) profile options = Ret (ao, ro) →
  input_specific env (ctx_of c (key, items)) ao ro options bad →
  blames env bad dec r items → NoDup (work_item_id <$> (e_key <$> items)) →
  (length (uniq (req_of <$> items)) ≤ 4096)%nat →
  ∃ s os, process_encode_batch env get_config count_images w items = Some (s, Ret os) ∧
    ∀ i bi, items !! i = Some bi →
      ∃ o, os !! i = Some o ∧ o_key o = e_key bi ∧
        if has_bad bad dec items && bool_decide (req_of bi = r)
        then ∃ m, o_disposition o = PublishErrorAndAck INVALID_INPUT m
        else ∃ res u, o_disposition o = PublishAndAck res u.
Proof.
  intros Hc Hne Hk Hl Hm Hr Hspec Hb Hnd HR. unfold process_encode_batch. rewrite Hc, (groups_of_single env key) by done.
  cbn [run_groups fst snd]. set (ctx := ctx_of c (key, items)) in *.
  assert (g_config ctx = c) as Hcfg by (subst ctx; by destruct key as [[[[[??]?]?]?]?]). clearbody ctx. subst c.
  destruct (run_encode_group_judged env count_images Hl ctx options profile ao ro) with
    (bad := bad) (dec := dec) (r := r) (fuel := S (length items)) (k := 12%nat) (group := items)
    (s := mkSt (D := D) w [] MAX_ENCODE_ISOLATION_PASSES 0) as (s & -> & He & Hv & _); [done..|lia| |].
  { intros _. split; [exact HR|]. cbn. unfold MAX_ENCODE_ISOLATION_PASSES. lia. }
  assert (∀ bi, bi ∈ items → ∃ o, dict_get (work_item_id (e_key bi)) (outcomes s) = Some o ∧ o_key o = e_key bi ∧
    if has_bad bad dec items && bool_decide (req_of bi = r)
    then ∃ m, o_disposition o = PublishErrorAndAck INVALID_INPUT m else ∃ res u, o_disposition o = PublishAndAck res u) as Hout.
  { intros bi Hbi. specialize (Hv bi Hbi). unfold verdict in Hv. destruct (_ && _).
    - destruct Hv as (m & Hm'). eexists. split; [done|]. split; [done|]. cbn. eauto.
    - destruct Hv as (x & u & Hm'). eexists. split; [done|]. split; [done|]. cbn. eauto. }
  clear -Hout. exists s.
  assert (∃ os, collect_outcomes (outcomes s) (e_key <$> items) = Ret os ∧
    ∀ i bi, items !! i = Some bi → ∃ o, os !! i = Some o ∧ dict_get (work_item_id (e_key bi)) (outcomes s) = Some o) as (os & Hos & Hi).
  { assert (∀ bi, bi ∈ items → is_Some (dict_get (work_item_id (e_key bi)) (outcomes s))) as Hs
      by (intros bi Hbi; destruct (Hout bi Hbi) as (o & -> & _); eauto).
    clear Hout. induction items as [|b items IH]; cbn; [by exists []|].
    destruct (Hs b (list_elem_of_here _ _)) as [o Ho]. rewrite Ho. destruct IH as (os & -> & Hi); [intros; apply Hs; by right|].
    exists (o :: os). split; [done|]. intros [|i] bi Hbi; [injection Hbi as <-; eauto|by apply Hi]. }
  exists os. rewrite Hos. split; [done|]. intros i bi Hbi. destruct (Hi i bi Hbi) as (o & Ho & Hg).
  destruct (Hout bi (list_elem_of_lookup_2 _ _ _ Hbi)) as (o' & Hg' & H). exists o. split; [done|].
  rewrite Hg in Hg'. injection Hg' as <-. exact H.
Qed.

(** ** Examples *)

(** A dense model without preprocessors whose adapter rejects the text ["bad"] *)
Definition ex_bad (it : Item) : bool := bool_decide (item_text it = Some "bad"%string).
Definition ex_row : nd unit := mkNd "float32" [2] tt.

Definition ex_direct (w : unit) (call : EncodeCall) :
    unit * res exc (EncodeOutput (Row := nd unit) (SV := nd unit * nd unit) (MV := nd unit)) :=
  let n := length (call_items call) in
  (w, if existsb ex_bad (call_items call) then Raise (Infer (Oom.InvalidInputError "undecodable"))
      else Ret (mkEncode (Some (mkArr 2 (replicate n ex_row))) None None (Z.of_nat n) false (Some 2) None [])).

#[export] Instance ex_services : EncodeServices (nd unit) (nd unit * nd unit) (nd unit) unit := {
  svc_has := λ _ _, false;
  svc_text := λ _, Ret None;
  svc_prepare := λ w _ _, (w, Ret []);
  svc_get := λ _, true;
  svc_submit := λ w _ call, ex_direct w call;
  svc_direct := ex_direct;
  svc_count := λ w _, (w, Ret None);
}.

Definition ex_config : ModelConfig :=
  mkConfig "m" (Some "m"%string) None None false None false (mkTasks (Some (mkEncodeTask (Some 2) None None)) false false None) None
    [("default"%string, mkProfile None (Some 1024) None (Some "a"%string) (mkOptions [] []) None None None None None None)].

(** Raw items are [{"text": t}]; packing shows only the keys. *)
Definition ex_convert (raw : list (string * string)) : res exc Item := Ret (mkItem None (dict_get "text"%string raw) None false false None).
Definition ex_pack (d : dict) : string := join "," (dict_keys d).
Definition ex_env : Env unit string := mkEnv _ _ 5000 10000 ex_convert ex_pack (λ _ l, Ret (join "," (fst <$> l))).

Definition ex_item (id req text : string) (options : option dict) : EncodeBatchItem string :=
  mkEncodeItem (mkKey id req 0) [("text"%string, text)] None None false options None None None.

Definition ex_batch : list (EncodeBatchItem string) :=
  [ex_item "1" "a" "hello" None; ex_item "2" "b" "bad" None; ex_item "3" "c" "hi" None; ex_item "4" "b" "fine" None;
   ex_item "5" "d" "hey" None]%string.

Definition ex_run := process_encode_batch ex_env (λ _, Some ex_config) (λ _, None) tt.

Lemma ex_convert_law : convert_law ex_env.
Proof. by intros raw e. Qed.

Lemma encode_batch_answers_witness :
  ∃ s os, ex_run ex_batch = Some (s, Ret os) ∧ o_key <$> os = e_key <$> ex_batch ∧ Z.of_nat (passes s) <= 25.
Proof.
  destruct (encode_batch_answers ex_env (λ _, Some ex_config) (λ _, None) tt ex_batch ex_convert_law) as (s & r & Hr & Ho & Hp).
  { apply (bool_decide_unpack _). vm_compute. done. }
  destruct r as [os|e]; [exists s, os; exact (conj Hr (conj Ho Hp))|]. exfalso. vm_compute in Hr. discriminate Hr.
Defined.

Lemma ex_input_specific ctx ao options :
  g_config ctx = ex_config → input_specific ex_env ctx ao ["dense"%string] options ex_bad.
Proof.
  intros Hc w items pts. rewrite Hc. unfold run_encode, prepare_batch, forward. cbn. unfold ex_direct. cbn.
  destruct (existsb ex_bad items); [eexists _, _; split; reflexivity|].
  unfold settle_tokens. cbn. unfold format_output. cbn -[Nat.ltb]. rewrite Nat2Z.id.
  change (bool_decide ("dense"%string ∈ ["dense"%string])) with true.
  change (bool_decide ("sparse"%string ∈ ["dense"%string])) with false.
  change (bool_decide ("multivector"%string ∈ ["dense"%string])) with false.
  cbn -[Nat.ltb]. rewrite length_replicate, Nat.ltb_irrefl. destruct (length items <? 0)%nat eqn:E0; [by apply Nat.ltb_lt in E0; lia|].
  eexists _, _, _. split; [reflexivity|]. split; [by rewrite length_fmap, length_seq|].
  intros f i (j & -> & Hj)%list_elem_of_fmap. left. apply elem_of_seq in Hj. cbn. rewrite lookup_replicate_2 by lia. vm_compute. eauto.
Qed.

Lemma isolation_saves_healthy_witness :
  ∃ s os, ex_run ex_batch = Some (s, Ret os) ∧
    ∀ i bi, ex_batch !! i = Some bi → ∃ o, os !! i = Some o ∧ o_key o = e_key bi ∧
      if has_bad ex_bad (λ bi, mkItem None (dict_get "text"%string (e_item bi)) None false false None) ex_batch && bool_decide (req_of bi = "b"%string) then ∃ m, o_disposition o = PublishErrorAndAck INVALID_INPUT m
      else ∃ res u, o_disposition o = PublishAndAck res u.
Proof.
  apply (isolation_saves_healthy ex_env (λ _, Some ex_config) (λ _, None) tt ex_batch ex_config
           (["dense"%string], None, false, ""%string, None, None) []
           (mkResolved 1024 None "a" [] [] None None None None None None) ["dense"%string] ["dense"%string] ex_bad
           (λ bi, mkItem None (dict_get "text"%string (e_item bi)) None false false None) "b").
  - reflexivity.
  - done.
  - intros bi Hbi. unfold ex_batch in Hbi. rewrite !elem_of_cons, elem_of_nil in Hbi.
    destruct Hbi as [->|[->|[->|[->|[->|[]]]]]]; reflexivity.
  - exact ex_convert_law.
  - vm_compute. reflexivity.
  - vm_compute. reflexivity.
  - apply ex_input_specific. reflexivity.
  - intros bi Hbi. unfold ex_batch in Hbi. rewrite !elem_of_cons, elem_of_nil in Hbi.
    destruct Hbi as [->|[->|[->|[->|[->|[]]]]]]; (split; [reflexivity|]); vm_compute; congruence.
  - apply (bool_decide_unpack _). vm_compute. done.
  - vm_compute. lia.
Defined.

(** Thirteen requests that name an unknown profile are split as if their input were at
    fault: the shared budget is gone without a single pipeline call, and in the next group a
    healthy request is rejected with its neighbour's error. *)
Definition ex_starving : list (EncodeBatchItem string) :=
  ((λ i, ex_item i i "hello" (Some [("profile", VStr "nope")]))
     <$> ["a"; "b"; "c"; "d"; "e"; "f"; "g"; "h"; "i"; "j"; "k"; "l"; "m"]%list) ++
  [ex_item "x" "healthy" "hello" None; ex_item "y" "broken" "bad" None].
Arguments ex_starving : simpl never.

Lemma profile_error_spends_budget :
  ∃ s os o, ex_run ex_starving = Some (s, Ret os) ∧ passes s = 1%nat ∧ remaining s = 0 ∧
    os !! 13%nat = Some o ∧ o = mkOutcome (mkKey "x" "healthy" 0) (PublishErrorAndAck INVALID_INPUT "undecodable").
Proof. vm_compute. eexists _, _, _. done. Qed.

(** A profile name with an out-of-memory phrase in it turns the rejection of a malformed
    request into a redelivery. *)
Lemma oom_phrase_is_redelivered :
  ∃ s, ex_run [ex_item "1" "a" "hello" (Some [("profile"%string, VStr "out of memory")])] =
       Some (s, Ret [mkOutcome (mkKey "1" "a" 0) (NakRetry 10000)]).
Proof. vm_compute. eexists. done. Qed.
End QueueExec.
