(* ===== verification/QueueReady.v ===== *)
(** The readiness handshake and the configuration messages of the queue executor:
    [ensure_model_ready], [get_batch_budget], [get_model_descriptor] with the staging of the
    tokenizer file, [apply_model_config], [replace_model_configs] and [set_pinned_models] of
    [queue_executor.py], and [_handle_ensure_ready] of [ipc_server.py], over the model
    registry of [Registry.v].

    What the executor asks the loaded objects for (the text preprocessor, its tokenizer, the
    templates of the adapter, the batch limit of the worker) is the record [Objects]; YAML
    decoding and Pydantic validation are the parameter [parse]; the bundle hash is
    [hash_of].  The staging directory is a map from paths to file contents. *)

From Stdlib Require Import Ascii.
From stdpp Require Import strings gmap.
From S2P Require Import Prelude PyFloat PyDict PyStr Handlers PyVal Memory LoadErrors RegistryIds Registry.
Import Handlers PyVal LoadErrors RegistryIds.
Local Open Scope Z_scope.

Module QueueReady.
Import Registry.
Local Open Scope reg_scope.

(** ** Readiness *)

Inductive ReadinessState := Ready | LoadingStarted | LoadingInProgress | RetryLater | Failed.

#[export] Instance ReadinessState_eq_dec : EqDecision ReadinessState.
Proof. solve_decision. Defined.

(** [failure is not None and failure.is_permanent] *)
Definition permanently_failed (name : string) (r : Reg) : bool :=
  match dict_get name (failed r) with Some f => is_permanent f | None => false end.

Section executor.
Context (P : Params) `{V : VariantMaker} (env : Env).

(** [ensure_model_ready] *)
Definition ensure_model_ready (model_id : string) : M ReadinessState :=
  let! r := get in
  if negb (dict_mem model_id (configs r)) then ret RetryLater
  else if is_loaded model_id r then ret Ready
  else if permanently_failed model_id r then ret Failed
  else if bool_decide (model_id ∈ loading r) then ret LoadingInProgress
  else
    let! started := catch (let! b := start_load_async P env model_id (device P) in ret (Some b))
                          (λ e, if is_exception e then ret None else throw e) in
    match started with
    | None => ret RetryLater
    | Some true => ret LoadingStarted
    | Some false =>
        let! r' := get in
        if permanently_failed model_id r' then ret Failed else ret LoadingInProgress
    end.

(** The readiness verdict.  Every call answers, and the answer is exact: [RetryLater]
    for a model the registry does not know; [Ready] for a loaded one; [Failed] for one whose
    load failed for good, so that no caller polls such a model forever;
    [LoadingInProgress] while a load is in flight or a transient failure cools down; and
    otherwise [LoadingStarted], which is the only answer that changes the registry: the
    model is marked as loading and one background load is scheduled. *)
Theorem readiness_exact name r :
  ∃ v r', ensure_model_ready name r = (Ret v, r') ∧
    let known := dict_mem name (configs r) in
    let permanent := permanently_failed name r in
    let cooling := match dict_get name (failed r) with
                   | Some f => in_cooldown f (clock env (tick r)) | None => false end in
    (v = RetryLater ↔ known = false) ∧
    (v = Ready ↔ known = true ∧ is_loaded name r = true) ∧
    (v = Failed ↔ known = true ∧ is_loaded name r = false ∧ permanent = true) ∧
    (v = LoadingInProgress ↔ known = true ∧ is_loaded name r = false ∧ permanent = false ∧
       (name ∈ loading r ∨ cooling = true)) ∧
    (v = LoadingStarted ↔ known = true ∧ is_loaded name r = false ∧ permanent = false ∧
       name ∉ loading r ∧ cooling = false) ∧
    loading r' = (if decide (v = LoadingStarted) then {[name]} ∪ loading r else loading r) ∧
    tasks r' = (if decide (v = LoadingStarted) then tasks r ++ [TLoad name (device P)] else tasks r)%list ∧
    configs r' = configs r ∧ loaded r' = loaded r ∧ failed r' = failed r ∧ pinned_models r' = pinned_models r.
Proof.
  unfold ensure_model_ready, is_loaded, bind at 1. cbn [get].
  destruct (dict_mem name (configs r)) eqn:Hk; cbn [negb]; [|eexists _, _; split; [reflexivity|]; naive_solver].
  destruct (dict_mem name (loaded r)) eqn:Hl; [eexists _, _; split; [reflexivity|]; naive_solver|].
  destruct (permanently_failed name r) eqn:Hp; [eexists _, _; split; [reflexivity|]; naive_solver|].
  case_bool_decide as Hi; [eexists _, _; split; [reflexivity|]; naive_solver|].
  unfold start_load_async, check_model_loadable, is_failed, catch, bind, get, modify, ret, now, consult. cbn.
  rewrite Hl, bool_decide_eq_false_2 by done.
  assert (permanently_failed name (with_tick S r) = false) as Hp' by exact Hp.
  destruct (dict_get name (failed r)) as [f|] eqn:Hf; cbn.
  - destruct (in_cooldown f (clock env (tick r))) eqn:Hc; cbn.
    + rewrite Hp'. eexists _, _. split; [reflexivity|]. naive_solver.
    + rewrite Hk. cbn. eexists _, _. split; [reflexivity|]. naive_solver.
  - rewrite Hk. cbn. eexists _, _. split; [reflexivity|]. naive_solver.
Qed.

(** ** The worker and its budget *)

(** [get_worker]: [KeyError] for an unknown model, [None] for one that is not loaded or has
    no worker *)
Definition get_worker (name : string) (r : Reg) : res exc bool :=
  if negb (dict_mem name (configs r)) then Raise (ERR_MODEL_NOT_FOUND name)
  else match dict_get name (loaded r) with
       | Some lm => Ret (bool_decide (is_Some (lm_worker lm)))
       | None => Ret false
       end.

(** A tokenizer: [backend_tokenizer.to_str()] ([None] without a backend), and
    [model_max_length] *)
Record Tokenizer := mkTokenizer { to_str : option (res unit pyval); model_max_length : pyval }.

(** A text preprocessor: [tokenizer_id] ([None]: no such attribute), and its tokenizer *)
Record Preprocessor := mkPreprocessor { pre_tokenizer_id : option (res unit pyval); pre_tokenizer : option Tokenizer }.

Record Objects := mkObjects {
  preprocessor : string → res unit (option Preprocessor);      (* [get_preprocessor(model, "text")] *)
  query_template : string → pyval;
  doc_template : string → pyval;
  max_batch_requests : string → pyval;                         (* [VNone] if there is none *)
}.

Definition positive_int (v : pyval) : option Z :=
  match v with VInt z => if 0 <? z then Some z else None | VBool true => Some 1 | _ => None end.

(** [get_batch_budget] *)
Definition get_batch_budget (o : Objects) (model_id : string) (r : Reg) : option Z :=
  match get_worker model_id r with
  | Ret true => positive_int (max_batch_requests o model_id)
  | _ => None
  end.

(** ** Staging of the tokenizer *)

Definition files : Type := gmap string string.

Definition path_char (c : ascii) : bool :=
  let n := nat_of_ascii c in
  ((48 <=? n) && (n <=? 57))%nat || ((65 <=? n) && (n <=? 90))%nat || ((97 <=? n) && (n <=? 122))%nat ||
  bool_decide (c ∈ ["_"; "-"; "."]%char).

(** [_safe_model_id_for_path] *)
Fixpoint safe_model_id_for_path (s : string) : string :=
  match s with
  | EmptyString => EmptyString
  | String c s' => (if path_char c then String c EmptyString else "__") +:+ safe_model_id_for_path s'
  end.

Definition target_path (staging model_id : string) : string :=
  staging +:+ "/" +:+ safe_model_id_for_path model_id +:+ "/tokenizer.json".

(** [_materialise_tokenizer]; [writes] is whether the file system takes the write *)
Definition materialise_tokenizer (staging : string) (writes : bool) (model_id : string) (t : Tokenizer) (fs : files) :
    files * option string :=
  match to_str t with
  | Some (Ret (VStr canonical)) =>
      let path := target_path staging model_id in
      if (match fs !! path with Some old => String.length old =? String.length canonical | None => false end)%nat
      then (fs, Some path)
      else if writes then (<[path := canonical]> fs, Some path) else (fs, None)
  | _ => (fs, None)
  end.

(** ** Descriptors *)

Record ModelDescriptor := mkDescriptor {
  tokenizer_path : option string;
  tokenizer_id : option string;
  max_seq_len : option Z;
  default_query_template : option string;
  default_doc_template : option string;
}.

Definition MAX_SEQ_LEN_PLAUSIBILITY_CAP : Z := 1000000.

Definition str_of (v : pyval) : option string := match v with VStr s => Some s | _ => None end.

(** The tokenizer fields: [(path, id, max_seq_len)] *)
Definition tokenizer_fields (staging : string) (writes : bool) (o : Objects) (model_id : string) (fs : files) :
    files * (option string * option string * option Z) :=
  match preprocessor o model_id with
  | Ret (Some p) =>
      match pre_tokenizer_id p with
      | None => (fs, (None, None, None))
      | Some raw_id =>
          let id := match raw_id with Ret v => str_of v | Raise _ => None end in
          match pre_tokenizer p with
          | None => (fs, (None, id, None))
          | Some t =>
              let '(fs, path) := materialise_tokenizer staging writes model_id t fs in
              let mx := match model_max_length t with
                        | VInt z => if (0 <? z) && (z <? MAX_SEQ_LEN_PLAUSIBILITY_CAP) then Some z else None
                        | _ => None
                        end in
              (fs, (path, id, mx))
          end
      end
  | _ => (fs, (None, None, None))
  end.

(** The executor: the registry, the descriptor cache, the staging directory *)
Record Executor := mkExecutor { reg : Reg; descriptor_cache : list (string * ModelDescriptor); staged : files }.

(** [get_model_descriptor] *)
Definition get_model_descriptor (staging : string) (writes : bool) (o : Objects) (model_id : string) (x : Executor) :
    Executor * option ModelDescriptor :=
  match dict_get model_id (descriptor_cache x) with
  | Some d => (x, Some d)
  | None =>
      match get_worker model_id (reg x) with
      | Ret true =>
          let '(fs, (path, id, mx)) := tokenizer_fields staging writes o model_id (staged x) in
          let d := mkDescriptor path id mx (str_of (query_template o model_id)) (str_of (doc_template o model_id)) in
          (mkExecutor (reg x) (dict_set model_id d (descriptor_cache x)) fs, Some d)
      | _ => (x, None)
      end
  end.

(** [invalidate_model_descriptor], of a set of models *)
Definition invalidate (ids : gset string) (cache : list (string * ModelDescriptor)) : list (string * ModelDescriptor) :=
  foldl (λ c id, dict_del id c) cache (elements ids).

(** [_handle_ensure_ready] *)
Record EnsureModelReadyResponse := mkReady { state : ReadinessState; batch_budget : option Z; descriptor : option ModelDescriptor }.

Definition handle_ensure_ready (staging : string) (writes : bool) (o : Objects) (model_id : string) (x : Executor) :
    Executor * res err EnsureModelReadyResponse :=
  match ensure_model_ready model_id (reg x) with
  | (Raise e, r) => (mkExecutor r (descriptor_cache x) (staged x), Raise e)
  | (Ret s, r) =>
      let x := mkExecutor r (descriptor_cache x) (staged x) in
      match s with
      | Ready =>
          let budget := get_batch_budget o model_id r in
          let '(x, d) := get_model_descriptor staging writes o model_id x in
          (x, Ret (mkReady s budget d))
      | _ => (x, Ret (mkReady s None None))
      end
  end.

(** ** Configuration messages *)

(** [yaml.safe_load] and [ModelConfig( **raw )]: [None] for what is no mapping *)
Context (parse : string → res exc (option ModelConfig)) (hash_of : Reg → string → string).

Definition blank (s : string) : bool := bool_decide (strip s = EmptyString).

Record ApplyModelConfigRequest := mkApply { a_bundle_id : string; a_model_id : string; a_model_config : string }.

Record ApplyModelConfigResponse := mkApplied { applied_hash : string; applied_version : Z }.

(** Decoding of one entry, with the check of its id *)
Definition decode_config (model_id text : string) : res exc ModelConfig :=
  if blank text then Raise (value_error "model_config is required")
  else match parse text with
       | Raise e => Raise e
       | Ret None => Raise (value_error "model_config must decode to a YAML mapping")
       | Ret (Some c) =>
           if negb (bool_decide (model_id = EmptyString)) && negb (bool_decide (sie_id c = model_id))
           then Raise (value_error "model_id mismatch")
           else Ret c
       end.

(** [apply_model_config] *)
Definition apply_model_config (req : ApplyModelConfigRequest) (x : Executor) : Executor * res err ApplyModelConfigResponse :=
  if bool_decide (a_bundle_id req = EmptyString) then (x, Raise (PyExc (value_error "bundle_id is required")))
  else
    match decode_config (a_model_id req) (a_model_config req) with
    | Raise e => (x, Raise (PyExc e))
    | Ret c =>
        match add_config_async P env c None (reg x) with
        | (Raise e, r) => (mkExecutor r (descriptor_cache x) (staged x), Raise e)
        | (Ret updated, r) =>
            (mkExecutor r (invalidate updated (descriptor_cache x)) (staged x),
             Ret (mkApplied (hash_of r (a_bundle_id req)) (config_version r)))
        end
    end.

Record ReplaceModelConfigsRequest := mkReplace { r_bundle_id : string; r_models : list (string * string) }.

(** [get_configs_snapshot(bundle_id)] *)
Definition get_configs_snapshot (r : Reg) : list (string * ModelConfig) :=
  match model_filter r with
  | Some f => filter (λ e, e.1 ∈ f) (configs r)
  | None => configs r
  end.

Record ReplaceModelConfigsResponse := mkReplaced {
  replaced_hash : string;
  replaced_version : Z;
  applied_models : list string;
  applied_profiles : list string;
}.

Definition profile_of (c : ModelConfig) : string :=
  match variant_source c with Some (_, p) => p | None => "default" end.

(** [replace_model_configs] *)
Definition replace_model_configs (req : ReplaceModelConfigsRequest) (x : Executor) : Executor * res err ReplaceModelConfigsResponse :=
  if bool_decide (r_bundle_id req = EmptyString) then (x, Raise (PyExc (value_error "bundle_id is required")))
  else
    match res_map (λ e, decode_config e.1 e.2) (r_models req) with
    | Raise e => (x, Raise (PyExc e))
    | Ret cs =>
        match replace_configs_async P env cs None (reg x) with
        | (Raise e, r) => (mkExecutor r (descriptor_cache x) (staged x), Raise e)
        | (Ret invalidated, r) =>
            (mkExecutor r (invalidate invalidated (descriptor_cache x)) (staged x),
             Ret (mkReplaced (hash_of r (r_bundle_id req)) (config_version r)
               (sorted_strings (dict_keys (get_configs_snapshot r)))
               (sorted_strings (elements (list_to_set (C := gset string) ((λ e, profile_of e.2) <$> get_configs_snapshot r))))))
        end
    end.

(** [set_pinned_models]: the number of pinned models *)
Definition exec_set_pinned_models (models : list string) (x : Executor) : Executor * res err Z :=
  match set_pinned_models P env models (reg x) with
  | (Raise e, r) => (mkExecutor r (descriptor_cache x) (staged x), Raise e)
  | (Ret pinned, r) => (mkExecutor r (descriptor_cache x) (staged x), Ret (Z.of_nat (size pinned)))
  end.

(** ** Descriptors follow the configuration *)

Lemma invalidate_get ids cache k :
  dict_wf cache →
  dict_wf (invalidate ids cache) ∧
  dict_get k (invalidate ids cache) = if decide (k ∈ ids) then None else dict_get k cache.
Proof.
  intros Hwf. unfold invalidate.
  assert (∀ l (c : list (string * ModelDescriptor)), dict_wf c → dict_wf (foldl (λ c id, dict_del id c) c l) ∧
    dict_get k (foldl (λ c id, dict_del id c) c l) = if decide (k ∈ l) then None else dict_get k c) as H.
  { induction l as [|i l IH]; intros c Hc; cbn; [by rewrite decide_False by set_solver|].
    destruct (IH (dict_del i c) (dict_del_wf i c Hc)) as [Hw ->]. split; [done|].
    rewrite dict_get_del by done. repeat case_decide; set_solver. }
  destruct (H (elements ids) cache Hwf) as [? ->]. split; [done|]. repeat case_decide; set_solver.
Qed.

Lemma bind_Ret {A B} (m : M A) (k : A → M B) r b r' :
  bind m k r = (Ret b, r') → ∃ a r1, m r = (Ret a, r1) ∧ k a r1 = (Ret b, r').
Proof. unfold bind. destruct (m r) as [[a|e] r1]; [eauto|done]. Qed.

(** A message the executor refuses leaves no trace: registry, cache and staging directory
    are as before. *)
Lemma refused_config_no_trace req x :
  (a_bundle_id req = EmptyString ∨ ∃ e, decode_config (a_model_id req) (a_model_config req) = Raise e) →
  ∃ e, apply_model_config req x = (x, Raise e).
Proof.
  intros H. unfold apply_model_config. case_bool_decide; [by eexists|].
  destruct H as [?|[e ->]]; [done|by eexists].
Qed.

(** An applied configuration takes the descriptors of all its variants out of the cache, so
    that the next handshake rebuilds them; those of other models stay. *)
Lemma applied_config_forgets req x x' resp :
  dict_wf (descriptor_cache x) →
  apply_model_config req x = (x', Ret resp) →
  ∃ c (removed : gset string), decode_config (a_model_id req) (a_model_config req) = Ret c ∧ dict_wf (descriptor_cache x') ∧
    ∀ id, dict_get id (descriptor_cache x') =
      if decide (id ∈ dict_keys (expand_one c) ∨ id ∈ removed) then None else dict_get id (descriptor_cache x).
Proof.
  intros Hwf. unfold apply_model_config. case_bool_decide; [done|].
  destruct (decode_config _ _) as [c|e] eqn:Ed; [|done].
  destruct (add_config_async _ _ c None (reg x)) as [[upd|e] r] eqn:Ea; [|done]. intros [= <- _]. cbn.
  unfold add_config_async in Ea.
  apply bind_Ret in Ea as (r0 & r1 & _ & Ea). destruct (prepare_config_update c r0) as [[expanded updated] removed] eqn:Ep.
  apply bind_Ret in Ea as (_ & r2 & _ & Ea). apply bind_Ret in Ea as (_ & r3 & _ & Ea).
  apply bind_Ret in Ea as (_ & r4 & _ & Ea). injection Ea as <- _. injection Ep as <- <- <-.
  eexists c, _. split; [done|]. split; [exact (proj1 (invalidate_get _ _ EmptyString Hwf))|]. intros id.
  rewrite (proj2 (invalidate_get _ _ id Hwf)).
  assert (∀ (A B : gset string) (Q : Prop) `{Decision Q} (v : option ModelDescriptor), (id ∈ A ↔ Q) →
    (if decide (id ∈ A ∪ B) then None else v) = if decide (Q ∨ id ∈ B) then None else v) as Haux.
  { intros A B Q ? v HQ. repeat case_decide; set_solver. }
  apply Haux. rewrite elem_of_list_to_set. done.
Qed.

(** Once cached, a descriptor is what every handshake of a loaded model returns, whatever
    has become of its tokenizer: neither an unload nor a reload from disk touches the
    cache. *)
Lemma cached_descriptor_sticks staging writes o id x d :
  dict_get id (descriptor_cache x) = Some d → dict_mem id (configs (reg x)) = true → is_loaded id (reg x) = true →
  handle_ensure_ready staging writes o id x =
    (mkExecutor (reg x) (descriptor_cache x) (staged x), Ret (mkReady Ready (get_batch_budget o id (reg x)) (Some d))).
Proof.
  intros Hd Hk Hl. unfold handle_ensure_ready, ensure_model_ready, bind, get. rewrite Hk, Hl. cbn.
  unfold get_model_descriptor. cbn. by rewrite Hd.
Qed.
End executor.

(** The staged path is a single component below the staging directory, unless the model id
    is a dot name. *)
Lemma safe_path_no_slash s : "/"%char ∉ String.list_ascii_of_string (safe_model_id_for_path s).
Proof.
  induction s as [|c s IH]; cbn; [set_solver|].
  assert (∀ a b, String.list_ascii_of_string (a +:+ b) =
    (String.list_ascii_of_string a ++ String.list_ascii_of_string b)%list) as Happ.
  { induction a as [|x a IHa]; intros b; [done|]. exact (f_equal (cons x) (IHa b)). }
  rewrite Happ, elem_of_app. intros [H|H]; [|done]. destruct (path_char c) eqn:Ec; cbn in H.
  - apply list_elem_of_singleton in H as <-. by vm_compute in Ec.
  - set_solver.
Qed.

Lemma safe_path_dotdot : target_path "/tmp/s" ".." = "/tmp/s/../tokenizer.json"%string.
Proof. reflexivity. Qed.

(** The staged file is the tokenizer, or a file of the same length that was there. *)
Lemma materialise_content staging writes id t fs fs' path :
  materialise_tokenizer staging writes id t fs = (fs', Some path) →
  ∃ canonical content, to_str t = Some (Ret (VStr canonical)) ∧ fs' !! path = Some content ∧
    (content = canonical ∨ fs !! path = Some content ∧ String.length content = String.length canonical).
Proof.
  unfold materialise_tokenizer. destruct (to_str t) as [[[]|]|]; try done.
  destruct (fs !! target_path staging id) as [old|] eqn:E.
  - destruct (Nat.eqb_spec (String.length old) (String.length s)) as [Hl|].
    + intros [= <- <-]. eauto 10.
    + destruct writes; [|done]. intros [= <- <-]. eexists _, _. split; [reflexivity|]. split; [apply lookup_insert_eq|by left].
  - destruct writes; [|done]. intros [= <- <-]. eexists _, _. split; [reflexivity|]. split; [apply lookup_insert_eq|by left].
Qed.
End QueueReady.
