(* ===== verification/QueueScore.v ===== *)
(** Score and extract batches of the queue executor: [process_score_batch] and
    [process_extract_batch] of [queue_executor.py] with the outcomes they publish, the
    batching costs of [core/score_cost.py] and [core/extract_cost.py], and
    [ExtractHandler.format_output].

    The worker, the registry lookups, the image preprocessor and the metering hooks of the
    adapter are the classes [ScoreServices] and [ExtractServices], over a world [W] that
    changes at every await.  What the executor relies on, one result per request and
    one score per candidate, is [ScoreLaws] and the hypotheses of [extract_batch_exact]; the
    worker's side of it is proved in [WorkerDispatch.v] and [Handlers.v]. *)

From stdpp Require Import strings pretty.
From S2P Require Import Prelude PyFloat PyDict PyStr Oom Handlers PyVal ModelConfig RuntimeOptions Metering.
From S2P Require Import Inputs EncodePipeline Framing QueueExec.
Import Handlers PyVal ModelConfig RuntimeOptions Inputs Framing QueueExec.
Local Open Scope Z_scope.

Module QueueScore.

(** ** Batching costs *)

Definition SCORE_MEDIA_COST : Z := 1024.
Definition MAX_SCORE_ITEMS : Z := 1000.

Definition len (s : string) : Z := Z.of_nat (String.length s).
Definition b2z (b : bool) : Z := if b then 1 else 0.

(** [score_item_cost], [score_pair_cost] *)
Definition score_item_cost (it : Item) : Z :=
  let text_cost := match item_text it with Some t => len t | None => 0 end in
  let media_count := Z.of_nat (default 0%nat (item_images it)) + b2z (item_audio it) + b2z (item_video it) +
                     b2z (bool_decide (is_Some (item_document it))) in
  text_cost + media_count * SCORE_MEDIA_COST.

Definition score_pair_cost (query doc : Item) : Z := score_item_cost query + score_item_cost doc.

(** A [ScorePreparedItem] or [ExtractPreparedItem] *)
Record CostItem := mkCost { ci_cost : Z; ci_index : Z }.

Definition value_error (msg : string) : exc := Infer (Oom.OtherError msg).

Fixpoint number {A} (cost : A → Z) (i : Z) (l : list A) : list CostItem :=
  match l with [] => [] | a :: l' => mkCost (cost a) i :: number cost (i + 1) l' end.

(** [build_score_prepared_items] *)
Definition build_score_prepared_items (query : Item) (items : list Item) : res exc (list CostItem) :=
  match items with
  | [] => Raise (value_error "Score requests require at least one candidate item")
  | _ =>
      if MAX_SCORE_ITEMS <? Z.of_nat (length items)
      then Raise (value_error "Score requests accept at most 1000 candidate items")
      else Ret (number (score_pair_cost query) 0 items)
  end.

(** [extract_item_cost], [build_extract_prepared_items] *)
Definition extract_item_cost (it : Item) (decoder_max_output_tokens : Z) : Z :=
  let text_cost := match item_text it with Some t => len t | None => 0 end in
  let input_cost :=
    match item_document it with
    | Some m =>
        if is_media_dict m
        then match m with
             | MediaDict d => match dict_get "data"%string d with Some (MBytes b) => Z.of_nat (length b) | _ => text_cost end
             | _ => text_cost
             end
        else text_cost
    | None => text_cost
    end in
  input_cost + Z.max decoder_max_output_tokens 0.

Definition build_extract_prepared_items (items : list Item) (decoder_max_output_tokens : Z) : list CostItem :=
  number (λ it, extract_item_cost it decoder_max_output_tokens) 0 items.

(** ** Dictionaries of outcomes *)

Section settle.
Context {R : Type}.
Implicit Types (o : ItemOutcome R) (d : list (string * ItemOutcome R)).

(** [outcomes[bi.work_item_id] = o] *)
Definition set_outcome o d : list (string * ItemOutcome R) := dict_set (work_item_id (o_key o)) o d.

Definition settle (L : list (ItemOutcome R)) d : list (string * ItemOutcome R) := foldl (λ d o, set_outcome o d) d L.

Lemma settle_app L L' d : settle (L ++ L') d = settle L' (settle L d).
Proof. apply foldl_app. Qed.

Lemma settle_get L d o :
  NoDup (work_item_id <$> (o_key <$> L)) → o ∈ L → dict_get (work_item_id (o_key o)) (settle L d) = Some o.
Proof.
  intros Hnd. revert d. induction L as [|o' L IH] using rev_ind; intros d Ho; [by apply elem_of_nil in Ho|].
  rewrite !fmap_app, NoDup_app in Hnd. cbn in Hnd. destruct Hnd as (Hnd & Hdis & _).
  rewrite settle_app. cbn. unfold set_outcome. rewrite dict_get_set. apply elem_of_app in Ho as [Ho|Ho].
  - rewrite decide_False; [by apply IH|]. intros Heq. apply (Hdis (work_item_id (o_key o))).
    + by apply list_elem_of_fmap_2, list_elem_of_fmap_2.
    + rewrite Heq. set_solver.
  - apply list_elem_of_singleton in Ho as ->. by rewrite decide_True.
Qed.

(** A dictionary filled with one outcome per item answers every item with its own. *)
Lemma collect_settled L (ks : list ItemKey) :
  NoDup (work_item_id <$> (o_key <$> L)) → (∀ k, k ∈ ks → k ∈ o_key <$> L) →
  ∃ os, collect_outcomes (settle L []) ks = Ret os ∧ o_key <$> os = ks ∧
    ∀ i o, o ∈ L → ks !! i = Some (o_key o) → os !! i = Some o.
Proof.
  intros Hnd. induction ks as [|k ks IH]; intros Hks; cbn; [exists []; split_and!; done|].
  pose proof (Hks k (list_elem_of_here _ _)) as (o & -> & Ho)%list_elem_of_fmap.
  rewrite (settle_get L [] o) by done. destruct IH as (os & -> & Hos & Hall); [by intros; apply Hks; right|].
  exists (o :: os). split; [done|]. cbn. split; [by rewrite Hos|]. intros [|i] o' Ho'; cbn; [|by apply Hall].
  intros [= Heq]. f_equal. apply (NoDup_fmap_eq (λ o, work_item_id (o_key o)) L); try done; [|by rewrite Heq].
  exact (eq_ind _ NoDup Hnd _ (eq_sym (list_fmap_compose o_key work_item_id L))).
Qed.
End settle.

(** ** Score *)

Record ScoreBatchItem (V : Type) := mkScoreItem {
  s_key : ItemKey;
  s_query : list (string * V);
  s_items : list (list (string * V));
  s_instruction : option string;
  s_options : option dict;
}.
Arguments mkScoreItem {V}.
Arguments s_key {V}.
Arguments s_query {V}.
Arguments s_items {V}.
Arguments s_instruction {V}.
Arguments s_options {V}.

(** [PreformedScoreRequest] *)
Record ScoreRequest := mkScoreRequest {
  sr_prepared : list CostItem;
  sr_query : Item;
  sr_items : list Item;
  sr_instruction : option string;
  sr_options : dict;
  sr_request_id : string;
}.

(** The metering hooks of an adapter *)
Record Hooks := mkHooks {
  count_pair_input_tokens : Item → list Item → option string → res exc Metering.evidence;
  count_pair_input_images : Item → list Item → option string → res exc Metering.evidence;
  count_input_images : list Item → res exc Metering.evidence;
}.

Class ScoreServices (Sc W : Type) := {
  sc_start : W → W * res exc (option ModelConfig);        (* worker and config; [None]: [KeyError] or [RuntimeError] *)
  sc_adapter : W → option Hooks;                          (* [registry.get]; [None]: evicted *)
  sc_submit : W → list ScoreRequest → W * res exc (list (res exc (ScoreOutput (Sc := Sc))));
}.

Section score.
Context {Sc V W D : Type} `{!ScoreServices Sc W} (env : Env D V).
Abbreviation sitem := (ScoreBatchItem V).
Abbreviation outcome := (ItemOutcome (result (list Sc))).
Abbreviation Out := (ScoreOutput (Sc := Sc)).

Definition as_evidence (l : option (list Z)) : Metering.evidence := match l with Some l => Some (Some <$> l) | None => None end.

(** [_backfill_score_units]: the counts the output carries afterwards *)
Definition backfill_score_units (adapter : option Hooks) (q : ScoreRequest) (o : Out) : Out :=
  match adapter, sc_token_counts o with
  | Some h, None =>
      match count_pair_input_tokens h (sr_query q) (sr_items q) (sr_instruction q) with
      | Ret (Some counts) =>
          match mapM id counts with
          | Some l => if Z.of_nat (length l) =? sc_batch_size o
                      then mkScore (scores o) (sc_batch_size o) (Some l) (sc_image_counts o) else o
          | None => o
          end
      | _ => o
      end
  | _, _ => o
  end.

Definition candidate_id (items : list Item) (i : nat) : res exc string :=
  match items !! i with
  | None => Raise (Infer index_error)
  | Some it => Ret (match item_id it with Some s => s | None => "item-" +:+ pretty (Z.of_nat i) end)
  end.

Definition score_at (l : list Sc) (i : nat) : res exc Sc :=
  match l !! i with Some s => Ret s | None => Raise (Infer index_error) end.

(** [_score_success_outcome] *)
Definition score_success_outcome (adapter : option Hooks) (bi : ItemKey) (q : ScoreRequest) (o : Out) : res exc outcome :=
  let n := Z.to_nat (sc_batch_size o) in
  match res_map (score_at (scores o)) (seq 0 n) with
  | Raise e => Raise e
  | Ret raw_scores =>
      match res_map (candidate_id (sr_items q)) (seq 0 n) with
      | Raise e => Raise e
      | Ret item_ids =>
          let units := Metering.score_units (as_evidence (sc_token_counts o)) (as_evidence (sc_image_counts o))
            ((λ h, count_pair_input_images h (sr_query q) (sr_items q) (sr_instruction q)) <$> adapter) (sc_batch_size o) in
          Ret (mkOutcome bi (PublishAndAck (Raw (RawScore raw_scores item_ids)) units))
      end
  end.

(** The preparation of one item *)
Definition prepare_score (c : ModelConfig) (bi : sitem) : res exc ScoreRequest :=
  match merge_runtime_options c (s_options bi) with
  | Raise e => Raise (opt_exc e)
  | Ret options =>
      match decode_item (convert env) (s_query bi) with
      | Raise e => Raise e
      | Ret query =>
          match res_map (decode_item (convert env)) (s_items bi) with
          | Raise e => Raise e
          | Ret items =>
              match build_score_prepared_items query items with
              | Raise e => Raise e
              | Ret prepared => Ret (mkScoreRequest prepared query items (s_instruction bi) options (request_id (s_key bi)))
              end
          end
      end
  end.

(** The preparation loop: outcomes of the failures, and the requests with their items *)
Fixpoint prepare_loop (c : ModelConfig) (items : list sitem) (d : list (string * outcome)) :
    list (string * outcome) * list (sitem * ScoreRequest) :=
  match items with
  | [] => (d, [])
  | bi :: l =>
      match prepare_score c bi with
      | Ret q => let '(d, ctx) := prepare_loop c l d in (d, (bi, q) :: ctx)
      | Raise e => prepare_loop c l (set_outcome (inference_exception_outcome env (s_key bi) e) d)
      end
  end.

(** What a request is answered *)
Definition score_answer (adapter : option Hooks) (bi : sitem) (q : ScoreRequest) (r : res exc Out) : res exc outcome :=
  match r with
  | Raise e => Ret (inference_exception_outcome env (s_key bi) e)
  | Ret o => score_success_outcome adapter (s_key bi) q (backfill_score_units adapter q o)
  end.

(** [for ... in zip(request_context, results, strict=True)] *)
Fixpoint publish_results (adapter : option Hooks) (ctx : list (sitem * ScoreRequest)) (rs : list (res exc Out))
    (d : list (string * outcome)) : res exc (list (string * outcome)) :=
  match ctx, rs with
  | [], [] => Ret d
  | (bi, q) :: ctx', r :: rs' =>
      match score_answer adapter bi q r with
      | Raise e => Raise e
      | Ret o => publish_results adapter ctx' rs' (set_outcome o d)
      end
  | _, _ => Raise (value_error "zip() arguments have different lengths")
  end.

(** [process_score_batch] *)
Definition process_score_batch (w : W) (items : list sitem) : W * res exc (list outcome) :=
  match items with
  | [] => (w, Ret [])
  | _ =>
      match sc_start w with
      | (w, Raise e) => (w, Raise e)
      | (w, Ret None) => (w, Ret ((λ bi, nak_outcome env (s_key bi)) <$> items))
      | (w, Ret (Some c)) =>
          let '(d, ctx) := prepare_loop c items [] in
          let adapter := sc_adapter w in
          let '(w, published) :=
            match ctx with
            | [] => (w, Ret d)
            | _ =>
                match sc_submit w (snd <$> ctx) with
                | (w, Raise e) =>
                    (w, if is_exception e
                        then Ret (foldl (λ d x, set_outcome (inference_exception_outcome env (s_key x.1) e) d) d ctx)
                        else Raise e)
                | (w, Ret rs) => (w, publish_results adapter ctx rs d)
                end
            end in
          (w, match published with Raise e => Raise e | Ret d => collect_outcomes d (s_key <$> items) end)
      end
  end.

(** *** Every item is answered *)

Definition prepared (c : ModelConfig) (items : list sitem) : list (sitem * ScoreRequest) :=
  omap (λ bi, match prepare_score c bi with Ret q => Some (bi, q) | Raise _ => None end) items.

Definition failures (c : ModelConfig) (items : list sitem) : list outcome :=
  omap (λ bi, match prepare_score c bi with
              | Raise e => Some (inference_exception_outcome env (s_key bi) e) | Ret _ => None end) items.

Lemma prepare_loop_spec c items d : prepare_loop c items d = (settle (failures c items) d, prepared c items).
Proof.
  revert d. induction items as [|bi l IH]; intros d; cbn; [done|].
  destruct (prepare_score c bi) as [q|e]; cbn; rewrite IH; done.
Qed.

Lemma exception_key {R} bi e : o_key (inference_exception_outcome (R := R) env bi e) = bi.
Proof. unfold inference_exception_outcome. destruct (is_oom e); [done|]. by destruct e as [[]| | | |]. Qed.

Lemma answer_key adapter bi q r o : score_answer adapter bi q r = Ret o → o_key o = s_key bi.
Proof.
  destruct r as [x|e]; cbn; [|intros [= <-]; apply exception_key].
  unfold score_success_outcome. destruct (res_map _ _); [|done]. destruct (res_map _ _); [|done]. by intros [= <-].
Qed.

(** The answers of a submitted batch *)
Definition answered adapter (ctx : list (sitem * ScoreRequest)) (rs : list (res exc Out)) (os : list outcome) : Prop :=
  length rs = length ctx ∧ length os = length ctx ∧
  ∀ j bi q r o, ctx !! j = Some (bi, q) → rs !! j = Some r → os !! j = Some o → score_answer adapter bi q r = Ret o.

Lemma publish_results_spec adapter ctx rs d :
  length rs = length ctx →
  (∀ j bi q r, ctx !! j = Some (bi, q) → rs !! j = Some r → ∃ o, score_answer adapter bi q r = Ret o) →
  ∃ os, publish_results adapter ctx rs d = Ret (settle os d) ∧ answered adapter ctx rs os.
Proof.
  revert rs d. induction ctx as [|[bi q] ctx IH]; intros [|r rs] d Hl Ha; try done.
  - exists []. done.
  - destruct (Ha 0%nat bi q r eq_refl eq_refl) as [o Ho]. cbn. rewrite Ho.
    destruct (IH rs (set_outcome o d)) as (os & -> & Hrs & Hos & Hall); [by injection Hl|by intros j; apply (Ha (S j))|].
    exists (o :: os). split; [done|]. split; [done|]. split; [cbn; by f_equal|].
    intros [|j] bi' q' r' o'; cbn; [intros; simplify_eq; done|apply Hall].
Qed.

Lemma outcome_keys c items adapter rs os :
  answered adapter (prepared c items) rs os → o_key <$> (failures c items ++ os) ≡ₚ s_key <$> items.
Proof.
  intros (Hrs & Hos & Hall). rewrite fmap_app.
  assert (o_key <$> os = (λ x, s_key x.1) <$> prepared c items) as ->.
  { apply list_eq_same_length with (length os); [by rewrite !length_fmap|by rewrite length_fmap|].
    intros j x y _. rewrite !list_lookup_fmap. intros (o & Ho & ->)%fmap_Some (p & Hp & ->)%fmap_Some.
    assert (is_Some (rs !! j)) as [r Hr] by (apply lookup_lt_is_Some; rewrite Hrs, <- Hos; by apply lookup_lt_Some in Ho).
    destruct p as [bi q]. by eapply answer_key, Hall. }
  clear. induction items as [|bi l IH]; cbn; [done|]. destruct (prepare_score c bi) as [q|e]; cbn.
  - by rewrite <- Permutation_middle, IH.
  - by rewrite exception_key, IH.
Qed.

(** *** What is published *)

Definition candidate_ids (q : ScoreRequest) : list string :=
  imap (λ i it, match item_id it with Some s => s | None => "item-" +:+ pretty (Z.of_nat i) end) (sr_items q).

(** An output that has one score per candidate *)
Definition fits (q : ScoreRequest) (o : Out) : Prop :=
  sc_batch_size o = Z.of_nat (length (sr_items q)) ∧ length (scores o) = length (sr_items q).

Lemma res_map_lookup {A} (f : nat → res exc A) (l : list A) :
  (∀ i, (i < length l)%nat → f i = match l !! i with Some a => Ret a | None => Raise (Infer index_error) end) →
  res_map f (seq 0 (length l)) = Ret l.
Proof.
  intros H. change l with (drop 0 l) at 2. replace (length l) with (length l - 0)%nat by lia.
  assert (∀ n k, (k + n = length l)%nat → res_map f (seq k n) = Ret (drop k l)) as Hg; [|apply Hg; lia].
  induction n as [|n IH]; intros k Hk; cbn.
  - by rewrite drop_ge by lia.
  - destruct (lookup_lt_is_Some_2 l k) as [a Ha]; [lia|]. rewrite H, Ha by lia. rewrite IH by lia.
    by rewrite (drop_S l a k Ha).
Qed.

Lemma backfill_shape adapter q o :
  scores (backfill_score_units adapter q o) = scores o ∧ sc_batch_size (backfill_score_units adapter q o) = sc_batch_size o.
Proof.
  unfold backfill_score_units. destruct adapter as [h|], (sc_token_counts o); try done.
  destruct (count_pair_input_tokens _ _ _ _) as [[l|]|]; try done. destruct (mapM id l); [|done]. by case_match.
Qed.

(** Scores and ids of the candidates, in their order, and one pair per candidate *)
Lemma score_success_exact adapter k q o :
  fits q o →
  ∃ u, score_success_outcome adapter k q (backfill_score_units adapter q o) =
         Ret (mkOutcome k (PublishAndAck (Raw (RawScore (scores o) (candidate_ids q))) (Some u))) ∧
       Metering.pairs u = Some (Z.of_nat (length (sr_items q))).
Proof.
  intros [Hb Hs]. destruct (backfill_shape adapter q o) as [Hsc Hbs].
  unfold score_success_outcome. rewrite Hsc, Hbs, Hb, Nat2Z.id.
  replace (res_map (score_at (scores o)) (seq 0 (length (sr_items q)))) with (Ret (E := exc) (scores o)).
  2:{ rewrite <- Hs. symmetry. apply res_map_lookup. done. }
  replace (res_map (candidate_id (sr_items q)) (seq 0 (length (sr_items q)))) with (Ret (E := exc) (candidate_ids q)).
  2:{ assert (length (candidate_ids q) = length (sr_items q)) as <- by apply length_imap. symmetry. apply res_map_lookup.
      intros i Hi. unfold candidate_id, candidate_ids. rewrite list_lookup_imap. by destruct (sr_items q !! i). }
  unfold Metering.score_units.
  set (units := match Metering.with_images _ _ with None => _ | Some u => _ end).
  assert (Metering.pairs units = Some (Z.of_nat (length (sr_items q)))) as Hu by (subst units; by case_match).
  clearbody units. match goal with |- context [Metering.with_images (Some units) ?n] => generalize n end.
  intros n. destruct (Metering.with_images (Some units) n) as [u|] eqn:E.
  - exists u. split; [done|]. apply Metering.with_images_other in E. cbn in E. destruct E as (_ & _ & _ & -> & _). done.
  - exfalso. revert E. clear. unfold Metering.with_images. by repeat case_match.
Qed.
End score.

(** What the executor relies on: one result per request, each with one score per candidate *)
Class ScoreLaws (Sc W : Type) `{!ScoreServices Sc W} := {
  sc_fits w reqs w' rs :
    sc_submit w reqs = (w', Ret rs) →
    Forall2 (λ q (r : res exc (ScoreOutput (Sc := Sc))), ∀ o, r = Ret o → fits q o) reqs rs;
}.

(** What a call of the worker comes to: the results, or its exception for every request *)
Definition results_of {Sc} (reqs : list ScoreRequest) (r : res exc (list (res exc (ScoreOutput (Sc := Sc))))) :
    list (res exc (ScoreOutput (Sc := Sc))) :=
  match r with Ret rs => rs | Raise e => replicate (length reqs) (Raise e) end.

Lemma batch_answers {Sc V W D : Type} `{!ScoreServices Sc W, !ScoreLaws Sc W} (env : Env D V) adapter
    (ctx : list (ScoreBatchItem V * ScoreRequest)) w d w' r :
  sc_submit w (snd <$> ctx) = (w', r) →
  ∃ os, match r with
        | Raise e => Ret (foldl (λ d x, set_outcome (inference_exception_outcome env (s_key x.1) e) d) d ctx)
        | Ret rs => publish_results env adapter ctx rs d
        end = Ret (settle os d) ∧ answered env adapter ctx (results_of (snd <$> ctx) r) os.
Proof.
  intros Hs. destruct r as [rs|e]; cbn.
  - apply sc_fits in Hs. pose proof (Forall2_length _ _ _ Hs) as Hl. rewrite length_fmap in Hl.
    apply publish_results_spec; [done|]. intros j bi q r Hc Hr. destruct r as [o|e]; cbn; [|by eexists].
    destruct (score_success_exact adapter (s_key bi) q o) as (u & -> & _); [|by eexists].
    eapply (Forall2_lookup_lr _ _ _ j q _ Hs); [by rewrite list_lookup_fmap, Hc|done|done].
  - exists ((λ x, inference_exception_outcome env (s_key x.1) e) <$> ctx). split.
    + unfold settle. rewrite foldl_fmap. done.
    + split; [by rewrite length_replicate, length_fmap|]. split; [apply length_fmap|].
      intros j bi q r o Hc Hr. rewrite list_lookup_fmap, Hc. cbn. intros [= <-].
      apply lookup_replicate in Hr as [-> _]. done.
Qed.

Lemma prepared_lookup {V D : Type} (env : Env D V) c items i bi q :
  items !! i = Some bi → prepare_score env c bi = Ret q →
  prepared env c items !! length (prepared env c (take i items)) = Some (bi, q).
Proof.
  revert i. induction items as [|b l IH]; intros [|i] Hi Hq; try done; cbn in *.
  - injection Hi as ->. by rewrite Hq.
  - destruct (prepare_score env c b); cbn; by apply IH.
Qed.

(** What item [i] is answered, given the results of the submitted batch *)
Definition item_answer {Sc V D : Type} (env : Env D V) (c : ModelConfig) (items : list (ScoreBatchItem V))
    (rs : list (res exc (ScoreOutput (Sc := Sc)))) (i : nat) (bi : ScoreBatchItem V) (o : ItemOutcome (result (list Sc))) : Prop :=
  match prepare_score env c bi with
  | Raise e => o = inference_exception_outcome env (s_key bi) e
  | Ret q =>
      let j := length (prepared env c (take i items)) in
      (prepared env c items).*2 !! j = Some q ∧
      match rs !! j with
      | Some (Ret x) => ∃ u, o_disposition o = PublishAndAck (Raw (RawScore (scores x) (candidate_ids q))) (Some u) ∧
          length (scores x) = length (sr_items q) ∧ Metering.pairs u = Some (Z.of_nat (length (sr_items q)))
      | Some (Raise e) => o = inference_exception_outcome env (s_key bi) e
      | None => False
      end
  end.

Section settled.
Context {Sc V W D : Type} `{!ScoreServices Sc W, !ScoreLaws Sc W} (env : Env D V) (adapter : option Hooks) (c : ModelConfig).
Context (items : list (ScoreBatchItem V)) (w w' : W) (r : res exc (list (res exc (ScoreOutput (Sc := Sc))))).
Context (Hnd : NoDup (work_item_id <$> (s_key <$> items))) (Hs : sc_submit w (prepared env c items).*2 = (w', r)).
Abbreviation rs := (results_of (prepared env c items).*2 r).

Lemma answer_fits i bi q x o :
  items !! i = Some bi → prepare_score env c bi = Ret q → rs !! length (prepared env c (take i items)) = Some x →
  score_answer env adapter bi q x = Ret o → item_answer env c items rs i bi o.
Proof using Hs ScoreLaws0.
  intros Hi Hq Hx Ho. unfold item_answer. rewrite Hq. pose proof (prepared_lookup env c items i bi q Hi Hq) as Hc.
  split; [by rewrite list_lookup_fmap, Hc|]. rewrite Hx. destruct x as [x|e]; cbn in Ho; [|by injection Ho].
  assert (fits q x) as Hf.
  { destruct r as [l|e]; cbn in Hx; [|by apply lookup_replicate in Hx as [? _]].
    eapply (Forall2_lookup_lr _ _ _ _ q _ (sc_fits _ _ _ _ Hs)); [by rewrite list_lookup_fmap, Hc|exact Hx|done]. }
  destruct (score_success_exact adapter (s_key bi) q x Hf) as (u & Hu & Hp). rewrite Hu in Ho. injection Ho as <-.
  exists u. split; [done|]. split; [by destruct Hf|done].
Qed.

Lemma score_settled ans :
  answered env adapter (prepared env c items) rs ans →
  ∃ os, collect_outcomes (settle ans (settle (failures env c items) [])) (s_key <$> items) = Ret os ∧
    o_key <$> os = s_key <$> items ∧
    ∀ i bi, items !! i = Some bi → ∃ o, os !! i = Some o ∧ item_answer env c items rs i bi o.
Proof using Hs Hnd ScoreLaws0.
  intros Hall. pose proof (outcome_keys env c items adapter _ ans Hall) as Hperm.
  destruct (collect_settled (failures env c items ++ ans) (s_key <$> items)) as (os & Hcol & Hkeys & Hos).
  { by rewrite Hperm. }
  { intros k Hk. by rewrite Hperm. }
  rewrite settle_app in Hcol. exists os. split; [done|]. split; [done|]. intros i bi Hi.
  destruct (prepare_score env c bi) as [q|e] eqn:Ep.
  - pose proof (prepared_lookup env c items i bi q Hi Ep) as Hc. destruct Hall as (Hrs & Hlen & Hall).
    pose proof (lookup_lt_Some _ _ _ Hc) as Hlt.
    destruct (lookup_lt_is_Some_2 rs (length (prepared env c (take i items)))) as [x Hx]; [lia|].
    destruct (lookup_lt_is_Some_2 ans (length (prepared env c (take i items)))) as [o Ho]; [lia|].
    pose proof (Hall _ _ _ _ _ Hc Hx Ho) as Ha. exists o. split; [|by eapply answer_fits].
    apply Hos; [apply elem_of_app; right; by eapply list_elem_of_lookup_2|].
    by rewrite list_lookup_fmap, Hi, (answer_key env adapter bi q x o Ha).
  - eexists. split; [|unfold item_answer; rewrite Ep; reflexivity]. apply Hos; [|by rewrite list_lookup_fmap, Hi, exception_key].
    apply elem_of_app. left. apply list_elem_of_omap. exists bi. split; [by eapply list_elem_of_lookup_2|]. by rewrite Ep.
Qed.
End settled.

Lemma score_batch_settled {Sc V W D : Type} `{!ScoreServices Sc W, !ScoreLaws Sc W} (env : Env D V) (w : W) (items : list (ScoreBatchItem V)) :
  NoDup (work_item_id <$> (s_key <$> items)) →
  match (process_score_batch env w items).2 with
  | Raise e => is_exception e = false ∨ (sc_start w).2 = Raise e
  | Ret os =>
      o_key <$> os = s_key <$> items ∧
      match (sc_start w).2 with
      | Ret None => Forall (λ o, o_disposition o = NakRetry (nak_delay_ms env)) os
      | Raise _ => items = []
      | Ret (Some c) =>
          let reqs := (prepared env c items).*2 in
          ∀ i bi, items !! i = Some bi → ∃ o, os !! i = Some o ∧
            item_answer env c items (results_of reqs (sc_submit (sc_start w).1 reqs).2) i bi o
      end
  end.
Proof.
  intros Hnd. unfold process_score_batch. destruct items as [|bi0 items0] eqn:Eitems.
  { cbn. split; [done|]. destruct (sc_start w) as [? [[]|]]; cbn; [|constructor|done]. intros i bi. by rewrite lookup_nil. }
  rewrite <- Eitems in *. clear Eitems bi0 items0.
  destruct (sc_start w) as [w1 [[c|]|e]]; cbn [fst snd]; [|split; [|apply Forall_fmap, Forall_true; done]|by right].
  2:{ rewrite <- list_fmap_compose. by apply list_fmap_ext. }
  rewrite prepare_loop_spec. destruct (sc_submit w1 (prepared env c items).*2) as [w2 r] eqn:Es.
  destruct (batch_answers env (sc_adapter w1) (prepared env c items) w1 (settle (failures env c items) []) w2 r Es) as (ans & Hans & Hall).
  destruct (score_settled env (sc_adapter w1) c items w1 w2 r Hnd Es ans Hall) as (os & Hcol & Hkeys & Hitem).
  destruct Hall as (_ & Hlen & _). destruct (prepared env c items) as [|p ctx] eqn:Ectx.
  - destruct ans; [|done]. cbn in *. rewrite Hcol. split; [done|]. exact Hitem.
  - destruct r as [l|e]; [rewrite Hans, Hcol; by split|].
    destruct (is_exception e) eqn:Ee; [|by left]. injection Hans as Hans. cbn in *. rewrite Hans, Hcol. by split.
Qed.

(** C26 — a score batch is answered item by item.  For work items with distinct ids and a
    worker that gives one result per request and one score per candidate,
    [process_score_batch] returns one outcome per item, in the order of the items and under
    each item's own key; only a cancellation, or a failure to start the worker that is
    neither a [KeyError] nor a [RuntimeError], escapes.  An item that cannot be prepared is
    answered with its own error and stays out of the worker's batch; all the others are
    submitted in one call, in order, and each is answered from the result of its own
    request.  A success publishes the scores and ids of its own candidates in their order,
    and is metered with one pair per candidate.  A model that is not available is
    redelivered. *)
Theorem score_batch_exact {Sc V W D : Type} `{!ScoreServices Sc W, !ScoreLaws Sc W} (env : Env D V) (w : W) (items : list (ScoreBatchItem V)) :
  NoDup (work_item_id <$> (s_key <$> items)) →
  match (process_score_batch env w items).2 with
  | Raise e => is_exception e = false ∨ (sc_start w).2 = Raise e
  | Ret os =>
      o_key <$> os = s_key <$> items ∧
      match (sc_start w).2 with
      | Ret None => Forall (λ o, o_disposition o = NakRetry (nak_delay_ms env)) os
      | Raise _ => items = []
      | Ret (Some c) =>
          let reqs := (prepared env c items).*2 in
          ∀ i bi, items !! i = Some bi → ∃ o, os !! i = Some o ∧
            item_answer env c items (results_of reqs (sc_submit (sc_start w).1 reqs).2) i bi o
      end
  end.
Proof. apply score_batch_settled. Qed.


(** ** Extract *)

Record ExtractBatchItem (V : Type) := mkExtractItem {
  x_key : ItemKey;
  x_item : list (string * V);
  x_labels : option (list string);
  x_output_schema : option dict;
  x_instruction : option string;
  x_options : option dict;
  x_prepared_audio : option Metering.PreparedAudio;
}.
Arguments mkExtractItem {V}.
Arguments x_key {V}.
Arguments x_item {V}.
Arguments x_labels {V}.
Arguments x_output_schema {V}.
Arguments x_instruction {V}.
Arguments x_options {V}.
Arguments x_prepared_audio {V}.

(** A prepared item: audio with its duration as cost, what the image preprocessor made, or
    a cost alone *)
Inductive XPrep (P : Type) := XAudio (a : Metering.PreparedAudio) (cost : Z) | XImage (p : P) | XCost (c : CostItem).
Arguments XAudio {P}.
Arguments XImage {P}.
Arguments XCost {P}.

(** [PreformedExtractRequest] *)
Record ExtractRequest (P : Type) := mkExtractRequest {
  er_prepared : list (XPrep P);
  er_item : Item;
  er_labels : option (list string);
  er_output_schema : option dict;
  er_instruction : option string;
  er_options : dict;
  er_request_id : string;
}.
Arguments mkExtractRequest {P}.
Arguments er_prepared {P}.
Arguments er_item {P}.
Arguments er_options {P}.

(** One formatted result of [ExtractHandler.format_output] *)
Record Extraction (En Cl Rel Obj Er : Type) := mkExtraction {
  ex_entities : list En;
  ex_classifications : list Cl;
  ex_relations : list Rel;
  ex_objects : list Obj;
  ex_data : dict;
  ex_error : option Er;
}.
Arguments mkExtraction {En Cl Rel Obj Er}.

Class ExtractServices (P O W : Type) := {
  ex_start : W → W * res exc (option ModelConfig);
  ex_adapter : W → option Hooks;
  ex_has_image : W → res exc bool;
  ex_prepare : W → Item → ModelConfig → option string → pyval → W * res exc (list P);
  ex_submit : W → option string → list (ExtractRequest P) → W * res exc (list (res exc O));
}.

(** [_extract_lora] *)
Definition extract_lora (options : option dict) : option string :=
  match options with
  | Some ((_ :: _) as d) => match dict_get "lora"%string d with Some (VStr (String a s)) => Some (String a s) | _ => None end
  | _ => None
  end.

Section extract.
Context {En Cl Rel Obj Er P V W D : Type}.
Abbreviation Out := (ExtractOutput (En := En) (Cl := Cl) (Rel := Rel) (Obj := Obj) (Er := Er)).
Context `{!ExtractServices P Out W} (env : Env D V).
Context (pack : string → Extraction En Cl Rel Obj Er → res exc string).   (* [pack_msgpack] of a result with its id *)
Abbreviation xitem := (ExtractBatchItem V).
Abbreviation outcome := (ItemOutcome (result D)).
Abbreviation ctx_t := (list (xitem * ExtractRequest P)).

Definition nth_or {A} (l : option (list A)) (dflt : A) (i : nat) : res exc A :=
  match l with
  | None => Ret dflt
  | Some l => match l !! i with Some a => Ret a | None => Raise (Infer index_error) end
  end.

(** One round of the loop of [format_output] *)
Definition format_one (o : Out) (i : nat) (ents : list En) : res exc (Extraction En Cl Rel Obj Er) :=
  match nth_or (classifications o) [] i with Raise e => Raise e | Ret cl =>
  match nth_or (relations o) [] i with Raise e => Raise e | Ret rel =>
  match nth_or (objects o) [] i with Raise e => Raise e | Ret obj =>
  match nth_or (Handlers.data o) [] i with Raise e => Raise e | Ret dat =>
  match nth_or (errors o) None i with Raise e => Raise e | Ret err =>
    Ret (mkExtraction ents cl rel obj dat err)
  end end end end end.

Fixpoint format_from (o : Out) (i : nat) (l : list (list En)) : res exc (list (Extraction En Cl Rel Obj Er)) :=
  match l with
  | [] => Ret []
  | ents :: l' =>
      match format_one o i ents with
      | Raise e => Raise e
      | Ret x => match format_from o (S i) l' with Raise e => Raise e | Ret xs => Ret (x :: xs) end
      end
  end.

(** [ExtractHandler.format_output] *)
Definition format_extract_output (o : Out) : res exc (list (Extraction En Cl Rel Obj Er)) := format_from o 0 (entities o).

Definition metering_exc (e : Metering.error) : exc := match e with Metering.ValueError m => value_error m end.

(** [_extract_success_outcome] *)
Definition extract_success_outcome (adapter : option Hooks) (bi : xitem) (it : Item) (o : Out) : res exc outcome :=
  match Metering.extract_units (as_evidence (ex_token_counts o)) (as_evidence (pages o))
          ((λ h, count_input_images h [it]) <$> adapter) (ex_batch_size o) (Metering.duration_ms <$> x_prepared_audio bi) with
  | Raise e => Raise (metering_exc e)
  | Ret units =>
      match format_extract_output o with
      | Raise e => Raise e
      | Ret [] => Ret (error_outcome (x_key bi) INFERENCE_ERROR_CODE "adapter returned no extraction results")
      | Ret (x :: _) =>
          let id := match item_id it with Some s => s | None => "item-" +:+ pretty (item_index (x_key bi)) end in
          match pack id x with
          | Raise e => Raise e
          | Ret b => Ret (mkOutcome (x_key bi) (PublishAndAck (Packed b) units))
          end
      end
  end.

(** The prepared items of one work item *)
Definition prepare_media (w : W) (c : ModelConfig) (bi : xitem) (it : Item) (options : dict) : W * res exc (list (XPrep P)) :=
  match x_prepared_audio bi with
  | Some audio =>
      (w, match Metering.validate_prepared_audio audio with
          | Raise e => Raise (metering_exc e)
          | Ret _ => Ret [XAudio audio (Metering.duration_ms audio)]
          end)
  | None =>
      match (match item_images it with Some (S _) => ex_has_image w | _ => Ret false end) with
      | Raise e => (w, Raise e)
      | Ret true =>
          match ex_prepare w it c (x_instruction bi) (get_val "task" options) with
          | (w, Raise e) => (w, Raise e)
          | (w, Ret l) => (w, Ret (XImage <$> l))
          end
      | Ret false => (w, Ret (XCost <$> build_extract_prepared_items [it] 0))
      end
  end.

Definition prepare_extract (w : W) (c : ModelConfig) (bi : xitem) : W * res exc (option string * ExtractRequest P) :=
  match merge_runtime_options c (x_options bi) with
  | Raise e => (w, Raise (opt_exc e))
  | Ret options =>
      match decode_item (convert env) (x_item bi) with
      | Raise e => (w, Raise e)
      | Ret it =>
          match prepare_media w c bi it options with
          | (w, Raise e) => (w, Raise e)
          | (w, Ret prepared_items) =>
              (w, Ret (extract_lora (Some options),
                       mkExtractRequest prepared_items it (x_labels bi) (x_output_schema bi) (x_instruction bi) options
                         (request_id (x_key bi))))
          end
      end
  end.

(** [grouped_requests.setdefault(lora, []).append(...)], with the context *)
Definition add_group (gs : list (option string * ctx_t)) (x : option string * (xitem * ExtractRequest P)) :
    list (option string * ctx_t) :=
  dict_set x.1 (default [] (dict_get x.1 gs) ++ [x.2]) gs.

Fixpoint xprepare_loop (w : W) (c : ModelConfig) (items : list xitem) (d : list (string * outcome))
    (gs : list (option string * ctx_t)) : W * res exc (list (string * outcome) * list (option string * ctx_t)) :=
  match items with
  | [] => (w, Ret (d, gs))
  | bi :: l =>
      match prepare_extract w c bi with
      | (w, Ret (lora, q)) => xprepare_loop w c l d (add_group gs (lora, (bi, q)))
      | (w, Raise e) =>
          if is_exception e then xprepare_loop w c l (set_outcome (inference_exception_outcome env (x_key bi) e) d) gs
          else (w, Raise e)
      end
  end.

(** What a request is answered *)
Definition extract_answer (adapter : option Hooks) (bi : xitem) (q : ExtractRequest P) (r : res exc Out) : res exc outcome :=
  match r with
  | Raise e => Ret (inference_exception_outcome env (x_key bi) e)
  | Ret o => extract_success_outcome adapter bi (er_item q) o
  end.

Fixpoint xpublish (adapter : option Hooks) (ctx : ctx_t) (rs : list (res exc Out)) (d : list (string * outcome)) :
    res exc (list (string * outcome)) :=
  match ctx, rs with
  | [], [] => Ret d
  | (bi, q) :: ctx', r :: rs' =>
      match extract_answer adapter bi q r with
      | Raise e => Raise e
      | Ret o => xpublish adapter ctx' rs' (set_outcome o d)
      end
  | _, _ => Raise (value_error "zip() arguments have different lengths")
  end.

(** The loop over the LoRAs *)
Fixpoint run_loras (adapter : option Hooks) (w : W) (gs : list (option string * ctx_t)) (d : list (string * outcome)) :
    W * res exc (list (string * outcome)) :=
  match gs with
  | [] => (w, Ret d)
  | (lora, ctx) :: gs' =>
      match ex_submit w lora (snd <$> ctx) with
      | (w, Raise e) =>
          if is_exception e
          then run_loras adapter w gs' (foldl (λ d x, set_outcome (inference_exception_outcome env (x_key x.1) e) d) d ctx)
          else (w, Raise e)
      | (w, Ret rs) =>
          match xpublish adapter ctx rs d with
          | Raise e => (w, Raise e)
          | Ret d => run_loras adapter w gs' d
          end
      end
  end.

(** [process_extract_batch] *)
Definition process_extract_batch (w : W) (items : list xitem) : W * res exc (list outcome) :=
  match items with
  | [] => (w, Ret [])
  | _ =>
      match ex_start w with
      | (w, Raise e) => (w, Raise e)
      | (w, Ret None) => (w, Ret ((λ bi, nak_outcome env (x_key bi)) <$> items))
      | (w, Ret (Some c)) =>
          let adapter := ex_adapter w in
          match xprepare_loop w c items [] [] with
          | (w, Raise e) => (w, Raise e)
          | (w, Ret (d, gs)) =>
              match run_loras adapter w gs d with
              | (w, Raise e) => (w, Raise e)
              | (w, Ret d) => (w, collect_outcomes d (x_key <$> items))
              end
          end
      end
  end.

(** *** Groups *)

Abbreviation grouped := (option string * (xitem * ExtractRequest P))%type.

Definition pick_lora (k : option string) (L : list grouped) : ctx_t :=
  omap (λ x, if decide (x.1 = k) then Some x.2 else None) L.

Lemma omap_snoc {A B} (f : A → option B) l x : omap f (l ++ [x]) = (omap f l ++ match f x with Some y => [y] | None => [] end)%list.
Proof. induction l as [|a l IH]; cbn; [by destruct (f x)|]. destruct (f a); cbn; by rewrite IH. Qed.

Lemma groups_get L k :
  dict_wf (foldl add_group [] L) ∧
  dict_get k (foldl add_group [] L) = match pick_lora k L with [] => None | g => Some g end.
Proof.
  induction L as [|x L [Hwf IH]] using rev_ind; [split; [constructor|done]|].
  rewrite foldl_snoc. unfold add_group at 1 3. split; [by apply dict_set_wf|].
  rewrite dict_get_set. unfold pick_lora in *. rewrite omap_snoc. case_decide as Hk; subst.
  - rewrite IH. by destruct (omap _ L).
  - rewrite IH, app_nil_r. done.
Qed.

Lemma groups_perm L : mjoin (snd <$> foldl add_group [] L) ≡ₚ snd <$> L.
Proof.
  assert (∀ (gs : list (option string * ctx_t)) k (v : xitem * ExtractRequest P),
    mjoin (snd <$> dict_set k (default [] (dict_get k gs) ++ [v]) gs) ≡ₚ mjoin (snd <$> gs) ++ [v]) as Hadd.
  { induction gs as [|[k' g] gs IH]; intros k v; cbn; [done|]. case_decide; cbn.
    - by rewrite <- !app_assoc, (Permutation_app_comm [v]).
    - by rewrite IH, app_assoc. }
  induction L as [|x L IH] using rev_ind; [done|]. rewrite foldl_snoc, fmap_app. unfold add_group at 1. by rewrite Hadd, IH.
Qed.

(** *** Every item is answered *)

Abbreviation prep := (res exc (option string * ExtractRequest P)).

Definition xfailures (zs : list (xitem * prep)) : list outcome :=
  omap (λ z, match z.2 with Raise e => Some (inference_exception_outcome env (x_key z.1) e) | Ret _ => None end) zs.

Definition xprepared (zs : list (xitem * prep)) : list grouped :=
  omap (λ z, match z.2 with Ret (lora, q) => Some (lora, (z.1, q)) | Raise _ => None end) zs.

Lemma xprepare_loop_spec w c items d gs w' d' gs' :
  xprepare_loop w c items d gs = (w', Ret (d', gs')) →
  ∃ zs, zs.*1 = items ∧ Forall (λ z, ∃ wi, (prepare_extract wi c z.1).2 = z.2) zs ∧
    d' = settle (xfailures zs) d ∧ gs' = foldl add_group gs (xprepared zs).
Proof.
  revert w d gs. induction items as [|bi l IH]; intros w d gs; cbn.
  - intros [= <- <- <-]. by exists [].
  - destruct (prepare_extract w c bi) as [w1 [[lora q]|e]] eqn:Ep.
    + intros (zs & <- & Hzs & -> & ->)%IH. exists ((bi, Ret (lora, q)) :: zs). split; [done|]. split; [|done].
      constructor; [|done]. exists w. cbn. by rewrite Ep.
    + destruct (is_exception e); [|done]. intros (zs & <- & Hzs & -> & ->)%IH. exists ((bi, Raise e) :: zs). split; [done|].
      split; [|done]. constructor; [|done]. exists w. cbn. by rewrite Ep.
Qed.

Lemma xprepare_escapes w c items d gs w' e : xprepare_loop w c items d gs = (w', Raise e) → is_exception e = false.
Proof.
  revert w d gs. induction items as [|bi l IH]; intros w d gs; cbn; [done|].
  destruct (prepare_extract w c bi) as [w1 [[lora q]|e']]; [apply IH|].
  destruct (is_exception e') eqn:Ee; [apply IH|]. by intros [= _ <-].
Qed.

(** The results of a call of the worker, and the answers made from them *)
Definition xresults (reqs : list (ExtractRequest P)) (r : res exc (list (res exc Out))) : list (res exc Out) :=
  match r with Ret rs => rs | Raise e => replicate (length reqs) (Raise e) end.

Definition xanswered adapter (ctx : ctx_t) (rs : list (res exc Out)) (os : list outcome) : Prop :=
  Forall2 (λ x (ro : res exc Out * outcome), extract_answer adapter x.1 x.2 ro.1 = Ret ro.2) ctx (zip rs os) ∧
  length rs = length ctx ∧ length os = length ctx.

Lemma xpublish_spec adapter ctx rs d d' :
  xpublish adapter ctx rs d = Ret d' → ∃ os, d' = settle os d ∧ xanswered adapter ctx rs os.
Proof.
  revert rs d. induction ctx as [|[bi q] ctx IH]; intros [|r rs] d; cbn; try done.
  - intros [= <-]. exists []. repeat split. constructor.
  - destruct (extract_answer adapter bi q r) as [o|e] eqn:Ea; [|done]. intros (os & -> & H & Hrs & Hos)%IH.
    exists (o :: os). split; [done|]. split; [by constructor|]. split; cbn; by f_equal.
Qed.

Record lora_run := mkRun { run_lora : option string; run_ctx : ctx_t; run_results : list (res exc Out); run_answers : list outcome }.

Definition sound_run adapter (x : lora_run) : Prop :=
  (∃ wl, run_results x = xresults (run_ctx x).*2 (ex_submit wl (run_lora x) (run_ctx x).*2).2) ∧
  xanswered adapter (run_ctx x) (run_results x) (run_answers x).

Lemma run_loras_spec adapter w gs d w' d' :
  run_loras adapter w gs d = (w', Ret d') →
  ∃ runs, gs = (λ x, (run_lora x, run_ctx x)) <$> runs ∧ d' = settle (mjoin (run_answers <$> runs)) d ∧
    Forall (sound_run adapter) runs.
Proof.
  revert w d. induction gs as [|[lora ctx] gs IH]; intros w d; cbn.
  - intros [= <- <-]. exists []. done.
  - destruct (ex_submit w lora ctx.*2) as [w1 [rs|e]] eqn:Es.
    + destruct (xpublish adapter ctx rs d) as [d1|] eqn:Ep; [|done]. apply xpublish_spec in Ep as (os & -> & Hos).
      intros (runs & -> & -> & Hr)%IH. exists (mkRun lora ctx rs os :: runs). split; [done|]. split; [exact (eq_sym (settle_app os _ d))|].
      constructor; [|done]. split; [|done]. exists w. cbn. by rewrite Es.
    + destruct (is_exception e); [|done]. intros (runs & -> & -> & Hr)%IH.
      set (os := (λ x, inference_exception_outcome env (x_key x.1) e) <$> ctx : list outcome).
      exists (mkRun lora ctx (replicate (length ctx) (Raise e)) os :: runs). split; [done|]. split.
      { transitivity (settle (mjoin (run_answers <$> runs)) (settle os d)); [|exact (eq_sym (settle_app os _ d))].
        f_equal. unfold settle, os. by rewrite foldl_fmap. }
      constructor; [|done]. split; [exists w; cbn; by rewrite Es; cbn; rewrite length_fmap|]. cbn. unfold os. clear.
      split; [|by rewrite length_replicate, length_fmap]. induction ctx as [|x ctx IH]; cbn; by constructor.
Qed.

Lemma extract_answer_key adapter bi q r o : extract_answer adapter bi q r = Ret o → o_key o = x_key bi.
Proof.
  destruct r as [x|e]; cbn; [|intros [= <-]; apply exception_key]. unfold extract_success_outcome.
  destruct (Metering.extract_units _ _ _ _ _); [|done]. destruct (format_extract_output x) as [[|y l]|]; [by intros [= <-]| |done].
  destruct (pack _ y); [|done]. by intros [= <-].
Qed.

Lemma answered_keys adapter ctx rs os : xanswered adapter ctx rs os → o_key <$> os = (λ x, x_key x.1) <$> ctx.
Proof.
  intros (H & Hrs & Hos). revert rs os H Hrs Hos. induction ctx as [|x ctx IH]; intros [|r rs] [|o os] H Hrs Hos; try done.
  cbn in H. apply Forall2_cons in H as [Ho H]. cbn in *. f_equal; [by eapply extract_answer_key|].
  apply (IH rs os); [exact H|lia|lia].
Qed.

Lemma runs_keys adapter runs :
  Forall (sound_run adapter) runs →
  o_key <$> mjoin (run_answers <$> runs) = (λ x, x_key x.1) <$> mjoin (run_ctx <$> runs).
Proof.
  induction 1 as [|x runs [_ Hx] _ IH]; [done|]. cbn. rewrite !fmap_app, (answered_keys _ _ _ _ Hx). f_equal. exact IH.
Qed.

Lemma extract_keys adapter zs runs :
  foldl add_group [] (xprepared zs) = (λ x, (run_lora x, run_ctx x)) <$> runs → Forall (sound_run adapter) runs →
  o_key <$> (xfailures zs ++ mjoin (run_answers <$> runs)) ≡ₚ x_key <$> zs.*1.
Proof.
  intros Hgs Hr. rewrite fmap_app, (runs_keys _ _ Hr).
  assert (mjoin (run_ctx <$> runs) ≡ₚ snd <$> xprepared zs) as ->.
  { rewrite <- groups_perm, Hgs, <- list_fmap_compose. done. }
  clear. induction zs as [|[bi [[lora q]|e]] zs IH]; cbn; [done|..].
  - by rewrite <- Permutation_middle, IH.
  - by rewrite exception_key, IH.
Qed.

(** What item [i] is answered, given the preparations and the results of each LoRA's call *)
Definition xitem_answer adapter (zs : list (xitem * prep)) (results : option string → list (res exc Out)) (i : nat)
    (bi : xitem) (p : prep) (o : outcome) : Prop :=
  match p with
  | Raise e => o = inference_exception_outcome env (x_key bi) e
  | Ret (lora, q) =>
      let j := length (pick_lora lora (xprepared (take i zs))) in
      pick_lora lora (xprepared zs) !! j = Some (bi, q) ∧
      ∃ x, results lora !! j = Some x ∧ extract_answer adapter bi q x = Ret o
  end.

Lemma pick_lookup zs i bi lora q :
  zs !! i = Some (bi, Ret (lora, q)) →
  pick_lora lora (xprepared zs) !! length (pick_lora lora (xprepared (take i zs))) = Some (bi, q).
Proof.
  revert i. induction zs as [|[b [[l q']|e]] zs IH]; intros [|i]; try done; cbn.
  - intros [= -> -> ->]. by rewrite decide_True.
  - intros Hi. case_decide; cbn; by apply IH.
  - intros Hi. by apply IH.
Qed.

Definition results_by (runs : list lora_run) (lora : option string) : list (res exc Out) :=
  match list_find (λ x, run_lora x = lora) runs with Some (_, x) => run_results x | None => [] end.

(** The run of a LoRA that has requests *)
Lemma run_of adapter zs runs lora :
  foldl add_group [] (xprepared zs) = (λ x, (run_lora x, run_ctx x)) <$> runs → Forall (sound_run adapter) runs →
  pick_lora lora (xprepared zs) ≠ [] →
  ∃ x, x ∈ runs ∧ run_lora x = lora ∧ run_ctx x = pick_lora lora (xprepared zs) ∧ results_by runs lora = run_results x ∧
    sound_run adapter x.
Proof.
  intros Hgs Hr Hne. destruct (groups_get (xprepared zs) lora) as [Hwf Hget]. unfold results_by.
  destruct (list_find (λ x, run_lora x = lora) runs) as [[k x]|] eqn:Ef.
  - apply list_find_Some in Ef as (Hk & Hx & _). exists x. apply list_elem_of_lookup_2 in Hk.
    split; [done|]. split; [done|]. split; [|split; [done|by rewrite Forall_forall in Hr; apply Hr]].
    assert ((lora, run_ctx x) ∈ foldl add_group [] (xprepared zs)) as Hin.
    { rewrite Hgs. apply list_elem_of_fmap. exists x. by subst. }
    rewrite (dict_elem_get _ _ _ Hwf Hin) in Hget. destruct (pick_lora lora (xprepared zs)); [done|]. by injection Hget.
  - exfalso. destruct (pick_lora lora (xprepared zs)) as [|y g] eqn:Eg; [done|]. apply dict_get_Some_elem in Hget.
    rewrite Hgs in Hget. apply list_elem_of_fmap in Hget as (x & [= -> _] & Hx).
    apply list_find_None in Ef. rewrite Forall_forall in Ef. by apply (Ef x Hx).
Qed.

Lemma extract_settled adapter zs runs :
  NoDup (work_item_id <$> (x_key <$> zs.*1)) →
  foldl add_group [] (xprepared zs) = (λ x, (run_lora x, run_ctx x)) <$> runs → Forall (sound_run adapter) runs →
  ∃ os, collect_outcomes (settle (mjoin (run_answers <$> runs)) (settle (xfailures zs) [])) (x_key <$> zs.*1) = Ret os ∧
    o_key <$> os = x_key <$> zs.*1 ∧
    ∀ i bi p, zs !! i = Some (bi, p) → ∃ o, os !! i = Some o ∧ xitem_answer adapter zs (results_by runs) i bi p o.
Proof.
  intros Hnd Hgs Hr. pose proof (extract_keys adapter zs runs Hgs Hr) as Hperm.
  destruct (collect_settled (xfailures zs ++ mjoin (run_answers <$> runs)) (x_key <$> zs.*1)) as (os & Hcol & Hkeys & Hos).
  { by rewrite Hperm. }
  { intros k Hk. by rewrite Hperm. }
  rewrite settle_app in Hcol. exists os. split; [done|]. split; [done|]. intros i bi p Hi.
  assert ((x_key <$> zs.*1) !! i = Some (x_key bi)) as Hki by by rewrite !list_lookup_fmap, Hi.
  destruct p as [[lora q]|e]; cbn.
  - pose proof (pick_lookup zs i bi lora q Hi) as Hc.
    destruct (run_of adapter zs runs lora Hgs Hr) as (x & Hx & <- & Hctx & -> & _ & (Hall & Hrs & Hlen)).
    { intros Hnil. by rewrite Hnil in Hc. }
    rewrite <- Hctx in *. destruct (Forall2_lookup_l _ _ _ _ _ Hall Hc) as ([r o] & Hj & Ho).
    apply lookup_zip_Some in Hj as [Hjr Hjo]. exists o. split; [|by eauto]. cbn in Ho. apply Hos.
    + apply elem_of_app. right. apply list_elem_of_join. exists (run_answers x). split; [by eapply list_elem_of_lookup_2|].
      by apply list_elem_of_fmap_2.
    + by rewrite (extract_answer_key _ _ _ _ _ Ho).
  - eexists. split; [|reflexivity]. apply Hos; [|by rewrite exception_key].
    apply elem_of_app. left. apply list_elem_of_omap. exists (bi, Raise e). split; [by eapply list_elem_of_lookup_2|done].
Qed.

(** *** Nothing but a cancellation escapes *)

Lemma nth_or_single {A} (l : option (list A)) dflt : one l → ∃ a, nth_or l dflt 0 = Ret a.
Proof. intros H. destruct l as [l|]; [|by eexists]. destruct (H l eq_refl) as [y ->]. by eexists. Qed.

(** The output of a request of one item, as the worker's handler makes it *)
Lemma format_single (o : Out) : extract_single o → ∃ x, format_extract_output o = Ret [x].
Proof.
  intros [_ [en He] Hc Hr Ho Hd Her _ _]. unfold format_extract_output. rewrite He. cbn. unfold format_one.
  destruct (nth_or_single _ [] Hc) as [? ->], (nth_or_single _ [] Hr) as [? ->], (nth_or_single _ [] Ho) as [? ->],
    (nth_or_single _ [] Hd) as [? ->], (nth_or_single _ None Her) as [? ->]. by eexists.
Qed.

(** The duration of accepted audio is a duration the wire can carry. *)
Lemma valid_duration a units :
  Metering.validate_prepared_audio a = Ret tt → ∃ u, Metering.with_audio_ms units (Some (Metering.duration_ms a)) = Ret u.
Proof.
  intros H. unfold Metering.validate_prepared_audio in H. split_ifs_in H; try done.
  unfold Metering.with_audio_ms, Metering.MAX_AUDIO_DURATION_MS in *.
  replace ((Metering.duration_ms a <=? 0) || (2 ^ 64 - 1 <? Metering.duration_ms a)) with false by lia.
  destruct units; by eexists.
Qed.

Definition audio_ok (bi : xitem) : Prop := ∀ a, x_prepared_audio bi = Some a → Metering.validate_prepared_audio a = Ret tt.

Lemma prepared_audio_ok w c bi p : (prepare_extract w c bi).2 = Ret p → audio_ok bi.
Proof.
  intros H a Ha. unfold prepare_extract, prepare_media in H. rewrite Ha in H.
  destruct (merge_runtime_options c (x_options bi)); [|done]. destruct (decode_item _ _); [|done].
  destruct (Metering.validate_prepared_audio a) as [[]|]; done.
Qed.

Context (Hpack : ∀ id x, ∃ b, pack id x = Ret b).
Context (Hsubmit : ∀ w lora reqs w' rs, ex_submit w lora reqs = (w', Ret rs) →
  length rs = length reqs ∧ Forall (λ r : res exc Out, ∀ o, r = Ret o → extract_single o) rs).

Lemma extract_success_total adapter bi it o :
  extract_single o → audio_ok bi → ∃ out, extract_success_outcome adapter bi it o = Ret out.
Proof using Hpack.
  intros Ho Ha. unfold extract_success_outcome, Metering.extract_units.
  match goal with |- context [Metering.with_audio_ms ?u _] => generalize u end. intros units.
  assert (∃ u, Metering.with_audio_ms units (Metering.duration_ms <$> x_prepared_audio bi) = Ret u) as [u ->].
  { destruct (x_prepared_audio bi) as [a|] eqn:E; [|by eexists]. by apply valid_duration, Ha. }
  destruct (format_single o Ho) as [x ->]. destruct (Hpack (match item_id it with Some s => s | None => "item-" +:+ pretty (item_index (x_key bi)) end) x) as [b ->]. by eexists.
Qed.

Lemma xpublish_total adapter ctx rs d :
  length rs = length ctx → Forall (λ r : res exc Out, ∀ o, r = Ret o → extract_single o) rs → Forall (λ x, audio_ok x.1) ctx →
  ∃ d', xpublish adapter ctx rs d = Ret d'.
Proof using Hpack.
  revert rs d. induction ctx as [|[bi q] ctx IH]; intros [|r rs] d Hl Hr Hc; try done; [by eexists|].
  apply Forall_cons in Hr as [Hr Hrs], Hc as [Hc Hcs]. cbn.
  assert (∃ o, extract_answer adapter bi q r = Ret o) as [o ->].
  { destruct r as [x|e]; cbn; [|by eexists]. by apply extract_success_total; [apply Hr|]. }
  apply IH; [by injection Hl|done|done].
Qed.

Lemma run_loras_total adapter w gs d :
  Forall (λ g, Forall (λ x, audio_ok x.1) g.2) gs →
  match (run_loras adapter w gs d).2 with Ret _ => True | Raise e => is_exception e = false end.
Proof using Hpack Hsubmit.
  revert w d. induction gs as [|[lora ctx] gs IH]; intros w d Hg; cbn; [done|].
  apply Forall_cons in Hg as [Hc Hg]. destruct (ex_submit w lora ctx.*2) as [w1 [rs|e]] eqn:Es.
  - apply Hsubmit in Es as [Hl Hr]. rewrite length_fmap in Hl. destruct (xpublish_total adapter ctx rs d Hl Hr Hc) as [d' ->]. by apply IH.
  - destruct (is_exception e) eqn:Ee; [by apply IH|done].
Qed.

Lemma groups_audio zs :
  Forall (λ z, ∃ c wi, (prepare_extract wi c z.1).2 = z.2) zs →
  Forall (λ g, Forall (λ x, audio_ok x.1) g.2) (foldl add_group [] (xprepared zs)).
Proof.
  intros Hzs. assert (Forall (λ x : grouped, audio_ok x.2.1) (xprepared zs)) as H.
  { apply Forall_forall. intros x Hx. apply list_elem_of_omap in Hx as ([bi p] & Hin & Hp). rewrite Forall_forall in Hzs.
    destruct (Hzs _ Hin) as (c & wi & Hw). cbn in *. destruct p as [[l q]|]; [|done]. injection Hp as <-. by eapply prepared_audio_ok. }
  apply Forall_forall. intros [k g] Hg. cbn. apply Forall_forall. intros x Hx.
  assert (x ∈ mjoin (snd <$> foldl add_group [] (xprepared zs))) as Hj.
  { apply list_elem_of_join. exists g. split; [done|]. by apply (list_elem_of_fmap_2 snd _ (k, g)). }
  rewrite groups_perm in Hj. apply list_elem_of_fmap in Hj as (y & -> & Hy). rewrite Forall_forall in H. by apply H.
Qed.
End extract.

Lemma extract_batch_settled {En Cl Rel Obj Er P V W D : Type}
    `{!ExtractServices P (ExtractOutput (En := En) (Cl := Cl) (Rel := Rel) (Obj := Obj) (Er := Er)) W}
    (env : Env D V) (pack : string → Extraction En Cl Rel Obj Er → res exc string) (w : W) (items : list (ExtractBatchItem V)) :
  NoDup (work_item_id <$> (x_key <$> items)) →
  (∀ id x, ∃ b, pack id x = Ret b) →
  (∀ w lora reqs w' rs, ex_submit w lora reqs = (w', Ret rs) →
     length rs = length reqs ∧ Forall (λ r, ∀ o, r = Ret o → extract_single o) rs) →
  match (process_extract_batch env pack w items).2 with
  | Raise e => is_exception e = false ∨ (ex_start w).2 = Raise e
  | Ret os =>
      o_key <$> os = x_key <$> items ∧
      match (ex_start w).2 with
      | Ret None => Forall (λ o, o_disposition o = NakRetry (nak_delay_ms env)) os
      | Raise _ => items = []
      | Ret (Some c) =>
          ∃ zs results, zs.*1 = items ∧ Forall (λ z, ∃ wi, (prepare_extract env wi c z.1).2 = z.2) zs ∧
            (∀ lora, let reqs := (pick_lora lora (xprepared zs)).*2 in
               reqs ≠ [] → ∃ wl, results lora = xresults reqs (ex_submit wl lora reqs).2) ∧
            ∀ i bi p, zs !! i = Some (bi, p) → ∃ o, os !! i = Some o ∧
              xitem_answer env pack (ex_adapter (ex_start w).1) zs results i bi p o
      end
  end.
Proof.
  intros Hnd Hpack Hsubmit. unfold process_extract_batch. destruct items as [|bi0 items0] eqn:Eitems.
  { cbn. split; [done|]. destruct (ex_start w) as [? [[c|]|]]; cbn; [|constructor|done]. exists [], (λ _, []). done. }
  rewrite <- Eitems in *. clear Eitems bi0 items0.
  destruct (ex_start w) as [w1 [[c|]|e]]; cbn [fst snd]; [|split; [|apply Forall_fmap, Forall_true; done]|by right].
  2:{ rewrite <- list_fmap_compose. by apply list_fmap_ext. }
  destruct (xprepare_loop env w1 c items [] []) as [w2 [[d gs]|e]] eqn:Ep; [|left; by eapply xprepare_escapes].
  apply xprepare_loop_spec in Ep as (zs & Hzs & Hprep & -> & ->).
  pose proof (run_loras_total env pack Hpack Hsubmit (ex_adapter w1) w2 (foldl add_group [] (xprepared zs)) (settle (xfailures env zs) [])
    (groups_audio env zs (Forall_impl _ _ _ Hprep (λ z H, ex_intro _ c H)))) as Htot.
  destruct (run_loras _ _ _ _ _ _) as [w3 [d|e]] eqn:Erun; [|by left].
  apply run_loras_spec in Erun as (runs & Hgs & -> & Hr). subst items.
  destruct (extract_settled env pack (ex_adapter w1) zs runs Hnd Hgs Hr) as (os & -> & Hkeys & Hitem).
  split; [done|]. exists zs, (results_by runs). split; [done|]. split; [done|]. split; [|done].
  intros lora Hne. destruct (run_of env pack (ex_adapter w1) zs runs lora Hgs Hr) as (x & _ & <- & <- & -> & [Hrun _]); [|exact Hrun].
  intros Hnil. by rewrite Hnil in Hne.
Qed.

(** C29 — an extract batch is answered item by item.  For work items with distinct ids, a
    worker that gives each request one result of one item, and results that can be packed,
    [process_extract_batch] returns one outcome per item, in the order of the items and under
    each item's own key; only a cancellation, or a failure to start the worker that is
    neither a [KeyError] nor a [RuntimeError], escapes.  An item that cannot be prepared is
    answered with its own error.  The others are submitted in one call per LoRA, in their
    order, and each is answered from the result of its own request, so that a LoRA whose call
    fails fails only the items that asked for it. *)
Theorem extract_batch_exact {En Cl Rel Obj Er P V W D : Type}
    `{!ExtractServices P (ExtractOutput (En := En) (Cl := Cl) (Rel := Rel) (Obj := Obj) (Er := Er)) W}
    (env : Env D V) (pack : string → Extraction En Cl Rel Obj Er → res exc string) (w : W) (items : list (ExtractBatchItem V)) :
  NoDup (work_item_id <$> (x_key <$> items)) →
  (∀ id x, ∃ b, pack id x = Ret b) →
  (∀ w lora reqs w' rs, ex_submit w lora reqs = (w', Ret rs) →
     length rs = length reqs ∧ Forall (λ r, ∀ o, r = Ret o → extract_single o) rs) →
  match (process_extract_batch env pack w items).2 with
  | Raise e => is_exception e = false ∨ (ex_start w).2 = Raise e
  | Ret os =>
      o_key <$> os = x_key <$> items ∧
      match (ex_start w).2 with
      | Ret None => Forall (λ o, o_disposition o = NakRetry (nak_delay_ms env)) os
      | Raise _ => items = []
      | Ret (Some c) =>
          ∃ zs results, zs.*1 = items ∧ Forall (λ z, ∃ wi, (prepare_extract env wi c z.1).2 = z.2) zs ∧
            (∀ lora, let reqs := (pick_lora lora (xprepared zs)).*2 in
               reqs ≠ [] → ∃ wl, results lora = xresults reqs (ex_submit wl lora reqs).2) ∧
            ∀ i bi p, zs !! i = Some (bi, p) → ∃ o, os !! i = Some o ∧
              xitem_answer env pack (ex_adapter (ex_start w).1) zs results i bi p o
      end
  end.
Proof. apply extract_batch_settled. Qed.


(** ** Examples *)

Section examples.
Local Open Scope string_scope.

(** A reranker that scores a candidate by its length and rejects the word "bad" *)
Definition ex_bad_item (it : Item) : bool := bool_decide (item_text it = Some "bad").

Definition ex_rerank (q : ScoreRequest) : res exc (ScoreOutput (Sc := Z)) :=
  if existsb ex_bad_item (sr_items q) then Raise (Infer (Oom.InvalidInputError "undecodable"))
  else Ret (mkScore ((λ it, score_item_cost it) <$> sr_items q) (Z.of_nat (length (sr_items q))) None None).

#[local] Instance ex_score_services : ScoreServices Z unit := {
  sc_start w := (w, Ret (Some QueueExec.ex_config));
  sc_adapter _ := None;
  sc_submit w reqs := (w, Ret (ex_rerank <$> reqs));
}.

#[local] Instance ex_score_laws : ScoreLaws Z unit.
Proof.
  constructor. intros w reqs w' rs [= _ <-]. apply Forall2_fmap_r, Forall_Forall2_diag, Forall_true. intros q o.
  unfold ex_rerank. destruct (existsb _ _); [done|]. intros [= <-]. split; [done|]. cbn. by rewrite length_fmap.
Qed.

Definition ex_score_item (id : string) (docs : list string) : ScoreBatchItem string :=
  mkScoreItem (mkKey id id 0) [("text", "query")] ((λ d, [("text", d)]) <$> docs) None None.

Definition ex_score_batch : list (ScoreBatchItem string) :=
  [ex_score_item "1" ["a"; "abc"]; ex_score_item "2" []; ex_score_item "3" ["bad"]; ex_score_item "4" ["abcd"]].

Lemma score_batch_exact_witness :
  ∃ os, (process_score_batch ex_env tt ex_score_batch).2 = Ret os ∧ o_key <$> os = s_key <$> ex_score_batch ∧
    ∃ o u, os !! 3%nat = Some o ∧ o_disposition o = PublishAndAck (Raw (RawScore [4] ["item-0"])) (Some u) ∧ Metering.pairs u = Some 1.
Proof.
  pose proof (score_batch_exact (Sc := Z) ex_env tt ex_score_batch) as H.
  destruct ((process_score_batch ex_env tt ex_score_batch).2) as [os|e] eqn:E; [|exfalso; vm_compute in E; discriminate E].
  destruct H as [Hk Hi]; [apply (bool_decide_unpack _); vm_compute; done|].
  exists os. split; [reflexivity|]. split; [exact Hk|]. destruct (Hi 3%nat _ eq_refl) as (o & Ho & Ha).
  vm_compute in Ha. destruct Ha as (_ & u & Hd & _ & Hp). exists o, u. exact (conj Ho (conj Hd Hp)).
Defined.

(** An extractor that finds nothing, whose LoRA "gone" cannot be loaded *)
Abbreviation ex_out := (ExtractOutput (En := unit) (Cl := unit) (Rel := unit) (Obj := unit) (Er := unit)).

Definition ex_nothing : ex_out := mkExtract [[]] None None None None None 1 (Some [7]) None.

#[local] Instance ex_extract_services : ExtractServices unit ex_out unit := {
  ex_start w := (w, Ret (Some QueueExec.ex_config));
  ex_adapter _ := None;
  ex_has_image _ := Ret false;
  ex_prepare w _ _ _ _ := (w, Ret []);
  ex_submit w lora reqs := (w, if bool_decide (lora = Some "gone") then Raise (Infer (Oom.OtherError "no such LoRA"))
                               else Ret ((λ _, Ret ex_nothing) <$> reqs));
}.

Definition ex_extract_item (id : string) (lora : string) : ExtractBatchItem string :=
  mkExtractItem (mkKey id id 0) [("text", "some text")] None None None (Some [("lora", VStr lora)]) None.

Definition ex_extract_batch : list (ExtractBatchItem string) :=
  [ex_extract_item "1" "gone"; ex_extract_item "2" "ner"; ex_extract_item "3" "gone"; ex_extract_item "4" ""].

Definition ex_pack (id : string) (x : Extraction unit unit unit unit unit) : res exc string := Ret id.

Lemma extract_batch_exact_witness :
  ∃ os, (process_extract_batch ex_env ex_pack tt ex_extract_batch).2 = Ret os ∧ o_key <$> os = x_key <$> ex_extract_batch ∧
    os !! 1%nat = Some (mkOutcome (mkKey "2" "2" 0) (PublishAndAck (Packed "item-0") (Some (Metering.mkUnits (Some 7) None None None None)))) ∧
    os !! 2%nat = Some (mkOutcome (mkKey "3" "3" 0) (PublishErrorAndAck INFERENCE_ERROR_CODE "no such LoRA")).
Proof.
  pose proof (extract_batch_exact ex_env ex_pack tt ex_extract_batch) as H.
  destruct ((process_extract_batch ex_env ex_pack tt ex_extract_batch).2) as [os|e] eqn:E; [|exfalso; vm_compute in E; discriminate E].
  destruct H as [Hk _].
  - apply (bool_decide_unpack _). vm_compute. done.
  - intros id x. exists id. reflexivity.
  - intros w lora reqs w' rs. cbn. destruct (bool_decide _); [discriminate|]. intros [= _ <-]. split; [apply length_fmap|].
    apply Forall_fmap, Forall_true. intros q o [= <-]. constructor; cbn; try (intros l [= <-]; by eexists); [done|by eexists|done..].
  - exists os. split; [reflexivity|]. split; [exact Hk|]. vm_compute in E. injection E as <-. split; reflexivity.
Defined.
End examples.
End QueueScore.
