(* ===== verification/SdkRetry.v ===== *)
(** The retry logic of the Python SDK: [sie_sdk/client/_shared.py] (delays, error codes,
    typed errors, the batch count guard) and the retry loops of [sie_sdk/client/sync.py]
    ([encode], [generate], [_handle_oom_retry], [_follow_modal_continuations] and the loop of
    the chat and Responses calls).

    A call sends a request, looks at the answer and either returns, raises or sleeps and
    sends it again.  The world of a call is a list of attempts: for each, the time since the
    start of the call when the loop begins and after the answer (one clock reading each),
    the random draw of the jitter, and what the transport did.  A loop is a function of this
    list, so that a theorem about all lists is a theorem about all servers, networks and
    clocks.

    Durations are exact rationals; the SDK's are floats, whose rounding is left out.  The
    parsed forms of the [Retry-After] header (a number, possibly infinite or NaN, or a date)
    and of a URL are data, as the standard library's parsers produce them. *)

From Stdlib Require Import QArith Qminmax Lqa Ascii.
From stdpp Require Import strings.
From S2P Require Import Prelude PyFloat PyDict PyStr Handlers PyVal.
Import Handlers PyVal.
Local Open Scope Z_scope.

Module SdkRetry.

(** ** Comparison of durations *)

Definition qle (a b : Q) : bool := Qle_bool a b.
Definition qlt (a b : Q) : bool := negb (Qle_bool b a).

Lemma qle_spec a b : qle a b = true ↔ (a <= b)%Q.
Proof. apply Qle_bool_iff. Qed.

Lemma qle_false a b : qle a b = false ↔ (b < a)%Q.
Proof. unfold qle. rewrite <- not_true_iff_false, Qle_bool_iff. split; [apply Qnot_le_lt|apply Qlt_not_le]. Qed.

Lemma qlt_spec a b : qlt a b = true ↔ (a < b)%Q.
Proof. unfold qlt. rewrite negb_true_iff. apply qle_false. Qed.

Lemma qlt_false a b : qlt a b = false ↔ (b <= a)%Q.
Proof. unfold qlt. rewrite negb_false_iff. apply qle_spec. Qed.

(** Turns boolean comparisons of the context into inequalities *)
Ltac qcmp :=
  repeat match goal with
  | H : qle _ _ = true |- _ => apply qle_spec in H
  | H : qle _ _ = false |- _ => apply qle_false in H
  | H : qlt _ _ = true |- _ => apply qlt_spec in H
  | H : qlt _ _ = false |- _ => apply qlt_false in H
  end.

(** Linear arithmetic with minima and maxima: each is replaced by a number of which its
    specification is known. *)
Ltac qsplit t spec :=
  let m := fresh "m" in let Hm := fresh "Hm" in
  pose proof spec as Hm; set (m := t) in *; clearbody m; destruct Hm as [[? ?]|[? ?]].

Ltac qminmax :=
  repeat match goal with
  | |- context [Qmin ?a ?b] => qsplit (Qmin a b) (Q.min_spec a b)
  | |- context [Qmax ?a ?b] => qsplit (Qmax a b) (Q.max_spec a b)
  | H : context [Qmin ?a ?b] |- _ => qsplit (Qmin a b) (Q.min_spec a b)
  | H : context [Qmax ?a ?b] |- _ => qsplit (Qmax a b) (Q.max_spec a b)
  end; lra.

(** ** Constants *)

Definition RETRY_JITTER_FRACTION : Q := 1 # 4.
Definition DEFAULT_PROVISION_TIMEOUT_S : Q := 900.
Definition DEFAULT_RETRY_DELAY_S : Q := 5.
Definition LORA_LOADING_MAX_RETRIES : Z := 10.
Definition LORA_LOADING_DEFAULT_DELAY_S : Q := 1.
Definition MODEL_LOADING_DEFAULT_DELAY_S : Q := 5.
Definition RESOURCE_EXHAUSTED_MAX_RETRIES : Z := 3.
Definition RESOURCE_EXHAUSTED_DEFAULT_DELAY_S : Q := 5.
Definition RESOURCE_EXHAUSTED_MAX_DELAY_S : Q := 30.
Definition RATE_LIMIT_DEFAULT_DELAY_S : Q := 1.
Definition BACKPRESSURE_503_DEFAULT_DELAY_S : Q := 1.
Definition MODAL_CONTINUATION_MAX_HOPS : nat := 20.

Definition PROVISIONING : string := "PROVISIONING".
Definition LORA_LOADING : string := "LORA_LOADING".
Definition MODEL_LOADING : string := "MODEL_LOADING".
Definition RESOURCE_EXHAUSTED : string := "RESOURCE_EXHAUSTED".
Definition MODEL_LOAD_FAILED : string := "MODEL_LOAD_FAILED".
Definition INPUT_TOO_LONG : string := "INPUT_TOO_LONG".
Definition INSUFFICIENT_CREDITS : string := "INSUFFICIENT_CREDITS".
Definition KEY_SPEND_LIMIT_EXCEEDED : string := "KEY_SPEND_LIMIT_EXCEEDED".
Definition ACCOUNT_SUSPENDED : string := "ACCOUNT_SUSPENDED".
Definition ACCOUNT_PENDING_REVIEW : string := "ACCOUNT_PENDING_REVIEW".
Definition ACCOUNT_STATE_UNAVAILABLE : string := "ACCOUNT_STATE_UNAVAILABLE".
Definition BACKPRESSURE_503_ERROR_CODES : list string := ["BILLING_CAPACITY_UNAVAILABLE"; "QUEUE_FULL"]%string.

(** ** Responses *)

(** [float(text)] of a header *)
Inductive fval := Finite (q : Q) | Infinite | NotANumber.

(** The [Retry-After] header: a number, or a date by its distance from now ([None]: not a
    date either) *)
Inductive RetryAfter := ANumber (v : fval) | ADate (delta : option Q).

(** A resolved URL: its HTTP origin ([None] if refused), and what [urlsplit] and
    [parse_qsl] say *)
Record Url := mkUrl {
  u_origin : option (string * string * Z);
  u_path : string;
  u_query : string;
  u_pairs : list (string * string);
  u_fragment : string;
}.

Record Response := mkResponse {
  status : Z;
  retry_after : option RetryAfter;
  code_header : option string;              (* [X-SIE-Error-Code] *)
  body : res unit pyval;                    (* the decoded body, or a decoding error *)
  location : option (string * option Url);  (* [Location], and the URL it resolves to *)
}.

(** [get_retry_after] *)
Definition get_retry_after (r : Response) : option Q :=
  match retry_after r with
  | None => None
  | Some (ANumber (Finite q)) => if qlt q 0 then None else Some q
  | Some (ANumber _) => None
  | Some (ADate None) => None
  | Some (ADate (Some delta)) => Some (Qmax delta 0)
  end.

(** [retry_after_or_default] *)
Definition retry_after_or_default (ra : option Q) (dflt : Q) : Q := default dflt ra.

(** [get_error_detail] *)
Definition get_error_detail (r : Response) : option dict :=
  match body r with
  | Ret (VDict data) =>
      match dict_get "error"%string data with
      | Some (VDict error) => Some error
      | Some _ => None
      | None => match dict_get "detail"%string data with Some (VDict detail) => Some detail | _ => None end
      end
  | _ => None
  end.

(** [normalize_error_code] *)
Definition normalize_error_code (code : pyval) : pyval :=
  match code with VStr s => if bool_decide (s = "provisioning"%string) then VStr PROVISIONING else code | _ => code end.

Definition non_empty (s : option string) : option string :=
  match s with Some EmptyString => None | _ => s end.

(** [get_error_code] *)
Definition get_error_code (r : Response) : option string :=
  match non_empty (code_header r) with
  | Some c => Some c
  | None =>
      match get_error_detail r with
      | None => None
      | Some detail => match normalize_error_code (get_val "code" detail) with VStr s => Some s | _ => None end
      end
  end.

(** ** Errors *)

Inductive SdkError :=
  | ProvisioningError (ra : option Q)
  | ModelLoadingError
  | LoraLoadingError
  | ResourceExhaustedError (retries : Z)
  | RateLimitError (ra : option Q)
  | SIEConnectionError
  | ModelLoadFailedError (error_class : pyval) (permanent : bool) (attempts : Z)
  | InputTooLongError
  | InsufficientCreditsError
  | SpendLimitError
  | AccountInactiveError (code : pyval)
  | AccountStateUnavailableError
  | ServerError (code : pyval) (status_code : option Z)
  | RequestError (code : pyval) (status_code : option Z)
  | IncompleteBatchError (expected received : nat) (missing : option (list string)).

Definition is_code (code : pyval) (s : string) : bool := match code with VStr c => bool_decide (c = s) | _ => false end.

(** The code [handle_error] finds in the body *)
Definition body_code (r : Response) : pyval :=
  match get_error_detail r with Some detail => get_val "code" detail | None => VNone end.

(** [handle_error] *)
Definition handle_error (r : Response) : SdkError :=
  let code := match non_empty (code_header r) with Some c => VStr c | None => normalize_error_code (body_code r) end in
  if (status r =? 503) && is_code code PROVISIONING then ProvisioningError (get_retry_after r)
  else if (status r =? 400) && is_code code INPUT_TOO_LONG then InputTooLongError
  else if status r =? 429 then RateLimitError (get_retry_after r)
  else if (status r =? 402) && is_code code INSUFFICIENT_CREDITS then InsufficientCreditsError
  else if (status r =? 402) && is_code code KEY_SPEND_LIMIT_EXCEEDED then SpendLimitError
  else if (status r =? 403) && (is_code code ACCOUNT_SUSPENDED || is_code code ACCOUNT_PENDING_REVIEW) then AccountInactiveError code
  else if (status r =? 503) && is_code code ACCOUNT_STATE_UNAVAILABLE then AccountStateUnavailableError
  else if 500 <=? status r then ServerError code (Some (status r))
  else RequestError code (Some (status r)).

(** [int(text)] *)
Definition digit_value (c : ascii) : option Z :=
  let n := Z.of_nat (nat_of_ascii c) in if (48 <=? n) && (n <=? 57) then Some (n - 48) else None.

Fixpoint digits (acc : Z) (after_digit : bool) (s : string) : option Z :=
  match s with
  | EmptyString => if after_digit then Some acc else None
  | String c s' =>
      match digit_value c with
      | Some d => digits (10 * acc + d) true s'
      | None => if after_digit && bool_decide (c = "_"%char) then digits acc false s' else None
      end
  end.

Definition int_of_str (text : string) : option Z :=
  match strip text with
  | String "-" s => Z.opp <$> digits 0 false s
  | String "+" s => digits 0 false s
  | s => digits 0 false s
  end.

(** The [attempts] of a load failure: coerced as far as possible, at least 1 *)
Definition coerce_attempts (v : pyval) : Z :=
  Z.max 1 (match v with
           | VInt z => z
           | VBool b => if b then 1 else 0
           | VFloat x => match ftrunc x with Some z => z | None => 1 end
           | VStr s => default 1 (int_of_str s)
           | _ => 1
           end).

(** [raise_if_model_load_failed] *)
Definition raise_if_model_load_failed (r : Response) : option SdkError :=
  if negb (status r =? 502) then None
  else
    match get_error_detail r with
    | None => None
    | Some detail =>
        if negb (is_code (get_val "code" detail) MODEL_LOAD_FAILED) then None
        else Some (ModelLoadFailedError (get_val "error_class" detail)
                     (truthy (default (VBool true) (dict_get "permanent"%string detail)))
                     (coerce_attempts (default (VInt 1) (dict_get "attempts"%string detail))))
    end.

(** [raise_if_input_too_long] *)
Definition raise_if_input_too_long (r : Response) : option SdkError :=
  if negb (status r =? 400) then None
  else match get_error_detail r with
       | Some detail => if is_code (get_val "code" detail) INPUT_TOO_LONG then Some InputTooLongError else None
       | None => None
       end.

(** ** Connection errors *)

(** A link of the chain of causes of a connection error *)
Inductive Link := SslLink | OsErrorField (errno : Z) | OsErrorSelf (errno : Z) | OtherLink.

Section client.
Context (TRANSIENT_CONNECT_ERRNOS : list Z).

(** [is_transient_connect_error] *)
Fixpoint is_transient_connect_error (chain : list Link) : bool :=
  match chain with
  | [] => true
  | SslLink :: _ => false
  | OsErrorField n :: _ | OsErrorSelf n :: _ => bool_decide (n ∈ TRANSIENT_CONNECT_ERRNOS)
  | OtherLink :: rest => is_transient_connect_error rest
  end.

(** ** Attempts *)

(** What one continuation GET comes to *)
Inductive Hop := HopAnswer (at_get : Q) (r : Response) | HopError (at_get : Q).

Definition at_get (h : Hop) : Q := match h with HopAnswer t _ | HopError t => t end.

Inductive Outcome :=
  | ConnectError (chain : list Link)
  | TransportError                              (* [_RETRYABLE_TRANSPORT_ERRORS] *)
  | Answer (r : Response) (hops : list Hop).    (* with the GETs that may follow a 303 *)

Record Attempt := mkAttempt {
  at_start : Q;               (* elapsed when the loop begins *)
  at_after : Q;               (* elapsed after the answer *)
  draw : Q → Q → Q;           (* [random.uniform] *)
  outcome : Outcome;
}.

(** What a call is given *)
Record Call := mkCall {
  timeout : Q;                (* [provision_timeout_s] *)
  request_timeout_s : Q;      (* the client's own limit per request *)
  wait_for_capacity : bool;
  max_oom_retries : Z;
}.

(** [apply_jitter] *)
Definition apply_jitter (draw : Q → Q → Q) (delay : Q) : Q :=
  if qle delay 0 then Qmax delay 0 else Qmax 0 (draw (delay * (1 - RETRY_JITTER_FRACTION))%Q delay).

(** [compute_retry_delay] *)
Definition compute_retry_delay (c : Call) (a : Attempt) : option Q :=
  let elapsed := at_after a in
  if qle (timeout c) elapsed then None
  else Some (apply_jitter (draw a) (Qmin MODEL_LOADING_DEFAULT_DELAY_S (timeout c - elapsed))).

(** [compute_oom_backoff] *)
Definition compute_oom_backoff (draw : Q → Q → Q) (ra : option Q) (attempt : Z) (base_delay max_delay : Q) : Q :=
  let safe_retry_after := (λ x, Qmax x 0) <$> ra in
  match safe_retry_after, attempt with
  | Some hint, 0 => Qmin hint max_delay
  | _, _ =>
      let base := match safe_retry_after with Some hint => Qmax base_delay hint | None => base_delay end in
      apply_jitter draw (Qmax 0 (Qmin (base * inject_Z (2 ^ attempt)) max_delay))
  end.

Definition oom_backoff (a : Attempt) (r : Response) (attempt : Z) : Q :=
  compute_oom_backoff (draw a) (get_retry_after r) attempt RESOURCE_EXHAUSTED_DEFAULT_DELAY_S RESOURCE_EXHAUSTED_MAX_DELAY_S.

(** [_handle_oom_retry]: the sleep *)
Definition handle_oom_retry (c : Call) (a : Attempt) (r : Response) (oom_retries : Z) : res SdkError Q :=
  let elapsed := at_after a in
  if (max_oom_retries c <=? oom_retries) || qle (timeout c) elapsed then Raise (ResourceExhaustedError oom_retries)
  else
    let raw_delay := oom_backoff a r oom_retries in
    if qle (timeout c - elapsed) raw_delay then Raise (ResourceExhaustedError oom_retries) else Ret raw_delay.

(** [provisioning_retry_delay] *)
Definition provisioning_retry_delay (c : Call) (a : Attempt) (r : Response) : res SdkError Q :=
  let ra := get_retry_after r in
  if negb (wait_for_capacity c) then Raise (ProvisioningError ra)
  else if qle (timeout c) (at_after a) then Raise (ProvisioningError ra)
  else
    let remaining := (timeout c - at_after a)%Q in
    match ra with
    | Some d => Ret (Qmin d remaining)
    | None => Ret (apply_jitter (draw a) (Qmin DEFAULT_RETRY_DELAY_S remaining))
    end.

(** [admission_retry_delay]; [None] when it is no admission signal *)
Definition admission_delay_or (c : Call) (a : Attempt) (r : Response) (dflt : Q) (gave_up : SdkError) : res SdkError Q :=
  let remaining := (timeout c - at_after a)%Q in
  let delay := match get_retry_after r with Some d => d | None => apply_jitter (draw a) (Qmin dflt remaining) end in
  if qle remaining 0 || qle remaining delay then Raise gave_up else Ret delay.

Definition is_backpressure (r : Response) : bool :=
  match get_error_code r with Some code => bool_decide (code ∈ BACKPRESSURE_503_ERROR_CODES) | None => false end.

Definition admission_retry_delay (c : Call) (a : Attempt) (r : Response) : option (res SdkError Q) :=
  if status r =? 429 then Some (admission_delay_or c a r RATE_LIMIT_DEFAULT_DELAY_S (RateLimitError (get_retry_after r)))
  else if (status r =? 503) && is_backpressure r
  then Some (admission_delay_or c a r BACKPRESSURE_503_DEFAULT_DELAY_S (handle_error r))
  else None.

(** ** One round of a loop *)

Record Counters := mkCounters { lora_retries : Z; oom_retries : Z }.

Inductive Step :=
  | Retry (delay : Q) (n : Counters)
  | Fail (e : SdkError)
  | Done (r : Response).

(** The head of the loop: no request is sent without time left *)
Definition guard (c : Call) (a : Attempt) (k : Step) : Step :=
  if qle (timeout c - at_start a) 0 then Fail (ProvisioningError None) else k.

Definition request_timeout (c : Call) (a : Attempt) : Q := Qmin (request_timeout_s c) (timeout c - at_start a).

Definition connect_error (c : Call) (a : Attempt) (n : Counters) (retryable : bool) : Step :=
  match (if retryable then compute_retry_delay c a else None) with
  | Some d => Retry d n
  | None => Fail SIEConnectionError
  end.

Definition of_delay (n : Counters) (d : res SdkError Q) : Step :=
  match d with Ret d => Retry d n | Raise e => Fail e end.

Definition has_code (r : Response) (code : string) : bool := bool_decide (get_error_code r = Some code).

Definition bump_oom (n : Counters) : Counters := mkCounters (lora_retries n) (oom_retries n + 1).

(** The 503 ladder of [encode] *)
Definition encode_503 (c : Call) (a : Attempt) (n : Counters) (r : Response) : option Step :=
  if has_code r PROVISIONING then Some (of_delay n (provisioning_retry_delay c a r))
  else if has_code r LORA_LOADING then
    let n := mkCounters (lora_retries n + 1) (oom_retries n) in
    Some (if LORA_LOADING_MAX_RETRIES <? lora_retries n then Fail LoraLoadingError
          else Retry (retry_after_or_default (get_retry_after r) LORA_LOADING_DEFAULT_DELAY_S) n)
  else if has_code r MODEL_LOADING then
    Some (if qle (timeout c) (at_after a) then Fail ModelLoadingError
          else Retry (Qmin (retry_after_or_default (get_retry_after r) MODEL_LOADING_DEFAULT_DELAY_S) (timeout c - at_after a)) n)
  else if has_code r RESOURCE_EXHAUSTED then Some (of_delay (bump_oom n) (handle_oom_retry c a r (oom_retries n)))
  else None.

(** What follows the 503 ladder in [encode] *)
Definition encode_rest (c : Call) (a : Attempt) (n : Counters) (r : Response) : Step :=
  match admission_retry_delay c a r with
  | Some d => of_delay n d
  | None =>
      if (status r =? 504) && wait_for_capacity c && qlt (at_after a) (timeout c)
      then Retry (Qmin (retry_after_or_default (get_retry_after r) MODEL_LOADING_DEFAULT_DELAY_S) (timeout c - at_after a)) n
      else if 400 <=? status r then Fail (handle_error r) else Done r
  end.

(** The 503 ladder of [score] and [extract]: that of [encode] without the LoRA rung *)
Definition score_503 (c : Call) (a : Attempt) (n : Counters) (r : Response) : option Step :=
  if has_code r PROVISIONING then Some (of_delay n (provisioning_retry_delay c a r))
  else if has_code r MODEL_LOADING then
    Some (if qle (timeout c) (at_after a) then Fail ModelLoadingError
          else Retry (Qmin (retry_after_or_default (get_retry_after r) MODEL_LOADING_DEFAULT_DELAY_S) (timeout c - at_after a)) n)
  else if has_code r RESOURCE_EXHAUSTED then Some (of_delay (bump_oom n) (handle_oom_retry c a r (oom_retries n)))
  else None.

(** One round of the loop of [encode], [score] and [extract], which differ in what ends the
    call at once and in the 503 ladder *)
Definition idempotent_step (terminal : Response → option SdkError) (ladder : Response → option Step)
    (c : Call) (n : Counters) (a : Attempt) : Step :=
  guard c a
    match outcome a with
    | ConnectError chain => connect_error c a n (wait_for_capacity c && is_transient_connect_error chain)
    | TransportError => connect_error c a n (wait_for_capacity c)
    | Answer r _ =>
        match terminal r with
        | Some e => Fail e
        | None =>
            match (if status r =? 503 then ladder r else None) with
            | Some s => s
            | None => encode_rest c a n r
            end
        end
    end.

(** The loop of [SIEClient.encode] *)
Definition encode_step (c : Call) (n : Counters) (a : Attempt) : Step :=
  idempotent_step raise_if_model_load_failed (encode_503 c a n) c n a.

(** The loop of [SIEClient.score] *)
Definition score_step (c : Call) (n : Counters) (a : Attempt) : Step :=
  idempotent_step raise_if_model_load_failed (score_503 c a n) c n a.

(** The loop of [SIEClient.extract] *)
Definition extract_terminal (r : Response) : option SdkError :=
  match raise_if_model_load_failed r with Some e => Some e | None => raise_if_input_too_long r end.

Definition extract_step (c : Call) (n : Counters) (a : Attempt) : Step :=
  idempotent_step extract_terminal (score_503 c a n) c n a.

(** ** A call *)

(** The attempts that were retried, with the sleep that followed, and how the call ended
    ([None]: it is still going when the attempts end) *)
Fixpoint run (step : Counters → Attempt → Step) (n : Counters) (l : list Attempt) :
    list (Attempt * Q) * option (res SdkError Response) :=
  match l with
  | [] => ([], None)
  | a :: l' =>
      match step n a with
      | Retry d n' => let '(slept, o) := run step n' l' in ((a, d) :: slept, o)
      | Fail e => ([], Some (Raise e))
      | Done r => ([], Some (Ret r))
      end
  end.

Definition start_counters : Counters := mkCounters 0 0.

(** *** The guard on the number of results *)

Definition item_id_of (v : pyval) : option pyval := match v with VDict d => Some (get_val "id" d) | _ => None end.
Definition as_str (v : pyval) : option string := match v with VStr s => Some s | _ => None end.

(** [_missing_result_ids] *)
Definition missing_result_ids (results : list dict) (submitted : list pyval) : option (list string) :=
  match mapM item_id_of submitted with
  | None => None
  | Some ids =>
      match mapM as_str ids with
      | None => None
      | Some submitted_ids =>
          match mapM (λ r, as_str (get_val "id" r)) results with
          | None => None
          | Some returned_ids =>
              match filter (λ i, i ∉ returned_ids) submitted_ids with [] => None | missing => Some missing end
          end
      end
  end.

(** [validate_batch_result_count] *)
Definition validate_batch_result_count (results : list dict) (submitted : list pyval) : res SdkError unit :=
  if (length results =? length submitted)%nat then Ret tt
  else Raise (IncompleteBatchError (length submitted) (length results) (missing_result_ids results submitted)).

(** ** Delays *)

(** [random.uniform(low, high)] lies between its arguments. *)
Definition lawful (a : Attempt) : Prop := ∀ x y, (x <= y)%Q → (x <= draw a x y <= y)%Q.

Lemma jitter_bounds a d : lawful a → (0 <= apply_jitter (draw a) d <= Qmax d 0)%Q.
Proof.
  intros Ha. unfold apply_jitter. destruct (qle d 0) eqn:E; qcmp; [qminmax|].
  assert (d * (1 - RETRY_JITTER_FRACTION) <= d)%Q as Hl by (unfold RETRY_JITTER_FRACTION; lra).
  destruct (Ha _ _ Hl) as [_ Hh]. revert Hh. generalize (draw a (d * (1 - RETRY_JITTER_FRACTION))%Q d). intros q Hh. split; qminmax.
Qed.

(** Jitter never lengthens a wait. *)
Lemma jitter_le a d : lawful a → (0 <= d → apply_jitter (draw a) d <= d)%Q.
Proof. intros Ha Hd. pose proof (jitter_bounds a d Ha) as [_ H]. revert H. qminmax. Qed.

Lemma oom_backoff_bounds a r k : lawful a → (0 <= oom_backoff a r k <= RESOURCE_EXHAUSTED_MAX_DELAY_S)%Q.
Proof.
  intros Ha. unfold oom_backoff, compute_oom_backoff.
  assert (∀ x, (0 <= apply_jitter (draw a) (Qmax 0 (Qmin x RESOURCE_EXHAUSTED_MAX_DELAY_S)) <= RESOURCE_EXHAUSTED_MAX_DELAY_S)%Q) as Hj.
  { intros x. pose proof (jitter_bounds a (Qmax 0 (Qmin x RESOURCE_EXHAUSTED_MAX_DELAY_S)) Ha) as [H1 H2].
    split; [done|]. eapply Qle_trans; [exact H2|]. unfold RESOURCE_EXHAUSTED_MAX_DELAY_S. qminmax. }
  destruct (get_retry_after r) as [h|]; cbn -[Z.pow]; [destruct k; try apply Hj|apply Hj].
  unfold RESOURCE_EXHAUSTED_MAX_DELAY_S. split; qminmax.
Qed.

Lemma get_retry_after_nonneg r d : get_retry_after r = Some d → (0 <= d)%Q.
Proof.
  unfold get_retry_after. destruct (retry_after r) as [[[q| |]|[q|]]|]; try done.
  - destruct (qlt q 0) eqn:E; [done|]. intros [= <-]. by qcmp.
  - intros [= <-]. qminmax.
Qed.

Lemma or_default_nonneg r d : (0 <= d → 0 <= retry_after_or_default (get_retry_after r) d)%Q.
Proof. intros Hd. destruct (get_retry_after r) eqn:E; cbn; [by eapply get_retry_after_nonneg|done]. Qed.

(** A sleep within what is left of the budget *)
Definition within (c : Call) (a : Attempt) (d : Q) : Prop := (0 <= d <= timeout c - at_after a)%Q.

Lemma compute_retry_delay_within c a d : lawful a → compute_retry_delay c a = Some d → within c a d.
Proof.
  intros Ha. unfold compute_retry_delay, within. destruct (qle _ _) eqn:E; [done|]. intros [= <-]. qcmp.
  pose proof (jitter_bounds a (Qmin MODEL_LOADING_DEFAULT_DELAY_S (timeout c - at_after a)) Ha) as [H1 H2]. split; [done|].
  revert H2. unfold MODEL_LOADING_DEFAULT_DELAY_S. qminmax.
Qed.

Lemma provisioning_within c a r d : lawful a → provisioning_retry_delay c a r = Ret d → within c a d ∧ wait_for_capacity c = true.
Proof.
  intros Ha. unfold provisioning_retry_delay, within. destruct (wait_for_capacity c); cbn; [|done].
  destruct (qle _ _) eqn:E; [done|]. qcmp. destruct (get_retry_after r) as [x|] eqn:Er; intros [= <-]; split; try done.
  - pose proof (get_retry_after_nonneg _ _ Er). split; qminmax.
  - pose proof (jitter_bounds a (Qmin DEFAULT_RETRY_DELAY_S (timeout c - at_after a)) Ha) as [H1 H2]. split; [done|].
    revert H2. unfold DEFAULT_RETRY_DELAY_S. qminmax.
Qed.

Lemma oom_within c a r k d : lawful a → handle_oom_retry c a r k = Ret d → within c a d ∧ k + 1 <= max_oom_retries c.
Proof.
  intros Ha. unfold handle_oom_retry, within. destruct ((max_oom_retries c <=? k) || _) eqn:E; [done|].
  apply orb_false_iff in E as [E _]. destruct (qle _ _) eqn:E2; [done|]. intros [= <-]. qcmp.
  pose proof (oom_backoff_bounds a r k Ha). split; [split; lra|lia].
Qed.

Lemma admission_within c a r dflt e d : lawful a → (0 <= dflt)%Q → admission_delay_or c a r dflt e = Ret d → within c a d.
Proof.
  intros Ha Hd. unfold admission_delay_or, within. destruct (qle _ _ || qle _ _) eqn:E; [done|]. intros [= <-].
  apply orb_false_iff in E as [E1 E2]. qcmp. destruct (get_retry_after r) as [x|] eqn:Er.
  - pose proof (get_retry_after_nonneg _ _ Er). split; lra.
  - pose proof (jitter_bounds a (Qmin dflt (timeout c - at_after a)) Ha) as [H1 H2]. split; lra.
Qed.

(** ** What may be retried *)

(** A 503 with a given code *)
Definition coded (r : Response) (code : string) : bool := (status r =? 503) && has_code r code.

(** The answer the ladders look at *)
Definition is_oom (a : Attempt) : bool := match outcome a with Answer r _ => coded r RESOURCE_EXHAUSTED | _ => false end.
Definition is_lora (a : Attempt) : bool := match outcome a with Answer r _ => coded r LORA_LOADING | _ => false end.

(** The signals after which [encode] sends again: a transport error for a caller that waits
    for capacity, an admission rejection, a model or LoRA that is loading, an
    out-of-memory, and a gateway timeout for a caller that waits *)
Definition retryable (c : Call) (a : Attempt) : bool :=
  match outcome a with
  | ConnectError chain => wait_for_capacity c && is_transient_connect_error chain
  | TransportError => wait_for_capacity c
  | Answer r _ =>
      (status r =? 429) || ((status r =? 503) && is_backpressure r) || (coded r PROVISIONING && wait_for_capacity c) ||
      coded r LORA_LOADING || coded r MODEL_LOADING || coded r RESOURCE_EXHAUSTED || ((status r =? 504) && wait_for_capacity c)
  end.

Definition count (b : bool) (z : Z) : Z := if b then z + 1 else z.

(** A retry of [encode] *)
Record encode_retry (c : Call) (n : Counters) (a : Attempt) (d : Q) (n' : Counters) : Prop := {
  er_sent : (at_start a < timeout c)%Q;
  er_signal : retryable c a = true;
  er_delay : is_lora a = false → within c a d;
  er_nonneg : (0 <= d)%Q;
  er_oom : oom_retries n' = count (is_oom a) (oom_retries n);
  er_lora : lora_retries n' = count (is_lora a) (lora_retries n);
  er_oom_bound : is_oom a = true → oom_retries n' <= max_oom_retries c;
  er_lora_bound : is_lora a = true → lora_retries n' <= LORA_LOADING_MAX_RETRIES;
}.

Lemma guard_retry c a k d n' : guard c a k = Retry d n' → (at_start a < timeout c)%Q ∧ k = Retry d n'.
Proof. unfold guard. destruct (qle _ _) eqn:E; [done|]. intros ->. qcmp. split; [lra|done]. Qed.

Lemma connect_error_retry c a n b d n' :
  lawful a → connect_error c a n b = Retry d n' → b = true ∧ within c a d ∧ n' = n.
Proof.
  intros Ha. unfold connect_error. destruct b; [|done]. destruct (compute_retry_delay c a) as [d'|] eqn:E; [|done].
  intros [= -> ->]. by apply compute_retry_delay_within in E.
Qed.

Lemma of_delay_retry n x d n' : of_delay n x = Retry d n' → x = Ret d ∧ n' = n.
Proof. destruct x; [|done]. by intros [= -> ->]. Qed.

Lemma has_code_inv r s s' : has_code r s = true → has_code r s' = true → s = s'.
Proof. unfold has_code. rewrite !bool_decide_eq_true. congruence. Qed.

(** At most one code *)
Lemma other_code r s s' : has_code r s = true → s ≠ s' → has_code r s' = false.
Proof. intros H Hne. destruct (has_code r s') eqn:E; [|done]. by destruct (Hne (has_code_inv _ _ _ H E)). Qed.

Lemma admission_retry c a r x d :
  lawful a → admission_retry_delay c a r = Some x → x = Ret d →
  within c a d ∧ (status r =? 429) || ((status r =? 503) && is_backpressure r) = true.
Proof.
  intros Ha. unfold admission_retry_delay. destruct (status r =? 429); cbn.
  - intros [= <-] Hd. by apply admission_within in Hd.
  - destruct ((status r =? 503) && is_backpressure r) eqn:E; [|done]. intros [= <-] Hd. by apply admission_within in Hd.
Qed.

(** The loading delay of [encode] stays within the budget. *)
Lemma loading_within c a r :
  (at_after a <= timeout c)%Q →
  within c a (Qmin (retry_after_or_default (get_retry_after r) MODEL_LOADING_DEFAULT_DELAY_S) (timeout c - at_after a)).
Proof.
  intros Hle. pose proof (or_default_nonneg r MODEL_LOADING_DEFAULT_DELAY_S). unfold within, MODEL_LOADING_DEFAULT_DELAY_S in *.
  assert (0 <= 5)%Q as H5 by lra. specialize (H H5). split; qminmax.
Qed.

Lemma encode_503_retry c a n r s d n' :
  lawful a → encode_503 c a n r = Some s → s = Retry d n' →
  (has_code r PROVISIONING = true ∧ wait_for_capacity c = true ∧ within c a d ∧ n' = n) ∨
  (has_code r LORA_LOADING = true ∧ (0 <= d)%Q ∧ n' = mkCounters (lora_retries n + 1) (oom_retries n) ∧
     lora_retries n + 1 <= LORA_LOADING_MAX_RETRIES) ∨
  (has_code r MODEL_LOADING = true ∧ within c a d ∧ n' = n) ∨
  (has_code r RESOURCE_EXHAUSTED = true ∧ within c a d ∧ n' = bump_oom n ∧ oom_retries n + 1 <= max_oom_retries c).
Proof.
  intros Ha. unfold encode_503.
  destruct (has_code r PROVISIONING); [|destruct (has_code r LORA_LOADING); [|destruct (has_code r MODEL_LOADING);
    [|destruct (has_code r RESOURCE_EXHAUSTED); [|done]]]]; intros [= <-].
  - intros [Hd ->]%of_delay_retry. left. by apply provisioning_within in Hd as [??].
  - cbn. destruct (LORA_LOADING_MAX_RETRIES <? lora_retries n + 1) eqn:E; [done|]. intros [= <- <-]. right. left.
    split; [done|]. split; [by apply or_default_nonneg|]. split; [done|lia].
  - destruct (qle _ _) eqn:E; [done|]. intros [= <- <-]. qcmp. right. right. left. split; [done|]. split; [|done].
    apply loading_within. lra.
  - intros [Hd ->]%of_delay_retry. do 3 right. by apply oom_within in Hd as [??].
Qed.

Lemma score_503_some c a n r s : score_503 c a n r = Some s → encode_503 c a n r = Some s.
Proof.
  unfold score_503, encode_503. destruct (has_code r PROVISIONING); [done|].
  destruct (has_code r LORA_LOADING) eqn:E; [|done]. by rewrite !(other_code _ _ _ E).
Qed.

(** The codes of backpressure are none of the ladder's. *)
Lemma backpressure_code r code :
  code ∉ BACKPRESSURE_503_ERROR_CODES → is_backpressure r = true → has_code r code = false.
Proof.
  intros Hn. unfold is_backpressure, has_code. destruct (get_error_code r) as [k|]; [|done].
  rewrite bool_decide_eq_true, bool_decide_eq_false. intros ? [= ->]. done.
Qed.

Lemma encode_rest_retry c a n r d n' :
  lawful a → encode_rest c a n r = Retry d n' →
  within c a d ∧ n' = n ∧ coded r RESOURCE_EXHAUSTED = false ∧ coded r LORA_LOADING = false ∧
  (status r =? 429) || ((status r =? 503) && is_backpressure r) || ((status r =? 504) && wait_for_capacity c) = true.
Proof.
  intros Ha. unfold encode_rest. destruct (admission_retry_delay c a r) as [x|] eqn:Ead.
  - intros [Hd ->]%of_delay_retry. destruct (admission_retry c a r x d Ha Ead Hd) as [Hw Hsig]. rewrite Hsig. split; [done|]. split; [done|].
    apply orb_true_iff in Hsig as [H|[H H']%andb_true_iff]; unfold coded.
    + apply Z.eqb_eq in H. by rewrite H.
    + rewrite H. cbn. by rewrite !backpressure_code by (done || by apply (bool_decide_unpack _); vm_compute).
  - destruct ((status r =? 504) && wait_for_capacity c) eqn:E5; cbn; [|by destruct (400 <=? status r)].
    destruct (qlt _ _) eqn:E; [|by destruct (400 <=? status r)]. intros [= <- <-]. qcmp.
    apply andb_true_iff in E5 as [E5 _]. apply Z.eqb_eq in E5. unfold coded. rewrite E5. cbn.
    split_and!; try done. apply loading_within. lra.
Qed.

Lemma idempotent_retry terminal ladder c n a d n' :
  (∀ r s, ladder r = Some s → encode_503 c a n r = Some s) →
  lawful a → idempotent_step terminal ladder c n a = Retry d n' → encode_retry c n a d n'.
Proof.
  intros Hladder Ha [Hs Hk]%guard_retry. assert (∀ (d : Q), within c a d → (0 <= d)%Q) as Hw by by intros ? [].
  destruct (outcome a) as [chain| |r hops] eqn:Eo.
  1,2: apply connect_error_retry in Hk as (Hb & Hd & ->); [|done];
    constructor; unfold retryable, is_oom, is_lora; rewrite ?Eo; auto; done.
  destruct (terminal r); [done|].
  assert (encode_rest c a n r = Retry d n' → encode_retry c n a d n') as Hfin.
  { intros (Hd & -> & H1 & H2 & Hsig)%encode_rest_retry; [|done].
    constructor; unfold retryable, is_oom, is_lora, count; rewrite ?Eo, ?H1, ?H2; auto; try done.
    apply orb_true_iff in Hsig as [->| ->]; by rewrite ?orb_true_r. }
  destruct (status r =? 503) eqn:E503; [|by apply Hfin].
  destruct (ladder r) as [s|] eqn:El; [|by apply Hfin]. apply Hladder in El.
  destruct (encode_503_retry c a n r s d n' Ha El Hk) as [(Hc & Hwait & Hd & ->)|[(Hc & Hd & -> & Hb)|[(Hc & Hd & ->)|(Hc & Hd & -> & Hb)]]];
    constructor; unfold retryable, is_oom, is_lora, coded, count; rewrite ?Eo, ?E503, ?Hc, ?Hwait; cbn; auto;
    rewrite ?(other_code _ _ RESOURCE_EXHAUSTED Hc), ?(other_code _ _ LORA_LOADING Hc) by done; cbn; auto; rewrite ?orb_true_r; done.
Qed.

Lemma idempotent_done terminal ladder c n a r :
  (∀ r s, ladder r = Some s → encode_503 c a n r = Some s) →
  idempotent_step terminal ladder c n a = Done r → status r < 400.
Proof.
  intros Hladder. unfold idempotent_step, guard. destruct (qle _ _); [done|].
  destruct (outcome a) as [chain| |r0 hops]; [unfold connect_error; by repeat case_match..|].
  destruct (terminal r0); [done|].
  destruct (if status r0 =? 503 then ladder r0 else None) as [s|] eqn:E.
  - intros ->. destruct (status r0 =? 503); [|done]. apply Hladder in E. revert E. unfold encode_503, of_delay. by repeat case_match.
  - unfold encode_rest, of_delay. destruct (admission_retry_delay c a r0) as [[]|]; try done.
    destruct (_ && _); [done|]. destruct (400 <=? status r0) eqn:E4; [done|]. intros [= <-]. lia.
Qed.

(** The loops of the three idempotent calls *)
Definition idempotent_steps (c : Call) : list (Counters → Attempt → Step) := [encode_step c; score_step c; extract_step c].

Lemma steps_retry c step n a d n' :
  step ∈ idempotent_steps c → lawful a → step n a = Retry d n' → encode_retry c n a d n'.
Proof.
  unfold idempotent_steps. rewrite !elem_of_cons, elem_of_nil. intros [->|[->|[->|[]]]]; apply idempotent_retry; auto; apply score_503_some.
Qed.

Lemma steps_done c step n a r : step ∈ idempotent_steps c → step n a = Done r → status r < 400.
Proof.
  unfold idempotent_steps. rewrite !elem_of_cons, elem_of_nil. intros [->|[->|[->|[]]]]; apply idempotent_done; auto; apply score_503_some.
Qed.

(** *** Calls *)

Fixpoint counted (p : Attempt → bool) (l : list (Attempt * Q)) : Z :=
  match l with [] => 0 | (a, _) :: l' => (if p a then 1 else 0) + counted p l' end.

Lemma ladder_run c step l n :
  step ∈ idempotent_steps c → Forall lawful l →
  oom_retries n <= Z.max 0 (max_oom_retries c) → lora_retries n <= LORA_LOADING_MAX_RETRIES →
  let '(slept, o) := run step n l in
  slept.*1 `prefix_of` l ∧
  Forall (λ x : Attempt * Q, let '(a, d) := x in
    (at_start a < timeout c)%Q ∧ retryable c a = true ∧ (0 <= d)%Q ∧ (is_lora a = false → within c a d)) slept ∧
  oom_retries n + counted is_oom slept <= Z.max 0 (max_oom_retries c) ∧
  lora_retries n + counted is_lora slept <= LORA_LOADING_MAX_RETRIES ∧
  (∀ r, o = Some (Ret r) → status r < 400).
Proof.
  intros Hstep Hl. revert n. induction Hl as [|a l Ha Hl IH]; intros n Ho Hr; cbn.
  { split_and!; try done; cbn; lia. }
  destruct (step n a) as [d n'|e|r] eqn:Es.
  - destruct (steps_retry c step n a d n' Hstep Ha Es) as [H1 H2 H3 H4 H5 H6 H7 H8]. unfold count in *.
    assert (oom_retries n' <= Z.max 0 (max_oom_retries c)) as Hn1 by (revert H5 H7; destruct (is_oom a); intros; [specialize (H7 eq_refl)|]; lia).
    assert (lora_retries n' <= LORA_LOADING_MAX_RETRIES) as Hn2 by (revert H6 H8; destruct (is_lora a); intros; [by apply H8|lia]).
    specialize (IH n' Hn1 Hn2). destruct (run step n' l) as [slept o]. cbn. destruct IH as (Hp & Hf & Hc1 & Hc2 & Hd).
    split_and!; [by apply prefix_cons|by constructor|revert H5; destruct (is_oom a); lia|revert H6; destruct (is_lora a); lia|done].
  - split_and!; [apply prefix_nil|constructor|cbn; lia|cbn; lia|done].
  - split_and!; [apply prefix_nil|constructor|cbn; lia|cbn; lia|]. intros r' [= <-]. by eapply steps_done.
Qed.

(** C30 — the retry ladder of an idempotent call.  Whatever the server, the network and the
    clock do, [encode], [score] and [extract] send again only after a signal that is safe to
    retry: a transport error or a gateway timeout for a caller that waits for capacity, an
    admission rejection (429, or 503 with a backpressure code), and the 503 codes of
    provisioning, loading and exhaustion; so a 402, a 403 or any other client error is never
    retried.  An attempt that another follows was sent while the budget lasted, every sleep
    but that of a loading LoRA ends within the budget, at most [max_oom_retries] retries
    follow an exhausted server and at most ten a loading LoRA, and an answer they return is
    no error. *)
Theorem idempotent_ladder c step l :
  step ∈ idempotent_steps c → Forall lawful l →
  let '(slept, o) := run step start_counters l in
  slept.*1 `prefix_of` l ∧
  Forall (λ x : Attempt * Q, let '(a, d) := x in
    (at_start a < timeout c)%Q ∧ retryable c a = true ∧ (0 <= d)%Q ∧ (is_lora a = false → within c a d)) slept ∧
  counted is_oom slept <= Z.max 0 (max_oom_retries c) ∧
  counted is_lora slept <= LORA_LOADING_MAX_RETRIES ∧
  (∀ r, o = Some (Ret r) → status r < 400).
Proof.
  intros Hstep Hl. pose proof (ladder_run c step l start_counters Hstep Hl) as H.
  destruct (run _ _ _) as [slept o]. apply H; [cbn; lia|done].
Qed.

(** *** The guard on the number of results *)

Lemma missing_result_ids_spec results submitted missing :
  missing_result_ids results submitted = Some missing →
  missing ≠ [] ∧ ∀ i, i ∈ missing ↔
    (∃ d, VDict d ∈ submitted ∧ get_val "id" d = VStr i) ∧ ∀ r, r ∈ results → get_val "id" r ≠ VStr i.
Proof.
  unfold missing_result_ids. destruct (mapM item_id_of submitted) as [ids|] eqn:E1; [|done].
  destruct (mapM as_str ids) as [sids|] eqn:E2; [|done]. destruct (mapM _ results) as [rids|] eqn:E3; [|done].
  apply mapM_Some in E1, E2, E3.
  assert (∀ i, i ∈ sids ↔ ∃ d, VDict d ∈ submitted ∧ get_val "id" d = VStr i) as Hsub.
  { intros i. split.
    - intros (k & Hk)%list_elem_of_lookup. destruct (Forall2_lookup_r _ _ _ _ _ E2 Hk) as (v & Hv & Hs).
      destruct (Forall2_lookup_r _ _ _ _ _ E1 Hv) as (it & Hit & Hd). destruct it as [| | | | | | |d]; try done. injection Hd as <-.
      exists d. split; [by eapply list_elem_of_lookup_2|]. by destruct (get_val "id" d); try done; injection Hs as ->.
    - intros (d & (k & Hk)%list_elem_of_lookup & Hd). destruct (Forall2_lookup_l _ _ _ _ _ E1 Hk) as (v & Hv & Hv'). injection Hv' as <-.
      destruct (Forall2_lookup_l _ _ _ _ _ E2 Hv) as (s & Hs & Hs'). rewrite Hd in Hs'. injection Hs' as <-. by eapply list_elem_of_lookup_2. }
  assert (∀ i, i ∈ rids ↔ ∃ r, r ∈ results ∧ get_val "id" r = VStr i) as Hret.
  { intros i. split.
    - intros (k & Hk)%list_elem_of_lookup. destruct (Forall2_lookup_r _ _ _ _ _ E3 Hk) as (r & Hr & Hi). exists r.
      split; [by eapply list_elem_of_lookup_2|]. by destruct (get_val "id" r); try done; injection Hi as ->.
    - intros (r & (k & Hk)%list_elem_of_lookup & Hi). destruct (Forall2_lookup_l _ _ _ _ _ E3 Hk) as (s & Hs & Hs').
      rewrite Hi in Hs'. injection Hs' as <-. by eapply list_elem_of_lookup_2. }
  destruct (filter (λ i, i ∉ rids) sids) as [|x l] eqn:Ef; [done|]. intros [= <-]. split; [done|]. intros i. rewrite <- Ef, list_elem_of_filter, Hsub, Hret.
  naive_solver.
Qed.
End client.

(** ** Concrete calls *)

(** A server that answers at once, its answer coded by the header *)
Definition ex_answer (status : Z) (ra : option Q) (code : string) : Response :=
  mkResponse status (ANumber ∘ Finite <$> ra) (Some code) (Raise tt) None.
Definition ex_ok : Response := mkResponse 200 None None (Ret (VDict [])) None.
Definition ex_at (t : Q) (o : Outcome) : Attempt := mkAttempt t t (λ _ high, high) o.
Definition ex_call (t : Q) : Call := mkCall t 30 true RESOURCE_EXHAUSTED_MAX_RETRIES.
Definition ex_lost : list Link := [OtherLink; OsErrorField 111].
Definition ex_errnos : list Z := [111; 104].

Lemma ex_at_lawful t o : lawful (ex_at t o).
Proof. intros x y H. cbn. split; lra. Qed.

(** A refused connection, an exhausted server, a loading LoRA, a success *)
Definition ex_ladder : list Attempt :=
  [ex_at 0 (ConnectError ex_lost); ex_at 5 (Answer (ex_answer 503 (Some 2%Q) RESOURCE_EXHAUSTED) []);
   ex_at 7 (Answer (ex_answer 503 None LORA_LOADING) []); ex_at 8 (Answer ex_ok [])].

Lemma ex_ladder_lawful : Forall lawful ex_ladder.
Proof. repeat first [apply Forall_nil_2 | apply Forall_cons_2; [apply ex_at_lawful|]]. Qed.

Lemma idempotent_ladder_witness :
  run (encode_step ex_errnos (ex_call 60)) start_counters ex_ladder =
    ([(ex_at 0 (ConnectError ex_lost), 5%Q); (ex_at 5 (Answer (ex_answer 503 (Some 2%Q) RESOURCE_EXHAUSTED) []), 2%Q);
      (ex_at 7 (Answer (ex_answer 503 None LORA_LOADING) []), 1%Q)], Some (Ret ex_ok)) ∧
  let '(slept, o) := run (encode_step ex_errnos (ex_call 60)) start_counters ex_ladder in
  slept.*1 `prefix_of` ex_ladder ∧
  Forall (λ x : Attempt * Q, let '(a, d) := x in
    (at_start a < timeout (ex_call 60))%Q ∧ retryable ex_errnos (ex_call 60) a = true ∧ (0 <= d)%Q ∧
    (is_lora a = false → within (ex_call 60) a d)) slept ∧
  counted is_oom slept <= Z.max 0 (max_oom_retries (ex_call 60)) ∧
  counted is_lora slept <= LORA_LOADING_MAX_RETRIES ∧
  (∀ r, o = Some (Ret r) → status r < 400).
Proof. split; [by vm_compute|]. exact (idempotent_ladder ex_errnos (ex_call 60) _ ex_ladder ltac:(apply elem_of_cons; by left) ex_ladder_lawful). Defined.

(** A server that is always loading the model, and a caller whose sleeps are exact *)
Definition ex_loading : Outcome := Answer (ex_answer 503 None MODEL_LOADING) [].
Definition ex_always_loading : list Attempt := [ex_at 0 ex_loading; ex_at 5 ex_loading; ex_at 10 ex_loading; ex_at 12 ex_loading].

(** The model never finishes loading, and the caller is told that no capacity could be
    provisioned: the last sleep of [encode] uses up the budget, and the next round's guard
    raises before the loading error can be. *)
Lemma model_loading_masked :
  run (encode_step ex_errnos (ex_call 12)) start_counters ex_always_loading =
    ([(ex_at 0 ex_loading, 5%Q); (ex_at 5 ex_loading, 5%Q); (ex_at 10 ex_loading, (12 - 10)%Q)], Some (Raise (ProvisioningError None))).
Proof. by vm_compute. Qed.

(** The sleep of a loading LoRA is the server's, whatever is left of the budget. *)
Lemma lora_sleep_unbounded :
  let a := ex_at 0 (Answer (ex_answer 503 (Some 3600%Q) LORA_LOADING) []) in
  encode_step ex_errnos (ex_call 60) start_counters a = Retry 3600 (mkCounters 1 0) ∧ ¬ within (ex_call 60) a 3600.
Proof. split; [by vm_compute|]. intros [_ H]. revert H. by vm_compute. Qed.


(** [score] and [extract] do not wait for a loading LoRA at all. *)
Lemma score_lora_fails :
  (run (score_step ex_errnos (ex_call 60)) start_counters [ex_at 0 (Answer (ex_answer 503 (Some 1%Q) LORA_LOADING) [])]).2 =
    Some (Raise (ServerError (VStr LORA_LOADING) (Some 503))).
Proof. by vm_compute. Qed.

End SdkRetry.
