(* ===== verification/SdkGenerate.v ===== *)
(** The generation calls of the Python SDK: [generate], the chat and Responses calls and the
    streams of [sie_sdk/client/sync.py], with the continuations of a gateway that answers
    303, the first-event rule of [_stream_sse_chunks] and the SSE parser of
    [sie_sdk/client/_sse.py].

    The loops follow the conventions of SdkRetry: a call is a function of its attempts.  A
    generation is not idempotent, so what matters here is when a call may send it again.
    [json.loads] of an event and [str] of an error field are parameters. *)

From Stdlib Require Import QArith Qminmax Lqa Ascii.
From stdpp Require Import strings.
From S2P Require Import Prelude PyFloat PyDict PyStr Handlers PyVal SdkRetry.
Import Handlers PyVal SdkRetry.
Local Open Scope Z_scope.

Module SdkGenerate.

(** ** Continuations *)

Definition MODAL_CONTINUATION_QUERY_PARAMETER : string := "__modal_attempt_token".

Definition bad_location_char (ch : ascii) : bool :=
  let n := nat_of_ascii ch in (n <? 32)%nat || (n =? 127)%nat.

(** [modal_continuation_path] *)
Definition modal_continuation_path (base_origin : option (string * string * Z)) (r : Response) : option string :=
  if negb (status r =? 303) then None
  else
    match location r with
    | None | Some (EmptyString, _) => None
    | Some (loc, url) =>
        if (8192 <? Z.of_nat (String.length loc)) || existsb bad_location_char (String.list_ascii_of_string loc) then None
        else
          match url, base_origin with
          | Some u, Some o =>
              if negb (bool_decide (u_origin u = Some o)) then None
              else
                let tokens := snd <$> filter (λ kv, kv.1 = MODAL_CONTINUATION_QUERY_PARAMETER) (u_pairs u) in
                match non_empty (Some (u_fragment u)), tokens with
                | None, [String _ _] =>
                    let path := match u_path u with EmptyString => "/"%string | p => p end in
                    Some (match u_query u with EmptyString => path | q => path +:+ "?" +:+ q end)
                | _, _ => None
                end
          | _, _ => None
          end
    end.


Section generation.
Context (TRANSIENT_CONNECT_ERRNOS : list Z) (base_origin : option (string * string * Z)).

(** [_follow_modal_continuations]: the final answer and the GETs made. A missing hop is
    one the transport lost. *)
Fixpoint follow (c : Call) (max : nat) (r : Response) (hops : list Hop) : res SdkError Response :=
  match modal_continuation_path base_origin r with
  | None => Ret r
  | Some _ =>
      match max with
      | O => Raise (ProvisioningError None)
      | S max =>
          match hops with
          | [] => Raise SIEConnectionError
          | h :: hops =>
              if qle (timeout c - at_get h) 0 then Raise (ProvisioningError None)
              else match h with HopError _ => Raise SIEConnectionError | HopAnswer _ r => follow c max r hops end
          end
      end
  end.

(** The 503 ladder of [generate] *)
Definition generate_503 (c : Call) (a : Attempt) (n : Counters) (r : Response) : option Step :=
  if has_code r PROVISIONING then Some (of_delay n (provisioning_retry_delay c a r))
  else if has_code r MODEL_LOADING then
    Some (if qle (timeout c) (at_after a) then Fail ModelLoadingError
          else
            let delay := retry_after_or_default (get_retry_after r) MODEL_LOADING_DEFAULT_DELAY_S in
            if qle (timeout c - at_after a) delay then Fail ModelLoadingError else Retry delay n)
  else if has_code r RESOURCE_EXHAUSTED then Some (of_delay (bump_oom n) (handle_oom_retry c a r (oom_retries n)))
  else None.

Definition code_val (r : Response) : pyval := match get_error_code r with Some s => VStr s | None => VNone end.

(** The loop of [SIEClient.generate] *)
Definition generate_step (c : Call) (n : Counters) (a : Attempt) : Step :=
  guard c a
    match outcome a with
    | ConnectError chain => connect_error c a n (wait_for_capacity c && is_transient_connect_error TRANSIENT_CONNECT_ERRNOS chain)
    | TransportError => Fail SIEConnectionError
    | Answer r0 hops =>
        match follow c MODAL_CONTINUATION_MAX_HOPS r0 hops with
        | Raise e => Fail e
        | Ret r =>
            match raise_if_model_load_failed r with
            | Some e => Fail e
            | None =>
                match (if status r =? 503 then generate_503 c a n r else None) with
                | Some s => s
                | None =>
                    match admission_retry_delay c a r with
                    | Some d => of_delay n d
                    | None =>
                        if status r =? 504 then Fail (ServerError (code_val r) (Some 504))
                        else if 400 <=? status r then Fail (handle_error r) else Done r
                    end
                end
            end
        end
    end.

(** [next_stream_retry_delay]: the sleep and the counter, or a terminal error *)
Definition next_stream_retry_delay (c : Call) (a : Attempt) (r : Response) (oom_retries : Z) : res SdkError (Q * Z) :=
  match raise_if_model_load_failed r with
  | Some e => Raise e
  | None =>
      match raise_if_input_too_long r with
      | Some e => Raise e
      | None =>
          if (status r =? 503) && has_code r PROVISIONING then
            match provisioning_retry_delay c a r with Ret d => Ret (d, oom_retries) | Raise e => Raise e end
          else if (status r =? 503) && has_code r MODEL_LOADING then
            if qle (timeout c) (at_after a) then Raise ModelLoadingError
            else Ret (Qmin (retry_after_or_default (get_retry_after r) MODEL_LOADING_DEFAULT_DELAY_S) (timeout c - at_after a), oom_retries)
          else if (status r =? 503) && has_code r RESOURCE_EXHAUSTED then
            if negb (wait_for_capacity c) || (max_oom_retries c <=? oom_retries) || qle (timeout c) (at_after a)
            then Raise (ResourceExhaustedError oom_retries)
            else Ret (Qmin (oom_backoff a r oom_retries) (timeout c - at_after a), oom_retries + 1)
          else if status r =? 504 then Raise (ServerError (code_val r) (Some 504))
          else if (300 <=? status r) && (status r <? 400) then Raise (RequestError VNone (Some (status r)))
          else if 400 <=? status r then Raise (handle_error r)
          else Raise (ServerError (code_val r) (Some (status r)))
      end
  end.

(** The loop of the chat and Responses calls *)
Definition chat_step (c : Call) (n : Counters) (a : Attempt) : Step :=
  guard c a
    match outcome a with
    | ConnectError chain => connect_error c a n (wait_for_capacity c && is_transient_connect_error TRANSIENT_CONNECT_ERRNOS chain)
    | TransportError => Fail SIEConnectionError
    | Answer r0 hops =>
        match follow c MODAL_CONTINUATION_MAX_HOPS r0 hops with
        | Raise e => Fail e
        | Ret r =>
            if status r =? 200 then Done r
            else match next_stream_retry_delay c a r (oom_retries n) with
                 | Raise e => Fail e
                 | Ret (d, k) => Retry d (mkCounters (lora_retries n) k)
                 end
        end
    end.

(** ** Streams *)

(** [str.startswith] and the rest *)
Fixpoint after_prefix (p s : string) : option string :=
  match p, s with
  | EmptyString, _ => Some s
  | String a p', String b s' => if bool_decide (a = b) then after_prefix p' s' else None
  | _, EmptyString => None
  end.

(** [_extract_data_payload] *)
Definition extract_data_payload (line : string) : option string :=
  match line with
  | EmptyString => None
  | String ":" _ => None
  | _ =>
      match after_prefix "data:" line with
      | None => None
      | Some value => Some (default value (after_prefix " " value))
      end
  end.

Definition SSE_DONE : string := "[DONE]".

(** [iter_sse_payloads], and whether it ended by itself, without waiting for what follows
    the lines *)
Fixpoint iter_sse_payloads (lines : list string) : list string * bool :=
  match lines with
  | [] => ([], false)
  | line :: rest =>
      match extract_data_payload line with
      | None => iter_sse_payloads rest
      | Some payload =>
          if bool_decide (payload = SSE_DONE) then ([], true)
          else let '(l, ended) := iter_sse_payloads rest in (payload :: l, ended)
      end
  end.

Section streams.
Context (loads : string → option pyval) (str_of : pyval → string).

(** [sse_chunk_error] *)
Definition or_text (v : pyval) (dflt : string) : string := if truthy v then str_of v else dflt.

Definition sse_chunk_error (chunk : pyval) : option (string * string) :=
  match chunk with
  | VDict d =>
      match get_val "error" d with
      | VDict err => Some (or_text (get_val "code" err) "error", or_text (get_val "message" err) "stream error")
      | _ => None
      end
  | _ => None
  end.

(** How the reading of a stream ends: it is over, its transport is lost, a payload is not
    JSON, or a payload carries an error *)
Inductive StreamEnd := Over | Lost | Malformed | ErrorChunk (code message : string).

(** The chunks before the end of a stream *)
Fixpoint consume (payloads : list string) (ending : StreamEnd) : list pyval * StreamEnd :=
  match payloads with
  | [] => ([], ending)
  | payload :: rest =>
      match loads payload with
      | None => ([], Malformed)
      | Some chunk =>
          match sse_chunk_error chunk with
          | Some (code, message) => ([], ErrorChunk code message)
          | None => let '(l, e) := consume rest ending in (chunk :: l, e)
          end
      end
  end.

(** The body of an answer with status 200: the lines that arrive, and whether the transport
    is lost after them *)
Record StreamAttempt := mkStream { attempt : Attempt; lines : list string; cut : bool }.

Definition read_stream (a : StreamAttempt) : list pyval * StreamEnd :=
  let '(payloads, ended) := iter_sse_payloads (lines a) in
  consume payloads (if ended then Over else if cut a then Lost else Over).

(** The response that [_stream_sse_chunks] makes of an error in the first event *)
Definition capacity_response (code message : string) : Response :=
  mkResponse 503 None None (Ret (VDict [("error", VDict [("code", VStr code); ("message", VStr message)])]))%string None.

Definition stream_retry (c : Call) (n : Counters) (a : Attempt) (r : Response) : Step :=
  match next_stream_retry_delay c a r (oom_retries n) with
  | Raise e => Fail e
  | Ret (d, k) => Retry d (mkCounters (lora_retries n) k)
  end.

(** A round of [_stream_sse_chunks]: the chunks it yields to the caller, and how it goes on *)
Definition stream_step (c : Call) (n : Counters) (a : StreamAttempt) : list pyval * Step :=
  let at_ := attempt a in
  if qle (timeout c - at_start at_) 0 then ([], Fail (ProvisioningError None))
  else
    match outcome at_ with
    | ConnectError chain =>
        ([], connect_error c at_ n (wait_for_capacity c && is_transient_connect_error TRANSIENT_CONNECT_ERRNOS chain))
    | TransportError => ([], Fail SIEConnectionError)
    | Answer r _ =>
        if negb (status r =? 200) then ([], stream_retry c n at_ r)
        else
          let '(chunks, ending) := read_stream a in
          (chunks,
           match ending with
           | Over => Done r
           | Lost => Fail SIEConnectionError
           | Malformed => Fail (RequestError VNone None)
           | ErrorChunk code message =>
               match chunks with
               | [] => stream_retry c n at_ (capacity_response code message)
               | _ => Fail (ServerError (VStr code) None)
               end
           end)
    end.

(** A stream call: the attempts that were followed by a sleep and a new request, the chunks
    its caller has been given, and how it ended *)
Fixpoint run_stream (c : Call) (n : Counters) (l : list StreamAttempt) :
    list (StreamAttempt * Q) * list pyval * option (res SdkError unit) :=
  match l with
  | [] => ([], [], None)
  | a :: l' =>
      let '(chunks, s) := stream_step c n a in
      match s with
      | Retry d n' => let '(slept, yielded, o) := run_stream c n' l' in ((a, d) :: slept, chunks ++ yielded, o)
      | Fail e => ([], chunks, Some (Raise e))
      | Done _ => ([], chunks, Some (Ret tt))
      end
  end.
End streams.

(** ** Generation *)

(** The answer of a generation call, after its continuations *)
Definition final_answer (c : Call) (a : Attempt) : option Response :=
  match outcome a with
  | Answer r0 hops => match follow c MODAL_CONTINUATION_MAX_HOPS r0 hops with Ret r => Some r | Raise _ => None end
  | _ => None
  end.

Definition gen_oom (c : Call) (a : Attempt) : bool :=
  match final_answer c a with Some r => coded r RESOURCE_EXHAUSTED | None => false end.

(** The signals that no generation has started: the connection was never made, or the
    request was turned away before its work was published *)
Definition pre_execution (c : Call) (a : Attempt) : bool :=
  match outcome a with
  | ConnectError chain => wait_for_capacity c && is_transient_connect_error TRANSIENT_CONNECT_ERRNOS chain
  | _ =>
      match final_answer c a with
      | Some r => (status r =? 429) || ((status r =? 503) && is_backpressure r) || coded r PROVISIONING ||
                  coded r MODEL_LOADING || coded r RESOURCE_EXHAUSTED
      | None => false
      end
  end.

Record generate_retry (c : Call) (n : Counters) (a : Attempt) (d : Q) (n' : Counters) : Prop := {
  gr_sent : (at_start a < timeout c)%Q;
  gr_signal : pre_execution c a = true;
  gr_delay : within c a d;
  gr_oom : oom_retries n' = count (gen_oom c a) (oom_retries n);
  gr_oom_bound : gen_oom c a = true → oom_retries n' <= max_oom_retries c;
}.

Lemma connect_generate_retry c n a chain d n' :
  lawful a → (at_start a < timeout c)%Q → outcome a = ConnectError chain →
  connect_error c a n (wait_for_capacity c && is_transient_connect_error TRANSIENT_CONNECT_ERRNOS chain) = Retry d n' → generate_retry c n a d n'.
Proof.
  intros Ha Hs Eo Hk. apply connect_error_retry in Hk as (Hb & Hd & ->); [|done].
  constructor; unfold pre_execution, gen_oom, final_answer; rewrite ?Eo; done.
Qed.

Lemma generate_503_retry c a n r s d n' :
  lawful a → generate_503 c a n r = Some s → s = Retry d n' →
  within c a d ∧
  ((n' = n ∧ (has_code r PROVISIONING = true ∨ has_code r MODEL_LOADING = true) ∧ has_code r RESOURCE_EXHAUSTED = false) ∨
   (n' = bump_oom n ∧ has_code r RESOURCE_EXHAUSTED = true ∧ oom_retries n + 1 <= max_oom_retries c)).
Proof.
  intros Ha. unfold generate_503. destruct (has_code r PROVISIONING) eqn:Ep.
  - intros [= <-] [Hd ->]%of_delay_retry. apply provisioning_within in Hd as [Hd _]; [|done]. split; [done|]. left.
    by rewrite (other_code _ _ RESOURCE_EXHAUSTED Ep); auto.
  - destruct (has_code r MODEL_LOADING) eqn:Em.
    + intros [= <-]. destruct (qle (timeout c) (at_after a)) eqn:E; [done|]. destruct (qle (timeout c - at_after a) _) eqn:E2; [done|]. intros [= <- <-]. qcmp. split.
      * pose proof (or_default_nonneg r MODEL_LOADING_DEFAULT_DELAY_S). unfold within, MODEL_LOADING_DEFAULT_DELAY_S in *.
        assert (0 <= 5)%Q as H5 by lra. specialize (H H5). split; lra.
      * left. by rewrite (other_code _ _ RESOURCE_EXHAUSTED Em); auto.
    + destruct (has_code r RESOURCE_EXHAUSTED) eqn:Er; [|done]. intros [= <-] [Hd ->]%of_delay_retry.
      apply oom_within in Hd as [Hd Hb]; [|done]. split; [done|]. by right.
Qed.

Lemma generate_step_retry c n a d n' : lawful a → generate_step c n a = Retry d n' → generate_retry c n a d n'.
Proof.
  intros Ha [Hs Hk]%guard_retry. destruct (outcome a) as [chain| |r0 hops] eqn:Eo; [by eapply connect_generate_retry|done|].
  destruct (follow c _ r0 hops) as [r|e] eqn:Ef; [|done]. assert (final_answer c a = Some r) as Hfin by (unfold final_answer; by rewrite Eo, Ef).
  destruct (raise_if_model_load_failed r); [done|].
  assert (∀ x, admission_retry_delay c a r = Some x → of_delay n x = Retry d n' → coded r RESOURCE_EXHAUSTED = false → generate_retry c n a d n') as Hadm.
  { intros x Hx [Hd ->]%of_delay_retry Hno. destruct (admission_retry c a r x d Ha Hx Hd) as [Hw Hsig].
    constructor; unfold pre_execution, gen_oom, count; rewrite ?Eo, ?Hfin, ?Hno; try done. by rewrite Hsig. }
  destruct (status r =? 503) eqn:E503.
  - destruct (generate_503 c a n r) as [s|] eqn:El.
    + destruct (generate_503_retry c a n r s d n' Ha El Hk) as (Hd & [(-> & Hc & Hno)|(-> & Hc & Hb)]);
        constructor; unfold pre_execution, gen_oom, count, coded; rewrite ?Eo, ?Hfin, ?E503, ?Hno, ?Hc; try done; cbn.
      * destruct Hc as [->| ->]; by rewrite ?orb_true_r.
      * by rewrite !orb_true_r.
    + assert (coded r RESOURCE_EXHAUSTED = false) as Hno.
      { unfold coded. rewrite E503. unfold generate_503 in El. revert El. by destruct (has_code r PROVISIONING), (has_code r MODEL_LOADING), (has_code r RESOURCE_EXHAUSTED). }
      destruct (admission_retry_delay c a r) as [x|]; [by eapply Hadm|]. by destruct (status r =? 504), (400 <=? status r).
  - destruct (admission_retry_delay c a r) as [x|]; [eapply Hadm; try done; unfold coded; by rewrite E503|]. by destruct (status r =? 504), (400 <=? status r).
Qed.

Lemma next_stream_retry c a r k d k' :
  lawful a → next_stream_retry_delay c a r k = Ret (d, k') →
  within c a d ∧ status r =? 503 = true ∧
  ((k' = k ∧ (has_code r PROVISIONING = true ∨ has_code r MODEL_LOADING = true) ∧ has_code r RESOURCE_EXHAUSTED = false) ∨
   (k' = k + 1 ∧ has_code r RESOURCE_EXHAUSTED = true ∧ k + 1 <= max_oom_retries c)).
Proof.
  intros Ha H. unfold next_stream_retry_delay in H. destruct (raise_if_model_load_failed r); [done|].
  destruct (raise_if_input_too_long r); [done|]. destruct (status r =? 503) eqn:E503; cbn in H.
  2:{ revert H. by destruct (status r =? 504), ((300 <=? status r) && (status r <? 400)), (400 <=? status r). }
  destruct (has_code r PROVISIONING) eqn:Ep; [|destruct (has_code r MODEL_LOADING) eqn:Em; [|destruct (has_code r RESOURCE_EXHAUSTED) eqn:Er]].
  - destruct (provisioning_retry_delay c a r) as [x|] eqn:E; [|done]. injection H as <- <-. apply provisioning_within in E as [? _]; [|done].
    rewrite (other_code _ _ RESOURCE_EXHAUSTED Ep) by done. split; [done|]. split; [done|]. left. auto.
  - destruct (qle _ _) eqn:E; [done|]. injection H as <- <-. qcmp. rewrite (other_code _ _ RESOURCE_EXHAUSTED Em) by done.
    split; [apply loading_within; lra|split; [done|left; auto]].
  - destruct (_ || _) eqn:E; [done|]. injection H as <- <-. apply orb_false_iff in E as [E E3]. apply orb_false_iff in E as [_ E]. qcmp.
    pose proof (oom_backoff_bounds a r k Ha). split; [unfold within; split; qminmax|]. split; [done|]. right. split; [done|]. split; [done|lia].
  - revert H. by destruct (status r =? 504), ((300 <=? status r) && (status r <? 400)), (400 <=? status r).
Qed.

Lemma chat_step_retry c n a d n' : lawful a → chat_step c n a = Retry d n' → generate_retry c n a d n'.
Proof.
  intros Ha [Hs Hk]%guard_retry. destruct (outcome a) as [chain| |r0 hops] eqn:Eo; [by eapply connect_generate_retry|done|].
  destruct (follow c _ r0 hops) as [r|e] eqn:Ef; [|done]. assert (final_answer c a = Some r) as Hfin by (unfold final_answer; by rewrite Eo, Ef).
  destruct (status r =? 200); [done|]. destruct (next_stream_retry_delay c a r (oom_retries n)) as [[x k]|] eqn:En; [|done]. injection Hk as -> <-.
  destruct (next_stream_retry c a r (oom_retries n) d k Ha En) as (Hd & E503 & [(-> & Hc & Hno)|(-> & Hc & Hb)]);
    constructor; unfold pre_execution, gen_oom, count, coded; rewrite ?Eo, ?Hfin, ?E503, ?Hno, ?Hc; try done; cbn.
  - destruct Hc as [->| ->]; by rewrite ?orb_true_r.
  - by rewrite !orb_true_r.
Qed.

(** C13 — a generation is never sent twice.  In every call of [generate], and of the chat and
    Responses methods, a request is sent again only after an attempt that cannot have started
    a generation: the connection was never made, or the answer (also one fetched through
    continuations) turned the request away before its work was published.  After a
    transport error in mid-flight, a gateway timeout, an unreadable continuation or any other
    answer the call ends, so that one call never pays for two generations.  Requests are sent
    only while the budget lasts, every sleep ends within it, and at most [max_oom_retries]
    retries follow an exhausted server. *)
Theorem generation_sent_once c step l :
  step = generate_step c ∨ step = chat_step c →
  Forall lawful l →
  let '(slept, o) := run step start_counters l in
  slept.*1 `prefix_of` l ∧
  Forall (λ x : Attempt * Q, let '(a, d) := x in
    (at_start a < timeout c)%Q ∧ pre_execution c a = true ∧ within c a d) slept ∧
  counted (gen_oom c) slept <= Z.max 0 (max_oom_retries c).
Proof.
  intros Hstep Hl. assert (∀ n a d n', lawful a → step n a = Retry d n' → generate_retry c n a d n') as Hretry.
  { destruct Hstep as [->| ->]; [apply generate_step_retry|apply chat_step_retry]. }
  assert (∀ n, oom_retries n <= Z.max 0 (max_oom_retries c) →
    let '(slept, o) := run step n l in
    slept.*1 `prefix_of` l ∧
    Forall (λ x : Attempt * Q, let '(a, d) := x in
      (at_start a < timeout c)%Q ∧ pre_execution c a = true ∧ within c a d) slept ∧
    oom_retries n + counted (gen_oom c) slept <= Z.max 0 (max_oom_retries c)) as H.
  2:{ specialize (H start_counters). destruct (run _ _ _) as [slept o]. apply H. cbn. lia. }
  induction Hl as [|a l Ha Hl IH]; intros n Ho; cbn; [split_and!; [apply prefix_nil|constructor|cbn; lia]|].
  destruct (step n a) as [d n'|e|r] eqn:Es; [|split_and!; [apply prefix_nil|constructor|cbn; lia]..].
  destruct (Hretry n a d n' Ha Es) as [H1 H2 H3 H4 H5]. unfold count in *.
  assert (oom_retries n' <= Z.max 0 (max_oom_retries c)) as Hn by (revert H4 H5; destruct (gen_oom c a); intros; [specialize (H5 eq_refl)|]; lia).
  specialize (IH n' Hn). destruct (run step n' l) as [slept o]. cbn. destruct IH as (Hp & Hf & Hc).
  split_and!; [by apply prefix_cons|by constructor|revert H4; destruct (gen_oom c a); lia].
Qed.

(** ** Streams *)

Section stream_calls.
Context (loads : string → option pyval) (str_of : pyval → string).

(** The chunks an attempt has for the caller *)
Definition chunks_of (c : Call) (a : StreamAttempt) : list pyval := (stream_step loads str_of c start_counters a).1.

(** The refusal in the answer of an attempt: an answer other than 200, or an error in the
    very first event of the stream *)
Definition refusal (a : StreamAttempt) : option Response :=
  match outcome (attempt a) with
  | Answer r _ =>
      if negb (status r =? 200) then Some r
      else match read_stream loads str_of a with
           | ([], ErrorChunk code message) => Some (capacity_response code message)
           | _ => None
           end
  | _ => None
  end.

Definition stream_oom (a : StreamAttempt) : bool :=
  match refusal a with Some r => coded r RESOURCE_EXHAUSTED | None => false end.

(** The signals after which a stream is asked for again *)
Definition stream_refused (c : Call) (a : StreamAttempt) : bool :=
  match outcome (attempt a) with
  | ConnectError chain => wait_for_capacity c && is_transient_connect_error TRANSIENT_CONNECT_ERRNOS chain
  | _ =>
      match refusal a with
      | Some r => coded r PROVISIONING || coded r MODEL_LOADING || coded r RESOURCE_EXHAUSTED
      | None => false
      end
  end.

Lemma stream_step_chunks c n a : (stream_step loads str_of c n a).1 = chunks_of c a.
Proof.
  unfold chunks_of, stream_step. destruct (qle _ _); [done|]. destruct (outcome (attempt a)) as [| |r h]; [done..|].
  destruct (negb _); [done|]. by destruct (read_stream _ _ a) as [chunks []].
Qed.

Record stream_retried (c : Call) (n : Counters) (a : StreamAttempt) (chunks : list pyval) (d : Q) (n' : Counters) : Prop := {
  st_silent : chunks = [];
  st_sent : (at_start (attempt a) < timeout c)%Q;
  st_signal : stream_refused c a = true;
  st_delay : within c (attempt a) d;
  st_oom : oom_retries n' = count (stream_oom a) (oom_retries n);
  st_oom_bound : stream_oom a = true → oom_retries n' <= max_oom_retries c;
}.

Lemma refused_retry c n a r chunks d n' :
  lawful (attempt a) → chunks = [] → (at_start (attempt a) < timeout c)%Q → (∃ h, outcome (attempt a) = Answer r h) →
  ∀ r', refusal a = Some r' → stream_retry c n (attempt a) r' = Retry d n' → stream_retried c n a chunks d n'.
Proof.
  intros Ha Hch Hs [h Eo] r' Href. unfold stream_retry.
  destruct (next_stream_retry_delay c (attempt a) r' (oom_retries n)) as [[x k]|] eqn:En; [|done]. intros [= -> <-].
  destruct (next_stream_retry c (attempt a) r' (oom_retries n) d k Ha En) as (Hd & E503 & [(-> & Hc & Hno)|(-> & Hc & Hb)]);
    constructor; unfold stream_refused, stream_oom, count, coded; rewrite ?Eo, ?Href, ?E503, ?Hno, ?Hc; try done; cbn.
  - destruct Hc as [->| ->]; by rewrite ?orb_true_r.
  - by rewrite !orb_true_r.
Qed.

Lemma stream_step_retry c n a chunks d n' :
  lawful (attempt a) → stream_step loads str_of c n a = (chunks, Retry d n') → stream_retried c n a chunks d n'.
Proof.
  intros Ha. unfold stream_step. destruct (qle _ _) eqn:Hs; [done|]. assert (at_start (attempt a) < timeout c)%Q as Ht by (qcmp; lra).
  destruct (outcome (attempt a)) as [chain| |r h] eqn:Eo; [|done|].
  - intros [= <- (Hb & Hd & ->)%connect_error_retry]; [|done].
    constructor; unfold stream_refused, stream_oom, refusal; rewrite ?Eo; done.
  - destruct (negb (status r =? 200)) eqn:E200.
    + intros [= <- Hk]. eapply refused_retry; eauto. unfold refusal. by rewrite Eo, E200.
    + destruct (read_stream loads str_of a) as [cs []] eqn:Er; try done. destruct cs as [|x cs]; [|done].
      intros [= <- Hk]. eapply refused_retry; eauto. unfold refusal. by rewrite Eo, E200, Er.
Qed.

Fixpoint streams_counted (p : StreamAttempt → bool) (l : list (StreamAttempt * Q)) : Z :=
  match l with [] => 0 | (a, _) :: l' => (if p a then 1 else 0) + streams_counted p l' end.

Lemma stream_run c l n :
  Forall lawful (attempt <$> l) → oom_retries n <= Z.max 0 (max_oom_retries c) →
  let '(slept, yielded, o) := run_stream loads str_of c n l in
  slept.*1 `prefix_of` l ∧
  Forall (λ x : StreamAttempt * Q, let '(a, d) := x in
    chunks_of c a = [] ∧ (at_start (attempt a) < timeout c)%Q ∧ stream_refused c a = true ∧ within c (attempt a) d) slept ∧
  yielded = match l !! length slept with Some a => chunks_of c a | None => [] end ∧
  oom_retries n + streams_counted stream_oom slept <= Z.max 0 (max_oom_retries c).
Proof.
  revert n. induction l as [|a l IH]; intros n Hl Ho; cbn; [split_and!; [apply prefix_nil|constructor|done|cbn; lia]|].
  apply Forall_cons in Hl as [Ha Hl]. pose proof (stream_step_chunks c n a) as Hch.
  destruct (stream_step loads str_of c n a) as [chunks [d n'|e|r]] eqn:Es; cbn in Hch;
    [|split_and!; [apply prefix_nil|constructor|done|cbn; lia]..].
  destruct (stream_step_retry c n a chunks d n' Ha Es) as [H1 H2 H3 H4 H5 H6]. unfold count in *.
  assert (oom_retries n' <= Z.max 0 (max_oom_retries c)) as Hn by (revert H5 H6; destruct (stream_oom a); intros; [specialize (H6 eq_refl)|]; lia).
  specialize (IH n' Hl Hn). destruct (run_stream loads str_of c n' l) as [[slept yielded] o]. cbn. destruct IH as (Hp & Hf & Hy & Hc).
  subst chunks. split_and!; [by apply prefix_cons|by constructor|by rewrite H1|revert H5; destruct (stream_oom a); lia].
Qed.

(** C27 — a stream is asked for again only in silence.  In every streamed chat or generation, a
    request is sent again only after an attempt that gave the caller no chunk: the connection
    was never made, or the gateway refused with provisioning, loading or exhaustion, by its
    status or by an error in the very first event.  So the chunks the caller has read are
    exactly those of the one attempt that ended the call, in order: nothing is repeated, and
    no chunk of a failed attempt is in front of them.  Requests are sent and sleeps end
    within the budget, and the retries of an exhausted server are bounded. *)
Theorem stream_restarts_in_silence c l :
  Forall lawful (attempt <$> l) →
  let '(slept, yielded, o) := run_stream loads str_of c start_counters l in
  slept.*1 `prefix_of` l ∧
  Forall (λ x : StreamAttempt * Q, let '(a, d) := x in
    chunks_of c a = [] ∧ (at_start (attempt a) < timeout c)%Q ∧ stream_refused c a = true ∧ within c (attempt a) d) slept ∧
  yielded = match l !! length slept with Some a => chunks_of c a | None => [] end ∧
  streams_counted stream_oom slept <= Z.max 0 (max_oom_retries c).
Proof.
  intros Hl. pose proof (stream_run c l start_counters Hl) as H.
  destruct (run_stream _ _ _ _ _) as [[slept yielded] o]. apply H. cbn. lia.
Qed.
End stream_calls.

(** ** Ends *)

Lemma guard_spent c a k : (timeout c <= at_start a)%Q → guard c a k = Fail (ProvisioningError None).
Proof. intros H. unfold guard. destruct (qle _ _) eqn:E; [done|]. qcmp. lra. Qed.

Lemma stream_spent loads str_of c n a :
  (timeout c <= at_start (attempt a))%Q → stream_step loads str_of c n a = ([], Fail (ProvisioningError None)).
Proof. intros H. unfold stream_step. destruct (qle _ _) eqn:E; [done|]. qcmp. lra. Qed.

(** A loop whose last attempt starts with the budget spent *)
Lemma run_spent step c n l z :
  (∀ n a, (timeout c <= at_start a)%Q → step n a = Fail (ProvisioningError None)) → (timeout c <= at_start z)%Q →
  ∃ slept o, run step n (l ++ [z]) = (slept, Some o) ∧ (length slept <= length l)%nat ∧
    Forall (λ x : Attempt * Q, (at_start x.1 < timeout c)%Q) slept.
Proof.
  intros Hspent Hz. revert n. induction l as [|a l IH]; intros n; cbn.
  - rewrite Hspent by done. eexists _, _. split; [done|]. split; [cbn; lia|constructor].
  - destruct (step n a) as [d n'|e|r] eqn:E; [|eexists _, _; split; [done|]; split; [cbn; lia|constructor]..].
    destruct (IH n') as (slept & o & -> & Hl & Hf). eexists _, _. split; [done|]. split; [cbn; lia|]. constructor; [|done]. cbn.
    destruct (Qlt_le_dec (at_start a) (timeout c)) as [?|Hle]; [done|]. by rewrite Hspent in E.
Qed.

Lemma run_stream_spent loads str_of c n l z :
  (timeout c <= at_start (attempt z))%Q →
  ∃ slept yielded o, run_stream loads str_of c n (l ++ [z]) = (slept, yielded, Some o) ∧ (length slept <= length l)%nat ∧
    Forall (λ x : StreamAttempt * Q, (at_start (attempt x.1) < timeout c)%Q) slept.
Proof.
  intros Hz. revert n. induction l as [|a l IH]; intros n; cbn.
  - rewrite stream_spent by done. eexists _, _, _. split; [done|]. split; [cbn; lia|constructor].
  - destruct (stream_step loads str_of c n a) as [chunks [d n'|e|r]] eqn:E;
      [|eexists _, _, _; split; [done|]; split; [cbn; lia|constructor]..].
    destruct (IH n') as (slept & yielded & o & -> & Hl & Hf). eexists _, _, _. split; [done|]. split; [cbn; lia|]. constructor; [|done]. cbn.
    destruct (Qlt_le_dec (at_start (attempt a)) (timeout c)) as [?|Hle]; [done|]. by rewrite stream_spent in E.
Qed.

(** The round whose start is past the budget *)
Lemma last_spent {A} (start : A → Q) (l : list A) (t δ : Q) :
  (∀ k a, l !! k = Some a → (inject_Z (Z.of_nat k) * δ <= start a)%Q) → l ≠ [] →
  (t <= inject_Z (Z.of_nat (length l) - 1) * δ)%Q → ∃ l' z, l = l' ++ [z] ∧ (t <= start z)%Q.
Proof.
  intros Ht Hne Hlen. destruct (last l) as [z|] eqn:Ez; [|by apply last_None in Ez]. apply last_Some in Ez as [l' ->].
  exists l', z. split; [done|]. rewrite length_app in Hlen. cbn [length] in Hlen.
  replace (Z.of_nat (length l' + 1) - 1) with (Z.of_nat (length l')) in Hlen by lia.
  eapply Qle_trans; [exact Hlen|]. apply Ht. by rewrite lookup_app_r, Nat.sub_diag by done.
Qed.

(** C38 — the retry loops end.  If every round of [encode], [score], [extract], [generate],
    [chat] or a stream takes at least [δ] of time, then the call ends after at most
    [timeout / δ] rounds and one more, with an answer or a typed error, whatever the server
    says; and every round that ends in a retry began within the budget.  What is bounded is
    the number of rounds and the start of those that are retried, not the time of the call,
    which also has the last answer to wait for, and for [encode] the sleep of a loading LoRA
    ([lora_sleep_unbounded]). *)
Theorem retry_loops_end c (δ : Q) :
  (∀ step l,
     step ∈ idempotent_steps TRANSIENT_CONNECT_ERRNOS c ++ [generate_step c; chat_step c] →
     (∀ k a, l !! k = Some a → (inject_Z (Z.of_nat k) * δ <= at_start a)%Q) →
     l ≠ [] → (timeout c <= inject_Z (Z.of_nat (length l) - 1) * δ)%Q →
     ∃ slept o, run step start_counters l = (slept, Some o) ∧ (length slept < length l)%nat ∧
       Forall (λ x : Attempt * Q, (at_start x.1 < timeout c)%Q) slept) ∧
  (∀ loads str_of l,
     (∀ k a, l !! k = Some a → (inject_Z (Z.of_nat k) * δ <= at_start (attempt a))%Q) →
     l ≠ [] → (timeout c <= inject_Z (Z.of_nat (length l) - 1) * δ)%Q →
     ∃ slept yielded o, run_stream loads str_of c start_counters l = (slept, yielded, Some o) ∧ (length slept < length l)%nat ∧
       Forall (λ x : StreamAttempt * Q, (at_start (attempt x.1) < timeout c)%Q) slept).
Proof.
  split.
  - intros step l Hstep Ht Hne Hlen. destruct (last_spent at_start l (timeout c) δ Ht Hne Hlen) as (l' & z & -> & Hz).
    destruct (run_spent step c start_counters l' z) as (slept & o & E & Hl & Hf); [|done|].
    + intros n a H. unfold idempotent_steps in Hstep. cbn [app] in Hstep. rewrite !elem_of_cons, elem_of_nil in Hstep.
      destruct Hstep as [->|[->|[->|[->|[->|[]]]]]]; by apply guard_spent.
    + exists slept, o. rewrite length_app. cbn [length]. split_and!; [done|lia|done].
  - intros loads str_of l Ht Hne Hlen.
    destruct (last_spent (λ a, at_start (attempt a)) l (timeout c) δ Ht Hne Hlen) as (l' & z & -> & Hz).
    destruct (run_stream_spent loads str_of c start_counters l' z Hz) as (slept & yielded & o & E & Hl & Hf).
    exists slept, yielded, o. rewrite length_app. cbn [length]. split_and!; [done|lia|done].
Qed.

End generation.

(** Generation: after a refused connection and an admission rejection, a transport error
    ends the call. *)
Definition ex_generation : list Attempt :=
  [ex_at 0 (ConnectError ex_lost); ex_at 5 (Answer (ex_answer 429 (Some 3%Q) "RATE_LIMIT") []);
   ex_at 8 TransportError; ex_at 9 (Answer ex_ok [])].

Lemma ex_generation_lawful : Forall lawful ex_generation.
Proof. repeat first [apply Forall_nil_2 | apply Forall_cons_2; [apply ex_at_lawful|]]. Qed.

Lemma generation_sent_once_witness :
  let step := generate_step ex_errnos None (ex_call 60) in
  run step start_counters ex_generation =
    ([(ex_at 0 (ConnectError ex_lost), 5%Q); (ex_at 5 (Answer (ex_answer 429 (Some 3%Q) "RATE_LIMIT") []), 3%Q)],
     Some (Raise SIEConnectionError)) ∧
  let '(slept, o) := run step start_counters ex_generation in
  slept.*1 `prefix_of` ex_generation ∧
  Forall (λ x : Attempt * Q, let '(a, d) := x in
    (at_start a < timeout (ex_call 60))%Q ∧ pre_execution ex_errnos None (ex_call 60) a = true ∧ within (ex_call 60) a d) slept ∧
  counted (gen_oom None (ex_call 60)) slept <= Z.max 0 (max_oom_retries (ex_call 60)).
Proof.
  split; [by vm_compute|].
  exact (generation_sent_once ex_errnos None (ex_call 60) _ ex_generation (or_introl eq_refl) ex_generation_lawful).
Defined.

Lemma retry_loops_end_witness :
  ∃ slept o, run (encode_step ex_errnos (ex_call 12)) start_counters ex_always_loading = (slept, Some o) ∧
             (length slept < length ex_always_loading)%nat.
Proof.
  destruct (retry_loops_end ex_errnos None (ex_call 12) 4) as [H _].
  destruct (H (encode_step ex_errnos (ex_call 12)) ex_always_loading) as (slept & o & E & Hl & _).
  - apply elem_of_cons. by left.
  - intros k a Hk. do 4 (destruct k as [|k]; [injection Hk as <-; by vm_compute|]). done.
  - done.
  - by vm_compute.
  - exists slept, o. exact (conj E Hl).
Defined.

(** [generate] gives up before such a sleep. *)
Lemma generate_model_loading :
  (run (generate_step ex_errnos None (ex_call 12)) start_counters ex_always_loading).2 = Some (Raise ModelLoadingError).
Proof. by vm_compute. Qed.

(** A stream: a first event that says the model is loading, then two chunks and a lost
    connection *)
Definition ex_loads (payload : string) : option pyval :=
  if bool_decide (payload = "loading"%string) then Some (VDict [("error", VDict [("code", VStr MODEL_LOADING)])])%string
  else Some (VStr payload).

Definition ex_str (v : pyval) : string := match v with VStr s => s | _ => EmptyString end.

Definition ex_streams : list StreamAttempt :=
  [mkStream (ex_at 0 (Answer ex_ok [])) [": ping"; "data: loading"; ""]%string false;
   mkStream (ex_at 5 (Answer ex_ok [])) ["data: Hel"; ""; "data:lo"]%string true;
   mkStream (ex_at 6 (Answer ex_ok [])) ["data: Hel"; "data: [DONE]"]%string false].

Lemma ex_streams_lawful : Forall lawful (attempt <$> ex_streams).
Proof. repeat first [apply Forall_nil_2 | apply Forall_cons_2; [apply ex_at_lawful|]]. Qed.

Lemma stream_restarts_in_silence_witness :
  (run_stream ex_errnos ex_loads ex_str (ex_call 60) start_counters ex_streams).1.2 = [VStr "Hel"; VStr "lo"]%string ∧
  (run_stream ex_errnos ex_loads ex_str (ex_call 60) start_counters ex_streams).2 = Some (Raise SIEConnectionError) ∧
  let '(slept, yielded, o) := run_stream ex_errnos ex_loads ex_str (ex_call 60) start_counters ex_streams in
  slept.*1 `prefix_of` ex_streams ∧
  Forall (λ x : StreamAttempt * Q, let '(a, d) := x in
    chunks_of ex_errnos ex_loads ex_str (ex_call 60) a = [] ∧ (at_start (attempt a) < timeout (ex_call 60))%Q ∧
    stream_refused ex_errnos ex_loads ex_str (ex_call 60) a = true ∧ within (ex_call 60) (attempt a) d) slept ∧
  yielded = match ex_streams !! length slept with Some a => chunks_of ex_errnos ex_loads ex_str (ex_call 60) a | None => [] end ∧
  streams_counted (stream_oom ex_loads ex_str) slept <= Z.max 0 (max_oom_retries (ex_call 60)).
Proof.
  split; [by vm_compute|]. split; [by vm_compute|].
  exact (stream_restarts_in_silence ex_errnos ex_loads ex_str (ex_call 60) ex_streams ex_streams_lawful).
Defined.

End SdkGenerate.
