(* ===== verification/ConfigProfiles.v ===== *)
(** Profiles as the configuration service reads them: the functions on raw documents at the
    top of [sie_config/model_registry.py] (paths of the service are relative to
    [src/packages/sie_config/src]), and the resolution the worker's hash is made of
    ([api/ws.py] of the server).

    A document is what [yaml.safe_load] returns, with string keys.  Sets of adapter modules
    are [gset]s; what becomes a message is kept in the error. *)

From Stdlib Require Import Ascii.
From stdpp Require Import strings.
From S2P Require Import Prelude PyFloat PyDict PyStr Handlers PyVal ModelConfig.
Import Handlers PyVal.
Local Open Scope Z_scope.
Local Open Scope py_scope.

Module ConfigProfiles.

(** The errors of the registry, named after what they report.  All are [ValueError]s but
    [TypeErr], which stands for the [TypeError] or [AttributeError] of an id that is not a
    string. *)
Inductive config_error :=
  | MissingSieId
  | PoolNotString
  | BadPoolName
  | MissingProfiles
  | ProfilesNotMapping
  | BadProfileName (name : string)
  | ProfileNotMapping (name : string)
  | MissingAdapterPath (name : string)
  | LoraUnknownKeys (profile served : string) (keys : list string)
  | LoraBadId (profile served : string) (id : pyval)
  | LoraMovingRevision (profile served : string) (revision : pyval)
  | LoraTwoRevisions (id seen revision profile : string)
  | LoraMappingInList (profile : string)
  | AdaptersUnknown (modules : list string)
  | PoolConflict (id : string)
  | ProfileConflict (id : string) (profiles : list string)
  | NoBundle (id : string) (existing : bool) (created : list string)
  | FallbackMismatch
  | TypeErr.

Definition cfg (A : Type) : Type := res config_error A.

Definition check (ok : bool) (e : config_error) : cfg unit := if ok then Ret tt else Raise e.

(** ** Hash fields *)

Definition PROFILE_HASH_FIELDS : list string :=
  ["adapter_path"; "max_batch_tokens"; "compute_precision"; "adapter_options"]%string.

(** [_is_hash_falsy] *)
Definition is_hash_falsy (value : pyval) : bool :=
  match value with
  | VNone => true
  | VBool b => negb b
  | VInt z => z =? 0
  | VFloat x => feq x f0
  | VStr s => (String.length s =? 0)%nat
  | VList l | VTuple l => (length l =? 0)%nat
  | VDict d => (length d =? 0)%nat
  end.

Definition empty_dict (v : pyval) : bool := match v with VDict [] => true | _ => false end.

(** [_canonical_adapter_options] *)
Definition canonical_adapter_options (adapter_options : pyval) : pyval :=
  match adapter_options with
  | VDict d =>
      let compact := filter (λ e, empty_dict e.2 = false) d in
      if bool_decide (compact = []) || forallb is_hash_falsy (dict_values compact) then VNone else VDict compact
  | _ => adapter_options
  end.

(** [_canonical_profile_dict] *)
Definition canonical_profile_dict (profile : dict) : dict :=
  (λ k, (k, if bool_decide (k = "adapter_options"%string) then canonical_adapter_options (get_val k profile)
            else get_val k profile)) <$> PROFILE_HASH_FIELDS.

(** [_merge_hash_adapter_options] *)
Definition merge_option (merged : dict) (entry : string * pyval) : dict :=
  let '(key, value) := entry in
  match value with
  | VDict d =>
      if bool_decide (key ∈ ["loadtime"; "runtime"]%string)
      then if bool_decide (d = []) then merged else dict_set key value merged
      else dict_set key value merged
  | _ => dict_set key value merged
  end.

Definition merge_hash_adapter_options (parent_options child_options : pyval) : pyval :=
  match child_options with
  | VDict child =>
      let merged := match parent_options with VDict d => dict_update [] d | _ => [] end in
      canonical_adapter_options (VDict (foldl merge_option merged child))
  | VNone => canonical_adapter_options parent_options
  | _ => canonical_adapter_options child_options
  end.

(** The name a profile extends: a string that is not empty. *)
Definition parent_of (profile : dict) : option string :=
  match get_val "extends" profile with
  | VStr s => if bool_decide (s = ""%string) then None else Some s
  | _ => None
  end.

Definition blank_resolved : dict :=
  [("adapter_path", VNone); ("max_batch_tokens", VNone); ("compute_precision", VNone); ("adapter_options", VNone)]%string.

Definition override_field (profile : dict) (resolved : dict) (key : string) : dict :=
  match get_val key profile with VNone => resolved | value => dict_set key value resolved end.

(** [_resolved_profile_hash_config] after the parent is resolved *)
Definition overlay_profile (resolved profile : dict) : dict :=
  let resolved := foldl (override_field profile) resolved ["adapter_path"; "max_batch_tokens"; "compute_precision"]%string in
  if dict_mem "adapter_options"%string profile
  then dict_set "adapter_options"%string
         (merge_hash_adapter_options (get_val "adapter_options" resolved) (get_val "adapter_options" profile)) resolved
  else dict_set "adapter_options"%string (canonical_adapter_options (get_val "adapter_options" resolved)) resolved.

(** [_resolved_profile_hash_config].  Out of fuel is the outer [None]. *)
Fixpoint resolve_hash_loop (fuel : nat) (profiles : dict) (profile_name : string) (seen : gset string) :
    option (option dict) :=
  match fuel with
  | O => None
  | S fuel =>
      if decide (profile_name ∈ seen) then Some None
      else
        match dict_get profile_name profiles with
        | Some (VDict profile) =>
            match parent_of profile with
            | Some parent_name =>
                match resolve_hash_loop fuel profiles parent_name ({[profile_name]} ∪ seen) with
                | None => None
                | Some None => Some None
                | Some (Some resolved) => Some (Some (overlay_profile resolved profile))
                end
            | None => Some (Some (overlay_profile blank_resolved profile))
            end
        | _ => Some None
        end
  end.

Definition resolved_profile_hash_config (profiles : dict) (profile_name : string) : option dict :=
  default None (resolve_hash_loop (S (length profiles)) profiles profile_name ∅).

(** ** Adapter paths *)

(** [s.split(":", maxsplit=1)[0]] *)
Definition before_colon (s : string) : string := (partition colon s).1.1.

(** [_adapter_module_from_path] *)
Definition adapter_module_from_path (adapter_path : option string) : option string :=
  match adapter_path with
  | None => None
  | Some path =>
      if bool_decide (path = ""%string) then None
      else let module_path := before_colon path in
           if bool_decide (module_path = ""%string) then None else Some module_path
  end.

(** A path a profile declares itself *)
Definition own_path (profile : dict) : option string :=
  match get_val "adapter_path" profile with
  | VStr s => if bool_decide (s = ""%string) then None else Some s
  | _ => None
  end.

(** The loop of [_effective_adapter_path] *)
Fixpoint effective_loop (fuel : nat) (profiles : dict) (current : option string) (seen : gset string) :
    option (option string) :=
  match fuel with
  | O => None
  | S fuel =>
      match current with
      | None => Some None
      | Some name =>
          if bool_decide (name = ""%string) then Some None
          else if decide (name ∈ seen) then Some None
          else
            match dict_get name profiles with
            | Some (VDict profile) =>
                match own_path profile with
                | Some path => Some (Some path)
                | None => effective_loop fuel profiles (parent_of profile) ({[name]} ∪ seen)
                end
            | _ => Some None
            end
      end
  end.

(** [_effective_adapter_path] *)
Definition effective_adapter_path (profiles : dict) (profile_name : string) : option string :=
  default None (effective_loop (S (S (length profiles))) profiles (Some profile_name) ∅).

Definition profile_module (profiles : dict) (profile_name : string) : option string :=
  adapter_module_from_path (effective_adapter_path profiles profile_name).

(** [_adapter_modules_for_profiles]; [None] selects all profiles. *)
Definition adapter_modules_for_profiles (profiles : dict) (profile_names : option (gset string)) : gset string :=
  let selected := match profile_names with Some s => elements s | None => dict_keys profiles end in
  list_to_set (omap (profile_module profiles) selected).

(** [{module_path} if module_path else set()] *)
Definition module_set (m : option string) : gset string := match m with Some m => {[m]} | None => ∅ end.

(** [_base_route_adapter_modules] *)
Definition base_route_adapter_modules (profiles : dict) : gset string :=
  if dict_mem "default"%string profiles then module_set (profile_module profiles "default") else ∅.

(** ** Bundles *)

Record BundleInfo := mkBundle {
  b_name : string;
  priority : Z;
  adapters : list string;
  is_default : bool;
  engine : string;
}.

Definition serves (modules : gset string) (b : BundleInfo) : bool :=
  existsb (λ a, bool_decide (a ∈ modules)) (adapters b).

(** The order of the pairs [(priority, name)] *)
Definition rank_leb (p q : Z * string) : bool :=
  (p.1 <? q.1) || ((p.1 =? q.1) && String.leb p.2 q.2).

(** [_matching_bundle_names] *)
Definition matching_bundle_names (adapter_modules : gset string) (bundles : list (string * BundleInfo)) : list string :=
  if decide (adapter_modules = ∅) then []
  else
    let matching := (λ b, (priority b, b_name b)) <$> filter (λ b, serves adapter_modules b = true) (dict_values bundles) in
    (stable_sort rank_leb matching).*2.

(** The adapters of all bundles, which several methods collect *)
Definition all_bundle_adapters (bundles : list (string * BundleInfo)) : gset string :=
  list_to_set (concat (adapters <$> dict_values bundles)).

Definition KNOWN_ENGINES : list string := ["pytorch"; "candle"]%string.
Definition DEFAULT_ENGINE : string := "pytorch".
Definition DEFAULT_MODEL_POOL : string := "default".
Definition ENGINE_ADAPTER_PREFIXES : list (string * list string) :=
  [("pytorch", ["sie_server.adapters."]); ("candle", ["sie_server_rust.adapters.candle"])]%string.

Definition starts_with_any (s : string) (prefixes : list string) : bool := existsb (λ p, String.prefix p s) prefixes.

(** [_adapter_mismatches_engine] *)
Definition adapter_mismatches_engine (adapter engine : string) : bool :=
  let expected := default [] (dict_get engine ENGINE_ADAPTER_PREFIXES) in
  if bool_decide (engine = DEFAULT_ENGINE) then
    starts_with_any adapter (concat (filter (λ e, e.1 ≠ engine) ENGINE_ADAPTER_PREFIXES).*2)
  else negb (bool_decide (expected = [])) && negb (starts_with_any adapter expected).

(** ** Pools *)

(** [_normalize_pool_name]: the configuration it leaves behind.  [str.isalnum] of an ASCII
    character; the value is lowered first. *)
Definition normalize_pool_name (config : dict) : cfg dict :=
  match dict_get "pool"%string config with
  | None => Ret config
  | Some VNone => Ret (dict_del "pool"%string config)
  | Some (VStr raw) =>
      let pool := lower (strip raw) in
      if bool_decide (pool = ""%string) then Ret (dict_del "pool"%string config)
      else if (128 <? Z.of_nat (String.length pool)) || bool_decide (pool = "_default"%string) ||
              negb (forallb ModelConfig.pool_char (String.list_ascii_of_string pool))
      then Raise BadPoolName
      else Ret (dict_set "pool"%string (VStr pool) config)
  | Some _ => Raise PoolNotString
  end.

(** [_model_pool_name] *)
Definition model_pool_name (full_config : dict) : string :=
  match get_val "pool" full_config with
  | VStr raw =>
      let pool := lower (strip raw) in
      if bool_decide (pool = ""%string) then DEFAULT_MODEL_POOL else pool
  | _ => DEFAULT_MODEL_POOL
  end.

(** ** Validation of profiles *)

(** [[A-Za-z0-9._-]] *)
Definition profile_char (c : ascii) : bool := ModelConfig.pool_char c || (nat_of_ascii c =? 46)%nat.

Definition valid_profile_name (name : string) : bool :=
  negb (bool_decide (name = ""%string)) && forallb profile_char (String.list_ascii_of_string name).

(** [_validate_profile_name] *)
Definition validate_profile_name (name : string) : cfg unit := check (valid_profile_name name) (BadProfileName name).

(** One entry of the dict form of [lora_paths]: [pinned] after it *)
Definition pin_entry (profile_name : string) (pinned : list (string * string)) (entry : string * pyval) :
    cfg (list (string * string)) :=
  let '(served, value) := entry in
  match value with
  | VDict d =>
      match ModelConfig.unsupported_keys d ["id"; "revision"]%string with
      | (_ :: _) as ks => Raise (LoraUnknownKeys profile_name served (sorted_strings ks))
      | [] =>
          match get_val "id" d with
          | VStr ref_id =>
              if bool_decide (ref_id = ""%string) then Raise (LoraBadId profile_name served (VStr ref_id))
              else
                match get_val "revision" d with
                | VNone => Ret pinned
                | VStr revision =>
                    if ModelConfig.is_immutable_revision (Some revision) then
                      match dict_get ref_id pinned with
                      | Some other =>
                          if bool_decide (other = revision) then Ret (dict_set ref_id revision pinned)
                          else Raise (LoraTwoRevisions ref_id other revision profile_name)
                      | None => Ret (dict_set ref_id revision pinned)
                      end
                    else Raise (LoraMovingRevision profile_name served (VStr revision))
                | v => Raise (LoraMovingRevision profile_name served v)
                end
          | v => Raise (LoraBadId profile_name served v)
          end
      end
  | _ => Ret pinned
  end.

(** [profile["adapter_options"]["loadtime"]["lora_paths"]], if it is there *)
Definition lora_paths_of (profile : pyval) : pyval :=
  match profile with
  | VDict p =>
      match get_val "adapter_options" p with
      | VDict options =>
          match get_val "loadtime" options with
          | VDict loadtime => get_val "lora_paths" loadtime
          | _ => VNone
          end
      | _ => VNone
      end
  | _ => VNone
  end.

Definition pin_profile (pinned : list (string * string)) (entry : string * pyval) : cfg (list (string * string)) :=
  let '(profile_name, profile) := entry in
  match lora_paths_of profile with
  | VDict paths => res_fold (pin_entry profile_name) pinned paths
  | VList l | VTuple l =>
      match res_iter (λ v, match v with VDict _ => Raise (LoraMappingInList profile_name) | _ => Ret tt end) l with
      | Ret _ => Ret pinned
      | Raise e => Raise e
      end
  | _ => Ret pinned
  end.

(** [_validate_profile_lora_pins] *)
Definition validate_profile_lora_pins (profiles : dict) : cfg unit :=
  match res_fold pin_profile [] profiles with Ret _ => Ret tt | Raise e => Raise e end.

(** ** The meaning of [extends]

    [declares profiles name path n]: going from [name] along [extends], the first profile that
    declares a path declares [path], and it is [n] steps away. *)
Inductive declares (profiles : dict) : string → string → nat → Prop :=
  | declares_own name profile path :
      name ≠ ""%string → dict_get name profiles = Some (VDict profile) → own_path profile = Some path →
      declares profiles name path 0
  | declares_parent name profile parent path n :
      name ≠ ""%string → dict_get name profiles = Some (VDict profile) → own_path profile = None →
      parent_of profile = Some parent → declares profiles parent path n → declares profiles name path (S n).

(** [resolves profiles name r n]: the chain of [extends] from [name] ends after [n] steps, and
    [r] is the overlay of its profiles. *)
Inductive resolves (profiles : dict) : string → dict → nat → Prop :=
  | resolves_root name profile :
      dict_get name profiles = Some (VDict profile) → parent_of profile = None →
      resolves profiles name (overlay_profile blank_resolved profile) 0
  | resolves_child name profile parent r n :
      dict_get name profiles = Some (VDict profile) → parent_of profile = Some parent →
      resolves profiles parent r n → resolves profiles name (overlay_profile r profile) (S n).

(** ** Lemmas *)

Lemma check_passes ok e u : check ok e = Ret u → ok = true.
Proof. by destruct ok. Qed.

Lemma is_hash_falsy_truthy v : is_hash_falsy v = negb (truthy v).
Proof.
  destruct v as [|[]| | |s|l|l|d]; try done; cbn; rewrite ?negb_involutive; try done.
  - by destruct s.
  - by destruct l.
  - by destruct l.
  - by destruct d.
Qed.

Lemma parent_of_nonempty profile parent : parent_of profile = Some parent → parent ≠ ""%string.
Proof. unfold parent_of. destruct (get_val _ _); try done. by case_bool_decide; intros [= <-]. Qed.

Lemma own_path_nonempty profile path : own_path profile = Some path → path ≠ ""%string.
Proof. unfold own_path. destruct (get_val _ _); try done. by case_bool_decide; intros [= <-]. Qed.

(** A name taken from the unseen keys leaves one fewer. *)
Lemma unseen_step (profiles : dict) name v (seen : gset string) :
  dict_get name profiles = Some v → name ∉ seen →
  (size (list_to_set (dict_keys profiles) ∖ ({[name]} ∪ seen)) < size (list_to_set (dict_keys profiles) ∖ seen))%nat.
Proof.
  intros Hn Hs. apply subset_size. assert (name ∈ dict_keys profiles) by (apply dict_get_is_Some; eauto). set_solver.
Qed.

Lemma unseen_bound (profiles : dict) : (size (list_to_set (C := gset string) (dict_keys profiles) ∖ ∅) <= length profiles)%nat.
Proof.
  rewrite difference_empty_L, <- (length_fmap fst). fold (dict_keys profiles).
  induction (dict_keys profiles) as [|k ks IH]; [done|]. cbn [list_to_set length].
  rewrite size_union_alt, size_singleton.
  pose proof (subseteq_size (list_to_set (C := gset string) ks ∖ {[k]}) (list_to_set ks)) as Hs.
  assert (list_to_set (C := gset string) ks ∖ {[k]} ⊆ list_to_set ks) as Hsub by set_solver. specialize (Hs Hsub). lia.
Qed.

Lemma effective_loop_total profiles fuel current seen :
  (S (size (list_to_set (dict_keys profiles) ∖ seen)) < fuel)%nat → is_Some (effective_loop fuel profiles current seen).
Proof.
  revert current seen. induction fuel as [|fuel IH]; intros current seen Hf; [lia|]. cbn.
  destruct current as [name|]; [|by eauto]. case_bool_decide; [by eauto|]. case_decide as Hs; [by eauto|].
  destruct (dict_get name profiles) as [[]|] eqn:E; eauto. destruct (own_path d); [by eauto|].
  apply IH. pose proof (unseen_step profiles name _ seen E Hs). lia.
Qed.

Lemma effective_loop_sound profiles fuel current seen path :
  effective_loop fuel profiles current seen = Some (Some path) →
  ∃ name n, current = Some name ∧ declares profiles name path n.
Proof.
  revert current seen. induction fuel as [|fuel IH]; intros current seen; [done|]. cbn.
  destruct current as [name|]; [|done]. case_bool_decide as Hne; [done|]. case_decide; [done|].
  destruct (dict_get name profiles) as [[]|] eqn:E; try done. destruct (own_path d) as [p|] eqn:Eo.
  - intros [= <-]. exists name, 0%nat. split; [done|]. by econstructor.
  - intros (parent & n & Hp & Hd)%IH. exists name, (S n). split; [done|]. by econstructor.
Qed.

Lemma declares_fun profiles name p n p' n' :
  declares profiles name p n → declares profiles name p' n' → p = p' ∧ n = n'.
Proof.
  intros H. revert p' n'. induction H; intros p' n'; inversion 1; simplify_eq; [done|].
  destruct (IHdeclares p' n0); [done|]. by subst.
Qed.

Lemma effective_loop_complete profiles fuel name path n seen :
  declares profiles name path n → (∀ s, s ∈ seen → ∃ m, declares profiles s path m ∧ (n < m)%nat) →
  is_Some (effective_loop fuel profiles (Some name) seen) →
  effective_loop fuel profiles (Some name) seen = Some (Some path).
Proof.
  revert fuel name seen. induction n as [|n IH]; intros fuel name seen Hd Hseen [r Hr];
    (destruct fuel as [|fuel]; [done|]); cbn in *;
    inversion Hd as [? profile ? Hne Hg Ho|? profile parent ? ? Hne Hg Ho Hp Hd']; simplify_eq;
    rewrite bool_decide_eq_false_2 in * by done; rewrite Hg, Ho in *;
    (destruct (decide (name ∈ seen)) as [(m & Hm & ?)%Hseen|Hs];
       [destruct (declares_fun _ _ _ _ _ _ Hd Hm); lia|]); [done|].
  rewrite Hp in *. apply (IH _ _ _ Hd'); [|by eauto].
  intros s [->%elem_of_singleton|(m & Hm & ?)%Hseen]%elem_of_union; [|exists m; split; [done|lia]].
  exists (S n). split; [done|lia].
Qed.

(** The walk with its cycle check finds the path that the chain of [extends] declares. *)
Lemma effective_adapter_path_declares profiles name path :
  effective_adapter_path profiles name = Some path ↔ ∃ n, declares profiles name path n.
Proof.
  unfold effective_adapter_path.
  assert (is_Some (effective_loop (S (S (length profiles))) profiles (Some name) ∅)) as Ht.
  { apply effective_loop_total. pose proof (unseen_bound profiles). lia. }
  split.
  - destruct Ht as [[p|] Hr]; rewrite Hr; [intros [= ->]|done].
    apply effective_loop_sound in Hr as (? & n & [= <-] & Hd). eauto.
  - intros (n & Hd). rewrite (effective_loop_complete _ _ _ path n); [done|done|set_solver|done].
Qed.

Lemma resolve_hash_total profiles fuel name seen :
  (size (list_to_set (dict_keys profiles) ∖ seen) < fuel)%nat → is_Some (resolve_hash_loop fuel profiles name seen).
Proof.
  revert name seen. induction fuel as [|fuel IH]; intros name seen Hf; [lia|]. cbn.
  case_decide as Hs; [by eauto|]. destruct (dict_get name profiles) as [[]|] eqn:E; eauto.
  destruct (parent_of d) as [parent|]; [|by eauto].
  destruct (IH parent ({[name]} ∪ seen)) as [[r|] ->]; eauto.
  pose proof (unseen_step profiles name _ seen E Hs). lia.
Qed.

Lemma resolve_hash_sound profiles fuel name seen r :
  resolve_hash_loop fuel profiles name seen = Some (Some r) → ∃ n, resolves profiles name r n.
Proof.
  revert name seen r. induction fuel as [|fuel IH]; intros name seen r; [done|]. cbn.
  case_decide; [done|]. destruct (dict_get name profiles) as [[]|] eqn:E; try done.
  destruct (parent_of d) as [parent|] eqn:Ep.
  - destruct (resolve_hash_loop fuel profiles parent _) as [[r'|]|] eqn:Er; try done. intros [= <-].
    apply IH in Er as [n Hn]. exists (S n). by econstructor.
  - intros [= <-]. exists 0%nat. by econstructor.
Qed.

Lemma resolves_fun profiles name r n r' n' :
  resolves profiles name r n → resolves profiles name r' n' → r = r' ∧ n = n'.
Proof.
  intros H. revert r' n'. induction H; intros r' n'; inversion 1; simplify_eq; [done|].
  match goal with Hr : resolves _ _ ?r ?n |- _ => destruct (IHresolves r n Hr) end. by subst.
Qed.

Lemma resolve_hash_complete profiles fuel name r n seen :
  resolves profiles name r n → (∀ s, s ∈ seen → ∃ r' m, resolves profiles s r' m ∧ (n < m)%nat) →
  is_Some (resolve_hash_loop fuel profiles name seen) →
  resolve_hash_loop fuel profiles name seen = Some (Some r).
Proof.
  revert fuel name r seen. induction n as [|n IH]; intros fuel name r seen Hr Hseen [o Ho];
    (destruct fuel as [|fuel]; [done|]); cbn in *;
    inversion Hr as [? profile Hg Hp|? profile parent r' ? Hg Hp Hr']; simplify_eq; rewrite Hg, Hp in *;
    (destruct (decide (name ∈ seen)) as [(? & m & Hm & ?)%Hseen|Hs];
       [destruct (resolves_fun _ _ _ _ _ _ Hr Hm); lia|]); [done|].
  rewrite (IH fuel parent r'); [done|done| |].
  - intros s [->%elem_of_singleton|(r2 & m & Hm & ?)%Hseen]%elem_of_union; [|exists r2, m; split; [done|lia]].
    exists (overlay_profile r' profile), (S n). split; [done|lia].
  - by destruct (resolve_hash_loop fuel profiles parent ({[name]} ∪ seen)); eauto.
Qed.

Lemma resolved_profile_resolves profiles name r :
  resolved_profile_hash_config profiles name = Some r ↔ ∃ n, resolves profiles name r n.
Proof.
  unfold resolved_profile_hash_config.
  assert (is_Some (resolve_hash_loop (S (length profiles)) profiles name ∅)) as Ht.
  { apply resolve_hash_total. pose proof (unseen_bound profiles). lia. }
  split.
  - destruct Ht as [[o|] Ho]; rewrite Ho; [intros [= ->]; by eapply resolve_hash_sound|done].
  - intros (n & Hr). rewrite (resolve_hash_complete _ _ _ r n); [done|done|set_solver|done].
Qed.
End ConfigProfiles.
