(* ===== verification/ConfigRegistry.v ===== *)
(** The registry of the configuration service: [ModelRegistry] of
    [sie_config/model_registry.py].

    The tables are dictionaries in insertion order.  Every method runs under one lock, so a
    method is a function of the registry; one that raises leaves the registry as it was (the
    writes build fresh tables and swap them at the end), which is why an error carries no
    state.  Ids are strings: the API refuses others before it calls the registry.  The SHA-256
    of a JSON text is the parameter [digest], applied to the value with its keys sorted. *)

From Stdlib Require Import Ascii.
From stdpp Require Import strings.
From S2P Require Import Prelude PyFloat PyDict PyStr Handlers PyVal ModelConfig ConfigProfiles.
Import Handlers PyVal ConfigProfiles.
Local Open Scope Z_scope.
Local Open Scope py_scope.

Module ConfigRegistry.

Record ModelInfo := mkInfo { mi_name : string; mi_bundles : list string }.

(** The fields of [ModelRegistry] *)
Record registry := mkRegistry {
  bundles : list (string * BundleInfo);
  models : list (string * ModelInfo);
  model_names_lower : list (string * string);
  variant_models : list (string * ModelInfo);
  variant_names_lower : list (string * string);
  variant_base_models : list (string * string);
  model_adapter_modules : list (string * gset string);
  model_profiles : list (string * gset string);
  model_profile_configs : list (string * list (string * dict));
  model_full_configs : list (string * dict);
  unrouteable_models : list (string * gset string);
  bundle_hash_cache : list (string * string);
}.

Definition variant_id (model profile : string) : string := model +:+ ":" +:+ profile.

Definition names_of (profiles : dict) : gset string := list_to_set (dict_keys profiles).

(** The [profiles] of a stored document *)
Definition profiles_in (full_config : dict) : dict :=
  match get_val "profiles" full_config with VDict d => d | _ => [] end.

Definition full_config_of (r : registry) (id : string) : dict := default [] (dict_get id (model_full_configs r)).

(** [list(dict.fromkeys(l))] *)
Definition from_keys (l : list string) : list string := dict_keys (foldl (λ d k, dict_set k tt d) [] l).

(** The tables of profile variants *)
Record variants := mkVariants {
  v_models : list (string * ModelInfo);
  v_lower : list (string * string);
  v_base : list (string * string);
}.

(** One turn of the loop over the sorted profile names *)
Definition put_variant (bs : list (string * BundleInfo)) (model : string) (profiles : dict) (v : variants)
    (profile_name : string) : variants :=
  if bool_decide (profile_name = "default"%string) then v
  else
    let name := variant_id model profile_name in
    let info := mkInfo name (matching_bundle_names (module_set (profile_module profiles profile_name)) bs) in
    mkVariants (dict_set name info (v_models v)) (dict_set (lower name) name (v_lower v)) (dict_set name model (v_base v)).

Definition put_variants (bs : list (string * BundleInfo)) (model : string) (profiles : dict) (names : gset string)
    (v : variants) : variants :=
  foldl (put_variant bs model profiles) v (sorted_strings (elements names)).

(** The variants that are not [model]'s *)
Definition drop_variants (r : registry) (model : string) : variants :=
  mkVariants
    (filter (λ e, dict_get e.1 (variant_base_models r) ≠ Some model) (variant_models r))
    (filter (λ e, dict_get e.2 (variant_base_models r) ≠ Some model) (variant_names_lower r))
    (filter (λ e, e.2 ≠ model) (variant_base_models r)).

(** The bundles the model's variants add to the affected ones *)
Definition variant_bundles (bs : list (string * BundleInfo)) (profiles : dict) (names : gset string) : list string :=
  concat ((λ p, matching_bundle_names (module_set (profile_module profiles p)) bs) <$>
          filter (λ p, p ≠ "default"%string) (sorted_strings (elements names))).

(** ** [reload] *)

Record bundle_doc := mkBundleDoc {
  stem : string;
  d_name : option string;
  d_priority : option Z;
  d_adapters : option (list string);
  d_default : option bool;
  d_engine : option string;
}.

(** One bundle file; [None] is a file that does not parse. *)
Definition load_bundle (bs : list (string * BundleInfo)) (doc : option bundle_doc) : list (string * BundleInfo) :=
  match doc with
  | None => bs
  | Some d =>
      let name := default (stem d) (d_name d) in
      let adapters := default [] (d_adapters d) in
      let engine := default DEFAULT_ENGINE (d_engine d) in
      if negb (bool_decide (engine ∈ KNOWN_ENGINES)) then bs
      else if existsb (λ a, adapter_mismatches_engine a engine) adapters then bs
      else dict_set name (mkBundle name (default 100 (d_priority d)) adapters (default false (d_default d)) engine) bs
  end.

(** [config.get("sie_id") or config.get("name")] *)
Definition raw_model_name (config : dict) : pyval :=
  let id := get_val "sie_id" config in if truthy id then id else get_val "name" config.

Section reload.
(** [str] of a value that is not a string *)
Variable repr : pyval → string.

(** One model file: the tables being built, with the modules of the base route. *)
Definition load_model (acc : registry * list (string * gset string)) (doc : option pyval) :
    registry * list (string * gset string) :=
  let '(r, route) := acc in
  match doc with
  | Some (VDict config) =>
      let raw := raw_model_name config in
      if negb (truthy raw) then acc
      else
        let name := ModelConfig.py_str repr raw in
        match default (VDict []) (dict_get "profiles"%string config) with
        | VDict profiles =>
            let names := names_of profiles in
            if negb (forallb (λ p, bool_decide (p = "default"%string) || valid_profile_name p) (dict_keys profiles)) then acc
            else
              let r1 := mkRegistry (bundles r) (dict_set name (mkInfo name []) (models r))
                          (dict_set (lower name) name (model_names_lower r))
                          (variant_models r) (variant_names_lower r) (variant_base_models r)
                          (dict_set name (adapter_modules_for_profiles profiles None) (model_adapter_modules r))
                          (dict_set name names (model_profiles r))
                          (model_profile_configs r) (model_full_configs r) (unrouteable_models r) (bundle_hash_cache r) in
              let route := dict_set name (base_route_adapter_modules profiles) route in
              match mapM (λ e : string * pyval, match e.2 with VDict p => Some (e.1, canonical_profile_dict p) | _ => None end) profiles with
              | None => (r1, route)
              | Some canonical =>
                  let v := put_variants (bundles r) name profiles names
                             (mkVariants (variant_models r) (variant_names_lower r) (variant_base_models r)) in
                  (mkRegistry (bundles r1) (models r1) (model_names_lower r1) (v_models v) (v_lower v) (v_base v)
                     (model_adapter_modules r1) (model_profiles r1)
                     (dict_set name canonical (model_profile_configs r1)) (dict_set name config (model_full_configs r1))
                     (unrouteable_models r1) (bundle_hash_cache r1), route)
              end
        | _ => acc
        end
  | _ => acc
  end.

(** The modules a model references that no bundle declares *)
Definition missing_modules (bs : list (string * BundleInfo)) (modules : gset string) : gset string :=
  modules ∖ all_bundle_adapters bs.

Definition empty_registry (bs : list (string * BundleInfo)) : registry := mkRegistry bs [] [] [] [] [] [] [] [] [] [] [].

(** [reload], on the files in the order [glob] lists them *)
Definition reload (bundle_docs : list (option bundle_doc)) (model_docs : list (option pyval)) : registry :=
  let bs := foldl load_bundle [] bundle_docs in
  let '(r, route) := foldl load_model (empty_registry bs, []) model_docs in
  let routed := (λ e, (e.1, mkInfo (mi_name e.2) (matching_bundle_names (default ∅ (dict_get e.1 route)) bs))) <$> models r in
  let missing := (λ e, (e.1, missing_modules bs (default ∅ (dict_get e.1 (model_adapter_modules r))))) <$> models r in
  mkRegistry bs routed (model_names_lower r) (variant_models r) (variant_names_lower r) (variant_base_models r)
    (model_adapter_modules r) (model_profiles r) (model_profile_configs r) (model_full_configs r)
    (filter (λ e, e.2 ≠ ∅) missing) [].
End reload.

(** ** Reading *)

Inductive route_error :=
  | ModelNotFound (model : string)
  | BundleConflict (model bundle : string) (compatible : list string).

(** The entry [resolve_bundle] finds for a name *)
Definition lookup_route (r : registry) (model : string) : option ModelInfo :=
  match dict_get (lower model) (model_names_lower r) with
  | Some canonical => dict_get canonical (models r)
  | None =>
      let by_variant := match dict_get (lower model) (variant_names_lower r) with
                        | Some v => dict_get v (variant_models r)
                        | None => None
                        end in
      match by_variant with
      | Some info => Some info
      | None => if dict_mem model (variant_models r) then dict_get model (variant_models r)
                else dict_get model (models r)
      end
  end.

(** [resolve_bundle] *)
Definition resolve_bundle (r : registry) (model : string) (bundle_override : option string) : res route_error string :=
  match lookup_route r model with
  | None => Raise (ModelNotFound model)
  | Some info =>
      match mi_bundles info with
      | [] => Raise (ModelNotFound model)
      | best :: _ =>
          match bundle_override with
          | Some b => if bool_decide (b ∈ mi_bundles info) then Ret b else Raise (BundleConflict model b (mi_bundles info))
          | None => Ret best
          end
      end
  end.

Definition nonempty_str (o : option string) : option string :=
  match o with Some s => if bool_decide (s = ""%string) then None else Some s | None => None end.

(** [get_model_info] *)
Definition get_model_info (r : registry) (model : string) : option ModelInfo :=
  match nonempty_str (dict_get (lower model) (model_names_lower r)) with
  | Some canonical => dict_get canonical (models r)
  | None =>
      match nonempty_str (dict_get (lower model) (variant_names_lower r)) with
      | Some v => dict_get v (variant_models r)
      | None => if dict_mem model (variant_models r) then dict_get model (variant_models r) else dict_get model (models r)
      end
  end.

(** [list_models] *)
Definition list_models (r : registry) : list string := sorted_strings (dict_keys (models r)).

(** [list_serving_models] *)
Definition list_serving_models (r : registry) : list string :=
  let serving (t : list (string * ModelInfo)) := (filter (λ e, mi_bundles e.2 ≠ []) t).*1 in
  sorted_strings (elements (list_to_set (C := gset string) (serving (models r) ++ serving (variant_models r)))).

(** [get_catalog_model_name] *)
Definition get_catalog_model_name (r : registry) (model_name : string) : string :=
  match dict_get (lower model_name) (variant_names_lower r) with
  | Some v => default v (dict_get v (variant_base_models r))
  | None =>
      if dict_mem model_name (variant_models r) then default model_name (dict_get model_name (variant_base_models r))
      else default model_name (nonempty_str (dict_get (lower model_name) (model_names_lower r)))
  end.

(** [get_model_profile_names] *)
Definition get_model_profile_names (r : registry) (model_name : string) : gset string :=
  match nonempty_str (dict_get (lower model_name) (variant_names_lower r)) with
  | Some _ => {["default"%string]}
  | None => if dict_mem model_name (variant_models r) then {["default"%string]}
            else default ∅ (dict_get model_name (model_profiles r))
  end.

(** [s.rsplit(":", maxsplit=1)[1]] of a variant's name *)
Fixpoint after_last_colon (s : string) : option string :=
  match s with
  | EmptyString => None
  | String a s' =>
      match after_last_colon s' with
      | Some t => Some t
      | None => if bool_decide (a = colon) then Some s' else None
      end
  end.

(** [get_route_profile_names]; the names of variants hold a colon, so [rsplit] splits them. *)
Definition get_route_profile_names (r : registry) (model_name : string) : gset string :=
  match dict_get (lower model_name) (variant_names_lower r) with
  | Some v => module_set (after_last_colon v)
  | None => if dict_mem model_name (variant_models r) then module_set (after_last_colon model_name)
            else get_model_profile_names r model_name
  end.

Definition canonical_name (r : registry) (model_name : string) : string :=
  default model_name (dict_get (lower model_name) (model_names_lower r)).

(** [get_model_profile_bundles] *)
Definition get_model_profile_bundles (r : registry) (model_name : string) (profile_names : option (gset string)) :
    list (string * list string) :=
  let canonical := canonical_name r model_name in
  let profiles := profiles_in (full_config_of r canonical) in
  let selected := default (default ∅ (dict_get canonical (model_profiles r))) profile_names in
  (λ p, (p, matching_bundle_names (module_set (profile_module profiles p)) (bundles r))) <$>
    filter (λ p, dict_mem p profiles = true) (sorted_strings (elements selected)).

(** [get_model_export_bundles] *)
Definition get_model_export_bundles (r : registry) (model_name : string) : list string :=
  let canonical := canonical_name r model_name in
  matching_bundle_names
    (adapter_modules_for_profiles (profiles_in (full_config_of r canonical))
       (Some (default ∅ (dict_get canonical (model_profiles r)))))
    (bundles r).

(** [get_model_pool_name] *)
Definition get_model_pool_name (r : registry) (model_name : string) : string :=
  model_pool_name (full_config_of r (canonical_name r model_name)).

(** [list_bundles] *)
Definition list_bundles (r : registry) : list string :=
  b_name <$> stable_sort (λ a b, priority a <=? priority b) (dict_values (bundles r)).

(** [get_models_for_bundle] *)
Definition get_models_for_bundle (r : registry) (bundle : string) : list string :=
  (filter (λ e, bundle ∈ mi_bundles e.2) (dict_update (models r) (variant_models r))).*1.

(** [model_exists] *)
Definition model_exists (r : registry) (model : string) : bool :=
  dict_mem (lower model) (model_names_lower r) || dict_mem (lower model) (variant_names_lower r) ||
  dict_mem model (models r) || dict_mem model (variant_models r).

(** [get_full_config] (a deep copy) *)
Definition get_full_config (r : registry) (model_name : string) : option dict := dict_get model_name (model_full_configs r).

(** ** Writing *)

(** The field [profiles] of a body: not falsy, and a mapping *)
Definition profiles_field (config : dict) : cfg dict :=
  let v := default (VDict []) (dict_get "profiles"%string config) in
  if negb (truthy v) then Raise MissingProfiles
  else match v with VDict d => Ret d | _ => Raise ProfilesNotMapping end.

(** One profile of a body.  An append may leave the path to a parent that is already stored. *)
Definition check_profile (append : bool) (profiles : dict) (entry : string * pyval) : cfg unit :=
  let '(name, profile) := entry in
  let* _ := validate_profile_name name in
  match profile with
  | VDict p =>
      match effective_adapter_path profiles name with
      | Some _ => Ret tt
      | None => check (append && truthy (get_val "extends" p)) (MissingAdapterPath name)
      end
  | _ => Raise (ProfileNotMapping name)
  end.

Definition string_id (config : dict) : cfg string :=
  match get_val "sie_id" config with VStr s => Ret s | _ => Raise TypeErr end.

(** [config.get("pool") or "default"] *)
Definition pool_or_default (config : dict) : pyval :=
  let v := get_val "pool" config in if truthy v then v else VStr "default".

(** What an append does with the profiles of a body *)
Record triage := mkTriage { created : list string; skipped : list string; conflicting : list string }.

(** One turn of the loop over the profiles of a body whose model exists *)
Definition triage_profile (r : registry) (sie_id : string) (t : triage) (entry : string * pyval) : triage :=
  let '(name, profile) := entry in
  let clash := mkTriage (created t) (skipped t) (conflicting t ++ [name]) in
  let skip := mkTriage (created t) (skipped t ++ [name]) (conflicting t) in
  if decide (name ∈ get_model_profile_names r sie_id) then
    let stored_full := get_val name (profiles_in (full_config_of r sie_id)) in
    if match stored_full with VNone => false | _ => negb (py_eq stored_full profile) end then clash
    else
      match dict_get name (default [] (dict_get sie_id (model_profile_configs r))) with
      | Some stored =>
          let incoming := canonical_profile_dict (match profile with VDict p => p | _ => [] end) in
          if py_eq (VDict stored) (VDict incoming) then skip else clash
      | None => skip
      end
  else mkTriage (created t ++ [name]) (skipped t) (conflicting t).

Definition triage_body (r : registry) (sie_id : string) (profiles : dict) : triage :=
  if dict_mem sie_id (models r) then foldl (triage_profile r sie_id) (mkTriage [] [] []) profiles
  else mkTriage (dict_keys profiles) [] [].

(** [_validate_config_locked]: the body with its pool normalised, and the triple *)
Definition validate_config_locked (r : registry) (config : dict) :
    cfg (dict * (list string * list string * list string)) :=
  if negb (truthy (get_val "sie_id" config)) then Raise MissingSieId
  else
    let* config := normalize_pool_name config in
    let* profiles := profiles_field config in
    let* _ := validate_profile_lora_pins profiles in
    let* _ := res_iter (check_profile true profiles) profiles in
    let* sie_id := string_id config in
    let merged := dict_update (profiles_in (full_config_of r sie_id)) profiles in
    let unroutable := missing_modules (bundles r) (adapter_modules_for_profiles merged (Some (names_of profiles))) in
    let* _ := check (bool_decide (unroutable = ∅)) (AdaptersUnknown (sorted_strings (elements unroutable))) in
    let existing := dict_mem sie_id (models r) in
    let* _ := check (negb (existing && dict_mem "pool"%string config &&
                           negb (py_eq (pool_or_default config) (pool_or_default (full_config_of r sie_id)))))
                    (PoolConflict sie_id) in
    let t := triage_body r sie_id profiles in
    let* _ := check (bool_decide (conflicting t = [])) (ProfileConflict sie_id (conflicting t)) in
    let affected := matching_bundle_names (adapter_modules_for_profiles merged None) (bundles r) in
    let* _ := check (bool_decide (created t = []) || negb (bool_decide (affected = [])))
                    (NoBundle sie_id existing (created t)) in
    Ret (config, (created t, skipped t, affected)).

(** [validate_model_config] *)
Definition validate_model_config (r : registry) (config : dict) : cfg (dict * (list string * list string * list string)) :=
  validate_config_locked r config.

(** The top-level fields of the body fill the gaps of the stored document. *)
Definition fill_gap (full : dict) (entry : string * pyval) : dict :=
  let '(key, value) := entry in
  if bool_decide (key = "profiles"%string) || dict_mem key full then full else dict_set key value full.

Definition insert_created (profiles acc : dict) (name : string) : dict :=
  match dict_get name profiles with Some (VDict p) => dict_set name (VDict p) acc | _ => acc end.

(** The stored document after an append *)
Definition append_config (stored config : dict) (sie_id : string) (profiles : dict) (created : list string) : dict :=
  let full := foldl fill_gap stored config in
  let full := dict_set "profiles"%string (VDict (foldl (insert_created profiles) (profiles_in full) created)) full in
  if dict_mem "sie_id"%string full then full else dict_set "sie_id"%string (VStr sie_id) full.

(** The swap both writes end with: the tables with the model's new entries. *)
Definition install (r : registry) (sie_id : string) (names : gset string) (canonical : list (string * dict))
    (full : dict) : registry :=
  let profiles := profiles_in full in
  let modules := adapter_modules_for_profiles profiles None in
  let missing := missing_modules (bundles r) modules in
  let v := put_variants (bundles r) sie_id profiles names (drop_variants r sie_id) in
  mkRegistry (bundles r)
    (dict_set sie_id (mkInfo sie_id (matching_bundle_names (base_route_adapter_modules profiles) (bundles r))) (models r))
    (if dict_mem sie_id (models r) then model_names_lower r else dict_set (lower sie_id) sie_id (model_names_lower r))
    (v_models v) (v_lower v) (v_base v)
    (dict_set sie_id modules (model_adapter_modules r))
    (dict_set sie_id names (model_profiles r))
    (dict_set sie_id canonical (model_profile_configs r))
    (dict_set sie_id full (model_full_configs r))
    (if decide (missing = ∅) then dict_del sie_id (unrouteable_models r) else dict_set sie_id missing (unrouteable_models r))
    [].

(** [add_model_config] *)
Definition add_model_config (r : registry) (config : dict) : cfg (registry * (list string * list string * list string)) :=
  let* checked := validate_config_locked r config in
  let '(config, (created, skipped, _)) := checked in
  let* sie_id := string_id config in
  let profiles := profiles_in config in
  let names := default ∅ (dict_get sie_id (model_profiles r)) ∪ list_to_set created in
  let canonical := foldl (λ acc p, dict_set p (canonical_profile_dict (match get_val p profiles with VDict d => d | _ => [] end)) acc)
                     (default [] (dict_get sie_id (model_profile_configs r))) created in
  let full := append_config (full_config_of r sie_id) config sie_id profiles created in
  let affected := matching_bundle_names (adapter_modules_for_profiles (profiles_in full) None) (bundles r) ++
                  variant_bundles (bundles r) (profiles_in full) names in
  Ret (install r sie_id names canonical full, (created, skipped, from_keys (sorted_strings affected))).

(** [_validate_structure_locked]: the body with its pool normalised *)
Definition validate_structure_locked (r : registry) (config : dict) : cfg dict :=
  if negb (truthy (get_val "sie_id" config)) then Raise MissingSieId
  else
    let* config := normalize_pool_name config in
    let* profiles := profiles_field config in
    let* _ := validate_profile_lora_pins profiles in
    let* _ := res_iter (check_profile false profiles) profiles in
    let unroutable := missing_modules (bundles r) (adapter_modules_for_profiles profiles None) in
    let* _ := check (bool_decide (unroutable = ∅)) (AdaptersUnknown (sorted_strings (elements unroutable))) in
    Ret config.

(** [validate_model_config_replacement] *)
Definition validate_model_config_replacement (r : registry) (config : dict) : cfg dict := validate_structure_locked r config.

Definition profile_dict (v : pyval) : dict := match v with VDict d => d | _ => [] end.

(** The stored document after a replacement *)
Definition replaced_config (config : dict) (sie_id : string) : dict :=
  dict_set "sie_id"%string (VStr sie_id) (dict_set "profiles"%string (VDict (profiles_in config)) config).

(** [replace_model_config] *)
Definition replace_model_config (r : registry) (config : dict) : cfg (registry * list string) :=
  let* config := validate_structure_locked r config in
  let* sie_id := string_id config in
  let profiles := profiles_in config in
  let names := names_of profiles in
  let canonical := (λ e, (e.1, canonical_profile_dict (profile_dict e.2))) <$> profiles in
  let full := replaced_config config sie_id in
  let old := matching_bundle_names (default ∅ (dict_get sie_id (model_adapter_modules r))) (bundles r) in
  let affected := old ++ matching_bundle_names (adapter_modules_for_profiles (profiles_in full) None) (bundles r) ++
                  variant_bundles (bundles r) (profiles_in full) names in
  Ret (install r sie_id names canonical full, from_keys (sorted_strings affected)).

(** [remove_model_config] *)
Definition remove_model_config (r : registry) (model_id : string) (fallback_config : option dict) : cfg (registry * list string) :=
  match fallback_config with
  | Some fallback =>
      if py_eq (get_val "sie_id" fallback) (VStr model_id) then replace_model_config r fallback
      else Raise FallbackMismatch
  | None =>
      if negb (dict_mem model_id (models r)) then Ret (r, [])
      else
        let base := matching_bundle_names (default ∅ (dict_get model_id (model_adapter_modules r))) (bundles r) in
        let removed := (filter (λ e, e.2 = model_id) (variant_base_models r)).*1 in
        let more := concat (mi_bundles <$> omap (λ v, dict_get v (variant_models r)) removed) in
        let others {A} (t : list (string * A)) : list (string * A) := filter (λ e, e.1 ≠ model_id) t in
        Ret (mkRegistry (bundles r) (others (models r)) (filter (λ e, e.2 ≠ model_id) (model_names_lower r))
               (filter (λ e, e.1 ∉ removed) (variant_models r)) (filter (λ e, e.2 ∉ removed) (variant_names_lower r))
               (filter (λ e, e.2 ≠ model_id) (variant_base_models r))
               (others (model_adapter_modules r)) (others (model_profiles r)) (others (model_profile_configs r))
               (others (model_full_configs r)) (others (unrouteable_models r)) [],
             sorted_strings (elements (list_to_set (C := gset string) (base ++ more))))
  end.

(** ** Hashes *)

(** A value with the keys of its dictionaries sorted ([OPT_SORT_KEYS]); tuples are JSON arrays. *)
Fixpoint sort_keys (v : pyval) : pyval :=
  match v with
  | VList l | VTuple l => VList (List.map sort_keys l)
  | VDict d => VDict (stable_sort key_leb (List.map (λ '(k, w), (k, sort_keys w)) d))
  | _ => v
  end.

Section hashes.
(** SHA-256 of the JSON text of a value *)
Variable digest : pyval → string.

(** The hash entry of one profile, if it is routable in the bundle *)
Definition hash_profile (bundle_adapter_set : gset string) (full_profiles : dict) (pname : string) : option pyval :=
  match resolved_profile_hash_config full_profiles pname with
  | None => None
  | Some filtered =>
      let entry := VDict [("name", VStr pname); ("config", VDict filtered)]%string in
      match get_val "adapter_path" filtered with
      | VStr path =>
          if bool_decide (path = ""%string) then Some entry
          else if decide (before_colon path ∈ bundle_adapter_set) then Some entry else None
      | _ => Some entry
      end
  end.

Definition hash_model (r : registry) (bundle_adapter_set : gset string) (pool : option string) (model_name : string) :
    option pyval :=
  let full := full_config_of r model_name in
  if match pool with Some p => negb (bool_decide (model_pool_name full = p)) | None => false end then None
  else if decide (default ∅ (dict_get model_name (model_adapter_modules r)) ∩ bundle_adapter_set = ∅) then None
  else
    match omap (hash_profile bundle_adapter_set (profiles_in full))
            (sorted_strings (elements (get_model_profile_names r model_name))) with
    | [] => None
    | profiles => Some (VDict [("sie_id", VStr model_name); ("revision", get_val "hf_revision" full);
                               ("profiles", VList profiles)]%string)
    end.

(** [(pool_name or "").strip().lower() or None] *)
Definition normalized_pool (pool_name : option string) : option string :=
  nonempty_str (Some (lower (strip (default ""%string pool_name)))).

(** [_compute_bundle_config_hash_locked] *)
Definition hash_items (r : registry) (b : BundleInfo) (pool_name : option string) : list pyval :=
  omap (hash_model r (list_to_set (adapters b)) (normalized_pool pool_name)) (sorted_strings (dict_keys (models r))).

Definition compute_bundle_config_hash_locked (r : registry) (bundle_id : string) (pool_name : option string) : string :=
  match dict_get bundle_id (bundles r) with
  | None => ""
  | Some b =>
      match hash_items r b pool_name with
      | [] => ""
      | items => digest (sort_keys (VList items))
      end
  end.

(** [compute_bundle_config_hash], which caches *)
Definition compute_bundle_config_hash (r : registry) (bundle_id : string) : registry * string :=
  match dict_get bundle_id (bundle_hash_cache r) with
  | Some cached => (r, cached)
  | None =>
      let h := compute_bundle_config_hash_locked r bundle_id None in
      (mkRegistry (bundles r) (models r) (model_names_lower r) (variant_models r) (variant_names_lower r)
         (variant_base_models r) (model_adapter_modules r) (model_profiles r) (model_profile_configs r)
         (model_full_configs r) (unrouteable_models r) (dict_set bundle_id h (bundle_hash_cache r)), h)
  end.

(** [compute_bundle_config_hash_for_pool] *)
Definition compute_bundle_config_hash_for_pool (r : registry) (bundle_id pool_name : string) : string :=
  compute_bundle_config_hash_locked r bundle_id (Some (default DEFAULT_MODEL_POOL (normalized_pool (Some pool_name)))).

(** [compute_bundle_pool_config_hashes] *)
Definition pools_of_bundle (r : registry) (bundle_id : string) : list string :=
  sorted_strings (elements (list_to_set (C := gset string)
    ((λ m, model_pool_name (full_config_of r m)) <$>
     filter (λ m, bundle_id ∈ get_model_export_bundles r m) (list_models r)))).

Definition compute_bundle_pool_config_hashes (r : registry) : list (string * list (string * string)) :=
  (λ b, (b, filter (λ e, e.2 ≠ ""%string)
              ((λ pool, (pool, compute_bundle_config_hash_locked r b (Some pool))) <$> pools_of_bundle r b))) <$>
    dict_keys (bundles r).

(** [compute_bundles_hash] *)
Definition compute_bundles_hash (r : registry) : string :=
  match dict_values (bundles r) with
  | [] => ""
  | bs => digest (sort_keys (VList ((λ b, VDict [("name", VStr (b_name b)); ("priority", VInt (priority b));
                                                ("adapters", VList (VStr <$> sorted_strings (adapters b)));
                                                ("engine", VStr (engine b))]%string) <$>
                                     stable_sort (λ a b, String.leb (b_name a) (b_name b)) bs)))
  end.

(** [compute_bundle_config_hashes_hash] *)
Definition hashes_entry (acc : registry * dict) (bundle_id : string) : registry * dict :=
  let '(r, by_bundle) := acc in
  let pools := (λ m, (m, VStr (model_pool_name (full_config_of r m)))) <$>
               filter (λ m, bundle_id ∈ get_model_export_bundles r m) (list_models r) in
  let '(r', h) := compute_bundle_config_hash r bundle_id in
  (r', dict_set bundle_id (VDict [("bundle_config_hash", VStr h); ("model_pools", VDict pools)]%string) by_bundle).

Definition compute_bundle_config_hashes_hash (r : registry) : registry * string :=
  match sorted_strings (dict_keys (bundles r)) with
  | [] => (r, ""%string)
  | ids => let '(r', by_bundle) := foldl hashes_entry (r, []) ids in (r', digest (sort_keys (VDict by_bundle)))
  end.
End hashes.

(** ** [parse_model_spec] *)

Fixpoint split_spec (s : string) : option (string * string) :=
  match s with
  | String a s' =>
      if bool_decide (a = colon) && String.prefix "/" s' then Some (""%string, String.substring 1 (String.length s' - 1) s')
      else match split_spec s' with Some (h, t) => Some (String a h, t) | None => None end
  | EmptyString => None
  end.

Inductive spec_error := EmptySpec | EmptyBundle | EmptyModel.

Definition parse_model_spec (model_spec : string) : res spec_error (option string * string) :=
  if bool_decide (strip model_spec = ""%string) then Raise EmptySpec
  else
    match split_spec model_spec with
    | Some (bundle, model) =>
        if bool_decide (bundle = ""%string) then Raise EmptyBundle
        else if bool_decide (model = ""%string) then Raise EmptyModel
        else Ret (Some (lower bundle), model)
    | None => Ret (None, model_spec)
    end.

End ConfigRegistry.
