(* ===== verification/ConfigTables.v ===== *)
(** The tables of the configuration registry are functions of its documents.

    [coherent] says that every derived table of [ConfigRegistry.registry] holds exactly what
    the stored documents and the bundles determine.  [reload] establishes it and every write
    keeps it, so the registry routes by its documents, whatever writes led to them.  The
    condition on the documents, [apart], is that no two serving identities (ids and
    [id:profile]) are equal up to case; without it the tables depend on the order of writes. *)

From Stdlib Require Import Ascii.
From stdpp Require Import strings.
From S2P Require Import Prelude PyFloat PyDict PyStr Handlers PyVal ModelConfig ConfigProfiles ConfigRegistry.
Import Handlers PyVal ConfigProfiles ConfigRegistry.
Local Open Scope Z_scope.
Local Open Scope py_scope.

Module ConfigTables.

Definition docs : Type := list (string * dict).

(** ** What the documents determine *)

Definition profile_variants (c : dict) : list string := filter (λ p, p ≠ "default"%string) (dict_keys (profiles_in c)).

(** The serving identities, each with its model and its profile ([None] for the base route) *)
Definition serving (F : docs) : list (string * (string * option string)) :=
  concat ((λ e, (e.1, (e.1, None)) :: ((λ p, (variant_id e.1 p, (e.1, Some p))) <$> profile_variants e.2)) <$> F).

Definition apart (F : docs) : Prop := NoDup ((λ e, lower e.1) <$> serving F).

#[export] Instance apart_dec F : Decision (apart F) := _.

Definition model_entry (bs : list (string * BundleInfo)) (id : string) (c : dict) : ModelInfo :=
  mkInfo id (matching_bundle_names (base_route_adapter_modules (profiles_in c)) bs).

Definition variant_entry (bs : list (string * BundleInfo)) (id : string) (c : dict) (p : string) : ModelInfo :=
  mkInfo (variant_id id p) (matching_bundle_names (module_set (profile_module (profiles_in c) p)) bs).

(** [v] is the serving identity of profile [p] of model [id], whose document is [c]. *)
Definition variant_of (F : docs) (v id p : string) (c : dict) : Prop :=
  dict_get id F = Some c ∧ p ∈ dict_keys (profiles_in c) ∧ p ≠ "default"%string ∧ v = variant_id id p.

(** [d] is a table of the variants: its keys are [kf] of their identities, its values [vf] of
    model, document and profile. *)
Definition indexes {V} (kf : string → string) (vf : string → dict → string → V) (F : docs) (d : list (string * V)) : Prop :=
  dict_wf d ∧ ∀ k w, dict_get k d = Some w ↔ ∃ s id p c, variant_of F s id p c ∧ k = kf s ∧ w = vf id c p.

Record variant_tables (bs : list (string * BundleInfo)) (F : docs) (v : variants) : Prop := mkVariantTables {
  vt_models : indexes (λ s, s) (variant_entry bs) F (v_models v);
  vt_lower : indexes lower (λ id _ p, variant_id id p) F (v_lower v);
  vt_base : indexes (λ s, s) (λ id _ _, id) F (v_base v);
}.

(** A document as YAML gives it: keys are distinct, profiles are mappings. *)
Record doc_ok (c : dict) : Prop := mkDocOk {
  doc_wf : dict_wf c;
  doc_profiles_wf : dict_wf (profiles_in c);
  doc_profiles : ∀ p v, dict_get p (profiles_in c) = Some v → ∃ d, v = VDict d;
}.

Definition variants_of (r : registry) : variants :=
  mkVariants (variant_models r) (variant_names_lower r) (variant_base_models r).

Definition canonical_of (c : dict) (p : string) : option dict :=
  (λ v, canonical_profile_dict (profile_dict v)) <$> dict_get p (profiles_in c).

(** The tables keyed by model, but for the bundles of the base route and the unrouteable modules *)
Record model_tables (r : registry) : Prop := mkModelTables {
  mt_docs_wf : dict_wf (model_full_configs r);
  mt_docs : ∀ id c, dict_get id (model_full_configs r) = Some c → doc_ok c;
  mt_models_wf : dict_wf (models r);
  mt_modules : ∀ id, dict_get id (model_adapter_modules r) =
    (λ c, adapter_modules_for_profiles (profiles_in c) None) <$> dict_get id (model_full_configs r);
  mt_profiles : ∀ id, dict_get id (model_profiles r) = (λ c, names_of (profiles_in c)) <$> dict_get id (model_full_configs r);
  mt_configs : ∀ id p, (dict_get id (model_profile_configs r) ≫= dict_get p) =
    (dict_get id (model_full_configs r) ≫= λ c, canonical_of c p);
  mt_configs_dom : ∀ id, dict_mem id (model_profile_configs r) = dict_mem id (model_full_configs r);
  mt_modules_wf : dict_wf (model_adapter_modules r);
  mt_profiles_wf : dict_wf (model_profiles r);
  mt_configs_wf : dict_wf (model_profile_configs r);
  mt_lower_wf : dict_wf (model_names_lower r);
  mt_lower : ∀ s id, dict_get s (model_names_lower r) = Some id ↔ id ∈ dict_keys (model_full_configs r) ∧ s = lower id;
}.

Definition missing_of (r : registry) (c : dict) : option (gset string) :=
  let m := missing_modules (bundles r) (adapter_modules_for_profiles (profiles_in c) None) in
  if decide (m = ∅) then None else Some m.

Record coherent (r : registry) : Prop := mkCoherent {
  co_tables : model_tables r;
  co_variants : variant_tables (bundles r) (model_full_configs r) (variants_of r);
  co_apart : apart (model_full_configs r);
  co_models : ∀ id, dict_get id (models r) = model_entry (bundles r) id <$> dict_get id (model_full_configs r);
  co_unrouteable_wf : dict_wf (unrouteable_models r);
  co_unrouteable : ∀ id, dict_get id (unrouteable_models r) = (dict_get id (model_full_configs r) ≫= missing_of r);
}.

(** ** Identities *)

Lemma NoDup_image {A B} (f : A → B) (l : list A) x y : NoDup (f <$> l) → x ∈ l → y ∈ l → f x = f y → x = y.
Proof.
  induction l as [|z l IH]; cbn; [intros _ Hx; by apply elem_of_nil in Hx|].
  rewrite NoDup_cons. intros [Hz Hl] [->|Hx]%elem_of_cons [->|Hy]%elem_of_cons E; [done| | |by apply IH].
  - destruct Hz. rewrite E. by apply list_elem_of_fmap_2.
  - destruct Hz. rewrite <- E. by apply list_elem_of_fmap_2.
Qed.

Lemma variant_id_inj id p q : variant_id id p = variant_id id q → p = q.
Proof. unfold variant_id. induction id as [|a id IH]; intros H; injection H; auto. Qed.

Lemma elem_of_profile_variants c p : p ∈ profile_variants c ↔ p ∈ dict_keys (profiles_in c) ∧ p ≠ "default"%string.
Proof. unfold profile_variants. rewrite list_elem_of_filter. tauto. Qed.

Lemma elem_of_serving F s id o :
  dict_wf F →
  (s, (id, o)) ∈ serving F ↔
  ∃ c, dict_get id F = Some c ∧
    match o with None => s = id | Some p => p ∈ dict_keys (profiles_in c) ∧ p ≠ "default"%string ∧ s = variant_id id p end.
Proof.
  intros Hwf. unfold serving. rewrite list_elem_of_In, in_concat. setoid_rewrite <- list_elem_of_In. split.
  - intros (l & ([id' c] & -> & Hc)%list_elem_of_fmap & Hs). exists c.
    apply elem_of_cons in Hs as [[= -> -> ->]|(p & [= -> -> ->] & Hp)%list_elem_of_fmap];
      (split; [by apply dict_elem_get|]); [done|].
    by apply elem_of_profile_variants in Hp as [? ?].
  - intros (c & Hc & Hs). eexists. split; [apply list_elem_of_fmap; exists (id, c); split; [done|by apply dict_get_Some_elem]|].
    destruct o as [p|]; [|subst; by left]. destruct Hs as (? & ? & ->). right. apply list_elem_of_fmap.
    exists p. split; [done|]. by apply elem_of_profile_variants.
Qed.

Lemma serving_base F id c : dict_wf F → dict_get id F = Some c → (id, (id, None)) ∈ serving F.
Proof. intros. apply elem_of_serving; eauto. Qed.

Lemma serving_variant F s id p c : dict_wf F → variant_of F s id p c → (s, (id, Some p)) ∈ serving F.
Proof. intros ? (? & ? & ? & ->). apply elem_of_serving; eauto 10. Qed.

(** Serving identities that are equal up to case are the same identity. *)
Lemma apart_same F s o s' o' :
  apart F → (s, o) ∈ serving F → (s', o') ∈ serving F → lower s = lower s' → s = s' ∧ o = o'.
Proof. intros Ha Hs Hs' Hl. pose proof (NoDup_image _ _ _ _ Ha Hs Hs' Hl). by simplify_eq. Qed.

Lemma apart_variant F s s' id id' p p' c c' :
  dict_wf F → apart F → variant_of F s id p c → variant_of F s' id' p' c' → lower s = lower s' →
  id = id' ∧ p = p' ∧ c = c' ∧ s = s'.
Proof.
  intros Hwf Ha H H' Hl.
  destruct (apart_same F s (id, Some p) s' (id', Some p')) as [-> [= -> ->]]; eauto using serving_variant.
  destruct H as (Hc & _), H' as (Hc' & _). rewrite Hc in Hc'. by simplify_eq.
Qed.

Lemma apart_base_variant F s id id' p c :
  dict_wf F → apart F → id' ∈ dict_keys F → variant_of F s id p c → lower s ≠ lower id'.
Proof.
  intros Hwf Ha [c' Hc']%dict_get_is_Some H Hl.
  destruct (apart_same F s (id, Some p) id' (id', None)); eauto using serving_variant, serving_base. done.
Qed.

Lemma apart_base F id id' : dict_wf F → apart F → id ∈ dict_keys F → id' ∈ dict_keys F → lower id = lower id' → id = id'.
Proof.
  intros Hwf Ha [c Hc]%dict_get_is_Some [c' Hc']%dict_get_is_Some Hl.
  destruct (apart_same F id (id, None) id' (id', None)); eauto using serving_base.
Qed.

(** ** The variant tables *)

Lemma put_variants_update bs id profiles names v :
  let l := filter (λ p, p ≠ "default"%string) (sorted_strings (elements names)) in
  put_variants bs id profiles names v =
  mkVariants
    (dict_update (v_models v) ((λ p, (variant_id id p, mkInfo (variant_id id p) (matching_bundle_names (module_set (profile_module profiles p)) bs))) <$> l))
    (dict_update (v_lower v) ((λ p, (lower (variant_id id p), variant_id id p)) <$> l))
    (dict_update (v_base v) ((λ p, (variant_id id p, id)) <$> l)).
Proof.
  unfold put_variants. generalize (sorted_strings (elements names)). intros l. revert v.
  induction l as [|p l IH]; intros v; [by destruct v|]. cbn [foldl]. rewrite IH, filter_cons. unfold put_variant at 1 2 3.
  case_bool_decide as Hp; [by rewrite decide_False by auto|]. by rewrite decide_True by done.
Qed.

Lemma elem_of_variant_names c p :
  p ∈ filter (λ p, p ≠ "default"%string) (sorted_strings (elements (names_of (profiles_in c)))) ↔
  p ∈ dict_keys (profiles_in c) ∧ p ≠ "default"%string.
Proof.
  rewrite list_elem_of_filter. unfold sorted_strings, names_of. rewrite elem_of_stable_sort, elem_of_elements, elem_of_list_to_set.
  tauto.
Qed.

Lemma NoDup_variant_names c :
  NoDup (filter (λ p, p ≠ "default"%string) (sorted_strings (elements (names_of (profiles_in c))))).
Proof. apply NoDup_filter. unfold sorted_strings. rewrite stable_sort_perm. apply NoDup_elements. Qed.

Lemma NoDup_map_on {A B} (f : A → B) (l : list A) :
  NoDup l → (∀ x y, x ∈ l → y ∈ l → f x = f y → x = y) → NoDup (f <$> l).
Proof.
  induction 1 as [|x l Hx Hl IH]; intros Hf; cbn; constructor.
  - intros (y & Hxy & Hy)%list_elem_of_fmap. apply Hx. rewrite (Hf x y); [done|by left|by right|done].
  - apply IH. intros; apply Hf; by (done || right).
Qed.

Lemma variant_of_set F s id' id p c c' :
  variant_of (dict_set id c F) s id' p c' ↔
  (id' = id ∧ c' = c ∧ p ∈ dict_keys (profiles_in c) ∧ p ≠ "default"%string ∧ s = variant_id id p) ∨
  (id' ≠ id ∧ variant_of F s id' p c').
Proof.
  unfold variant_of. rewrite dict_get_set. destruct (decide (id = id')) as [->|Hne]; naive_solver.
Qed.

Lemma variant_of_del F s id' id p c :
  dict_wf F → variant_of (dict_del id F) s id' p c ↔ id' ≠ id ∧ variant_of F s id' p c.
Proof.
  intros Hwf. unfold variant_of. rewrite dict_get_del by done. destruct (decide (id = id')) as [->|Hne]; naive_solver.
Qed.

Lemma variant_of_id F s id p c : variant_of F s id p c → s = variant_id id p.
Proof. by intros (_ & _ & _ & ->). Qed.

Section put.
Context (F : docs) (id : string) (c : dict).
Hypotheses (Hwf : dict_wf F) (Ha : apart (dict_set id c F)).

Let names := filter (λ p, p ≠ "default"%string) (sorted_strings (elements (names_of (profiles_in c)))).
Let Hwf' : dict_wf (dict_set id c F) := dict_set_wf id c F Hwf.

Lemma new_variant p : p ∈ names → variant_of (dict_set id c F) (variant_id id p) id p c.
Proof. intros [? ?]%elem_of_variant_names. apply variant_of_set. by left. Qed.

(** A table of the variants of the other models, updated with the model's own. *)
Lemma update_table {V} (kf : string → string) (vf : string → dict → string → V) d :
  (∀ a b, kf a = kf b → lower a = lower b) →
  indexes kf vf (dict_del id F) d →
  indexes kf vf (dict_set id c F) (dict_update d ((λ p, (kf (variant_id id p), vf id c p)) <$> names)).
Proof.
  intros Hkf [Hd Hget].
  assert (NoDup ((λ p, kf (variant_id id p)) <$> names)) as Hn.
  { apply NoDup_map_on; [apply NoDup_variant_names|]. intros p q Hp Hq Hpq%Hkf.
    by destruct (apart_variant _ _ _ _ _ _ _ _ _ Hwf' Ha (new_variant p Hp) (new_variant q Hq) Hpq) as (_ & ? & _). }
  split; [by apply dict_update_wf|]. intros k w. rewrite dict_get_update by by apply dict_wf_index.
  destruct (dict_get k _) as [w'|] eqn:E.
  - apply dict_get_index in E as (p & Hp & -> & ->); [|done]. split.
    + intros [= <-]. eauto 10 using new_variant.
    + intros (s & id' & p' & c' & Ho & Hk%Hkf & ->).
      destruct (apart_variant _ _ _ _ _ _ _ _ _ Hwf' Ha (new_variant p Hp) Ho Hk) as (-> & -> & -> & _). done.
  - rewrite Hget. split.
    + intros (s & id' & p' & c' & [Hne Ho]%variant_of_del & -> & ->); [|done].
      exists s, id', p', c'. split; [|done]. apply variant_of_set. auto.
    + intros (s & id' & p' & c' & [(-> & -> & Hp & Hd' & ->)|[Hne Ho]]%variant_of_set & -> & ->).
      * exfalso. apply eq_None_not_Some in E. apply E. eexists. apply dict_get_index; [done|].
        exists p'. split; [by apply elem_of_variant_names|done].
      * exists s, id', p', c'. split; [by apply variant_of_del|done].
Qed.

Lemma put_variants_tables bs v :
  variant_tables bs (dict_del id F) v →
  variant_tables bs (dict_set id c F) (put_variants bs id (profiles_in c) (names_of (profiles_in c)) v).
Proof.
  intros [Hm Hl Hb]. rewrite put_variants_update. split; cbn.
  - by apply (update_table (λ s, s) (variant_entry bs)); [intros ? ? ->|].
  - by apply (update_table lower (λ id _ p, variant_id id p)).
  - by apply (update_table (λ s, s) (λ id _ _, id)); [intros ? ? ->|].
Qed.
End put.

(** Filtering a table by the model of the variant *)
Lemma filter_table {V} (kf : string → string) (vf : string → dict → string → V) F id d (P : string * V → Prop)
    `{!∀ e, Decision (P e)} :
  dict_wf F → indexes kf vf F d →
  (∀ s id' p c, variant_of F s id' p c → P (kf s, vf id' c p) ↔ id' ≠ id) →
  indexes kf vf (dict_del id F) (filter P d).
Proof.
  intros Hwf [Hd Hget] HP. split; [by apply dict_filter_wf|]. intros k w. rewrite dict_get_filter by done. split.
  - destruct (dict_get k d) as [w'|] eqn:E; [|done]. case_decide as HPk; [|done]. intros [= <-].
    apply Hget in E as (s & id' & p & c & Ho & -> & ->). exists s, id', p, c. split; [|done].
    apply variant_of_del; [done|]. split; [|done]. by apply (HP _ _ _ _ Ho).
  - intros (s & id' & p & c & [Hne Ho]%variant_of_del & -> & ->); [|done].
    assert (dict_get (kf s) d = Some (vf id' c p)) as -> by (apply Hget; eauto 10).
    by rewrite decide_True by by apply (HP _ _ _ _ Ho).
Qed.

Lemma base_of_variant bs F v s id p c :
  variant_tables bs F v → variant_of F s id p c → dict_get s (v_base v) = Some id.
Proof. intros [_ _ [_ Hb]] Ho. apply Hb. eauto 10. Qed.

Lemma drop_variants_tables r id :
  dict_wf (model_full_configs r) →
  variant_tables (bundles r) (model_full_configs r) (variants_of r) →
  variant_tables (bundles r) (dict_del id (model_full_configs r)) (drop_variants r id).
Proof.
  intros Hwf Hv. pose proof Hv as [Hm Hl Hb].
  assert (∀ s id' p c, variant_of (model_full_configs r) s id' p c → dict_get s (variant_base_models r) = Some id') as Hbase.
  { intros. change (variant_base_models r) with (v_base (variants_of r)). by eapply base_of_variant. }
  split; cbn; apply filter_table; try done; cbn; intros s id' p c Ho.
  - rewrite (Hbase _ _ _ _ Ho). naive_solver.
  - rewrite <- (variant_of_id _ _ _ _ _ Ho), (Hbase _ _ _ _ Ho). naive_solver.
Qed.

(** ** Writes *)

Lemma dict_mem_is_Some {V} (k : string) (d : list (string * V)) : dict_mem k d = bool_decide (is_Some (dict_get k d)).
Proof. unfold dict_mem. by destruct (dict_get k d). Qed.

Lemma known_model r id : coherent r → dict_mem id (models r) = dict_mem id (model_full_configs r).
Proof. intros Hc. unfold dict_mem. rewrite (co_models r Hc). by destruct (dict_get id (model_full_configs r)). Qed.

(** The names table after a write *)
Lemma install_lower r id full :
  coherent r → apart (dict_set id full (model_full_configs r)) →
  ∀ s id',
    dict_get s (if dict_mem id (models r) then model_names_lower r else dict_set (lower id) id (model_names_lower r)) = Some id' ↔
    id' ∈ dict_keys (dict_set id full (model_full_configs r)) ∧ s = lower id'.
Proof.
  intros Hc Ha s id'. pose proof (co_tables r Hc) as Ht. pose proof (mt_docs_wf r Ht) as Hwf.
  rewrite known_model by done. destruct (dict_mem id _) eqn:E.
  - apply dict_mem_true in E. rewrite (mt_lower r Ht). rewrite dict_keys_set, decide_True by done. done.
  - apply dict_mem_false in E. rewrite dict_keys_set, decide_False by done. rewrite dict_get_set.
    case_decide as Hs.
    + subst s. split.
      * intros [= <-]. split; [|done]. apply elem_of_app. right. by left.
      * intros [Hin Hl]. f_equal. apply (apart_base (dict_set id full (model_full_configs r))); try done; [by apply dict_set_wf| |].
        -- rewrite dict_keys_set, decide_False by done. apply elem_of_app. right. by left.
        -- by rewrite dict_keys_set, decide_False by done.
    + rewrite (mt_lower r Ht), elem_of_app, list_elem_of_singleton. split; [tauto|]. naive_solver.
Qed.

Lemma install_coherent r id names canonical full :
  coherent r → doc_ok full → apart (dict_set id full (model_full_configs r)) →
  names = names_of (profiles_in full) → (∀ p, dict_get p canonical = canonical_of full p) →
  coherent (install r id names canonical full).
Proof.
  intros Hc Hok Ha -> Hcan. pose proof (co_tables r Hc) as Ht. pose proof (mt_docs_wf r Ht) as Hwf.
  split; cbn [install model_full_configs models bundles unrouteable_models].
  - destruct Ht. split; cbn; try (by apply dict_set_wf); try (by apply install_lower).
    + intros id' c'. rewrite dict_get_set. case_decide; [intros [= <-]; done|eauto].
    + intros id'. rewrite !dict_get_set. by case_decide.
    + intros id'. rewrite !dict_get_set. by case_decide.
    + intros id' p. rewrite !dict_get_set. case_decide; [apply Hcan|done].
    + intros id'. rewrite !dict_mem_is_Some, !dict_get_set. case_decide; [done|]. rewrite <- !dict_mem_is_Some. done.
    + destruct (dict_mem id (models r)); [done|by apply dict_set_wf].
  - assert (variants_of (install r id (names_of (profiles_in full)) canonical full) =
            put_variants (bundles r) id (profiles_in full) (names_of (profiles_in full)) (drop_variants r id)) as ->.
    { unfold variants_of. cbn. by destruct (put_variants _ _ _ _ _). }
    apply (put_variants_tables _ id full); [done|done|]. apply drop_variants_tables; [done|]. apply Hc.
  - done.
  - intros id'. rewrite !dict_get_set. case_decide; [by subst|]. apply Hc.
  - case_decide; [apply dict_del_wf|apply dict_set_wf]; apply Hc.
  - intros id'. pose proof (co_unrouteable_wf r Hc). rewrite (dict_get_set id id' full).
    assert (missing_of (install r id (names_of (profiles_in full)) canonical full) = missing_of r) as -> by done.
    destruct (decide (missing_modules (bundles r) (adapter_modules_for_profiles (profiles_in full) None) = ∅)) as [E|E].
    + rewrite dict_get_del by done. case_decide; [cbn; unfold missing_of; by rewrite decide_True|]. apply Hc.
    + rewrite dict_get_set. case_decide; [cbn; unfold missing_of; by rewrite decide_False|]. apply Hc.
Qed.

(** ** What a validated body is *)

Definition body_ok (config : dict) : Prop := dict_wf config ∧ dict_wf (profiles_in config).

Lemma get_val_set k k' v (d : dict) : get_val k (dict_set k' v d) = if decide (k' = k) then v else get_val k d.
Proof. unfold get_val. rewrite dict_get_set. by case_decide. Qed.

Lemma get_val_del k k' (d : dict) : dict_wf d → get_val k (dict_del k' d) = if decide (k' = k) then VNone else get_val k d.
Proof. intros. unfold get_val. rewrite dict_get_del by done. by case_decide. Qed.

Lemma profiles_in_set k v (d : dict) : k ≠ "profiles"%string → profiles_in (dict_set k v d) = profiles_in d.
Proof. intros. unfold profiles_in. rewrite get_val_set. by rewrite decide_False. Qed.

Lemma profiles_in_put ps (d : dict) : profiles_in (dict_set "profiles"%string (VDict ps) d) = ps.
Proof. unfold profiles_in. rewrite get_val_set. by rewrite decide_True. Qed.

Lemma normalize_pool_keeps config config' k :
  dict_wf config → normalize_pool_name config = Ret config' →
  dict_wf config' ∧ (k ≠ "pool"%string → get_val k config' = get_val k config).
Proof.
  intros Hwf. unfold normalize_pool_name. destruct (dict_get "pool" config) as [[| | | |raw| | |]|]; try done.
  - intros [= <-]. split; [by apply dict_del_wf|]. intros. rewrite get_val_del by done. by rewrite decide_False.
  - case_bool_decide.
    + intros [= <-]. split; [by apply dict_del_wf|]. intros. rewrite get_val_del by done. by rewrite decide_False.
    + destruct (_ || _); [done|]. intros [= <-]. split; [by apply dict_set_wf|]. intros. rewrite get_val_set. by rewrite decide_False.
  - by intros [= <-].
Qed.

Lemma normalize_pool_body config config' :
  body_ok config → normalize_pool_name config = Ret config' → body_ok config' ∧ profiles_in config' = profiles_in config.
Proof.
  intros [Hwf Hp] Hn. destruct (normalize_pool_keeps _ _ "profiles" Hwf Hn) as [Hwf' Hk].
  assert (profiles_in config' = profiles_in config) as E by (unfold profiles_in; by rewrite Hk).
  split; [split; [done|by rewrite E]|done].
Qed.

Lemma profiles_field_ok config ps : profiles_field config = Ret ps → profiles_in config = ps ∧ ps ≠ [].
Proof.
  unfold profiles_field, profiles_in, get_val. destruct (dict_get "profiles" config) as [v|]; cbn; [|done].
  destruct (truthy v) eqn:E; [|done]. cbn. destruct v; try done. intros [= <-]. split; [done|].
  cbn in E. by case_bool_decide.
Qed.

Lemma check_profile_ok append ps entry :
  check_profile append ps entry = Ret tt →
  valid_profile_name entry.1 = true ∧ (∃ d, entry.2 = VDict d) ∧
  (append = false → is_Some (effective_adapter_path ps entry.1)).
Proof.
  destruct entry as [name v]. unfold check_profile. intros H. ModelConfig.ok_bind H. apply check_passes in E.
  destruct v as [| | | | | | |d]; try done. split; [done|]. split; [by exists d|]. intros ->.
  cbn [fst]. destruct (effective_adapter_path ps name); [by eauto|]. by apply check_passes in H.
Qed.

Lemma check_profiles_ok append ps :
  dict_wf ps → res_iter (check_profile append ps) ps = Ret tt →
  ∀ p v, dict_get p ps = Some v → valid_profile_name p = true ∧ ∃ d, v = VDict d.
Proof.
  intros Hwf H p v Hp. rewrite res_iter_ok in H.
  destruct (check_profile_ok _ _ _ (H (p, v) (dict_get_Some_elem _ _ _ Hp))) as (? & ? & _). done.
Qed.

(** What [validate_config_locked] lets pass *)
Record appends (r : registry) (config config' : dict) (id : string) (t : triage) : Prop := mkAppends {
  ap_normal : normalize_pool_name config = Ret config';
  ap_body : body_ok config';
  ap_id : get_val "sie_id" config' = VStr id;
  ap_profiles : profiles_in config' = profiles_in config;
  ap_valid : ∀ p v, dict_get p (profiles_in config') = Some v → valid_profile_name p = true ∧ ∃ d, v = VDict d;
  ap_triage : t = triage_body r id (profiles_in config');
  ap_no_conflict : conflicting t = [];
  ap_pool : dict_mem id (models r) = true → dict_mem "pool"%string config' = true →
    py_eq (pool_or_default config') (pool_or_default (full_config_of r id)) = true;
}.

Lemma validate_config_appends r config config' cr sk aff :
  body_ok config → validate_config_locked r config = Ret (config', (cr, sk, aff)) →
  ∃ id t, appends r config config' id t ∧ cr = created t ∧ sk = skipped t.
Proof.
  intros Hb H. unfold validate_config_locked in H. destruct (negb _); [done|]. repeat ModelConfig.ok_bind H.
  injection H as <- <- <- <-. destruct (normalize_pool_body _ _ Hb E) as [Hb' Hp].
  apply profiles_field_ok in E0 as [Hps _]. subst a0. exists a3. eexists. split; [|done].
  unfold string_id in E3. destruct (get_val "sie_id" a) as [| | | |s| | |] eqn:Es; try done. injection E3 as ->.
  split; try done.
  - destruct a2. eapply check_profiles_ok; [apply Hb'|done].
  - by apply check_passes, bool_decide_eq_true in E6.
  - intros Hm Hpool. apply check_passes in E5. rewrite Hm, Hpool in E5. cbn in E5. by destruct (py_eq _ _).
Qed.

Lemma validate_structure_ok r config config' :
  body_ok config → validate_structure_locked r config = Ret config' →
  body_ok config' ∧ normalize_pool_name config = Ret config' ∧ profiles_in config' = profiles_in config ∧
  (∀ p v, dict_get p (profiles_in config') = Some v → valid_profile_name p = true ∧ ∃ d, v = VDict d).
Proof.
  intros Hb H. unfold validate_structure_locked in H. destruct (negb _); [done|]. repeat ModelConfig.ok_bind H.
  injection H as <-. destruct (normalize_pool_body _ _ Hb E) as [Hb' Hp].
  apply profiles_field_ok in E0 as [Hps _]. subst a0. destruct a2. repeat split; try done; try apply Hb'.
  - by apply (check_profiles_ok _ _ (proj2 Hb') E2 _ _ H).
  - by apply (check_profiles_ok _ _ (proj2 Hb') E2 _ _ H).
Qed.

(** ** Appends *)

(** A profile of the body that is already stored, with other content *)
Definition clashes (r : registry) (id : string) (entry : string * pyval) : bool :=
  let stored_full := get_val entry.1 (profiles_in (full_config_of r id)) in
  if match stored_full with VNone => false | _ => negb (py_eq stored_full entry.2) end then true
  else
    match dict_get entry.1 (default [] (dict_get id (model_profile_configs r))) with
    | Some stored => negb (py_eq (VDict stored) (VDict (canonical_profile_dict (profile_dict entry.2))))
    | None => false
    end.

Lemma triage_fold r id l t :
  let known := get_model_profile_names r id in
  foldl (triage_profile r id) t l =
  mkTriage (created t ++ filter (λ p, p ∉ known) l.*1)
    (skipped t ++ (filter (λ e, e.1 ∈ known ∧ clashes r id e = false) l).*1)
    (conflicting t ++ (filter (λ e, e.1 ∈ known ∧ clashes r id e = true) l).*1).
Proof.
  cbn zeta. revert t. induction l as [|[name v] l IH]; intros t; [destruct t; cbn; by rewrite !app_nil_r|].
  cbn [foldl fmap list_fmap]. rewrite IH, !filter_cons. unfold triage_profile at 1 2 3, clashes. cbn [fst snd].
  fold (profile_dict v).
  destruct (decide (name ∈ get_model_profile_names r id)) as [Hk|Hk].
  - rewrite (decide_False (P := name ∉ _)) by auto.
    destruct (match get_val name (profiles_in (full_config_of r id)) with
              | VNone => false | _ => negb (py_eq (get_val name (profiles_in (full_config_of r id))) v) end) eqn:Ec.
    + rewrite (decide_False (P := _ ∧ true = false)), (decide_True (P := _ ∧ true = true)) by naive_solver.
      cbn. by rewrite <- app_assoc.
    + destruct (dict_get name _) as [stored|] eqn:Es.
      * destruct (py_eq (VDict stored) _) eqn:Ep; cbn [negb].
        -- rewrite (decide_True (P := _ ∧ false = false)), (decide_False (P := _ ∧ false = true)) by naive_solver.
           cbn. by rewrite <- app_assoc.
        -- rewrite (decide_False (P := _ ∧ true = false)), (decide_True (P := _ ∧ true = true)) by naive_solver.
           cbn. by rewrite <- app_assoc.
      * rewrite (decide_True (P := _ ∧ false = false)), (decide_False (P := _ ∧ false = true)) by naive_solver.
        cbn. by rewrite <- app_assoc.
  - rewrite (decide_True (P := name ∉ _)) by done. rewrite !(decide_False (P := _ ∧ _)) by tauto. cbn. by rewrite <- app_assoc.
Qed.

Lemma created_in_body r id ps p : p ∈ created (triage_body r id ps) → p ∈ dict_keys ps.
Proof.
  unfold triage_body. destruct (dict_mem id (models r)); [|done]. rewrite triage_fold. cbn.
  by intros [_ ?]%list_elem_of_filter.
Qed.

Lemma get_fill_gaps config stored k :
  dict_wf config →
  dict_get k (foldl fill_gap stored config) =
  match dict_get k stored with
  | Some v => Some v
  | None => if decide (k = "profiles"%string) then None else dict_get k config
  end.
Proof.
  revert stored. induction config as [|[key v] config IH]; intros stored Hwf.
  { cbn. destruct (dict_get k stored); [done|by case_decide]. }
  unfold dict_wf in Hwf. rewrite dict_keys_cons in Hwf. apply NoDup_cons in Hwf as [Hk Hwf].
  cbn [foldl dict_get]. rewrite IH by done. cbn [fill_gap].
  destruct (bool_decide (key = "profiles"%string)) eqn:Ep; cbn [orb].
  { apply bool_decide_eq_true in Ep as ->. destruct (dict_get k stored); [done|]. by repeat case_decide. }
  apply bool_decide_eq_false in Ep. destruct (dict_mem key stored) eqn:Em.
  - destruct (dict_get k stored) eqn:Es; [done|]. case_decide; [done|]. rewrite decide_False; [done|].
    intros ->. unfold dict_mem in Em. by rewrite Es in Em.
  - rewrite dict_get_set. destruct (decide (key = k)) as [->|Hne].
    + rewrite decide_False, decide_True by done. unfold dict_mem in Em. by destruct (dict_get k stored).
    + destruct (dict_get k stored); [done|]. rewrite (decide_False (P := k = key)) by congruence. done.
Qed.

Lemma fill_gaps_wf config stored : dict_wf stored → dict_wf (foldl fill_gap stored config).
Proof.
  revert stored. induction config as [|[key v] config IH]; intros stored Hwf; [done|]. cbn. apply IH.
  destruct (_ || _); [done|by apply dict_set_wf].
Qed.

Lemma fill_gaps_profiles config stored : dict_wf config → profiles_in (foldl fill_gap stored config) = profiles_in stored.
Proof.
  intros. unfold profiles_in, get_val. rewrite get_fill_gaps by done. rewrite decide_True by done.
  by destruct (dict_get "profiles" stored).
Qed.

Lemma get_insert_created ps acc created p :
  (∀ q, q ∈ created → ∃ d, dict_get q ps = Some (VDict d)) →
  dict_get p (foldl (insert_created ps) acc created) = if decide (p ∈ created) then dict_get p ps else dict_get p acc.
Proof.
  revert acc. induction created as [|q created IH]; intros acc Hc; cbn [foldl].
  { rewrite decide_False; [done|apply not_elem_of_nil]. }
  rewrite IH by (intros; apply Hc; by right). unfold insert_created.
  destruct (Hc q) as [d Hd]; [by left|]. rewrite Hd, dict_get_set.
  destruct (decide (q = p)) as [->|Hne].
  - rewrite (decide_True (P := p ∈ p :: created)) by by left. by case_decide.
  - destruct (decide (p ∈ created)) as [Hp|Hp]; [rewrite decide_True by by right|rewrite decide_False]; try done.
    intros [?|?]%elem_of_cons; congruence.
Qed.

Lemma insert_created_wf ps acc created : dict_wf acc → dict_wf (foldl (insert_created ps) acc created).
Proof.
  revert acc. induction created as [|q created IH]; intros acc Hwf; [done|]. cbn. apply IH. unfold insert_created.
  destruct (dict_get q ps) as [[]|]; try done. by apply dict_set_wf.
Qed.

Lemma append_profiles stored config id ps created :
  dict_wf config → profiles_in (append_config stored config id ps created) = foldl (insert_created ps) (profiles_in stored) created.
Proof.
  intros Hwf. unfold append_config. cbn zeta. rewrite fill_gaps_profiles by done.
  destruct (dict_mem "sie_id" _); [|rewrite profiles_in_set by done]; by rewrite profiles_in_put.
Qed.

Lemma get_fold_set {V} (f : string → V) (l : list string) (d : list (string * V)) k :
  dict_get k (foldl (λ acc x, dict_set x (f x) acc) d l) = if decide (k ∈ l) then Some (f k) else dict_get k d.
Proof.
  revert d. induction l as [|x l IH]; intros d; cbn [foldl]; [rewrite decide_False; [done|apply not_elem_of_nil]|].
  rewrite IH, dict_get_set. destruct (decide (x = k)) as [->|Hne].
  - rewrite (decide_True (P := k ∈ k :: l)) by by left. by case_decide.
  - destruct (decide (k ∈ l)) as [Hk|Hk]; [by rewrite decide_True by by right|].
    rewrite decide_False; [done|]. intros [?|?]%elem_of_cons; congruence.
Qed.

Lemma coherent_doc r id : coherent r → doc_ok (full_config_of r id).
Proof.
  intros Hc. unfold full_config_of. destruct (dict_get id (model_full_configs r)) as [c|] eqn:E; cbn.
  - by eapply (mt_docs r (co_tables r Hc)).
  - split; [apply NoDup_nil_2|apply NoDup_nil_2|done].
Qed.

Lemma coherent_canonical r id p :
  coherent r → dict_get p (default [] (dict_get id (model_profile_configs r))) = canonical_of (full_config_of r id) p.
Proof.
  intros Hc. pose proof (mt_configs r (co_tables r Hc) id p) as H. pose proof (mt_configs_dom r (co_tables r Hc) id) as Hd.
  rewrite !dict_mem_is_Some in Hd. unfold full_config_of.
  destruct (dict_get id (model_profile_configs r)) as [cs|], (dict_get id (model_full_configs r)) as [c|]; try done.
Qed.

Lemma coherent_profiles r id :
  coherent r → default ∅ (dict_get id (model_profiles r)) = names_of (profiles_in (full_config_of r id)).
Proof.
  intros Hc. rewrite (mt_profiles r (co_tables r Hc)). unfold full_config_of.
  by destruct (dict_get id (model_full_configs r)).
Qed.

(** The state after a successful append *)
Lemma add_result r config r' cr sk aff :
  body_ok config → add_model_config r config = Ret (r', (cr, sk, aff)) →
  ∃ id config' t names canonical,
    appends r config config' id t ∧ cr = created t ∧ sk = skipped t ∧
    names = default ∅ (dict_get id (model_profiles r)) ∪ list_to_set cr ∧
    (∀ p, dict_get p canonical =
       if decide (p ∈ cr) then Some (canonical_profile_dict (profile_dict (get_val p (profiles_in config'))))
       else dict_get p (default [] (dict_get id (model_profile_configs r)))) ∧
    r' = install r id names canonical (append_config (full_config_of r id) config' id (profiles_in config') cr) ∧
    ∃ more, aff = from_keys (sorted_strings (matching_bundle_names (adapter_modules_for_profiles
      (profiles_in (append_config (full_config_of r id) config' id (profiles_in config') cr)) None) (bundles r) ++ more)).
Proof.
  intros Hb H. unfold add_model_config in H. ModelConfig.ok_bind H. destruct a as [config' [[cr' sk'] aff']].
  destruct (validate_config_appends _ _ _ _ _ _ Hb E) as (id & t & Hap & -> & ->).
  unfold string_id in H. rewrite (ap_id _ _ _ _ _ Hap) in H. cbn [res_bind] in H. injection H as <- <- <- <-.
  do 5 eexists. split_and!; try done; [|by eexists]. intros p. by rewrite get_fold_set.
Qed.

Lemma body_profile ps p : (∀ q v, dict_get q ps = Some v → valid_profile_name q = true ∧ ∃ d, v = VDict d) →
  p ∈ dict_keys ps → ∃ d, dict_get p ps = Some (VDict d).
Proof. intros Hv [v Hp]%dict_get_is_Some. destruct (Hv p v Hp) as (_ & d & ->). eauto. Qed.

Lemma append_doc_ok stored config id ps cr :
  doc_ok stored → dict_wf config → (∀ q, q ∈ cr → ∃ d, dict_get q ps = Some (VDict d)) →
  doc_ok (append_config stored config id ps cr).
Proof.
  intros [W Wp Hp] Hwf Hc. split.
  - unfold append_config. cbn zeta. destruct (dict_mem _ _); repeat apply dict_set_wf; by apply fill_gaps_wf.
  - rewrite append_profiles by done. by apply insert_created_wf.
  - intros p v. rewrite append_profiles, get_insert_created by done.
    case_decide as Hin; [destruct (Hc p Hin) as [d ->]; intros [= <-]; eauto|apply Hp].
Qed.

Lemma add_coherent r config r' cr sk aff :
  coherent r → body_ok config → add_model_config r config = Ret (r', (cr, sk, aff)) →
  apart (model_full_configs r') → coherent r'.
Proof.
  intros Hc Hb (id & config' & t & names & canonical & Hap & -> & -> & -> & Hcan & -> & _)%add_result Ha; [|done].
  cbn in Ha. destruct Hap as [_ [Hwf' _] _ _ Hv -> _ _].
  assert (∀ q, q ∈ created (triage_body r id (profiles_in config')) → ∃ d, dict_get q (profiles_in config') = Some (VDict d)) as Hin.
  { intros q Hq%created_in_body. by apply body_profile. }
  apply install_coherent; [done|apply append_doc_ok; [by apply coherent_doc|done|done]|done| |].
  - rewrite coherent_profiles by done. unfold names_of. rewrite append_profiles by done. apply set_eq. intros p.
    rewrite elem_of_union, !elem_of_list_to_set, <- !dict_get_is_Some, get_insert_created by done.
    case_decide as Hp; [|tauto]. destruct (Hin p Hp) as [d ->]. naive_solver.
  - intros p. rewrite Hcan, coherent_canonical by done. unfold canonical_of. rewrite append_profiles, get_insert_created by done.
    case_decide as Hp; [|done]. unfold get_val. by destruct (Hin p Hp) as [d ->].
Qed.

Lemma replace_result r config r' aff :
  body_ok config → replace_model_config r config = Ret (r', aff) →
  ∃ id config', normalize_pool_name config = Ret config' ∧ get_val "sie_id" config' = VStr id ∧ body_ok config' ∧
    (∀ p v, dict_get p (profiles_in config') = Some v → valid_profile_name p = true ∧ ∃ d, v = VDict d) ∧
    r' = install r id (names_of (profiles_in config')) ((λ e, (e.1, canonical_profile_dict (profile_dict e.2))) <$> profiles_in config')
           (replaced_config config' id) ∧
    ∃ more, aff = from_keys (sorted_strings (matching_bundle_names (default ∅ (dict_get id (model_adapter_modules r))) (bundles r) ++
      matching_bundle_names (adapter_modules_for_profiles (profiles_in (replaced_config config' id)) None) (bundles r) ++ more)).
Proof.
  intros Hb H. unfold replace_model_config in H. ModelConfig.ok_bind H. ModelConfig.ok_bind H. injection H as <- <-.
  destruct (validate_structure_ok _ _ _ Hb E) as (Hb' & Hn & _ & Hv). exists a0, a. split_and!; try done; [|by eexists].
  unfold string_id in E0. destruct (get_val "sie_id" a); try done. by injection E0 as ->.
Qed.

Lemma replaced_profiles config id : profiles_in (replaced_config config id) = profiles_in config.
Proof. unfold replaced_config. rewrite profiles_in_set by done. apply profiles_in_put. Qed.

Lemma replace_coherent r config r' aff :
  coherent r → body_ok config → replace_model_config r config = Ret (r', aff) →
  apart (model_full_configs r') → coherent r'.
Proof.
  intros Hc Hb (id & config' & _ & _ & [Hwf' Hwp] & Hv & -> & _)%replace_result Ha; [|done]. cbn in Ha.
  apply install_coherent; [done| |done|by rewrite replaced_profiles|].
  - split; rewrite ?replaced_profiles; [by repeat apply dict_set_wf|done|]. intros p v Hp. apply (Hv p v Hp).
  - intros p. unfold canonical_of. rewrite replaced_profiles.
    apply (dict_get_fmap (λ _ v, canonical_profile_dict (profile_dict v))).
Qed.

(** ** Removals *)

(** Reduce the projections of a registry that is built. *)
Ltac proj :=
  cbn [bundles models model_names_lower variant_models variant_names_lower variant_base_models model_adapter_modules
       model_profiles model_profile_configs model_full_configs unrouteable_models bundle_hash_cache].

Lemma serving_app F G : serving (F ++ G) = serving F ++ serving G.
Proof. unfold serving. by rewrite fmap_app, concat_app. Qed.

Lemma serving_perm F G : F ≡ₚ G → serving F ≡ₚ serving G.
Proof.
  intros Hp. unfold serving. induction Hp as [|x F G _ IH|x y F|F G H _ IH1 _ IH2]; cbn [fmap list_fmap concat].
  - done.
  - by rewrite IH.
  - rewrite !app_assoc. apply Permutation_app_tail, Permutation_app_comm.
  - by rewrite IH1.
Qed.

Lemma apart_del F id : apart F → apart (dict_del id F).
Proof.
  intros Ha. destruct (dict_get id F) as [c|] eqn:E.
  - unfold apart in *. rewrite (serving_perm _ _ (dict_del_perm id c F E)) in Ha.
    change ((id, c) :: dict_del id F) with ([(id, c)] ++ dict_del id F) in Ha. rewrite serving_app, fmap_app in Ha.
    by apply NoDup_app in Ha as (_ & _ & ?).
  - apply dict_get_None in E. by rewrite dict_del_absent.
Qed.

(** The tables without a model's entries *)
Lemma get_others {V} (d : list (string * V)) id k :
  dict_wf d → dict_get k (filter (λ e, e.1 ≠ id) d) = if decide (k = id) then None else dict_get k d.
Proof.
  intros Hwf. rewrite dict_get_filter by done. destruct (dict_get k d); [|by case_decide]. cbn. repeat case_decide; naive_solver.
Qed.

Lemma mem_others {V} (d : list (string * V)) id k :
  dict_wf d → dict_mem k (filter (λ e, e.1 ≠ id) d) = if decide (k = id) then false else dict_mem k d.
Proof. intros Hwf. unfold dict_mem. rewrite get_others by done. by case_decide. Qed.

Lemma others_del (F : docs) id : dict_wf F → filter (λ e, e.1 ≠ id) F = dict_del id F.
Proof. intros. by rewrite dict_del_filter. Qed.

Lemma removed_variants (d : list (string * string)) id s : dict_wf d → s ∈ (filter (λ e, e.2 = id) d).*1 ↔ dict_get s d = Some id.
Proof.
  intros Hwf. rewrite list_elem_of_fmap. split.
  - intros ([s' i] & -> & [Hi He]%list_elem_of_filter). cbn in Hi. subst. by apply dict_elem_get.
  - intros H%dict_get_Some_elem. exists (s, id). split; [done|]. by apply list_elem_of_filter.
Qed.

Lemma remove_coherent r id r' aff :
  coherent r → remove_model_config r id None = Ret (r', aff) → coherent r'.
Proof.
  intros Hc. unfold remove_model_config. destruct (negb _); [by intros [= <- _]|]. cbn zeta. intros [= <- _].
  destruct (co_tables r Hc) as [W Hd Wm Hm Hp Hg Hgd W1 W2 W3 W4 Hl]. pose proof (co_variants r Hc) as Hv.
  assert (∀ s id' p c, variant_of (model_full_configs r) s id' p c → dict_get s (variant_base_models r) = Some id') as Hbase.
  { intros s id' p c Ho. apply (base_of_variant _ _ (variants_of r) _ _ _ _ (co_variants r Hc) Ho). }
  pose proof Hv as [Vm Vl Vb]. split; cbn [model_full_configs models bundles unrouteable_models].
  - split; proj; try (by apply dict_filter_wf).
    + intros id' c. rewrite get_others by done. case_decide; [done|apply Hd].
    + intros id'. rewrite !get_others by done. case_decide; [done|apply Hm].
    + intros id'. rewrite !get_others by done. case_decide; [done|apply Hp].
    + intros id' p. rewrite !get_others by done. case_decide; [done|apply Hg].
    + intros id'. rewrite !mem_others by done. case_decide; [done|apply Hgd].
    + intros s id'. rewrite dict_get_filter by done. rewrite <- dict_get_is_Some, get_others by done. specialize (Hl s id').
      rewrite <- dict_get_is_Some in Hl. destruct (decide (id' = id)) as [->|Hi].
      * split; [|by intros [[? ?] _]]. destruct (dict_get s (model_names_lower r)); [|done]. by case_decide; [intros [= ->]|].
      * rewrite <- Hl. destruct (dict_get s (model_names_lower r)); [|done]. cbn. case_decide as Hn; [done|].
        split; [done|]. intros [= ->]. by destruct Hn.
  - rewrite others_del by done. cbn. apply (mkVariantTables (bundles r)); cbn; apply filter_table; try done; cbn;
      intros s id' p c Ho; rewrite ?(removed_variants (variant_base_models r)) by apply Vb;
      rewrite <- ?(variant_of_id _ _ _ _ _ Ho); try done; rewrite (Hbase _ _ _ _ Ho); naive_solver.
  - rewrite others_del by done. apply apart_del, Hc.
  - intros id'. rewrite !get_others by done. case_decide; [done|apply Hc].
  - apply dict_filter_wf, Hc.
  - intros id'. rewrite !get_others by (done || apply Hc). case_decide; [done|apply Hc].
Qed.

(** ** Loading *)

Section loading.
Variable repr : pyval → string.

(** The id and the document a model file contributes *)
Definition kept (doc : option pyval) : option (string * dict) :=
  match doc with
  | Some (VDict config) =>
      let raw := raw_model_name config in
      if negb (truthy raw) then None
      else
        match default (VDict []) (dict_get "profiles"%string config) with
        | VDict profiles =>
            if forallb (λ p, bool_decide (p = "default"%string) || valid_profile_name p) (dict_keys profiles)
            then Some (ModelConfig.py_str repr raw, config) else None
        | _ => None
        end
  | _ => None
  end.

(** A file whose mapping has distinct keys, and mappings for profiles *)
Definition tidy (doc : option pyval) : Prop := ∀ config, doc = Some (VDict config) → doc_ok config.

Record loading (bs : list (string * BundleInfo)) (F : docs) (acc : registry * list (string * gset string)) : Prop := mkLoading {
  ld_bundles : bundles acc.1 = bs;
  ld_docs : model_full_configs acc.1 = F;
  ld_tables : model_tables acc.1;
  ld_variants : variant_tables bs F (variants_of acc.1);
  ld_models : ∀ id, dict_get id (models acc.1) = (λ _, mkInfo id []) <$> dict_get id F;
  ld_route : ∀ id, dict_get id acc.2 = (λ c, base_route_adapter_modules (profiles_in c)) <$> dict_get id F;
}.

Lemma canonical_all (ps : dict) :
  (∀ p v, dict_get p ps = Some v → ∃ d, v = VDict d) → dict_wf ps →
  mapM (λ e : string * pyval, match e.2 with VDict p => Some (e.1, canonical_profile_dict p) | _ => None end) ps =
  Some ((λ e, (e.1, canonical_profile_dict (profile_dict e.2))) <$> ps).
Proof.
  intros Hps Hwf. apply mapM_Some. rewrite Forall2_fmap_r. apply Forall_Forall2_diag, Forall_forall. intros [p v] He.
  cbn. by destruct (Hps p v (dict_elem_get _ _ _ Hwf He)) as [d ->].
Qed.

Lemma default_profiles config ps :
  default (VDict []) (dict_get "profiles"%string config) = VDict ps → profiles_in config = ps.
Proof. unfold profiles_in, get_val. destruct (dict_get "profiles" config) as [v|]; cbn; [by intros ->|by intros [= <-]]. Qed.

Lemma load_model_skip acc doc : kept doc = None → load_model repr acc doc = acc.
Proof.
  destruct acc as [r route], doc as [[| | | | | | |config]|]; try done. cbn. destruct (negb _); [done|].
  destruct (default _ _) as [| | | | | | |ps]; try done. by destruct (forallb _ _).
Qed.

Lemma load_model_keep bs F acc doc id c :
  loading bs F acc → kept doc = Some (id, c) → tidy doc → id ∉ dict_keys F → apart (dict_set id c F) →
  loading bs (dict_set id c F) (load_model repr acc doc).
Proof.
  intros [Hbs HF Ht Hv Hm Hr] Hk Htidy Hfresh Ha. destruct acc as [r route], doc as [[| | | | | | |config]|]; try done.
  cbn [fst snd] in *. unfold kept in Hk. unfold load_model.
  destruct (truthy (raw_model_name config)) eqn:Eraw; [cbn [negb] in *|done].
  destruct (default _ _) as [| | | | | | |ps] eqn:Eps; try done.
  destruct (forallb _ _); [|done]. cbn [negb]. injection Hk as Hid <-.
  rewrite Hid. clear Hid Eraw. destruct (Htidy config eq_refl) as [Hwf Hwp Hps]. pose proof (Htidy config eq_refl) as Hok.
  apply default_profiles in Eps as <-. rewrite (canonical_all _ Hps Hwp).
  subst F.
  assert (id ∉ dict_keys (model_full_configs r)) as Hn by done.
  assert (dict_wf (model_full_configs r)) as W by apply Ht.
  split; cbn [fst snd]; proj; try done.
  - destruct Ht as [_ Hd Wm Hmm Hp Hg Hgd W1 W2 W3 W4 Hl]. split; proj; try (by apply dict_set_wf).
    + intros id' c. rewrite dict_get_set. case_decide; [by intros [= <-]|apply Hd].
    + intros id'. rewrite !dict_get_set. case_decide; [done|apply Hmm].
    + intros id'. rewrite !dict_get_set. case_decide; [done|apply Hp].
    + intros id' p. rewrite !dict_get_set. case_decide; [|apply Hg].
      apply (dict_get_fmap (λ _ v, canonical_profile_dict (profile_dict v))).
    + intros id'. rewrite !dict_mem_is_Some, !dict_get_set. case_decide; [done|]. rewrite <- !dict_mem_is_Some. apply Hgd.
    + intros s id'. rewrite dict_keys_set, decide_False by done. rewrite dict_get_set, elem_of_app, list_elem_of_singleton.
      case_decide as Hs.
      * subst s. split; [intros [= <-]; auto|]. intros [Hin Hl']. f_equal.
        apply (apart_base (dict_set id config (model_full_configs r))); try done; [by apply dict_set_wf| |];
          rewrite dict_keys_set, decide_False by done; rewrite elem_of_app, list_elem_of_singleton; auto.
      * rewrite Hl. naive_solver.
  - unfold variants_of. proj. rewrite Hbs. unfold variants_of in Hv.
    destruct (put_variants _ _ _ _ _) as [v1 v2 v3] eqn:Eput. cbn. rewrite <- Eput.
    apply (put_variants_tables _ id config); [done|done|]. by rewrite dict_del_absent.
  - intros id'. rewrite !dict_get_set. case_decide; [by subst|apply Hm].
  - intros id'. rewrite !dict_get_set. case_decide; [done|apply Hr].
Qed.

Lemma load_models bs l acc F :
  loading bs F acc → Forall tidy l → apart (F ++ omap kept l) →
  loading bs (F ++ omap kept l) (foldl (load_model repr) acc l).
Proof.
  revert acc F. induction l as [|doc l IH]; intros acc F Hld Htidy Ha; cbn [foldl omap list_omap] in *.
  { by rewrite app_nil_r. }
  apply Forall_cons in Htidy as [Htd Htl]. fold (omap kept l) in *.
  destruct (kept doc) as [[id c]|] eqn:Ek; [|rewrite load_model_skip by done; by apply IH].
  rewrite (cons_middle (id, c)), app_assoc in *. apply IH; [|done|done].
  assert (apart (F ++ [(id, c)])) as Ha1.
  { unfold apart in *. rewrite serving_app, fmap_app in Ha. by apply NoDup_app in Ha as (? & _ & _). }
  assert (id ∉ dict_keys F) as Hfresh; [|rewrite <- dict_set_fresh in Ha1 |- * by done; by apply load_model_keep].
  intros Hin. unfold apart in Ha1. rewrite serving_app, fmap_app in Ha1.
  apply NoDup_app in Ha1 as (_ & Hd & _). apply (Hd (lower id)); [|by left].
  pose proof (mt_docs_wf _ (ld_tables _ _ _ Hld)) as W. rewrite (ld_docs _ _ _ Hld) in W.
  apply dict_get_is_Some in Hin as [c' Hc']. apply list_elem_of_fmap. exists (id, (id, None)). split; [done|].
  by eapply serving_base.
Qed.

Lemma loading_empty bs : loading bs [] (empty_registry bs, []).
Proof.
  assert (∀ {V} kf (vf : string → dict → string → V), indexes kf vf [] []) as Hi.
  { intros. split; [apply NoDup_nil_2|]. intros k w. split; [done|]. by intros (? & ? & ? & ? & (? & _) & _). }
  split; try done. split; try done; try (apply NoDup_nil_2).
  intros s id. split; [done|]. intros [H _]. by apply elem_of_nil in H.
Qed.

(** A registry loaded from files holds their documents, and its tables are theirs. *)
Lemma reload_coherent bundle_docs model_docs :
  Forall tidy model_docs → apart (omap kept model_docs) →
  let r := reload repr bundle_docs model_docs in
  coherent r ∧ model_full_configs r = omap kept model_docs ∧ bundles r = foldl load_bundle [] bundle_docs.
Proof.
  intros Htidy Ha. cbn zeta. unfold reload. generalize (foldl load_bundle [] bundle_docs). intros bs.
  pose proof (load_models bs model_docs _ [] (loading_empty _) Htidy Ha) as Hl.
  destruct (foldl (load_model repr) _ model_docs) as [r route]. destruct Hl as [Hbs HF Ht Hv Hm Hr]. cbn [fst snd app] in *.
  rewrite HF. split; [|done]. rewrite <- HF in *. destruct Ht as [W Hd Wm Hmm Hp Hg Hgd W1 W2 W3 W4 Hl].
  pose (f := λ k i, mkInfo (mi_name i) (matching_bundle_names (default ∅ (dict_get k route)) bs)).
  pose (g := λ k (_ : ModelInfo), missing_modules bs (default ∅ (dict_get k (model_adapter_modules r)))).
  assert (dict_wf ((λ e, (e.1, g e.1 e.2)) <$> models r)) as Hgw by (unfold dict_wf; by rewrite dict_keys_fmap).
  assert (dict_wf ((λ e, (e.1, f e.1 e.2)) <$> models r)) as Hfw by (unfold dict_wf; by rewrite dict_keys_fmap).
  split; proj; try done.
  - intros id. etrans; [exact (dict_get_fmap f id (models r))|]. rewrite Hm. unfold f. cbn. rewrite Hr. by destruct (dict_get id (model_full_configs r)).
  - by apply (dict_filter_wf (λ e, e.2 ≠ ∅)).
  - intros id. etrans; [exact (dict_get_filter (λ e, e.2 ≠ ∅) id _ Hgw)|]. rewrite (dict_get_fmap g), Hm. unfold g. rewrite Hmm.
    destruct (dict_get id (model_full_configs r)) as [c|]; [|done]. cbn. unfold missing_of. proj.
    destruct (decide (missing_modules _ _ = ∅)) as [E|E]; [by rewrite decide_False by auto|by rewrite decide_True].
Qed.
End loading.
End ConfigTables.
