(* ===== verification/ConfigRouting.v ===== *)
(** What the configuration registry promises, in every state its writes can reach.

    [reachable] are the registries that [reload] and any sequence of appends, replacements,
    removals and hash reads lead to, with the documents on the way.  The theorems: routing,
    cached hashes and a restart follow the documents alone; an append never changes what is
    stored; a bundle that a write does not announce keeps its hash.  They assume that the
    serving identities of the documents on the way were always apart ([Forall apart trail]):
    the registry does not check it, and the end of the file has what happens otherwise. *)

From Stdlib Require Import Ascii.
From stdpp Require Import strings.
From S2P Require Import Prelude PyFloat PyDict PyStr Handlers PyVal ModelConfig ConfigProfiles ConfigRegistry ConfigTables.
Import Handlers PyVal ConfigProfiles ConfigRegistry ConfigTables.
Local Open Scope Z_scope.
Local Open Scope py_scope.

Module ConfigRouting.

(** ** The reference: routing read off the documents *)

Definition same_identity (name : string) (e : string * (string * option string)) : bool := bool_decide (lower e.1 = lower name).

Definition route_modules (F : docs) (route : string * option string) : gset string :=
  let profiles := profiles_in (default [] (dict_get route.1 F)) in
  match route.2 with
  | None => base_route_adapter_modules profiles
  | Some p => module_set (profile_module profiles p)
  end.

(** The compatible bundles of a name, best first *)
Definition reference_bundles (bs : list (string * BundleInfo)) (F : docs) (name : string) : list string :=
  match List.find (same_identity name) (serving F) with
  | Some e => matching_bundle_names (route_modules F e.2) bs
  | None => []
  end.

Definition reference_resolve (bs : list (string * BundleInfo)) (F : docs) (model : string) (bundle_override : option string) :
    res route_error string :=
  match reference_bundles bs F model with
  | [] => Raise (ModelNotFound model)
  | (best :: _) as l =>
      match bundle_override with
      | None => Ret best
      | Some b => if bool_decide (b ∈ l) then Ret b else Raise (BundleConflict model b l)
      end
  end.

(** ** Reachable registries *)

Section reachable.
Context (repr : pyval → string) (digest : pyval → string).

(** [reachable trail r]: [r] is reached, and [trail] are the documents it had on the way,
    the latest first *)
Inductive reachable : list docs → registry → Prop :=
  | reach_load bundle_docs model_docs :
      Forall tidy model_docs → reachable [omap (kept repr) model_docs] (reload repr bundle_docs model_docs)
  | reach_add trail r config r' out :
      reachable trail r → body_ok config → add_model_config r config = Ret (r', out) → reachable (model_full_configs r' :: trail) r'
  | reach_replace trail r config r' affected :
      reachable trail r → body_ok config → replace_model_config r config = Ret (r', affected) →
      reachable (model_full_configs r' :: trail) r'
  | reach_remove trail r id fallback r' affected :
      reachable trail r → (∀ c, fallback = Some c → body_ok c) → remove_model_config r id fallback = Ret (r', affected) →
      reachable (model_full_configs r' :: trail) r'
  | reach_hash trail r bundle : reachable trail r → reachable trail (compute_bundle_config_hash digest r bundle).1.

(** A bundle is stored under its name. *)
Definition bundles_named (bs : list (string * BundleInfo)) : Prop :=
  dict_wf bs ∧ ∀ k b, dict_get k bs = Some b → b_name b = k.

(** The cache holds current hashes only. *)
Definition cache_current (r : registry) : Prop :=
  ∀ b h, dict_get b (bundle_hash_cache r) = Some h → h = compute_bundle_config_hash_locked digest r b None.

Lemma load_bundles_named docs bs : bundles_named bs → bundles_named (foldl load_bundle bs docs).
Proof.
  revert bs. induction docs as [|d docs IH]; intros bs Hbs; [done|]. cbn. apply IH.
  destruct d as [d|]; [|done]. cbn. destruct (negb _); [done|]. destruct (existsb _ _); [done|].
  destruct Hbs as [Hwf Hn]. split; [by apply dict_set_wf|]. intros k b. rewrite dict_get_set.
  case_decide; [by intros [= <-]|apply Hn].
Qed.

Lemma reload_cache bundle_docs model_docs : bundle_hash_cache (reload repr bundle_docs model_docs) = [].
Proof. unfold reload. by destruct (foldl _ _ _). Qed.

Lemma add_written r config r' cr sk aff :
  add_model_config r config = Ret (r', (cr, sk, aff)) → bundles r' = bundles r ∧ bundle_hash_cache r' = [].
Proof.
  intros H. unfold add_model_config in H. ModelConfig.ok_bind H. destruct a as [? [[? ?] ?]]. ModelConfig.ok_bind H.
  by injection H as <- _ _ _.
Qed.

Lemma replace_written r config r' aff :
  replace_model_config r config = Ret (r', aff) → bundles r' = bundles r ∧ bundle_hash_cache r' = [].
Proof. intros H. unfold replace_model_config in H. do 2 ModelConfig.ok_bind H. by injection H as <- _. Qed.

Lemma remove_written r id fallback r' aff :
  remove_model_config r id fallback = Ret (r', aff) → bundles r' = bundles r ∧ (r' = r ∨ bundle_hash_cache r' = []).
Proof.
  unfold remove_model_config. destruct fallback as [c|].
  - destruct (py_eq _ _); [|done]. intros [? ?]%replace_written. auto.
  - destruct (negb _); [intros [= <- _]; auto|]. intros [= <- _]. auto.
Qed.

Lemma remove_keeps r id fallback r' aff :
  coherent r → (∀ c, fallback = Some c → body_ok c) → remove_model_config r id fallback = Ret (r', aff) →
  apart (model_full_configs r') → coherent r'.
Proof.
  intros Hc Hb. destruct fallback as [c|]; [|intros; by eapply remove_coherent]. unfold remove_model_config.
  destruct (py_eq _ _); [|done]. intros. eapply replace_coherent; eauto.
Qed.

Lemma reachable_coherent trail r : reachable trail r → Forall apart trail → coherent r ∧ bundles_named (bundles r) ∧ cache_current r.
Proof.
  assert (∀ r', bundle_hash_cache r' = [] → cache_current r') as Hempty by (intros r' E b h; by rewrite E).
  induction 1 as [bd md Ht|trail r config r' [[cr sk] aff] _ IH Hb Hadd|trail r config r' aff _ IH Hb Hrep
                 |trail r id fb r' aff _ IH Hb Hrem|trail r b _ IH]; intros Hall; [|apply Forall_cons in Hall as [Ha Hall]..|];
    [apply Forall_cons in Hall as [Ha _]|destruct (IH Hall) as (Hc & Hn & Hcc)..].
  - destruct (reload_coherent repr bd md Ht Ha) as (Hc & _ & Hbs). split_and!; [done| |by apply Hempty, reload_cache].
    rewrite Hbs. apply load_bundles_named. split; [apply NoDup_nil_2|done].
  - destruct (add_written _ _ _ _ _ _ Hadd) as [-> ?]. split_and!; [by eapply add_coherent|done|by apply Hempty].
  - destruct (replace_written _ _ _ _ Hrep) as [-> ?]. split_and!; [by eapply replace_coherent|done|by apply Hempty].
  - destruct (remove_written _ _ _ _ _ Hrem) as [Hbs [->|?]]; [done|]. rewrite Hbs.
    split_and!; [by eapply remove_keeps|done|by apply Hempty].
  - unfold compute_bundle_config_hash. destruct (dict_get b (bundle_hash_cache r)) eqn:E; [done|]. cbn.
    split_and!; [|done|].
    + destruct Hc as [Ht Hv Ha Hm Hu Hun]. split; try done. by destruct Ht.
    + intros b' h. cbn. rewrite dict_get_set. case_decide; [intros [= <-]; by subst|]. apply Hcc.
Qed.
End reachable.

(** ** Routing *)

Lemma find_identity F name s route :
  apart F → (s, route) ∈ serving F → lower s = lower name → List.find (same_identity name) (serving F) = Some (s, route).
Proof.
  intros Ha Hin Hl. destruct (List.find (same_identity name) (serving F)) as [[s' route']|] eqn:E.
  - apply List.find_some in E as [Hin' Hs']. apply list_elem_of_In in Hin'. unfold same_identity in Hs'. cbn in Hs'.
    apply bool_decide_eq_true in Hs'. destruct (apart_same F s route s' route') as [-> ->]; [done..|congruence|done].
  - apply list_elem_of_In in Hin. pose proof (List.find_none _ _ E _ Hin) as Hn. unfold same_identity in Hn. cbn in Hn.
    by apply bool_decide_eq_false in Hn.
Qed.

Lemma find_nobody F name : (∀ s route, (s, route) ∈ serving F → lower s ≠ lower name) → List.find (same_identity name) (serving F) = None.
Proof.
  intros Hn. destruct (List.find (same_identity name) (serving F)) as [[s route]|] eqn:E; [|done].
  apply List.find_some in E as [Hin Hs]. apply list_elem_of_In in Hin. apply bool_decide_eq_true in Hs. by destruct (Hn _ _ Hin).
Qed.

Lemma lookup_base r id c :
  coherent r → dict_get id (model_full_configs r) = Some c →
  dict_get id (models r) = Some (mkInfo id (matching_bundle_names (route_modules (model_full_configs r) (id, None)) (bundles r))).
Proof. intros Hc Hid. rewrite (co_models r Hc), Hid. unfold route_modules. cbn. by rewrite Hid. Qed.

(** What [lookup_route] finds is the entry of the identity that equals the name up to case. *)
Lemma lookup_route_spec r name :
  coherent r →
  (λ i, mi_bundles i) <$> lookup_route r name =
  (λ e, matching_bundle_names (route_modules (model_full_configs r) e.2) (bundles r)) <$>
    List.find (same_identity name) (serving (model_full_configs r)).
Proof.
  intros Hc. pose proof (mt_docs_wf r (co_tables r Hc)) as Hwf. pose proof (co_apart r Hc) as Ha.
  pose proof (co_variants r Hc) as [[_ Vm] [_ Vl] _]. unfold lookup_route.
  destruct (dict_get (lower name) (model_names_lower r)) as [id|] eqn:El.
  { apply (mt_lower r (co_tables r Hc)) in El as [[c Hid]%dict_get_is_Some El].
    rewrite (find_identity _ _ id (id, None)); [|done|by eapply serving_base|done]. cbn. by rewrite (lookup_base r id c). }
  destruct (dict_get (lower name) (variant_names_lower r)) as [v|] eqn:Ev.
  { pose proof Ev as Ev'. apply (Vl (lower name) v) in Ev' as (s & id & p & c & Ho & El' & ->).
    pose proof (variant_of_id _ _ _ _ _ Ho) as ->.
    assert (dict_get (variant_id id p) (variant_models r) = Some (variant_entry (bundles r) id c p)) as ->.
    { apply (Vm (variant_id id p)). exists (variant_id id p), id, p, c. done. }
    rewrite (find_identity _ _ (variant_id id p) (id, Some p)); [|done|by eapply serving_variant|done]. cbn.
    destruct Ho as (Hid & _). unfold route_modules. cbn. by rewrite Hid. }
  rewrite find_nobody.
  - destruct (dict_mem name (variant_models r)) eqn:Em.
    + exfalso. apply dict_mem_true, dict_get_is_Some in Em as [i Hi]. apply (Vm name i) in Hi as (s & id & p & c & Ho & -> & _).
      assert (dict_get (lower s) (variant_names_lower r) = Some s) as E; [|by rewrite E in Ev].
      apply (Vl (lower s) s). exists s, id, p, c. split; [done|]. split; [done|]. by apply variant_of_id in Ho.
    + rewrite (co_models r Hc). destruct (dict_get name (model_full_configs r)) as [c|] eqn:Hid; [|done].
      exfalso. assert (dict_get (lower name) (model_names_lower r) = Some name) as E; [|by rewrite E in El].
      apply (mt_lower r (co_tables r Hc)). split; [apply dict_get_is_Some; eauto|done].
  - intros s [id o] Hin Hl. pose proof Hin as (c & Hid & Hs)%elem_of_serving; [|done]. destruct o as [p|].
    + assert (dict_get (lower s) (variant_names_lower r) = Some s) as E; [|rewrite Hl in E; by rewrite E in Ev].
      assert (variant_of (model_full_configs r) s id p c) as Ho by (split; [done|tauto]).
      apply (Vl (lower s) s). exists s, id, p, c. split; [done|]. split; [done|]. by apply variant_of_id in Ho.
    + subst s. assert (dict_get (lower id) (model_names_lower r) = Some id) as E; [|rewrite Hl in E; by rewrite E in El].
      apply (mt_lower r (co_tables r Hc)). split; [apply dict_get_is_Some; eauto|done].
Qed.

Lemma resolve_coherent r model bundle_override :
  coherent r → resolve_bundle r model bundle_override = reference_resolve (bundles r) (model_full_configs r) model bundle_override.
Proof.
  intros Hc. unfold resolve_bundle, reference_resolve, reference_bundles. pose proof (lookup_route_spec r model Hc) as H.
  destruct (lookup_route r model) as [i|], (List.find _ _) as [e|]; cbn in H; try done. injection H as <-.
  by destruct (mi_bundles i).
Qed.

(** The reference does not depend on the order of the documents. *)
Lemma reference_bundles_perm bs F G name : dict_wf F → apart F → F ≡ₚ G → reference_bundles bs F name = reference_bundles bs G name.
Proof.
  intros Hwf Ha Hp. pose proof (serving_perm _ _ Hp) as Hs.
  assert (apart G) as Hg by (unfold apart in *; by rewrite <- Hs).
  assert (dict_wf G) as Hwg by (unfold dict_wf, dict_keys in *; by rewrite <- Hp).
  assert (∀ k, dict_get k F = dict_get k G) as Hget.
  { intros k. apply option_eq. intros c. split; intros H%dict_get_Some_elem; (apply dict_elem_get; [done|]);
      [by rewrite <- Hp|by rewrite Hp]. }
  unfold reference_bundles. destruct (List.find (same_identity name) (serving F)) as [[s route]|] eqn:E.
  - apply List.find_some in E as [Hin Hs']. apply list_elem_of_In in Hin. apply bool_decide_eq_true in Hs'.
    rewrite (find_identity G name s route); [|done|by rewrite <- Hs|done]. cbn. unfold route_modules. by rewrite Hget.
  - rewrite find_nobody; [done|]. intros s route Hin. rewrite <- Hs in Hin. apply list_elem_of_In in Hin.
    pose proof (List.find_none _ _ E _ Hin) as Hn. by apply bool_decide_eq_false in Hn.
Qed.

(** C11 — As long as the serving identities of the documents stay apart, the registry is what
    its documents say, after any sequence of reload, appends, replacements, removals and hash
    reads: every name (in any case) routes to the best bundle the documents and bundles
    determine, with the same refusals; the cached hash of a bundle is the hash of the current
    documents; and a registry reloaded from the same documents, in any order, routes every
    name alike.  Apart means that no two model ids or variant ids (model:profile) of the
    documents are equal up to case, in the files of the image and after every write; the code
    accepts writes that break this, and then the names are mixed up
    ([case_variant_hijacks]).  Documents are mappings with distinct keys whose profiles, in
    the files of the image, are mappings ([tidy], [body_ok]). *)
Theorem registry_follows_documents repr digest trail r :
  reachable repr digest trail r → Forall apart trail →
  (∀ model o, resolve_bundle r model o = reference_resolve (bundles r) (model_full_configs r) model o) ∧
  (∀ b, (compute_bundle_config_hash digest r b).2 = compute_bundle_config_hash_locked digest r b None) ∧
  (∀ bundle_docs model_docs,
     Forall tidy model_docs → omap (kept repr) model_docs ≡ₚ model_full_configs r →
     foldl load_bundle [] bundle_docs = bundles r →
     ∀ model o, resolve_bundle (reload repr bundle_docs model_docs) model o = resolve_bundle r model o).
Proof.
  intros Hre Hall. destruct (reachable_coherent _ _ _ _ Hre Hall) as (Hc & Hn & Hcc). split_and!.
  - intros. by apply resolve_coherent.
  - intros b. unfold compute_bundle_config_hash. destruct (dict_get b (bundle_hash_cache r)) eqn:E; [|done]. cbn. by apply Hcc.
  - intros bd md Ht Hp Hb model o.
    assert (apart (omap (kept repr) md)) as Ha by (unfold apart in *; rewrite (serving_perm _ _ Hp); apply Hc).
    destruct (reload_coherent repr bd md Ht Ha) as (Hc' & HF & Hb').
    rewrite !resolve_coherent by done. unfold reference_resolve. rewrite HF, Hb', Hb.
    rewrite (reference_bundles_perm _ (omap (kept repr) md) (model_full_configs r)); [done| |done|done].
    rewrite <- HF. apply Hc'.
Qed.

(** ** Appends *)

(** Unless an id equals a variant's, the profiles an append compares with are the stored ones. *)
Lemma known_profiles r id :
  coherent r → id ∈ dict_keys (model_full_configs r) →
  get_model_profile_names r id = names_of (profiles_in (full_config_of r id)).
Proof.
  intros Hc Hid. pose proof (mt_docs_wf r (co_tables r Hc)) as Hwf. pose proof (co_variants r Hc) as [[_ Vm] [_ Vl] _].
  pose proof (λ s id' p c Ho, apart_base_variant _ s id' id p c Hwf (co_apart r Hc) Hid Ho) as Hno.
  unfold get_model_profile_names. destruct (dict_get (lower id) (variant_names_lower r)) as [v|] eqn:Ev.
  - exfalso. apply (Vl (lower id) v) in Ev as (s & id' & p & c & Ho & El & _). by apply (Hno _ _ _ _ Ho).
  - cbn. destruct (dict_mem id (variant_models r)) eqn:Em; [|by apply coherent_profiles].
    exfalso. apply dict_mem_true, dict_get_is_Some in Em as [i Hi]. apply (Vm id i) in Hi as (s & id' & p & c & Ho & -> & _).
    by apply (Hno _ _ _ _ Ho).
Qed.

Lemma filter_no_clash {V} (K : gset string) (f : string * V → bool) (l : list (string * V)) :
  filter (λ e, e.1 ∈ K ∧ f e = true) l = [] →
  (filter (λ e, e.1 ∈ K ∧ f e = false) l).*1 = filter (λ p, p ∈ K) l.*1 ∧ (∀ e, e ∈ l → e.1 ∈ K → f e = false).
Proof.
  induction l as [|e l IH]; cbn [fmap list_fmap]; [intros _; split; [done|]; intros e He; by apply elem_of_nil in He|].
  rewrite !filter_cons. destruct (decide (e.1 ∈ K ∧ f e = true)) as [|Hn]; [done|]. intros [IH1 IH2]%IH.
  destruct (f e) eqn:Ef.
  - rewrite (decide_False (P := _ ∧ true = false)) by naive_solver. rewrite decide_False by naive_solver.
    split; [done|]. intros e' [->|He]%elem_of_cons Hk; [naive_solver|auto].
  - split; [|intros e' [->|He]%elem_of_cons Hk; auto].
    destruct (decide (e.1 ∈ K)); [rewrite decide_True by done; cbn; by rewrite IH1|by rewrite decide_False by naive_solver].
Qed.

Lemma triage_known r id ps :
  coherent r → conflicting (triage_body r id ps) = [] →
  let old := profiles_in (full_config_of r id) in
  created (triage_body r id ps) = filter (λ p, p ∉ dict_keys old) (dict_keys ps) ∧
  skipped (triage_body r id ps) = filter (λ p, p ∈ dict_keys old) (dict_keys ps) ∧
  (∀ p v w, dict_get p old = Some v → dict_get p ps = Some w → py_eq v w = true).
Proof.
  intros Hc. cbn zeta. pose proof (coherent_doc r id Hc) as [_ _ Hdocs]. unfold triage_body. rewrite known_model by done.
  destruct (dict_mem id (model_full_configs r)) eqn:Em.
  - apply dict_mem_true in Em. rewrite triage_fold. cbn [created skipped conflicting app].
    assert (∀ p, p ∈ get_model_profile_names r id ↔ p ∈ dict_keys (profiles_in (full_config_of r id))) as Hk.
    { intros p. rewrite known_profiles by done. unfold names_of. apply elem_of_list_to_set. }
    intros [Hsk Hall]%fmap_nil_inv%filter_no_clash. split_and!.
    + apply list_filter_iff. intros p. by rewrite Hk.
    + rewrite Hsk. by apply list_filter_iff.
    + intros p v w Hv Hw. specialize (Hall (p, w) (dict_get_Some_elem _ _ _ Hw)).
      destruct (Hdocs p v Hv) as [d ->]. unfold clashes in Hall. cbn [fst snd] in Hall. unfold get_val in Hall. rewrite Hv in Hall.
      cbn [default Datatypes.id] in Hall. destruct (py_eq (VDict d) w) eqn:E; [done|]. symmetry.
      apply Hall, Hk, dict_get_is_Some. eauto.
  - intros _. assert (profiles_in (full_config_of r id) = []) as ->.
    { unfold full_config_of. unfold dict_mem in Em. by destruct (dict_get id _). }
    cbn [created skipped]. split_and!; [| |done].
    + induction (dict_keys ps) as [|p l IH]; [done|]. rewrite filter_cons_True; [by f_equal|apply not_elem_of_nil].
    + symmetry. apply elem_of_nil_inv. intros p [Hp _]%list_elem_of_filter. by apply elem_of_nil in Hp.
Qed.

(** The documents after an append *)
Lemma append_documents r config r' cr sk aff :
  coherent r → body_ok config → add_model_config r config = Ret (r', (cr, sk, aff)) →
  ∃ id body, normalize_pool_name config = Ret body ∧ get_val "sie_id" body = VStr id ∧
    let old := full_config_of r id in
    let new := full_config_of r' id in
    (∀ k, k ≠ "profiles"%string → dict_get k new = match dict_get k old with Some v => Some v | None => dict_get k body end) ∧
    (∀ p, dict_get p (profiles_in new) =
       match dict_get p (profiles_in old) with Some v => Some v | None => dict_get p (profiles_in body) end) ∧
    cr = filter (λ p, p ∉ dict_keys (profiles_in old)) (dict_keys (profiles_in body)) ∧
    sk = filter (λ p, p ∈ dict_keys (profiles_in old)) (dict_keys (profiles_in body)) ∧
    (∀ p v w, dict_get p (profiles_in old) = Some v → dict_get p (profiles_in body) = Some w → py_eq v w = true) ∧
    (∀ id', id' ≠ id → dict_get id' (model_full_configs r') = dict_get id' (model_full_configs r)).
Proof.
  intros Hc Hb (id & body & t & names & canonical & Hap & -> & -> & _ & _ & -> & _)%add_result; [|done].
  exists id, body. destruct Hap as [Hn [Hwf Hwp] Hid _ Hv -> Hconf _]. split; [done|]. split; [done|]. cbn zeta.
  assert (full_config_of (install r id names canonical
            (append_config (full_config_of r id) body id (profiles_in body) (created (triage_body r id (profiles_in body))))) id =
          append_config (full_config_of r id) body id (profiles_in body) (created (triage_body r id (profiles_in body)))) as ->.
  { unfold full_config_of at 1. cbn. by rewrite dict_get_set, decide_True. }
  destruct (triage_known r id (profiles_in body) Hc Hconf) as (Hcr & Hsk & Heq). split_and!; try done.
  - intros k Hk. unfold append_config. cbn zeta.
    assert (dict_mem "sie_id"%string (dict_set "profiles"%string (VDict (foldl (insert_created (profiles_in body))
      (profiles_in (foldl fill_gap (full_config_of r id) body)) (created (triage_body r id (profiles_in body)))))
      (foldl fill_gap (full_config_of r id) body)) = true) as ->.
    { rewrite dict_mem_is_Some, dict_get_set, decide_False by done. rewrite get_fill_gaps by done. apply bool_decide_eq_true.
      destruct (dict_get "sie_id" (full_config_of r id)); [by eauto|]. rewrite decide_False by done.
      unfold get_val in Hid. destruct (dict_get "sie_id" body); [by eauto|done]. }
    rewrite dict_get_set, decide_False by done. rewrite get_fill_gaps by done.
    destruct (dict_get k (full_config_of r id)); [done|]. by rewrite decide_False.
  - intros p. rewrite append_profiles by done. rewrite get_insert_created.
    + rewrite Hcr. destruct (dict_get p (profiles_in (full_config_of r id))) as [v|] eqn:Ep.
      * rewrite decide_False; [done|]. intros [Hp _]%list_elem_of_filter. apply Hp, dict_get_is_Some. eauto.
      * case_decide as Hp; [done|]. destruct (dict_get p (profiles_in body)) eqn:Eb; [|done]. exfalso. apply Hp.
        apply list_elem_of_filter. split; [by apply dict_get_None|]. apply dict_get_is_Some. eauto.
    + intros q Hq%created_in_body. by apply body_profile.
  - intros id' Hne. cbn. by rewrite dict_get_set, decide_False.
Qed.

(** C24 — An append is an append.  In a registry whose documents' serving identities were apart
    up to case from the start (no model id or variant id equal to another; not checked by the
    code, and [variant_id_overwrites] is what happens without), a successful append keeps
    every top-level field and every profile the stored document had; what it gains are the
    fields and the profiles the body adds, as the body gives them; profiles the body repeats
    are equal to the stored ones, and no other model changes. *)
Theorem append_only repr digest trail r config r' cr sk aff :
  reachable repr digest trail r → Forall apart trail → body_ok config → add_model_config r config = Ret (r', (cr, sk, aff)) →
  ∃ id body, normalize_pool_name config = Ret body ∧ get_val "sie_id" body = VStr id ∧
    let old := full_config_of r id in
    let new := full_config_of r' id in
    (∀ k, k ≠ "profiles"%string → dict_get k new = match dict_get k old with Some v => Some v | None => dict_get k body end) ∧
    (∀ p, dict_get p (profiles_in new) =
       match dict_get p (profiles_in old) with Some v => Some v | None => dict_get p (profiles_in body) end) ∧
    cr = filter (λ p, p ∉ dict_keys (profiles_in old)) (dict_keys (profiles_in body)) ∧
    sk = filter (λ p, p ∈ dict_keys (profiles_in old)) (dict_keys (profiles_in body)) ∧
    (∀ p v w, dict_get p (profiles_in old) = Some v → dict_get p (profiles_in body) = Some w → py_eq v w = true) ∧
    (∀ id', id' ≠ id → dict_get id' (model_full_configs r') = dict_get id' (model_full_configs r)).
Proof. intros Hre Hall. destruct (reachable_coherent _ _ _ _ Hre Hall) as (Hc & _ & _). by apply append_documents. Qed.

(** ** Announcements *)

Lemma string_leb_sorted l : StronglySorted String.le (sorted_strings l).
Proof.
  assert (StronglySorted (λ x y, String.leb x y = true) (sorted_strings l)) as Hs.
  { apply (stable_sort_sorted String.leb (λ _, True)); [| |by apply Forall_true].
    - intros x y _ _. apply String.leb_total.
    - intros x y z _ _ _. apply string_leb_trans. }
  induction Hs as [|x k Hk IH Hx]; constructor; [done|]. eapply Forall_impl; [done|]. intros y. apply Is_true_true.
Qed.

Lemma sorted_names_filter (P : string → Prop) `{!∀ s, Decision (P s)} l : StronglySorted String.le (filter P (sorted_strings l)).
Proof.
  pose proof (string_leb_sorted l) as Hsl. induction Hsl as [|x k Hk IH Hx]; [constructor|].
  rewrite filter_cons. case_decide; [|done]. constructor; [done|]. rewrite Forall_forall in *.
  intros y [_ Hy]%list_elem_of_filter. auto.
Qed.

(** Sorting sees only which strings there are. *)
Lemma sorted_same_but (id : string) l l' :
  NoDup l → NoDup l' → (∀ s, s ≠ id → s ∈ l ↔ s ∈ l') →
  filter (λ s, s ≠ id) (sorted_strings l) = filter (λ s, s ≠ id) (sorted_strings l').
Proof.
  intros Hl Hl' Hs. apply (StronglySorted_unique String.le); [apply sorted_names_filter|apply sorted_names_filter|].
  unfold sorted_strings. rewrite !stable_sort_perm. apply NoDup_Permutation; [by apply NoDup_filter|by apply NoDup_filter|].
  intros s. rewrite !list_elem_of_filter. naive_solver.
Qed.

Lemma omap_skip {A} (f : string → option A) id (l : list string) : f id = None → omap f l = omap f (filter (λ s, s ≠ id) l).
Proof.
  intros Hf. induction l as [|x l IH]; [done|]. rewrite filter_cons. destruct (decide (x ≠ id)) as [Hx|Hx].
  - cbn. by destruct (f x); rewrite IH.
  - apply dec_stable in Hx as ->. cbn. by rewrite Hf.
Qed.

Lemma omap_agree {A} (f g : string → option A) (l : list string) : (∀ x, x ∈ l → f x = g x) → omap f l = omap g l.
Proof.
  induction l as [|x l IH]; intros H; [done|]. cbn. rewrite H by by left. rewrite IH; [done|]. intros; apply H; by right.
Qed.

Lemma elem_of_matching modules bs name :
  name ∈ matching_bundle_names modules bs ↔ ∃ b, b ∈ dict_values bs ∧ name = b_name b ∧ serves modules b = true.
Proof.
  unfold matching_bundle_names. case_decide as Hm.
  - split; [intros H; by apply elem_of_nil in H|]. intros (b & _ & _ & Hs). exfalso. unfold serves in Hs.
    apply existsb_exists in Hs as (a & _ & Ha). apply bool_decide_eq_true in Ha. set_solver.
  - rewrite list_elem_of_fmap. split.
    + intros ([n nm] & -> & H). apply elem_of_stable_sort, list_elem_of_fmap in H as (b & [= -> ->] & [Hs Hb]%list_elem_of_filter). eauto.
    + intros (b & Hb & -> & Hs). exists (priority b, b_name b). split; [done|].
      apply elem_of_stable_sort, list_elem_of_fmap. exists b. split; [done|]. by apply list_elem_of_filter.
Qed.

(** A bundle that is no match shares no module. *)
Lemma not_matching modules bs k b :
  bundles_named bs → dict_get k bs = Some b → k ∉ matching_bundle_names modules bs → modules ∩ list_to_set (adapters b) = ∅.
Proof.
  intros [_ Hn] Hb Hk. apply elem_of_equiv_empty_L. intros a [Ha Hab%elem_of_list_to_set]%elem_of_intersection. apply Hk.
  apply elem_of_matching. exists b. split; [apply list_elem_of_fmap; exists (k, b); split; [done|by apply dict_get_Some_elem]|].
  split; [by rewrite (Hn k b)|]. unfold serves. apply existsb_exists. exists a. split; [by apply list_elem_of_In|].
  by apply bool_decide_eq_true.
Qed.

Lemma hash_model_none r modules pool id :
  default ∅ (dict_get id (model_adapter_modules r)) ∩ modules = ∅ → hash_model r modules pool id = None.
Proof. intros H. unfold hash_model. cbn zeta. destruct (match pool with Some _ => _ | None => _ end); [done|]. by rewrite decide_True. Qed.

Lemma coherent_modules r id :
  coherent r → default ∅ (dict_get id (model_adapter_modules r)) = adapter_modules_for_profiles (profiles_in (full_config_of r id)) None.
Proof.
  intros Hc. rewrite (mt_modules r (co_tables r Hc)). unfold full_config_of. by destruct (dict_get id (model_full_configs r)).
Qed.

Lemma known_model_keys r id : coherent r → id ∈ dict_keys (models r) ↔ id ∈ dict_keys (model_full_configs r).
Proof.
  intros Hc. rewrite <- !dict_get_is_Some, (co_models r Hc), fmap_is_Some. done.
Qed.

(** Two registries that differ in one model hash alike the bundles that neither version of it is in. *)
Lemma hash_unchanged digest r r' id k pool :
  coherent r → coherent r' → bundles_named (bundles r) → bundles r' = bundles r →
  (∀ m, m ≠ id → dict_get m (model_full_configs r') = dict_get m (model_full_configs r)) →
  k ∉ matching_bundle_names (default ∅ (dict_get id (model_adapter_modules r))) (bundles r) →
  k ∉ matching_bundle_names (default ∅ (dict_get id (model_adapter_modules r'))) (bundles r) →
  compute_bundle_config_hash_locked digest r' k pool = compute_bundle_config_hash_locked digest r k pool.
Proof.
  intros Hc Hc' Hn Hb HF Hk Hk'. unfold compute_bundle_config_hash_locked. rewrite Hb.
  destruct (dict_get k (bundles r)) as [b|] eqn:Eb; [|done].
  assert (hash_items r' b pool = hash_items r b pool) as ->; [|done]. unfold hash_items.
  rewrite (omap_skip _ id), (omap_skip _ id (sorted_strings (dict_keys (models r)))); try (by eapply hash_model_none, not_matching).
  rewrite (sorted_same_but id (dict_keys (models r')) (dict_keys (models r))).
  - apply omap_agree. intros m [Hne Hin]%list_elem_of_filter. unfold sorted_strings in Hin.
    apply elem_of_stable_sort, known_model_keys in Hin; [|done].
    assert (m ∈ dict_keys (model_full_configs r')) as Hin' by (by rewrite <- dict_get_is_Some, HF, dict_get_is_Some).
    unfold hash_model. rewrite !coherent_modules, !known_profiles by done. unfold full_config_of. by rewrite HF.
  - apply (mt_models_wf r' (co_tables r' Hc')).
  - apply (mt_models_wf r (co_tables r Hc)).
  - intros m Hne. rewrite !known_model_keys, <- !dict_get_is_Some by done. by rewrite HF.
Qed.

Lemma elem_of_from_keys l x : x ∈ from_keys l ↔ x ∈ l.
Proof.
  unfold from_keys. rewrite <- dict_get_is_Some, (get_fold_set (λ _, tt)). case_decide; [by eauto|]. cbn.
  split; [by intros [? ?]|done].
Qed.

Lemma elem_of_affected l x : x ∈ from_keys (sorted_strings l) ↔ x ∈ l.
Proof. rewrite elem_of_from_keys. apply elem_of_stable_sort. Qed.

Lemma declares_mono ps ps' name path n :
  (∀ p v, dict_get p ps = Some v → dict_get p ps' = Some v) → declares ps name path n → declares ps' name path n.
Proof. intros Hps. induction 1; [eapply declares_own|eapply declares_parent]; eauto. Qed.

(** More profiles, more modules *)
Lemma modules_mono ps ps' :
  (∀ p v, dict_get p ps = Some v → dict_get p ps' = Some v) →
  adapter_modules_for_profiles ps None ⊆ adapter_modules_for_profiles ps' None.
Proof.
  intros Hps m. unfold adapter_modules_for_profiles. rewrite !elem_of_list_to_set, !list_elem_of_omap.
  intros (p & [v Hp]%dict_get_is_Some & Hm). exists p. split; [apply dict_get_is_Some; eauto|].
  unfold profile_module in *. destruct (effective_adapter_path ps p) as [path|] eqn:E; [|done].
  apply effective_adapter_path_declares in E as [n Hd].
  assert (effective_adapter_path ps' p = Some path) as ->; [|done].
  apply effective_adapter_path_declares. exists n. by eapply declares_mono.
Qed.

Lemma matching_mono modules modules' bs name :
  modules ⊆ modules' → name ∈ matching_bundle_names modules bs → name ∈ matching_bundle_names modules' bs.
Proof.
  intros Hsub. rewrite !elem_of_matching. intros (b & Hb & -> & Hs). exists b. split; [done|]. split; [done|].
  unfold serves in *. apply existsb_exists in Hs as (a & Ha & Hin). apply existsb_exists. exists a. split; [done|].
  apply bool_decide_eq_true in Hin. apply bool_decide_eq_true. set_solver.
Qed.

(** A write, with the bundles it announces *)
Inductive writes : registry → registry → list string → Prop :=
  | writes_add r config r' cr sk affected :
      body_ok config → add_model_config r config = Ret (r', (cr, sk, affected)) → writes r r' affected
  | writes_replace r config r' affected :
      body_ok config → replace_model_config r config = Ret (r', affected) → writes r r' affected
  | writes_remove r id fallback r' affected :
      (∀ c, fallback = Some c → body_ok c) → remove_model_config r id fallback = Ret (r', affected) → writes r r' affected.

Lemma installed_modules r id names canonical full :
  default ∅ (dict_get id (model_adapter_modules (install r id names canonical full))) =
  adapter_modules_for_profiles (profiles_in full) None.
Proof. cbn. by rewrite dict_get_set, decide_True. Qed.

Lemma install_others r id names canonical full m :
  m ≠ id → dict_get m (model_full_configs (install r id names canonical full)) = dict_get m (model_full_configs r).
Proof. intros. cbn. by rewrite dict_get_set, decide_False. Qed.

Lemma add_announces r config r' cr sk affected :
  coherent r → body_ok config → add_model_config r config = Ret (r', (cr, sk, affected)) →
  ∃ id, (∀ m, m ≠ id → dict_get m (model_full_configs r') = dict_get m (model_full_configs r)) ∧
    ∀ k, k ∉ affected →
      k ∉ matching_bundle_names (default ∅ (dict_get id (model_adapter_modules r))) (bundles r) ∧
      k ∉ matching_bundle_names (default ∅ (dict_get id (model_adapter_modules r'))) (bundles r).
Proof.
  intros Hc Hb (id & body & t & names & canonical & Hap & -> & -> & _ & _ & -> & more & ->)%add_result; [|done].
  exists id. split; [intros; by apply install_others|]. intros k. rewrite elem_of_affected, not_elem_of_app. intros [Hk _].
  rewrite installed_modules. split; [|done]. intros Hold. apply Hk. revert Hold. apply matching_mono.
  rewrite coherent_modules by done. apply modules_mono. intros p v Hp.
  destruct Hap as [_ [Hwf _] _ _ Hv -> Hconf _]. rewrite append_profiles by done. rewrite get_insert_created.
  - rewrite decide_False; [done|]. destruct (triage_known r id (profiles_in body) Hc Hconf) as (-> & _).
    intros [Hn _]%list_elem_of_filter. apply Hn, dict_get_is_Some. eauto.
  - intros q Hq%created_in_body. by apply body_profile.
Qed.

Lemma replace_announces r config r' affected :
  body_ok config → replace_model_config r config = Ret (r', affected) →
  ∃ id, (∀ m, m ≠ id → dict_get m (model_full_configs r') = dict_get m (model_full_configs r)) ∧
    ∀ k, k ∉ affected →
      k ∉ matching_bundle_names (default ∅ (dict_get id (model_adapter_modules r))) (bundles r) ∧
      k ∉ matching_bundle_names (default ∅ (dict_get id (model_adapter_modules r'))) (bundles r).
Proof.
  intros Hb (id & body & _ & _ & _ & _ & -> & more & ->)%replace_result; [|done].
  exists id. split; [intros; by apply install_others|]. intros k. rewrite elem_of_affected, !not_elem_of_app. intros (Ho & Hk & _).
  by rewrite installed_modules.
Qed.

Lemma remove_announces r id r' affected :
  coherent r → remove_model_config r id None = Ret (r', affected) →
  (∀ m, m ≠ id → dict_get m (model_full_configs r') = dict_get m (model_full_configs r)) ∧
  ∀ k, k ∉ affected → r' = r ∨
    k ∉ matching_bundle_names (default ∅ (dict_get id (model_adapter_modules r))) (bundles r) ∧
    k ∉ matching_bundle_names (default ∅ (dict_get id (model_adapter_modules r'))) (bundles r).
Proof.
  intros Hc. destruct (co_tables r Hc) as [W _ _ _ _ _ _ W1 _ _ _ _]. unfold remove_model_config.
  destruct (negb _); [intros [= <- <-]; auto|]. cbn zeta. intros [= <- <-]. proj. split.
  - intros m Hm. rewrite get_others by done. by rewrite decide_False.
  - intros k Hk. right. unfold sorted_strings in Hk. rewrite elem_of_stable_sort, elem_of_elements, elem_of_list_to_set, not_elem_of_app in Hk.
    split; [tauto|]. rewrite get_others by done. rewrite decide_True by done. cbn. intros H. by apply elem_of_nil in H.
Qed.

(** C22 — A write that does not announce a bundle leaves that bundle's hash as it was, overall and
    in every pool: appends, replacements and removals announce every bundle whose workers
    must converge, the bundles the model leaves among them.  The serving identities of the
    documents (model ids and model:profile ids, up to case) are assumed to be apart, from the
    start to after the write; the code does not check that, and [clashing_append_unannounced]
    is a write that changes the hash of a bundle it does not announce. *)
Theorem unannounced_bundles_unchanged repr digest trail r r' affected k pool :
  reachable repr digest trail r → writes r r' affected → Forall apart (model_full_configs r' :: trail) → k ∉ affected →
  compute_bundle_config_hash_locked digest r' k pool = compute_bundle_config_hash_locked digest r k pool.
Proof.
  intros Hre Hw [Ha Hall]%Forall_cons Hk. destruct (reachable_coherent _ _ _ _ Hre Hall) as (Hc & Hn & _).
  destruct Hw as [r config r' cr sk aff Hb H|r config r' aff Hb H|r id [c|] r' aff Hb H].
  - destruct (add_announces _ _ _ _ _ _ Hc Hb H) as (id & HF & Hno). destruct (Hno k Hk), (add_written _ _ _ _ _ _ H).
    eapply hash_unchanged; eauto using add_coherent.
  - destruct (replace_announces _ _ _ _ Hb H) as (id & HF & Hno). destruct (Hno k Hk), (replace_written _ _ _ _ H).
    eapply hash_unchanged; eauto using replace_coherent.
  - unfold remove_model_config in H. destruct (py_eq _ _); [|done]. specialize (Hb c eq_refl).
    destruct (replace_announces _ _ _ _ Hb H) as (id' & HF & Hno). destruct (Hno k Hk), (replace_written _ _ _ _ H).
    eapply hash_unchanged; eauto using replace_coherent.
  - destruct (remove_announces _ _ _ _ Hc H) as [HF Hno]. destruct (Hno k Hk) as [->|[? ?]]; [done|].
    destruct (remove_written _ _ _ _ _ H). eapply hash_unchanged; eauto using remove_coherent.
Qed.

(** ** Examples *)

Definition doc_okb (c : dict) : bool :=
  bool_decide (dict_wf c) && bool_decide (dict_wf (profiles_in c)) &&
  forallb (λ v, match v with VDict _ => true | _ => false end) (dict_values (profiles_in c)).

Lemma doc_okb_ok c : doc_okb c = true → doc_ok c.
Proof.
  unfold doc_okb. rewrite !andb_true_iff, !bool_decide_eq_true, forallb_forall. intros [[W Wp] Hv]. split; [done|done|].
  intros p v Hp%dict_get_Some_elem. specialize (Hv v). destruct v as [| | | | | | |d]; [..|by exists d];
    (assert (false = true); [|done]); apply Hv, list_elem_of_In, list_elem_of_fmap; eexists; (split; [|exact Hp]; done).
Qed.

Lemma doc_body_ok c : doc_ok c → body_ok c.
Proof. by intros [? ? _]. Qed.

Definition ex_repr (v : pyval) : string := "?".
Definition ex_digest (v : pyval) : string := match v with VList l => "digest of several" | _ => "digest" end.

Definition ex_profile (path : string) : pyval := VDict [("adapter_path", VStr path)]%string.
Definition ex_child (parent : string) : pyval := VDict [("extends", VStr parent)]%string.
Definition ex_model (id : string) (profiles : dict) : dict := [("sie_id", VStr id); ("profiles", VDict profiles)]%string.

Definition ex_bundles : list (option bundle_doc) :=
  [Some (mkBundleDoc "wide" None (Some 20) (Some ["sie_server.adapters.a"; "sie_server.adapters.b"]) None None);
   Some (mkBundleDoc "narrow" None (Some 10) (Some ["sie_server.adapters.a"]) None None);
   Some (mkBundleDoc "other" None None (Some ["sie_server.adapters.c"]) None None); None]%string.

Definition ex_baked : dict :=
  ex_model "org/m" [("default", ex_profile "sie_server.adapters.a:A"); ("fast", ex_child "default")]%string.

Definition ex_other : dict := ex_model "org/n" [("default", ex_profile "sie_server.adapters.c:C")]%string.

Definition ex_r0 : registry := reload ex_repr ex_bundles [Some (VDict ex_baked); Some (VDict ex_other); None].

Definition ex_append : dict :=
  ex_model "org/m" [("fast", ex_child "default"); ("big", ex_profile "sie_server.adapters.b:B")]%string ++
  [("pool", VStr " Default "); ("description", VStr "text")]%string.

Definition written {A} (c : cfg (registry * A)) (r : registry) : registry := match c with Ret (r', _) => r' | Raise _ => r end.

Definition ex_r1 : registry := written (add_model_config ex_r0 ex_append) ex_r0.

Definition ex_put : dict := ex_model "org/m" [("default", ex_profile "sie_server.adapters.b:B")]%string.
Definition ex_r2 : registry := written (replace_model_config ex_r1 ex_put) ex_r1.

Definition ex_trail0 : list docs := [omap (kept ex_repr) [Some (VDict ex_baked); Some (VDict ex_other); None]].

Lemma ex_r0_reachable : reachable ex_repr ex_digest ex_trail0 ex_r0.
Proof.
  apply reach_load.
  do 3 (apply Forall_cons_2; [intros c [= <-]; by apply doc_okb_ok || done|]). apply Forall_nil_2.
Qed.

Lemma ex_append_result : add_model_config ex_r0 ex_append = Ret (ex_r1, (["big"], ["fast"], ["narrow"; "wide"])%string).
Proof. vm_compute. reflexivity. Qed.

Definition ex_trail1 : list docs := model_full_configs ex_r1 :: ex_trail0.

Lemma ex_r1_reachable : reachable ex_repr ex_digest ex_trail1 ex_r1.
Proof.
  by apply (reach_add _ _ ex_trail0 ex_r0 ex_append _ (["big"], ["fast"], ["narrow"; "wide"])%string ex_r0_reachable);
    [apply doc_body_ok, doc_okb_ok|apply ex_append_result].
Qed.

Lemma ex_trail0_apart : Forall apart ex_trail0.
Proof. apply (bool_decide_unpack _). by vm_compute. Qed.

Lemma ex_trail1_apart : Forall apart ex_trail1.
Proof. apply (bool_decide_unpack _). by vm_compute. Qed.

Lemma registry_follows_documents_witness :
  resolve_bundle ex_r1 "ORG/m:Big" None = Ret "wide"%string ∧
  resolve_bundle ex_r1 "org/m:fast" None = Ret "narrow"%string ∧
  resolve_bundle ex_r1 "org/m:big" (Some "narrow"%string) = Raise (BundleConflict "org/m:big" "narrow" ["wide"%string]) ∧
  resolve_bundle ex_r1 "org/m:none" None = Raise (ModelNotFound "org/m:none").
Proof.
  destruct (registry_follows_documents ex_repr ex_digest ex_trail1 ex_r1 ex_r1_reachable ex_trail1_apart) as (H & _ & _).
  rewrite !H. split_and!; vm_compute; reflexivity.
Defined.

Lemma append_only_witness :
  ∃ id body, normalize_pool_name ex_append = Ret body ∧ get_val "sie_id" body = VStr id ∧ id = "org/m"%string ∧
    dict_get "pool"%string (full_config_of ex_r1 id) = Some (VStr "default") ∧
    dict_get "description"%string (full_config_of ex_r1 id) = Some (VStr "text").
Proof.
  destruct (append_only ex_repr ex_digest ex_trail0 ex_r0 ex_append ex_r1 ["big"%string] ["fast"%string] ["narrow"; "wide"]%string
              ex_r0_reachable ex_trail0_apart (doc_body_ok _ (doc_okb_ok ex_append eq_refl)) ex_append_result)
    as (id & body & Hn & Hid & Hk & _).
  assert (id = "org/m"%string) as -> by (vm_compute in Hn; injection Hn as <-; vm_compute in Hid; by injection Hid).
  exists "org/m"%string, body. split; [done|]. split; [done|]. split; [done|]. rewrite !Hk by done.
  vm_compute in Hn. injection Hn as <-. split; reflexivity.
Defined.

Lemma ex_put_result : replace_model_config ex_r1 ex_put = Ret (ex_r2, ["narrow"; "wide"]%string).
Proof. vm_compute. reflexivity. Qed.

(** The replacement leaves the bundle [narrow], which is announced; a bundle of another model is not. *)
Lemma unannounced_bundles_unchanged_witness :
  compute_bundle_config_hash_locked ex_digest ex_r2 "other" None = compute_bundle_config_hash_locked ex_digest ex_r1 "other" None ∧
  compute_bundle_config_hash_locked ex_digest ex_r1 "other" None = "digest of several"%string.
Proof.
  split; [|reflexivity]. apply (unannounced_bundles_unchanged ex_repr ex_digest ex_trail1 ex_r1 ex_r2 ["narrow"; "wide"]%string "other" None ex_r1_reachable).
  - apply (writes_replace _ ex_put); [by apply doc_body_ok, doc_okb_ok|apply ex_put_result].
  - by apply (bool_decide_unpack _); vm_compute.
  - by apply (bool_decide_unpack _); vm_compute.
Defined.

(** ** Where the registry does not do what it means to *)

(** A model whose id is another model's variant: its profile [x] is taken for a new one and
    overwritten.  The append reports it as created. *)
Definition ex_shadowing : registry :=
  reload ex_repr ex_bundles
    [Some (VDict (ex_model "m" [("default", ex_profile "sie_server.adapters.a:A"); ("fast", ex_child "default")]%string));
     Some (VDict (ex_model "m:fast" [("x", ex_profile "sie_server.adapters.a:A")]%string))].

Lemma variant_id_overwrites :
  let body := ex_model "m:fast" [("x", ex_profile "sie_server.adapters.a:Other")]%string in
  let r' := written (add_model_config ex_shadowing body) ex_shadowing in
  add_model_config ex_shadowing body = Ret (r', (["x"], [], ["narrow"; "wide"])%string) ∧
  dict_get "x"%string (profiles_in (full_config_of ex_shadowing "m:fast")) = Some (ex_profile "sie_server.adapters.a:A") ∧
  dict_get "x"%string (profiles_in (full_config_of r' "m:fast")) = Some (ex_profile "sie_server.adapters.a:Other").
Proof. split_and!; vm_compute; reflexivity. Qed.

(** Two ids that differ in case: the name of the first routes to the second. *)
Lemma case_variant_hijacks :
  let first := ex_model "Org/M" [("default", ex_profile "sie_server.adapters.a:A")]%string in
  let second := ex_model "org/m" [("default", ex_profile "sie_server.adapters.b:B")]%string in
  let r1 := reload ex_repr ex_bundles [Some (VDict first)] in
  let r2 := written (add_model_config r1 second) r1 in
  resolve_bundle r1 "Org/M" None = Ret "narrow"%string ∧ resolve_bundle r2 "Org/M" None = Ret "wide"%string.
Proof. split; vm_compute; reflexivity. Qed.

(** An append that makes a variant of [m] collide with the model [m:fast]: the bundle that
    serves [m:fast] is not announced, and its hash changes. *)
Lemma clashing_append_unannounced :
  let r0 := reload ex_repr ex_bundles [Some (VDict (ex_model "m:fast" [("x", ex_profile "sie_server.adapters.c:C")]%string))] in
  let body := ex_model "m" [("default", ex_profile "sie_server.adapters.a:A"); ("fast", ex_child "default")]%string in
  let r1 := written (add_model_config r0 body) r0 in
  add_model_config r0 body = Ret (r1, (["default"; "fast"], [], ["narrow"; "wide"])%string) ∧
  compute_bundle_config_hash_locked ex_digest r0 "other" None = "digest of several"%string ∧
  compute_bundle_config_hash_locked ex_digest r1 "other" None = ""%string.
Proof. split_and!; vm_compute; reflexivity. Qed.

(** A pool baked in capitals is stored as it is written, and the same document is then refused. *)
Lemma baked_pool_conflicts :
  let doc := ex_baked ++ [("pool", VStr "L4")]%string in
  add_model_config (reload ex_repr ex_bundles [Some (VDict doc)]) doc = Raise (PoolConflict "org/m").
Proof. vm_compute. reflexivity. Qed.

(** Two appends pin one LoRA to two revisions; the document they leave is one the registry
    refuses. *)
Definition ex_pinned (revision : string) : pyval :=
  VDict [("extends", VStr "default");
         ("adapter_options", VDict [("loadtime", VDict [("lora_paths", VDict [("law",
            VDict [("id", VStr "org/lora"); ("revision", VStr revision)])])])])]%string.

Lemma split_pins_accepted :
  let a := ex_model "org/m" [("default", ex_profile "sie_server.adapters.a:A"); ("law1", ex_pinned "0123456789abcdef0123456789abcdef01234567")]%string in
  let b := ex_model "org/m" [("default", ex_profile "sie_server.adapters.a:A"); ("law2", ex_pinned "fedcba9876543210fedcba9876543210fedcba98")]%string in
  let r0 := reload ex_repr ex_bundles [] in
  let r1 := written (add_model_config r0 a) r0 in
  let r2 := written (add_model_config r1 b) r1 in
  dict_keys (profiles_in (full_config_of r2 "org/m")) = ["default"; "law1"; "law2"]%string ∧
  validate_profile_lora_pins (profiles_in (full_config_of r2 "org/m")) =
    Raise (LoraTwoRevisions "org/lora" "0123456789abcdef0123456789abcdef01234567" "fedcba9876543210fedcba9876543210fedcba98" "law2") ∧
  add_model_config r0 (full_config_of r2 "org/m") =
    Raise (LoraTwoRevisions "org/lora" "0123456789abcdef0123456789abcdef01234567" "fedcba9876543210fedcba9876543210fedcba98" "law2").
Proof. split_and!; vm_compute; reflexivity. Qed.
End ConfigRouting.
