(* ===== verification/BundleHash.v ===== *)
(** The hash a worker reports for its bundle: [_compute_bundle_config_hash] of the server's
    [api/ws.py], over the configurations [_expand_profile_variants] of [core/loader.py] makes
    of the model files; and the theorem that it is the hash of the configuration service
    ([ConfigRegistry.compute_bundle_config_hash_locked]) for the same documents.

    [loads] relates a raw document to what Pydantic reads it as. *)

From Stdlib Require Import Ascii.
From stdpp Require Import strings.
From S2P Require Import Prelude PyFloat PyDict PyStr Handlers PyVal ModelConfig.
From S2P Require Import ConfigProfiles ConfigRegistry ConfigTables ConfigRouting.
Import Handlers PyVal ConfigProfiles ConfigRegistry ConfigTables ConfigRouting.
Local Open Scope Z_scope.
Local Open Scope py_scope.

Module BundleHash.

Abbreviation Config := ModelConfig.ModelConfig.
Abbreviation Profile := ModelConfig.ProfileConfig.

(** A configuration with [synthetic_profile_variant_source] *)
Record worker_config := mkWorker { conf : Config; source : option (string * string) }.

Inductive worker_error :=
  | ProfileMissing (name : string)
  | ExtendsCycle (name : string)
  | ConfigErr (e : ModelConfig.cfg_error).

Definition wres (A : Type) : Type := res worker_error A.

Definition of_config {A} (c : ModelConfig.cfg_res A) : wres A :=
  match c with Ret a => Ret a | Raise e => Raise (ConfigErr e) end.

(** ** [_expand_profile_variants] *)

Definition with_tasks (t : ModelConfig.Tasks) (g : ModelConfig.GenerateTask) : ModelConfig.Tasks :=
  ModelConfig.mkTasks (ModelConfig.encode t) (ModelConfig.score t) (ModelConfig.extract t) (Some g).

(** The updates of the generate task *)
Definition update_generate (g : ModelConfig.GenerateTask) (context : option Z) (kwargs : option dict) (cap : option Z) :
    ModelConfig.GenerateTask :=
  ModelConfig.mkGenerate (default (ModelConfig.context_length g) context)
    (default (ModelConfig.g_max_output_tokens g) cap)
    (match kwargs with Some k => dict_update (ModelConfig.g_chat_template_kwargs g) k | None => ModelConfig.g_chat_template_kwargs g end)
    (ModelConfig.prewarm_grammars g) (ModelConfig.g_grammar_profile g).

Definition copy_config (c : Config) (id : string) (tasks : ModelConfig.Tasks) (max_seq : option Z)
    (profiles : list (string * Profile)) : Config :=
  ModelConfig.mkConfig id (ModelConfig.hf_id c) (ModelConfig.hf_revision c) (ModelConfig.weights_path c)
    (ModelConfig.package_backed c) (ModelConfig.pool c) (ModelConfig.input_image c) tasks max_seq profiles.

(** The base entry: its generate task takes the defaults of the default profile. *)
Definition bare_config (c : Config) : Config :=
  match dict_get "default"%string (ModelConfig.profiles c), ModelConfig.generate (ModelConfig.tasks c) with
  | Some p, Some g =>
      copy_config c (ModelConfig.sie_id c)
        (with_tasks (ModelConfig.tasks c) (update_generate g None (ModelConfig.chat_template_kwargs p) (ModelConfig.max_output_tokens p)))
        (ModelConfig.max_sequence_length c) (ModelConfig.profiles c)
  | _, _ => c
  end.

(** A resolved profile as a profile that extends nothing *)
Definition standalone (r : ModelConfig.ResolvedProfile) : Profile :=
  ModelConfig.mkProfile None (Some (ModelConfig.r_max_batch_tokens r)) (ModelConfig.r_compute_precision r)
    (Some (ModelConfig.r_adapter_path r)) (ModelConfig.mkOptions (ModelConfig.r_loadtime r) (ModelConfig.r_runtime r))
    (ModelConfig.r_adaptive_batching r) (ModelConfig.r_kv_budget_tokens r) (ModelConfig.r_admission_enabled r)
    (ModelConfig.r_max_output_tokens r) (ModelConfig.r_chat_template_kwargs r) (ModelConfig.r_grammar_profile r).

Definition variant_config (c : Config) (base_name profile_name : string) (p : Profile) : worker_config :=
  let context := match get_val "max_seq_length" (ModelConfig.loadtime (ModelConfig.adapter_options p)) with
                 | VInt n => if 0 <? n then Some n else None
                 | VBool true => Some 1
                 | _ => None
                 end in
  let tasks := match ModelConfig.generate (ModelConfig.tasks c) with
               | Some g => with_tasks (ModelConfig.tasks c)
                             (update_generate g context (ModelConfig.chat_template_kwargs p) (ModelConfig.max_output_tokens p))
               | None => ModelConfig.tasks c
               end in
  mkWorker (copy_config c (variant_id base_name profile_name) tasks
              (match context with Some n => Some n | None => ModelConfig.max_sequence_length c end) [("default"%string, p)])
    (Some (base_name, profile_name)).

(** One profile of one configuration: the variants after it *)
Definition expand_profile (configs : list (string * Config)) (base_name : string) (c : Config)
    (variants : list (string * worker_config)) (entry : string * Profile) : wres (list (string * worker_config)) :=
  let '(profile_name, profile) := entry in
  if bool_decide (profile_name = "default"%string) then Ret variants
  else
    let* p := match ModelConfig.extends profile with
              | Some _ => match of_config (ModelConfig.resolve_profile_uncached c profile_name) with
                          | Ret r => Ret (standalone r)
                          | Raise e => Raise e
                          end
              | None => Ret profile
              end in
    let id := variant_id base_name profile_name in
    if dict_mem id configs then Ret variants else Ret (dict_set id (variant_config c base_name profile_name p) variants).

Definition expand_config (configs : list (string * Config)) (variants : list (string * worker_config))
    (entry : string * Config) : wres (list (string * worker_config)) :=
  let '(base_name, c) := entry in
  res_fold (expand_profile configs base_name c) variants (ModelConfig.profiles c).

(** [_expand_profile_variants] *)
Definition expand_profile_variants (configs : list (string * Config)) : wres (list (string * worker_config)) :=
  let* variants := res_fold (expand_config configs) [] configs in
  let kept := filter (λ e, dict_mem "default"%string (ModelConfig.profiles e.2) = true) configs in
  Ret (dict_update ((λ e, (e.1, mkWorker (bare_config e.2) None)) <$> kept) variants).

(** ** The worker's hash *)

(** [_adapter_module] *)
Definition adapter_module (adapter_path : string) : option string :=
  if bool_decide (adapter_path = ""%string) then None else Some (before_colon adapter_path).

(** [_compact_adapter_options_for_hash] *)
Definition compact_adapter_options_for_hash (loadtime runtime : dict) : pyval :=
  match (if bool_decide (loadtime = []) then [] else [("loadtime"%string, VDict loadtime)]) ++
        (if bool_decide (runtime = []) then [] else [("runtime"%string, VDict runtime)]) with
  | [] => VNone
  | d => VDict d
  end.

(** [_copy_mapping] *)
Definition copy_mapping (v : pyval) : dict := match v with VDict d => d | _ => [] end.

Definition of_str (o : option string) : pyval := match o with Some s => VStr s | None => VNone end.
Definition of_int (o : option Z) : pyval := match o with Some z => VInt z | None => VNone end.

Definition set_field (key : string) (value : pyval) (resolved : dict) : dict :=
  match value with VNone => resolved | _ => dict_set key value resolved end.

(** [_resolved_profile_for_hash] after the parent, with the options inherited from it *)
Definition overlay_typed (resolved : dict) (loadtime runtime : dict) (p : Profile) : dict :=
  let resolved := set_field "adapter_path" (of_str (ModelConfig.adapter_path p)) resolved in
  let resolved := set_field "max_batch_tokens" (of_int (ModelConfig.max_batch_tokens p)) resolved in
  let resolved := set_field "compute_precision" (of_str (ModelConfig.compute_precision p)) resolved in
  let child := ModelConfig.adapter_options p in
  let loadtime := if bool_decide (ModelConfig.loadtime child = []) then loadtime else ModelConfig.loadtime child in
  let runtime := if bool_decide (ModelConfig.runtime child = []) then runtime else ModelConfig.runtime child in
  dict_set "adapter_options"%string (compact_adapter_options_for_hash loadtime runtime) resolved.

(** [_resolved_profile_for_hash].  Out of fuel is [None]. *)
Fixpoint resolve_for_hash_loop (fuel : nat) (profiles : list (string * Profile)) (profile_name : string) (seen : gset string) :
    option (wres dict) :=
  match fuel with
  | O => None
  | S fuel =>
      match dict_get profile_name profiles with
      | None => Some (Raise (ProfileMissing profile_name))
      | Some p =>
          if decide (profile_name ∈ seen) then Some (Raise (ExtendsCycle profile_name))
          else
            match nonempty_str (ModelConfig.extends p) with
            | Some parent =>
                if dict_mem parent profiles then
                  match resolve_for_hash_loop fuel profiles parent ({[profile_name]} ∪ seen) with
                  | None => None
                  | Some (Raise e) => Some (Raise e)
                  | Some (Ret resolved) =>
                      let inherited := copy_mapping (get_val "adapter_options" resolved) in
                      Some (Ret (overlay_typed resolved (copy_mapping (get_val "loadtime" inherited))
                                   (copy_mapping (get_val "runtime" inherited)) p))
                  end
                else Some (Raise (ProfileMissing parent))
            | None => Some (Ret (overlay_typed blank_resolved [] [] p))
            end
      end
  end.

Definition resolved_profile_for_hash (c : Config) (profile_name : string) : wres dict :=
  default (Raise (ExtendsCycle profile_name))
    (resolve_for_hash_loop (S (length (ModelConfig.profiles c))) (ModelConfig.profiles c) profile_name ∅).

(** [_is_synthetic_profile_variant] *)
Definition is_synthetic_profile_variant (w : worker_config) (configs : list (string * worker_config)) : bool :=
  match source w with
  | None => false
  | Some (base, profile) =>
      dict_mem base configs && negb (bool_decide (profile = ""%string)) &&
      bool_decide (ModelConfig.sie_id (conf w) = variant_id base profile)
  end.

(** [_profile_matches_bundle] *)
Definition profile_matches_bundle (c : Config) (profile_name : string) (bundle_adapters : gset string) : wres bool :=
  let* r := of_config (ModelConfig.resolve_profile_uncached c profile_name) in
  Ret (match adapter_module (ModelConfig.r_adapter_path r) with Some m => bool_decide (m ∈ bundle_adapters) | None => false end).

(** [_model_has_bundle_adapter] *)
Fixpoint any_matches (c : Config) (bundle_adapters : gset string) (names : list string) : wres bool :=
  match names with
  | [] => Ret false
  | n :: names =>
      let* b := profile_matches_bundle c n bundle_adapters in
      if b then Ret true else any_matches c bundle_adapters names
  end.

Definition model_has_bundle_adapter (c : Config) (bundle_adapters : gset string) : wres bool :=
  any_matches c bundle_adapters (dict_keys (ModelConfig.profiles c)).

Record hash_state := mkHash {
  items_by_model : list (string * list (string * dict));
  revisions_by_model : list (string * option string);
}.

(** One profile of one configuration, stored under its name in the base model *)
Definition hash_one (bundle_adapters : gset string) (c : Config) (base_id : string) (st : hash_state) (entry : string * string) :
    wres hash_state :=
  let '(pname, stored_as) := entry in
  let* matches := profile_matches_bundle c pname bundle_adapters in
  if negb matches then Ret st
  else
    let* d := resolved_profile_for_hash c pname in
    let ps := default [] (dict_get base_id (items_by_model st)) in
    Ret (mkHash (dict_set base_id (dict_set stored_as d ps) (items_by_model st)) (revisions_by_model st)).

(** [d.setdefault(k, v)] *)
Definition setdefault {A} (k : string) (v : A) (d : list (string * A)) : list (string * A) :=
  if dict_mem k d then d else dict_set k v d.

(** One configuration *)
Definition hash_config (bundle_adapters : gset string) (configs : list (string * worker_config)) (st : hash_state)
    (w : worker_config) : wres hash_state :=
  if is_synthetic_profile_variant w configs then Ret st
  else
    let* has := model_has_bundle_adapter (conf w) bundle_adapters in
    if negb has then Ret st
    else
      let '(base_id, names) := match source w with
        | Some (base, variant_profile) => (base, [("default"%string, variant_profile)])
        | None => (ModelConfig.sie_id (conf w),
                   (λ p, (p, p)) <$> sorted_strings (dict_keys (ModelConfig.profiles (conf w))))
        end in
      let st := mkHash (setdefault base_id [] (items_by_model st))
                  (setdefault base_id (ModelConfig.hf_revision (conf w)) (revisions_by_model st)) in
      res_fold (hash_one bundle_adapters (conf w) base_id) st names.

Definition hash_entry (st : hash_state) (model_id : string) : option pyval :=
  match default [] (dict_get model_id (items_by_model st)) with
  | [] => None
  | ps => Some (VDict [("sie_id", VStr model_id); ("revision", of_str (default None (dict_get model_id (revisions_by_model st))));
                       ("profiles", VList ((λ p, VDict [("name", VStr p); ("config", VDict (default [] (dict_get p ps)))]%string) <$>
                                           sorted_strings (dict_keys ps)))]%string)
  end.

Section digest.
Variable digest : pyval → string.

(** [_compute_bundle_config_hash] *)
Definition worker_bundle_config_hash (configs : list (string * worker_config)) (bundle_adapters : gset string) : wres string :=
  let* st := res_fold (hash_config bundle_adapters configs) (mkHash [] [])
               (stable_sort (λ a b, String.leb (ModelConfig.sie_id (conf a)) (ModelConfig.sie_id (conf b))) (dict_values configs)) in
  match omap (hash_entry st) (sorted_strings (dict_keys (items_by_model st))) with
  | [] => Ret ""%string
  | items => Ret (digest (sort_keys (VList items)))
  end.
End digest.

(** ** A document and what Pydantic reads it as

    Strict reading: a string is a string, an integer an integer; absent and [null] fields are
    [None]; adapter options are [loadtime] and [runtime] mappings.  Names and paths that are
    given are not empty. *)

Definition reads_options (raw : option pyval) (o : ModelConfig.AdapterOptions) : Prop :=
  match raw with
  | None => o = ModelConfig.mkOptions [] []
  | Some (VDict d) =>
      dict_wf d ∧ (∀ k, k ∈ dict_keys d → k = "loadtime"%string ∨ k = "runtime"%string) ∧
      default (VDict []) (dict_get "loadtime"%string d) = VDict (ModelConfig.loadtime o) ∧
      default (VDict []) (dict_get "runtime"%string d) = VDict (ModelConfig.runtime o)
  | Some _ => False
  end.

Record reads_profile (raw : dict) (p : Profile) : Prop := mkReads {
  rd_path : get_val "adapter_path" raw = of_str (ModelConfig.adapter_path p);
  rd_tokens : get_val "max_batch_tokens" raw = of_int (ModelConfig.max_batch_tokens p);
  rd_precision : get_val "compute_precision" raw = of_str (ModelConfig.compute_precision p);
  rd_extends : get_val "extends" raw = of_str (ModelConfig.extends p);
  rd_options : reads_options (dict_get "adapter_options"%string raw) (ModelConfig.adapter_options p);
  rd_path_given : ModelConfig.adapter_path p ≠ Some ""%string;
  rd_extends_given : ModelConfig.extends p ≠ Some ""%string;
}.

Record loads (id : string) (doc : dict) (c : Config) : Prop := mkLoads {
  ld_id : ModelConfig.sie_id c = id;
  ld_revision : get_val "hf_revision" doc = of_str (ModelConfig.hf_revision c);
  ld_wf : dict_wf (ModelConfig.profiles c);
  ld_named : dict_get ""%string (ModelConfig.profiles c) = None;
  ld_same_profiles : ∀ name,
    match dict_get name (profiles_in doc), dict_get name (ModelConfig.profiles c) with
    | Some v, Some p => ∃ d, v = VDict d ∧ reads_profile d p
    | None, None => True
    | _, _ => False
    end;
}.

(** ** Adapter options *)

Definition present (d : dict) : option pyval := if bool_decide (d = []) then None else Some (VDict d).

(** The value holds these options, without the empty ones. *)
Definition holds_options (v : pyval) (lt rt : dict) : Prop :=
  match v with
  | VNone => lt = [] ∧ rt = []
  | VDict d =>
      dict_wf d ∧ (lt ≠ [] ∨ rt ≠ []) ∧
      ∀ k, dict_get k d = if decide (k = "loadtime"%string) then present lt
                          else if decide (k = "runtime"%string) then present rt else None
  | _ => False
  end.

Lemma present_nil : present [] = None.
Proof. done. Qed.

Lemma present_cons d : d ≠ [] → present d = Some (VDict d).
Proof. intros. unfold present. by rewrite bool_decide_eq_false_2. Qed.

Lemma present_None d : None = present d → d = [].
Proof. unfold present. by case_bool_decide. Qed.

Lemma present_Some d v : present d = Some v → d ≠ [] ∧ v = VDict d.
Proof. unfold present. case_bool_decide; [done|]. by intros [= <-]. Qed.

Lemma compact_holds lt rt : holds_options (compact_adapter_options_for_hash lt rt) lt rt.
Proof.
  unfold compact_adapter_options_for_hash, holds_options, present.
  destruct (bool_decide (lt = [])) eqn:El, (bool_decide (rt = [])) eqn:Er; cbn;
    rewrite ?bool_decide_eq_true, ?bool_decide_eq_false in *; try done; (split; [by apply (bool_decide_unpack _); vm_compute|]);
    (split; [auto|]); intros k; repeat (case_decide; [subst; cbn; try done|]); cbn; repeat case_decide; try done; congruence.
Qed.

(** The options an entry map stands for, empty ones included *)
Definition raw_options (d lt rt : dict) : Prop :=
  dict_wf d ∧ (∀ k v, dict_get k d = Some v → (k = "loadtime"%string ∧ v = VDict lt) ∨ (k = "runtime"%string ∧ v = VDict rt)) ∧
  (lt ≠ [] → dict_get "loadtime"%string d = Some (VDict lt)) ∧ (rt ≠ [] → dict_get "runtime"%string d = Some (VDict rt)).

Lemma canonical_holds d lt rt : raw_options d lt rt → holds_options (canonical_adapter_options (VDict d)) lt rt.
Proof.
  intros (Hwf & Hd & Hl & Hr). unfold canonical_adapter_options. cbn zeta.
  match goal with |- context [bool_decide (?f = [])] => set (compact := f) end.
  assert (∀ k, dict_get k compact =
            if decide (k = "loadtime"%string) then present lt else if decide (k = "runtime"%string) then present rt else None) as Hg.
  { intros k. etrans; [exact (dict_get_filter (λ e, empty_dict e.2 = false) k d Hwf)|]. destruct (dict_get k d) as [v|] eqn:E.
    - destruct (Hd k v E) as [[-> ->]|[-> ->]]; cbn; unfold present; [destruct lt|destruct rt]; done.
    - case_decide; [subst; destruct lt; [done|by rewrite Hl in E]|]. case_decide; [subst; destruct rt; [done|by rewrite Hr in E]|done]. }
  assert (dict_wf compact) as Hw by exact (dict_filter_wf (λ e, empty_dict e.2 = false) d Hwf).
  clearbody compact. destruct compact as [|[k v] compact].
  - rewrite bool_decide_eq_true_2 by done. cbn. pose proof (Hg "loadtime"%string) as H1. pose proof (Hg "runtime"%string) as H2.
    rewrite decide_True in H1 by done. rewrite decide_False, decide_True in H2 by done.
    split; by apply present_None.
  - rewrite bool_decide_eq_false_2 by done. cbn [orb].
    pose proof (Hg k) as Hk. cbn [dict_get] in Hk.
    rewrite (decide_True (P := k = k)) in Hk by done.
    assert ((k = "loadtime"%string ∧ present lt = Some v) ∨ (k = "runtime"%string ∧ present rt = Some v)) as Hv .
    { destruct (decide (k = "loadtime"%string)); [by left|]. destruct (decide (k = "runtime"%string)); [by right|done]. }
    assert (is_hash_falsy v = false ∧ (lt ≠ [] ∨ rt ≠ [])) as [Hfalsy Hne].
    { destruct Hv as [[_ [Hne ->]%present_Some]|[_ [Hne ->]%present_Some]]; (split; [|auto]); [by destruct lt|by destruct rt]. }
    cbn [dict_values fmap list_fmap forallb snd]. rewrite Hfalsy. cbn [andb]. done.
Qed.

Lemma holds_raw d lt rt : holds_options (VDict d) lt rt → raw_options d lt rt.
Proof.
  intros (Hw & _ & Hg). split_and!; [done| | |].
  - intros k v. rewrite Hg. unfold present. repeat case_decide; repeat case_bool_decide; naive_solver.
  - intros Hl. rewrite Hg. cbn. by apply present_cons.
  - intros Hr. rewrite Hg. cbn. by apply present_cons.
Qed.

Lemma canonical_again v lt rt : holds_options v lt rt → holds_options (canonical_adapter_options v) lt rt.
Proof. destruct v as [| | | | | | |d]; try done. intros H. by apply canonical_holds, holds_raw. Qed.

Lemma get_merge_options child merged k :
  dict_wf child → (∀ k v, dict_get k child = Some v → k ∈ ["loadtime"; "runtime"]%string ∧ ∃ d, v = VDict d) →
  dict_get k (foldl merge_option merged child) =
  match dict_get k child with Some (VDict (e :: d)) => Some (VDict (e :: d)) | _ => dict_get k merged end.
Proof.
  revert merged. induction child as [|[key v] child IH]; intros merged Hwf Hc; [done|].
  unfold dict_wf in Hwf. rewrite dict_keys_cons in Hwf. apply NoDup_cons in Hwf as [Hk Hwf].
  destruct (Hc key v) as [Hin [d ->]]; [cbn; by rewrite decide_True|]. cbn [foldl merge_option dict_get].
  rewrite IH; [|done|].
  - rewrite bool_decide_eq_true_2 by done. destruct (decide (k = key)) as [->|Hne].
    + apply dict_get_None in Hk as ->. destruct d; cbn; [done|]. by rewrite dict_get_set, decide_True.
    + destruct (dict_get k child) as [[| | | | | | |[|]]|]; try done; destruct d; cbn; rewrite ?dict_get_set, ?decide_False by congruence; done.
  - intros k' v' Hk'. apply Hc. cbn. rewrite decide_False; [done|]. intros ->. apply Hk, dict_get_is_Some. eauto.
Qed.

Lemma merge_options_wf child merged : dict_wf merged → dict_wf (foldl merge_option merged child).
Proof.
  revert merged. induction child as [|[key v] child IH]; intros merged Hm; [done|]. cbn [foldl]. apply IH. cbn [merge_option].
  destruct v; try (by apply dict_set_wf). case_bool_decide; [case_bool_decide|]; by (done || apply dict_set_wf).
Qed.

(** ** One profile *)

Definition or_empty (child parent : dict) : dict := if bool_decide (child = []) then parent else child.

Lemma reads_entries d o :
  reads_options (Some (VDict d)) o →
  dict_wf d ∧ (∀ k v, dict_get k d = Some v → k ∈ ["loadtime"; "runtime"]%string ∧ ∃ e, v = VDict e) ∧
  match dict_get "loadtime"%string d with Some v => v = VDict (ModelConfig.loadtime o) | None => ModelConfig.loadtime o = [] end ∧
  match dict_get "runtime"%string d with Some v => v = VDict (ModelConfig.runtime o) | None => ModelConfig.runtime o = [] end.
Proof.
  intros (Hwf & Hk & Hl & Hr). split; [done|].
  assert (∀ key x, default (VDict []) (dict_get key d) = VDict x → match dict_get key d with Some v => v = VDict x | None => x = [] end) as Hd.
  { intros key x. destruct (dict_get key d); cbn; [done|by intros [= <-]]. }
  apply Hd in Hl, Hr. split_and!; [|done|done]. intros k v Hv.
  destruct (Hk k) as [->| ->]; [by apply dict_get_is_Some; eauto|rewrite Hv in Hl|rewrite Hv in Hr]; (split; [set_solver|eauto]).
Qed.

(** What a merge starts from *)
Definition inherited_options (v : pyval) : dict := match v with VDict d => dict_update [] d | _ => [] end.

Lemma get_inherited v lt rt k :
  holds_options v lt rt →
  dict_get k (inherited_options v) =
  if decide (k = "loadtime"%string) then present lt else if decide (k = "runtime"%string) then present rt else None.
Proof.
  destruct v as [| | | | | | |d0]; try done.
  - intros [-> ->]. by repeat case_decide.
  - intros (Hw & _ & Hg). cbn [inherited_options]. rewrite dict_get_update by done. rewrite Hg. repeat case_decide; try done.
    + by destruct (present lt).
    + by destruct (present rt).
Qed.

Lemma get_merged v lt rt d o k :
  holds_options v lt rt → reads_options (Some (VDict d)) o →
  dict_get k (foldl merge_option (inherited_options v) d) =
  if decide (k = "loadtime"%string) then present (or_empty (ModelConfig.loadtime o) lt)
  else if decide (k = "runtime"%string) then present (or_empty (ModelConfig.runtime o) rt) else None.
Proof.
  intros Hv (Hwf & Hc & Hl & Hr)%reads_entries. rewrite get_merge_options by done.
  rewrite (get_inherited v lt rt) by done.
  unfold or_empty. repeat case_decide; subst.
  - destruct (dict_get "loadtime" d) as [w|]; [subst w|rewrite Hl; done]. by destruct (ModelConfig.loadtime o).
  - destruct (dict_get "runtime" d) as [w|]; [subst w|rewrite Hr; done]. by destruct (ModelConfig.runtime o).
  - destruct (dict_get k d) as [w|] eqn:E; [|done]. destruct (Hc k w E) as [Hin _]. set_solver.
Qed.

Lemma merge_holds v lt rt d o :
  holds_options v lt rt → reads_options (Some (VDict d)) o →
  holds_options (merge_hash_adapter_options v (VDict d)) (or_empty (ModelConfig.loadtime o) lt) (or_empty (ModelConfig.runtime o) rt).
Proof.
  intros Hv Hd. apply (canonical_holds (foldl merge_option (inherited_options v) d)).
  pose proof (λ k, get_merged v lt rt d o k Hv Hd) as Hg. split_and!.
  - apply merge_options_wf. destruct v; try (apply NoDup_nil_2). apply dict_update_wf, NoDup_nil_2.
  - intros k w. rewrite Hg. repeat case_decide; intros [? ->]%present_Some || intros ?; auto; done.
  - intros Hne. rewrite Hg. by apply present_cons.
  - intros Hne. rewrite Hg. by apply present_cons.
Qed.

Definition hash_fields (a m c o : pyval) : dict :=
  [("adapter_path", a); ("max_batch_tokens", m); ("compute_precision", c); ("adapter_options", o)]%string.

(** A given value, or the parent's *)
Definition given (v parent : pyval) : pyval := match v with VNone => parent | _ => v end.

Lemma overlay_reads a m c o lt rt raw p :
  reads_profile raw p → holds_options o lt rt →
  ∃ o', overlay_profile (hash_fields a m c o) raw =
          hash_fields (given (of_str (ModelConfig.adapter_path p)) a) (given (of_int (ModelConfig.max_batch_tokens p)) m)
            (given (of_str (ModelConfig.compute_precision p)) c) o' ∧
        holds_options o' (or_empty (ModelConfig.loadtime (ModelConfig.adapter_options p)) lt)
          (or_empty (ModelConfig.runtime (ModelConfig.adapter_options p)) rt).
Proof.
  intros [Ha Hm Hc _ Ho _ _] Hh. unfold overlay_profile. cbn zeta.
  assert (foldl (override_field raw) (hash_fields a m c o) ["adapter_path"; "max_batch_tokens"; "compute_precision"]%string =
          hash_fields (given (of_str (ModelConfig.adapter_path p)) a) (given (of_int (ModelConfig.max_batch_tokens p)) m)
            (given (of_str (ModelConfig.compute_precision p)) c) o) as ->.
  { cbn [foldl]. unfold override_field. rewrite Ha, Hm, Hc.
    by destruct (ModelConfig.adapter_path p), (ModelConfig.max_batch_tokens p), (ModelConfig.compute_precision p). }
  set (f := hash_fields _ _ _ _).
  assert (∀ v, dict_set "adapter_options"%string v f =
               hash_fields (given (of_str (ModelConfig.adapter_path p)) a) (given (of_int (ModelConfig.max_batch_tokens p)) m)
                 (given (of_str (ModelConfig.compute_precision p)) c) v) as Hset by done.
  assert (get_val "adapter_options" f = o) as -> by done. unfold dict_mem, get_val. cbn zeta.
  destruct (dict_get "adapter_options" raw) as [v|] eqn:E.
  - rewrite Hset. eexists. split; [done|]. cbn [default]. destruct v; try done. by apply merge_holds.
  - rewrite Hset. eexists. split; [done|]. rewrite Ho. by apply canonical_again.
Qed.

Lemma overlay_typed_fields a m c o lt rt p :
  overlay_typed (hash_fields a m c o) lt rt p =
  hash_fields (given (of_str (ModelConfig.adapter_path p)) a) (given (of_int (ModelConfig.max_batch_tokens p)) m)
    (given (of_str (ModelConfig.compute_precision p)) c)
    (compact_adapter_options_for_hash (or_empty (ModelConfig.loadtime (ModelConfig.adapter_options p)) lt)
       (or_empty (ModelConfig.runtime (ModelConfig.adapter_options p)) rt)).
Proof.
  unfold overlay_typed. by destruct (ModelConfig.adapter_path p), (ModelConfig.max_batch_tokens p), (ModelConfig.compute_precision p).
Qed.

Lemma compact_parts lt rt :
  copy_mapping (get_val "loadtime" (copy_mapping (compact_adapter_options_for_hash lt rt))) = lt ∧
  copy_mapping (get_val "runtime" (copy_mapping (compact_adapter_options_for_hash lt rt))) = rt.
Proof.
  unfold compact_adapter_options_for_hash. destruct lt, rt; done.
Qed.

(** The fields of a resolved profile *)
Definition fields_of (r : ModelConfig.ResolvedProfile) (o : pyval) : dict :=
  hash_fields (VStr (ModelConfig.r_adapter_path r)) (VInt (ModelConfig.r_max_batch_tokens r)) (of_str (ModelConfig.r_compute_precision r)) o.

(** A configuration whose profiles passed the first loop of validation *)
Definition checked (c : Config) : Prop := ∀ e, e ∈ ModelConfig.profiles c → ModelConfig.check_profile c e = Ret tt.

(** A resolution, with the profile and the parent it is made of *)
Inductive resolution (c : Config) (name : string) (p : Profile) (r : ModelConfig.ResolvedProfile) : Prop :=
  | resolution_own :
      ModelConfig.extends p = None → ModelConfig.adapter_path p = Some (ModelConfig.r_adapter_path r) →
      ModelConfig.max_batch_tokens p = Some (ModelConfig.r_max_batch_tokens r) →
      ModelConfig.r_compute_precision r = ModelConfig.compute_precision p →
      ModelConfig.r_loadtime r = ModelConfig.loadtime (ModelConfig.adapter_options p) →
      ModelConfig.r_runtime r = ModelConfig.runtime (ModelConfig.adapter_options p) → resolution c name p r
  | resolution_child q parent :
      ModelConfig.extends p = Some q → q ≠ name → dict_get q (ModelConfig.profiles c) = Some parent →
      ModelConfig.extends parent = None →
      ModelConfig.over (ModelConfig.adapter_path p) (ModelConfig.adapter_path parent) = Some (ModelConfig.r_adapter_path r) →
      ModelConfig.over (ModelConfig.max_batch_tokens p) (ModelConfig.max_batch_tokens parent) = Some (ModelConfig.r_max_batch_tokens r) →
      ModelConfig.r_compute_precision r = ModelConfig.over (ModelConfig.compute_precision p) (ModelConfig.compute_precision parent) →
      ModelConfig.r_loadtime r = or_empty (ModelConfig.loadtime (ModelConfig.adapter_options p)) (ModelConfig.loadtime (ModelConfig.adapter_options parent)) →
      ModelConfig.r_runtime r = or_empty (ModelConfig.runtime (ModelConfig.adapter_options p)) (ModelConfig.runtime (ModelConfig.adapter_options parent)) →
      resolution c name p r.

Lemma resolution_of c name p r :
  checked c → dict_get name (ModelConfig.profiles c) = Some p → ModelConfig.resolve_profile_uncached c name = Ret r →
  resolution c name p r.
Proof.
  intros Hc Hp. unfold ModelConfig.resolve_profile_uncached. rewrite Hp. destruct (ModelConfig.extends p) as [q|] eqn:Eq.
  - destruct (dict_get q (ModelConfig.profiles c)) as [parent|] eqn:Epar; [|done].
    destruct (ModelConfig.over (ModelConfig.max_batch_tokens p) _) as [tokens|] eqn:Et; [|done].
    destruct (ModelConfig.over (ModelConfig.adapter_path p) _) as [path|] eqn:Ep; [|done]. intros [= <-].
    assert (ModelConfig.extends parent = None) as Hparent.
    { specialize (Hc (name, p) (dict_get_Some_elem _ _ _ Hp)). unfold ModelConfig.check_profile in Hc.
      do 3 ModelConfig.ok_bind Hc. rewrite Eq, Epar in Hc. by destruct (ModelConfig.extends parent). }
    apply (resolution_child _ _ _ _ q parent); try done. intros ->. rewrite Hp in Epar. injection Epar as <-. congruence.
  - destruct (ModelConfig.adapter_path p) as [path|] eqn:Ep; [|done]. destruct (ModelConfig.max_batch_tokens p) as [tokens|] eqn:Et; [|done].
    intros [= <-]. by apply resolution_own.
Qed.

Lemma given_over_str (a b : option string) : given (of_str a) (given (of_str b) VNone) = of_str (ModelConfig.over a b).
Proof. by destruct a, b. Qed.

Lemma given_over_int (a b : option Z) : given (of_int a) (given (of_int b) VNone) = of_int (ModelConfig.over a b).
Proof. by destruct a, b. Qed.

Lemma given_none v : given v VNone = v.
Proof. by destruct v. Qed.

Lemma or_empty_nil d : or_empty d [] = d.
Proof. unfold or_empty. by case_bool_decide. Qed.

Lemma blank_fields : blank_resolved = hash_fields VNone VNone VNone VNone.
Proof. done. Qed.

(** The worker's fields of a profile are those of its resolution. *)
Lemma worker_profile c name p r :
  resolution c name p r → dict_get name (ModelConfig.profiles c) = Some p → (∀ q, ModelConfig.extends p = Some q → q ≠ ""%string) →
  resolved_profile_for_hash c name =
  Ret (fields_of r (compact_adapter_options_for_hash (ModelConfig.r_loadtime r) (ModelConfig.r_runtime r))).
Proof.
  intros Hr Hp Hne. unfold resolved_profile_for_hash.
  destruct (ModelConfig.profiles c) as [|e0 l] eqn:El; [done|]. rewrite <- El in *. cbn [length].
  assert (S (length (ModelConfig.profiles c)) = S (S (length l))) as -> by by rewrite El.
  cbn [resolve_for_hash_loop]. rewrite Hp, decide_False by set_solver. destruct Hr as [He Ha Hm Hc Hl Hrt|q parent He Hq Hpar Hpe Ha Hm Hc Hl Hrt].
  - rewrite He. cbn [nonempty_str]. cbn [default Datatypes.id]. rewrite blank_fields, overlay_typed_fields, !or_empty_nil.
    unfold fields_of. rewrite !given_none, Ha, Hm, Hc, Hl, Hrt. done.
  - rewrite He. cbn [nonempty_str]. rewrite (bool_decide_eq_false_2 (q = ""%string)) by by apply Hne. unfold dict_mem. rewrite Hpar.
    rewrite decide_False by set_solver. rewrite Hpe. cbn [nonempty_str].
    rewrite blank_fields, overlay_typed_fields, !or_empty_nil. cbn [default Datatypes.id].
    change (get_val "adapter_options" (hash_fields ?a ?b ?c ?o)) with o.
    destruct (compact_parts (ModelConfig.loadtime (ModelConfig.adapter_options parent)) (ModelConfig.runtime (ModelConfig.adapter_options parent))) as [E1 E2].
    rewrite E1, E2, overlay_typed_fields. unfold fields_of. rewrite !given_over_str, given_over_int, Ha, Hm, Hc, Hl, Hrt. done.
Qed.

Lemma loads_raw id doc c name p :
  loads id doc c → dict_get name (ModelConfig.profiles c) = Some p →
  ∃ d, dict_get name (profiles_in doc) = Some (VDict d) ∧ reads_profile d p.
Proof.
  intros Hl Hp. pose proof (ld_same_profiles _ _ _ Hl name) as H. rewrite Hp in H.
  destruct (dict_get name (profiles_in doc)) as [v|]; [|done]. destruct H as (d & -> & H). eauto.
Qed.

Lemma reads_parent d p : reads_profile d p → parent_of d = ModelConfig.extends p.
Proof.
  intros H. unfold parent_of. rewrite (rd_extends _ _ H). pose proof (rd_extends_given _ _ H).
  destruct (ModelConfig.extends p) as [q|]; [|done]. cbn. by rewrite bool_decide_eq_false_2 by congruence.
Qed.

Lemma reads_path d p : reads_profile d p → own_path d = ModelConfig.adapter_path p.
Proof.
  intros H. unfold own_path. rewrite (rd_path _ _ H). pose proof (rd_path_given _ _ H).
  destruct (ModelConfig.adapter_path p) as [q|]; [|done]. cbn. by rewrite bool_decide_eq_false_2 by congruence.
Qed.

Lemma nil_holds : holds_options VNone [] [].
Proof. done. Qed.

(** The service resolves a profile to the same fields, its options in some order. *)
Lemma config_profile id doc c name p r :
  loads id doc c → dict_get name (ModelConfig.profiles c) = Some p → resolution c name p r →
  ∃ o, resolved_profile_hash_config (profiles_in doc) name = Some (fields_of r o) ∧
       holds_options o (ModelConfig.r_loadtime r) (ModelConfig.r_runtime r).
Proof.
  intros Hl Hp Hr. destruct (loads_raw _ _ _ _ _ Hl Hp) as (d & Hd & Hreads). pose proof (reads_parent _ _ Hreads) as Hpar.
  destruct Hr as [He Ha Hm Hc Hlt Hrt|q parent He Hq Hqp Hpe Ha Hm Hc Hlt Hrt].
  - destruct (overlay_reads VNone VNone VNone VNone [] [] d p Hreads nil_holds) as (o & Ho & Hopt).
    exists o. rewrite !or_empty_nil in Hopt. rewrite Hlt, Hrt. split; [|done].
    apply resolved_profile_resolves. exists 0%nat. unfold fields_of. rewrite Hc. rewrite Ha, Hm, !given_none in Ho.
    cbn [of_str of_int] in Ho. rewrite <- Ho.
    apply resolves_root; [done|by rewrite Hpar].
  - destruct (loads_raw _ _ _ _ _ Hl Hqp) as (d' & Hd' & Hreads'). pose proof (reads_parent _ _ Hreads') as Hpar'.
    destruct (overlay_reads VNone VNone VNone VNone [] [] d' parent Hreads' nil_holds) as (o' & Ho' & Hopt').
    rewrite !or_empty_nil in Hopt'. match type of Ho' with _ = hash_fields ?a ?m ?k _ =>
      destruct (overlay_reads a m k o' _ _ d p Hreads Hopt') as (o & Ho & Hopt) end.
    exists o. rewrite Hlt, Hrt. split; [|done].
    apply resolved_profile_resolves. exists 1%nat. unfold fields_of. rewrite !given_over_str, given_over_int, Ha, Hm in Ho.
    cbn [of_str of_int] in Ho. rewrite Hc, <- Ho, <- Ho'. apply (resolves_child _ _ _ q); [done|by rewrite Hpar|].
    apply resolves_root; [done|by rewrite Hpar'].
Qed.

Lemma config_path id doc c name p r :
  loads id doc c → dict_get name (ModelConfig.profiles c) = Some p → resolution c name p r →
  effective_adapter_path (profiles_in doc) name = Some (ModelConfig.r_adapter_path r) ∧ ModelConfig.r_adapter_path r ≠ ""%string.
Proof.
  intros Hl Hp Hr.
  assert (∀ n q, dict_get n (ModelConfig.profiles c) = Some q → n ≠ ""%string) as Hnamed.
  { intros n q Hn ->. by rewrite (ld_named _ _ _ Hl) in Hn. }
  assert (effective_adapter_path (profiles_in doc) name = Some (ModelConfig.r_adapter_path r)) as E.
  { apply effective_adapter_path_declares. destruct (loads_raw _ _ _ _ _ Hl Hp) as (d & Hd & Hreads).
    pose proof (reads_parent _ _ Hreads) as Hpar. pose proof (reads_path _ _ Hreads) as Hpath.
    destruct Hr as [He Ha _ _ _ _|q parent He Hq Hqp Hpe Ha _ _ _ _].
    - exists 0%nat. eapply declares_own; [by eapply Hnamed|done|congruence].
    - destruct (loads_raw _ _ _ _ _ Hl Hqp) as (d' & Hd' & Hreads'). pose proof (reads_path _ _ Hreads') as Hpath'.
      destruct (ModelConfig.adapter_path p) as [path|]; cbn in Ha.
      + exists 0%nat. eapply declares_own; [by eapply Hnamed|done|congruence].
      + exists 1%nat. eapply declares_parent; [by eapply Hnamed|done|done|by rewrite Hpar|].
        eapply declares_own; [by eapply Hnamed|done|congruence]. }
  split; [done|]. apply effective_adapter_path_declares in E as [n Hd]. clear -Hd.
  induction Hd as [name d path _ _ Ho|]; [by eapply own_path_nonempty|done].
Qed.

(** Options that hold the same are the same JSON. *)
Lemma dict_same_perm (d e : dict) : dict_wf d → dict_wf e → (∀ k, dict_get k d = dict_get k e) → d ≡ₚ e.
Proof.
  intros Hd He Hg. apply NoDup_Permutation; [by eapply NoDup_fmap_1|by eapply NoDup_fmap_1|]. intros [k v]. split; intros H.
  - apply dict_get_Some_elem. rewrite <- Hg. by apply dict_elem_get.
  - apply dict_get_Some_elem. rewrite Hg. by apply dict_elem_get.
Qed.

Lemma sort_keys_perm (d e : dict) : d ≡ₚ e → dict_wf d → sort_keys (VDict d) = sort_keys (VDict e).
Proof.
  intros Hp Hd. cbn [sort_keys]. f_equal. apply sort_entries_perm; [by apply Permutation_map|].
  assert (dict_keys (List.map (λ '(k, w), (k, sort_keys w)) d) = dict_keys d) as ->; [|done].
  clear. induction d as [|[k v] d IH]; [done|]. cbn. f_equal. exact IH.
Qed.

Lemma holds_same v w lt rt : holds_options v lt rt → holds_options w lt rt → sort_keys v = sort_keys w.
Proof.
  destruct v as [| | | | | | |d], w as [| | | | | | |e]; try done.
  - intros [-> ->] (_ & [?|?] & _); done.
  - intros (_ & [?|?] & _) [-> ->]; done.
  - intros (Hd & _ & Gd) (He & _ & Ge). apply sort_keys_perm; [|done]. apply dict_same_perm; [done|done|]. intros k. by rewrite Gd, Ge.
Qed.

Lemma sort_fields r o o' : sort_keys o = sort_keys o' → sort_keys (VDict (fields_of r o)) = sort_keys (VDict (fields_of r o')).
Proof. intros H. cbn [sort_keys fields_of hash_fields List.map]. by rewrite H. Qed.

(** ** Collecting contributions

    A configuration contributes the routable profiles of one model.  What the loop collects is
    the union of the contributions. *)

Definition contribution : Type := string * option string * list (string * dict).

Definition add_contribution (st : hash_state) (k : contribution) : hash_state :=
  let '(base, rev, ps) := k in
  match ps with
  | [] => st
  | _ => mkHash (dict_set base (dict_update (default [] (dict_get base (items_by_model st))) ps) (items_by_model st))
           (setdefault base rev (revisions_by_model st))
  end.

Lemma get_setdefault {A} (k k' : string) (v : A) d :
  dict_get k' (setdefault k v d) = match dict_get k' d with Some x => Some x | None => if decide (k = k') then Some v else None end.
Proof.
  unfold setdefault. destruct (dict_mem k d) eqn:E.
  - apply dict_mem_true, dict_get_is_Some in E as [x Hx]. destruct (dict_get k' d) eqn:E'; [done|]. rewrite decide_False; congruence.
  - apply dict_mem_false, dict_get_None in E. rewrite dict_get_set. case_decide; [subst; by rewrite E|]. by destruct (dict_get k' d).
Qed.

Lemma setdefault_wf {A} (k : string) (v : A) d : dict_wf d → dict_wf (setdefault k v d).
Proof. intros. unfold setdefault. destruct (dict_mem k d); [done|by apply dict_set_wf]. Qed.

(** The profiles collected so far are those contributed so far. *)
Record collected (st : hash_state) (ks : list contribution) : Prop := mkCollected {
  cl_wf : dict_wf (items_by_model st);
  cl_inner_wf : ∀ id ps, dict_get id (items_by_model st) = Some ps → dict_wf ps ∧ ps ≠ [];
  cl_profiles : ∀ id p d, (dict_get id (items_by_model st) ≫= dict_get p) = Some d ↔ ∃ rev ps, (id, rev, ps) ∈ ks ∧ (p, d) ∈ ps;
  cl_known : ∀ id, id ∈ dict_keys (items_by_model st) → id ∈ dict_keys (revisions_by_model st);
  cl_revision : ∀ id rev, dict_get id (revisions_by_model st) = Some rev → ∃ ps, (id, rev, ps) ∈ ks;
}.

(** Contributions to one model agree on its profiles. *)
Definition agreeing (ks : list contribution) : Prop :=
  (∀ k, k ∈ ks → dict_wf k.2) ∧
  ∀ id rev rev' ps ps' p d d', (id, rev, ps) ∈ ks → (id, rev', ps') ∈ ks → (p, d) ∈ ps → (p, d') ∈ ps' → d = d'.

Lemma add_empty st base rev : add_contribution st (base, rev, []) = st.
Proof. done. Qed.

Lemma add_some st base rev ps :
  ps ≠ [] →
  add_contribution st (base, rev, ps) =
  mkHash (dict_set base (dict_update (default [] (dict_get base (items_by_model st))) ps) (items_by_model st))
    (setdefault base rev (revisions_by_model st)).
Proof. by destruct ps. Qed.

Lemma elem_of_snoc {A} (x y : A) l : x ∈ l ++ [y] ↔ x ∈ l ∨ x = y.
Proof. by rewrite elem_of_app, list_elem_of_singleton. Qed.

Lemma collect_one st ks k : collected st ks → agreeing (ks ++ [k]) → collected (add_contribution st k) (ks ++ [k]).
Proof.
  destruct k as [[base rev] qs]. intros [W I P K R] [Aw Ag].
  assert (dict_wf qs) as Hqs by (apply (Aw (base, rev, qs)), elem_of_snoc; by right).
  assert (∀ id p d, (∃ rv ps, (id, rv, ps) ∈ ks ++ [(base, rev, qs)] ∧ (p, d) ∈ ps) ↔
            (∃ rv ps, (id, rv, ps) ∈ ks ∧ (p, d) ∈ ps) ∨ id = base ∧ (p, d) ∈ qs) as Hsnoc.
  { intros id p d. setoid_rewrite elem_of_snoc. split.
    - intros (rv & ps & [Hin|[= -> -> ->]] & Hp); eauto 10.
    - intros [(rv & ps & Hin & Hp)|[-> Hp]]; eauto 10. }
  destruct (decide (qs = [])) as [->|Hne].
  { rewrite add_empty. split; try done.
    - intros id p d. rewrite Hsnoc, P. split; [by left|]. intros [?|[_ Hp]]; [done|by apply elem_of_nil in Hp].
    - intros id rv Hr. destruct (R id rv Hr) as [ps Hin]. exists ps. apply elem_of_snoc. by left. }
  rewrite add_some by done. split; cbn [items_by_model revisions_by_model].
  - by apply dict_set_wf.
  - intros id ps. rewrite dict_get_set. case_decide; [|by apply I]. intros [= <-]. split.
    + apply dict_update_wf. destruct (dict_get base (items_by_model st)) as [x|] eqn:E; [by apply (I base x)|apply NoDup_nil_2].
    + destruct qs as [|[q d] qs0]; [done|]. intros E.
      assert (dict_get q (dict_update (default [] (dict_get base (items_by_model st))) ((q, d) :: qs0)) = Some d) as Hq.
      { rewrite dict_get_update by done. cbn. by rewrite decide_True. }
      by rewrite E in Hq.
  - intros id p d. rewrite Hsnoc, <- P, dict_get_set. case_decide as Hb; [|naive_solver]. subst id. cbn [mbind option_bind].
    rewrite dict_get_update by done. destruct (dict_get p qs) as [d'|] eqn:Eq.
    + pose proof (dict_get_Some_elem _ _ _ Eq) as Hin. split; [intros [= <-]; by right|]. intros [H|[_ H]].
      * f_equal. apply P in H as (rv & ps & Hk & Hp). apply (Ag base rev rv qs ps p); [..|done|done]; apply elem_of_snoc; auto.
      * by rewrite (dict_elem_get _ _ _ Hqs H) in Eq.
    + transitivity ((dict_get base (items_by_model st) ≫= dict_get p) = Some d); [by destruct (dict_get base (items_by_model st))|].
      split; [by left|]. intros [Hx|[_ Hx]]; [done|]. by rewrite (dict_elem_get _ _ _ Hqs Hx) in Eq.
  - intros id. rewrite <- !dict_get_is_Some, dict_get_set, get_setdefault. case_decide; [intros _; subst|].
    + destruct (dict_get id (revisions_by_model st)); eauto.
    + intros Hx%dict_get_is_Some%K%dict_get_is_Some. by destruct Hx as [x ->].
  - intros id rv. rewrite get_setdefault. destruct (dict_get id (revisions_by_model st)) as [x|] eqn:E.
    + intros [= <-]. destruct (R _ _ E) as [ps Hin]. exists ps. apply elem_of_snoc. by left.
    + case_decide; [|done]. subst. intros [= <-]. exists qs. apply elem_of_snoc. by right.
Qed.

Lemma agreeing_app ks ks' : agreeing (ks ++ ks') → agreeing ks.
Proof.
  intros [Aw Ag]. split; [intros k Hk; apply Aw, elem_of_app; by left|]. intros id rev rev' ps ps' p d d' H H'.
  apply (Ag id rev rev' ps ps' p); apply elem_of_app; by left.
Qed.

Lemma collect_all ks : agreeing ks → collected (foldl add_contribution (mkHash [] []) ks) ks.
Proof.
  induction ks as [|k ks IH] using rev_ind; intros Ha.
  - split; try done; [apply NoDup_nil_2|]. intros id p d. split; [done|]. intros (rv & ps & H & _). by apply elem_of_nil in H.
  - rewrite foldl_app. cbn [foldl]. apply collect_one; [|done]. apply IH. by eapply agreeing_app.
Qed.

(** A loop whose steps add contributions *)
Lemma res_fold_add {A} (f : hash_state → A → wres hash_state) (g : A → contribution) l st :
  (∀ x st, x ∈ l → f st x = Ret (add_contribution st (g x))) → res_fold f st l = Ret (foldl add_contribution st (g <$> l)).
Proof.
  revert st. induction l as [|x l IH]; intros st H; [done|]. cbn [res_fold fmap list_fmap foldl]. rewrite H by by left.
  apply IH. intros; apply H; by right.
Qed.

(** ** The expanded configurations *)

(** The default profile of a variant *)
Inductive promoted (c : Config) (name : string) (p : Profile) : Profile → Prop :=
  | promoted_own : ModelConfig.extends p = None → promoted c name p p
  | promoted_child q r :
      ModelConfig.extends p = Some q → ModelConfig.resolve_profile_uncached c name = Ret r → promoted c name p (standalone r).

Lemma promoted_fun c name p v v' : promoted c name p v → promoted c name p v' → v = v'.
Proof. destruct 1; inversion 1; congruence. Qed.

Section expansion.
Context (cs : list (string * Config)).
Hypothesis Hcs : dict_wf cs.

(** [w] is the variant [s] of some profile. *)
Definition variant_entry_of (s : string) (w : worker_config) (id : string) (c : Config) (name : string) (p : Profile) : Prop :=
  dict_get id cs = Some c ∧ dict_get name (ModelConfig.profiles c) = Some p ∧ name ≠ "default"%string ∧
  s = variant_id id name ∧ ∃ v, promoted c name p v ∧ w = variant_config c id name v.

Definition is_variant (s : string) (w : worker_config) : Prop := ∃ id c name p, variant_entry_of s w id c name p.

(** Serving identities determine their variants. *)
Hypothesis Hdistinct : ∀ s w w', is_variant s w → is_variant s w' → w = w'.
Hypothesis Hfresh : ∀ s w, is_variant s w → dict_get s cs = None.
Hypothesis Hprofiles : ∀ id c, dict_get id cs = Some c → dict_wf (ModelConfig.profiles c).

Lemma expand_profiles id c l vs vs' :
  dict_get id cs = Some c → (∀ e, e ∈ l → e ∈ ModelConfig.profiles c) → dict_wf vs → (∀ s w, dict_get s vs = Some w → is_variant s w) →
  res_fold (expand_profile cs id c) vs l = Ret vs' →
  dict_wf vs' ∧ (∀ s w, dict_get s vs' = Some w ↔
     dict_get s vs = Some w ∨ ∃ name p, (name, p) ∈ l ∧ variant_entry_of s w id c name p).
Proof.
  intros Hc. revert vs. induction l as [|[name p] l IH]; intros vs Hl Hwf Hvs; cbn [res_fold].
  { intros [= <-]. split; [done|]. intros s w. split; [by left|]. intros [?|(? & ? & H & _)]; [done|by apply elem_of_nil in H]. }
  assert (dict_get name (ModelConfig.profiles c) = Some p) as Hp by (apply dict_elem_get; [by eapply Hprofiles|apply Hl; by left]).
  assert (∀ e, e ∈ l → e ∈ ModelConfig.profiles c) as Hl' by (intros; apply Hl; by right).
  destruct (expand_profile cs id c vs (name, p)) as [vs1|e] eqn:E; [|done]. intros Hrest. cbn [expand_profile] in E.
  destruct (bool_decide (name = "default"%string)) eqn:Ed.
  { injection E as <-. apply bool_decide_eq_true in Ed as ->. destruct (IH vs Hl' Hwf Hvs Hrest) as [W G]. split; [done|].
    intros s w. rewrite G. split; (intros [?|(n & q & Hin & Hv)]; [by left|right; exists n, q; split; [|done]]).
    - by right.
    - apply elem_of_cons in Hin as [[= -> ->]|?]; [|done]. by destruct Hv as (_ & _ & ? & _). }
  apply bool_decide_eq_false in Ed. ModelConfig.ok_bind E.
  assert (promoted c name p a) as Hprom.
  { destruct (ModelConfig.extends p) as [q|] eqn:Eq; [|injection E0 as <-; by apply promoted_own].
    destruct (ModelConfig.resolve_profile_uncached c name) as [r|] eqn:Er; [|done]. injection E0 as <-. by eapply promoted_child. }
  assert (variant_entry_of (variant_id id name) (variant_config c id name a) id c name p) as Hv by (split_and!; eauto).
  assert (is_variant (variant_id id name) (variant_config c id name a)) as Hiv by by exists id, c, name, p.
  unfold dict_mem in E. rewrite (Hfresh _ _ Hiv) in E. injection E as <-.
  assert (∀ s w, dict_get s (dict_set (variant_id id name) (variant_config c id name a) vs) = Some w → is_variant s w) as Hvs1.
  { intros s w. rewrite dict_get_set. case_decide; [intros [= <-]; by subst|by apply Hvs]. }
  destruct (IH _ Hl' (dict_set_wf _ _ _ Hwf) Hvs1 Hrest) as [W G].
  split; [done|]. intros s w. rewrite G, dict_get_set. case_decide as Hs.
  - subst s. split.
    + intros [[= <-]|(n & q & Hin & Hw)]; right; [exists name, p; split; [by left|done]|exists n, q; split; [by right|done]].
    + intros Hor. left. f_equal. apply (Hdistinct (variant_id id name)); [done|].
      destruct Hor as [H|(n & q & _ & H)]; [by apply Hvs|by exists id, c, n, q].
  - split; [intros [?|(n & q & Hin & Hw)]; [by left|right; exists n, q; split; [by right|done]]|].
    intros [?|(n & q & [[= -> ->]|Hin]%elem_of_cons & Hw)]; [by left| |right; eauto].
    destruct Hw as (_ & _ & _ & -> & _). done.
Qed.

Lemma expand_configs l vs vs' :
  (∀ e, e ∈ l → e ∈ cs) → dict_wf vs → (∀ s w, dict_get s vs = Some w → is_variant s w) →
  res_fold (expand_config cs) vs l = Ret vs' →
  dict_wf vs' ∧ (∀ s w, dict_get s vs' = Some w → is_variant s w) ∧
  (∀ s w, dict_get s vs = Some w → dict_get s vs' = Some w) ∧
  ∀ s w id c name p, (id, c) ∈ l → variant_entry_of s w id c name p → dict_get s vs' = Some w.
Proof.
  revert vs. induction l as [|[id c] l IH]; intros vs Hl Hwf Hvs; cbn [res_fold].
  { intros [= <-]. split_and!; try done. intros s w id c name p H. by apply elem_of_nil in H. }
  destruct (expand_config cs vs (id, c)) as [vs1|e] eqn:E; [|done]. intros Hrest. cbn [expand_config] in E.
  assert (dict_get id cs = Some c) as Hc by (apply dict_elem_get; [done|apply Hl; by left]).
  destruct (expand_profiles id c (ModelConfig.profiles c) vs vs1 Hc (λ _ H, H) Hwf Hvs E) as [W1 G1].
  assert (∀ s w, dict_get s vs1 = Some w → is_variant s w) as Hvs1.
  { intros s w [H|(n & q & _ & H)]%G1; [by apply Hvs|by exists id, c, n, q]. }
  destruct (IH vs1) as (W & Hv & Hkeep & Hall); [intros; apply Hl; by right|done|done|done|].
  split_and!; [done|done|intros s w H; apply Hkeep, G1; by left|].
  intros s w id' c' name p [[= -> ->]|Hin]%elem_of_cons H; [|by eapply Hall].
  apply Hkeep, G1. right. exists name, p. split; [|done]. apply dict_get_Some_elem. by destruct H as (_ & ? & _).
Qed.

Lemma expand_spec configs :
  expand_profile_variants cs = Ret configs →
  dict_wf configs ∧ ∀ s w, dict_get s configs = Some w ↔
    (∃ c, dict_get s cs = Some c ∧ "default"%string ∈ dict_keys (ModelConfig.profiles c) ∧ w = mkWorker (bare_config c) None) ∨
    is_variant s w.
Proof.
  unfold expand_profile_variants. intros H. ModelConfig.ok_bind H. injection H as <-.
  destruct (expand_configs cs [] a (λ _ H, H)) as (W & Hv & _ & Hall); [apply NoDup_nil_2|done|done|].
  pose (kept := filter (λ e, dict_mem "default"%string (ModelConfig.profiles e.2) = true) cs).
  assert (dict_wf kept) as Hkw by exact (dict_filter_wf (λ e, dict_mem "default"%string (ModelConfig.profiles e.2) = true) cs Hcs).
  pose (f := λ (_ : string) c, mkWorker (bare_config c) None).
  assert (dict_wf ((λ e, (e.1, f e.1 e.2)) <$> kept)) as Hfw by (unfold dict_wf; by rewrite dict_keys_fmap).
  split; [by apply dict_update_wf|]. intros s w. rewrite dict_get_update by done.
  destruct (dict_get s a) as [v|] eqn:Ea.
  - pose proof (Hv _ _ Ea) as Hiv. split; [intros [= <-]; by right|]. intros [(c & Hc & _)|Hw].
    + by rewrite (Hfresh _ _ Hiv) in Hc.
    + f_equal. by eapply Hdistinct.
  - etrans; [by rewrite (dict_get_fmap f s kept : dict_get s ((λ e, (e.1, mkWorker (bare_config e.2) None)) <$> kept) = _)|].
    assert (dict_get s kept = match dict_get s cs with
              Some c => if decide (dict_mem "default"%string (ModelConfig.profiles c) = true) then Some c else None | None => None end) as ->
      by exact (dict_get_filter (λ e, dict_mem "default"%string (ModelConfig.profiles e.2) = true) s cs Hcs).
    split.
    + destruct (dict_get s cs) as [c|]; [|done]. case_decide as Hd; [|done]. intros [= <-]. left. exists c.
      by apply dict_mem_true in Hd.
    + intros [(c & Hc & Hd%dict_mem_true & ->)|(id & c & name & p & Hw)].
      * rewrite Hc. by rewrite decide_True.
      * assert (dict_get s a = Some w) as E'; [|by rewrite E' in Ea].
        apply (Hall s w id c name p); [|done]. apply dict_get_Some_elem. by destruct Hw as (? & _).
Qed.
End expansion.
End BundleHash.
