(* ===== verification/BundleParity.v ===== *)
(** The configuration service and the worker hash a bundle alike.

    [hash_parity] composes the registry of the service ([ConfigRegistry]), Pydantic's reading
    of its documents ([BundleHash.loads]), the expansion of profile variants and the worker's
    hash ([BundleHash]). *)

From Stdlib Require Import Ascii.
From stdpp Require Import strings.
From S2P Require Import Prelude PyFloat PyDict PyStr Handlers PyVal ModelConfig.
From S2P Require Import ConfigProfiles ConfigRegistry ConfigTables ConfigRouting BundleHash.
Import Handlers PyVal ConfigProfiles ConfigRegistry ConfigTables ConfigRouting BundleHash.
Local Open Scope Z_scope.
Local Open Scope py_scope.

Module BundleParity.

Section worker.
(** The adapters of the bundle *)
Context (adapters_of : gset string).

(** The hash fields of a profile that is routable in the bundle *)
Definition pick (c : Config) (name : string) : option dict :=
  match ModelConfig.resolve_profile_uncached c name with
  | Ret r =>
      if decide (before_colon (ModelConfig.r_adapter_path r) ∈ adapters_of)
      then Some (fields_of r (compact_adapter_options_for_hash (ModelConfig.r_loadtime r) (ModelConfig.r_runtime r)))
      else None
  | Raise _ => None
  end.

(** What the two questions of the loop answer for a profile that can be resolved *)
Definition answers (c : Config) (name : string) : Prop :=
  profile_matches_bundle c name adapters_of = Ret (bool_decide (is_Some (pick c name))) ∧
  ∀ d, pick c name = Some d → resolved_profile_for_hash c name = Ret d.

Lemma answers_intro c name p r :
  ModelConfig.resolve_profile_uncached c name = Ret r → resolution c name p r → dict_get name (ModelConfig.profiles c) = Some p →
  (∀ q, ModelConfig.extends p = Some q → q ≠ ""%string) → ModelConfig.r_adapter_path r ≠ ""%string → answers c name.
Proof.
  intros Hr Hres Hp He Hpath. unfold answers, pick, profile_matches_bundle. rewrite Hr. cbn [of_config res_bind].
  unfold adapter_module. rewrite (bool_decide_eq_false_2 (ModelConfig.r_adapter_path r = ""%string)) by done. split.
  - f_equal. case_decide as Hin.
    + rewrite !bool_decide_eq_true_2; [done|by eauto|done].
    + rewrite !bool_decide_eq_false_2; [done|by intros [? ?]|done].
  - intros d. case_decide; [|done]. intros [= <-]. by apply (worker_profile c name p).
Qed.

Lemma any_matches_pick c names :
  (∀ n, n ∈ names → answers c n) → any_matches c adapters_of names = Ret (existsb (λ n, bool_decide (is_Some (pick c n))) names).
Proof.
  induction names as [|n names IH]; intros H; [done|]. cbn [any_matches existsb]. destruct (H n) as [-> _]; [by left|].
  cbn [res_bind]. destruct (bool_decide (is_Some (pick c n))); [done|]. apply IH. intros; apply H; by right.
Qed.

(** The picked profiles among some, stored under other names *)
Definition picks (c : Config) (names : list (string * string)) : list (string * dict) :=
  omap (λ n, (λ d, (n.2, d)) <$> pick c n.1) names.

Lemma picks_cons c n names : picks c (n :: names) = match pick c n.1 with Some d => (n.2, d) :: picks c names | None => picks c names end.
Proof. unfold picks. cbn. by destruct (pick c n.1). Qed.

Lemma hash_ones c base st names :
  (∀ n, n ∈ names.*1 → answers c n) →
  res_fold (hash_one adapters_of c base) st names =
  Ret (match picks c names with
       | [] => st
       | ps => mkHash (dict_set base (dict_update (default [] (dict_get base (items_by_model st))) ps) (items_by_model st))
                 (revisions_by_model st)
       end).
Proof.
  revert st. induction names as [|[n as_] names IH]; intros st H; [done|]. cbn [res_fold].
  destruct (H n) as [Hm Hd]; [by left|]. unfold hash_one at 1. rewrite Hm. cbn [res_bind].
  rewrite picks_cons. cbn [fst snd]. destruct (pick c n) as [d|] eqn:Ep.
  - rewrite bool_decide_eq_true_2 by eauto. cbn [negb]. rewrite (Hd d) by done. cbn [res_bind].
    rewrite IH by (intros; apply H; by right). destruct (picks c names) as [|e ps]; [done|].
    cbn [items_by_model revisions_by_model]. rewrite dict_get_set, decide_True by done. by rewrite dict_set_set.
  - rewrite bool_decide_eq_false_2 by (by intros [? ?]). cbn [negb]. apply IH. intros; apply H; by right.
Qed.

Context (configs : list (string * worker_config)).

(** What a configuration contributes *)
Definition contributes (w : worker_config) : contribution :=
  match source w with
  | None => (ModelConfig.sie_id (conf w), ModelConfig.hf_revision (conf w),
             picks (conf w) ((λ p, (p, p)) <$> sorted_strings (dict_keys (ModelConfig.profiles (conf w)))))
  | Some (base, name) =>
      (base, ModelConfig.hf_revision (conf w),
       if is_synthetic_profile_variant w configs then [] else picks (conf w) [("default"%string, name)])
  end.

Lemma no_pick c names : existsb (λ n, bool_decide (is_Some (pick c n))) names.*1 = false → picks c names = [].
Proof.
  induction names as [|[n as_] names IH]; [done|]. cbn [fmap list_fmap existsb fst]. rewrite orb_false_iff, picks_cons.
  intros [Hn H]. cbn [fst]. apply bool_decide_eq_false in Hn. destruct (pick c n) as [d|]; [destruct Hn; eauto|auto].
Qed.

Lemma some_pick c names : existsb (λ n, bool_decide (is_Some (pick c n))) names.*1 = true → picks c names ≠ [].
Proof.
  induction names as [|[n as_] names IH]; [done|]. cbn [fmap list_fmap existsb fst]. rewrite orb_true_iff, picks_cons. cbn [fst].
  destruct (pick c n) as [d|]; [done|]. intros [Hn|H]; [|auto]. by apply bool_decide_eq_true in Hn as [? ?].
Qed.

Lemma existsb_perm {A} (f : A → bool) l l' : (∀ x, x ∈ l ↔ x ∈ l') → existsb f l = existsb f l'.
Proof.
  intros H. apply eq_bool_prop_intro. rewrite !Is_true_true, !existsb_exists. setoid_rewrite <- list_elem_of_In.
  split; intros (x & Hx & Hf); exists x; (split; [by apply H|done]).
Qed.

Lemma hash_config_contributes w st :
  (∀ n, n ∈ dict_keys (ModelConfig.profiles (conf w)) → answers (conf w) n) →
  match source w with Some _ => dict_keys (ModelConfig.profiles (conf w)) = ["default"%string] | None => True end →
  hash_config adapters_of configs st w = Ret (add_contribution st (contributes w)).
Proof.
  intros Ha Hsrc. unfold hash_config, contributes. destruct (is_synthetic_profile_variant w configs) eqn:Es.
  { unfold is_synthetic_profile_variant in Es. destruct (source w) as [[base name]|]; [done|done]. }
  unfold model_has_bundle_adapter. rewrite any_matches_pick by done. cbn [res_bind].
  set (base_names := match source w with
        | Some (base, variant_profile) => (base, [("default"%string, variant_profile)])
        | None => (ModelConfig.sie_id (conf w), (λ p, (p, p)) <$> sorted_strings (dict_keys (ModelConfig.profiles (conf w)))) end).
  assert (∀ n, n ∈ base_names.2.*1 ↔ n ∈ dict_keys (ModelConfig.profiles (conf w))) as Hnames.
  { intros n. unfold base_names. destruct (source w) as [[base name]|]; [by rewrite Hsrc|]. cbn [snd].
    rewrite <- list_fmap_compose, list_fmap_id. apply elem_of_stable_sort. }
  rewrite <- (existsb_perm _ base_names.2.*1) by done.
  match goal with |- _ = Ret (add_contribution st ?k) =>
    replace k with (base_names.1, ModelConfig.hf_revision (conf w), picks (conf w) base_names.2)
      by (unfold base_names; by destruct (source w) as [[base name]|]) end.
  destruct base_names as [base names]. cbn [fst snd] in *. destruct (existsb _ names.*1) eqn:Eb; cbn [negb].
  - rewrite hash_ones by (intros n Hn; apply Ha; by apply Hnames). pose proof (some_pick _ _ Eb) as Hne.
    rewrite add_some by done. destruct (picks (conf w) names) as [|e ps] eqn:Eps; [done|]. f_equal.
    cbn [items_by_model revisions_by_model]. f_equal. rewrite get_setdefault, decide_True by done. unfold setdefault, dict_mem.
    destruct (dict_get base (items_by_model st)); [done|]. by rewrite dict_set_set.
  - by rewrite no_pick.
Qed.
End worker.

(** ** Sorted traversals *)

Lemma sorted_NoDup l : NoDup l → NoDup (sorted_strings l).
Proof. intros. unfold sorted_strings. by rewrite stable_sort_perm. Qed.

(** Two collections give the same list, if they differ in what gives nothing. *)
Lemma omap_sorted {A} (f : string → option A) (l l' : list string) :
  NoDup l → NoDup l' → (∀ x, is_Some (f x) → x ∈ l ↔ x ∈ l') → omap f (sorted_strings l) = omap f (sorted_strings l').
Proof.
  intros Hl Hl' Hf.
  assert (∀ k : list string, omap f k = omap f (filter (λ x, is_Some (f x)) k)) as Hskip.
  { intros k. induction k as [|x k IH]; [done|]. rewrite filter_cons. destruct (decide (is_Some (f x))) as [Hx|Hx].
    - cbn. by destruct (f x); rewrite IH.
    - apply eq_None_not_Some in Hx. cbn. by rewrite Hx. }
  rewrite (Hskip (sorted_strings l)), (Hskip (sorted_strings l')). f_equal.
  apply (StronglySorted_unique String.le); [apply sorted_names_filter|apply sorted_names_filter|].
  apply NoDup_Permutation; [by apply NoDup_filter, sorted_NoDup|by apply NoDup_filter, sorted_NoDup|].
  intros x. rewrite !list_elem_of_filter. unfold sorted_strings. rewrite !elem_of_stable_sort. naive_solver.
Qed.

Lemma map_omap {A B} (g : A → B) (f : string → option A) (l : list string) : List.map g (omap f l) = omap (λ x, g <$> f x) l.
Proof. induction l as [|x l IH]; [done|]. cbn. destruct (f x); cbn; by rewrite IH. Qed.

Lemma fmap_as_omap {A} (g : string → A) (f : string → option A) (l : list string) :
  (∀ x, x ∈ l → f x = Some (g x)) → g <$> l = omap f l.
Proof.
  induction l as [|x l IH]; intros H; [done|]. cbn. rewrite H by by left. cbn. f_equal. apply IH. intros; apply H; by right.
Qed.

(** ** One model *)

Definition name_entry (name : string) (d : dict) : pyval := VDict [("name", VStr name); ("config", VDict d)]%string.

Lemma sort_name_entry name d d' : sort_keys (VDict d) = sort_keys (VDict d') → sort_keys (name_entry name d) = sort_keys (name_entry name d').
Proof. unfold name_entry. intros H. cbn [sort_keys List.map] in *. by rewrite H. Qed.

Lemma checked_validated repr raw c : ModelConfig.validate_config repr raw = Ret c → checked c.
Proof.
  intros H. assert (∃ p, c = ModelConfig.with_pool raw p) as [p ->].
  { unfold ModelConfig.validate_config in H. repeat ModelConfig.ok_bind H. injection H as <-. eauto. }
  apply ModelConfig.validate_config_ok in H as (_ & _ & _ & _ & _ & _ & _ & _ & Hv & _).
  apply ModelConfig.validate_profiles_ok in Hv as (_ & Hc & _). intros e He. exact (Hc e He).
Qed.

(** What is known of a configuration of the worker: it is the reading of a stored document. *)
Record known (F : docs) (id : string) (c : Config) (doc : dict) : Prop := mkKnown {
  kn_doc : dict_get id F = Some doc;
  kn_loads : loads id doc c;
  kn_checked : checked c;
}.

Lemma known_profile F id c doc name :
  known F id c doc → name ∈ dict_keys (ModelConfig.profiles c) →
  ∃ p r, dict_get name (ModelConfig.profiles c) = Some p ∧ ModelConfig.resolve_profile_uncached c name = Ret r ∧ resolution c name p r ∧
    (∀ q, ModelConfig.extends p = Some q → q ≠ ""%string) ∧ ModelConfig.r_adapter_path r ≠ ""%string ∧
    effective_adapter_path (profiles_in doc) name = Some (ModelConfig.r_adapter_path r).
Proof.
  intros [Hd Hl Hc] [p Hp]%dict_get_is_Some. destruct (ModelConfig.check_profile_resolves c name p Hp Hc) as (r & Hr & _).
  pose proof (resolution_of c name p r Hc Hp Hr) as Hres. destruct (config_path id doc c name p r Hl Hp Hres) as [Hpath Hne].
  exists p, r. split_and!; try done. intros q Hq ->. destruct (loads_raw _ _ _ _ _ Hl Hp) as (d & _ & Hreads).
  by apply (rd_extends_given _ _ Hreads).
Qed.

Lemma known_names F id c doc name : known F id c doc → name ∈ dict_keys (profiles_in doc) ↔ name ∈ dict_keys (ModelConfig.profiles c).
Proof.
  intros Hk. pose proof (ld_same_profiles _ _ _ (kn_loads _ _ _ _ Hk) name) as H. rewrite <- !dict_get_is_Some.
  destruct (dict_get name (profiles_in doc)), (dict_get name (ModelConfig.profiles c)); try done; split; intros [? ?]; (done || eauto).
Qed.

Section model.
Context (adapters_of : gset string) (Hadapters : ""%string ∉ adapters_of).

(** The service's entry of a profile is the worker's. *)
Lemma hash_profile_pick F id c doc name :
  known F id c doc → name ∈ dict_keys (ModelConfig.profiles c) →
  sort_keys <$> hash_profile adapters_of (profiles_in doc) name = (λ d, sort_keys (name_entry name d)) <$> pick adapters_of c name.
Proof.
  intros Hk Hn. destruct (known_profile _ _ _ _ _ Hk Hn) as (p & r & Hp & Hr & Hres & _ & Hpath & _).
  destruct (config_profile id doc c name p r (kn_loads _ _ _ _ Hk) Hp Hres) as (o & Ho & Hopt).
  unfold hash_profile, pick. rewrite Ho, Hr. cbn zeta.
  change (get_val "adapter_path" (fields_of r o)) with (VStr (ModelConfig.r_adapter_path r)). cbv iota.
  rewrite (bool_decide_eq_false_2 (ModelConfig.r_adapter_path r = ""%string)) by done. case_decide; [|done]. cbn [fmap option_fmap option_map].
  f_equal. apply sort_name_entry, sort_fields. eapply holds_same; [done|apply compact_holds].
Qed.

(** A model with a routable profile has a module in the bundle. *)
Lemma pick_module F id c doc name d :
  known F id c doc → name ∈ dict_keys (ModelConfig.profiles c) → pick adapters_of c name = Some d →
  adapter_modules_for_profiles (profiles_in doc) None ∩ adapters_of ≠ ∅.
Proof.
  intros Hk Hn Hp. destruct (known_profile _ _ _ _ _ Hk Hn) as (p & r & _ & Hr & _ & _ & Hne & Hpath).
  unfold pick in Hp. rewrite Hr in Hp. case_decide as Hin; [|done].
  assert (before_colon (ModelConfig.r_adapter_path r) ∈ adapter_modules_for_profiles (profiles_in doc) None) as Hm; [|set_solver].
  unfold adapter_modules_for_profiles. apply elem_of_list_to_set, list_elem_of_omap. exists name. split; [by eapply known_names|].
  unfold profile_module. rewrite Hpath. unfold adapter_module_from_path. rewrite (bool_decide_eq_false_2 (_ = _)) by done.
  cbn zeta. rewrite bool_decide_eq_false_2; [done|]. intros E. by rewrite E in Hin.
Qed.

Lemma pick_known c name d : pick adapters_of c name = Some d → name ∈ dict_keys (ModelConfig.profiles c).
Proof.
  unfold pick, ModelConfig.resolve_profile_uncached. destruct (dict_get name (ModelConfig.profiles c)) eqn:E; [|done].
  intros _. apply dict_get_is_Some. eauto.
Qed.

Definition model_entry_of (id : string) (revision : pyval) (profiles : list pyval) : pyval :=
  VDict [("sie_id", VStr id); ("revision", revision); ("profiles", VList profiles)]%string.

Lemma sort_model_entry id revision ps ps' :
  List.map sort_keys ps = List.map sort_keys ps' → sort_keys (model_entry_of id revision ps) = sort_keys (model_entry_of id revision ps').
Proof. unfold model_entry_of. intros H. cbn [sort_keys List.map]. by rewrite H. Qed.

(** The service's entry of a model *)
Lemma hash_model_picks r id c doc :
  coherent r → known (model_full_configs r) id c doc →
  sort_keys <$> hash_model r adapters_of None id =
  match omap (λ p, name_entry p <$> pick adapters_of c p) (sorted_strings (dict_keys (ModelConfig.profiles c))) with
  | [] => None
  | ps => Some (sort_keys (model_entry_of id (of_str (ModelConfig.hf_revision c)) ps))
  end.
Proof.
  intros Hc Hk. pose proof (kn_doc _ _ _ _ Hk) as Hd.
  assert (full_config_of r id = doc) as Hfull by (unfold full_config_of; by rewrite Hd).
  assert (id ∈ dict_keys (model_full_configs r)) as Hid by (apply dict_get_is_Some; eauto).
  unfold hash_model. cbn zeta. rewrite coherent_modules, known_profiles, Hfull by done.
  set (A := omap (hash_profile adapters_of (profiles_in doc)) _).
  set (B := omap (λ p, name_entry p <$> pick adapters_of c p) _).
  assert (List.map sort_keys A = List.map sort_keys B) as HAB.
  { unfold A, B. rewrite !map_omap.
    rewrite (omap_sorted _ (elements (names_of (profiles_in doc))) (dict_keys (ModelConfig.profiles c))).
    - apply omap_agree. intros p Hp. unfold sorted_strings in Hp. apply elem_of_stable_sort in Hp.
      rewrite (hash_profile_pick _ _ _ _ _ Hk Hp). by destruct (pick adapters_of c p).
    - apply NoDup_elements.
    - apply (ld_wf _ _ _ (kn_loads _ _ _ _ Hk)).
    - intros p _. unfold names_of. rewrite elem_of_elements, elem_of_list_to_set. by eapply known_names. }
  assert (A = [] ↔ B = []) as Hnil.
  { clear -HAB. clearbody A B. split; intros ->; [by destruct B|by destruct A]. }
  case_decide as Hm.
  - assert (B = []) as ->; [|done]. apply elem_of_nil_inv. intros x (p & Hp & Hx)%list_elem_of_omap.
    destruct (pick adapters_of c p) as [d|] eqn:Epick; [|done]. by destruct (pick_module _ _ _ _ _ _ Hk (pick_known _ _ _ Epick) Epick).
  - clearbody A B. destruct A as [|a A'], B as [|b B'].
    + done.
    + by pose proof (proj1 Hnil eq_refl).
    + by pose proof (proj2 Hnil eq_refl).
    + cbn [fmap option_fmap option_map]. f_equal. rewrite (ld_revision _ _ _ (kn_loads _ _ _ _ Hk)). by apply sort_model_entry.
Qed.
End model.

(** ** Expanded configurations *)

Lemma resolve_same_profiles c c' name :
  ModelConfig.profiles c = ModelConfig.profiles c' →
  ModelConfig.resolve_profile_uncached c name = ModelConfig.resolve_profile_uncached c' name.
Proof. intros E. unfold ModelConfig.resolve_profile_uncached. by rewrite E. Qed.

Lemma bare_profiles c :
  ModelConfig.profiles (bare_config c) = ModelConfig.profiles c ∧ ModelConfig.sie_id (bare_config c) = ModelConfig.sie_id c ∧
  ModelConfig.hf_revision (bare_config c) = ModelConfig.hf_revision c.
Proof. unfold bare_config. by destruct (dict_get _ _), (ModelConfig.generate (ModelConfig.tasks c)). Qed.

Lemma pick_bare A c name : pick A (bare_config c) name = pick A c name.
Proof. unfold pick. by rewrite (resolve_same_profiles (bare_config c) c) by apply bare_profiles. Qed.

(** The promoted profile of a variant resolves as the profile does in the base model. *)
Lemma variant_resolves c id name p v r :
  dict_get name (ModelConfig.profiles c) = Some p → ModelConfig.resolve_profile_uncached c name = Ret r → promoted c name p v →
  let c' := conf (variant_config c id name v) in
  ModelConfig.extends v = None ∧ ModelConfig.resolve_profile_uncached c' "default" = Ret r ∧ resolution c' "default" v r.
Proof.
  intros Hp Hr [He|q r' He Hr']; cbn zeta.
  - unfold ModelConfig.resolve_profile_uncached in Hr |- *. rewrite Hp, He in Hr. cbn [conf variant_config copy_config ModelConfig.profiles dict_get].
    rewrite decide_True, He by done. destruct (ModelConfig.adapter_path p) as [path|] eqn:Ea; [|done].
    destruct (ModelConfig.max_batch_tokens p) as [n|] eqn:En; [|done]. split_and!; [done|done|]. injection Hr as <-. by apply resolution_own.
  - rewrite Hr in Hr'. injection Hr' as <-. split_and!; [done| |by apply resolution_own]. by destruct r.
Qed.

Lemma res_fold_total {E S A} (f : S → A → res E S) l s : (∀ x s, x ∈ l → ∃ s', f s x = Ret s') → ∃ s', res_fold f s l = Ret s'.
Proof.
  revert s. induction l as [|x l IH]; intros s H; [by eexists|]. cbn [res_fold]. destruct (H x s) as [s1 ->]; [by left|].
  apply IH. intros; apply H; by right.
Qed.

Section parity.
Context (digest : pyval → string) (r : registry) (A : gset string) (cs : list (string * Config)).
Hypotheses (Hc : coherent r) (HA : ""%string ∉ A) (Hcs : dict_wf cs)
  (Hknown : ∀ id c, dict_get id cs = Some c → ∃ doc, known (model_full_configs r) id c doc).
Let F := model_full_configs r.
Let HF : dict_wf F := mt_docs_wf r (co_tables r Hc).

Lemma entry_variant s w id c name p : variant_entry_of cs s w id c name p → ∃ doc, known F id c doc ∧ variant_of F s id name doc.
Proof.
  intros (Hid & Hp & Hd & -> & _). destruct (Hknown id c Hid) as [doc Hk]. exists doc. split; [done|].
  split_and!; [apply Hk| |done|done]. apply (known_names _ _ _ _ name Hk), dict_get_is_Some. eauto.
Qed.

Lemma variants_distinct s w w' : is_variant cs s w → is_variant cs s w' → w = w'.
Proof.
  intros (id & c & name & p & H) (id' & c' & name' & p' & H').
  destruct (entry_variant _ _ _ _ _ _ H) as (doc & _ & Hv), (entry_variant _ _ _ _ _ _ H') as (doc' & _ & Hv').
  destruct (apart_variant F s s id id' name name' doc doc' HF (co_apart r Hc) Hv Hv' eq_refl) as (-> & -> & _ & _).
  destruct H as (Hid & Hp & _ & _ & v & Hpr & ->), H' as (Hid' & Hp' & _ & _ & v' & Hpr' & ->).
  assert (c = c') as <- by congruence. assert (p = p') as <- by congruence. by rewrite (promoted_fun _ _ _ _ _ Hpr Hpr').
Qed.

Lemma variants_fresh s w : is_variant cs s w → dict_get s cs = None.
Proof.
  intros (id & c & name & p & H). destruct (entry_variant _ _ _ _ _ _ H) as (doc & _ & Hv).
  destruct (dict_get s cs) as [c'|] eqn:E; [|done]. destruct (Hknown s c' E) as [doc' Hk].
  destruct (apart_base_variant F s id s name doc HF (co_apart r Hc)); [|done|done].
  apply dict_get_is_Some. exists doc'. apply Hk.
Qed.

Lemma profiles_wf id c : dict_get id cs = Some c → dict_wf (ModelConfig.profiles c).
Proof. intros [doc Hk]%Hknown. apply (ld_wf _ _ _ (kn_loads _ _ _ _ Hk)). Qed.

(** The expansion does not fail. *)
Lemma expand_total : ∃ W, expand_profile_variants cs = Ret W.
Proof.
  unfold expand_profile_variants. destruct (res_fold_total (expand_config cs) cs []) as [vs ->]; [|by eexists].
  intros [id c] vs Hin. apply (dict_elem_get _ _ _ Hcs) in Hin. apply res_fold_total. intros [name p] vs' Hp.
  apply (dict_elem_get _ _ _ (profiles_wf _ _ Hin)) in Hp. cbn [expand_profile]. destruct (bool_decide _); [by eexists|].
  destruct (Hknown id c Hin) as [doc Hk]. destruct (known_profile _ _ _ _ name Hk) as (_ & res & _ & Hr & _).
  { apply dict_get_is_Some. eauto. }
  destruct (ModelConfig.extends p); [rewrite Hr|]; cbn [res_bind of_config]; destruct (dict_mem _ _); by eexists.
Qed.

Context (W : list (string * worker_config)) (HW : expand_profile_variants cs = Ret W).

Lemma workers_wf : dict_wf W.
Proof. by apply (expand_spec cs Hcs variants_distinct variants_fresh profiles_wf W HW). Qed.

(** The two kinds of configuration *)
Lemma worker_kind w :
  w ∈ dict_values W ↔
  (∃ id c, dict_get id cs = Some c ∧ "default"%string ∈ dict_keys (ModelConfig.profiles c) ∧ w = mkWorker (bare_config c) None) ∨
  (∃ s id c name p, variant_entry_of cs s w id c name p).
Proof.
  destruct (expand_spec cs Hcs variants_distinct variants_fresh profiles_wf W HW) as [Hwf Hspec].
  unfold dict_values. rewrite list_elem_of_fmap. split.
  - intros ([s w'] & -> & Hin). apply (dict_elem_get _ _ _ Hwf) in Hin. apply Hspec in Hin as [(c & ?)|(id & c & name & p & ?)]; cbn; [left|right]; eauto 10.
  - intros [(s & c & H)|(s & H)]; (exists (s, w); split; [done|]; apply dict_get_Some_elem, Hspec); [left; eauto|right; exact H].
Qed.

Lemma base_kept id c : dict_get id cs = Some c → dict_mem id W = dict_mem "default"%string (ModelConfig.profiles c).
Proof.
  destruct (expand_spec cs Hcs variants_distinct variants_fresh profiles_wf W HW) as [_ Hspec]. intros Hid.
  rewrite !dict_mem_is_Some. apply bool_decide_ext. rewrite (dict_get_is_Some "default"%string). split.
  - intros [w [(c' & Hc' & Hd & _)|Hv]%Hspec]; [congruence|]. by rewrite (variants_fresh _ _ Hv) in Hid.
  - intros Hd. exists (mkWorker (bare_config c) None). apply Hspec. left. eauto.
Qed.

Lemma base_answers id c name : dict_get id cs = Some c → name ∈ dict_keys (ModelConfig.profiles c) → answers A (bare_config c) name.
Proof.
  intros Hid Hn. destruct (Hknown id c Hid) as [doc Hk].
  destruct (known_profile _ _ _ _ name Hk Hn) as (p & res & Hp & Hr & Hres & He & Hne & _).
  destruct (bare_profiles c) as (Ep & _ & _). apply (answers_intro _ _ _ p res).
  - by rewrite (resolve_same_profiles _ c).
  - destruct Hres; [by apply resolution_own|]. eapply resolution_child; try done. by rewrite Ep.
  - by rewrite Ep.
  - done.
  - done.
Qed.

Lemma variant_answers s w id c name p :
  variant_entry_of cs s w id c name p → answers A (conf w) "default" ∧ pick A (conf w) "default" = pick A c name.
Proof.
  intros (Hid & Hp & _ & _ & v & Hpr & ->). destruct (Hknown id c Hid) as [doc Hk].
  destruct (known_profile _ _ _ _ name Hk) as (p' & res & Hp' & Hr & _ & _ & Hne & _); [apply dict_get_is_Some; eauto|].
  rewrite Hp in Hp'. injection Hp' as <-. destruct (variant_resolves c id name p v res Hp Hr Hpr) as (He & Hr' & Hres).
  split; [|unfold pick; by rewrite Hr', Hr]. apply (answers_intro _ _ _ v res); try done. by rewrite He.
Qed.

(** ** What the loop collects *)

Lemma elem_of_picks c names p d : (p, d) ∈ picks A c names ↔ ∃ n, (n, p) ∈ names ∧ pick A c n = Some d.
Proof.
  unfold picks. rewrite list_elem_of_omap. split.
  - intros ([n q] & Hin & E). cbn in E. destruct (pick A c n) as [e|] eqn:Ep; [|done]. injection E as -> ->. eauto.
  - intros (n & Hin & Ep). exists (n, p). cbn. by rewrite Ep.
Qed.

Lemma picks_wf c names : NoDup names.*2 → dict_wf (picks A c names).
Proof.
  unfold dict_wf. induction names as [|[n q] names IH]; [intros; apply NoDup_nil_2|]. cbn [fmap list_fmap snd]. rewrite picks_cons.
  intros [Hq Hn]%NoDup_cons. cbn [fst snd]. destruct (pick A c n); [|by apply IH]. rewrite dict_keys_cons. apply NoDup_cons. split; [|by apply IH].
  unfold dict_keys. intros ([q' d'] & -> & (n' & Hin & _)%elem_of_picks)%list_elem_of_fmap. apply Hq, list_elem_of_fmap. by exists (n', q').
Qed.

Lemma elem_of_own_names c n p : (n, p) ∈ (λ q, (q, q)) <$> sorted_strings (dict_keys (ModelConfig.profiles c)) ↔ n = p ∧ p ∈ dict_keys (ModelConfig.profiles c).
Proof.
  rewrite list_elem_of_fmap. unfold sorted_strings. setoid_rewrite elem_of_stable_sort. split; [by intros (q & [= -> ->] & ?)|].
  intros [-> ?]. by exists p.
Qed.

(** Every contribution is of a model's picked profiles. *)
Lemma contribution_sound w id rev ps :
  w ∈ dict_values W → contributes A W w = (id, rev, ps) →
  dict_wf ps ∧ ∃ c, dict_get id cs = Some c ∧ rev = ModelConfig.hf_revision c ∧ ∀ p d, (p, d) ∈ ps → pick A c p = Some d.
Proof.
  intros [(i & c & Hi & Hd & ->)|(s & i & c & name & q & Hv)]%worker_kind.
  - destruct (bare_profiles c) as (Ep & Ei & Er). unfold contributes. cbn [source conf]. rewrite Ep, Ei, Er. intros [= <- <- <-].
    destruct (Hknown i c Hi) as [doc Hk]. rewrite (ld_id _ _ _ (kn_loads _ _ _ _ Hk)). split.
    + apply picks_wf. rewrite <- list_fmap_compose, list_fmap_id. apply sorted_NoDup. by eapply profiles_wf.
    + exists c. split_and!; [done|done|]. intros p d (n & [-> _]%elem_of_own_names & Hpick)%elem_of_picks. by rewrite <- pick_bare.
  - destruct (variant_answers _ _ _ _ _ _ Hv) as [_ Hpick].
    assert (source w = Some (i, name) ∧ ModelConfig.hf_revision (conf w) = ModelConfig.hf_revision c) as [Hsrc Hrev].
    { by destruct Hv as (_ & _ & _ & _ & v & _ & ->). }
    destruct Hv as (Hid & _). unfold contributes. rewrite Hsrc, Hrev.
    pose proof (picks_wf (conf w) [("default"%string, name)] (NoDup_singleton _)) as Hwf.
    pose proof (elem_of_picks (conf w) [("default"%string, name)]) as Hel.
    destruct (is_synthetic_profile_variant w W).
    + intros [= <- <- <-]. split; [apply NoDup_nil_2|]. exists c. split_and!; [done|done|]. by intros p d H%elem_of_nil.
    + generalize dependent (picks A (conf w) [("default"%string, name)]). intros l Hwf Hel [= <- <- <-]. split; [done|].
      exists c. split_and!; [done|done|]. intros p d (n & [= -> ->]%list_elem_of_singleton & H)%Hel. by rewrite <- Hpick.
Qed.

(** Every picked profile is contributed. *)
Lemma contribution_complete id c p d :
  dict_get id cs = Some c → pick A c p = Some d →
  ∃ w rev ps, w ∈ dict_values W ∧ contributes A W w = (id, rev, ps) ∧ (p, d) ∈ ps.
Proof.
  intros Hid Hp. pose proof (pick_known _ _ _ _ Hp) as Hin. pose proof (base_kept id c Hid) as Hbase. destruct (Hknown id c Hid) as [doc Hk].
  destruct (dict_mem "default"%string (ModelConfig.profiles c)) eqn:Ed.
  - apply dict_mem_true in Ed. exists (mkWorker (bare_config c) None). eexists _, _.
    split; [apply worker_kind; left; eauto|]. destruct (bare_profiles c) as (Ep & Ei & _). unfold contributes. cbn [source conf].
    rewrite Ei, (ld_id _ _ _ (kn_loads _ _ _ _ Hk)). split; [done|]. apply elem_of_picks. exists p. rewrite pick_bare. split; [|done].
    rewrite Ep. by apply elem_of_own_names.
  - assert (p ≠ "default"%string) as Hpd by (intros ->; by apply dict_mem_false in Ed).
    destruct (known_profile _ _ _ _ p Hk Hin) as (q & res & Hq & Hr & _).
    assert (∃ v, promoted c p q v) as [v Hv].
    { destruct (ModelConfig.extends q) as [par|] eqn:Eq; [exists (standalone res); by eapply promoted_child|exists q; by apply promoted_own]. }
    assert (variant_entry_of cs (variant_id id p) (variant_config c id p v) id c p q) as Hve by (split_and!; eauto).
    exists (variant_config c id p v). eexists _, _. split; [apply worker_kind; right; eauto 10|].
    destruct (variant_answers _ _ _ _ _ _ Hve) as [_ Hpick]. unfold contributes. cbn [source variant_config]. split; [done|].
    unfold is_synthetic_profile_variant. cbn [source variant_config]. rewrite Hbase. cbn [andb]. apply elem_of_picks.
    exists "default"%string. split; [by apply list_elem_of_singleton|]. by rewrite <- Hp.
Qed.

Lemma hash_config_adds w st : w ∈ dict_values W → hash_config A W st w = Ret (add_contribution st (contributes A W w)).
Proof.
  intros [(i & c & Hi & Hd & ->)|(s & i & c & name & q & Hv)]%worker_kind; apply hash_config_contributes.
  - cbn [conf]. intros n Hn. rewrite (proj1 (bare_profiles c)) in Hn. by eapply base_answers.
  - done.
  - destruct (variant_answers _ _ _ _ _ _ Hv) as [Ha _]. destruct Hv as (_ & _ & _ & _ & v & _ & ->). by intros n ->%list_elem_of_singleton.
  - by destruct Hv as (_ & _ & _ & _ & v & _ & ->).
Qed.

Definition sorted_workers : list worker_config :=
  stable_sort (λ a b, String.leb (ModelConfig.sie_id (conf a)) (ModelConfig.sie_id (conf b))) (dict_values W).

Lemma elem_of_contributions id rev ps :
  (id, rev, ps) ∈ contributes A W <$> sorted_workers ↔ ∃ w, w ∈ dict_values W ∧ contributes A W w = (id, rev, ps).
Proof.
  rewrite list_elem_of_fmap. unfold sorted_workers. setoid_rewrite elem_of_stable_sort. split; intros (w & ? & ?); eauto.
Qed.

(** The state after the loop, read off the configurations. *)
Lemma hash_state_of :
  ∃ st, res_fold (hash_config A W) (mkHash [] []) sorted_workers = Ret st ∧ dict_wf (items_by_model st) ∧
    (∀ id p d, (dict_get id (items_by_model st) ≫= dict_get p) = Some d ↔ ∃ c, dict_get id cs = Some c ∧ pick A c p = Some d) ∧
    ∀ id ps, dict_get id (items_by_model st) = Some ps →
      dict_wf ps ∧ ps ≠ [] ∧ ∃ c, dict_get id cs = Some c ∧ dict_get id (revisions_by_model st) = Some (ModelConfig.hf_revision c).
Proof.
  assert (agreeing (contributes A W <$> sorted_workers)) as Ha.
  { split.
    - intros [[id rev] ps] (w & Hw & E)%elem_of_contributions. by eapply contribution_sound.
    - intros id rev rev' ps ps' p d d' (w & Hw & E)%elem_of_contributions (w' & Hw' & E')%elem_of_contributions Hd Hd'.
      destruct (contribution_sound _ _ _ _ Hw E) as (_ & c & Hid & _ & H), (contribution_sound _ _ _ _ Hw' E') as (_ & c' & Hid' & _ & H').
      apply H in Hd. apply H' in Hd'. congruence. }
  destruct (collect_all _ Ha) as [Wf In Pr Kn Re].
  eexists. split; [apply (res_fold_add _ (contributes A W)); intros w st Hw; apply hash_config_adds; by eapply elem_of_stable_sort|].
  split_and!; [done| |].
  - intros id p d. rewrite Pr. split.
    + intros (rev & ps & (w & Hw & E)%elem_of_contributions & Hd). destruct (contribution_sound _ _ _ _ Hw E) as (_ & c & Hid & _ & H). eauto.
    + intros (c & Hid & Hp). destruct (contribution_complete _ _ _ _ Hid Hp) as (w & rev & ps & Hw & E & Hd).
      exists rev, ps. split; [|done]. apply elem_of_contributions. eauto.
  - intros id ps Hps. destruct (In id ps Hps) as [Hwf Hne]. split_and!; [done|done|].
    assert (id ∈ dict_keys (items_by_model (foldl add_contribution (mkHash [] []) (contributes A W <$> sorted_workers)))) as Hk%Kn
      by (apply dict_get_is_Some; eauto).
    apply dict_get_is_Some in Hk as [rev Hrev]. destruct (Re id rev Hrev) as (ps' & (w & Hw & E)%elem_of_contributions).
    destruct (contribution_sound _ _ _ _ Hw E) as (_ & c & Hid & -> & _). eauto.
Qed.

(** ** The entries *)

(** The sorted entry of a model, from the configuration the worker read *)
Definition entry_of (id : string) : option pyval :=
  match dict_get id cs with
  | Some c =>
      match omap (λ p, name_entry p <$> pick A c p) (sorted_strings (dict_keys (ModelConfig.profiles c))) with
      | [] => None
      | ps => Some (sort_keys (model_entry_of id (of_str (ModelConfig.hf_revision c)) ps))
      end
  | None => None
  end.

Lemma service_entry id :
  (∀ doc, dict_get id F = Some doc → dict_get id cs = None → adapter_modules_for_profiles (profiles_in doc) None ∩ A = ∅) →
  id ∈ dict_keys F → sort_keys <$> hash_model r A None id = entry_of id.
Proof.
  intros Hrest [doc Hdoc]%dict_get_is_Some. unfold entry_of. destruct (dict_get id cs) as [c|] eqn:Hid.
  - destruct (Hknown id c Hid) as [doc' Hk]. by rewrite (hash_model_picks A HA r id c doc').
  - rewrite hash_model_none; [done|]. rewrite coherent_modules by done. unfold full_config_of.
    assert (dict_get id (model_full_configs r) = Some doc) as -> by exact Hdoc. by apply Hrest.
Qed.

Lemma worker_entry st id :
  (∀ id p d, (dict_get id (items_by_model st) ≫= dict_get p) = Some d ↔ ∃ c, dict_get id cs = Some c ∧ pick A c p = Some d) →
  (∀ id ps, dict_get id (items_by_model st) = Some ps →
     dict_wf ps ∧ ps ≠ [] ∧ ∃ c, dict_get id cs = Some c ∧ dict_get id (revisions_by_model st) = Some (ModelConfig.hf_revision c)) →
  sort_keys <$> hash_entry st id = entry_of id ∧ (is_Some (entry_of id) → id ∈ dict_keys (items_by_model st)).
Proof.
  intros Hitems Hps. unfold hash_entry, entry_of. rewrite <- dict_get_is_Some. specialize (Hitems id). specialize (Hps id).
  destruct (dict_get id (items_by_model st)) as [ps|].
  - destruct (Hps ps eq_refl) as (Hwf & Hne & c & Hid & Hrev). rewrite Hid, Hrev. cbn [default Datatypes.id].
    assert (∀ p, dict_get p ps = pick A c p) as Hget.
    { intros p. apply option_eq. intros d. etrans; [apply Hitems|]. rewrite Hid. split; [by intros (? & [= <-] & ?)|eauto]. }
    assert ((λ p, name_entry p (default [] (dict_get p ps))) <$> sorted_strings (dict_keys ps) =
            omap (λ p, name_entry p <$> pick A c p) (sorted_strings (dict_keys (ModelConfig.profiles c)))) as Hl.
    { etrans; [apply (fmap_as_omap _ (λ p, name_entry p <$> pick A c p))|].
      - intros p Hp. unfold sorted_strings in Hp. apply elem_of_stable_sort, dict_get_is_Some in Hp as [d Hd]. by rewrite <- Hget, Hd.
      - apply omap_sorted; [done|by eapply profiles_wf|]. intros p Hp. rewrite <- dict_get_is_Some, Hget.
        destruct (pick A c p) as [d|] eqn:Ep; [|by apply is_Some_None in Hp]. split; [intros _; by eapply pick_known|eauto]. }
    assert (omap (λ p, name_entry p <$> pick A c p) (sorted_strings (dict_keys (ModelConfig.profiles c))) ≠ []) as Hsome.
    { rewrite <- Hl. destruct ps as [|[q d] ps']; [done|]. intros E%fmap_nil_inv. unfold sorted_strings in E.
      pose proof (stable_sort_perm String.leb (dict_keys ((q, d) :: ps'))) as Hperm. rewrite E in Hperm. by apply Permutation_nil in Hperm. }
    split; [|eauto]. destruct (omap _ _) as [|e l]; [done|]. destruct ps as [|[q d] ps']; [done|]. cbn [fmap option_fmap option_map].
    f_equal. unfold model_entry_of. rewrite <- Hl. done.
  - assert (match dict_get id cs with
            | Some c => omap (λ p, name_entry p <$> pick A c p) (sorted_strings (dict_keys (ModelConfig.profiles c))) = []
            | None => True end) as Hnone.
    { destruct (dict_get id cs) as [c|]; [|done]. apply elem_of_nil_inv. intros x (p & Hp & Hx)%list_elem_of_omap.
      destruct (pick A c p) as [d|] eqn:Ep; [|done]. by destruct (proj2 (Hitems p d)); eauto. }
    destruct (dict_get id cs) as [c|]; [rewrite Hnone|]; (split; [done|]); by intros ?%is_Some_None.
Qed.

Lemma same_items (items items' : list pyval) :
  List.map sort_keys items = List.map sort_keys items' →
  match items with [] => Ret (E := worker_error) ""%string | x :: l => Ret (digest (sort_keys (VList (x :: l)))) end =
  Ret (match items' with [] => ""%string | x :: l => digest (sort_keys (VList (x :: l))) end).
Proof. intros H. cbn [sort_keys] in *. destruct items, items'; try done. cbn [sort_keys]. by rewrite H. Qed.

Lemma same_hash k b :
  (∀ id doc, dict_get id F = Some doc → dict_get id cs = None → adapter_modules_for_profiles (profiles_in doc) None ∩ A = ∅) →
  dict_get k (bundles r) = Some b → A = list_to_set (adapters b) →
  worker_bundle_config_hash digest W A = Ret (compute_bundle_config_hash_locked digest r k None).
Proof.
  intros Hrest Hb HeA. destruct hash_state_of as (st & Hst & Hwf & Hitems & Hps). unfold worker_bundle_config_hash, compute_bundle_config_hash_locked.
  fold sorted_workers. rewrite Hst, Hb. cbn [res_bind]. unfold hash_items. rewrite <- HeA.
  apply (same_items (omap (hash_entry st) _) (omap (hash_model r A (normalized_pool None)) _)). rewrite !map_omap.
  etrans; [apply (omap_agree _ entry_of); intros id _; by apply worker_entry|].
  symmetry. etrans; [apply (omap_agree _ entry_of); intros id Hid|].
  - apply service_entry; [by apply Hrest|]. unfold sorted_strings in Hid. by apply elem_of_stable_sort, known_model_keys in Hid.
  - apply omap_sorted; [apply (mt_models_wf r (co_tables r Hc))|done|]. intros id He. split; intros _.
    + by apply (worker_entry st id).
    + apply known_model_keys; [done|]. unfold entry_of in He. destruct (dict_get id cs) as [c|] eqn:Hid; [|by apply is_Some_None in He].
      destruct (Hknown id c Hid) as [doc Hk]. apply dict_get_is_Some. exists doc. apply Hk.
Qed.
End parity.

(** ** The theorem *)

(** C9 — A worker in sync is never taken for stale.  Take a registry of the configuration service
    whose documents' serving identities (model ids and model:profile ids) were apart up to
    case from the start, and a worker that has read and validated the stored documents of (at
    least) the models its bundle can route.  The worker's profile expansion succeeds, and its
    digest of the typed, expanded configurations is the service's digest of the raw documents
    for the bundle, whichever hash function digests the JSON.  Nothing in the service keeps
    identities apart; with a model named like another one's variant the hashes differ
    ([clashing_ids_break_parity]). *)
Theorem hash_parity repr digest trail r k b cs :
  reachable repr digest trail r → Forall apart trail → dict_get k (bundles r) = Some b → ""%string ∉ adapters b → dict_wf cs →
  (∀ id c, dict_get id cs = Some c →
     ∃ doc raw, dict_get id (model_full_configs r) = Some doc ∧ loads id doc c ∧ ModelConfig.validate_config repr raw = Ret c) →
  (∀ id doc, dict_get id (model_full_configs r) = Some doc → dict_get id cs = None →
     adapter_modules_for_profiles (profiles_in doc) None ∩ list_to_set (adapters b) = ∅) →
  ∃ W, expand_profile_variants cs = Ret W ∧
    worker_bundle_config_hash digest W (list_to_set (adapters b)) = Ret (compute_bundle_config_hash_locked digest r k None).
Proof.
  intros Hre Hall Hb HA Hcs Hread Hrest. destruct (reachable_coherent _ _ _ _ Hre Hall) as (Hc & _ & _).
  assert (∀ id c, dict_get id cs = Some c → ∃ doc, known (model_full_configs r) id c doc) as Hknown.
  { intros id c (doc & raw & Hd & Hl & Hv)%Hread. exists doc. split; [done|done|by eapply checked_validated]. }
  destruct (expand_total r cs Hcs Hknown) as [W HW]. exists W. split; [done|].
  eapply (same_hash digest r (list_to_set (adapters b)) cs Hc); try done. by rewrite elem_of_list_to_set.
Qed.

(** ** An example: a model with a default profile and a child, one without a default, and one
    the worker's bundle does not route *)

Definition ex_own : dict := [("adapter_path", VStr "a:A"); ("max_batch_tokens", VInt 8);
  ("adapter_options", VDict [("runtime", VDict [("k", VInt 1)]); ("loadtime", VDict [])])]%string.
Definition ex_fast : dict := [("extends", VStr "default"); ("compute_precision", VStr "float16")]%string.

Definition ex_docs : list (option pyval) :=
  [Some (VDict (ex_model "org/m" [("default", VDict ex_own); ("fast", VDict ex_fast)] ++ [("hf_revision", VStr "r1")]));
   Some (VDict (ex_model "org/v" [("big", VDict ex_own)]));
   Some (VDict (ex_model "org/n" [("default", ex_profile "c:C")]))]%string.

Definition ex_registry : registry :=
  reload ex_repr [Some (mkBundleDoc "narrow" None (Some 10) (Some ["a"]) None None)]%string ex_docs.

Definition ex_own_typed : Profile :=
  ModelConfig.mkProfile None (Some 8) None (Some "a:A"%string) (ModelConfig.mkOptions [] [("k", VInt 1)]%string) None None None None None None.
Definition ex_fast_typed : Profile :=
  ModelConfig.mkProfile (Some "default"%string) None (Some "float16"%string) None (ModelConfig.mkOptions [] []) None None None None None None.

Definition ex_typed (id : string) (revision : option string) (profiles : list (string * Profile)) : Config :=
  ModelConfig.mkConfig id (Some id) revision None false None false (ModelConfig.mkTasks None true false None) None profiles.

Definition ex_read : list (string * Config) :=
  [("org/m", ex_typed "org/m" (Some "r1") [("default", ex_own_typed); ("fast", ex_fast_typed)]);
   ("org/v", ex_typed "org/v" None [("big", ex_own_typed)])]%string.

Lemma ex_reads_own : reads_profile ex_own ex_own_typed.
Proof.
  split; try done. split; [by apply (bool_decide_unpack _); vm_compute|]. split; [|done].
  intros k [->|[->|[]%elem_of_nil]%elem_of_cons]%elem_of_cons; auto.
Qed.

Lemma ex_reads_fast : reads_profile ex_fast ex_fast_typed.
Proof. by split. Qed.

Lemma ex_registry_reachable : reachable ex_repr ex_digest [omap (kept ex_repr) ex_docs] ex_registry.
Proof.
  apply reach_load.
  do 3 (apply Forall_cons_2; [intros c [= <-]; by apply doc_okb_ok|]). apply Forall_nil_2.
Qed.

Ltac eval_profiles :=
  match goal with |- context [profiles_in ?d] => let v := eval vm_compute in (profiles_in d) in change (profiles_in d) with v end.

Lemma ex_read_ok id c :
  dict_get id ex_read = Some c →
  ∃ doc raw, dict_get id (model_full_configs ex_registry) = Some doc ∧ loads id doc c ∧ ModelConfig.validate_config ex_repr raw = Ret c.
Proof.
  intros Hid. assert (ModelConfig.validate_config ex_repr c = Ret c ∧ id ∈ ["org/m"; "org/v"]%string) as [Hv Hin].
  { apply dict_get_Some_elem in Hid. revert Hid. unfold ex_read. rewrite !elem_of_cons.
    intros [[= -> ->]|[[= -> ->]|[]%elem_of_nil]]; (split; [by vm_compute|set_solver]). }
  rewrite !elem_of_cons, elem_of_nil in Hin. destruct Hin as [->|[->|[]]]; (injection Hid as <-);
    (eexists; eexists; split; [vm_compute; reflexivity|split; [|exact Hv]]); clear Hv; split; try done.
  - by apply (bool_decide_unpack _); vm_compute.
  - intros name. eval_profiles. cbn. repeat case_decide; try done; eexists; (split; [reflexivity|]); [exact ex_reads_own|exact ex_reads_fast].
  - by apply (bool_decide_unpack _); vm_compute.
  - intros name. eval_profiles. cbn. repeat case_decide; try done; eexists; (split; [reflexivity|]); exact ex_reads_own.
Qed.

Lemma ex_rest id doc :
  dict_get id (model_full_configs ex_registry) = Some doc → dict_get id ex_read = None →
  adapter_modules_for_profiles (profiles_in doc) None ∩ list_to_set (C := gset string) ["a"%string] = ∅.
Proof.
  intros Hd Hn. apply dict_get_Some_elem in Hd. revert Hd. vm_compute (model_full_configs ex_registry).
  rewrite !elem_of_cons. intros [[= -> ->]|[[= -> ->]|[[= -> ->]|[]%elem_of_nil]]]; [done|done|]. by vm_compute.
Qed.

Lemma hash_parity_witness :
  ∃ W, expand_profile_variants ex_read = Ret W ∧ dict_keys W = ["org/m"; "org/m:fast"; "org/v:big"]%string ∧
    worker_bundle_config_hash ex_digest W (list_to_set ["a"%string]) =
      Ret (compute_bundle_config_hash_locked ex_digest ex_registry "narrow" None) ∧
    compute_bundle_config_hash_locked ex_digest ex_registry "narrow" None = "digest of several"%string.
Proof.
  destruct (hash_parity ex_repr ex_digest [omap (kept ex_repr) ex_docs] ex_registry "narrow" (mkBundle "narrow" 10 ["a"%string] false "pytorch") ex_read ex_registry_reachable)
    as (W & HW & H).
  - apply (bool_decide_unpack _). by vm_compute.
  - by vm_compute.
  - by apply (bool_decide_unpack _); vm_compute.
  - by apply (bool_decide_unpack _); vm_compute.
  - exact ex_read_ok.
  - exact ex_rest.
  - exists W. split_and!; [done| |done|by vm_compute]. vm_compute in HW. by injection HW as <-.
Defined.

(** A model [m:fast] beside the profile [fast] of [m]: the service looks the profiles of
    [m:fast] up under the variant and finds none to hash, the worker hashes its own. *)
Definition ex_clash : list (option pyval) :=
  [Some (VDict (ex_model "m" [("default", VDict ex_own); ("fast", VDict ex_fast)]));
   Some (VDict (ex_model "m:fast" [("x", VDict [("adapter_path", VStr "c:C"); ("max_batch_tokens", VInt 8)])]))]%string.

Definition ex_clash_read : list (string * Config) :=
  [("m", ex_typed "m" None [("default", ex_own_typed); ("fast", ex_fast_typed)]);
   ("m:fast", ex_typed "m:fast" None [("x", ModelConfig.mkProfile None (Some 8) None (Some "c:C") (ModelConfig.mkOptions [] []) None None None None None None)])]%string.

Lemma clashing_ids_break_parity :
  let r := reload ex_repr [Some (mkBundleDoc "other" None (Some 10) (Some ["c"]) None None)]%string ex_clash in
  compute_bundle_config_hash_locked ex_digest r "other" None = ""%string ∧
  (let* W := expand_profile_variants ex_clash_read in worker_bundle_config_hash ex_digest W (list_to_set ["c"%string])) =
    Ret "digest of several"%string ∧
  Forall (λ e, ModelConfig.validate_config ex_repr e.2 = Ret e.2) ex_clash_read.
Proof. split_and!; [vm_compute; reflexivity..|]. repeat (apply Forall_cons_2; [by vm_compute|]). apply Forall_nil_2. Qed.
End BundleParity.
