(* ===== verification/ConfigStore.v ===== *)
(** The configuration store, [config_store.py] of the configuration service: one YAML file per
    model that the API has written, and the epoch counter.

    The file system or bucket behind it is a map from file names to texts whose operations may
    fail ([backend]).  PyYAML is the class [Yaml]: [YamlLaws] is what the service relies on,
    that a dumped document loads as itself. *)

From Stdlib Require Import Ascii.
From stdpp Require Import strings.
From S2P Require Import Prelude PyFloat PyDict PyStr Handlers PyVal ModelConfig.
Import Handlers PyVal.
Local Open Scope Z_scope.
Local Open Scope py_scope.

(** [yaml.dump], [yaml.safe_load] ([None] is a [YAMLError]), and the test for an empty text *)
Class Yaml (text : Type) := {
  yaml_dump : pyval → text;
  yaml_load : text → option pyval;
  blank : text → bool;
}.

Class YamlLaws (text : Type) `{!Yaml text} : Prop := {
  load_dump v : yaml_load (yaml_dump v) = Some v;
  dump_blank v : blank (yaml_dump v) = false;
}.

Module ConfigStore.

(** ** Names *)

Definition underscore : ascii := "_"%char.
Definition slash : ascii := "/"%char.

(** [ab in s] for two characters *)
Fixpoint has_pair (a b : ascii) (s : string) : bool :=
  match s with
  | EmptyString => false
  | String c s' =>
      match s' with
      | String d _ => (bool_decide (c = a) && bool_decide (d = b)) || has_pair a b s'
      | EmptyString => false
      end
  end.

(** [s.replace("/", "__")] *)
Fixpoint replace_slash (s : string) : string :=
  match s with
  | EmptyString => EmptyString
  | String c s' => if bool_decide (c = slash) then String underscore (String underscore (replace_slash s')) else String c (replace_slash s')
  end.

(** [s.replace("__", "/")] *)
Fixpoint replace_dunder (s : string) : string :=
  match s with
  | EmptyString => EmptyString
  | String c s1 =>
      match s1 with
      | String d s2 =>
          if bool_decide (c = underscore) && bool_decide (d = underscore) then String slash (replace_dunder s2)
          else String c (replace_dunder s1)
      | EmptyString => String c EmptyString
      end
  end.

Definition yaml_suffix : string := ".yaml".

(** [s.removesuffix(".yaml")] *)
Fixpoint remove_suffix (s : string) : string :=
  if bool_decide (s = yaml_suffix) then EmptyString
  else match s with EmptyString => EmptyString | String c s' => String c (remove_suffix s') end.

Definition filename (model_id : string) : string := replace_slash model_id +:+ yaml_suffix.
Definition model_of_file (name : string) : string := replace_dunder (remove_suffix name).

(** ** The store *)

Inductive store_error :=
  | ReservedSequence (model_id : string)
  | BackendFailed.

(** Which operations of the backend raise *)
Record backend := mkBackend {
  read_fails : bool;
  epoch_read_fails : bool;
  write_fails : bool;
  epoch_write_fails : bool;
  delete_fails : bool;
}.

Section store.
Context {text : Type} `{!Yaml text}.

(** The epoch file is absent, or holds a text that is an integer or is not. *)
Record store := mkStore {
  files : list (string * text);
  epoch_file : option (option Z);
}.

(** [read_epoch] *)
Definition read_epoch (io : backend) (s : store) : Z :=
  if epoch_read_fails io then 0
  else match epoch_file s with Some (Some n) => n | _ => 0 end.

(** [increment_epoch] *)
Definition increment_epoch (io : backend) (s : store) : res store_error (store * Z) :=
  let new_epoch := read_epoch io s + 1 in
  if epoch_write_fails io then Raise BackendFailed
  else Ret (mkStore (files s) (Some (Some new_epoch)), new_epoch).

(** [_validate_model_id] *)
Definition validate_stored_id (model_id : string) : res store_error unit :=
  if has_pair underscore underscore model_id then Raise (ReservedSequence model_id) else Ret tt.

(** [write_model] *)
Definition write_model (io : backend) (s : store) (model_id : string) (config_yaml : text) : res store_error store :=
  let* _ := validate_stored_id model_id in
  if write_fails io then Raise BackendFailed
  else Ret (mkStore (dict_set (filename model_id) config_yaml (files s)) (epoch_file s)).

(** [read_model]: a failing read is no content *)
Definition read_model (io : backend) (s : store) (model_id : string) : res store_error (option text) :=
  let* _ := validate_stored_id model_id in
  if read_fails io then Ret None else Ret (dict_get (filename model_id) (files s)).

(** [delete_model] *)
Definition delete_model_file (io : backend) (s : store) (model_id : string) : res store_error (store * bool) :=
  let* _ := validate_stored_id model_id in
  if negb (dict_mem (filename model_id) (files s)) then Ret (s, false)
  else if delete_fails io then Raise BackendFailed
  else Ret (mkStore (dict_del (filename model_id) (files s)) (epoch_file s), true).

(** [list_models] *)
Definition stored_models (s : store) : list string := sorted_strings (model_of_file <$> dict_keys (files s)).

(** [load_all_models]: the parsed documents of the files that have content and parse *)
Definition load_one (io : backend) (s : store) (acc : list (string * pyval)) (model_id : string) :
    res store_error (list (string * pyval)) :=
  let* content := read_model io s model_id in
  match content with
  | Some t =>
      if blank t then Ret acc
      else match yaml_load t with
           | Some v => Ret (dict_set model_id (if truthy v then v else VDict []) acc)
           | None => Ret acc
           end
  | None => Ret acc
  end.

Definition load_all_models (io : backend) (s : store) : res store_error (list (string * pyval)) :=
  res_fold (load_one io s) [] (stored_models s).
End store.

(** ** The names of files *)

(** An id without the reserved sequence and without an underscore before a slash *)
Definition plain (id : string) : Prop := has_pair underscore underscore id = false ∧ has_pair underscore slash id = false.

Lemma has_pair_tail a b c s : has_pair a b (String c s) = false → has_pair a b s = false.
Proof. cbn. destruct s; [done|]. by intros [_ ?]%orb_false_iff. Qed.

Lemma plain_tail c s : plain (String c s) → plain s.
Proof. intros [H1 H2]. split; by eapply has_pair_tail. Qed.

Lemma plain_after_underscore d s : plain (String underscore (String d s)) → d ≠ underscore ∧ d ≠ slash.
Proof.
  intros [H1 H2]. cbn in H1, H2. apply orb_false_iff in H1 as [H1 _], H2 as [H2 _].
  rewrite bool_decide_eq_true_2 in H1, H2 by done. cbn in H1, H2.
  by apply bool_decide_eq_false in H1, H2.
Qed.

Lemma replace_roundtrip id : plain id → replace_dunder (replace_slash id) = id.
Proof.
  induction id as [|c s IH]; intros Hp; [done|]. cbn [replace_slash].
  pose proof (IH (plain_tail _ _ Hp)) as IH'. case_bool_decide as Hc.
  - subst c. cbn [replace_dunder]. rewrite !bool_decide_eq_true_2 by done. cbn [andb]. by rewrite IH'.
  - destruct (decide (c = underscore)) as [->|Hu].
    + destruct s as [|d s]; [done|]. apply plain_after_underscore in Hp as [Hd Hs]. cbn [replace_slash] in *.
      rewrite (bool_decide_eq_false_2 (d = slash)) in * by done.
      change (replace_dunder (String underscore (String d (replace_slash s)))) with
        (if bool_decide (underscore = underscore) && bool_decide (d = underscore) then String slash (replace_dunder (replace_slash s))
         else String underscore (replace_dunder (String d (replace_slash s)))).
      rewrite (bool_decide_eq_false_2 (d = underscore)) by done. rewrite andb_false_r. by rewrite IH'.
    + set (t := replace_slash s) in *. destruct t as [|d t'] eqn:Et; [by rewrite <- IH'|].
      change (replace_dunder (String c (String d t'))) with
        (if bool_decide (c = underscore) && bool_decide (d = underscore) then String slash (replace_dunder t')
         else String c (replace_dunder (String d t'))).
      rewrite (bool_decide_eq_false_2 (c = underscore)) by done. cbn [andb]. by rewrite IH'.
Qed.

Lemma string_length_append s t : String.length (s +:+ t) = (String.length s + String.length t)%nat.
Proof. induction s as [|c s IH]; [done|]. change (String c s +:+ t) with (String c (s +:+ t)). cbn [String.length]. lia. Qed.

Lemma remove_suffix_filename s : remove_suffix (s +:+ yaml_suffix) = s.
Proof.
  induction s as [|c s IH]; [done|]. change (String c s +:+ yaml_suffix) with (String c (s +:+ yaml_suffix)). cbn [remove_suffix].
  rewrite bool_decide_eq_false_2; [by rewrite IH|]. intros E. apply (f_equal String.length) in E. cbn [String.length] in E.
  rewrite string_length_append in E. cbn in E. lia.
Qed.

(** The name of a stored file gives back its model. *)
Lemma model_of_filename id : plain id → model_of_file (filename id) = id.
Proof. intros. unfold model_of_file, filename. by rewrite remove_suffix_filename, replace_roundtrip. Qed.

Lemma filename_inj id id' : plain id → plain id' → filename id = filename id' → id = id'.
Proof. intros H H' E. by rewrite <- (model_of_filename id), <- (model_of_filename id'), E. Qed.

(** The first character that is read back *)
Definition heads_underscore (s : string) : bool := match s with String c _ => bool_decide (c = underscore) | _ => false end.

Lemma has_pair_cons c s : has_pair underscore underscore (String c s) =
  (bool_decide (c = underscore) && heads_underscore s) || has_pair underscore underscore s.
Proof. cbn. destruct s as [|d s]; [|done]. cbn. by rewrite andb_false_r. Qed.

Lemma replace_dunder_underscore n s :
  (String.length s ≤ n)%nat → has_pair underscore underscore (replace_dunder s) = false ∧
  (heads_underscore (replace_dunder s) = true → heads_underscore s = true).
Proof.
  revert s. induction n as [|n IH]; intros s Hn; [destruct s; [done|cbn in Hn; lia]|].
  destruct s as [|c [|d s]]; [done|done|].
  change (replace_dunder (String c (String d s))) with
    (if bool_decide (c = underscore) && bool_decide (d = underscore) then String slash (replace_dunder s)
     else String c (replace_dunder (String d s))).
  cbn [String.length] in Hn. destruct (bool_decide (c = underscore) && _) eqn:E.
  - rewrite has_pair_cons. split; [|done]. cbn [orb andb]. apply (IH s). lia.
  - rewrite has_pair_cons. destruct (IH (String d s)) as [H1 H2]; [cbn; lia|]. split; [|done].
    rewrite H1, orb_false_r. destruct (bool_decide (c = underscore)) eqn:Ec; [|done]. cbn in E |- *.
    destruct (heads_underscore _) eqn:Eh; [|done]. specialize (H2 eq_refl). cbn in H2. congruence.
Qed.

(** Names of files read back have no reserved sequence, so loading them all does not raise. *)
Lemma load_all_models_total {text} `{!Yaml text} io (s : @store text) : ∃ docs, load_all_models io s = Ret docs.
Proof.
  assert (∀ l acc, (∀ id, id ∈ l → has_pair underscore underscore id = false) → ∃ docs, res_fold (load_one io s) acc l = Ret docs) as H.
  { induction l as [|mid l IH]; intros acc Hl; [by eexists|]. cbn. unfold load_one at 1, read_model, validate_stored_id.
    rewrite (Hl mid) by by left. cbn. destruct (read_fails io); cbn; [apply IH; intros; apply Hl; by right|].
    destruct (dict_get _ _) as [t|]; cbn; [destruct (blank t), (yaml_load t)|]; cbn; apply IH; intros; apply Hl; by right. }
  apply H. intros mid Hid. unfold stored_models, sorted_strings in Hid. rewrite elem_of_stable_sort in Hid.
  apply list_elem_of_fmap in Hid as (f & -> & _). unfold model_of_file. by apply (replace_dunder_underscore (String.length (remove_suffix f))).
Qed.

(** Two ids the API accepts share a file. *)
Lemma filename_collides :
  filename "org_/m" = filename "org/_m" ∧
  @validate_stored_id "org_/m" = Ret tt ∧ @validate_stored_id "org/_m" = Ret tt.
Proof. done. Qed.
End ConfigStore.
