(* ===== verification/ConfigService.v ===== *)
(** The write path of the configuration service: [config_api.py] ([add_model], [replace_model],
    [delete_model], [export_snapshot]), the restore of [app_factory.py] and
    [publish_config_notification] of [nats_publisher.py], over the registry of
    [ConfigRegistry.v] and the store of [ConfigStore.v].

    A handler runs its critical section under the write lock, so it is one function from the
    state of the service to a state and an answer.  What can go wrong on the way is part of
    the request: which operations of the storage backend raise, at which awaits the request is
    cancelled, which publishes fail.  The state survives an exception, as it does in the
    program.  Awaits that [_await_committed] shields are not cancelled.  [Idempotency-Key] is
    the subject of [Idempotency.v]. *)

From Stdlib Require Import Ascii.
From stdpp Require Import strings.
From S2P Require Import Prelude PyFloat PyDict PyStr Handlers PyVal ModelConfig ConfigProfiles ConfigRegistry ConfigStore.
Import Handlers PyVal ConfigProfiles ConfigRegistry ConfigStore.
Local Open Scope Z_scope.
Local Open Scope py_scope.

Module ConfigService.

(** ** Errors *)

Inductive http_error :=
  | MissingAuthorization
  | InvalidToken
  | AdminRequired
  | OpenInProduction
  | NatsUnavailable
  | PayloadTooLarge
  | ParseError
  | InvalidModelId
  | ModelIdMismatch (body_id : pyval) (path_id : string)
  | ValidationError (e : config_error)
  | ConflictingProfiles (model_id : string) (profiles : list string)
  | ConflictingFields (model_id : string) (fields : list string)
  | StoreRequired
  | FallbackInvalid
  | FallbackMismatched
  | NotFound (name : string)
  | MissingField
  | InvalidSpec
  | BundleNotText                   (* an override that is no text is in no list of bundles *)
  | RouteRefused (e : route_error)
  | Unhandled                       (* an exception the handler does not translate: 500 *)
  | StoreFailed (e : store_error)
  | CancelledError.

(** The status of the response *)
Definition status_of (e : http_error) : Z :=
  match e with
  | MissingAuthorization => 401
  | InvalidToken | AdminRequired | OpenInProduction => 403
  | NatsUnavailable => 503
  | PayloadTooLarge => 413
  | ParseError | InvalidModelId | ModelIdMismatch _ _ | MissingField | InvalidSpec => 400
  | NotFound _ | RouteRefused (ModelNotFound _) => 404
  | RouteRefused (BundleConflict _ _ _) | BundleNotText => 409
  | ValidationError TypeErr => 500
  | ValidationError (ProfileConflict _ _) => 409
  | ValidationError _ => 422
  | ConflictingProfiles _ _ | ConflictingFields _ _ | StoreRequired => 409
  | _ => 500
  end.

(** ** Authorization *)

Record auth_env := mkAuth {
  auth_token : option string;       (* SIE_AUTH_TOKEN *)
  admin_token : option string;      (* SIE_ADMIN_TOKEN *)
  env_signals : list string;        (* SIE_DEPLOYMENT_ENV and SIE_ENV *)
}.

Definition PROD_ENVS : list string := ["prod"; "production"]%string.

(** [_refuse_open_in_prod] *)
Definition refuse_open_in_prod (e : auth_env) : res http_error unit :=
  if existsb (λ v, bool_decide (lower (strip v) ∈ PROD_ENVS)) (env_signals e) then Raise OpenInProduction else Ret tt.

(** [header.removeprefix("Bearer ").strip()] *)
Definition bearer_token (header : option string) : string :=
  let h := default ""%string header in
  strip (if String.prefix "Bearer " h then String.substring 7 (String.length h - 7) h else h).

(** [hmac.compare_digest] raises [TypeError] on text that is not ASCII. *)
Definition compare_digest (a b : string) : res http_error bool :=
  let ascii s := forallb (λ c, Z.of_N (N_of_ascii c) <? 128) (String.list_ascii_of_string s) in
  if ascii a && ascii b then Ret (bool_decide (a = b)) else Raise Unhandled.

(** [_check_read_auth] *)
Definition check_read_auth (e : auth_env) (header : option string) : res http_error unit :=
  match auth_token e, admin_token e with
  | None, None => refuse_open_in_prod e
  | a, b =>
      let token := bearer_token header in
      if bool_decide (token = ""%string) then Raise MissingAuthorization
      else
        let* inference := match a with Some t => compare_digest token t | None => Ret false end in
        let* matched := if inference then Ret true else match b with Some t => compare_digest token t | None => Ret false end in
        if matched then Ret tt else Raise InvalidToken
  end.

(** [_check_write_auth] *)
Definition check_write_auth (e : auth_env) (header : option string) : res http_error unit :=
  match admin_token e with
  | None =>
      match nonempty_str (auth_token e) with
      | Some _ => Raise AdminRequired
      | None => refuse_open_in_prod e
      end
  | Some admin =>
      let token := bearer_token header in
      if bool_decide (token = ""%string) then Raise MissingAuthorization
      else
        let* matched := compare_digest token admin in
        if matched then Ret tt else Raise AdminRequired
  end.

(** ** Model ids *)

Definition id_char (a : ascii) : bool :=
  let n := Z.of_N (N_of_ascii a) in
  ((97 <=? n) && (n <=? 122)) || ((65 <=? n) && (n <=? 90)) || ((48 <=? n) && (n <=? 57)) ||
  bool_decide (a ∈ ["."; "_"; "/"; ":"; "@"; "-"]%char).

Definition alnum_char (a : ascii) : bool :=
  let n := Z.of_N (N_of_ascii a) in
  ((97 <=? n) && (n <=? 122)) || ((65 <=? n) && (n <=? 90)) || ((48 <=? n) && (n <=? 57)).

Definition newline : ascii := "010"%char.

(** [$] also matches before a final newline. *)
Fixpoint id_rest (s : string) : bool :=
  match s with
  | EmptyString => true
  | String c s' => (bool_decide (c = newline) && bool_decide (s' = EmptyString)) || (id_char c && id_rest s')
  end.

(** [_MODEL_ID_PATTERN.match] *)
Definition matches_id_pattern (s : string) : bool :=
  match s with EmptyString => false | String c s' => alnum_char c && id_rest s' end.

Fixpoint ends_with (suffix s : string) : bool :=
  bool_decide (s = suffix) || match s with EmptyString => false | String _ s' => ends_with suffix s' end.

(** [_validate_model_id]; a value that is not a string raises [TypeError]. *)
Definition validate_model_id (v : pyval) : res http_error string :=
  match v with
  | VStr id =>
      if has_pair "." "." id || char_in "\" id || negb (matches_id_pattern id) then Raise InvalidModelId
      else if bool_decide (id = "status"%string) || ends_with "/status" id then Raise InvalidModelId
      else Ret id
  | _ => Raise Unhandled
  end.

Section service.
Context {text : Type} `{!Yaml text}.
(** The digest of a bundle hash, and the JSON text [replace_model] compares *)
Context (digest : pyval → string) (json : pyval → string).

(** ** The state *)

(** One notification *)
Record message := mkMessage {
  m_bundle : string;
  m_epoch : Z;
  m_hash : string;
  m_model : string;
  m_profiles : list string;
  m_config : text;
  m_affected : list string;
  m_pool : string;
  m_pool_hashes : list (string * list (string * string));
}.

(** The registry, the store if one is configured, and what was published, with its subject *)
Record service := mkService {
  reg : registry;
  kept_store : option (@store text);
  wire : list (string * message);
}.

(** The awaits of a handler that are not shielded *)
Inductive await := AwaitLock | AwaitReplay | AwaitStored | AwaitFallback | AwaitEpoch.

Record request := mkRequest {
  auth : auth_env;
  authorization : option string;           (* the header *)
  body : text;
  body_bytes : Z;
  publisher : option bool;                 (* a publisher is configured, and connected *)
  connected_later : bool;                  (* it is still connected when it publishes *)
  publish_ok : string → string → bool;     (* by subject and bundle *)
  io : backend;
  cancelled : await → bool;
}.

Definition M (A : Type) : Type := service → service * res http_error A.

Definition mret {A} (a : A) : M A := λ s, (s, Ret a).
Definition mraise {A} (e : http_error) : M A := λ s, (s, Raise e).
Definition bind {A B} (m : M A) (k : A → M B) : M B :=
  λ s, match m s with (s', Ret a) => k a s' | (s', Raise e) => (s', Raise e) end.
Definition lift {A} (r : res http_error A) : M A := λ s, (s, r).
Definition get_state : M service := λ s, (s, Ret s).

Local Notation "'do' x ':=' m 'in' k" := (bind m (λ x, k)) (at level 200, x name, m at level 100, k at level 200).
Local Notation "'do' ''' p ':=' m 'in' k" := (bind m (λ y, let 'p := y in k)) (at level 200, p pattern, m at level 100, k at level 200).

Definition guard (ok : bool) (e : http_error) : M unit := if ok then mret tt else mraise e.
Definition set_reg (r : registry) : M unit := λ s, (mkService r (kept_store s) (wire s), Ret tt).
Definition set_store (st : @store text) : M unit := λ s, (mkService (reg s) (Some st) (wire s), Ret tt).
Definition send (ms : list (string * message)) : M unit := λ s, (mkService (reg s) (kept_store s) (wire s ++ ms), Ret tt).
Definition pause (q : request) (a : await) : M unit := guard (negb (cancelled q a)) CancelledError.
Definition of_store {A} (r : res store_error A) : M A :=
  lift (match r with Ret a => Ret a | Raise e => Raise (StoreFailed e) end).
Definition of_registry {A} (r : cfg A) : M A :=
  lift (match r with Ret a => Ret a | Raise e => Raise (ValidationError e) end).

(** ** Publishing *)

Definition all_subject : string := "sie.config.models._all".
Definition bundle_subject (bundle_id : string) : string := "sie.config.models." +:+ bundle_id.

Inductive publish_result := Published | PublishedInPart (failed : list string) | PublishFailed.

(** One bundle: the messages that reach the wire, and whether both did *)
Definition publish_bundle (q : request) (m : message) : list (string * message) * bool :=
  if publish_ok q (bundle_subject (m_bundle m)) (m_bundle m) then
    if publish_ok q all_subject (m_bundle m) then ([(bundle_subject (m_bundle m), m); (all_subject, m)], true)
    else ([(bundle_subject (m_bundle m), m)], false)
  else ([], false).

(** [publish_config_notification] *)
Definition publish_config_notification (q : request) (model_id : string) (profiles_added affected_bundles : list string)
    (bundle_config_hashes : list (string * string)) (epoch : Z) (model_config_yaml : text) (model_pool : string)
    (pool_hashes : list (string * list (string * string))) : list (string * message) * publish_result :=
  if negb (connected_later q) then ([], PublishFailed)
  else if bool_decide (affected_bundles = []) then ([], Published)
  else if existsb (λ b, negb (dict_mem b bundle_config_hashes)) affected_bundles then ([], PublishFailed)
  else
    let pool := let p := lower (strip model_pool) in if bool_decide (p = ""%string) then "default"%string else p in
    let sent := (λ b, (b, publish_bundle q (mkMessage b epoch (default ""%string (dict_get b bundle_config_hashes)) model_id
                                             profiles_added model_config_yaml affected_bundles pool pool_hashes))) <$> affected_bundles in
    let failed := (filter (λ e, e.2.2 = false) sent).*1 in
    (concat ((λ e, e.2.1) <$> sent), if bool_decide (failed = []) then Published else PublishedInPart failed).

(** The hashes of the announced bundles; the registry caches them. *)
Definition hash_bundle (acc : registry * list (string * string)) (bundle_id : string) : registry * list (string * string) :=
  let '(r, h) := compute_bundle_config_hash digest acc.1 bundle_id in (r, dict_set bundle_id h acc.2).

(** The end of a write: hashes, and the notification if there is a connected publisher.  The
    publish happens under the lock; a failure becomes a warning. *)
Definition announce (q : request) (publish : bool) (model_id : string) (profiles affected : list string) (epoch : Z)
    (config_yaml : text) : M publish_result :=
  do s := get_state in
  let '(r, hashes) := foldl hash_bundle (reg s, []) affected in
  do _ := set_reg r in
  let all_pools := compute_bundle_pool_config_hashes digest r in
  let pool_hashes := (λ b, (b, default [] (dict_get b all_pools))) <$> affected in
  let connected := match publisher q with Some _ => connected_later q | None => false end in
  if publish && connected then
    let '(ms, outcome) := publish_config_notification q model_id profiles affected hashes epoch config_yaml
                            (get_model_pool_name r model_id) pool_hashes in
    do _ := send ms in mret outcome
  else mret Published.

(** ** Shared pieces *)

Definition MAX_CONFIG_BODY_BYTES : Z := 1048576.

(** The mapping of a body *)
Definition parse_body (t : text) : res http_error dict :=
  match yaml_load t with
  | Some (VDict d) => Ret d
  | _ => Raise ParseError
  end.

(** The publisher must be connected, and the body small enough. *)
Definition nats_ready (q : request) : bool := match publisher q with Some false => false | _ => true end.

(** The fields of a body that contradict a document *)
Definition contradicting (existing config : dict) : list string :=
  (filter (λ e, e.1 ≠ "profiles"%string ∧
             match dict_get e.1 existing with Some v => negb (py_eq v e.2) | None => false end = true) config).*1.

(** [yaml.safe_load(existing_yaml) or {}], [{}] for what is not a mapping *)
Definition stored_mapping (t : text) : dict :=
  match yaml_load t with Some (VDict d) => d | _ => [] end.

(** [dict(existing.get("profiles", {}))] *)
Definition stored_profiles (existing : dict) : res http_error dict :=
  match default (VDict []) (dict_get "profiles"%string existing) with
  | VDict d => Ret d
  | VList [] | VTuple [] => Ret []
  | _ => Raise Unhandled
  end.

Definition put_field (merged : dict) (entry : string * pyval) : dict :=
  let '(key, value) := entry in if bool_decide (key = "profiles"%string) then merged else dict_set key value merged.

(** The document an append persists *)
Definition merged_config (model_id : string) (existing : option text) (config : dict) : res http_error dict :=
  match existing with
  | Some t =>
      if blank t then Ret config
      else
        let stored := stored_mapping t in
        match contradicting stored config with
        | [] =>
            let* old := stored_profiles stored in
            Ret (dict_set "profiles"%string (VDict (dict_update old (profiles_in config))) (foldl put_field stored config))
        | fields => Raise (ConflictingFields model_id (sorted_strings fields))
        end
  | None => Ret config
  end.

(** The profiles of a replay that differ from the stored file *)
Definition replay_conflicts (existing : option text) (config : dict) (skipped : list string) : res http_error (list string) :=
  match existing with
  | Some t =>
      if blank t then Ret []
      else
        match yaml_load t with
        | None => Ret []
        | Some v =>
            match (if truthy v then v else VDict []) with
            | VDict stored =>
                match default (VDict []) (dict_get "profiles"%string stored) with
                | VDict old =>
                    Ret (filter (λ p, py_eq (default (VDict []) (dict_get p (profiles_in config)))
                                       (default (VDict []) (dict_get p old)) = false) skipped)
                | _ => Raise Unhandled
                end
            | _ => Raise Unhandled
            end
        end
  | None => Ret []
  end.

Inductive answer :=
  | Added (status : Z) (created skipped : list string) (publish : publish_result) (routable : list (string * list string))
  | Replaced (changed : bool) (affected : list string) (publish : publish_result)
  | Deleted (deleted fallback : bool) (affected : list string) (epoch : Z).

(** ** [add_model] *)

(** The epoch, if there is a store *)
Definition bump_epoch (q : request) : M Z :=
  do s := get_state in
  match kept_store s with
  | None => mret 0
  | Some st =>
      do '(st', n) := of_store (increment_epoch (io q) st) in
      do _ := set_store st' in mret n
  end.

(** Step 2: a replay against the file *)
Definition check_replay (q : request) (model_id : string) (config : dict) (created skipped : list string) : M unit :=
  do s := get_state in
  match kept_store s with
  | Some st =>
      if bool_decide (created = []) && negb (bool_decide (skipped = [])) then
        do _ := pause q AwaitReplay in
        do existing := of_store (read_model (io q) st model_id) in
        do conflicting := lift (replay_conflicts existing config skipped) in
        guard (bool_decide (conflicting = [])) (ConflictingProfiles model_id conflicting)
      else mret tt
  | None => mret tt
  end.

(** Step 3: the merged document, persisted *)
Definition persist (q : request) (model_id : string) (config : dict) (created : list string) : M (option text) :=
  do s := get_state in
  match kept_store s with
  | Some st =>
      if bool_decide (created = []) then mret None
      else
        do _ := pause q AwaitStored in
        do existing := of_store (read_model (io q) st model_id) in
        do merged := lift (merged_config model_id existing config) in
        let t := yaml_dump (VDict merged) in
        do st' := of_store (write_model (io q) st model_id t) in
        do _ := set_store st' in mret (Some t)
  | None => mret None
  end.

(** Steps 4 to 6: the registry, the epoch and the notification *)
Definition append_registry (q : request) (r0 : registry) (model_id : string) (config : dict) (saved : option text) : M answer :=
  do '(r, (created, skipped, affected)) := of_registry (add_model_config r0 config) in
  do _ := set_reg r in
  let config_yaml := match saved with
                     | Some t => t
                     | None => match get_full_config r model_id with Some full => yaml_dump (VDict full) | None => body q end
                     end in
  do epoch := (if bool_decide (created = []) then mret 0 else bump_epoch q) in
  do outcome := announce q (negb (bool_decide (created = []))) model_id created affected epoch config_yaml in
  let bundles_of := get_model_profile_bundles r model_id (Some (list_to_set created)) in
  mret (Added (if bool_decide (created = []) then 200 else 201) created skipped outcome
          ((λ p, (p, default [] (dict_get p bundles_of))) <$> created)).

(** What is checked before the body is looked at *)
Definition open_add (q : request) : res http_error unit :=
  let* _ := check_write_auth (auth q) (authorization q) in
  if negb (nats_ready q) then Raise NatsUnavailable
  else if MAX_CONFIG_BODY_BYTES <? body_bytes q then Raise PayloadTooLarge
  else Ret tt.

(** The body of the handler, which [Idempotency-Key] guards *)
Definition commit_add (q : request) : M answer :=
  do config := lift (parse_body (body q)) in
  let id_value := default (VStr "") (dict_get "sie_id"%string config) in
  do _ := (if truthy id_value then bind (lift (validate_model_id id_value)) (λ _, mret tt) else mret tt) in
  do _ := pause q AwaitLock in
  do s := get_state in
  do '(config, (created, skipped, _)) := of_registry (validate_model_config (reg s) config) in
  do model_id := of_registry (string_id config) in
  let fields := match get_full_config (reg s) model_id with
                | Some (e :: d) => contradicting (e :: d) config
                | _ => []
                end in
  do _ := guard (bool_decide (fields = [])) (ConflictingFields model_id (sorted_strings fields)) in
  do _ := check_replay q model_id config created skipped in
  do saved := persist q model_id config created in
  append_registry q (reg s) model_id config saved.

Definition add_model (q : request) : M answer :=
  do _ := lift (open_add q) in commit_add q.

(** ** [replace_model] *)

(** [config.setdefault("sie_id", model_id)] after the check of the body's id *)
Definition body_of_path (model_id : string) (config : dict) : res http_error dict :=
  let body_id := get_val "sie_id" config in
  if truthy body_id && negb (py_eq body_id (VStr model_id)) then Raise (ModelIdMismatch body_id model_id)
  else
    let config := if dict_mem "sie_id"%string config then config else dict_set "sie_id"%string (VStr model_id) config in
    let* _ := validate_model_id (get_val "sie_id" config) in
    Ret config.

(** [_canonical_config_for_compare] *)
Definition canonical_config_for_compare (config : dict) : string := json (sort_keys (VDict config)).

Definition persist_replacement (q : request) (model_id : string) (config : dict) : M unit :=
  do s := get_state in
  match kept_store s with
  | Some st => do st' := of_store (write_model (io q) st model_id (yaml_dump (VDict config))) in set_store st'
  | None => mret tt
  end.

(** The registry, the epoch and the notification *)
Definition replace_registry (q : request) (r0 : registry) (model_id : string) (config : dict) : M answer :=
  do '(r, affected) := of_registry (replace_model_config r0 config) in
  do _ := set_reg r in
  let config_yaml := yaml_dump (VDict (default config (get_full_config r model_id))) in
  do epoch := bump_epoch q in
  do outcome := announce q (negb (bool_decide (affected = []))) model_id
                  (sorted_strings (elements (get_model_profile_names r model_id))) affected epoch config_yaml in
  mret (Replaced true affected outcome).

Definition open_replace (q : request) (path_id : string) : res http_error unit :=
  let* _ := check_write_auth (auth q) (authorization q) in
  let* _ := validate_model_id (VStr path_id) in
  if negb (nats_ready q) then Raise NatsUnavailable
  else if MAX_CONFIG_BODY_BYTES <? body_bytes q then Raise PayloadTooLarge
  else Ret tt.

Definition commit_replace (q : request) (model_id : string) : M answer :=
  do config := lift (parse_body (body q)) in
  do config := lift (body_of_path model_id config) in
  do _ := pause q AwaitLock in
  do s := get_state in
  do config := of_registry (validate_model_config_replacement (reg s) config) in
  let changed := match get_full_config (reg s) model_id with
                 | None => true
                 | Some full => negb (bool_decide (canonical_config_for_compare full = canonical_config_for_compare config))
                 end in
  if changed then
    do _ := persist_replacement q model_id config in
    replace_registry q (reg s) model_id config
  else mret (Replaced false [] Published).

Definition replace_model (q : request) (path_id : string) : M answer :=
  do _ := lift (open_replace q path_id) in commit_replace q path_id.

(** ** [delete_model] *)

(** The model files of the image, by name *)
Context (models_dir : list (string * text)).

(** One file of the scan of [_load_filesystem_yaml]; [None] goes on *)
Definition scan_file (model_name : string) (t : text) : res http_error bool :=
  match yaml_load t with
  | None => Ret false
  | Some v =>
      if negb (truthy v) then Ret false
      else match v with
           | VDict d => Ret (py_eq (get_val "sie_id" d) (VStr model_name) || py_eq (get_val "name" d) (VStr model_name))
           | _ => Raise Unhandled
           end
  end.

Fixpoint scan_files (model_name : string) (fs : list (string * text)) : res http_error (option text) :=
  match fs with
  | [] => Ret None
  | (_, t) :: fs =>
      let* hit := scan_file model_name t in
      if hit then Ret (Some t) else scan_files model_name fs
  end.

(** [_load_filesystem_yaml] *)
Definition load_filesystem_yaml (model_name : string) : res http_error (option text) :=
  match dict_get (filename model_name) models_dir with
  | Some t => Ret (Some t)
  | None => scan_files model_name models_dir
  end.

(** The baked document a deletion reveals *)
Definition fallback_config (r : registry) (model_id : string) (fallback_yaml : text) : res http_error dict :=
  match yaml_load fallback_yaml with
  | Some (VDict parsed) =>
      if negb (py_eq (raw_model_name parsed) (VStr model_id)) then Raise FallbackMismatched
      else
        match validate_model_config_replacement r (dict_set "sie_id"%string (VStr model_id) parsed) with
        | Ret config => Ret config
        | Raise TypeErr => Raise Unhandled
        | Raise _ => Raise FallbackInvalid
        end
  | _ => Raise FallbackInvalid
  end.

Definition open_delete (q : request) (path_id : string) (st : option (@store text)) : res http_error unit :=
  let* _ := check_write_auth (auth q) (authorization q) in
  let* _ := validate_model_id (VStr path_id) in
  match st with None => Raise StoreRequired | Some _ => Ret tt end.

Definition commit_delete (q : request) (model_id : string) : M answer :=
  do s := get_state in
  match kept_store s with
  | None => mraise StoreRequired
  | Some st =>
      do _ := pause q AwaitLock in
      do _ := pause q AwaitFallback in
      do fallback_yaml := lift (load_filesystem_yaml model_id) in
      do fallback := lift (match fallback_yaml with
                           | Some t => let* c := fallback_config (reg s) model_id t in Ret (Some c)
                           | None => Ret None
                           end) in
      do '(st', deleted) := of_store (delete_model_file (io q) st model_id) in
      do _ := set_store st' in
      do _ := pause q AwaitEpoch in
      let epoch := read_epoch (io q) st' in
      if deleted : bool then
        do '(r, affected) := lift (match remove_model_config (reg s) model_id fallback with Ret a => Ret a | Raise _ => Raise Unhandled end) in
        do _ := set_reg r in
        do epoch := bump_epoch q in
        mret (Deleted true (bool_decide (is_Some fallback)) affected epoch)
      else mret (Deleted false false [] epoch)
  end.

Definition delete_model (q : request) (path_id : string) : M answer :=
  do s := get_state in
  do _ := lift (open_delete q path_id (kept_store s)) in commit_delete q path_id.

(** ** Restart *)

(** The restore of [AppFactory._config_store]: every stored document is added; what raises is
    skipped.  [load_all_models] does not raise ([load_all_models_total]). *)
Definition restore_one (r : registry) (entry : string * pyval) : registry :=
  match entry.2 with
  | VDict d => match add_model_config r d with Ret (r', _) => r' | Raise _ => r end
  | _ => r
  end.

Definition restored (io : backend) (base : registry) (st : @store text) : registry :=
  match load_all_models io st with
  | Ret docs => foldl restore_one base docs
  | Raise _ => base
  end.

(** A new process over the same files, with [SIE_CONFIG_RESTORE] on *)
Definition restart (io : backend) (base : registry) (s : service) : service :=
  mkService (match kept_store s with Some st => restored io base st | None => base end) (kept_store s) (wire s).

(** ** [export_snapshot] *)

Record exported := mkExported {
  e_model : string;
  e_config : pyval;
  e_raw : option text;
  e_bundles : list string;
  e_pool : string;
  e_api : bool;
}.

(** The configuration and the text the snapshot carries for a model *)
Definition export_config (io : backend) (s : service) (model_name : string) : res http_error (pyval * option text) :=
  let full := get_full_config (reg s) model_name in
  match kept_store s, full with
  | None, Some (e :: d) => Ret (VDict (e :: d), Some (yaml_dump (VDict (e :: d))))
  | st, _ =>
      let* from_store := match st with
                         | Some st => match read_model io st model_name with Ret t => Ret t | Raise e => Raise (StoreFailed e) end
                         | None => Ret None
                         end in
      let* raw := match from_store with Some t => Ret (Some t) | None => load_filesystem_yaml model_name end in
      let '(parsed, raw) := match raw with
                            | Some t => if blank t then (None, Some t)
                                        else match yaml_load t with
                                             | Some v => (Some (if truthy v then v else VDict [("sie_id"%string, VStr model_name)]), Some t)
                                             | None => (None, None)
                                             end
                            | None => (None, None)
                            end in
      let* profiles := match parsed with
                       | Some (VDict c) => Ret (truthy (get_val "profiles" c))
                       | Some _ => Raise Unhandled
                       | None => Ret false
                       end in
      match parsed, full with
      | Some c, Some (e :: d) => if profiles : bool then Ret (c, raw) else Ret (VDict (e :: d), Some (yaml_dump (VDict (e :: d))))
      | None, Some (e :: d) => Ret (VDict (e :: d), Some (yaml_dump (VDict (e :: d))))
      | Some c, _ => Ret (c, raw)
      | None, _ => Ret (VDict [("sie_id"%string, VStr model_name)], raw)
      end
  end.

Definition export_one (io : backend) (s : service) (model_name : string) : res http_error exported :=
  let* c := export_config io s model_name in
  let api := match kept_store s with Some st => bool_decide (model_name ∈ stored_models st) | None => false end in
  Ret (mkExported model_name c.1 c.2 (get_model_export_bundles (reg s) model_name) (get_model_pool_name (reg s) model_name) api).

(** One moment of the service *)
Record snapshot := mkSnapshot {
  sn_epoch : Z;
  sn_models : list exported;
  sn_hashes : list (string * string);
  sn_pool_hashes : list (string * list (string * string));
}.

Definition export_snapshot (q : request) (s : service) : res http_error snapshot :=
  let* _ := check_write_auth (auth q) (authorization q) in
  let epoch := match kept_store s with Some st => read_epoch (io q) st | None => 0 end in
  let* models := res_map (export_one (io q) s) (list_models (reg s)) in
  let '(r, hashes) := foldl hash_bundle (reg s, []) (list_bundles (reg s)) in
  Ret (mkSnapshot epoch models hashes (compute_bundle_pool_config_hashes digest r)).

(** [latest_epoch] *)
Definition latest_epoch (q : request) (s : service) : res http_error (Z * string * string) :=
  let* _ := check_read_auth (auth q) (authorization q) in
  Ret (match kept_store s with Some st => read_epoch (io q) st | None => 0 end, compute_bundles_hash digest (reg s),
       (compute_bundle_config_hashes_hash digest (reg s)).2).

(** ** The other reads *)

(** [list_models]: every routable name with its profiles, and whether the API stored its model *)
Definition list_models_route (q : request) (s : service) : res http_error (list (string * list string * string)) :=
  let* _ := check_read_auth (auth q) (authorization q) in
  let api_models := match kept_store s with Some st => stored_models st | None => [] end in
  Ret ((λ name, (name, sorted_strings (elements (get_route_profile_names (reg s) name)),
                 if bool_decide (get_catalog_model_name (reg s) name ∈ api_models) then "api" else "filesystem")%string)
         <$> list_serving_models (reg s)).

(** The answer for a model that is not stored *)
Definition from_image (model_id : string) (s : service) : res http_error text :=
  let* raw_yaml := load_filesystem_yaml model_id in
  match raw_yaml with
  | Some t => Ret t
  | None =>
      match get_model_info (reg s) model_id with
      | Some info => Ret (yaml_dump (VDict [("sie_id", VStr model_id); ("source", VStr "filesystem");
                                            ("bundles", VList (VStr <$> mi_bundles info))]%string))
      | None => Raise (NotFound model_id)
      end
  end.

(** [get_model]: the stored text, else the file of the image, else a summary *)
Definition get_model_route (q : request) (model_id : string) (s : service) : res http_error text :=
  let* _ := check_read_auth (auth q) (authorization q) in
  let* _ := validate_model_id (VStr model_id) in
  if negb (model_exists (reg s) model_id) then Raise (NotFound model_id)
  else
    let* content := match kept_store s with
                    | Some st => match read_model (io q) st model_id with Ret t => Ret t | Raise e => Raise (StoreFailed e) end
                    | None => Ret None
                    end in
    match content with
    | Some t => if blank t then from_image model_id s else Ret t
    | None => from_image model_id s
    end.

(** [resolve_config]; the body is what its JSON denotes, [{}] when it is empty and [None] when
    it does not parse *)
Definition resolve_config (q : request) (data : option pyval) (s : service) :
    res http_error (string * string * list string * list string) :=
  let* _ := check_read_auth (auth q) (authorization q) in
  match data with
  | None => Raise ParseError
  | Some (VDict data) =>
      match default (VStr "") (dict_get "model"%string data) with
      | VStr model_spec =>
          if bool_decide (model_spec = ""%string) then Raise MissingField
          else
            let* spec := match parse_model_spec model_spec with Ret a => Ret a | Raise _ => Raise InvalidSpec end in
            let model_name := spec.2 in
            let resolve b := match resolve_bundle (reg s) model_name b with Ret b => Ret b | Raise e => Raise (RouteRefused e) end in
            let* resolved := match spec.1, get_val "bundle" data with
                             | Some b, _ => resolve (Some b)
                             | None, VNone => resolve None
                             | None, VStr b => resolve (Some b)
                             | None, _ => let* _ := resolve None in Raise BundleNotText
                             end in
            Ret (model_name, resolved,
                 match get_model_info (reg s) model_name with Some info => mi_bundles info | None => [resolved] end,
                 sorted_strings (elements (get_model_profile_names (reg s) model_name)))
      | v => if truthy v then Raise Unhandled else Raise MissingField
      end
  | Some _ => Raise Unhandled
  end.

(** [list_bundles] *)
Definition list_bundles_route (q : request) (s : service) : res http_error (list (string * string * Z * Z)) :=
  let* _ := check_read_auth (auth q) (authorization q) in
  Ret (omap (λ name, (λ b, (b_name b, engine b, priority b, Z.of_nat (length (adapters b)))) <$> dict_get name (bundles (reg s)))
         (ConfigRegistry.list_bundles (reg s))).

(** [get_bundle] *)
Definition get_bundle_route (q : request) (bundle_id : string) (s : service) : res http_error dict :=
  let* _ := check_read_auth (auth q) (authorization q) in
  match dict_get bundle_id (bundles (reg s)) with
  | None => Raise (NotFound bundle_id)
  | Some b => Ret [("name", VStr (b_name b)); ("engine", VStr (engine b)); ("priority", VInt (priority b));
                   ("source", VStr "filesystem"); ("adapters", VList (VStr <$> adapters b))]%string
  end.
End service.
End ConfigService.
