(* ===== verification/ConfigSync.v ===== *)
(** The configuration service and its store: what a restart serves.

    [alike] compares mappings as Python does.  [synced] relates the registry to the store;
    every write to a model of the API keeps it, whatever fails on the way, and a restart of a
    synced service routes every name as the service did. *)

From Stdlib Require Import Ascii.
From stdpp Require Import strings.
From S2P Require Import Prelude PyFloat PyDict PyStr Handlers PyVal ModelConfig ConfigProfiles ConfigRegistry ConfigTables.
From S2P Require Import ConfigRouting ConfigStore ConfigService.
Import Handlers PyVal ConfigProfiles ConfigRegistry ConfigTables ConfigRouting ConfigStore ConfigService.
Local Open Scope Z_scope.
Local Open Scope py_scope.

Module ConfigSync.

(** ** Mappings that are equal as Python values *)

Definition alike (d e : dict) : Prop := ∀ k, canon <$> dict_get k d = canon <$> dict_get k e.

#[export] Instance alike_equivalence : Equivalence alike.
Proof. split; [by intros d k|by intros d e H k|by intros d e f H H' k; rewrite H]. Qed.

Lemma get_sort_insert (x : string * pyval) l k : dict_get k (sort_insert key_leb x l) = dict_get k (x :: l).
Proof.
  destruct x as [kx vx]. induction l as [|[ky vy] l IH]; [done|]. cbn [sort_insert]. destruct (key_leb _ _) eqn:E; [done|].
  cbn [dict_get] in *. rewrite IH. destruct (decide (k = ky)) as [->|]; [|done]. rewrite decide_False; [done|].
  intros ->. unfold key_leb in E. cbn in E. destruct (String.leb_total kx kx); congruence.
Qed.

Lemma get_sorted (d : dict) k : dict_get k (stable_sort key_leb d) = dict_get k d.
Proof. induction d as [|[k' v] d IH]; [done|]. cbn [stable_sort foldr]. rewrite get_sort_insert. cbn. fold (stable_sort key_leb d). by rewrite IH. Qed.

Lemma get_canon (d : dict) k : dict_get k (List.map (λ '(k, w), (k, canon w)) d) = canon <$> dict_get k d.
Proof. induction d as [|[k' v] d IH]; [done|]. cbn. by case_decide. Qed.

Lemma alike_canon d e : canon (VDict d) = canon (VDict e) → alike d e.
Proof.
  intros H k. cbn in H. injection H as H. rewrite <- !get_canon, <- (get_sorted (List.map _ d)), <- (get_sorted (List.map _ e)). by rewrite H.
Qed.

Lemma canon_dict v d : canon v = canon (VDict d) → ∃ e, v = VDict e ∧ alike e d.
Proof.
  destruct v as [| |z|x| | | |e]; try done.
  - cbn. destruct (ftrunc x); [|done]. by destruct (fcmpZ x z) as [[]|].
  - intros H%alike_canon. eauto.
Qed.

Lemma alike_get_val d e k : alike d e → canon (get_val k d) = canon (get_val k e).
Proof.
  intros H. specialize (H k). unfold get_val. destruct (dict_get k d), (dict_get k e); cbn in *; try done; congruence.
Qed.

(** What is read of a value that may be a string *)
Lemma str_read {A} (f : string → option A) v w :
  canon v = canon w → match v with VStr s => f s | _ => None end = match w with VStr s => f s | _ => None end.
Proof.
  assert (∀ u s, canon (VStr s) = canon u → u = VStr s) as Hstr by (intros u s H; by apply py_eq_str, py_eq_true).
  intros H. destruct v as [| | | |s| | |]; [| | | |by rewrite (Hstr w s H)| | |]; destruct w as [| | | |s| | |]; try done;
    symmetry in H; by apply Hstr in H.
Qed.

#[export] Instance own_path_proper : Proper (alike ==> eq) own_path.
Proof. intros d e H. unfold own_path. by apply str_read, alike_get_val. Qed.

#[export] Instance parent_of_proper : Proper (alike ==> eq) parent_of.
Proof. intros d e H. unfold parent_of. by apply str_read, alike_get_val. Qed.

Lemma alike_profile d e name p : alike d e → dict_get name d = Some (VDict p) → ∃ q, dict_get name e = Some (VDict q) ∧ alike p q.
Proof.
  intros H Hp. specialize (H name). rewrite Hp in H. cbn [fmap option_fmap option_map] in H. destruct (dict_get name e) as [w|]; [|done].
  injection H as H. destruct (canon_dict w p) as (q & -> & Hq); [done|]. by exists q.
Qed.

Lemma declares_alike d e name path n : alike d e → declares d name path n → declares e name path n.
Proof.
  intros H. induction 1 as [name p path Hne Hp Ho|name p parent path n Hne Hp Ho Hpar _ IH].
  - destruct (alike_profile _ _ _ _ H Hp) as (q & Hq & Hpq). eapply declares_own; [done|done|by rewrite <- Hpq].
  - destruct (alike_profile _ _ _ _ H Hp) as (q & Hq & Hpq). eapply declares_parent; [done|done|by rewrite <- Hpq|by rewrite <- Hpq|done].
Qed.

#[export] Instance effective_adapter_path_proper : Proper (alike ==> eq ==> eq) effective_adapter_path.
Proof.
  intros d e H name ? <-. apply option_eq. intros path. rewrite !effective_adapter_path_declares.
  split; intros [n Hn]; exists n; (eapply declares_alike; [|done]); by (done || symmetry).
Qed.

#[export] Instance profile_module_proper : Proper (alike ==> eq ==> eq) profile_module.
Proof. intros d e H name ? <-. unfold profile_module. by rewrite H. Qed.

Lemma alike_keys d e p : alike d e → p ∈ dict_keys d ↔ p ∈ dict_keys e.
Proof.
  intros H. specialize (H p). rewrite <- !dict_get_is_Some. destruct (dict_get p d), (dict_get p e); try done; by split; intros [? ?].
Qed.

#[export] Instance base_route_proper : Proper (alike ==> eq) base_route_adapter_modules.
Proof.
  intros d e H. unfold base_route_adapter_modules. rewrite !dict_mem_is_Some.
  rewrite (bool_decide_ext _ (is_Some (dict_get "default"%string e))); [|rewrite !dict_get_is_Some; by apply alike_keys].
  by rewrite H.
Qed.

(** ** Documents that route alike *)

(** Every document of [F] has one in [G] with the same profiles. *)
Definition docs_within (F G : docs) : Prop :=
  ∀ id c, dict_get id F = Some c → ∃ d, dict_get id G = Some d ∧ alike (profiles_in c) (profiles_in d).

Definition docs_alike (F G : docs) : Prop := docs_within F G ∧ docs_within G F.

Lemma docs_alike_sym F G : docs_alike F G → docs_alike G F.
Proof. by intros [? ?]. Qed.

Lemma serving_within F G e : dict_wf F → dict_wf G → docs_within F G → e ∈ serving F → e ∈ serving G.
Proof.
  destruct e as [s [id o]]. intros HF HG H (c & Hc & Ho)%elem_of_serving; [|done]. apply elem_of_serving; [done|].
  destruct (H id c Hc) as (d & Hd & Hal). exists d. split; [done|].
  destruct o as [p|]; [|done]. destruct Ho as (Hp & ? & ?). split_and!; [by apply (alike_keys _ _ p Hal)|done|done].
Qed.

Lemma serving_NoDup F : dict_wf F → (∀ id c, dict_get id F = Some c → dict_wf (profiles_in c)) → NoDup (serving F).
Proof.
  unfold dict_wf at 1, serving. induction F as [|[id c] F IH]; intros HF Hp; [apply NoDup_nil_2|].
  rewrite dict_keys_cons in HF. apply NoDup_cons in HF as [Hid HF]. cbn [fmap list_fmap concat fst snd]. apply NoDup_app. split_and!.
  - apply NoDup_cons. split; [by intros (p & ? & _)%list_elem_of_fmap|]. apply NoDup_map_on.
    + apply NoDup_filter. apply (Hp id c). cbn. by rewrite decide_True.
    + intros x y _ _ E. by injection E.
  - intros [s [i o]] Hin Hin2. assert (i = id) as ->.
    { apply elem_of_cons in Hin as [[= -> -> ->]|(p & [= -> -> ->] & _)%list_elem_of_fmap]; done. }
    apply (elem_of_serving F s id o) in Hin2 as (c' & Hc' & _); [|done]. apply Hid, dict_get_is_Some. eauto.
  - apply IH; [done|]. intros i c' Hi. apply (Hp i c'). cbn. rewrite decide_False; [done|]. intros ->. apply Hid, dict_get_is_Some. eauto.
Qed.

(** Fewer documents keep their identities apart. *)
Lemma within_apart F G :
  dict_wf F → dict_wf G → (∀ id c, dict_get id F = Some c → dict_wf (profiles_in c)) → docs_within F G → apart G → apart F.
Proof.
  intros HF HG Hp H Ha. apply NoDup_map_on; [by apply serving_NoDup|]. intros [x ox] [y oy] Hx Hy E. cbn in E.
  apply (serving_within F G) in Hx, Hy; try done. by destruct (apart_same _ _ _ _ _ Ha Hx Hy E) as [-> ->].
Qed.

Lemma route_modules_alike F G e : dict_wf F → docs_alike F G → e ∈ serving F → route_modules F e.2 = route_modules G e.2.
Proof.
  destruct e as [s [id o]]. intros HF [H _] (c & Hc & _)%elem_of_serving; [|done]. destruct (H id c Hc) as (d & Hd & Hal).
  unfold route_modules. cbn. rewrite Hc, Hd. cbn. destruct o; by rewrite Hal.
Qed.

Lemma reference_alike bs F G name :
  dict_wf F → dict_wf G → apart F → apart G → docs_alike F G → reference_bundles bs F name = reference_bundles bs G name.
Proof.
  intros HF HG AF AG H. unfold reference_bundles. destruct (List.find (same_identity name) (serving F)) as [[s route]|] eqn:E.
  - apply List.find_some in E as [Hin%list_elem_of_In Hs]. unfold same_identity in Hs. cbn in Hs. apply bool_decide_eq_true in Hs.
    rewrite (find_identity G name s route); [|done|by apply (serving_within F G); [..|apply H|]|done]. f_equal.
    by apply (route_modules_alike F G (s, route)).
  - rewrite find_nobody; [done|]. intros s route Hin Hl. apply (serving_within G F) in Hin; [|done|done|apply H].
    by rewrite (find_identity F name s route) in E.
Qed.

(** ** Validation twice *)

Lemma lstrip_lower s : lstrip (lower s) = lower (lstrip s).
Proof. induction s as [|a s IH]; [done|]. cbn. rewrite is_space_lower. by destruct (is_space a). Qed.

Lemma lower_nil s : lower s = EmptyString ↔ s = EmptyString.
Proof. by destruct s. Qed.

Lemma rstrip_lower s : rstrip (lower s) = lower (rstrip s).
Proof.
  induction s as [|a s IH]; [done|]. cbn. rewrite IH, is_space_lower. destruct (rstrip s) as [|b t]; cbn; [by destruct (is_space a)|done].
Qed.

Lemma strip_lower s : strip (lower s) = lower (strip s).
Proof. unfold strip. by rewrite lstrip_lower, rstrip_lower. Qed.

Lemma normalize_pool_again config config' :
  dict_wf config → normalize_pool_name config = Ret config' → normalize_pool_name config' = Ret config'.
Proof.
  intros Hwf. unfold normalize_pool_name at 1.
  assert (normalize_pool_name (dict_del "pool"%string config) = Ret (dict_del "pool"%string config)) as Hdel.
  { unfold normalize_pool_name. by rewrite dict_get_del, decide_True by done. }
  destruct (dict_get "pool"%string config) as [[| | | |raw| | |]|] eqn:E; try done.
  - by intros [= <-].
  - cbn zeta. case_bool_decide as Hne; [by intros [= <-]|]. destruct (_ || _ || _) eqn:Ebad; [done|]. intros [= <-].
    unfold normalize_pool_name. rewrite dict_get_set, decide_True by done. cbn zeta.
    rewrite strip_lower, strip_idem, lower_idem, (bool_decide_eq_false_2 (_ = ""%string)), Ebad by done. by rewrite dict_set_set.
  - intros [= <-]. unfold normalize_pool_name. by rewrite E.
Qed.

Lemma normal_id config config' : dict_wf config → normalize_pool_name config = Ret config' → get_val "sie_id" config' = get_val "sie_id" config.
Proof. intros Hwf H. by apply (normalize_pool_keeps _ _ "sie_id" Hwf H). Qed.

Lemma validate_again r config config' x :
  dict_wf config → validate_config_locked r config = Ret (config', x) → validate_config_locked r config' = Ret (config', x).
Proof.
  intros Hwf H. assert (normalize_pool_name config = Ret config') as Hn.
  { unfold validate_config_locked in H. destruct (negb _); [done|]. ModelConfig.ok_bind H. repeat ModelConfig.ok_bind H. by injection H as <- _. }
  unfold validate_config_locked in H |- *. rewrite (normal_id _ _ Hwf Hn). destruct (negb _); [done|].
  rewrite Hn in H. by rewrite (normalize_pool_again _ _ Hwf Hn).
Qed.

Lemma validate_structure_again r config config' :
  dict_wf config → validate_structure_locked r config = Ret config' → validate_structure_locked r config' = Ret config'.
Proof.
  intros Hwf H. assert (normalize_pool_name config = Ret config') as Hn.
  { unfold validate_structure_locked in H. destruct (negb _); [done|]. ModelConfig.ok_bind H. repeat ModelConfig.ok_bind H. by injection H as <-. }
  unfold validate_structure_locked in H |- *. rewrite (normal_id _ _ Hwf Hn). destruct (negb _); [done|].
  rewrite Hn in H. by rewrite (normalize_pool_again _ _ Hwf Hn).
Qed.

(** A body that passes validation is added. *)
Lemma add_validated r config config' x id :
  validate_config_locked r config = Ret (config', x) → string_id config' = Ret id →
  ∃ r' aff, add_model_config r config = Ret (r', (x.1.1, x.1.2, aff)).
Proof.
  intros H Hid. destruct x as [[cr sk] aff]. unfold add_model_config. rewrite H. cbn [res_bind]. rewrite Hid. cbn [res_bind].
  by do 2 eexists.
Qed.

Lemma validated_adds r config config' x id :
  dict_wf config → validate_config_locked r config = Ret (config', x) → string_id config' = Ret id →
  ∃ r' aff, add_model_config r config' = Ret (r', (x.1.1, x.1.2, aff)).
Proof. intros Hwf H. apply add_validated. by apply (validate_again _ _ _ _ Hwf H). Qed.

Lemma validated_replaces r config config' id :
  dict_wf config → validate_structure_locked r config = Ret config' → string_id config' = Ret id →
  ∃ r' aff, replace_model_config r config' = Ret (r', aff).
Proof.
  intros Hwf H Hid. unfold replace_model_config. rewrite (validate_structure_again _ _ _ Hwf H). cbn [res_bind].
  rewrite Hid. cbn [res_bind]. by do 2 eexists.
Qed.

(** ** What the handlers leave alone *)

Definition with_cache (r : registry) (cache : list (string * string)) : registry :=
  mkRegistry (bundles r) (models r) (model_names_lower r) (variant_models r) (variant_names_lower r) (variant_base_models r)
    (model_adapter_modules r) (model_profiles r) (model_profile_configs r) (model_full_configs r) (unrouteable_models r) cache.

(** The registries differ in the cached hashes only. *)
Definition recached (r r' : registry) : Prop := ∃ cache, r' = with_cache r cache.

Lemma recached_refl r : recached r r.
Proof. exists (bundle_hash_cache r). by destruct r. Qed.

Lemma recached_trans r r' r'' : recached r r' → recached r' r'' → recached r r''.
Proof. intros [c ->] [c' ->]. by exists c'. Qed.

Lemma recached_coherent r r' : recached r r' → coherent r → coherent r'.
Proof. intros [c ->] [Ht Hv Ha Hm Hu Hun]. split; try done. by destruct Ht. Qed.

Lemma recached_docs r r' : recached r r' → model_full_configs r' = model_full_configs r ∧ bundles r' = bundles r.
Proof. by intros [c ->]. Qed.

Section handlers.
Context {text : Type} `{!Yaml text, !YamlLaws text} (digest json : pyval → string) (models_dir : list (string * text)).
Implicit Types s : @service text.

Definition same_files (a b : option (@store text)) : Prop :=
  match a, b with Some x, Some y => files x = files y | None, None => True | _, _ => False end.

(** The documents of the registry and the files are the same. *)
Definition drifts s s' : Prop := recached (reg s) (reg s') ∧ same_files (kept_store s) (kept_store s').

Lemma drifts_refl s : drifts s s.
Proof. split; [apply recached_refl|]. by destruct s as [r [st|] w]. Qed.

Lemma drifts_trans s s' s'' : drifts s s' → drifts s' s'' → drifts s s''.
Proof.
  intros [R F] [R' F']. split; [by eapply recached_trans|]. unfold same_files in *.
  destruct (kept_store s), (kept_store s'), (kept_store s''); try done. congruence.
Qed.

Definition pure {A} (m : @M text A) : Prop := ∀ s, (m s).1 = s.
Definition quiet {A} (m : @M text A) : Prop := ∀ s, drifts s (m s).1.

Lemma pure_quiet {A} (m : @M text A) : pure m → quiet m.
Proof. intros H s. rewrite H. apply drifts_refl. Qed.

Lemma pure_mret {A} (a : A) : pure (mret a).
Proof. done. Qed.
Lemma pure_mraise {A} e : pure (A := A) (mraise e).
Proof. done. Qed.
Lemma pure_lift {A} (r : res http_error A) : pure (lift r).
Proof. done. Qed.
Lemma pure_get : pure get_state.
Proof. done. Qed.
Lemma pure_guard b e : pure (guard b e).
Proof. by destruct b. Qed.
Lemma pure_pause q a : pure (pause q a).
Proof. apply pure_guard. Qed.
Lemma pure_of_store {A} (r : res store_error A) : pure (of_store r).
Proof. done. Qed.
Lemma pure_of_registry {A} (r : cfg A) : pure (of_registry r).
Proof. done. Qed.

Lemma pure_bind {A B} (m : @M text A) (k : A → @M text B) : pure m → (∀ a, pure (k a)) → pure (bind m k).
Proof. intros Hm Hk s. unfold bind. specialize (Hm s). destruct (m s) as [s1 [a|e]]; cbn in Hm; subst; [apply Hk|done]. Qed.

Lemma pure_if {A} (b : bool) (m n : @M text A) : pure m → pure n → pure (if b then m else n).
Proof. by destruct b. Qed.

Lemma quiet_bind {A B} (m : @M text A) (k : A → @M text B) : quiet m → (∀ a, quiet (k a)) → quiet (bind m k).
Proof.
  intros Hm Hk s. unfold bind. specialize (Hm s). destruct (m s) as [s1 [a|e]]; cbn in Hm; [|done].
  eapply drifts_trans; [done|apply Hk].
Qed.

Lemma quiet_send ms : quiet (send ms).
Proof. intros s. split; [apply recached_refl|]. by destruct s as [r [st|] w]. Qed.

Lemma bind_inv {A B} (m : @M text A) (k : A → @M text B) s s' a :
  bind m k s = (s', a) → (∃ e, m s = (s', Raise e) ∧ a = Raise e) ∨ ∃ x s1, m s = (s1, Ret x) ∧ k x s1 = (s', a).
Proof. unfold bind. destruct (m s) as [s1 [x|e]]; [eauto|intros [= <- <-]; eauto]. Qed.

(** A step that leaves the state alone *)
Lemma pure_step {A B} (m : @M text A) (k : A → @M text B) s s' a :
  pure m → bind m k s = (s', a) → (s' = s ∧ ∃ e, a = Raise e) ∨ ∃ x, m s = (s, Ret x) ∧ k x s = (s', a).
Proof.
  intros Hm [(e & H & ->)|(x & s1 & H & Hk)]%bind_inv; pose proof (Hm s) as Hs; rewrite H in Hs; cbn in Hs; subst; eauto.
Qed.

Lemma lift_Ret {A} (r : res http_error A) s s' x : lift r s = (s', Ret x) → r = Ret x.
Proof. by intros [= _ ->]. Qed.

Lemma of_registry_Ret {A} (r : cfg A) s s' x : of_registry r s = (s', Ret x) → r = Ret x.
Proof. unfold of_registry, lift. destruct r; [by intros [= _ ->]|done]. Qed.

Lemma of_store_Ret {A} (r : res store_error A) s s' x : of_store r s = (s', Ret x) → r = Ret x.
Proof. unfold of_store, lift. destruct r; [by intros [= _ ->]|done]. Qed.

Lemma guard_Ret b e s s' x : guard b e s = (s', Ret x) → b = true.
Proof. by destruct b. Qed.

Lemma quiet_bump q : quiet (bump_epoch q).
Proof.
  intros s. unfold bump_epoch, bind, get_state. destruct s as [r [st|] w]; cbn; [|apply drifts_refl].
  unfold of_store, lift, increment_epoch. destruct (epoch_write_fails (io q)); cbn; [apply drifts_refl|].
  split; [apply recached_refl|done].
Qed.

Lemma hash_bundle_recached acc l : recached acc.1 (foldl (hash_bundle digest) acc l).1.
Proof.
  revert acc. induction l as [|b l IH]; intros acc; [apply recached_refl|]. cbn [foldl]. eapply recached_trans; [|apply IH].
  unfold hash_bundle, compute_bundle_config_hash. destruct (dict_get b _); cbn; [apply recached_refl|by eexists].
Qed.

Lemma quiet_announce q publish id profiles affected epoch yaml : quiet (announce digest q publish id profiles affected epoch yaml).
Proof.
  intros s. unfold announce, bind, get_state. cbn.
  pose proof (hash_bundle_recached (reg s, []) affected) as Hr. destruct (foldl _ _ affected) as [r hashes]. cbn in Hr.
  assert (drifts s (mkService r (kept_store s) (wire s))) as Hd by (split; [done|]; by destruct s as [r0 [st|] w]).
  destruct (publish && _); [|done]. destruct (publish_config_notification _ _ _ _ _ _ _ _ _) as [ms outcome]. cbn.
  eapply drifts_trans; [done|]. exact (quiet_send ms _).
Qed.
End handlers.

Create HintDb handlers discriminated.
#[export] Hint Resolve pure_mret pure_mraise pure_lift pure_get pure_guard pure_pause pure_of_store pure_of_registry pure_if pure_bind : handlers.
#[export] Hint Resolve quiet_bump quiet_announce : handlers.

(** Take one step that leaves the state alone. *)
Ltac run H x E :=
  apply pure_step in H; [|solve [eauto with handlers]]; destruct H as [[-> [?e ->]]|(x & E & H)];
  [solve [auto using drifts_refl]|].

Section effects.
Context {text : Type} `{!Yaml text, !YamlLaws text} (digest json : pyval → string) (models_dir : list (string * text)).
Implicit Types s : @service text.

Lemma pure_check_replay q id config cr sk : pure (check_replay (text := text) q id config cr sk).
Proof.
  unfold check_replay. apply pure_bind; [apply pure_get|]. intros s. destruct (kept_store s) as [st|]; eauto 10 with handlers.
Qed.
Hint Resolve pure_check_replay : handlers.


(** The disk is written last, and not at all if nothing is created. *)
Lemma persist_inv q id config cr s s1 r :
  persist q id config cr s = (s1, r) → read_fails (io q) = false →
  match r with
  | Raise _ => s1 = s
  | Ret None => s1 = s ∧ (kept_store s = None ∨ cr = [])
  | Ret (Some _) =>
      ∃ st merged, kept_store s = Some st ∧ cr ≠ [] ∧ merged_config id (dict_get (filename id) (files st)) config = Ret merged ∧
        s1 = mkService (reg s) (Some (mkStore (dict_set (filename id) (yaml_dump (VDict merged)) (files st)) (epoch_file st))) (wire s)
  end.
Proof.
  intros H Hread. unfold persist in H. run H s0 E. injection E as <-.
  destruct (kept_store s) as [st|] eqn:Est; [|injection H as <- <-; auto].
  case_bool_decide as Hcr; [injection H as <- <-; auto|]. run H u Eu. run H existing E0. run H merged E1. run H st' E2.
  unfold set_store, bind in H. injection H as <- <-. exists st, merged. split_and!; try done.
  - apply of_store_Ret in E0. unfold read_model in E0. destruct (validate_stored_id id); [|done]. cbn in E0. rewrite Hread in E0.
    injection E0 as ->. by apply lift_Ret in E1.
  - apply of_store_Ret in E2. unfold write_model in E2. destruct (validate_stored_id id); [|done]. cbn in E2.
    destruct (write_fails (io q)); [done|]. by injection E2 as <-.
Qed.

(** Once the registry is written, only the epoch, cached hashes and the wire change. *)
Lemma append_registry_effect q r0 id config saved r' cr sk aff s :
  add_model_config r0 config = Ret (r', (cr, sk, aff)) →
  drifts (mkService r' (kept_store s) (wire s)) (append_registry digest q r0 id config saved s).1.
Proof.
  intros Hadd. unfold append_registry. unfold bind at 1. rewrite Hadd. unfold of_registry, lift. cbn [fst snd].
  unfold bind at 1. cbn [set_reg].
  match goal with |- drifts ?s1 (?m ?s1).1 => assert (quiet m) as Hq; [|exact (Hq s1)] end.
  apply quiet_bind; [destruct (bool_decide _); [by apply pure_quiet|apply quiet_bump]|]. intros epoch.
  apply quiet_bind; [apply quiet_announce|]. intros. by apply pure_quiet.
Qed.

Lemma replace_registry_effect q r0 id config r' aff s :
  replace_model_config r0 config = Ret (r', aff) →
  drifts (mkService r' (kept_store s) (wire s)) (replace_registry digest q r0 id config s).1.
Proof.
  intros Hrep. unfold replace_registry. unfold bind at 1. rewrite Hrep. unfold of_registry, lift. cbn [fst snd].
  unfold bind at 1. cbn [set_reg].
  match goal with |- drifts ?s1 (?m ?s1).1 => assert (quiet m) as Hq; [|exact (Hq s1)] end.
  apply quiet_bind; [apply quiet_bump|]. intros epoch. apply quiet_bind; [apply quiet_announce|]. intros. by apply pure_quiet.
Qed.

Lemma string_id_Ret d id : string_id d = Ret id → get_val "sie_id" d = VStr id.
Proof. unfold string_id. destruct (get_val "sie_id" d); try done. by intros [= ->]. Qed.

(** An append: nothing, or the file and then the registry. *)
Lemma add_model_effect q s s' a :
  add_model digest q s = (s', a) → read_fails (io q) = false → (∀ d, parse_body (body q) = Ret d → dict_wf d) →
  drifts s s' ∨
  ∃ d d' id cr sk aff aff' r',
    parse_body (body q) = Ret d ∧ validate_config_locked (reg s) d = Ret (d', (cr, sk, aff)) ∧ get_val "sie_id" d' = VStr id ∧
    add_model_config (reg s) d' = Ret (r', (cr, sk, aff')) ∧ recached r' (reg s') ∧
    match kept_store s with
    | None => kept_store s' = None
    | Some st => ∃ st', kept_store s' = Some st' ∧
        (cr = [] ∧ files st' = files st ∨
         ∃ merged, merged_config id (dict_get (filename id) (files st)) d' = Ret merged ∧
           files st' = dict_set (filename id) (yaml_dump (VDict merged)) (files st))
    end.
Proof.
  intros H Hread Hwf. unfold add_model in H.
  run H u0 E0. unfold commit_add in H. run H d Hd. apply lift_Ret in Hd. run H u3 E3. run H u4 E4. run H s0 E5. injection E5 as <-.
  run H x Hv. destruct x as [d' [[cr sk] aff]]. apply of_registry_Ret in Hv. run H mid Hid. apply of_registry_Ret in Hid.
  run H u5 E5. run H u6 E6. clear E3 E4 E5 E6 u3 u4 u5 u6.
  destruct (validated_adds _ _ _ _ mid (Hwf d Hd) Hv Hid) as (r' & aff' & Hadd). cbn [fst snd] in Hadd.
  apply bind_inv in H as [(e & Hp & ->)|(saved & s1 & Hp & H)]; apply persist_inv in Hp; try done.
  { subst s'. left. apply drifts_refl. }
  pose proof (append_registry_effect q (reg s) mid d' saved r' cr sk aff' s1 Hadd) as [Hr Hf]. rewrite H in Hr, Hf. cbn in Hr, Hf.
  right. exists d, d', mid, cr, sk, aff, aff', r'. split_and!; try done; [by apply string_id_Ret|].
  destruct saved as [t|].
  - destruct Hp as (st & merged & -> & Hcr & Hm & ->). cbn in Hf. destruct (kept_store s') as [st'|]; [|done].
    exists st'. split; [done|]. right. eauto.
  - destruct Hp as [-> Hor]. unfold same_files in Hf. destruct (kept_store s) as [st|], (kept_store s') as [st'|]; try done.
    exists st'. split; [done|]. left. by destruct Hor as [?|Hnil].
Qed.

Lemma validate_model_id_Ret v id : validate_model_id v = Ret id → v = VStr id.
Proof. unfold validate_model_id. destruct v; try done. repeat (destruct (_ || _); [done|]). by intros [= ->]. Qed.

(** The body of a replacement carries the id of the path. *)
Lemma body_of_path_Ret id d d' : body_of_path id d = Ret d' → get_val "sie_id" d' = VStr id ∧ (dict_wf d → dict_wf d') ∧ profiles_in d' = profiles_in d.
Proof.
  unfold body_of_path. destruct (truthy _ && _) eqn:Et; [done|]. intros H. ModelConfig.ok_bind H. injection H as <-.
  pose proof (validate_model_id_Ret _ _ E) as Ha. unfold dict_mem in *. destruct (dict_get "sie_id" d) as [v|] eqn:Ed.
  - split_and!; try done. unfold get_val in *. rewrite Ed in *. cbn [default Datatypes.id] in *. subst v. cbn [truthy] in Et.
    destruct (bool_decide (a = ""%string)) eqn:Ea.
    + apply bool_decide_eq_true in Ea as ->. done.
    + apply negb_false_iff, py_eq_str in Et. by injection Et as ->.
  - split_and!; [by rewrite get_val_set, decide_True|by apply dict_set_wf|by apply profiles_in_set].
Qed.

Lemma persist_replacement_inv q id config s s1 r :
  persist_replacement q id config s = (s1, r) →
  match r with
  | Raise _ => s1 = s
  | Ret _ =>
      match kept_store s with
      | None => s1 = s
      | Some st => s1 = mkService (reg s) (Some (mkStore (dict_set (filename id) (yaml_dump (VDict config)) (files st)) (epoch_file st))) (wire s)
      end
  end.
Proof.
  intros H. unfold persist_replacement in H. run H s0 E. injection E as <-.
  destruct (kept_store s) as [st|] eqn:Est; [|by injection H as <- <-]. run H st' E.
  unfold set_store in H. injection H as <- <-. apply of_store_Ret in E. unfold write_model in E.
  destruct (validate_stored_id id); [|done]. cbn in E. destruct (write_fails (io q)); [done|]. by injection E as <-.
Qed.

Lemma replace_model_effect q path s s' a :
  replace_model digest json q path s = (s', a) → (∀ d, parse_body (body q) = Ret d → dict_wf d) →
  drifts s s' ∨
  ∃ d d' aff r',
    parse_body (body q) = Ret d ∧ profiles_in d' = profiles_in d ∧ get_val "sie_id" d' = VStr path ∧
    validate_structure_locked (reg s) d' = Ret d' ∧ (body_ok d → body_ok d') ∧
    replace_model_config (reg s) d' = Ret (r', aff) ∧ recached r' (reg s') ∧
    match kept_store s with
    | None => kept_store s' = None
    | Some st => ∃ st', kept_store s' = Some st' ∧ files st' = dict_set (filename path) (yaml_dump (VDict d')) (files st)
    end.
Proof.
  intros H Hwf. unfold replace_model in H.
  run H u0 E0. unfold commit_replace in H. run H d Hd. apply lift_Ret in Hd. run H d1 Hd1. apply lift_Ret, body_of_path_Ret in Hd1 as (Hid & Hwf1 & Hp1).
  run H u3 E3. run H s0 E4. injection E4 as <-. run H d' Hv. apply of_registry_Ret in Hv. clear E3 u3.
  specialize (Hwf d Hd). specialize (Hwf1 Hwf).
  destruct (match get_full_config (reg s) path with Some _ => _ | None => _ end); [|injection H as <- <-; left; apply drifts_refl].
  assert (normalize_pool_name d1 = Ret d') as Hn.
  { unfold validate_model_config_replacement, validate_structure_locked in Hv. destruct (negb _); [done|]. repeat ModelConfig.ok_bind Hv. by injection Hv as <-. }
  assert (get_val "sie_id" d' = VStr path) as Hid' by by rewrite (normal_id _ _ Hwf1 Hn).
  assert (string_id d' = Ret path) as Hs by (unfold string_id; by rewrite Hid').
  destruct (validated_replaces _ _ _ path Hwf1 Hv Hs) as (r' & aff & Hrep).
  apply bind_inv in H as [(e & Hp & ->)|(u & s1 & Hp & H)]; apply persist_replacement_inv in Hp; try done.
  { subst s'. left. apply drifts_refl. }
  pose proof (replace_registry_effect q (reg s) path d' r' aff s1 Hrep) as [Hr Hf]. rewrite H in Hr, Hf. cbn in Hr, Hf.
  right. exists d, d', aff, r'. split_and!; try done.
  - destruct (normalize_pool_keeps _ _ "profiles" Hwf1 Hn) as [_ Hk]. unfold profiles_in in *. rewrite Hk by done. done.
  - exact (validate_structure_again _ _ _ Hwf1 Hv).
  - intros [_ Hpw]. assert (body_ok d1) as Hb1 by (split; [done|by rewrite Hp1]). by apply (normalize_pool_body _ _ Hb1 Hn).
  - unfold same_files in Hf. destruct (kept_store s) as [st|] eqn:Est; subst s1; cbn in Hf; rewrite ?Est in Hf;
      destruct (kept_store s') as [st'|]; try done; eauto.
Qed.

(** A deletion of a model that is not baked, not cancelled after the file is gone *)
Lemma delete_model_effect q path s s' a :
  delete_model models_dir q path s = (s', a) → cancelled q AwaitEpoch = false → load_filesystem_yaml models_dir path = Ret None →
  drifts s s' ∨
  ∃ st st' r' aff,
    kept_store s = Some st ∧ dict_mem (filename path) (files st) = true ∧ remove_model_config (reg s) path None = Ret (r', aff) ∧
    recached r' (reg s') ∧ kept_store s' = Some st' ∧ files st' = dict_del (filename path) (files st).
Proof.
  intros H Hc Hfs. unfold delete_model in H.
  run H s0 E. injection E as <-. run H u0 E0. unfold commit_delete in H. run H s0 E. injection E as <-.
  destruct (kept_store s) as [st|] eqn:Est; [|injection H as <- <-; left; apply drifts_refl].
  run H u1 E1. run H u2 E2. run H fy Hfy. apply lift_Ret in Hfy. rewrite Hfs in Hfy. injection Hfy as <-.
  run H fb Hfb. apply lift_Ret in Hfb. injection Hfb as <-. run H x Hx. destruct x as [st1 deleted]. apply of_store_Ret in Hx.
  unfold delete_model_file in Hx. destruct (validate_stored_id path); [|done]. cbn [res_bind] in Hx. clear E1 E2 u1 u2.
  unfold bind at 1 in H. cbn [set_store] in H. unfold pause at 1 in H. rewrite Hc in H. cbn [negb guard] in H. unfold bind at 1 in H. cbn [mret] in H.
  destruct (dict_mem (filename path) (files st)) eqn:Em; cbn [negb] in Hx.
  - destruct (delete_fails (io q)); [done|]. injection Hx as <- <-.
    assert (∃ r' aff, remove_model_config (reg s) path None = Ret (r', aff)) as (r' & aff & Hrem).
    { unfold remove_model_config. destruct (negb _); by do 2 eexists. }
    rewrite Hrem in H. unfold bind at 1 in H. cbn [lift] in H. unfold bind at 1 in H. cbn [set_reg] in H.
    match type of H with ?m ?s1 = _ => assert (drifts s1 s') as [Hr Hf] end.
    { match type of H with ?m ?s1 = _ => assert (quiet m) as Hq; [|specialize (Hq s1); by rewrite H in Hq] end.
      apply quiet_bind; [apply quiet_bump|]. intros. by apply pure_quiet. }
    cbn in Hr, Hf. right. destruct (kept_store s') as [st'|] eqn:Est'; [|done]. exists st, st', r', aff. by split_and!.
  - injection Hx as <- <-. injection H as <- _. left. split; [apply recached_refl|]. by rewrite Est.
Qed.
End effects.

(** ** The registry and the store *)

Section sync.
Context {text : Type} `{!Yaml text, !YamlLaws text} (digest json : pyval → string) (models_dir : list (string * text)).
(** The registry of the image's files *)
Context (base : registry).
Implicit Types s : @service text.

(** A model the image does not have, with an id whose file is its own *)
Definition api_model (id : string) : Prop :=
  dict_get id (model_full_configs base) = None ∧ load_filesystem_yaml models_dir id = Ret None ∧ plain id.

(** The file of a model holds its document. *)
Definition stored_as (F : docs) (id : string) (t : text) : Prop :=
  ∃ d full, t = yaml_dump (VDict d) ∧ doc_ok d ∧ get_val "sie_id" d = VStr id ∧ dict_get id F = Some full ∧
    alike (profiles_in full) (profiles_in d).

Record synced s (st : @store text) : Prop := mkSynced {
  sy_coherent : coherent (reg s);
  sy_bundles : bundles (reg s) = bundles base;
  sy_store : kept_store s = Some st;
  sy_wf : dict_wf (files st);
  sy_files : ∀ f t, dict_get f (files st) = Some t → ∃ id, f = filename id ∧ api_model id ∧ stored_as (model_full_configs (reg s)) id t;
  sy_models : ∀ id, is_Some (dict_get id (model_full_configs (reg s))) →
    api_model id ∧ is_Some (dict_get (filename id) (files st)) ∨ is_Some (dict_get id (model_full_configs base));
  sy_baked : ∀ id c, dict_get id (model_full_configs base) = Some c → dict_get id (model_full_configs (reg s)) = Some c;
}.

Lemma synced_drifts s s' st : synced s st → drifts s s' → ∃ st', synced s' st'.
Proof.
  intros [Hc Hb Hst Hwf Hf Hm Hk] [Hr Hfiles]. rewrite Hst in Hfiles. destruct (kept_store s') as [st'|] eqn:Est; [|done]. cbn in Hfiles.
  destruct (recached_docs _ _ Hr) as [HF HB]. exists st'. split; rewrite ?HF, ?HB, <- ?Hfiles; try done. by eapply recached_coherent.
Qed.

(** A model of the API in the registry has a file, and the file is its document. *)
Lemma synced_file s st id full :
  synced s st → api_model id → dict_get id (model_full_configs (reg s)) = Some full →
  ∃ d, dict_get (filename id) (files st) = Some (yaml_dump (VDict d)) ∧ doc_ok d ∧ get_val "sie_id" d = VStr id ∧
    alike (profiles_in full) (profiles_in d).
Proof.
  intros Hs Hapi Hfull. destruct (sy_models _ _ Hs id) as [[_ [t Ht]]|[c Hc]]; [eauto| |by destruct Hapi as [E _]; rewrite Hc in E].
  destruct (sy_files _ _ Hs _ _ Ht) as (id' & Hid & Hapi' & d & full' & -> & Hok & Hsid & Hfull' & Hal).
  apply filename_inj in Hid as <-; [|apply Hapi|apply Hapi']. rewrite Hfull in Hfull'. injection Hfull' as <-. eauto.
Qed.

(** Without a file, the registry does not have the model. *)
Lemma synced_fresh s st id :
  synced s st → api_model id → dict_get (filename id) (files st) = None → dict_get id (model_full_configs (reg s)) = None.
Proof.
  intros Hs Hapi Hf. destruct (dict_get id (model_full_configs (reg s))) as [full|] eqn:E; [|done].
  destruct (synced_file _ _ _ _ Hs Hapi E) as (d & Hd & _). by rewrite Hf in Hd.
Qed.

(** A write to one model of the API: its document and its file change together. *)
Lemma synced_write s st s' st' id d full :
  synced s st → api_model id → coherent (reg s') → bundles (reg s') = bundles (reg s) →
  (∀ id', dict_get id' (model_full_configs (reg s')) = if decide (id = id') then Some full else dict_get id' (model_full_configs (reg s))) →
  kept_store s' = Some st' → dict_wf (files st') → dict_get (filename id) (files st') = Some (yaml_dump (VDict d)) →
  (∀ f, f ≠ filename id → dict_get f (files st') = dict_get f (files st)) →
  doc_ok d → get_val "sie_id" d = VStr id → alike (profiles_in full) (profiles_in d) → synced s' st'.
Proof.
  intros Hs Hapi Hc Hb HF Hst Hwf Hfile Hothers Hok Hid Hal. split; try done.
  - rewrite Hb. apply Hs.
  - intros f t Hft. destruct (decide (f = filename id)) as [->|Hne].
    + rewrite Hfile in Hft. injection Hft as <-. exists id. split_and!; [done|done|]. exists d, full. rewrite HF, decide_True by done. done.
    + rewrite Hothers in Hft by done. destruct (sy_files _ _ Hs _ _ Hft) as (id' & -> & Hapi' & d' & full' & ? & ? & ? & Hfull & ?).
      exists id'. split_and!; [done|done|]. exists d', full'. rewrite HF, decide_False by congruence. done.
  - intros id'. rewrite HF. case_decide as Hd; [subst; intros _; left; split; [done|by eexists]|].
    intros Hi. destruct (sy_models _ _ Hs id' Hi) as [[Hapi' Hex]|Hex]; [left|by right]. split; [done|].
    rewrite Hothers; [done|]. intros E. apply filename_inj in E; [done|apply Hapi'|apply Hapi].
  - intros id' c Hbase. rewrite HF. case_decide as Hd; [subst; destruct Hapi as [E _]; by rewrite Hbase in E|].
    by apply (sy_baked _ _ Hs).
Qed.

Lemma get_put_fields (config stored : dict) k :
  dict_wf config → dict_get k (foldl put_field stored config) =
  if decide (k = "profiles"%string) then dict_get k stored
  else match dict_get k config with Some v => Some v | None => dict_get k stored end.
Proof.
  revert stored. induction config as [|[key v] config IH]; intros stored Hwf; [cbn; by case_decide|].
  unfold dict_wf in Hwf. rewrite dict_keys_cons in Hwf. apply NoDup_cons in Hwf as [Hk Hwf].
  cbn [foldl dict_get]. rewrite IH by done. unfold put_field. destruct (bool_decide (key = "profiles"%string)) eqn:Ep.
  - apply bool_decide_eq_true in Ep as ->. repeat case_decide; congruence.
  - apply bool_decide_eq_false in Ep. rewrite !dict_get_set. destruct (decide (k = "profiles"%string)) as [->|Hnp].
    + by rewrite decide_False.
    + destruct (decide (k = key)) as [->|Hne].
      * apply dict_get_None in Hk as ->. by rewrite decide_True.
      * by rewrite (decide_False (P := key = k)) by congruence.
Qed.

Lemma put_fields_wf (config stored : dict) : dict_wf stored → dict_wf (foldl put_field stored config).
Proof.
  revert stored. induction config as [|[key v] config IH]; intros stored Hwf; [done|]. cbn. apply IH. destruct (bool_decide _); [done|by apply dict_set_wf].
Qed.

Lemma stored_profiles_Ret d ps : stored_profiles d = Ret ps → ps = profiles_in d.
Proof.
  unfold stored_profiles, profiles_in, get_val. destruct (dict_get "profiles" d) as [[| | | | |[|]|[|]|]|]; cbn; try done; by intros [= <-].
Qed.

(** What the store holds after an append, if it held a document *)
Lemma merged_profiles id d config merged :
  dict_wf config → merged_config id (Some (yaml_dump (VDict d))) config = Ret merged →
  profiles_in merged = dict_update (profiles_in d) (profiles_in config) ∧ (dict_wf d → dict_wf merged) ∧
  (dict_mem "sie_id"%string config = true → get_val "sie_id" merged = get_val "sie_id" config).
Proof.
  intros Hwf. unfold merged_config, stored_mapping. rewrite dump_blank, load_dump.
  destruct (contradicting d config); [|done]. intros H. ModelConfig.ok_bind H. apply stored_profiles_Ret in E as ->. injection H as <-.
  split_and!.
  - by rewrite profiles_in_put.
  - intros. by apply dict_set_wf, put_fields_wf.
  - intros Hm. rewrite get_val_set, decide_False by done. unfold get_val. rewrite get_put_fields, decide_False by done.
    unfold dict_mem in Hm. by destruct (dict_get "sie_id" config).
Qed.

Lemma validated_body r d d' x :
  body_ok d → validate_config_locked r d = Ret (d', x) →
  body_ok d' ∧ profiles_in d' = profiles_in d ∧ profiles_in d' ≠ [] ∧ (∀ p v, dict_get p (profiles_in d') = Some v → ∃ e, v = VDict e).
Proof.
  intros Hb H. destruct x as [[cr sk] aff]. destruct (validate_config_appends _ _ _ _ _ _ Hb H) as (id & t & [Hn Hb' _ Hp Hv _ _ _] & _ & _).
  split_and!; [done|done| |intros p v Hpv; apply (Hv p v Hpv)].
  unfold validate_config_locked in H. destruct (negb _); [done|]. rewrite Hn in H. cbn [res_bind] in H.
  ModelConfig.ok_bind H. by apply profiles_field_ok in E as [-> ?].
Qed.

(** ** Every write keeps them together *)

(** The request is about models of the API: its body is a mapping with distinct keys. *)
Definition api_request (q : @request text) : Prop :=
  ∀ d, parse_body (body q) = Ret d → body_ok d ∧ ∀ id, get_val "sie_id" d = VStr id → api_model id.

Lemma pool_keeps_id r d d' x : dict_wf d → validate_config_locked r d = Ret (d', x) → get_val "sie_id" d' = get_val "sie_id" d.
Proof.
  intros Hwf H. unfold validate_config_locked in H. destruct (negb _); [done|]. repeat ModelConfig.ok_bind H. injection H as <- _.
  by eapply normal_id.
Qed.

(** The profiles of an append, in the registry and in the file *)
Lemma append_alike (old new ps stored : dict) :
  dict_wf ps → alike old stored →
  (∀ p, dict_get p new = match dict_get p old with Some v => Some v | None => dict_get p ps end) →
  (∀ p v w, dict_get p old = Some v → dict_get p ps = Some w → py_eq v w = true) → alike new (dict_update stored ps).
Proof.
  intros Hwf Hal Hnew Heq p. rewrite Hnew, dict_get_update by done. specialize (Hal p). specialize (Heq p).
  destruct (dict_get p old) as [v|], (dict_get p ps) as [w|]; [|done|done|done].
  cbn. f_equal. by apply py_eq_true, Heq.
Qed.

Lemma add_docs r d r' x id :
  coherent r → body_ok d → get_val "sie_id" d = VStr id → add_model_config r d = Ret (r', x) →
  ∃ full, model_full_configs r' = dict_set id full (model_full_configs r) ∧ doc_ok full.
Proof.
  intros Hc Hb Hid. destruct x as [[cr sk] aff].
  intros (id' & d' & t & names & canonical & [Hn Hb' Hid' _ Hv -> _ _] & -> & _ & _ & _ & -> & _)%add_result; [|done].
  rewrite (normal_id _ _ (proj1 Hb) Hn), Hid in Hid'. injection Hid' as <-. eexists. split; [done|].
  apply append_doc_ok; [by apply coherent_doc|apply Hb'|]. intros q Hq%created_in_body. by apply body_profile.
Qed.

Lemma body_doc_ok d : body_ok d → (∀ p v, dict_get p (profiles_in d) = Some v → ∃ e, v = VDict e) → doc_ok d.
Proof. by intros [? ?] ?. Qed.

Lemma update_dicts (d e : dict) p v :
  dict_wf e → (∀ p v, dict_get p d = Some v → ∃ x, v = VDict x) → (∀ p v, dict_get p e = Some v → ∃ x, v = VDict x) →
  dict_get p (dict_update d e) = Some v → ∃ x, v = VDict x.
Proof. intros He Hd He'. rewrite dict_get_update by done. destruct (dict_get p e) eqn:E; [intros [= <-]; eauto|eauto]. Qed.

Lemma add_synced s s' st q a :
  synced s st → api_request q → read_fails (io q) = false → add_model digest q s = (s', a) →
  apart (model_full_configs (reg s')) → ∃ st', synced s' st'.
Proof.
  intros Hs Hapi Hread H Ha.
  destruct (add_model_effect digest q s s' a H Hread) as [Hd|(d & d' & id & cr & sk & aff & aff' & r' & Hparse & Hv & Hid & Hadd & Hr & Hst)];
    [intros d Hd; apply (Hapi d Hd)|by eapply synced_drifts|].
  destruct (Hapi d Hparse) as [Hb Hids]. pose proof (pool_keeps_id _ _ _ _ (proj1 Hb) Hv) as Hsame. rewrite Hsame in Hid.
  specialize (Hids id Hid). rewrite <- Hsame in Hid. destruct (validated_body _ _ _ _ Hb Hv) as (Hb' & _ & Hne & Hdicts).
  destruct (recached_docs _ _ Hr) as [HF HB]. rewrite HF in Ha. pose proof (sy_coherent _ _ Hs) as Hc.
  assert (normalize_pool_name d' = Ret d') as Hn'.
  { apply (normalize_pool_again d); [apply Hb|]. unfold validate_config_locked in Hv. destruct (negb _); [done|].
    repeat ModelConfig.ok_bind Hv. by injection Hv as <- _. }
  destruct (append_documents _ _ _ _ _ _ Hc Hb' Hadd) as (id' & body' & Hn & Hid2 & _ & Hprof & Hcr & _ & Heq & Hothers).
  rewrite Hn' in Hn. injection Hn as <-. rewrite Hid in Hid2. injection Hid2 as <-.
  destruct (add_docs _ _ _ _ id Hc Hb' Hid Hadd) as (full & Hdocs & _).
  assert (dict_get id (model_full_configs r') = Some full) as Hfull by by rewrite Hdocs, dict_get_set, decide_True.
  assert (full_config_of r' id = full) as Ef by (unfold full_config_of; by rewrite Hfull). rewrite Ef in Hprof.
  assert (∃ st', kept_store s' = Some st' ∧ dict_wf (files st') ∧ (∀ f, f ≠ filename id → dict_get f (files st') = dict_get f (files st)) ∧
            ∃ doc, dict_get (filename id) (files st') = Some (yaml_dump (VDict doc)) ∧ doc_ok doc ∧ get_val "sie_id" doc = VStr id ∧
                   alike (profiles_in full) (profiles_in doc)) as (st' & Hst' & Hwf' & Hkeep & doc & Hdoc & Hok & Hsid & Hal).
  2: { exists st'. apply (synced_write s st s' st' id doc full); try done.
       - eapply recached_coherent; [done|]. by eapply add_coherent.
       - rewrite HB. by apply (add_written _ _ _ _ _ _ Hadd).
       - intros id'. rewrite HF. case_decide as Hd; [by subst|]. by apply Hothers. }
  rewrite (sy_store _ _ Hs) in Hst. destruct Hst as (st' & Hst' & Hor). exists st'. split; [done|].
  destruct Hor as [[-> Hfiles]|(merged & Hm & Hfiles)].
  - rewrite Hfiles. split; [apply Hs|]. split; [done|].
    assert (∀ p, p ∈ dict_keys (profiles_in d') → p ∈ dict_keys (profiles_in (full_config_of (reg s) id))) as Hsub.
    { intros p Hp. destruct (decide (p ∈ dict_keys (profiles_in (full_config_of (reg s) id)))) as [|Hnot]; [done|].
      assert (p ∈ @nil string) as []%elem_of_nil. rewrite Hcr. by apply list_elem_of_filter. }
    destruct (dict_get id (model_full_configs (reg s))) as [old|] eqn:Eold.
    2: { destruct (profiles_in d') as [|[p v] ps] eqn:Eps; [done|]. specialize (Hsub p ltac:(by left)).
         unfold full_config_of in Hsub. rewrite Eold in Hsub. by apply elem_of_nil in Hsub. }
    assert (full_config_of (reg s) id = old) as Eo by (unfold full_config_of; by rewrite Eold). rewrite Eo in *.
    destruct (synced_file _ _ _ _ Hs Hids Eold) as (doc & Hdoc & Hok & Hsid & Hal). exists doc. split_and!; try done.
    intros p. rewrite <- (Hal p), Hprof. destruct (dict_get p (profiles_in old)) eqn:Ep; [done|].
    destruct (dict_get p (profiles_in d')) eqn:Ed; [|done]. exfalso. apply dict_get_None in Ep. apply Ep, Hsub, dict_get_is_Some. eauto.
  - rewrite Hfiles. split; [apply dict_set_wf, Hs|]. split; [intros f Hf; by rewrite dict_get_set, decide_False|].
    exists merged. rewrite dict_get_set, decide_True by done. split; [done|].
    destruct (dict_get (filename id) (files st)) as [t|] eqn:Et.
    + destruct (sy_files _ _ Hs _ _ Et) as (id' & Hf & Hapi' & doc & old & -> & Hok & Hsid & Hold & Hal).
      apply filename_inj in Hf as <-; [|apply Hids|apply Hapi'].
      assert (full_config_of (reg s) id = old) as Eo by (unfold full_config_of; by rewrite Hold). rewrite Eo in *.
      destruct (merged_profiles _ _ _ _ (proj1 Hb') Hm) as (Hmp & Hmw & Hms). split_and!.
      * split; rewrite ?Hmp; [apply Hmw, Hok|by apply dict_update_wf, Hok|]. intros p v. apply update_dicts; [apply Hb'|apply Hok|done].
      * rewrite Hms; [done|]. unfold get_val in Hid. unfold dict_mem. by destruct (dict_get "sie_id" d').
      * rewrite Hmp. by apply (append_alike (profiles_in old)); [apply Hb'|..].
    + cbn in Hm. injection Hm as <-. split_and!; [by apply body_doc_ok|done|]. intros p. rewrite Hprof.
      pose proof (synced_fresh _ _ _ Hs Hids Et) as Hnone. unfold full_config_of. by rewrite Hnone.
Qed.

Lemma replace_synced s s' st q path a :
  synced s st → api_model path → (∀ d, parse_body (body q) = Ret d → body_ok d) → replace_model digest json q path s = (s', a) →
  apart (model_full_configs (reg s')) → ∃ st', synced s' st'.
Proof.
  intros Hs Hapi Hbody H Ha.
  destruct (replace_model_effect digest json q path s s' a H)
    as [Hd|(d & d' & aff & r' & Hparse & _ & Hid & Hv & Hb' & Hrep & Hr & Hst)]; [intros d Hd; by apply Hbody|by eapply synced_drifts|].
  specialize (Hb' (Hbody d Hparse)). destruct (recached_docs _ _ Hr) as [HF HB]. rewrite HF in Ha.
  assert (coherent r') as Hc by (eapply replace_coherent; [apply Hs|done|done|done]).
  destruct (replace_written _ _ _ _ Hrep) as [HB' _].
  destruct (replace_result _ _ _ _ Hb' Hrep) as (id & config' & Hn & Hid' & _ & Hdicts & -> & _).
  assert (config' = d') as ->.
  { unfold validate_structure_locked in Hv. destruct (negb _); [done|]. rewrite Hn in Hv. cbn [res_bind] in Hv. repeat ModelConfig.ok_bind Hv. by injection Hv as ->. }
  rewrite Hid in Hid'. injection Hid' as <-. rewrite (sy_store _ _ Hs) in Hst. destruct Hst as (st' & Hst' & Hfiles).
  exists st'. apply (synced_write s st s' st' path d' (replaced_config d' path)); try done.
  - by eapply recached_coherent.
  - intros id'. rewrite HF. cbn. apply dict_get_set.
  - rewrite Hfiles. apply dict_set_wf, Hs.
  - by rewrite Hfiles, dict_get_set, decide_True.
  - intros f Hf. by rewrite Hfiles, dict_get_set, decide_False.
  - apply body_doc_ok; [done|]. intros p v Hp. by apply (Hdicts p v Hp).
  - by rewrite replaced_profiles.
Qed.

Lemma remove_docs r id r' aff :
  coherent r → remove_model_config r id None = Ret (r', aff) → dict_mem id (models r) = true →
  ∀ id', dict_get id' (model_full_configs r') = if decide (id = id') then None else dict_get id' (model_full_configs r).
Proof.
  intros Hc H Hm id'. unfold remove_model_config in H. rewrite Hm in H. injection H as <- _. proj.
  rewrite (get_others _ id id') by apply (mt_docs_wf r (co_tables r Hc)). repeat case_decide; congruence.
Qed.

Lemma delete_synced s s' st q path a :
  synced s st → api_model path → cancelled q AwaitEpoch = false → delete_model models_dir q path s = (s', a) → ∃ st', synced s' st'.
Proof.
  intros Hs Hapi Hcan H.
  destruct (delete_model_effect models_dir q path s s' a H Hcan) as [Hd|(st0 & st' & r' & aff & Hst & Hm & Hrem & Hr & Hst' & Hfiles)];
    [apply Hapi|by eapply synced_drifts|].
  rewrite (sy_store _ _ Hs) in Hst. injection Hst as <-. pose proof (sy_coherent _ _ Hs) as Hc. destruct (recached_docs _ _ Hr) as [HF HB].
  apply dict_mem_true, dict_get_is_Some in Hm as [t Ht].
  destruct (sy_files _ _ Hs _ _ Ht) as (id & Hid & Hapi' & d & full & _ & _ & _ & Hfull & _).
  apply filename_inj in Hid as <-; [|apply Hapi|apply Hapi'].
  assert (dict_mem path (models (reg s)) = true) as Hmem by (rewrite known_model by done; unfold dict_mem; by rewrite Hfull).
  pose proof (remove_docs _ _ _ _ Hc Hrem Hmem) as Hdocs.
  assert (∀ f, dict_get f (files st') = if decide (filename path = f) then None else dict_get f (files st)) as Hg.
  { intros f. rewrite Hfiles. apply dict_get_del, Hs. }
  exists st'. split; rewrite ?HF, ?HB.
  - eapply recached_coherent; [done|]. by eapply remove_coherent.
  - rewrite <- (sy_bundles _ _ Hs). by apply (remove_written _ _ _ _ _ Hrem).
  - done.
  - rewrite Hfiles. apply dict_del_wf, Hs.
  - intros f u. rewrite Hg. case_decide; [done|]. intros Hu. destruct (sy_files _ _ Hs _ _ Hu) as (id & -> & ? & d' & full' & ? & ? & ? & ? & ?).
    exists id. split_and!; [done|done|]. exists d', full'. rewrite Hdocs, decide_False by congruence. done.
  - intros id. rewrite Hdocs. case_decide; [by intros ?%is_Some_None|]. intros Hi.
    destruct (sy_models _ _ Hs id Hi) as [[Hapi'' Hex]|Hex]; [left|by right]. split; [done|]. rewrite Hg, decide_False; [done|].
    intros E. apply filename_inj in E; [done|apply Hapi|apply Hapi''].
  - intros id c Hbase. rewrite Hdocs. case_decide; [subst; destruct Hapi as [E _]; by rewrite Hbase in E|]. by apply (sy_baked _ _ Hs).
Qed.

(** ** Restart *)

Lemma plain_valid id : plain id → validate_stored_id id = Ret tt.
Proof. intros [H _]. unfold validate_stored_id. by rewrite H. Qed.

Lemma nonempty_doc (d : dict) id : get_val "sie_id" d = VStr id → truthy (VDict d) = true.
Proof. by destruct d. Qed.

(** The documents of the store *)
Lemma load_all_synced io s st :
  synced s st → read_fails io = false →
  ∃ l, load_all_models io st = Ret l ∧ dict_wf l ∧
    ∀ id v, dict_get id l = Some v ↔ ∃ d, v = VDict d ∧ api_model id ∧ dict_get (filename id) (files st) = Some (yaml_dump (VDict d)).
Proof.
  intros Hs Hread.
  assert (∀ ids acc, (∀ id, id ∈ ids → id ∈ stored_models st) → dict_wf acc →
            ∃ l, res_fold (load_one io st) acc ids = Ret l ∧ dict_wf l ∧ ∀ id v, dict_get id l = Some v ↔
              (id ∈ ids ∧ ∃ d, v = VDict d ∧ dict_get (filename id) (files st) = Some (yaml_dump (VDict d))) ∨ id ∉ ids ∧ dict_get id acc = Some v) as Hfold.
  { induction ids as [|i ids IH]; intros acc Hsub Hacc.
    { exists acc. split_and!; [done|done|]. intros id v. split; [intros; right; split; [apply not_elem_of_nil|done]|].
      intros [[H _]|[_ ?]]; [by apply elem_of_nil in H|done]. }
    assert (i ∈ stored_models st) as Hi by (apply Hsub; by left). unfold stored_models, sorted_strings in Hi.
    apply elem_of_stable_sort, list_elem_of_fmap in Hi as (f & Hif & [t Ht]%dict_get_is_Some).
    destruct (sy_files _ _ Hs _ _ Ht) as (i' & -> & Hapi & d & full & -> & Hok & Hsid & _ & _).
    rewrite model_of_filename in Hif by apply Hapi. subst i'.
    assert (load_one io st acc i = Ret (dict_set i (VDict d) acc)) as Hone.
    { unfold load_one, read_model. rewrite (plain_valid i) by apply Hapi. cbn [res_bind]. rewrite Hread, Ht. cbn [res_bind].
      rewrite dump_blank, load_dump, (nonempty_doc d i) by done. done. }
    cbn [res_fold]. rewrite Hone. destruct (IH (dict_set i (VDict d) acc)) as (l & Hl & Hw & Hg);
      [intros; apply Hsub; by right|by apply dict_set_wf|].
    exists l. split_and!; [done|done|]. intros id v. rewrite Hg, dict_get_set. destruct (decide (i = id)) as [->|Hne].
    - destruct (decide (id ∈ ids)) as [Hin|Hin].
      + split; intros [[_ Hx]|[? _]]; try done; [left; split; [by left|done]|left; split; [done|done]|]. exfalso. set_solver.
      + split; intros [[H1 Hx]|[H1 Hx]]; try done.
        * injection Hx as <-. left. split; [by left|]. eauto.
        * right. split; [done|]. destruct Hx as (d' & -> & Hd'). rewrite Ht in Hd'. injection Hd' as E.
          apply (f_equal yaml_load) in E. rewrite !load_dump in E. by injection E as ->.
        * exfalso. apply H1. by left.
    - rewrite elem_of_cons. naive_solver. }
  destruct (Hfold (stored_models st) [] (λ _ H, H) (NoDup_nil_2)) as (l & Hl & Hw & Hg).
  exists l. split_and!; [done|done|]. intros id v. rewrite Hg. split.
  - intros [[Hin (d & -> & Hd)]|[_ ?]]; [|done]. exists d. split_and!; [done| |done].
    destruct (sy_files _ _ Hs _ _ Hd) as (id' & Hid & Hapi & _).
    unfold stored_models, sorted_strings in Hin. apply elem_of_stable_sort, list_elem_of_fmap in Hin as (f & -> & [t Ht]%dict_get_is_Some).
    destruct (sy_files _ _ Hs _ _ Ht) as (i & -> & Hapi2 & _). by rewrite model_of_filename by apply Hapi2.
  - intros (d & -> & Hapi & Hd). left. split; [|eauto]. unfold stored_models, sorted_strings. apply elem_of_stable_sort, list_elem_of_fmap.
    exists (filename id). rewrite model_of_filename by apply Hapi. split; [done|]. apply dict_get_is_Some. eauto.
Qed.

(** What validation asks of a model the registry does not have *)
Lemma validate_fresh r r2 d id :
  coherent r → coherent r2 → bundles r = bundles r2 → dict_wf d → get_val "sie_id" d = VStr id →
  dict_get id (model_full_configs r) = None → dict_get id (model_full_configs r2) = None →
  validate_config_locked r d = validate_config_locked r2 d.
Proof.
  intros Hc Hc2 Hb Hwf Hid Hr Hr2. unfold validate_config_locked. destruct (negb _); [done|].
  destruct (normalize_pool_name d) as [d'|] eqn:En; [|done]. cbn [res_bind]. destruct (profiles_field d') as [ps|]; [|done]. cbn [res_bind].
  destruct (validate_profile_lora_pins ps) as [u|]; [|done]. cbn [res_bind]. destruct (res_iter _ ps) as [u'|]; [|done]. cbn [res_bind].
  unfold string_id. rewrite (normal_id _ _ Hwf En), Hid. cbn [res_bind].
  unfold triage_body, full_config_of. rewrite !known_model by done. unfold dict_mem. by rewrite Hr, Hr2, Hb.
Qed.

(** A registry on the way to a restored one *)
Record restoring (st : @store text) (ids : list string) (r : registry) : Prop := mkRestoring {
  re_coherent : coherent r;
  re_bundles : bundles r = bundles base;
  re_base : ∀ id c, dict_get id (model_full_configs base) = Some c → dict_get id (model_full_configs r) = Some c;
  re_docs : ∀ id c, dict_get id (model_full_configs r) = Some c → dict_get id (model_full_configs base) = Some c ∨
    id ∈ ids ∧ api_model id ∧ ∃ d, dict_get (filename id) (files st) = Some (yaml_dump (VDict d)) ∧ alike (profiles_in c) (profiles_in d);
  re_ids : ∀ id, id ∈ ids → is_Some (dict_get id (model_full_configs r));
}.

Lemma stored_full s st id d c :
  synced s st → api_model id → dict_get (filename id) (files st) = Some (yaml_dump (VDict d)) → alike (profiles_in c) (profiles_in d) →
  ∃ full, dict_get id (model_full_configs (reg s)) = Some full ∧ alike (profiles_in c) (profiles_in full).
Proof.
  intros Hs Hapi Hf Hal. destruct (sy_files _ _ Hs _ _ Hf) as (id' & Hid & Hapi' & d' & full & Hd & _ & _ & Hfull & Hal').
  apply filename_inj in Hid as <-; [|apply Hapi|apply Hapi']. apply (f_equal yaml_load) in Hd. rewrite !load_dump in Hd. injection Hd as <-.
  exists full. split; [done|]. by rewrite Hal, Hal'.
Qed.

Lemma restore_step s st ids r id d :
  synced s st → coherent base → restoring st ids r → id ∉ ids → api_model id →
  dict_get (filename id) (files st) = Some (yaml_dump (VDict d)) → (∃ x, validate_config_locked base d = Ret x) →
  restoring st (id :: ids) (restore_one r (id, VDict d)).
Proof.
  intros Hs Hcb Hr Hnew Hapi Hf [[d' x] Hv]. pose proof (re_coherent _ _ _ Hr) as Hc.
  assert (doc_ok d ∧ get_val "sie_id" d = VStr id) as [Hok Hid].
  { destruct (sy_files _ _ Hs _ _ Hf) as (id' & E & Hapi' & d2 & full & Hd & Hok & Hid & _).
    apply filename_inj in E as <-; [|apply Hapi|apply Hapi']. apply (f_equal yaml_load) in Hd. rewrite !load_dump in Hd. by injection Hd as <-. }
  pose proof (doc_body_ok _ Hok) as Hb.
  assert (dict_get id (model_full_configs r) = None) as Hnone.
  { destruct (dict_get id (model_full_configs r)) as [c|] eqn:E; [|done]. destruct (re_docs _ _ _ Hr _ _ E) as [E'|[? _]]; [|done].
    destruct Hapi as [Hn _]. by rewrite E' in Hn. }
  rewrite <- (validate_fresh r base d id) in Hv; [|done|done|apply Hr|apply Hb|done|done|apply Hapi].
  assert (string_id d' = Ret id) as Hsid.
  { unfold string_id. rewrite (pool_keeps_id _ _ _ _ (proj1 Hb) Hv), Hid. done. }
  destruct (add_validated _ _ _ _ _ Hv Hsid) as (r' & aff & Hadd). unfold restore_one. cbn [snd]. rewrite Hadd.
  destruct (add_docs _ _ _ _ id Hc Hb Hid Hadd) as (full & Hdocs & Hfull).
  destruct (append_documents _ _ _ _ _ _ Hc Hb Hadd) as (id' & body' & Hn & Hid2 & _ & Hprof & _ & _ & _ & _).
  rewrite (normal_id _ _ (proj1 Hb) Hn), Hid in Hid2. injection Hid2 as <-.
  assert (alike (profiles_in full) (profiles_in d)) as Hal.
  { destruct (normalize_pool_body _ _ Hb Hn) as [_ Ep]. rewrite <- Ep. intros p. f_equal.
    unfold full_config_of in Hprof. rewrite Hnone, Hdocs, dict_get_set, decide_True in Hprof by done. apply Hprof. }
  assert (∀ i c, dict_get i (model_full_configs r') = Some c →
            dict_get i (model_full_configs r) = Some c ∨ i = id ∧ c = full) as Hcases.
  { intros i c. rewrite Hdocs, dict_get_set. case_decide; [intros [= <-]; by right|by left]. }
  assert (apart (model_full_configs r')) as Ha.
  { apply (within_apart _ (model_full_configs (reg s))).
    - rewrite Hdocs. apply dict_set_wf, (mt_docs_wf r (co_tables r Hc)).
    - apply (mt_docs_wf _ (co_tables _ (sy_coherent _ _ Hs))).
    - intros i c [Hi|[-> ->]]%Hcases; [by apply (mt_docs r (co_tables r Hc) i c Hi)|apply Hfull].
    - intros i c [Hi|[-> ->]]%Hcases; [|by eapply stored_full].
      destruct (re_docs _ _ _ Hr _ _ Hi) as [Hbase|(_ & Hapi' & e & He & Hale)]; [|by eapply stored_full].
      exists c. split; [by apply (sy_baked _ _ Hs)|done].
    - apply (co_apart _ (sy_coherent _ _ Hs)). }
  split.
  - destruct x as [[cr sk] ?]. by eapply add_coherent.
  - rewrite <- (re_bundles _ _ _ Hr). destruct x as [[cr sk] ?]. by apply (add_written _ _ _ _ _ _ Hadd).
  - intros i c Hi. rewrite Hdocs, dict_get_set. case_decide; [subst; destruct Hapi as [E _]; by rewrite Hi in E|]. by apply (re_base _ _ _ Hr).
  - intros i c [Hi|[-> ->]]%Hcases.
    + destruct (re_docs _ _ _ Hr _ _ Hi) as [Hbase|(Hin & ?)]; [by left|right]. split; [by right|done].
    + right. split; [by left|]. split; [done|]. eauto.
  - intros i [->|Hi]%elem_of_cons; rewrite Hdocs, dict_get_set; [rewrite decide_True by done; eauto|].
    case_decide; [eauto|]. by apply (re_ids _ _ _ Hr).
Qed.

Lemma restore_all s st ids r l :
  synced s st → coherent base → restoring st ids r → dict_wf l → (∀ id, id ∈ dict_keys l → id ∉ ids) →
  (∀ id v, dict_get id l = Some v → ∃ d, v = VDict d ∧ api_model id ∧ dict_get (filename id) (files st) = Some (yaml_dump (VDict d)) ∧
     ∃ x, validate_config_locked base d = Ret x) →
  ∃ ids', restoring st ids' (foldl restore_one r l) ∧ ∀ id, id ∈ ids' ↔ id ∈ ids ∨ id ∈ dict_keys l.
Proof.
  intros Hs Hcb. revert ids r. induction l as [|[id v] l IH]; intros ids r Hr Hwf Hfresh Hl.
  { exists ids. split; [done|]. intros id. split; [by left|]. intros [?|H]; [done|by apply elem_of_nil in H]. }
  unfold dict_wf in Hwf. rewrite dict_keys_cons in Hwf. apply NoDup_cons in Hwf as [Hk Hwf].
  destruct (Hl id v) as (d & -> & Hapi & Hf & Hv); [cbn; by rewrite decide_True|].
  cbn [foldl]. destruct (IH (id :: ids) (restore_one r (id, VDict d))) as (ids' & Hr' & Hids').
  - eapply restore_step; try done. apply Hfresh. rewrite dict_keys_cons. by left.
  - done.
  - intros i Hi [->|Hin]%elem_of_cons; [done|]. apply (Hfresh i); [|done]. rewrite dict_keys_cons. by right.
  - intros i w Hi. apply Hl. cbn. rewrite decide_False; [done|]. intros ->. apply Hk, dict_get_is_Some. eauto.
  - exists ids'. split; [done|]. intros i. rewrite Hids', dict_keys_cons, !elem_of_cons. tauto.
Qed.

(** After a restart the documents are the ones that were served. *)
Lemma restart_docs io s st :
  synced s st → coherent base → read_fails io = false →
  (∀ f d, dict_get f (files st) = Some (yaml_dump (VDict d)) → ∃ x, validate_config_locked base d = Ret x) →
  coherent (reg (restart io base s)) ∧ bundles (reg (restart io base s)) = bundles (reg s) ∧
  docs_alike (model_full_configs (reg (restart io base s))) (model_full_configs (reg s)).
Proof.
  intros Hs Hcb Hread Hvalid. unfold restart. cbn [reg]. rewrite (sy_store _ _ Hs). unfold restored.
  destruct (load_all_synced io s st Hs Hread) as (l & -> & Hwf & Hl).
  destruct (restore_all s st [] base l Hs Hcb) as (ids & Hr & Hids).
  - split; try done; [by left|]. intros id Hid. by apply elem_of_nil in Hid.
  - done.
  - intros id _. apply not_elem_of_nil.
  - intros id v (d & -> & Hapi & Hf)%Hl. exists d. split_and!; try done. by eapply Hvalid.
  - split_and!; [apply Hr|rewrite (sy_bundles _ _ Hs); apply Hr|]. split.
    + intros id c Hc. destruct (re_docs _ _ _ Hr _ _ Hc) as [Hbase|(_ & Hapi & d & Hf & Hal)]; [|by eapply stored_full].
      exists c. split; [by apply (sy_baked _ _ Hs)|done].
    + intros id c Hc. destruct (sy_models _ _ Hs id) as [[Hapi _]|[b Hbase]]; [eauto| |].
      * destruct (synced_file _ _ _ _ Hs Hapi Hc) as (d & Hf & _ & _ & Hal).
        destruct (re_ids _ _ _ Hr id) as [c' Hc'].
        { apply Hids. right. apply dict_get_is_Some. exists (VDict d). apply Hl. eauto. }
        exists c'. split; [done|]. destruct (re_docs _ _ _ Hr _ _ Hc') as [E|(_ & _ & d' & Hf' & Hal')].
        -- destruct Hapi as [E' _]. by rewrite E in E'.
        -- rewrite Hf in Hf'. injection Hf' as E. apply (f_equal yaml_load) in E. rewrite !load_dump in E. injection E as <-. by rewrite Hal, Hal'.
      * exists b. split; [by apply (re_base _ _ _ Hr)|]. rewrite (sy_baked _ _ Hs _ _ Hbase) in Hc. by injection Hc as ->.
Qed.

(** ** Runs of the service *)

Inductive event := EPost (q : @request text) | EPut (q : @request text) (path : string) | EDelete (q : @request text) (path : string).

(** The service after a request; the answer went to the client. *)
Definition serve s (e : event) : @service text :=
  match e with
  | EPost q => (add_model digest q s).1
  | EPut q path => (replace_model digest json q path s).1
  | EDelete q path => (delete_model models_dir q path s).1
  end.

(** A service started over an empty store *)
Definition started (epoch : option (option Z)) : @service text := mkService base (Some (mkStore [] epoch)) [].

(** A request that keeps registry and store together: it is about a model the image does not
    have, under an id with no underscore next to a slash; reading the store works when an
    append merges with it; and a deletion is not cancelled at the read of the epoch, when the
    file is gone.  Bodies have distinct keys.  Anything else may fail or be cancelled. *)
Definition orderly (e : event) : Prop :=
  match e with
  | EPost q => api_request q ∧ read_fails (io q) = false
  | EPut q path => api_model path ∧ ∀ d, parse_body (body q) = Ret d → body_ok d
  | EDelete q path => api_model path ∧ cancelled q AwaitEpoch = false
  end.

Lemma serve_synced s st e :
  coherent base → synced s st → orderly e → apart (model_full_configs (reg (serve s e))) → ∃ st', synced (serve s e) st'.
Proof.
  intros Hcb Hs. destruct e as [q|q path|q path]; cbn [orderly serve]; intros [H1 H2] Ha;
    match goal with |- context [(?m s).1] => destruct (m s) as [s' a] eqn:H end.
  - by eapply add_synced.
  - by eapply replace_synced.
  - by eapply delete_synced.
Qed.

Lemma run_synced epoch es :
  coherent base → Forall orderly es → (∀ k, apart (model_full_configs (reg (foldl serve (started epoch) (take k es))))) →
  ∃ st, synced (foldl serve (started epoch) es) st.
Proof.
  intros Hcb. induction es as [|e es IH] using rev_ind; intros Ho Ha.
  - eexists. split; try done; [apply NoDup_nil_2|]. intros id Hid. by right.
  - apply Forall_app in Ho as [Ho [He _]%Forall_cons]. destruct IH as [st Hs]; [done| |].
    + intros k. destruct (decide (k <= length es)%nat) as [Hk|Hk].
      * specialize (Ha k). by rewrite take_app_le in Ha.
      * specialize (Ha (length es)). rewrite take_app_length in Ha. by rewrite take_ge by lia.
    + rewrite foldl_app. eapply serve_synced; try done. specialize (Ha (length (es ++ [e]))).
      by rewrite firstn_all, foldl_app in Ha.
Qed.
End sync.

(** C8 — What a restart serves.  Take a service started over an empty store on the files of an
    image, and any sequence of POST, PUT and DELETE requests.  A process restarted over the
    same store routes every name as the service did, with the same refusals, although writes
    of documents and epochs, publishes and notifications may fail and requests may be
    cancelled on the way.  It is assumed that
    - every request is about a model the image does not have, under an id with no underscore
      next to a slash, an append can read the store, and no deletion is cancelled between the
      removal of the file and that of the model ([orderly]; [replaced_baked_model_lost],
      [filename_collides], [unreadable_document_overwritten] and [cancelled_deletion_sticks]
      are the other cases);
    - the serving identities of the documents are apart up to case at every moment (otherwise
      [case_variant_hijacks]);
    - the restarted process can read the store, and the image accepts each stored document
      (otherwise [split_pins_accepted]). *)
Theorem restart_serves_alike {text} `{!Yaml text, !YamlLaws text} repr digest json bundle_docs (models_dir : list (string * text))
    epoch es ok :
  let model_docs := (λ f, yaml_load f.2) <$> models_dir in
  let base := reload repr bundle_docs model_docs in
  let after := λ es, foldl (serve digest json models_dir) (started base epoch) es in
  let s := after es in
  Forall tidy model_docs → apart (omap (kept repr) model_docs) → Forall (orderly models_dir base) es →
  (∀ k, apart (model_full_configs (reg (after (take k es))))) → read_fails ok = false →
  (∀ st f d, kept_store s = Some st → dict_get f (files st) = Some (yaml_dump (VDict d)) → ∃ x, validate_config_locked base d = Ret x) →
  ∀ model o, resolve_bundle (reg (restart ok base s)) model o = resolve_bundle (reg s) model o.
Proof.
  intros model_docs base after s Ht Ha Hruns Hap Hread Hvalid model o.
  destruct (reload_coherent repr bundle_docs model_docs Ht Ha) as (Hcb & _ & _). fold base in Hcb.
  destruct (run_synced digest json models_dir base epoch es Hcb Hruns Hap) as [st Hs].
  destruct (restart_docs digest json models_dir base ok s st Hs Hcb Hread) as (Hc & Hb & Hdocs); [intros f d; apply Hvalid, Hs|].
  pose proof (sy_coherent _ _ _ _ Hs) as Hc'. rewrite !resolve_coherent by done. unfold reference_resolve. rewrite Hb.
  by rewrite (reference_alike _ _ (model_full_configs (reg s))) by (done || apply Hc || apply Hc').
Qed.

(** ** A run *)

(** YAML texts as the values they denote *)
#[local] Instance ex_yaml : Yaml pyval := {| yaml_dump v := v; yaml_load v := Some v; blank _ := false |}.
#[local] Instance ex_yaml_laws : YamlLaws pyval.
Proof. by split. Qed.

Definition ex_io : backend := mkBackend false false false false false.
Definition ex_env : auth_env := mkAuth None (Some "admin"%string) [].

(** An authorized request with a connected publisher *)
Definition ex_request (io : backend) (cancelled : await → bool) (d : dict) : @request pyval :=
  mkRequest ex_env (Some "Bearer admin"%string) (VDict d) 200 (Some true) true (λ _ _, true) io cancelled.

Definition never (a : await) : bool := false.

Definition ex_dir : list (string * pyval) := [("org__m.yaml", VDict ex_baked); ("n.yaml", VDict ex_other)]%string.
Definition ex_base : registry := reload ex_repr ex_bundles ((λ f, yaml_load f.2) <$> ex_dir).

Definition ex_new : dict := ex_model "api/x" [("default", ex_profile "sie_server.adapters.a:A")]%string.
Definition ex_more : dict := ex_model "api/x" [("big", ex_profile "sie_server.adapters.b:B")]%string.
Definition ex_second : dict := ex_model "api/y" [("default", ex_profile "sie_server.adapters.c:C")]%string.

(** Two appends to one model, the second with an epoch that cannot be written, a replacement
    that creates another and its removal *)
Definition ex_s0 : @service pyval := mkService ex_base (Some (mkStore [] None)) [].
Definition ex_s1 := (add_model ex_digest (ex_request ex_io never ex_new) ex_s0).1.
Definition ex_q2 := ex_request (mkBackend false false false true false) never ex_more.
Definition ex_s2 := (add_model ex_digest ex_q2 ex_s1).1.
Definition ex_s3 := (replace_model ex_digest ex_digest (ex_request ex_io never ex_second) "api/y" ex_s2).1.
Definition ex_s4 := (delete_model ex_dir (ex_request ex_io never []) "api/y" ex_s3).1.

Definition ex_api (id : string) : Prop := @api_model pyval _ ex_dir ex_base id.

Lemma ex_api_models : ex_api "api/x" ∧ ex_api "api/y".
Proof. split; split_and!; vm_compute; done. Qed.

Lemma ex_api_request io d id :
  ex_api id → doc_okb d = true → get_val "sie_id" d = VStr id → @api_request pyval _ ex_dir ex_base (ex_request io never d).
Proof. intros Hapi Hok Hid d' [= <-]. split; [by apply doc_body_ok, doc_okb_ok|]. intros i. rewrite Hid. by intros [= <-]. Qed.

Definition ex_events : list event :=
  [EPost (ex_request ex_io never ex_new); EPost ex_q2; EPut (ex_request ex_io never ex_second) "api/y";
   EDelete (ex_request ex_io never []) "api/y"].

Lemma ex_orderly : Forall (orderly ex_dir ex_base) ex_events.
Proof.
  destruct ex_api_models as [Hx Hy]. repeat (apply Forall_cons_2); [..|apply Forall_nil_2].
  - split; [by apply (ex_api_request _ _ "api/x")|done].
  - split; [by apply (ex_api_request _ _ "api/x")|done].
  - split; [done|]. intros d [= <-]. by apply doc_body_ok, doc_okb_ok.
  - by split.
Qed.

Lemma ex_apart k :
  apart (model_full_configs (reg (foldl (serve ex_digest ex_digest ex_dir) (started ex_base None) (take k ex_events)))).
Proof. do 4 (destruct k as [|k]; [apply (bool_decide_unpack _); by vm_compute|]). apply (bool_decide_unpack _). destruct k; by vm_compute. Qed.

Lemma ex_events_run : foldl (serve ex_digest ex_digest ex_dir) (started ex_base None) ex_events = ex_s4.
Proof. vm_compute. reflexivity. Qed.

Definition ex_stored : dict :=
  ex_model "api/x" [("default", ex_profile "sie_server.adapters.a:A"); ("big", ex_profile "sie_server.adapters.b:B")]%string.

Lemma ex_files : kept_store ex_s4 = Some (mkStore [("api__x.yaml"%string, VDict ex_stored)] (Some (Some 3))).
Proof. vm_compute. reflexivity. Qed.

Lemma ex_valid : ∃ x, validate_config_locked ex_base ex_stored = Ret x.
Proof.
  assert (match validate_config_locked ex_base ex_stored with Ret _ => true | Raise _ => false end = true) as H by (vm_compute; reflexivity).
  destruct (validate_config_locked ex_base ex_stored); [eauto|done].
Qed.

(** The second append failed after the commit; a restart serves its profile all the same. *)
Lemma restart_serves_alike_witness :
  resolve_bundle (reg (restart ex_io ex_base ex_s4)) "api/X:big" None = Ret "wide"%string ∧
  resolve_bundle (reg (restart ex_io ex_base ex_s4)) "api/y" None = Raise (ModelNotFound "api/y").
Proof.
  assert (∀ model o, resolve_bundle (reg (restart ex_io ex_base ex_s4)) model o = resolve_bundle (reg ex_s4) model o) as H.
  { rewrite <- ex_events_run.
    apply (restart_serves_alike ex_repr ex_digest ex_digest ex_bundles ex_dir None ex_events ex_io).
    - do 2 (apply Forall_cons_2; [intros c [= <-]; by apply doc_okb_ok|]). apply Forall_nil_2.
    - by apply (bool_decide_unpack _); vm_compute.
    - exact ex_orderly.
    - exact ex_apart.
    - reflexivity.
    - intros st f d Hst Hf. fold ex_base in Hst. rewrite ex_events_run, ex_files in Hst. injection Hst as <-. cbn in Hf. case_decide; [|done].
      injection Hf as <-. exact ex_valid. }
  split; (etrans; [apply H|vm_compute; reflexivity]).
Defined.
End ConfigSync.
