(* ===== verification/ConfigFaults.v ===== *)
(** Where the configuration service does not do what it means to: runs of the handlers of
    [ConfigService.v] on small stores, evaluated. *)

From Stdlib Require Import Ascii.
From stdpp Require Import strings.
From S2P Require Import Prelude PyFloat PyDict PyStr Handlers PyVal ModelConfig ConfigProfiles ConfigRegistry ConfigTables.
From S2P Require Import ConfigRouting ConfigStore ConfigService ConfigSync.
Import Handlers PyVal ConfigProfiles ConfigRegistry ConfigTables ConfigRouting ConfigStore ConfigService ConfigSync.
Local Open Scope Z_scope.
Local Open Scope py_scope.

Module ConfigFaults.

#[local] Existing Instance ex_yaml.

Fixpoint ex_json (v : pyval) : string :=
  match v with
  | VStr s => s
  | VDict d => List.fold_right (λ e acc, e.1 +:+ ":" +:+ ex_json e.2 +:+ "," +:+ acc) "}"%string d
  | _ => "?"
  end.

Definition ok (d : dict) : @request pyval := ex_request ex_io never d.
Definition post (q : @request pyval) s := add_model ex_digest q s.
Definition put (q : @request pyval) id s := replace_model ex_digest ex_json q id s.
Definition remove (q : @request pyval) id s := delete_model ex_dir q id s.

Definition stored_profiles_of (s : @service pyval) (file : string) : option (list string) :=
  match kept_store s with
  | Some st => match dict_get file (files st) with Some (VDict d) => Some (dict_keys (profiles_in d)) | _ => None end
  | None => None
  end.

Definition epoch_of (s : @service pyval) : option (option (option Z)) := epoch_file <$> kept_store s.

(** A PUT over a model of the image is persisted, and lost at the next restart: the restore
    appends, the append conflicts with the baked profile, and the document is skipped. *)
Lemma replaced_baked_model_lost :
  let '(s, a) := put (ok ex_put) "org/m" ex_s0 in
  a = Ret (Replaced true ["narrow"; "wide"]%string Published) ∧
  stored_profiles_of s "org__m.yaml" = Some ["default"%string] ∧
  resolve_bundle (reg s) "org/m" None = Ret "wide"%string ∧
  resolve_bundle (reg (restart ex_io ex_base s)) "org/m" None = Ret "narrow"%string.
Proof. vm_compute. repeat split. Qed.

(** An append to a model of the image stores the body alone, and after it a replay of a baked
    profile, which the service accepted before, is refused. *)
Lemma replay_of_baked_profile_refused :
  let more := ex_model "org/m" [("big", ex_profile "sie_server.adapters.b:B")]%string in
  let fast := ex_model "org/m" [("fast", ex_child "default")]%string in
  let s := (post (ok more) ex_s0).1 in
  (post (ok fast) ex_s0).2 = Ret (Added 200 [] ["fast"%string] Published []) ∧
  stored_profiles_of s "org__m.yaml" = Some ["big"%string] ∧
  (post (ok fast) s).2 = Raise (ConflictingProfiles "org/m" ["fast"%string]).
Proof. vm_compute. repeat split. Qed.

(** A read of the store that fails is taken for an absent file: the append overwrites the
    document with its own body, and the other profiles are gone after a restart. *)
Lemma unreadable_document_overwritten :
  let '(s, a) := post (ex_request (mkBackend true false false false false) never ex_more) ex_s1 in
  a = Ret (Added 201 ["big"%string] [] Published [("big", ["wide"])]%string) ∧
  stored_profiles_of ex_s1 "api__x.yaml" = Some ["default"%string] ∧
  stored_profiles_of s "api__x.yaml" = Some ["big"%string] ∧
  resolve_bundle (reg s) "api/x" None = Ret "narrow"%string ∧
  resolve_bundle (reg (restart ex_io ex_base s)) "api/x" None = Raise (ModelNotFound "api/x").
Proof. vm_compute. repeat split. Qed.

Definition at_epoch (a : await) : bool := match a with AwaitEpoch => true | _ => false end.

(** A DELETE that is cancelled while it reads the epoch has removed the file and nothing else,
    and the retry finds nothing to delete: the model stays until a restart. *)
Lemma cancelled_deletion_sticks :
  let '(s, a) := remove (ex_request ex_io at_epoch []) "api/x" ex_s1 in
  let '(s', a') := remove (ok []) "api/x" s in
  a = Raise CancelledError ∧ stored_profiles_of s "api__x.yaml" = None ∧
  a' = Ret (Deleted false false [] 1) ∧ epoch_of s' = epoch_of ex_s1 ∧
  resolve_bundle (reg s') "api/x" None = Ret "narrow"%string ∧
  resolve_bundle (reg (restart ex_io ex_base s')) "api/x" None = Raise (ModelNotFound "api/x").
Proof. vm_compute. repeat split. Qed.

(** An epoch that cannot be read counts as 0: the next write sets it back to 1 and publishes
    under an epoch the gateways have seen. *)
Lemma epoch_goes_back :
  let s := (put (ex_request (mkBackend false true false false false) never ex_second) "api/y" ex_s4).1 in
  epoch_of ex_s4 = Some (Some (Some 3)) ∧ epoch_of s = Some (Some (Some 1)) ∧
  (λ m, m_epoch m.2) <$> wire s = [1; 1; 1; 1; 2; 2; 1; 1].
Proof. vm_compute. repeat split. Qed.

(** A replay of known profiles with a new top-level field changes the registry, and with it
    the hash of the bundle, but neither the store nor the epoch, and nothing is published. *)
Lemma replay_changes_fields_silently :
  let '(s, a) := post (ok (ex_new ++ [("hf_revision", VStr "abc")]%string)) ex_s1 in
  a = Ret (Added 200 [] ["default"%string] Published []) ∧
  get_val "hf_revision" (full_config_of (reg ex_s1) "api/x") = VNone ∧
  get_val "hf_revision" (full_config_of (reg s) "api/x") = VStr "abc" ∧
  kept_store s = kept_store ex_s1 ∧ wire s = wire ex_s1.
Proof. vm_compute. repeat split. Qed.

(** When the epoch cannot be written the append has already happened; the retry sees no new
    profile, so the epoch is not bumped and no gateway is told. *)
Lemma retry_after_epoch_failure_is_silent :
  let '(s, a) := post (ok ex_more) ex_s2 in
  (post ex_q2 ex_s1).2 = Raise (StoreFailed BackendFailed) ∧
  stored_profiles_of ex_s2 "api__x.yaml" = Some ["default"; "big"]%string ∧
  a = Ret (Added 200 [] ["big"%string] Published []) ∧ epoch_of s = epoch_of ex_s1 ∧ wire s = wire ex_s1.
Proof. vm_compute. repeat split. Qed.

(** The pattern of model ids ends in [$], which matches before a final newline. *)
Lemma newline_id_accepted : validate_model_id (VStr ("m" +:+ String newline "")) = Ret ("m" +:+ String newline "").
Proof. reflexivity. Qed.

(** A [SIE_AUTH_TOKEN] that is set but empty counts as configured for reads and as absent for
    writes: anybody may write, nobody may read. *)
Lemma empty_token_opens_writes header :
  let e := mkAuth (Some ""%string) None [] in
  check_write_auth e header = Ret tt ∧ check_read_auth e header ≠ Ret tt.
Proof.
  split; [done|]. cbn. case_bool_decide as Hb; [done|]. unfold compare_digest. destruct (_ && _); [|done].
  cbn. by rewrite bool_decide_eq_false_2.
Qed.
End ConfigFaults.
