(* ===== verification/Idempotency.v ===== *)
(** [Idempotency-Key] on the writes of the configuration service: [_IdempotencyState],
    [_IdempotencyInFlight] and [_idempotency_claim] of [config_api.py], and how [add_model],
    [replace_model] and [delete_model] settle a claim.

    Requests interleave at their awaits.  A request arrives and its checks run; it claims its
    key under the cache's lock, or waits for the request that owns the key, or is answered; an
    owner runs the body of its handler under the write lock and settles the claim under the
    cache's lock.  Each of these is one label of [step], so a list of labels is an
    interleaving.  The markers of requests in flight are shared objects: they live in a heap,
    [markers], and are compared by address, as [is] does. *)

From Stdlib Require Import Ascii.
From stdpp Require Import strings.
From S2P Require Import Prelude PyFloat PyDict PyStr Handlers PyVal ModelConfig ConfigProfiles ConfigRegistry ConfigStore ConfigService.
From S2P Require Import ConfigRouting ConfigSync.
Import Handlers PyVal ConfigProfiles ConfigRegistry ConfigStore ConfigService.
Local Open Scope Z_scope.
Local Open Scope py_scope.

Module Idempotency.

(** ** The cache *)

Definition MAX_IDEMPOTENCY_CACHE_SIZE : nat := 1000%nat.

(** Status and body of a response *)
Definition response : Type := Z * string.

(** [_IdempotencyInFlight] *)
Record marker := mkMarker {
  event : bool;                      (* set *)
  exception : option http_error;
  payload_hash : string;
  succeeded : bool;
}.

(** [_IdempotencyState] *)
Record idem_state := mkIdem {
  cache : list (string * (response * string));    (* an [OrderedDict] *)
  in_flight : list (string * nat);
  markers : list marker;
}.

(** [while len(cache) > n: cache.popitem(last=False)] *)
Fixpoint evict {V} (n : nat) (d : list (string * V)) : list (string * V) :=
  match d with
  | [] => []
  | _ :: d' => if bool_decide (n < length d)%nat then evict n d' else d
  end.

(** ** Claims *)

Inductive claim_error :=
  | InflightCancelled       (* 503 *)
  | InflightAborted         (* 503 *)
  | Mismatch                (* 422 *)
  | Prior (e : http_error). (* what the owner raised *)

Inductive claim_result :=
  | Replay (r : response)
  | Evicted                 (* 200, without the body *)
  | Own (m : nat)
  | Wait (m : nat)
  | Refuse (e : claim_error).

(** What a waiter finds in the marker *)
Definition waited_error (st : idem_state) (waited : option nat) : option claim_error :=
  match waited ≫= λ m, markers st !! m with
  | Some k =>
      match exception k with
      | Some CancelledError => Some InflightCancelled
      | Some e => Some (Prior e)
      | None => if succeeded k then None else Some InflightAborted
      end
  | None => None
  end.

(** One turn of the loop of [_idempotency_claim], up to its await *)
Definition claim (st : idem_state) (key body_hash : string) (waited : option nat) : idem_state * claim_result :=
  match waited_error st waited with
  | Some e => (st, Refuse e)
  | None =>
      match dict_get key (cache st) with
      | Some (cached, cached_payload_hash) =>
          (st, if bool_decide (body_hash = cached_payload_hash) then Replay cached else Refuse Mismatch)
      | None =>
          match waited with
          | Some _ => (st, Evicted)
          | None =>
              match dict_get key (in_flight st) with
              | None =>
                  let owner := length (markers st) in
                  (mkIdem (cache st) (dict_set key owner (in_flight st)) (markers st ++ [mkMarker false None body_hash false]), Own owner)
              | Some m =>
                  (st, if bool_decide (body_hash = default "" (payload_hash <$> markers st !! m)) then Wait m else Refuse Mismatch)
              end
          end
      end
  end.

(** The key is given up if it is still the owner's. *)
Definition release (key : string) (m : nat) (fs : list (string * nat)) : list (string * nat) :=
  if bool_decide (dict_get key fs = Some m) then dict_del key fs else fs.

(** A success is cached, the marker resolved and the waiters woken. *)
Definition finalize (st : idem_state) (key body_hash : string) (m : nat) (r : response) : idem_state :=
  mkIdem (evict MAX_IDEMPOTENCY_CACHE_SIZE (dict_move_to_end key (dict_set key (r, body_hash) (cache st))))
    (release key m (in_flight st))
    (alter (λ k, mkMarker true (exception k) (payload_hash k) true) m (markers st)).

(** An error is left in the marker for the waiters. *)
Definition fail_claim (st : idem_state) (key : string) (m : nat) (e : http_error) : idem_state :=
  mkIdem (cache st) (release key m (in_flight st))
    (alter (λ k, mkMarker true (Some e) (payload_hash k) (succeeded k)) m (markers st)).

(** [rebind_to_current_loop] *)
Definition rebind_to_current_loop (st : idem_state) : idem_state := mkIdem (cache st) [] (markers st).

Section idempotency.
Context {text : Type} `{!Yaml text}.
Context (digest json : pyval → string) (models_dir : list (string * text)).
(** [hashlib.sha256], the bytes of a body, and the response a handler builds *)
Context (sha256 : string → string) (bytes : text → string) (render : @request text → answer → response).

(** ** Writes *)

Inductive write :=
  | Post (q : @request text)
  | Put (q : @request text) (path : string)
  | Delete (q : @request text) (path : string).

Definition nul : string := String "000"%char EmptyString.

(** The fingerprint covers the method and the path. *)
Definition body_hash (w : write) : string :=
  match w with
  | Post q => sha256 (bytes (body q))
  | Put q path => sha256 ("PUT" +:+ nul +:+ path +:+ nul +:+ bytes (body q))
  | Delete q path => sha256 ("DELETE" +:+ nul +:+ path)
  end.

Definition request_of (w : write) : @request text :=
  match w with Post q | Put q _ | Delete q _ => q end.

Definition open_write (w : write) (s : @service text) : res http_error unit :=
  match w with
  | Post q => open_add q
  | Put q path => open_replace q path
  | Delete q path => open_delete q path (kept_store s)
  end.

Definition commit_write (w : write) : @M text answer :=
  match w with
  | Post q => commit_add digest q
  | Put q path => commit_replace digest json q path
  | Delete q path => commit_delete models_dir q path
  end.

(** ** Interleavings *)

Inductive finish :=
  | Served (r : response)
  | Replayed (r : response)
  | ReplayEvicted
  | Refused (e : claim_error)
  | Failed (e : http_error)
  | CancelledWaiting
  | CancelledCommitted (r : response).    (* the deferred cancellation of [_await_committed] *)

Inductive phase :=
  | Claiming (waited : option nat)
  | Waiting (m : nat)
  | Owning (m : nat)
  | Executed (m : nat) (outcome : res http_error answer)
  | Finished (f : finish).

(** A request that carries a key *)
Record task := mkTask {
  t_key : string;
  t_write : write;
  t_phase : phase;
}.

(** The program, and what has happened: the writes that ran, and those whose claim is settled *)
Record world := mkWorld {
  idem : idem_state;
  svc : @service text;
  tasks : list task;
  executed : list (option string * write * res http_error answer);
  completed : list (string * (response * string));
}.

Definition start (s : @service text) : world := mkWorld (mkIdem [] [] []) s [] [] [].

Inductive label :=
  | Arrive (key : option string) (w : write)
  | Claim (i : nat)
  | Wake (i : nat)
  | Execute (i : nat)
  | Settle (i : nat) (deferred : bool)
  | Cancel (i : nat)
  | NewLoop.

Definition set_phase (t : task) (p : phase) : task := mkTask (t_key t) (t_write t) p.

Definition after_claim (r : claim_result) : phase :=
  match r with
  | Replay r => Finished (Replayed r)
  | Evicted => Finished ReplayEvicted
  | Own m => Owning m
  | Wait m => Waiting m
  | Refuse e => Finished (Refused e)
  end.

Definition finished (t : task) : bool := match t_phase t with Finished _ => true | _ => false end.

(** One step of one request; [None] when the request is not at that point *)
Definition step (x : world) (l : label) : option world :=
  match l with
  | Arrive key w =>
      match open_write w (svc x) with
      | Raise _ => Some x
      | Ret _ =>
          match nonempty_str key with
          | Some k => Some (mkWorld (idem x) (svc x) (tasks x ++ [mkTask k w (Claiming None)]) (executed x) (completed x))
          | None =>
              let '(s, a) := commit_write w (svc x) in
              Some (mkWorld (idem x) s (tasks x) (executed x ++ [(None, w, a)]) (completed x))
          end
      end
  | Claim i =>
      t ← tasks x !! i;
      match t_phase t with
      | Claiming waited =>
          let '(st, r) := claim (idem x) (t_key t) (body_hash (t_write t)) waited in
          Some (mkWorld st (svc x) (<[i := set_phase t (after_claim r)]> (tasks x)) (executed x) (completed x))
      | _ => None
      end
  | Wake i =>
      t ← tasks x !! i;
      match t_phase t with
      | Waiting m =>
          k ← markers (idem x) !! m;
          if event k then Some (mkWorld (idem x) (svc x) (<[i := set_phase t (Claiming (Some m))]> (tasks x)) (executed x) (completed x))
          else None
      | _ => None
      end
  | Execute i =>
      t ← tasks x !! i;
      match t_phase t with
      | Owning m =>
          let '(s, a) := commit_write (t_write t) (svc x) in
          Some (mkWorld (idem x) s (<[i := set_phase t (Executed m a)]> (tasks x)) (executed x ++ [(Some (t_key t), t_write t, a)]) (completed x))
      | _ => None
      end
  | Settle i deferred =>
      t ← tasks x !! i;
      match t_phase t with
      | Executed m (Ret a) =>
          let r := render (request_of (t_write t)) a in
          let h := body_hash (t_write t) in
          Some (mkWorld (finalize (idem x) (t_key t) h m r) (svc x)
                  (<[i := set_phase t (Finished (if deferred : bool then CancelledCommitted r else Served r))]> (tasks x))
                  (executed x) (completed x ++ [(t_key t, (r, h))]))
      | Executed m (Raise e) =>
          Some (mkWorld (fail_claim (idem x) (t_key t) m e) (svc x) (<[i := set_phase t (Finished (Failed e))]> (tasks x))
                  (executed x) (completed x))
      | _ => None
      end
  | Cancel i =>
      t ← tasks x !! i;
      match t_phase t with
      | Claiming _ | Waiting _ =>
          Some (mkWorld (idem x) (svc x) (<[i := set_phase t (Finished CancelledWaiting)]> (tasks x)) (executed x) (completed x))
      | _ => None
      end
  | NewLoop =>
      if forallb finished (tasks x) then
        Some (mkWorld (rebind_to_current_loop (idem x)) (svc x) (tasks x) (executed x) (completed x))
      else None
  end.

Definition steps (x : world) (ls : list label) : option world := foldl (λ acc l, y ← acc; step y l) (Some x) ls.
End idempotency.

(** ** The cache holds the last completions *)

Lemma evict_drop {V} n (d : list (string * V)) : evict n d = drop (length d - n) d.
Proof.
  induction d as [|e d IH]; [by rewrite drop_nil|]. cbn [evict]. case_bool_decide as H; cbn [length] in *.
  - rewrite IH. by replace (S (length d) - n)%nat with (S (length d - n)) by lia.
  - by replace (S (length d) - n)%nat with 0%nat by lia.
Qed.

Definition latest {V} (n : nat) (l : list V) : list V := drop (length l - n) l.

(** A completion under a key that is not cached is the youngest entry. *)
Lemma cache_completion {V} n (l : list (string * V)) k v :
  dict_wf (latest n l) → k ∉ dict_keys (latest n l) →
  evict n (dict_move_to_end k (dict_set k v (latest n l))) = latest n (l ++ [(k, v)]).
Proof.
  intros Hwf Hk. rewrite dict_set_move_entries, dict_del_absent by done. rewrite evict_drop. unfold latest.
  rewrite !length_app, length_drop, !drop_app, drop_drop, length_drop. cbn [length]. f_equal; f_equal; lia.
Qed.

Lemma latest_keys {V} n (l : list (string * V)) k v :
  dict_wf (latest n l) → k ∉ dict_keys (latest n l) → dict_wf (latest n (l ++ [(k, v)])).
Proof.
  intros Hwf Hk. rewrite <- cache_completion, evict_drop by done. rewrite dict_set_move_entries, dict_del_absent by done.
  unfold dict_wf, dict_keys in *. rewrite fmap_drop. apply (sublist_NoDup _ ((latest n l ++ [(k, v)]).*1)); [|apply sublist_drop].
  rewrite fmap_app. apply NoDup_app. split_and!; [done| |apply NoDup_singleton]. intros x Hx ->%list_elem_of_singleton. done.
Qed.

Lemma latest_sub {V} n (l : list V) x : x ∈ latest n l → x ∈ l.
Proof. unfold latest. intros H. rewrite <- (take_drop (length l - n) l). apply elem_of_app. by right. Qed.

Section invariant.
Context {text : Type} `{!Yaml text} (digest json : pyval → string) (models_dir : list (string * text)).
Context (sha256 : string → string) (bytes : text → string) (render : @request text → answer → response) (s0 : @service text).
Local Notation world := (@world text).
Local Notation hash w := (body_hash sha256 bytes w).
Local Notation respond w a := (render (request_of w) a).
Local Notation step := (step digest json models_dir sha256 bytes render).
Local Notation steps := (steps digest json models_dir sha256 bytes render).
Implicit Types (x : world) (t u : @task text) (w : @write text).

(** The task owns the key with marker [m]. *)
Definition holds t (m : nat) : Prop :=
  match t_phase t with Owning m' | Executed m' _ => m' = m | _ => False end.

(** The key of the task is in flight with marker [m], for the same payload. *)
Definition pending_on x t (m : nat) : Prop :=
  dict_get (t_key t) (in_flight (idem x)) = Some m ∧ markers (idem x) !! m = Some (mkMarker false None (hash (t_write t)) false).

(** A write with the key and payload of the task ran. *)
Definition ran x t (P : res http_error answer → @write text → Prop) : Prop :=
  ∃ w a, hash w = hash (t_write t) ∧ (Some (t_key t), w, a) ∈ executed x ∧ P a w.

(** The marker [m] tells what a write with the key and payload of the task did. *)
Definition resolved x t (m : nat) : Prop :=
  ran x t (λ a _, markers (idem x) !! m =
    Some (match a with
          | Ret _ => mkMarker true None (hash (t_write t)) true
          | Raise e => mkMarker true (Some e) (hash (t_write t)) false
          end)).

(** What the end of a request tells its client is so. *)
Definition sound x t (f : finish) : Prop :=
  match f with
  | Served r | CancelledCommitted r => ∃ a, (Some (t_key t), t_write t, Ret a) ∈ executed x ∧ r = respond (t_write t) a
  | Replayed r => ran x t (λ a w, ∃ b, a = Ret b ∧ r = respond w b)
  | ReplayEvicted => ran x t (λ a w, ∃ b, a = Ret b)
  | Refused InflightCancelled => ran x t (λ a w, a = Raise CancelledError)
  | Refused InflightAborted => False
  | Refused Mismatch => ∃ u, u ∈ tasks x ∧ t_key u = t_key t ∧ hash (t_write u) ≠ hash (t_write t)
  | Refused (Prior e) => ran x t (λ a w, a = Raise e)
  | Failed e => (Some (t_key t), t_write t, Raise e) ∈ executed x
  | CancelledWaiting => True
  end.

Definition task_ok x t : Prop :=
  match t_phase t with
  | Claiming None => True
  | Claiming (Some m) => resolved x t m
  | Waiting m => pending_on x t m ∨ resolved x t m
  | Owning m => pending_on x t m
  | Executed m a => pending_on x t m ∧ (Some (t_key t), t_write t, a) ∈ executed x
  | Finished f => sound x t f
  end.

(** The keys of the writes that succeeded, and of those not yet in the cache *)
Definition success (e : option string * @write text * res http_error answer) : option string :=
  match e with (Some k, _, Ret _) => Some k | _ => None end.
Definition unsettled t : option string := match t_phase t with Executed _ (Ret _) => Some (t_key t) | _ => None end.

Definition rerun (s : @service text) (e : option string * @write text * res http_error answer) : @service text :=
  (commit_write digest json models_dir e.1.2 s).1.

Record good x : Prop := mkGood {
  g_svc : svc x = foldl rerun s0 (executed x);
  g_cache : cache (idem x) = latest MAX_IDEMPOTENCY_CACHE_SIZE (completed x);
  g_cached : dict_wf (cache (idem x));
  g_flight_wf : dict_wf (in_flight (idem x));
  g_flight : ∀ k m, dict_get k (in_flight (idem x)) = Some m →
    (m < length (markers (idem x)))%nat ∧ k ∉ dict_keys (cache (idem x)) ∧ ∃ i t, tasks x !! i = Some t ∧ t_key t = k ∧ holds t m;
  g_inj : ∀ k k' m, dict_get k (in_flight (idem x)) = Some m → dict_get k' (in_flight (idem x)) = Some m → k = k';
  g_one : ∀ i j t u m n, tasks x !! i = Some t → tasks x !! j = Some u → holds t m → holds u n → t_key t = t_key u → i = j;
  g_tasks : ∀ i t, tasks x !! i = Some t → task_ok x t;
  g_completed : ∀ k r h, (k, (r, h)) ∈ completed x → ∃ w a, h = hash w ∧ (Some k, w, Ret a) ∈ executed x ∧ r = respond w a;
  g_executed : ∀ k w a, (Some k, w, a) ∈ executed x → ∃ u, u ∈ tasks x ∧ t_key u = k ∧ t_write u = w;
  g_success : omap success (executed x) ≡ₚ (completed x).*1 ++ omap unsettled (tasks x);
  g_window : ∀ i j e f, completed x !! i = Some e → completed x !! j = Some f → (i < j)%nat → e.1 = f.1 →
    (i + MAX_IDEMPOTENCY_CACHE_SIZE < j)%nat;
}.

Lemma start_good : good (start s0).
Proof.
  split; try done.
  - apply NoDup_nil_2.
  - apply NoDup_nil_2.
  - intros k r h H. by apply elem_of_nil in H.
  - intros k w a H. by apply elem_of_nil in H.
Qed.

(** What later steps keep of the facts about a task *)
Record extends x x' : Prop := mkExtends {
  ex_executed : ∀ e, e ∈ executed x → e ∈ executed x';
  ex_tasks : ∀ u, u ∈ tasks x → ∃ u', u' ∈ tasks x' ∧ t_key u' = t_key u ∧ t_write u' = t_write u;
  ex_markers : ∀ m k, markers (idem x) !! m = Some k → event k = true → markers (idem x') !! m = Some k;
}.

Lemma ran_extends x x' t P Q : extends x x' → ran x t P → (∀ a w, P a w → Q a w) → ran x' t Q.
Proof. intros He (w & a & Hh & Hin & HP) HPQ. exists w, a. split_and!; [done|by apply He|auto]. Qed.

Lemma resolved_extends x x' t m : extends x x' → resolved x t m → resolved x' t m.
Proof.
  intros He H. eapply ran_extends; [done|exact H|]. intros a w Hm. cbn in Hm |- *. by apply (ex_markers _ _ He); [|destruct a].
Qed.

Lemma sound_extends x x' t f : extends x x' → sound x t f → sound x' t f.
Proof.
  intros He. destruct f as [r|r| |[| | |e]|e| |r]; cbn; try done.
  - intros (a & H & ->). exists a. split; [by apply He|done].
  - intros H. by eapply ran_extends.
  - intros H. by eapply ran_extends.
  - intros H. by eapply ran_extends.
  - intros (u & Hu & Hk & Hh). destruct (ex_tasks _ _ He u Hu) as (u' & Hu' & Hk' & Hw'). exists u'. by rewrite Hk', Hw'.
  - intros H. by eapply ran_extends.
  - apply He.
  - intros (a & H & ->). exists a. split; [by apply He|done].
Qed.

(** A task that does not move stays right. *)
Lemma task_extends x x' t :
  extends x x' → (∀ m, pending_on x t m → pending_on x' t m ∨ resolved x' t m ∧ ¬ holds t m) → task_ok x t → task_ok x' t.
Proof.
  intros He Hp. unfold task_ok, holds in *. destruct (t_phase t) as [[m|]|m|m|m a|f]; [by apply resolved_extends|done| | | |by apply sound_extends].
  - intros [H|H]; [destruct (Hp m H) as [?|[? _]]; auto|right; by eapply resolved_extends].
  - intros H. by destruct (Hp m H) as [?|[_ []]].
  - intros [H Hin]. destruct (Hp m H) as [?|[_ []]]; [|done]. split; [done|by apply He].
Qed.

(** ** Steps keep the invariant *)

Lemma lookup_moved x i t t' j u :
  tasks x !! i = Some t → <[i := t']> (tasks x) !! j = Some u → j = i ∧ u = t' ∨ j ≠ i ∧ tasks x !! j = Some u.
Proof. intros Hi. rewrite list_lookup_insert_Some. intros [(<- & <- & _)|[Hne Hj]]; [by left|by right]. Qed.

Lemma moved_in x i t t' u :
  tasks x !! i = Some t → t_key t' = t_key t → t_write t' = t_write t → u ∈ tasks x →
  ∃ u', u' ∈ <[i := t']> (tasks x) ∧ t_key u' = t_key u ∧ t_write u' = t_write u.
Proof.
  intros Hi Hk Hw [j Hj]%list_elem_of_lookup. destruct (decide (i = j)) as [<-|Hne].
  - rewrite Hi in Hj. injection Hj as <-. exists t'. split; [|done]. apply (list_elem_of_lookup_2 _ i), list_lookup_insert_eq. by eapply lookup_lt_Some.
  - exists u. split; [|done]. apply (list_elem_of_lookup_2 _ j). by rewrite list_lookup_insert_ne.
Qed.

Definition one_or_none (o : option string) : list string := match o with Some k => [k] | None => [] end.

Lemma unsettled_moved (l : list (@task text)) i t t' :
  l !! i = Some t → one_or_none (unsettled t') ++ omap unsettled l ≡ₚ one_or_none (unsettled t) ++ omap unsettled (<[i := t']> l).
Proof.
  revert i. induction l as [|y l IH]; intros [|i] Hi; [done|done| |].
  - injection Hi as ->. cbn. destruct (unsettled t), (unsettled t'); cbn; try done. apply perm_swap.
  - specialize (IH i Hi). cbn. destruct (unsettled y) as [k|]; [|done]. by rewrite <- !Permutation_middle, IH.
Qed.

(** A request that is not an owner moves on its own. *)
Lemma quiet_move x i t p :
  good x → tasks x !! i = Some t → (∀ m, ¬ holds t m) → (∀ m, ¬ holds (set_phase t p) m) → task_ok x (set_phase t p) →
  good (mkWorld (idem x) (svc x) (<[i := set_phase t p]> (tasks x)) (executed x) (completed x)).
Proof.
  intros [Hs Hc Hcw Hfw Hf Hinj Hone Ht Hcomp Hex Hsucc Hwin] Hi Hno Hno' Hok.
  set (x' := mkWorld _ _ _ _ _). assert (extends x x') as He by (split; [done|intros u Hu; by apply (moved_in x i t)|done]).
  split; cbn; try done.
  - intros k m Hk. destruct (Hf k m Hk) as (Hm & Hkc & j & u & Hj & Hku & Hu). split_and!; [done|done|]. exists j, u. split; [|done].
    rewrite list_lookup_insert_ne; [done|]. intros <-. rewrite Hi in Hj. injection Hj as <-. by destruct (Hno m).
  - intros j k u v m n Hj Hk Hu Hv. apply (lookup_moved _ _ t) in Hj as [[-> ->]|[_ Hj]]; [by destruct (Hno' m)| |done].
    apply (lookup_moved _ _ t) in Hk as [[-> ->]|[_ Hk]]; [by destruct (Hno' n)| |done]. eauto.
  - intros j u Hj. apply (task_extends x x'); [done|by left|].
    by apply (lookup_moved _ _ t) in Hj as [[-> ->]|[_ Hj]]; [| |]; eauto.
  - intros k w a Hin. destruct (Hex k w a Hin) as (u & Hu & <- & <-). by apply (moved_in x i t).
  - rewrite Hsucc. f_equiv. pose proof (unsettled_moved (tasks x) i t (set_phase t p) Hi) as Hp.
    assert (∀ u, (∀ m, ¬ holds u m) → unsettled u = None) as Hn.
    { intros u Hu. unfold unsettled. unfold holds in Hu. destruct (t_phase u) as [| | |m a|]; try done. by destruct (Hu m). }
    by rewrite !Hn in Hp by done.
Qed.

Lemma waited_ok x t m :
  resolved x t m →
  match waited_error (idem x) (Some m) with
  | Some e => sound x t (Refused e)
  | None => sound x t ReplayEvicted
  end.
Proof.
  intros (w & a & Hh & Hin & Hm). unfold waited_error. cbn in *. rewrite Hm. destruct a as [b|e]; cbn; [by exists w, (Ret b); eauto|].
  destruct e; by eexists w, _.
Qed.

(** What the cache answers is so. *)
Lemma cached_ok x t r h :
  good x → dict_get (t_key t) (cache (idem x)) = Some (r, h) →
  sound x t (if bool_decide (hash (t_write t) = h) then Replayed r else Refused Mismatch).
Proof.
  intros Hg Hc%dict_get_Some_elem. rewrite (g_cache x Hg) in Hc. apply latest_sub in Hc.
  destruct (g_completed x Hg _ _ _ Hc) as (w & a & -> & Hin & ->). case_bool_decide as Hh.
  - exists w, (Ret a). eauto.
  - destruct (g_executed x Hg _ _ _ Hin) as (u & Hu & Hk & Hw). exists u. by rewrite Hw.
Qed.

(** A free key gets an owner. *)
Lemma own_good x i t :
  good x → tasks x !! i = Some t → t_phase t = Claiming None →
  dict_get (t_key t) (cache (idem x)) = None → dict_get (t_key t) (in_flight (idem x)) = None →
  let m := length (markers (idem x)) in
  good (mkWorld (mkIdem (cache (idem x)) (dict_set (t_key t) m (in_flight (idem x)))
                   (markers (idem x) ++ [mkMarker false None (hash (t_write t)) false]))
          (svc x) (<[i := set_phase t (Owning m)]> (tasks x)) (executed x) (completed x)).
Proof.
  intros [Hs Hc Hcw Hfw Hf Hinj Hone Ht Hcomp Hex Hsucc Hwin] Hi Hph Hkc Hkf m. set (x' := mkWorld _ _ _ _ _).
  assert (extends x x') as He.
  { split; [done|intros u Hu; by apply (moved_in x i t)|]. intros n k Hn _. cbn. by apply lookup_app_l_Some. }
  assert (∀ u n, holds u n → tasks x !! i ≠ Some u) as Hni.
  { intros u n Hu Hu'. rewrite Hi in Hu'. injection Hu' as <-. unfold holds in Hu. by rewrite Hph in Hu. }
  assert (∀ j u n, tasks x !! j = Some u → holds u n → t_key u ≠ t_key t) as Hfree.
  { intros j u n Hj Hu E. specialize (Ht j u Hj). unfold task_ok, holds, pending_on in *.
    destruct (t_phase u) as [| |n'|n' a|]; try done; rewrite E, Hkf in Ht; naive_solver. }
  split; cbn; try done.
  - by apply dict_set_wf.
  - intros k n. rewrite dict_get_set, length_app. cbn. case_decide as Hk; intros Hn.
    + injection Hn as <-. split_and!; [lia|subst; by apply dict_get_None|]. exists i, (set_phase t (Owning m)). split; [|by subst].
      apply list_lookup_insert_eq. by eapply lookup_lt_Some.
    + destruct (Hf k n Hn) as (Hm & Hk' & j & u & Hj & Hku & Hu). split_and!; [lia|done|]. exists j, u. split; [|done].
      rewrite list_lookup_insert_ne; [done|]. intros <-. by eapply Hni.
  - assert (∀ k n, dict_get k (in_flight (idem x)) = Some n → n ≠ m) as Hlt by (intros k n Hn; apply Hf in Hn as [? _]; lia).
    intros k k' n. rewrite !dict_get_set. repeat case_decide; intros; simplify_eq; try naive_solver.
  - intros j k u v n n' Hj Hk Hu Hv E. apply (lookup_moved _ _ t) in Hj as [[-> ->]|[Hji Hj]]; [| |done];
      (apply (lookup_moved _ _ t) in Hk as [[-> ->]|[Hki Hk]]; [| |done]); [done| | |by eapply Hone].
    + by destruct (Hfree k v n' Hk Hv).
    + by destruct (Hfree j u n Hj Hu).
  - intros j u Hj. apply (lookup_moved _ _ t) in Hj as [[-> ->]|[Hne Hj]]; [| |done].
    + split; cbn; [by rewrite dict_get_set, decide_True|]. by rewrite lookup_app_r, Nat.sub_diag by done.
    + apply (task_extends x x'); [done| |by eapply Ht]. intros n [Hn Hmn]. left. split; cbn.
      * rewrite dict_get_set. case_decide as Hk; [|done]. by rewrite <- Hk, Hkf in Hn.
      * by apply lookup_app_l_Some.
  - intros k w a Hin. destruct (Hex k w a Hin) as (u & Hu & <- & <-). by apply (moved_in x i t).
  - rewrite Hsucc. f_equiv. pose proof (unsettled_moved (tasks x) i t (set_phase t (Owning m)) Hi) as Hp.
    unfold unsettled at 1 3 in Hp. rewrite Hph in Hp. done.
Qed.

Lemma claim_good x i t waited st r :
  good x → tasks x !! i = Some t → t_phase t = Claiming waited → claim (idem x) (t_key t) (hash (t_write t)) waited = (st, r) →
  good (mkWorld st (svc x) (<[i := set_phase t (after_claim r)]> (tasks x)) (executed x) (completed x)).
Proof.
  intros Hg Hi Hph H. assert (∀ m, ¬ holds t m) as Hno by (intros m; unfold holds; rewrite Hph; by intros []).
  pose proof (g_tasks x Hg i t Hi) as Hok. unfold task_ok in Hok. rewrite Hph in Hok. unfold claim in H.
  assert (∀ f, sound x t f → good (mkWorld (idem x) (svc x) (<[i := set_phase t (Finished f)]> (tasks x)) (executed x) (completed x))) as Hend
    by (intros f Hf; apply quiet_move; [done|done|done|by intros m []|done]).
  assert (match waited_error (idem x) waited with
          | Some e => sound x t (Refused e)
          | None => match waited with Some _ => sound x t ReplayEvicted | None => True end
          end) as Hw by (destruct waited as [m|]; [by apply waited_ok|done]).
  destruct (waited_error _ _) as [e|]; [injection H as <- <-; by apply Hend|].
  destruct (dict_get (t_key t) (cache (idem x))) as [[c h]|] eqn:Ec.
  - injection H as <- <-. pose proof (cached_ok x t c h Hg Ec) as Hs. case_bool_decide; by apply Hend.
  - destruct waited as [m|]; [injection H as <- <-; by apply Hend|].
    destruct (dict_get (t_key t) (in_flight (idem x))) as [m|] eqn:Ef; [|injection H as <- <-; by apply own_good].
    injection H as <- <-. destruct (g_flight x Hg _ _ Ef) as (_ & _ & j & u & Hj & Hk & Hu).
    assert (pending_on x u m) as [_ Hm].
    { pose proof (g_tasks x Hg j u Hj) as Hoku. unfold task_ok, holds in *. destruct (t_phase u); try done; subst; [done|apply Hoku]. }
    rewrite Hm. cbn. case_bool_decide as Hh; [|apply Hend; exists u; split_and!; [by eapply list_elem_of_lookup_2|done|congruence]].
    apply quiet_move; [done|done|done|by intros n []|]. left. split; [done|]. cbn. by rewrite Hh.
Qed.

Lemma holds_pending x i t m : good x → tasks x !! i = Some t → holds t m → pending_on x t m.
Proof.
  intros Hg Hi Hh. pose proof (g_tasks x Hg i t Hi) as Hok. unfold task_ok, holds in *.
  destruct (t_phase t); try done; subst; [done|apply Hok].
Qed.

(** The owner runs the body of its handler. *)
Lemma execute_good x i t m s a :
  good x → tasks x !! i = Some t → t_phase t = Owning m → commit_write digest json models_dir (t_write t) (svc x) = (s, a) →
  good (mkWorld (idem x) s (<[i := set_phase t (Executed m a)]> (tasks x)) (executed x ++ [(Some (t_key t), t_write t, a)]) (completed x)).
Proof.
  intros Hg Hi Hph Hrun. pose proof (holds_pending x i t m Hg Hi) as Hpend. destruct Hg as [Hs Hc Hcw Hfw Hf Hinj Hone Ht Hcomp Hex Hsucc Hwin].
  set (x' := mkWorld _ _ _ _ _). assert (extends x x') as He.
  { split; [intros e Hin; apply elem_of_app; by left|intros u Hu; by apply (moved_in x i t)|done]. }
  assert (holds t m) as Hh by (unfold holds; by rewrite Hph).
  assert (∀ n, holds (set_phase t (Executed m a)) n → holds t n) as Hh' by (intros n <-; done).
  split; cbn; try done.
  - rewrite foldl_app, <- Hs. cbn. unfold rerun. cbn. by rewrite Hrun.
  - intros k n Hk. destruct (Hf k n Hk) as (Hm & Hkc & j & u & Hj & Hku & Hu). split_and!; [done|done|].
    destruct (decide (i = j)) as [<-|Hne]; [|exists j, u; by rewrite list_lookup_insert_ne].
    rewrite Hi in Hj. injection Hj as <-. exists i, (set_phase t (Executed m a)). split_and!; [|done|].
    + apply list_lookup_insert_eq. by eapply lookup_lt_Some.
    + unfold holds in *. by rewrite Hph in Hu.
  - intros j k u v n n' Hj Hk Hu Hv E. apply (lookup_moved _ _ t) in Hj as [[-> ->]|[Hji Hj]]; [| |done];
      (apply (lookup_moved _ _ t) in Hk as [[-> ->]|[Hki Hk]]; [| |done]); eauto.
  - intros j u Hj. apply (lookup_moved _ _ t) in Hj as [[-> ->]|[Hne Hj]]; [| |done].
    + split; [by apply Hpend|]. cbn. apply elem_of_app. right. by apply list_elem_of_singleton.
    + apply (task_extends x x'); [done|by left|by eapply Ht].
  - intros k r h Hin. destruct (Hcomp k r h Hin) as (w & b & ? & ? & ?). exists w, b. split_and!; [done|by apply He|done].
  - intros k w b [Hin|Hin]%elem_of_app.
    + destruct (Hex k w b Hin) as (u & Hu & <- & <-). by apply (moved_in x i t).
    + apply list_elem_of_singleton in Hin. injection Hin as -> -> ->. apply (moved_in x i t); try done. by eapply list_elem_of_lookup_2.
  - pose proof (unsettled_moved (tasks x) i t (set_phase t (Executed m a)) Hi) as Hp.
    assert (unsettled t = None) as Hn by (unfold unsettled; by rewrite Hph). rewrite Hn in Hp. cbn [one_or_none app] in Hp.
    rewrite omap_app, Hsucc, <- Hp. assert (omap success [(Some (t_key t), t_write t, a)] = one_or_none (unsettled (set_phase t (Executed m a)))) as ->
      by (destruct a; done).
    by rewrite <- app_assoc, (Permutation_app_comm (omap unsettled _)).
Qed.

(** The owner gives up its key and wakes the waiters. *)
Lemma settle_good x i t m a g cache' completed' f :
  good x → tasks x !! i = Some t → t_phase t = Executed m a →
  (∀ h, g (mkMarker false None h false) = match a with Ret _ => mkMarker true None h true | Raise e => mkMarker true (Some e) h false end) →
  cache' = latest MAX_IDEMPOTENCY_CACHE_SIZE completed' → dict_wf cache' →
  (∀ k, k ≠ t_key t → k ∈ dict_keys cache' → k ∈ dict_keys (cache (idem x))) →
  completed'.*1 ≡ₚ (completed x).*1 ++ one_or_none (unsettled t) →
  (∀ k r h, (k, (r, h)) ∈ completed' → (k, (r, h)) ∈ completed x ∨
     k = t_key t ∧ h = hash (t_write t) ∧ ∃ b, a = Ret b ∧ r = respond (t_write t) b) →
  (∀ j k e d, completed' !! j = Some e → completed' !! k = Some d → (j < k)%nat → e.1 = d.1 → (j + MAX_IDEMPOTENCY_CACHE_SIZE < k)%nat) →
  sound x t f →
  good (mkWorld (mkIdem cache' (release (t_key t) m (in_flight (idem x))) (alter g m (markers (idem x)))) (svc x)
          (<[i := set_phase t (Finished f)]> (tasks x)) (executed x) completed').
Proof.
  intros Hg Hi Hph Hgm Hc' Hcw' Hsub Hsucc' Hcomp' Hwin' Hsound.
  assert (holds t m) as Hh by (unfold holds; by rewrite Hph).
  pose proof (holds_pending x i t m Hg Hi Hh) as [Hfl Hmk].
  pose proof (g_tasks x Hg i t Hi) as Hok. unfold task_ok in Hok. rewrite Hph in Hok. destruct Hok as [_ Hran].
  destruct Hg as [Hs Hc Hcw Hfw Hf Hinj Hone Ht Hcomp Hex Hsucc Hwin].
  assert (∀ k, dict_get k (release (t_key t) m (in_flight (idem x))) = if decide (t_key t = k) then None else dict_get k (in_flight (idem x))) as Hrel.
  { intros k. unfold release. rewrite bool_decide_eq_true_2, dict_get_del by done. done. }
  set (x' := mkWorld _ _ _ _ _). assert (extends x x') as He.
  { split; [done|intros u Hu; by apply (moved_in x i t)|]. intros n k Hn Hev. cbn. rewrite list_lookup_alter_ne; [done|].
    intros <-. rewrite Hmk in Hn. by injection Hn as <-. }
  split; cbn; try done.
  - unfold release. case_bool_decide; [by apply dict_del_wf|done].
  - intros k n. rewrite Hrel. case_decide as Hk; [done|]. intros Hn. destruct (Hf k n Hn) as (Hm & Hkc & j & u & Hj & Hku & Hu).
    split_and!; [by rewrite length_alter|by eauto|]. exists j, u. split; [|done]. rewrite list_lookup_insert_ne; [done|].
    intros <-. rewrite Hi in Hj. by injection Hj as <-.
  - intros k k' n. rewrite !Hrel. repeat case_decide; try done. apply Hinj.
  - intros j k u v n n' Hj Hk Hu Hv. apply (lookup_moved _ _ t) in Hj as [[-> ->]|[_ Hj]]; [done| |done].
    apply (lookup_moved _ _ t) in Hk as [[-> ->]|[_ Hk]]; [done| |done]. eauto.
  - intros j u Hj. apply (lookup_moved _ _ t) in Hj as [[-> ->]|[Hne Hj]]; [by apply (sound_extends x x')| |done].
    apply (task_extends x x'); [done| |by eapply Ht]. intros n [Hn Hmn]. destruct (decide (t_key t = t_key u)) as [Hk|Hk].
    + right. assert (n = m) as -> by (rewrite <- Hk, Hfl in Hn; by injection Hn). rewrite Hmk in Hmn. injection Hmn as Hh'. split.
      * exists (t_write t), a. split_and!; [done|by rewrite <- Hk|]. cbn. rewrite list_lookup_alter_eq, Hmk. cbn. by rewrite Hgm, Hh'.
      * intros Hu. by apply Hne, (Hone j i u t m m).
    + left. split; cbn; [by rewrite Hrel, decide_False|]. rewrite list_lookup_alter_ne; [done|]. intros <-. by apply Hk, (Hinj _ _ m).
  - intros k r h [Hin|(-> & -> & b & -> & ->)]%Hcomp'; [by apply Hcomp|]. eauto.
  - intros k w b Hin. destruct (Hex k w b Hin) as (u & Hu & <- & <-). by apply (moved_in x i t).
  - rewrite Hsucc', Hsucc, <- app_assoc. f_equiv. exact (unsettled_moved (tasks x) i t (set_phase t (Finished f)) Hi).
Qed.

(** A success: its key is not cached, and its completion is the youngest. *)
Lemma finalize_good x i t m b f :
  good x → tasks x !! i = Some t → t_phase t = Executed m (Ret b) → sound x t f →
  let r := respond (t_write t) b in
  good (mkWorld (finalize (idem x) (t_key t) (hash (t_write t)) m r) (svc x) (<[i := set_phase t (Finished f)]> (tasks x))
          (executed x) (completed x ++ [(t_key t, (r, hash (t_write t)))])).
Proof.
  intros Hg Hi Hph Hsound r. assert (holds t m) as Hh by (unfold holds; by rewrite Hph).
  pose proof (holds_pending x i t m Hg Hi Hh) as [Hfl _]. destruct (g_flight x Hg _ _ Hfl) as (_ & Hfree & _).
  pose proof (g_cached x Hg) as Hcw. pose proof Hfree as Hfree'. rewrite (g_cache x Hg) in Hcw, Hfree'.
  unfold finalize. rewrite (g_cache x Hg). apply (settle_good x i t m (Ret b)); try done.
  - by apply cache_completion.
  - rewrite cache_completion by done. by apply latest_keys.
  - intros k Hk. rewrite dict_set_move_entries, dict_del_absent, evict_drop, (g_cache x Hg) by done. unfold dict_keys. rewrite fmap_drop.
    intros Hin. assert (k ∈ ((latest MAX_IDEMPOTENCY_CACHE_SIZE (completed x) ++ [(t_key t, (r, hash (t_write t)))]).*1)) as Hin'.
    { by eapply elem_of_submseteq; [|apply sublist_submseteq, sublist_drop]. }
    rewrite fmap_app, elem_of_app in Hin'. by destruct Hin' as [?|E%list_elem_of_singleton].
  - rewrite fmap_app. unfold unsettled. by rewrite Hph.
  - intros k r' h [?|E%list_elem_of_singleton]%elem_of_app; [by left|]. injection E as -> -> ->. right. eauto.
  - intros j k e d Hj Hk Hlt E. destruct (decide (k < length (completed x))%nat) as [Hkl|Hkl].
    { rewrite lookup_app_l in Hj, Hk by lia. by apply (g_window x Hg j k e d). }
    rewrite lookup_app_r in Hk by lia. apply list_lookup_singleton_Some in Hk as [Hkl' <-]. cbn in E.
    rewrite lookup_app_l in Hj by lia. apply Nat.nle_gt. intros Hge. apply Hfree'. rewrite <- E.
    apply list_elem_of_fmap. exists e. split; [done|]. unfold latest.
    apply (list_elem_of_lookup_2 _ (j - (length (completed x) - MAX_IDEMPOTENCY_CACHE_SIZE))). rewrite lookup_drop. rewrite <- Hj. f_equal. lia.
Qed.

Lemma fail_good x i t m e :
  good x → tasks x !! i = Some t → t_phase t = Executed m (Raise e) →
  good (mkWorld (fail_claim (idem x) (t_key t) m e) (svc x) (<[i := set_phase t (Finished (Failed e))]> (tasks x)) (executed x) (completed x)).
Proof.
  intros Hg Hi Hph. pose proof (g_tasks x Hg i t Hi) as Hok. unfold task_ok in Hok. rewrite Hph in Hok. destruct Hok as [_ Hran].
  apply (settle_good x i t m (Raise e)); try done; try apply Hg.
  - unfold unsettled. rewrite Hph. cbn. by rewrite app_nil_r.
  - by left.
Qed.

(** A request arrives, with its key or without. *)
Lemma arrive_good x k w :
  good x → good (mkWorld (idem x) (svc x) (tasks x ++ [mkTask k w (Claiming None)]) (executed x) (completed x)).
Proof.
  intros [Hs Hc Hcw Hfw Hf Hinj Hone Ht Hcomp Hex Hsucc Hwin]. set (t := mkTask k w _). set (x' := mkWorld _ _ _ _ _).
  assert (extends x x') as He by (split; [done|intros u Hu; exists u; split; [apply elem_of_app; by left|done]|done]).
  assert (∀ j u, (tasks x ++ [t]) !! j = Some u → tasks x !! j = Some u ∨ u = t) as Hl.
  { intros j u [?|[_ [? <-]%list_lookup_singleton_Some]]%lookup_app_Some; auto. }
  split; cbn; try done.
  - intros k' m Hk. destruct (Hf k' m Hk) as (? & ? & j & u & Hj & ?). split_and!; try done. exists j, u. split; [|done]. by apply lookup_app_l_Some.
  - intros i j u v m n [Hi| ->]%Hl [Hj| ->]%Hl Hu Hv; try done. eauto.
  - intros i u [Hi| ->]%Hl; [|done]. apply (task_extends x x'); [done|by left|by eapply Ht].
  - intros k' w' a Hin. destruct (Hex k' w' a Hin) as (u & Hu & ? & ?). exists u. split; [apply elem_of_app; by left|done].
  - rewrite omap_app. cbn. by rewrite app_nil_r.
Qed.

Lemma keyless_good x w s a :
  good x → commit_write digest json models_dir w (svc x) = (s, a) →
  good (mkWorld (idem x) s (tasks x) (executed x ++ [(None, w, a)]) (completed x)).
Proof.
  intros [Hs Hc Hcw Hfw Hf Hinj Hone Ht Hcomp Hex Hsucc Hwin] Hrun. set (x' := mkWorld _ _ _ _ _).
  assert (extends x x') as He by (split; [intros e Hin; apply elem_of_app; by left|eauto|done]).
  split; cbn; try done.
  - rewrite foldl_app, <- Hs. cbn. unfold rerun. cbn. by rewrite Hrun.
  - intros i u Hi. apply (task_extends x x'); [done|by left|by eapply Ht].
  - intros k r h Hin. destruct (Hcomp k r h Hin) as (w' & b & ? & ? & ?). exists w', b. split_and!; [done|by apply He|done].
  - intros k w' b [Hin|Hin]%elem_of_app; [by eapply Hex|]. by apply list_elem_of_singleton in Hin.
  - rewrite omap_app. cbn. by rewrite app_nil_r.
Qed.

(** When every request has finished nothing is in flight, so a new event loop loses nothing. *)
Lemma new_loop_same x : good x → forallb finished (tasks x) = true → rebind_to_current_loop (idem x) = idem x.
Proof.
  intros Hg Hall. unfold rebind_to_current_loop. destruct (in_flight (idem x)) as [|[k m] l] eqn:E; [by destruct (idem x); cbn in *; subst|].
  destruct (g_flight x Hg k m) as (_ & _ & i & t & Hi & _ & Hh); [rewrite E; cbn; by rewrite decide_True|].
  rewrite forallb_forall in Hall. specialize (Hall t). unfold finished, holds in *.
  destruct (t_phase t); try done; assert (false = true); try done; by apply Hall, list_elem_of_In, (list_elem_of_lookup_2 _ i).
Qed.

Lemma step_good x l x' : good x → step x l = Some x' → good x'.
Proof.
  intros Hg. destruct l as [key w|i|i|i|i deferred|i|]; cbn [Idempotency.step].
  - destruct (open_write w (svc x)); [|by intros [= <-]]. destruct (nonempty_str key) as [k|]; [intros [= <-]; by apply arrive_good|].
    destruct (commit_write _ _ _ w (svc x)) as [s b] eqn:E. intros [= <-]. by apply keyless_good.
  - destruct (tasks x !! i) as [t|] eqn:Hi; [|done]. cbn. destruct (t_phase t) as [waited| | | |] eqn:Hph; try done.
    destruct (claim _ _ _ _) as [st r] eqn:E. intros [= <-]. by eapply claim_good.
  - destruct (tasks x !! i) as [t|] eqn:Hi; [|done]. cbn. destruct (t_phase t) as [|m| | |] eqn:Hph; try done.
    destruct (markers (idem x) !! m) as [k|] eqn:Hm; [|done]. cbn. destruct (event k) eqn:Hev; [|done]. intros [= <-].
    apply quiet_move; [done|done|by intros n; unfold holds; rewrite Hph; intros []|by intros n []|].
    pose proof (g_tasks x Hg i t Hi) as Hok. unfold task_ok in Hok. rewrite Hph in Hok. destruct Hok as [[_ Hm']|?]; [|done].
    rewrite Hm in Hm'. by injection Hm' as ->.
  - destruct (tasks x !! i) as [t|] eqn:Hi; [|done]. cbn. destruct (t_phase t) as [| |m| |] eqn:Hph; try done.
    destruct (commit_write _ _ _ _ _) as [s a] eqn:E. intros [= <-]. by apply execute_good.
  - destruct (tasks x !! i) as [t|] eqn:Hi; [|done]. cbn. destruct (t_phase t) as [| | |m [b|e]|] eqn:Hph; try done; intros [= <-].
    + pose proof (g_tasks x Hg i t Hi) as Hok. unfold task_ok in Hok. rewrite Hph in Hok. destruct Hok as [_ Hran].
      apply finalize_good; try done. destruct deferred; cbn; eauto.
    + by apply fail_good.
  - destruct (tasks x !! i) as [t|] eqn:Hi; [|done]. cbn.
    destruct (t_phase t) as [waited|m| | |] eqn:Hph; try done; intros [= <-];
      (apply quiet_move; [done|done|by intros n; unfold holds; rewrite Hph; intros []|by intros n []|done]).
  - destruct (forallb finished (tasks x)) eqn:E; [|done]. intros [= <-]. rewrite new_loop_same by done. by destruct x.
Qed.

Lemma steps_snoc y ls l : steps y (ls ++ [l]) = steps y ls ≫= λ z, step z l.
Proof. unfold Idempotency.steps. by rewrite foldl_app. Qed.

Lemma steps_good ls x : steps (start s0) ls = Some x → good x.
Proof.
  revert x. induction ls as [|l ls IH] using rev_ind; intros x; [intros [= <-]; apply start_good|].
  rewrite steps_snoc. destruct (steps _ ls) as [y|]; [|done]. apply step_good. by apply IH.
Qed.

(** The writes that are not settled yet are of different keys. *)
Lemma unsettled_NoDup (l : list (@task text)) :
  (∀ i j t u k, l !! i = Some t → l !! j = Some u → unsettled t = Some k → unsettled u = Some k → i = j) → NoDup (omap unsettled l).
Proof.
  induction l as [|t l IH]; intros Hone; cbn; [apply NoDup_nil_2|].
  assert (NoDup (omap unsettled l)) as Hl.
  { apply IH. intros i j t' u k Hi Hj Ht Hu. by injection (Hone (S i) (S j) t' u k Hi Hj Ht Hu). }
  destruct (unsettled t) as [k|] eqn:Ht; [|done]. apply NoDup_cons. split; [|done].
  intros (u & [j Hj]%list_elem_of_lookup & Hu)%list_elem_of_omap. by specialize (Hone 0%nat (S j) t u k eq_refl Hj Ht Hu).
Qed.

Lemma successes_distinct x : good x → (length (completed x) ≤ MAX_IDEMPOTENCY_CACHE_SIZE)%nat → NoDup (omap success (executed x)).
Proof.
  intros Hg Hlen. rewrite (g_success x Hg).
  assert (cache (idem x) = completed x) as Hc by (rewrite (g_cache x Hg); unfold latest; by replace (_ - _)%nat with 0%nat by lia).
  assert (∀ t k, unsettled t = Some k → t_key t = k ∧ ∃ m, holds t m) as Hun.
  { intros t k. unfold unsettled, holds. destruct (t_phase t) as [| | |m [b|e]|]; try done. intros [= <-]. eauto. }
  apply NoDup_app. split_and!.
  - rewrite <- Hc. apply (g_cached x Hg).
  - intros k Hk (t & [i Hi]%list_elem_of_lookup & Ht)%list_elem_of_omap. destruct (Hun t k Ht) as [<- [m Hm]].
    destruct (holds_pending x i t m Hg Hi Hm) as [Hfl _]. destruct (g_flight x Hg _ _ Hfl) as (_ & Hno & _). rewrite Hc in Hno. done.
  - apply unsettled_NoDup. intros i j t u k Hi Hj [Ht [m Hm]]%Hun [Hu [n Hn]]%Hun. eapply (g_one x Hg i j t u); try done. congruence.
Qed.

(** ** Every request ends *)

Definition weight t : nat :=
  match t_phase t with
  | Claiming None => 3
  | Claiming (Some _) => 1
  | Waiting _ | Owning _ => 2
  | Executed _ _ => 1
  | Finished _ => 0
  end.

Definition work x : nat := sum_list_with weight (tasks x).

(** A step a request takes of its own *)
Definition own_step (l : @label text) : bool :=
  match l with Claim _ | Wake _ | Execute _ | Settle _ _ => true | _ => false end.

(** A step of a request that has arrived, its cancellation included *)
Definition request_step (l : @label text) : bool :=
  match l with Cancel _ => true | _ => own_step l end.

Lemma weight_moved (l : list (@task text)) i t t' :
  l !! i = Some t → (weight t' < weight t)%nat → (sum_list_with weight (<[i := t']> l) < sum_list_with weight l)%nat.
Proof.
  revert i. induction l as [|y l IH]; intros [|i] Hi Hw; try done.
  - injection Hi as ->. cbn [insert list_insert sum_list_with]. lia.
  - specialize (IH i Hi Hw). change (weight y + sum_list_with weight (<[i := t']> l) < weight y + sum_list_with weight l)%nat. lia.
Qed.

Lemma claim_weight st t waited st' r :
  t_phase t = Claiming waited → claim st (t_key t) (hash (t_write t)) waited = (st', r) → (weight (set_phase t (after_claim r)) < weight t)%nat.
Proof.
  intros Hph. unfold weight at 2. rewrite Hph. unfold claim. destruct (waited_error _ _); [intros [= <- <-]; destruct waited; cbn; lia|].
  destruct (dict_get _ _) as [[c h]|]; [intros [= <- <-]; case_bool_decide; destruct waited; cbn; lia|].
  destruct waited; [intros [= <- <-]; cbn; lia|]. destruct (dict_get _ _); [|intros [= <- <-]; cbn; lia].
  intros [= <- <-]; case_bool_decide; cbn; lia.
Qed.

Lemma request_step_works x l y : request_step l = true → step x l = Some y → (work y < work x)%nat ∧ length (tasks y) = length (tasks x).
Proof.
  intros Hl. assert (∀ i t t' st s ex cs, tasks x !! i = Some t → (weight t' < weight t)%nat →
    (work (mkWorld st s (<[i := t']> (tasks x)) ex cs) < work x)%nat ∧ length (<[i := t']> (tasks x)) = length (tasks x)) as Hmove.
  { intros i t t' st s ex cs Hi Hw. split; [by apply (weight_moved _ i t)|apply length_insert]. }
  destruct l as [| i|i|i|i d|i|]; try done; cbn [Idempotency.step]; destruct (tasks x !! i) as [t|] eqn:Hi; try done; cbn;
    destruct (t_phase t) as [w|m|m|m [b|e]|f] eqn:Hph; try done.
  - destruct (claim _ _ _ _) as [st r] eqn:E. intros [= <-]. apply (Hmove i t); [done|]. by eapply claim_weight.
  - destruct (markers _ !! m) as [k|]; [|done]. cbn. destruct (event k); [|done]. intros [= <-]. apply (Hmove i t); [done|].
    unfold weight at 2. rewrite Hph. cbn. lia.
  - destruct (commit_write _ _ _ _ _). intros [= <-]. apply (Hmove i t); [done|]. unfold weight at 2. rewrite Hph. cbn. lia.
  - intros [= <-]. apply (Hmove i t); [done|]. unfold weight at 2. rewrite Hph. cbn. lia.
  - intros [= <-]. apply (Hmove i t); [done|]. unfold weight at 2. rewrite Hph. cbn. lia.
  - intros [= <-]. apply (Hmove i t); [done|]. unfold weight at 2. rewrite Hph. destruct w; cbn; lia.
  - intros [= <-]. apply (Hmove i t); [done|]. unfold weight at 2. rewrite Hph. cbn. lia.
Qed.

(** Someone can always move. *)
Lemma progress x i t : good x → tasks x !! i = Some t → finished t = false → ∃ l, own_step l = true ∧ is_Some (step x l).
Proof.
  intros Hg Hi Hf. pose proof (g_tasks x Hg i t Hi) as Hok. unfold task_ok, finished in *. destruct (t_phase t) as [w|m|m|m a|f] eqn:Hph; try done.
  - exists (Claim i). split; [done|]. cbn. rewrite Hi. cbn. rewrite Hph. destruct (claim _ _ _ _). eauto.
  - destruct Hok as [[Hfl _]|(w & a & _ & _ & Hm)].
    + destruct (g_flight x Hg _ _ Hfl) as (_ & _ & j & u & Hj & _ & Hu). unfold holds in Hu. destruct (t_phase u) as [| |n|n a|] eqn:Hphu; try done.
      * exists (Execute j). split; [done|]. cbn. rewrite Hj. cbn. rewrite Hphu. destruct (commit_write _ _ _ _ _). eauto.
      * exists (Settle j false). split; [done|]. cbn. rewrite Hj. cbn. rewrite Hphu. destruct a; eauto.
    + exists (Wake i). split; [done|]. cbn. rewrite Hi. cbn. rewrite Hph. cbn in Hm. rewrite Hm. cbn. destruct a; cbn; eauto.
  - exists (Execute i). split; [done|]. cbn. rewrite Hi. cbn. rewrite Hph. destruct (commit_write _ _ _ _ _). eauto.
  - exists (Settle i false). split; [done|]. cbn. rewrite Hi. cbn. rewrite Hph. destruct a; eauto.
Qed.

Lemma request_steps_bounded ls x y :
  forallb request_step ls = true → steps x ls = Some y → (length ls + work y ≤ work x)%nat.
Proof.
  revert y. induction ls as [|l ls IH] using rev_ind; intros y; [by intros _ [= <-]|].
  rewrite forallb_app, andb_true_iff, steps_snoc, length_app. intros [Hls Hl]. destruct (steps x ls) as [z|]; [|done]. cbn in Hl |- *.
  rewrite andb_true_r in Hl. intros Hz. specialize (IH z Hls eq_refl). destruct (request_step_works z l y Hl Hz). lia.
Qed.

Lemma work_bounded x : (work x ≤ 3 * length (tasks x))%nat.
Proof.
  unfold work. induction (tasks x) as [|t l IH]; [done|]. cbn [sum_list_with length].
  assert (weight t ≤ 3)%nat by (unfold weight; destruct (t_phase t) as [[?|]| | | |]; lia). lia.
Qed.

Lemma steps_app ls ls' x : steps x (ls ++ ls') = steps x ls ≫= λ y, steps y ls'.
Proof.
  unfold Idempotency.steps. rewrite foldl_app. destruct (foldl _ _ ls) as [y|]; [done|]. cbn. by induction ls' as [|l ls' IH].
Qed.
End invariant.

(** C10 — Idempotent writes, whatever the interleaving.  The service went through the writes that
    ran, one after the other.  No two requests own a key at a time, and among the last 1000
    settled writes every key occurs once: a key whose write succeeded is not run again until
    1000 others have settled, and not at all before the cache is full.  What a request is
    told is so: a replayed answer is the answer of a write with the same key and payload,
    an inherited error is the error of one, a mismatch means that a request with the key
    had another payload, and no request is told that its predecessor ended without a
    result. *)
Theorem idempotent_writes {text} `{!Yaml text} digest json (models_dir : list (string * text)) sha256 bytes render s0 ls x :
  steps digest json models_dir sha256 bytes render (start s0) ls = Some x →
  svc x = foldl (rerun digest json models_dir) s0 (executed x) ∧
  (∀ i j t u m n, tasks x !! i = Some t → tasks x !! j = Some u → holds t m → holds u n → t_key t = t_key u → i = j) ∧
  (∀ i j e f, completed x !! i = Some e → completed x !! j = Some f → (i < j)%nat → e.1 = f.1 → (i + 1000 < j)%nat) ∧
  ((length (completed x) ≤ 1000)%nat → NoDup (omap success (executed x))) ∧
  (∀ t f, t ∈ tasks x → t_phase t = Finished f → sound sha256 bytes render x t f).
Proof.
  intros Hg%steps_good. split_and!; [apply Hg|apply Hg|apply Hg|by eapply successes_distinct|].
  intros t f [i Hi]%list_elem_of_lookup Hph. pose proof (g_tasks _ _ _ _ _ _ _ _ Hg i t Hi) as Hok. unfold task_ok in Hok. by rewrite Hph in Hok.
Qed.

(** C23 — No request with a key hangs.  However the requests that have arrived interleave and
    are cancelled, they take at most three steps each on the whole; and until all have
    finished, one of them can claim, wake up, run or settle, so none has to be cancelled for
    the others to go on: no waiter sleeps on a marker nobody will set. *)
Theorem keyed_requests_finish {text} `{!Yaml text} digest json (models_dir : list (string * text)) sha256 bytes render s0 ls x ls' y :
  steps digest json models_dir sha256 bytes render (start s0) ls = Some x →
  forallb request_step ls' = true → steps digest json models_dir sha256 bytes render x ls' = Some y →
  (length ls' ≤ 3 * length (tasks x))%nat ∧
  (forallb finished (tasks y) = true ∨ ∃ l, own_step l = true ∧ is_Some (step digest json models_dir sha256 bytes render y l)).
Proof.
  intros Hx Hown Hy. split.
  - pose proof (request_steps_bounded _ _ _ _ _ _ _ _ _ Hown Hy). pose proof (work_bounded x). lia.
  - destruct (forallb finished (tasks y)) eqn:E; [by left|right].
    assert (∃ i t, tasks y !! i = Some t ∧ finished t = false) as (i & t & Hi & Ht).
    { clear -E. induction (tasks y) as [|t l IH]; [done|]. cbn in E. destruct (finished t) eqn:Et; [|by exists 0%nat, t].
      destruct (IH E) as (i & u & ? & ?). by exists (S i), u. }
    eapply progress; [|done|done]. eapply (steps_good _ _ _ _ _ _ _ (ls ++ ls')). rewrite steps_app, Hx. exact Hy.
Qed.

(** ** Two requests with one key *)

#[local] Existing Instance ConfigSync.ex_yaml.

Definition ex_post : @write pyval := Post (ConfigSync.ex_request ConfigSync.ex_io ConfigSync.never ConfigSync.ex_new).
Definition ex_bytes (v : pyval) : string := match v with VDict d => dict_keys d !!! 0%nat | _ => "" end.
Definition ex_render (q : @request pyval) (a : answer) : response := (201, "created"%string).
Definition ex_steps := steps ConfigRouting.ex_digest ConfigRouting.ex_digest ConfigSync.ex_dir (λ s, s) ex_bytes ex_render.

(** The second request waits for the first; a deletion under the same key is refused. *)
Definition ex_labels : list (@label pyval) :=
  [Arrive (Some "k"%string) ex_post; Arrive (Some "k"%string) ex_post; Claim 0; Claim 1; Execute 0;
   Arrive (Some "k"%string) (Delete (request_of ex_post) "api/x"); Claim 2].

Definition ex_end : list (@label pyval) := [Settle 0 false; Wake 1; Claim 1].

Definition ex_world (ls : list (@label pyval)) : @world pyval := default (start ConfigSync.ex_s0) (ex_steps (start ConfigSync.ex_s0) ls).

Lemma ex_world_steps : ex_steps (start ConfigSync.ex_s0) (ex_labels ++ ex_end) = Some (ex_world (ex_labels ++ ex_end)).
Proof. vm_compute. reflexivity. Qed.

Lemma idempotent_writes_witness :
  (t_phase <$> tasks (ex_world (ex_labels ++ ex_end))) =
    [Finished (Served (201, "created"%string)); Finished (Replayed (201, "created"%string)); Finished (Refused Mismatch)] ∧
  NoDup (omap success (executed (ex_world (ex_labels ++ ex_end)))) ∧
  svc (ex_world (ex_labels ++ ex_end)) = foldl (rerun ConfigRouting.ex_digest ConfigRouting.ex_digest ConfigSync.ex_dir) ConfigSync.ex_s0
    (executed (ex_world (ex_labels ++ ex_end))).
Proof.
  destruct (idempotent_writes ConfigRouting.ex_digest ConfigRouting.ex_digest ConfigSync.ex_dir (λ s, s) ex_bytes ex_render
              ConfigSync.ex_s0 (ex_labels ++ ex_end) (ex_world (ex_labels ++ ex_end)) ex_world_steps) as (Hs & _ & _ & Hn & _).
  split; [vm_compute; reflexivity|]. split; [|exact Hs]. apply Hn. apply Nat.leb_le. vm_compute. reflexivity.
Defined.

Lemma ex_before : ex_steps (start ConfigSync.ex_s0) ex_labels = Some (ex_world ex_labels).
Proof. vm_compute. reflexivity. Qed.

Lemma ex_after : ex_steps (ex_world ex_labels) ex_end = Some (ex_world (ex_labels ++ ex_end)).
Proof. vm_compute. reflexivity. Qed.

Lemma keyed_requests_finish_witness : (length ex_end ≤ 9)%nat ∧ forallb finished (tasks (ex_world (ex_labels ++ ex_end))) = true.
Proof.
  destruct (keyed_requests_finish ConfigRouting.ex_digest ConfigRouting.ex_digest ConfigSync.ex_dir (λ s, s) ex_bytes ex_render
              ConfigSync.ex_s0 ex_labels (ex_world ex_labels) ex_end (ex_world (ex_labels ++ ex_end)) ex_before eq_refl ex_after) as [H _].
  split; [exact H|vm_compute; reflexivity].
Defined.
End Idempotency.
