(* ===== verification/ConfigEpochs.v ===== *)
(** Epochs of the configuration service.

    Every write that changes something takes the next epoch and publishes under it, so that a
    gateway that has seen an epoch has seen every write before it.  The file proves that the
    handlers of [ConfigService.v] keep this order, whatever else fails or is cancelled, as long
    as the epoch can be read ([ConfigFaults.epoch_goes_back] is the other case). *)

From Stdlib Require Import Ascii.
From stdpp Require Import strings.
From S2P Require Import Prelude PyFloat PyDict PyStr Handlers PyVal ModelConfig ConfigProfiles ConfigRegistry ConfigTables.
From S2P Require Import ConfigRouting ConfigStore ConfigService ConfigSync.
Import Handlers PyVal ConfigProfiles ConfigRegistry ConfigTables ConfigRouting ConfigStore ConfigService ConfigSync.
Local Open Scope Z_scope.
Local Open Scope py_scope.

Module ConfigEpochs.

Section epochs.
Context {text : Type} `{!Yaml text} (digest json : pyval → string) (models_dir : list (string * text)).
Implicit Types s : @service text.

(** The epoch in the store *)
Definition epoch_now (f : option (option Z)) : Z := match f with Some (Some n) => n | _ => 0 end.

Definition stored_epoch s : option Z := (λ st, epoch_now (epoch_file st)) <$> kept_store s.

(** Nothing happened to the epoch, and nothing was published. *)
Definition still s s' : Prop := stored_epoch s' = stored_epoch s ∧ wire s' = wire s.

(** One write: the next epoch, published about one model with one text *)
Definition advances s s' : Prop :=
  ∃ n id t ms, stored_epoch s = Some n ∧ stored_epoch s' = Some (n + 1) ∧ wire s' = wire s ++ ms ∧
    ∀ e, e ∈ ms → m_epoch e.2 = n + 1 ∧ m_model e.2 = id ∧ m_config e.2 = t.

Definition stills {A} (m : @M text A) : Prop := ∀ s, still s (m s).1.

Lemma still_refl s : still s s.
Proof. done. Qed.

Lemma still_trans s s' s'' : still s s' → still s' s'' → still s s''.
Proof. intros [H1 H2] [H3 H4]. split; congruence. Qed.

Lemma still_advances s s' s'' : still s s' → advances s' s'' → advances s s''.
Proof. intros [H1 H2] (n & id & t & ms & Hn & Hn' & Hw & Hms). exists n, id, t, ms. by rewrite <- H1, <- H2. Qed.

Lemma pure_stills {A} (m : @M text A) : pure m → stills m.
Proof. intros Hm s. by rewrite Hm. Qed.

Lemma stills_bind {A B} (m : @M text A) (k : A → @M text B) : stills m → (∀ a, stills (k a)) → stills (bind m k).
Proof.
  intros Hm Hk s. unfold bind. specialize (Hm s). destruct (m s) as [s1 [a|e]]; cbn in *; [|done].
  eapply still_trans; [done|apply Hk].
Qed.

(** A handler either stands still or advances. *)
Definition ticks {A} (m : @M text A) : Prop := ∀ s, is_Some (kept_store s) → still s (m s).1 ∨ advances s (m s).1.

Lemma ticks_bind {A B} (m : @M text A) (k : A → @M text B) : stills m → (∀ a, ticks (k a)) → ticks (bind m k).
Proof.
  intros Hm Hk s Hs. unfold bind. specialize (Hm s). destruct (m s) as [s1 [a|e]]; cbn in *; [|by left].
  assert (is_Some (kept_store s1)) as Hs1.
  { destruct Hm as [He _]. unfold stored_epoch in He. destruct Hs as [st Hst]. rewrite Hst in He. by destruct (kept_store s1). }
  destruct (Hk a s1 Hs1) as [H|H]; [left; by eapply still_trans|right; by eapply still_advances].
Qed.

Lemma stills_ticks {A} (m : @M text A) : stills m → ticks m.
Proof. intros Hm s _. left. apply Hm. Qed.

Lemma stills_set_reg r : stills (set_reg r).
Proof. by intros s. Qed.

Lemma set_files_still s st st' :
  kept_store s = Some st → epoch_file st' = epoch_file st → still s (set_store st' s).1.
Proof. intros Hst He. split; [|done]. unfold stored_epoch. cbn. by rewrite Hst, He. Qed.

Lemma write_model_epoch io (st st' : @store text) id t : write_model io st id t = Ret st' → epoch_file st' = epoch_file st.
Proof. unfold write_model. destruct (validate_stored_id id); [|done]. cbn. destruct (write_fails io); [done|]. by intros [= <-]. Qed.

Lemma stills_persist q id config created : stills (persist q id config created).
Proof.
  intros s. destruct (persist q id config created s) as [s1 r] eqn:H. cbn. unfold persist in H.
  apply pure_step in H; [|solve [eauto with handlers]]. destruct H as [[-> _]|(s0 & E & H)]; [done|]. injection E as <-.
  destruct (kept_store s) as [st|] eqn:Hst; [|by injection H as <- _].
  case_bool_decide; [by injection H as <- _|].
  do 3 (apply pure_step in H; [|solve [eauto with handlers]]; destruct H as [[-> _]|(? & _ & H)]; [done|]).
  apply pure_step in H; [|solve [eauto with handlers]]; destruct H as [[-> _]|(st' & E & H)]; [done|].
  apply of_store_Ret, write_model_epoch in E. unfold bind in H. cbn in H. injection H as <- _. by eapply (set_files_still s st st').
Qed.

Lemma stills_persist_replacement q id config : stills (persist_replacement q id config).
Proof.
  intros s. destruct (persist_replacement q id config s) as [s1 r] eqn:H. cbn. unfold persist_replacement in H.
  apply pure_step in H; [|solve [eauto with handlers]]. destruct H as [[-> _]|(s0 & E & H)]; [done|]. injection E as <-.
  destruct (kept_store s) as [st|] eqn:Hst; [|by injection H as <- _].
  apply pure_step in H; [|solve [eauto with handlers]]; destruct H as [[-> _]|(st' & E & H)]; [done|].
  apply of_store_Ret, write_model_epoch in E. injection H as <- _. by eapply (set_files_still s st st').
Qed.

(** The next epoch, or nothing *)
Lemma bump_advances q s s1 r n :
  epoch_read_fails (io q) = false → stored_epoch s = Some n → bump_epoch q s = (s1, r) →
  match r with
  | Raise _ => s1 = s
  | Ret n' => n' = n + 1 ∧ stored_epoch s1 = Some (n + 1) ∧ wire s1 = wire s
  end.
Proof.
  intros Hread Hn H. unfold stored_epoch in Hn. destruct (kept_store s) as [st|] eqn:Hst; [|done]. injection Hn as Hn.
  unfold bump_epoch, get_state, bind at 1 in H. rewrite Hst in H. unfold increment_epoch, read_epoch in H. rewrite Hread in H.
  unfold epoch_now in Hn. rewrite Hn in H. destruct (epoch_write_fails (io q)); cbn in H; by injection H as <- <-.
Qed.

(** What is published carries the epoch, the model and the text it is told to. *)
Lemma publish_messages (q : @request text) id profiles affected hashes epoch t pool pools e :
  e ∈ (publish_config_notification q id profiles affected hashes epoch t pool pools).1 →
  m_epoch e.2 = epoch ∧ m_model e.2 = id ∧ m_config e.2 = t.
Proof.
  unfold publish_config_notification. destruct (negb _); [by intros ?%elem_of_nil|]. case_bool_decide; [by intros ?%elem_of_nil|].
  destruct (existsb _ _); [by intros ?%elem_of_nil|]. cbn [fst]. rewrite list_elem_of_In, in_concat. intros (l & Hl & He%list_elem_of_In).
  apply list_elem_of_In, list_elem_of_fmap in Hl as (b & -> & (x & -> & _)%list_elem_of_fmap). cbn in He. unfold publish_bundle in He.
  repeat case_match; cbn in He; repeat (apply elem_of_cons in He as [->|He]; [done|]); by apply elem_of_nil in He.
Qed.

Definition announced s s' (publish : bool) id epoch (t : text) : Prop :=
  stored_epoch s' = stored_epoch s ∧
  ∃ ms, wire s' = wire s ++ ms ∧ (∀ e, e ∈ ms → m_epoch e.2 = epoch ∧ m_model e.2 = id ∧ m_config e.2 = t) ∧ (publish = false → ms = []).

Lemma announce_messages (q : @request text) publish id profiles affected epoch t s :
  announced s (announce digest q publish id profiles affected epoch t s).1 publish id epoch t.
Proof.
  assert (∀ r', announced s (mkService r' (kept_store s) (wire s)) publish id epoch t) as Hnone.
  { intros r'. split; [done|]. exists []. rewrite app_nil_r. split_and!; try done. by intros e ?%elem_of_nil. }
  unfold announce, get_state, bind at 1. destruct (foldl _ _ affected) as [r hashes]. unfold bind at 1. cbn [set_reg].
  destruct publish; [|exact (Hnone r)]. destruct (match publisher q with Some _ => _ | None => _ end); [|exact (Hnone r)]. cbn [andb].
  destruct (publish_config_notification _ _ _ _ _ _ _ _ _) as [ms o] eqn:E. unfold bind. split; [done|].
  exists ms. split_and!; try done. intros e He. eapply publish_messages. by rewrite E.
Qed.

(** The end of a write: an epoch and its notification, or neither *)
Lemma announced_ticks {B} (q : @request text) (publish bump : bool) id profiles affected t (k : publish_result → @M text B) :
  epoch_read_fails (io q) = false → (publish = true → bump = true) → (∀ o, pure (k o)) →
  ticks (bind (if bump then bump_epoch q else mret 0) (λ epoch, bind (announce digest q publish id profiles affected epoch t) k)).
Proof.
  intros Hread Hpb Hk s [st Hst]. assert (stored_epoch s = Some (epoch_now (epoch_file st))) as Hn by (unfold stored_epoch; by rewrite Hst).
  revert Hn. generalize (epoch_now (epoch_file st)). intros n Hn.
  match goal with |- still _ ?y ∨ _ => remember y as s2 eqn:E2; unfold bind at 1 in E2 end.
  assert (∀ s' epoch, announced s' (bind (announce digest q publish id profiles affected epoch t) k s').1 publish id epoch t) as Hend.
  { intros s' epoch. pose proof (announce_messages q publish id profiles affected epoch t s') as Ha. unfold bind.
    destruct (announce _ _ _ _ _ _ _ _ s') as [s3 [o|e]]; cbn in *; [|done]. by rewrite Hk. }
  destruct bump.
  - destruct (bump_epoch q s) as [s1 r] eqn:E. pose proof (bump_advances q s s1 r n Hread Hn E) as Hb.
    destruct r as [n'|e]; [|left; by subst]. destruct Hb as (-> & Hn1 & Hw1). right.
    destruct (Hend s1 (n + 1)) as (He & ms & Hw & Hms & _). rewrite <- E2 in He, Hw.
    exists n, id, t, ms. split_and!; [done|congruence|by rewrite Hw, Hw1|done].
  - left. destruct (Hend s 0) as (He & ms & Hw & _ & Hno). cbn [mret] in E2. rewrite <- E2 in He, Hw. split; [done|].
    rewrite Hw, Hno; [apply app_nil_r|].
    destruct publish; [by discriminate Hpb|done].
Qed.

(** ** Handlers *)

Ltac tick x := apply ticks_bind; [solve [apply pure_stills; eauto using pure_check_replay with handlers]|intros x].

Lemma add_ticks q : epoch_read_fails (io q) = false → ticks (add_model digest q).
Proof.
  intros Hread. unfold add_model, commit_add, append_registry. tick u0. tick d. tick u1. tick u2. tick s. tick x.
  destruct x as [config [[created skipped] aff]]. tick mid. tick u3. tick u4.
  apply ticks_bind; [apply stills_persist|]. intros saved. tick y. destruct y as [r [[cr sk] af]].
  apply ticks_bind; [apply stills_set_reg|]. intros _. destruct (bool_decide (cr = [])).
  - by apply (announced_ticks q false false).
  - by apply (announced_ticks q true true).
Qed.

Lemma replace_ticks q path : epoch_read_fails (io q) = false → ticks (replace_model digest json q path).
Proof.
  intros Hread. unfold replace_model, commit_replace, replace_registry. tick u0. tick d. tick d1. tick u1. tick s. tick config.
  destruct (match get_full_config (reg s) path with Some _ => _ | None => _ end); [|by apply stills_ticks, pure_stills].
  apply ticks_bind; [apply stills_persist_replacement|]. intros u. tick y. destruct y as [r aff].
  apply ticks_bind; [apply stills_set_reg|]. intros _. by apply (announced_ticks q _ true).
Qed.

(** A deletion publishes nothing. *)
Lemma delete_ticks q path : epoch_read_fails (io q) = false → ticks (delete_model models_dir q path).
Proof.
  intros Hread. unfold delete_model, commit_delete. tick s. tick u0.
  intros s0 [st Hst]. assert (stored_epoch s0 = Some (epoch_now (epoch_file st))) as Hn by (unfold stored_epoch; by rewrite Hst).
  match goal with |- still _ (?m s0).1 ∨ _ => destruct (m s0) as [s' r] eqn:H end. cbn [fst].
  apply pure_step in H; [|solve [eauto with handlers]]. destruct H as [[-> _]|(s1 & E & H)]; [by left|]. injection E as <-. rewrite Hst in H.
  do 4 (apply pure_step in H; [|solve [eauto with handlers]]; destruct H as [[-> _]|(? & _ & H)]; [by left|]).
  apply pure_step in H; [|solve [eauto with handlers]]. destruct H as [[-> _]|([st' deleted] & E & H)]; [by left|].
  assert (epoch_file st' = epoch_file st) as He.
  { apply of_store_Ret in E. unfold delete_model_file in E. destruct (validate_stored_id path); [|done]. cbn in E.
    destruct (dict_mem _ _); cbn in E; [|by injection E as <- <-]. destruct (delete_fails _); [done|]. by injection E as <- <-. }
  set (s2 := mkService (reg s0) (Some st') (wire s0)). assert (still s0 s2) as Hs2.
  { split; [|done]. unfold stored_epoch. cbn. by rewrite Hst, He. }
  apply bind_inv in H as [(e & E' & ->)|(u & s3 & E' & H)]; injection E' as <- ?; [done|]. fold s2 in H.
  apply pure_step in H; [|solve [eauto with handlers]]. destruct H as [[-> _]|(u' & _ & H)]; [by left|].
  destruct deleted; [|injection H as <- _; by left].
  apply pure_step in H; [|solve [eauto with handlers]]. destruct H as [[-> _]|([r' aff] & _ & H)]; [by left|].
  apply bind_inv in H as [(e & E' & ->)|(u'' & s4 & E' & H)]; injection E' as <- ?; [done|].
  apply bind_inv in H as [(e & E' & ->)|(n & s5 & E' & H)].
  - apply (bump_advances _ _ _ _ (epoch_now (epoch_file st)) Hread) in E' as ->; [by left|]. unfold stored_epoch. cbn. by rewrite He.
  - apply (bump_advances _ _ _ _ (epoch_now (epoch_file st)) Hread) in E' as (-> & Hn' & Hw); [|unfold stored_epoch; cbn; by rewrite He].
    injection H as <- _. right. exists (epoch_now (epoch_file st)), path, (yaml_dump VNone), [].
    split_and!; [done|done|by rewrite Hw, app_nil_r|by intros e ?%elem_of_nil].
Qed.

(** ** Runs *)

(** Any requests and restarts *)
Inductive happening := Requested (e : @event text) | Restarted (io : backend) (base : registry).

Definition happens s (h : happening) : @service text :=
  match h with Requested e => serve digest json models_dir s e | Restarted io base => restart io base s end.

(** The request can read the epoch. *)
Definition epoch_readable (h : happening) : Prop :=
  match h with
  | Requested (EPost q) | Requested (EPut q _) | Requested (EDelete q _) => epoch_read_fails (io q) = false
  | Restarted _ _ => True
  end.

(** The wire holds writes in the order of their epochs. *)
Definition in_order (n0 : Z) s : Prop :=
  ∃ n, stored_epoch s = Some n ∧ n0 ≤ n ∧ StronglySorted Z.le ((λ e, m_epoch e.2) <$> wire s) ∧
    (∀ e, e ∈ wire s → n0 < m_epoch e.2 ≤ n) ∧
    (∀ e f, e ∈ wire s → f ∈ wire s → m_epoch e.2 = m_epoch f.2 → m_model e.2 = m_model f.2 ∧ m_config e.2 = m_config f.2).

Lemma sorted_snoc (l : list (string * @message text)) (ms : list (string * @message text)) n :
  StronglySorted Z.le ((λ e, m_epoch e.2) <$> l) → (∀ e, e ∈ l → m_epoch e.2 ≤ n) → (∀ e, e ∈ ms → m_epoch e.2 = n) →
  StronglySorted Z.le ((λ e, m_epoch e.2) <$> (l ++ ms)).
Proof.
  intros Hl Hle Hms. rewrite fmap_app. induction l as [|e l IH]; cbn in *.
  - clear Hl Hle. induction ms as [|e ms IH]; constructor.
    + apply IH. intros f Hf. apply Hms. by right.
    + apply Forall_fmap, Forall_forall. intros f Hf. cbn. rewrite (Hms e), (Hms f); [done|by right|by left].
  - apply StronglySorted_inv in Hl as [Hl He]. constructor.
    + apply IH; [done|]. intros f Hf. apply Hle. by right.
    + apply Forall_app. split; [done|]. apply Forall_fmap, Forall_forall. intros f Hf. cbn. rewrite (Hms f Hf). apply Hle. by left.
Qed.

Lemma still_in_order n0 s s' : still s s' → in_order n0 s → in_order n0 s'.
Proof. intros [He Hw]. unfold in_order. by rewrite He, Hw. Qed.

Lemma advances_in_order n0 s s' : advances s s' → in_order n0 s → in_order n0 s'.
Proof.
  intros (n & id & t & ms & Hn & Hn' & Hw & Hms) (n1 & Hn1 & H0 & Hs & Hb & Hone). rewrite Hn in Hn1. injection Hn1 as <-.
  exists (n + 1). rewrite Hw. split_and!; [done|lia| | |].
  - apply (sorted_snoc _ _ (n + 1)); [done| |by intros e [? _]%Hms]. intros e ?%Hb. lia.
  - intros e [He|He]%elem_of_app; [apply Hb in He; lia|]. apply Hms in He as [-> _]. lia.
  - intros e f [He|He]%elem_of_app [Hf|Hf]%elem_of_app E; [by apply Hone| | |].
    + apply Hb in He. apply Hms in Hf as [Hf _]. lia.
    + apply Hb in Hf. apply Hms in He as [He _]. lia.
    + apply Hms in He as (_ & -> & ->), Hf as (_ & -> & ->). done.
Qed.

Lemma in_order_store n0 s : in_order n0 s → is_Some (kept_store s).
Proof. intros (n & Hn & _). unfold stored_epoch in Hn. destruct (kept_store s); [eauto|done]. Qed.

Lemma ticks_in_order {A} (m : @M text A) n0 s : ticks m → in_order n0 s → in_order n0 (m s).1.
Proof.
  intros Hm H. destruct (Hm s (in_order_store _ _ H)); [by eapply still_in_order|by eapply advances_in_order].
Qed.
End epochs.

(** C12 — Epochs order the writes.  Whatever is asked of the service, restarts included, and
    whatever else fails or is cancelled, as long as every request can read the epoch file: the
    stored epoch never decreases, what is published is published in the order of its epochs
    and never ahead of the stored epoch, and one epoch is one write: two messages with one
    epoch are about one model and carry one text.  A request that cannot read the file takes
    the epoch for 0, and the next write sets it back ([epoch_goes_back]). *)
Theorem epochs_order_writes {text} `{!Yaml text} digest json (models_dir : list (string * text)) s0 hs n0 :
  stored_epoch s0 = Some n0 → wire s0 = [] → Forall epoch_readable hs →
  in_order n0 (foldl (happens digest json models_dir) s0 hs).
Proof.
  intros Hn Hw Hhs. assert (in_order n0 s0) as H0.
  { exists n0. rewrite Hw. split_and!; [done|done|constructor|by intros e ?%elem_of_nil|by intros e f ?%elem_of_nil]. }
  clear Hn Hw. revert s0 H0. induction Hhs as [|[[q|q path|q path]|io base] hs Hh _ IH]; intros s0 H0; [done|..]; apply IH.
  - by apply (ticks_in_order (add_model digest q)); [apply add_ticks|].
  - by apply (ticks_in_order (replace_model digest json q path)); [apply replace_ticks|].
  - by apply (ticks_in_order (delete_model models_dir q path)); [apply delete_ticks|].
  - by apply (still_in_order n0 s0).
Qed.

Lemma happens_requested {text} `{!Yaml text} digest json (models_dir : list (string * text)) s es :
  foldl (happens digest json models_dir) s (Requested <$> es) = foldl (serve digest json models_dir) s es.
Proof. revert s. by induction es as [|e es IH]; intros s; [|apply IH]. Qed.

#[local] Existing Instance ex_yaml.

Lemma epochs_order_writes_witness : in_order 0 ex_s4 ∧ (λ e, m_epoch e.2) <$> wire ex_s4 = [1; 1; 1; 1; 2; 2].
Proof.
  split; [|vm_compute; reflexivity]. rewrite <- ex_events_run, <- happens_requested.
  apply (epochs_order_writes ex_digest ex_digest ex_dir (started ex_base None) (Requested <$> ex_events) 0); [reflexivity|reflexivity|].
  by repeat constructor.
Defined.
End ConfigEpochs.
