(* ===== verification/DiskCache.v ===== *)
(** The disk cache of model weights, [core/disk_cache.py].

    huggingface_hub and the file system are the class [Disk]: a scan of the cache, the
    deletion of revisions, and the usage of the disk, over a state that deletions and other
    processes change. *)

From Stdlib Require Import Ascii.
From stdpp Require Import strings.
From S2P Require Import Prelude PyFloat PyStr.
Local Open Scope Z_scope.
Local Open Scope py_scope.

Module DiskCache.

(** ** Data *)

Record DiskStats := mkStats { used_bytes : Z; total_bytes : Z }.

Definition usage_ratio (s : DiskStats) : float :=
  if total_bytes s =? 0 then f0 else int_truediv (used_bytes s) (total_bytes s).

Definition available_bytes (s : DiskStats) : Z := Z.max 0 (total_bytes s - used_bytes s).

(** What a scan of huggingface_hub finds *)
Record revision := mkRevision { commit_hash : string; blob_last_accessed : list float }.
Record repo := mkRepo { repo_type : string; repo_id : string; size_on_disk : Z; repo_last_accessed : float; revisions : list revision }.

Record CachedModelInfo := mkCached {
  c_repo_id : string;
  size_bytes : Z;
  last_accessed : float;
  commit_hashes : list string;
}.

(** ** The cache as a list, oldest first *)

(** The youngest access to any blob, or the repository's own *)
Definition accessed (r : repo) : float :=
  let t := foldl (py_max flt) f0 (concat (blob_last_accessed <$> revisions r)) in
  if feq t f0 then repo_last_accessed r else t.

Definition cached_model (r : repo) : CachedModelInfo :=
  mkCached (repo_id r) (size_on_disk r) (accessed r) (commit_hash <$> revisions r).

(** [_models_from_scan] *)
Definition models_from_scan (repos : list repo) : list CachedModelInfo :=
  stable_sort (λ a b, negb (flt (last_accessed b) (last_accessed a)))
    (cached_model <$> filter (λ r, repo_type r = "model"%string) repos).

(** The file system and huggingface_hub *)
Class Disk (W : Type) := {
  disk_usage : W → option DiskStats;                                (* [None] is an [OSError] *)
  scan_cache_dir : W → option (list repo);                          (* [None] when it cannot be scanned *)
  expected_freed_size : list repo → list string → res unit Z;       (* [delete_revisions] of a scan; it may raise *)
  execute_delete : W → list repo → list string → W * bool;          (* the strategy of that scan; whether it finished *)
  touch_dir : W → string → W;                                       (* [os.utime], if the directory is there *)
}.

Section manager.
Context {W : Type} `{!Disk W} (threshold : float) (pinned : option (list string)).

(** [get_stats] *)
Definition get_stats (w : W) : DiskStats := default (mkStats 0 0) (disk_usage w).

(** [check_pressure] *)
Definition check_pressure (w : W) : bool := flt threshold (usage_ratio (get_stats w)).

(** The models of a scan; none when it failed *)
Definition scanned (cache_info : option (list repo)) : list CachedModelInfo :=
  match cache_info with Some repos => models_from_scan repos | None => [] end.

(** [get_cached_models] *)
Definition get_cached_models (w : W) : list CachedModelInfo := scanned (scan_cache_dir w).

(** The first model that may go, and what is behind it *)
Fixpoint next_victim (exclude : list string) (l : list CachedModelInfo) : option (CachedModelInfo * list CachedModelInfo) :=
  match l with
  | [] => None
  | m :: l' => if bool_decide (c_repo_id m ∈ exclude) then next_victim exclude l' else Some (m, l')
  end.

(** [get_lru_model] *)
Definition get_lru_model (w : W) (exclude : list string) : option CachedModelInfo :=
  fst <$> next_victim exclude (get_cached_models w).

(** [evict_model]: the bytes freed.  What goes is computed from the given scan, which may be
    stale, or from a new one. *)
Definition evict_model (cache_info : option (list repo)) (w : W) (m : CachedModelInfo) : W * Z :=
  match commit_hashes m with
  | [] => (w, 0)
  | hashes =>
      match (match cache_info with Some scan => Some scan | None => scan_cache_dir w end) with
      | None => (w, 0)
      | Some scan =>
          match expected_freed_size scan hashes with
          | Raise _ => (w, 0)
          | Ret n =>
              if n =? 0 then (w, 0)
              else let '(w', ok) := execute_delete w scan hashes in (w', if ok then size_bytes m else 0)
          end
      end
  end.

(** The loop of [ensure_space_before_download]; [snapshot] is the scan, once it was made,
    and what the cursor has ahead *)
Fixpoint evict_loop (fuel : nat) (exclude : list string) (w : W)
    (snapshot : option (option (list repo) * list CachedModelInfo)) (evicted : list string) : option (W * list string) :=
  match fuel with
  | O => None
  | S fuel =>
      if check_pressure w then
        let '(scan, l) := match snapshot with Some s => s | None => (scan_cache_dir w, scanned (scan_cache_dir w)) end in
        match next_victim exclude l with
        | None => Some (w, evicted)
        | Some (m, rest) =>
            let '(w', freed) := evict_model scan w m in
            evict_loop fuel exclude w' (Some (scan, rest)) (if 0 <? freed then evicted ++ [c_repo_id m] else evicted)
        end
      else Some (w, evicted)
  end.

Definition excluded (model_id : string) : list string := model_id :: default [] pinned.

(** [ensure_space_before_download] *)
Definition ensure_space_before_download (w : W) (model_id : string) : option (W * list string) :=
  evict_loop (S (length (get_cached_models w))) (excluded model_id) w None [].

(** [touch] *)
Definition cache_name (model_id : string) : string :=
  "models--" +:+ String.concat "" ((λ c, if bool_decide (c = "/"%char) then "--" else String c "")%string <$> String.list_ascii_of_string model_id).
Definition touch (w : W) (model_id : string) : W := touch_dir w (cache_name model_id).

(** ** What is evicted *)

(** The models that may go, oldest first *)
Definition victims (w : W) (model_id : string) : list CachedModelInfo :=
  filter (λ m, c_repo_id m ∉ excluded model_id) (get_cached_models w).

(** The disk after the first evictions, and the models that were deleted *)
Definition evict_all (scan : option (list repo)) (w : W) (l : list CachedModelInfo) : W * list string :=
  foldl (λ acc m, let '(w', freed) := evict_model scan acc.1 m in (w', if 0 <? freed then acc.2 ++ [c_repo_id m] else acc.2)) (w, []) l.

Lemma next_victim_filter exclude l :
  match next_victim exclude l with
  | None => filter (λ m, c_repo_id m ∉ exclude) l = []
  | Some (m, rest) => filter (λ m, c_repo_id m ∉ exclude) l = m :: filter (λ m, c_repo_id m ∉ exclude) rest ∧ (length rest < length l)%nat
  end.
Proof.
  induction l as [|m l IH]; [done|]. cbn [next_victim]. rewrite filter_cons. case_bool_decide as Hm.
  - rewrite decide_False by tauto. destruct (next_victim exclude l) as [[v rest]|]; [|done]. destruct IH as [-> ?]. split; [done|]. cbn. lia.
  - rewrite decide_True by done. split; [done|]. cbn. lia.
Qed.

Lemma evict_all_cons scan w m l :
  let '(w', freed) := evict_model scan w m in
  evict_all scan w (m :: l) = ((evict_all scan w' l).1, (if 0 <? freed then [c_repo_id m] else []) ++ (evict_all scan w' l).2).
Proof.
  destruct (evict_model scan w m) as [w' freed] eqn:E. unfold evict_all. cbn [foldl fst]. rewrite E.
  assert (∀ l w0 acc, foldl (λ acc m, let '(w', freed) := evict_model scan acc.1 m in (w', if 0 <? freed then acc.2 ++ [c_repo_id m] else acc.2)) (w0, acc) l =
    ((evict_all scan w0 l).1, acc ++ (evict_all scan w0 l).2)) as H.
  { clear. induction l as [|m l IH]; intros w0 acc; [cbn; by rewrite app_nil_r|]. unfold evict_all. cbn [foldl fst snd].
    destruct (evict_model scan w0 m) as [w' freed]. rewrite !IH. cbn [fst snd]. destruct (0 <? freed); by rewrite <- ?app_assoc. }
  rewrite H. by destruct (0 <? freed).
Qed.

(** The loop evicts the oldest models that may go, and stops as soon as it can. *)
Lemma evict_loop_spec fuel exclude scan w l evicted :
  (length l < fuel)%nat →
  let V := filter (λ m, c_repo_id m ∉ exclude) l in
  ∃ k, (k ≤ length V)%nat ∧
    evict_loop fuel exclude w (Some (scan, l)) evicted = Some ((evict_all scan w (take k V)).1, evicted ++ (evict_all scan w (take k V)).2) ∧
    (∀ j, (j < k)%nat → check_pressure (evict_all scan w (take j V)).1 = true) ∧
    (check_pressure (evict_all scan w (take k V)).1 = false ∨ k = length V).
Proof.
  revert w l evicted. induction fuel as [|fuel IH]; intros w l evicted Hf; [lia|]. cbn zeta. cbn [evict_loop].
  destruct (check_pressure w) eqn:Ep.
  2:{ exists 0%nat. rewrite take_0. cbn. rewrite app_nil_r. split_and!; [lia|done|lia|by left]. }
  pose proof (next_victim_filter exclude l) as Hn. destruct (next_victim exclude l) as [[m rest]|].
  2:{ rewrite Hn. exists 0%nat. cbn. rewrite app_nil_r. split_and!; [lia|done|lia|by right]. }
  destruct Hn as [-> Hrest]. destruct (evict_model scan w m) as [w' freed] eqn:Em.
  assert (∀ l, evict_all scan w (m :: l) = ((evict_all scan w' l).1, (if 0 <? freed then [c_repo_id m] else []) ++ (evict_all scan w' l).2)) as Hall.
  { intros l'. pose proof (evict_all_cons scan w m l') as H. by rewrite Em in H. }
  destruct (IH w' rest (if 0 <? freed then evicted ++ [c_repo_id m] else evicted)) as (k & Hk & Hloop & Hp & Hend); [lia|].
  exists (S k). cbn [take length]. rewrite Hall, Hloop. cbn [fst snd]. split_and!; [lia| | |destruct Hend; [by left|right; lia]].
  - f_equal. f_equal. destruct (0 <? freed); by rewrite <- ?app_assoc.
  - intros [|j] Hj; [done|]. cbn [take]. rewrite Hall. apply Hp. lia.
Qed.

(** What the call evicts is the shortest run of the oldest models, the pinned ones and the
    model about to be downloaded left out, whose deletion relieves the disk, or all of them
    when nothing does. *)
Theorem ensure_space_evicts_oldest w model_id :
  let V := victims w model_id in
  ∃ k, (k ≤ length V)%nat ∧ ensure_space_before_download w model_id = Some (evict_all (scan_cache_dir w) w (take k V)) ∧
    (∀ j, (j < k)%nat → check_pressure (evict_all (scan_cache_dir w) w (take j V)).1 = true) ∧
    (check_pressure (evict_all (scan_cache_dir w) w (take k V)).1 = false ∨ k = length V).
Proof.
  cbn zeta. unfold ensure_space_before_download, victims.
  destruct (evict_loop_spec (S (length (get_cached_models w))) (excluded model_id) (scan_cache_dir w) w (get_cached_models w) []) as (k & Hk & Hl & H); [lia|].
  exists k. split; [done|]. split; [|done].
  assert (evict_loop (S (length (get_cached_models w))) (excluded model_id) w None [] =
          evict_loop (S (length (get_cached_models w))) (excluded model_id) w (Some (scan_cache_dir w, get_cached_models w)) []) as -> by done.
  rewrite Hl. cbn [app]. by destruct (evict_all (scan_cache_dir w) w _).
Qed.

Lemma evict_all_ids scan w l x : x ∈ (evict_all scan w l).2 → ∃ m, m ∈ l ∧ c_repo_id m = x.
Proof.
  revert w. induction l as [|m l IH]; intros w; [by intros ?%elem_of_nil|]. pose proof (evict_all_cons scan w m l) as H.
  destruct (evict_model scan w m) as [w' freed]. rewrite H. cbn [snd]. rewrite elem_of_app. intros [Hx|Hx].
  - exists m. split; [by left|]. destruct (0 <? freed); [by apply list_elem_of_singleton in Hx|by apply elem_of_nil in Hx].
  - destruct (IH w' Hx) as (m' & ? & ?). exists m'. split; [by right|done].
Qed.

(** Weights of pinned models, and those of the model about to be downloaded, stay. *)
Theorem pinned_weights_stay w model_id w' evicted x :
  ensure_space_before_download w model_id = Some (w', evicted) → x ∈ evicted → x ≠ model_id ∧ x ∉ default [] pinned.
Proof.
  destruct (ensure_space_evicts_oldest w model_id) as (k & _ & -> & _). intros [= H] Hx.
  assert (x ∈ (evict_all (scan_cache_dir w) w (take k (victims w model_id))).2) as (m & Hm & <-)%evict_all_ids by by rewrite H.
  assert (m ∈ victims w model_id) as [Hv _]%list_elem_of_filter by (by eapply elem_of_submseteq; [|apply sublist_submseteq, sublist_take]).
  unfold excluded in Hv. by rewrite not_elem_of_cons in Hv.
Qed.
End manager.

(** Access times are numbers. *)
Definition timed (m : CachedModelInfo) : Prop := is_nan (last_accessed m) = false.

(** The models of a scan, oldest first *)
Theorem scan_oldest_first repos :
  Forall timed (cached_model <$> filter (λ r, repo_type r = "model"%string) repos) →
  models_from_scan repos ≡ₚ cached_model <$> filter (λ r, repo_type r = "model"%string) repos ∧
  StronglySorted (λ a b, fle (last_accessed a) (last_accessed b) = true) (models_from_scan repos).
Proof.
  intros Ht. unfold models_from_scan. split; [apply stable_sort_perm|].
  assert (∀ a b, timed a → timed b → negb (flt (last_accessed b) (last_accessed a)) = true ↔ fle (last_accessed a) (last_accessed b) = true) as Hle.
  { intros a b Ha Hb. rewrite negb_true_iff. by apply flt_false_fle. }
  set (leb a b := negb (flt (last_accessed b) (last_accessed a))).
  assert (StronglySorted (λ a b, leb a b = true) (stable_sort leb (cached_model <$> filter (λ r, repo_type r = "model"%string) repos))) as Hs.
  { apply (stable_sort_sorted leb timed); [| |done].
    - intros a b Ha Hb. unfold leb. rewrite !Hle by done. by apply fle_total.
    - intros a b c Ha Hb Hc. unfold leb. rewrite !Hle by done. apply fle_trans. }
  assert (Forall timed (stable_sort leb (cached_model <$> filter (λ r, repo_type r = "model"%string) repos))) as Hall by by rewrite stable_sort_perm.
  induction Hs as [|a l Hl IH Ha]; [constructor|]. apply Forall_cons in Hall as [Hta Hall]. constructor; [by apply IH|].
  rewrite Forall_forall in Ha, Hall |- *. intros b Hb. apply Hle; [done|by apply Hall|by apply Ha].
Qed.

(** ** An example *)

(** A disk that knows its usage and its repositories; deleting a revision frees its repository. *)
#[local] Instance ex_disk : Disk (Z * list repo) := {|
  disk_usage w := Some (mkStats w.1 100);
  scan_cache_dir w := Some w.2;
  expected_freed_size scan hs := Ret (Z.of_nat (length (filter (λ r, Exists (λ h, h ∈ hs) (commit_hash <$> revisions r)) scan)));
  execute_delete w _ hs := ((w.1 - foldr Z.add 0 (size_on_disk <$> filter (λ r, Exists (λ h, h ∈ hs) (commit_hash <$> revisions r)) w.2),
                           filter (λ r, ¬ Exists (λ h, h ∈ hs) (commit_hash <$> revisions r)) w.2), true);
  touch_dir w _ := w;
|}.

Definition ex_repo (id : string) (size : Z) (t : Z) : repo := mkRepo "model" id size f0 [mkRevision id [f_of_Z t]].
Definition ex_repos : list repo :=
  [ex_repo "org/new" 20 9; ex_repo "org/old" 10 1; mkRepo "dataset" "org/d" 5 f0 []; ex_repo "org/pinned" 10 0; ex_repo "org/mid" 10 5]%string.

(** The oldest model is pinned, the next two go, the youngest stays. *)
Lemma ensure_space_example :
  snd <$> ensure_space_before_download (flit 85 100) (Some ["org/pinned"%string]) (99, ex_repos) "org/x" = Some ["org/old"; "org/mid"]%string.
Proof. vm_compute. reflexivity. Qed.
End DiskCache.
