(* ===== verification/ToolChoice.v ===== *)
(** Forced tool choice, [processors/tool_call_grammar.py]: the grammar that makes a model call
    a tool, and what the tool-call parser of [ToolCallParser.v] makes of a text the grammar
    accepts.

    The regular expression is a tree that prints as the pattern the code builds; [lang] is
    the language the pattern denotes. *)

From Stdlib Require Import Ascii.
From stdpp Require Import strings.
From S2P Require Import Prelude PyFloat PyDict PyStr PyText Handlers PyVal ToolCallParser.
Import Handlers PyVal.
Local Open Scope Z_scope.
Local Open Scope py_scope.

Module ToolChoice.
Import ToolCalls.

(** ** The request *)

Inductive mode := Auto | NoTools | Required | Named (name : string).

Definition mode_name (m : mode) : string :=
  match m with Auto => "auto" | NoTools => "none" | Required => "required" | Named _ => "named" end.

(** The name of a tool definition or of a named choice: [x["function"]["name"]] *)
Definition function_name (d : dict) : option string :=
  match get_val "function" d with
  | VDict fn => match get_val "name" fn with VStr n => if bool_decide (n = ""%string) then None else Some n | _ => None end
  | _ => None
  end.

(** [normalize_tool_choice] *)
Definition normalize_tool_choice (tool_choice : pyval) : mode :=
  match tool_choice with
  | VStr s => if bool_decide (s = "none"%string) then NoTools else if bool_decide (s = "required"%string) then Required else Auto
  | VDict d => match function_name d with Some n => Named n | None => Auto end
  | _ => Auto
  end.

(** [extract_tool_names] *)
Definition extract_tool_names (tools : option (list pyval)) : list string :=
  omap (λ t, match t with VDict d => function_name d | _ => None end) (default [] tools).

(** ** Regular expressions *)

Inductive rx :=
  | Lit (pattern : string) (t : text)      (* a pattern for one text *)
  | Space                                  (* \s* *)
  | Any                                    (* [\s\S]*? *)
  | OneOf (names : list string)            (* (?:a|b), escaped *)
  | Seq (a b : rx)
  | Plus (a : rx).                         (* (?:a)+ *)

(** [re.escape] *)
Definition special (a : ascii) : bool :=
  let n := Z.of_N (N_of_ascii a) in
  ((9 <=? n) && (n <=? 13)) || bool_decide (a ∈ ["("; ")"; "["; "]"; "{"; "}"; "?"; "*"; "+"; "-"; "|"; "^"; "$"; "\"; "."; "&"; "~"; "#"; " "]%char).
Definition escape (s : string) : string :=
  String.concat "" ((λ a, if special a then String "\" (String a "") else String a "")%string <$> String.list_ascii_of_string s).

(** [_name_alternation] *)
Definition name_alternation (names : list string) : string := "(?:" +:+ String.concat "|" (escape <$> names) +:+ ")".

Fixpoint print (r : rx) : string :=
  match r with
  | Lit p _ => p
  | Space => "\s*"
  | Any => "[\s\S]*?"
  | OneOf names => name_alternation names
  | Seq a b => print a +:+ print b
  | Plus a => "(?:" +:+ print a +:+ ")+"
  end.

(** The texts a pattern matches as a whole; a lazy quantifier does not change them. *)
Inductive lang : rx → text → Prop :=
  | lang_lit p t : lang (Lit p t) t
  | lang_space t : Forall (λ a, is_space a = true) t → lang Space t
  | lang_any t : lang Any t
  | lang_name names n : n ∈ names → lang (OneOf names) (to_text n)
  | lang_seq a b s t : lang a s → lang b t → lang (Seq a b) (s ++ t)
  | lang_one a s : lang a s → lang (Plus a) s
  | lang_more a s t : lang a s → lang (Plus a) t → lang (Plus a) (s ++ t).

Definition plain_lit (s : string) : rx := Lit s (to_text s).

Infix "⋅" := Seq (at level 40, left associativity).

(** [_qwen_xml_force_regex] *)
Definition qwen_block (names : list string) : rx :=
  plain_lit "<tool_call>" ⋅ Space ⋅ plain_lit "<function=" ⋅ OneOf names ⋅ plain_lit ">" ⋅ Any ⋅ plain_lit "</function>" ⋅ Space ⋅ plain_lit "</tool_call>".

Definition qwen_xml_force_regex (names : list string) : rx := Space ⋅ Plus (qwen_block names ⋅ Space).

Definition quote : string := String "034" "".

(** [_hermes_json_force_regex] *)
Definition hermes_block (names : list string) : rx :=
  plain_lit "<tool_call>" ⋅ Space ⋅ Lit "\{" (to_text "{") ⋅ Space ⋅ plain_lit (quote +:+ "name" +:+ quote) ⋅ Space ⋅ plain_lit ":" ⋅ Space ⋅ plain_lit quote ⋅
  OneOf names ⋅ plain_lit quote ⋅ Space ⋅ plain_lit "," ⋅ Space ⋅ plain_lit (quote +:+ "arguments" +:+ quote) ⋅ Space ⋅ plain_lit ":" ⋅ Space ⋅
  Any ⋅ Lit "\}" (to_text "}") ⋅ Space ⋅ plain_lit "</tool_call>".

Definition hermes_json_force_regex (names : list string) : rx := Space ⋅ Plus (hermes_block names ⋅ Space).

(** ** The grammar *)

Inductive tool_choice_error :=
  | NoNamedTools (m : mode)
  | UnknownFunction (name : string) (names : list string)
  | FormatUnresolved (m : mode).

Record forcing := mkForcing { f_regex : rx; f_label : string }.

(** The functions that may be called, [None] when nothing is forced *)
Definition allowed_names (tools : option (list pyval)) (tool_choice : pyval) : res tool_choice_error (option (list string)) :=
  let m := normalize_tool_choice tool_choice in
  match m with
  | Auto | NoTools => Ret None
  | _ =>
      match extract_tool_names tools with
      | [] => Raise (NoNamedTools m)
      | names =>
          match m with
          | Named n => if bool_decide (n ∈ names) then Ret (Some [n]) else Raise (UnknownFunction n names)
          | _ => Ret (Some names)
          end
      end
  end.

(** [build_tool_choice_grammar] *)
Definition build_tool_choice_grammar (tools : option (list pyval)) (tool_choice : pyval) (fmt : ToolCallFormat) :
    res tool_choice_error (option forcing) :=
  let m := normalize_tool_choice tool_choice in
  let* allowed := allowed_names tools tool_choice in
  match allowed with
  | None => Ret None
  | Some names =>
      match fmt with
      | qwen_xml => Ret (Some (mkForcing (qwen_xml_force_regex names) ("tool_choice:" +:+ mode_name m)))
      | hermes_json => Ret (Some (mkForcing (hermes_json_force_regex names) ("tool_choice:" +:+ mode_name m)))
      | auto => Raise (FormatUnresolved m)
      end
  end.

Lemma qwen_pattern_example :
  print (qwen_xml_force_regex ["get.weather"; "add"]%string) =
  "\s*(?:<tool_call>\s*<function=(?:get\.weather|add)>[\s\S]*?</function>\s*</tool_call>\s*)+"%string.
Proof. reflexivity. Qed.

(** ** Texts of the forced grammar *)

Lemma lang_seq_inv a b t : lang (a ⋅ b) t → ∃ s u, t = s ++ u ∧ lang a s ∧ lang b u.
Proof. inversion 1; subst; eauto. Qed.

Lemma lang_lit_inv p x t : lang (Lit p x) t → t = x.
Proof. by inversion 1. Qed.

Lemma lang_space_inv t : lang Space t → Forall (λ a, is_space a = true) t.
Proof. by inversion 1. Qed.

Lemma lang_name_inv names t : lang (OneOf names) t → ∃ n, n ∈ names ∧ t = to_text n.
Proof. inversion 1; subst; eauto. Qed.

Lemma lang_plus_inv a t : lang (Plus a) t → ∃ s u, t = s ++ u ∧ lang a s.
Proof. inversion 1; subst; [exists t, []; by rewrite app_nil_r|eauto]. Qed.

Ltac parts H s u Ha := apply lang_seq_inv in H as (s & u & -> & Ha & H).

(** Every text of the grammar begins with a call of an allowed function. *)
Lemma qwen_text_shape names t :
  lang (qwen_xml_force_regex names) t →
  ∃ ws ws2 n inner rest, Forall (λ a, is_space a = true) ws ∧ Forall (λ a, is_space a = true) ws2 ∧ n ∈ names ∧
    t = ws ++ OPEN ++ (ws2 ++ FUNC ++ to_text n ++ to_text ">") ++ inner ++ CLOSE ++ rest.
Proof.
  unfold qwen_xml_force_regex. intros H. parts H ws t1 Hws. apply lang_space_inv in Hws.
  apply lang_plus_inv in H as (s & u & -> & H). apply lang_seq_inv in H as (b & ws3 & -> & H & _). unfold qwen_block in H.
  do 8 (let s := fresh "s" in let u := fresh "u" in let Hu := fresh "Hu" in apply lang_seq_inv in H as (s & u & -> & H & Hu)).
  apply lang_lit_inv in H as ->. apply lang_space_inv in Hu6. apply lang_lit_inv in Hu5 as ->. apply lang_name_inv in Hu4 as (n & Hn & ->).
  apply lang_lit_inv in Hu3 as ->. apply lang_lit_inv in Hu1 as ->. apply lang_lit_inv in Hu as ->.
  exists ws, u7, n, (u3 ++ to_text "</function>" ++ u1), (ws3 ++ u). split_and!; try done.
  unfold OPEN, FUNC, CLOSE. cbn. rewrite <- !app_assoc. cbn. by rewrite <- !app_assoc.
Qed.

(** ** What the parser reads *)

(** A name the parser reads back: not empty, of the characters a name may have *)
Definition callable (n : string) : Prop :=
  n ≠ ""%string ∧ Forall (λ a, name_char a = true ∧ a ≠ "<"%char) (to_text n).

Lemma spaces_no_tag t : Forall (λ a, is_space a = true) t → "<"%char ∉ t.
Proof. intros H Hin. rewrite Forall_forall in H. by specialize (H _ Hin). Qed.

Lemma no_angle_find (tag s : text) : "<"%char ∉ s → find ("<"%char :: tag) s = None.
Proof.
  intros Hs. apply find_None_intro. intros j [k Hk]. apply Hs. apply (list_elem_of_lookup_2 _ j).
  replace j with (j + 0)%nat by lia. by rewrite <- lookup_drop, Hk.
Qed.

Lemma tlstrip_spaces s t : Forall (λ a, is_space a = true) s → tlstrip (s ++ t) = tlstrip t.
Proof. induction 1 as [|a s Ha _ IH]; [done|]. cbn. by rewrite Ha. Qed.

(** Trailing blanks behind a character that is none *)
Lemma tlstrip_keeps (a : ascii) (s t : text) : is_space a = false → ∃ s', tlstrip (s ++ a :: t) = s' ++ a :: t.
Proof. intros Ha. induction s as [|b s [s' IH]]; cbn; [exists []; by rewrite Ha|]. destruct (is_space b); [by exists s'|by exists (b :: s)]. Qed.

Lemma tstrip_call ws (n x : text) :
  Forall (λ a, is_space a = true) ws → ∃ x', tstrip ((ws ++ FUNC ++ n ++ to_text ">") ++ x) = FUNC ++ n ++ to_text ">" ++ x'.
Proof.
  intros Hws. unfold tstrip. rewrite <- !app_assoc, tlstrip_spaces by done.
  change (tlstrip (FUNC ++ n ++ to_text ">" ++ x)) with (FUNC ++ n ++ to_text ">" ++ x).
  rewrite (assoc_L app FUNC), (assoc_L app (FUNC ++ n)), reverse_app, reverse_app. cbn [to_text String.list_ascii_of_string].
  rewrite reverse_singleton. cbn [app]. destruct (tlstrip_keeps ">"%char (reverse x) (reverse (FUNC ++ n))) as [s' Hs']; [done|].
  rewrite Hs', reverse_app, reverse_cons, reverse_involutive. exists (reverse s'). by rewrite <- !app_assoc.
Qed.

Lemma span_name_spec (n x : text) : Forall (λ a, name_char a = true ∧ a ≠ "<"%char) n → span_name (n ++ ">"%char :: x) = (n, ">"%char :: x).
Proof. induction 1 as [|a n [Ha _] _ IH]; [done|]. cbn [app span_name]. by rewrite Ha, IH. Qed.

Lemma parse_call (loads : text → res string json) (n : string) x :
  callable n → parse_xml loads (FUNC ++ to_text n ++ to_text ">" ++ x) =
    Ret (JStr (to_text n), JObj (xml_params loads MAX_XML_PARAMS (FUNC ++ to_text n ++ to_text ">" ++ x) [])).
Proof.
  intros [Hne Hn]. unfold parse_xml.
  assert (search_opener FUNC (FUNC ++ to_text n ++ to_text ">" ++ x) = Some (to_text n, x)) as ->; [|done].
  assert (match_opener FUNC (FUNC ++ to_text n ++ to_text ">" ++ x) = Some (to_text n, x)) as Hm; [|by cbn [search_opener]; unfold FUNC in *; cbn [app search_opener] in *; rewrite Hm].
  unfold match_opener. assert (startswith FUNC (FUNC ++ to_text n ++ to_text ">" ++ x) = true) as ->.
  { apply startswith_prefix. by exists (to_text n ++ to_text ">" ++ x). }
  rewrite drop_app_length. change (to_text ">" ++ x) with (">"%char :: x). rewrite span_name_spec by done. by destruct n.
Qed.

(** The closing tag comes after the name. *)
Lemma close_after_name ws2 (n : string) (inner rest : text) :
  Forall (λ a, is_space a = true) ws2 → callable n →
  let P := ws2 ++ FUNC ++ to_text n ++ to_text ">" in
  ∃ i, find CLOSE (P ++ inner ++ CLOSE ++ rest) = Some i ∧ (length P ≤ i)%nat.
Proof.
  intros Hws [_ Hn] P. destruct (find CLOSE (P ++ inner ++ CLOSE ++ rest)) as [i|] eqn:E.
  2:{ exfalso. apply (find_None _ _ (length (P ++ inner)) E). rewrite (assoc_L app P), drop_app_length. by exists rest. }
  exists i. split; [done|]. apply Nat.nlt_ge. intros Hi. apply find_Some in E as [Hp _].
  destruct Hp as [k Hk]. assert (∀ j c, CLOSE !! j = Some c → (P ++ inner ++ CLOSE ++ rest) !! (i + j)%nat = Some c) as Hat.
  { intros j c Hc. rewrite <- lookup_drop, Hk. by apply lookup_app_l_Some. }
  pose proof (Hat 0%nat "<"%char eq_refl) as H0. pose proof (Hat 1%nat "/"%char eq_refl) as H1. clear Hat Hk.
  rewrite Nat.add_0_r, lookup_app_l in H0 by done. unfold P in H0. apply lookup_app_Some in H0 as [H0|[Hge H0]].
  { apply (spaces_no_tag ws2 Hws). by eapply list_elem_of_lookup_2. }
  assert (i = length ws2) as ->.
  { apply lookup_app_Some in H0 as [H0|[_ H0]].
    - destruct (i - length ws2)%nat as [|j] eqn:Ej; [lia|]. exfalso. cbn in H0.
      do 10 (destruct j as [|j]; [discriminate H0|cbn in H0]). discriminate H0.
    - exfalso. apply lookup_app_Some in H0 as [H0|[_ H0]].
      + apply list_elem_of_lookup_2 in H0. rewrite Forall_forall in Hn. by destruct (Hn _ H0).
      + by apply list_lookup_singleton_Some in H0 as [_ ?]. }
  unfold P in H1. rewrite <- !app_assoc, lookup_app_r, Nat.add_sub' in H1 by lia. discriminate H1.
Qed.

(** The names [tool_choice] allows *)
Lemma build_qwen tools tool_choice f :
  build_tool_choice_grammar tools tool_choice qwen_xml = Ret (Some f) →
  ∃ names, f_regex f = qwen_xml_force_regex names ∧ (∀ n, n ∈ names → n ∈ extract_tool_names tools) ∧
    (∀ m, normalize_tool_choice tool_choice = Named m → names = [m]).
Proof.
  unfold build_tool_choice_grammar, allowed_names. destruct (normalize_tool_choice tool_choice) as [| | |m] eqn:E; try done.
  - destruct (extract_tool_names tools) as [|n ns]; [done|]. intros [= <-]. by exists (n :: ns).
  - destruct (extract_tool_names tools) as [|n ns]; [done|]. case_bool_decide as Hm; [|done]. intros [= <-]. exists [m].
    split_and!; [done|by intros k ->%list_elem_of_singleton|by intros k [= ->]].
Qed.

(** A forced choice makes a call.  Whatever text the grammar lets a model write in Qwen's
    format, the parser reads, after blanks at most, a call of a function of the request's
    tools, and of the named function when one is named.  Later calls are not pinned
    ([later_call_not_pinned]). *)
Theorem forced_text_calls loads dumps fresh_id parallel tools tool_choice f t :
  build_tool_choice_grammar tools tool_choice qwen_xml = Ret (Some f) → lang (f_regex f) t →
  Forall callable (extract_tool_names tools) → (∀ j, len (dumps j) <= MAX_TOOL_ARGUMENTS_CHARS) →
  ∃ ws n d rest, Forall (λ a, is_space a = true) ws ∧ n ∈ extract_tool_names tools ∧
    (∀ m, normalize_tool_choice tool_choice = Named m → n = m) ∧
    tc_function_name d = Some (to_text n) ∧
    scan_all loads dumps fresh_id qwen_xml parallel t = (Chr <$> ws) ++ Call d :: rest.
Proof.
  intros (names & -> & Hsub & Hnamed)%build_qwen Ht Hcall Hshort.
  destruct (qwen_text_shape names t Ht) as (ws & ws2 & n & inner & rest & Hws & Hws2 & Hn & ->).
  rewrite Forall_forall in Hcall. pose proof (Hcall n (Hsub n Hn)) as Hc.
  destruct (close_after_name ws2 n inner rest Hws2 Hc) as (i & Hi & Hle). set (P := ws2 ++ FUNC ++ to_text n ++ to_text ">") in *.
  unfold scan_all, scan. set (s := P ++ inner ++ CLOSE ++ rest) in *.
  assert (find OPEN (ws ++ OPEN ++ s) = Some (length ws)) as Ho by (apply find_open, no_angle_find, spaces_no_tag; done).
  cbn [scan_loop sc_tool scan_start]. rewrite Ho. cbn [sc_emitted sc_index]. rewrite andb_false_r, drop_tag, take_app_length.
  replace (length (ws ++ OPEN ++ s)) with (S (length ws + 10 + length s)) by (rewrite !length_app, length_OPEN; lia).
  cbn [scan_loop sc_tool]. rewrite Hi. cbn [sc_index].
  assert (∃ x, take i s = P ++ x) as [x ->].
  { exists (take (i - length P) (inner ++ CLOSE ++ rest)). unfold s. by rewrite take_app_ge. }
  destruct (tstrip_call ws2 (to_text n) x Hws2) as [x' Hx]. unfold tool_call_deltas. fold P in Hx. rewrite Hx, parse_call by done.
  destruct (to_text n) as [|a nm] eqn:En; [by destruct Hc as [Hne _]; destruct n|].
  destruct (MAX_TOOL_ARGUMENTS_CHARS <? _) eqn:El; [apply Z.ltb_lt in El; pose proof (Hshort (JObj (xml_params loads MAX_XML_PARAMS (FUNC ++ (a :: nm) ++ to_text ">" ++ x') []))); lia|].
  destruct (scan_loop _ _ _ _ _ _ _ _) as [out r]. cbn [fmap list_fmap app].
  eexists ws, n, _, _. split_and!; [done|by apply Hsub| | |by rewrite <- app_assoc].
  - intros m Hm. rewrite (Hnamed m Hm) in Hn. by apply list_elem_of_singleton in Hn.
  - by rewrite En.
Qed.

(** ** A text with a call nobody allowed *)

Definition ex_tool (n : string) : pyval := VDict [("type", VStr "function"); ("function", VDict [("name", VStr n)])]%string.
Definition ex_choice : pyval := VDict [("type", VStr "function"); ("function", VDict [("name", VStr "good")])]%string.
Definition ex_inner : text := to_text "</function></tool_call><tool_call><function=evil>".
Definition ex_text : text :=
  [] ++ (((to_text "<tool_call>" ++ [] ++ to_text "<function=" ++ to_text "good" ++ to_text ">" ++ ex_inner ++ to_text "</function>" ++ [] ++
           to_text "</tool_call>")) ++ []).

Definition called (l : list item) : list string :=
  omap (λ i, match i with Call d => of_text <$> tc_function_name d | _ => None end) l.

(** The body of a call may be any text, a closing tag and another call too: a choice that
    names a function admits a text with a call of another one. *)
Lemma later_call_not_pinned :
  ∃ f, build_tool_choice_grammar (Some [ex_tool "good"; ex_tool "other"]) ex_choice qwen_xml = Ret (Some f) ∧
    lang (f_regex f) ex_text ∧ called (scan_all no_json show number qwen_xml true ex_text) = ["good"; "evil"]%string.
Proof.
  eexists. split; [reflexivity|]. split; [|vm_compute; reflexivity]. apply lang_seq; [by constructor|]. apply lang_one, lang_seq; [|by constructor].
  unfold qwen_block. rewrite !(assoc_L app).
  repeat (apply lang_seq; [|first [apply lang_lit|by constructor|apply lang_any|apply (lang_name ["good"%string] "good"); by left]]). apply lang_lit.
Qed.

Lemma forced_text_calls_witness :
  ∃ ws n d rest, Forall (λ a, is_space a = true) ws ∧ n = "good"%string ∧ tc_function_name d = Some (to_text n) ∧
    scan_all no_json (λ _, []) number qwen_xml true ex_text = (Chr <$> ws) ++ Call d :: rest.
Proof.
  destruct later_call_not_pinned as (f & Hf & Ht & _).
  destruct (forced_text_calls no_json (λ _, []) number true (Some [ex_tool "good"; ex_tool "other"]) ex_choice f ex_text Hf Ht)
    as (ws & n & d & rest & Hws & _ & Hn & Hd & Hs).
  - apply Forall_cons_2; [|apply Forall_cons_2; [|apply Forall_nil_2]]; (split; [done|]); repeat (apply Forall_cons_2; [done|]); apply Forall_nil_2.
  - intros j. vm_compute. discriminate.
  - exists ws, n, d, rest. split_and!; [done|by apply Hn|done|done].
Defined.
End ToolChoice.
