(* ===== verification/RunBatch.v ===== *)
(** Batches the worker sidecar has formed, [adapter_call_loop.py].

    [RunBatchExecutor] is what the loop asks of the queue executor and [RunBatchLaws] what it
    relies on, one outcome per item; the executors of [QueueExec.v] and [QueueScore.v] are an
    instance of both. *)

From stdpp Require Import strings.
From S2P Require Import Prelude PyDict Oom Handlers PyVal ModelConfig RuntimeOptions Metering Inputs TextPrep EncodePipeline Framing.
From S2P Require Import QueueExec QueueScore.
Import Handlers PyVal ModelConfig RuntimeOptions Inputs EncodePipeline Framing QueueExec QueueScore.
Local Open Scope Z_scope.
Local Open Scope py_scope.

Module RunBatch.

(** ** Requests *)

Definition RUN_BATCH_MIXED_OP : string := "run_batch_mixed_op".
Definition RUN_BATCH_UNKNOWN_OP : string := "run_batch_unknown_op".
Definition RUN_BATCH_INVALID_ITEM : string := "run_batch_invalid_item".

Record RunBatchItem (V : Type) := mkRunItem {
  r_op : string;
  r_key : ItemKey;
  r_encode : option (EncodeBatchItem V);
  r_score : option (ScoreBatchItem V);
  r_extract : option (ExtractBatchItem V);
}.
Arguments mkRunItem {V}.
Arguments r_op {V}.
Arguments r_key {V}.
Arguments r_encode {V}.
Arguments r_score {V}.
Arguments r_extract {V}.

Record RunBatchRequest (V : Type) := mkRunBatch { items : list (RunBatchItem V); lora_key : string }.
Arguments mkRunBatch {V}.
Arguments items {V}.
Arguments lora_key {V}.

(** The queue executor, for one model *)
Class RunBatchExecutor (W V R : Type) := {
  process_encode : W → list (EncodeBatchItem V) → W * res exc (list (ItemOutcome R));
  process_score : W → list (ScoreBatchItem V) → W * res exc (list (ItemOutcome R));
  process_extract : W → list (ExtractBatchItem V) → W * res exc (list (ItemOutcome R));
}.

(** One outcome per item, in order *)
Class RunBatchLaws (W V R : Type) `{!RunBatchExecutor W V R} : Prop := {
  encode_keys w l w' os : NoDup (work_item_id <$> (e_key <$> l)) → process_encode w l = (w', Ret os) → o_key <$> os = e_key <$> l;
  score_keys w l w' os : NoDup (work_item_id <$> (s_key <$> l)) → process_score w l = (w', Ret os) → o_key <$> os = s_key <$> l;
  extract_keys w l w' os : NoDup (work_item_id <$> (x_key <$> l)) → process_extract w l = (w', Ret os) → o_key <$> os = x_key <$> l;
}.

(** ** LoRAs *)

(** [_merge_lora_into_options] *)
Definition merge_lora_into_options (existing : option dict) (lora_key : string) : option dict :=
  if bool_decide (lora_key = ""%string) then existing
  else
    match existing with
    | None => Some [("lora"%string, VStr lora_key)]
    | Some d =>
        match get_val "lora" d with
        | VNone => Some (dict_set "lora"%string (VStr lora_key) d)
        | _ => existing
        end
    end.

(** [_with_options] *)
Definition encode_with_options {V} (bi : EncodeBatchItem V) (options : option dict) : EncodeBatchItem V :=
  mkEncodeItem (e_key bi) (e_item bi) (e_output_types bi) (e_instruction bi) (e_is_query bi) options (e_profile_id bi)
    (e_bundle_config_hash bi) (e_prepared_tokens bi).

Definition extract_with_options {V} (bi : ExtractBatchItem V) (options : option dict) : ExtractBatchItem V :=
  mkExtractItem (x_key bi) (x_item bi) (x_labels bi) (x_output_schema bi) (x_instruction bi) options (x_prepared_audio bi).

Section loop.
Context {W V R : Type} `{!RunBatchExecutor W V R}.
Abbreviation outcome := (ItemOutcome R).

(** ** Errors *)

(** The ids of the payload that is there, or the item's own *)
Definition payload_key (ri : RunBatchItem V) : ItemKey :=
  match r_encode ri, r_score ri, r_extract ri with
  | Some e, _, _ => e_key e
  | None, Some s, _ => s_key s
  | None, None, Some x => x_key x
  | None, None, None => r_key ri
  end.

(** [_reject_all] *)
Definition reject_all (req : RunBatchRequest V) (error_code error : string) : list outcome :=
  (λ ri, mkOutcome (payload_key ri) (PublishErrorAndAck error_code error)) <$> items req.

(** [_invalid_item_outcome] *)
Definition invalid_item_outcome (ri : RunBatchItem V) (reason : string) : outcome :=
  mkOutcome (r_key ri) (PublishErrorAndAck RUN_BATCH_INVALID_ITEM reason).

(** ** Dispatch *)

(** The items without a payload are answered; the others go to the executor. *)
Definition dispatch {A} (payload : RunBatchItem V → option A) (reason : string) (process : W → list A → W * res exc (list outcome))
    (w : W) (req : RunBatchRequest V) : W * res exc (list outcome) :=
  let invalid := omap (λ ri, match payload ri with None => Some (invalid_item_outcome ri reason) | Some _ => None end) (items req) in
  match omap payload (items req) with
  | [] => (w, Ret invalid)
  | l => match process w l with
         | (w', Ret os) => (w', Ret (invalid ++ os))
         | (w', Raise e) => (w', Raise e)
         end
  end.

(** [_dispatch_encode] *)
Definition dispatch_encode (w : W) (req : RunBatchRequest V) : W * res exc (list outcome) :=
  dispatch (λ ri, (λ e, encode_with_options e (merge_lora_into_options (e_options e) (lora_key req))) <$> r_encode ri)
    "op=encode but encode payload missing" process_encode w req.

(** [_dispatch_score]: the LoRA is ignored *)
Definition dispatch_score (w : W) (req : RunBatchRequest V) : W * res exc (list outcome) :=
  dispatch r_score "op=score but score payload missing" process_score w req.

(** [_dispatch_extract] *)
Definition dispatch_extract (w : W) (req : RunBatchRequest V) : W * res exc (list outcome) :=
  dispatch (λ ri, (λ x, extract_with_options x (merge_lora_into_options (x_options x) (lora_key req))) <$> r_extract ri)
    "op=extract but extract payload missing" process_extract w req.

(** [handle_run_batch] *)
Definition handle_run_batch (w : W) (req : RunBatchRequest V) : W * res exc (list outcome) :=
  match items req with
  | [] => (w, Ret [])
  | first :: _ =>
      let op := r_op first in
      if existsb (λ ri, negb (bool_decide (r_op ri = op))) (items req)
      then (w, Ret (reject_all req RUN_BATCH_MIXED_OP "mixed-op run_batch is not supported"))
      else if bool_decide (op = "encode"%string) then dispatch_encode w req
      else if bool_decide (op = "score"%string) then dispatch_score w req
      else if bool_decide (op = "extract"%string) then dispatch_extract w req
      else (w, Ret (reject_all req RUN_BATCH_UNKNOWN_OP ("unknown op '" +:+ op +:+ "'")))
  end.

(** ** Every item is answered *)

(** The payload carries the ids of its item. *)
Definition well_keyed (ri : RunBatchItem V) : Prop :=
  (∀ e, r_encode ri = Some e → e_key e = r_key ri) ∧ (∀ s, r_score ri = Some s → s_key s = r_key ri) ∧
  (∀ x, r_extract ri = Some x → x_key x = r_key ri).

Lemma dispatch_keys {A} (payload : RunBatchItem V → option A) (key : A → ItemKey) reason (l : list (RunBatchItem V)) :
  (∀ ri a, ri ∈ l → payload ri = Some a → key a = r_key ri) →
  (o_key <$> omap (λ ri, match payload ri with None => Some (invalid_item_outcome ri reason) | Some _ => None end) l) ++
  (key <$> omap payload l) ≡ₚ r_key <$> l.
Proof.
  induction l as [|ri l IH]; intros Hk; [done|]. cbn. specialize (IH (λ ri' a Hin, Hk ri' a (list_elem_of_further _ _ _ Hin))).
  destruct (payload ri) as [a|] eqn:E; cbn.
  - rewrite (Hk ri a) by (done || by left). by rewrite <- Permutation_middle, IH.
  - by rewrite IH.
Qed.

Lemma payload_ids {A} (payload : RunBatchItem V → option A) (key : A → ItemKey) (l : list (RunBatchItem V)) :
  (∀ ri a, ri ∈ l → payload ri = Some a → key a = r_key ri) → NoDup (work_item_id <$> (r_key <$> l)) →
  NoDup (work_item_id <$> (key <$> omap payload l)).
Proof.
  intros Hk. rewrite <- (dispatch_keys payload key "" l Hk), fmap_app. intros [_ [_ H]]%NoDup_app. done.
Qed.

Lemma dispatch_answers {A} (payload : RunBatchItem V → option A) (key : A → ItemKey) reason process w req w' os :
  (∀ w l w' os, NoDup (work_item_id <$> (key <$> l)) → process w l = (w', Ret os) → o_key <$> os = key <$> l) →
  (∀ ri a, ri ∈ items req → payload ri = Some a → key a = r_key ri) → NoDup (work_item_id <$> (r_key <$> items req)) →
  dispatch payload reason process w req = (w', Ret os) → o_key <$> os ≡ₚ r_key <$> items req.
Proof.
  intros Hp Hk Hnd. pose proof (dispatch_keys payload key reason _ Hk) as Hall. pose proof (payload_ids payload key _ Hk Hnd) as Hn.
  unfold dispatch. destruct (omap payload (items req)) as [|a l] eqn:E.
  - intros [= <- <-]. cbn in Hall. by rewrite app_nil_r in Hall.
  - destruct (process w (a :: l)) as [w1 [os1|e]] eqn:Ep; [|done]. intros [= <- <-]. rewrite fmap_app.
    rewrite (Hp w (a :: l) w1 os1 Hn Ep). exact Hall.
Qed.

Lemma reject_all_keys req code error : Forall well_keyed (items req) → o_key <$> reject_all req code error = r_key <$> items req.
Proof.
  intros H. unfold reject_all. rewrite <- list_fmap_compose. induction H as [|ri l (He & Hs & Hx) _ IH]; [done|]. cbn. rewrite IH. f_equal.
  unfold payload_key. destruct (r_encode ri), (r_score ri), (r_extract ri); auto.
Qed.
End loop.

(** A batch of the sidecar is answered item by item, whatever its operation and whichever
    items lack their payload: the outcomes are one per item, under the items' ids. *)
Theorem run_batch_answers {W V R} `{!RunBatchExecutor W V R, !RunBatchLaws W V R} (w : W) (req : RunBatchRequest V) w' os :
  NoDup (work_item_id <$> (r_key <$> items req)) → Forall well_keyed (items req) → handle_run_batch w req = (w', Ret os) →
  o_key <$> os ≡ₚ r_key <$> items req.
Proof.
  intros Hnd Hk. unfold handle_run_batch. destruct (items req) as [|first l] eqn:E; [by intros [= <- <-]|]. rewrite <- E in *. clear E l.
  assert (∀ ri, ri ∈ items req → well_keyed ri) as Hw by by apply Forall_forall.
  destruct (existsb _ _); [intros [= <- <-]; by rewrite reject_all_keys by done|].
  case_bool_decide; [|case_bool_decide; [|case_bool_decide; [|intros [= <- <-]; by rewrite reject_all_keys by done]]].
  - apply (dispatch_answers _ e_key); [apply encode_keys| |done]. intros ri a Hri. destruct (Hw ri Hri) as (He & _).
    destruct (r_encode ri) as [e|]; [|done]. intros [= <-]. by apply (He e).
  - apply (dispatch_answers _ s_key); [apply score_keys| |done]. intros ri a Hri. apply Hw, Hri.
  - apply (dispatch_answers _ x_key); [apply extract_keys| |done]. intros ri a Hri. destruct (Hw ri Hri) as (_ & _ & Hx).
    destruct (r_extract ri) as [x|]; [|done]. intros [= <-]. by apply (Hx x).
Qed.

(** The batch's LoRA reaches every item that does not ask for its own; nothing else of the
    options changes. *)
Theorem batch_lora_reaches_items existing lora k :
  lora ≠ ""%string →
  let merged := default [] (merge_lora_into_options existing lora) in
  let given := default [] existing in
  get_val k merged =
    if decide (k = "lora"%string) then match get_val "lora" given with VNone => VStr lora | v => v end else get_val k given.
Proof.
  intros Hl. unfold merge_lora_into_options. rewrite bool_decide_eq_false_2 by done. destruct existing as [d|]; cbn [default Datatypes.id].
  - destruct (get_val "lora" d) eqn:E; cbn [default Datatypes.id]; [unfold get_val at 1; rewrite dict_get_set; by repeat case_decide; subst|..];
      (case_decide; [subst; by rewrite E|done]).
  - unfold get_val. cbn. by repeat case_decide.
Qed.

(** ** The queue executor *)

Inductive run_result (D Sc : Type) :=
  | EncodeResult (r : result D)
  | ScoreResult (r : result (list Sc))
  | ExtractResult (r : result D).
Arguments EncodeResult {D Sc}.
Arguments ScoreResult {D Sc}.
Arguments ExtractResult {D Sc}.

Definition map_outcome {A B} (f : A → B) (o : ItemOutcome A) : ItemOutcome B :=
  mkOutcome (o_key o) (match o_disposition o with
                       | PublishAndAck r u => PublishAndAck (f r) u
                       | PublishErrorAndAck c m => PublishErrorAndAck c m
                       | NakRetry d => NakRetry d
                       end).

Definition map_outcomes {A B W} (f : A → B) (r : W * res exc (list (ItemOutcome A))) : W * res exc (list (ItemOutcome B)) :=
  (r.1, match r.2 with Ret os => Ret (map_outcome f <$> os) | Raise e => Raise e end).

Lemma map_outcomes_keys {A B W} (f : A → B) (r : W * res exc (list (ItemOutcome A))) w' os :
  map_outcomes f r = (w', Ret os) → ∃ os', r.2 = Ret os' ∧ o_key <$> os = o_key <$> os'.
Proof.
  destruct r as [w [os'|e]]; cbn; [|done]. intros [= <- <-]. exists os'. split; [done|]. rewrite <- list_fmap_compose. by apply list_fmap_ext.
Qed.

Section executor.
Context {D Sc V W En Cl Rel Obj Er P : Type} (env : Env D V).
Context `{!EncodeServices (nd D) (nd D * nd D) (nd D) W, !ScoreServices Sc W, !ScoreLaws Sc W}.
Context `{!ExtractServices P (ExtractOutput (En := En) (Cl := Cl) (Rel := Rel) (Obj := Obj) (Er := Er)) W}.
Context (get_config : W → option ModelConfig) (count_images : W → option (list Item → res exc Metering.evidence)).
Context (pack : string → Extraction En Cl Rel Obj Er → res exc string).

#[local] Instance queue_executor : RunBatchExecutor W V (run_result D Sc) := {|
  process_encode w l :=
    match process_encode_batch env get_config count_images w l with
    | Some (s, r) => map_outcomes EncodeResult (world s, r)
    | None => (w, Ret [])
    end;
  process_score w l := map_outcomes ScoreResult (process_score_batch env w l);
  process_extract w l := map_outcomes ExtractResult (process_extract_batch env pack w l);
|}.

(** The executors keep what the loop relies on. *)
Lemma queue_executor_laws :
  convert_law env → (∀ id x, ∃ b, pack id x = Ret b) →
  (∀ w lora reqs w' rs, ex_submit w lora reqs = (w', Ret rs) →
     length rs = length reqs ∧ Forall (λ r, ∀ o, r = Ret o → extract_single o) rs) →
  RunBatchLaws W V (run_result D Sc).
Proof.
  intros Hl Hpack Hsub. split; intros w l w' os Hnd; cbn [process_encode process_score process_extract queue_executor].
  - destruct (encode_batch_settled env get_config count_images w l Hl Hnd) as (s & r & -> & Hr & _).
    intros (os' & E & ->)%map_outcomes_keys. cbn in E. subst r. done.
  - intros (os' & E & ->)%map_outcomes_keys. pose proof (score_batch_settled env w l Hnd) as H. rewrite E in H. apply H.
  - intros (os' & E & ->)%map_outcomes_keys. pose proof (extract_batch_settled env pack w l Hnd Hpack Hsub) as H. rewrite E in H. apply H.
Qed.
End executor.
End RunBatch.
